(* ===== verification/_CoqProject ===== *)
-Q . S2P
Prelude.v
Execution.v
Tasks.v
GoHeap.v
AdmissionTypes.v
DeadlineIndex.v
ReadyQueue.v
Admission.v
AdmissionInvariant.v
AdmissionTheorems.v
EngineAccounting.v
AdmissionInstance.v
EngineConfig.v
EngineState.v
Delivery.v
BoundedQueue.v
Utf8.v
CommandText.v
CallbackToken.v
InteractionState.v
InteractionOps.v
InteractionInvariant.v
InteractionSteps.v
InteractionSections.v
InteractionLifecycle.v
InteractionRuntime.v
InteractionTheorems.v
InteractionRestart.v
InteractionDispatch.v
Topology.v
ModuleGraph.v
RuntimeGraph.v
RuntimeLifecycle.v
Supervisor.v
CallbackExecutor.v
ResourceManager.v
ResourceTheorems.v
PersistencePump.v
JobStore.v
JobInvariant.v
JobSteps.v
JobTheorems.v
JobRetry.v
JobManager.v
JobSystem.v
JobWorkers.v
JobManagerTheorems.v
TimerHeap.v
ScheduleStore.v
PeriodicTables.v
Periodic.v
ClaimStore.v
Idempotency.v
CleanupLoop.v
Executor.v
DeliveryProgress.v
DurabilityLane.v
Engine.v
EngineInvariant.v
EngineSteps.v
EngineDispatch.v
EngineHandlers.v
EngineSystem.v
EngineSample.v
SubmitProtocol.v
EngineTheorems.v
