(* ===== verification/Prelude.v ===== *)
(** * The execution core of GoUltroid

    GoUltroid is a Telegram userbot. Every command, scheduled job and plugin runs
    its work through one in-process execution core, and that core with the services it
    stands on is what this development models: the task data model, the admission
    controller, the task engine, the runtime that starts and stops the components, the
    queues and pumps between them, the idempotency claims and the timers, all under
    [src/internal/].

    ** The program and its parts

    - [internal/execution] and [internal/tasks] are the vocabulary: dispositions
      and retry semantics of errors, task specifications, states and results.
    - [internal/admission] decides which waiting task runs next: per pool, a
      deficit round robin over priority classes and, in a class, over quota
      owners, each with a FIFO queue; a deadline heap expires waiting tasks; an
      ordering key is a lock that keeps two tasks of one key from running at once.
    - [internal/taskengine] is the coordinator: one goroutine ([runLoop]) owns the
      records of all tasks, the idle worker slots, the resources in use, the
      memory charges and the commit phase of durable tasks. Submissions,
      cancellations, worker reports and commit acknowledgements reach it as
      requests on one channel, so its state changes one request at a time. Workers
      run an assignment ([executor.go]) and report back; the durability lane and the
      completion lane run commits and user callbacks on bounded workers of their own.
    - [internal/runtime] and [internal/module] order the components by their
      dependencies, start them, roll a failed start back, stop them dependents first,
      and supervise long-lived workers with a restart budget.
    - [internal/queue] is the bounded queue with two condition variables,
      [internal/core] parses commands, [internal/resource] tracks what owners hold and
      cleans it up, [internal/jobs] keeps definitions, occurrences and leased attempts of
      jobs in tables, persists outcomes through a pump and retries what failed.
    - [internal/idempotency] claims an execution once, over an in-memory map or SQL
      rows, and a cleanup worker evicts what expired.
    - [internal/scheduler] keeps schedules: a timer heap, the rows of the repository
      with their leases, and the coordinator of periodic tasks.
    - [internal/interaction] owns the sessions behind inline keyboards: bounded, bound to
      an actor and a message, expiring, some durable over a restart. A button carries a
      token with the session and its revision; the dispatcher turns a pressed button into
      an action of the feature's handler, prepared before its task is queued and checked
      again when it runs.

    ** Files

    - [Prelude]: 64-bit integers, instants, strings as Go trims them, maps of
      counters, sums over maps and lists, and the automation ([split_and_all],
      [zify_map], the hint and rewrite databases [go]).
    - [Execution]: [execution/result.go], [actor.go], [source.go], [metadata.go].
      A Go error is its dynamic type, its text and the errors it wraps;
      [errors_As] and [errors_Is] search it as the standard library does.
    - [Tasks]: [tasks/*.go].
    - [GoHeap]: [container/heap] of the Go standard library over the methods of
      [deadline_heap.go], with each element's stored index; [DeadlineIndex] the
      index built on it.
    - [ReadyQueue]: the doubly linked list of [ready_queue.go] as a heap of nodes.
    - [AdmissionTypes]: entries, limits, and the interfaces: [FifoOps]/[FifoLaws]
      and [DeadlineOps]/[DeadlineLaws], which the controller is proved against,
      and [AdmissionOps]/[AdmissionLaws], which the engine is proved against.
    - [Admission]: every operation of [controller.go]; [AdmissionInvariant] its
      invariant and the loops of the selection; [AdmissionTheorems] its
      properties; [AdmissionInstance] the instance of [AdmissionLaws].
    - [EngineAccounting]: [accounting.go]. [EngineConfig]: [engine_config.go].
      [EngineState]: the records and the state of the coordinator, [NewEngine].
    - [Delivery]: the completion lane of [delivery.go] as interleaved steps of its
      workers, the enqueuing coordinator and the clock; [DeliveryProgress] that it
      runs every callback. [DurabilityLane]: [durability_lane.go] the same way.
      [Executor]: [executor.go] and [permit.go], one assignment with its deferred
      functions.
    - [Engine]: every handler of the coordinator ([engine_completion.go],
      [engine_dispatch.go], [engine_admission.go], [durability.go],
      [diagnostics.go], [engine.go]), up to [handleRequest] and [run_event].
    - [EngineInvariant], [EngineSteps], [EngineDispatch], [EngineHandlers]: the
      invariant and its preservation by each handler.
    - [EngineSystem]: the coordinator with its workers as a transition system
      ([system_step]) and an executable scheduler ([run_steps]); [EngineSample] the
      runs the witnesses use. [SubmitProtocol]: the caller's side of a submission,
      with its two decision cells, interleaved with the coordinator.
    - [EngineTheorems]: the properties of the reachable states of the system.
    - [BoundedQueue]: [queue/queue.go], producers, consumers and context watchers as
      interleaved steps around the mutex and the condition variables.
    - [Utf8], [CommandText]: runes of a byte string, and the tokenizer and parser of
      [core/router.go] and [core/parser.go].
    - [Topology]: the sorted Kahn traversal [RuntimeGraph] ([runtime/graph.go]) and
      [ModuleGraph] ([module/resolver.go]) share.
    - [RuntimeLifecycle]: [runtime/runtime.go] and [state.go]. [Supervisor]:
      [supervisor.go], workers with their restarts as steps.
    - [CallbackExecutor]: [runtime/callback_executor.go]. [ResourceManager],
      [ResourceTheorems]: [resource/manager.go], the forced cleanup as steps of its
      callers, the executor and the callbacks.
    - [PersistencePump]: [jobs/persistence_pump.go], its workers as steps. [JobStore]:
      [jobs/domain.go] and the statements of [jobs/sqlite]; [JobInvariant], [JobSteps],
      [JobTheorems]: the tables' invariant and the life of an occurrence; [JobRetry]: what
      [manager_retry.go], [manager_recovery.go], [manager_attempt.go] and
      [manager_schedule.go] decide over the store.
    - [JobManager]: [jobs/manager.go] and the goroutines of those files as program
      counters, with the engine as its tickets; [JobSystem]: the attempts goroutines and
      tickets hold; [JobWorkers]: the counters of the retry workers;
      [JobManagerTheorems]: the properties of its executions.
    - [ClaimStore]: the claims of [internal/idempotency] over the map of [manager.go]
      and over the statements of [repository.go]; [Idempotency]: [claim.go], with the
      lease automaton the claims refine; [CleanupLoop]: the cleanup worker of
      [manager.go].
    - [TimerHeap]: [scheduler/heap.go]. [ScheduleStore]: [scheduler/repository.go], a
      statement being its effect on the rows. [PeriodicTables], [Periodic]:
      [scheduler/periodic_timer.go], its sections and the interleaving of callers and
      loops.
    - [CallbackToken]: [interaction/token.go] and the identifiers of [types.go], with the
      base 36 and base64 of the standard library they use.
    - [InteractionState], [InteractionOps]: the types of [interaction/], and what each
      operation does while it holds the lock; [InteractionInvariant], [InteractionSteps],
      [InteractionSections], [InteractionLifecycle]: the indexes, the expiry heap, the
      limits and the stored rows, kept by every section; [InteractionRuntime]: the whole
      operations, with other goroutines between their sections; [InteractionTheorems],
      [InteractionRestart]: their properties; [InteractionDispatch]: [dispatcher.go].

    ** How the code is modelled

    Integers are [Z]; counters and sums are bounded by memory, so Go's [int] does
    not overflow in them, and [wrap64] is written out where the code can wrap.
    A nil pointer or map entry is [None]. Everything the Go runtime chooses is a
    parameter: [clock n k] is the [k]-th reading of the clock in the [n]-th round,
    [pool_order] and [id_order] the order in which the [n]-th [range] over a map
    visits it, [answer] whether the durability lane or the commit pump accepted
    the [n]-th request, [resolver] the registered handler resolver. The theorems
    hold for all of them. What would stop or block the coordinator (a second close
    of a channel, a send on a full mailbox, a nil record, an index out of range)
    is recorded as a [fault]; [coordinator_never_stops] shows there is none.
    A concurrent component is a transition function over its shared state and the
    program counters of its goroutines: what runs under a lock is one step, and so are
    a channel operation, the choice of a [select], a timer that fires and an answer of
    another component, which the event carries. Theorems quantify over every sequence
    of events. SQL statements are functions on the rows of their table; a database
    error is a boolean of the call. Loops are fixpoints on fuel: the length of the list
    they shorten, or the number of waiting tasks and one, which each round decreases;
    the properties of the loops are proved for that fuel.

    ** What the theorems show

    - The engine ([EngineTheorems], [SubmitProtocol], [Executor], [DurabilityLane]):
      safety of the coordinator, exclusivity of resources, ordering keys and workers,
      exact accounting of credits and bytes, agreement with the admission controller,
      fencing of completions and acknowledgements, settlement of every task at
      shutdown, linearizable submissions that return, at most one execution.
    - Admission ([AdmissionTheorems], [ReadyQueue], [DeadlineIndex]): the invariant
      of the controller, soundness and completeness of the selection, order
      within an ordering key, exact admission limits, round trip of enqueue and
      cancel, expiry, refinement of the FIFO queue.
    - Delivery: a reserved callback always finds room in the lane, its bounds, and that
      the lane drains; one interleaving shows that [drain] can return too early.
    - Runtime ([RuntimeGraph], [ModuleGraph], [RuntimeLifecycle], [Supervisor]): the
      start order is the least topological order, resolution decides exactly, a start
      ends with everything started or rolled back, shutdown stops dependents first,
      restarts stay in the budget.
    - Queues and pumps ([BoundedQueue], [CallbackExecutor], [PersistencePump]): FIFO
      refinement, no lost wake-up, bounds, a drain that completes, exact bookkeeping.
    - Resources ([ResourceTheorems]): a resource leaves the tracking only when it is
      released or its cleanup succeeded, runs of a cleanup are exact, waiters are released.
    - Jobs ([JobTheorems], [JobRetry], [JobManagerTheorems]): an occurrence has one
      handler at a time and an acknowledged result is in the store, whatever fails or
      interleaves; waiting retries have a worker and [Stop] joins; an occurrence follows
      its automaton, attempts are
      numbered and leased one at a time, an attempt settles once, the recovery decides as
      the monitor would have, the one-query summary agrees with the reads it replaces, a
      missed schedule keeps its phase without overflow.
    - Claims ([Idempotency], [CleanupLoop]): both stores refine one lease automaton,
      and whenever something is left to expire a cleanup pass is armed.
    - Schedules ([TimerHeap], [ScheduleStore], [Periodic]): the due timers come out in
      order; a lost lease never settles a row again, a recurring job advances to its
      next slot; a periodic slot settles once, a registration is in flight once, and no
      tick is slept through.
    - Data ([Tasks], [EngineConfig], [CommandText]): validation, classification of
      errors, held resources, round trip of the tokenizer.
    - Interaction sessions ([InteractionTheorems], [InteractionRestart],
      [InteractionDispatch], [CallbackToken]): indexes, heap, limits and rows are exact at
      every interleaving; a prune takes exactly what expired; a callback acts on the view
      its button was drawn for, an update consumes its revision, a restart gives back
      exactly the live durable sessions, a queued action runs on its own registration or
      not at all; tokens round trip and the parser is strict.

    ** Not modelled

    The blocking selects of the public API ([engine_api.go], [ticket.go],
    [shutdown.go]), the pooling of request envelopes, the scheduler's engine over its
    repository, the migrator of the job tables, and the rest of the bot (Telegram
    transport, plugins, services, SQL stores), which is I/O around this core. *)

From Stdlib Require Export ZArith Lia.
From stdpp Require Export strings gmap fin_maps sets option list.

#[global] Open Scope Z_scope.

(** ** Go machine integers and the [time] package *)

(** Two's-complement wrap-around of Go's [int64]. *)
Definition wrap64 (z : Z) : Z := (z + 2 ^ 63) mod 2 ^ 64 - 2 ^ 63.

Definition max_int64 : Z := 2 ^ 63 - 1.
Definition min_int64 : Z := - 2 ^ 63.

(** [time.Time] is the number of nanoseconds since Go's zero time, so that the
    zero value of the type is [0] and [IsZero] is the test against it;
    [time.Duration] is a signed 64-bit number of nanoseconds. *)
Abbreviation time := Z (only parsing).
Abbreviation duration := Z (only parsing).

Definition is_zero (t : time) : bool := t =? 0.
Definition before (t u : time) : bool := t <? u.
Definition after (t u : time) : bool := u <? t.

(** [t.Sub(u)] saturates at the bounds of [time.Duration]. *)
Definition time_sub (t u : time) : duration := Z.max min_int64 (Z.min max_int64 (t - u)).
Definition time_add (t : time) (d : duration) : time := t + d.

Definition second : duration := 1000000000.
Definition millisecond : duration := 1000000.
Definition minute : duration := 60 * second.

(** ** [strings.TrimSpace] on UTF-8 byte strings *)

(** The UTF-8 encodings of the code points [unicode.IsSpace] accepts. A start
    byte never is a continuation byte, so a byte string ends in a white-space
    rune exactly when one of these sequences is a suffix of it. *)
Definition space_seqs : list (list Z) :=
  [[9]; [10]; [11]; [12]; [13]; [32]; [194; 133]; [194; 160]; [225; 154; 128];
   [226; 128; 128]; [226; 128; 129]; [226; 128; 130]; [226; 128; 131]; [226; 128; 132];
   [226; 128; 133]; [226; 128; 134]; [226; 128; 135]; [226; 128; 136]; [226; 128; 137];
   [226; 128; 138]; [226; 128; 168]; [226; 128; 169]; [226; 128; 175]; [226; 129; 159];
   [227; 128; 128]].

Definition byte_of (a : Ascii.ascii) : Z := Z.of_nat (Ascii.nat_of_ascii a).

Fixpoint strip_prefix (p : list Z) (s : list Ascii.ascii) : option (list Ascii.ascii) :=
  match p, s with
  | [], _ => Some s
  | b :: p', a :: s' => if b =? byte_of a then strip_prefix p' s' else None
  | _ :: _, [] => None
  end.

Fixpoint strip_first (ps : list (list Z)) (s : list Ascii.ascii) : option (list Ascii.ascii) :=
  match ps with
  | [] => None
  | p :: ps' => match strip_prefix p s with Some s' => Some s' | None => strip_first ps' s end
  end.

Fixpoint trim_with (fuel : nat) (ps : list (list Z)) (s : list Ascii.ascii) : list Ascii.ascii :=
  match fuel with
  | O => s
  | S fuel' => match strip_first ps s with Some s' => trim_with fuel' ps s' | None => s end
  end.

(** Each round removes at least one byte, so the length of the text is enough
    fuel. *)
Definition trim_left (s : list Ascii.ascii) : list Ascii.ascii := trim_with (length s) space_seqs s.
Definition trim_right (s : list Ascii.ascii) : list Ascii.ascii :=
  rev (trim_with (length s) (map (@rev Z) space_seqs) (rev s)).

Definition trim_space (s : string) : string :=
  String.string_of_list_ascii (trim_right (trim_left (String.list_ascii_of_string s))).

Definition blank (s : string) : bool := bool_decide (trim_space s = EmptyString).

(** Go's [len] of a string: its bytes. *)
Definition slen (s : string) : Z := Z.of_nat (String.length s).

(** ** Sums over finite maps *)

Definition msum {K V} `{Countable K} (f : V -> Z) (m : gmap K V) : Z :=
  map_fold (fun _ v acc => f v + acc) 0 m.

Definition lsum {A} (f : A -> Z) (l : list A) : Z := foldr (fun x acc => f x + acc) 0 l.

(** A Go map read of a numeric map: the zero value for an absent key. *)
Definition zget {K} `{Countable K} (k : K) (m : gmap K Z) : Z := default 0 (m !! k).

(** Maps of maps, as Go nests them. Go panics on an assignment into a missing
    inner map; [set2] leaves such a map alone, and the models that use it say
    why the inner map exists. *)
Definition get2 {K1 K2 V} `{Countable K1} `{Countable K2} (i : K1) (j : K2)
    (m : gmap K1 (gmap K2 V)) : option V := m !! i ≫= fun x => x !! j.
Definition set2 {K1 K2 V} `{Countable K1} `{Countable K2} (i : K1) (j : K2) (v : V)
    (m : gmap K1 (gmap K2 V)) : gmap K1 (gmap K2 V) := alter (fun x => <[j := v]> x) i m.
Definition del2 {K1 K2 V} `{Countable K1} `{Countable K2} (i : K1) (j : K2)
    (m : gmap K1 (gmap K2 V)) : gmap K1 (gmap K2 V) := alter (fun x => delete j x) i m.

(** ** Rotations: the order in which a cursor visits a list *)

Definition rot {A} (l : list A) (cursor : nat) : list A :=
  let c := if (length l <=? cursor)%nat then 0%nat else cursor in drop c l ++ take c l.

Definition wrap_cursor {A} (l : list A) (cursor : nat) : nat :=
  if (length l <=? cursor)%nat then 0%nat else cursor.

(** ** Automation *)

Create HintDb go discriminated.
Create Rewrite HintDb go.

Ltac split_and_all := repeat match goal with |- _ /\ _ => split end.

(** Case analysis on the innermost [match] scrutinee of the goal. *)
Ltac case_inner :=
  match goal with
  | |- context [match ?x with _ => _ end] =>
      lazymatch x with
      | context [match _ with _ => _ end] => fail
      | _ => destruct x eqn:?
      end
  end.

Ltac case_inner_in H :=
  match type of H with
  | context [match ?x with _ => _ end] =>
      lazymatch x with
      | context [match _ with _ => _ end] => fail
      | _ => destruct x eqn:?
      end
  end.

Ltac bool_to_prop :=
  repeat match goal with
  | H : andb _ _ = true |- _ => apply andb_true_iff in H; destruct H
  | H : orb _ _ = false |- _ => apply orb_false_iff in H; destruct H
  | H : negb _ = true |- _ => apply negb_true_iff in H
  | H : negb _ = false |- _ => apply negb_false_iff in H
  | H : (_ <? _) = true |- _ => apply Z.ltb_lt in H
  | H : (_ <? _) = false |- _ => apply Z.ltb_ge in H
  | H : (_ <=? _) = true |- _ => apply Z.leb_le in H
  | H : (_ <=? _) = false |- _ => apply Z.leb_gt in H
  | H : (_ =? _) = true |- _ => apply Z.eqb_eq in H
  | H : (_ =? _) = false |- _ => apply Z.eqb_neq in H
  | H : bool_decide _ = true |- _ => apply bool_decide_eq_true in H
  | H : bool_decide _ = false |- _ => apply bool_decide_eq_false in H
  end.

(** ** Lemmas *)

Section Wrap.

Lemma wrap64_range z : min_int64 <= wrap64 z <= max_int64.
Proof.
  unfold wrap64, min_int64, max_int64.
  pose proof (Z.mod_pos_bound (z + 2 ^ 63) (2 ^ 64) ltac:(lia)). lia.
Qed.

Lemma wrap64_id z : min_int64 <= z <= max_int64 -> wrap64 z = z.
Proof. unfold wrap64, min_int64, max_int64. intros. rewrite Z.mod_small; lia. Qed.

Lemma wrap64_add_l a b : wrap64 (wrap64 a + b) = wrap64 (a + b).
Proof.
  unfold wrap64. f_equal.
  replace ((a + 2 ^ 63) mod 2 ^ 64 - 2 ^ 63 + b + 2 ^ 63) with ((a + 2 ^ 63) mod 2 ^ 64 + b) by lia.
  rewrite Zplus_mod_idemp_l. f_equal; lia.
Qed.

Lemma wrap64_sub_l a b : wrap64 (wrap64 a - b) = wrap64 (a - b).
Proof. rewrite <- !Z.add_opp_r. apply wrap64_add_l. Qed.

End Wrap.

Section Sums.
Context {K V : Type} `{Countable K}.
Implicit Types (m : gmap K V) (f : V -> Z).

Lemma msum_empty f : msum f (∅ : gmap K V) = 0.
Proof. apply map_fold_empty. Qed.

Lemma msum_insert_fresh f m k v :
  m !! k = None -> msum f (<[k := v]> m) = f v + msum f m.
Proof.
  intros Hk. unfold msum. rewrite map_fold_insert_L; auto. intros; lia.
Qed.

Lemma msum_delete f m k v :
  m !! k = Some v -> msum f m = f v + msum f (delete k m).
Proof.
  intros Hk. unfold msum. erewrite map_fold_delete_L; eauto. intros; simpl; lia.
Qed.

Lemma msum_insert f m k v v0 :
  m !! k = Some v0 -> msum f (<[k := v]> m) = msum f m - f v0 + f v.
Proof.
  intros Hk. rewrite <- insert_delete_eq.
  rewrite msum_insert_fresh by apply lookup_delete_eq.
  rewrite (msum_delete f m k v0 Hk). lia.
Qed.

Lemma msum_zero f m : (forall k v, m !! k = Some v -> f v = 0) -> msum f m = 0.
Proof.
  induction m as [|k v m Hk IH] using map_ind; intros Hf; [apply msum_empty|].
  rewrite msum_insert_fresh, IH, (Hf k v); [done|apply lookup_insert_eq| |done].
  intros k' v' Hl. apply (Hf k'). rewrite lookup_insert_ne; congruence.
Qed.

Lemma msum_nonneg f m : (forall k v, m !! k = Some v -> 0 <= f v) -> 0 <= msum f m.
Proof.
  induction m as [|k v m Hk IH] using map_ind; intros Hf.
  - rewrite msum_empty; lia.
  - rewrite msum_insert_fresh by done.
    assert (0 <= f v) by (apply (Hf k); apply lookup_insert_eq).
    assert (0 <= msum f m).
    { apply IH. intros k' v' Hl. apply (Hf k'). rewrite lookup_insert_ne; congruence. }
    lia.
Qed.

Lemma msum_ext f g m :
  (forall k v, m !! k = Some v -> f v = g v) -> msum f m = msum g m.
Proof.
  induction m as [|k v m Hk IH] using map_ind; intros Hf.
  - now rewrite !msum_empty.
  - rewrite !msum_insert_fresh by done.
    rewrite (Hf k v) by apply lookup_insert_eq.
    rewrite IH; [done|]. intros k' v' Hl. apply (Hf k'). rewrite lookup_insert_ne; congruence.
Qed.

Lemma msum_lookup_le f m k v :
  (forall k v, m !! k = Some v -> 0 <= f v) -> m !! k = Some v -> f v <= msum f m.
Proof.
  intros Hf Hk. rewrite (msum_delete f m k v Hk).
  assert (0 <= msum f (delete k m)); [|lia].
  apply msum_nonneg. intros k' v' Hl. apply (Hf k').
  by apply lookup_delete_Some in Hl as [_ ?].
Qed.

End Sums.

Section Nested.
Context {K1 K2 V : Type} `{Countable K1} `{Countable K2}.
Implicit Types (m : gmap K1 (gmap K2 V)).

Lemma get2_set2 m i j v : is_Some (m !! i) -> get2 i j (set2 i j v m) = Some v.
Proof.
  intros [x Hx]. unfold get2, set2. rewrite lookup_alter_eq, Hx. simpl. apply lookup_insert_eq.
Qed.

Lemma get2_set2_ne m i j v i' j' :
  i' <> i \/ j' <> j -> get2 i' j' (set2 i j v m) = get2 i' j' m.
Proof.
  intros Hne. unfold get2, set2. destruct (decide (i' = i)) as [->|Hi].
  - rewrite lookup_alter_eq. destruct (m !! i) as [x|]; simpl; [|done].
    apply lookup_insert_ne. naive_solver.
  - by rewrite lookup_alter_ne by done.
Qed.

Lemma get2_del2 m i j : get2 i j (del2 i j m) = None.
Proof.
  unfold get2, del2. rewrite lookup_alter_eq. destruct (m !! i); simpl; [|done].
  apply lookup_delete_eq.
Qed.

Lemma get2_del2_ne m i j i' j' : i' <> i \/ j' <> j -> get2 i' j' (del2 i j m) = get2 i' j' m.
Proof.
  intros Hne. unfold get2, del2. destruct (decide (i' = i)) as [->|Hi].
  - rewrite lookup_alter_eq. destruct (m !! i) as [x|]; simpl; [|done].
    apply lookup_delete_ne. naive_solver.
  - by rewrite lookup_alter_ne by done.
Qed.

Lemma set2_outer m i j v k : is_Some (set2 i j v m !! k) <-> is_Some (m !! k).
Proof.
  unfold set2. destruct (decide (k = i)) as [->|Hne].
  - rewrite lookup_alter_eq. by rewrite fmap_is_Some.
  - by rewrite lookup_alter_ne by done.
Qed.

Lemma del2_outer m i j k : is_Some (del2 i j m !! k) <-> is_Some (m !! k).
Proof.
  unfold del2. destruct (decide (k = i)) as [->|Hne].
  - rewrite lookup_alter_eq. by rewrite fmap_is_Some.
  - by rewrite lookup_alter_ne by done.
Qed.

Lemma get2_outer m i j v : get2 i j m = Some v -> is_Some (m !! i).
Proof. unfold get2. by destruct (m !! i). Qed.

End Nested.

Section Counters.
Context {K : Type} `{Countable K}.
Implicit Types (m : gmap K Z).

Lemma zget_insert m k v : zget k (<[k := v]> m) = v.
Proof. unfold zget. by rewrite lookup_insert_eq. Qed.

Lemma zget_insert_ne m k k' v : k' <> k -> zget k' (<[k := v]> m) = zget k' m.
Proof. intros. unfold zget. by rewrite lookup_insert_ne. Qed.

End Counters.

Section Lists.
Context {A : Type}.
Implicit Types (l : list A) (f : A -> Z).

Lemma lsum_app f l1 l2 : lsum f (l1 ++ l2) = lsum f l1 + lsum f l2.
Proof. induction l1 as [|x l1 IH]; simpl; [done|]. unfold lsum in *. simpl. lia. Qed.

(** A list without duplicate keys splits at an element in one way. *)
Lemma before_unique {B} (key : A -> B) (l1 l2 m1 m2 : list A) (e x : A) :
  l1 ++ e :: l2 = m1 ++ e :: m2 -> NoDup (map key (l1 ++ e :: l2)) -> x ∈ l1 -> x ∈ m1.
Proof.
  revert m1. induction l1 as [|y l1 IH]; intros m1 Heq Hnd Hx; [by apply not_elem_of_nil in Hx|].
  simpl in Hnd. apply NoDup_cons in Hnd as [Hn Hnd].
  destruct m1 as [|z m1]; simpl in Heq; injection Heq as -> Heq.
  - exfalso. apply Hn. apply list_elem_of_fmap_2. set_solver.
  - apply elem_of_cons in Hx as [->|Hx]; [by left|]. right. by apply (IH m1).
Qed.

Lemma lsum_fmap {B} (g : B -> A) f (l : list B) : lsum f (g <$> l) = lsum (fun x => f (g x)) l.
Proof. unfold lsum. induction l as [|x l IH]; simpl; [done|]. f_equal. exact IH. Qed.

Lemma lsum_nonneg f l : (forall x, x ∈ l -> 0 <= f x) -> 0 <= lsum f l.
Proof.
  induction l as [|x l IH]; intros Hf; [done|]. unfold lsum in *; simpl.
  assert (0 <= f x) by (apply Hf; left).
  assert (0 <= foldr (fun x acc => f x + acc) 0 l) by (apply IH; intros; apply Hf; by right). lia.
Qed.

End Lists.

Section Rotations.

Lemma wrap_cursor_lookup {A} (l : list A) cursor :
  l <> [] -> exists x, l !! wrap_cursor l cursor = Some x.
Proof.
  intros Hl. unfold wrap_cursor. destruct (Nat.leb_spec (length l) cursor).
  - destruct l; [done|]. eauto.
  - by apply lookup_lt_is_Some_2.
Qed.

Lemma rot_elem {A} (l : list A) c x : x ∈ rot l c <-> x ∈ l.
Proof.
  unfold rot. set (i := if (_ <=? _)%nat then _ else _). rewrite <- (take_drop i l) at 3.
  rewrite !elem_of_app. tauto.
Qed.

Lemma rot_length {A} (l : list A) c : length (rot l c) = length l.
Proof. unfold rot. rewrite length_app, length_drop, length_take. destruct (_ <=? _)%nat eqn:E; lia. Qed.

Lemma rot_head {A} (l : list A) c x :
  l !! wrap_cursor l c = Some x ->
  rot l c = x :: drop (S (wrap_cursor l c)) l ++ take (wrap_cursor l c) l.
Proof.
  intros Hx. unfold rot. fold (wrap_cursor l c). by rewrite (drop_S l x _ Hx).
Qed.

Lemma rot_next {A} (l : list A) c x :
  l !! c = Some x -> rot l (S c) = drop (S c) l ++ take c l ++ [x].
Proof.
  intros Hx. unfold rot. pose proof (lookup_lt_Some _ _ _ Hx).
  rewrite <- (take_S_r _ _ _ Hx). destruct (Nat.leb_spec (length l) (S c)); [|done].
  rewrite (drop_ge l (S c)), (take_ge l (S c)) by lia. by rewrite drop_0, take_0, app_nil_r.
Qed.

Lemma rot_delete {A} (l : list A) c x :
  l !! c = Some x -> rot (delete c l) c = drop (S c) l ++ take c l.
Proof.
  intros Hx. unfold rot. pose proof (lookup_lt_Some _ _ _ Hx) as Hlt.
  rewrite (length_delete l c) by eauto. rewrite delete_take_drop.
  destruct (Nat.leb_spec (length l - 1) c).
  - rewrite (drop_ge l (S c)) by lia. by rewrite drop_0, take_0, !app_nil_r.
  - rewrite drop_app_length', take_app_length' by (rewrite length_take; lia). done.
Qed.

(** The two ways a round ends leave the rest of the visit unchanged. *)
Lemma rot_rest_next {A} (l : list A) c x n :
  l !! wrap_cursor l c = Some x -> (S n <= length l)%nat ->
  take (S n) (rot l c) = x :: take n (rot l (S (wrap_cursor l c))).
Proof.
  intros Hx Hn. rewrite (rot_head _ _ _ Hx), (rot_next _ _ _ Hx). simpl. f_equal.
  pose proof (lookup_lt_Some _ _ _ Hx). rewrite app_assoc. rewrite (take_app_le _ [x]); [done|].
  rewrite length_app, length_drop, length_take. lia.
Qed.

Lemma rot_rest_delete {A} (l : list A) c x n :
  l !! wrap_cursor l c = Some x ->
  take (S n) (rot l c) = x :: take n (rot (delete (wrap_cursor l c) l) (wrap_cursor l c)).
Proof. intros Hx. by rewrite (rot_head _ _ _ Hx), (rot_delete _ _ _ Hx). Qed.

End Rotations.
