(* ===== verification/Execution.v ===== *)
(** * Execution semantics

    Models [internal/execution]: dispositions and semantics ([result.go]), the
    error values they travel on, actors, sources and surface masks, and the
    context values of [metadata.go].

    A Go error is a tree: the dynamic type of the value (a package-level
    sentinel, a plain text error, one of the two error structs of the runtime,
    or a type declared elsewhere that implements some of the optional
    methods), its message, and what its [Unwrap] method returns. The nil error
    is [None] of [option goerror]. [errors.Is] and [errors.As] are the
    pre-order, depth-first searches of the standard library. *)

From S2P Require Import Prelude.

(** ** [result.go]: dispositions and semantics *)

(** [DispositionUnset] is the empty string, Go's zero value of the type. *)
Inductive Disposition :=
  | DispositionUnset
  | DispositionSuccess
  | DispositionHandled
  | DispositionRejected
  | DispositionRetryable
  | DispositionPermanent
  | DispositionCancelled
  | DispositionInternal.

#[global] Instance Disposition_eq_dec : EqDecision Disposition.
Proof. solve_decision. Defined.

Definition disposition_string (d : Disposition) : string :=
  match d with
  | DispositionUnset => ""
  | DispositionSuccess => "success"
  | DispositionHandled => "handled"
  | DispositionRejected => "rejected"
  | DispositionRetryable => "retryable"
  | DispositionPermanent => "permanent"
  | DispositionCancelled => "cancelled"
  | DispositionInternal => "internal"
  end.

Record Semantics := mkSemantics {
  sem_Disposition : Disposition;
  sem_Code : string;
  sem_RetryAfter : duration
}.

#[global] Instance Semantics_eq_dec : EqDecision Semantics.
Proof. solve_decision. Defined.

Definition normalized (s : Semantics) : Semantics :=
  {| sem_Disposition :=
       if decide (sem_Disposition s = DispositionUnset) then DispositionInternal
       else sem_Disposition s;
     sem_Code := sem_Code s;
     sem_RetryAfter := if sem_RetryAfter s <? 0 then 0 else sem_RetryAfter s |}.

Definition Semantics_ShouldRetry (s : Semantics) : bool :=
  let s := normalized s in
  bool_decide (sem_Disposition s = DispositionRetryable)
  || bool_decide (sem_Disposition s = DispositionInternal).

Definition Semantics_IsSuccess (s : Semantics) : bool :=
  let s := normalized s in
  bool_decide (sem_Disposition s = DispositionSuccess)
  || bool_decide (sem_Disposition s = DispositionHandled).

(** ** Error values *)

(** The dynamic types of error values. [DynSemantic] is a non-nil
    [*execution.Error], [DynSemanticNil] the typed nil pointer of that type,
    [DynAdmission] a non-nil [*tasks.AdmissionError]; [DynForeign] is a type
    declared outside these packages, given by the results of the optional
    methods [ExecutionSemantics] and [RateLimitWait] it implements. *)
Inductive errdyn :=
  | DynSentinel (name : string)
  | DynText
  | DynSemantic (s : Semantics)
  | DynSemanticNil
  | DynAdmission (reason : string)
  | DynForeign (sem : option Semantics) (wait : option duration).

Inductive goerror := GoErr (dyn : errdyn) (text : string) (unwrap : list goerror).

Definition err_dyn (e : goerror) : errdyn := let '(GoErr d _ _) := e in d.
Definition err_unwrap (e : goerror) : list goerror := let '(GoErr _ _ us) := e in us.

Definition sentinel (name : string) : goerror := GoErr (DynSentinel name) name [].
Definition text_error (msg : string) : goerror := GoErr DynText msg [].
(** [fmt.Errorf] with one [%w] operand and [errors.Join] of the non-nil ones. *)
Definition wrap_error (msg : string) (e : goerror) : goerror := GoErr DynText msg [e].
Definition errors_Join (es : list (option goerror)) : option goerror :=
  match omap (fun e => e) es with
  | [] => None
  | us => Some (GoErr DynText "" us)
  end.

Definition context_Canceled : string := "context canceled".
Definition context_DeadlineExceeded : string := "context deadline exceeded".

(** [errors.As]: the first value of the tree, in pre-order, that [f] accepts. *)
Fixpoint errors_As {X} (f : errdyn -> option X) (e : goerror) : option X :=
  match e with
  | GoErr d _ us =>
      match f d with
      | Some x => Some x
      | None =>
          (fix go (us : list goerror) : option X :=
             match us with
             | [] => None
             | u :: us' => match errors_As f u with Some x => Some x | None => go us' end
             end) us
      end
  end.

(** [errors.Is] against a package-level sentinel. *)
Definition is_sentinel (name : string) (d : errdyn) : option unit :=
  match d with DynSentinel n => if decide (n = name) then Some tt else None | _ => None end.
Definition errors_Is (e : goerror) (name : string) : bool :=
  bool_decide (is_Some (errors_As (is_sentinel name) e)).

(** The [ExecutionSemantics] method of [AdmissionError] in [internal/tasks/errors.go]. *)
Definition AdmissionError_ExecutionSemantics (reason : string) : Semantics :=
  if bool_decide (reason ∈ ["payload_budget"; "unsupported_payload"; "unknown_handler"]) then
    mkSemantics DispositionPermanent reason 0
  else if bool_decide (reason ∈ ["scope_closed"; "linearization_cancel"]) then
    mkSemantics DispositionCancelled reason 0
  else if bool_decide (reason ∈ ["owner_queue_full"; "pool_backlog_full"; "resource_unavailable";
      "result_backpressure"; "delivery_backpressure"; "deadline_expired"; "engine_quiescing";
      "retained_budget"]) then
    mkSemantics DispositionRetryable reason 0
  else mkSemantics DispositionInternal reason 0.

(** The [ExecutionSemantics] method of [Error]. *)
Definition Error_ExecutionSemantics (s : option Semantics) : Semantics :=
  match s with
  | None => mkSemantics DispositionInternal "nil_semantic_error" 0
  | Some s => normalized s
  end.

(** The interface assertions of [ExplicitSemantics]. *)
Definition semanticCarrier (d : errdyn) : option Semantics :=
  match d with
  | DynSemantic s => Some (Error_ExecutionSemantics (Some s))
  | DynSemanticNil => Some (Error_ExecutionSemantics None)
  | DynAdmission reason => Some (AdmissionError_ExecutionSemantics reason)
  | DynForeign sem _ => sem
  | DynSentinel _ | DynText => None
  end.

Definition retryAfterCarrier (d : errdyn) : option duration :=
  match d with DynForeign _ wait => wait | _ => None end.

(** The [Error] methods of [Error] and [AdmissionError], and the stored texts. *)
Fixpoint error_text (e : goerror) : string :=
  match e with
  | GoErr DynSemanticNil _ _ => "<nil>"
  | GoErr (DynSemantic s) _ [] =>
      if decide (sem_Code s = "") then disposition_string (sem_Disposition (normalized s))
      else sem_Code s
  | GoErr (DynSemantic _) _ (u :: _) => error_text u
  | GoErr (DynAdmission reason) _ [] => ("admission rejected: " +:+ reason)%string
  | GoErr (DynAdmission reason) _ (u :: _) =>
      ("admission rejected (" +:+ reason +:+ "): " +:+ error_text u)%string
  | GoErr _ text _ => text
  end.

(** [WithSemantics], [ExplicitSemantics] and [SemanticsOf]. *)
Definition WithSemantics (err : option goerror) (s : Semantics) : option goerror :=
  match err with
  | None => None
  | Some e =>
      match errors_As semanticCarrier e with
      | Some _ => Some e
      | None => Some (GoErr (DynSemantic (normalized s)) "" [e])
      end
  end.

Definition ExplicitSemantics (err : option goerror) : Semantics * bool :=
  match err with
  | None => (mkSemantics DispositionSuccess "" 0, true)
  | Some e =>
      match errors_As semanticCarrier e with
      | Some s => (normalized s, true)
      | None =>
          match errors_As retryAfterCarrier e with
          | Some wait =>
              let wait := if wait <? 0 then 0 else wait in
              (mkSemantics DispositionRetryable "rate_limited" wait, true)
          | None =>
              if errors_Is e context_Canceled then
                (mkSemantics DispositionCancelled "context_cancelled" 0, true)
              else if errors_Is e context_DeadlineExceeded then
                (mkSemantics DispositionRetryable "deadline_exceeded" 0, true)
              else (mkSemantics DispositionUnset "" 0, false)
          end
      end
  end.

Definition SemanticsOf (err : option goerror) : Semantics :=
  let '(s, ok) := ExplicitSemantics err in
  if ok then s else mkSemantics DispositionInternal "unclassified_error" 0.

(** ** [actor.go], [source.go] *)

Record Actor := mkActor {
  act_UserID : Z; act_ChatID : Z; act_IsOwner : bool; act_IsSudo : bool;
  act_Username : string; act_FirstName : string
}.

Definition NewActor (userID chatID : Z) (isOwner isSudo : bool) : Actor :=
  mkActor userID chatID isOwner isSudo "" "".

Definition CanExecute (a : Actor) (requireOwner requireSudo : bool) : bool :=
  if act_IsOwner a then true
  else if requireOwner then false
  else if requireSudo then act_IsSudo a
  else true.

(** [Source] is an [int]; any value outside the three constants is possible. *)
Abbreviation Source := Z (only parsing).
Definition SourceUserbot : Source := 0.
Definition SourceAssistant : Source := 1.
Definition SourceInline : Source := 2.

Definition Source_String (s : Source) : string :=
  if s =? SourceUserbot then "userbot"
  else if s =? SourceAssistant then "assistant"
  else if s =? SourceInline then "inline"
  else "unknown".

Definition SurfaceUserbot : Z := Z.shiftl 1 0.
Definition SurfaceAssistant : Z := Z.shiftl 1 1.
Definition SurfaceInline : Z := Z.shiftl 1 2.
Definition SurfaceAll : Z := Z.lor (Z.lor SurfaceUserbot SurfaceAssistant) SurfaceInline.
Definition SurfaceBotAndUser : Z := Z.lor SurfaceUserbot SurfaceAssistant.

Definition Supports (m : Z) (s : Source) : bool :=
  if s =? SourceUserbot then negb (Z.land m SurfaceUserbot =? 0)
  else if s =? SourceAssistant then negb (Z.land m SurfaceAssistant =? 0)
  else if s =? SourceInline then negb (Z.land m SurfaceInline =? 0)
  else false.

(** ** Contexts: [metadata.go] and the values [internal/tasks] stores *)

Record Metadata := mkMetadata { CanDurablyYield_flag : bool }.

(** A [context.Context], reduced to what the runtime reads of it: the error of
    a context that is done, and the values stored under the two private keys
    of the runtime. *)
Record Context := mkContext {
  ctx_err : option goerror;
  ctx_metadata : option Metadata;
  ctx_held : option (gset string)
}.

Definition Background : Context := mkContext None None None.

Definition or_background (ctx : option Context) : Context := default Background ctx.

Definition WithMetadata (ctx : option Context) (m : Metadata) : Context :=
  let c := or_background ctx in mkContext (ctx_err c) (Some m) (ctx_held c).

Definition MetadataFromContext (ctx : option Context) : Metadata * bool :=
  match ctx with
  | None => (mkMetadata false, false)
  | Some c => match ctx_metadata c with Some m => (m, true) | None => (mkMetadata false, false) end
  end.

Definition CanDurablyYield (ctx : option Context) : bool :=
  let '(m, ok) := MetadataFromContext ctx in ok && CanDurablyYield_flag m.

(** ** Lemmas *)

Lemma normalized_idemp s : normalized (normalized s) = normalized s.
Proof.
  unfold normalized. destruct s as [d c r]; simpl.
  destruct (decide (d = DispositionUnset)) as [->|Hd]; simpl;
    destruct (r <? 0) eqn:E; simpl; rewrite ?E; repeat case_decide; done.
Qed.

Definition is_normalized (s : Semantics) : Prop :=
  sem_Disposition s <> DispositionUnset /\ 0 <= sem_RetryAfter s.

Lemma normalized_is s : is_normalized (normalized s).
Proof.
  unfold is_normalized, normalized; simpl. split.
  - by case_decide.
  - destruct (sem_RetryAfter s <? 0) eqn:E; bool_to_prop; lia.
Qed.

#[export] Hint Resolve normalized_is : go.
#[export] Hint Rewrite normalized_idemp : go.

(** A wrapper whose own type a search does not accept is transparent to it. *)
Lemma errors_As_wrap {X} (f : errdyn -> option X) d text e :
  f d = None -> errors_As f (GoErr d text [e]) = errors_As f e.
Proof. intros Hd. simpl. rewrite Hd. by destruct (errors_As f e). Qed.

(** ** Properties *)

(** Every error, nil included, gets a normalized classification from
    [SemanticsOf]: the disposition is set and the retry delay is not negative,
    whatever the errors in the tree carry. *)
Lemma SemanticsOf_normalized (err : option goerror) : is_normalized (SemanticsOf err).
Proof.
  unfold SemanticsOf, ExplicitSemantics, is_normalized.
  destruct err as [e|]; [|simpl; split; [done|lia]].
  destruct (errors_As semanticCarrier e) as [s|]; [apply normalized_is|].
  destruct (errors_As retryAfterCarrier e) as [w|]; simpl.
  - split; [done|]. destruct (w <? 0) eqn:E; bool_to_prop; lia.
  - destruct (errors_Is e context_Canceled); simpl; [split; [done|lia]|].
    destruct (errors_Is e context_DeadlineExceeded); simpl; (split; [done|lia]).
Qed.

(** [WithSemantics] then [ExplicitSemantics] is a round trip that keeps the
    first explicit contract: an error that already carries semantics keeps
    them, any other error gets exactly the given ones, normalized; and in both
    cases [errors.Is] answers as before for every sentinel. *)
Theorem WithSemantics_roundtrip (e : goerror) (s : Semantics) :
  exists e', WithSemantics (Some e) s = Some e' /\
    ExplicitSemantics (Some e') =
      (normalized (default s (errors_As semanticCarrier e)), true) /\
    forall name, errors_Is e' name = errors_Is e name.
Proof.
  unfold WithSemantics.
  destruct (errors_As semanticCarrier e) as [s0|] eqn:Hc; eexists; (split; [done|]).
  - split; [|done]. unfold ExplicitSemantics. by rewrite Hc.
  - split.
    + unfold ExplicitSemantics; simpl. by rewrite !normalized_idemp.
    + intros name. unfold errors_Is.
      by rewrite (errors_As_wrap (is_sentinel name)).
Qed.
