(* ===== verification/Tasks.v ===== *)
(** * Tasks

    Models [internal/tasks]: identifiers, outcomes and states ([types.go],
    [state.go]), work specifications and their validation ([spec.go]), the
    admission errors ([errors.go]), execution profiles ([profile.go]), results
    ([result.go]) and the held-resource markers of a context
    ([resource_context.go]). Closures are opaque values of type [closure]: the
    runtime only stores them, compares them with nil and hands them on. *)

From S2P Require Import Prelude.
From S2P Require Import Execution.

(** ** [types.go], [state.go] *)

Abbreviation TaskID := string (only parsing).
Abbreviation OwnerID := string (only parsing).
Abbreviation PoolID := string (only parsing).
Abbreviation AttemptID := string (only parsing).
Abbreviation PriorityClass := string (only parsing).
Abbreviation Cause := string (only parsing).
Abbreviation closure := nat (only parsing).

Definition PriorityInteractive : PriorityClass := "interactive".
Definition PriorityNormal : PriorityClass := "normal".
Definition PriorityBackground : PriorityClass := "background".
Definition PriorityMaintenance : PriorityClass := "maintenance".
Definition priority_classes : list PriorityClass :=
  [PriorityInteractive; PriorityNormal; PriorityBackground; PriorityMaintenance].

Record ScopeIdentity := mkScope { sc_Owner : string; sc_Generation : Z }.

#[global] Instance ScopeIdentity_eq_dec : EqDecision ScopeIdentity.
Proof. solve_decision. Defined.
#[global] Instance ScopeIdentity_countable : Countable ScopeIdentity.
Proof.
  refine (inj_countable' (fun s => (sc_Owner s, sc_Generation s)) (fun p => mkScope p.1 p.2) _).
  by intros [].
Defined.

Definition ScopeIdentity_IsZero (s : ScopeIdentity) : bool :=
  bool_decide (sc_Owner s = "") && (sc_Generation s =? 0).

Record OccurrenceRef := mkOccurrenceRef {
  or_JobID : string; or_OccurrenceID : string; or_AttemptID : AttemptID; or_LeaseEpoch : Z
}.

Inductive Outcome :=
  | OutcomeUnset
  | OutcomeCompleted
  | OutcomeFailed
  | OutcomeTimedOut
  | OutcomeCancelled
  | OutcomePanic
  | OutcomeAbortedBeforeStart.

#[global] Instance Outcome_eq_dec : EqDecision Outcome.
Proof. solve_decision. Defined.

Definition outcome_string (o : Outcome) : string :=
  match o with
  | OutcomeUnset => ""
  | OutcomeCompleted => "completed"
  | OutcomeFailed => "failed"
  | OutcomeTimedOut => "timed_out"
  | OutcomeCancelled => "cancelled"
  | OutcomePanic => "panic"
  | OutcomeAbortedBeforeStart => "aborted_before_start"
  end.

Definition CauseNone : Cause := "none".
Definition CauseTimeout : Cause := "timeout".
Definition CauseUserCancel : Cause := "user_cancel".
Definition CauseShutdown : Cause := "shutdown".
Definition CauseQueueExpired : Cause := "queue_expired".
Definition CausePanic : Cause := "panic".
Definition CausePersistenceFailure : Cause := "persistence_failure".
Definition CauseLeaseLost : Cause := "lease_lost".
Definition CauseRateLimited : Cause := "rate_limited".

Record FailureInfo := mkFailure { fi_Code : string; fi_Message : string; fi_Detail : string }.
Definition no_failure : FailureInfo := mkFailure "" "" "".

(** [StateNone] is the empty string. *)
Inductive TaskState :=
  | StateNone
  | StateCreated
  | StateAdmitted
  | StateQueued
  | StateDispatching
  | StateRunning
  | StateCommitPending
  | StateCompleted
  | StateFailed
  | StateCancelled
  | StateTimedOut
  | StateRecoveryRequired.

#[global] Instance TaskState_eq_dec : EqDecision TaskState.
Proof. solve_decision. Defined.

Record TaskSnapshot := mkSnapshot {
  sn_ID : TaskID; sn_Scope : ScopeIdentity; sn_QuotaOwner : OwnerID; sn_Pool : PoolID;
  sn_Class : PriorityClass; sn_State : TaskState; sn_AdmittedAt : time; sn_QueuedAt : time;
  sn_StartedAt : time; sn_FinishedAt : time; sn_Error : string
}.

(** ** [spec.go] *)

(** A value of type [any], by its reflection kind: [named] is true of a defined
    type other than the predeclared [string] or the plain [[]byte]. *)
Inductive govalue :=
  | VString (named : bool) (s : string)
  | VByteSlice (named : bool) (bytes : list Z)
  | VByteArray (bytes : list Z)
  | VScalar (size : Z) (bits : Z)
  | VOpaque (type_name : string) (identity : nat).

Record ResourceRequirement := mkReq { rr_Name : string; rr_Amount : Z }.

Record WorkSpec := mkWorkSpec {
  ws_ID : TaskID;
  ws_Scope : ScopeIdentity;
  ws_QuotaOwner : OwnerID;
  ws_Pool : PoolID;
  ws_Class : PriorityClass;
  ws_OrderingKey : string;
  ws_QueueDeadline : time;
  ws_ExecutionTimeout : duration;
  ws_HandlerRef : string;
  ws_Input : option govalue;
  ws_Job : option OccurrenceRef;
  ws_Resources : list ResourceRequirement;
  ws_Handler : option closure;
  ws_Commit : option closure;
  ws_OnComplete : option closure
}.

Definition type_name (v : govalue) : string :=
  match v with VOpaque t _ => t | _ => "" end.

Definition RequiresDurability (s : option WorkSpec) : bool :=
  match s with None => false | Some s => bool_decide (is_Some (ws_Commit s)) end.

Definition ws_set_Class (c : PriorityClass) (s : WorkSpec) : WorkSpec :=
  mkWorkSpec (ws_ID s) (ws_Scope s) (ws_QuotaOwner s) (ws_Pool s) c (ws_OrderingKey s)
    (ws_QueueDeadline s) (ws_ExecutionTimeout s) (ws_HandlerRef s) (ws_Input s) (ws_Job s)
    (ws_Resources s) (ws_Handler s) (ws_Commit s) (ws_OnComplete s).
Definition ws_set_Handler (h : option closure) (s : WorkSpec) : WorkSpec :=
  mkWorkSpec (ws_ID s) (ws_Scope s) (ws_QuotaOwner s) (ws_Pool s) (ws_Class s) (ws_OrderingKey s)
    (ws_QueueDeadline s) (ws_ExecutionTimeout s) (ws_HandlerRef s) (ws_Input s) (ws_Job s)
    (ws_Resources s) h (ws_Commit s) (ws_OnComplete s).
Definition ws_set_Input (v : option govalue) (s : WorkSpec) : WorkSpec :=
  mkWorkSpec (ws_ID s) (ws_Scope s) (ws_QuotaOwner s) (ws_Pool s) (ws_Class s) (ws_OrderingKey s)
    (ws_QueueDeadline s) (ws_ExecutionTimeout s) (ws_HandlerRef s) v (ws_Job s)
    (ws_Resources s) (ws_Handler s) (ws_Commit s) (ws_OnComplete s).

(** The loop of [Validate] over the resource requirements, with the names seen
    so far. *)
Fixpoint validate_resources (seen : gset string) (rs : list ResourceRequirement) : option goerror :=
  match rs with
  | [] => None
  | r :: rs' =>
      if blank (rr_Name r) || (rr_Amount r <=? 0) then
        Some (text_error "resource requirements need a name and positive amount")
      else if decide (rr_Name r ∈ seen) then
        Some (text_error "resource requirement names must be unique")
      else validate_resources ({[rr_Name r]} ∪ seen) rs'
  end.

(** [Validate] has a pointer receiver: it returns the specification it leaves
    behind (an empty class is replaced by the normal one) and the error. *)
Definition Validate (s : WorkSpec) : WorkSpec * option goerror :=
  if blank (ws_ID s) then (s, Some (text_error "task id cannot be empty"))
  else if blank (ws_QuotaOwner s) then (s, Some (text_error "quota owner cannot be empty"))
  else if blank (ws_Pool s) then (s, Some (text_error "pool cannot be empty"))
  else if bool_decide (ws_Handler s = None) && blank (ws_HandlerRef s) then
    (s, Some (text_error "work spec must specify a handler function or handler reference"))
  else
    let s := if decide (ws_Class s = "") then ws_set_Class PriorityNormal s else s in
    if decide (ws_Class s ∈ priority_classes) then
      if ws_ExecutionTimeout s <? 0 then
        (s, Some (text_error "execution timeout cannot be negative"))
      else (s, validate_resources ∅ (ws_Resources s))
    else (s, Some (text_error "invalid priority class")).

(** ** [errors.go] *)

Definition ErrEngineQuiescing := sentinel "task engine is quiescing or stopped".
Definition ErrOwnerQueueFull := sentinel "owner queue capacity exceeded".
Definition ErrPoolBacklogFull := sentinel "pool backlog limit reached".
Definition ErrPayloadBudget := sentinel "payload size exceeds budget".
Definition ErrUnsupportedPayload := sentinel "unsupported mutable or opaque task payload".
Definition ErrResourceUnavailable := sentinel "required execution resource is unavailable".
Definition ErrResultBackpressure := sentinel "result capacity saturated".
Definition ErrDeliveryBackpressure := sentinel "completion delivery capacity saturated".
Definition ErrDeadlineExpired := sentinel "queue deadline expired before admission".
Definition ErrScopeClosed := sentinel "caller scope is closed".
Definition ErrUnknownHandler := sentinel "unknown handler reference".
Definition ErrLinearizationCancel := sentinel "submission cancelled during admission decision".
Definition ErrRetainedBudget := sentinel "engine retained memory budget exceeded".
Definition ErrTaskNotFound := sentinel "task not found".

Definition ReasonOwnerQueueFull := "owner_queue_full".
Definition ReasonPoolBacklogFull := "pool_backlog_full".
Definition ReasonPayloadBudget := "payload_budget".
Definition ReasonUnsupportedPayload := "unsupported_payload".
Definition ReasonResourceUnavailable := "resource_unavailable".
Definition ReasonResultBackpressure := "result_backpressure".
Definition ReasonDeliveryBackpressure := "delivery_backpressure".
Definition ReasonDeadlineExpired := "deadline_expired".
Definition ReasonScopeClosed := "scope_closed".
Definition ReasonEngineQuiescing := "engine_quiescing".
Definition ReasonUnknownHandler := "unknown_handler".
Definition ReasonLinearizationCancel := "linearization_cancel".
Definition ReasonRetainedBudget := "retained_budget".

Definition NewAdmissionError (reason : string) (base : option goerror) : goerror :=
  GoErr (DynAdmission reason) "" (match base with Some e => [e] | None => [] end).

(** ** [profile.go] *)

Record ExecutionProfile := mkProfile {
  ep_Pool : PoolID; ep_Class : PriorityClass; ep_QueueTimeout : duration;
  ep_ExecutionTimeout : duration; ep_Resources : list ResourceRequirement
}.

Definition WithDefaults (p defaults : ExecutionProfile) : ExecutionProfile :=
  {| ep_Pool := if decide (ep_Pool p = "") then ep_Pool defaults else ep_Pool p;
     ep_Class := if decide (ep_Class p = "") then ep_Class defaults else ep_Class p;
     ep_QueueTimeout := if ep_QueueTimeout p =? 0 then ep_QueueTimeout defaults else ep_QueueTimeout p;
     ep_ExecutionTimeout :=
       if ep_ExecutionTimeout p =? 0 then ep_ExecutionTimeout defaults else ep_ExecutionTimeout p;
     ep_Resources := ep_Resources p |}.

(** ** [result.go] *)

Record TaskResult := mkResult {
  tr_TaskID : TaskID;
  tr_AttemptID : AttemptID;
  tr_Outcome : Outcome;
  tr_Cause : Cause;
  tr_Disposition : Disposition;
  tr_StartedAt : time;
  tr_FinishedAt : time;
  tr_RetryAfter : duration;
  tr_Output : option govalue;
  tr_Failure : FailureInfo
}.

Definition tr_set_AttemptID (v : AttemptID) (s : TaskResult) : TaskResult :=
  mkResult (tr_TaskID s) v (tr_Outcome s) (tr_Cause s) (tr_Disposition s) (tr_StartedAt s)
    (tr_FinishedAt s) (tr_RetryAfter s) (tr_Output s) (tr_Failure s).
Definition tr_set_Outcome (v : Outcome) (s : TaskResult) : TaskResult :=
  mkResult (tr_TaskID s) (tr_AttemptID s) v (tr_Cause s) (tr_Disposition s) (tr_StartedAt s)
    (tr_FinishedAt s) (tr_RetryAfter s) (tr_Output s) (tr_Failure s).
Definition tr_set_Cause (v : Cause) (s : TaskResult) : TaskResult :=
  mkResult (tr_TaskID s) (tr_AttemptID s) (tr_Outcome s) v (tr_Disposition s) (tr_StartedAt s)
    (tr_FinishedAt s) (tr_RetryAfter s) (tr_Output s) (tr_Failure s).
Definition tr_set_Disposition (v : Disposition) (s : TaskResult) : TaskResult :=
  mkResult (tr_TaskID s) (tr_AttemptID s) (tr_Outcome s) (tr_Cause s) v (tr_StartedAt s)
    (tr_FinishedAt s) (tr_RetryAfter s) (tr_Output s) (tr_Failure s).
Definition tr_set_Output (v : option govalue) (s : TaskResult) : TaskResult :=
  mkResult (tr_TaskID s) (tr_AttemptID s) (tr_Outcome s) (tr_Cause s) (tr_Disposition s)
    (tr_StartedAt s) (tr_FinishedAt s) (tr_RetryAfter s) v (tr_Failure s).
Definition tr_set_Failure (v : FailureInfo) (s : TaskResult) : TaskResult :=
  mkResult (tr_TaskID s) (tr_AttemptID s) (tr_Outcome s) (tr_Cause s) (tr_Disposition s)
    (tr_StartedAt s) (tr_FinishedAt s) (tr_RetryAfter s) (tr_Output s) v.

Definition zero_result : TaskResult :=
  mkResult "" "" OutcomeUnset "" DispositionUnset 0 0 0 None no_failure.

Definition TaskResult_IsSuccess (r : TaskResult) : bool :=
  bool_decide (tr_Outcome r = OutcomeCompleted).

Definition ExecutionDuration (r : TaskResult) : duration :=
  if is_zero (tr_StartedAt r) || is_zero (tr_FinishedAt r) then 0
  else time_sub (tr_FinishedAt r) (tr_StartedAt r).

Definition TaskResult_Semantics (r : TaskResult) : Semantics :=
  if decide (tr_Disposition r <> DispositionUnset) then
    mkSemantics (tr_Disposition r) (fi_Code (tr_Failure r)) (tr_RetryAfter r)
  else
    match tr_Outcome r with
    | OutcomeCompleted => mkSemantics DispositionSuccess "" 0
    | OutcomeCancelled => mkSemantics DispositionCancelled (tr_Cause r) 0
    | OutcomeTimedOut | OutcomeFailed | OutcomePanic | OutcomeAbortedBeforeStart =>
        mkSemantics DispositionInternal (fi_Code (tr_Failure r)) (tr_RetryAfter r)
    | OutcomeUnset => mkSemantics DispositionInternal (fi_Code (tr_Failure r)) 0
    end.

Definition TaskResult_ShouldRetry (r : TaskResult) : bool :=
  Semantics_ShouldRetry (TaskResult_Semantics r).

Record CancelReceipt := mkReceipt {
  cr_TaskID : TaskID; cr_Accepted : bool; cr_State : TaskState; cr_Reason : Cause
}.

(** ** [resource_context.go] *)

Definition WithHeldResource (ctx : option Context) (name : string) : option Context :=
  let c := or_background ctx in
  let name := trim_space name in
  if decide (name = "") then Some c
  else
    let names := match ctx_held c with None => {[name]} | Some existing => {[name]} ∪ existing end in
    Some (mkContext (ctx_err c) (ctx_metadata c) (Some names)).

Fixpoint WithHeldResources (ctx : option Context) (rs : list ResourceRequirement) : option Context :=
  match rs with
  | [] => ctx
  | r :: rs' =>
      WithHeldResources (if 0 <? rr_Amount r then WithHeldResource ctx (rr_Name r) else ctx) rs'
  end.

Definition HasHeldResource (ctx : option Context) (name : string) : bool :=
  match ctx with
  | None => false
  | Some c =>
      let name := trim_space name in
      if decide (name = "") then false
      else match ctx_held c with None => false | Some names => bool_decide (name ∈ names) end
  end.

(** ** Valid specifications *)

Definition valid_resources (rs : list ResourceRequirement) : Prop :=
  NoDup (map rr_Name rs) /\ forall r, r ∈ rs -> 0 < rr_Amount r /\ blank (rr_Name r) = false.

(** What an accepted specification satisfies; the engine relies on it. *)
Definition spec_ok (s : WorkSpec) : Prop :=
  ws_Class s ∈ priority_classes /\ 0 <= ws_ExecutionTimeout s /\ valid_resources (ws_Resources s).

(** ** Lemmas *)

Lemma validate_resources_None seen rs :
  validate_resources seen rs = None <->
  valid_resources rs /\ forall r, r ∈ rs -> rr_Name r ∉ seen.
Proof.
  unfold valid_resources. revert seen.
  induction rs as [|r rs IH]; intros seen; simpl.
  - split; [|done]. intros _. split; [split; [constructor|]|]; intros ? []%not_elem_of_nil.
  - destruct (blank (rr_Name r)) eqn:Hb; simpl.
    { split; [done|]. intros [[_ Hr] _]. specialize (Hr r ltac:(left)) as [_ Hr]. congruence. }
    destruct (rr_Amount r <=? 0) eqn:Ha; bool_to_prop.
    { split; [done|]. intros [[_ Hr] _]. specialize (Hr r ltac:(left)) as [Hr _]. lia. }
    destruct (decide (rr_Name r ∈ seen)) as [Hin|Hin].
    { split; [done|]. intros [_ Hs]. by specialize (Hs r ltac:(left)). }
    rewrite IH, NoDup_cons. split.
    + intros [[Hnd Hr] Hs]. split; [split; [split; [|done]|]|].
      * intros (r' & Heq & Hr')%list_elem_of_fmap. specialize (Hs r' Hr'). set_solver.
      * intros r' [->|Hr']%elem_of_cons; [split; [lia|done]|by apply Hr].
      * intros r' [->|Hr']%elem_of_cons; [done|]. specialize (Hs r' Hr'). set_solver.
    + intros [[[Hnin Hnd] Hr] Hs]. split; [split; [done|]|].
      * intros r' Hr'. apply Hr. by right.
      * intros r' Hr'. assert (rr_Name r' <> rr_Name r).
        { intros Heq. apply Hnin. rewrite <- Heq. by apply list_elem_of_fmap_2. }
        specialize (Hs r' ltac:(by right)). set_solver.
Qed.

Lemma Validate_spec_ok s s' :
  Validate s = (s', None) -> spec_ok s' /\ ws_ID s' = ws_ID s /\ ws_Input s' = ws_Input s.
Proof.
  unfold Validate, spec_ok. repeat (case_match; [by intros [=]|]).
  set (s1 := if decide (ws_Class s = "") then _ else s).
  assert (E : ws_ID s1 = ws_ID s /\ ws_Input s1 = ws_Input s) by (unfold s1; by case_decide).
  clearbody s1. repeat case_match; intros [= <-]; try done. bool_to_prop.
  match goal with H : validate_resources _ _ = None |- _ => apply validate_resources_None in H as [H _] end.
  split_and_all; naive_solver lia.
Qed.

(** ** Properties *)

(** [Validate] accepts a specification exactly when its three identifiers
    are not blank, it names a handler or a handler reference, its class is
    empty or one of the four classes, its timeout is not negative and its
    resource requirements have distinct non-blank names and positive amounts;
    an accepted specification is unchanged but for the default class. *)
Theorem Validate_ok (s s' : WorkSpec) :
  Validate s = (s', None) <->
  s' = (if decide (ws_Class s = "") then ws_set_Class PriorityNormal s else s) /\
  blank (ws_ID s) = false /\ blank (ws_QuotaOwner s) = false /\ blank (ws_Pool s) = false /\
  (ws_Handler s <> None \/ blank (ws_HandlerRef s) = false) /\
  (ws_Class s = "" \/ ws_Class s ∈ priority_classes) /\
  0 <= ws_ExecutionTimeout s /\ valid_resources (ws_Resources s).
Proof.
  unfold Validate.
  destruct (blank (ws_ID s)); [naive_solver|].
  destruct (blank (ws_QuotaOwner s)); [naive_solver|].
  destruct (blank (ws_Pool s)); [naive_solver|].
  assert (Hh : bool_decide (ws_Handler s = None) && blank (ws_HandlerRef s) = false <->
    (ws_Handler s <> None \/ blank (ws_HandlerRef s) = false)).
  { rewrite andb_false_iff, bool_decide_eq_false. tauto. }
  destruct (bool_decide (ws_Handler s = None) && blank (ws_HandlerRef s)) eqn:E; [naive_solver|].
  set (s1 := if decide (ws_Class s = "") then _ else s).
  assert (Hf : ws_ExecutionTimeout s1 = ws_ExecutionTimeout s /\ ws_Resources s1 = ws_Resources s).
  { unfold s1. by case_decide. }
  destruct Hf as [-> ->].
  assert (Hc : ws_Class s1 ∈ priority_classes <-> (ws_Class s = "" \/ ws_Class s ∈ priority_classes)).
  { unfold s1, priority_classes. case_decide; simpl; set_solver. }
  destruct (decide (ws_Class s1 ∈ priority_classes)); [|naive_solver].
  destruct (ws_ExecutionTimeout s <? 0) eqn:Ht; bool_to_prop.
  { split; [done|]. intros (_&_&_&_&_&_&?&_). lia. }
  pose proof (validate_resources_None ∅ (ws_Resources s)) as Hv.
  split.
  - intros [= <- Hr]. apply Hv in Hr as [Hr _]. repeat (split; [tauto|]). tauto.
  - intros (-> & _ & _ & _ & _ & _ & _ & Hr). f_equal.
    apply Hv. split; [done|]. set_solver.
Qed.

(** A context holds exactly the resources that were marked on it: after
    [WithHeldResources] a name is held iff its trimmed form is not empty and it
    was held before or is the trimmed name of a requirement with a positive
    amount. *)
Lemma HasHeldResource_WithHeldResources (ctx : option Context) (rs : list ResourceRequirement)
    (name : string) :
  HasHeldResource (WithHeldResources ctx rs) name = true <->
  HasHeldResource ctx name = true \/
  (trim_space name <> "" /\
   exists r, r ∈ rs /\ 0 < rr_Amount r /\ trim_space (rr_Name r) = trim_space name).
Proof.
  revert ctx. induction rs as [|r rs IH]; intros ctx; simpl; [set_solver|].
  rewrite IH. clear IH.
  destruct (0 <? rr_Amount r) eqn:Ha; bool_to_prop.
  2: { split; intros [H|(Hn & r' & Hr')]; eauto.
       - right. split; [done|]. exists r'. set_solver.
       - right. split; [done|]. exists r'. destruct Hr' as ([->|]%elem_of_cons & Hr'); [lia|done]. }
  assert (Hstep : HasHeldResource (WithHeldResource ctx (rr_Name r)) name = true <->
    HasHeldResource ctx name = true \/ (trim_space name <> "" /\ trim_space (rr_Name r) = trim_space name)).
  { unfold WithHeldResource, HasHeldResource.
    destruct (decide (trim_space (rr_Name r) = "")) as [He|He]; simpl.
    - rewrite He. destruct ctx as [c|]; simpl; repeat case_decide; naive_solver.
    - destruct ctx as [c|]; simpl; destruct (decide (trim_space name = "")) as [Hn|Hn].
      + naive_solver.
      + destruct (ctx_held c) as [names|]; rewrite ?bool_decide_eq_true; set_solver.
      + naive_solver.
      + rewrite ?bool_decide_eq_true; set_solver. }
  rewrite Hstep. split.
  - intros [[H|[Hn H]]|(Hn & r' & Hr')]; eauto; right; (split; [done|]).
    + exists r. set_solver.
    + exists r'. set_solver.
  - intros [H|(Hn & r' & [->|Hin]%elem_of_cons & Hr')]; [tauto|left; right; tauto|right; eauto].
Qed.
