(* ===== verification/GoHeap.v ===== *)
(** * Indexed binary heaps

    The runtime keeps two indexed min-heaps of pointers, [deadlineHeap] of
    [internal/admission/deadline_heap.go] and [timerHeap] of
    [internal/scheduler/heap.go], both driven by Go's [container/heap]. They
    share the [Len], [Swap], [Push] and [Pop] methods and differ in [Less], so
    the file is a section over the order. [up], [down], [heap_Push],
    [heap_Pop], [heap_Remove] and [heap_Fix] are the functions of
    [container/heap].

    An entry is identified by its address [ptr]; the mutable field [HeapIndex]
    of the entries lives in the store [hidx], where an absent address reads as
    the zero value of the field. *)

From S2P Require Import Prelude.

Record iheap (E : Type) := mkHeap { hs : list E; hidx : gmap nat Z }.
Arguments mkHeap {E} _ _.
Arguments hs {E} _.
Arguments hidx {E} _.

Definition parent (j : nat) : nat := ((j - 1) / 2)%nat.

Section Heap.
Context {E : Type} (lt : E -> E -> bool) (ptr : E -> nat).
Implicit Types (s : iheap E) (l : list E).

(** ** The methods of the heap types *)

Definition heap_Len s : nat := length (hs s).

Definition Less s (i j : nat) : bool :=
  match hs s !! i, hs s !! j with Some a, Some b => lt a b | _, _ => false end.

Definition lswap (i j : nat) l : list E :=
  match l !! i, l !! j with Some a, Some b => <[j := a]> (<[i := b]> l) | _, _ => l end.

Definition Swap (i j : nat) s : iheap E :=
  match hs s !! i, hs s !! j with
  | Some a, Some b =>
      mkHeap (lswap i j (hs s)) (<[ptr a := Z.of_nat j]> (<[ptr b := Z.of_nat i]> (hidx s)))
  | _, _ => s
  end.

Definition push_method (x : E) s : iheap E :=
  mkHeap (hs s ++ [x]) (<[ptr x := Z.of_nat (length (hs s))]> (hidx s)).

Definition pop_method s : option E * iheap E :=
  let n := length (hs s) in
  match hs s !! (n - 1)%nat with
  | Some x => (Some x, mkHeap (take (n - 1) (hs s)) (<[ptr x := -1]> (hidx s)))
  | None => (None, s)
  end.

(** ** [container/heap] *)

Fixpoint up (fuel : nat) (j : nat) s : iheap E :=
  match fuel with
  | O => s
  | S fuel' =>
      let i := parent j in
      if (i =? j)%nat || negb (Less s j i) then s
      else up fuel' i (Swap i j s)
  end.

(** The child [down] compares with: the right one only if it exists and orders
    before the left one. *)
Definition min_child s (i n : nat) : nat :=
  let j1 := (2 * i + 1)%nat in
  let j2 := (j1 + 1)%nat in
  if (j2 <? n)%nat && Less s j2 j1 then j2 else j1.

(** The state and the position the sift ends at. *)
Fixpoint down (fuel : nat) (i n : nat) s : iheap E * nat :=
  match fuel with
  | O => (s, i)
  | S fuel' =>
      let j1 := (2 * i + 1)%nat in
      if (n <=? j1)%nat then (s, i)
      else
        let j := min_child s i n in
        if negb (Less s j i) then (s, i)
        else down fuel' j n (Swap i j s)
  end.

Definition sift_up (j : nat) s : iheap E := up (S j) j s.
Definition sift_down (i n : nat) s : iheap E * bool :=
  let '(s', i') := down (S n) i n s in (s', (i <? i')%nat).

Definition heap_Push (x : E) s : iheap E :=
  let s := push_method x s in sift_up (heap_Len s - 1) s.

Definition heap_Pop s : option E * iheap E :=
  let n := (heap_Len s - 1)%nat in
  let s := Swap 0 n s in
  pop_method (sift_down 0 n s).1.

Definition heap_Fix (i : nat) s : iheap E :=
  let '(s', moved) := sift_down i (heap_Len s) s in
  if moved then s' else sift_up i s'.

Definition heap_Remove (i : nat) s : option E * iheap E :=
  let n := (heap_Len s - 1)%nat in
  let s :=
    if (n =? i)%nat then s
    else
      let '(s', moved) := sift_down i n (Swap i n s) in
      if moved then s' else sift_up i s' in
  pop_method s.

(** ** The invariant *)

(** No entry orders before its parent. *)
Definition edge_ok l (k : nat) : Prop :=
  forall a p, (0 < k)%nat -> l !! k = Some a -> l !! parent k = Some p -> lt a p = false.
Definition is_heap l (n : nat) : Prop := forall k, (k < n)%nat -> edge_ok l k.

(** The store maps every entry of the heap to its position. *)
Definition idx_ok s : Prop :=
  forall i a, hs s !! i = Some a -> hidx s !! ptr a = Some (Z.of_nat i).

Definition heap_inv s : Prop := is_heap (hs s) (length (hs s)) /\ idx_ok s.

(** ** Positions and swaps *)

Lemma parent_spec j : (0 < j)%nat -> (j = 2 * parent j + 1 \/ j = 2 * parent j + 2)%nat.
Proof.
  intros Hj. unfold parent.
  pose proof (Nat.div_mod_eq (j - 1) 2). pose proof (Nat.mod_upper_bound (j - 1) 2). lia.
Qed.

Lemma parent_0 : parent 0 = 0%nat.
Proof. done. Qed.

Lemma parent_lt j : (0 < j)%nat -> (parent j < j)%nat.
Proof. intros H. pose proof (parent_spec j H). lia. Qed.

Lemma parent_left i : parent (2 * i + 1) = i.
Proof. pose proof (parent_spec (2 * i + 1)). lia. Qed.

Lemma parent_right i : parent (2 * i + 1 + 1) = i.
Proof. pose proof (parent_spec (2 * i + 1 + 1)). lia. Qed.

Lemma length_lswap i j l : length (lswap i j l) = length l.
Proof. unfold lswap. repeat case_match; rewrite ?length_insert; done. Qed.

Lemma lookup_lswap i j l k a b :
  l !! i = Some a -> l !! j = Some b ->
  lswap i j l !! k = if decide (k = j) then Some a else if decide (k = i) then Some b else l !! k.
Proof.
  intros Hi Hj. unfold lswap. rewrite Hi, Hj.
  pose proof (lookup_lt_Some _ _ _ Hi). pose proof (lookup_lt_Some _ _ _ Hj).
  destruct (decide (k = j)) as [->|Hkj].
  - rewrite list_lookup_insert_eq; [done|]. rewrite length_insert; lia.
  - rewrite list_lookup_insert_ne by done.
    destruct (decide (k = i)) as [->|Hki].
    + rewrite list_lookup_insert_eq; [done|lia].
    + by rewrite list_lookup_insert_ne.
Qed.

Lemma lswap_perm i j l : lswap i j l ≡ₚ l.
Proof.
  unfold lswap. destruct (l !! i) as [a|] eqn:Hi; [|done].
  destruct (l !! j) as [b|] eqn:Hj; [|done]. by apply Permutation_insert_swap.
Qed.

Lemma hs_Swap i j s : hs (Swap i j s) = lswap i j (hs s).
Proof. unfold Swap, lswap. by repeat case_match. Qed.

Lemma Less_spec s i j a b :
  hs s !! i = Some a -> hs s !! j = Some b -> Less s i j = lt a b.
Proof. intros Hi Hj. unfold Less. by rewrite Hi, Hj. Qed.

Lemma idx_ok_inj s i j a b :
  idx_ok s -> hs s !! i = Some a -> hs s !! j = Some b -> ptr a = ptr b -> i = j.
Proof.
  intros Hok Hi Hj Hp. apply Hok in Hi, Hj. rewrite Hp in Hi. rewrite Hi in Hj.
  injection Hj. lia.
Qed.

Lemma Swap_idx_ok i j s : idx_ok s -> idx_ok (Swap i j s).
Proof.
  intros Hok k x. rewrite hs_Swap. unfold Swap.
  destruct (hs s !! i) as [a|] eqn:Hi; [|unfold lswap; rewrite Hi; apply Hok].
  destruct (hs s !! j) as [b|] eqn:Hj; [|unfold lswap; rewrite Hi, Hj; apply Hok].
  rewrite (lookup_lswap i j (hs s) k a b) by done. simpl.
  repeat case_decide; subst.
  - intros [= <-]. apply lookup_insert_eq.
  - intros [= <-]. destruct (decide (ptr a = ptr b)) as [Hp|Hp].
    + pose proof (idx_ok_inj _ _ _ _ _ Hok Hi Hj Hp). subst. congruence.
    + rewrite lookup_insert_ne by done. apply lookup_insert_eq.
  - intros Hk.
    rewrite !lookup_insert_ne; [by apply Hok| |].
    + intros Hp. by pose proof (idx_ok_inj _ _ _ _ _ Hok Hj Hk Hp).
    + intros Hp. by pose proof (idx_ok_inj _ _ _ _ _ Hok Hi Hk Hp).
Qed.

(** A state transformer that only swaps entries. *)
Definition reorders s s' : Prop := hs s' ≡ₚ hs s /\ (idx_ok s -> idx_ok s').

Lemma reorders_refl s : reorders s s.
Proof. by split. Qed.

Lemma reorders_trans s1 s2 s3 : reorders s1 s2 -> reorders s2 s3 -> reorders s1 s3.
Proof. intros [? ?] [? ?]. split; [by etrans|tauto]. Qed.

Lemma reorders_length s s' : reorders s s' -> length (hs s') = length (hs s).
Proof. intros [Hp _]. by apply Permutation_length. Qed.

Lemma Swap_reorders i j s : reorders s (Swap i j s).
Proof. split; [rewrite hs_Swap; apply lswap_perm|apply Swap_idx_ok]. Qed.

Hint Resolve reorders_refl Swap_reorders : go.

Lemma up_reorders fuel j s : reorders s (up fuel j s).
Proof.
  revert j s. induction fuel as [|fuel IH]; intros j s; simpl; auto with go.
  destruct (_ || _); [auto with go|]. eapply reorders_trans; [apply Swap_reorders|apply IH].
Qed.

Lemma down_reorders fuel i n s : reorders s (down fuel i n s).1.
Proof.
  revert i s. induction fuel as [|fuel IH]; intros i s; cbn [down]; auto with go.
  destruct (_ <=? _)%nat; [auto with go|]. cbv zeta. destruct (negb _); [auto with go|].
  eapply reorders_trans; [apply Swap_reorders|apply IH].
Qed.

Lemma up_outside fuel j s k :
  (j < k)%nat -> hs (up fuel j s) !! k = hs s !! k.
Proof.
  revert j s. induction fuel as [|fuel IH]; intros j s Hk; cbn [up]; [done|]. cbv zeta.
  destruct ((parent j =? j)%nat || negb (Less s j (parent j))) eqn:Hc; [done|].
  apply orb_false_iff in Hc as [Hne Hl%negb_false_iff]. apply Nat.eqb_neq in Hne.
  assert (0 < j)%nat by (destruct j; [done|lia]). pose proof (parent_lt j ltac:(done)).
  rewrite IH by lia. rewrite hs_Swap.
  unfold Less in Hl. destruct (hs s !! j) as [a|] eqn:Hj; [|done].
  destruct (hs s !! parent j) as [b|] eqn:Hi; [|done].
  rewrite (lookup_lswap _ _ _ _ _ _ Hi Hj). rewrite !decide_False by lia. done.
Qed.

Lemma min_child_range s i n :
  (2 * i + 1 < n)%nat -> (i < min_child s i n < n)%nat /\ parent (min_child s i n) = i.
Proof.
  intros Hn. unfold min_child. cbv zeta.
  destruct (2 * i + 1 + 1 <? n)%nat eqn:H2; cbn [andb].
  - apply Nat.ltb_lt in H2.
    destruct (Less s _ _); (split; [lia|]); [apply parent_right|apply parent_left].
  - split; [lia|apply parent_left].
Qed.

Lemma down_outside fuel i n s k :
  (n <= k)%nat -> hs (down fuel i n s).1 !! k = hs s !! k.
Proof.
  revert i s. induction fuel as [|fuel IH]; intros i s Hk; cbn [down]; [done|].
  destruct (n <=? 2 * i + 1)%nat eqn:Hn; [done|]. apply Nat.leb_gt in Hn. cbv zeta.
  pose proof (min_child_range s i n Hn) as [Hj _].
  destruct (negb (Less s _ i)) eqn:Hl; [done|]. apply negb_false_iff in Hl.
  rewrite IH by lia. rewrite hs_Swap. unfold Less in Hl.
  destruct (hs s !! min_child s i n) as [a|] eqn:Hja; [|done].
  destruct (hs s !! i) as [b|] eqn:Hib; [|done].
  rewrite (lookup_lswap _ _ _ _ _ _ Hib Hja). rewrite !decide_False by lia. done.
Qed.

(** ** Sifting restores the heap order *)

Context (lt_asym : forall a b, lt a b = true -> lt b a = false).
Context (lt_negtrans : forall a b c, lt a b = false -> lt b c = false -> lt a c = false).

Lemma lt_irrefl a : lt a a = false.
Proof. destruct (lt a a) eqn:H; [|done]. by rewrite (lt_asym _ _ H) in H. Qed.

Lemma lt_of_lt_trans a b c : lt a b = true -> lt c b = false -> lt c a = false.
Proof. intros H1 H2. eapply lt_negtrans; [exact H2|]. by apply lt_asym. Qed.

(** Heap order but for the edge above [j]; the children of [j] are in order
    with the parent of [j]. *)
Definition up_inv l (n j : nat) : Prop :=
  (forall k, (k < n)%nat -> k <> j -> edge_ok l k) /\
  (forall c a g, (c < n)%nat -> (0 < c)%nat -> parent c = j -> (0 < j)%nat ->
     l !! c = Some a -> l !! parent j = Some g -> lt a g = false).

Lemma up_is_heap fuel j n s :
  (j < fuel)%nat -> (j < n)%nat -> (n <= length (hs s))%nat ->
  up_inv (hs s) n j -> is_heap (hs (up fuel j s)) n.
Proof.
  revert j s. induction fuel as [|fuel IH]; intros j s Hf Hjn Hlen [Hedge Hch]; [lia|].
  cbn [up]. cbv zeta.
  destruct (parent j =? j)%nat eqn:Hpj; simpl.
  { apply Nat.eqb_eq in Hpj. intros k Hk. destruct (decide (k = j)) as [->|]; [|by apply Hedge].
    intros a p Hpos. pose proof (parent_lt j Hpos). lia. }
  apply Nat.eqb_neq in Hpj. assert (Hpos : (0 < j)%nat) by (destruct j; [done|lia]).
  pose proof (parent_lt j Hpos) as Hlt.
  destruct (lookup_lt_is_Some_2 (hs s) j) as [a Ha]; [lia|].
  destruct (lookup_lt_is_Some_2 (hs s) (parent j)) as [p Hp]; [lia|].
  rewrite (Less_spec _ _ _ _ _ Ha Hp).
  destruct (lt a p) eqn:Hap; simpl.
  2: { intros k Hk. destruct (decide (k = j)) as [->|]; [|by apply Hedge].
       intros a' p' _ ? ?. by simplify_eq. }
  apply IH; [lia|lia|rewrite hs_Swap, length_lswap; lia|].
  rewrite hs_Swap. split.
  - intros k Hk Hki x y Hkpos. pose proof (parent_lt k Hkpos).
    rewrite !(lookup_lswap _ _ _ _ _ _ Hp Ha).
    destruct (decide (k = j)) as [->|Hkj].
    + rewrite (decide_False (P := parent j = j)), decide_True by done.
      intros [= <-] [= <-]. by apply lt_asym.
    + rewrite (decide_False (P := k = parent j)) by done. intros Hx.
      destruct (decide (parent k = j)) as [Hpk|Hpk].
      { intros [= <-]. eapply (Hch k); eauto. }
      destruct (decide (parent k = parent j)) as [Hpp|Hpp].
      { intros [= <-]. eapply lt_of_lt_trans; [exact Hap|].
        apply (Hedge k Hk Hkj); [done|done|]. by rewrite Hpp. }
      intros Hy. by apply (Hedge k Hk Hkj x y).
  - intros c x g Hc Hcpos Hpc Hipos. pose proof (parent_lt _ Hipos).
    rewrite !(lookup_lswap _ _ _ _ _ _ Hp Ha).
    rewrite (decide_False (P := parent (parent j) = j)) by lia.
    rewrite (decide_False (P := parent (parent j) = parent j)) by lia.
    assert (Hpg : forall g, hs s !! parent (parent j) = Some g -> lt p g = false).
    { intros g' Hg'. by apply (Hedge (parent j) ltac:(lia) ltac:(lia)). }
    destruct (decide (c = j)) as [->|Hcj].
    + intros [= <-] Hg. by apply Hpg.
    + pose proof (parent_lt c Hcpos).
      rewrite (decide_False (P := c = parent j)) by lia. intros Hx Hg.
      eapply lt_negtrans; [|by apply Hpg].
      apply (Hedge c Hc Hcj); [done|done|by rewrite Hpc].
Qed.

(** Heap order but for the edges below [i] and, if [i] is where the sift began,
    the edge above it; the children of [i] are in order with its parent. *)
Definition down_inv l (n i : nat) : Prop :=
  (forall k, (k < n)%nat -> k <> i -> parent k <> i -> edge_ok l k) /\
  (forall c a g, (c < n)%nat -> (0 < c)%nat -> parent c = i -> (0 < i)%nat ->
     l !! c = Some a -> l !! parent i = Some g -> lt a g = false).

Lemma min_child_least s i n c x m :
  (2 * i + 1 < n)%nat -> (n <= length (hs s))%nat ->
  (c < n)%nat -> (0 < c)%nat -> parent c = i ->
  hs s !! c = Some x -> hs s !! min_child s i n = Some m -> lt x m = false.
Proof.
  intros Hn Hlen Hc Hcpos Hpc Hx Hm.
  pose proof (parent_spec c Hcpos) as Hcc. rewrite Hpc in Hcc.
  unfold min_child in Hm.
  destruct (lookup_lt_is_Some_2 (hs s) (2 * i + 1)) as [y1 Hy1]; [lia|].
  cbv zeta in Hm. destruct (2 * i + 1 + 1 <? n)%nat eqn:H2; cbn [andb] in Hm.
  - apply Nat.ltb_lt in H2.
    destruct (lookup_lt_is_Some_2 (hs s) (2 * i + 1 + 1)) as [y2 Hy2]; [lia|].
    rewrite (Less_spec _ _ _ _ _ Hy2 Hy1) in Hm.
    replace (2 * i + 2)%nat with (2 * i + 1 + 1)%nat in Hcc by lia.
    destruct (lt y2 y1) eqn:Hlt; destruct Hcc as [Heq|Heq]; rewrite Heq in Hx;
      simplify_eq; auto using lt_irrefl.
  - apply Nat.ltb_ge in H2. destruct Hcc as [->| ->]; [|lia].
    simplify_eq. apply lt_irrefl.
Qed.

(** The three outcomes of the sift from [i]: it moved and the heap is in order;
    or it did not move, the state is as before, and only the edge above [i]
    may be out of order. *)
Lemma down_spec fuel i n s :
  (n - i < fuel)%nat -> (i < n)%nat -> (n <= length (hs s))%nat ->
  down_inv (hs s) n i ->
  let '(s', i') := down fuel i n s in
  ((i < i')%nat /\ is_heap (hs s') n) \/
  (i' = i /\ s' = s /\ forall k, (k < n)%nat -> k <> i -> edge_ok (hs s) k).
Proof.
  revert i s. induction fuel as [|fuel IH]; intros i s Hf Hin Hlen [Hedge Hch]; [lia|].
  cbn [down].
  destruct (n <=? 2 * i + 1)%nat eqn:Hn.
  { apply Nat.leb_le in Hn. right. split_and_all; [done|done|]. intros k Hk Hki.
    destruct (decide (parent k = i)) as [Hpk|]; [|by apply Hedge].
    intros a p Hpos. pose proof (parent_spec k Hpos). lia. }
  apply Nat.leb_gt in Hn. cbv zeta.
  pose proof (min_child_range s i n Hn) as [Hj Hpj].
  destruct (lookup_lt_is_Some_2 (hs s) (min_child s i n)) as [m Hm]; [lia|].
  destruct (lookup_lt_is_Some_2 (hs s) i) as [x Hx]; [lia|].
  rewrite (Less_spec _ _ _ _ _ Hm Hx).
  pose proof (fun c y => min_child_least s i n c y m Hn Hlen) as Hleast.
  destruct (lt m x) eqn:Hmx; simpl.
  2: { right. split_and_all; [done|done|]. intros k Hk Hki.
       destruct (decide (parent k = i)) as [Hpk|]; [|by apply Hedge].
       intros a p Hpos Ha Hp. rewrite Hpk in Hp. simplify_eq.
       eapply lt_negtrans; [|exact Hmx]. by eapply Hleast. }
  set (j := min_child s i n) in *.
  assert (Hl' : forall k, hs (Swap i j s) !! k =
    if decide (k = j) then Some x else if decide (k = i) then Some m else hs s !! k).
  { intros k. rewrite hs_Swap. by apply lookup_lswap. }
  assert (Hlen' : (n <= length (hs (Swap i j s)))%nat) by (rewrite hs_Swap, length_lswap; lia).
  assert (Hji : edge_ok (hs (Swap i j s)) j).
  { intros a p _. rewrite !Hl', Hpj, decide_True by done.
    rewrite (decide_False (P := i = j)), decide_True by lia.
    intros [= <-] [= <-]. by apply lt_asym. }
  assert (Hothers : forall k, (k < n)%nat -> k <> j -> parent k <> j ->
    edge_ok (hs (Swap i j s)) k).
  { intros k Hk Hkj Hpk a p Hpos. pose proof (parent_lt k Hpos).
    rewrite !Hl', (decide_False (P := k = j)) by done.
    rewrite (decide_False (P := parent k = j)) by done.
    destruct (decide (k = i)) as [->|Hki].
    - rewrite decide_False by lia. intros [= <-] Hp. apply (Hch j m p); [lia|lia|done|lia|done|done].
    - intros Ha. destruct (decide (parent k = i)) as [Hpi|Hpi].
      + intros [= <-]. by eapply Hleast.
      + intros Hp. by apply (Hedge k Hk Hki Hpi). }
  assert (Hinv' : down_inv (hs (Swap i j s)) n j).
  { split; [intros; by apply Hothers|].
    intros c a g Hc Hcpos Hpc _. pose proof (parent_lt c Hcpos).
    rewrite Hpj, !Hl'. rewrite (decide_False (P := c = j)), (decide_False (P := c = i)) by lia.
    rewrite (decide_False (P := i = j)), decide_True by lia.
    intros Ha [= <-]. apply (Hedge c Hc); [lia|lia|done|done|]. by rewrite Hpc. }
  specialize (IH j (Swap i j s) ltac:(lia) ltac:(lia) Hlen' Hinv').
  destruct (down fuel j n (Swap i j s)) as [s' i'].
  left. destruct IH as [[Hlt Hheap]|(-> & -> & Hrest)]; (split; [lia|]); [done|].
  intros k Hk. destruct (decide (k = j)) as [->|]; [done|]. by apply Hrest.
Qed.

(** [down], and [up] when it did not move, restores the heap order. *)
Definition resift (i n : nat) s : iheap E :=
  let '(s', moved) := sift_down i n s in if moved then s' else sift_up i s'.

Lemma resift_reorders i n s : reorders s (resift i n s).
Proof.
  unfold resift, sift_down. pose proof (down_reorders (S n) i n s) as Hd.
  destruct (down (S n) i n s) as [s' i']. simpl in Hd.
  destruct (i <? i')%nat; [done|]. eapply reorders_trans; [done|apply up_reorders].
Qed.

Lemma resift_outside i n s k :
  (n <= k)%nat -> (i < n)%nat -> hs (resift i n s) !! k = hs s !! k.
Proof.
  intros Hk Hi. unfold resift, sift_down. pose proof (down_outside (S n) i n s k Hk) as Hd.
  destruct (down (S n) i n s) as [s' i']. simpl in Hd.
  destruct (i <? i')%nat; [done|]. rewrite <- Hd. apply up_outside. lia.
Qed.

Lemma resift_is_heap i n s :
  (i < n)%nat -> (n <= length (hs s))%nat -> down_inv (hs s) n i -> is_heap (hs (resift i n s)) n.
Proof.
  intros Hi Hlen Hinv. unfold resift, sift_down.
  pose proof (down_spec (S n) i n s ltac:(lia) Hi Hlen Hinv) as Hd.
  destruct (down (S n) i n s) as [s' i'].
  destruct Hd as [[Hlt Hheap]|(-> & -> & Hrest)].
  - apply Nat.ltb_lt in Hlt. by rewrite Hlt.
  - rewrite Nat.ltb_irrefl. apply up_is_heap; [lia|lia|lia|].
    split; [done|]. apply Hinv.
Qed.

Lemma is_heap_take l n : is_heap l n -> is_heap (take n l) n.
Proof.
  intros Hh k Hk a p Hpos. pose proof (parent_lt k Hpos).
  rewrite !lookup_take_lt by lia. by apply Hh.
Qed.

(** The root orders before every entry. *)
Lemma is_heap_root l n k r a :
  is_heap l n -> (k < n)%nat -> l !! 0%nat = Some r -> l !! k = Some a -> (n <= length l)%nat ->
  lt a r = false.
Proof.
  intros Hh Hk Hr Ha Hlen. revert a Hk Ha.
  induction k as [k IH] using lt_wf_ind. intros a Hk Ha.
  destruct (decide (k = 0)%nat) as [->|Hne]; [simplify_eq; apply lt_irrefl|].
  pose proof (parent_lt k ltac:(lia)) as Hp.
  destruct (lookup_lt_is_Some_2 l (parent k)) as [p Hpk]; [lia|].
  eapply lt_negtrans; [apply (Hh k Hk a p); [lia|done|done]|]. by apply (IH (parent k)); [|lia|].
Qed.

(** Removal of the last entry of a state whose first [n] entries are in order. *)
Lemma pop_method_spec s x n :
  length (hs s) = S n -> hs s !! n = Some x -> is_heap (hs s) n -> idx_ok s ->
  exists s', pop_method s = (Some x, s') /\ heap_inv s' /\ hs s ≡ₚ x :: hs s' /\
    hs s' = take n (hs s) /\ hidx s' = <[ptr x := -1]> (hidx s).
Proof.
  intros Hlen Hx Hheap Hok. unfold pop_method. rewrite Hlen. simpl. rewrite Nat.sub_0_r, Hx.
  eexists; split; [done|]. simpl.
  assert (Hsplit : hs s = take n (hs s) ++ [x]).
  { rewrite <- (take_S_r _ _ _ Hx). by rewrite <- Hlen, firstn_all. }
  split_and_all; [split| |done|done].
  - simpl. rewrite length_take, Hlen, Nat.min_l by lia. by apply is_heap_take.
  - intros k a. simpl. rewrite lookup_take_Some. intros [Ha Hk].
    rewrite lookup_insert_ne; [by apply Hok|]. intros Hp.
    pose proof (idx_ok_inj _ _ _ _ _ Hok Hx Ha Hp). lia.
  - rewrite Hsplit at 1. by rewrite Permutation_app_comm.
Qed.

(** ** The operations of [container/heap] *)

Lemma heap_Push_spec x s :
  heap_inv s -> (forall y, y ∈ hs s -> ptr y <> ptr x) ->
  heap_inv (heap_Push x s) /\ hs (heap_Push x s) ≡ₚ x :: hs s.
Proof.
  intros [Hh Hok] Hfresh. set (s1 := push_method x s). set (n := length (hs s)) in *.
  assert (Hlen : length (hs s1) = S n) by (simpl; rewrite length_app; simpl; lia).
  assert (Heq : heap_Push x s = up (S n) n s1).
  { unfold heap_Push, sift_up, heap_Len. fold s1. rewrite Hlen. simpl. by rewrite Nat.sub_0_r. }
  rewrite Heq. clear Heq.
  pose proof (up_reorders (S n) n s1) as Hr.
  assert (Hok1 : idx_ok s1).
  { intros k a Hk. simpl in Hk |- *. apply lookup_app_Some in Hk as [Hk|[Hk Hx]].
    - rewrite lookup_insert_ne; [by apply Hok|].
      intros Hp. apply (Hfresh a); [|done]. by eapply list_elem_of_lookup_2.
    - apply list_lookup_singleton_Some in Hx as [Hx ->].
      rewrite lookup_insert_eq. do 2 f_equal. lia. }
  split; [split|].
  - rewrite (reorders_length _ _ Hr), Hlen.
    apply up_is_heap; [lia|lia|simpl; rewrite length_app; simpl; lia|].
    split.
    + intros k Hk Hkn a p Hpos. pose proof (parent_lt k Hpos). simpl hs.
      rewrite !lookup_app_l by lia. by apply Hh; lia.
    + intros c a g Hc Hcpos Hpc. pose proof (parent_spec c Hcpos). lia.
  - by apply Hr.
  - etrans; [apply Hr|]. simpl. by rewrite Permutation_app_comm.
Qed.

Lemma heap_Pop_spec s r :
  heap_inv s -> hs s !! 0%nat = Some r ->
  exists s', heap_Pop s = (Some r, s') /\ heap_inv s' /\ hs s ≡ₚ r :: hs s' /\
    (forall y, y ∈ hs s -> lt y r = false) /\ hidx s' !! ptr r = Some (-1).
Proof.
  intros [Hh Hok] Hr.
  assert (Hmin : forall y, y ∈ hs s -> lt y r = false).
  { intros y [k Hk]%list_elem_of_lookup. eapply is_heap_root; eauto.
    by apply lookup_lt_Some in Hk. }
  pose proof (lookup_lt_Some _ _ _ Hr) as Hpos.
  unfold heap_Pop, heap_Len. cbv zeta. set (n := (length (hs s) - 1)%nat).
  destruct (lookup_lt_is_Some_2 (hs s) n) as [z Hz]; [lia|].
  set (s1 := Swap 0 n s).
  assert (Hl1 : forall k, hs s1 !! k =
    if decide (k = n) then Some r else if decide (k = 0%nat) then Some z else hs s !! k).
  { intros k. unfold s1. rewrite hs_Swap. by apply lookup_lswap. }
  pose proof (Swap_reorders 0 n s) as Hre. fold s1 in Hre.
  pose proof (reorders_length _ _ Hre) as Hlen1.
  set (s2 := (sift_down 0 n s1).1).
  assert (Hre2 : reorders s1 s2).
  { unfold s2, sift_down. pose proof (down_reorders (S n) 0 n s1).
    by destruct (down (S n) 0 n s1). }
  assert (Hrn : hs s2 !! n = Some r).
  { unfold s2, sift_down. pose proof (down_outside (S n) 0 n s1 n ltac:(lia)) as Ho.
    destruct (down (S n) 0 n s1). simpl in *. rewrite Ho, Hl1, decide_True; done. }
  assert (Hheap2 : is_heap (hs s2) n).
  { destruct (decide (n = 0%nat)) as [Hn0|Hn0]; [rewrite Hn0; intros k Hk; lia|].
    unfold s2, sift_down.
    pose proof (down_spec (S n) 0 n s1 ltac:(lia) ltac:(lia) ltac:(lia)) as Hd.
    destruct (down (S n) 0 n s1) as [s3 i3]. simpl.
    assert (Hd1 : down_inv (hs s1) n 0).
    { split; [|lia]. intros k Hk Hk0 Hpk a p Hkpos. pose proof (parent_lt k Hkpos).
      rewrite !Hl1, !decide_False by lia. by apply Hh; lia. }
    destruct (Hd Hd1) as [[_ ?]|(-> & -> & Hrest)]; [done|].
    intros k Hk. destruct (decide (k = 0%nat)) as [->|]; [|by apply Hrest]. intros ? ? ?; lia. }
  destruct (pop_method_spec s2 r n) as (s' & -> & Hinv' & Hperm & _ & Hidx); auto.
  { rewrite (reorders_length _ _ Hre2), Hlen1. lia. }
  { by apply Hre2, Hre. }
  exists s'. split_and_all; [done|done| |done|rewrite Hidx; apply lookup_insert_eq].
  rewrite <- Hperm. symmetry. by rewrite (proj1 Hre2), (proj1 Hre).
Qed.

Lemma heap_Remove_spec s i x :
  heap_inv s -> hs s !! i = Some x ->
  exists s', heap_Remove i s = (Some x, s') /\ heap_inv s' /\ hs s ≡ₚ x :: hs s'.
Proof.
  intros [Hh Hok] Hx. pose proof (lookup_lt_Some _ _ _ Hx) as Hi.
  unfold heap_Remove, heap_Len. cbv zeta. set (n := (length (hs s) - 1)%nat).
  destruct (n =? i)%nat eqn:Hni.
  { apply Nat.eqb_eq in Hni. subst i.
    destruct (pop_method_spec s x n) as (s' & -> & Hinv' & Hperm & _); [lia|done| |done|].
    - intros k Hk. apply Hh. lia.
    - exists s'. done. }
  apply Nat.eqb_neq in Hni.
  destruct (lookup_lt_is_Some_2 (hs s) n) as [z Hz]; [lia|].
  set (s1 := Swap i n s).
  assert (Hl1 : forall k, hs s1 !! k =
    if decide (k = n) then Some x else if decide (k = i) then Some z else hs s !! k).
  { intros k. unfold s1. rewrite hs_Swap. by apply lookup_lswap. }
  pose proof (Swap_reorders i n s) as Hre. fold s1 in Hre.
  pose proof (reorders_length _ _ Hre) as Hlen1.
  change (exists s', pop_method (resift i n s1) = (Some x, s') /\ heap_inv s' /\ hs s ≡ₚ x :: hs s').
  pose proof (resift_reorders i n s1) as Hre2.
  destruct (pop_method_spec (resift i n s1) x n) as (s' & -> & Hinv' & Hperm & _).
  - rewrite (reorders_length _ _ Hre2), Hlen1. lia.
  - rewrite resift_outside by lia. by rewrite Hl1, decide_True.
  - apply resift_is_heap; [lia|lia|]. split.
    + intros k Hk Hki Hpk a p Hkpos. pose proof (parent_lt k Hkpos).
      rewrite !Hl1, !decide_False by lia. by apply Hh; lia.
    + intros c a g Hc Hcpos Hpc Hipos. pose proof (parent_lt c Hcpos).
      pose proof (parent_lt i Hipos). rewrite !Hl1, !decide_False by lia. intros Ha Hg.
      eapply lt_negtrans; [|apply (Hh i ltac:(lia) x g Hipos Hx Hg)].
      apply (Hh c ltac:(lia) a x Hcpos Ha). by rewrite Hpc.
  - by apply Hre2, Hre.
  - exists s'. split_and_all; [done|done|].
    rewrite <- Hperm. symmetry. by rewrite (proj1 Hre2), (proj1 Hre).
Qed.

(** [heap.Fix] after the entry at [i] was modified in place. *)
Lemma heap_Fix_spec s i x :
  heap_inv s -> (i < length (hs s))%nat ->
  hidx s !! ptr x = Some (Z.of_nat i) ->
  heap_inv (heap_Fix i (mkHeap (<[i := x]> (hs s)) (hidx s))) /\
  hs (heap_Fix i (mkHeap (<[i := x]> (hs s)) (hidx s))) ≡ₚ <[i := x]> (hs s).
Proof.
  intros [Hh Hok] Hi Hidx. set (s1 := mkHeap _ _).
  assert (Hl1 : forall k, hs s1 !! k = if decide (k = i) then Some x else hs s !! k).
  { intros k. simpl. destruct (decide (k = i)) as [->|]; [by apply list_lookup_insert_eq|].
    by rewrite list_lookup_insert_ne. }
  change (heap_Fix i s1) with (resift i (heap_Len s1) s1).
  pose proof (resift_reorders i (heap_Len s1) s1) as Hre.
  assert (Hlen1 : heap_Len s1 = length (hs s)) by (unfold heap_Len; simpl; apply length_insert).
  assert (Hok1 : idx_ok s1).
  { intros k a. rewrite Hl1. case_decide; [intros [= <-]; by subst|]. apply Hok. }
  split; [|apply Hre]. split; [|by apply Hre].
  rewrite (reorders_length _ _ Hre). change (length (hs s1)) with (heap_Len s1).
  apply resift_is_heap; [lia|done|]. split.
  - intros k Hk Hki Hpk a p Hkpos. rewrite !Hl1, !decide_False by done. by apply Hh; lia.
  - intros c a g Hc Hcpos Hpc Hipos. pose proof (parent_lt c Hcpos).
    pose proof (parent_lt i Hipos). rewrite !Hl1, !decide_False by lia. intros Ha Hg.
    destruct (lookup_lt_is_Some_2 (hs s) i) as [y Hy]; [lia|].
    eapply lt_negtrans; [|apply (Hh i ltac:(lia) y g Hipos Hy Hg)].
    apply (Hh c ltac:(lia) a y Hcpos Ha). by rewrite Hpc.
Qed.

End Heap.
