(* ===== verification/AdmissionTypes.v ===== *)
(** * Admission data and the interfaces of its containers

    The records of [internal/admission/types.go] and the pool configuration of
    [controller.go], and what the controller relies on of its two containers:
    [FifoOps]/[FifoLaws] for the per-owner ready queue ([ready_queue.go],
    implemented in ReadyQueue.v) and [DeadlineOps]/[DeadlineLaws] for the
    deadline index ([deadline_heap.go], implemented in DeadlineIndex.v).

    A [*QueueEntry] is shared by a ready queue, the deadline index and the task
    index of the controller. Its fields are written once, before it is
    enqueued, but for [HeapIndex], which only the deadline index reads or
    writes; the model gives an entry its address [qe_ptr] and keeps
    [HeapIndex] in the index. *)

From S2P Require Import Prelude.
From S2P Require Import Execution.
From S2P Require Import Tasks.


Record OwnerLimits := mkLimits {
  ol_MaxWaiting : Z; ol_MaxActive : Z; ol_Weight : Z; ol_MaxPayloadByte : Z
}.

Definition DefaultOwnerLimits : OwnerLimits := mkLimits 50 10 1 (50 * 1024 * 1024).

Record PoolConfig := mkPoolConfig { pc_BacklogLimit : Z; pc_PayloadBudget : Z }.

Definition DefaultPoolConfig : PoolConfig := mkPoolConfig 500 (100 * 1024 * 1024).

Record QueueEntry := mkEntry {
  qe_ptr : nat;
  qe_Spec : WorkSpec;
  qe_EnqueuedAt : time;
  qe_PayloadSize : Z
}.

Definition qe_ID (e : QueueEntry) : TaskID := ws_ID (qe_Spec e).
Definition qe_Deadline (e : QueueEntry) : time := ws_QueueDeadline (qe_Spec e).

(** A concrete specification and entry, for the witnesses. *)
Definition sample_spec (id owner class key : string) (deadline : time) : WorkSpec :=
  mkWorkSpec id (mkScope "s" 1) owner "pool" class key deadline 0 "" None None []
    None None None.

Definition sample_entry (p : nat) (id : TaskID) : QueueEntry :=
  mkEntry p (sample_spec id "o" PriorityNormal "" 9) 0 3.

(** ** The ready queue *)

Class FifoOps (Q : Type) := {
  q_new : Q;
  q_push : QueueEntry -> Q -> Q;
  q_remove : TaskID -> Q -> option QueueEntry * Q;
  q_first : (QueueEntry -> bool) -> Q -> option QueueEntry;
  q_len : Q -> Z;
  q_ok : Q -> Prop;
  q_elems : Q -> list QueueEntry
}.

Class FifoLaws (Q : Type) `{FifoOps Q} := {
  q_new_spec : q_ok q_new /\ q_elems q_new = [];
  q_push_spec : forall e q, q_ok q -> qe_ID e ∉ map qe_ID (q_elems q) ->
    q_ok (q_push e q) /\ q_elems (q_push e q) = q_elems q ++ [e];
  q_remove_spec : forall id q e l1 l2,
    q_ok q -> q_elems q = l1 ++ e :: l2 -> qe_ID e = id ->
    exists q', q_remove id q = (Some e, q') /\ q_ok q' /\ q_elems q' = l1 ++ l2;
  q_remove_absent : forall id q, q_ok q -> id ∉ map qe_ID (q_elems q) -> q_remove id q = (None, q);
  q_first_spec : forall f q, q_ok q -> q_first f q = List.find f (q_elems q);
  q_len_spec : forall q, q_ok q -> q_len q = Z.of_nat (length (q_elems q));
  q_nodup : forall q, q_ok q -> NoDup (map qe_ID (q_elems q))
}.

(** ** The deadline index *)

Class DeadlineOps (D : Type) := {
  d_new : D;
  d_push : QueueEntry -> D -> D;
  d_remove : QueueEntry -> D -> D;
  d_peek : D -> option QueueEntry;
  d_pop_expired : time -> D -> list QueueEntry * D;
  d_ok : D -> Prop;
  d_elems : D -> list QueueEntry
}.

Class DeadlineLaws (D : Type) `{DeadlineOps D} := {
  d_new_spec : d_ok d_new /\ d_elems d_new = [];
  d_push_spec : forall e d, d_ok d -> qe_Deadline e <> 0 -> qe_ptr e ∉ map qe_ptr (d_elems d) ->
    d_ok (d_push e d) /\ d_elems (d_push e d) ≡ₚ e :: d_elems d;
  d_push_zero : forall e d, d_ok d -> qe_Deadline e = 0 -> qe_ptr e ∉ map qe_ptr (d_elems d) ->
    d_ok (d_push e d) /\ d_elems (d_push e d) = d_elems d;
  d_remove_spec : forall e d, d_ok d -> e ∈ d_elems d ->
    d_ok (d_remove e d) /\ d_elems d ≡ₚ e :: d_elems (d_remove e d);
  d_remove_absent : forall e d, d_ok d -> qe_ptr e ∉ map qe_ptr (d_elems d) -> d_remove e d = d;
  d_peek_spec : forall d, d_ok d ->
    match d_peek d with
    | None => d_elems d = []
    | Some e => e ∈ d_elems d /\ forall e', e' ∈ d_elems d -> qe_Deadline e <= qe_Deadline e'
    end;
  d_pop_expired_spec : forall now d, d_ok d ->
    let '(xs, d') := d_pop_expired now d in
    d_ok d' /\ d_elems d ≡ₚ xs ++ d_elems d' /\
    (forall e, e ∈ xs -> qe_Deadline e <= now) /\
    (forall e, e ∈ d_elems d' -> now < qe_Deadline e);
  d_nodup : forall d, d_ok d -> NoDup (map qe_ptr (d_elems d))
}.

(** ** The controller

    What the engine relies on of the admission controller
    ([controller.go], implemented in Admission.v): its waiting tasks
    [a_index], its pools, the active tasks of an owner and the ordering locks.
    [Selected] is a candidate with a nil error, [NoEligible] the error
    [ErrNoEligibleTask]; both carry the controller the call leaves behind. *)

Inductive select_result (C : Type) :=
  | Selected (e : QueueEntry) (c : C)
  | NoEligible (c : C)
  | SelectPanic.
Arguments Selected {C}.
Arguments NoEligible {C}.
Arguments SelectPanic {C}.

Definition norm_class (class : PriorityClass) : PriorityClass :=
  if decide (class = "") then PriorityNormal else class.

Definition qe_class (e : QueueEntry) : PriorityClass := norm_class (ws_Class (qe_Spec e)).
Definition qe_owner (e : QueueEntry) : OwnerID := ws_QuotaOwner (qe_Spec e).
Definition qe_pool (e : QueueEntry) : PoolID := ws_Pool (qe_Spec e).

Class AdmissionOps (A : Type) := {
  a_new : gmap PoolID PoolConfig -> A;
  a_set_owner_limits : OwnerID -> OwnerLimits -> A -> A;
  a_set_pool_config : PoolID -> PoolConfig -> A -> A * option goerror;
  a_can_admit : WorkSpec -> Z -> A -> option goerror;
  a_enqueue : QueueEntry -> A -> option A;
  a_select : (nat -> time) -> (WorkSpec -> bool) -> PoolID -> A -> select_result A;
  a_terminal : WorkSpec -> A -> A;
  a_remove : TaskID -> A -> option QueueEntry * A;
  a_pop_expired : PoolID -> time -> A -> list QueueEntry * A;
  a_stats : PoolID -> A -> Z * Z;
  a_ok : A -> Prop;
  a_index : A -> gmap TaskID QueueEntry;
  a_pools : A -> gset PoolID;
  a_active : A -> OwnerID -> Z;
  a_limit : A -> OwnerID -> Z;
  a_locks : A -> gmap string TaskID
}.

(** What an operation that only looks at or removes waiting tasks keeps. *)
Definition a_same_slots `{AdmissionOps A} (a a' : A) : Prop :=
  a_pools a' = a_pools a /\ (forall o, a_active a' o = a_active a o) /\ a_locks a' = a_locks a /\
  (forall o, a_limit a' o = a_limit a o).

Definition a_fresh `{AdmissionOps A} (e : QueueEntry) (a : A) : Prop :=
  a_index a !! qe_ID e = None /\ qe_class e ∈ priority_classes /\ qe_pool e ∈ a_pools a /\
  forall id x, a_index a !! id = Some x -> qe_ptr x <> qe_ptr e.

Class AdmissionLaws (A : Type) `{AdmissionOps A} := {
  a_new_law : forall cfgs, a_ok (a_new cfgs) /\ a_index (a_new cfgs) = ∅ /\
    a_pools (a_new cfgs) = dom cfgs /\ (forall o, a_active (a_new cfgs) o = 0) /\
    a_locks (a_new cfgs) = ∅;
  a_set_owner_limits_law : forall o l a, a_ok a ->
    let a' := a_set_owner_limits o l a in
    a_ok a' /\ a_index a' = a_index a /\ a_pools a' = a_pools a /\
    (forall o', a_active a' o' = a_active a o') /\ a_locks a' = a_locks a;
  a_set_pool_config_law : forall p cfg a, a_ok a ->
    let a' := (a_set_pool_config p cfg a).1 in
    a_ok a' /\ a_index a' = a_index a /\ a_same_slots a a';
  a_can_admit_law : forall spec n a, a_can_admit spec n a = None -> ws_Pool spec ∈ a_pools a;
  a_enqueue_law : forall e a, a_ok a -> a_fresh e a ->
    exists a', a_enqueue e a = Some a' /\ a_ok a' /\ a_index a' = <[qe_ID e := e]> (a_index a) /\
      a_same_slots a a';
  a_select_law : forall clock eligible pool a, a_ok a ->
    match a_select clock eligible pool a with
    | Selected e a' =>
        a_ok a' /\ a_index a !! qe_ID e = Some e /\ qe_pool e = pool /\
        eligible (qe_Spec e) = true /\
        (a_limit a (qe_owner e) <= 0 \/ a_active a (qe_owner e) < a_limit a (qe_owner e)) /\
        a_index a' = delete (qe_ID e) (a_index a) /\ a_pools a' = a_pools a /\
        (forall o, a_limit a' o = a_limit a o) /\
        (forall o, a_active a' o =
           a_active a o + if bool_decide (o = qe_owner e) then 1 else 0) /\
        let key := ws_OrderingKey (qe_Spec e) in
        (key <> "" -> a_locks a !! key = None) /\
        a_locks a' = if decide (key <> "") then <[key := qe_ID e]> (a_locks a) else a_locks a
    | NoEligible a' => a_ok a' /\ a_index a' = a_index a /\ a_same_slots a a'
    | SelectPanic => False
    end;
  a_terminal_law : forall spec a, a_ok a ->
    let a' := a_terminal spec a in
    a_ok a' /\ a_index a' = a_index a /\ a_pools a' = a_pools a /\
    (forall o, a_limit a' o = a_limit a o) /\
    (forall o, 0 <= a_active a o -> a_active a' o =
       if bool_decide (o = ws_QuotaOwner spec) then Z.max 0 (a_active a o - 1) else a_active a o) /\
    let key := ws_OrderingKey spec in
    a_locks a' = if decide (key <> "" /\ a_locks a !! key = Some (ws_ID spec))
                 then delete key (a_locks a) else a_locks a;
  a_remove_law : forall id a, a_ok a ->
    let '(r, a') := a_remove id a in
    r = a_index a !! id /\ a_ok a' /\ a_index a' = delete id (a_index a) /\ a_same_slots a a';
  a_pop_expired_law : forall pool now a, a_ok a ->
    let '(expired, a') := a_pop_expired pool now a in
    a_ok a' /\ a_same_slots a a' /\ NoDup (map qe_ID expired) /\
    (forall e, e ∈ expired -> a_index a !! qe_ID e = Some e /\ qe_pool e = pool) /\
    forall id, a_index a' !! id = if decide (id ∈ map qe_ID expired) then None else a_index a !! id;
  a_index_law : forall id e a, a_ok a -> a_index a !! id = Some e ->
    qe_ID e = id /\ qe_pool e ∈ a_pools a;
  a_ptr_law : forall id id' e e' a, a_ok a -> a_index a !! id = Some e ->
    a_index a !! id' = Some e' -> qe_ptr e = qe_ptr e' -> id = id'
}.
