(* ===== verification/DeadlineIndex.v ===== *)
(** * The deadline index

    Models [internal/admission/deadline_heap.go]: the indexed min-heap of
    queue entries by queue deadline, on the heap of GoHeap.v, and the proof
    that it implements the [DeadlineOps] interface of AdmissionTypes.v. *)

From S2P Require Import Prelude.
From S2P Require Import Execution.
From S2P Require Import Tasks.
From S2P Require Import GoHeap.
From S2P Require Import AdmissionTypes.
From Stdlib Require Import Sorted.

Abbreviation DeadlineIndex := (iheap QueueEntry).

(** [deadlineHeap.Less]. *)
Definition deadline_less (a b : QueueEntry) : bool := before (qe_Deadline a) (qe_Deadline b).

Definition NewDeadlineIndex : DeadlineIndex := mkHeap [] ∅.

Definition HeapIndex (d : DeadlineIndex) (e : QueueEntry) : Z := zget (qe_ptr e) (hidx d).

(** [entry.HeapIndex] is a position of the heap and the heap holds the entry
    there (a comparison of pointers). *)
Definition at_index (d : DeadlineIndex) (e : QueueEntry) : bool :=
  let i := HeapIndex d e in
  (0 <=? i) && (i <? Z.of_nat (length (hs d))) &&
  match hs d !! Z.to_nat i with Some e' => (qe_ptr e' =? qe_ptr e)%nat | None => false end.

Definition DeadlineIndex_Push (entry : option QueueEntry) (d : DeadlineIndex) : DeadlineIndex :=
  match entry with
  | None => d
  | Some e =>
      if is_zero (qe_Deadline e) then mkHeap (hs d) (<[qe_ptr e := -1]> (hidx d))
      else if at_index d e then
        let i := Z.to_nat (HeapIndex d e) in
        heap_Fix deadline_less qe_ptr i (mkHeap (<[i := e]> (hs d)) (hidx d))
      else heap_Push deadline_less qe_ptr e d
  end.

Definition DeadlineIndex_Remove (entry : option QueueEntry) (d : DeadlineIndex) : DeadlineIndex :=
  match entry with
  | None => d
  | Some e =>
      if at_index d e then
        let d' := (heap_Remove deadline_less qe_ptr (Z.to_nat (HeapIndex d e)) d).2 in
        mkHeap (hs d') (<[qe_ptr e := -1]> (hidx d'))
      else d
  end.

Definition PeekEarliest (d : DeadlineIndex) : option QueueEntry := hs d !! 0%nat.

(** The loop of [PopExpired]; every round pops one entry, so the length of the
    heap is enough fuel. *)
Fixpoint pop_expired (fuel : nat) (now : time) (d : DeadlineIndex) : list QueueEntry * DeadlineIndex :=
  match fuel with
  | O => ([], d)
  | S fuel' =>
      match hs d !! 0%nat with
      | None => ([], d)
      | Some top =>
          if after (qe_Deadline top) now then ([], d)
          else
            match heap_Pop deadline_less qe_ptr d with
            | (Some item, d') =>
                let d' := mkHeap (hs d') (<[qe_ptr item := -1]> (hidx d')) in
                let '(xs, d'') := pop_expired fuel' now d' in (item :: xs, d'')
            | (None, d') => ([], d')
            end
      end
  end.

Definition PopExpired (now : time) (d : DeadlineIndex) : list QueueEntry * DeadlineIndex :=
  pop_expired (length (hs d)) now d.

Definition DeadlineIndex_Len (d : DeadlineIndex) : Z := Z.of_nat (length (hs d)).

#[global] Instance DeadlineIndex_ops : DeadlineOps DeadlineIndex := {
  d_new := NewDeadlineIndex;
  d_push e d := DeadlineIndex_Push (Some e) d;
  d_remove e d := DeadlineIndex_Remove (Some e) d;
  d_peek := PeekEarliest;
  d_pop_expired := PopExpired;
  d_ok := heap_inv deadline_less qe_ptr;
  d_elems := hs
}.

(** ** Lemmas *)

Lemma deadline_less_asym a b : deadline_less a b = true -> deadline_less b a = false.
Proof. unfold deadline_less, before. rewrite Z.ltb_lt, Z.ltb_ge. lia. Qed.

Lemma deadline_less_negtrans a b c :
  deadline_less a b = false -> deadline_less b c = false -> deadline_less a c = false.
Proof. unfold deadline_less, before. rewrite !Z.ltb_ge. lia. Qed.

#[local] Hint Resolve deadline_less_asym deadline_less_negtrans : go.

Abbreviation inv := (heap_inv deadline_less qe_ptr).

(** The fields of other addresses do not matter to the invariant. *)
Lemma inv_hidx_fresh (l : list QueueEntry) m k v :
  inv (mkHeap l m) -> k ∉ map qe_ptr l -> inv (mkHeap l (<[k := v]> m)).
Proof.
  intros [Hh Hok] Hk. split; [done|]. intros i a Ha. simpl in *.
  rewrite lookup_insert_ne; [by apply Hok|].
  intros ->. apply Hk. apply list_elem_of_fmap. exists a. split; [done|].
  by eapply list_elem_of_lookup_2.
Qed.

Lemma inv_nodup d : inv d -> NoDup (map qe_ptr (hs d)).
Proof.
  intros [_ Hok]. apply NoDup_alt. intros i j p Hi Hj.
  apply list_lookup_fmap_Some in Hi as (a & -> & Ha).
  apply list_lookup_fmap_Some in Hj as (b & Hp & Hb).
  by eapply (idx_ok_inj qe_ptr).
Qed.

Lemma at_index_true d e :
  inv d -> e ∈ hs d -> at_index d e = true /\ hs d !! Z.to_nat (HeapIndex d e) = Some e.
Proof.
  intros [_ Hok] [i Hi]%list_elem_of_lookup. pose proof (Hok i e Hi) as Hx.
  unfold at_index, HeapIndex, zget. rewrite Hx. simpl. rewrite Nat2Z.id, Hi, Nat.eqb_refl.
  pose proof (lookup_lt_Some _ _ _ Hi). split; [|done].
  rewrite !andb_true_iff. split_and_all; [apply Z.leb_le; lia|apply Z.ltb_lt; lia|done].
Qed.

Lemma at_index_false d e : qe_ptr e ∉ map qe_ptr (hs d) -> at_index d e = false.
Proof.
  intros Hn. unfold at_index. apply andb_false_iff. right.
  destruct (hs d !! _) as [e'|] eqn:He; [|done]. apply Nat.eqb_neq. intros Hp.
  apply Hn. rewrite <- Hp. apply list_elem_of_fmap. exists e'. split; [done|].
  by eapply list_elem_of_lookup_2.
Qed.

Lemma pop_expired_spec fuel now d :
  inv d -> (length (hs d) <= fuel)%nat ->
  let '(xs, d') := pop_expired fuel now d in
  inv d' /\ hs d ≡ₚ xs ++ hs d' /\
  (forall e, e ∈ xs -> qe_Deadline e <= now) /\ (forall e, e ∈ hs d' -> now < qe_Deadline e) /\
  StronglySorted (fun a b => qe_Deadline a <= qe_Deadline b) xs.
Proof.
  revert d. induction fuel as [|fuel IH]; intros d Hinv Hlen; cbn [pop_expired].
  { destruct (hs d) as [|? ?] eqn:Hd; simpl in Hlen; [|lia].
    split_and_all; [done|done|set_solver|set_solver|constructor]. }
  destruct (hs d !! 0%nat) as [top|] eqn:Htop.
  2: { destruct (hs d) as [|? ?] eqn:Hd; [|done].
       split_and_all; [done|done|set_solver|set_solver|constructor]. }
  destruct (heap_Pop_spec deadline_less qe_ptr deadline_less_asym deadline_less_negtrans d top
    Hinv Htop) as (d1 & Hpop & Hinv1 & Hperm & Hmin & _).
  assert (Hle : forall e, e ∈ hs d -> qe_Deadline top <= qe_Deadline e).
  { intros e He. apply Hmin in He. unfold deadline_less, before in He. bool_to_prop. lia. }
  destruct (after (qe_Deadline top) now) eqn:Haft; unfold after in Haft; bool_to_prop.
  { split_and_all; [done|done|set_solver| |constructor]. intros e He. specialize (Hle e He). lia. }
  rewrite Hpop.
  set (d2 := mkHeap _ _).
  assert (Hinv2 : inv d2).
  { apply inv_hidx_fresh; [by destruct d1|].
    pose proof (inv_nodup d Hinv) as Hnd. rewrite Hperm in Hnd. simpl in Hnd.
    by apply NoDup_cons in Hnd as [? _]. }
  assert (Hlen2 : (length (hs d2) <= fuel)%nat).
  { apply Permutation_length in Hperm. simpl in Hperm |- *. lia. }
  specialize (IH d2 Hinv2 Hlen2). destruct (pop_expired fuel now d2) as [xs d'].
  destruct IH as (Hi & Hp & Hx & Hd' & Hs). split_and_all; [done| | |done|].
  - rewrite Hperm. simpl. f_equiv. exact Hp.
  - intros e [->|He]%elem_of_cons; [lia|by apply Hx].
  - constructor; [done|]. apply Forall_forall. intros e He. apply Hle.
    rewrite Hperm. right. change (hs d1) with (hs d2). rewrite Hp. by apply elem_of_app; left.
Qed.

#[global] Instance DeadlineIndex_laws : DeadlineLaws DeadlineIndex.
Proof.
  split; unfold d_ok, d_elems, d_push, d_remove, d_peek, d_pop_expired, d_new; simpl.
  - split; [|done]. split; intros i; simpl; [lia|done].
  - intros e d Hinv Hz Hf. unfold is_zero. apply Z.eqb_neq in Hz. rewrite Hz, at_index_false by done.
    apply (heap_Push_spec _ _ deadline_less_asym deadline_less_negtrans); [done|].
    intros y Hy Hp. apply Hf. rewrite <- Hp. apply list_elem_of_fmap. eauto.
  - intros e d Hinv Hz Hf. unfold is_zero. rewrite Hz. simpl. split; [|done].
    by apply inv_hidx_fresh; destruct d.
  - intros e d Hinv He. destruct (at_index_true d e Hinv He) as [-> Hi].
    destruct (heap_Remove_spec deadline_less qe_ptr deadline_less_asym deadline_less_negtrans
      d _ e Hinv Hi) as (d' & -> & Hinv' & Hperm). simpl. split; [|done].
    apply inv_hidx_fresh; [by destruct d'|].
    pose proof (inv_nodup d Hinv) as Hnd. rewrite Hperm in Hnd. by apply NoDup_cons in Hnd as [? _].
  - intros e d Hinv Hf. by rewrite at_index_false.
  - intros d Hinv. unfold PeekEarliest. destruct (hs d !! 0%nat) as [r|] eqn:Hr.
    + split; [by eapply list_elem_of_lookup_2|]. intros e' He'.
      destruct (heap_Pop_spec deadline_less qe_ptr deadline_less_asym deadline_less_negtrans d r
        Hinv Hr) as (_ & _ & _ & _ & Hmin & _).
      apply Hmin in He'. unfold deadline_less, before in He'. bool_to_prop. lia.
    + by destruct (hs d).
  - intros now d Hinv. unfold PopExpired.
    pose proof (pop_expired_spec (length (hs d)) now d Hinv ltac:(lia)) as H.
    destruct (pop_expired _ now d) as [xs d']. naive_solver.
  - apply inv_nodup.
Qed.

(** ** Properties *)

(** [PopExpired] empties the index of exactly the entries whose deadline
    has passed ([deadline <= now]), returns them earliest first, and leaves a
    heap that still knows the position of every remaining entry. *)
Theorem PopExpired_exact (now : time) (d : DeadlineIndex) :
  heap_inv deadline_less qe_ptr d ->
  let '(expired, d') := PopExpired now d in
  heap_inv deadline_less qe_ptr d' /\ hs d ≡ₚ expired ++ hs d' /\
  Forall (fun e => qe_Deadline e <= now) expired /\
  Forall (fun e => now < qe_Deadline e) (hs d') /\
  StronglySorted (fun a b => qe_Deadline a <= qe_Deadline b) expired.
Proof.
  intros Hinv. unfold PopExpired.
  pose proof (pop_expired_spec (length (hs d)) now d Hinv ltac:(lia)) as H.
  destruct (pop_expired _ now d) as [xs d']. rewrite !Forall_forall. exact H.
Qed.

Definition sample_index : DeadlineIndex :=
  DeadlineIndex_Push (Some (sample_entry 1 "a")) NewDeadlineIndex.

Lemma sample_index_inv : heap_inv deadline_less qe_ptr sample_index.
Proof.
  exact (proj1 (d_push_spec (sample_entry 1 "a") NewDeadlineIndex
    (proj1 d_new_spec) ltac:(done) (not_elem_of_nil _))).
Qed.

Lemma PopExpired_exact_witness :
  let '(expired, d') := PopExpired 10 sample_index in
  heap_inv deadline_less qe_ptr d' /\ hs sample_index ≡ₚ expired ++ hs d' /\
  Forall (fun e => qe_Deadline e <= 10) expired /\
  Forall (fun e => 10 < qe_Deadline e) (hs d') /\
  StronglySorted (fun a b => qe_Deadline a <= qe_Deadline b) expired.
Proof. exact (PopExpired_exact 10 sample_index sample_index_inv). Defined.

(** Pushing an entry that is already indexed re-sorts it in place: after its
    deadline was changed through the shared pointer, [Push] restores the heap
    and neither duplicates nor loses an entry. *)
Theorem Push_again_fixes (d : DeadlineIndex) (e old : QueueEntry) :
  heap_inv deadline_less qe_ptr d -> old ∈ hs d -> qe_ptr e = qe_ptr old -> qe_Deadline e <> 0 ->
  let d' := DeadlineIndex_Push (Some e) d in
  heap_inv deadline_less qe_ptr d' /\ exists rest, hs d ≡ₚ old :: rest /\ hs d' ≡ₚ e :: rest.
Proof.
  intros Hinv Hold Hp Hz. destruct (at_index_true d old Hinv Hold) as [Hat Hi].
  assert (HI : HeapIndex d e = HeapIndex d old) by (unfold HeapIndex; by rewrite Hp).
  assert (Hat' : at_index d e = true).
  { unfold at_index in Hat |- *. by rewrite HI, Hp. }
  simpl. unfold is_zero. apply Z.eqb_neq in Hz. rewrite Hz, Hat', HI.
  pose proof (lookup_lt_Some _ _ _ Hi) as Hlt.
  destruct (heap_Fix_spec deadline_less qe_ptr deadline_less_asym deadline_less_negtrans
    d (Z.to_nat (HeapIndex d old)) e Hinv Hlt) as [Hinv' Hperm].
  { rewrite Hp. by apply Hinv. }
  split; [done|].
  apply list_elem_of_split_length in Hi as (l1 & l2 & Hd & Hlen).
  exists (l1 ++ l2). split.
  - rewrite Hd. symmetry. apply Permutation_middle.
  - rewrite Hperm, Hd, Hlen, insert_app_r_alt, Nat.sub_diag by lia. symmetry.
    apply Permutation_middle.
Qed.

Lemma Push_again_fixes_witness :
  let e := mkEntry 1 (sample_spec "a" "o" PriorityNormal "" 4) 0 3 in
  let d' := DeadlineIndex_Push (Some e) sample_index in
  heap_inv deadline_less qe_ptr d' /\
  exists rest, hs sample_index ≡ₚ sample_entry 1 "a" :: rest /\ hs d' ≡ₚ e :: rest.
Proof.
  apply (Push_again_fixes sample_index
    (mkEntry 1 (sample_spec "a" "o" PriorityNormal "" 4) 0 3) (sample_entry 1 "a")).
  - exact sample_index_inv.
  - vm_compute. left.
  - reflexivity.
  - vm_compute. discriminate.
Defined.
