(* ===== verification/ReadyQueue.v ===== *)
(** * The ready queue

    Models [internal/admission/ready_queue.go]: an intrusive doubly linked FIFO
    list with an index from task identifiers to nodes. Nodes live in a store of
    the queue at addresses that are never reused, the pointers of the code are
    addresses, and every assignment to a field of a node is an update of the
    store. The file shows that the pointer structure implements the
    [FifoOps] interface, that is, the list of its entries in order. *)

From S2P Require Import Prelude.
From S2P Require Import Execution.
From S2P Require Import Tasks.
From S2P Require Import AdmissionTypes.

Record queueNode := mkNode {
  n_entry : option QueueEntry; n_prev : option nat; n_next : option nat
}.

Record ReadyQueue := mkRQ {
  rq_head : option nat;
  rq_tail : option nat;
  rq_nodes : gmap TaskID nat;
  rq_totalBytes : Z;
  rq_store : gmap nat queueNode;
  rq_fresh : nat
}.

Definition NewReadyQueue : ReadyQueue := mkRQ None None ∅ 0 ∅ 0.

Definition set_next (n : option nat) (x : queueNode) : queueNode := mkNode (n_entry x) (n_prev x) n.
Definition set_prev (p : option nat) (x : queueNode) : queueNode := mkNode (n_entry x) p (n_next x).

Definition ReadyQueue_Push (entry : option QueueEntry) (q : ReadyQueue) : ReadyQueue :=
  match entry with
  | None => q
  | Some e =>
      let node := rq_fresh q in
      let nodes := <[qe_ID e := node]> (rq_nodes q) in
      let bytes := wrap64 (rq_totalBytes q + qe_PayloadSize e) in
      match rq_tail q with
      | None =>
          mkRQ (Some node) (Some node) nodes bytes
            (<[node := mkNode (Some e) None None]> (rq_store q)) (S node)
      | Some tail =>
          let st := <[node := mkNode (Some e) None None]> (rq_store q) in
          let st := alter (set_next (Some node)) tail st in
          let st := alter (set_prev (Some tail)) node st in
          mkRQ (rq_head q) (Some node) nodes bytes st (S node)
      end
  end.

(** [removeNode]; the code dereferences the node and its entry, which are not
    nil for the nodes the operations pass. *)
Definition removeNode (a : nat) (q : ReadyQueue) : ReadyQueue :=
  match rq_store q !! a with
  | Some (mkNode (Some e) prev next) =>
      let nodes := delete (qe_ID e) (rq_nodes q) in
      let bytes := wrap64 (rq_totalBytes q - qe_PayloadSize e) in
      let '(head, st) :=
        match prev with
        | Some p => (rq_head q, alter (set_next next) p (rq_store q))
        | None => (next, rq_store q)
        end in
      let '(tail, st) :=
        match next with
        | Some n => (rq_tail q, alter (set_prev prev) n st)
        | None => (prev, st)
        end in
      mkRQ head tail nodes bytes (<[a := mkNode None None None]> st) (rq_fresh q)
  | _ => q
  end.

Definition ReadyQueue_Pop (q : ReadyQueue) : option QueueEntry * ReadyQueue :=
  match rq_head q with
  | None => (None, q)
  | Some node => (rq_store q !! node ≫= n_entry, removeNode node q)
  end.

Definition ReadyQueue_Remove (id : TaskID) (q : ReadyQueue) : option QueueEntry * ReadyQueue :=
  match rq_nodes q !! id with
  | None => (None, q)
  | Some node => (rq_store q !! node ≫= n_entry, removeNode node q)
  end.

Definition Peek (q : ReadyQueue) : option QueueEntry :=
  match rq_head q with
  | None => None
  | Some node => rq_store q !! node ≫= n_entry
  end.

(** The loop of [FirstMatching] from node [cur] on; it visits each node of the
    store at most once. *)
Fixpoint first_from (fuel : nat) (st : gmap nat queueNode) (cur : option nat)
    (match_ : option (QueueEntry -> bool)) : option QueueEntry :=
  match fuel, cur with
  | S fuel', Some a =>
      match st !! a with
      | None => None
      | Some x =>
          match n_entry x with
          | None => first_from fuel' st (n_next x) match_
          | Some e =>
              if match match_ with None => true | Some f => f e end then Some e
              else first_from fuel' st (n_next x) match_
          end
      end
  | _, _ => None
  end.

Definition FirstMatching (match_ : option (QueueEntry -> bool)) (q : ReadyQueue) : option QueueEntry :=
  first_from (size (rq_store q)) (rq_store q) (rq_head q) match_.

Definition ReadyQueue_Len (q : ReadyQueue) : Z := Z.of_nat (size (rq_nodes q)).
Definition TotalBytes (q : ReadyQueue) : Z := rq_totalBytes q.

(** ** The entries of a queue, and the invariant *)

Fixpoint entries_from (fuel : nat) (st : gmap nat queueNode) (cur : option nat) : list QueueEntry :=
  match fuel, cur with
  | S fuel', Some a =>
      match st !! a with
      | None => []
      | Some x =>
          match n_entry x with
          | None => entries_from fuel' st (n_next x)
          | Some e => e :: entries_from fuel' st (n_next x)
          end
      end
  | _, _ => []
  end.

Definition entries (q : ReadyQueue) : list QueueEntry :=
  entries_from (size (rq_store q)) (rq_store q) (rq_head q).

Definition first_addr (ls : list (nat * QueueEntry)) (n : option nat) : option nat :=
  match ls with [] => n | (a, _) :: _ => Some a end.

Fixpoint last_addr (p : option nat) (ls : list (nat * QueueEntry)) : option nat :=
  match ls with [] => p | (a, _) :: ls' => last_addr (Some a) ls' end.

(** A doubly linked segment between the nodes [p] and [n]. *)
Fixpoint dseg (st : gmap nat queueNode) (p : option nat) (ls : list (nat * QueueEntry))
    (n : option nat) : Prop :=
  match ls with
  | [] => True
  | (a, e) :: ls' =>
      st !! a = Some (mkNode (Some e) p (first_addr ls' n)) /\ dseg st (Some a) ls' n
  end.

Definition ids (ls : list (nat * QueueEntry)) : list TaskID := map (fun x => qe_ID x.2) ls.

Record rep (q : ReadyQueue) (ls : list (nat * QueueEntry)) : Prop := {
  rep_head : rq_head q = first_addr ls None;
  rep_tail : rq_tail q = last_addr None ls;
  rep_seg : dseg (rq_store q) None ls None;
  rep_addrs : NoDup ls.*1;
  rep_ids : NoDup (ids ls);
  rep_nodes : forall id a, rq_nodes q !! id = Some a <-> exists e, (a, e) ∈ ls /\ qe_ID e = id;
  rep_fresh : forall a, (rq_fresh q <= a)%nat -> rq_store q !! a = None;
  rep_bytes : rq_totalBytes q = wrap64 (lsum (fun x => qe_PayloadSize x.2) ls)
}.

Definition rq_ok (q : ReadyQueue) : Prop := exists ls, rep q ls.

#[global] Instance ReadyQueue_ops : FifoOps ReadyQueue := {
  q_new := NewReadyQueue;
  q_push e q := ReadyQueue_Push (Some e) q;
  q_remove := ReadyQueue_Remove;
  q_first f q := FirstMatching (Some f) q;
  q_len := ReadyQueue_Len;
  q_ok := rq_ok;
  q_elems := entries
}.

(** The list-level meaning of the operations of the queue. *)
Inductive rq_op := OpPush (e : QueueEntry) | OpPop | OpRemove (id : TaskID).

Definition rq_step (o : rq_op) (q : ReadyQueue) : option QueueEntry * ReadyQueue :=
  match o with
  | OpPush e => (None, ReadyQueue_Push (Some e) q)
  | OpPop => ReadyQueue_Pop q
  | OpRemove id => ReadyQueue_Remove id q
  end.

Definition fifo_step (o : rq_op) (l : list QueueEntry) : option QueueEntry * list QueueEntry :=
  match o with
  | OpPush e => (None, l ++ [e])
  | OpPop => match l with [] => (None, []) | e :: l' => (Some e, l') end
  | OpRemove id =>
      (List.find (fun e => bool_decide (qe_ID e = id)) l,
       List.filter (fun e => negb (bool_decide (qe_ID e = id))) l)
  end.

(** ** Segments *)

Lemma dseg_app st p l1 l2 n :
  dseg st p (l1 ++ l2) n <-> dseg st p l1 (first_addr l2 n) /\ dseg st (last_addr p l1) l2 n.
Proof.
  revert p. induction l1 as [|[a e] l1 IH]; intros p; simpl; [tauto|].
  rewrite IH. destruct l1 as [|[b e'] l1]; simpl; tauto.
Qed.

Lemma dseg_frame st st' p ls n :
  (forall a, a ∈ ls.*1 -> st' !! a = st !! a) -> dseg st p ls n -> dseg st' p ls n.
Proof.
  revert p. induction ls as [|[a e] ls IH]; intros p Hst; simpl; [done|].
  intros [Ha Hs]. split; [rewrite Hst; [done|left]|].
  apply IH; [|done]. intros b Hb. apply Hst. by right.
Qed.

Lemma dseg_insert st p ls n a x : a ∉ ls.*1 -> dseg st p ls n -> dseg (<[a := x]> st) p ls n.
Proof. intros Ha. apply dseg_frame. intros b Hb. apply lookup_insert_ne. set_solver. Qed.

Lemma dseg_alter st p ls n a f : a ∉ ls.*1 -> dseg st p ls n -> dseg (alter f a st) p ls n.
Proof. intros Ha. apply dseg_frame. intros b Hb. apply lookup_alter_ne. set_solver. Qed.

Lemma last_addr_snoc p l a e : last_addr p (l ++ [(a, e)]) = Some a.
Proof. revert p. induction l as [|[b e'] l IH]; intros p; simpl; [done|apply IH]. Qed.

Lemma last_addr_elem p ls a : last_addr p ls = Some a -> ls <> [] -> a ∈ ls.*1.
Proof.
  destruct ls as [|[b e] ls _] using rev_ind; [done|]. rewrite last_addr_snoc, fmap_app.
  intros [= ->] _. apply elem_of_app; right. by left.
Qed.

(** Redirecting the [next] pointer of the last node, and the [prev] pointer of
    the first, of a segment. *)
Lemma dseg_set_next st p l n n' t :
  NoDup l.*1 -> last_addr None l = Some t -> dseg st p l n ->
  dseg (alter (set_next n') t st) p l n'.
Proof.
  destruct l as [|[a e] l _] using rev_ind; [done|]. rewrite last_addr_snoc, fmap_app.
  intros (_ & Hd & _)%NoDup_app [= ->]. rewrite !dseg_app. simpl. intros [Hl [Ha _]].
  split; [apply dseg_alter; [|done]|split; [|done]].
  - intros Hin. apply (Hd t Hin). by left.
  - by rewrite lookup_alter_eq, Ha.
Qed.

Lemma dseg_set_prev st p p' a e l n :
  NoDup ((a, e) :: l).*1 -> dseg st p ((a, e) :: l) n ->
  dseg (alter (set_prev p') a st) p' ((a, e) :: l) n.
Proof.
  intros [Ha _]%NoDup_cons [Hst Hs]. split; [by rewrite lookup_alter_eq, Hst|].
  by apply dseg_alter.
Qed.

Lemma dseg_lookup st p ls n a e :
  (a, e) ∈ ls -> dseg st p ls n -> exists x, st !! a = Some x /\ n_entry x = Some e.
Proof.
  revert p. induction ls as [|[b e'] ls IH]; intros p; [by intros ?%not_elem_of_nil|].
  intros [[= -> ->]|Hin]%elem_of_cons [Hb Hs]; [eauto|by eapply IH].
Qed.

(** ** Traversals *)

Lemma entries_from_dseg fuel st p ls :
  (length ls <= fuel)%nat -> dseg st p ls None ->
  entries_from fuel st (first_addr ls None) = ls.*2.
Proof.
  revert p fuel. induction ls as [|[a e] ls IH]; intros p fuel Hf; simpl; [by destruct fuel|].
  intros [Ha Hs]. destruct fuel as [|fuel]; simpl in Hf; [lia|]. simpl. rewrite Ha. simpl.
  f_equal. eapply IH; [lia|done].
Qed.

Lemma first_from_dseg fuel st p ls f :
  (length ls <= fuel)%nat -> dseg st p ls None ->
  first_from fuel st (first_addr ls None) (Some f) = List.find f ls.*2.
Proof.
  revert p fuel. induction ls as [|[a e] ls IH]; intros p fuel Hf; simpl; [by destruct fuel|].
  intros [Ha Hs]. destruct fuel as [|fuel]; simpl in Hf; [lia|]. simpl. rewrite Ha. simpl.
  destruct (f e); [done|]. eapply IH; [lia|done].
Qed.

Lemma dseg_dom st p ls n : dseg st p ls n -> list_to_set ls.*1 ⊆ dom st.
Proof.
  revert p. induction ls as [|[a e] ls IH]; intros p; simpl; [set_solver|].
  intros [Ha Hs]. apply elem_of_dom_2 in Ha. specialize (IH _ Hs). set_solver.
Qed.

Lemma rep_length q ls : rep q ls -> (length ls <= size (rq_store q))%nat.
Proof.
  intros H. pose proof (dseg_dom _ _ _ _ (rep_seg _ _ H)) as Hsub.
  apply subseteq_size in Hsub. rewrite size_dom, size_list_to_set in Hsub by apply H.
  by rewrite length_fmap in Hsub.
Qed.

Lemma rep_entries q ls : rep q ls -> entries q = ls.*2.
Proof.
  intros H. unfold entries. rewrite (rep_head _ _ H).
  eapply entries_from_dseg; [by apply rep_length|apply H].
Qed.

Lemma ids_entries ls : ids ls = map qe_ID ls.*2.
Proof. unfold ids. induction ls as [|[a e] ls IH]; simpl; [done|by rewrite IH]. Qed.

(** ** Operations *)

Lemma rep_new : rep NewReadyQueue [].
Proof.
  split; simpl; try done; try constructor.
  - by intros ?%lookup_empty_Some.
  - intros (e & Hin & _). by apply not_elem_of_nil in Hin.
Qed.

Lemma rep_addr_lt q ls a : rep q ls -> a ∈ ls.*1 -> (a < rq_fresh q)%nat.
Proof.
  intros H Ha. destruct (decide (a < rq_fresh q)%nat); [done|].
  pose proof (dseg_dom _ _ _ _ (rep_seg _ _ H)) as Hsub.
  assert (Hin : a ∈ dom (rq_store q)) by set_solver.
  apply elem_of_dom in Hin as [x Hx]. rewrite (rep_fresh _ _ H) in Hx by lia. done.
Qed.

Lemma rep_push q ls e :
  rep q ls -> qe_ID e ∉ ids ls ->
  rep (ReadyQueue_Push (Some e) q) (ls ++ [(rq_fresh q, e)]).
Proof.
  intros H Hid. set (node := rq_fresh q).
  assert (Hn : node ∉ ls.*1) by (intros Hin; pose proof (rep_addr_lt _ _ _ H Hin); lia).
  assert (Hseg : dseg (<[node := mkNode (Some e) None None]> (rq_store q)) None ls None)
    by (apply dseg_insert; [done|apply H]).
  assert (Hcommon : NoDup (ls ++ [(node, e)]).*1 /\ NoDup (ids (ls ++ [(node, e)])) /\
    (forall id a, <[qe_ID e := node]> (rq_nodes q) !! id = Some a <->
       exists e', (a, e') ∈ ls ++ [(node, e)] /\ qe_ID e' = id)).
  { split_and_all.
    - rewrite fmap_app. apply NoDup_app. split_and_all; [apply H|set_solver|apply NoDup_singleton].
    - unfold ids. rewrite map_app. apply NoDup_app.
      split_and_all; [apply H| |apply NoDup_singleton]. intros x Hx Hs. simpl in Hs.
      apply list_elem_of_singleton in Hs as ->. done.
    - intros id a. destruct (decide (id = qe_ID e)) as [->|Hne].
      + rewrite lookup_insert_eq. split; [intros [= <-]; exists e; set_solver|].
        intros (e' & [Hin|Hin]%elem_of_app & He').
        * exfalso. apply Hid. rewrite <- He'. apply list_elem_of_fmap. by exists (a, e').
        * apply list_elem_of_singleton in Hin. naive_solver.
      + rewrite lookup_insert_ne by done. rewrite (rep_nodes _ _ H). split.
        * intros (e' & Hin & He'). exists e'. set_solver.
        * intros (e' & [Hin|Hin]%elem_of_app & He'); [eauto|].
          apply list_elem_of_singleton in Hin. naive_solver. }
  destruct Hcommon as (Ha & Hi & Hno).
  assert (Hb : wrap64 (rq_totalBytes q + qe_PayloadSize e) =
    wrap64 (lsum (fun x : nat * QueueEntry => qe_PayloadSize x.2) (ls ++ [(node, e)]))).
  { rewrite (rep_bytes _ _ H), wrap64_add_l, lsum_app. f_equal. unfold lsum at 3. simpl. lia. }
  unfold ReadyQueue_Push. fold node. pose proof (rep_tail _ _ H) as Ht.
  destruct (rq_tail q) as [t|] eqn:Etail.
  - assert (Hls : ls <> []) by (by intros ->).
    assert (Htin : t ∈ ls.*1) by (by eapply last_addr_elem).
    assert (Htn : t <> node) by set_solver.
    split; simpl; [|by rewrite last_addr_snoc| |done|done|done| |done].
    + rewrite (rep_head _ _ H). by destruct ls as [|[? ?] ?].
    + apply dseg_app. simpl. rewrite <- Ht. split; [|split; [|done]].
      * apply dseg_alter; [done|]. eapply dseg_set_next; [apply H|done|done].
      * rewrite lookup_alter_eq, lookup_alter_ne, lookup_insert_eq by done. done.
    + intros a Hle. rewrite !lookup_alter_ne by (pose proof (rep_addr_lt _ _ _ H Htin); lia).
      rewrite lookup_insert_ne by lia. apply (rep_fresh _ _ H). lia.
  - assert (ls = []) as ->.
    { destruct ls as [|[b e'] ls _] using rev_ind; [done|]. by rewrite last_addr_snoc in Ht. }
    split; simpl; try done.
    + split; [by rewrite lookup_insert_eq|done].
    + intros a Hle. rewrite lookup_insert_ne by lia. apply (rep_fresh _ _ H). lia.
Qed.

Lemma NoDup_app_mid {A} (l1 l2 : list A) x :
  NoDup (l1 ++ x :: l2) -> NoDup (l1 ++ l2) /\ x ∉ l1 /\ x ∉ l2 /\ forall y, y ∈ l1 -> y ∉ l2.
Proof.
  rewrite !NoDup_app, NoDup_cons. intros (H1 & Hd & Hx & H2).
  split_and_all; [done|set_solver|done|set_solver|set_solver|set_solver].
Qed.

Lemma rep_removeNode q l1 a e l2 :
  rep q (l1 ++ (a, e) :: l2) -> rep (removeNode a q) (l1 ++ l2).
Proof.
  intros H. pose proof (rep_seg _ _ H) as Hseg. rewrite dseg_app in Hseg.
  destruct Hseg as [Hs1 [Hst Hs2]]. simpl in Hs1, Hst.
  pose proof (rep_addrs _ _ H) as Hnd. rewrite fmap_app in Hnd. simpl in Hnd.
  apply NoDup_app_mid in Hnd as (Hnd & Ha1 & Ha2 & Hdisj).
  apply NoDup_app in Hnd as Hnd'. destruct Hnd' as (Hnd1 & _ & Hnd2).
  pose proof (rep_ids _ _ H) as Hid. unfold ids in Hid. rewrite map_app in Hid. simpl in Hid.
  apply NoDup_app_mid in Hid as (Hid & Hi1 & Hi2 & _).
  unfold removeNode. rewrite Hst.
  set (prev := last_addr None l1) in *. set (next := first_addr l2 None) in *.
  set (st1 := match prev with Some p => alter (set_next next) p (rq_store q) | None => rq_store q end).
  set (st2 := match next with Some n => alter (set_prev prev) n st1 | None => st1 end).
  assert (Hp1 : forall p, prev = Some p -> p ∈ l1.*1).
  { intros p Hp. eapply last_addr_elem; [exact Hp|]. by intros ->. }
  assert (Hn2 : forall n, next = Some n -> n ∈ l2.*1).
  { intros n. unfold next. destruct l2 as [|[b e'] l2]; [done|]. intros [= <-]. by left. }
  assert (Hseg1 : dseg st2 None l1 next).
  { assert (dseg st1 None l1 next).
    { unfold st1. destruct prev as [p|] eqn:Hp.
      - by eapply dseg_set_next.
      - destruct l1 as [|[b e'] l1 _] using rev_ind; [done|].
        unfold prev in Hp. by rewrite last_addr_snoc in Hp. }
    unfold st2. destruct next as [n|] eqn:Hn; [|done]. apply dseg_alter; [|done].
    intros Hin. apply (Hdisj n Hin). by apply Hn2. }
  assert (Hseg2 : dseg st2 prev l2 None).
  { assert (H1 : dseg st1 (Some a) l2 None).
    { unfold st1. destruct prev as [p|]; [|done]. apply dseg_alter; [|done].
      apply Hdisj. by apply Hp1. }
    unfold st2, next. destruct l2 as [|[b e'] l2]; [done|]. simpl. by eapply dseg_set_prev. }
  assert (Hrep : rep (mkRQ (match prev with Some _ => rq_head q | None => next end)
      (match next with Some _ => rq_tail q | None => prev end) (delete (qe_ID e) (rq_nodes q))
      (wrap64 (rq_totalBytes q - qe_PayloadSize e)) (<[a := mkNode None None None]> st2)
      (rq_fresh q)) (l1 ++ l2)).
  { split; simpl.
    - unfold prev. destruct l1 as [|[b e'] l1]; simpl; [done|].
      rewrite (rep_head _ _ H). simpl. destruct (last_addr (Some b) l1) as [|] eqn:E; [done|].
      exfalso. destruct l1 as [|[c ?] l1 _] using rev_ind; [done|]. by rewrite last_addr_snoc in E.
    - unfold next. destruct l2 as [|[b e'] l2]; simpl; [by rewrite app_nil_r|].
      rewrite (rep_tail _ _ H). clear. generalize (@None nat). 
      induction l1 as [|[c ?] l1 IH]; intros p; simpl; [done|apply IH].
    - apply dseg_insert; [rewrite fmap_app; set_solver|]. by apply dseg_app.
    - by rewrite fmap_app.
    - unfold ids. by rewrite map_app.
    - intros id b. rewrite lookup_delete_Some, (rep_nodes _ _ H). split.
      + intros [Hne (e' & [Hin|[[= -> ->]|Hin]%elem_of_cons]%elem_of_app & He')];
          [exists e'; set_solver|by subst|exists e'; set_solver].
      + intros (e' & Hin & He'). split.
        * intros <-. apply elem_of_app in Hin as [Hin|Hin].
          -- apply Hi1. rewrite <- He'. apply list_elem_of_fmap. by exists (b, e').
          -- apply Hi2. rewrite <- He'. apply list_elem_of_fmap. by exists (b, e').
        * exists e'. set_solver.
    - intros b Hb. assert (Hab : a <> b).
      { intros <-. rewrite (rep_fresh _ _ H) in Hst by done. done. }
      rewrite lookup_insert_ne by done.
      pose proof (rep_fresh _ _ H b Hb) as Hnone.
      assert (H1 : st1 !! b = None).
      { unfold st1. destruct prev; [|done]. by rewrite lookup_alter_None. }
      unfold st2. destruct next; [|done]. by rewrite lookup_alter_None.
    - rewrite (rep_bytes _ _ H), wrap64_sub_l, !lsum_app. f_equal. unfold lsum; simpl. lia. }
  destruct prev as [p|]; destruct next as [n|]; exact Hrep.
Qed.

Lemma rep_lookup q ls a e : rep q ls -> (a, e) ∈ ls -> rq_store q !! a ≫= n_entry = Some e.
Proof.
  intros H Hin. destruct (dseg_lookup _ _ _ _ _ _ Hin (rep_seg _ _ H)) as (x & Hx & He).
  by rewrite Hx.
Qed.

Lemma rep_len q ls : rep q ls -> ReadyQueue_Len q = Z.of_nat (length ls).
Proof.
  intros H. unfold ReadyQueue_Len. f_equal.
  assert (Hdom : dom (rq_nodes q) = list_to_set (ids ls)).
  { apply set_eq. intros id. rewrite elem_of_dom, elem_of_list_to_set. unfold ids. split.
    - intros [a (e & Hin & <-)%(rep_nodes _ _ H)]. apply list_elem_of_fmap. by exists (a, e).
    - intros ([a e] & -> & Hin)%list_elem_of_fmap. exists a. apply (rep_nodes _ _ H). eauto. }
  rewrite <- size_dom, Hdom, size_list_to_set by apply H. unfold ids. by rewrite length_map.
Qed.

Lemma rep_remove_mid q l1 a e l2 :
  rep q (l1 ++ (a, e) :: l2) ->
  ReadyQueue_Remove (qe_ID e) q = (Some e, removeNode a q) /\ rep (removeNode a q) (l1 ++ l2).
Proof.
  intros H. split; [|by apply (rep_removeNode q l1 a e l2)].
  assert (Hin : (a, e) ∈ l1 ++ (a, e) :: l2) by set_solver.
  unfold ReadyQueue_Remove.
  assert (Hn : rq_nodes q !! qe_ID e = Some a) by (apply (rep_nodes _ _ H); eauto).
  by rewrite Hn, (rep_lookup _ _ _ _ H Hin).
Qed.

Lemma rep_remove_absent q ls id :
  rep q ls -> id ∉ ids ls -> ReadyQueue_Remove id q = (None, q).
Proof.
  intros H Hn. unfold ReadyQueue_Remove. destruct (rq_nodes q !! id) as [a|] eqn:E; [|done].
  apply (rep_nodes _ _ H) in E as (e & Hin & <-). exfalso. apply Hn.
  apply list_elem_of_fmap. by exists (a, e).
Qed.

#[global] Instance ReadyQueue_laws : FifoLaws ReadyQueue.
Proof.
  split; cbn [ReadyQueue_ops q_ok q_elems q_push q_remove q_first q_len q_new].
  - split; [exists []; apply rep_new|by rewrite (rep_entries _ _ rep_new)].
  - intros e q [ls H] Hf. rewrite (rep_entries _ _ H), <- ids_entries in Hf.
    pose proof (rep_push q ls e H Hf) as H'. split; [by eexists|].
    rewrite (rep_entries _ _ H), (rep_entries _ _ H'). by rewrite fmap_app.
  - intros id q e l1 l2 [ls H] Hl <-. rewrite (rep_entries _ _ H) in Hl.
    apply fmap_app_inv in Hl as (k1 & k2 & -> & Hk2 & ->).
    destruct k2 as [|[a e'] k2]; [done|]. injection Hk2 as <- ->.
    destruct (rep_remove_mid q k1 a e k2 H) as [Hr H']. eexists. split; [exact Hr|].
    split; [by eexists|]. by rewrite (rep_entries _ _ H'), fmap_app.
  - intros id q [ls H] Hn. rewrite (rep_entries _ _ H), <- ids_entries in Hn.
    by apply (rep_remove_absent _ ls).
  - intros f q [ls H]. unfold FirstMatching. rewrite (rep_entries _ _ H), (rep_head _ _ H).
    eapply first_from_dseg; [by apply rep_length|apply H].
  - intros q [ls H]. by rewrite (rep_entries _ _ H), length_fmap, (rep_len _ _ H).
  - intros q [ls H]. rewrite (rep_entries _ _ H), <- ids_entries. apply H.
Qed.

(** Looking up and removing an identifier that occurs once. *)
Lemma find_mid l1 e l2 :
  qe_ID e ∉ map qe_ID l1 ->
  List.find (fun x => bool_decide (qe_ID x = qe_ID e)) (l1 ++ e :: l2) = Some e.
Proof.
  induction l1 as [|x l1 IH]; simpl; intros Hn; [by rewrite bool_decide_eq_true_2|].
  rewrite bool_decide_eq_false_2 by set_solver. apply IH. set_solver.
Qed.

Lemma find_absent id l : id ∉ map qe_ID l -> List.find (fun x => bool_decide (qe_ID x = id)) l = None.
Proof.
  induction l as [|x l IH]; simpl; intros Hn; [done|].
  rewrite bool_decide_eq_false_2 by set_solver. apply IH. set_solver.
Qed.

Lemma filter_absent id l :
  id ∉ map qe_ID l -> List.filter (fun x => negb (bool_decide (qe_ID x = id))) l = l.
Proof.
  induction l as [|x l IH]; simpl; intros Hn; [done|].
  rewrite bool_decide_eq_false_2 by set_solver. simpl. f_equal. apply IH. set_solver.
Qed.

Lemma rep_remove q ls id :
  rep q ls -> exists ls', rep (ReadyQueue_Remove id q).2 ls' /\ ((ReadyQueue_Remove id q).1, ls'.*2) =
    (List.find (fun e => bool_decide (qe_ID e = id)) ls.*2,
     List.filter (fun e => negb (bool_decide (qe_ID e = id))) ls.*2).
Proof.
  intros H. pose proof (rep_ids _ _ H) as Hnd.
  destruct (decide (id ∈ ids ls)) as [([a e] & -> & Hin)%list_elem_of_fmap|Hn].
  - apply list_elem_of_split in Hin as (l1 & l2 & ->). simpl.
    destruct (rep_remove_mid q l1 a e l2 H) as [-> H']. exists (l1 ++ l2). split; [done|]. simpl.
    unfold ids in Hnd. rewrite map_app in Hnd. apply NoDup_app_mid in Hnd as (_ & Hn1 & Hn2 & _).
    assert (Hi : forall l : list (nat * QueueEntry), map qe_ID l.*2 = map (fun x => qe_ID x.2) l)
      by (intros l; symmetry; apply ids_entries).
    rewrite !fmap_app, fmap_cons. simpl. rewrite find_mid by (by rewrite Hi).
    rewrite List.filter_app. simpl. rewrite bool_decide_eq_true_2 by done. simpl.
    rewrite !filter_absent by (by rewrite Hi). done.
  - rewrite (rep_remove_absent q ls id H Hn). exists ls. split; [done|]. simpl.
    rewrite ids_entries in Hn. by rewrite find_absent, filter_absent.
Qed.

(** ** Properties *)

(** The linked list refines the FIFO list: on a well-formed queue every
    operation returns what the list operation returns and leaves a well-formed
    queue whose entries are the resulting list, whose length and byte count are
    those of the list; a push needs an identifier that is not queued. *)
Theorem ReadyQueue_refines_fifo (q : ReadyQueue) (o : rq_op) :
  rq_ok q -> (forall e, o = OpPush e -> qe_ID e ∉ map qe_ID (entries q)) ->
  let '(r, q') := rq_step o q in
  rq_ok q' /\ (r, entries q') = fifo_step o (entries q) /\
  ReadyQueue_Len q' = Z.of_nat (length (entries q')) /\
  TotalBytes q' = wrap64 (lsum qe_PayloadSize (entries q')).
Proof.
  intros [ls H] Hid. pose proof (rep_entries _ _ H) as He.
  assert (Hpure : exists ls', rep (rq_step o q).2 ls' /\ ((rq_step o q).1, ls'.*2) = fifo_step o (entries q)).
  { destruct o as [e| |id]; simpl.
    - exists (ls ++ [(rq_fresh q, e)]). rewrite He, fmap_app. split; [|done].
      apply rep_push; [done|]. rewrite ids_entries, <- He. by apply Hid.
    - rewrite He. destruct ls as [|[a e] ls]; unfold ReadyQueue_Pop; rewrite (rep_head _ _ H); simpl;
        [by exists []|].
      exists ls. split; [by apply (rep_removeNode q [] a e ls)|].
      by rewrite (rep_lookup q ((a, e) :: ls) a e H) by left.
    - rewrite He. by apply rep_remove. }
  destruct (rq_step o q) as [r q']. destruct Hpure as (ls' & H' & Hp). simpl in *.
  rewrite (rep_entries _ _ H'), (rep_len _ _ H'), length_fmap, <- Hp.
  split_and_all; [by exists ls'|done|done|]. unfold TotalBytes. rewrite (rep_bytes _ _ H').
  by rewrite lsum_fmap.
Qed.

Lemma ReadyQueue_refines_fifo_witness :
  let e := sample_entry 1 "a" in
  let '(r, q') := rq_step (OpPush e) NewReadyQueue in
  rq_ok q' /\ (r, entries q') = fifo_step (OpPush e) (entries NewReadyQueue) /\
  ReadyQueue_Len q' = Z.of_nat (length (entries q')) /\
  TotalBytes q' = wrap64 (lsum qe_PayloadSize (entries q')).
Proof.
  apply (ReadyQueue_refines_fifo NewReadyQueue (OpPush (sample_entry 1 "a"))).
  - exists []. apply rep_new.
  - intros e _. vm_compute. apply not_elem_of_nil.
Defined.
