(* ===== verification/Admission.v ===== *)
(** * The admission controller

    Models [internal/admission/controller.go]: the owner and pool quotas, the
    hierarchical deficit round robin over priority classes and owners, the
    ordering-key locks and the queue deadlines. The controller is written
    against the interfaces of its containers ([FifoOps], [DeadlineOps]) and its
    lemmas use their laws only. A [*poolState] is a value of the map [c_pools],
    written back where the code mutates it; [clock k] is the [k]-th reading of
    [time.Now] during one selection. Queue counters are unbounded integers (a
    counter moves by one per task); byte totals wrap at 64 bits as in the code. *)

From S2P Require Import Prelude.
From S2P Require Import Execution.
From S2P Require Import Tasks.
From S2P Require Import AdmissionTypes.

Definition ErrPoolNotConfigured := sentinel "worker pool not configured in admission controller".
Definition ErrNoEligibleTask := sentinel "no eligible task available for dispatch".

Section Controller.
Context {Q D : Type} {FO : FifoOps Q} {DO : DeadlineOps D}.

Record poolState := mkPool {
  ps_config : PoolConfig;
  ps_deadlineIndex : D;
  ps_queues : gmap PriorityClass (gmap OwnerID Q);
  ps_classQuantums : gmap PriorityClass Z;
  ps_classDeficits : gmap PriorityClass Z;
  ps_activeClasses : list PriorityClass;
  ps_classCursor : nat;
  ps_ownerQuantums : gmap PriorityClass (gmap OwnerID Z);
  ps_ownerDeficits : gmap PriorityClass (gmap OwnerID Z);
  ps_activeOwners : gmap PriorityClass (list OwnerID);
  ps_ownerCursor : gmap PriorityClass nat;
  ps_totalWaiting : Z;
  ps_totalBytes : Z
}.

Definition ps_set_config (v : PoolConfig) (s : poolState) : poolState :=
  mkPool v (ps_deadlineIndex s) (ps_queues s) (ps_classQuantums s) (ps_classDeficits s)
    (ps_activeClasses s) (ps_classCursor s) (ps_ownerQuantums s) (ps_ownerDeficits s)
    (ps_activeOwners s) (ps_ownerCursor s) (ps_totalWaiting s) (ps_totalBytes s).
Definition ps_set_deadlineIndex (v : D) (s : poolState) : poolState :=
  mkPool (ps_config s) v (ps_queues s) (ps_classQuantums s) (ps_classDeficits s)
    (ps_activeClasses s) (ps_classCursor s) (ps_ownerQuantums s) (ps_ownerDeficits s)
    (ps_activeOwners s) (ps_ownerCursor s) (ps_totalWaiting s) (ps_totalBytes s).
Definition ps_set_queues (v : gmap PriorityClass (gmap OwnerID Q)) (s : poolState) : poolState :=
  mkPool (ps_config s) (ps_deadlineIndex s) v (ps_classQuantums s) (ps_classDeficits s)
    (ps_activeClasses s) (ps_classCursor s) (ps_ownerQuantums s) (ps_ownerDeficits s)
    (ps_activeOwners s) (ps_ownerCursor s) (ps_totalWaiting s) (ps_totalBytes s).
Definition ps_set_classQuantums (v : gmap PriorityClass Z) (s : poolState) : poolState :=
  mkPool (ps_config s) (ps_deadlineIndex s) (ps_queues s) v (ps_classDeficits s)
    (ps_activeClasses s) (ps_classCursor s) (ps_ownerQuantums s) (ps_ownerDeficits s)
    (ps_activeOwners s) (ps_ownerCursor s) (ps_totalWaiting s) (ps_totalBytes s).
Definition ps_set_classDeficits (v : gmap PriorityClass Z) (s : poolState) : poolState :=
  mkPool (ps_config s) (ps_deadlineIndex s) (ps_queues s) (ps_classQuantums s) v
    (ps_activeClasses s) (ps_classCursor s) (ps_ownerQuantums s) (ps_ownerDeficits s)
    (ps_activeOwners s) (ps_ownerCursor s) (ps_totalWaiting s) (ps_totalBytes s).
Definition ps_set_activeClasses (v : list PriorityClass) (s : poolState) : poolState :=
  mkPool (ps_config s) (ps_deadlineIndex s) (ps_queues s) (ps_classQuantums s)
    (ps_classDeficits s) v (ps_classCursor s) (ps_ownerQuantums s) (ps_ownerDeficits s)
    (ps_activeOwners s) (ps_ownerCursor s) (ps_totalWaiting s) (ps_totalBytes s).
Definition ps_set_classCursor (v : nat) (s : poolState) : poolState :=
  mkPool (ps_config s) (ps_deadlineIndex s) (ps_queues s) (ps_classQuantums s)
    (ps_classDeficits s) (ps_activeClasses s) v (ps_ownerQuantums s) (ps_ownerDeficits s)
    (ps_activeOwners s) (ps_ownerCursor s) (ps_totalWaiting s) (ps_totalBytes s).
Definition ps_set_ownerQuantums (v : gmap PriorityClass (gmap OwnerID Z)) (s : poolState) : poolState :=
  mkPool (ps_config s) (ps_deadlineIndex s) (ps_queues s) (ps_classQuantums s)
    (ps_classDeficits s) (ps_activeClasses s) (ps_classCursor s) v (ps_ownerDeficits s)
    (ps_activeOwners s) (ps_ownerCursor s) (ps_totalWaiting s) (ps_totalBytes s).
Definition ps_set_ownerDeficits (v : gmap PriorityClass (gmap OwnerID Z)) (s : poolState) : poolState :=
  mkPool (ps_config s) (ps_deadlineIndex s) (ps_queues s) (ps_classQuantums s)
    (ps_classDeficits s) (ps_activeClasses s) (ps_classCursor s) (ps_ownerQuantums s) v
    (ps_activeOwners s) (ps_ownerCursor s) (ps_totalWaiting s) (ps_totalBytes s).
Definition ps_set_activeOwners (v : gmap PriorityClass (list OwnerID)) (s : poolState) : poolState :=
  mkPool (ps_config s) (ps_deadlineIndex s) (ps_queues s) (ps_classQuantums s)
    (ps_classDeficits s) (ps_activeClasses s) (ps_classCursor s) (ps_ownerQuantums s)
    (ps_ownerDeficits s) v (ps_ownerCursor s) (ps_totalWaiting s) (ps_totalBytes s).
Definition ps_set_ownerCursor (v : gmap PriorityClass nat) (s : poolState) : poolState :=
  mkPool (ps_config s) (ps_deadlineIndex s) (ps_queues s) (ps_classQuantums s)
    (ps_classDeficits s) (ps_activeClasses s) (ps_classCursor s) (ps_ownerQuantums s)
    (ps_ownerDeficits s) (ps_activeOwners s) v (ps_totalWaiting s) (ps_totalBytes s).
Definition ps_set_totalWaiting (v : Z) (s : poolState) : poolState :=
  mkPool (ps_config s) (ps_deadlineIndex s) (ps_queues s) (ps_classQuantums s)
    (ps_classDeficits s) (ps_activeClasses s) (ps_classCursor s) (ps_ownerQuantums s)
    (ps_ownerDeficits s) (ps_activeOwners s) (ps_ownerCursor s) v (ps_totalBytes s).
Definition ps_set_totalBytes (v : Z) (s : poolState) : poolState :=
  mkPool (ps_config s) (ps_deadlineIndex s) (ps_queues s) (ps_classQuantums s)
    (ps_classDeficits s) (ps_activeClasses s) (ps_classCursor s) (ps_ownerQuantums s)
    (ps_ownerDeficits s) (ps_activeOwners s) (ps_ownerCursor s) (ps_totalWaiting s) v.

Record Controller := mkController {
  c_pools : gmap PoolID poolState;
  c_ownerLimits : gmap OwnerID OwnerLimits;
  c_ownerActiveCount : gmap OwnerID Z;
  c_ownerWaitingCount : gmap OwnerID Z;
  c_ownerWaitingBytes : gmap OwnerID Z;
  c_orderingLocks : gmap string TaskID;
  c_taskByID : gmap TaskID QueueEntry
}.

Definition c_set_pools (v : gmap PoolID poolState) (s : Controller) : Controller :=
  mkController v (c_ownerLimits s) (c_ownerActiveCount s) (c_ownerWaitingCount s)
    (c_ownerWaitingBytes s) (c_orderingLocks s) (c_taskByID s).
Definition c_set_ownerLimits (v : gmap OwnerID OwnerLimits) (s : Controller) : Controller :=
  mkController (c_pools s) v (c_ownerActiveCount s) (c_ownerWaitingCount s)
    (c_ownerWaitingBytes s) (c_orderingLocks s) (c_taskByID s).
Definition c_set_ownerActiveCount (v : gmap OwnerID Z) (s : Controller) : Controller :=
  mkController (c_pools s) (c_ownerLimits s) v (c_ownerWaitingCount s) (c_ownerWaitingBytes s)
    (c_orderingLocks s) (c_taskByID s).
Definition c_set_ownerWaitingCount (v : gmap OwnerID Z) (s : Controller) : Controller :=
  mkController (c_pools s) (c_ownerLimits s) (c_ownerActiveCount s) v (c_ownerWaitingBytes s)
    (c_orderingLocks s) (c_taskByID s).
Definition c_set_ownerWaitingBytes (v : gmap OwnerID Z) (s : Controller) : Controller :=
  mkController (c_pools s) (c_ownerLimits s) (c_ownerActiveCount s) (c_ownerWaitingCount s) v
    (c_orderingLocks s) (c_taskByID s).
Definition c_set_orderingLocks (v : gmap string TaskID) (s : Controller) : Controller :=
  mkController (c_pools s) (c_ownerLimits s) (c_ownerActiveCount s) (c_ownerWaitingCount s)
    (c_ownerWaitingBytes s) v (c_taskByID s).
Definition c_set_taskByID (v : gmap TaskID QueueEntry) (s : Controller) : Controller :=
  mkController (c_pools s) (c_ownerLimits s) (c_ownerActiveCount s) (c_ownerWaitingCount s)
    (c_ownerWaitingBytes s) (c_orderingLocks s) v.

(** ** Construction and configuration *)

Definition newPoolState (cfg : PoolConfig) : poolState :=
  let per_class {V} : gmap PriorityClass (gmap OwnerID V) :=
    list_to_map (map (fun class => (class, ∅)) priority_classes) in
  mkPool cfg d_new per_class
    (<[PriorityInteractive := 8]> (<[PriorityNormal := 4]> (<[PriorityBackground := 2]>
       (<[PriorityMaintenance := 1]> ∅))))
    ∅ [] 0 per_class per_class ∅ ∅ 0 0.

Definition NewController (poolConfigs : gmap PoolID PoolConfig) : Controller :=
  mkController (newPoolState <$> poolConfigs) ∅ ∅ ∅ ∅ ∅ ∅.

Definition PoolStats (pool : PoolID) (c : Controller) : Z * Z :=
  match c_pools c !! pool with
  | Some ps => (ps_totalWaiting ps, ps_totalBytes ps)
  | None => (0, 0)
  end.

Definition SetPoolConfig (pool : PoolID) (cfg : PoolConfig) (c : Controller)
    : Controller * option goerror :=
  match c_pools c !! pool with
  | None => (c, Some ErrPoolNotConfigured)
  | Some ps => (c_set_pools (<[pool := ps_set_config cfg ps]> (c_pools c)) c, None)
  end.

Definition normalizeOwnerLimits (l : OwnerLimits) : OwnerLimits :=
  let d := DefaultOwnerLimits in
  mkLimits (if ol_MaxWaiting l <=? 0 then ol_MaxWaiting d else ol_MaxWaiting l)
    (if ol_MaxActive l <=? 0 then ol_MaxActive d else ol_MaxActive l)
    (if ol_Weight l <=? 0 then ol_Weight d else ol_Weight l)
    (if ol_MaxPayloadByte l <=? 0 then ol_MaxPayloadByte d else ol_MaxPayloadByte l).

(** The body of the loops of [SetOwnerLimits] for one class of one pool. *)
Definition refresh_class (owner : OwnerID) (weight : Z) (class : PriorityClass) (ps : poolState)
    : poolState :=
  match get2 class owner (ps_ownerQuantums ps) with
  | None => ps
  | Some previous =>
      if previous =? weight then ps
      else
        ps_set_ownerDeficits (set2 class owner 0 (ps_ownerDeficits ps))
          (ps_set_ownerQuantums (set2 class owner weight (ps_ownerQuantums ps)) ps)
  end.

(** The loops visit every pool and every class; their bodies touch disjoint
    entries, so the order of the iteration does not matter. *)
Definition SetOwnerLimits (owner : OwnerID) (limits : OwnerLimits) (c : Controller) : Controller :=
  let limits := normalizeOwnerLimits limits in
  let c := c_set_ownerLimits (<[owner := limits]> (c_ownerLimits c)) c in
  c_set_pools
    ((fun ps => foldr (refresh_class owner (ol_Weight limits)) ps
                  (map fst (map_to_list (ps_ownerQuantums ps)))) <$> c_pools c) c.

Definition getOwnerLimits (c : Controller) (owner : OwnerID) : OwnerLimits :=
  default DefaultOwnerLimits (c_ownerLimits c !! owner).

(** ** Admission *)

Definition CanAdmit (spec : WorkSpec) (payloadBytes : Z) (c : Controller) : option goerror :=
  match c_pools c !! ws_Pool spec with
  | None => Some (NewAdmissionError ReasonPoolBacklogFull (Some ErrPoolNotConfigured))
  | Some ps =>
      let cfg := ps_config ps in
      if (0 <? pc_BacklogLimit cfg) && (pc_BacklogLimit cfg <=? ps_totalWaiting ps) then
        Some (NewAdmissionError ReasonPoolBacklogFull (Some ErrPoolBacklogFull))
      else if (0 <? pc_PayloadBudget cfg) &&
              (pc_PayloadBudget cfg <? wrap64 (ps_totalBytes ps + payloadBytes)) then
        Some (NewAdmissionError ReasonPayloadBudget (Some ErrPayloadBudget))
      else
        let limits := getOwnerLimits c (ws_QuotaOwner spec) in
        if (0 <? ol_MaxWaiting limits) &&
           (ol_MaxWaiting limits <=? zget (ws_QuotaOwner spec) (c_ownerWaitingCount c)) then
          Some (NewAdmissionError ReasonOwnerQueueFull (Some ErrOwnerQueueFull))
        else if (0 <? ol_MaxPayloadByte limits) &&
                (ol_MaxPayloadByte limits <?
                 wrap64 (zget (ws_QuotaOwner spec) (c_ownerWaitingBytes c) + payloadBytes)) then
          Some (NewAdmissionError ReasonPayloadBudget (Some ErrPayloadBudget))
        else None
  end.

Definition ensureActiveClass (class : PriorityClass) (ps : poolState) : poolState :=
  if decide (class ∈ ps_activeClasses ps) then ps
  else ps_set_activeClasses (ps_activeClasses ps ++ [class]) ps.

Definition active_owners (ps : poolState) (class : PriorityClass) : list OwnerID :=
  default [] (ps_activeOwners ps !! class).

Definition ensureActiveOwner (limits : OwnerLimits) (class : PriorityClass) (owner : OwnerID)
    (ps : poolState) : poolState :=
  if decide (owner ∈ active_owners ps class) then ps
  else
    let ps := ps_set_activeOwners
      (<[class := active_owners ps class ++ [owner]]> (ps_activeOwners ps)) ps in
    match get2 class owner (ps_ownerQuantums ps) with
    | Some _ => ps
    | None =>
        let weight := if ol_Weight limits <=? 0 then 1 else ol_Weight limits in
        ps_set_ownerQuantums (set2 class owner weight (ps_ownerQuantums ps)) ps
    end.

(** [None] is the panic of an assignment to a nil map: the class has no map of
    queues. *)
Definition Enqueue (entry : option QueueEntry) (c : Controller) : option Controller :=
  match entry with
  | None => Some c
  | Some e =>
      match c_pools c !! qe_pool e with
      | None => Some c
      | Some ps =>
          let class := qe_class e in
          let owner := qe_owner e in
          match ps_queues ps !! class with
          | None => None
          | Some by_owner =>
              let q := default q_new (by_owner !! owner) in
              let ps := ps_set_queues (set2 class owner (q_push e q) (ps_queues ps)) ps in
              let ps := ps_set_deadlineIndex (d_push e (ps_deadlineIndex ps)) ps in
              let ps := ps_set_totalWaiting (ps_totalWaiting ps + 1) ps in
              let ps := ps_set_totalBytes (wrap64 (ps_totalBytes ps + qe_PayloadSize e)) ps in
              let count := c_ownerWaitingCount c in
              let c := c_set_ownerWaitingCount (<[owner := zget owner count + 1]> count) c in
              let bytes := c_ownerWaitingBytes c in
              let c := c_set_ownerWaitingBytes
                (<[owner := wrap64 (zget owner bytes + qe_PayloadSize e)]> bytes) c in
              let c := c_set_taskByID (<[qe_ID e := e]> (c_taskByID c)) c in
              let ps := ensureActiveClass class ps in
              let ps := ensureActiveOwner (getOwnerLimits c owner) class owner ps in
              Some (c_set_pools (<[qe_pool e := ps]> (c_pools c)) c)
          end
      end
  end.

(** ** Accounting shared by the operations that take an entry out *)

Definition drop_zero {K} `{Countable K} (k : K) (m : gmap K Z) : gmap K Z :=
  if zget k m =? 0 then delete k m else m.

Definition compactOwnerCounters (owner : OwnerID) (c : Controller) : Controller :=
  let c := c_set_ownerWaitingCount (drop_zero owner (c_ownerWaitingCount c)) c in
  let c := c_set_ownerWaitingBytes (drop_zero owner (c_ownerWaitingBytes c)) c in
  c_set_ownerActiveCount (drop_zero owner (c_ownerActiveCount c)) c.

(** [ps.totalWaiting--] and [ps.totalBytes -= entry.PayloadSize]. *)
Definition ps_debit (e : QueueEntry) (ps : poolState) : poolState :=
  ps_set_totalBytes (wrap64 (ps_totalBytes ps - qe_PayloadSize e))
    (ps_set_totalWaiting (ps_totalWaiting ps - 1) ps).

(** The owner counters of a waiting entry, their compaction, and the index. *)
Definition c_debit (owner : OwnerID) (e : QueueEntry) (c : Controller) : Controller :=
  let count := c_ownerWaitingCount c in
  let c := c_set_ownerWaitingCount (<[owner := zget owner count - 1]> count) c in
  let bytes := c_ownerWaitingBytes c in
  let c := c_set_ownerWaitingBytes
    (<[owner := wrap64 (zget owner bytes - qe_PayloadSize e)]> bytes) c in
  let c := compactOwnerCounters owner c in
  c_set_taskByID (delete (qe_ID e) (c_taskByID c)) c.

(** [rq.Remove(id)] on the queue of the entry, when there is one. *)
Definition ps_unqueue (e : QueueEntry) (ps : poolState) : poolState :=
  match get2 (qe_class e) (qe_owner e) (ps_queues ps) with
  | None => ps
  | Some rq =>
      ps_set_queues (set2 (qe_class e) (qe_owner e) (q_remove (qe_ID e) rq).2 (ps_queues ps)) ps
  end.

(** ** Selection *)

(** The predicate [SelectCandidateEligible] hands to [FirstMatching]. *)
Definition selectable (c : Controller) (eligible : option (WorkSpec -> bool)) (now : time)
    (e : QueueEntry) : bool :=
  let spec := qe_Spec e in
  if negb (is_zero (ws_QueueDeadline spec)) && after now (ws_QueueDeadline spec) then false
  else if bool_decide (ws_OrderingKey spec <> "") &&
          bool_decide (is_Some (c_orderingLocks c !! ws_OrderingKey spec)) then false
  else match eligible with None => true | Some f => f spec end.

(** The part of the owner loop after a candidate is found; [None] is the nil
    dereference when the queue does not hold the candidate any more. *)
Definition take_candidate (class : PriorityClass) (owner : OwnerID) (cursor : nat) (rq : Q)
    (candidate : QueueEntry) (c : Controller) (ps : poolState)
    : option (QueueEntry * Controller * poolState) :=
  let ps := ps_set_classDeficits
    (<[class := zget class (ps_classDeficits ps) - 1]> (ps_classDeficits ps)) ps in
  let deficit := default 0 (get2 class owner (ps_ownerDeficits ps)) - 1 in
  let ps := ps_set_ownerDeficits (set2 class owner deficit (ps_ownerDeficits ps)) ps in
  match q_remove (qe_ID candidate) rq with
  | (None, _) => None
  | (Some candidate, rq) =>
      let ps := ps_set_queues (set2 class owner rq (ps_queues ps)) ps in
      let ps := ps_set_deadlineIndex (d_remove candidate (ps_deadlineIndex ps)) ps in
      let ps := ps_debit candidate ps in
      let c := c_debit owner candidate c in
      let active := c_ownerActiveCount c in
      let c := c_set_ownerActiveCount (<[owner := zget owner active + 1]> active) c in
      let key := ws_OrderingKey (qe_Spec candidate) in
      let c := if decide (key <> "")
        then c_set_orderingLocks (<[key := qe_ID candidate]> (c_orderingLocks c)) c else c in
      let exhausted := (deficit <=? 0) || (q_len rq =? 0) in
      let ps := ps_set_ownerCursor
        (<[class := if exhausted then S cursor else cursor]> (ps_ownerCursor ps)) ps in
      let ps := if exhausted
        then ps_set_ownerDeficits (set2 class owner 0 (ps_ownerDeficits ps)) ps else ps in
      let ps := if zget class (ps_classDeficits ps) <=? 0
        then ps_set_classCursor (S (ps_classCursor ps)) ps else ps in
      Some (candidate, c, ps)
  end.

(** An empty or missing queue: the owner leaves the rotation of its class. *)
Definition live_queue (class : PriorityClass) (owner : OwnerID) (ps : poolState) : option Q :=
  match get2 class owner (ps_queues ps) with
  | None => None
  | Some rq => if q_len rq =? 0 then None else Some rq
  end.

Definition drop_owner (class : PriorityClass) (owner : OwnerID) (owners : list OwnerID)
    (ps : poolState) : poolState :=
  let ps := ps_set_ownerDeficits (del2 class owner (ps_ownerDeficits ps)) ps in
  let ps := ps_set_ownerQuantums (del2 class owner (ps_ownerQuantums ps)) ps in
  let ps := ps_set_queues (del2 class owner (ps_queues ps)) ps in
  ps_set_activeOwners (<[class := owners]> (ps_activeOwners ps)) ps.

Inductive owner_result :=
  | OwnerSelected (e : QueueEntry) (c : Controller) (ps : poolState)
  | OwnerNone (ps : poolState) (k : nat) (cursor : nat)
  | OwnerPanic.

Section Select.
Variable clock : nat -> time.
Variable eligible : option (WorkSpec -> bool).

(** The loop over the active owners of a class; the fuel is [ownerCount] minus
    the tries made so far. *)
Fixpoint owner_loop (fuel k : nat) (c : Controller) (ps : poolState) (class : PriorityClass)
    (owners : list OwnerID) (cursor : nat) : owner_result :=
  match fuel, owners with
  | O, _ | _, [] => OwnerNone ps k cursor
  | S fuel', _ :: _ =>
      let cursor := if (length owners <=? cursor)%nat then 0%nat else cursor in
      match owners !! cursor with
      | None => OwnerPanic
      | Some owner =>
          let quantum := default 0 (get2 class owner (ps_ownerQuantums ps)) in
          let quantum := if quantum <=? 0 then 1 else quantum in
          let ps :=
            if default 0 (get2 class owner (ps_ownerDeficits ps)) <=? 0
            then ps_set_ownerDeficits (set2 class owner quantum (ps_ownerDeficits ps)) ps
            else ps in
          match live_queue class owner ps with
          | None =>
              let owners := delete cursor owners in
              owner_loop fuel' k c (drop_owner class owner owners ps) class owners cursor
          | Some rq =>
              let limits := getOwnerLimits c owner in
              if (0 <? ol_MaxActive limits) &&
                 (ol_MaxActive limits <=? zget owner (c_ownerActiveCount c)) then
                owner_loop fuel' k c ps class owners (S cursor)
              else
                match q_first (selectable c eligible (clock k)) rq with
                | None => owner_loop fuel' (S k) c ps class owners (S cursor)
                | Some candidate =>
                    match take_candidate class owner cursor rq candidate c ps with
                    | Some (e, c, ps) => OwnerSelected e c ps
                    | None => OwnerPanic
                    end
                end
          end
      end
  end.

(** The loop over the active classes; the fuel is [classCount] minus the tries
    made so far. *)
Fixpoint class_loop (fuel k : nat) (c : Controller) (ps : poolState) : owner_result :=
  match fuel, ps_activeClasses ps with
  | O, _ | _, [] => OwnerNone ps k 0
  | S fuel', _ :: _ =>
      let ps := if (length (ps_activeClasses ps) <=? ps_classCursor ps)%nat
        then ps_set_classCursor 0 ps else ps in
      match ps_activeClasses ps !! ps_classCursor ps with
      | None => OwnerPanic
      | Some class =>
          let quantum := zget class (ps_classQuantums ps) in
          let quantum := if quantum <=? 0 then 1 else quantum in
          let ps := if zget class (ps_classDeficits ps) <=? 0
            then ps_set_classDeficits (<[class := quantum]> (ps_classDeficits ps)) ps else ps in
          let owners := active_owners ps class in
          match owners with
          | [] =>
              let ps := ps_set_classDeficits (<[class := 0]> (ps_classDeficits ps)) ps in
              class_loop fuel' k c
                (ps_set_activeClasses (delete (ps_classCursor ps) (ps_activeClasses ps)) ps)
          | _ :: _ =>
              let cursor := default 0%nat (ps_ownerCursor ps !! class) in
              match owner_loop (length owners) k c ps class owners cursor with
              | OwnerNone ps k cursor =>
                  let ps := ps_set_ownerCursor (<[class := cursor]> (ps_ownerCursor ps)) ps in
                  let ps := ps_set_classDeficits (<[class := 0]> (ps_classDeficits ps)) ps in
                  class_loop fuel' k c (ps_set_classCursor (S (ps_classCursor ps)) ps)
              | r => r
              end
          end
      end
  end.

Definition SelectCandidateEligible (pool : PoolID) (c : Controller) : select_result Controller :=
  match c_pools c !! pool with
  | None => NoEligible c
  | Some ps =>
      match class_loop (length (ps_activeClasses ps)) 0 c ps with
      | OwnerSelected e c ps => Selected e (c_set_pools (<[pool := ps]> (c_pools c)) c)
      | OwnerNone ps _ _ => NoEligible (c_set_pools (<[pool := ps]> (c_pools c)) c)
      | OwnerPanic => SelectPanic
      end
  end.

End Select.

Definition SelectCandidate (clock : nat -> time) (pool : PoolID) (c : Controller) : select_result Controller :=
  SelectCandidateEligible clock None pool c.

(** ** Completion, cancellation and expiry *)

Definition OnTaskTerminal (spec : WorkSpec) (c : Controller) : Controller :=
  let owner := ws_QuotaOwner spec in
  let active := c_ownerActiveCount c in
  let c := if 0 <? zget owner active
    then c_set_ownerActiveCount (<[owner := zget owner active - 1]> active) c else c in
  let c := compactOwnerCounters owner c in
  let key := ws_OrderingKey spec in
  if bool_decide (key <> "") && bool_decide (default "" (c_orderingLocks c !! key) = ws_ID spec)
  then c_set_orderingLocks (delete key (c_orderingLocks c)) c else c.

Definition RemoveTask (id : TaskID) (c : Controller) : option QueueEntry * Controller :=
  match c_taskByID c !! id with
  | None => (None, c)
  | Some entry =>
      match c_pools c !! qe_pool entry with
      | None => (None, c)
      | Some ps =>
          let ps := ps_unqueue entry ps in
          let ps := ps_set_deadlineIndex (d_remove entry (ps_deadlineIndex ps)) ps in
          let ps := ps_debit entry ps in
          let c := c_debit (qe_owner entry) entry c in
          (Some entry, c_set_pools (<[qe_pool entry := ps]> (c_pools c)) c)
      end
  end.

(** The loop of [PopExpired] over the expired entries. *)
Fixpoint settle_expired (expired : list QueueEntry) (c : Controller) (ps : poolState)
    : Controller * poolState :=
  match expired with
  | [] => (c, ps)
  | entry :: expired' =>
      settle_expired expired' (c_debit (qe_owner entry) entry c) (ps_debit entry (ps_unqueue entry ps))
  end.

Definition PopExpired (pool : PoolID) (now : time) (c : Controller) : list QueueEntry * Controller :=
  match c_pools c !! pool with
  | None => ([], c)
  | Some ps =>
      let '(expired, dl) := d_pop_expired now (ps_deadlineIndex ps) in
      let '(c, ps) := settle_expired expired c (ps_set_deadlineIndex dl ps) in
      (expired, c_set_pools (<[pool := ps]> (c_pools c)) c)
  end.

Definition WaitingCount (pool : PoolID) (c : Controller) : Z :=
  match c_pools c !! pool with Some ps => ps_totalWaiting ps | None => 0 end.

(** [order] is the order in which the iteration over the map visits the pools. *)
Fixpoint earliest_of (order : list poolState) (acc : option time) : option time :=
  match order with
  | [] => acc
  | ps :: order' =>
      earliest_of order'
        match d_peek (ps_deadlineIndex ps) with
        | None => acc
        | Some e =>
            match acc with
            | None => Some (qe_Deadline e)
            | Some earliest => if before (qe_Deadline e) earliest then Some (qe_Deadline e) else acc
            end
        end
  end.

Definition EarliestDeadline (order : list poolState) : option time := earliest_of order None.

End Controller.

Arguments poolState : clear implicits.
Arguments Controller : clear implicits.
Arguments owner_result : clear implicits.
