(* ===== verification/AdmissionInvariant.v ===== *)
(** * Well-formed admission controllers

    The invariant of the controller of Admission.v and the lemmas that every
    operation keeps it, proved against the laws of the queue and the deadline
    index ([FifoLaws], [DeadlineLaws]); the properties are in
    AdmissionTheorems.v. *)

From S2P Require Import Prelude.
From S2P Require Import Execution.
From S2P Require Import Tasks.
From S2P Require Import AdmissionTypes.
From S2P Require Import Admission.

Section Invariant.
Context {Q D : Type} {FO : FifoOps Q} {DO : DeadlineOps D}.
#[local] Abbreviation poolState := (poolState Q D).
#[local] Abbreviation Controller := (Controller Q D).
#[local] Abbreviation owner_result := (owner_result Q D).
Implicit Types (c : Controller) (ps : poolState) (r : owner_result).

(** ** Well-formedness

    The index of the waiting tasks, [c_taskByID], is the reference: every
    counter is a sum over it and every queue and deadline index holds the part
    of it that belongs there. [skip] are the entries a pass in progress has
    already taken out of the deadline index. *)

Definition ind (b : bool) : Z := if b then 1 else 0.
Definition in_pool (p : PoolID) (e : QueueEntry) : bool := bool_decide (qe_pool e = p).
Definition of_owner (o : OwnerID) (e : QueueEntry) : bool := bool_decide (qe_owner e = o).

Definition count_of (f : QueueEntry -> bool) (T : gmap TaskID QueueEntry) : Z :=
  msum (fun e => ind (f e)) T.
Definition bytes_of (f : QueueEntry -> bool) (T : gmap TaskID QueueEntry) : Z :=
  wrap64 (msum (fun e => if f e then qe_PayloadSize e else 0) T).

Record pool_ok (T : gmap TaskID QueueEntry) (p : PoolID) (skip : list QueueEntry)
    (ps : poolState) : Prop := {
  po_classes : forall class, class ∈ priority_classes ->
    is_Some (ps_queues ps !! class) /\ is_Some (ps_ownerDeficits ps !! class) /\
    is_Some (ps_ownerQuantums ps !! class);
  po_queue : forall class owner q, get2 class owner (ps_queues ps) = Some q ->
    q_ok q /\ forall e, e ∈ q_elems q <->
      T !! qe_ID e = Some e /\ qe_pool e = p /\ qe_class e = class /\ qe_owner e = owner;
  po_queued : forall id e, T !! id = Some e -> qe_pool e = p ->
    is_Some (get2 (qe_class e) (qe_owner e) (ps_queues ps));
  po_heap : d_ok (ps_deadlineIndex ps);
  po_deadline : forall e, e ∈ d_elems (ps_deadlineIndex ps) <->
    T !! qe_ID e = Some e /\ qe_pool e = p /\ qe_Deadline e <> 0 /\ e ∉ skip;
  po_waiting : ps_totalWaiting ps = count_of (in_pool p) T;
  po_bytes : ps_totalBytes ps = bytes_of (in_pool p) T;
  po_active : forall id e, T !! id = Some e -> qe_pool e = p ->
    qe_class e ∈ ps_activeClasses ps /\ qe_owner e ∈ active_owners ps (qe_class e);
  po_active_classes : NoDup (ps_activeClasses ps) /\
    forall class, class ∈ ps_activeClasses ps -> class ∈ priority_classes;
  po_active_owners : forall class, NoDup (active_owners ps class)
}.

(** The global part: the index and the counters of the owners. *)
Record owners_ok (c : Controller) : Prop := {
  ow_ids : forall id e, c_taskByID c !! id = Some e ->
    qe_ID e = id /\ is_Some (c_pools c !! qe_pool e) /\ qe_class e ∈ priority_classes;
  ow_ptrs : forall id id' e e', c_taskByID c !! id = Some e -> c_taskByID c !! id' = Some e' ->
    qe_ptr e = qe_ptr e' -> id = id';
  ow_count : forall o, zget o (c_ownerWaitingCount c) = count_of (of_owner o) (c_taskByID c);
  ow_bytes : forall o, zget o (c_ownerWaitingBytes c) = bytes_of (of_owner o) (c_taskByID c)
}.

Definition controller_ok (c : Controller) : Prop :=
  owners_ok c /\
  forall p ps, c_pools c !! p = Some ps -> pool_ok (c_taskByID c) p [] ps.

Context {FL : FifoLaws Q} {DL : DeadlineLaws D}.

(** ** Lemmas on counters *)

Lemma zget_drop_zero {K} `{Countable K} (k k' : K) (m : gmap K Z) : zget k' (drop_zero k m) = zget k' m.
Proof.
  unfold drop_zero. destruct (zget k m =? 0) eqn:E; [|done]. bool_to_prop.
  unfold zget in *. destruct (decide (k' = k)) as [->|Hne].
  - by rewrite lookup_delete_eq.
  - by rewrite lookup_delete_ne by done.
Qed.

Lemma count_of_insert f T e :
  T !! qe_ID e = None -> count_of f (<[qe_ID e := e]> T) = count_of f T + ind (f e).
Proof. intros Hn. unfold count_of. rewrite msum_insert_fresh by done. lia. Qed.

Lemma count_of_delete f T e :
  T !! qe_ID e = Some e -> count_of f (delete (qe_ID e) T) = count_of f T - ind (f e).
Proof. intros Hn. unfold count_of. rewrite (msum_delete _ T _ _ Hn). lia. Qed.

Lemma bytes_of_insert f T e :
  T !! qe_ID e = None ->
  bytes_of f (<[qe_ID e := e]> T) = if f e then wrap64 (bytes_of f T + qe_PayloadSize e) else bytes_of f T.
Proof.
  intros Hn. unfold bytes_of. rewrite msum_insert_fresh by done.
  destruct (f e); [rewrite wrap64_add_l|]; f_equal; lia.
Qed.

Lemma bytes_of_delete f T e :
  T !! qe_ID e = Some e ->
  bytes_of f (delete (qe_ID e) T) = if f e then wrap64 (bytes_of f T - qe_PayloadSize e) else bytes_of f T.
Proof.
  intros Hn. unfold bytes_of. rewrite (msum_delete _ T _ _ Hn).
  destruct (f e); [rewrite wrap64_sub_l|]; f_equal; lia.
Qed.

Lemma of_owner_self e : of_owner (qe_owner e) e = true.
Proof. by apply bool_decide_eq_true_2. Qed.

Lemma of_owner_ne o e : o <> qe_owner e -> of_owner o e = false.
Proof. intros. apply bool_decide_eq_false_2. congruence. Qed.

Lemma in_pool_self e : in_pool (qe_pool e) e = true.
Proof. by apply bool_decide_eq_true_2. Qed.

Lemma in_pool_ne p e : p <> qe_pool e -> in_pool p e = false.
Proof. intros. apply bool_decide_eq_false_2. congruence. Qed.

(** Debiting an indexed entry keeps the owner accounting. *)
Lemma c_debit_owners c e :
  owners_ok c -> c_taskByID c !! qe_ID e = Some e -> owners_ok (c_debit (qe_owner e) e c).
Proof.
  intros Hok He. split; simpl.
  - intros id e' [_ Hl]%lookup_delete_Some. by apply (ow_ids c Hok).
  - intros id id' x x' [_ Hl]%lookup_delete_Some [_ Hl']%lookup_delete_Some.
    by apply (ow_ptrs c Hok).
  - intros o. rewrite zget_drop_zero, count_of_delete by done.
    destruct (decide (o = qe_owner e)) as [->|Hne].
    + rewrite zget_insert, (ow_count c Hok), of_owner_self. done.
    + rewrite zget_insert_ne, (ow_count c Hok), of_owner_ne by done. simpl. lia.
  - intros o. rewrite zget_drop_zero, bytes_of_delete by done.
    destruct (decide (o = qe_owner e)) as [->|Hne].
    + by rewrite zget_insert, (ow_bytes c Hok), of_owner_self.
    + by rewrite zget_insert_ne, (ow_bytes c Hok), of_owner_ne by done.
Qed.

(** The pools other than that of the entry do not see its removal. *)
Lemma pool_ok_delete_ne T p skip ps e :
  T !! qe_ID e = Some e -> qe_pool e <> p -> pool_ok T p skip ps ->
  pool_ok (delete (qe_ID e) T) p skip ps.
Proof.
  intros He Hne H.
  assert (Hiff : forall x, qe_pool x = p ->
    (delete (qe_ID e) T !! qe_ID x = Some x <-> T !! qe_ID x = Some x)).
  { intros x Hx. rewrite lookup_delete_Some. split; [tauto|]. intros Hl. split; [|done].
    intros Heq. rewrite <- Heq, He in Hl. congruence. }
  split.
  - apply H.
  - intros class owner q Hq. destruct (po_queue _ _ _ _ H _ _ _ Hq) as [Hok Hel].
    split; [done|]. intros x. rewrite Hel. specialize (Hiff x). naive_solver.
  - intros id x [_ Hl]%lookup_delete_Some. exact (po_queued _ _ _ _ H id x Hl).
  - apply H.
  - intros x. rewrite (po_deadline _ _ _ _ H). specialize (Hiff x). naive_solver.
  - rewrite (po_waiting _ _ _ _ H), count_of_delete, in_pool_ne by done. simpl. lia.
  - by rewrite (po_bytes _ _ _ _ H), bytes_of_delete, in_pool_ne by done.
  - intros id x [_ Hl]%lookup_delete_Some. by apply (po_active _ _ _ _ H id).
  - apply H.
  - apply H.
Qed.

Lemma pool_ok_insert_ne T p skip ps e :
  T !! qe_ID e = None -> qe_pool e <> p -> pool_ok T p skip ps ->
  pool_ok (<[qe_ID e := e]> T) p skip ps.
Proof.
  intros He Hne H.
  assert (Hl : forall x, qe_pool x = p -> forall id,
    (<[qe_ID e := e]> T !! id = Some x <-> T !! id = Some x)).
  { intros x Hx id. rewrite lookup_insert_Some. split; [naive_solver|]. intros Hl.
    right. split; [|done]. intros <-. congruence. }
  split.
  - apply H.
  - intros class owner q Hq. destruct (po_queue _ _ _ _ H _ _ _ Hq) as [Hok Hel].
    split; [done|]. intros x. rewrite Hel. specialize (Hl x). naive_solver.
  - intros id x Hx Hp. apply (Hl x Hp) in Hx. by apply (po_queued _ _ _ _ H id).
  - apply H.
  - intros x. rewrite (po_deadline _ _ _ _ H). specialize (Hl x). naive_solver.
  - rewrite (po_waiting _ _ _ _ H), count_of_insert, in_pool_ne by done. simpl. lia.
  - by rewrite (po_bytes _ _ _ _ H), bytes_of_insert, in_pool_ne by done.
  - intros id x Hx Hp. apply (Hl x Hp) in Hx. by apply (po_active _ _ _ _ H id).
  - apply H.
  - apply H.
Qed.

(** Membership in a list without [e], when identifiers are unique. *)
Lemma elems_without (l l1 l2 : list QueueEntry) e :
  NoDup (map qe_ID l) -> l = l1 ++ e :: l2 -> forall x, x ∈ l1 ++ l2 <-> x ∈ l /\ x <> e.
Proof.
  intros Hnd -> x. rewrite map_app in Hnd. simpl in Hnd.
  apply NoDup_app in Hnd as (_ & Hd & [Hn _]%NoDup_cons).
  rewrite !elem_of_app, elem_of_cons. split; [|tauto].
  intros Hx. split; [tauto|]. intros ->. destruct Hx as [Hx|Hx].
  - apply (Hd (qe_ID e)); [by apply list_elem_of_fmap_2|by left].
  - apply Hn. by apply list_elem_of_fmap_2.
Qed.

(** The queue of a waiting entry, and what removing the entry leaves of it. *)
Lemma queue_of T p skip ps e :
  pool_ok T p skip ps -> T !! qe_ID e = Some e -> qe_pool e = p ->
  exists rq rq', get2 (qe_class e) (qe_owner e) (ps_queues ps) = Some rq /\
    q_remove (qe_ID e) rq = (Some e, rq') /\ q_ok rq' /\
    forall x, x ∈ q_elems rq' <-> x ∈ q_elems rq /\ x <> e.
Proof.
  intros H He Hp. destruct (po_queued _ _ _ _ H _ _ He Hp) as [rq Hrq].
  destruct (po_queue _ _ _ _ H _ _ _ Hrq) as [Hok Hel].
  assert (Hin : e ∈ q_elems rq) by (apply Hel; done).
  apply list_elem_of_split in Hin as (l1 & l2 & Hl).
  destruct (q_remove_spec _ _ _ _ _ Hok Hl eq_refl) as (rq' & Hr & Hok' & Hl').
  exists rq, rq'. split_and_all; try done. intros x. rewrite Hl'.
  apply elems_without; [by apply q_nodup|done].
Qed.

(** The removal of a waiting entry from every structure of its pool. *)
Lemma pool_ok_removed T p skip0 skip ps ps' e rq' :
  pool_ok T p skip0 ps -> T !! qe_ID e = Some e -> qe_pool e = p ->
  ps_queues ps' = set2 (qe_class e) (qe_owner e) rq' (ps_queues ps) ->
  q_ok rq' -> (forall x, x ∈ q_elems rq' <->
    (T !! qe_ID x = Some x /\ qe_pool x = p /\ qe_class x = qe_class e /\ qe_owner x = qe_owner e) /\
    x <> e) ->
  (forall class, is_Some (ps_ownerDeficits ps !! class) -> is_Some (ps_ownerDeficits ps' !! class)) ->
  ps_ownerQuantums ps' = ps_ownerQuantums ps ->
  ps_activeClasses ps' = ps_activeClasses ps -> ps_activeOwners ps' = ps_activeOwners ps ->
  ps_totalWaiting ps' = ps_totalWaiting ps - 1 ->
  ps_totalBytes ps' = wrap64 (ps_totalBytes ps - qe_PayloadSize e) ->
  d_ok (ps_deadlineIndex ps') ->
  (forall x, x ∈ d_elems (ps_deadlineIndex ps') <->
    T !! qe_ID x = Some x /\ qe_pool x = p /\ qe_Deadline x <> 0 /\ x ∉ e :: skip) ->
  pool_ok (delete (qe_ID e) T) p skip ps'.
Proof.
  intros H He Hp Hq Hqok Hqel Hdef Hquant Hac Hao Htw Htb Hdok Hdel.
  assert (Hiff : forall x, delete (qe_ID e) T !! qe_ID x = Some x <-> T !! qe_ID x = Some x /\ x <> e).
  { intros x. rewrite lookup_delete_Some. split.
    - intros [Hne Hx]. split; [done|]. by intros ->.
    - intros [Hx Hne]. split; [|done]. intros Heq. rewrite <- Heq in Hx. congruence. }
  assert (Houter : is_Some (ps_queues ps !! qe_class e)).
  { destruct (po_queued _ _ _ _ H _ _ He Hp) as [q Hq']. by eapply get2_outer. }
  split.
  - intros class Hc. rewrite Hq, set2_outer, Hquant.
    destruct (po_classes _ _ _ _ H class Hc) as (? & ? & ?). auto.
  - intros class owner q. rewrite Hq.
    destruct (decide (class = qe_class e /\ owner = qe_owner e)) as [[-> ->]|Hne].
    + rewrite get2_set2 by done. intros [= <-]. split; [done|]. intros x. rewrite Hqel, Hiff. tauto.
    + rewrite get2_set2_ne by (by apply not_and_l in Hne; destruct Hne; auto). intros Hlk.
      destruct (po_queue _ _ _ _ H _ _ _ Hlk) as [Hok Hel]. split; [done|].
      intros x. rewrite Hel, Hiff. split; [|tauto]. intros (Hx & Hpx & Hcx & Hox).
      split_and_all; try done. intros ->. naive_solver.
  - intros id x [_ Hx]%lookup_delete_Some Hpx. rewrite Hq.
    destruct (decide (qe_class x = qe_class e /\ qe_owner x = qe_owner e)) as [[-> ->]|Hne].
    + by rewrite get2_set2.
    + rewrite get2_set2_ne by (by apply not_and_l in Hne; destruct Hne; auto).
      exact (po_queued _ _ _ _ H id x Hx Hpx).
  - done.
  - intros x. rewrite Hdel, Hiff, not_elem_of_cons. tauto.
  - rewrite Htw, (po_waiting _ _ _ _ H), count_of_delete by done.
    by rewrite <- Hp, in_pool_self.
  - rewrite Htb, (po_bytes _ _ _ _ H), bytes_of_delete by done.
    by rewrite <- Hp, in_pool_self.
  - intros id x [_ Hx]%lookup_delete_Some Hpx. unfold active_owners. rewrite Hac, Hao.
    exact (po_active _ _ _ _ H id x Hx Hpx).
  - rewrite Hac. apply H.
  - unfold active_owners. rewrite Hao. apply H.
Qed.

(** Removing one entry from the deadline index. *)
Lemma deadline_removed c p ps e :
  owners_ok c -> pool_ok (c_taskByID c) p [] ps -> c_taskByID c !! qe_ID e = Some e -> qe_pool e = p ->
  d_ok (d_remove e (ps_deadlineIndex ps)) /\
  forall x, x ∈ d_elems (d_remove e (ps_deadlineIndex ps)) <->
    c_taskByID c !! qe_ID x = Some x /\ qe_pool x = p /\ qe_Deadline x <> 0 /\ x ∉ [e].
Proof.
  intros Hc H He Hp. pose proof (po_heap _ _ _ _ H) as Hok.
  pose proof (po_deadline _ _ _ _ H) as Hel.
  destruct (decide (qe_Deadline e = 0)) as [Hz|Hz].
  - rewrite d_remove_absent; [|done|].
    + split; [done|]. intros x. rewrite Hel. set_solver.
    + intros (x & Hptr & Hx)%list_elem_of_fmap. apply Hel in Hx as (Hx & _ & Hzx & _).
      assert (qe_ID e = qe_ID x) as Hid by (by eapply (ow_ptrs c Hc)).
      rewrite Hid in He. congruence.
  - assert (Hin : e ∈ d_elems (ps_deadlineIndex ps)) by (apply Hel; set_solver).
    destruct (d_remove_spec _ _ Hok Hin) as [Hok' Hperm]. split; [done|].
    pose proof (d_nodup _ Hok) as Hnd. rewrite Hperm in Hnd. simpl in Hnd.
    apply NoDup_cons in Hnd as [Hn _]. intros x. split.
    + intros Hx. assert (Hx' : x ∈ d_elems (ps_deadlineIndex ps)) by (rewrite Hperm; by right).
      apply Hel in Hx' as (? & ? & ? & _). split_and_all; try done.
      intros ->%list_elem_of_singleton. apply Hn. by apply list_elem_of_fmap_2.
    + intros (Hx & Hpx & Hzx & Hne). assert (Hx' : x ∈ d_elems (ps_deadlineIndex ps)).
      { apply Hel. set_solver. }
      rewrite Hperm in Hx'. set_solver.
Qed.

(** A change of the bookkeeping of the round robin only. *)
Lemma pool_ok_ext T p skip ps ps' :
  pool_ok T p skip ps ->
  ps_queues ps' = ps_queues ps -> ps_deadlineIndex ps' = ps_deadlineIndex ps ->
  ps_totalWaiting ps' = ps_totalWaiting ps -> ps_totalBytes ps' = ps_totalBytes ps ->
  ps_activeClasses ps' = ps_activeClasses ps -> ps_activeOwners ps' = ps_activeOwners ps ->
  (forall class, is_Some (ps_ownerDeficits ps !! class) -> is_Some (ps_ownerDeficits ps' !! class)) ->
  (forall class, is_Some (ps_ownerQuantums ps !! class) -> is_Some (ps_ownerQuantums ps' !! class)) ->
  pool_ok T p skip ps'.
Proof.
  intros H Hq Hd Hw Hb Hac Hao Hdef Hquant.
  split; unfold active_owners; rewrite ?Hq, ?Hd, ?Hw, ?Hb, ?Hac, ?Hao; try apply H.
  intros class Hc. destruct (po_classes _ _ _ _ H class Hc) as (? & ? & ?). auto.
Qed.

Lemma owners_ok_ext c c' :
  owners_ok c -> c_taskByID c' = c_taskByID c -> c_ownerWaitingCount c' = c_ownerWaitingCount c ->
  c_ownerWaitingBytes c' = c_ownerWaitingBytes c ->
  (forall p, is_Some (c_pools c !! p) -> is_Some (c_pools c' !! p)) -> owners_ok c'.
Proof.
  intros H Ht Hc Hb Hp. split; rewrite ?Ht, ?Hc, ?Hb; try apply H.
  intros id e He. destruct (ow_ids c H id e He) as (? & ? & ?). auto.
Qed.

(** Writing a pool back. *)
Lemma controller_put c p ps :
  owners_ok c -> is_Some (c_pools c !! p) -> pool_ok (c_taskByID c) p [] ps ->
  (forall p' ps', p' <> p -> c_pools c !! p' = Some ps' -> pool_ok (c_taskByID c) p' [] ps') ->
  controller_ok (c_set_pools (<[p := ps]> (c_pools c)) c).
Proof.
  intros Hc Hp Hps Hother. split.
  - apply (owners_ok_ext c); try done. intros p' Hp'. simpl.
    destruct (decide (p' = p)) as [->|Hne]; [rewrite lookup_insert_eq; eauto|].
    by rewrite lookup_insert_ne.
  - intros p' ps'. simpl. destruct (decide (p' = p)) as [->|Hne].
    + rewrite lookup_insert_eq. by intros [= <-].
    + rewrite lookup_insert_ne by done. by apply Hother.
Qed.

Lemma RemoveTask_spec id e c :
  controller_ok c -> c_taskByID c !! id = Some e ->
  exists c', RemoveTask id c = (Some e, c') /\ controller_ok c' /\
    c_taskByID c' = delete id (c_taskByID c).
Proof.
  intros [Hc Hps] He. destruct (ow_ids c Hc id e He) as (<- & [ps Hp] & _).
  pose proof (Hps _ _ Hp) as H.
  destruct (queue_of _ _ _ _ _ H He eq_refl) as (rq & rq' & Hrq & Hrem & Hok' & Hel').
  destruct (deadline_removed c _ ps e Hc H He eq_refl) as [Hdok Hdel].
  unfold RemoveTask. rewrite He, Hp. eexists. split; [done|]. split; [|done].
  apply controller_put.
  - by apply c_debit_owners.
  - simpl. eauto.
  - eapply (pool_ok_removed _ _ [] [] ps _ e rq' H He); unfold ps_unqueue; rewrite ?Hrq, ?Hrem;
      simpl; try done.
    intros x. rewrite Hel'. by destruct (po_queue _ _ _ _ H _ _ _ Hrq) as [_ ->].
  - intros p' ps' Hne Hp'. apply pool_ok_delete_ne; [done|done|by apply Hps].
Qed.

(** The entries a pass of [PopExpired] handles. *)
Lemma settle_expired_spec p expired c ps :
  owners_ok c -> is_Some (c_pools c !! p) -> pool_ok (c_taskByID c) p expired ps ->
  (forall p' ps', p' <> p -> c_pools c !! p' = Some ps' -> pool_ok (c_taskByID c) p' [] ps') ->
  NoDup (map qe_ID expired) ->
  (forall e, e ∈ expired -> c_taskByID c !! qe_ID e = Some e /\ qe_pool e = p) ->
  let '(c', ps') := settle_expired expired c ps in
  owners_ok c' /\ c_pools c' = c_pools c /\ pool_ok (c_taskByID c') p [] ps' /\
  (forall p' ps', p' <> p -> c_pools c !! p' = Some ps' -> pool_ok (c_taskByID c') p' [] ps') /\
  forall id, c_taskByID c' !! id =
    if decide (id ∈ map qe_ID expired) then None else c_taskByID c !! id.
Proof.
  revert c ps. induction expired as [|e expired IH]; intros c ps Hc Hp H Hother Hnd Hin.
  { simpl. auto. }
  destruct (Hin e ltac:(left)) as [He Hpe].
  destruct (queue_of _ _ _ _ _ H He Hpe) as (rq & rq' & Hrq & Hrem & Hok' & Hel').
  cbn [settle_expired]. simpl in Hnd. apply NoDup_cons in Hnd as [Hn Hnd].
  assert (Hps' : pool_ok (delete (qe_ID e) (c_taskByID c)) p expired (ps_debit e (ps_unqueue e ps))).
  { eapply (pool_ok_removed _ _ (e :: expired) expired ps _ e rq' H He Hpe); unfold ps_unqueue;
      rewrite ?Hrq, ?Hrem; simpl; try done; try apply H.
    intros x. rewrite Hel'. destruct (po_queue _ _ _ _ H _ _ _ Hrq) as [_ ->]. done. }
  specialize (IH (c_debit (qe_owner e) e c) (ps_debit e (ps_unqueue e ps))).
  destruct (settle_expired expired _ _) as [c' ps'].
  destruct IH as (H1 & H2 & H3 & H4 & H5).
  - by apply c_debit_owners.
  - done.
  - exact Hps'.
  - intros p' ps'' Hne Hp'. apply pool_ok_delete_ne; [done|by rewrite Hpe|by apply Hother].
  - done.
  - intros x Hx. destruct (Hin x ltac:(by right)) as [Hx' Hpx]. split; [|done]. simpl.
    rewrite lookup_delete_ne; [done|]. intros Heq. apply Hn. rewrite Heq. by apply list_elem_of_fmap_2.
  - split_and_all; try done. intros id. rewrite H5. simpl.
    destruct (decide (id = qe_ID e)) as [->|Hne].
    + rewrite lookup_delete_eq, (decide_True (P := qe_ID e ∈ qe_ID e :: _)) by left. by case_decide.
    + rewrite lookup_delete_ne by done. destruct (decide (id ∈ map qe_ID expired)) as [Hi|Hi].
      * by rewrite decide_True by (by right).
      * rewrite decide_False; [done|]. by intros [?|?]%elem_of_cons.
Qed.

Lemma nodup_ids c l :
  NoDup (map qe_ptr l) -> (forall e, e ∈ l -> c_taskByID c !! qe_ID e = Some e) ->
  NoDup (map qe_ID l).
Proof.
  induction l as [|y l IH]; intros Hnd Hi; [constructor|]. simpl in *.
  apply NoDup_cons in Hnd as [Hn Hnd]. apply NoDup_cons. split.
  - intros (z & Hz & Hzl)%list_elem_of_fmap. apply Hn.
    pose proof (Hi y ltac:(left)) as H1. pose proof (Hi z ltac:(by right)) as H2.
    rewrite Hz, H2 in H1. injection H1 as <-. by apply list_elem_of_fmap_2.
  - apply IH; [done|]. intros x Hx. apply Hi. by right.
Qed.

Lemma PopExpired_spec pool now c :
  controller_ok c ->
  let '(expired, c') := PopExpired pool now c in
  controller_ok c' /\
  (forall e, e ∈ expired <-> c_taskByID c !! qe_ID e = Some e /\ qe_pool e = pool /\
     qe_Deadline e <> 0 /\ qe_Deadline e <= now) /\
  forall id, c_taskByID c' !! id =
    if decide (id ∈ map qe_ID expired) then None else c_taskByID c !! id.
Proof.
  intros [Hc Hps]. unfold PopExpired. destruct (c_pools c !! pool) as [ps|] eqn:Hp.
  2: { split; [done|]. split; [|done]. intros e. split; [by intros ?%not_elem_of_nil|].
       intros (He & Hpe & _). destruct (ow_ids c Hc _ e He) as (_ & [? Hx] & _). congruence. }
  pose proof (Hps _ _ Hp) as H. pose proof (po_heap _ _ _ _ H) as Hok.
  pose proof (d_pop_expired_spec now _ Hok) as Hpop.
  destruct (d_pop_expired now (ps_deadlineIndex ps)) as [expired dl].
  destruct Hpop as (Hok' & Hperm & Hexp & Hlive).
  pose proof (po_deadline _ _ _ _ H) as Hel.
  assert (Hin : forall e, e ∈ expired <-> e ∈ d_elems (ps_deadlineIndex ps) /\ qe_Deadline e <= now).
  { intros e. rewrite Hperm, elem_of_app. split; [intros He; split; [by left|by apply Hexp]|].
    intros [[He|He] Hle]; [done|]. specialize (Hlive e He). lia. }
  assert (Hnd : NoDup (map qe_ID expired)).
  { pose proof (d_nodup _ Hok) as Hnd. rewrite Hperm, map_app in Hnd.
    apply NoDup_app in Hnd as (Hnd & _). apply (nodup_ids c); [done|].
    intros e [He _]%Hin. by apply Hel in He as [? _]. }
  pose proof (settle_expired_spec pool expired c (ps_set_deadlineIndex dl ps) Hc) as Hs.
  destruct (settle_expired expired c _) as [c' ps'].
  destruct Hs as (H1 & H2 & H3 & H4 & H5).
  - eauto.
  - split; simpl; try apply H; [done|]. intros x.
    pose proof (d_nodup _ Hok) as Hnd'. rewrite Hperm, map_app in Hnd'.
    apply NoDup_app in Hnd' as (_ & Hdisj & _). split.
    + intros Hx. assert (Hx' : x ∈ d_elems (ps_deadlineIndex ps)) by (rewrite Hperm; set_solver).
      apply Hel in Hx' as (? & ? & ? & _). split_and_all; try done.
      intros Hx'. apply (Hdisj (qe_ptr x)); by apply list_elem_of_fmap_2.
    + intros (Hx & Hpx & Hz & Hn). assert (Hx' : x ∈ d_elems (ps_deadlineIndex ps)).
      { apply Hel. set_solver. }
      rewrite Hperm in Hx'. set_solver.
  - intros p' ps'' _. apply Hps.
  - done.
  - intros e [He _]%Hin. apply Hel in He as (? & ? & _). done.
  - split; [|split].
    + apply controller_put; [done|rewrite H2; eauto|done|]. rewrite H2. done.
    + intros e. rewrite Hin, Hel. set_solver.
    + done.
Qed.

Lemma ensureActiveClass_spec class ps :
  let ps' := ensureActiveClass class ps in
  (NoDup (ps_activeClasses ps) -> NoDup (ps_activeClasses ps')) /\
  forall x, x ∈ ps_activeClasses ps' <-> x ∈ ps_activeClasses ps \/ x = class.
Proof.
  unfold ensureActiveClass. case_decide as Hin; simpl.
  - split; [done|]. naive_solver.
  - split; [|set_solver]. intros Hnd. apply NoDup_app. split_and_all; [done|set_solver|apply NoDup_singleton].
Qed.

Lemma ensureActiveOwner_spec limits class owner ps :
  let ps' := ensureActiveOwner limits class owner ps in
  ((forall cl, NoDup (active_owners ps cl)) -> forall cl, NoDup (active_owners ps' cl)) /\
  (forall cl x, x ∈ active_owners ps' cl <->
     x ∈ active_owners ps cl \/ (cl = class /\ x = owner)) /\
  (forall cl, is_Some (ps_ownerQuantums ps !! cl) -> is_Some (ps_ownerQuantums ps' !! cl)).
Proof.
  unfold ensureActiveOwner. case_decide as Hin; cbn zeta; [naive_solver|].
  set (l' := <[class := _]> _).
  assert (Hl : forall cl, default [] (l' !! cl) =
    if decide (cl = class) then active_owners ps class ++ [owner] else active_owners ps cl).
  { intros cl. unfold l'. case_decide as Hc; [subst; by rewrite lookup_insert_eq|].
    by rewrite lookup_insert_ne. }
  set (ps1 := ps_set_activeOwners l' ps).
  set (ps2 := match get2 class owner (ps_ownerQuantums ps1) with Some _ => _ | None => _ end).
  assert (Ha : forall cl, active_owners ps2 cl = default [] (l' !! cl)).
  { intros cl. unfold ps2. by destruct (get2 _ _ _). }
  split; [|split].
  - intros Hnd cl. rewrite Ha, Hl. case_decide; [|done]. apply NoDup_app.
    split_and_all; [done|set_solver|apply NoDup_singleton].
  - intros cl x. rewrite Ha, Hl. case_decide; [subst; set_solver|naive_solver].
  - intros cl Hcl. unfold ps2. destruct (get2 _ _ _); simpl; [done|]. by rewrite set2_outer.
Qed.

(** What [Enqueue] needs of an entry: it is new, and its class has queues. *)
Definition fresh_entry (e : QueueEntry) (c : Controller) : Prop :=
  c_taskByID c !! qe_ID e = None /\ qe_class e ∈ priority_classes /\
  forall id x, c_taskByID c !! id = Some x -> qe_ptr x <> qe_ptr e.

(** The insertion of a fresh entry into every structure of its pool. *)
Lemma pool_ok_inserted T p ps ps' e q q' :
  pool_ok T p [] ps -> T !! qe_ID e = None -> qe_pool e = p -> qe_class e ∈ priority_classes ->
  q = default q_new (get2 (qe_class e) (qe_owner e) (ps_queues ps)) ->
  ps_queues ps' = set2 (qe_class e) (qe_owner e) q' (ps_queues ps) ->
  q_ok q' -> q_elems q' = q_elems q ++ [e] ->
  (forall class, is_Some (ps_ownerDeficits ps !! class) -> is_Some (ps_ownerDeficits ps' !! class)) ->
  (forall class, is_Some (ps_ownerQuantums ps !! class) -> is_Some (ps_ownerQuantums ps' !! class)) ->
  NoDup (ps_activeClasses ps') ->
  (forall x, x ∈ ps_activeClasses ps' <-> x ∈ ps_activeClasses ps \/ x = qe_class e) ->
  (forall class, NoDup (active_owners ps' class)) ->
  (forall cl x, x ∈ active_owners ps' cl <->
     x ∈ active_owners ps cl \/ (cl = qe_class e /\ x = qe_owner e)) ->
  ps_totalWaiting ps' = ps_totalWaiting ps + 1 ->
  ps_totalBytes ps' = wrap64 (ps_totalBytes ps + qe_PayloadSize e) ->
  d_ok (ps_deadlineIndex ps') ->
  (forall x, x ∈ d_elems (ps_deadlineIndex ps') <->
    x ∈ d_elems (ps_deadlineIndex ps) \/ (x = e /\ qe_Deadline e <> 0)) ->
  pool_ok (<[qe_ID e := e]> T) p [] ps'.
Proof.
  intros H He Hp Hcl Hqd Hq Hqok Hqel Hdef Hquant Hnac Hac Hnao Hao Htw Htb Hdok Hdel.
  assert (Hiff : forall x, <[qe_ID e := e]> T !! qe_ID x = Some x <-> T !! qe_ID x = Some x \/ x = e).
  { intros x. rewrite lookup_insert_Some. split.
    - intros [[_ ->]|[_ Hx]]; auto.
    - intros [Hx| ->]; [|auto]. right. split; [|done]. intros Heq. rewrite <- Heq in Hx. congruence. }
  destruct (po_classes _ _ _ _ H _ Hcl) as (Houter & _ & _).
  assert (Hqe : forall x, x ∈ q_elems q <->
    T !! qe_ID x = Some x /\ qe_pool x = p /\ qe_class x = qe_class e /\ qe_owner x = qe_owner e).
  { intros x. rewrite Hqd. destruct (get2 _ _ _) as [q0|] eqn:Hq0; simpl.
    - by apply (po_queue _ _ _ _ H _ _ _ Hq0).
    - destruct q_new_spec as [_ ->]. split; [by intros ?%not_elem_of_nil|].
      intros (Hx & Hpx & Hcx & Hox). destruct (po_queued _ _ _ _ H _ _ Hx Hpx) as [? Hy].
      rewrite Hcx, Hox in Hy. congruence. }
  split.
  - intros class Hc. rewrite Hq, set2_outer.
    destruct (po_classes _ _ _ _ H class Hc) as (? & ? & ?). auto.
  - intros class owner q0. rewrite Hq.
    destruct (decide (class = qe_class e /\ owner = qe_owner e)) as [[-> ->]|Hne].
    + rewrite get2_set2 by done. intros [= <-]. split; [done|]. intros x.
      rewrite Hqel, elem_of_app, list_elem_of_singleton, Hqe, Hiff. naive_solver.
    + rewrite get2_set2_ne by (by apply not_and_l in Hne; destruct Hne; auto). intros Hlk.
      destruct (po_queue _ _ _ _ H _ _ _ Hlk) as [Hok Hel]. split; [done|].
      intros x. rewrite Hel, Hiff. naive_solver.
  - intros id x Hx Hpx. rewrite Hq.
    destruct (decide (qe_class x = qe_class e /\ qe_owner x = qe_owner e)) as [[-> ->]|Hne];
      [by rewrite get2_set2|].
    rewrite get2_set2_ne by (by apply not_and_l in Hne; destruct Hne; auto).
    apply lookup_insert_Some in Hx as [[_ <-]|[_ Hx]]; [naive_solver|].
    exact (po_queued _ _ _ _ H id x Hx Hpx).
  - done.
  - intros x. rewrite Hdel, (po_deadline _ _ _ _ H), Hiff. set_solver.
  - rewrite Htw, (po_waiting _ _ _ _ H), count_of_insert by done. by rewrite <- Hp, in_pool_self.
  - rewrite Htb, (po_bytes _ _ _ _ H), bytes_of_insert by done. by rewrite <- Hp, in_pool_self.
  - intros id x [[_ <-]|[_ Hx]]%lookup_insert_Some Hpx; rewrite Hac, Hao; [auto|].
    destruct (po_active _ _ _ _ H id x Hx Hpx). auto.
  - split; [done|]. intros class [Hc| ->]%Hac; [by apply (po_active_classes _ _ _ _ H)|done].
  - done.
Qed.

(** Indexing the deadline of a fresh entry. *)
Lemma deadline_pushed c p ps e :
  pool_ok (c_taskByID c) p [] ps -> fresh_entry e c ->
  d_ok (d_push e (ps_deadlineIndex ps)) /\
  forall x, x ∈ d_elems (d_push e (ps_deadlineIndex ps)) <->
    x ∈ d_elems (ps_deadlineIndex ps) \/ (x = e /\ qe_Deadline e <> 0).
Proof.
  intros H (_ & _ & Hptr).
  assert (Hn : qe_ptr e ∉ map qe_ptr (d_elems (ps_deadlineIndex ps))).
  { intros (x & Hx & Hin)%list_elem_of_fmap. apply (po_deadline _ _ _ _ H) in Hin as (Hin & _).
    apply (Hptr _ _ Hin). congruence. }
  destruct (decide (qe_Deadline e = 0)) as [Hz|Hz].
  - destruct (d_push_zero e _ (po_heap _ _ _ _ H) Hz Hn) as [? ->]. split; [done|]. naive_solver.
  - destruct (d_push_spec e _ (po_heap _ _ _ _ H) Hz Hn) as [? Hperm]. split; [done|].
    intros x. rewrite Hperm, elem_of_cons. naive_solver.
Qed.

Lemma Enqueue_spec e c :
  controller_ok c -> fresh_entry e c -> is_Some (c_pools c !! qe_pool e) ->
  exists c', Enqueue (Some e) c = Some c' /\ controller_ok c' /\
    c_taskByID c' = <[qe_ID e := e]> (c_taskByID c).
Proof.
  intros [Hc Hps] Hf [ps Hp]. pose proof (Hps _ _ Hp) as H.
  pose proof Hf as (Hnone & Hcl & Hptr).
  destruct (po_classes _ _ _ _ H _ Hcl) as ([by_owner Hby] & _ & _).
  unfold Enqueue. rewrite Hp, Hby.
  set (q := default q_new (by_owner !! qe_owner e)).
  assert (Hq : q = default q_new (get2 (qe_class e) (qe_owner e) (ps_queues ps))).
  { unfold q, get2. by rewrite Hby. }
  assert (Hqpush : q_ok (q_push e q) /\ q_elems (q_push e q) = q_elems q ++ [e]).
  { rewrite Hq. destruct (get2 _ _ _) as [q0|] eqn:Hq0; simpl.
    - destruct (po_queue _ _ _ _ H _ _ _ Hq0) as [Hok Hel]. apply q_push_spec; [done|].
      intros (x & Hx & Hin)%list_elem_of_fmap. apply Hel in Hin as (Hin & _). congruence.
    - destruct q_new_spec as [Hok Hel]. apply q_push_spec; [done|]. rewrite Hel. apply not_elem_of_nil. }
  destruct Hqpush as [Hqok Hqel].
  destruct (deadline_pushed c _ ps e H Hf) as [Hdok Hdel].
  eexists. split; [reflexivity|]. split; [|done].
  match goal with |- controller_ok (c_set_pools _ ?c1) => set (c' := c1) end.
  change (c_pools c) with (c_pools c').
  apply controller_put.
  - split; simpl.
    + intros id x [[<- <-]|[_ Hx]]%lookup_insert_Some; [eauto|by apply (ow_ids c Hc)].
    + intros id id' x x' [[<- <-]|[_ Hx]]%lookup_insert_Some [[<- <-]|[_ Hx']]%lookup_insert_Some Hxx;
        [done| | |by apply (ow_ptrs c Hc id id' x x')].
      * by destruct (Hptr _ _ Hx').
      * by destruct (Hptr _ _ Hx).
    + intros o. rewrite count_of_insert by done. destruct (decide (o = qe_owner e)) as [->|Hne].
      * by rewrite zget_insert, (ow_count c Hc), of_owner_self.
      * rewrite zget_insert_ne, (ow_count c Hc), of_owner_ne by done. simpl. lia.
    + intros o. rewrite bytes_of_insert by done. destruct (decide (o = qe_owner e)) as [->|Hne].
      * by rewrite zget_insert, (ow_bytes c Hc), of_owner_self.
      * by rewrite zget_insert_ne, (ow_bytes c Hc), of_owner_ne by done.
  - simpl. eauto.
  - set (ps1 := ps_set_totalBytes _ _).
    destruct (ensureActiveClass_spec (qe_class e) ps1) as [Hac1 Hac2].
    destruct (ensureActiveOwner_spec (getOwnerLimits c' (qe_owner e)) (qe_class e) (qe_owner e)
      (ensureActiveClass (qe_class e) ps1)) as (Hao1 & Hao2 & Hao3).
    set (ps2 := ensureActiveClass _ ps1) in *. set (ps3 := ensureActiveOwner _ _ _ ps2) in *.
    assert (Hsame : ps_queues ps3 = ps_queues ps1 /\ ps_ownerDeficits ps3 = ps_ownerDeficits ps1 /\
      ps_activeClasses ps3 = ps_activeClasses ps2 /\ ps_totalWaiting ps3 = ps_totalWaiting ps1 /\
      ps_totalBytes ps3 = ps_totalBytes ps1 /\ ps_deadlineIndex ps3 = ps_deadlineIndex ps1 /\
      ps_ownerQuantums ps2 = ps_ownerQuantums ps1 /\ ps_activeOwners ps2 = ps_activeOwners ps1).
    { unfold ps3, ps2, ensureActiveOwner, ensureActiveClass.
      repeat (case_decide || case_match); auto 10. }
    destruct Hsame as (E1 & E2 & E3 & E4 & E5 & E6 & E7 & E8).
    eapply (pool_ok_inserted _ _ ps ps3 e q (q_push e q) H Hnone eq_refl Hcl Hq);
      rewrite ?E1, ?E2, ?E3, ?E4, ?E5, ?E6; try done.
    + intros class Hclass. apply Hao3. by rewrite E7.
    + apply Hac1. apply (po_active_classes _ _ _ _ H).
    + apply Hao1. intros cl. unfold active_owners. rewrite E8. apply (po_active_owners _ _ _ _ H).
    + intros cl x. rewrite Hao2. unfold active_owners. by rewrite E8.
  - intros p' ps' Hne Hp'. apply pool_ok_insert_ne; [done|done|by apply Hps].
Qed.

(** ** Selection *)

Definition under_limit (c : Controller) (o : OwnerID) : Prop :=
  ol_MaxActive (getOwnerLimits c o) <= 0 \/
  zget o (c_ownerActiveCount c) < ol_MaxActive (getOwnerLimits c o).

(** [e] was taken out of pool [p]: it was waiting there, it is the first
    selectable entry of its owner's queue, and the counters and locks say so. *)
Record taken (clock : nat -> time) (eligible : option (WorkSpec -> bool)) (p : PoolID)
    (c : Controller) (ps : poolState) (e : QueueEntry) (c' : Controller) (ps' : poolState) : Prop := {
  tk_waiting : c_taskByID c !! qe_ID e = Some e /\ qe_pool e = p;
  tk_limit : under_limit c (qe_owner e);
  tk_first : exists k rq l1 l2, get2 (qe_class e) (qe_owner e) (ps_queues ps) = Some rq /\
    q_elems rq = l1 ++ e :: l2 /\ selectable c eligible (clock k) e = true /\
    forall x, x ∈ l1 -> selectable c eligible (clock k) x = false;
  tk_owners : owners_ok c';
  tk_index : c_taskByID c' = delete (qe_ID e) (c_taskByID c);
  tk_pools : c_pools c' = c_pools c;
  tk_pool : pool_ok (c_taskByID c') p [] ps';
  tk_active : forall o, zget o (c_ownerActiveCount c') =
    zget o (c_ownerActiveCount c) + ind (of_owner o e);
  tk_locks : c_orderingLocks c' =
    let key := ws_OrderingKey (qe_Spec e) in
    if decide (key <> "") then <[key := qe_ID e]> (c_orderingLocks c) else c_orderingLocks c;
  tk_limits : c_ownerLimits c' = c_ownerLimits c
}.

Lemma find_split (f : QueueEntry -> bool) l e :
  List.find f l = Some e ->
  exists l1 l2, l = l1 ++ e :: l2 /\ f e = true /\ forall x, x ∈ l1 -> f x = false.
Proof.
  induction l as [|y l IH]; simpl; [done|]. destruct (f y) eqn:Hy.
  - intros [= ->]. exists [], l. split_and_all; try done. by intros ? ?%not_elem_of_nil.
  - intros (l1 & l2 & -> & Hf & Hl)%IH. exists (y :: l1), l2. split_and_all; try done.
    intros x [->|Hx]%elem_of_cons; auto.
Qed.

Lemma find_none (f : QueueEntry -> bool) l e : List.find f l = None -> e ∈ l -> f e = false.
Proof. intros Hf He. eapply List.find_none; [done|]. by apply list_elem_of_In. Qed.

(** The queue [rq] of [e] stays in [ps]: the passes of a selection only drop
    empty queues. *)
Definition queues_le (ps ps0 : poolState) : Prop :=
  forall cl o rq, get2 cl o (ps_queues ps) = Some rq -> get2 cl o (ps_queues ps0) = Some rq.

Lemma take_candidate_spec clock eligible p cursor rq e c ps ps0 k :
  owners_ok c -> pool_ok (c_taskByID c) p [] ps -> queues_le ps ps0 ->
  get2 (qe_class e) (qe_owner e) (ps_queues ps) = Some rq ->
  q_first (selectable c eligible (clock k)) rq = Some e ->
  under_limit c (qe_owner e) ->
  exists c' ps', take_candidate (qe_class e) (qe_owner e) cursor rq e c ps = Some (e, c', ps') /\
    taken clock eligible p c ps0 e c' ps'.
Proof.
  intros Hc H Hle Hrq Hfirst Hlim.
  destruct (po_queue _ _ _ _ H _ _ _ Hrq) as [Hqok Hqel].
  rewrite q_first_spec in Hfirst by done. apply find_split in Hfirst as (l1 & l2 & Hl & Hsel & Hbefore).
  assert (Hin : e ∈ q_elems rq) by (rewrite Hl; set_solver).
  apply Hqel in Hin as (He & Hpe & _).
  destruct (queue_of _ _ _ _ _ H He Hpe) as (rq0 & rq' & Hrq0 & Hrem & Hok' & Hel').
  rewrite Hrq in Hrq0. injection Hrq0 as <-.
  destruct (deadline_removed c _ ps e Hc H He Hpe) as [Hdok Hdel].
  pose proof (c_debit_owners c e Hc He) as Hc'.
  unfold take_candidate. rewrite Hrem. cbn zeta. eexists _, _. split; [reflexivity|].
  split; try done.
  - exists k, rq, l1, l2. split_and_all; try done. by apply Hle.
  - apply (owners_ok_ext (c_debit (qe_owner e) e c)); try done; by case_decide.
  - by case_decide.
  - by case_decide.
  - replace (c_taskByID _) with (delete (qe_ID e) (c_taskByID c)) by (by case_decide).
    eapply (pool_ok_removed _ _ [] [] ps _ e rq' H He Hpe).
    all: try (intros x; rewrite Hel', Hqel; done).
    all: try done.
    all: intros; repeat case_match; simpl; rewrite ?set2_outer; try done.
  - intros o. case_decide; simpl; (destruct (decide (o = qe_owner e)) as [->|Hne];
      [rewrite zget_insert, zget_drop_zero, of_owner_self; done|
       rewrite zget_insert_ne, zget_drop_zero, of_owner_ne by done; simpl; lia]).
  - cbn zeta. by case_decide.
  - by case_decide.
Qed.

(** Refilling a deficit, moving a cursor: no entry is involved. *)
Lemma pool_ok_deficit T p ps cl o v :
  pool_ok T p [] ps -> pool_ok T p [] (ps_set_ownerDeficits (set2 cl o v (ps_ownerDeficits ps)) ps).
Proof.
  intros H. apply (pool_ok_ext T p [] ps); try done. intros class. simpl. by rewrite set2_outer.
Qed.

Lemma live_queue_spec T p ps cl o :
  pool_ok T p [] ps ->
  match live_queue cl o ps with
  | Some rq => get2 cl o (ps_queues ps) = Some rq
  | None => forall id e, T !! id = Some e -> qe_ID e = id -> qe_pool e = p -> qe_class e = cl ->
      qe_owner e <> o
  end.
Proof.
  intros H. unfold live_queue. destruct (get2 cl o (ps_queues ps)) as [rq|] eqn:Hq.
  - destruct (po_queue _ _ _ _ H _ _ _ Hq) as [Hok Hel].
    rewrite q_len_spec by done. destruct (q_elems rq) as [|y l] eqn:El; simpl.
    + intros id e He <- Hp Hcl Ho. assert (Hin : e ∈ ([] : list QueueEntry)) by (apply Hel; done).
      by apply not_elem_of_nil in Hin.
    + done.
  - intros id e He <- Hp <- <-. destruct (po_queued _ _ _ _ H _ _ He Hp) as [? ?]. congruence.
Qed.

Lemma pool_ok_drop_owner c p ps cl o cursor :
  owners_ok c -> pool_ok (c_taskByID c) p [] ps -> live_queue cl o ps = None ->
  active_owners ps cl !! cursor = Some o ->
  let ps' := drop_owner cl o (delete cursor (active_owners ps cl)) ps in
  pool_ok (c_taskByID c) p [] ps' /\ queues_le ps' ps /\
  active_owners ps' cl = delete cursor (active_owners ps cl).
Proof.
  intros Hc H Hlive Hcur. pose proof (live_queue_spec _ _ _ cl o H) as Hempty. rewrite Hlive in Hempty.
  assert (Hle : forall cl' o' rq, get2 cl' o' (del2 cl o (ps_queues ps)) = Some rq ->
    get2 cl' o' (ps_queues ps) = Some rq /\ (cl' <> cl \/ o' <> o)).
  { intros cl' o' rq. destruct (decide (cl' = cl /\ o' = o)) as [[-> ->]|Hne]; [by rewrite get2_del2|].
    apply not_and_l in Hne. rewrite get2_del2_ne by tauto. tauto. }
  assert (Hact : forall cl', default [] (<[cl := delete cursor (active_owners ps cl)]>
      (ps_activeOwners ps) !! cl') =
    if decide (cl' = cl) then delete cursor (active_owners ps cl) else active_owners ps cl').
  { intros cl'. case_decide; [subst; by rewrite lookup_insert_eq|by rewrite lookup_insert_ne]. }
  split; [|split; [|by unfold active_owners; simpl; rewrite lookup_insert_eq]].
  - split; unfold active_owners; simpl; try apply H.
    + intros class Hcl. rewrite !del2_outer. by apply (po_classes _ _ _ _ H).
    + intros class owner q [Hq _]%Hle. by apply (po_queue _ _ _ _ H).
    + intros id e He Hp. destruct (ow_ids c Hc _ _ He) as (Hid & _).
      destruct (decide (qe_class e = cl)) as [Hcl|Hcl].
      * rewrite get2_del2_ne by (right; by apply (Hempty id)).
        exact (po_queued _ _ _ _ H _ _ He Hp).
      * rewrite get2_del2_ne by auto. exact (po_queued _ _ _ _ H _ _ He Hp).
    + intros id e He Hp. destruct (ow_ids c Hc _ _ He) as (Hid & _).
      destruct (po_active _ _ _ _ H _ _ He Hp) as [Hac Hao]. split; [done|].
      rewrite Hact. case_decide as Hcl; [|done].
      rewrite <- Hcl. assert (Hne : qe_owner e <> o) by (by apply (Hempty id)).
      rewrite Hcl in *. apply list_elem_of_lookup in Hao as [i Hi].
      rewrite delete_take_drop. apply elem_of_app.
      destruct (Nat.lt_trichotomy i cursor) as [Hlt|[->|Hgt]].
      * left. apply list_elem_of_lookup. exists i. by rewrite lookup_take_lt.
      * rewrite Hcur in Hi. congruence.
      * right. apply list_elem_of_lookup. exists (i - S cursor)%nat. rewrite lookup_drop.
        replace (S cursor + (i - S cursor))%nat with i by lia. done.
    + intros class. rewrite Hact. case_decide; [|by apply (po_active_owners _ _ _ _ H)].
      eapply sublist_NoDup; [apply (po_active_owners _ _ _ _ H)|apply sublist_delete].
  - intros cl' o' rq. simpl. by intros [? _]%Hle.
Qed.

(** A waiting entry the loops may not pass over. *)
Definition ready (clock : nat -> time) (eligible : option (WorkSpec -> bool)) (p : PoolID)
    (c : Controller) (e : QueueEntry) : Prop :=
  c_taskByID c !! qe_ID e = Some e /\ qe_pool e = p /\ under_limit c (qe_owner e) /\
  forall k, selectable c eligible (clock k) e = true.

Lemma queues_le_trans ps1 ps2 ps3 : queues_le ps1 ps2 -> queues_le ps2 ps3 -> queues_le ps1 ps3.
Proof. unfold queues_le. auto. Qed.

Lemma at_limit c o :
  (0 <? ol_MaxActive (getOwnerLimits c o)) &&
  (ol_MaxActive (getOwnerLimits c o) <=? zget o (c_ownerActiveCount c)) = false <-> under_limit c o.
Proof.
  unfold under_limit. rewrite andb_false_iff, Z.ltb_ge, Z.leb_gt. tauto.
Qed.

(** The refill at the start of a round. *)
Definition refill (cl : PriorityClass) (o : OwnerID) (ps : poolState) : poolState :=
  let quantum := default 0 (get2 cl o (ps_ownerQuantums ps)) in
  let quantum := if quantum <=? 0 then 1 else quantum in
  if default 0 (get2 cl o (ps_ownerDeficits ps)) <=? 0
  then ps_set_ownerDeficits (set2 cl o quantum (ps_ownerDeficits ps)) ps else ps.

Lemma refill_spec T p ps ps0 cl o :
  pool_ok T p [] ps -> queues_le ps ps0 ->
  pool_ok T p [] (refill cl o ps) /\ queues_le (refill cl o ps) ps0 /\
  (forall cl', active_owners (refill cl o ps) cl' = active_owners ps cl') /\
  ps_activeClasses (refill cl o ps) = ps_activeClasses ps /\
  ps_classCursor (refill cl o ps) = ps_classCursor ps.
Proof.
  intros H Hle. unfold refill. case_match; split_and_all; try done. by apply pool_ok_deficit.
Qed.

(** One round of the owner loop. *)
Lemma owner_loop_S clock eligible fuel k c ps cl owners cursor o :
  let cur := wrap_cursor owners cursor in
  owners !! cur = Some o ->
  owner_loop clock eligible (S fuel) k c ps cl owners cursor =
  let ps := refill cl o ps in
  match live_queue cl o ps with
  | None =>
      let owners := delete cur owners in
      owner_loop clock eligible fuel k c (drop_owner cl o owners ps) cl owners cur
  | Some rq =>
      if (0 <? ol_MaxActive (getOwnerLimits c o)) &&
         (ol_MaxActive (getOwnerLimits c o) <=? zget o (c_ownerActiveCount c)) then
        owner_loop clock eligible fuel k c ps cl owners (S cur)
      else
        match q_first (selectable c eligible (clock k)) rq with
        | None => owner_loop clock eligible fuel (S k) c ps cl owners (S cur)
        | Some candidate =>
            match take_candidate cl o cur rq candidate c ps with
            | Some (e, c, ps) => OwnerSelected e c ps
            | None => OwnerPanic
            end
        end
  end.
Proof.
  cbn zeta. unfold wrap_cursor. intros Ho. cbn [owner_loop]. destruct owners as [|o0 os]; [done|].
  rewrite Ho. reflexivity.
Qed.

(** The specification of the owner loop. *)
Definition owner_post clock eligible p c ps0 ps cl (visited : list OwnerID) (r : owner_result) : Prop :=
  match r with
  | OwnerSelected e c' ps' => taken clock eligible p c ps0 e c' ps'
  | OwnerNone ps' _ _ =>
      pool_ok (c_taskByID c) p [] ps' /\ queues_le ps' ps0 /\
      ps_activeClasses ps' = ps_activeClasses ps /\ ps_classCursor ps' = ps_classCursor ps /\
      forall e, ready clock eligible p c e -> qe_class e = cl -> qe_owner e ∉ visited
  | OwnerPanic => False
  end.

Lemma owner_post_cons clock eligible p c ps0 ps ps' cl o visited r :
  (forall e, ready clock eligible p c e -> qe_class e = cl -> qe_owner e <> o) ->
  ps_activeClasses ps' = ps_activeClasses ps -> ps_classCursor ps' = ps_classCursor ps ->
  owner_post clock eligible p c ps0 ps' cl visited r ->
  owner_post clock eligible p c ps0 ps cl (o :: visited) r.
Proof.
  intros Hno Hac Hcc. destruct r as [e c' ps''|ps'' k cur|]; simpl; [done| |done].
  intros (? & ? & ? & ? & Hv). split_and_all; try done; try congruence.
  intros e He Hcl [Heq|Hin]%elem_of_cons; [by apply (Hno e)|by apply (Hv e)].
Qed.

Lemma owner_loop_spec clock eligible p c ps0 cl fuel : forall k ps owners cursor,
  owners_ok c -> pool_ok (c_taskByID c) p [] ps -> queues_le ps ps0 ->
  active_owners ps cl = owners -> (fuel <= length owners)%nat ->
  owner_post clock eligible p c ps0 ps cl (take fuel (rot owners cursor))
    (owner_loop clock eligible fuel k c ps cl owners cursor).
Proof.
  induction fuel as [|fuel IH]; intros k ps owners cursor Hc H Hle Hao Hfuel.
  { simpl. split_and_all; try done. intros. apply not_elem_of_nil. }
  destruct (wrap_cursor_lookup owners cursor) as [o Ho]; [by intros ->; simpl in Hfuel; lia|].
  rewrite (owner_loop_S _ _ _ _ _ _ _ _ _ o Ho). cbn zeta.
  destruct (refill_spec _ _ _ _ cl o H Hle) as (H1 & Hle1 & Hao1 & Hac1 & Hcc1).
  set (ps1 := refill cl o ps) in *. specialize (Hao1 cl). rewrite Hao in Hao1.
  pose proof (live_queue_spec _ _ _ cl o H1) as Hlive.
  destruct (live_queue cl o ps1) as [rq|] eqn:Erq.
  - rewrite (rot_rest_next _ _ o) by done. destruct (po_queue _ _ _ _ H1 _ _ _ Hlive) as [Hqok Hqel].
    destruct (_ && _) eqn:Elim.
    { apply (owner_post_cons _ _ _ _ _ _ ps1); [|done|done|by apply IH; try done; lia].
      intros e (_ & _ & Hlim & _) _ Heq. rewrite Heq in Hlim. apply at_limit in Hlim. congruence. }
    apply at_limit in Elim. destruct (q_first _ rq) as [cand|] eqn:Ecand.
    + pose proof Ecand as Ein. rewrite q_first_spec in Ein by done.
      apply find_split in Ein as (l1 & l2 & Hl & _).
      assert (Hin : cand ∈ q_elems rq) by (rewrite Hl; set_solver).
      apply Hqel in Hin as (_ & _ & <- & <-).
      destruct (take_candidate_spec clock eligible p (wrap_cursor owners cursor) rq cand c ps1 ps0 k)
        as (c' & ps' & -> & Htk); done.
    + apply (owner_post_cons _ _ _ _ _ _ ps1); [|done|done|by apply IH; try done; lia].
      intros e (He & Hp & _ & Hsel) Hcl Ho'. rewrite q_first_spec in Ecand by done.
      assert (Hin : e ∈ q_elems rq) by (apply Hqel; done).
      pose proof (find_none _ _ _ Ecand Hin). by rewrite Hsel in *.
  - rewrite (rot_rest_delete _ _ o) by done.
    destruct (pool_ok_drop_owner c p ps1 cl o (wrap_cursor owners cursor) Hc H1 Erq) as (H2 & Hle2 & Hao2);
      [by rewrite Hao1|]. rewrite Hao1 in H2, Hle2, Hao2.
    apply (owner_post_cons _ _ _ _ _ _ (drop_owner cl o (delete (wrap_cursor owners cursor) owners) ps1));
      [|done|done|].
    + intros e (He & Hp & _) Hcl. by apply (Hlive (qe_ID e) e).
    + apply IH; try done; [by eapply queues_le_trans|].
      rewrite (length_delete owners (wrap_cursor owners cursor)) by eauto. lia.
Qed.

Definition reset_cursor (ps : poolState) : poolState :=
  if (length (ps_activeClasses ps) <=? ps_classCursor ps)%nat then ps_set_classCursor 0 ps else ps.

Definition refill_class (class : PriorityClass) (ps : poolState) : poolState :=
  let quantum := zget class (ps_classQuantums ps) in
  let quantum := if quantum <=? 0 then 1 else quantum in
  if zget class (ps_classDeficits ps) <=? 0
  then ps_set_classDeficits (<[class := quantum]> (ps_classDeficits ps)) ps else ps.

(** The class without owners leaves the rotation. *)
Definition drop_class (class : PriorityClass) (ps : poolState) : poolState :=
  ps_set_activeClasses (delete (ps_classCursor ps) (ps_activeClasses ps))
    (ps_set_classDeficits (<[class := 0]> (ps_classDeficits ps)) ps).

(** The cursors after the owners of a class were passed over. *)
Definition next_class (class : PriorityClass) (cursor : nat) (ps : poolState) : poolState :=
  ps_set_classCursor (S (ps_classCursor ps))
    (ps_set_classDeficits (<[class := 0]> (ps_classDeficits ps))
      (ps_set_ownerCursor (<[class := cursor]> (ps_ownerCursor ps)) ps)).

(** One round of the class loop. *)
Lemma class_loop_S clock eligible fuel k c ps class :
  ps_activeClasses ps !! wrap_cursor (ps_activeClasses ps) (ps_classCursor ps) = Some class ->
  class_loop clock eligible (S fuel) k c ps =
  let ps := refill_class class (reset_cursor ps) in
  match active_owners ps class with
  | [] => class_loop clock eligible fuel k c (drop_class class ps)
  | _ :: _ =>
      match owner_loop clock eligible (length (active_owners ps class)) k c ps class
              (active_owners ps class) (default 0%nat (ps_ownerCursor ps !! class)) with
      | OwnerNone ps k cursor => class_loop clock eligible fuel k c (next_class class cursor ps)
      | r => r
      end
  end.
Proof.
  unfold wrap_cursor. intros Hc. cbn [class_loop].
  destruct (ps_activeClasses ps) as [|c0 cs] eqn:E; [done|]. rewrite <- E in *.
  fold (reset_cursor ps).
  assert (Hc' : ps_activeClasses (reset_cursor ps) !! ps_classCursor (reset_cursor ps) = Some class).
  { unfold reset_cursor. by destruct (_ <=? _)%nat eqn:El; simpl. }
  rewrite Hc'. reflexivity.
Qed.

Lemma class_start_spec T p ps ps0 class :
  pool_ok T p [] ps -> queues_le ps ps0 ->
  ps_activeClasses ps !! wrap_cursor (ps_activeClasses ps) (ps_classCursor ps) = Some class ->
  let ps' := refill_class class (reset_cursor ps) in
  pool_ok T p [] ps' /\ queues_le ps' ps0 /\ ps_activeClasses ps' = ps_activeClasses ps /\
  ps_classCursor ps' = wrap_cursor (ps_activeClasses ps) (ps_classCursor ps).
Proof.
  intros H Hle Hc. cbn zeta. split.
  - apply (pool_ok_ext _ _ _ ps _ H); unfold refill_class, reset_cursor; by repeat case_match.
  - unfold queues_le, refill_class, reset_cursor, wrap_cursor in *. by repeat case_match.
Qed.

Lemma pool_ok_drop_class T p ps class :
  pool_ok T p [] ps -> (forall id e, T !! id = Some e -> qe_pool e = p -> qe_class e <> class) ->
  ps_activeClasses ps !! ps_classCursor ps = Some class ->
  pool_ok T p [] (drop_class class ps).
Proof.
  intros H Hno Hcur. split; unfold drop_class, active_owners; simpl; try apply H.
  - intros id e He Hp. destruct (po_active _ _ _ _ H id e He Hp) as [Hac Hao]. split; [|done].
    apply list_elem_of_lookup in Hac as [i Hi]. rewrite delete_take_drop, elem_of_app.
    destruct (Nat.lt_trichotomy i (ps_classCursor ps)) as [Hlt|[->|Hgt]].
    + left. apply list_elem_of_lookup. exists i. by rewrite lookup_take_lt.
    + rewrite Hcur in Hi. injection Hi as Hi. by destruct (Hno id e He Hp).
    + right. apply list_elem_of_lookup. exists (i - S (ps_classCursor ps))%nat. rewrite lookup_drop.
      replace (S (ps_classCursor ps) + (i - S (ps_classCursor ps)))%nat with i by lia. done.
  - destruct (po_active_classes _ _ _ _ H) as [Hnd Hsub]. split.
    + eapply sublist_NoDup; [exact Hnd|apply sublist_delete].
    + intros cl Hcl. apply Hsub. by apply list_subseteq_delete in Hcl.
Qed.

Definition class_post clock eligible p c ps0 (visited : list PriorityClass) (r : owner_result) : Prop :=
  match r with
  | OwnerSelected e c' ps' => taken clock eligible p c ps0 e c' ps'
  | OwnerNone ps' _ _ =>
      pool_ok (c_taskByID c) p [] ps' /\ queues_le ps' ps0 /\
      forall e, ready clock eligible p c e -> qe_class e ∉ visited
  | OwnerPanic => False
  end.

Lemma class_post_cons clock eligible p c ps0 cl visited r :
  (forall e, ready clock eligible p c e -> qe_class e <> cl) ->
  class_post clock eligible p c ps0 visited r -> class_post clock eligible p c ps0 (cl :: visited) r.
Proof.
  intros Hno. destruct r as [e c' ps''|ps'' k cur|]; simpl; [done| |done].
  intros (? & ? & Hv). split_and_all; try done.
  intros e He [Heq|Hin]%elem_of_cons; [by apply (Hno e)|by apply (Hv e)].
Qed.

Lemma class_loop_spec clock eligible p c ps0 fuel : forall k ps,
  owners_ok c -> pool_ok (c_taskByID c) p [] ps -> queues_le ps ps0 ->
  (fuel <= length (ps_activeClasses ps))%nat ->
  class_post clock eligible p c ps0 (take fuel (rot (ps_activeClasses ps) (ps_classCursor ps)))
    (class_loop clock eligible fuel k c ps).
Proof.
  induction fuel as [|fuel IH]; intros k ps Hc H Hle Hfuel.
  { simpl. split_and_all; try done. intros. apply not_elem_of_nil. }
  destruct (wrap_cursor_lookup (ps_activeClasses ps) (ps_classCursor ps)) as [cl Hcl];
    [by intros E; rewrite E in Hfuel; simpl in Hfuel; lia|].
  rewrite (class_loop_S _ _ _ _ _ _ cl Hcl). cbn zeta.
  destruct (class_start_spec _ _ _ _ cl H Hle Hcl) as (H1 & Hle1 & Hac1 & Hcc1).
  set (ps1 := refill_class cl (reset_cursor ps)) in *.
  destruct (active_owners ps1 cl) as [|o os] eqn:Eown.
  - rewrite (rot_rest_delete _ _ cl) by done.
    assert (Hno : forall id e, c_taskByID c !! id = Some e -> qe_pool e = p -> qe_class e <> cl).
    { intros id e He Hp Heq. destruct (po_active _ _ _ _ H1 _ _ He Hp) as [_ Hao].
      rewrite Heq, Eown in Hao. by apply not_elem_of_nil in Hao. }
    apply class_post_cons; [intros e (He & Hp & _); by apply (Hno (qe_ID e))|].
    rewrite <- Hcc1, <- Hac1. apply (IH k (drop_class cl ps1)); [done| |done|].
    + apply pool_ok_drop_class; [done|done|]. by rewrite Hac1, Hcc1.
    + assert (Hl : ps_activeClasses ps1 !! ps_classCursor ps1 = Some cl) by by rewrite Hac1, Hcc1.
      simpl. rewrite length_delete, Hac1 by eauto. lia.
  - rewrite <- Eown. rewrite (rot_rest_next _ _ cl) by done.
    pose proof (owner_loop_spec clock eligible p c ps0 cl (length (active_owners ps1 cl)) k ps1 _
      (default 0%nat (ps_ownerCursor ps1 !! cl)) Hc H1 Hle1 eq_refl ltac:(lia)) as Hown.
    destruct (owner_loop _ _ _ _ _ _ _ _ _) as [e c' ps'|ps' k' cur|]; [done| |done].
    destruct Hown as (H2 & Hle2 & Hac2 & Hcc2 & Hv). apply class_post_cons.
    + intros e He Hecl. destruct (po_active _ _ _ _ H1 _ _ (proj1 He) (proj1 (proj2 He))) as [_ Hao].
      apply (Hv e He Hecl). rewrite take_ge by (by rewrite rot_length).
      apply rot_elem. by rewrite <- Hecl.
    + rewrite <- Hcc1, <- Hac1, <- Hac2, <- Hcc2. apply (IH k' (next_class cl cur ps')); [done| |done|].
      * by apply (pool_ok_ext _ _ _ ps' _ H2).
      * simpl. rewrite Hac2, Hac1. lia.
Qed.

Lemma SelectCandidateEligible_spec clock eligible pool c :
  controller_ok c ->
  match SelectCandidateEligible clock eligible pool c with
  | Selected e c' => exists ps c1 ps', c_pools c !! pool = Some ps /\
      taken clock eligible pool c ps e c1 ps' /\
      c' = c_set_pools (<[pool := ps']> (c_pools c1)) c1 /\ controller_ok c'
  | NoEligible c' => controller_ok c' /\ c_taskByID c' = c_taskByID c /\
      forall e, ~ ready clock eligible pool c e
  | SelectPanic => False
  end.
Proof.
  intros [Hc Hps]. unfold SelectCandidateEligible. destruct (c_pools c !! pool) as [ps|] eqn:Hp.
  2: { split_and_all; [done|done|]. intros e (He & Hpe & _).
       destruct (ow_ids c Hc _ _ He) as (_ & [? Hx] & _). congruence. }
  pose proof (Hps _ _ Hp) as H.
  pose proof (class_loop_spec clock eligible pool c ps (length (ps_activeClasses ps)) 0 ps Hc H
    (fun _ _ _ Hx => Hx) ltac:(lia)) as Hloop.
  destruct (class_loop _ _ _ _ _ _) as [e c1 ps'|ps' k cur|]; [| |done].
  - exists ps, c1, ps'. split_and_all; try done. simpl in Hloop.
    apply controller_put; [apply Hloop|rewrite (tk_pools _ _ _ _ _ _ _ _ Hloop); eauto|apply Hloop|].
    rewrite (tk_pools _ _ _ _ _ _ _ _ Hloop). intros p' ps'' Hne Hp'.
    rewrite (tk_index _ _ _ _ _ _ _ _ Hloop). destruct (tk_waiting _ _ _ _ _ _ _ _ Hloop) as [He Hpe].
    apply pool_ok_delete_ne; [done|congruence|by apply Hps].
  - destruct Hloop as (H' & _ & Hv). split; [|split; [done|]].
    + apply controller_put; [done|eauto|done|]. intros; by apply Hps.
    + intros e He. apply (Hv e He). rewrite take_ge by (by rewrite rot_length).
      apply rot_elem. by apply (po_active _ _ _ _ H (qe_ID e)); apply He.
Qed.

(** ** The remaining operations *)

Definition per_class {V} : gmap PriorityClass (gmap OwnerID V) :=
  list_to_map (map (fun class => (class, ∅)) priority_classes).

Lemma per_class_get2 {V} cl o : get2 cl o (per_class (V := V)) = None.
Proof.
  unfold get2. destruct (per_class !! cl) as [x|] eqn:Hx; simpl; [|done].
  apply elem_of_list_to_map_2 in Hx. apply list_elem_of_fmap in Hx.
  by destruct Hx as (? & [= -> ->] & _).
Qed.

Lemma per_class_is_Some {V} cl : cl ∈ priority_classes -> is_Some (per_class (V := V) !! cl).
Proof.
  intros Hc. unfold priority_classes in Hc. set_unfold.
  destruct_or!; subst; vm_compute; eauto.
Qed.

Lemma pool_ok_new p cfg : pool_ok ∅ p [] (newPoolState cfg : poolState).
Proof.
  destruct d_new_spec as [Hok Hel]. constructor.
  - intros class Hc. split_and_all; by apply per_class_is_Some.
  - intros class owner q Hq. exfalso. simpl in Hq. change (get2 class owner per_class = Some q) in Hq.
    by rewrite per_class_get2 in Hq.
  - done.
  - done.
  - intros e. simpl. rewrite Hel. split; [by intros ?%not_elem_of_nil|]. by intros (? & _).
  - done.
  - done.
  - done.
  - split; [constructor|]. intros class Hc. by apply not_elem_of_nil in Hc.
  - constructor.
Qed.

Lemma NewController_ok cfgs : controller_ok (NewController cfgs : Controller).
Proof.
  split; [split; done|]. intros p ps Hp. simpl in Hp.
  apply lookup_fmap_Some in Hp as (cfg & <- & _). apply pool_ok_new.
Qed.

Lemma OnTaskTerminal_ok spec c : controller_ok c -> controller_ok (OnTaskTerminal spec c).
Proof.
  intros [Hc Hps].
  assert (H : c_taskByID (OnTaskTerminal spec c) = c_taskByID c /\
    c_pools (OnTaskTerminal spec c) = c_pools c /\
    (forall o, zget o (c_ownerWaitingCount (OnTaskTerminal spec c)) = zget o (c_ownerWaitingCount c)) /\
    (forall o, zget o (c_ownerWaitingBytes (OnTaskTerminal spec c)) = zget o (c_ownerWaitingBytes c))).
  { unfold OnTaskTerminal. repeat case_match; simpl; split_and_all; try done;
      intros; by rewrite zget_drop_zero. }
  destruct H as (Ht & Hp & Hcount & Hbytes). split.
  - split; rewrite ?Ht, ?Hp; try apply Hc; intros o; rewrite ?Hcount, ?Hbytes; apply Hc.
  - intros p ps. rewrite Hp, Ht. apply Hps.
Qed.

Lemma SetPoolConfig_ok pool cfg c : controller_ok c -> controller_ok (SetPoolConfig pool cfg c).1.
Proof.
  intros [Hc Hps]. unfold SetPoolConfig. destruct (c_pools c !! pool) as [ps|] eqn:Hp; [|done].
  apply controller_put; [done|eauto| |intros; by apply Hps].
  by apply (pool_ok_ext _ _ _ ps); [apply Hps|..].
Qed.

Lemma refresh_classes_ok T p owner weight classes ps :
  pool_ok T p [] ps -> pool_ok T p [] (foldr (refresh_class owner weight) ps classes).
Proof.
  intros H. induction classes as [|cl classes IH]; simpl; [done|].
  unfold refresh_class at 1. case_match; [|done]. case_match; [done|].
  apply (pool_ok_ext _ _ _ _ _ IH); simpl; try done; intros class; by rewrite set2_outer.
Qed.

Lemma SetOwnerLimits_ok owner limits c : controller_ok c -> controller_ok (SetOwnerLimits owner limits c).
Proof.
  intros [Hc Hps]. split.
  - apply (owners_ok_ext c _ Hc); try done. intros p [ps Hp]. simpl. rewrite lookup_fmap, Hp. eauto.
  - intros p ps Hp. simpl in Hp. apply lookup_fmap_Some in Hp as (ps0 & <- & Hp).
    apply refresh_classes_ok. by apply Hps.
Qed.

End Invariant.
