(* ===== verification/AdmissionTheorems.v ===== *)
(** * What the admission controller guarantees

    The properties of [internal/admission/controller.go]: reachable controllers
    are well formed and no operation panics on them; the selection is sound,
    work conserving and keeps the order of the entries that share an ordering
    key; the limits [CanAdmit] checks bound the queues; cancellation undoes
    [Enqueue]; expiry and the earliest deadline are exact. *)

From S2P Require Import Prelude.
From S2P Require Import Execution.
From S2P Require Import Tasks.
From S2P Require Import GoHeap.
From S2P Require Import AdmissionTypes.
From S2P Require Import DeadlineIndex.
From S2P Require Import ReadyQueue.
From S2P Require Import Admission.
From S2P Require Import AdmissionInvariant.

Section Theorems.
Context {Q D : Type} {FO : FifoOps Q} {DO : DeadlineOps D}.
#[local] Abbreviation poolState := (poolState Q D).
#[local] Abbreviation Controller := (Controller Q D).
Implicit Types (c : Controller) (ps : poolState).

(** The operations of a controller, and what the coordinator promises of their
    arguments: the entry it enqueues is new and has one of the four classes. *)
Inductive ctl_op :=
  | OpEnqueue (e : QueueEntry)
  | OpSelect (clock : nat -> time) (eligible : option (WorkSpec -> bool)) (pool : PoolID)
  | OpTerminal (spec : WorkSpec)
  | OpRemoveTask (id : TaskID)
  | OpExpire (pool : PoolID) (now : time)
  | OpPoolConfig (pool : PoolID) (cfg : PoolConfig)
  | OpOwnerLimits (owner : OwnerID) (limits : OwnerLimits).

(** [None] is a panic. *)
Definition ctl_step (op : ctl_op) (c : Controller) : option Controller :=
  match op with
  | OpEnqueue e => Enqueue (Some e) c
  | OpSelect clock eligible pool =>
      match SelectCandidateEligible clock eligible pool c with
      | Selected _ c' | NoEligible c' => Some c'
      | SelectPanic => None
      end
  | OpTerminal spec => Some (OnTaskTerminal spec c)
  | OpRemoveTask id => Some (RemoveTask id c).2
  | OpExpire pool now => Some (Admission.PopExpired pool now c).2
  | OpPoolConfig pool cfg => Some (SetPoolConfig pool cfg c).1
  | OpOwnerLimits owner limits => Some (SetOwnerLimits owner limits c)
  end.

Definition admissible (op : ctl_op) (c : Controller) : Prop :=
  match op with OpEnqueue e => fresh_entry e c | _ => True end.

Inductive reachable (cfgs : gmap PoolID PoolConfig) : Controller -> Prop :=
  | reach_new : reachable cfgs (NewController cfgs)
  | reach_step c op c' :
      reachable cfgs c -> admissible op c -> ctl_step op c = Some c' -> reachable cfgs c'.

Context {FL : FifoLaws Q} {DL : DeadlineLaws D}.

Lemma ctl_step_ok op c :
  controller_ok c -> admissible op c -> exists c', ctl_step op c = Some c' /\ controller_ok c'.
Proof.
  intros Hc Ha. destruct op; cbn [ctl_step admissible] in *.
  - destruct (c_pools c !! qe_pool e) as [ps|] eqn:Hp.
    + destruct (Enqueue_spec e c Hc Ha (mk_is_Some _ _ Hp)) as (c' & ? & ? & _); eauto.
    + unfold Enqueue. rewrite Hp. eauto.
  - pose proof (SelectCandidateEligible_spec clock eligible pool c Hc) as H.
    destruct (SelectCandidateEligible _ _ _ _) as [e c'|c'|]; [|naive_solver|done].
    destruct H as (ps & c1 & ps' & _ & _ & _ & ?). eauto.
  - eexists. split; [done|]. by apply OnTaskTerminal_ok.
  - eexists. split; [done|]. destruct (c_taskByID c !! id) as [e|] eqn:He.
    + by destruct (RemoveTask_spec id e c Hc He) as (c' & -> & ? & _).
    + unfold RemoveTask. by rewrite He.
  - eexists. split; [done|]. pose proof (PopExpired_spec pool now c Hc) as H.
    destruct (Admission.PopExpired pool now c). apply H.
  - eexists. split; [done|]. by apply SetPoolConfig_ok.
  - eexists. split; [done|]. by apply SetOwnerLimits_ok.
Qed.

Lemma reachable_ok cfgs c : reachable cfgs c -> controller_ok c.
Proof.
  induction 1 as [|c op c' _ IH Ha Hs]; [apply NewController_ok|].
  destruct (ctl_step_ok op c IH Ha) as (c1 & Hs1 & ?). congruence.
Qed.

(** The counters of a pool, as sums over the waiting tasks. *)
Lemma PoolStats_sums p c :
  controller_ok c -> is_Some (c_pools c !! p) ->
  PoolStats p c = (count_of (in_pool p) (c_taskByID c), bytes_of (in_pool p) (c_taskByID c)).
Proof.
  intros [_ Hps] [ps Hp]. unfold PoolStats. rewrite Hp. specialize (Hps _ _ Hp).
  by rewrite (po_waiting _ _ _ _ Hps), (po_bytes _ _ _ _ Hps).
Qed.

Lemma Enqueue_pool e c c' p :
  Enqueue (Some e) c = Some c' -> is_Some (c_pools c !! p) -> is_Some (c_pools c' !! p).
Proof.
  intros He Hp. unfold Enqueue in He. destruct (c_pools c !! qe_pool e) as [ps|]; [|congruence].
  destruct (ps_queues ps !! qe_class e); [|done]. injection He as <-. simpl.
  destruct (decide (p = qe_pool e)) as [->|Hne]; [rewrite lookup_insert_eq; eauto|].
  by rewrite lookup_insert_ne.
Qed.

(** In every reachable controller the queues, the deadline indexes, the task
    index and all counters agree (the counters of a pool and of an owner count
    the waiting tasks and their bytes), and every admissible operation succeeds
    without a panic. *)
Theorem reachable_well_formed (cfgs : gmap PoolID PoolConfig) (c : Controller) (op : ctl_op) :
  reachable cfgs c -> admissible op c ->
  controller_ok c /\
  (forall p, is_Some (c_pools c !! p) ->
     PoolStats p c = (count_of (in_pool p) (c_taskByID c), bytes_of (in_pool p) (c_taskByID c))) /\
  exists c', ctl_step op c = Some c' /\ controller_ok c'.
Proof.
  intros Hr Ha. pose proof (reachable_ok _ _ Hr) as Hc. split; [done|]. split.
  - intros p. by apply PoolStats_sums.
  - by apply ctl_step_ok.
Qed.

(** A selected entry was waiting in the pool, its owner is below its limit of
    active tasks, it is the first entry of its owner's queue that is not
    expired, not locked and eligible; it leaves the index, its owner's active
    count grows by one and its ordering key is locked by it. *)
Theorem SelectCandidateEligible_sound (clock : nat -> time) (eligible : option (WorkSpec -> bool))
    (pool : PoolID) (c c' : Controller) (e : QueueEntry) :
  controller_ok c -> SelectCandidateEligible clock eligible pool c = Selected e c' ->
  controller_ok c' /\ c_taskByID c !! qe_ID e = Some e /\ qe_pool e = pool /\
  under_limit c (qe_owner e) /\
  (exists k ps rq l1 l2, c_pools c !! pool = Some ps /\
     get2 (qe_class e) (qe_owner e) (ps_queues ps) = Some rq /\ q_elems rq = l1 ++ e :: l2 /\
     selectable c eligible (clock k) e = true /\
     forall x, x ∈ l1 -> selectable c eligible (clock k) x = false) /\
  c_taskByID c' = delete (qe_ID e) (c_taskByID c) /\
  (forall o, zget o (c_ownerActiveCount c') =
     zget o (c_ownerActiveCount c) + ind (of_owner o e)) /\
  (ws_OrderingKey (qe_Spec e) <> "" ->
     c_orderingLocks c !! ws_OrderingKey (qe_Spec e) = None /\
     c_orderingLocks c' !! ws_OrderingKey (qe_Spec e) = Some (qe_ID e)).
Proof.
  intros Hc Hs. pose proof (SelectCandidateEligible_spec clock eligible pool c Hc) as H.
  rewrite Hs in H. destruct H as (ps & c1 & ps' & Hp & Htk & -> & Hok).
  destruct Htk as [[He Hpe] Hlim (k & rq & l1 & l2 & Hrq & Hel & Hsel & Hbef) _ Hidx _ _ Hact Hlock _].
  split_and_all; try done; [by exists k, ps, rq, l1, l2|]. intros Hkey. split.
  - unfold selectable in Hsel. case_match; [done|]. case_match eqn:Hl; [done|].
    apply andb_false_iff in Hl as [Hl|Hl]; bool_to_prop; [done|].
    by destruct (c_orderingLocks c !! _); [destruct Hl|].
  - simpl. rewrite Hlock. cbn zeta. rewrite decide_True by done. apply lookup_insert_eq.
Qed.

(** The selection is work conserving: when a task waits in the pool whose
    owner is below its limit of active tasks and which no deadline, ordering key
    or predicate of the caller holds back, then some task is selected. *)
Theorem SelectCandidateEligible_complete (clock : nat -> time)
    (eligible : option (WorkSpec -> bool)) (pool : PoolID) (c : Controller) (e : QueueEntry) :
  controller_ok c -> c_taskByID c !! qe_ID e = Some e -> qe_pool e = pool ->
  under_limit c (qe_owner e) -> (forall k, selectable c eligible (clock k) e = true) ->
  exists e' c', SelectCandidateEligible clock eligible pool c = Selected e' c'.
Proof.
  intros Hc He Hp Hlim Hsel. pose proof (SelectCandidateEligible_spec clock eligible pool c Hc) as H.
  destruct (SelectCandidateEligible clock eligible pool c) as [e' c'|c'|]; [eauto| |done].
  destruct H as (_ & _ & H). by destruct (H e).
Qed.

(** Entries of one owner that share an ordering key leave its queue in the
    order they came, but for expired ones: with no predicate of the caller, an
    entry selected before an earlier entry with the same key only passes it when
    the deadline of the earlier one is over. *)
Theorem SelectCandidate_key_order (clock : nat -> time) (pool : PoolID) (c c' : Controller)
    (ps : poolState) (rq : Q) (l1 l2 l3 : list QueueEntry) (x e : QueueEntry) :
  controller_ok c -> SelectCandidate clock pool c = Selected e c' ->
  c_pools c !! pool = Some ps -> get2 (qe_class e) (qe_owner e) (ps_queues ps) = Some rq ->
  q_elems rq = l1 ++ x :: l2 ++ e :: l3 ->
  ws_OrderingKey (qe_Spec x) = ws_OrderingKey (qe_Spec e) ->
  qe_Deadline x <> 0 /\ exists k, qe_Deadline x < clock k.
Proof.
  intros Hc Hs Hp Hrq Hl Hkey.
  pose proof (SelectCandidateEligible_spec clock None pool c Hc) as H.
  unfold SelectCandidate in Hs. rewrite Hs in H. destruct H as (ps' & c1 & ps2 & Hp' & Htk & _ & _).
  rewrite Hp in Hp'. injection Hp' as <-.
  destruct (tk_first _ _ _ _ _ _ _ _ Htk) as (k & rq' & m1 & m2 & Hrq' & Hel & Hsel & Hbef).
  rewrite Hrq in Hrq'. injection Hrq' as <-.
  destruct Hc as [_ Hps]. destruct (po_queue _ _ _ _ (Hps _ _ Hp) _ _ _ Hrq) as [Hok _].
  assert (Hx : x ∈ m1).
  { pose proof (q_nodup rq Hok) as Hnd. rewrite Hl in Hel, Hnd.
    apply (before_unique qe_ID (l1 ++ x :: l2) l3 m1 m2 e); [by rewrite <- app_assoc| |set_solver].
    by rewrite <- app_assoc. }
  specialize (Hbef x Hx). unfold selectable in Hsel, Hbef. rewrite Hkey in Hbef.
  destruct (negb (is_zero (ws_QueueDeadline (qe_Spec x))) && _) eqn:Hd.
  - unfold is_zero, after in Hd. bool_to_prop. split; [done|]. by exists k.
  - repeat case_match; congruence.
Qed.

(** ** Limits *)

(** The sums [CanAdmit] compares with the limits. *)
Definition limits_hold (spec : WorkSpec) (n : Z) (c : Controller) (ps : poolState) : Prop :=
  let T := c_taskByID c in
  let cfg := ps_config ps in
  let l := getOwnerLimits c (ws_QuotaOwner spec) in
  (pc_BacklogLimit cfg <= 0 \/ count_of (in_pool (ws_Pool spec)) T < pc_BacklogLimit cfg) /\
  (pc_PayloadBudget cfg <= 0 \/
     wrap64 (bytes_of (in_pool (ws_Pool spec)) T + n) <= pc_PayloadBudget cfg) /\
  (ol_MaxWaiting l <= 0 \/ count_of (of_owner (ws_QuotaOwner spec)) T < ol_MaxWaiting l) /\
  (ol_MaxPayloadByte l <= 0 \/
     wrap64 (bytes_of (of_owner (ws_QuotaOwner spec)) T + n) <= ol_MaxPayloadByte l).

Lemma CanAdmit_None spec payloadBytes c :
  controller_ok c ->
  CanAdmit spec payloadBytes c = None <->
  exists ps, c_pools c !! ws_Pool spec = Some ps /\ limits_hold spec payloadBytes c ps.
Proof.
  intros [Hc Hps]. unfold CanAdmit, limits_hold.
  destruct (c_pools c !! ws_Pool spec) as [ps|] eqn:Hp; [|split; [done|by intros (? & ? & _)]].
  pose proof (Hps _ _ Hp) as H.
  rewrite (po_waiting _ _ _ _ H), (po_bytes _ _ _ _ H), (ow_count c Hc), (ow_bytes c Hc).
  assert (Hle : forall a b, (0 <? a) && (a <=? b) = false <-> a <= 0 \/ b < a).
  { intros. by rewrite andb_false_iff, Z.ltb_ge, Z.leb_gt. }
  assert (Hlt : forall a b, (0 <? a) && (a <? b) = false <-> a <= 0 \/ b <= a).
  { intros. by rewrite andb_false_iff, !Z.ltb_ge. }
  split.
  - intros Hn. exists ps. split; [done|]. repeat (case_match; [done|]).
    rewrite <- !Hle, <- !Hlt. done.
  - intros (ps' & [= <-] & Hl). rewrite <- !Hle, <- !Hlt in Hl. by destruct Hl as (-> & -> & -> & ->).
Qed.

(** [CanAdmit] accepts exactly when the pool exists and the tasks waiting in
    it and those of the owner leave room for one more task and its payload. *)
Theorem CanAdmit_iff (spec : WorkSpec) (payloadBytes : Z) (c : Controller) :
  controller_ok c ->
  CanAdmit spec payloadBytes c = None <->
  exists ps, c_pools c !! ws_Pool spec = Some ps /\ limits_hold spec payloadBytes c ps.
Proof. apply CanAdmit_None. Qed.

(** An entry enqueued after [CanAdmit] accepted it leaves the pool within its
    backlog limit and its payload budget, and the owner within its quotas. *)
Theorem admitted_within_limits (e : QueueEntry) (c c' : Controller) (ps : poolState) :
  controller_ok c -> fresh_entry e c -> CanAdmit (qe_Spec e) (qe_PayloadSize e) c = None ->
  Enqueue (Some e) c = Some c' -> c_pools c !! qe_pool e = Some ps ->
  let cfg := ps_config ps in
  let l := getOwnerLimits c (qe_owner e) in
  (0 < pc_BacklogLimit cfg -> (PoolStats (qe_pool e) c').1 <= pc_BacklogLimit cfg) /\
  (0 < pc_PayloadBudget cfg -> (PoolStats (qe_pool e) c').2 <= pc_PayloadBudget cfg) /\
  (0 < ol_MaxWaiting l -> zget (qe_owner e) (c_ownerWaitingCount c') <= ol_MaxWaiting l) /\
  (0 < ol_MaxPayloadByte l -> zget (qe_owner e) (c_ownerWaitingBytes c') <= ol_MaxPayloadByte l).
Proof.
  intros Hc Hf Hadm Henq Hp cfg l.
  destruct (Enqueue_spec e c Hc Hf (mk_is_Some _ _ Hp)) as (c1 & Hc1 & Hc' & HT).
  rewrite Henq in Hc1. injection Hc1 as <-.
  apply CanAdmit_None in Hadm as (ps' & Hp' & H1 & H2 & H3 & H4); [|done].
  unfold qe_pool in Hp. rewrite Hp in Hp'. injection Hp' as <-.
  rewrite (PoolStats_sums (qe_pool e) _ Hc' (Enqueue_pool _ _ _ _ Henq (mk_is_Some _ _ Hp))).
  rewrite (ow_count c' (proj1 Hc')), (ow_bytes c' (proj1 Hc')), HT.
  destruct Hf as (Hnone & _). rewrite !count_of_insert, !bytes_of_insert by done.
  rewrite in_pool_self, of_owner_self. simpl.
  unfold cfg, l, qe_pool, qe_owner in *. split_and_all; intros; lia.
Qed.

(** ** Round trips, expiry, deadlines, weights *)

(** Cancelling an entry that was just enqueued returns it and restores the
    controller's view of the waiting tasks: the index and all the counters. *)
Theorem Enqueue_RemoveTask (e : QueueEntry) (c : Controller) :
  controller_ok c -> fresh_entry e c -> is_Some (c_pools c !! qe_pool e) ->
  exists c1 c2, Enqueue (Some e) c = Some c1 /\ RemoveTask (qe_ID e) c1 = (Some e, c2) /\
    controller_ok c2 /\ c_taskByID c2 = c_taskByID c /\
    PoolStats (qe_pool e) c2 = PoolStats (qe_pool e) c /\
    forall o, zget o (c_ownerWaitingCount c2) = zget o (c_ownerWaitingCount c) /\
      zget o (c_ownerWaitingBytes c2) = zget o (c_ownerWaitingBytes c).
Proof.
  intros Hc Hf Hp. destruct (Enqueue_spec e c Hc Hf Hp) as (c1 & Henq & Hc1 & HT1).
  assert (He : c_taskByID c1 !! qe_ID e = Some e) by (rewrite HT1; apply lookup_insert_eq).
  destruct (RemoveTask_spec _ _ _ Hc1 He) as (c2 & Hrem & Hc2 & HT2).
  assert (HT : c_taskByID c2 = c_taskByID c).
  { rewrite HT2, HT1. apply delete_insert_id. by destruct Hf. }
  assert (Hp2 : is_Some (c_pools c2 !! qe_pool e)).
  { pose proof (Enqueue_pool _ _ _ _ Henq Hp) as [ps Hps]. unfold RemoveTask in Hrem.
    rewrite He, Hps in Hrem. injection Hrem as <-. simpl. rewrite lookup_insert_eq. eauto. }
  exists c1, c2. split_and_all; try done.
  - by rewrite !PoolStats_sums, HT.
  - intros o. by rewrite (ow_count _ (proj1 Hc)), (ow_count _ (proj1 Hc2)),
      (ow_bytes _ (proj1 Hc)), (ow_bytes _ (proj1 Hc2)), HT.
Qed.

(** [PopExpired] takes out of the controller exactly the waiting tasks of the
    pool whose deadline has passed; every other task keeps waiting. *)
Theorem PopExpired_controller (pool : PoolID) (now : time) (c : Controller) :
  controller_ok c ->
  let '(expired, c') := Admission.PopExpired pool now c in
  controller_ok c' /\
  (forall e, e ∈ expired <-> c_taskByID c !! qe_ID e = Some e /\ qe_pool e = pool /\
     qe_Deadline e <> 0 /\ qe_Deadline e <= now) /\
  forall id e, c_taskByID c' !! id = Some e <-> c_taskByID c !! id = Some e /\ e ∉ expired.
Proof.
  intros Hc. pose proof (PopExpired_spec pool now c Hc) as H.
  destruct (Admission.PopExpired pool now c) as [expired c']. destruct H as (Hc' & Hexp & HT).
  split_and_all; try done. intros id e. rewrite HT. case_decide as Hin.
  - split; [done|]. intros [He Hn]. exfalso. apply list_elem_of_fmap in Hin as (x & -> & Hx).
    pose proof (proj1 (proj1 (Hexp x) Hx)) as Hx'. rewrite He in Hx'. injection Hx' as ->. done.
  - split; [|tauto]. intros He. split; [done|]. intros Hx. apply Hin.
    destruct (ow_ids c (proj1 Hc) _ _ He) as [<- _]. by apply list_elem_of_fmap_2.
Qed.

(** The loop of [EarliestDeadline]. *)
Definition deadline_of (ps : poolState) (t : time) : Prop :=
  exists e, e ∈ d_elems (ps_deadlineIndex ps) /\ qe_Deadline e = t.

Lemma earliest_of_spec order acc :
  (forall ps, ps ∈ order -> d_ok (ps_deadlineIndex ps)) ->
  let seen t := acc = Some t \/ exists ps, ps ∈ order /\ deadline_of ps t in
  match earliest_of order acc with
  | None => forall t, ~ seen t
  | Some t => seen t /\ forall t', seen t' -> t <= t'
  end.
Proof.
  revert acc. induction order as [|ps order IH]; intros acc Hok; simpl.
  { destruct acc as [t|].
    2: { intros t [Ht|(ps & Hps & _)]; [done|by apply not_elem_of_nil in Hps]. }
    split; [auto|]. intros t' [[= ->]|(? & ?%not_elem_of_nil & _)]; [lia|done]. }
  pose proof (d_peek_spec _ (Hok ps ltac:(left))) as Hpeek.
  set (acc' := match d_peek _ with Some _ => _ | None => _ end).
  specialize (IH acc' ltac:(intros; apply Hok; by right)). simpl in IH.
  assert (Hfrom : forall t, acc' = Some t -> acc = Some t \/ deadline_of ps t).
  { unfold acc'. destruct (d_peek _) as [e|]; [|auto]. intros t.
    assert (deadline_of ps (qe_Deadline e)) by (exists e; split; [apply Hpeek|done]).
    repeat case_match; naive_solver. }
  assert (Hle : forall t, acc = Some t \/ deadline_of ps t -> exists t', acc' = Some t' /\ t' <= t).
  { intros t Ht. unfold acc'. destruct (d_peek _) as [e|].
    - destruct Hpeek as [He Hmin]. unfold before.
      assert (Hd : forall t, deadline_of ps t -> qe_Deadline e <= t).
      { intros t' (e' & He' & <-). by apply Hmin. }
      destruct acc as [t0|]; [|destruct Ht as [?|Ht]; [done|eauto]].
      destruct (Z.ltb_spec (qe_Deadline e) t0); eexists; (split; [done|]);
        destruct Ht as [[= ->]|Ht%Hd]; lia.
    - destruct Ht as [->|(e & He & _)]; [eexists; split; [done|lia]|].
      rewrite Hpeek in He. by apply not_elem_of_nil in He. }
  destruct (earliest_of order acc') as [t|].
  - destruct IH as [Hseen Hmin]. split.
    + destruct Hseen as [Ht|(ps' & ? & ?)]; [|right; exists ps'; split; [by right|done]].
      apply Hfrom in Ht as [?|?]; [by left|]. right. exists ps. split; [by left|done].
    + intros t' [Ht|(ps' & [->|Hin]%elem_of_cons & Ht)].
      * destruct (Hle t') as (t1 & H1 & ?); [auto|]. specialize (Hmin t1 (or_introl H1)). lia.
      * destruct (Hle t') as (t1 & H1 & ?); [auto|]. specialize (Hmin t1 (or_introl H1)). lia.
      * apply Hmin. right. eauto.
  - intros t [Ht|(ps' & [->|Hin]%elem_of_cons & Ht)].
    + destruct (Hle t) as (t1 & H1 & ?); [auto|]. apply (IH t1). by left.
    + destruct (Hle t) as (t1 & H1 & ?); [auto|]. apply (IH t1). by left.
    + apply (IH t). right. eauto.
Qed.

(** Whatever the order in which the pools are visited, [EarliestDeadline]
    reports the smallest queue deadline of all waiting tasks, and nothing exactly
    when no waiting task has one. *)
Theorem EarliestDeadline_minimal (order : list poolState) (c : Controller) :
  controller_ok c -> (forall ps, ps ∈ order <-> exists p, c_pools c !! p = Some ps) ->
  let waits t := exists id e, c_taskByID c !! id = Some e /\ qe_Deadline e = t /\ t <> 0 in
  match EarliestDeadline order with
  | None => forall t, ~ waits t
  | Some t => waits t /\ forall t', waits t' -> t <= t'
  end.
Proof.
  intros [Hc Hps] Horder waits.
  assert (Hw : forall t, waits t <-> exists ps, ps ∈ order /\ deadline_of ps t).
  { intros t. split.
    - intros (id & e & He & <- & Hz). destruct (ow_ids c Hc _ _ He) as (<- & [ps Hp] & _).
      exists ps. split; [apply Horder; eauto|]. exists e. split; [|done].
      apply (po_deadline _ _ _ _ (Hps _ _ Hp)). set_solver.
    - intros (ps & [p Hp]%Horder & e & He & <-).
      apply (po_deadline _ _ _ _ (Hps _ _ Hp)) in He as (He & _ & Hz & _). by exists (qe_ID e), e. }
  pose proof (earliest_of_spec order None) as H. unfold EarliestDeadline.
  assert (Hok : forall ps, ps ∈ order -> d_ok (ps_deadlineIndex ps)).
  { intros ps [p Hp]%Horder. apply (po_heap _ _ _ _ (Hps _ _ Hp)). }
  specialize (H Hok). simpl in H. destruct (earliest_of order None) as [t|].
  - destruct H as [[?|H] Hmin]; [done|]. rewrite Hw. split; [done|].
    intros t' Ht'%Hw. apply Hmin. by right.
  - intros t Ht%Hw. apply (H t). by right.
Qed.

End Theorems.

(** ** Concrete controllers *)

Abbreviation ctl := (Controller ReadyQueue DeadlineIndex).

(** One pool, one owner, two tasks with the same ordering key. *)
Definition sample0 : ctl := NewController {[ "pool" := DefaultPoolConfig ]}.
Definition sample_a : QueueEntry := mkEntry 1 (sample_spec "a" "o" PriorityNormal "k" 9) 0 3.
Definition sample_b : QueueEntry := mkEntry 2 (sample_spec "b" "o" PriorityNormal "k" 20) 0 4.
Definition sample1 : ctl := default sample0 (Enqueue (Some sample_a) sample0).
Definition sample2 : ctl := default sample1 (Enqueue (Some sample_b) sample1).

Definition selected_ctl (r : select_result (Controller ReadyQueue DeadlineIndex)) : ctl :=
  match r with Selected _ c | NoEligible c => c | SelectPanic => sample0 end.

Lemma sample0_fresh e : qe_class e ∈ priority_classes -> fresh_entry e sample0.
Proof. done. Qed.

Lemma sample1_index : c_taskByID sample1 = {[ "a" := sample_a ]}.
Proof. by vm_compute. Qed.

Lemma sample_ok (e : QueueEntry) (c : ctl) :
  controller_ok c -> fresh_entry e c -> is_Some (c_pools c !! qe_pool e) ->
  controller_ok (default c (Enqueue (Some e) c)).
Proof. intros Hc Hf Hp. by destruct (Enqueue_spec e c Hc Hf Hp) as (c' & -> & ? & _). Qed.

Lemma sample1_ok : controller_ok sample1.
Proof.
  apply sample_ok; [apply NewController_ok| |by vm_compute; eauto].
  apply sample0_fresh. vm_compute. set_solver.
Qed.

Lemma sample1_fresh : fresh_entry sample_b sample1.
Proof.
  unfold fresh_entry. rewrite sample1_index. split_and_all; [done|vm_compute; set_solver|].
  intros id x [<- <-]%lookup_singleton_Some. done.
Qed.

Lemma sample2_ok : controller_ok sample2.
Proof. apply sample_ok; [apply sample1_ok|apply sample1_fresh|by vm_compute; eauto]. Qed.

Lemma reachable_well_formed_witness :
  controller_ok sample1 /\
  (forall p, is_Some (c_pools sample1 !! p) -> PoolStats p sample1 =
     (count_of (in_pool p) (c_taskByID sample1), bytes_of (in_pool p) (c_taskByID sample1))) /\
  exists c', ctl_step (OpEnqueue sample_b) sample1 = Some c' /\ controller_ok c'.
Proof.
  apply (reachable_well_formed {[ "pool" := DefaultPoolConfig ]} sample1 (OpEnqueue sample_b)).
  - apply (reach_step _ sample0 (OpEnqueue sample_a)); [constructor| |by vm_compute].
    apply sample0_fresh. vm_compute. right. left.
  - exact sample1_fresh.
Defined.

Definition sample_next : ctl :=
  selected_ctl (SelectCandidateEligible (fun _ => 5) None "pool" sample2).

Lemma SelectCandidateEligible_sound_witness :
  controller_ok sample_next /\ c_taskByID sample2 !! "a" = Some sample_a.
Proof.
  pose proof (SelectCandidateEligible_sound (fun _ => 5) None "pool" sample2 sample_next sample_a
    sample2_ok ltac:(by vm_compute)) as H.
  exact (conj (proj1 H) (proj1 (proj2 H))).
Defined.

Lemma SelectCandidateEligible_complete_witness :
  exists e' c', SelectCandidateEligible (fun _ => 5) None "pool" sample2 = Selected e' c'.
Proof.
  apply (SelectCandidateEligible_complete (fun _ => 5) None "pool" sample2 sample_a sample2_ok).
  - by vm_compute.
  - by vm_compute.
  - right. by vm_compute.
  - intros k. by vm_compute.
Defined.

(** At time 15 the first task has expired and the second passes it. *)
Definition sample_pool2 := default (newPoolState DefaultPoolConfig) (c_pools sample2 !! "pool").
Definition sample_queue2 : ReadyQueue :=
  default NewReadyQueue (get2 PriorityNormal "o" (ps_queues sample_pool2)).
Definition sample_next15 : ctl := selected_ctl (SelectCandidate (fun _ => 15) "pool" sample2).

Lemma SelectCandidate_key_order_witness :
  qe_Deadline sample_a <> 0 /\ exists k : nat, qe_Deadline sample_a < (fun _ => 15) k.
Proof.
  exact (SelectCandidate_key_order (fun _ => 15) "pool" sample2 sample_next15 sample_pool2
    sample_queue2 [] [] [] sample_a sample_b sample2_ok ltac:(by vm_compute) ltac:(by vm_compute)
    ltac:(by vm_compute) ltac:(by vm_compute) eq_refl).
Defined.

Lemma CanAdmit_iff_witness :
  CanAdmit (qe_Spec sample_b) 4 sample1 = None <->
  exists ps, c_pools sample1 !! ws_Pool (qe_Spec sample_b) = Some ps /\
    limits_hold (qe_Spec sample_b) 4 sample1 ps.
Proof. exact (CanAdmit_iff (qe_Spec sample_b) 4 sample1 sample1_ok). Defined.

Lemma admitted_within_limits_witness :
  (PoolStats "pool" sample2).1 <= 500 /\ zget "o" (c_ownerWaitingCount sample2) <= 50.
Proof.
  destruct (admitted_within_limits sample_b sample1 sample2
    (default (newPoolState DefaultPoolConfig) (c_pools sample1 !! "pool"))
    sample1_ok sample1_fresh ltac:(by vm_compute) ltac:(by vm_compute) ltac:(by vm_compute))
    as (H1 & _ & H3 & _).
  split; [exact (H1 ltac:(by vm_compute))|exact (H3 ltac:(by vm_compute))].
Defined.

Lemma Enqueue_RemoveTask_witness :
  exists c1 c2, Enqueue (Some sample_b) sample1 = Some c1 /\ RemoveTask "b" c1 = (Some sample_b, c2) /\
    c_taskByID c2 = c_taskByID sample1.
Proof.
  destruct (Enqueue_RemoveTask sample_b sample1 sample1_ok sample1_fresh ltac:(by vm_compute; eauto))
    as (c1 & c2 & H1 & H2 & _ & H3 & _).
  exists c1, c2. exact (conj H1 (conj H2 H3)).
Defined.

Lemma PopExpired_controller_witness :
  let '(expired, c') := Admission.PopExpired "pool" 15 sample2 in
  controller_ok c' /\
  (forall e, e ∈ expired <-> c_taskByID sample2 !! qe_ID e = Some e /\ qe_pool e = "pool" /\
     qe_Deadline e <> 0 /\ qe_Deadline e <= 15) /\
  forall id e, c_taskByID c' !! id = Some e <-> c_taskByID sample2 !! id = Some e /\ e ∉ expired.
Proof. exact (PopExpired_controller "pool" 15 sample2 sample2_ok). Defined.

Lemma EarliestDeadline_minimal_witness :
  exists t, EarliestDeadline (map snd (map_to_list (c_pools sample2))) = Some t /\ t = 9 /\
    exists id e, c_taskByID sample2 !! id = Some e /\ qe_Deadline e = t /\ t <> 0.
Proof.
  exists 9. split; [by vm_compute|]. split; [reflexivity|].
  pose proof (EarliestDeadline_minimal (map snd (map_to_list (c_pools sample2))) sample2 sample2_ok)
    as H.
  assert (He : EarliestDeadline (map snd (map_to_list (c_pools sample2))) = Some 9) by by vm_compute.
  rewrite He in H. apply H. intros ps. split.
  - intros ([p ps'] & -> & Hin)%list_elem_of_fmap. exists p. by apply elem_of_map_to_list.
  - intros [p Hp]. apply list_elem_of_fmap. exists (p, ps). split; [done|]. by apply elem_of_map_to_list.
Defined.

(** The coordinator's predicate is tried per entry, so it can let a task pass an
    earlier one of the same ordering key that waits for a resource. *)
Definition only_b : WorkSpec -> bool := fun spec => bool_decide (ws_ID spec = "b").

(** With a predicate of the caller that holds back the head of a queue, the
    next entry of the same ordering key is selected before it although the head
    has not expired: the scan does not stop at the head of the ordering domain. *)
Theorem same_key_overtakes_when_head_ineligible :
  qe_owner sample_a = qe_owner sample_b /\
  ws_OrderingKey (qe_Spec sample_a) = ws_OrderingKey (qe_Spec sample_b) /\
  let r := SelectCandidateEligible (fun _ => 5) (Some only_b) "pool" sample2 in
  r = Selected sample_b (selected_ctl r) /\
  c_taskByID (selected_ctl r) !! "a" = Some sample_a /\ ~ (qe_Deadline sample_a < 5).
Proof. split_and_all; by vm_compute. Qed.
