(* ===== verification/EngineAccounting.v ===== *)
(** * Memory accounting of the task engine

    Models [internal/taskengine/accounting.go] and [boundResult] of
    [engine_completion.go]: the retained charge of an admitted task, the part of
    it a terminal record gives back, and the caps on stored outputs and failure
    texts. Values are immutable here, so the defensive copies of
    [freezePayload] and [freezeWorkSpecMetadata] keep the value they copy.
    Lengths are lengths of values in memory, far below 64 bits. *)

From S2P Require Import Prelude.
From S2P Require Import Execution.
From S2P Require Import Tasks.

Definition taskOverheadBytes : Z := 512.
Definition jobRefBytes : Z := 128.
Definition resourceRequirementBytes : Z := 32.
Definition DefaultMaxRetainedBytes : Z := Z.shiftl 256 20.
Definition DefaultMaxOutputBytes : Z := Z.shiftl 1 20.
Definition DefaultMaxFailureBytes : Z := 4096.
Definition DefaultDeliveryConcurrency : Z := 4.

Definition jobMetadataBytes (ref : option OccurrenceRef) : Z :=
  match ref with
  | None => 0
  | Some r => jobRefBytes + (slen (or_JobID r) + slen (or_OccurrenceID r) + slen (or_AttemptID r))
  end.

Definition resourceMetadataBytes (resources : list ResourceRequirement) : Z :=
  fold_left (fun bytes requirement => bytes + slen (rr_Name requirement)) resources
    (Z.of_nat (length resources) * resourceRequirementBytes).

Definition workSpecMetadataBytes (spec : WorkSpec) : Z :=
  slen (ws_ID spec) + slen (sc_Owner (ws_Scope spec)) + slen (ws_QuotaOwner spec)
  + slen (ws_Pool spec) + slen (ws_Class spec) + slen (ws_OrderingKey spec)
  + slen (ws_HandlerRef spec)
  + jobMetadataBytes (ws_Job spec) + resourceMetadataBytes (ws_Resources spec).

Definition terminalDetachedJobBytes (ref : option OccurrenceRef) : Z :=
  match ref with
  | None => 0
  | Some r => jobRefBytes + (slen (or_JobID r) + slen (or_OccurrenceID r))
  end.

(** [payloadSize]: the size, or the error of an unsupported value. *)
Definition payloadSize (input : option govalue) : Z + goerror :=
  match input with
  | None => inl 0
  | Some (VString _ s) => inl (slen s)
  | Some (VByteSlice _ bytes) | Some (VByteArray bytes) => inl (Z.of_nat (length bytes))
  | Some (VScalar size _) => inl size
  | Some (VOpaque t _) =>
      inr (wrap_error ("unsupported mutable or opaque task payload: " +:+ t)%string ErrUnsupportedPayload)
  end.

(** The callers that discard the error use the zero it comes with. *)
Definition payload_bytes (input : option govalue) : Z :=
  match payloadSize input with inl n => n | inr _ => 0 end.

Definition terminalDetachedSpecBytes (spec : WorkSpec) : Z :=
  payload_bytes (ws_Input spec) + (slen (ws_OrderingKey spec) + slen (ws_HandlerRef spec))
  + terminalDetachedJobBytes (ws_Job spec) + resourceMetadataBytes (ws_Resources spec).

Definition freezePayload (input : option govalue) : option govalue + goerror :=
  match payloadSize input with inl _ => inl input | inr e => inr e end.

Definition freezeWorkSpecMetadata (spec : WorkSpec) : WorkSpec := spec.

Definition stake (n : nat) (s : string) : string := String.substring 0 n s.

(** [capOutput]: only the unnamed types [[]byte] and [string] are kept. *)
Definition capOutput (output : option govalue) (maxBytes : Z) : option govalue * Z :=
  match output with
  | None => (None, 0)
  | Some (VByteSlice false v) =>
      let n := Z.of_nat (length v) in
      let limit := if (0 <? maxBytes) && (maxBytes <? n) then maxBytes else n in
      (Some (VByteSlice false (take (Z.to_nat limit) v)), limit)
  | Some (VString false v) =>
      if (0 <? maxBytes) && (maxBytes <? slen v) then
        (Some (VString false (stake (Z.to_nat maxBytes) v)), maxBytes)
      else (Some (VString false v), slen v)
  | Some _ => (None, 0)
  end.

Definition truncated_mark : string := "...(truncated)".

Definition truncateField (s : string) (max : Z) : string :=
  if (max <=? 0) || (slen s <=? max) then s
  else if max <=? slen truncated_mark then stake (Z.to_nat max) s
  else (stake (Z.to_nat (max - slen truncated_mark)) s +:+ truncated_mark)%string.

(** [boundResult], with the caps of the engine as arguments. *)
Definition boundResult (maxOutputBytes maxFailureBytes : Z) (res : TaskResult) : TaskResult * Z :=
  let '(out, outBytes) := capOutput (tr_Output res) maxOutputBytes in
  let f := tr_Failure res in
  let f := mkFailure (truncateField (fi_Code f) maxFailureBytes)
    (truncateField (fi_Message f) maxFailureBytes) (truncateField (fi_Detail f) maxFailureBytes) in
  (tr_set_Failure f (tr_set_Output out res),
   outBytes + (slen (disposition_string (tr_Disposition res)) + slen (fi_Code f)
     + slen (fi_Message f) + slen (fi_Detail f))).

(** [durabilityCommitRetainedBytes] of [durability.go]. *)
Definition durabilityCommitBaseBytes : Z := 512.
Definition durabilityCommitRetainedBytes (res : TaskResult) : Z :=
  durabilityCommitBaseBytes + slen (tr_TaskID res) + slen (tr_AttemptID res)
  + slen (outcome_string (tr_Outcome res)) + slen (tr_Cause res)
  + slen (disposition_string (tr_Disposition res)) + slen (fi_Code (tr_Failure res))
  + slen (fi_Message (tr_Failure res)) + slen (fi_Detail (tr_Failure res))
  + match tr_Output res with
    | Some (VByteSlice false b) => Z.of_nat (length b)
    | Some (VString false s) => slen s
    | _ => 0
    end.

(** The size of a stored output. *)
Definition output_bytes (output : option govalue) : Z :=
  match output with
  | Some (VByteSlice _ b) | Some (VByteArray b) => Z.of_nat (length b)
  | Some (VString _ s) => slen s
  | Some (VScalar n _) => n
  | _ => 0
  end.

(** Scalars have a non-negative size. *)
Definition scalar_ok (input : option govalue) : Prop :=
  match input with Some (VScalar n _) => 0 <= n | _ => True end.

(** ** Lemmas *)

Lemma slen_nonneg s : 0 <= slen s.
Proof. unfold slen. lia. Qed.

#[export] Hint Resolve slen_nonneg : go.

Lemma length_stake n s : String.length (stake n s) = Nat.min n (String.length s).
Proof.
  unfold stake. revert n. induction s as [|a s IH]; intros [|n]; simpl; try done. by rewrite IH.
Qed.

Lemma slen_stake z s : 0 <= z -> slen (stake (Z.to_nat z) s) = Z.min z (slen s).
Proof. intros. unfold slen. rewrite length_stake. lia. Qed.

Lemma slen_app s t : slen (s +:+ t)%string = slen s + slen t.
Proof.
  unfold slen. induction s as [|a s IH]; [done|].
  change ((String a s +:+ t)%string) with (String a (s +:+ t)%string). simpl String.length. lia.
Qed.

Lemma stake_app n s : (n <= String.length s)%nat -> exists t, s = (stake n s +:+ t)%string.
Proof.
  revert n. induction s as [|a s IH]; intros [|n] Hn; simpl in *; try lia; [by exists ""|by exists (String a s)|].
  destruct (IH n ltac:(lia)) as [t Ht]. exists t. exact (f_equal (String a) Ht).
Qed.

Lemma truncateField_len s max : 0 < max -> slen (truncateField s max) <= max.
Proof.
  intros Hm. unfold truncateField. destruct ((max <=? 0) || (slen s <=? max)) eqn:E1.
  - apply orb_true_iff in E1 as [E|E]; bool_to_prop; [apply Z.leb_le in E; lia|apply Z.leb_le in E; lia].
  - bool_to_prop. destruct (max <=? slen truncated_mark) eqn:E2; [apply Z.leb_le in E2|apply Z.leb_gt in E2].
    + rewrite slen_stake by lia. lia.
    + rewrite slen_app, slen_stake by lia. lia.
Qed.

Lemma capOutput_size output max out n :
  scalar_ok output -> capOutput output max = (out, n) ->
  n = output_bytes out /\ 0 <= n /\ n <= Z.max 0 (output_bytes output) /\ (0 < max -> n <= max).
Proof.
  unfold capOutput. destruct output as [[nm s|nm b|b|sz bits|t i]|]; intros Hs.
  all: try (intros [= <- <-]; simpl; lia).
  - destruct nm; [intros [= <- <-]; simpl; pose proof (slen_nonneg s); lia|].
    destruct ((0 <? max) && (max <? slen s)) eqn:E; intros [= <- <-]; simpl.
    + bool_to_prop. rewrite slen_stake by lia. lia.
    + pose proof (slen_nonneg s). apply andb_false_iff in E.
      destruct E as [E|E]; bool_to_prop; split_and_all; lia.
  - destruct nm; [intros [= <- <-]; simpl; lia|].
    destruct ((0 <? max) && (max <? Z.of_nat (length b))) eqn:E; intros [= <- <-]; simpl;
      rewrite length_take.
    + bool_to_prop. lia.
    + apply andb_false_iff in E. destruct E as [E|E]; bool_to_prop; split_and_all; lia.
Qed.

Lemma resourceMetadataBytes_nonneg rs : 0 <= resourceMetadataBytes rs.
Proof.
  unfold resourceMetadataBytes, resourceRequirementBytes.
  assert (H : 0 <= Z.of_nat (length rs) * 32) by lia. revert H.
  generalize (Z.of_nat (length rs) * 32). induction rs as [|r rs IH]; intros z Hz; simpl; [done|].
  apply IH. pose proof (slen_nonneg (rr_Name r)). lia.
Qed.

Lemma payload_bytes_nonneg input : scalar_ok input -> 0 <= payload_bytes input.
Proof.
  unfold payload_bytes. destruct input as [[]|]; simpl; try lia. intros _. apply slen_nonneg.
Qed.

Lemma jobMetadataBytes_nonneg ref : 0 <= jobMetadataBytes ref.
Proof.
  unfold jobMetadataBytes, jobRefBytes. destruct ref as [r|]; [|done].
  pose proof (slen_nonneg (or_JobID r)). pose proof (slen_nonneg (or_OccurrenceID r)).
  pose proof (slen_nonneg (or_AttemptID r)). lia.
Qed.

Lemma workSpecMetadataBytes_nonneg spec : 0 <= workSpecMetadataBytes spec.
Proof.
  unfold workSpecMetadataBytes. pose proof (jobMetadataBytes_nonneg (ws_Job spec)).
  pose proof (resourceMetadataBytes_nonneg (ws_Resources spec)). unfold slen. lia.
Qed.
