(* ===== verification/AdmissionInstance.v ===== *)
(** * The admission controller as the engine sees it

    The controller of Admission.v implements the interface [AdmissionOps] of
    AdmissionTypes.v, and its invariant implies the laws the engine uses. *)

From S2P Require Import Prelude.
From S2P Require Import Execution.
From S2P Require Import Tasks.
From S2P Require Import AdmissionTypes.
From S2P Require Import Admission.
From S2P Require Import AdmissionInvariant.

Section Instance.
Context {Q D : Type} {FO : FifoOps Q} {DO : DeadlineOps D}.
#[local] Abbreviation poolState := (poolState Q D).
#[local] Abbreviation Controller := (Controller Q D).
Implicit Types (c : Controller) (ps : poolState).

#[export] Instance Controller_ops : AdmissionOps Controller := {
  a_new := NewController;
  a_set_owner_limits := SetOwnerLimits;
  a_set_pool_config := SetPoolConfig;
  a_can_admit := CanAdmit;
  a_enqueue e c := Enqueue (Some e) c;
  a_select clock eligible := SelectCandidateEligible clock (Some eligible);
  a_terminal := OnTaskTerminal;
  a_remove := RemoveTask;
  a_pop_expired := PopExpired;
  a_stats := PoolStats;
  a_ok := controller_ok;
  a_index := c_taskByID;
  a_pools c := dom (c_pools c);
  a_active c o := zget o (c_ownerActiveCount c);
  a_limit c o := ol_MaxActive (getOwnerLimits c o);
  a_locks := c_orderingLocks
}.

Context {FL : FifoLaws Q} {DL : DeadlineLaws D}.

Ltac same_slots := unfold a_same_slots; simpl; split_and_all; try done.

(** A step that only rewrites existing pools. *)
Lemma dom_put c p ps : is_Some (c_pools c !! p) -> dom (<[p := ps]> (c_pools c)) = dom (c_pools c).
Proof.
  intros [x Hx]. apply dom_insert_lookup_L. eauto.
Qed.

Lemma c_debit_same o e c :
  c_pools (c_debit o e c) = c_pools c /\ c_orderingLocks (c_debit o e c) = c_orderingLocks c /\
  c_ownerLimits (c_debit o e c) = c_ownerLimits c /\
  forall o', zget o' (c_ownerActiveCount (c_debit o e c)) = zget o' (c_ownerActiveCount c).
Proof. split_and_all; try done. intros o'. apply zget_drop_zero. Qed.

Lemma settle_expired_same expired c ps :
  let c' := (settle_expired expired c ps).1 in
  c_pools c' = c_pools c /\ c_orderingLocks c' = c_orderingLocks c /\
  c_ownerLimits c' = c_ownerLimits c /\
  forall o, zget o (c_ownerActiveCount c') = zget o (c_ownerActiveCount c).
Proof.
  revert c ps. induction expired as [|e l IH]; intros c ps; [done|]. cbn [settle_expired].
  destruct (c_debit_same (qe_owner e) e c) as (H1 & H2 & H3 & H4).
  destruct (IH (c_debit (qe_owner e) e c) (ps_debit e (ps_unqueue e ps))) as (G1 & G2 & G3 & G4).
  split_and_all; congruence.
Qed.

Lemma fresh_of_a_fresh e c : a_fresh e c -> fresh_entry e c /\ is_Some (c_pools c !! qe_pool e).
Proof. intros (? & ? & Hp & ?). split; [by split_and_all|]. apply elem_of_dom. exact Hp. Qed.

Lemma a_remove_ok id c :
  controller_ok c ->
  let '(r, c') := RemoveTask id c in
  r = c_taskByID c !! id /\ controller_ok c' /\ c_taskByID c' = delete id (c_taskByID c) /\
  a_same_slots c c'.
Proof.
  intros Hc. destruct (c_taskByID c !! id) as [e|] eqn:He.
  - destruct (RemoveTask_spec id e c Hc He) as (c' & Hr & Hok & HT). rewrite Hr.
    split_and_all; try done. unfold RemoveTask in Hr. rewrite He in Hr.
    destruct (ow_ids c (proj1 Hc) id e He) as (_ & [ps Hp] & _). rewrite Hp in Hr.
    injection Hr as <-. same_slots; [apply dom_put; eauto|].
    intros o. by rewrite zget_drop_zero.
  - unfold RemoveTask. rewrite He. split_and_all; try done.
    + by rewrite delete_id.
Qed.

Lemma a_pop_ok pool now c :
  controller_ok c ->
  let '(expired, c') := PopExpired pool now c in
  controller_ok c' /\ a_same_slots c c' /\ NoDup (map qe_ID expired) /\
  (forall e, e ∈ expired -> c_taskByID c !! qe_ID e = Some e /\ qe_pool e = pool) /\
  forall id, c_taskByID c' !! id = if decide (id ∈ map qe_ID expired) then None else c_taskByID c !! id.
Proof.
  intros Hc. pose proof (PopExpired_spec pool now c Hc) as H.
  assert (Hsame : a_same_slots c (PopExpired pool now c).2).
  { unfold PopExpired. destruct (c_pools c !! pool) as [ps|] eqn:Hp; [|by same_slots].
    destruct (d_pop_expired now (ps_deadlineIndex ps)) as [expired dl].
    destruct (settle_expired_same expired c (ps_set_deadlineIndex dl ps)) as (H1 & H2 & H3 & H4).
    destruct (settle_expired expired c _) as [c' ps']. simpl in *.
    unfold a_same_slots. simpl. unfold getOwnerLimits. simpl. rewrite H1, H2.
    split_and_all; try done; [apply dom_put; eauto|]. intros o. by rewrite H3. }
  assert (Hnd : NoDup (map qe_ID (PopExpired pool now c).1)).
  { unfold PopExpired. destruct (c_pools c !! pool) as [ps|] eqn:Hp; [|constructor].
    destruct Hc as [Hown Hps]. specialize (Hps _ _ Hp).
    pose proof (d_pop_expired_spec now _ (po_heap _ _ _ _ Hps)) as Hpop.
    destruct (d_pop_expired now (ps_deadlineIndex ps)) as [expired dl].
    destruct Hpop as (_ & Hperm & _). destruct (settle_expired expired c _). simpl.
    pose proof (d_nodup _ (po_heap _ _ _ _ Hps)) as Hnd. rewrite Hperm, map_app in Hnd.
    apply NoDup_app in Hnd as (Hnd & _). apply (nodup_ids c); [done|]. intros e He.
    assert (Hin : e ∈ d_elems (ps_deadlineIndex ps)) by (rewrite Hperm; set_solver).
    by apply (po_deadline _ _ _ _ Hps) in Hin as [? _]. }
  destruct (PopExpired pool now c) as [expired c']. destruct H as (Hok & Hexp & HT).
  split_and_all; try done. intros e He. by apply Hexp in He as (? & ? & _).
Qed.

Lemma a_enqueue_ok e c :
  controller_ok c -> a_fresh e c ->
  exists c', Enqueue (Some e) c = Some c' /\ controller_ok c' /\
    c_taskByID c' = <[qe_ID e := e]> (c_taskByID c) /\ a_same_slots c c'.
Proof.
  intros Hc Hf. destruct (fresh_of_a_fresh e c Hf) as [Hf' Hp].
  destruct (Enqueue_spec e c Hc Hf' Hp) as (c' & He & Hok & HT). exists c'. split_and_all; try done.
  destruct Hp as [ps Hp]. unfold Enqueue in He. rewrite Hp in He.
  destruct (ps_queues ps !! qe_class e); [|done]. injection He as <-.
  same_slots. apply dom_put. eauto.
Qed.

Lemma a_select_ok clock eligible pool c :
  controller_ok c ->
  match SelectCandidateEligible clock (Some eligible) pool c with
  | Selected e c' =>
      controller_ok c' /\ c_taskByID c !! qe_ID e = Some e /\ qe_pool e = pool /\
      eligible (qe_Spec e) = true /\ under_limit c (qe_owner e) /\
      c_taskByID c' = delete (qe_ID e) (c_taskByID c) /\ dom (c_pools c') = dom (c_pools c) /\
      (forall o, ol_MaxActive (getOwnerLimits c' o) = ol_MaxActive (getOwnerLimits c o)) /\
      (forall o, zget o (c_ownerActiveCount c') =
         zget o (c_ownerActiveCount c) + if bool_decide (o = qe_owner e) then 1 else 0) /\
      let key := ws_OrderingKey (qe_Spec e) in
      (key <> "" -> c_orderingLocks c !! key = None) /\
      c_orderingLocks c' =
        if decide (key <> "") then <[key := qe_ID e]> (c_orderingLocks c) else c_orderingLocks c
  | NoEligible c' => controller_ok c' /\ c_taskByID c' = c_taskByID c /\ a_same_slots c c'
  | SelectPanic => False
  end.
Proof.
  intros Hc. pose proof (SelectCandidateEligible_spec clock (Some eligible) pool c Hc) as H.
  assert (Hno : forall c', SelectCandidateEligible clock (Some eligible) pool c = NoEligible c' ->
    a_same_slots c c').
  { intros c'. unfold SelectCandidateEligible. destruct (c_pools c !! pool) as [ps|] eqn:Hp.
    - destruct (class_loop _ _ _ _ _ _); intros [= <-]; try done.
      same_slots. apply dom_put. eauto.
    - intros [= <-]. by same_slots. }
  destruct (SelectCandidateEligible _ _ _ _) as [e c'|c'|]; [| |done].
  - destruct H as (ps & c1 & ps' & Hp & Htk & -> & Hok).
    destruct Htk as [[He Hpe] Hlim (k & _ & _ & _ & _ & _ & Hsel & _) _ Hidx Hpools _ Hact Hlock Hlims].
    unfold selectable in Hsel. repeat (case_match; [done|]).
    split_and_all; simpl; try done.
    + rewrite Hpools. apply dom_put. eauto.
    + intros o. unfold getOwnerLimits. simpl. by rewrite Hlims.
    + intros o. rewrite Hact. f_equal. unfold of_owner, ind. repeat case_bool_decide; congruence.
    + cbn zeta. split; [|done]. intros Hkey.
      match goal with H : _ && _ = false |- _ => apply andb_false_iff in H as [Hl|Hl] end;
        bool_to_prop; [done|]. by destruct (c_orderingLocks c !! _); [destruct Hl|].
  - destruct H as (Hok & HT & _). split_and_all; try done. by apply Hno.
Qed.

Lemma a_terminal_ok spec c :
  controller_ok c ->
  let c' := OnTaskTerminal spec c in
  controller_ok c' /\ c_taskByID c' = c_taskByID c /\ dom (c_pools c') = dom (c_pools c) /\
  (forall o, ol_MaxActive (getOwnerLimits c' o) = ol_MaxActive (getOwnerLimits c o)) /\
  (forall o, 0 <= zget o (c_ownerActiveCount c) -> zget o (c_ownerActiveCount c') =
     if bool_decide (o = ws_QuotaOwner spec) then Z.max 0 (zget o (c_ownerActiveCount c) - 1)
     else zget o (c_ownerActiveCount c)) /\
  let key := ws_OrderingKey spec in
  c_orderingLocks c' = if decide (key <> "" /\ c_orderingLocks c !! key = Some (ws_ID spec))
                       then delete key (c_orderingLocks c) else c_orderingLocks c.
Proof.
  intros Hc. cbn zeta. pose proof (OnTaskTerminal_ok spec c Hc) as Hok.
  unfold OnTaskTerminal in *. cbn zeta in *. set (c1 := if 0 <? _ then _ else c) in *.
  set (c2 := compactOwnerCounters _ c1) in *.
  assert (H1 : c_taskByID c1 = c_taskByID c /\ c_pools c1 = c_pools c /\ c_ownerLimits c1 = c_ownerLimits c /\
    c_orderingLocks c1 = c_orderingLocks c) by (unfold c1; repeat split; by destruct (0 <? _)).
  destruct H1 as (E1 & E2 & E3 & E4).
  assert (Hact : forall o, 0 <= zget o (c_ownerActiveCount c) -> zget o (c_ownerActiveCount c2) =
     if bool_decide (o = ws_QuotaOwner spec) then Z.max 0 (zget o (c_ownerActiveCount c) - 1)
     else zget o (c_ownerActiveCount c)).
  { intros o Ho. simpl. rewrite zget_drop_zero. unfold c1.
    destruct (bool_decide_reflect (o = ws_QuotaOwner spec)) as [->|Hne].
    - destruct (Z.ltb_spec 0 (zget (ws_QuotaOwner spec) (c_ownerActiveCount c))); simpl;
        [rewrite zget_insert; lia|lia].
    - destruct (0 <? _); simpl; [by rewrite zget_insert_ne|done]. }
  assert (Hrest : c_taskByID c2 = c_taskByID c1 /\ c_pools c2 = c_pools c1 /\
    c_ownerLimits c2 = c_ownerLimits c1 /\ c_orderingLocks c2 = c_orderingLocks c1) by done.
  destruct Hrest as (F1 & F2 & F3 & F4). rewrite E1 in F1. rewrite E2 in F2. rewrite E3 in F3.
  rewrite E4 in F4. clearbody c2.
  split; [exact Hok|]. clear Hok. rewrite F4.
  set (b := bool_decide (ws_OrderingKey spec <> "") && _).
  assert (Hb : (if b then delete (ws_OrderingKey spec) (c_orderingLocks c) else c_orderingLocks c) =
    if decide (ws_OrderingKey spec <> "" /\ c_orderingLocks c !! ws_OrderingKey spec = Some (ws_ID spec))
    then delete (ws_OrderingKey spec) (c_orderingLocks c) else c_orderingLocks c).
  { unfold b. destruct (c_orderingLocks c !! ws_OrderingKey spec) as [t|] eqn:Hl; simpl.
    - destruct (bool_decide_reflect (ws_OrderingKey spec <> "")); simpl; [|by rewrite decide_False by tauto].
      destruct (bool_decide_reflect (t = ws_ID spec)); [rewrite decide_True by naive_solver|rewrite decide_False by naive_solver]; done.
    - rewrite delete_id by done. by repeat case_match. }
  destruct b; simpl; rewrite ?F1, ?F2; unfold getOwnerLimits; simpl; rewrite ?F3; split_and_all; try done; by rewrite F4.
Qed.

#[export] Instance Controller_laws : AdmissionLaws Controller.
Proof.
  split; cbn [Controller_ops a_new a_set_owner_limits a_set_pool_config a_can_admit a_enqueue a_select
    a_terminal a_remove a_pop_expired a_stats a_ok a_index a_pools a_active a_limit a_locks].
  - intros cfgs. split_and_all; try done; [apply NewController_ok|]. simpl. apply dom_fmap_L.
  - intros o l c Hc. split_and_all; try done; [by apply SetOwnerLimits_ok|]. simpl. apply dom_fmap_L.
  - intros p cfg c Hc. split; [by apply SetPoolConfig_ok|]. unfold SetPoolConfig.
    destruct (c_pools c !! p) as [ps|] eqn:Hp; split_and_all; try done; same_slots.
    apply dom_put. eauto.
  - intros spec n c. unfold CanAdmit. destruct (c_pools c !! ws_Pool spec) eqn:Hp; [|done].
    intros _. apply elem_of_dom. eauto.
  - intros e c. apply a_enqueue_ok.
  - intros clock eligible pool c. apply a_select_ok.
  - intros spec c. apply a_terminal_ok.
  - intros id c. apply a_remove_ok.
  - intros pool now c. apply a_pop_ok.
  - intros id e c Hc He. destruct (ow_ids c (proj1 Hc) id e He) as (? & ? & _).
    split; [done|]. by apply elem_of_dom.
  - intros id id' e e' c Hc. apply (ow_ptrs c (proj1 Hc)).
Qed.

End Instance.
