(* ===== verification/EngineConfig.v ===== *)
(** * Configuration of the task engine

    Models [internal/taskengine/engine_config.go] up to [NewEngine] (which
    builds the state of EngineState.v): the pool and engine configurations, the
    defaults, the effective worker counts and the validation. The loops over
    the configured maps return the error of the first bad entry they meet; the
    model meets them in the order of [map_to_list], which only decides whose
    error text is returned. *)

From S2P Require Import Prelude.
From S2P Require Import Execution.
From S2P Require Import Tasks.
From S2P Require Import EngineAccounting.

Record PoolEngineConfig := mkPoolEngineConfig {
  pe_Concurrency : Z; pe_MinConcurrency : Z; pe_ZeroIdle : bool; pe_IdleTimeout : duration;
  pe_BacklogLimit : Z; pe_PayloadBudget : Z
}.

Definition pe_set_Concurrency (n : Z) (c : PoolEngineConfig) : PoolEngineConfig :=
  mkPoolEngineConfig n (pe_MinConcurrency c) (pe_ZeroIdle c) (pe_IdleTimeout c) (pe_BacklogLimit c)
    (pe_PayloadBudget c).
Definition pe_set_MinConcurrency (n : Z) (c : PoolEngineConfig) : PoolEngineConfig :=
  mkPoolEngineConfig (pe_Concurrency c) n (pe_ZeroIdle c) (pe_IdleTimeout c) (pe_BacklogLimit c)
    (pe_PayloadBudget c).
Definition pe_set_IdleTimeout (d : duration) (c : PoolEngineConfig) : PoolEngineConfig :=
  mkPoolEngineConfig (pe_Concurrency c) (pe_MinConcurrency c) (pe_ZeroIdle c) d (pe_BacklogLimit c)
    (pe_PayloadBudget c).

Record Config := mkConfig {
  cf_Pools : gmap PoolID PoolEngineConfig;
  cf_ResultCapacity : Z;
  cf_MaxTerminalRetained : Z;
  cf_DecisionTimeout : duration;
  cf_InboxCapacity : Z;
  cf_MaxRetainedBytes : Z;
  cf_MaxOutputBytes : Z;
  cf_MaxFailureBytes : Z;
  cf_DeliveryConcurrency : Z;
  cf_DeliveryQueueCap : Z;
  cf_TerminalTTL : duration;
  cf_MaxScopeTombstones : Z;
  cf_ResourceCapacities : gmap string Z
}.

Definition mib : Z := 1024 * 1024.

Definition newDefaultConfig : Config := {|
  cf_Pools := list_to_map [
    ("general", mkPoolEngineConfig 8 0 true (10 * second) 200 (100 * mib));
    ("interactive", mkPoolEngineConfig 32 0 true (10 * second) 128 (50 * mib));
    ("download", mkPoolEngineConfig 3 0 true (15 * second) 50 (200 * mib));
    ("media-process", mkPoolEngineConfig 2 0 true (20 * second) 20 (200 * mib));
    ("scheduler", mkPoolEngineConfig 4 0 true (30 * second) 100 (50 * mib))];
  cf_ResultCapacity := 1000;
  cf_MaxTerminalRetained := 1000;
  cf_DecisionTimeout := 5 * second;
  cf_InboxCapacity := 2048;
  cf_MaxRetainedBytes := DefaultMaxRetainedBytes;
  cf_MaxOutputBytes := DefaultMaxOutputBytes;
  cf_MaxFailureBytes := DefaultMaxFailureBytes;
  cf_DeliveryConcurrency := DefaultDeliveryConcurrency;
  cf_DeliveryQueueCap := 0;
  cf_TerminalTTL := 5 * minute;
  cf_MaxScopeTombstones := 4096;
  cf_ResourceCapacities := ∅
|}.

Definition defaultPoolConcurrency : Z := 4.

Definition effectivePoolConcurrency (cfg : PoolEngineConfig) : Z :=
  if 0 <? pe_Concurrency cfg then pe_Concurrency cfg else defaultPoolConcurrency.

Definition effectivePoolMinimum (cfg : PoolEngineConfig) (concurrency : Z) : Z :=
  if pe_ZeroIdle cfg then 0
  else if 0 <? pe_MinConcurrency cfg then pe_MinConcurrency cfg
  else concurrency.

Definition cfg_error (msg : string) : option goerror := Some (text_error ("taskengine: " +:+ msg)%string).
Definition pool_error (pool : PoolID) (msg : string) : option goerror :=
  cfg_error ("pool " +:+ pool +:+ msg)%string.

(** The body of the loop over the pools. *)
Definition validate_pool (x : PoolID * PoolEngineConfig) : option goerror :=
  let '(poolID, pcfg) := x in
  if decide (poolID = "") then cfg_error "pool ID cannot be empty"
  else if pe_Concurrency pcfg <? 0 then pool_error poolID " concurrency cannot be negative"
  else if (pe_MinConcurrency pcfg <? 0) ||
          (effectivePoolConcurrency pcfg <? pe_MinConcurrency pcfg) then
    pool_error poolID " minimum concurrency is invalid"
  else if pe_IdleTimeout pcfg <? 0 then pool_error poolID " idle timeout cannot be negative"
  else if pe_BacklogLimit pcfg <? 0 then pool_error poolID " backlog limit cannot be negative"
  else if pe_PayloadBudget pcfg <? 0 then pool_error poolID " payload budget cannot be negative"
  else None.

Definition validate_capacity (x : string * Z) : option goerror :=
  let '(name, capacity) := x in
  if bool_decide (name = "") || (capacity <=? 0) then
    cfg_error "resource capacities need a name and positive capacity"
  else None.

(** A loop that returns the first error. *)
Fixpoint first_error {X} (f : X -> option goerror) (l : list X) : option goerror :=
  match l with
  | [] => None
  | x :: l' => match f x with Some e => Some e | None => first_error f l' end
  end.

Definition ValidateConfig (cfg : Config) : option goerror :=
  if cf_ResultCapacity cfg <? 0 then cfg_error "ResultCapacity cannot be negative"
  else if cf_MaxTerminalRetained cfg <? 0 then cfg_error "MaxTerminalRetained cannot be negative"
  else if cf_DecisionTimeout cfg <? 0 then cfg_error "DecisionTimeout cannot be negative"
  else if cf_InboxCapacity cfg <? 0 then cfg_error "InboxCapacity cannot be negative"
  else if cf_MaxRetainedBytes cfg <? 0 then cfg_error "MaxRetainedBytes cannot be negative"
  else if cf_MaxOutputBytes cfg <? 0 then cfg_error "MaxOutputBytes cannot be negative"
  else if cf_MaxFailureBytes cfg <? 0 then cfg_error "MaxFailureBytes cannot be negative"
  else if cf_DeliveryConcurrency cfg <? 0 then cfg_error "DeliveryConcurrency cannot be negative"
  else if cf_DeliveryQueueCap cfg <? 0 then cfg_error "DeliveryQueueCap cannot be negative"
  else if cf_TerminalTTL cfg <? 0 then cfg_error "TerminalTTL cannot be negative"
  else if cf_MaxScopeTombstones cfg <? 0 then cfg_error "MaxScopeTombstones cannot be negative"
  else
    match first_error validate_pool (map_to_list (cf_Pools cfg)) with
    | Some e => Some e
    | None => first_error validate_capacity (map_to_list (cf_ResourceCapacities cfg))
    end.

(** What a valid pool configuration promises to the workers. *)
Definition pool_cfg_ok (c : PoolEngineConfig) : Prop :=
  0 <= pe_Concurrency c /\ 0 <= pe_MinConcurrency c <= effectivePoolConcurrency c /\
  0 <= pe_IdleTimeout c /\ 0 <= pe_BacklogLimit c /\ 0 <= pe_PayloadBudget c.

(** ** Lemmas *)

Lemma first_error_None {X} (f : X -> option goerror) l :
  first_error f l = None <-> forall x, x ∈ l -> f x = None.
Proof.
  induction l as [|x l IH]; simpl.
  - split; [|done]. intros _ x Hx. by apply not_elem_of_nil in Hx.
  - destruct (f x) as [e|] eqn:Hx.
    + split; [done|]. intros H. rewrite (H x) in Hx by left. done.
    + rewrite IH. split; [|set_solver]. intros H y [->|Hy]%elem_of_cons; auto.
Qed.

Lemma validate_pool_None p c : validate_pool (p, c) = None <-> p <> "" /\ pool_cfg_ok c.
Proof.
  unfold validate_pool, pool_cfg_ok, pool_error, cfg_error.
  destruct (decide (p = "")); [split; [done|tauto]|].
  destruct (Z.ltb_spec (pe_Concurrency c) 0); [split; [done|lia]|].
  destruct (Z.ltb_spec (pe_MinConcurrency c) 0); simpl; [split; [done|lia]|].
  destruct (Z.ltb_spec (effectivePoolConcurrency c) (pe_MinConcurrency c)); [split; [done|lia]|].
  destruct (Z.ltb_spec (pe_IdleTimeout c) 0); [split; [done|lia]|].
  destruct (Z.ltb_spec (pe_BacklogLimit c) 0); [split; [done|lia]|].
  destruct (Z.ltb_spec (pe_PayloadBudget c) 0); [split; [done|lia]|].
  split; [|done]. intros _. split; [done|lia].
Qed.

(** The engine-wide limits. *)
Definition limits_ok (cfg : Config) : Prop :=
  0 <= cf_ResultCapacity cfg /\ 0 <= cf_MaxTerminalRetained cfg /\ 0 <= cf_DecisionTimeout cfg /\
  0 <= cf_InboxCapacity cfg /\ 0 <= cf_MaxRetainedBytes cfg /\ 0 <= cf_MaxOutputBytes cfg /\
  0 <= cf_MaxFailureBytes cfg /\ 0 <= cf_DeliveryConcurrency cfg /\
  0 <= cf_DeliveryQueueCap cfg /\ 0 <= cf_TerminalTTL cfg /\ 0 <= cf_MaxScopeTombstones cfg.

Lemma validate_maps cfg :
  match first_error validate_pool (map_to_list (cf_Pools cfg)) with
  | Some e => Some e
  | None => first_error validate_capacity (map_to_list (cf_ResourceCapacities cfg))
  end = None <->
  (forall p c, cf_Pools cfg !! p = Some c -> p <> "" /\ pool_cfg_ok c) /\
  forall n z, cf_ResourceCapacities cfg !! n = Some z -> n <> "" /\ 0 < z.
Proof.
  assert (Hp : first_error validate_pool (map_to_list (cf_Pools cfg)) = None <->
    forall p c, cf_Pools cfg !! p = Some c -> p <> "" /\ pool_cfg_ok c).
  { rewrite first_error_None. split.
    - intros H p c Hc. apply validate_pool_None. apply H. by apply elem_of_map_to_list.
    - intros H [p c] Hin%elem_of_map_to_list. apply validate_pool_None. by apply H. }
  assert (Hr : first_error validate_capacity (map_to_list (cf_ResourceCapacities cfg)) = None <->
    forall n z, cf_ResourceCapacities cfg !! n = Some z -> n <> "" /\ 0 < z).
  { rewrite first_error_None. split.
    - intros H n z Hz. specialize (H (n, z) (proj2 (elem_of_map_to_list _ _ _) Hz)).
      unfold validate_capacity in H. destruct (_ || _) eqn:E; [done|]. bool_to_prop. split; [done|lia].
    - intros H [n z] Hin%elem_of_map_to_list. destruct (H n z Hin). unfold validate_capacity.
      rewrite bool_decide_eq_false_2 by done. simpl. destruct (Z.leb_spec z 0); [lia|done]. }
  rewrite <- Hp, <- Hr. destruct (first_error validate_pool _); [|tauto].
  split; [done|]. by intros [? _].
Qed.

(** The accepted capacities are positive. *)
Lemma ValidateConfig_capacities cfg n z :
  ValidateConfig cfg = None -> cf_ResourceCapacities cfg !! n = Some z -> 0 < z.
Proof.
  unfold ValidateConfig. repeat (case_match; [by intros [=]|]). intros Hm.
  pose proof (proj1 (validate_maps cfg)) as HV.
  match goal with H : first_error validate_pool _ = None |- _ => rewrite H in HV end.
  apply (HV Hm).
Qed.

(** ** Properties *)

(** [ValidateConfig] accepts exactly the configurations with no negative
    engine limit, no unnamed pool, worker counts and queue limits that fit each
    other in every pool, and named positive resource capacities; the minimum
    number of workers of an accepted pool never exceeds its maximum. *)
Theorem ValidateConfig_ok (cfg : Config) :
  (ValidateConfig cfg = None <->
    limits_ok cfg /\
    (forall p c, cf_Pools cfg !! p = Some c -> p <> "" /\ pool_cfg_ok c) /\
    forall n z, cf_ResourceCapacities cfg !! n = Some z -> n <> "" /\ 0 < z) /\
  forall c, pool_cfg_ok c ->
    0 <= effectivePoolMinimum c (effectivePoolConcurrency c) <= effectivePoolConcurrency c.
Proof.
  split.
  - unfold ValidateConfig, limits_ok, cfg_error.
    destruct (Z.ltb_spec (cf_ResultCapacity cfg) 0) as [Hlt|H0]; [split; [done|]; intros [Hl _]; clear -Hl Hlt; lia|].
    destruct (Z.ltb_spec (cf_MaxTerminalRetained cfg) 0) as [Hlt|H1]; [split; [done|]; intros [Hl _]; clear -Hl Hlt; lia|].
    destruct (Z.ltb_spec (cf_DecisionTimeout cfg) 0) as [Hlt|H2]; [split; [done|]; intros [Hl _]; clear -Hl Hlt; lia|].
    destruct (Z.ltb_spec (cf_InboxCapacity cfg) 0) as [Hlt|H3]; [split; [done|]; intros [Hl _]; clear -Hl Hlt; lia|].
    destruct (Z.ltb_spec (cf_MaxRetainedBytes cfg) 0) as [Hlt|H4]; [split; [done|]; intros [Hl _]; clear -Hl Hlt; lia|].
    destruct (Z.ltb_spec (cf_MaxOutputBytes cfg) 0) as [Hlt|H5]; [split; [done|]; intros [Hl _]; clear -Hl Hlt; lia|].
    destruct (Z.ltb_spec (cf_MaxFailureBytes cfg) 0) as [Hlt|H6]; [split; [done|]; intros [Hl _]; clear -Hl Hlt; lia|].
    destruct (Z.ltb_spec (cf_DeliveryConcurrency cfg) 0) as [Hlt|H7]; [split; [done|]; intros [Hl _]; clear -Hl Hlt; lia|].
    destruct (Z.ltb_spec (cf_DeliveryQueueCap cfg) 0) as [Hlt|H8]; [split; [done|]; intros [Hl _]; clear -Hl Hlt; lia|].
    destruct (Z.ltb_spec (cf_TerminalTTL cfg) 0) as [Hlt|H9]; [split; [done|]; intros [Hl _]; clear -Hl Hlt; lia|].
    destruct (Z.ltb_spec (cf_MaxScopeTombstones cfg) 0) as [Hlt|H10]; [split; [done|]; intros [Hl _]; clear -Hl Hlt; lia|].
    rewrite validate_maps. split; [|tauto]. intros Hm. split; [|exact Hm]. by split_and_all.
  - intros c (H1 & H2 & _). unfold effectivePoolMinimum, effectivePoolConcurrency, defaultPoolConcurrency in *.
    repeat case_match; bool_to_prop; lia.
Qed.
