(* ===== verification/EngineState.v ===== *)
(** * The state of the task engine

    Models [internal/taskengine/engine_state.go], the permit of [permit.go] and
    [NewEngine] and [Start] of [engine_config.go] and [engine.go]. The engine is
    a single-writer coordinator: all the fields below are read and written by
    one goroutine, which handles one control request after the other, so its
    state is a record and a handler a function on it.

    - A [*taskRecord] is the value of the registry under its task identifier;
      the coordinator keeps no other pointer to a record over two requests. The
      channel [done] is the flag that says whether it is closed; the ticket of
      a record is its identifier and that channel.
    - Pointers that are compared or shared (permits, contexts, queue entries)
      are addresses drawn from [e_fresh].
    - The parallel slices of a pool ([workerRunning], [workerIdleSince],
      [workerCancels], [workerMailboxes]) are one list of [slot]s.
    - [e_faults] collects what would stop the coordinator: a panic, or a send
      that blocks it. [e_commits] are the commit requests handed to the pump or
      the durability lane; [e_cancelledCtxs] the contexts whose cancel function
      was called; [e_releasedPermits] the permits moved to the released state.
    - The counters of the goroutines ([runtimeRemaining], [runtimeDone]) only
      serve to join them and are not part of the state. *)

From S2P Require Import Prelude.
From S2P Require Import Execution.
From S2P Require Import Tasks.
From S2P Require Import AdmissionTypes.
From S2P Require Import EngineAccounting.
From S2P Require Import EngineConfig.

(** ** The completion-delivery lane, as the engine calls it

    [delivery.go]; [dl_held] is the number of reservations the lane holds. *)
Class DeliveryOps (L : Type) := {
  dl_reserve : L -> bool * L;
  dl_releaseReservation : L -> L;
  dl_enqueueReserved : closure -> TaskResult -> L -> bool * L;
  dl_held : L -> Z
}.

(** ** Records *)

Record permit := mkPermit {
  pm_ptr : nat; pm_pool : PoolID; pm_taskID : TaskID; pm_dispatchEpoch : Z
}.

Inductive durabilityState := durNone | durPending | durCommitted | durRecovery.

#[global] Instance durabilityState_eq_dec : EqDecision durabilityState.
Proof. solve_decision. Defined.

Record taskRecord := mkRecord {
  r_spec : WorkSpec;
  r_state : TaskState;
  r_permit : option permit;
  r_dispatchEpoch : Z;
  r_result : TaskResult;
  r_done : bool;
  r_cancelFunc : option nat;
  r_cancelRequested : bool;
  r_cancelReason : Cause;
  r_callbackReserved : bool;
  r_retainedBytes : Z;
  r_durability : durabilityState;
  r_pendingResult : TaskResult;
  r_execOutcome : Outcome;
  r_commitSeq : Z;
  r_admittedAt : time;
  r_queuedAt : time;
  r_startedAt : time;
  r_finishedAt : time;
  r_errorMsg : string
}.

Definition r_set_spec (v : WorkSpec) (s : taskRecord) : taskRecord :=
  mkRecord v (r_state s) (r_permit s) (r_dispatchEpoch s) (r_result s) (r_done s) (r_cancelFunc s)
    (r_cancelRequested s) (r_cancelReason s) (r_callbackReserved s) (r_retainedBytes s)
    (r_durability s) (r_pendingResult s) (r_execOutcome s) (r_commitSeq s) (r_admittedAt s)
    (r_queuedAt s) (r_startedAt s) (r_finishedAt s) (r_errorMsg s).
Definition r_set_state (v : TaskState) (s : taskRecord) : taskRecord :=
  mkRecord (r_spec s) v (r_permit s) (r_dispatchEpoch s) (r_result s) (r_done s) (r_cancelFunc s)
    (r_cancelRequested s) (r_cancelReason s) (r_callbackReserved s) (r_retainedBytes s)
    (r_durability s) (r_pendingResult s) (r_execOutcome s) (r_commitSeq s) (r_admittedAt s)
    (r_queuedAt s) (r_startedAt s) (r_finishedAt s) (r_errorMsg s).
Definition r_set_permit (v : option permit) (s : taskRecord) : taskRecord :=
  mkRecord (r_spec s) (r_state s) v (r_dispatchEpoch s) (r_result s) (r_done s) (r_cancelFunc s)
    (r_cancelRequested s) (r_cancelReason s) (r_callbackReserved s) (r_retainedBytes s)
    (r_durability s) (r_pendingResult s) (r_execOutcome s) (r_commitSeq s) (r_admittedAt s)
    (r_queuedAt s) (r_startedAt s) (r_finishedAt s) (r_errorMsg s).
Definition r_set_dispatchEpoch (v : Z) (s : taskRecord) : taskRecord :=
  mkRecord (r_spec s) (r_state s) (r_permit s) v (r_result s) (r_done s) (r_cancelFunc s)
    (r_cancelRequested s) (r_cancelReason s) (r_callbackReserved s) (r_retainedBytes s)
    (r_durability s) (r_pendingResult s) (r_execOutcome s) (r_commitSeq s) (r_admittedAt s)
    (r_queuedAt s) (r_startedAt s) (r_finishedAt s) (r_errorMsg s).
Definition r_set_result (v : TaskResult) (s : taskRecord) : taskRecord :=
  mkRecord (r_spec s) (r_state s) (r_permit s) (r_dispatchEpoch s) v (r_done s) (r_cancelFunc s)
    (r_cancelRequested s) (r_cancelReason s) (r_callbackReserved s) (r_retainedBytes s)
    (r_durability s) (r_pendingResult s) (r_execOutcome s) (r_commitSeq s) (r_admittedAt s)
    (r_queuedAt s) (r_startedAt s) (r_finishedAt s) (r_errorMsg s).
Definition r_set_done (v : bool) (s : taskRecord) : taskRecord :=
  mkRecord (r_spec s) (r_state s) (r_permit s) (r_dispatchEpoch s) (r_result s) v (r_cancelFunc s)
    (r_cancelRequested s) (r_cancelReason s) (r_callbackReserved s) (r_retainedBytes s)
    (r_durability s) (r_pendingResult s) (r_execOutcome s) (r_commitSeq s) (r_admittedAt s)
    (r_queuedAt s) (r_startedAt s) (r_finishedAt s) (r_errorMsg s).
Definition r_set_cancelFunc (v : option nat) (s : taskRecord) : taskRecord :=
  mkRecord (r_spec s) (r_state s) (r_permit s) (r_dispatchEpoch s) (r_result s) (r_done s) v
    (r_cancelRequested s) (r_cancelReason s) (r_callbackReserved s) (r_retainedBytes s)
    (r_durability s) (r_pendingResult s) (r_execOutcome s) (r_commitSeq s) (r_admittedAt s)
    (r_queuedAt s) (r_startedAt s) (r_finishedAt s) (r_errorMsg s).
Definition r_set_cancelRequested (v : bool) (s : taskRecord) : taskRecord :=
  mkRecord (r_spec s) (r_state s) (r_permit s) (r_dispatchEpoch s) (r_result s) (r_done s)
    (r_cancelFunc s) v (r_cancelReason s) (r_callbackReserved s) (r_retainedBytes s)
    (r_durability s) (r_pendingResult s) (r_execOutcome s) (r_commitSeq s) (r_admittedAt s)
    (r_queuedAt s) (r_startedAt s) (r_finishedAt s) (r_errorMsg s).
Definition r_set_cancelReason (v : Cause) (s : taskRecord) : taskRecord :=
  mkRecord (r_spec s) (r_state s) (r_permit s) (r_dispatchEpoch s) (r_result s) (r_done s)
    (r_cancelFunc s) (r_cancelRequested s) v (r_callbackReserved s) (r_retainedBytes s)
    (r_durability s) (r_pendingResult s) (r_execOutcome s) (r_commitSeq s) (r_admittedAt s)
    (r_queuedAt s) (r_startedAt s) (r_finishedAt s) (r_errorMsg s).
Definition r_set_callbackReserved (v : bool) (s : taskRecord) : taskRecord :=
  mkRecord (r_spec s) (r_state s) (r_permit s) (r_dispatchEpoch s) (r_result s) (r_done s)
    (r_cancelFunc s) (r_cancelRequested s) (r_cancelReason s) v (r_retainedBytes s)
    (r_durability s) (r_pendingResult s) (r_execOutcome s) (r_commitSeq s) (r_admittedAt s)
    (r_queuedAt s) (r_startedAt s) (r_finishedAt s) (r_errorMsg s).
Definition r_set_retainedBytes (v : Z) (s : taskRecord) : taskRecord :=
  mkRecord (r_spec s) (r_state s) (r_permit s) (r_dispatchEpoch s) (r_result s) (r_done s)
    (r_cancelFunc s) (r_cancelRequested s) (r_cancelReason s) (r_callbackReserved s) v
    (r_durability s) (r_pendingResult s) (r_execOutcome s) (r_commitSeq s) (r_admittedAt s)
    (r_queuedAt s) (r_startedAt s) (r_finishedAt s) (r_errorMsg s).
Definition r_set_durability (v : durabilityState) (s : taskRecord) : taskRecord :=
  mkRecord (r_spec s) (r_state s) (r_permit s) (r_dispatchEpoch s) (r_result s) (r_done s)
    (r_cancelFunc s) (r_cancelRequested s) (r_cancelReason s) (r_callbackReserved s)
    (r_retainedBytes s) v (r_pendingResult s) (r_execOutcome s) (r_commitSeq s) (r_admittedAt s)
    (r_queuedAt s) (r_startedAt s) (r_finishedAt s) (r_errorMsg s).
Definition r_set_pendingResult (v : TaskResult) (s : taskRecord) : taskRecord :=
  mkRecord (r_spec s) (r_state s) (r_permit s) (r_dispatchEpoch s) (r_result s) (r_done s)
    (r_cancelFunc s) (r_cancelRequested s) (r_cancelReason s) (r_callbackReserved s)
    (r_retainedBytes s) (r_durability s) v (r_execOutcome s) (r_commitSeq s) (r_admittedAt s)
    (r_queuedAt s) (r_startedAt s) (r_finishedAt s) (r_errorMsg s).
Definition r_set_execOutcome (v : Outcome) (s : taskRecord) : taskRecord :=
  mkRecord (r_spec s) (r_state s) (r_permit s) (r_dispatchEpoch s) (r_result s) (r_done s)
    (r_cancelFunc s) (r_cancelRequested s) (r_cancelReason s) (r_callbackReserved s)
    (r_retainedBytes s) (r_durability s) (r_pendingResult s) v (r_commitSeq s) (r_admittedAt s)
    (r_queuedAt s) (r_startedAt s) (r_finishedAt s) (r_errorMsg s).
Definition r_set_commitSeq (v : Z) (s : taskRecord) : taskRecord :=
  mkRecord (r_spec s) (r_state s) (r_permit s) (r_dispatchEpoch s) (r_result s) (r_done s)
    (r_cancelFunc s) (r_cancelRequested s) (r_cancelReason s) (r_callbackReserved s)
    (r_retainedBytes s) (r_durability s) (r_pendingResult s) (r_execOutcome s) v (r_admittedAt s)
    (r_queuedAt s) (r_startedAt s) (r_finishedAt s) (r_errorMsg s).
Definition r_set_admittedAt (v : time) (s : taskRecord) : taskRecord :=
  mkRecord (r_spec s) (r_state s) (r_permit s) (r_dispatchEpoch s) (r_result s) (r_done s)
    (r_cancelFunc s) (r_cancelRequested s) (r_cancelReason s) (r_callbackReserved s)
    (r_retainedBytes s) (r_durability s) (r_pendingResult s) (r_execOutcome s) (r_commitSeq s) v
    (r_queuedAt s) (r_startedAt s) (r_finishedAt s) (r_errorMsg s).
Definition r_set_queuedAt (v : time) (s : taskRecord) : taskRecord :=
  mkRecord (r_spec s) (r_state s) (r_permit s) (r_dispatchEpoch s) (r_result s) (r_done s)
    (r_cancelFunc s) (r_cancelRequested s) (r_cancelReason s) (r_callbackReserved s)
    (r_retainedBytes s) (r_durability s) (r_pendingResult s) (r_execOutcome s) (r_commitSeq s)
    (r_admittedAt s) v (r_startedAt s) (r_finishedAt s) (r_errorMsg s).
Definition r_set_startedAt (v : time) (s : taskRecord) : taskRecord :=
  mkRecord (r_spec s) (r_state s) (r_permit s) (r_dispatchEpoch s) (r_result s) (r_done s)
    (r_cancelFunc s) (r_cancelRequested s) (r_cancelReason s) (r_callbackReserved s)
    (r_retainedBytes s) (r_durability s) (r_pendingResult s) (r_execOutcome s) (r_commitSeq s)
    (r_admittedAt s) (r_queuedAt s) v (r_finishedAt s) (r_errorMsg s).
Definition r_set_finishedAt (v : time) (s : taskRecord) : taskRecord :=
  mkRecord (r_spec s) (r_state s) (r_permit s) (r_dispatchEpoch s) (r_result s) (r_done s)
    (r_cancelFunc s) (r_cancelRequested s) (r_cancelReason s) (r_callbackReserved s)
    (r_retainedBytes s) (r_durability s) (r_pendingResult s) (r_execOutcome s) (r_commitSeq s)
    (r_admittedAt s) (r_queuedAt s) (r_startedAt s) v (r_errorMsg s).
Definition r_set_errorMsg (v : string) (s : taskRecord) : taskRecord :=
  mkRecord (r_spec s) (r_state s) (r_permit s) (r_dispatchEpoch s) (r_result s) (r_done s)
    (r_cancelFunc s) (r_cancelRequested s) (r_cancelReason s) (r_callbackReserved s)
    (r_retainedBytes s) (r_durability s) (r_pendingResult s) (r_execOutcome s) (r_commitSeq s)
    (r_admittedAt s) (r_queuedAt s) (r_startedAt s) (r_finishedAt s) v.

Definition terminal_state (st : TaskState) : bool :=
  bool_decide (st ∈ [StateCompleted; StateFailed; StateTimedOut; StateCancelled; StateRecoveryRequired]).

Definition isTerminal (r : option taskRecord) : bool :=
  match r with None => false | Some r => terminal_state (r_state r) end.

Record workerAssignment := mkAssignment {
  wa_spec : WorkSpec; wa_permit : permit; wa_taskCtx : nat
}.

(** One worker slot: whether its worker runs, since when it is idle (the zero
    time when it is not), whether it has a cancel function, and its mailbox, a
    channel with room for one assignment ([None] before the first worker). *)
Record slot := mkSlot {
  sl_running : bool;
  sl_idleSince : time;
  sl_cancel : bool;
  sl_mailbox : option (option workerAssignment)
}.

Definition empty_slot : slot := mkSlot false 0 false None.

(** What [beginCommit] started, and where. *)
Inductive commit_path := ViaAckPump | ViaPumpWaiter | ViaDirectLane.
Record commit_request := mkCommit {
  cq_taskID : TaskID; cq_seq : Z; cq_commit : option closure; cq_result : TaskResult;
  cq_bytes : Z; cq_path : commit_path
}.

Inductive fault :=
  | FaultCloseOfClosed (id : TaskID)
  | FaultMailboxFull (pool : PoolID) (slotID : nat)
  | FaultNilMailbox (pool : PoolID) (slotID : nat)
  | FaultIndex (pool : PoolID) (slotID : nat)
  | FaultNilRecord (id : TaskID)
  | FaultEnqueuePanic (id : TaskID)
  | FaultSelectPanic (pool : PoolID).

Section State.
Context {A L : Type}.

Record engine := mkEngine {
  e_configPools : gmap PoolID PoolEngineConfig;
  e_adm : A;
  e_idleSlots : gmap PoolID (list nat);
  e_poolConcurrencies : gmap PoolID Z;
  e_poolMinWorkers : gmap PoolID Z;
  e_poolIdleTimeouts : gmap PoolID Z;
  e_slots : gmap PoolID (list slot);
  e_resourceCapacity : gmap string Z;
  e_resourceUsed : gmap string Z;
  e_dispatchEpoch : Z;
  e_resultCapacity : Z;
  e_resultSlotsHeld : Z;
  e_registry : gmap TaskID taskRecord;
  e_cancelledScopes : gmap ScopeIdentity Cause;
  e_cancelledScopeOrder : list ScopeIdentity;
  e_maxScopeTombstones : Z;
  e_terminalOrder : list TaskID;
  e_maxTerminalRetained : Z;
  e_retainedBytes : Z;
  e_maxRetainedBytes : Z;
  e_maxOutputBytes : Z;
  e_maxFailureBytes : Z;
  e_terminalTTL : duration;
  e_commitSeq : Z;
  e_commitPending : Z;
  e_commitWaiters : gset Z;
  e_delivery : L;
  e_accepting : bool;
  e_quiesced : bool;
  e_drained : bool;
  e_drainDone : bool;
  e_rootLive : bool;
  e_activeTasks : Z;
  e_cancelledCtxs : gset nat;
  e_releasedPermits : gset nat;
  e_commits : list commit_request;
  e_fresh : nat;
  e_ticks : nat;
  e_faults : list fault
}.

Definition e_set_configPools (v : gmap PoolID PoolEngineConfig) (s : engine) : engine :=
  mkEngine v (e_adm s) (e_idleSlots s) (e_poolConcurrencies s) (e_poolMinWorkers s)
    (e_poolIdleTimeouts s) (e_slots s) (e_resourceCapacity s) (e_resourceUsed s)
    (e_dispatchEpoch s) (e_resultCapacity s) (e_resultSlotsHeld s) (e_registry s)
    (e_cancelledScopes s) (e_cancelledScopeOrder s) (e_maxScopeTombstones s) (e_terminalOrder s)
    (e_maxTerminalRetained s) (e_retainedBytes s) (e_maxRetainedBytes s) (e_maxOutputBytes s)
    (e_maxFailureBytes s) (e_terminalTTL s) (e_commitSeq s) (e_commitPending s)
    (e_commitWaiters s) (e_delivery s) (e_accepting s) (e_quiesced s) (e_drained s)
    (e_drainDone s) (e_rootLive s) (e_activeTasks s) (e_cancelledCtxs s) (e_releasedPermits s)
    (e_commits s) (e_fresh s) (e_ticks s) (e_faults s).
Definition e_set_adm (v : A) (s : engine) : engine :=
  mkEngine (e_configPools s) v (e_idleSlots s) (e_poolConcurrencies s) (e_poolMinWorkers s)
    (e_poolIdleTimeouts s) (e_slots s) (e_resourceCapacity s) (e_resourceUsed s)
    (e_dispatchEpoch s) (e_resultCapacity s) (e_resultSlotsHeld s) (e_registry s)
    (e_cancelledScopes s) (e_cancelledScopeOrder s) (e_maxScopeTombstones s) (e_terminalOrder s)
    (e_maxTerminalRetained s) (e_retainedBytes s) (e_maxRetainedBytes s) (e_maxOutputBytes s)
    (e_maxFailureBytes s) (e_terminalTTL s) (e_commitSeq s) (e_commitPending s)
    (e_commitWaiters s) (e_delivery s) (e_accepting s) (e_quiesced s) (e_drained s)
    (e_drainDone s) (e_rootLive s) (e_activeTasks s) (e_cancelledCtxs s) (e_releasedPermits s)
    (e_commits s) (e_fresh s) (e_ticks s) (e_faults s).
Definition e_set_idleSlots (v : gmap PoolID (list nat)) (s : engine) : engine :=
  mkEngine (e_configPools s) (e_adm s) v (e_poolConcurrencies s) (e_poolMinWorkers s)
    (e_poolIdleTimeouts s) (e_slots s) (e_resourceCapacity s) (e_resourceUsed s)
    (e_dispatchEpoch s) (e_resultCapacity s) (e_resultSlotsHeld s) (e_registry s)
    (e_cancelledScopes s) (e_cancelledScopeOrder s) (e_maxScopeTombstones s) (e_terminalOrder s)
    (e_maxTerminalRetained s) (e_retainedBytes s) (e_maxRetainedBytes s) (e_maxOutputBytes s)
    (e_maxFailureBytes s) (e_terminalTTL s) (e_commitSeq s) (e_commitPending s)
    (e_commitWaiters s) (e_delivery s) (e_accepting s) (e_quiesced s) (e_drained s)
    (e_drainDone s) (e_rootLive s) (e_activeTasks s) (e_cancelledCtxs s) (e_releasedPermits s)
    (e_commits s) (e_fresh s) (e_ticks s) (e_faults s).
Definition e_set_poolConcurrencies (v : gmap PoolID Z) (s : engine) : engine :=
  mkEngine (e_configPools s) (e_adm s) (e_idleSlots s) v (e_poolMinWorkers s)
    (e_poolIdleTimeouts s) (e_slots s) (e_resourceCapacity s) (e_resourceUsed s)
    (e_dispatchEpoch s) (e_resultCapacity s) (e_resultSlotsHeld s) (e_registry s)
    (e_cancelledScopes s) (e_cancelledScopeOrder s) (e_maxScopeTombstones s) (e_terminalOrder s)
    (e_maxTerminalRetained s) (e_retainedBytes s) (e_maxRetainedBytes s) (e_maxOutputBytes s)
    (e_maxFailureBytes s) (e_terminalTTL s) (e_commitSeq s) (e_commitPending s)
    (e_commitWaiters s) (e_delivery s) (e_accepting s) (e_quiesced s) (e_drained s)
    (e_drainDone s) (e_rootLive s) (e_activeTasks s) (e_cancelledCtxs s) (e_releasedPermits s)
    (e_commits s) (e_fresh s) (e_ticks s) (e_faults s).
Definition e_set_poolMinWorkers (v : gmap PoolID Z) (s : engine) : engine :=
  mkEngine (e_configPools s) (e_adm s) (e_idleSlots s) (e_poolConcurrencies s) v
    (e_poolIdleTimeouts s) (e_slots s) (e_resourceCapacity s) (e_resourceUsed s)
    (e_dispatchEpoch s) (e_resultCapacity s) (e_resultSlotsHeld s) (e_registry s)
    (e_cancelledScopes s) (e_cancelledScopeOrder s) (e_maxScopeTombstones s) (e_terminalOrder s)
    (e_maxTerminalRetained s) (e_retainedBytes s) (e_maxRetainedBytes s) (e_maxOutputBytes s)
    (e_maxFailureBytes s) (e_terminalTTL s) (e_commitSeq s) (e_commitPending s)
    (e_commitWaiters s) (e_delivery s) (e_accepting s) (e_quiesced s) (e_drained s)
    (e_drainDone s) (e_rootLive s) (e_activeTasks s) (e_cancelledCtxs s) (e_releasedPermits s)
    (e_commits s) (e_fresh s) (e_ticks s) (e_faults s).
Definition e_set_poolIdleTimeouts (v : gmap PoolID Z) (s : engine) : engine :=
  mkEngine (e_configPools s) (e_adm s) (e_idleSlots s) (e_poolConcurrencies s)
    (e_poolMinWorkers s) v (e_slots s) (e_resourceCapacity s) (e_resourceUsed s)
    (e_dispatchEpoch s) (e_resultCapacity s) (e_resultSlotsHeld s) (e_registry s)
    (e_cancelledScopes s) (e_cancelledScopeOrder s) (e_maxScopeTombstones s) (e_terminalOrder s)
    (e_maxTerminalRetained s) (e_retainedBytes s) (e_maxRetainedBytes s) (e_maxOutputBytes s)
    (e_maxFailureBytes s) (e_terminalTTL s) (e_commitSeq s) (e_commitPending s)
    (e_commitWaiters s) (e_delivery s) (e_accepting s) (e_quiesced s) (e_drained s)
    (e_drainDone s) (e_rootLive s) (e_activeTasks s) (e_cancelledCtxs s) (e_releasedPermits s)
    (e_commits s) (e_fresh s) (e_ticks s) (e_faults s).
Definition e_set_slots (v : gmap PoolID (list slot)) (s : engine) : engine :=
  mkEngine (e_configPools s) (e_adm s) (e_idleSlots s) (e_poolConcurrencies s)
    (e_poolMinWorkers s) (e_poolIdleTimeouts s) v (e_resourceCapacity s) (e_resourceUsed s)
    (e_dispatchEpoch s) (e_resultCapacity s) (e_resultSlotsHeld s) (e_registry s)
    (e_cancelledScopes s) (e_cancelledScopeOrder s) (e_maxScopeTombstones s) (e_terminalOrder s)
    (e_maxTerminalRetained s) (e_retainedBytes s) (e_maxRetainedBytes s) (e_maxOutputBytes s)
    (e_maxFailureBytes s) (e_terminalTTL s) (e_commitSeq s) (e_commitPending s)
    (e_commitWaiters s) (e_delivery s) (e_accepting s) (e_quiesced s) (e_drained s)
    (e_drainDone s) (e_rootLive s) (e_activeTasks s) (e_cancelledCtxs s) (e_releasedPermits s)
    (e_commits s) (e_fresh s) (e_ticks s) (e_faults s).
Definition e_set_resourceCapacity (v : gmap string Z) (s : engine) : engine :=
  mkEngine (e_configPools s) (e_adm s) (e_idleSlots s) (e_poolConcurrencies s)
    (e_poolMinWorkers s) (e_poolIdleTimeouts s) (e_slots s) v (e_resourceUsed s)
    (e_dispatchEpoch s) (e_resultCapacity s) (e_resultSlotsHeld s) (e_registry s)
    (e_cancelledScopes s) (e_cancelledScopeOrder s) (e_maxScopeTombstones s) (e_terminalOrder s)
    (e_maxTerminalRetained s) (e_retainedBytes s) (e_maxRetainedBytes s) (e_maxOutputBytes s)
    (e_maxFailureBytes s) (e_terminalTTL s) (e_commitSeq s) (e_commitPending s)
    (e_commitWaiters s) (e_delivery s) (e_accepting s) (e_quiesced s) (e_drained s)
    (e_drainDone s) (e_rootLive s) (e_activeTasks s) (e_cancelledCtxs s) (e_releasedPermits s)
    (e_commits s) (e_fresh s) (e_ticks s) (e_faults s).
Definition e_set_resourceUsed (v : gmap string Z) (s : engine) : engine :=
  mkEngine (e_configPools s) (e_adm s) (e_idleSlots s) (e_poolConcurrencies s)
    (e_poolMinWorkers s) (e_poolIdleTimeouts s) (e_slots s) (e_resourceCapacity s) v
    (e_dispatchEpoch s) (e_resultCapacity s) (e_resultSlotsHeld s) (e_registry s)
    (e_cancelledScopes s) (e_cancelledScopeOrder s) (e_maxScopeTombstones s) (e_terminalOrder s)
    (e_maxTerminalRetained s) (e_retainedBytes s) (e_maxRetainedBytes s) (e_maxOutputBytes s)
    (e_maxFailureBytes s) (e_terminalTTL s) (e_commitSeq s) (e_commitPending s)
    (e_commitWaiters s) (e_delivery s) (e_accepting s) (e_quiesced s) (e_drained s)
    (e_drainDone s) (e_rootLive s) (e_activeTasks s) (e_cancelledCtxs s) (e_releasedPermits s)
    (e_commits s) (e_fresh s) (e_ticks s) (e_faults s).
Definition e_set_dispatchEpoch (v : Z) (s : engine) : engine :=
  mkEngine (e_configPools s) (e_adm s) (e_idleSlots s) (e_poolConcurrencies s)
    (e_poolMinWorkers s) (e_poolIdleTimeouts s) (e_slots s) (e_resourceCapacity s)
    (e_resourceUsed s) v (e_resultCapacity s) (e_resultSlotsHeld s) (e_registry s)
    (e_cancelledScopes s) (e_cancelledScopeOrder s) (e_maxScopeTombstones s) (e_terminalOrder s)
    (e_maxTerminalRetained s) (e_retainedBytes s) (e_maxRetainedBytes s) (e_maxOutputBytes s)
    (e_maxFailureBytes s) (e_terminalTTL s) (e_commitSeq s) (e_commitPending s)
    (e_commitWaiters s) (e_delivery s) (e_accepting s) (e_quiesced s) (e_drained s)
    (e_drainDone s) (e_rootLive s) (e_activeTasks s) (e_cancelledCtxs s) (e_releasedPermits s)
    (e_commits s) (e_fresh s) (e_ticks s) (e_faults s).
Definition e_set_resultCapacity (v : Z) (s : engine) : engine :=
  mkEngine (e_configPools s) (e_adm s) (e_idleSlots s) (e_poolConcurrencies s)
    (e_poolMinWorkers s) (e_poolIdleTimeouts s) (e_slots s) (e_resourceCapacity s)
    (e_resourceUsed s) (e_dispatchEpoch s) v (e_resultSlotsHeld s) (e_registry s)
    (e_cancelledScopes s) (e_cancelledScopeOrder s) (e_maxScopeTombstones s) (e_terminalOrder s)
    (e_maxTerminalRetained s) (e_retainedBytes s) (e_maxRetainedBytes s) (e_maxOutputBytes s)
    (e_maxFailureBytes s) (e_terminalTTL s) (e_commitSeq s) (e_commitPending s)
    (e_commitWaiters s) (e_delivery s) (e_accepting s) (e_quiesced s) (e_drained s)
    (e_drainDone s) (e_rootLive s) (e_activeTasks s) (e_cancelledCtxs s) (e_releasedPermits s)
    (e_commits s) (e_fresh s) (e_ticks s) (e_faults s).
Definition e_set_resultSlotsHeld (v : Z) (s : engine) : engine :=
  mkEngine (e_configPools s) (e_adm s) (e_idleSlots s) (e_poolConcurrencies s)
    (e_poolMinWorkers s) (e_poolIdleTimeouts s) (e_slots s) (e_resourceCapacity s)
    (e_resourceUsed s) (e_dispatchEpoch s) (e_resultCapacity s) v (e_registry s)
    (e_cancelledScopes s) (e_cancelledScopeOrder s) (e_maxScopeTombstones s) (e_terminalOrder s)
    (e_maxTerminalRetained s) (e_retainedBytes s) (e_maxRetainedBytes s) (e_maxOutputBytes s)
    (e_maxFailureBytes s) (e_terminalTTL s) (e_commitSeq s) (e_commitPending s)
    (e_commitWaiters s) (e_delivery s) (e_accepting s) (e_quiesced s) (e_drained s)
    (e_drainDone s) (e_rootLive s) (e_activeTasks s) (e_cancelledCtxs s) (e_releasedPermits s)
    (e_commits s) (e_fresh s) (e_ticks s) (e_faults s).
Definition e_set_registry (v : gmap TaskID taskRecord) (s : engine) : engine :=
  mkEngine (e_configPools s) (e_adm s) (e_idleSlots s) (e_poolConcurrencies s)
    (e_poolMinWorkers s) (e_poolIdleTimeouts s) (e_slots s) (e_resourceCapacity s)
    (e_resourceUsed s) (e_dispatchEpoch s) (e_resultCapacity s) (e_resultSlotsHeld s) v
    (e_cancelledScopes s) (e_cancelledScopeOrder s) (e_maxScopeTombstones s) (e_terminalOrder s)
    (e_maxTerminalRetained s) (e_retainedBytes s) (e_maxRetainedBytes s) (e_maxOutputBytes s)
    (e_maxFailureBytes s) (e_terminalTTL s) (e_commitSeq s) (e_commitPending s)
    (e_commitWaiters s) (e_delivery s) (e_accepting s) (e_quiesced s) (e_drained s)
    (e_drainDone s) (e_rootLive s) (e_activeTasks s) (e_cancelledCtxs s) (e_releasedPermits s)
    (e_commits s) (e_fresh s) (e_ticks s) (e_faults s).
Definition e_set_cancelledScopes (v : gmap ScopeIdentity Cause) (s : engine) : engine :=
  mkEngine (e_configPools s) (e_adm s) (e_idleSlots s) (e_poolConcurrencies s)
    (e_poolMinWorkers s) (e_poolIdleTimeouts s) (e_slots s) (e_resourceCapacity s)
    (e_resourceUsed s) (e_dispatchEpoch s) (e_resultCapacity s) (e_resultSlotsHeld s)
    (e_registry s) v (e_cancelledScopeOrder s) (e_maxScopeTombstones s) (e_terminalOrder s)
    (e_maxTerminalRetained s) (e_retainedBytes s) (e_maxRetainedBytes s) (e_maxOutputBytes s)
    (e_maxFailureBytes s) (e_terminalTTL s) (e_commitSeq s) (e_commitPending s)
    (e_commitWaiters s) (e_delivery s) (e_accepting s) (e_quiesced s) (e_drained s)
    (e_drainDone s) (e_rootLive s) (e_activeTasks s) (e_cancelledCtxs s) (e_releasedPermits s)
    (e_commits s) (e_fresh s) (e_ticks s) (e_faults s).
Definition e_set_cancelledScopeOrder (v : list ScopeIdentity) (s : engine) : engine :=
  mkEngine (e_configPools s) (e_adm s) (e_idleSlots s) (e_poolConcurrencies s)
    (e_poolMinWorkers s) (e_poolIdleTimeouts s) (e_slots s) (e_resourceCapacity s)
    (e_resourceUsed s) (e_dispatchEpoch s) (e_resultCapacity s) (e_resultSlotsHeld s)
    (e_registry s) (e_cancelledScopes s) v (e_maxScopeTombstones s) (e_terminalOrder s)
    (e_maxTerminalRetained s) (e_retainedBytes s) (e_maxRetainedBytes s) (e_maxOutputBytes s)
    (e_maxFailureBytes s) (e_terminalTTL s) (e_commitSeq s) (e_commitPending s)
    (e_commitWaiters s) (e_delivery s) (e_accepting s) (e_quiesced s) (e_drained s)
    (e_drainDone s) (e_rootLive s) (e_activeTasks s) (e_cancelledCtxs s) (e_releasedPermits s)
    (e_commits s) (e_fresh s) (e_ticks s) (e_faults s).
Definition e_set_maxScopeTombstones (v : Z) (s : engine) : engine :=
  mkEngine (e_configPools s) (e_adm s) (e_idleSlots s) (e_poolConcurrencies s)
    (e_poolMinWorkers s) (e_poolIdleTimeouts s) (e_slots s) (e_resourceCapacity s)
    (e_resourceUsed s) (e_dispatchEpoch s) (e_resultCapacity s) (e_resultSlotsHeld s)
    (e_registry s) (e_cancelledScopes s) (e_cancelledScopeOrder s) v (e_terminalOrder s)
    (e_maxTerminalRetained s) (e_retainedBytes s) (e_maxRetainedBytes s) (e_maxOutputBytes s)
    (e_maxFailureBytes s) (e_terminalTTL s) (e_commitSeq s) (e_commitPending s)
    (e_commitWaiters s) (e_delivery s) (e_accepting s) (e_quiesced s) (e_drained s)
    (e_drainDone s) (e_rootLive s) (e_activeTasks s) (e_cancelledCtxs s) (e_releasedPermits s)
    (e_commits s) (e_fresh s) (e_ticks s) (e_faults s).
Definition e_set_terminalOrder (v : list TaskID) (s : engine) : engine :=
  mkEngine (e_configPools s) (e_adm s) (e_idleSlots s) (e_poolConcurrencies s)
    (e_poolMinWorkers s) (e_poolIdleTimeouts s) (e_slots s) (e_resourceCapacity s)
    (e_resourceUsed s) (e_dispatchEpoch s) (e_resultCapacity s) (e_resultSlotsHeld s)
    (e_registry s) (e_cancelledScopes s) (e_cancelledScopeOrder s) (e_maxScopeTombstones s) v
    (e_maxTerminalRetained s) (e_retainedBytes s) (e_maxRetainedBytes s) (e_maxOutputBytes s)
    (e_maxFailureBytes s) (e_terminalTTL s) (e_commitSeq s) (e_commitPending s)
    (e_commitWaiters s) (e_delivery s) (e_accepting s) (e_quiesced s) (e_drained s)
    (e_drainDone s) (e_rootLive s) (e_activeTasks s) (e_cancelledCtxs s) (e_releasedPermits s)
    (e_commits s) (e_fresh s) (e_ticks s) (e_faults s).
Definition e_set_maxTerminalRetained (v : Z) (s : engine) : engine :=
  mkEngine (e_configPools s) (e_adm s) (e_idleSlots s) (e_poolConcurrencies s)
    (e_poolMinWorkers s) (e_poolIdleTimeouts s) (e_slots s) (e_resourceCapacity s)
    (e_resourceUsed s) (e_dispatchEpoch s) (e_resultCapacity s) (e_resultSlotsHeld s)
    (e_registry s) (e_cancelledScopes s) (e_cancelledScopeOrder s) (e_maxScopeTombstones s)
    (e_terminalOrder s) v (e_retainedBytes s) (e_maxRetainedBytes s) (e_maxOutputBytes s)
    (e_maxFailureBytes s) (e_terminalTTL s) (e_commitSeq s) (e_commitPending s)
    (e_commitWaiters s) (e_delivery s) (e_accepting s) (e_quiesced s) (e_drained s)
    (e_drainDone s) (e_rootLive s) (e_activeTasks s) (e_cancelledCtxs s) (e_releasedPermits s)
    (e_commits s) (e_fresh s) (e_ticks s) (e_faults s).
Definition e_set_retainedBytes (v : Z) (s : engine) : engine :=
  mkEngine (e_configPools s) (e_adm s) (e_idleSlots s) (e_poolConcurrencies s)
    (e_poolMinWorkers s) (e_poolIdleTimeouts s) (e_slots s) (e_resourceCapacity s)
    (e_resourceUsed s) (e_dispatchEpoch s) (e_resultCapacity s) (e_resultSlotsHeld s)
    (e_registry s) (e_cancelledScopes s) (e_cancelledScopeOrder s) (e_maxScopeTombstones s)
    (e_terminalOrder s) (e_maxTerminalRetained s) v (e_maxRetainedBytes s) (e_maxOutputBytes s)
    (e_maxFailureBytes s) (e_terminalTTL s) (e_commitSeq s) (e_commitPending s)
    (e_commitWaiters s) (e_delivery s) (e_accepting s) (e_quiesced s) (e_drained s)
    (e_drainDone s) (e_rootLive s) (e_activeTasks s) (e_cancelledCtxs s) (e_releasedPermits s)
    (e_commits s) (e_fresh s) (e_ticks s) (e_faults s).
Definition e_set_maxRetainedBytes (v : Z) (s : engine) : engine :=
  mkEngine (e_configPools s) (e_adm s) (e_idleSlots s) (e_poolConcurrencies s)
    (e_poolMinWorkers s) (e_poolIdleTimeouts s) (e_slots s) (e_resourceCapacity s)
    (e_resourceUsed s) (e_dispatchEpoch s) (e_resultCapacity s) (e_resultSlotsHeld s)
    (e_registry s) (e_cancelledScopes s) (e_cancelledScopeOrder s) (e_maxScopeTombstones s)
    (e_terminalOrder s) (e_maxTerminalRetained s) (e_retainedBytes s) v (e_maxOutputBytes s)
    (e_maxFailureBytes s) (e_terminalTTL s) (e_commitSeq s) (e_commitPending s)
    (e_commitWaiters s) (e_delivery s) (e_accepting s) (e_quiesced s) (e_drained s)
    (e_drainDone s) (e_rootLive s) (e_activeTasks s) (e_cancelledCtxs s) (e_releasedPermits s)
    (e_commits s) (e_fresh s) (e_ticks s) (e_faults s).
Definition e_set_maxOutputBytes (v : Z) (s : engine) : engine :=
  mkEngine (e_configPools s) (e_adm s) (e_idleSlots s) (e_poolConcurrencies s)
    (e_poolMinWorkers s) (e_poolIdleTimeouts s) (e_slots s) (e_resourceCapacity s)
    (e_resourceUsed s) (e_dispatchEpoch s) (e_resultCapacity s) (e_resultSlotsHeld s)
    (e_registry s) (e_cancelledScopes s) (e_cancelledScopeOrder s) (e_maxScopeTombstones s)
    (e_terminalOrder s) (e_maxTerminalRetained s) (e_retainedBytes s) (e_maxRetainedBytes s) v
    (e_maxFailureBytes s) (e_terminalTTL s) (e_commitSeq s) (e_commitPending s)
    (e_commitWaiters s) (e_delivery s) (e_accepting s) (e_quiesced s) (e_drained s)
    (e_drainDone s) (e_rootLive s) (e_activeTasks s) (e_cancelledCtxs s) (e_releasedPermits s)
    (e_commits s) (e_fresh s) (e_ticks s) (e_faults s).
Definition e_set_maxFailureBytes (v : Z) (s : engine) : engine :=
  mkEngine (e_configPools s) (e_adm s) (e_idleSlots s) (e_poolConcurrencies s)
    (e_poolMinWorkers s) (e_poolIdleTimeouts s) (e_slots s) (e_resourceCapacity s)
    (e_resourceUsed s) (e_dispatchEpoch s) (e_resultCapacity s) (e_resultSlotsHeld s)
    (e_registry s) (e_cancelledScopes s) (e_cancelledScopeOrder s) (e_maxScopeTombstones s)
    (e_terminalOrder s) (e_maxTerminalRetained s) (e_retainedBytes s) (e_maxRetainedBytes s)
    (e_maxOutputBytes s) v (e_terminalTTL s) (e_commitSeq s) (e_commitPending s)
    (e_commitWaiters s) (e_delivery s) (e_accepting s) (e_quiesced s) (e_drained s)
    (e_drainDone s) (e_rootLive s) (e_activeTasks s) (e_cancelledCtxs s) (e_releasedPermits s)
    (e_commits s) (e_fresh s) (e_ticks s) (e_faults s).
Definition e_set_terminalTTL (v : duration) (s : engine) : engine :=
  mkEngine (e_configPools s) (e_adm s) (e_idleSlots s) (e_poolConcurrencies s)
    (e_poolMinWorkers s) (e_poolIdleTimeouts s) (e_slots s) (e_resourceCapacity s)
    (e_resourceUsed s) (e_dispatchEpoch s) (e_resultCapacity s) (e_resultSlotsHeld s)
    (e_registry s) (e_cancelledScopes s) (e_cancelledScopeOrder s) (e_maxScopeTombstones s)
    (e_terminalOrder s) (e_maxTerminalRetained s) (e_retainedBytes s) (e_maxRetainedBytes s)
    (e_maxOutputBytes s) (e_maxFailureBytes s) v (e_commitSeq s) (e_commitPending s)
    (e_commitWaiters s) (e_delivery s) (e_accepting s) (e_quiesced s) (e_drained s)
    (e_drainDone s) (e_rootLive s) (e_activeTasks s) (e_cancelledCtxs s) (e_releasedPermits s)
    (e_commits s) (e_fresh s) (e_ticks s) (e_faults s).
Definition e_set_commitSeq (v : Z) (s : engine) : engine :=
  mkEngine (e_configPools s) (e_adm s) (e_idleSlots s) (e_poolConcurrencies s)
    (e_poolMinWorkers s) (e_poolIdleTimeouts s) (e_slots s) (e_resourceCapacity s)
    (e_resourceUsed s) (e_dispatchEpoch s) (e_resultCapacity s) (e_resultSlotsHeld s)
    (e_registry s) (e_cancelledScopes s) (e_cancelledScopeOrder s) (e_maxScopeTombstones s)
    (e_terminalOrder s) (e_maxTerminalRetained s) (e_retainedBytes s) (e_maxRetainedBytes s)
    (e_maxOutputBytes s) (e_maxFailureBytes s) (e_terminalTTL s) v (e_commitPending s)
    (e_commitWaiters s) (e_delivery s) (e_accepting s) (e_quiesced s) (e_drained s)
    (e_drainDone s) (e_rootLive s) (e_activeTasks s) (e_cancelledCtxs s) (e_releasedPermits s)
    (e_commits s) (e_fresh s) (e_ticks s) (e_faults s).
Definition e_set_commitPending (v : Z) (s : engine) : engine :=
  mkEngine (e_configPools s) (e_adm s) (e_idleSlots s) (e_poolConcurrencies s)
    (e_poolMinWorkers s) (e_poolIdleTimeouts s) (e_slots s) (e_resourceCapacity s)
    (e_resourceUsed s) (e_dispatchEpoch s) (e_resultCapacity s) (e_resultSlotsHeld s)
    (e_registry s) (e_cancelledScopes s) (e_cancelledScopeOrder s) (e_maxScopeTombstones s)
    (e_terminalOrder s) (e_maxTerminalRetained s) (e_retainedBytes s) (e_maxRetainedBytes s)
    (e_maxOutputBytes s) (e_maxFailureBytes s) (e_terminalTTL s) (e_commitSeq s) v
    (e_commitWaiters s) (e_delivery s) (e_accepting s) (e_quiesced s) (e_drained s)
    (e_drainDone s) (e_rootLive s) (e_activeTasks s) (e_cancelledCtxs s) (e_releasedPermits s)
    (e_commits s) (e_fresh s) (e_ticks s) (e_faults s).
Definition e_set_commitWaiters (v : gset Z) (s : engine) : engine :=
  mkEngine (e_configPools s) (e_adm s) (e_idleSlots s) (e_poolConcurrencies s)
    (e_poolMinWorkers s) (e_poolIdleTimeouts s) (e_slots s) (e_resourceCapacity s)
    (e_resourceUsed s) (e_dispatchEpoch s) (e_resultCapacity s) (e_resultSlotsHeld s)
    (e_registry s) (e_cancelledScopes s) (e_cancelledScopeOrder s) (e_maxScopeTombstones s)
    (e_terminalOrder s) (e_maxTerminalRetained s) (e_retainedBytes s) (e_maxRetainedBytes s)
    (e_maxOutputBytes s) (e_maxFailureBytes s) (e_terminalTTL s) (e_commitSeq s)
    (e_commitPending s) v (e_delivery s) (e_accepting s) (e_quiesced s) (e_drained s)
    (e_drainDone s) (e_rootLive s) (e_activeTasks s) (e_cancelledCtxs s) (e_releasedPermits s)
    (e_commits s) (e_fresh s) (e_ticks s) (e_faults s).
Definition e_set_delivery (v : L) (s : engine) : engine :=
  mkEngine (e_configPools s) (e_adm s) (e_idleSlots s) (e_poolConcurrencies s)
    (e_poolMinWorkers s) (e_poolIdleTimeouts s) (e_slots s) (e_resourceCapacity s)
    (e_resourceUsed s) (e_dispatchEpoch s) (e_resultCapacity s) (e_resultSlotsHeld s)
    (e_registry s) (e_cancelledScopes s) (e_cancelledScopeOrder s) (e_maxScopeTombstones s)
    (e_terminalOrder s) (e_maxTerminalRetained s) (e_retainedBytes s) (e_maxRetainedBytes s)
    (e_maxOutputBytes s) (e_maxFailureBytes s) (e_terminalTTL s) (e_commitSeq s)
    (e_commitPending s) (e_commitWaiters s) v (e_accepting s) (e_quiesced s) (e_drained s)
    (e_drainDone s) (e_rootLive s) (e_activeTasks s) (e_cancelledCtxs s) (e_releasedPermits s)
    (e_commits s) (e_fresh s) (e_ticks s) (e_faults s).
Definition e_set_accepting (v : bool) (s : engine) : engine :=
  mkEngine (e_configPools s) (e_adm s) (e_idleSlots s) (e_poolConcurrencies s)
    (e_poolMinWorkers s) (e_poolIdleTimeouts s) (e_slots s) (e_resourceCapacity s)
    (e_resourceUsed s) (e_dispatchEpoch s) (e_resultCapacity s) (e_resultSlotsHeld s)
    (e_registry s) (e_cancelledScopes s) (e_cancelledScopeOrder s) (e_maxScopeTombstones s)
    (e_terminalOrder s) (e_maxTerminalRetained s) (e_retainedBytes s) (e_maxRetainedBytes s)
    (e_maxOutputBytes s) (e_maxFailureBytes s) (e_terminalTTL s) (e_commitSeq s)
    (e_commitPending s) (e_commitWaiters s) (e_delivery s) v (e_quiesced s) (e_drained s)
    (e_drainDone s) (e_rootLive s) (e_activeTasks s) (e_cancelledCtxs s) (e_releasedPermits s)
    (e_commits s) (e_fresh s) (e_ticks s) (e_faults s).
Definition e_set_quiesced (v : bool) (s : engine) : engine :=
  mkEngine (e_configPools s) (e_adm s) (e_idleSlots s) (e_poolConcurrencies s)
    (e_poolMinWorkers s) (e_poolIdleTimeouts s) (e_slots s) (e_resourceCapacity s)
    (e_resourceUsed s) (e_dispatchEpoch s) (e_resultCapacity s) (e_resultSlotsHeld s)
    (e_registry s) (e_cancelledScopes s) (e_cancelledScopeOrder s) (e_maxScopeTombstones s)
    (e_terminalOrder s) (e_maxTerminalRetained s) (e_retainedBytes s) (e_maxRetainedBytes s)
    (e_maxOutputBytes s) (e_maxFailureBytes s) (e_terminalTTL s) (e_commitSeq s)
    (e_commitPending s) (e_commitWaiters s) (e_delivery s) (e_accepting s) v (e_drained s)
    (e_drainDone s) (e_rootLive s) (e_activeTasks s) (e_cancelledCtxs s) (e_releasedPermits s)
    (e_commits s) (e_fresh s) (e_ticks s) (e_faults s).
Definition e_set_drained (v : bool) (s : engine) : engine :=
  mkEngine (e_configPools s) (e_adm s) (e_idleSlots s) (e_poolConcurrencies s)
    (e_poolMinWorkers s) (e_poolIdleTimeouts s) (e_slots s) (e_resourceCapacity s)
    (e_resourceUsed s) (e_dispatchEpoch s) (e_resultCapacity s) (e_resultSlotsHeld s)
    (e_registry s) (e_cancelledScopes s) (e_cancelledScopeOrder s) (e_maxScopeTombstones s)
    (e_terminalOrder s) (e_maxTerminalRetained s) (e_retainedBytes s) (e_maxRetainedBytes s)
    (e_maxOutputBytes s) (e_maxFailureBytes s) (e_terminalTTL s) (e_commitSeq s)
    (e_commitPending s) (e_commitWaiters s) (e_delivery s) (e_accepting s) (e_quiesced s) v
    (e_drainDone s) (e_rootLive s) (e_activeTasks s) (e_cancelledCtxs s) (e_releasedPermits s)
    (e_commits s) (e_fresh s) (e_ticks s) (e_faults s).
Definition e_set_drainDone (v : bool) (s : engine) : engine :=
  mkEngine (e_configPools s) (e_adm s) (e_idleSlots s) (e_poolConcurrencies s)
    (e_poolMinWorkers s) (e_poolIdleTimeouts s) (e_slots s) (e_resourceCapacity s)
    (e_resourceUsed s) (e_dispatchEpoch s) (e_resultCapacity s) (e_resultSlotsHeld s)
    (e_registry s) (e_cancelledScopes s) (e_cancelledScopeOrder s) (e_maxScopeTombstones s)
    (e_terminalOrder s) (e_maxTerminalRetained s) (e_retainedBytes s) (e_maxRetainedBytes s)
    (e_maxOutputBytes s) (e_maxFailureBytes s) (e_terminalTTL s) (e_commitSeq s)
    (e_commitPending s) (e_commitWaiters s) (e_delivery s) (e_accepting s) (e_quiesced s)
    (e_drained s) v (e_rootLive s) (e_activeTasks s) (e_cancelledCtxs s) (e_releasedPermits s)
    (e_commits s) (e_fresh s) (e_ticks s) (e_faults s).
Definition e_set_rootLive (v : bool) (s : engine) : engine :=
  mkEngine (e_configPools s) (e_adm s) (e_idleSlots s) (e_poolConcurrencies s)
    (e_poolMinWorkers s) (e_poolIdleTimeouts s) (e_slots s) (e_resourceCapacity s)
    (e_resourceUsed s) (e_dispatchEpoch s) (e_resultCapacity s) (e_resultSlotsHeld s)
    (e_registry s) (e_cancelledScopes s) (e_cancelledScopeOrder s) (e_maxScopeTombstones s)
    (e_terminalOrder s) (e_maxTerminalRetained s) (e_retainedBytes s) (e_maxRetainedBytes s)
    (e_maxOutputBytes s) (e_maxFailureBytes s) (e_terminalTTL s) (e_commitSeq s)
    (e_commitPending s) (e_commitWaiters s) (e_delivery s) (e_accepting s) (e_quiesced s)
    (e_drained s) (e_drainDone s) v (e_activeTasks s) (e_cancelledCtxs s) (e_releasedPermits s)
    (e_commits s) (e_fresh s) (e_ticks s) (e_faults s).
Definition e_set_activeTasks (v : Z) (s : engine) : engine :=
  mkEngine (e_configPools s) (e_adm s) (e_idleSlots s) (e_poolConcurrencies s)
    (e_poolMinWorkers s) (e_poolIdleTimeouts s) (e_slots s) (e_resourceCapacity s)
    (e_resourceUsed s) (e_dispatchEpoch s) (e_resultCapacity s) (e_resultSlotsHeld s)
    (e_registry s) (e_cancelledScopes s) (e_cancelledScopeOrder s) (e_maxScopeTombstones s)
    (e_terminalOrder s) (e_maxTerminalRetained s) (e_retainedBytes s) (e_maxRetainedBytes s)
    (e_maxOutputBytes s) (e_maxFailureBytes s) (e_terminalTTL s) (e_commitSeq s)
    (e_commitPending s) (e_commitWaiters s) (e_delivery s) (e_accepting s) (e_quiesced s)
    (e_drained s) (e_drainDone s) (e_rootLive s) v (e_cancelledCtxs s) (e_releasedPermits s)
    (e_commits s) (e_fresh s) (e_ticks s) (e_faults s).
Definition e_set_cancelledCtxs (v : gset nat) (s : engine) : engine :=
  mkEngine (e_configPools s) (e_adm s) (e_idleSlots s) (e_poolConcurrencies s)
    (e_poolMinWorkers s) (e_poolIdleTimeouts s) (e_slots s) (e_resourceCapacity s)
    (e_resourceUsed s) (e_dispatchEpoch s) (e_resultCapacity s) (e_resultSlotsHeld s)
    (e_registry s) (e_cancelledScopes s) (e_cancelledScopeOrder s) (e_maxScopeTombstones s)
    (e_terminalOrder s) (e_maxTerminalRetained s) (e_retainedBytes s) (e_maxRetainedBytes s)
    (e_maxOutputBytes s) (e_maxFailureBytes s) (e_terminalTTL s) (e_commitSeq s)
    (e_commitPending s) (e_commitWaiters s) (e_delivery s) (e_accepting s) (e_quiesced s)
    (e_drained s) (e_drainDone s) (e_rootLive s) (e_activeTasks s) v (e_releasedPermits s)
    (e_commits s) (e_fresh s) (e_ticks s) (e_faults s).
Definition e_set_releasedPermits (v : gset nat) (s : engine) : engine :=
  mkEngine (e_configPools s) (e_adm s) (e_idleSlots s) (e_poolConcurrencies s)
    (e_poolMinWorkers s) (e_poolIdleTimeouts s) (e_slots s) (e_resourceCapacity s)
    (e_resourceUsed s) (e_dispatchEpoch s) (e_resultCapacity s) (e_resultSlotsHeld s)
    (e_registry s) (e_cancelledScopes s) (e_cancelledScopeOrder s) (e_maxScopeTombstones s)
    (e_terminalOrder s) (e_maxTerminalRetained s) (e_retainedBytes s) (e_maxRetainedBytes s)
    (e_maxOutputBytes s) (e_maxFailureBytes s) (e_terminalTTL s) (e_commitSeq s)
    (e_commitPending s) (e_commitWaiters s) (e_delivery s) (e_accepting s) (e_quiesced s)
    (e_drained s) (e_drainDone s) (e_rootLive s) (e_activeTasks s) (e_cancelledCtxs s) v
    (e_commits s) (e_fresh s) (e_ticks s) (e_faults s).
Definition e_set_commits (v : list commit_request) (s : engine) : engine :=
  mkEngine (e_configPools s) (e_adm s) (e_idleSlots s) (e_poolConcurrencies s)
    (e_poolMinWorkers s) (e_poolIdleTimeouts s) (e_slots s) (e_resourceCapacity s)
    (e_resourceUsed s) (e_dispatchEpoch s) (e_resultCapacity s) (e_resultSlotsHeld s)
    (e_registry s) (e_cancelledScopes s) (e_cancelledScopeOrder s) (e_maxScopeTombstones s)
    (e_terminalOrder s) (e_maxTerminalRetained s) (e_retainedBytes s) (e_maxRetainedBytes s)
    (e_maxOutputBytes s) (e_maxFailureBytes s) (e_terminalTTL s) (e_commitSeq s)
    (e_commitPending s) (e_commitWaiters s) (e_delivery s) (e_accepting s) (e_quiesced s)
    (e_drained s) (e_drainDone s) (e_rootLive s) (e_activeTasks s) (e_cancelledCtxs s)
    (e_releasedPermits s) v (e_fresh s) (e_ticks s) (e_faults s).
Definition e_set_fresh (v : nat) (s : engine) : engine :=
  mkEngine (e_configPools s) (e_adm s) (e_idleSlots s) (e_poolConcurrencies s)
    (e_poolMinWorkers s) (e_poolIdleTimeouts s) (e_slots s) (e_resourceCapacity s)
    (e_resourceUsed s) (e_dispatchEpoch s) (e_resultCapacity s) (e_resultSlotsHeld s)
    (e_registry s) (e_cancelledScopes s) (e_cancelledScopeOrder s) (e_maxScopeTombstones s)
    (e_terminalOrder s) (e_maxTerminalRetained s) (e_retainedBytes s) (e_maxRetainedBytes s)
    (e_maxOutputBytes s) (e_maxFailureBytes s) (e_terminalTTL s) (e_commitSeq s)
    (e_commitPending s) (e_commitWaiters s) (e_delivery s) (e_accepting s) (e_quiesced s)
    (e_drained s) (e_drainDone s) (e_rootLive s) (e_activeTasks s) (e_cancelledCtxs s)
    (e_releasedPermits s) (e_commits s) v (e_ticks s) (e_faults s).
Definition e_set_ticks (v : nat) (s : engine) : engine :=
  mkEngine (e_configPools s) (e_adm s) (e_idleSlots s) (e_poolConcurrencies s)
    (e_poolMinWorkers s) (e_poolIdleTimeouts s) (e_slots s) (e_resourceCapacity s)
    (e_resourceUsed s) (e_dispatchEpoch s) (e_resultCapacity s) (e_resultSlotsHeld s)
    (e_registry s) (e_cancelledScopes s) (e_cancelledScopeOrder s) (e_maxScopeTombstones s)
    (e_terminalOrder s) (e_maxTerminalRetained s) (e_retainedBytes s) (e_maxRetainedBytes s)
    (e_maxOutputBytes s) (e_maxFailureBytes s) (e_terminalTTL s) (e_commitSeq s)
    (e_commitPending s) (e_commitWaiters s) (e_delivery s) (e_accepting s) (e_quiesced s)
    (e_drained s) (e_drainDone s) (e_rootLive s) (e_activeTasks s) (e_cancelledCtxs s)
    (e_releasedPermits s) (e_commits s) (e_fresh s) v (e_faults s).
Definition e_set_faults (v : list fault) (s : engine) : engine :=
  mkEngine (e_configPools s) (e_adm s) (e_idleSlots s) (e_poolConcurrencies s)
    (e_poolMinWorkers s) (e_poolIdleTimeouts s) (e_slots s) (e_resourceCapacity s)
    (e_resourceUsed s) (e_dispatchEpoch s) (e_resultCapacity s) (e_resultSlotsHeld s)
    (e_registry s) (e_cancelledScopes s) (e_cancelledScopeOrder s) (e_maxScopeTombstones s)
    (e_terminalOrder s) (e_maxTerminalRetained s) (e_retainedBytes s) (e_maxRetainedBytes s)
    (e_maxOutputBytes s) (e_maxFailureBytes s) (e_terminalTTL s) (e_commitSeq s)
    (e_commitPending s) (e_commitWaiters s) (e_delivery s) (e_accepting s) (e_quiesced s)
    (e_drained s) (e_drainDone s) (e_rootLive s) (e_activeTasks s) (e_cancelledCtxs s)
    (e_releasedPermits s) (e_commits s) (e_fresh s) (e_ticks s) v.

Definition pool_slots (s : engine) (pool : PoolID) : list slot := default [] (e_slots s !! pool).
Definition idle_slots (s : engine) (pool : PoolID) : list nat := default [] (e_idleSlots s !! pool).

Definition set_slot (pool : PoolID) (i : nat) (f : slot -> slot) (s : engine) : engine :=
  e_set_slots (alter (alter f i) pool (e_slots s)) s.
Definition set_idle (pool : PoolID) (l : list nat) (s : engine) : engine :=
  e_set_idleSlots (<[pool := l]> (e_idleSlots s)) s.
Definition set_rec (id : TaskID) (r : taskRecord) (s : engine) : engine :=
  e_set_registry (<[id := r]> (e_registry s)) s.
Definition add_fault (f : fault) (s : engine) : engine := e_set_faults (e_faults s ++ [f]) s.

(** ** [NewEngine] *)

Definition orElse (n d : Z) : Z := if n <=? 0 then d else n.

Definition NewEngine `{AdmissionOps A} (newDelivery : Z -> Z -> L) (cfg : Config) : engine :=
  let defaults := newDefaultConfig in
  let resultCapacity := orElse (cf_ResultCapacity cfg) (cf_ResultCapacity defaults) in
  let poolsSource := if decide (cf_Pools cfg = ∅) then cf_Pools defaults else cf_Pools cfg in
  let pools := (fun p => pe_set_Concurrency (effectivePoolConcurrency p) p) <$> poolsSource in
  let deliveryWorkers := orElse (cf_DeliveryConcurrency cfg) DefaultDeliveryConcurrency in
  let deliveryCap :=
    if cf_DeliveryQueueCap cfg <=? 0
    then (if resultCapacity <? 256 then 256 else resultCapacity) else cf_DeliveryQueueCap cfg in
  {| e_configPools := pools;
     e_adm := a_new ((fun p => mkPoolConfig (pe_BacklogLimit p) (pe_PayloadBudget p)) <$> pools);
     e_idleSlots := (fun _ => []) <$> pools;
     e_poolConcurrencies := pe_Concurrency <$> pools;
     e_poolMinWorkers := (fun p => effectivePoolMinimum p (pe_Concurrency p)) <$> pools;
     e_poolIdleTimeouts := (fun p => orElse (pe_IdleTimeout p) (10 * second)) <$> pools;
     e_slots := (fun p => replicate (Z.to_nat (pe_Concurrency p)) empty_slot) <$> pools;
     e_resourceCapacity := cf_ResourceCapacities cfg;
     e_resourceUsed := ∅;
     e_dispatchEpoch := 0;
     e_resultCapacity := resultCapacity;
     e_resultSlotsHeld := 0;
     e_registry := ∅;
     e_cancelledScopes := ∅;
     e_cancelledScopeOrder := [];
     e_maxScopeTombstones := orElse (cf_MaxScopeTombstones cfg) (cf_MaxScopeTombstones defaults);
     e_terminalOrder := [];
     e_maxTerminalRetained :=
       if cf_MaxTerminalRetained cfg =? 0 then 1000 else cf_MaxTerminalRetained cfg;
     e_retainedBytes := 0;
     e_maxRetainedBytes := orElse (cf_MaxRetainedBytes cfg) DefaultMaxRetainedBytes;
     e_maxOutputBytes := orElse (cf_MaxOutputBytes cfg) DefaultMaxOutputBytes;
     e_maxFailureBytes := orElse (cf_MaxFailureBytes cfg) DefaultMaxFailureBytes;
     e_terminalTTL := cf_TerminalTTL cfg;
     e_commitSeq := 0;
     e_commitPending := 0;
     e_commitWaiters := ∅;
     e_delivery := newDelivery deliveryWorkers deliveryCap;
     e_accepting := false;
     e_quiesced := false;
     e_drained := false;
     e_drainDone := false;
     e_rootLive := false;
     e_activeTasks := 0;
     e_cancelledCtxs := ∅;
     e_releasedPermits := ∅;
     e_commits := [];
     e_fresh := 0;
     e_ticks := 0;
     e_faults := [] |}.

End State.

Arguments engine : clear implicits.
