(* ===== verification/Delivery.v ===== *)
(** * The completion-delivery lane

    Models [internal/taskengine/delivery.go]. [reserve], [releaseReservation],
    [enqueueReserved] and the others are the operations as the coordinator sees
    them, on the shared state of the lane, and implement the interface
    [DeliveryOps] of the engine. [lane_step] is the lane under concurrency: the
    coordinator, inside [enqueueReserved] between its atomic accesses, and any
    number of delivery workers, each at one of the atomic accesses of [loop],
    [signalDrained] and [workerDone]. Atomic counters and channel operations are
    one step each; the two mutexes are held over the steps between lock and
    unlock. Two sequences that run under [workerMu] are one step: the loads and
    spawns of [ensureWorkersLocked], and the send of [enqueueReserved] with what
    follows it. *)

From S2P Require Import Prelude.
From S2P Require Import Execution.
From S2P Require Import Tasks.
From S2P Require Import EngineState.

Record deliveryItem := mkItem { di_fn : closure; di_res : TaskResult; di_release : bool }.

(** Where a delivery worker is. *)
Inductive worker_pc :=
  | WSelect                          (* at the select of [loop] *)
  | WReceived (x : deliveryItem)     (* before [active.Add(1)] *)
  | WActive (x : deliveryItem)       (* before [pending.Add(-1)] *)
  | WRun (x : deliveryItem)          (* in the callback *)
  | WReturned (x : deliveryItem)     (* before [active.Add(-1)] *)
  | WRelease (x : deliveryItem)      (* before [releaseReservation] *)
  | WSignal (k : nat)                (* [signalDrained], [k] loads done *)
  | WSignalLock                      (* before [drainMu.Lock()] *)
  | WSignalLocked (k : nat)          (* under [drainMu], [k] loads done *)
  | WSignalSet                       (* under [drainMu], before [drained = true] *)
  | WExit                            (* before [remaining.Add(-1)] *)
  | WLeave (last : bool)             (* before [stopping.Load()]; [last]: it brought the count to zero *)
  | WCheck                           (* before [pending.Load()] of [workerDone] *)
  | WEnsure.                         (* before the lock of [ensureWorkers] *)

(** Where the coordinator is in [enqueueReserved]. *)
Inductive enqueue_pc :=
  | EIdle
  | EMark (x : deliveryItem)         (* before [markBusy] *)
  | EPend (x : deliveryItem)         (* before [pending.Add(1)] *)
  | ESend (x : deliveryItem).        (* before the send *)

Record lane := mkLane {
  ln_queue : list deliveryItem;
  ln_cap : Z;
  ln_reservations : Z;
  ln_workers : Z;
  ln_pending : Z;
  ln_active : Z;
  ln_failed : Z;
  ln_stopping : bool;
  ln_remaining : Z;
  ln_done : bool;
  ln_drained : bool;
  ln_drainClosed : bool;
  ln_drainMu : option nat;
  ln_loops : gmap nat worker_pc;
  ln_next : nat;
  ln_enqueue : enqueue_pc;
  ln_held : Z
}.

Definition ln_set_queue (v : list deliveryItem) (s : lane) : lane :=
  mkLane v (ln_cap s) (ln_reservations s) (ln_workers s) (ln_pending s) (ln_active s)
    (ln_failed s) (ln_stopping s) (ln_remaining s) (ln_done s) (ln_drained s) (ln_drainClosed s)
    (ln_drainMu s) (ln_loops s) (ln_next s) (ln_enqueue s) (ln_held s).
Definition ln_set_cap (v : Z) (s : lane) : lane :=
  mkLane (ln_queue s) v (ln_reservations s) (ln_workers s) (ln_pending s) (ln_active s)
    (ln_failed s) (ln_stopping s) (ln_remaining s) (ln_done s) (ln_drained s) (ln_drainClosed s)
    (ln_drainMu s) (ln_loops s) (ln_next s) (ln_enqueue s) (ln_held s).
Definition ln_set_reservations (v : Z) (s : lane) : lane :=
  mkLane (ln_queue s) (ln_cap s) v (ln_workers s) (ln_pending s) (ln_active s) (ln_failed s)
    (ln_stopping s) (ln_remaining s) (ln_done s) (ln_drained s) (ln_drainClosed s) (ln_drainMu s)
    (ln_loops s) (ln_next s) (ln_enqueue s) (ln_held s).
Definition ln_set_workers (v : Z) (s : lane) : lane :=
  mkLane (ln_queue s) (ln_cap s) (ln_reservations s) v (ln_pending s) (ln_active s) (ln_failed s)
    (ln_stopping s) (ln_remaining s) (ln_done s) (ln_drained s) (ln_drainClosed s) (ln_drainMu s)
    (ln_loops s) (ln_next s) (ln_enqueue s) (ln_held s).
Definition ln_set_pending (v : Z) (s : lane) : lane :=
  mkLane (ln_queue s) (ln_cap s) (ln_reservations s) (ln_workers s) v (ln_active s) (ln_failed s)
    (ln_stopping s) (ln_remaining s) (ln_done s) (ln_drained s) (ln_drainClosed s) (ln_drainMu s)
    (ln_loops s) (ln_next s) (ln_enqueue s) (ln_held s).
Definition ln_set_active (v : Z) (s : lane) : lane :=
  mkLane (ln_queue s) (ln_cap s) (ln_reservations s) (ln_workers s) (ln_pending s) v (ln_failed s)
    (ln_stopping s) (ln_remaining s) (ln_done s) (ln_drained s) (ln_drainClosed s) (ln_drainMu s)
    (ln_loops s) (ln_next s) (ln_enqueue s) (ln_held s).
Definition ln_set_failed (v : Z) (s : lane) : lane :=
  mkLane (ln_queue s) (ln_cap s) (ln_reservations s) (ln_workers s) (ln_pending s) (ln_active s) v
    (ln_stopping s) (ln_remaining s) (ln_done s) (ln_drained s) (ln_drainClosed s) (ln_drainMu s)
    (ln_loops s) (ln_next s) (ln_enqueue s) (ln_held s).
Definition ln_set_stopping (v : bool) (s : lane) : lane :=
  mkLane (ln_queue s) (ln_cap s) (ln_reservations s) (ln_workers s) (ln_pending s) (ln_active s)
    (ln_failed s) v (ln_remaining s) (ln_done s) (ln_drained s) (ln_drainClosed s) (ln_drainMu s)
    (ln_loops s) (ln_next s) (ln_enqueue s) (ln_held s).
Definition ln_set_remaining (v : Z) (s : lane) : lane :=
  mkLane (ln_queue s) (ln_cap s) (ln_reservations s) (ln_workers s) (ln_pending s) (ln_active s)
    (ln_failed s) (ln_stopping s) v (ln_done s) (ln_drained s) (ln_drainClosed s) (ln_drainMu s)
    (ln_loops s) (ln_next s) (ln_enqueue s) (ln_held s).
Definition ln_set_done (v : bool) (s : lane) : lane :=
  mkLane (ln_queue s) (ln_cap s) (ln_reservations s) (ln_workers s) (ln_pending s) (ln_active s)
    (ln_failed s) (ln_stopping s) (ln_remaining s) v (ln_drained s) (ln_drainClosed s)
    (ln_drainMu s) (ln_loops s) (ln_next s) (ln_enqueue s) (ln_held s).
Definition ln_set_drained (v : bool) (s : lane) : lane :=
  mkLane (ln_queue s) (ln_cap s) (ln_reservations s) (ln_workers s) (ln_pending s) (ln_active s)
    (ln_failed s) (ln_stopping s) (ln_remaining s) (ln_done s) v (ln_drainClosed s) (ln_drainMu s)
    (ln_loops s) (ln_next s) (ln_enqueue s) (ln_held s).
Definition ln_set_drainClosed (v : bool) (s : lane) : lane :=
  mkLane (ln_queue s) (ln_cap s) (ln_reservations s) (ln_workers s) (ln_pending s) (ln_active s)
    (ln_failed s) (ln_stopping s) (ln_remaining s) (ln_done s) (ln_drained s) v (ln_drainMu s)
    (ln_loops s) (ln_next s) (ln_enqueue s) (ln_held s).
Definition ln_set_drainMu (v : option nat) (s : lane) : lane :=
  mkLane (ln_queue s) (ln_cap s) (ln_reservations s) (ln_workers s) (ln_pending s) (ln_active s)
    (ln_failed s) (ln_stopping s) (ln_remaining s) (ln_done s) (ln_drained s) (ln_drainClosed s) v
    (ln_loops s) (ln_next s) (ln_enqueue s) (ln_held s).
Definition ln_set_loops (v : gmap nat worker_pc) (s : lane) : lane :=
  mkLane (ln_queue s) (ln_cap s) (ln_reservations s) (ln_workers s) (ln_pending s) (ln_active s)
    (ln_failed s) (ln_stopping s) (ln_remaining s) (ln_done s) (ln_drained s) (ln_drainClosed s)
    (ln_drainMu s) v (ln_next s) (ln_enqueue s) (ln_held s).
Definition ln_set_next (v : nat) (s : lane) : lane :=
  mkLane (ln_queue s) (ln_cap s) (ln_reservations s) (ln_workers s) (ln_pending s) (ln_active s)
    (ln_failed s) (ln_stopping s) (ln_remaining s) (ln_done s) (ln_drained s) (ln_drainClosed s)
    (ln_drainMu s) (ln_loops s) v (ln_enqueue s) (ln_held s).
Definition ln_set_enqueue (v : enqueue_pc) (s : lane) : lane :=
  mkLane (ln_queue s) (ln_cap s) (ln_reservations s) (ln_workers s) (ln_pending s) (ln_active s)
    (ln_failed s) (ln_stopping s) (ln_remaining s) (ln_done s) (ln_drained s) (ln_drainClosed s)
    (ln_drainMu s) (ln_loops s) (ln_next s) v (ln_held s).
Definition ln_set_held (v : Z) (s : lane) : lane :=
  mkLane (ln_queue s) (ln_cap s) (ln_reservations s) (ln_workers s) (ln_pending s) (ln_active s)
    (ln_failed s) (ln_stopping s) (ln_remaining s) (ln_done s) (ln_drained s) (ln_drainClosed s)
    (ln_drainMu s) (ln_loops s) (ln_next s) (ln_enqueue s) v.

(** ** The operations of the lane *)

Definition newCompletionDelivery (workers queueCap : Z) : lane :=
  {| ln_queue := []; ln_cap := if queueCap <=? 0 then 256 else queueCap;
     ln_reservations := 0; ln_workers := if workers <=? 0 then 4 else workers;
     ln_pending := 0; ln_active := 0; ln_failed := 0; ln_stopping := false; ln_remaining := 0;
     ln_done := false; ln_drained := true; ln_drainClosed := true; ln_drainMu := None;
     ln_loops := ∅; ln_next := 0; ln_enqueue := EIdle; ln_held := 0 |}.

Definition queue_len (d : lane) : Z := Z.of_nat (length (ln_queue d)).

(** [n] goroutines more, each at the start of [loop]. *)
Fixpoint spawn_loops (n : nat) (d : lane) : lane :=
  match n with
  | O => d
  | S n' =>
      spawn_loops n' (ln_set_remaining (ln_remaining d + 1)
        (ln_set_next (S (ln_next d)) (ln_set_loops (<[ln_next d := WSelect]> (ln_loops d)) d)))
  end.

Definition ensureWorkersLocked (d : lane) : lane :=
  if ln_stopping d then d
  else
    let target := ln_active d + ln_pending d in
    let target := if target <? 1 then 1 else target in
    let target := if ln_workers d <? target then ln_workers d else target in
    spawn_loops (Z.to_nat (target - ln_remaining d)) d.

Definition reserve (d : lane) : bool * lane :=
  if ln_stopping d then (false, d)
  else if ln_reservations d <? ln_cap d
  then (true, ln_set_reservations (ln_reservations d + 1) d) else (false, d).

Definition releaseReservation (d : lane) : lane :=
  if 0 <? ln_reservations d then ln_set_reservations (ln_reservations d - 1) d
  else ln_set_failed (ln_failed d + 1) d.

Definition markBusy (d : lane) : lane :=
  if ln_drained d then ln_set_drainClosed false (ln_set_drained false d) else d.

Definition signalDrained (d : lane) : lane :=
  if negb (ln_pending d =? 0) || negb (ln_active d =? 0) || negb (queue_len d =? 0) || ln_drained d then d
  else ln_set_drainClosed true (ln_set_drained true d).

(** The failed hand-over: count it and give the reservation back. *)
Definition fail_closed (d : lane) : lane :=
  releaseReservation (ln_set_failed (ln_failed d + 1) d).

(** The send of [enqueueReserved], once the item is counted as pending. *)
Definition send_item (x : deliveryItem) (d : lane) : bool * lane :=
  if queue_len d <? ln_cap d then
    (true, ensureWorkersLocked (ln_set_queue (ln_queue d ++ [x]) d))
  else (false, signalDrained (fail_closed (ln_set_pending (ln_pending d - 1) d))).

Definition enqueueReserved (fn : option closure) (res : TaskResult) (d : lane) : bool * lane :=
  match fn with
  | None => (false, releaseReservation d)
  | Some fn =>
      if ln_stopping d then (false, fail_closed d)
      else
        let d := markBusy d in
        send_item (mkItem fn res true) (ln_set_pending (ln_pending d + 1) d)
  end.

(** [stop], up to the wait. *)
Definition stop (d : lane) : lane :=
  let d := ln_set_stopping true d in
  if ln_remaining d =? 0 then ln_set_done true d else d.

(** The first round of [drain]: it returns at once when the lane is drained. *)
Definition drain_returns (d : lane) : bool := ln_drained d.

#[global] Instance lane_ops : DeliveryOps lane := {
  dl_reserve := reserve;
  dl_releaseReservation := releaseReservation;
  dl_enqueueReserved := fun fn res d => enqueueReserved (Some fn) res d;
  dl_held := ln_reservations
}.

(** ** Interleavings

    [ln_held] counts the reservations of admitted tasks that are not settled; the
    coordinator releases one or turns it into a queued item. *)

Inductive lane_event :=
  | EvReserve                              (* [reserve] *)
  | EvRelease                              (* [releaseReservation] by the coordinator *)
  | EvEnqueue (x : deliveryItem)           (* the coordinator enters [enqueueReserved] *)
  | EvEnqueueStep                          (* its next step *)
  | EvStop
  | EvReceive (w : nat)                    (* worker [w] receives an item *)
  | EvIdleTimeout (w : nat)                (* its timer fires *)
  | EvStopSeen (w : nat)                   (* it sees [stopCh] closed *)
  | EvWorkerStep (w : nat).                (* its next step *)

Definition set_pc (w : nat) (pc : worker_pc) (d : lane) : lane :=
  ln_set_loops (<[w := pc]> (ln_loops d)) d.
Definition drop_worker (w : nat) (d : lane) : lane :=
  ln_set_loops (delete w (ln_loops d)) d.

(** The next atomic access of worker [w]; [None] when it is blocked. *)
Definition worker_step (w : nat) (pc : worker_pc) (d : lane) : option lane :=
  match pc with
  | WSelect => None
  | WReceived x => Some (set_pc w (WActive x) (ln_set_active (ln_active d + 1) d))
  | WActive x => Some (set_pc w (WRun x) (ln_set_pending (ln_pending d - 1) d))
  | WRun x => Some (set_pc w (WReturned x) d)
  | WReturned x => Some (set_pc w (WRelease x) (ln_set_active (ln_active d - 1) d))
  | WRelease x => Some (set_pc w (WSignal 0) (if di_release x then releaseReservation d else d))
  | WSignal 0 => Some (set_pc w (if ln_pending d =? 0 then WSignal 1 else WSelect) d)
  | WSignal 1 => Some (set_pc w (if ln_active d =? 0 then WSignal 2 else WSelect) d)
  | WSignal _ => Some (set_pc w (if queue_len d =? 0 then WSignalLock else WSelect) d)
  | WSignalLock =>
      match ln_drainMu d with
      | Some _ => None
      | None =>
          if ln_drained d then Some (set_pc w WSelect d)
          else Some (set_pc w (WSignalLocked 0) (ln_set_drainMu (Some w) d))
      end
  | WSignalLocked k =>
      let zero := match k with
        | 0%nat => ln_pending d =? 0 | 1%nat => ln_active d =? 0 | _ => queue_len d =? 0 end in
      if zero then Some (set_pc w (if (k <? 2)%nat then WSignalLocked (S k) else WSignalSet) d)
      else Some (set_pc w WSelect (ln_set_drainMu None d))
  | WSignalSet =>
      Some (set_pc w WSelect (ln_set_drainMu None (ln_set_drainClosed true (ln_set_drained true d))))
  | WExit =>
      let d := ln_set_remaining (ln_remaining d - 1) d in
      Some (set_pc w (WLeave (ln_remaining d =? 0)) d)
  | WLeave last =>
      if ln_stopping d then Some (drop_worker w (if last then ln_set_done true d else d))
      else Some (set_pc w WCheck d)
  | WCheck => if 0 <? ln_pending d then Some (set_pc w WEnsure d) else Some (drop_worker w d)
  | WEnsure =>
      (* [enqueueReserved] holds [workerMu] until it returns *)
      match ln_enqueue d with
      | EIdle => Some (ensureWorkersLocked (drop_worker w d))
      | _ => None
      end
  end.

Definition enqueue_step (d : lane) : option lane :=
  match ln_enqueue d with
  | EIdle => None
  | EMark x =>
      match ln_drainMu d with
      | Some _ => None
      | None => Some (ln_set_enqueue (EPend x) (markBusy d))
      end
  | EPend x => Some (ln_set_enqueue (ESend x) (ln_set_pending (ln_pending d + 1) d))
  | ESend x => Some (ln_set_enqueue EIdle (send_item x d).2)
  end.

Definition lane_step (ev : lane_event) (d : lane) : option lane :=
  match ev with
  | EvReserve =>
      match ln_enqueue d with
      | EIdle => let '(ok, d) := reserve d in Some (if ok then ln_set_held (ln_held d + 1) d else d)
      | _ => None
      end
  | EvRelease =>
      match ln_enqueue d with
      | EIdle => if 0 <? ln_held d then Some (releaseReservation (ln_set_held (ln_held d - 1) d)) else None
      | _ => None
      end
  | EvEnqueue x =>
      match ln_enqueue d with
      | EIdle =>
          if (0 <? ln_held d) && di_release x then
            let d := ln_set_held (ln_held d - 1) d in
            if ln_stopping d then Some (fail_closed d) else Some (ln_set_enqueue (EMark x) d)
          else None
      | _ => None
      end
  | EvEnqueueStep => enqueue_step d
  | EvStop => match ln_enqueue d with EIdle => Some (stop d) | _ => None end
  | EvReceive w =>
      match ln_loops d !! w, ln_queue d with
      | Some WSelect, x :: q => Some (set_pc w (WReceived x) (ln_set_queue q d))
      | _, _ => None
      end
  | EvIdleTimeout w =>
      match ln_loops d !! w with
      | Some WSelect => Some (if ln_pending d =? 0 then set_pc w WExit d else d)
      | _ => None
      end
  | EvStopSeen w =>
      match ln_loops d !! w with
      | Some WSelect => if ln_stopping d then Some (set_pc w WExit d) else None
      | _ => None
      end
  | EvWorkerStep w => ln_loops d !! w ≫= fun pc => worker_step w pc d
  end.

Inductive lane_reachable (workers queueCap : Z) : lane -> Prop :=
  | lane_init : lane_reachable workers queueCap (newCompletionDelivery workers queueCap)
  | lane_next ev d d' : lane_reachable workers queueCap d -> lane_step ev d = Some d' ->
      lane_reachable workers queueCap d'.

Fixpoint run_events (evs : list lane_event) (d : lane) : option lane :=
  match evs with
  | [] => Some d
  | ev :: evs' => lane_step ev d ≫= run_events evs'
  end.

(** ** Lemmas *)

(** The items a worker holds a reservation for, counts as pending, as active. *)
Definition holds (pc : worker_pc) : Z :=
  match pc with WReceived _ | WActive _ | WRun _ | WReturned _ | WRelease _ => 1 | _ => 0 end.
Definition counts_pending (pc : worker_pc) : Z :=
  match pc with WReceived _ | WActive _ => 1 | _ => 0 end.
Definition counts_active (pc : worker_pc) : Z :=
  match pc with WActive _ | WRun _ | WReturned _ => 1 | _ => 0 end.
Definition counts_remaining (pc : worker_pc) : Z := 
  match pc with WLeave _ | WCheck | WEnsure => 0 | _ => 1 end.
Definition enqueue_holds (e : enqueue_pc) : Z := match e with EIdle => 0 | _ => 1 end.
Definition enqueue_pending (e : enqueue_pc) : Z := match e with ESend _ => 1 | _ => 0 end.

Definition pc_released (pc : worker_pc) : Prop :=
  match pc with
  | WReceived x | WActive x | WRun x | WReturned x | WRelease x => di_release x = true
  | _ => True
  end.

Definition in_lock (pc : worker_pc) : bool :=
  match pc with WSignalLocked _ | WSignalSet => true | _ => false end.

Record lane_ok (d : lane) : Prop := {
  lo_held : 0 <= ln_held d;
  lo_cap : 0 < ln_cap d;
  lo_reservations : ln_reservations d =
    ln_held d + enqueue_holds (ln_enqueue d) + queue_len d + msum holds (ln_loops d);
  lo_bound : ln_reservations d <= ln_cap d;
  lo_pending : ln_pending d =
    enqueue_pending (ln_enqueue d) + queue_len d + msum counts_pending (ln_loops d);
  lo_active : ln_active d = msum counts_active (ln_loops d);
  lo_remaining : ln_remaining d = msum counts_remaining (ln_loops d);
  lo_workers : 0 < ln_workers d /\ ln_remaining d <= ln_workers d;
  lo_next : forall w pc, ln_loops d !! w = Some pc -> (w < ln_next d)%nat /\ pc_released pc;
  lo_queue : forall x, x ∈ ln_queue d -> di_release x = true;
  lo_enqueue : match ln_enqueue d with
    | EIdle => True | EMark x | EPend x | ESend x => di_release x = true end;
  lo_failed : ln_stopping d = false -> ln_failed d = 0;
  lo_channel : ln_drainClosed d = ln_drained d;
  lo_locked : forall w pc, ln_loops d !! w = Some pc -> in_lock pc = true -> ln_drainMu d = Some w;
  lo_open : ln_drainMu d <> None -> ln_drained d = false
}.

#[local] Ltac lane_simpl := simpl; unfold queue_len in *; simpl; rewrite ?length_app; simpl.

Lemma spawn_loops_ok n : forall d,
  lane_ok d -> ln_remaining d + Z.of_nat n <= ln_workers d -> lane_ok (spawn_loops n d).
Proof.
  induction n as [|n IH]; intros d H Hn; cbn [spawn_loops]; [done|].
  apply IH; [|simpl; lia].
  assert (Hnew : ln_loops d !! ln_next d = None).
  { destruct (ln_loops d !! ln_next d) as [pc|] eqn:E; [|done].
    destruct (lo_next _ H _ _ E). lia. }
  destruct H as [O1 O2 O3 O4 O5 O6 O7 O8 O9 O10 O11 O12 O13 O14 O15].
  split; simpl; rewrite ?(msum_insert_fresh _ _ _ _ Hnew); lane_simpl; try done; try lia.
  - intros w pc [[<- <-]|[_ Hw]]%lookup_insert_Some; [split; [lia|done]|].
    destruct (O9 w pc Hw). split; [lia|done].
  - intros w pc [[<- <-]|[_ Hw]]%lookup_insert_Some; [done|]. by apply O14.
Qed.

Lemma ensureWorkersLocked_ok d : lane_ok d -> lane_ok (ensureWorkersLocked d).
Proof.
  intros H. unfold ensureWorkersLocked. destruct (ln_stopping d); [done|].
  destruct (lo_workers _ H). apply spawn_loops_ok; [done|].
  set (t := if ln_workers d <? _ then _ else _).
  assert (t <= ln_workers d) by (unfold t; case_match; bool_to_prop; lia). lia.
Qed.

Lemma spawn_loops_enqueue e n : forall d,
  ln_set_enqueue e (spawn_loops n d) = spawn_loops n (ln_set_enqueue e d).
Proof. induction n as [|n IH]; intros d; cbn [spawn_loops]; [done|]. by rewrite IH. Qed.

Lemma ensureWorkersLocked_enqueue e d :
  ln_set_enqueue e (ensureWorkersLocked d) = ensureWorkersLocked (ln_set_enqueue e d).
Proof. unfold ensureWorkersLocked. simpl. destruct (ln_stopping d); [done|]. apply spawn_loops_enqueue. Qed.

(** While the coordinator is about to send, the queue has room. *)
Lemma send_room d x : lane_ok d -> ln_enqueue d = ESend x -> queue_len d < ln_cap d.
Proof.
  intros [O1 O2 O3 O4 _ _ _ _ _ _ _ _ _ _ _] E. rewrite E in O3. simpl in O3.
  assert (0 <= msum holds (ln_loops d)) by (apply msum_nonneg; intros ? [] _; simpl; lia). lia.
Qed.

Lemma releaseReservation_held d :
  0 < ln_reservations d -> releaseReservation d = ln_set_reservations (ln_reservations d - 1) d.
Proof. intros H. unfold releaseReservation. by destruct (Z.ltb_spec 0 (ln_reservations d)); [|lia]. Qed.

(** A step of worker [w] that changes its own position and some counters. *)
Lemma move_ok d d' w pc pc' :
  lane_ok d -> ln_loops d !! w = Some pc -> ln_loops d' = <[w := pc']> (ln_loops d) ->
  pc_released pc' -> in_lock pc' = false -> in_lock pc = false ->
  ln_queue d' = ln_queue d -> ln_cap d' = ln_cap d -> ln_workers d' = ln_workers d ->
  ln_next d' = ln_next d -> ln_enqueue d' = ln_enqueue d -> ln_held d' = ln_held d ->
  ln_stopping d' = ln_stopping d -> ln_failed d' = ln_failed d ->
  ln_drained d' = ln_drained d -> ln_drainClosed d' = ln_drainClosed d -> ln_drainMu d' = ln_drainMu d ->
  ln_reservations d' = ln_reservations d - holds pc + holds pc' ->
  ln_pending d' = ln_pending d - counts_pending pc + counts_pending pc' ->
  ln_active d' = ln_active d - counts_active pc + counts_active pc' ->
  ln_remaining d' = ln_remaining d - counts_remaining pc + counts_remaining pc' ->
  ln_reservations d' <= ln_reservations d -> ln_remaining d' <= ln_remaining d ->
  lane_ok d'.
Proof.
  intros [O1 O2 O3 O4 O5 O6 O7 O8 O9 O10 O11 O12 O13 O14 O15] Hw El Hrel Hl' Hl
    E1 E2 E3 E4 E5 E6 E7 E8 E9 E10 E11 R1 R2 R3 R4 R5 R6.
  split; unfold queue_len in *;
    rewrite ?El, ?E1, ?E2, ?E3, ?E4, ?E5, ?E6, ?E7, ?E8, ?E9, ?E10, ?E11, ?(msum_insert _ _ _ _ _ Hw);
    try done; try lia.
  - intros v q [[<- <-]|[_ Hv]]%lookup_insert_Some; [|by apply O9]. split; [by apply (O9 w pc)|done].
  - intros v q [[<- <-]|[_ Hv]]%lookup_insert_Some; [congruence|by apply O14].
Qed.

(** A worker that is gone. *)
Lemma drop_ok d w pc b :
  lane_ok d -> ln_loops d !! w = Some pc -> counts_remaining pc = 0 -> holds pc = 0 ->
  counts_pending pc = 0 -> counts_active pc = 0 ->
  lane_ok (ln_set_done b (drop_worker w d)).
Proof.
  intros [O1 O2 O3 O4 O5 O6 O7 O8 O9 O10 O11 O12 O13 O14 O15] Hw C1 C2 C3 C4.
  rewrite (msum_delete holds _ _ _ Hw) in O3. rewrite (msum_delete counts_pending _ _ _ Hw) in O5.
  rewrite (msum_delete counts_active _ _ _ Hw) in O6. rewrite (msum_delete counts_remaining _ _ _ Hw) in O7.
  split; unfold drop_worker; lane_simpl; try done; try lia.
  - intros v q [_ Hv]%lookup_delete_Some. by apply O9.
  - intros v q [_ Hv]%lookup_delete_Some. by apply O14.
Qed.

Lemma drop_ok' d w pc :
  lane_ok d -> ln_loops d !! w = Some pc -> counts_remaining pc = 0 -> holds pc = 0 ->
  counts_pending pc = 0 -> counts_active pc = 0 -> lane_ok (drop_worker w d).
Proof. intros H Hw C1 C2 C3 C4. exact (drop_ok d w pc (ln_done d) H Hw C1 C2 C3 C4). Qed.

(** Taking and giving back the lock of the drain state. *)
Lemma lock_ok d w pc pc' mu b :
  lane_ok d -> ln_loops d !! w = Some pc ->
  holds pc = holds pc' -> counts_pending pc = counts_pending pc' ->
  counts_active pc = counts_active pc' -> counts_remaining pc = counts_remaining pc' ->
  pc_released pc' -> (in_lock pc' = true -> mu = Some w) -> (mu <> None -> b = false) ->
  (forall v q, v <> w -> ln_loops d !! v = Some q -> in_lock q = true -> mu = Some v) ->
  lane_ok (set_pc w pc' (ln_set_drainMu mu (ln_set_drainClosed b (ln_set_drained b d)))).
Proof.
  intros [O1 O2 O3 O4 O5 O6 O7 O8 O9 O10 O11 O12 O13 O14 O15] Hw C1 C2 C3 C4 C5 C6 C7 C8.
  split; unfold set_pc; lane_simpl; rewrite ?(msum_insert _ _ _ _ _ Hw); try done; try lia.
  - intros v q [[<- <-]|[_ Hv]]%lookup_insert_Some; [|by apply O9]. split; [by apply (O9 w pc)|done].
  - intros v q [[<- <-]|[Hn Hv]]%lookup_insert_Some; [done|]. by apply C8.
Qed.

Ltac worker_moves := eapply move_ok; [done|done|reflexivity|..]; simpl; try done; try lia.

Lemma worker_step_ok w pc d d' :
  lane_ok d -> ln_loops d !! w = Some pc -> worker_step w pc d = Some d' -> lane_ok d'.
Proof.
  intros H Hw. pose proof (lo_next _ H w pc Hw) as [_ Hrel].
  destruct pc as [|x|x|x|x|x|k| |k| | |last| |]; cbn [worker_step]; intros E.
  - done.
  - injection E as <-. worker_moves.
  - injection E as <-. worker_moves.
  - injection E as <-. worker_moves.
  - injection E as <-. worker_moves.
  - simpl in Hrel. rewrite Hrel in E. injection E as <-.
    assert (Hpos : 0 < ln_reservations d).
    { destruct H as [O1 O2 O3 O4 _ _ _ _ _ _ _ _ _ _ _]. rewrite O3.
      pose proof (msum_lookup_le holds (ln_loops d) w (WRelease x)) as Hle. simpl in Hle.
      unfold queue_len. assert (0 <= enqueue_holds (ln_enqueue d)) by (by destruct (ln_enqueue d)).
      enough (1 <= msum holds (ln_loops d)) by lia. apply Hle; [|done]. intros ? [] _; simpl; lia. }
    rewrite releaseReservation_held by done. worker_moves.
  - destruct k as [|[|k]]; injection E as <-; case_match; worker_moves.
  - destruct (ln_drainMu d) as [v|] eqn:Hmu; [done|]. destruct (ln_drained d) eqn:Hd; injection E as <-.
    + worker_moves.
    + assert (Hno : forall v q, ln_loops d !! v = Some q -> in_lock q = true -> False).
      { intros v q Hv Hq. pose proof (lo_locked _ H v q Hv Hq). congruence. }
      replace (ln_set_drainMu (Some w) d) with
        (ln_set_drainMu (Some w) (ln_set_drainClosed false (ln_set_drained false d))).
      2: { pose proof (lo_channel _ H) as Hc. rewrite Hd in Hc. rewrite <- Hc at 1. rewrite <- Hd.
           by destruct d. }
      apply (lock_ok d w WSignalLock); try done. intros v q _ Hv Hq. by destruct (Hno v q).
  - pose proof (lo_locked _ H w _ Hw eq_refl) as Hmu.
    pose proof (lo_open _ H) as Hd. rewrite Hmu in Hd. specialize (Hd ltac:(done)).
    pose proof (lo_channel _ H) as Hc. rewrite Hd in Hc.
    assert (Hsame : forall mu, ln_set_drainMu mu d =
      ln_set_drainMu mu (ln_set_drainClosed false (ln_set_drained false d))).
    { intros mu. rewrite <- Hc at 1. rewrite <- Hd. by destruct d. }
    assert (Hothers : forall v q, v <> w -> ln_loops d !! v = Some q -> in_lock q = true -> False).
    { intros v q Hv Hq Hl. pose proof (lo_locked _ H v q Hq Hl). congruence. }
    set (z := match k with 0%nat => _ | S _ => _ end) in E. destruct z; injection E as <-.
    + assert (Hkeep : d = ln_set_drainMu (Some w) d) by (rewrite <- Hmu; by destruct d).
      rewrite Hkeep, Hsame. apply (lock_ok d w (WSignalLocked k)); try done; try (case_match; done).
      intros v q Hv Hq Hl. by destruct (Hothers v q).
    + rewrite Hsame. apply (lock_ok d w (WSignalLocked k)); try done.
      intros v q Hv Hq Hl. by destruct (Hothers v q).
  - injection E as <-. pose proof (lo_locked _ H w _ Hw eq_refl) as Hmu.
    apply (lock_ok d w WSignalSet); try done.
    intros v q Hv Hq Hl. pose proof (lo_locked _ H v q Hq Hl). congruence.
  - injection E as <-. worker_moves.
  - destruct (ln_stopping d); injection E as <-.
    + destruct last; [|by eapply drop_ok']. by apply (drop_ok d w (WLeave true)).
    + worker_moves.
  - destruct (0 <? ln_pending d); injection E as <-; [worker_moves|by eapply drop_ok'].
  - destruct (ln_enqueue d); [|done..]. injection E as <-.
    apply ensureWorkersLocked_ok. by eapply drop_ok'.
Qed.

Lemma lane_init_ok workers queueCap : lane_ok (newCompletionDelivery workers queueCap).
Proof.
  unfold newCompletionDelivery. split; lane_simpl; rewrite ?msum_empty; try done.
  - case_match; bool_to_prop; lia.
  - case_match; bool_to_prop; lia.
  - destruct (Z.leb_spec workers 0); lia.
  - intros x Hx. by apply elem_of_nil in Hx.
Qed.

Lemma enqueue_step_ok d d' : lane_ok d -> enqueue_step d = Some d' -> lane_ok d'.
Proof.
  intros H. unfold enqueue_step. destruct (ln_enqueue d) as [|x|x|x] eqn:He; intros E; [done| | |].
  - destruct (ln_drainMu d) eqn:Hmu; [done|]. injection E as <-.
    destruct H as [O1 O2 O3 O4 O5 O6 O7 O8 O9 O10 O11 O12 O13 O14 O15]. rewrite He in *; simpl in O3, O5. unfold markBusy.
    destruct (ln_drained d) eqn:Hd; split; lane_simpl; try done; try lia; by rewrite ?Hmu, ?Hd.
  - injection E as <-. destruct H as [O1 O2 O3 O4 O5 O6 O7 O8 O9 O10 O11 O12 O13 O14 O15]. rewrite He in *; simpl in O3, O5.
    split; lane_simpl; try done; try lia.
  - injection E as <-. pose proof (send_room d x H He) as Hroom. unfold send_item.
    destruct (Z.ltb_spec (queue_len d) (ln_cap d)) as [_|]; [|lia]. cbn [snd].
    rewrite ensureWorkersLocked_enqueue. apply ensureWorkersLocked_ok.
    destruct H as [O1 O2 O3 O4 O5 O6 O7 O8 O9 O10 O11 O12 O13 O14 O15]. rewrite He in *; simpl in O3, O5.
    split; lane_simpl; try done; try lia. intros y [Hy| ->%list_elem_of_singleton]%elem_of_app; auto.
Qed.

Lemma lane_step_ok ev d d' : lane_ok d -> lane_step ev d = Some d' -> lane_ok d'.
Proof.
  intros H E. destruct ev as [| |x| | |w|w|w|w]; cbn [lane_step] in E.
  - destruct (ln_enqueue d) eqn:He; [|done..]. unfold reserve in E.
    destruct (ln_stopping d) eqn:Hs; cbn beta iota zeta in E; [by injection E as <-|].
    destruct (Z.ltb_spec (ln_reservations d) (ln_cap d)); cbn beta iota zeta in E; injection E as <-; [|done].
    destruct H as [O1 O2 O3 O4 O5 O6 O7 O8 O9 O10 O11 O12 O13 O14 O15]. rewrite He in *; simpl in O3, O5.
    split; lane_simpl; rewrite ?He; simpl; try done; lia.
  - destruct (ln_enqueue d) eqn:He; [|done..]. destruct (Z.ltb_spec 0 (ln_held d)) as [Hh|]; [|done].
    injection E as <-. destruct H as [O1 O2 O3 O4 O5 O6 O7 O8 O9 O10 O11 O12 O13 O14 O15]. rewrite He in *; simpl in O3, O5.
    assert (0 <= msum holds (ln_loops d)) by (apply msum_nonneg; intros ? [] _; simpl; lia).
    rewrite releaseReservation_held by (simpl; unfold queue_len in *; simpl in *; lia).
    split; lane_simpl; rewrite ?He; simpl; try done; try lia.
  - destruct (ln_enqueue d) eqn:He; [|done..]. destruct (_ && _) eqn:Hb; [|done]. bool_to_prop.
    cbn zeta in E. change (ln_stopping (ln_set_held (ln_held d - 1) d)) with (ln_stopping d) in E.
    destruct (ln_stopping d) eqn:Hs; injection E as <-;
      destruct H as [O1 O2 O3 O4 O5 O6 O7 O8 O9 O10 O11 O12 O13 O14 O15]; rewrite He in *; simpl in O3, O5.
    + unfold fail_closed.
      assert (0 <= msum holds (ln_loops d)) by (apply msum_nonneg; intros ? [] _; simpl; lia).
      rewrite releaseReservation_held by (simpl; unfold queue_len in *; simpl in *; lia).
      split; lane_simpl; rewrite ?He, ?Hs; simpl; try done; try lia.
    + split; lane_simpl; try done; try lia.
  - by apply (enqueue_step_ok d).
  - destruct (ln_enqueue d) eqn:He; [|done..]. injection E as <-. unfold stop.
    destruct H as [O1 O2 O3 O4 O5 O6 O7 O8 O9 O10 O11 O12 O13 O14 O15]. rewrite He in *; simpl in O3, O5.
    simpl. destruct (ln_remaining d =? 0); split; lane_simpl; rewrite ?He; try done.
  - destruct (ln_loops d !! w) as [[]|] eqn:Hw; try done. destruct (ln_queue d) as [|x q] eqn:Hq; [done|].
    injection E as <-. destruct H as [O1 O2 O3 O4 O5 O6 O7 O8 O9 O10 O11 O12 O13 O14 O15].
    unfold queue_len in *. rewrite Hq in *. simpl length in *.
    split; unfold set_pc, queue_len; simpl; rewrite ?(msum_insert _ _ _ _ _ Hw); simpl; try done; try lia.
    + intros v y [[<- <-]|[_ Hv]]%lookup_insert_Some; [|by apply O9].
      split; [by apply (O9 w WSelect)|apply O10; left].
    + intros y Hy. apply O10. by right.
    + intros v y [[<- <-]|[_ Hv]]%lookup_insert_Some; [done|by apply O14].
  - destruct (ln_loops d !! w) as [[]|] eqn:Hw; try done. injection E as <-.
    destruct (ln_pending d =? 0); [|done]. worker_moves.
  - destruct (ln_loops d !! w) as [[]|] eqn:Hw; try done. destruct (ln_stopping d); [|done].
    injection E as <-. worker_moves.
  - destruct (ln_loops d !! w) as [pc|] eqn:Hw; [|done]. simpl in E. by apply (worker_step_ok w pc d).
Qed.

Lemma lane_reachable_ok workers queueCap d : lane_reachable workers queueCap d -> lane_ok d.
Proof. induction 1 as [|ev d d' _ IH E]; [apply lane_init_ok|by apply (lane_step_ok ev d)]. Qed.

Lemma run_events_reachable workers queueCap evs : forall d d',
  lane_reachable workers queueCap d -> run_events evs d = Some d' -> lane_reachable workers queueCap d'.
Proof.
  induction evs as [|ev evs IH]; intros d d' Hd E; simpl in E; [by injection E as <-|].
  destruct (lane_step ev d) as [d1|] eqn:E1; [|done]. simpl in E.
  apply (IH d1); [|done]. by apply (lane_next _ _ ev d).
Qed.

(** ** Properties *)

(** A reservation is a place in the queue: in every interleaving of the
    coordinator with the delivery workers, the send of [enqueueReserved] finds
    room, and before shutdown no hand-over is ever counted as failed. *)
Theorem reserved_send_succeeds (workers queueCap : Z) (d : lane) :
  lane_reachable workers queueCap d ->
  (forall x, ln_enqueue d = ESend x -> (send_item x d).1 = true) /\
  (ln_stopping d = false -> ln_failed d = 0).
Proof.
  intros H%lane_reachable_ok. split; [|apply H]. intros x E. unfold send_item.
  pose proof (send_room d x H E). by destruct (Z.ltb_spec (queue_len d) (ln_cap d)); [|lia].
Qed.

Definition sample_item (fn : closure) : deliveryItem := mkItem fn zero_result true.

(** One task with a callback, up to the send. *)
Definition sample_enqueue : list lane_event :=
  [EvReserve; EvEnqueue (sample_item 7); EvEnqueueStep; EvEnqueueStep].

Definition sample_lane : lane :=
  default (newCompletionDelivery 1 2) (run_events sample_enqueue (newCompletionDelivery 1 2)).

Lemma sample_lane_reachable : lane_reachable 1 2 sample_lane.
Proof.
  unfold sample_lane. destruct (run_events sample_enqueue _) as [d|] eqn:E; simpl; [|apply lane_init].
  exact (run_events_reachable 1 2 sample_enqueue _ d (lane_init 1 2) E).
Qed.

Lemma reserved_send_succeeds_witness :
  ln_enqueue sample_lane = ESend (sample_item 7) /\ (send_item (sample_item 7) sample_lane).1 = true.
Proof.
  split; [reflexivity|].
  exact (proj1 (reserved_send_succeeds 1 2 sample_lane sample_lane_reachable) (sample_item 7) eq_refl).
Defined.

(** The credits bound the lane: the queued and running callbacks never
    exceed the reservations, the reservations never exceed the queue capacity,
    the goroutines never exceed the worker limit, and [pending] and [active]
    are exactly the items that are queued or running. *)
Theorem delivery_bounds (workers queueCap : Z) (d : lane) :
  lane_reachable workers queueCap d ->
  queue_len d + msum holds (ln_loops d) <= ln_reservations d <= ln_cap d /\
  ln_remaining d <= ln_workers d /\
  ln_pending d = enqueue_pending (ln_enqueue d) + queue_len d + msum counts_pending (ln_loops d) /\
  ln_active d = msum counts_active (ln_loops d) /\
  (forall w, ln_loops d !! w = Some WSignalSet -> ln_drainClosed d = false).
Proof.
  intros H%lane_reachable_ok. destruct H as [O1 O2 O3 O4 O5 O6 O7 O8 O9 O10 O11 O12 O13 O14 O15].
  assert (0 <= enqueue_holds (ln_enqueue d)) by by destruct (ln_enqueue d).
  split_and_all; try done; try lia. intros w Hw. rewrite O13. apply O15.
  by rewrite (O14 w _ Hw eq_refl).
Qed.

Lemma delivery_bounds_witness : ln_pending sample_lane = 1 /\ ln_reservations sample_lane <= ln_cap sample_lane.
Proof.
  split; [reflexivity|]. exact (proj2 (proj1 (delivery_bounds 1 2 sample_lane sample_lane_reachable))).
Defined.

(** The callback of a first task returns while the coordinator hands over that
    of a second one, between [markBusy] and [pending.Add(1)]. *)
Definition early_drain : list lane_event :=
  [EvReserve; EvReserve; EvEnqueue (sample_item 7); EvEnqueueStep; EvEnqueueStep; EvEnqueueStep;
   EvReceive 0; EvWorkerStep 0; EvWorkerStep 0; EvWorkerStep 0; EvWorkerStep 0; EvWorkerStep 0;
   EvEnqueue (sample_item 8); EvEnqueueStep]
  ++ repeat (EvWorkerStep 0) 8 ++ [EvEnqueueStep; EvEnqueueStep].

(** [Drain] can return while a callback is still queued: [enqueueReserved]
    reopens the drain generation ([markBusy]) before it counts the item, so a
    worker that finishes in between closes it again, and [drain] then returns
    although the lane holds an undelivered callback. *)
Theorem drain_returns_before_callback :
  exists d, lane_reachable 1 2 d /\ drain_returns d = true /\ ln_stopping d = false /\
    ln_enqueue d = EIdle /\ ln_queue d = [sample_item 8] /\ ln_pending d = 1.
Proof.
  destruct (run_events early_drain (newCompletionDelivery 1 2)) as [d|] eqn:E; [|by vm_compute in E].
  exists d. split; [exact (run_events_reachable 1 2 early_drain _ d (lane_init 1 2) E)|].
  vm_compute in E. injection E as <-. by split_and_all.
Qed.
