(* ===== verification/BoundedQueue.v ===== *)
(** * The bounded queue

    Models [internal/queue/queue.go]: a bounded FIFO queue with overflow policies
    under one mutex and two condition variables. [queue_step] interleaves any
    number of callers. What a caller does between taking and giving back the
    mutex is one step, but for the return from [Wait]: there the three accesses
    of the code (getting the mutex, [stopWake()], [ctx.Err()]) are three steps,
    because a context can be cancelled between them. A condition variable is the
    list of its waiters in the order they came, as in the Go runtime: [Signal]
    wakes the first, [Broadcast] all. *)

From S2P Require Import Prelude.

Inductive OverflowPolicy := PolicyReject | PolicyBlock | PolicyDrop | PolicyDropOldest.

Section Queue.
Context {T : Type}.

Inductive queue_op := OpPush (x : T) (policy : OverflowPolicy) | OpPop.

(** The error a call returns, or the item [Pop] got. *)
Inductive queue_result := Returned | Got (x : T) | ErrQueueFull | ErrQueueClosed | ErrContext.

(** Where a caller is: before the mutex, asleep, woken and before the mutex, and
    holding it before [stopWake()] and before [ctx.Err()]. *)
Inductive stage := Entering | Waiting | Woken | AtStopWake | AtRecheck | Over (r : queue_result).

(** The callback registered with [context.AfterFunc]: none or stopped or run,
    registered, and started and before the mutex. *)
Inductive after_func := NoAfter | Registered | Fired.

Record caller := mkCaller {
  cl_op : queue_op; cl_stage : stage; cl_cancelled : bool; cl_after : after_func
}.

(** [q_log]: every item that was enqueued; [q_out]: the items that left, with
    whether a caller got them. Both are in order, for the statements. *)
Record queue := mkQueue {
  q_items : list T;
  q_capacity : nat;
  q_closed : bool;
  q_enqueued : Z;
  q_dequeued : Z;
  q_dropped : Z;
  q_rejected : Z;
  q_notEmpty : list nat;
  q_notFull : list nat;
  q_mu : option nat;
  q_callers : gmap nat caller;
  q_log : list T;
  q_out : list (T * bool)
}.

Definition q_set_items (v : list T) (q : queue) : queue :=
  mkQueue v (q_capacity q) (q_closed q) (q_enqueued q) (q_dequeued q) (q_dropped q) (q_rejected q)
    (q_notEmpty q) (q_notFull q) (q_mu q) (q_callers q) (q_log q) (q_out q).
Definition q_set_closed (v : bool) (q : queue) : queue :=
  mkQueue (q_items q) (q_capacity q) v (q_enqueued q) (q_dequeued q) (q_dropped q) (q_rejected q)
    (q_notEmpty q) (q_notFull q) (q_mu q) (q_callers q) (q_log q) (q_out q).
Definition q_set_dropped (v : Z) (q : queue) : queue :=
  mkQueue (q_items q) (q_capacity q) (q_closed q) (q_enqueued q) (q_dequeued q) v (q_rejected q)
    (q_notEmpty q) (q_notFull q) (q_mu q) (q_callers q) (q_log q) (q_out q).
Definition q_set_rejected (v : Z) (q : queue) : queue :=
  mkQueue (q_items q) (q_capacity q) (q_closed q) (q_enqueued q) (q_dequeued q) (q_dropped q) v
    (q_notEmpty q) (q_notFull q) (q_mu q) (q_callers q) (q_log q) (q_out q).
Definition q_set_notEmpty (v : list nat) (q : queue) : queue :=
  mkQueue (q_items q) (q_capacity q) (q_closed q) (q_enqueued q) (q_dequeued q) (q_dropped q)
    (q_rejected q) v (q_notFull q) (q_mu q) (q_callers q) (q_log q) (q_out q).
Definition q_set_notFull (v : list nat) (q : queue) : queue :=
  mkQueue (q_items q) (q_capacity q) (q_closed q) (q_enqueued q) (q_dequeued q) (q_dropped q)
    (q_rejected q) (q_notEmpty q) v (q_mu q) (q_callers q) (q_log q) (q_out q).
Definition q_set_mu (v : option nat) (q : queue) : queue :=
  mkQueue (q_items q) (q_capacity q) (q_closed q) (q_enqueued q) (q_dequeued q) (q_dropped q)
    (q_rejected q) (q_notEmpty q) (q_notFull q) v (q_callers q) (q_log q) (q_out q).
Definition q_set_callers (v : gmap nat caller) (q : queue) : queue :=
  mkQueue (q_items q) (q_capacity q) (q_closed q) (q_enqueued q) (q_dequeued q) (q_dropped q)
    (q_rejected q) (q_notEmpty q) (q_notFull q) (q_mu q) v (q_log q) (q_out q).

(** [New]; the policy is an argument of the calls. *)
Definition New (capacity : Z) : queue :=
  mkQueue [] (if capacity <=? 0 then 100%nat else Z.to_nat capacity) false 0 0 0 0 [] [] None ∅ [] [].

(** ** The mutex sections *)

Definition set_caller (t : nat) (c : caller) (q : queue) : queue :=
  q_set_callers (<[t := c]> (q_callers q)) q.
Definition set_stage (st : stage) (c : caller) : caller := mkCaller (cl_op c) st (cl_cancelled c) (cl_after c).
Definition set_after (a : after_func) (c : caller) : caller := mkCaller (cl_op c) (cl_stage c) (cl_cancelled c) a.
Definition wake (c : caller) : caller := match cl_stage c with Waiting => set_stage Woken c | _ => c end.

(** Wakes the callers of [l]. *)
Definition wake_in (l : list nat) (m : gmap nat caller) : gmap nat caller :=
  fold_left (fun m t => alter wake t m) l m.
Definition wake_all (l : list nat) (q : queue) : queue := q_set_callers (wake_in l (q_callers q)) q.

Definition signal_notEmpty (q : queue) : queue :=
  match q_notEmpty q with [] => q | t :: l => wake_all [t] (q_set_notEmpty l q) end.
Definition signal_notFull (q : queue) : queue :=
  match q_notFull q with [] => q | t :: l => wake_all [t] (q_set_notFull l q) end.
Definition broadcast_notEmpty (q : queue) : queue := wake_all (q_notEmpty q) (q_set_notEmpty [] q).
Definition broadcast_notFull (q : queue) : queue := wake_all (q_notFull q) (q_set_notFull [] q).

(** The item leaves the front; [got]: a caller gets it. *)
Definition take_front (x : T) (rest : list T) (got : bool) (q : queue) : queue :=
  mkQueue rest (q_capacity q) (q_closed q) (q_enqueued q)
    (if got then q_dequeued q + 1 else q_dequeued q) (if got then q_dropped q else q_dropped q + 1)
    (q_rejected q) (q_notEmpty q) (q_notFull q) (q_mu q) (q_callers q) (q_log q) (q_out q ++ [(x, got)]).

Definition append_item (x : T) (q : queue) : queue :=
  mkQueue (q_items q ++ [x]) (q_capacity q) (q_closed q) (q_enqueued q + 1) (q_dequeued q) (q_dropped q)
    (q_rejected q) (q_notEmpty q) (q_notFull q) (q_mu q) (q_callers q) (q_log q ++ [x]) (q_out q).

(** The loop of [push] and what follows it: a result, or [None] to wait. With
    [PolicyDropOldest] a round makes the queue shorter. *)
Fixpoint push_loop (fuel : nat) (cancelled : bool) (x : T) (policy : OverflowPolicy) (q : queue)
    : option queue_result * queue :=
  if (q_capacity q <=? length (q_items q))%nat then
    if q_closed q then (Some ErrQueueClosed, q)
    else
      match policy with
      | PolicyReject => (Some ErrQueueFull, q_set_rejected (q_rejected q + 1) q)
      | PolicyDrop => (Some Returned, q_set_dropped (q_dropped q + 1) q)
      | PolicyDropOldest =>
          match fuel, q_items q with
          | S fuel', y :: rest => push_loop fuel' cancelled x policy (take_front y rest false q)
          | _, _ => (None, q)
          end
      | PolicyBlock => if cancelled then (Some ErrContext, q) else (None, q)
      end
  else if q_closed q then (Some ErrQueueClosed, q)
  else (Some Returned, signal_notEmpty (append_item x q)).

Definition pop_loop (cancelled : bool) (q : queue) : option queue_result * queue :=
  match q_items q with
  | [] =>
      if q_closed q then (Some ErrQueueClosed, q)
      else if cancelled then (Some ErrContext, q) else (None, q)
  | x :: rest => (Some (Got x), signal_notFull (take_front x rest true q))
  end.

(** The section of caller [t]: it ends with a result or asleep, with the callback
    on its context registered. *)
Definition run_section (t : nat) (c : caller) (q : queue) : queue :=
  match cl_op c with
  | OpPush x policy =>
      match push_loop (length (q_items q)) (cl_cancelled c) x policy q with
      | (Some r, q) => set_caller t (set_stage (Over r) c) q
      | (None, q) => set_caller t (set_after Registered (set_stage Waiting c)) (q_set_notFull (q_notFull q ++ [t]) q)
      end
  | OpPop =>
      match pop_loop (cl_cancelled c) q with
      | (Some r, q) => set_caller t (set_stage (Over r) c) q
      | (None, q) => set_caller t (set_after Registered (set_stage Waiting c)) (q_set_notEmpty (q_notEmpty q ++ [t]) q)
      end
  end.

(** [Close]. *)
Definition Close (q : queue) : queue :=
  if q_closed q then q else broadcast_notFull (broadcast_notEmpty (q_set_closed true q)).

(** ** Interleavings *)

Inductive queue_event :=
  | EvCall (t : nat) (op : queue_op) (cancelled : bool)   (* a call begins *)
  | EvEnter (t : nat)        (* it gets the mutex and runs its first section *)
  | EvAcquire (t : nat)      (* woken, it gets the mutex *)
  | EvStopWake (t : nat)
  | EvRecheck (t : nat)      (* [ctx.Err()], and the next section *)
  | EvCancel (t : nat)       (* its context is cancelled *)
  | EvFire (t : nat)         (* the callback of its context runs *)
  | EvClose.

Definition queue_step (ev : queue_event) (q : queue) : option queue :=
  match ev with
  | EvCall t op cancelled =>
      match q_callers q !! t with
      | None => Some (set_caller t (mkCaller op Entering cancelled NoAfter) q)
      | Some _ => None
      end
  | EvEnter t =>
      match q_callers q !! t, q_mu q with
      | Some c, None =>
          match cl_stage c with
          | Entering =>
              Some (if cl_cancelled c then set_caller t (set_stage (Over ErrContext) c) q else run_section t c q)
          | _ => None
          end
      | _, _ => None
      end
  | EvAcquire t =>
      match q_callers q !! t, q_mu q with
      | Some c, None =>
          match cl_stage c with
          | Woken => Some (q_set_mu (Some t) (set_caller t (set_stage AtStopWake c) q))
          | _ => None
          end
      | _, _ => None
      end
  | EvStopWake t =>
      match q_callers q !! t with
      | Some c =>
          match cl_stage c with
          | AtStopWake =>
              let a := match cl_after c with Registered => NoAfter | a => a end in
              Some (set_caller t (set_after a (set_stage AtRecheck c)) q)
          | _ => None
          end
      | None => None
      end
  | EvRecheck t =>
      match q_callers q !! t with
      | Some c =>
          match cl_stage c with
          | AtRecheck =>
              let q := q_set_mu None q in
              Some (if cl_cancelled c then set_caller t (set_stage (Over ErrContext) c) q else run_section t c q)
          | _ => None
          end
      | None => None
      end
  | EvCancel t =>
      match q_callers q !! t with
      | Some c =>
          let a := match cl_after c with Registered => Fired | a => a end in
          Some (set_caller t (mkCaller (cl_op c) (cl_stage c) true a) q)
      | None => None
      end
  | EvFire t =>
      match q_callers q !! t, q_mu q with
      | Some c, None =>
          match cl_after c with
          | Fired =>
              let q := set_caller t (set_after NoAfter c) q in
              Some (match cl_op c with OpPush _ _ => broadcast_notFull q | OpPop => broadcast_notEmpty q end)
          | _ => None
          end
      | _, _ => None
      end
  | EvClose => match q_mu q with None => Some (Close q) | Some _ => None end
  end.

Inductive queue_reachable (capacity : Z) (may_cancel : bool) : queue -> Prop :=
  | queue_init : queue_reachable capacity may_cancel (New capacity)
  | queue_next ev q q' : queue_reachable capacity may_cancel q ->
      (may_cancel = false -> match ev with EvCancel _ => False | EvCall _ _ c => c = false | _ => True end) ->
      queue_step ev q = Some q' -> queue_reachable capacity may_cancel q'.

Fixpoint run_queue (evs : list queue_event) (q : queue) : option queue :=
  match evs with [] => Some q | ev :: evs' => queue_step ev q ≫= run_queue evs' end.

(** ** The data *)

Definition left_for (got : bool) (out : list (T * bool)) : Z :=
  lsum (fun x => if Bool.eqb x.2 got then 1 else 0) out.

Record data_ok (q : queue) : Prop := {
  qd_cap : (0 < q_capacity q)%nat /\ (length (q_items q) <= q_capacity q)%nat;
  qd_log : q_log q = map fst (q_out q) ++ q_items q;
  qd_enqueued : q_enqueued q = Z.of_nat (length (q_log q));
  qd_dequeued : q_dequeued q = left_for true (q_out q);
  qd_dropped : left_for false (q_out q) <= q_dropped q
}.

(** Steps that leave the data alone. *)
Definition same_data (q q' : queue) : Prop :=
  q_items q' = q_items q /\ q_capacity q' = q_capacity q /\ q_log q' = q_log q /\ q_out q' = q_out q /\
  q_enqueued q' = q_enqueued q /\ q_dequeued q' = q_dequeued q /\ q_dropped q <= q_dropped q'.

Lemma data_ok_same q q' : same_data q q' -> data_ok q -> data_ok q'.
Proof.
  intros (E1 & E2 & E3 & E4 & E5 & E6 & E7) [H1 H2 H3 H4 H5].
  split; rewrite ?E1, ?E2, ?E3, ?E4, ?E5, ?E6; try done. lia.
Qed.

Lemma same_data_refl q : same_data q q.
Proof. by split_and_all. Qed.

Lemma wake_all_same l q : same_data q (wake_all l q).
Proof. by split_and_all. Qed.

Lemma take_front_ok x rest got q : data_ok q -> q_items q = x :: rest -> data_ok (take_front x rest got q).
Proof.
  intros [H1 H2 H3 H4 H5] E. rewrite E in *. simpl in H1. split; simpl.
  - lia.
  - by rewrite map_app, <- app_assoc, H2.
  - done.
  - unfold left_for in *. rewrite lsum_app. simpl. destruct got; simpl; lia.
  - unfold left_for in *. rewrite lsum_app. simpl. destruct got; simpl; lia.
Qed.

Lemma append_item_ok x q : data_ok q -> (length (q_items q) < q_capacity q)%nat -> data_ok (append_item x q).
Proof.
  intros [H1 H2 H3 H4 H5] Hl. split; simpl; rewrite ?length_app; simpl; try done; try lia.
  by rewrite H2, app_assoc.
Qed.

(** What the loop of [push] can do. *)
Lemma push_loop_cases cancelled x policy q : data_ok q ->
  match push_loop (length (q_items q)) cancelled x policy q with
  | (None, q') => q' = q /\ policy = PolicyBlock /\ cancelled = false /\ q_closed q = false /\
      length (q_items q) = q_capacity q
  | (Some r, q') =>
      (exists d j, q' = q_set_dropped d (q_set_rejected j q) /\ q_dropped q <= d /\
         (q_closed q = true \/ policy <> PolicyBlock \/ cancelled = true)) \/
      (exists q1, q_closed q = false /\ q' = signal_notEmpty (append_item x q1) /\
         (length (q_items q1) < q_capacity q1)%nat /\
         (q1 = q \/ policy = PolicyDropOldest /\ exists y rest, q_items q = y :: rest /\
            length (q_items q) = q_capacity q /\ q1 = take_front y rest false q))
  end.
Proof.
  intros H. destruct (qd_cap _ H) as [Hpos Hle].
  assert (Hin : forall z : queue, z = q_set_dropped (q_dropped z) (q_set_rejected (q_rejected z) z)) by by intros [].
  destruct (q_items q) as [|y rest] eqn:Ei; simpl push_loop; rewrite Ei.
  - destruct (Nat.leb_spec (q_capacity q) (length (@nil T))) as [Hx|_]; [simpl in Hx; lia|].
    destruct (q_closed q) eqn:Hc; [left|right].
    + exists (q_dropped q), (q_rejected q). split_and_all; [apply Hin|done|by left].
    + exists q. split_and_all; try done; [rewrite Ei; simpl; lia|by left].
  - destruct (Nat.leb_spec (q_capacity q) (length (y :: rest))) as [Hx|Hx].
    + destruct (q_closed q) eqn:Hc.
      { left. exists (q_dropped q), (q_rejected q). split_and_all; [apply Hin|done|by left]. }
      destruct policy.
      * left. exists (q_dropped q), (q_rejected q + 1). split_and_all; [by destruct q|done|by auto].
      * destruct cancelled; [left|by split_and_all; [..|lia]].
        exists (q_dropped q), (q_rejected q). split_and_all; [apply Hin|done|by auto].
      * left. exists (q_dropped q + 1), (q_rejected q). split_and_all; [by destruct q|lia|by auto].
      * set (q1 := take_front y rest false q).
        assert (Hl : (length (q_items q1) < q_capacity q1)%nat) by (simpl in *; lia).
        assert (E : push_loop (length rest) cancelled x PolicyDropOldest q1 =
          (Some Returned, signal_notEmpty (append_item x q1))).
        { destruct (length rest); cbn [push_loop]; destruct (Nat.leb_spec (q_capacity q1) (length (q_items q1)));
            try lia; simpl; by rewrite Hc. }
        rewrite E. right. exists q1. split_and_all; try done. right. split; [done|].
        exists y, rest. split_and_all; try done. lia.
    + destruct (q_closed q) eqn:Hc; [left|right].
      * exists (q_dropped q), (q_rejected q). split_and_all; [apply Hin|done|by left].
      * exists q. split_and_all; try done; [rewrite Ei; lia|by left].
Qed.

(** ** The waiting callers *)

Definition awake (st : stage) : bool := match st with Woken | AtStopWake | AtRecheck => true | _ => false end.
Definition awake_pop (c : caller) : Z :=
  match cl_op c with OpPop => if awake (cl_stage c) then 1 else 0 | _ => 0 end.
Definition awake_push (c : caller) : Z :=
  match cl_op c with OpPush _ _ => if awake (cl_stage c) then 1 else 0 | _ => 0 end.
Definition in_mutex (c : caller) : Prop := cl_stage c = AtStopWake \/ cl_stage c = AtRecheck.

Definition waits_pop (m : gmap nat caller) (t : nat) : Prop :=
  exists c, m !! t = Some c /\ cl_stage c = Waiting /\ cl_op c = OpPop.
Definition waits_push (m : gmap nat caller) (t : nat) : Prop :=
  exists c x, m !! t = Some c /\ cl_stage c = Waiting /\ cl_op c = OpPush x PolicyBlock.

(** The callers [m] of a queue with [n] items, [le] and [lf] asleep. With
    [calm], when no context is cancelled, a sleeper means that every item (room)
    has a caller awake for it; [a] and [b] are callers left out of [m]. *)
Record core_ok (calm : bool) (n cap : nat) (closed : bool) (le lf : list nat) (m : gmap nat caller)
    (a b : Z) : Prop := {
  co_empty : NoDup le /\ forall t, t ∈ le <-> waits_pop m t;
  co_full : NoDup lf /\ forall t, t ∈ lf <-> waits_push m t;
  co_block : forall t c x p, m !! t = Some c -> cl_op c = OpPush x p ->
    cl_stage c = Waiting \/ awake (cl_stage c) = true -> p = PolicyBlock;
  co_closed : closed = true -> le = [] /\ lf = [];
  co_calm : calm = true -> forall t c, m !! t = Some c -> cl_cancelled c = false /\ cl_after c <> Fired;
  co_pops : calm = true -> le = [] \/ Z.of_nat n <= msum awake_pop m + a;
  co_pushes : calm = true -> lf = [] \/ Z.of_nat cap - Z.of_nat n <= msum awake_push m + b
}.

Definition mutex_ok (mu : option nat) (m : gmap nat caller) : Prop :=
  forall t, mu = Some t <-> exists c, m !! t = Some c /\ in_mutex c.

Record sync_ok (calm : bool) (q : queue) : Prop := {
  sy_core : core_ok calm (length (q_items q)) (q_capacity q) (q_closed q) (q_notEmpty q) (q_notFull q)
    (q_callers q) 0 0;
  sy_mutex : mutex_ok (q_mu q) (q_callers q)
}.

Lemma awake_pop_range c : 0 <= awake_pop c <= 1.
Proof. unfold awake_pop. destruct (cl_op c); [lia|]. case_match; lia. Qed.
Lemma awake_push_range c : 0 <= awake_push c <= 1.
Proof. unfold awake_push. destruct (cl_op c); [|lia]. case_match; lia. Qed.

Lemma awake_nonneg (m : gmap nat caller) : 0 <= msum awake_pop m /\ 0 <= msum awake_push m.
Proof.
  split; apply msum_nonneg; intros t c _; [apply awake_pop_range|apply awake_push_range].
Qed.

Lemma core_weaken calm n cap cl le lf m a b a' b' :
  core_ok calm n cap cl le lf m a b -> cl = true \/ calm = false \/ (a <= a' /\ b <= b') -> core_ok calm n cap cl le lf m a' b'.
Proof.
  intros [H1 H2 H3 H4 H5 H6 H7] Hor. split; try done; intros Hc.
  - destruct Hor as [Hx|[Hx|[? ?]]]; [left; by apply H4|congruence|]. destruct (H6 Hc); [by left|right; lia].
  - destruct Hor as [Hx|[Hx|[? ?]]]; [left; by apply H4|congruence|]. destruct (H7 Hc); [by left|right; lia].
Qed.

Lemma waits_delete m t c u : m !! t = Some c -> cl_stage c <> Waiting ->
  (waits_pop (delete t m) u <-> waits_pop m u) /\ (waits_push (delete t m) u <-> waits_push m u).
Proof.
  intros Hc Hs. unfold waits_pop, waits_push. destruct (decide (t = u)) as [->|Hn].
  - rewrite lookup_delete_eq, Hc. naive_solver.
  - by rewrite lookup_delete_ne.
Qed.

Lemma waits_insert m t c u : m !! t = None ->
  (waits_pop (<[t := c]> m) u <-> waits_pop m u \/ u = t /\ cl_stage c = Waiting /\ cl_op c = OpPop) /\
  (waits_push (<[t := c]> m) u <->
     waits_push m u \/ u = t /\ cl_stage c = Waiting /\ exists x, cl_op c = OpPush x PolicyBlock).
Proof.
  intros Hc. unfold waits_pop, waits_push. destruct (decide (t = u)) as [->|Hn].
  - rewrite lookup_insert_eq, Hc. split; split.
    + intros (d & [= <-] & Hd). by right.
    + intros [(d & [=] & _)|(_ & Hd)]. by exists c.
    + intros (d & x & [= <-] & Hs & Hd). right. eauto.
    + intros [(d & x & [=] & _)|(_ & Hs & x & Hd)]. by exists c, x.
  - rewrite lookup_insert_ne by done. split; (split; [by left|intros [?|[? _]]; [done|congruence]]).
Qed.

(** A caller that is not asleep leaves, and comes back. *)
Lemma core_delete calm n cap cl le lf m a b t c :
  core_ok calm n cap cl le lf m a b -> m !! t = Some c -> cl_stage c <> Waiting ->
  core_ok calm n cap cl le lf (delete t m) (a + awake_pop c) (b + awake_push c).
Proof.
  intros [H1 H2 H3 H4 H5 H6 H7] Hc Hs. split; try done.
  - split; [apply H1|]. intros u. rewrite (proj1 (waits_delete m t c u Hc Hs)). apply H1.
  - split; [apply H2|]. intros u. rewrite (proj2 (waits_delete m t c u Hc Hs)). apply H2.
  - intros u d x p [_ Hd]%lookup_delete_Some. by apply (H3 u).
  - intros Hcalm u d [_ Hd]%lookup_delete_Some. by apply (H5 Hcalm u).
  - intros Hcalm. destruct (H6 Hcalm) as [?|Hx]; [by left|right]. rewrite (msum_delete _ _ _ _ Hc) in Hx. lia.
  - intros Hcalm. destruct (H7 Hcalm) as [?|Hx]; [by left|right]. rewrite (msum_delete _ _ _ _ Hc) in Hx. lia.
Qed.

Lemma core_insert calm n cap cl le lf m a b t c :
  core_ok calm n cap cl le lf m a b -> m !! t = None -> cl_stage c <> Waiting ->
  (forall x p, cl_op c = OpPush x p -> awake (cl_stage c) = true -> p = PolicyBlock) ->
  (calm = true -> cl_cancelled c = false /\ cl_after c <> Fired) ->
  core_ok calm n cap cl le lf (<[t := c]> m) (a - awake_pop c) (b - awake_push c).
Proof.
  intros [H1 H2 H3 H4 H5 H6 H7] Hn Hs Hb Hcalm. split; try done.
  - split; [apply H1|]. intros u. rewrite (proj1 (waits_insert m t c u Hn)), (proj2 H1 u). clear -Hs. tauto.
  - split; [apply H2|]. intros u. rewrite (proj2 (waits_insert m t c u Hn)), (proj2 H2 u). clear -Hs. tauto.
  - intros u d x p [[<- <-]|[_ Hd]]%lookup_insert_Some; [|by apply (H3 u)]. intros Ho [?|?]; [done|by eapply Hb].
  - intros Hc u d [[<- <-]|[_ Hd]]%lookup_insert_Some; [by apply Hcalm|by apply (H5 Hc u)].
  - intros Hc. rewrite (msum_insert_fresh _ _ _ _ Hn). destruct (H6 Hc); [by left|right; lia].
  - intros Hc. rewrite (msum_insert_fresh _ _ _ _ Hn). destruct (H7 Hc); [by left|right; lia].
Qed.

(** A caller falls asleep on a queue that has nothing for it. *)
Lemma core_sleep_pop calm cap le lf m a b t c :
  core_ok calm 0 cap false le lf m a b -> m !! t = None -> cl_stage c = Waiting -> cl_op c = OpPop ->
  (calm = true -> cl_cancelled c = false /\ cl_after c <> Fired) ->
  core_ok calm 0 cap false (le ++ [t]) lf (<[t := c]> m) 0 b.
Proof.
  intros [H1 H2 H3 H4 H5 H6 H7] Hn Hs Ho Hcalm.
  assert (Hmp : msum awake_push (<[t := c]> m) = msum awake_push m).
  { rewrite (msum_insert_fresh _ _ _ _ Hn). unfold awake_push at 1. by rewrite Ho. }
  split; try done.
  - split.
    + apply NoDup_app. split_and_all; [apply H1| |apply NoDup_singleton].
      intros u Hu ->%list_elem_of_singleton. apply H1 in Hu as (d & Hd & _). congruence.
    + intros u. rewrite elem_of_app, list_elem_of_singleton, (proj2 H1 u), (proj1 (waits_insert m t c u Hn)).
      clear -Hs Ho. tauto.
  - split; [apply H2|]. intros u. rewrite (proj2 H2 u), (proj2 (waits_insert m t c u Hn)), Ho. clear. naive_solver.
  - intros u d x p [[<- <-]|[_ Hd]]%lookup_insert_Some; [congruence|by apply (H3 u)].
  - intros Hc u d [[<- <-]|[_ Hd]]%lookup_insert_Some; [by apply Hcalm|by apply (H5 Hc u)].
  - intros Hc. right. destruct (awake_nonneg (<[t := c]> m)). lia.
  - intros Hc. rewrite Hmp. by apply H7.
Qed.

Lemma core_sleep_push calm n cap le lf m a b t c x :
  core_ok calm n cap false le lf m a b -> (cap <= n)%nat -> m !! t = None -> cl_stage c = Waiting ->
  cl_op c = OpPush x PolicyBlock -> (calm = true -> cl_cancelled c = false /\ cl_after c <> Fired) ->
  core_ok calm n cap false le (lf ++ [t]) (<[t := c]> m) a 0.
Proof.
  intros [H1 H2 H3 H4 H5 H6 H7] Hle Hn Hs Ho Hcalm.
  assert (Hmp : msum awake_pop (<[t := c]> m) = msum awake_pop m).
  { rewrite (msum_insert_fresh _ _ _ _ Hn). unfold awake_pop at 1. by rewrite Ho. }
  split; try done.
  - split; [apply H1|]. intros u. rewrite (proj2 H1 u), (proj1 (waits_insert m t c u Hn)), Ho. clear. naive_solver.
  - split.
    + apply NoDup_app. split_and_all; [apply H2| |apply NoDup_singleton].
      intros u Hu ->%list_elem_of_singleton. apply H2 in Hu as (d & z & Hd & _). congruence.
    + intros u. rewrite elem_of_app, list_elem_of_singleton, (proj2 H2 u), (proj2 (waits_insert m t c u Hn)), Ho.
      clear -Hs. naive_solver.
  - intros u d y p [[<- <-]|[_ Hd]]%lookup_insert_Some; [congruence|by apply (H3 u)].
  - intros Hc u d [[<- <-]|[_ Hd]]%lookup_insert_Some; [by apply Hcalm|by apply (H5 Hc u)].
  - intros Hc. rewrite Hmp. by apply H6.
  - intros Hc. right. destruct (awake_nonneg (<[t := c]> m)). lia.
Qed.

(** ** Wake-ups *)

Lemma awake_wake c : cl_stage c = Waiting ->
  awake_pop (wake c) = awake_pop c + (match cl_op c with OpPop => 1 | _ => 0 end) /\
  awake_push (wake c) = awake_push c + (match cl_op c with OpPop => 0 | _ => 1 end).
Proof. destruct c as [op st ca a]. cbn. intros ->. by destruct op. Qed.

Lemma waits_wake m t u :
  (waits_pop (alter wake t m) u <-> waits_pop m u /\ u <> t) /\
  (waits_push (alter wake t m) u <-> waits_push m u /\ u <> t).
Proof.
  unfold waits_pop, waits_push. destruct (decide (t = u)) as [->|Hn].
  - rewrite lookup_alter_eq. split; (split; [|by intros [_ ?]]).
    + intros (c & (d & -> & ->)%fmap_Some & Hs & _). destruct d as [op st ca a]. by destruct st; cbn in Hs.
    + intros (c & x & (d & -> & ->)%fmap_Some & Hs & _). destruct d as [op st ca a]. by destruct st; cbn in Hs.
  - rewrite lookup_alter_ne by done. split; (split; [intros ?; by split|by intros [? _]]).
Qed.

Lemma lookup_wake (m : gmap nat caller) t u c : alter wake t m !! u = Some c ->
  exists d, m !! u = Some d /\ cl_op c = cl_op d /\ cl_cancelled c = cl_cancelled d /\ cl_after c = cl_after d /\
    (c = d \/ cl_stage d = Waiting /\ cl_stage c = Woken).
Proof.
  destruct (decide (t = u)) as [->|Hn]; [|rewrite lookup_alter_ne by done; intros H; exists c; by auto 6].
  rewrite lookup_alter_eq. intros (d & -> & ->)%fmap_Some. exists d. split; [done|].
  destruct d as [op st ca a]. destruct st; cbn; by auto 10.
Qed.

Lemma msum_wake f (m : gmap nat caller) t c : m !! t = Some c ->
  msum f (alter wake t m) = msum f m - f c + f (wake c).
Proof.
  intros Hc. assert (alter wake t m = <[t := wake c]> m) as ->.
  { apply map_eq. intros u. destruct (decide (t = u)) as [->|Hn]; [by rewrite lookup_alter_eq, lookup_insert_eq, Hc|].
    by rewrite lookup_alter_ne, lookup_insert_ne. }
  by apply msum_insert.
Qed.

(** [Signal] on [notEmpty], when at most one item came. *)
Lemma core_wake_pop calm n n' cap cl t le lf m a b b' :
  core_ok calm n cap cl (t :: le) lf m a b -> (n <= n' <= S n)%nat -> Z.of_nat n - Z.of_nat n' <= b' - b ->
  core_ok calm n' cap cl le lf (alter wake t m) a b'.
Proof.
  intros [H1 H2 H3 H4 H5 H6 H7] Hn Hb.
  destruct H1 as [Hnd H1]. apply NoDup_cons in Hnd as [Hnt Hnd].
  assert (Ht : waits_pop m t) by (apply H1; by left). destruct Ht as (c & Hc & Hs & Ho).
  destruct (awake_wake c Hs) as [Ep Eq]. rewrite Ho in Ep, Eq.
  split.
  - split; [done|]. intros u. rewrite (proj1 (waits_wake m t u)), <- H1, elem_of_cons. clear -Hnt. naive_solver.
  - split; [apply H2|]. intros u. rewrite (proj2 (waits_wake m t u)), (proj2 H2 u).
    split; [|by intros [? _]]. intros Hu. split; [done|]. intros ->. destruct Hu as (d & x & Hd & _ & Hx). congruence.
  - intros u d x p (d0 & Hd & Eo & _ & _ & Hst)%lookup_wake Hx Hor. apply (H3 u d0 x p Hd); [congruence|].
    destruct Hst as [->|[Hw _]]; [done|by left].
  - intros Hc'. by destruct (H4 Hc').
  - intros Hcalm u d (d0 & Hd & _ & -> & -> & _)%lookup_wake. by apply (H5 Hcalm u).
  - intros Hcalm. rewrite (msum_wake _ _ _ _ Hc). destruct (H6 Hcalm) as [[=]|?]. right. lia.
  - intros Hcalm. rewrite (msum_wake _ _ _ _ Hc). destruct (H7 Hcalm) as [?|?]; [by left|right; lia].
Qed.

(** [Signal] on [notFull], when at most one item left. *)
Lemma core_wake_push calm n n' cap cl t le lf m a a' b :
  core_ok calm n cap cl le (t :: lf) m a b -> (n' <= n <= S n')%nat -> Z.of_nat n' - Z.of_nat n <= a' - a ->
  core_ok calm n' cap cl le lf (alter wake t m) a' b.
Proof.
  intros [H1 H2 H3 H4 H5 H6 H7] Hn Hb.
  destruct H2 as [Hnd H2]. apply NoDup_cons in Hnd as [Hnt Hnd].
  assert (Ht : waits_push m t) by (apply H2; by left). destruct Ht as (c & y & Hc & Hs & Ho).
  destruct (awake_wake c Hs) as [Ep Eq]. rewrite Ho in Ep, Eq.
  split.
  - split; [apply H1|]. intros u. rewrite (proj1 (waits_wake m t u)), (proj2 H1 u).
    split; [|by intros [? _]]. intros Hu. split; [done|]. intros ->. destruct Hu as (d & Hd & _ & Hx). congruence.
  - split; [done|]. intros u. rewrite (proj2 (waits_wake m t u)), <- H2, elem_of_cons. clear -Hnt. naive_solver.
  - intros u d x p (d0 & Hd & Eo & _ & _ & Hst)%lookup_wake Hx Hor. apply (H3 u d0 x p Hd); [congruence|].
    destruct Hst as [->|[Hw _]]; [done|by left].
  - intros Hc'. by destruct (H4 Hc').
  - intros Hcalm u d (d0 & Hd & _ & -> & -> & _)%lookup_wake. by apply (H5 Hcalm u).
  - intros Hcalm. rewrite (msum_wake _ _ _ _ Hc). destruct (H6 Hcalm) as [?|?]; [by left|right; lia].
  - intros Hcalm. rewrite (msum_wake _ _ _ _ Hc). destruct (H7 Hcalm) as [[=]|?]. right. lia.
Qed.

Lemma core_wake_pops calm n cap cl le lf m a b :
  core_ok calm n cap cl le lf m a b -> core_ok calm n cap cl [] lf (wake_in le m) a b.
Proof.
  revert m. induction le as [|t le IH]; intros m H; [done|]. apply IH. eapply core_wake_pop; [exact H|lia..].
Qed.

Lemma core_wake_pushes calm n cap cl le lf m a b :
  core_ok calm n cap cl le lf m a b -> core_ok calm n cap cl le [] (wake_in lf m) a b.
Proof.
  revert m. induction lf as [|t lf IH]; intros m H; [done|]. apply IH. eapply core_wake_push; [exact H|lia..].
Qed.

Lemma core_close calm n cap cl m a b : core_ok calm n cap cl [] [] m a b -> core_ok calm n cap true [] [] m a b.
Proof. by intros []. Qed.

(** With nobody asleep on a condition its bound says nothing. *)
Lemma core_items calm n n' cap cl le lf m a b a' b' :
  core_ok calm n cap cl le lf m a b -> (le = [] \/ Z.of_nat n' - Z.of_nat n <= a' - a) ->
  (lf = [] \/ Z.of_nat n - Z.of_nat n' <= b' - b) -> core_ok calm n' cap cl le lf m a' b'.
Proof.
  intros [H1 H2 H3 H4 H5 H6 H7] Hle Hlf. split; try done; intros Hc.
  - destruct Hle as [?|?]; [by left|]. destruct (H6 Hc); [by left|right; lia].
  - destruct Hlf as [?|?]; [by left|]. destruct (H7 Hc); [by left|right; lia].
Qed.

Lemma mutex_wake mu (m : gmap nat caller) t : mutex_ok mu m -> mutex_ok mu (alter wake t m).
Proof.
  intros H u. rewrite (H u). unfold in_mutex. split.
  - intros (c & Hc & Hin). exists (if decide (t = u) then wake c else c). case_decide as Ht.
    + subst. rewrite lookup_alter_eq, Hc. split; [done|]. destruct c as [op st ca a]. simpl in *. destruct st; cbn; (exact Hin || by destruct Hin).
    + by rewrite lookup_alter_ne.
  - intros (c & (d & Hd & _ & _ & _ & [->|[_ Hw]])%lookup_wake & Hin); [by exists d|].
    rewrite Hw in Hin. by destruct Hin.
Qed.

Lemma mutex_wakes mu l (m : gmap nat caller) : mutex_ok mu m -> mutex_ok mu (wake_in l m).
Proof. revert m. induction l as [|t l IH]; intros m H; [done|]. by apply IH, mutex_wake. Qed.

Lemma mutex_delete (m : gmap nat caller) mu t : mutex_ok mu m -> (mu = None \/ mu = Some t) -> mutex_ok None (delete t m).
Proof.
  intros H Hor u. split; [done|]. intros (c & [Hn Hc]%lookup_delete_Some & Hin).
  assert (mu = Some u) by (apply H; by exists c). destruct Hor; congruence.
Qed.

Lemma mutex_insert (m : gmap nat caller) mu t c :
  mutex_ok None (delete t m) -> (mu = Some t <-> in_mutex c) -> (mu = None \/ mu = Some t) -> mutex_ok mu (<[t := c]> m).
Proof.
  intros H Hin Hor u. destruct (decide (t = u)) as [->|Hn].
  - rewrite lookup_insert_eq. rewrite Hin. naive_solver.
  - rewrite lookup_insert_ne by done. split; [intros ->; naive_solver|]. intros (d & Hd & Hx).
    exfalso. assert (None = Some u); [|done]. apply H. exists d. by rewrite lookup_delete_ne.
Qed.

Lemma insert_wake (m : gmap nat caller) t u c : <[t := c]> (alter wake u m) = <[t := c]> (alter wake u (delete t m)).
Proof.
  apply map_eq. intros v. destruct (decide (t = v)) as [->|Hn]; [by rewrite !lookup_insert_eq|].
  rewrite !lookup_insert_ne by done. destruct (decide (u = v)) as [->|Hu].
  - by rewrite !lookup_alter_eq, !lookup_delete_ne by done.
  - by rewrite !lookup_alter_ne, !lookup_delete_ne by done.
Qed.

(** ** The sections keep the invariants *)

Lemma delete_wake (m : gmap nat caller) t u : delete t (alter wake u m) = alter wake u (delete t m).
Proof.
  apply map_eq. intros v. destruct (decide (t = v)) as [->|Hn], (decide (u = v)) as [->|Hu];
    rewrite ?lookup_delete_eq, ?lookup_delete_ne, ?lookup_alter_eq, ?lookup_alter_ne, ?lookup_delete_eq,
      ?lookup_delete_ne by done; done.
Qed.

(** The queue while caller [t] has the mutex; [a] and [b] count it. *)
Record section_ok (calm : bool) (t : nat) (a b : Z) (q : queue) : Prop := {
  se_core : core_ok calm (length (q_items q)) (q_capacity q) (q_closed q) (q_notEmpty q) (q_notFull q)
    (delete t (q_callers q)) a b;
  se_mu : q_mu q = None;
  se_mutex : mutex_ok None (delete t (q_callers q))
}.

Lemma section_over calm t c r q : section_ok calm t 0 0 q ->
  (calm = true -> cl_cancelled c = false /\ cl_after c <> Fired) ->
  sync_ok calm (set_caller t (set_stage (Over r) c) q).
Proof.
  intros [H1 H2 H3] Hcalm. split; simpl.
  - rewrite <- insert_delete_eq. eapply core_weaken; [apply core_insert; [exact H1|apply lookup_delete_eq|done..]|].
    unfold awake_pop, awake_push. simpl. right. right. case_match; lia.
  - rewrite H2. apply mutex_insert; [done| |by left]. unfold in_mutex. simpl. naive_solver.
Qed.

(** [Signal] after an item came, and after one left. *)
Lemma section_signal_e calm t a b b' q0 q : section_ok calm t a b q0 ->
  q_capacity q = q_capacity q0 -> q_closed q = q_closed q0 -> q_notEmpty q = q_notEmpty q0 ->
  q_notFull q = q_notFull q0 -> q_callers q = q_callers q0 -> q_mu q = q_mu q0 ->
  (length (q_items q0) <= length (q_items q) <= S (length (q_items q0)))%nat ->
  Z.of_nat (length (q_items q0)) - Z.of_nat (length (q_items q)) <= b' - b ->
  section_ok calm t a b' (signal_notEmpty q).
Proof.
  intros [H1 H2 H3] E1 E2 E3 E4 E5 E6 Hn Hb. unfold signal_notEmpty.
  destruct (q_notEmpty q) as [|u l] eqn:El; rewrite <- E3 in H1.
  - split; [|congruence|by rewrite E5]. rewrite E1, E2, El, E4, E5. eapply core_items; [exact H1|by left|by right].
  - split; simpl; [|congruence|rewrite E5, delete_wake; by apply mutex_wake].
    rewrite E1, E2, E4, E5, delete_wake. eapply core_wake_pop; [exact H1|lia..].
Qed.

Lemma section_signal_f calm t a a' b q0 q : section_ok calm t a b q0 ->
  q_capacity q = q_capacity q0 -> q_closed q = q_closed q0 -> q_notEmpty q = q_notEmpty q0 ->
  q_notFull q = q_notFull q0 -> q_callers q = q_callers q0 -> q_mu q = q_mu q0 ->
  (length (q_items q) <= length (q_items q0) <= S (length (q_items q)))%nat ->
  Z.of_nat (length (q_items q)) - Z.of_nat (length (q_items q0)) <= a' - a ->
  section_ok calm t a' b (signal_notFull q).
Proof.
  intros [H1 H2 H3] E1 E2 E3 E4 E5 E6 Hn Hb. unfold signal_notFull.
  destruct (q_notFull q) as [|u l] eqn:El; rewrite <- E4 in H1.
  - split; [|congruence|by rewrite E5]. rewrite E1, E2, El, E3, E5. eapply core_items; [exact H1|by right|by left].
  - split; simpl; [|congruence|rewrite E5, delete_wake; by apply mutex_wake].
    rewrite E1, E2, E3, E5, delete_wake. eapply core_wake_push; [exact H1|lia..].
Qed.

Lemma signal_notEmpty_same q : same_data q (signal_notEmpty q).
Proof. unfold signal_notEmpty. destruct (q_notEmpty q); by split_and_all. Qed.
Lemma signal_notFull_same q : same_data q (signal_notFull q).
Proof. unfold signal_notFull. destruct (q_notFull q); by split_and_all. Qed.

(** What the caller counts for: a blocked [Push] that is awake, and a [Pop]. *)
Definition counts_for (op : queue_op) (a b : Z) : Prop :=
  match op with
  | OpPop => 0 <= a <= 1 /\ b = 0
  | OpPush _ p => a = 0 /\ 0 <= b <= 1 /\ (p <> PolicyBlock -> b = 0)
  end.

Lemma section_weaken calm t a b q : section_ok calm t a b q ->
  q_closed q = true \/ calm = false \/ (a <= 0 /\ b <= 0) -> section_ok calm t 0 0 q.
Proof. intros [H1 H2 H3] Hor. split; [|done..]. by eapply core_weaken. Qed.

Lemma push_section_ok calm t c x p q a b : data_ok q -> section_ok calm t a b q -> cl_op c = OpPush x p ->
  counts_for (cl_op c) a b -> (calm = true -> cl_cancelled c = false /\ cl_after c <> Fired) ->
  sync_ok calm (run_section t c q) /\ data_ok (run_section t c q).
Proof.
  intros Hd Hs Ho Hab Hcalm. unfold run_section. rewrite Ho in Hab |- *. destruct Hab as (-> & Hb & Hp).
  pose proof (push_loop_cases (cl_cancelled c) x p q Hd) as Hcases.
  destruct (push_loop _ _ _ _ _) as [[r|] q'].
  - destruct Hcases as [(d & j & -> & Hdj & Hwhy)|(q1 & Hcl & -> & Hl & Hq1)].
    + split; [|apply (data_ok_same q); [by split_and_all|done]].
      apply section_over; [|done]. apply (section_weaken calm t 0 b).
      * destruct Hs as [H1 H2 H3]. by split.
      * destruct Hwhy as [?|[Hnb|Hca]]; [by left|right; right; rewrite (Hp Hnb); lia|right; left].
        destruct calm; [|done]. by destruct Hcalm; congruence.
    + destruct Hq1 as [->|(Hpol & y & rest & Ei & Hlen & ->)].
      * split; [apply section_over; [|done]; eapply (section_signal_e calm t 0 b 0 q); try done; simpl;
          rewrite length_app; simpl; lia|].
        eapply data_ok_same; [apply signal_notEmpty_same|]. by apply append_item_ok.
      * split; [apply section_over; [|done]; eapply (section_signal_e calm t 0 b 0 q); try done; simpl;
          rewrite Ei, length_app; simpl; try lia; rewrite Hp by congruence; lia|].
        eapply data_ok_same; [apply signal_notEmpty_same|]. apply append_item_ok; [by apply take_front_ok|done].
  - destruct Hcases as (-> & -> & Hca & Hcl & Hlen). split; [|by apply (data_ok_same q); [by split_and_all|]].
    destruct Hs as [H1 H2 H3]. split; simpl.
    + rewrite <- insert_delete_eq. rewrite Hcl in H1 |- *. eapply core_weaken; [eapply core_sleep_push;
        [exact H1|lia|apply lookup_delete_eq|done|exact Ho|]|]; [|right; right; lia]. intros Hx. simpl. by split; [apply Hcalm|].
    + rewrite H2. apply mutex_insert; [done| |by left]. unfold in_mutex. simpl. naive_solver.
Qed.

Lemma pop_section_ok calm t c q a b : data_ok q -> section_ok calm t a b q -> cl_op c = OpPop ->
  counts_for (cl_op c) a b -> (calm = true -> cl_cancelled c = false /\ cl_after c <> Fired) ->
  sync_ok calm (run_section t c q) /\ data_ok (run_section t c q).
Proof.
  intros Hd Hs Ho Hab Hcalm. unfold run_section, pop_loop. rewrite Ho in Hab |- *. destruct Hab as (Ha & ->).
  destruct (q_items q) as [|x rest] eqn:Ei.
  - destruct (q_closed q) eqn:Hcl; [|destruct (cl_cancelled c) eqn:Hca].
    + split; [|by apply (data_ok_same q); [by split_and_all|]]. apply section_over; [|done].
      eapply section_weaken; [exact Hs|by left].
    + split; [|by apply (data_ok_same q); [by split_and_all|]]. apply section_over; [|by rewrite Hca].
      eapply section_weaken; [exact Hs|right; left]. destruct calm; [|done]. by destruct Hcalm.
    + split; [|by apply (data_ok_same q); [by split_and_all|]]. destruct Hs as [H1 H2 H3]. split; simpl.
      * rewrite <- insert_delete_eq. rewrite Hcl, Ei in H1 |- *. eapply core_sleep_pop;
          [exact H1|apply lookup_delete_eq|done|exact Ho|]. intros Hx. by split.
      * rewrite H2. apply mutex_insert; [done| |by left]. unfold in_mutex. simpl. naive_solver.
  - split; [|apply (data_ok_same (take_front x rest true q)); [exact (signal_notFull_same _)|by apply take_front_ok]].
    apply section_over; [|done]. eapply (section_signal_f calm t a 0 0 q); try done; simpl; rewrite Ei; simpl; lia.
Qed.

Lemma run_section_ok calm t c q a b : data_ok q -> section_ok calm t a b q ->
  counts_for (cl_op c) a b -> (calm = true -> cl_cancelled c = false /\ cl_after c <> Fired) ->
  sync_ok calm (run_section t c q) /\ data_ok (run_section t c q).
Proof. intros. destruct (cl_op c) eqn:Ho; [eapply push_section_ok|eapply pop_section_ok]; eauto; by rewrite Ho. Qed.

(** A caller moves on without falling asleep or waking up. *)
Lemma core_move calm n cap cl le lf m a b t c c' : core_ok calm n cap cl le lf m a b -> m !! t = Some c ->
  cl_op c' = cl_op c -> (cl_stage c' = Waiting <-> cl_stage c = Waiting) -> awake (cl_stage c') = awake (cl_stage c) ->
  (calm = true -> cl_cancelled c' = false /\ cl_after c' <> Fired) ->
  core_ok calm n cap cl le lf (<[t := c']> m) a b.
Proof.
  intros [H1 H2 H3 H4 H5 H6 H7] Hc Ho Hw Ha Hcalm.
  assert (Hm : forall u, (waits_pop (<[t := c']> m) u <-> waits_pop m u) /\ (waits_push (<[t := c']> m) u <-> waits_push m u)).
  { intros u. unfold waits_pop, waits_push. destruct (decide (t = u)) as [->|Hn]; [|by rewrite lookup_insert_ne].
    rewrite lookup_insert_eq, Hc. split; split.
    - intros (d & [= <-] & Hs & Hd). exists c. split_and_all; [done|by apply Hw|congruence].
    - intros (d & [= <-] & Hs & Hd). exists c'. split_and_all; [done|by apply Hw|congruence].
    - intros (d & x & [= <-] & Hs & Hd). exists c, x. split_and_all; [done|by apply Hw|congruence].
    - intros (d & x & [= <-] & Hs & Hd). exists c', x. split_and_all; [done|by apply Hw|congruence]. }
  split; try done.
  - split; [apply H1|]. intros u. rewrite (proj1 (Hm u)). apply H1.
  - split; [apply H2|]. intros u. rewrite (proj2 (Hm u)). apply H2.
  - intros u d x p [[<- <-]|[_ Hd]]%lookup_insert_Some; [|by apply (H3 u)].
    intros Hx Hor. apply (H3 t c x p Hc); [congruence|]. destruct Hor; [left; by apply Hw|right; congruence].
  - intros Hx u d [[<- <-]|[_ Hd]]%lookup_insert_Some; [by apply Hcalm|by apply (H5 Hx u)].
  - intros Hx. rewrite (msum_insert _ _ _ _ _ Hc). destruct (H6 Hx) as [?|?]; [by left|right].
    unfold awake_pop in *. rewrite Ho, Ha. lia.
  - intros Hx. rewrite (msum_insert _ _ _ _ _ Hc). destruct (H7 Hx) as [?|?]; [by left|right].
    unfold awake_push in *. rewrite Ho, Ha. lia.
Qed.

Lemma mutex_move (m : gmap nat caller) mu t c c' : mutex_ok mu m -> m !! t = Some c ->
  (in_mutex c' <-> in_mutex c) -> mutex_ok mu (<[t := c']> m).
Proof.
  intros H Hc Hin u. rewrite (H u). destruct (decide (t = u)) as [->|Hn]; [|by rewrite lookup_insert_ne].
  rewrite lookup_insert_eq, Hc. split; intros (d & [= <-] & Hd); [exists c'|exists c]; split; try done; by apply Hin.
Qed.

Lemma counts_for_count calm n cap cl le lf m a b t c : core_ok calm n cap cl le lf m a b -> m !! t = Some c ->
  cl_stage c <> Waiting -> counts_for (cl_op c) (awake_pop c) (awake_push c).
Proof.
  intros H Hc Hs. unfold counts_for, awake_pop, awake_push. destruct (cl_op c) as [x p|] eqn:Ho.
  - split_and_all; [done|by case_match..|]. intros Hp. case_match; [|done]. destruct Hp.
    eapply (co_block _ _ _ _ _ _ _ _ _ H t c); [done|exact Ho|by right].
  - by case_match.
Qed.

(** The section of a caller that was not asleep. *)
Lemma enter_ok calm t c q : data_ok q -> sync_ok calm q -> q_callers q !! t = Some c -> cl_stage c <> Waiting ->
  (q_mu q = None \/ q_mu q = Some t) ->
  let q0 := q_set_mu None q in
  let q' := if cl_cancelled c then set_caller t (set_stage (Over ErrContext) c) q0 else run_section t c q0 in
  sync_ok calm q' /\ data_ok q'.
Proof.
  intros Hd [H1 H2] Hc Hs Hmu q0. cbv zeta.
  assert (Hcalm : calm = true -> cl_cancelled c = false /\ cl_after c <> Fired) by (intros Hx; by apply (co_calm _ _ _ _ _ _ _ _ _ H1 Hx t)).
  assert (Hd0 : data_ok q0) by by apply (data_ok_same q); [split_and_all|].
  assert (Hse : section_ok calm t (awake_pop c) (awake_push c) q0).
  { split; [|done|by eapply mutex_delete]. eapply core_delete in H1; [|exact Hc|done]. exact H1. }
  destruct (cl_cancelled c) eqn:Hca.
  - split; [|by apply (data_ok_same q); [split_and_all|]]. apply section_over; [|by rewrite Hca].
    eapply section_weaken; [exact Hse|right; left]. destruct calm; [|done]. by destruct Hcalm.
  - eapply run_section_ok; [done|exact Hse| |by rewrite Hca]. by eapply counts_for_count.
Qed.

Lemma broadcasts_ok calm q : sync_ok calm q ->
  (sync_ok calm (broadcast_notEmpty q) /\ same_data q (broadcast_notEmpty q)) /\
  (sync_ok calm (broadcast_notFull q) /\ same_data q (broadcast_notFull q)).
Proof.
  intros [H1 H2]. split; (split; [|by split_and_all]); split; simpl; try by apply mutex_wakes.
  - by apply core_wake_pops.
  - by apply core_wake_pushes.
Qed.

Lemma Close_ok calm q : data_ok q -> sync_ok calm q -> sync_ok calm (Close q) /\ data_ok (Close q).
Proof.
  intros Hd Hs. unfold Close. destruct (q_closed q) eqn:Hcl; [done|]. destruct Hs as [H1 H2].
  split; [|by apply (data_ok_same q); [by split_and_all|]].
  split; simpl; [|by apply mutex_wakes, mutex_wakes]. eapply core_close, core_wake_pushes, core_wake_pops, H1.
Qed.

Lemma queue_step_ok calm ev q q' : data_ok q -> sync_ok calm q ->
  (calm = true -> match ev with EvCancel _ => False | EvCall _ _ c => c = false | _ => True end) ->
  queue_step ev q = Some q' -> sync_ok calm q' /\ data_ok q'.
Proof.
  intros Hd Hs Hev. pose proof Hs as [H1 H2].
  assert (Hcalm : forall t c, q_callers q !! t = Some c -> calm = true -> cl_cancelled c = false /\ cl_after c <> Fired)
    by (intros t c Hc Hx; by apply (co_calm _ _ _ _ _ _ _ _ _ H1 Hx t)).
  destruct ev as [t op ca|t|t|t|t|t|t|]; cbn [queue_step];
    try (destruct (q_callers q !! t) as [c|] eqn:Hc); try done.
  - intros [= <-]. split; [|by apply (data_ok_same q); [split_and_all|]]. split; simpl.
    + eapply core_weaken; [apply core_insert; [exact H1|done..|]|].
      * simpl. intros Hx. by rewrite (Hev Hx).
      * unfold awake_pop, awake_push. simpl. right. right. case_match; lia.
    + intros u. rewrite (H2 u). destruct (decide (t = u)) as [->|Hn]; [|by rewrite lookup_insert_ne].
      rewrite lookup_insert_eq, Hc. unfold in_mutex. split; intros (d & [= <-] & Hx); simpl in Hx; by destruct Hx.
  - destruct (q_mu q) eqn:Hmu, (cl_stage c) eqn:Hst; try done. intros [= <-].
    replace q with (q_set_mu None q) by (destruct q; simpl in *; by subst).
    apply enter_ok; [done..| |by left]. congruence.
  - destruct (q_mu q) eqn:Hmu, (cl_stage c) eqn:Hst; try done. intros [= <-].
    split; [|by apply (data_ok_same q); [split_and_all|]]. split; simpl.
    + apply (core_move _ _ _ _ _ _ _ _ _ t c); [done|done|done|by rewrite Hst|by rewrite Hst|exact (Hcalm t c Hc)].
    + apply mutex_insert; [apply (mutex_delete _ None); [exact H2|by left]| |by right]. split; [by left|done].
  - destruct (cl_stage c) eqn:Hst; try done. intros [= <-].
    split; [|by apply (data_ok_same q); [split_and_all|]]. split; simpl.
    + apply (core_move _ _ _ _ _ _ _ _ _ t c); [done..| | |]; try by rewrite Hst. simpl.
      intros Hx. destruct (Hcalm t c Hc Hx). split; [done|]. by case_match.
    + apply (mutex_move _ _ t c); [done..|]. unfold in_mutex. simpl. rewrite Hst. naive_solver.
  - destruct (cl_stage c) eqn:Hst; try done. intros [= <-].
    apply enter_ok; [done..|congruence|right]. apply H2. exists c. split; [done|by right].
  - intros [= <-]. split; [|by apply (data_ok_same q); [split_and_all|]]. split; simpl.
    + apply (core_move _ _ _ _ _ _ _ _ _ t c); try done.
    + apply (mutex_move _ _ t c); [exact H2|exact Hc|reflexivity].
  - destruct (q_mu q) eqn:Hmu, (cl_after c) eqn:Hf; try done. intros [= <-].
    set (q0 := set_caller t (set_after NoAfter c) q).
    assert (Hs0 : sync_ok calm q0).
    { split; simpl.
      - apply (core_move _ _ _ _ _ _ _ _ _ t c); try done. intros Hx. split; [by apply (Hcalm t c)|done].
      - rewrite Hmu. apply (mutex_move _ _ t c); [exact H2|exact Hc|reflexivity]. }
    destruct (broadcasts_ok calm q0 Hs0) as [[He He'] [Hf' Hg]].
    destruct (cl_op c); (split; [done|]); by apply (data_ok_same q).
  - destruct (q_mu q); [done|]. intros [= <-]. by apply Close_ok.
Qed.

Lemma queue_New_ok calm capacity : data_ok (New capacity) /\ sync_ok calm (New capacity).
Proof.
  split; split; simpl; try done.
  - destruct (Z.leb_spec capacity 0); lia.
  - assert (Hw : forall t : nat, t ∈ [] <-> False) by (intros t; split; [apply not_elem_of_nil|done]).
    split; try done; try by left.
    + split; [constructor|]. intros t. rewrite Hw. split; [done|by intros (c & [=] & _)].
    + split; [constructor|]. intros t. rewrite Hw. split; [done|by intros (c & x & [=] & _)].
  - intros t. split; [done|by intros (c & [=] & _)].
Qed.

Lemma queue_reachable_ok capacity calm q :
  queue_reachable capacity (negb calm) q -> sync_ok calm q /\ data_ok q.
Proof.
  induction 1 as [|ev q q' _ [Hs Hd] Hev Hstep]; [by destruct (queue_New_ok calm capacity)|].
  eapply queue_step_ok; [done..| |exact Hstep]. intros ->. by apply Hev.
Qed.

Lemma run_queue_reachable capacity may_cancel evs : forall q q', queue_reachable capacity may_cancel q ->
  Forall (fun ev => may_cancel = false ->
    match ev with EvCancel _ => False | EvCall _ _ c => c = false | _ => True end) evs ->
  run_queue evs q = Some q' -> queue_reachable capacity may_cancel q'.
Proof.
  induction evs as [|ev evs IH]; intros q q' Hq Hf; simpl; [by intros [= <-]|].
  apply Forall_cons in Hf as [Hev Hf]. destruct (queue_step ev q) as [q1|] eqn:E; [|done]. simpl.
  apply IH; [|done]. by eapply queue_next.
Qed.

(** In every interleaving of callers the queue is FIFO and loses nothing: what
    was enqueued is, in order, what left followed by what is there. The length
    never passes the capacity and the counters are exact: [enqueued] counts the
    items that entered, [dequeued] those a [Pop] returned, and [dropped] at least
    those [PolicyDropOldest] took. *)
Theorem queue_fifo capacity may_cancel q : queue_reachable capacity may_cancel q ->
  q_log q = map fst (q_out q) ++ q_items q /\
  (length (q_items q) <= q_capacity q)%nat /\
  q_enqueued q = Z.of_nat (length (q_log q)) /\
  q_dequeued q = left_for true (q_out q) /\
  Z.of_nat (length (q_items q)) = q_enqueued q - q_dequeued q - left_for false (q_out q) /\
  left_for false (q_out q) <= q_dropped q.
Proof.
  intros H. assert (H' : queue_reachable capacity (negb (negb may_cancel)) q) by by rewrite negb_involutive.
  apply queue_reachable_ok in H' as [_ [H1 H2 H3 H4 H5]]. split_and_all; try done; [apply H1|].
  rewrite H3, H4, H2, length_app, length_map. unfold left_for.
  enough (Hl : forall l : list (T * bool), Z.of_nat (length l) =
    lsum (fun x => if Bool.eqb x.2 true then 1 else 0) l + lsum (fun x => if Bool.eqb x.2 false then 1 else 0) l)
    by (rewrite Nat2Z.inj_add, Hl; lia).
  induction l as [|[y []] l IH]; simpl; lia.
Qed.

(** C14. While no context is cancelled no wake-up is lost: when every caller that
    was woken has had its turn, a [Pop] that still sleeps found no item, and a
    [Push] that still sleeps found no room. *)
Theorem no_lost_wakeup capacity q : queue_reachable capacity false q ->
  (forall t, queue_step (EvAcquire t) q = None /\ queue_step (EvStopWake t) q = None /\ queue_step (EvRecheck t) q = None) ->
  forall t c, q_callers q !! t = Some c -> cl_stage c = Waiting ->
  match cl_op c with
  | OpPop => q_items q = []
  | OpPush _ _ => length (q_items q) = q_capacity q
  end.
Proof.
  intros Hr Hidle t c Hc Hw. destruct (queue_reachable_ok capacity true q Hr) as [[H1 H2] [H3 _ _ _ _]].
  assert (Hall : forall u d, q_callers q !! u = Some d -> awake (cl_stage d) = false).
  { intros u d Hd. destruct (Hidle u) as (Ha & Hb & He). unfold queue_step in *. rewrite Hd in Ha, Hb, He.
    destruct (cl_stage d) eqn:Hst; try done. destruct (q_mu q) as [v|] eqn:Hmu; [|done].
    destruct (proj1 (H2 v) eq_refl) as (e & Hv & Hin). destruct (Hidle v) as (_ & Hb' & He'). rewrite Hv in Hb', He'.
    destruct Hin as [Hin|Hin]; rewrite Hin in Hb', He'; done. }
  assert (Hz : msum awake_pop (q_callers q) = 0 /\ msum awake_push (q_callers q) = 0).
  { split; apply msum_zero; intros u d Hd; unfold awake_pop, awake_push; rewrite (Hall u d Hd); by case_match. }
  destruct (cl_op c) as [x p|] eqn:Ho.
  - assert (Ht : t ∈ q_notFull q).
    { apply (co_full _ _ _ _ _ _ _ _ _ H1). exists c, x. split_and_all; [done..|].
      rewrite Ho. f_equal. eapply (co_block _ _ _ _ _ _ _ _ _ H1 t c); [done|exact Ho|by left]. }
    destruct (co_pushes _ _ _ _ _ _ _ _ _ H1 eq_refl) as [He|He]; [rewrite He in Ht; by apply not_elem_of_nil in Ht|lia].
  - assert (Ht : t ∈ q_notEmpty q) by (apply (co_empty _ _ _ _ _ _ _ _ _ H1); by exists c).
    destruct (co_pops _ _ _ _ _ _ _ _ _ H1 eq_refl) as [He|He]; [rewrite He in Ht; by apply not_elem_of_nil in Ht|].
    apply nil_length_inv. lia.
Qed.
End Queue.
Arguments queue : clear implicits.
Arguments queue_event : clear implicits.
Arguments caller : clear implicits.
Arguments queue_op : clear implicits.

(** Two consumers wait, a producer brings an item. *)
Definition two_consumers : list (queue_event nat) :=
  [EvCall 0 OpPop false; EvEnter 0; EvCall 1 OpPop false; EvEnter 1; EvCall 2 (OpPush 7%nat PolicyBlock) false; EvEnter 2].

Lemma two_consumers_calm : Forall (fun ev => false = false ->
  match ev with EvCancel _ => False | EvCall _ _ c => c = false | _ => True end) two_consumers.
Proof. by repeat constructor. Qed.

(** Every caller of [m] is over, or asleep with its context not cancelled. *)
Definition all_quiet (m : gmap nat (caller nat)) : bool :=
  forallb (fun kc : nat * caller nat => match cl_stage kc.2, cl_after kc.2 with
    | Over _, NoAfter => true | Waiting, Registered => negb (cl_cancelled kc.2) | _, _ => false end) (map_to_list m).

Lemma all_quiet_stuck (q : queue nat) t : all_quiet (q_callers q) = true ->
  queue_step (EvEnter t) q = None /\ queue_step (EvAcquire t) q = None /\ queue_step (EvStopWake t) q = None /\
  queue_step (EvRecheck t) q = None /\ queue_step (EvFire t) q = None.
Proof.
  unfold all_quiet. rewrite forallb_forall. intros H. cbn [queue_step].
  destruct (q_callers q !! t) as [c|] eqn:Hc; [|done].
  apply elem_of_map_to_list in Hc. assert (Hin : In (t, c) (map_to_list (q_callers q))) by by apply list_elem_of_In.
  specialize (H _ Hin). simpl in H. destruct (q_mu q), (cl_stage c), (cl_after c); done.
Qed.

(** A cancelled context can lose a wake-up: the consumer that [Push] woke has
    given up its callback ([stopWake()]) when its context is cancelled, and then
    returns the context's error and not the item. The other consumer, whose
    context is alive, sleeps on, the queue has an item, and no step of any
    caller is enabled. *)
Theorem cancelled_consumer_loses_wakeup : exists q,
  run_queue (two_consumers ++ [EvAcquire 0; EvStopWake 0; EvCancel 0; EvRecheck 0]) (New 1) = Some q /\
  q_items q = [7%nat] /\
  q_callers q !! 0%nat = Some (mkCaller OpPop (Over ErrContext) true NoAfter) /\
  q_callers q !! 1%nat = Some (mkCaller OpPop Waiting false Registered) /\
  forall t, queue_step (EvEnter t) q = None /\ queue_step (EvAcquire t) q = None /\
    queue_step (EvStopWake t) q = None /\ queue_step (EvRecheck t) q = None /\ queue_step (EvFire t) q = None.
Proof.
  eexists. split; [vm_compute; reflexivity|]. split_and_all; try (vm_compute; reflexivity).
  intros t. apply all_quiet_stuck. vm_compute. reflexivity.
Qed.

Lemma queue_fifo_witness : exists q, run_queue two_consumers (New 1) = Some q /\
  q_log q = map fst (q_out q) ++ q_items q.
Proof.
  eexists. split; [vm_compute; reflexivity|]. refine (proj1 (queue_fifo 1 false _ _)).
  eapply (run_queue_reachable 1 false two_consumers); [apply queue_init|exact two_consumers_calm|vm_compute; reflexivity].
Defined.

(** Two consumers wait and a third finds an item: the first two sleep. *)
Lemma no_lost_wakeup_witness : exists q,
  run_queue (two_consumers ++ [EvAcquire 0; EvStopWake 0; EvRecheck 0]) (New 1) = Some q /\
  exists c, q_callers q !! 1%nat = Some c /\ cl_stage c = Waiting /\ q_items q = [].
Proof.
  eexists. split; [vm_compute; reflexivity|]. eexists. split; [vm_compute; reflexivity|]. split; [reflexivity|].
  refine (no_lost_wakeup 1 _ _ _ 1%nat (mkCaller OpPop Waiting false Registered) _ _);
    [|intros t|vm_compute; reflexivity|reflexivity].
  - eapply (run_queue_reachable 1 false (two_consumers ++ [EvAcquire 0; EvStopWake 0; EvRecheck 0]));
      [apply queue_init|by repeat constructor|vm_compute; reflexivity].
  - match goal with |- queue_step _ ?q = None /\ _ =>
      destruct (all_quiet_stuck q t) as (_ & Ha & Hb & He & _); [vm_compute; reflexivity|by split_and_all]
    end.
Defined.
