(* ===== verification/Utf8.v ===== *)
(** * Go strings as runes

    What Go does with the UTF-8 text of a string: [decode_runes] is the sequence a
    [range] over it yields, with U+FFFD for every byte that does not belong to a
    well-formed encoding, and [encode_rune] is [WriteRune]. Bytes and runes are
    integers. *)

From S2P Require Import Prelude.

Definition bytes_of (s : string) : list Z := map byte_of (String.list_ascii_of_string s).
Definition string_of (l : list Z) : string :=
  String.string_of_list_ascii (map (fun b => Ascii.ascii_of_nat (Z.to_nat b)) l).

Definition RuneError : Z := 65533.

Definition valid_rune (r : Z) : bool :=
  ((0 <=? r) && (r <? 55296)) || ((57344 <=? r) && (r <=? 1114111)).

Definition encode_valid (r : Z) : list Z :=
  if r <? 128 then [r]
  else if r <? 2048 then [192 + r / 64; 128 + r mod 64]
  else if r <? 65536 then [224 + r / 4096; 128 + r / 64 mod 64; 128 + r mod 64]
  else [240 + r / 262144; 128 + r / 4096 mod 64; 128 + r / 64 mod 64; 128 + r mod 64].

Definition encode_rune (r : Z) : list Z := encode_valid (if valid_rune r then r else RuneError).
Definition encode_runes (rs : list Z) : list Z := flat_map encode_rune rs.

Definition between (lo b hi : Z) : bool := (lo <=? b) && (b <=? hi).
Definition continuation (b : Z) : bool := between 128 b 191.

(** The range of the second byte after the first ([acceptRanges]). *)
Definition second_ok (b0 b1 : Z) : bool :=
  if b0 =? 224 then between 160 b1 191
  else if b0 =? 237 then between 128 b1 159
  else if b0 =? 240 then between 144 b1 191
  else if b0 =? 244 then between 128 b1 143
  else continuation b1.

(** The first rune and how many bytes it takes ([utf8.DecodeRuneInString]); the text is not empty. *)
Definition decode_rune (b0 : Z) (rest : list Z) : Z * nat :=
  if b0 <? 128 then (b0, 1%nat)
  else if between 194 b0 223 then
    match rest with
    | b1 :: _ => if continuation b1 then ((b0 - 192) * 64 + (b1 - 128), 2%nat) else (RuneError, 1%nat)
    | _ => (RuneError, 1%nat)
    end
  else if between 224 b0 239 then
    match rest with
    | b1 :: b2 :: _ =>
        if second_ok b0 b1 && continuation b2 then ((b0 - 224) * 4096 + (b1 - 128) * 64 + (b2 - 128), 3%nat)
        else (RuneError, 1%nat)
    | _ => (RuneError, 1%nat)
    end
  else if between 240 b0 244 then
    match rest with
    | b1 :: b2 :: b3 :: _ =>
        if second_ok b0 b1 && continuation b2 && continuation b3
        then ((b0 - 240) * 262144 + (b1 - 128) * 4096 + (b2 - 128) * 64 + (b3 - 128), 4%nat)
        else (RuneError, 1%nat)
    | _ => (RuneError, 1%nat)
    end
  else (RuneError, 1%nat).

(** A rune takes at least a byte: the length of the text is enough fuel. *)
Fixpoint decode_with (fuel : nat) (bs : list Z) : list Z :=
  match fuel, bs with
  | S fuel, b0 :: rest =>
      let '(r, n) := decode_rune b0 rest in r :: decode_with fuel (drop n bs)
  | _, _ => []
  end.
Definition decode_runes (bs : list Z) : list Z := decode_with (length bs) bs.

(** Text that is UTF-8. *)
Definition utf8 (bs : list Z) : Prop := exists rs, Forall (fun r => valid_rune r = true) rs /\ bs = encode_runes rs.

(** [unicode.IsSpace]. *)
Definition is_space (r : Z) : bool :=
  between 9 r 13 || (r =? 32) || (r =? 133) || (r =? 160) || (r =? 5760) || between 8192 r 8202 || (r =? 8232) ||
  (r =? 8233) || (r =? 8239) || (r =? 8287) || (r =? 12288).

Lemma encode_rune_length r : (1 <= length (encode_rune r) <= 4)%nat.
Proof. unfold encode_rune, encode_valid. repeat case_match; simpl; lia. Qed.

Lemma between_true lo b hi : lo <= b <= hi -> between lo b hi = true.
Proof. intros [? ?]. unfold between. apply andb_true_iff. split; by apply Z.leb_le. Qed.
Lemma between_false lo b hi : b < lo \/ hi < b -> between lo b hi = false.
Proof.
  intros H. unfold between. apply andb_false_iff. destruct H; [left|right]; apply Z.leb_gt; lia.
Qed.

(** What is encoded decodes to itself, whatever follows. *)
Lemma decode_encode r tl : valid_rune r = true ->
  exists b0 rest, encode_rune r ++ tl = b0 :: rest /\ decode_rune b0 rest = (r, length (encode_rune r)).
Proof.
  intros Hv. unfold encode_rune. rewrite Hv. unfold encode_valid.
  assert (Hr : 0 <= r < 55296 \/ 57344 <= r <= 1114111).
  { unfold valid_rune in Hv. apply orb_true_iff in Hv as [Hv|Hv]; bool_to_prop; lia. }
  pose proof (Z.div_mod r 64 ltac:(lia)). pose proof (Z.mod_pos_bound r 64 ltac:(lia)).
  pose proof (Z.div_mod (r / 64) 64 ltac:(lia)). pose proof (Z.mod_pos_bound (r / 64) 64 ltac:(lia)).
  pose proof (Z.div_mod (r / 4096) 64 ltac:(lia)). pose proof (Z.mod_pos_bound (r / 4096) 64 ltac:(lia)).
  assert (E1 : r / 64 / 64 = r / 4096) by (rewrite Z.div_div by lia; done).
  assert (E2 : r / 4096 / 64 = r / 262144) by (rewrite Z.div_div by lia; done).
  destruct (Z.ltb_spec r 128); [|destruct (Z.ltb_spec r 2048); [|destruct (Z.ltb_spec r 65536)]];
    do 2 eexists; (split; [reflexivity|]); unfold decode_rune; cbn [length].
  - destruct (Z.ltb_spec r 128); [done|lia].
  - destruct (Z.ltb_spec (192 + r / 64) 128); [lia|]. rewrite between_true by lia. unfold continuation.
    rewrite between_true by lia. f_equal. lia.
  - destruct (Z.ltb_spec (224 + r / 4096) 128); [lia|]. rewrite (between_false 194), (between_true 224) by lia.
    assert (Hs : second_ok (224 + r / 4096) (128 + r / 64 mod 64) = true).
    { unfold second_ok, continuation.
      destruct (Z.eqb_spec (224 + r / 4096) 224); [apply between_true; lia|].
      destruct (Z.eqb_spec (224 + r / 4096) 237); [apply between_true; lia|].
      destruct (Z.eqb_spec (224 + r / 4096) 240); [lia|]. destruct (Z.eqb_spec (224 + r / 4096) 244); [lia|].
      apply between_true. lia. }
    rewrite Hs. unfold continuation. rewrite between_true by lia. cbn [andb]. f_equal. lia.
  - destruct (Z.ltb_spec (240 + r / 262144) 128); [lia|].
    rewrite (between_false 194), (between_false 224), (between_true 240) by lia.
    assert (Hs : second_ok (240 + r / 262144) (128 + r / 4096 mod 64) = true).
    { unfold second_ok, continuation.
      destruct (Z.eqb_spec (240 + r / 262144) 224); [lia|]. destruct (Z.eqb_spec (240 + r / 262144) 237); [lia|].
      destruct (Z.eqb_spec (240 + r / 262144) 240); [apply between_true; lia|].
      destruct (Z.eqb_spec (240 + r / 262144) 244); [apply between_true; lia|]. apply between_true. lia. }
    rewrite Hs. unfold continuation. rewrite !between_true by lia. cbn [andb]. f_equal. lia.
Qed.

Lemma decode_encode_with rs fuel : Forall (fun r => valid_rune r = true) rs ->
  (length (encode_runes rs) <= fuel)%nat -> decode_with fuel (encode_runes rs) = rs.
Proof.
  intros Hv. revert fuel. induction Hv as [|r rs Hr _ IH]; intros fuel Hf; [by destruct fuel|].
  cbn [encode_runes flat_map] in *. fold (encode_runes rs) in *.
  destruct (decode_encode r (encode_runes rs) Hr) as (b0 & rest & E & Hd).
  pose proof (encode_rune_length r). rewrite length_app in Hf. destruct fuel as [|fuel]; [lia|].
  rewrite E. cbn [decode_with]. rewrite Hd, <- E, drop_app_length. f_equal. apply IH. lia.
Qed.

(** UTF-8 text decodes to the runes it encodes. *)
Lemma decode_encode_runes rs : Forall (fun r => valid_rune r = true) rs -> decode_runes (encode_runes rs) = rs.
Proof. intros Hv. by apply decode_encode_with. Qed.

Lemma encode_runes_app rs1 rs2 : encode_runes (rs1 ++ rs2) = encode_runes rs1 ++ encode_runes rs2.
Proof. apply flat_map_app. Qed.
