(* ===== verification/CommandText.v ===== *)
(** * The text of a command

    Models [tokenize] and [Parse] of [internal/core/router.go]. A text is a list of
    bytes; the tokenizer goes over its runes. Slicing a string past its end panics
    in Go: [Parse] is [None] then. *)

From S2P Require Import Prelude.
From S2P Require Import Utf8.

Inductive parse_error := ErrTrailingEscape | ErrUnclosedQuote.

Definition backslash : Z := 92.
Definition double_quote : Z := 34.
Definition single_quote : Z := 39.
Definition blank_rune : Z := 32.

(** The locals of [tokenize]; [current] is kept as runes, and its bytes are none
    exactly when it has none. *)
Record lexer := mkLexer {
  lx_tokens : list (list Z); lx_current : list Z; lx_inSingle : bool; lx_inDouble : bool; lx_escaped : bool
}.

Definition lex_start : lexer := mkLexer [] [] false false false.
Definition write_rune (r : Z) (l : lexer) : lexer :=
  mkLexer (lx_tokens l) (lx_current l ++ [r]) (lx_inSingle l) (lx_inDouble l) (lx_escaped l).
Definition set_escaped (b : bool) (l : lexer) : lexer :=
  mkLexer (lx_tokens l) (lx_current l) (lx_inSingle l) (lx_inDouble l) b.
Definition flush (l : lexer) : lexer :=
  match lx_current l with
  | [] => l
  | cur => mkLexer (lx_tokens l ++ [encode_runes cur]) [] (lx_inSingle l) (lx_inDouble l) (lx_escaped l)
  end.

(** The body of the loop. *)
Definition lex_rune (l : lexer) (r : Z) : lexer :=
  if lx_escaped l then set_escaped false (write_rune r l)
  else if r =? backslash then set_escaped true l
  else if (r =? double_quote) && negb (lx_inSingle l) then
    mkLexer (lx_tokens l) (lx_current l) (lx_inSingle l) (negb (lx_inDouble l)) (lx_escaped l)
  else if (r =? single_quote) && negb (lx_inDouble l) then
    mkLexer (lx_tokens l) (lx_current l) (negb (lx_inSingle l)) (lx_inDouble l) (lx_escaped l)
  else if is_space r && negb (lx_inSingle l) && negb (lx_inDouble l) then flush l
  else write_rune r l.

Definition lex_end (l : lexer) : parse_error + list (list Z) :=
  if lx_escaped l then inl ErrTrailingEscape
  else if lx_inSingle l || lx_inDouble l then inl ErrUnclosedQuote
  else inr (lx_tokens (flush l)).

Definition tokenize (s : list Z) : parse_error + list (list Z) := lex_end (foldl lex_rune lex_start (decode_runes s)).

Definition TrimSpace (s : list Z) : list Z := bytes_of (trim_space (string_of s)).

Fixpoint has_prefix (p s : list Z) : bool :=
  match p, s with
  | [], _ => true
  | a :: p, b :: s => (a =? b) && has_prefix p s
  | _, _ => false
  end.

Record ParsedCommand := mkParsed { pc_Name : list Z; pc_Args : list (list Z); pc_RawArgs : list Z }.

Section Parse.
(** [strings.ToLower]; outside ASCII it needs the tables of [unicode]. *)
Context (ToLower : list Z -> list Z).

(** The text after the prefix, [None] when it is no command. *)
Definition command_text (prefix text : list Z) : option (list Z) :=
  let text := TrimSpace text in
  if has_prefix prefix text then
    match TrimSpace (drop (length prefix) text) with [] => None | afterPrefix => Some afterPrefix end
  else None.

(** The rest of [Parse]. *)
Definition parse_after (afterPrefix : list Z) : option (parse_error + option ParsedCommand) :=
  match tokenize afterPrefix with
  | inl err => Some (inl err)
  | inr [] => Some (inr None)
  | inr (tok :: args) =>
      if (length tok <=? length afterPrefix)%nat
      then Some (inr (Some (mkParsed (ToLower tok) args (TrimSpace (drop (length tok) afterPrefix)))))
      else None
  end.

Definition Parse (prefix text : list Z) : option (parse_error + option ParsedCommand) :=
  match command_text prefix text with None => Some (inr None) | Some afterPrefix => parse_after afterPrefix end.
End Parse.

(** ** Quoting *)

(** How an argument is written so that it comes back as it is: in double quotes,
    with quotes and backslashes escaped. *)
Definition escape (r : Z) : list Z := if (r =? double_quote) || (r =? backslash) then [backslash; r] else [r].
Definition quote (arg : list Z) : list Z := [double_quote] ++ flat_map escape arg ++ [double_quote].
Fixpoint join (args : list (list Z)) : list Z :=
  match args with [] => [] | [a] => a | a :: rest => a ++ [blank_rune] ++ join rest end.

Lemma lex_escape toks cur r :
  foldl lex_rune (mkLexer toks cur false true false) (escape r) = mkLexer toks (cur ++ [r]) false true false.
Proof.
  unfold escape. destruct ((r =? double_quote) || (r =? backslash)) eqn:E.
  - done.
  - apply orb_false_iff in E as [E1 E2]. cbn. unfold lex_rune. cbn. rewrite E2, E1. cbn. rewrite !andb_false_r. done.
Qed.

Lemma lex_escapes toks arg : forall cur,
  foldl lex_rune (mkLexer toks cur false true false) (flat_map escape arg) = mkLexer toks (cur ++ arg) false true false.
Proof.
  induction arg as [|r arg IH]; intros cur; cbn [flat_map]; [by rewrite app_nil_r|].
  by rewrite foldl_app, lex_escape, IH, <- app_assoc.
Qed.

Lemma lex_quote toks arg :
  foldl lex_rune (mkLexer toks [] false false false) (quote arg) = mkLexer toks arg false false false.
Proof.
  unfold quote. rewrite !foldl_app. cbn [foldl lex_rune]. change (lex_rune (mkLexer toks [] false false false) double_quote)
    with (mkLexer toks [] false true false). by rewrite lex_escapes.
Qed.

Lemma lex_join args : forall toks, Forall (fun a => a <> []) args ->
  lx_tokens (flush (foldl lex_rune (mkLexer toks [] false false false) (join (map quote args)))) = toks ++ map encode_runes args /\
  exists cur ts, foldl lex_rune (mkLexer toks [] false false false) (join (map quote args)) = mkLexer ts cur false false false.
Proof.
  induction args as [|a args IH]; intros toks Hne.
  { cbn. rewrite app_nil_r. split; [done|by eexists _, _]. }
  apply Forall_cons in Hne as [Ha Hne]. destruct args as [|b args].
  - cbn [map join]. rewrite lex_quote. split; [|by eexists _, _]. destruct a; done.
  - change (join (map quote (a :: b :: args))) with (quote a ++ [blank_rune] ++ join (map quote (b :: args))).
    rewrite !foldl_app, lex_quote. cbn [foldl].
    assert (E : lex_rune (mkLexer toks a false false false) blank_rune = mkLexer (toks ++ [encode_runes a]) [] false false false)
      by (destruct a; done).
    rewrite E. destruct (IH (toks ++ [encode_runes a]) Hne) as [Ht Hs]. split; [|exact Hs]. by rewrite Ht, <- app_assoc.
Qed.

Lemma escape_valid r : valid_rune r = true -> Forall (fun r => valid_rune r = true) (escape r).
Proof. intros Hv. unfold escape. case_match; repeat constructor; done. Qed.

Lemma quote_valid a : Forall (fun r => valid_rune r = true) a -> Forall (fun r => valid_rune r = true) (quote a).
Proof.
  intros Ha. unfold quote. apply Forall_app. split; [by repeat constructor|]. apply Forall_app. split; [|by repeat constructor].
  induction Ha as [|r a Hr _ IH]; [constructor|]. cbn. apply Forall_app. split; [by apply escape_valid|done].
Qed.

Lemma join_valid args : Forall (Forall (fun r => valid_rune r = true)) args -> Forall (fun r => valid_rune r = true) (join args).
Proof.
  induction 1 as [|a args Ha Hargs IH]; [constructor|]. destruct args; [done|].
  cbn [join]. apply Forall_app. split; [done|]. constructor; [done|exact IH].
Qed.

(** Whatever arguments a command is given can be written down: quoted with
    [quote] and joined by blanks, [tokenize] gives back exactly the arguments, for
    every text of every argument that is not empty. *)
Theorem tokenize_quote args : Forall (fun a => a <> [] /\ Forall (fun r => valid_rune r = true) a) args ->
  tokenize (encode_runes (join (map quote args))) = inr (map encode_runes args).
Proof.
  intros H. apply Forall_and in H as [Hne Hv]. unfold tokenize. rewrite decode_encode_runes.
  - destruct (lex_join args [] Hne) as [Ht (cur & ts & E)]. unfold lex_start. rewrite E in *. unfold lex_end. cbn [lx_escaped lx_inSingle lx_inDouble orb]. f_equal. exact Ht.
  - apply join_valid. apply Forall_fmap. eapply Forall_impl; [exact Hv|]. intros a Ha. by apply quote_valid.
Qed.

Lemma tokenize_quote_witness :
  tokenize (encode_runes (join (map quote [[97; 32; 34]; [8230]]))) = inr [[97; 32; 34]; [226; 128; 166]].
Proof. apply (tokenize_quote [[97; 32; 34]; [8230]]). repeat constructor; done. Defined.

(** ** The command of a text *)

Definition plain (r : Z) : Prop := r <> backslash /\ r <> double_quote /\ r <> single_quote /\ is_space r = false.

(** Tokens found before stay in front. *)
Lemma lex_rune_tokens ts toks cur s d e r : exists toks' cur' s' d' e',
  lex_rune (mkLexer toks cur s d e) r = mkLexer toks' cur' s' d' e' /\
  lex_rune (mkLexer (ts ++ toks) cur s d e) r = mkLexer (ts ++ toks') cur' s' d' e'.
Proof.
  unfold lex_rune, set_escaped, write_rune, flush. cbn. repeat case_match; do 5 eexists; (split; [reflexivity|]);
    by rewrite <- ?app_assoc.
Qed.

Lemma lex_tokens ts rs : forall toks cur s d e, exists toks' cur' s' d' e',
  foldl lex_rune (mkLexer toks cur s d e) rs = mkLexer toks' cur' s' d' e' /\
  foldl lex_rune (mkLexer (ts ++ toks) cur s d e) rs = mkLexer (ts ++ toks') cur' s' d' e'.
Proof.
  induction rs as [|r rs IH]; intros toks cur s d e; cbn [foldl]; [by do 5 eexists|].
  destruct (lex_rune_tokens ts toks cur s d e r) as (t1 & c1 & s1 & d1 & e1 & -> & ->). apply IH.
Qed.

Lemma lex_end_tokens ts toks cur s d e :
  lex_end (mkLexer (ts ++ toks) cur s d e) =
  match lex_end (mkLexer toks cur s d e) with inl err => inl err | inr l => inr (ts ++ l) end.
Proof. unfold lex_end, flush. cbn. destruct e; [done|]. destruct (s || d); [done|]. destruct cur; cbn; by rewrite ?app_assoc. Qed.

Lemma lex_plain toks name : Forall plain name -> forall cur,
  foldl lex_rune (mkLexer toks cur false false false) name = mkLexer toks (cur ++ name) false false false.
Proof.
  induction 1 as [|r name Hr _ IH]; intros cur; cbn [foldl]; [by rewrite app_nil_r|].
  destruct Hr as (H1 & H2 & H3 & H4). assert (E : lex_rune (mkLexer toks cur false false false) r = mkLexer toks (cur ++ [r]) false false false).
  { unfold lex_rune. cbn. destruct (Z.eqb_spec r backslash); [done|]. destruct (Z.eqb_spec r double_quote); [done|].
    destruct (Z.eqb_spec r single_quote); [done|]. by rewrite H4. }
  by rewrite E, IH, <- app_assoc.
Qed.

(** A plain name and what follows it are told apart. *)
Lemma tokenize_name name rest : name <> [] -> Forall plain name ->
  match rest with [] => True | r :: _ => is_space r = true end ->
  lex_end (foldl lex_rune lex_start (name ++ rest)) =
  match lex_end (foldl lex_rune lex_start rest) with inl err => inl err | inr l => inr (encode_runes name :: l) end.
Proof.
  intros Hne Hp Hr. rewrite foldl_app. unfold lex_start. rewrite (lex_plain [] name Hp []). cbn [app].
  destruct rest as [|r rest]; [by destruct name|]. cbn [foldl].
  assert (Hspace : forall cur, lex_rune (mkLexer [] cur false false false) r = flush (mkLexer [] cur false false false)).
  { intros cur. unfold lex_rune. cbn [lx_escaped lx_inSingle lx_inDouble].
    destruct (Z.eqb_spec r backslash) as [->|]; [done|]. destruct (Z.eqb_spec r double_quote) as [->|]; [done|].
    destruct (Z.eqb_spec r single_quote) as [->|]; [done|]. by rewrite Hr. }
  rewrite !Hspace. assert (E : flush (mkLexer [] name false false false) = mkLexer ([encode_runes name] ++ []) [] false false false)
    by by destruct name.
  rewrite E. cbn [flush lx_current].
  destruct (lex_tokens [encode_runes name] rest [] [] false false false) as (t1 & c1 & s1 & d1 & e1 & -> & ->).
  apply lex_end_tokens.
Qed.

(** A command whose name needs no quoting is read right: the name is what comes
    before the first white space, in lower case, the arguments are the tokens of
    the rest, and [RawArgs] is the rest, trimmed; an error is the rest's. *)
Theorem parse_plain ToLower name rest : name <> [] -> Forall plain name ->
  match rest with [] => True | r :: _ => is_space r = true end ->
  Forall (fun r => valid_rune r = true) (name ++ rest) ->
  parse_after ToLower (encode_runes (name ++ rest)) =
    Some (match tokenize (encode_runes rest) with
          | inl err => inl err
          | inr args => inr (Some (mkParsed (ToLower (encode_runes name)) args (TrimSpace (encode_runes rest))))
          end).
Proof.
  intros Hne Hp Hr Hv. pose proof Hv as Hv'. apply Forall_app in Hv' as [_ Hv'].
  unfold parse_after, tokenize. rewrite !decode_encode_runes by done. rewrite (tokenize_name name rest Hne Hp Hr).
  destruct (lex_end (foldl lex_rune lex_start rest)) as [err|args]; [done|].
  rewrite encode_runes_app, length_app, drop_app_length.
  destruct (Nat.leb_spec (length (encode_runes name)) (length (encode_runes name) + length (encode_runes rest))); [done|lia].
Qed.

(** ** Slicing *)

Definition held (l : lexer) : nat := (length (concat (lx_tokens l)) + length (encode_runes (lx_current l)))%nat.

Lemma held_rune l r : (held (lex_rune l r) <= held l + length (encode_rune r))%nat.
Proof.
  assert (Hw : held (write_rune r l) = (held l + length (encode_rune r))%nat).
  { unfold held, write_rune. cbn. rewrite encode_runes_app, length_app. cbn. rewrite app_nil_r. lia. }
  assert (Hf : held (flush l) = held l).
  { unfold held, flush. destruct (lx_current l) as [|c cur] eqn:E; [by rewrite E|]. cbn [lx_tokens lx_current].
    rewrite concat_app, length_app. cbn. rewrite app_nil_r. lia. }
  assert (Hs : forall b l, held (set_escaped b l) = held l) by done.
  unfold lex_rune. repeat case_match; rewrite ?Hs, ?Hw, ?Hf; unfold held; cbn [lx_tokens lx_current]; lia.
Qed.

Lemma held_runes rs : forall l, (held (foldl lex_rune l rs) <= held l + length (encode_runes rs))%nat.
Proof.
  induction rs as [|r rs IH]; intros l; cbn [foldl]; [lia|].
  specialize (IH (lex_rune l r)). pose proof (held_rune l r). cbn [encode_runes flat_map]. rewrite length_app.
  fold (encode_runes rs). lia.
Qed.

Lemma tokenize_length s toks : utf8 s -> tokenize s = inr toks -> (length (concat toks) <= length s)%nat.
Proof.
  intros (rs & Hv & ->). unfold tokenize. rewrite decode_encode_runes by done. pose proof (held_runes rs lex_start) as Hh.
  set (l := foldl _ _ _) in *. unfold lex_end. destruct (lx_escaped l); [done|]. destruct (lx_inSingle l || lx_inDouble l); [done|].
  intros [= <-]. change (held lex_start) with 0%nat in Hh. unfold held in Hh. unfold flush.
  destruct (lx_current l) as [|c cur]; [lia|]. cbn [lx_tokens]. rewrite concat_app, length_app. cbn [concat].
  rewrite app_nil_r. lia.
Qed.

(** On text that is UTF-8 [Parse] never slices past the end of the text: the
    first token is never longer than the text it was read from. *)
Theorem parse_never_panics ToLower afterPrefix : utf8 afterPrefix -> is_Some (parse_after ToLower afterPrefix).
Proof.
  intros Hu. unfold parse_after. destruct (tokenize afterPrefix) as [err|[|tok args]] eqn:E; [by eexists..|].
  apply (tokenize_length _ _ Hu) in E. cbn [concat] in E. rewrite length_app in E.
  destruct (Nat.leb_spec (length tok) (length afterPrefix)); [by eexists|lia].
Qed.

(** The length of the first token is not the length of its text: with a quoted name [RawArgs] loses
    bytes, or keeps the end of the name; with bytes that are not UTF-8, which a token holds as three bytes
    each, the slice is out of range. *)
Theorem rawargs_of_quoted_name ToLower :
  parse_after ToLower (bytes_of "'ping' me now") =
    Some (inr (Some (mkParsed (ToLower (bytes_of "ping")) [bytes_of "me"; bytes_of "now"] (bytes_of "g' me now")))) /\
  Parse ToLower (bytes_of ".") [46; 255] = None.
Proof. split; vm_compute; reflexivity. Qed.

(** [strings.ToLower] on ASCII text. *)
Definition ascii_lower (s : list Z) : list Z := map (fun b => if (65 <=? b) && (b <=? 90) then b + 32 else b) s.

Lemma parse_plain_witness :
  parse_after ascii_lower (bytes_of "Say  'a b' c") =
    Some (inr (Some (mkParsed (bytes_of "say") [bytes_of "a b"; bytes_of "c"] (bytes_of "'a b' c")))).
Proof.
  change (bytes_of "Say  'a b' c") with (encode_runes (bytes_of "Say" ++ bytes_of "  'a b' c")).
  rewrite (parse_plain ascii_lower (bytes_of "Say") (bytes_of "  'a b' c")); [reflexivity|done| |reflexivity|repeat constructor].
  repeat constructor; done.
Defined.

Lemma parse_never_panics_witness : is_Some (parse_after (fun s => s) [112; 226; 128; 166]).
Proof. apply parse_never_panics. exists [112; 8230]. split; [repeat constructor|reflexivity]. Defined.
