(* ===== verification/CallbackToken.v ===== *)
(** * Callback tokens

    Models [internal/interaction/token.go] and the identifiers of [types.go]: the
    reference [a2:<action>:<session>.<revision>] that Telegram's 64 bytes of callback
    data carry, with the functions of [strconv] (base 36) and [encoding/base64] it uses.
    A text is a list of bytes. *)

From S2P Require Import Prelude.
From S2P Require Import Utf8.
From S2P Require Import CommandText.

Abbreviation bytes := (list Z).

(** ** [strconv] in base 36 *)

Definition digit36 (d : Z) : Z := if d <? 10 then 48 + d else 87 + d.

(** [formatBits]: the digits of [u] in front of [acc]; its buffer holds 64 digits. *)
Fixpoint format_digits (fuel : nat) (u : Z) (acc : bytes) : bytes :=
  match fuel with
  | O => acc
  | S fuel => if u <? 36 then digit36 u :: acc else format_digits fuel (u / 36) (digit36 (u mod 36) :: acc)
  end.
Definition FormatUint36 (u : Z) : bytes := format_digits 64 u [].

Definition max_uint64 : Z := 2 ^ 64 - 1.
Definition cutoff36 : Z := max_uint64 / 36 + 1.

(** [lower] of [strconv] sets the bit of the lower-case letters. *)
Definition value36 (c : Z) : option Z :=
  if (48 <=? c) && (c <=? 57) then Some (c - 48)
  else let l := Z.lor c 32 in if (97 <=? l) && (l <=? 122) then Some (l - 87) else None.

Fixpoint parse_digits (n : Z) (s : bytes) : option Z :=
  match s with
  | [] => Some n
  | c :: s =>
      match value36 c with
      | None => None
      | Some d =>
          if 36 <=? d then None
          else if cutoff36 <=? n then None
          else let n1 := n * 36 + d in if max_uint64 <? n1 then None else parse_digits n1 s
      end
  end.
Definition ParseUint36 (s : bytes) : option Z := match s with [] => None | _ => parse_digits 0 s end.

(** ** [base64.RawURLEncoding] *)

Definition b64_char (v : Z) : Z :=
  if v <? 26 then 65 + v else if v <? 52 then 71 + v else if v <? 62 then v - 4 else if v =? 62 then 45 else 95.
Definition b64_value (c : Z) : option Z :=
  if (65 <=? c) && (c <=? 90) then Some (c - 65)
  else if (97 <=? c) && (c <=? 122) then Some (c - 71)
  else if (48 <=? c) && (c <=? 57) then Some (c + 4)
  else if c =? 45 then Some 62 else if c =? 95 then Some 63 else None.

Fixpoint b64_encode (raw : bytes) : bytes :=
  match raw with
  | a :: b :: c :: rest =>
      b64_char (a / 4) :: b64_char (a mod 4 * 16 + b / 16) :: b64_char (b mod 16 * 4 + c / 64) :: b64_char (c mod 64) :: b64_encode rest
  | [a; b] => [b64_char (a / 4); b64_char (a mod 4 * 16 + b / 16); b64_char (b mod 16 * 4)]
  | [a] => [b64_char (a / 4); b64_char (a mod 4 * 16)]
  | [] => []
  end.

(** The quanta; a last one may lack one or two characters, and the bits it has too many are not looked at. *)
Fixpoint b64_quanta (vs : list Z) : option bytes :=
  match vs with
  | a :: b :: c :: d :: rest =>
      (fun more => (a * 4 + b / 16) :: (b mod 16 * 16 + c / 4) :: (c mod 4 * 64 + d) :: more) <$> b64_quanta rest
  | [a; b; c] => Some [a * 4 + b / 16; b mod 16 * 16 + c / 4]
  | [a; b] => Some [a * 4 + b / 16]
  | [_] => None
  | [] => Some []
  end.
(** The decoder skips line breaks. *)
Definition line_break (c : Z) : bool := (c =? 10) || (c =? 13).
Definition b64_decode (s : bytes) : option bytes := mapM b64_value (List.filter (fun c => negb (line_break c)) s) ≫= b64_quanta.

(** ** Identifiers *)

Definition CallbackVersion : bytes := [97; 50].
Definition MaxCallbackDataBytes : Z := 64.
Definition sessionIDBytes : Z := 16.
Definition sessionIDLength : Z := 22.
Definition maxCallbackRevisionBase36Bytes : Z := 13.
Definition callbackTokenFixedBytes : Z := Z.of_nat (length CallbackVersion) + 2 + sessionIDLength + 1 + maxCallbackRevisionBase36Bytes.
Definition MaxCallbackActionIDBytes : Z := MaxCallbackDataBytes - callbackTokenFixedBytes.

Definition blen (s : bytes) : Z := Z.of_nat (length s).

Definition newSessionID (raw : bytes) : bytes := b64_encode raw.
Definition validSessionID (id : bytes) : bool :=
  (blen id =? sessionIDLength) &&
  match b64_decode id with Some raw => blen raw =? sessionIDBytes | None => false end.

Definition ident_rune (r : Z) : bool :=
  ((97 <=? r) && (r <=? 122)) || ((48 <=? r) && (r <=? 57)) || (r =? 46) || (r =? 95) || (r =? 45).

Inductive token_error := ErrInvalidCallbackToken | ErrCallbackDataTooLong.

Record CallbackToken := mkToken { tk_Version : bytes; tk_FeatureID : bytes; tk_ActionID : bytes; tk_SessionID : bytes; tk_Revision : Z }.

Definition colon : Z := 58.
Definition dot : Z := 46.

(** [strings.Split] at a one-byte separator. *)
Fixpoint split_at (sep : Z) (s : bytes) : list bytes :=
  match s with
  | [] => [[]]
  | c :: s =>
      if c =? sep then [] :: split_at sep s
      else match split_at sep s with p :: ps => (c :: p) :: ps | [] => [[c]] end
  end.

Definition bytes_eqb (a b : bytes) : bool := bool_decide (a = b).

Section Token.
(** [strings.ToLower]; outside ASCII it needs the tables of [unicode]. *)
Context (ToLower : bytes -> bytes).

Definition normalizeFeatureID (value : bytes) : bytes := ToLower (TrimSpace value).
Definition validIdentifier (value : bytes) : bool :=
  negb (bytes_eqb value []) && bytes_eqb value (ToLower value) && forallb ident_rune (decode_runes value).

Definition ValidateCallbackActionID (actionID : bytes) : option token_error :=
  let actionID := normalizeFeatureID actionID in
  if negb (validIdentifier actionID) then Some ErrInvalidCallbackToken
  else if MaxCallbackActionIDBytes <? blen actionID then Some ErrCallbackDataTooLong
  else None.

Definition EncodeCallbackToken (featureID actionID sessionID : bytes) (revision : Z) : token_error + bytes :=
  let featureID := normalizeFeatureID featureID in
  let actionID := normalizeFeatureID actionID in
  if negb (validIdentifier featureID) || negb (validSessionID sessionID) || (revision =? 0) then inl ErrInvalidCallbackToken
  else match ValidateCallbackActionID actionID with
       | Some e => inl e
       | None =>
           let opaque := sessionID ++ [dot] ++ FormatUint36 revision in
           let raw := CallbackVersion ++ [colon] ++ actionID ++ [colon] ++ opaque in
           if MaxCallbackDataBytes <? blen raw then inl ErrCallbackDataTooLong else inr raw
       end.

Definition OwnsCallbackData (data : bytes) : bool :=
  match data with a :: b :: c :: _ => (a =? 97) && (b =? 50) && (c =? colon) | _ => false end.

Definition ParseCallbackToken (data : bytes) : option CallbackToken :=
  if (blen data =? 0) || (MaxCallbackDataBytes <? blen data) then None
  else match split_at colon data with
       | [version; actionID; opaque] =>
           if negb (bytes_eqb version CallbackVersion) then None
           else if negb (bytes_eqb (normalizeFeatureID actionID) actionID) then None
           else match ValidateCallbackActionID actionID with
                | Some _ => None
                | None =>
                    match split_at dot opaque with
                    | [sessionID; rev] =>
                        if negb (validSessionID sessionID) then None
                        else match ParseUint36 rev with
                             | Some revision => if revision =? 0 then None else Some (mkToken CallbackVersion [] actionID sessionID revision)
                             | None => None
                             end
                    | _ => None
                    end
                end
       | _ => None
       end.

End Token.

(** ** Base 36 *)

Lemma value36_digit d : 0 <= d < 36 -> value36 (digit36 d) = Some d.
Proof.
  intros H. unfold digit36. destruct (Z.ltb_spec d 10).
  - unfold value36. rewrite (proj2 (Z.leb_le 48 (48 + d))), (proj2 (Z.leb_le (48 + d) 57)) by lia. cbn. f_equal. lia.
  - assert (E : d = 10 \/ d = 11 \/ d = 12 \/ d = 13 \/ d = 14 \/ d = 15 \/ d = 16 \/ d = 17 \/ d = 18 \/ d = 19 \/ d = 20 \/ d = 21 \/
      d = 22 \/ d = 23 \/ d = 24 \/ d = 25 \/ d = 26 \/ d = 27 \/ d = 28 \/ d = 29 \/ d = 30 \/ d = 31 \/ d = 32 \/ d = 33 \/ d = 34 \/ d = 35) by lia.
    repeat (destruct E as [->|E]; [reflexivity|]). by rewrite E.
Qed.

Lemma digit36_plain d : 0 <= d < 36 -> 48 <= digit36 d <= 122 /\ digit36 d <> colon.
Proof. intros H. unfold digit36, colon. destruct (Z.ltb_spec d 10); lia. Qed.

Lemma parse_format fuel : forall u acc, 0 <= u <= max_uint64 -> u < 36 ^ Z.of_nat fuel ->
  parse_digits 0 (format_digits fuel u acc) = parse_digits u acc.
Proof.
  induction fuel as [|fuel IH]; intros u acc Hu Hf; [cbn in Hf; by replace u with 0 by lia|].
  assert (Hstep : forall v d rest, 0 <= v -> 0 <= d < 36 -> v * 36 + d <= max_uint64 ->
    parse_digits v (digit36 d :: rest) = parse_digits (v * 36 + d) rest).
  { intros v d rest Hv Hd Hle. cbn [parse_digits]. rewrite value36_digit by done.
    rewrite (proj2 (Z.leb_gt 36 d)), (proj2 (Z.leb_gt cutoff36 v)), (proj2 (Z.ltb_ge max_uint64 (v * 36 + d))); [done|lia| |lia].
    unfold cutoff36, max_uint64 in *. pose proof (Z.div_le_lower_bound (2 ^ 64 - 1) 36 v ltac:(lia) ltac:(lia)). lia. }
  cbn [format_digits]. destruct (Z.ltb_spec u 36).
  - rewrite Hstep by lia. by rewrite Z.mul_0_l, Z.add_0_l.
  - pose proof (Z.div_mod u 36 ltac:(lia)). pose proof (Z.mod_pos_bound u 36 ltac:(lia)). rewrite IH.
    + rewrite Hstep; [f_equal; lia|apply Z.div_pos; lia|lia|lia].
    + split; [apply Z.div_pos; lia|]. apply Z.div_le_upper_bound; lia.
    + rewrite Nat2Z.inj_succ, Z.pow_succ_r in Hf by lia. apply Z.div_lt_upper_bound; lia.
Qed.

Lemma format_digits_plain fuel : forall u acc, 0 <= u -> Forall (fun c => 48 <= c <= 122 /\ c <> colon) acc ->
  Forall (fun c => 48 <= c <= 122 /\ c <> colon) (format_digits fuel u acc).
Proof.
  induction fuel as [|fuel IH]; intros u acc Hu Ha; [done|]. cbn [format_digits]. destruct (Z.ltb_spec u 36).
  - constructor; [apply digit36_plain; lia|done].
  - apply IH; [apply Z.div_pos; lia|]. constructor; [|done]. apply digit36_plain. apply Z.mod_pos_bound. lia.
Qed.

Lemma format_digits_length fuel : forall k u acc, 0 <= u < 36 ^ Z.of_nat (S k) ->
  (length acc <= length (format_digits fuel u acc) <= S k + length acc)%nat.
Proof.
  induction fuel as [|fuel IH]; intros k u acc Hu; [cbn; lia|]. cbn [format_digits]. destruct (Z.ltb_spec u 36); [cbn; lia|].
  destruct k as [|k]; [cbn in Hu; lia|]. rewrite Nat2Z.inj_succ, Z.pow_succ_r in Hu by lia.
  specialize (IH k (u / 36) (digit36 (u mod 36) :: acc)). cbn [length] in IH.
  assert (0 <= u / 36 < 36 ^ Z.of_nat (S k)) by (split; [apply Z.div_pos; lia|apply Z.div_lt_upper_bound; lia]). specialize (IH H0). lia.
Qed.

Lemma format_digits_S fuel u acc :
  format_digits (S fuel) u acc = if u <? 36 then digit36 u :: acc else format_digits fuel (u / 36) (digit36 (u mod 36) :: acc).
Proof. done. Qed.

Lemma format_digits_bounds fuel k u : 0 <= u < 36 ^ Z.of_nat (S k) -> (1 <= length (format_digits (S fuel) u []) <= S k)%nat.
Proof.
  intros Hu. pose proof (format_digits_length (S fuel) k u [] Hu) as Hle. cbn [length] in Hle. split; [|lia].
  rewrite format_digits_S. destruct (u <? 36) eqn:E; [done|]. bool_to_prop.
  assert (H1 : 0 <= u / 36 < 36 ^ Z.of_nat (S k)).
  { split; [apply Z.div_pos; lia|]. apply Z.div_lt_upper_bound; lia. }
  pose proof (format_digits_length fuel k (u / 36) [digit36 (u mod 36)] H1) as H2. cbn [length] in H2. lia.
Qed.

Lemma digits_enough n : 13 <= n -> max_uint64 < 36 ^ n.
Proof.
  intros Hn. apply (Z.lt_le_trans _ (36 ^ 13)); [reflexivity|]. apply Z.pow_le_mono_r; lia.
Qed.

(** A revision takes one to thirteen digits. *)
Lemma FormatUint36_length u : 0 <= u <= max_uint64 -> (1 <= length (FormatUint36 u) <= 13)%nat.
Proof.
  intros Hu. apply (format_digits_bounds 63 12). pose proof (digits_enough 13 ltac:(lia)). change (Z.of_nat 13) with 13. lia.
Qed.

Lemma ParseUint36_Format u : 0 <= u <= max_uint64 -> ParseUint36 (FormatUint36 u) = Some u.
Proof.
  intros Hu. pose proof (FormatUint36_length u Hu) as Hl. unfold ParseUint36.
  destruct (FormatUint36 u) as [|c s] eqn:E; [cbn in Hl; lia|]. rewrite <- E. unfold FormatUint36. rewrite parse_format; [done|done|].
  pose proof (digits_enough (Z.of_nat 64) ltac:(lia)). lia.
Qed.

Lemma parse_digits_range s : forall n r, 0 <= n <= max_uint64 -> parse_digits n s = Some r -> 0 <= r <= max_uint64.
Proof.
  induction s as [|c s IH]; intros n r Hn E; cbn [parse_digits] in E; [by injection E as <-|].
  destruct (value36 c) as [d|] eqn:Ed; [|done]. destruct (36 <=? d); [done|]. destruct (cutoff36 <=? n); [done|].
  destruct (Z.ltb_spec max_uint64 (n * 36 + d)); [done|]. eapply IH; [|exact E]. split; [|lia].
  assert (0 <= d); [|lia]. unfold value36 in Ed. destruct (_ && _) eqn:Hc; [bool_to_prop; simplify_eq; lia|].
  destruct (_ && _) eqn:Hc2 in Ed; [|done]. bool_to_prop. simplify_eq. lia.
Qed.

(** ** Splitting *)

Lemma split_at_plain sep p : sep ∉ p -> split_at sep p = [p].
Proof.
  induction p as [|c p IH]; intros H; [done|]. cbn. apply not_elem_of_cons in H as [Hc Hp].
  destruct (Z.eqb_spec c sep); [congruence|]. by rewrite IH.
Qed.

Lemma split_at_app sep p rest : sep ∉ p -> split_at sep (p ++ sep :: rest) = p :: split_at sep rest.
Proof.
  induction p as [|c p IH]; intros H; cbn; [by rewrite Z.eqb_refl|]. apply not_elem_of_cons in H as [Hc Hp].
  destruct (Z.eqb_spec c sep); [congruence|]. by rewrite IH.
Qed.

(** ** Session identifiers *)

Lemma b64_value_range c v : b64_value c = Some v -> 0 <= v < 64 /\ 45 <= c <= 122 /\ c <> colon /\ c <> dot.
Proof.
  unfold b64_value, colon, dot. intros H.
  repeat match goal with H : (if ?b then _ else _) = Some _ |- _ => destruct b eqn:?; bool_to_prop; simplify_eq end; lia.
Qed.

Lemma b64_quanta_length : forall n vs raw, (length vs <= n)%nat -> b64_quanta vs = Some raw ->
  Z.of_nat (length raw) * 4 <= Z.of_nat (length vs) * 3 /\ Z.of_nat (length vs) * 3 <= Z.of_nat (length raw) * 4 + 2.
Proof.
  induction n as [|n IH]; intros vs raw Hn E; destruct vs as [|a [|b [|c [|d rest]]]]; cbn in Hn; try lia; cbn in E; try done; simplify_eq; cbn; try lia.
  destruct (b64_quanta rest) as [more|] eqn:Em; [|done]. injection E as <-. cbn [length]. specialize (IH rest more ltac:(lia) Em). lia.
Qed.

Lemma filter_length_all {A} (f : A -> bool) l : (length l <= length (List.filter f l))%nat -> List.filter f l = l.
Proof.
  induction l as [|x l IH]; cbn; [done|]. pose proof (List.filter_length_le f l). destruct (f x); cbn; intros H1; [|lia].
  f_equal. apply IH. lia.
Qed.

(** The decoder accepts exactly the texts of 22 characters of the alphabet. *)
Lemma validSessionID_spec id : validSessionID id = true <-> blen id = sessionIDLength /\ Forall (fun c => is_Some (b64_value c)) id.
Proof.
  unfold validSessionID, b64_decode. split.
  - intros H. apply andb_true_iff in H as [H1%Z.eqb_eq H2]. split; [done|].
    destruct (mapM b64_value _) as [vs|] eqn:Ev; cbn in H2; [|done]. destruct (b64_quanta vs) as [raw|] eqn:Er; [|done].
    apply Z.eqb_eq in H2. unfold blen, sessionIDBytes, sessionIDLength in *. pose proof (b64_quanta_length (length vs) vs raw ltac:(lia) Er).
    pose proof (length_mapM _ _ _ Ev) as Hl. rewrite (filter_length_all _ id) in Ev by lia.
    apply mapM_is_Some_1. by exists vs.
  - intros [H1 H2]. rewrite H1, Z.eqb_refl. cbn [andb].
    rewrite (filter_length_all _ id).
    2: { rewrite forallb_filter_id; [done|]. apply forallb_forall. intros c Hc%list_elem_of_In.
         rewrite Forall_forall in H2. destruct (H2 c Hc) as [v Hv%b64_value_range]. unfold line_break. apply negb_true_iff, orb_false_iff.
         rewrite !Z.eqb_neq. lia. }
    apply mapM_is_Some_2 in H2 as [vs Hvs]. rewrite Hvs. cbn [mbind option_bind]. pose proof (length_mapM _ _ _ Hvs) as Hl.
    unfold blen, sessionIDLength in H1. assert (Hv : length vs = 22%nat) by lia. clear -Hv.
    do 22 (destruct vs as [|? vs]; [done|]). destruct vs; [|done]. reflexivity.
Qed.

Lemma b64_char_value v : 0 <= v < 64 -> is_Some (b64_value (b64_char v)).
Proof.
  intros H. unfold b64_char. destruct (Z.ltb_spec v 26).
  - unfold b64_value. rewrite (proj2 (Z.leb_le 65 (65 + v))), (proj2 (Z.leb_le (65 + v) 90)) by lia. by eexists.
  - unfold b64_value. destruct (Z.ltb_spec v 52).
    + rewrite (proj2 (Z.leb_gt (71 + v) 90)), andb_false_r, (proj2 (Z.leb_le 97 (71 + v))), (proj2 (Z.leb_le (71 + v) 122)) by lia. by eexists.
    + destruct (Z.ltb_spec v 62).
      * rewrite (proj2 (Z.leb_gt 65 (v - 4))), (proj2 (Z.leb_gt 97 (v - 4))), (proj2 (Z.leb_le 48 (v - 4))), (proj2 (Z.leb_le (v - 4) 57)) by lia. by eexists.
      * destruct (Z.eqb_spec v 62); by eexists.
Qed.

Lemma b64_encode_plain n : forall raw, (length raw <= n)%nat -> Forall (fun b => 0 <= b < 256) raw ->
  Forall (fun c => is_Some (b64_value c)) (b64_encode raw).
Proof.
  induction n as [|n IH]; intros raw Hn Hb; (destruct raw as [|a [|b [|c rest]]]; cbn in Hn; try lia; cbn [b64_encode]; [constructor|..]);
    repeat match goal with H : Forall _ (_ :: _) |- _ => apply Forall_cons in H as [? H] end;
    repeat (apply Forall_cons; split; [apply b64_char_value; Z.to_euclidean_division_equations; lia|]); try apply Forall_nil_2.
  apply IH; [lia|done].
Qed.

(** Sixteen random bytes make a valid identifier. *)
Lemma newSessionID_valid raw : blen raw = sessionIDBytes -> Forall (fun b => 0 <= b < 256) raw -> validSessionID (newSessionID raw) = true.
Proof.
  intros Hl Hb. apply validSessionID_spec. unfold newSessionID. split; [|by eapply b64_encode_plain].
  unfold blen, sessionIDBytes in Hl. assert (H16 : length raw = 16%nat) by lia. clear -H16.
  do 16 (destruct raw as [|? raw]; [done|]). by destruct raw.
Qed.

(** ** Identifiers *)

Lemma between_bounds lo b hi : between lo b hi = true -> lo <= b <= hi.
Proof. unfold between. intros H. bool_to_prop. lia. Qed.

Lemma second_bounds b0 b1 : second_ok b0 b1 = true -> 128 <= b1 /\ (b0 = 224 -> 160 <= b1) /\ (b0 = 240 -> 144 <= b1).
Proof.
  unfold second_ok. destruct (Z.eqb_spec b0 224); [intros ?%between_bounds; lia|]. destruct (Z.eqb_spec b0 237); [intros ?%between_bounds; lia|].
  destruct (Z.eqb_spec b0 240); [intros ?%between_bounds; lia|]. destruct (Z.eqb_spec b0 244); intros ?%between_bounds; lia.
Qed.

Lemma decode_rune_ascii b0 rest : (decode_rune b0 rest).1 < 128 -> b0 < 128 /\ decode_rune b0 rest = (b0, 1%nat).
Proof.
  unfold decode_rune. destruct (Z.ltb_spec b0 128); [done|]. intros H1. exfalso. revert H1. unfold RuneError.
  destruct (between 194 b0 223) eqn:E1; [|destruct (between 224 b0 239) eqn:E2; [|destruct (between 240 b0 244) eqn:E3; [|cbn; lia]]];
    apply between_bounds in E1 || apply between_bounds in E2 || apply between_bounds in E3;
    repeat match goal with |- context [match ?l with [] => _ | _ :: _ => _ end] => destruct l; [cbn; lia|] end;
    match goal with |- context [if ?b then _ else _] => destruct b eqn:E end; cbn; try lia;
    rewrite ?andb_true_iff in E; repeat match goal with H : _ /\ _ |- _ => destruct H end;
    repeat match goal with
    | H : second_ok _ _ = true |- _ => apply second_bounds in H
    | H : continuation _ = true |- _ => apply between_bounds in H
    end; try lia.
  all: destruct (decide (b0 = 224)), (decide (b0 = 240)); lia.
Qed.

Lemma decode_with_ascii fuel : forall s, (length s <= fuel)%nat -> Forall (fun r => r < 128) (decode_with fuel s) -> decode_with fuel s = s.
Proof.
  induction fuel as [|fuel IH]; intros s Hl H; [by destruct s; [|cbn in Hl; lia]|]. destruct s as [|b0 rest]; [done|]. cbn in H |- *.
  destruct (decode_rune b0 rest) as [r n] eqn:E. apply Forall_cons in H as [Hr H].
  destruct (decode_rune_ascii b0 rest) as [_ E']; [by rewrite E|]. rewrite E' in E. injection E as <- <-.
  cbn in H |- *. f_equal. apply IH; [cbn in Hl; lia|exact H].
Qed.

Lemma ident_range c : ident_rune c = true -> 45 <= c <= 122 /\ c <> colon.
Proof. unfold ident_rune, colon. rewrite !orb_true_iff, !andb_true_iff, !Z.leb_le, !Z.eqb_eq. lia. Qed.

Lemma ident_bytes value : forallb ident_rune (decode_runes value) = true -> Forall (fun c => ident_rune c = true) value.
Proof.
  intros H. assert (Hr : Forall (fun c => ident_rune c = true) (decode_runes value)) by (by apply Forall_forall; intros x Hx%list_elem_of_In; revert x Hx; apply forallb_forall).
  unfold decode_runes in *. rewrite decode_with_ascii in Hr; [done|done|]. eapply Forall_impl; [exact Hr|]. cbn.
  intros c Hc%ident_range. lia.
Qed.

Definition plain_byte (c : Z) : Prop := 33 <= c <= 126.

Lemma bytes_string s : Forall (fun c => 0 <= c < 256) s -> bytes_of (string_of s) = s.
Proof.
  intros H. unfold bytes_of, string_of. rewrite String.list_ascii_of_string_of_list_ascii, map_map. induction H as [|c s Hc H IH]; [done|].
  cbn. rewrite IH. f_equal. unfold byte_of. rewrite Ascii.nat_ascii_embedding; lia.
Qed.

Lemma strip_first_plain (ps : list (list Z)) c s : Forall (fun p => match p with b :: _ => b <> byte_of c | [] => False end) ps -> strip_first ps (c :: s) = None.
Proof.
  induction 1 as [|p ps Hp _ IH]; [done|]. cbn. destruct p as [|b p]; [done|]. cbn. destruct (Z.eqb_spec b (byte_of c)); [done|exact IH].
Qed.

Lemma trim_with_plain fuel ps s : (forall c, c ∈ s -> plain_byte (byte_of c)) ->
  Forall (fun p => match p with b :: _ => b < 33 \/ 126 < b | [] => False end) ps -> trim_with fuel ps s = s.
Proof.
  intros Hs Hps. destruct fuel as [|fuel]; [done|]. cbn. destruct s as [|c s].
  - assert (E : strip_first ps [] = None); [|by rewrite E]. induction Hps as [|p ps Hp _ IH]; [done|]. cbn. by destruct p.
  - rewrite strip_first_plain; [done|]. eapply Forall_impl; [exact Hps|]. cbn. intros [|b p]; [done|]. specialize (Hs c ltac:(left)). unfold plain_byte in Hs. lia.
Qed.

Lemma space_seqs_edges : Forall (fun p : list Z => match p with b :: _ => b < 33 \/ 126 < b | [] => False end) space_seqs /\
  Forall (fun p : list Z => match p with b :: _ => b < 33 \/ 126 < b | [] => False end) (map (@rev Z) space_seqs).
Proof. split; (repeat (apply Forall_cons; split; [cbn; lia|])); apply Forall_nil_2. Qed.

Lemma TrimSpace_plain s : Forall plain_byte s -> TrimSpace s = s.
Proof.
  intros H. unfold TrimSpace, trim_space, trim_right, trim_left.
  assert (Hb : forall c, c ∈ String.list_ascii_of_string (string_of s) -> plain_byte (byte_of c)).
  { intros c Hc. rewrite Forall_forall in H. apply H. rewrite <- (bytes_string s) by (eapply Forall_impl; [by apply Forall_forall|]; unfold plain_byte; cbn; lia).
    unfold bytes_of. apply list_elem_of_In, in_map. by apply list_elem_of_In. }
  destruct space_seqs_edges as [Hl Hr]. rewrite (trim_with_plain _ space_seqs); [|exact Hb|exact Hl].
  rewrite trim_with_plain; [|intros c Hc; apply Hb; by rewrite list_elem_of_In, <- in_rev, <- list_elem_of_In in Hc|exact Hr].
  rewrite rev_involutive, String.string_of_list_ascii_of_string. apply bytes_string. eapply Forall_impl; [exact H|]. unfold plain_byte. cbn. lia.
Qed.

(** ** Trimming twice *)

Lemma strip_prefix_app p s s' : strip_prefix p s = Some s' -> exists h, s = h ++ s' /\ length h = length p.
Proof.
  revert s. induction p as [|b p IH]; intros s; cbn; [intros [= ->]; by exists []|]. destruct s as [|a s]; [done|].
  destruct (b =? byte_of a); [|done]. intros (h & -> & Hl)%IH. exists (a :: h). cbn. by rewrite Hl.
Qed.

Lemma strip_prefix_mono p u v : strip_prefix p (u ++ v) = None -> strip_prefix p u = None.
Proof. revert u. induction p as [|b p IH]; intros [|a u]; cbn; try done. destruct (b =? byte_of a); [apply IH|done]. Qed.

Lemma strip_first_app ps s s' : Forall (fun p => p <> []) ps -> strip_first ps s = Some s' -> exists h, s = h ++ s' /\ h <> [].
Proof.
  induction 1 as [|p ps Hp _ IH]; cbn; [done|]. destruct (strip_prefix p s) eqn:E; [|apply IH]. intros [= <-].
  apply strip_prefix_app in E as (h & -> & Hl). exists h. split; [done|]. intros ->. by destruct p.
Qed.

Lemma strip_first_mono ps u v : strip_first ps (u ++ v) = None -> strip_first ps u = None.
Proof.
  induction ps as [|p ps IH]; cbn; [done|]. destruct (strip_prefix p (u ++ v)) eqn:E; [done|]. by rewrite (strip_prefix_mono _ _ _ E).
Qed.

(** Enough fuel leaves nothing to strip, and what is left is an end of the text. *)
Lemma trim_with_done ps : Forall (fun p => p <> []) ps -> forall fuel s, (length s <= fuel)%nat ->
  strip_first ps (trim_with fuel ps s) = None /\ exists h, s = h ++ trim_with fuel ps s.
Proof.
  intros Hps. induction fuel as [|fuel IH]; intros s Hl.
  - destruct s; [|cbn in Hl; lia]. cbn. split; [|by exists []]. clear Hl. induction Hps as [|p ps Hp _ IH]; [done|]. cbn. by destruct p.
  - cbn. destruct (strip_first ps s) as [s'|] eqn:E; [|split; [done|by exists []]].
    apply strip_first_app in E as (h & -> & Hh); [|done]. rewrite length_app in Hl.
    destruct (IH s') as (H1 & h' & H2); [destruct h; [done|cbn in Hl; lia]|]. split; [done|]. exists (h ++ h'). rewrite <- app_assoc. by f_equal.
Qed.

Lemma trim_with_still ps fuel s : strip_first ps s = None -> trim_with fuel ps s = s.
Proof. intros H. destruct fuel; cbn; by rewrite ?H. Qed.

Lemma space_seqs_nonempty : Forall (fun p : list Z => p <> []) space_seqs /\ Forall (fun p : list Z => p <> []) (map (@rev Z) space_seqs).
Proof. split; (repeat (apply Forall_cons; split; [done|])); apply Forall_nil_2. Qed.

Lemma trim_sides_idem s : trim_right (trim_left (trim_right (trim_left s))) = trim_right (trim_left s).
Proof.
  destruct space_seqs_nonempty as [N1 N2]. destruct (trim_with_done _ N1 (length s) s (le_n _)) as [L _].
  fold (trim_left s) in L. set (t := trim_left s) in *.
  destruct (trim_with_done _ N2 (length t) (rev t)) as (R & h & Hh); [by rewrite length_rev|].
  set (u := trim_right t). assert (Hu : rev u = trim_with (length t) (map (@rev Z) space_seqs) (rev t)) by (unfold u, trim_right; apply rev_involutive).
  rewrite <- Hu in R, Hh. assert (Ht : t = u ++ rev h) by (by rewrite <- (rev_involutive t), Hh, rev_app_distr, rev_involutive).
  unfold trim_left at 1. rewrite (trim_with_still _ _ u) by (rewrite Ht in L; by eapply strip_first_mono).
  unfold trim_right. rewrite (trim_with_still _ _ (rev u)) by done. apply rev_involutive.
Qed.

Lemma string_bytes s : string_of (bytes_of s) = s.
Proof.
  unfold string_of, bytes_of. rewrite map_map. rewrite <- (String.string_of_list_ascii_of_string s) at 2. f_equal. rewrite <- (map_id (String.list_ascii_of_string s)) at 2.
  apply map_ext. intros a. unfold byte_of. by rewrite Nat2Z.id, Ascii.ascii_nat_embedding.
Qed.

Lemma TrimSpace_idem s : TrimSpace (TrimSpace s) = TrimSpace s.
Proof.
  unfold TrimSpace. rewrite string_bytes. f_equal. unfold trim_space. by rewrite String.list_ascii_of_string_of_list_ascii, trim_sides_idem.
Qed.

(** ** Tokens *)

Section Laws.
Context (ToLower : bytes -> bytes).

Lemma validIdentifier_spec v : validIdentifier ToLower v = true -> v <> [] /\ normalizeFeatureID ToLower v = v /\ Forall plain_byte v /\ colon ∉ v.
Proof.
  unfold validIdentifier, bytes_eqb. intros H. apply andb_true_iff in H as [H Hr]. apply andb_true_iff in H as [Hn Hl].
  apply negb_true_iff, bool_decide_eq_false in Hn. apply bool_decide_eq_true in Hl. apply ident_bytes in Hr.
  assert (Hp : Forall plain_byte v) by (eapply Forall_impl; [exact Hr|]; intros c Hc%ident_range; unfold plain_byte; lia).
  split_and!; [done| |done|].
  - unfold normalizeFeatureID. by rewrite TrimSpace_plain.
  - intros Hc. rewrite Forall_forall in Hr. by apply Hr, ident_range in Hc as [_ Hc].
Qed.

Lemma ValidateCallbackActionID_spec a : ValidateCallbackActionID ToLower a = None <->
  validIdentifier ToLower (normalizeFeatureID ToLower a) = true /\ blen (normalizeFeatureID ToLower a) <= MaxCallbackActionIDBytes.
Proof.
  unfold ValidateCallbackActionID. destruct (validIdentifier ToLower _); cbn; [|naive_solver]. destruct (Z.ltb_spec MaxCallbackActionIDBytes (blen (normalizeFeatureID ToLower a))); naive_solver lia.
Qed.

Definition token_bytes (action session : bytes) (revision : Z) : bytes :=
  CallbackVersion ++ colon :: action ++ colon :: session ++ dot :: FormatUint36 revision.

Lemma session_plain s : validSessionID s = true -> blen s = sessionIDLength /\ colon ∉ s /\ dot ∉ s.
Proof.
  intros [Hl Hs]%validSessionID_spec. rewrite Forall_forall in Hs.
  split_and!; [done|intros Hc|intros Hc]; destruct (Hs _ Hc) as [v Hv%b64_value_range]; unfold colon, dot in *; lia.
Qed.

Lemma revision_plain r : 0 <= r -> colon ∉ FormatUint36 r /\ dot ∉ FormatUint36 r.
Proof.
  intros Hr. assert (H : Forall (fun c => 48 <= c <= 122 /\ c <> colon) (FormatUint36 r)) by (apply format_digits_plain; [done|constructor]).
  rewrite Forall_forall in H.
  split; intros Hc; specialize (H _ Hc); unfold colon, dot in *; lia.
Qed.

Lemma token_bytes_length action session revision : validSessionID session = true -> 0 <= revision <= max_uint64 ->
  blen action <= MaxCallbackActionIDBytes -> 0 < blen (token_bytes action session revision) <= MaxCallbackDataBytes.
Proof.
  intros [Hl _]%session_plain Hr Ha. pose proof (FormatUint36_length revision Hr). unfold token_bytes, blen in *.
  rewrite !length_app. cbn [length]. rewrite length_app. cbn [length]. rewrite length_app. cbn [length CallbackVersion].
  unfold MaxCallbackActionIDBytes, callbackTokenFixedBytes, MaxCallbackDataBytes, maxCallbackRevisionBase36Bytes, sessionIDLength in *.
  cbn [length CallbackVersion] in Ha. lia.
Qed.

(** What [EncodeCallbackToken] accepts, and what it makes of it. *)
Lemma Encode_spec f a s r data : 0 <= r <= max_uint64 -> normalizeFeatureID ToLower (normalizeFeatureID ToLower a) = normalizeFeatureID ToLower a ->
  EncodeCallbackToken ToLower f a s r = inr data <->
  validIdentifier ToLower (normalizeFeatureID ToLower f) = true /\ validSessionID s = true /\ r <> 0 /\
  ValidateCallbackActionID ToLower a = None /\ data = token_bytes (normalizeFeatureID ToLower a) s r.
Proof.
  intros Hr Hn. unfold EncodeCallbackToken. destruct (validIdentifier ToLower (normalizeFeatureID ToLower f)); cbn [negb orb]; [|naive_solver].
  destruct (validSessionID s) eqn:Hs; cbn [negb orb]; [|naive_solver]. destruct (Z.eqb_spec r 0); [naive_solver|].
  assert (Ev : ValidateCallbackActionID ToLower (normalizeFeatureID ToLower a) = ValidateCallbackActionID ToLower a).
  { unfold ValidateCallbackActionID. by rewrite Hn. }
  rewrite Ev. destruct (ValidateCallbackActionID ToLower a) as [e|] eqn:Ha; [naive_solver|].
  apply ValidateCallbackActionID_spec in Ha as [Hv Ha]. pose proof (token_bytes_length _ s r Hs Hr Ha) as Hl.
  change (CallbackVersion ++ [colon] ++ normalizeFeatureID ToLower a ++ [colon] ++ s ++ [dot] ++ FormatUint36 r)
    with (token_bytes (normalizeFeatureID ToLower a) s r).
  rewrite (proj2 (Z.ltb_ge _ _)) by lia. naive_solver.
Qed.

Lemma Parse_token_bytes a s r : validIdentifier ToLower a = true -> blen a <= MaxCallbackActionIDBytes -> validSessionID s = true ->
  0 < r <= max_uint64 -> ParseCallbackToken ToLower (token_bytes a s r) = Some (mkToken CallbackVersion [] a s r).
Proof.
  intros Ha Hla Hs Hr. destruct (validIdentifier_spec a Ha) as (_ & Hn & _ & Hca). destruct (session_plain s Hs) as (_ & Hcs & Hds).
  destruct (revision_plain r ltac:(lia)) as [Hcr Hdr]. pose proof (token_bytes_length a s r Hs ltac:(lia) Hla) as Hl.
  unfold ParseCallbackToken. rewrite (proj2 (Z.eqb_neq _ _)), (proj2 (Z.ltb_ge _ _)) by lia. cbn [orb].
  unfold token_bytes. rewrite split_at_app by (intros Hc%list_elem_of_In; cbn in Hc; unfold colon in Hc; lia). rewrite split_at_app by done.
  rewrite split_at_plain by (rewrite elem_of_app, elem_of_cons; intros [?|[?|?]]; done).
  assert (Ev : ValidateCallbackActionID ToLower a = None) by (apply ValidateCallbackActionID_spec; by rewrite Hn).
  unfold bytes_eqb. rewrite bool_decide_true by done. rewrite Hn, bool_decide_true by done. cbn [negb]. rewrite Ev.
  rewrite split_at_app by done. rewrite split_at_plain by done. rewrite Hs. cbn [negb]. rewrite ParseUint36_Format by lia.
  rewrite (proj2 (Z.eqb_neq _ _)) by lia. done.
Qed.

Lemma Encode_parse f a s r data : 0 <= r <= max_uint64 ->
  normalizeFeatureID ToLower (normalizeFeatureID ToLower a) = normalizeFeatureID ToLower a -> EncodeCallbackToken ToLower f a s r = inr data ->
  data = token_bytes (normalizeFeatureID ToLower a) s r /\ blen data <= MaxCallbackDataBytes /\
  ParseCallbackToken ToLower data = Some (mkToken CallbackVersion [] (normalizeFeatureID ToLower a) s r).
Proof.
  intros Hr Hn E. apply Encode_spec in E as (_ & Hs & Hz & [Hv Hl]%ValidateCallbackActionID_spec & ->); [|done..].
  split; [done|]. split; [by apply token_bytes_length|]. by apply Parse_token_bytes; [..|lia].
Qed.

End Laws.

(** C40. Round trip: what [EncodeCallbackToken] makes fits Telegram's 64 bytes, belongs to
    the protocol, and [ParseCallbackToken] reads back the normalized action, the session
    and the revision, for every revision of 64 bits. *)
Theorem callback_token_roundtrip ToLower f a s r data : 0 <= r <= max_uint64 ->
  normalizeFeatureID ToLower (normalizeFeatureID ToLower a) = normalizeFeatureID ToLower a ->
  EncodeCallbackToken ToLower f a s r = inr data ->
  blen data <= MaxCallbackDataBytes /\ OwnsCallbackData data = true /\
  ParseCallbackToken ToLower data = Some (mkToken CallbackVersion [] (normalizeFeatureID ToLower a) s r).
Proof.
  intros Hr Hn E. by destruct (Encode_parse ToLower f a s r data Hr Hn E) as (-> & Hl & Hp).
Qed.

(** For a valid feature and session [ValidateCallbackActionID] decides: an action it
    accepts has a token at every revision, never too long, and for one it refuses the
    encoder returns the same error. *)
Theorem validated_action_fits ToLower f a s r : 0 < r <= max_uint64 ->
  normalizeFeatureID ToLower (normalizeFeatureID ToLower a) = normalizeFeatureID ToLower a ->
  validIdentifier ToLower (normalizeFeatureID ToLower f) = true -> validSessionID s = true ->
  EncodeCallbackToken ToLower f a s r =
    match ValidateCallbackActionID ToLower a with Some e => inl e | None => inr (token_bytes (normalizeFeatureID ToLower a) s r) end.
Proof.
  intros Hr Hn Hf Hs. destruct (ValidateCallbackActionID ToLower a) as [e|] eqn:Ha; [|apply Encode_spec; [lia|done|naive_solver lia]].
  unfold EncodeCallbackToken. rewrite Hf, Hs, (proj2 (Z.eqb_neq r 0)) by lia. cbn [negb orb].
  unfold ValidateCallbackActionID in *. by rewrite Hn, Ha.
Qed.

(** [ParseCallbackToken] is strict: what it accepts names a valid action, a well-formed
    session and a revision of 64 bits other than zero, and is a token of the protocol
    that encodes again. *)
Theorem parsed_token_valid ToLower data t : ParseCallbackToken ToLower data = Some t ->
  validIdentifier ToLower (tk_ActionID t) = true /\ validSessionID (tk_SessionID t) = true /\ 0 < tk_Revision t <= max_uint64 /\
  tk_Version t = CallbackVersion /\ OwnsCallbackData data = true /\
  ParseCallbackToken ToLower (token_bytes (tk_ActionID t) (tk_SessionID t) (tk_Revision t)) = Some t.
Proof.
  unfold ParseCallbackToken at 1. destruct (_ || _); [done|]. destruct (split_at colon data) as [|v [|a [|o [|]]]] eqn:Es; try done.
  unfold bytes_eqb. case_bool_decide as Ev; [cbn [negb]|done]. case_bool_decide as En; [cbn [negb]|done].
  destruct (ValidateCallbackActionID ToLower a) eqn:Ha; [done|]. apply ValidateCallbackActionID_spec in Ha as [Hv Hl]. rewrite En in Hv, Hl.
  destruct (split_at dot o) as [|s [|rev [|]]] eqn:Eo; try done. destruct (validSessionID s) eqn:Hs; [cbn [negb]|done].
  destruct (ParseUint36 rev) as [r|] eqn:Er; [|done]. destruct (Z.eqb_spec r 0); [done|]. intros [= <-]. cbn [tk_ActionID tk_SessionID tk_Revision tk_Version].
  assert (Hr : 0 <= r <= max_uint64) by (unfold ParseUint36 in Er; destruct rev; [done|]; eapply parse_digits_range; [|exact Er]; unfold max_uint64; lia).
  split_and!; [done|done|lia|lia|done| |apply Parse_token_bytes; [done|done|done|lia]].
  rewrite Ev in Es. unfold CallbackVersion in Es. destruct data as [|c0 data]; [done|]. cbn in Es. destruct (Z.eqb_spec c0 colon); [done|].
  destruct (split_at colon data) as [|p ps] eqn:E1; [done|]. injection Es as -> -> ->.
  destruct data as [|c1 data]; [done|]. cbn in E1. destruct (Z.eqb_spec c1 colon); [done|].
  destruct (split_at colon data) as [|p ps] eqn:E2; [done|]. injection E1 as -> -> ->.
  destruct data as [|c2 data]; [done|]. cbn in E2. destruct (Z.eqb_spec c2 colon) as [->|]; [done|]. by destruct (split_at colon data).
Qed.

(** ** Samples *)

Definition ascii_lower_bytes (s : bytes) : bytes := map (fun c => if (65 <=? c) && (c <=? 90) then c + 32 else c) s.
Definition sample_session : bytes := newSessionID [1; 2; 3; 4; 5; 6; 7; 8; 9; 10; 11; 12; 13; 14; 15; 255].
Definition sample_feature : bytes := bytes_of "Notes".
Definition sample_action : bytes := bytes_of " Next ".
Definition sample_token : bytes := bytes_of "a2:next:AQIDBAUGBwgJCgsMDQ4P_w.3w5e11264sgsf".

Lemma callback_token_roundtrip_witness :
  EncodeCallbackToken ascii_lower_bytes sample_feature sample_action sample_session max_uint64 = inr sample_token /\
  ParseCallbackToken ascii_lower_bytes sample_token = Some (mkToken CallbackVersion [] (bytes_of "next") sample_session max_uint64).
Proof.
  assert (E : EncodeCallbackToken ascii_lower_bytes sample_feature sample_action sample_session max_uint64 = inr sample_token) by (vm_compute; reflexivity).
  split; [exact E|]. assert (Hr : 0 <= max_uint64 <= max_uint64) by (split; discriminate).
  assert (Hn : normalizeFeatureID ascii_lower_bytes (normalizeFeatureID ascii_lower_bytes sample_action) = normalizeFeatureID ascii_lower_bytes sample_action)
    by (vm_compute; reflexivity).
  exact (proj2 (proj2 (callback_token_roundtrip _ _ _ _ _ _ Hr Hn E))).
Defined.

Lemma validated_action_fits_witness :
  EncodeCallbackToken ascii_lower_bytes sample_feature (bytes_of "an-action-of-twenty-four") sample_session max_uint64 =
    inr (token_bytes (bytes_of "an-action-of-twenty-four") sample_session max_uint64) /\
  EncodeCallbackToken ascii_lower_bytes sample_feature (bytes_of "an-action-of-twenty-fives") sample_session 1 = inl ErrCallbackDataTooLong.
Proof.
  split.
  - rewrite (validated_action_fits ascii_lower_bytes sample_feature (bytes_of "an-action-of-twenty-four") sample_session max_uint64);
      [vm_compute; reflexivity|split; [reflexivity|discriminate]|vm_compute; reflexivity..].
  - rewrite (validated_action_fits ascii_lower_bytes sample_feature (bytes_of "an-action-of-twenty-fives") sample_session 1);
      [vm_compute; reflexivity|split; [reflexivity|discriminate]|vm_compute; reflexivity..].
Defined.

Lemma parsed_token_valid_witness : exists t, ParseCallbackToken ascii_lower_bytes sample_token = Some t /\ validSessionID (tk_SessionID t) = true.
Proof.
  exists (mkToken CallbackVersion [] (bytes_of "next") sample_session max_uint64).
  assert (E : ParseCallbackToken ascii_lower_bytes sample_token = Some (mkToken CallbackVersion [] (bytes_of "next") sample_session max_uint64))
    by (vm_compute; reflexivity).
  split; [exact E|]. exact (proj1 (proj2 (parsed_token_valid _ _ _ E))).
Defined.
