(* ===== verification/InteractionState.v ===== *)
(** * Interaction sessions: data

    Models the types, bindings and limits of [internal/interaction]: [types.go],
    [binding.go], [config.go], [heap.go] and the runtime's state of [runtime.go] and
    [runtime_internal.go], with what the attached store of [durable.go] holds. *)

From S2P Require Import Prelude.
From S2P Require Import Tasks.
From S2P Require Import GoHeap.
From S2P Require Import CommandText.
From S2P Require Import CallbackToken.

Inductive irt_error :=
  | ErrClosed | ErrInvalidConfig | ErrInvalidFeature | ErrInvalidBinding | ErrInvalidTTL | ErrStateTooLarge | ErrCapacity
  | ErrNotFound | ErrExpired | ErrCanceled | ErrScopeStale | ErrBindingMismatch | ErrRevisionConflict | ErrTargetBound
  | ErrActionNotFound | ErrStaleToken | ErrInputBusy | ErrInputExpired
  | ErrToken (e : token_error) | ErrContext | ErrStore | ErrNoID.

#[global] Instance token_error_eq_dec : EqDecision token_error.
Proof. solve_decision. Defined.
#[global] Instance irt_error_eq_dec : EqDecision irt_error.
Proof. solve_decision. Defined.

(** ** Bindings *)

Record TargetBinding := mkTarget { tg_ChatID : Z; tg_MessageID : Z; tg_InlineMessageID : bytes }.
Record Binding := mkBinding { bn_ActorID : Z; bn_ChatID : Z; bn_MessageID : Z; bn_InlineMessageID : bytes }.

#[global] Instance Binding_eq_dec : EqDecision Binding.
Proof. solve_decision. Defined.

Definition no_bytes (s : bytes) : bool := bytes_eqb s [].

Definition validateComplete (t : TargetBinding) : option irt_error :=
  if negb (no_bytes (TrimSpace (tg_InlineMessageID t))) then
    if negb (tg_ChatID t =? 0) || negb (tg_MessageID t =? 0) then Some ErrInvalidBinding else None
  else if (tg_ChatID t =? 0) || (tg_MessageID t <=? 0) then Some ErrInvalidBinding else None.

Definition binding_normalized (b : Binding) : Binding :=
  mkBinding (bn_ActorID b) (bn_ChatID b) (bn_MessageID b) (TrimSpace (bn_InlineMessageID b)).

Definition binding_Validate (b : Binding) : option irt_error :=
  let inlineID := TrimSpace (bn_InlineMessageID b) in
  if negb (no_bytes inlineID) && (negb (bn_ChatID b =? 0) || negb (bn_MessageID b =? 0)) then Some ErrInvalidBinding
  else if bn_MessageID b <? 0 then Some ErrInvalidBinding
  else if (0 <? bn_MessageID b) && (bn_ChatID b =? 0) then Some ErrInvalidBinding
  else if (bn_ActorID b =? 0) && (bn_ChatID b =? 0) && (bn_MessageID b =? 0) && no_bytes inlineID then Some ErrInvalidBinding
  else None.

Definition binding_Matches (b actual : Binding) : bool :=
  negb (negb (bn_ActorID b =? 0) && negb (bn_ActorID actual =? bn_ActorID b)) &&
  negb (negb (bn_ChatID b =? 0) && negb (bn_ChatID actual =? bn_ChatID b)) &&
  negb (negb (bn_MessageID b =? 0) && negb (bn_MessageID actual =? bn_MessageID b)) &&
  negb (negb (no_bytes (bn_InlineMessageID b)) && negb (bytes_eqb (bn_InlineMessageID actual) (bn_InlineMessageID b))).

Definition withTarget (b : Binding) (t : TargetBinding) : irt_error + Binding :=
  match validateComplete t with
  | Some e => inl e
  | None =>
      if negb (no_bytes (bn_InlineMessageID b)) then
        if negb (bytes_eqb (bn_InlineMessageID b) (tg_InlineMessageID t)) then inl ErrTargetBound else inr b
      else if negb (bn_ChatID b =? 0) && negb (tg_ChatID t =? bn_ChatID b) then inl ErrTargetBound
      else if negb (bn_MessageID b =? 0) && negb (tg_MessageID t =? bn_MessageID b) then inl ErrTargetBound
      else if negb (no_bytes (tg_InlineMessageID t)) && (negb (bn_ChatID b =? 0) || negb (bn_MessageID b =? 0)) then inl ErrTargetBound
      else inr (mkBinding (bn_ActorID b) (tg_ChatID t) (tg_MessageID t) (TrimSpace (tg_InlineMessageID t)))
  end.

Definition bindingHasTarget (b : Binding) : bool :=
  negb (bn_ChatID b =? 0) || negb (bn_MessageID b =? 0) || negb (no_bytes (bn_InlineMessageID b)).
Definition completeTargetFromBinding (b : Binding) : option TargetBinding :=
  if negb (no_bytes (bn_InlineMessageID b)) && (bn_ChatID b =? 0) && (bn_MessageID b =? 0) then Some (mkTarget 0 0 (bn_InlineMessageID b))
  else if negb (bn_ChatID b =? 0) && (0 <? bn_MessageID b) && no_bytes (bn_InlineMessageID b) then Some (mkTarget (bn_ChatID b) (bn_MessageID b) [])
  else None.

Definition input_key : Type := Z * Z.   (* actor, chat *)
Definition inputKeyFromBinding (b : Binding) : option input_key :=
  if (bn_ActorID b =? 0) || (bn_ChatID b =? 0) || negb (no_bytes (bn_InlineMessageID b)) then None
  else Some (bn_ActorID b, bn_ChatID b).

(** ** Limits *)

Record Config := mkConfig {
  cf_MaxSessions : Z; cf_MaxSessionsPerScope : Z; cf_MaxSessionsPerActor : Z; cf_MaxStateBytes : Z; cf_MaxTotalStateBytes : Z;
  cf_DefaultTTL : duration; cf_MaxTTL : duration
}.
Definition or_default (x d : Z) : Z := if x =? 0 then d else x.
Definition config_normalized (c : Config) : option Config :=
  if (cf_MaxSessions c <? 0) || (cf_MaxSessionsPerScope c <? 0) || (cf_MaxSessionsPerActor c <? 0) || (cf_MaxStateBytes c <? 0) ||
     (cf_MaxTotalStateBytes c <? 0) || (cf_DefaultTTL c <? 0) || (cf_MaxTTL c <? 0) then None
  else
    let c := mkConfig (or_default (cf_MaxSessions c) 4096) (or_default (cf_MaxSessionsPerScope c) 512) (or_default (cf_MaxSessionsPerActor c) 64)
      (or_default (cf_MaxStateBytes c) (64 * 1024)) (or_default (cf_MaxTotalStateBytes c) (8 * 1024 * 1024))
      (or_default (cf_DefaultTTL c) (15 * minute)) (or_default (cf_MaxTTL c) (24 * (60 * minute))) in
    if cf_MaxTTL c <? cf_DefaultTTL c then None
    else if cf_MaxTotalStateBytes c <? cf_MaxStateBytes c then None
    else Some c.

Definition normalizeTTL (c : Config) (ttl : duration) : option duration :=
  if ttl <? 0 then None
  else let ttl := if ttl =? 0 then cf_DefaultTTL c else ttl in
       if cf_MaxTTL c <? ttl then None else Some ttl.

(** ** Sessions *)

Record Session := mkSession {
  ss_ID : bytes; ss_FeatureID : bytes; ss_Scope : ScopeIdentity; ss_Binding : Binding; ss_State : bytes;
  ss_Revision : Z; ss_CreatedAt : time; ss_ExpiresAt : time
}.
#[global] Instance Session_eq_dec : EqDecision Session.
Proof. solve_decision. Defined.

(** A row of the store; the zero instant stands for no pending input. *)
Record DurableSession := mkDurable { du_Session : Session; du_Version : bytes; du_InputExpires : time }.
#[global] Instance DurableSession_eq_dec : EqDecision DurableSession.
Proof. solve_decision. Defined.

Record inputClaim := mkClaim { ic_key : input_key; ic_expiresAt : time }.

(** [se_ctx] numbers the session's context, [se_expiry] is the address of its item. *)
Record sessionEntry := mkEntry {
  se_session : Session; se_durableVersion : bytes; se_ctx : nat; se_expiry : option nat; se_input : option inputClaim
}.

Record expiryItem := mkItem { ei_ptr : nat; ei_id : bytes; ei_expiresAt : time }.
Definition expiry_less (a b : expiryItem) : bool := before (ei_expiresAt a) (ei_expiresAt b).

Record counters := mkCounters {
  ct_expired : Z; ct_canceled : Z; ct_stale : Z; ct_capacityRejected : Z; ct_restored : Z; ct_restoreRejected : Z; ct_persistenceError : Z
}.

(** [rt_ctxs] contexts were made, [rt_cancelled] holds the cause of the cancelled ones;
    [rt_items] expiry items were made; [rt_rows] is what the attached store holds. *)
Record Runtime := mkRuntime {
  rt_closed : bool;
  rt_sessions : gmap bytes sessionEntry;
  rt_byScope : gmap ScopeIdentity (gset bytes);
  rt_actorCounts : gmap Z Z;
  rt_expiries : iheap expiryItem;
  rt_inputs : gmap input_key bytes;
  rt_stateBytes : Z;
  rt_durable : bool; rt_preserve : bool; rt_rows : gmap bytes DurableSession;
  rt_ctxs : nat; rt_cancelled : gmap nat irt_error; rt_items : nat;
  rt_counters : counters
}.

Definition NewRuntime (rows : gmap bytes DurableSession) : Runtime :=
  mkRuntime false ∅ ∅ ∅ (mkHeap [] ∅) ∅ 0 false false rows 0 ∅ 0 (mkCounters 0 0 0 0 0 0 0).

Definition set_sessions (m : gmap bytes sessionEntry) (r : Runtime) : Runtime :=
  mkRuntime (rt_closed r) m (rt_byScope r) (rt_actorCounts r) (rt_expiries r) (rt_inputs r) (rt_stateBytes r)
    (rt_durable r) (rt_preserve r) (rt_rows r) (rt_ctxs r) (rt_cancelled r) (rt_items r) (rt_counters r).
Definition set_expiries (h : iheap expiryItem) (items : nat) (r : Runtime) : Runtime :=
  mkRuntime (rt_closed r) (rt_sessions r) (rt_byScope r) (rt_actorCounts r) h (rt_inputs r) (rt_stateBytes r)
    (rt_durable r) (rt_preserve r) (rt_rows r) (rt_ctxs r) (rt_cancelled r) items (rt_counters r).
Definition set_inputs (m : gmap input_key bytes) (r : Runtime) : Runtime :=
  mkRuntime (rt_closed r) (rt_sessions r) (rt_byScope r) (rt_actorCounts r) (rt_expiries r) m (rt_stateBytes r)
    (rt_durable r) (rt_preserve r) (rt_rows r) (rt_ctxs r) (rt_cancelled r) (rt_items r) (rt_counters r).
Definition set_index (byScope : gmap ScopeIdentity (gset bytes)) (actors : gmap Z Z) (total : Z) (r : Runtime) : Runtime :=
  mkRuntime (rt_closed r) (rt_sessions r) byScope actors (rt_expiries r) (rt_inputs r) total
    (rt_durable r) (rt_preserve r) (rt_rows r) (rt_ctxs r) (rt_cancelled r) (rt_items r) (rt_counters r).
Definition set_store (durable preserve : bool) (rows : gmap bytes DurableSession) (r : Runtime) : Runtime :=
  mkRuntime (rt_closed r) (rt_sessions r) (rt_byScope r) (rt_actorCounts r) (rt_expiries r) (rt_inputs r) (rt_stateBytes r)
    durable preserve rows (rt_ctxs r) (rt_cancelled r) (rt_items r) (rt_counters r).
Definition set_ctxs (ctxs : nat) (cancelled : gmap nat irt_error) (r : Runtime) : Runtime :=
  mkRuntime (rt_closed r) (rt_sessions r) (rt_byScope r) (rt_actorCounts r) (rt_expiries r) (rt_inputs r) (rt_stateBytes r)
    (rt_durable r) (rt_preserve r) (rt_rows r) ctxs cancelled (rt_items r) (rt_counters r).
Definition set_counters (c : counters) (r : Runtime) : Runtime :=
  mkRuntime (rt_closed r) (rt_sessions r) (rt_byScope r) (rt_actorCounts r) (rt_expiries r) (rt_inputs r) (rt_stateBytes r)
    (rt_durable r) (rt_preserve r) (rt_rows r) (rt_ctxs r) (rt_cancelled r) (rt_items r) c.

Definition ct_add (expired canceled stale capacity restored rejected store : Z) (r : Runtime) : Runtime :=
  let c := rt_counters r in
  set_counters (mkCounters (ct_expired c + expired) (ct_canceled c + canceled) (ct_stale c + stale) (ct_capacityRejected c + capacity)
    (ct_restored c + restored) (ct_restoreRejected c + rejected) (ct_persistenceError c + store)) r.
Definition count_capacity : Runtime -> Runtime := ct_add 0 0 0 1 0 0 0.
Definition count_restored : Runtime -> Runtime := ct_add 0 0 0 0 1 0 0.
Definition count_rejected : Runtime -> Runtime := ct_add 0 0 0 0 0 1 0.
Definition count_store : Runtime -> Runtime := ct_add 0 0 0 0 0 0 1.
Definition count_cause (cause : irt_error) : Runtime -> Runtime :=
  match cause with ErrExpired => ct_add 1 0 0 0 0 0 0 | ErrScopeStale => ct_add 0 0 1 0 0 0 0 | _ => ct_add 0 1 0 0 0 0 0 end.

(** A context is cancelled once, by the first cause. *)
Definition cancel_ctx (c : nat) (cause : irt_error) (r : Runtime) : Runtime :=
  match rt_cancelled r !! c with Some _ => r | None => set_ctxs (rt_ctxs r) (<[c := cause]> (rt_cancelled r)) r end.

Definition se_set_session (s : Session) (e : sessionEntry) : sessionEntry :=
  mkEntry s (se_durableVersion e) (se_ctx e) (se_expiry e) (se_input e).
Definition se_set_input (i : option inputClaim) (e : sessionEntry) : sessionEntry :=
  mkEntry (se_session e) (se_durableVersion e) (se_ctx e) (se_expiry e) i.
Definition se_set_expiry (p : option nat) (e : sessionEntry) : sessionEntry :=
  mkEntry (se_session e) (se_durableVersion e) (se_ctx e) p (se_input e).

Definition put_entry (id : bytes) (e : sessionEntry) (r : Runtime) : Runtime := set_sessions (<[id := e]> (rt_sessions r)) r.

Definition ss_set_state (state : bytes) (rev : Z) (s : Session) : Session :=
  mkSession (ss_ID s) (ss_FeatureID s) (ss_Scope s) (ss_Binding s) state rev (ss_CreatedAt s) (ss_ExpiresAt s).
Definition ss_set_expires (t : time) (s : Session) : Session :=
  mkSession (ss_ID s) (ss_FeatureID s) (ss_Scope s) (ss_Binding s) (ss_State s) (ss_Revision s) (ss_CreatedAt s) t.
Definition ss_set_binding (b : Binding) (s : Session) : Session :=
  mkSession (ss_ID s) (ss_FeatureID s) (ss_Scope s) b (ss_State s) (ss_Revision s) (ss_CreatedAt s) (ss_ExpiresAt s).
Definition ss_set_scope (sc : ScopeIdentity) (s : Session) : Session :=
  mkSession (ss_ID s) (ss_FeatureID s) sc (ss_Binding s) (ss_State s) (ss_Revision s) (ss_CreatedAt s) (ss_ExpiresAt s).

(** [Revision++] of a [uint64]. *)
Definition next_revision (rev : Z) : Z := (rev + 1) mod 2 ^ 64.
