(* ===== verification/InteractionOps.v ===== *)
(** * Interaction sessions: operations

    Models the sections the runtime of [internal/interaction] runs under its lock and the
    operations made of them: [runtime.go], [runtime_internal.go], [session.go], [input.go]
    and [durable.go]. A section takes what the code reads outside the lock as arguments:
    the clock, the answers of the feature catalog, whether the store's calls succeed. *)

From S2P Require Import Prelude.
From S2P Require Import Tasks.
From S2P Require Import GoHeap.
From S2P Require Import CallbackToken.
From S2P Require Import InteractionState.

(** ** [runtime_internal.go] *)

Definition ptr_index (p : nat) (h : iheap expiryItem) : Z := zget p (hidx h).

Definition set_deadline (p : nat) (t : time) (it : expiryItem) : expiryItem :=
  if (ei_ptr it =? p)%nat then mkItem p (ei_id it) t else it.

Definition scheduleExpiryLocked (id : bytes) (expiresAt : time) (r : Runtime) : Runtime :=
  match rt_sessions r !! id with
  | None => r
  | Some e =>
      match se_expiry e with
      | None =>
          let p := rt_items r in
          put_entry id (se_set_expiry (Some p) e)
            (set_expiries (heap_Push expiry_less ei_ptr (mkItem p (ss_ID (se_session e)) expiresAt) (rt_expiries r)) (S p) r)
      | Some p =>
          let h := rt_expiries r in
          set_expiries (heap_Fix expiry_less ei_ptr (Z.to_nat (ptr_index p h)) (mkHeap (map (set_deadline p expiresAt) (hs h)) (hidx h))) (rt_items r) r
      end
  end.

Definition clearInputLocked (id : bytes) (r : Runtime) : bool * Runtime :=
  match rt_sessions r !! id with
  | Some e =>
      match se_input e with
      | Some i =>
          let r := if bool_decide (rt_inputs r !! ic_key i = Some (ss_ID (se_session e))) then set_inputs (delete (ic_key i) (rt_inputs r)) r else r in
          (true, put_entry id (se_set_input None e) r)
      | None => (false, r)
      end
  | None => (false, r)
  end.

Definition indexSessionLocked (s : Session) (r : Runtime) : Runtime :=
  let a := bn_ActorID (ss_Binding s) in
  set_index (<[ss_Scope s := {[ss_ID s]} ∪ default ∅ (rt_byScope r !! ss_Scope s)]> (rt_byScope r))
    (if a =? 0 then rt_actorCounts r else <[a := zget a (rt_actorCounts r) + 1]> (rt_actorCounts r))
    (rt_stateBytes r + blen (ss_State s)) r.

(** The reverse of it in [removeLockedContext]. *)
Definition unindex (id : bytes) (s : Session) (r : Runtime) : Runtime :=
  let a := bn_ActorID (ss_Binding s) in
  let ids := default ∅ (rt_byScope r !! ss_Scope s) ∖ {[id]} in
  set_index (if bool_decide (ids = ∅) then delete (ss_Scope s) (rt_byScope r) else <[ss_Scope s := ids]> (rt_byScope r))
    (if a =? 0 then rt_actorCounts r
     else if zget a (rt_actorCounts r) <=? 1 then delete a (rt_actorCounts r) else <[a := zget a (rt_actorCounts r) - 1]> (rt_actorCounts r))
    (rt_stateBytes r - blen (ss_State s)) r.

Definition drop_expiry (p : option nat) (r : Runtime) : Runtime :=
  match p with
  | Some p => if 0 <=? ptr_index p (rt_expiries r)
              then set_expiries (heap_Remove expiry_less ei_ptr (Z.to_nat (ptr_index p (rt_expiries r))) (rt_expiries r)).2 (rt_items r) r else r
  | None => r
  end.

Definition stored (e : sessionEntry) (r : Runtime) : bool := rt_durable r && negb (rt_preserve r) && negb (no_bytes (se_durableVersion e)).

Definition removeLockedContext (del_ok : bool) (id : bytes) (cause : irt_error) (r : Runtime) : bool * option irt_error * Runtime :=
  match rt_sessions r !! id with
  | None => (false, None, r)
  | Some e =>
      if stored e r && negb del_ok then (false, Some ErrStore, count_store r)
      else
        let r := if stored e r then set_store (rt_durable r) (rt_preserve r) (delete id (rt_rows r)) r else r in
        let r := (clearInputLocked id r).2 in
        let r := set_sessions (delete id (rt_sessions r)) r in
        let r := drop_expiry (se_expiry e) r in
        let r := unindex id (se_session e) r in
        (true, None, count_cause cause (cancel_ctx (se_ctx e) cause r))
  end.
Definition removeLocked (del_ok : bool) (id : bytes) (cause : irt_error) (r : Runtime) : Runtime := (removeLockedContext del_ok id cause r).2.

(** The loop of [pruneExpiredLocked]: a round takes an item out of the heap, and no round
    adds one; what it failed to remove is put back in the end. *)
Fixpoint prune_loop (fuel : nat) (del_ok : bytes -> bool) (now : time) (r : Runtime) : Z * list expiryItem * Runtime :=
  match fuel with
  | O => (0, [], r)
  | S fuel =>
      match hs (rt_expiries r) !! 0%nat with
      | None => (0, [], r)
      | Some item =>
          if after (ei_expiresAt item) now then (0, [], r)
          else
            let r := set_expiries (heap_Pop expiry_less ei_ptr (rt_expiries r)).2 (rt_items r) r in
            match rt_sessions r !! ei_id item with
            | Some e =>
                if negb (bool_decide (se_expiry e = Some (ei_ptr item))) then prune_loop fuel del_ok now r
                else
                  match removeLockedContext (del_ok (ei_id item)) (ei_id item) ErrExpired r with
                  | (_, Some _, r) => let '(n, retry, r) := prune_loop fuel del_ok now r in (n, item :: retry, r)
                  | (ok, None, r) => let '(n, retry, r) := prune_loop fuel del_ok now r in ((if ok then 1 else 0) + n, retry, r)
                  end
            | None => prune_loop fuel del_ok now r
            end
      end
  end.
Definition push_back (item : expiryItem) (r : Runtime) : Runtime :=
  match rt_sessions r !! ei_id item with
  | Some e => if bool_decide (se_expiry e = Some (ei_ptr item))
              then set_expiries (heap_Push expiry_less ei_ptr item (rt_expiries r)) (rt_items r) r else r
  | None => r
  end.
Definition pruneExpiredLocked (del_ok : bytes -> bool) (now : time) (r : Runtime) : Z * Runtime :=
  let '(n, retry, r) := prune_loop (length (hs (rt_expiries r))) del_ok now r in (n, foldl (fun r item => push_back item r) r retry).

(** One round of [pruneExpiredInputsLocked]; the loop goes over the map. *)
Definition prune_input (now : time) (r : Runtime) (kv : input_key * bytes) : Runtime :=
  let '(key, id) := kv in
  match rt_sessions r !! id with
  | Some e =>
      match se_input e with
      | Some i =>
          if negb (bool_decide (ic_key i = key)) then set_inputs (delete key (rt_inputs r)) r
          else if after (ic_expiresAt i) now then r
          else set_inputs (delete key (rt_inputs r)) (put_entry id (se_set_input None e) r)
      | None => set_inputs (delete key (rt_inputs r)) r
      end
  | None => set_inputs (delete key (rt_inputs r)) r
  end.
Definition pruneExpiredInputsLocked (now : time) (r : Runtime) : Runtime := foldl (prune_input now) r (map_to_list (rt_inputs r)).

Definition cancelIfScope (del_ok : bool) (id : bytes) (scope : ScopeIdentity) (cause : irt_error) (r : Runtime) : Runtime :=
  match rt_sessions r !! id with
  | Some e => if bool_decide (ss_Scope (se_session e) = scope) then removeLocked del_ok id cause r else r
  | None => r
  end.

Section Ops.
Context (ToLower : bytes -> bytes) (config : Config).
(** The version of the durable layout a feature declares in the catalog, empty when its
    sessions are not durable; it is the same for the life of the runtime. *)
Context (durabilityVersion : bytes -> bytes).

Definition checkCapacityLocked (scope : ScopeIdentity) (actorID stateBytes : Z) (r : Runtime) : bool :=
  negb (cf_MaxSessions config <=? Z.of_nat (size (rt_sessions r))) &&
  negb (cf_MaxSessionsPerScope config <=? Z.of_nat (size (default ∅ (rt_byScope r !! scope)))) &&
  negb (negb (actorID =? 0) && (cf_MaxSessionsPerActor config <=? zget actorID (rt_actorCounts r))) &&
  negb (cf_MaxTotalStateBytes config <? rt_stateBytes r + stateBytes).

(** [uniqueIDLocked]: [ids] is what the generator answers, [None] for its error. *)
Fixpoint uniqueIDLocked (attempts : nat) (ids : list (option bytes)) (r : Runtime) : irt_error + bytes :=
  match attempts, ids with
  | S attempts, Some id :: ids =>
      if negb (validSessionID id) then inl ErrNoID
      else match rt_sessions r !! id with None => inr id | Some _ => uniqueIDLocked attempts ids r end
  | _, _ => inl ErrNoID
  end.

(** A row has no column for the scope, which a restart assigns anew. *)
Definition unscoped (s : Session) : Session := ss_set_scope (mkScope "" 0) s.
Definition saveDurableLocked (save_ok : bool) (s : Session) (input : option inputClaim) (r : Runtime) : bool * Runtime :=
  if negb (rt_durable r) then (true, r)
  else
    let version := durabilityVersion (ss_FeatureID s) in
    if no_bytes version then (true, r)
    else if save_ok then
      (true, set_store (rt_durable r) (rt_preserve r)
               (<[ss_ID s := mkDurable (unscoped s) version (match input with Some i => ic_expiresAt i | None => 0 end)]> (rt_rows r)) r)
    else (false, count_store r).

(** The locked part of [loadCurrentSession]; the caller gets the state only if it asks for it. *)
Definition load_section (includeState : bool) (del_ok : bytes -> bool) (now : time) (id : bytes) (r : Runtime)
    : (irt_error + Session * nat) * Runtime :=
  if negb (validSessionID id) then (inl ErrNotFound, r)
  else if rt_closed r then (inl ErrClosed, r)
  else match rt_sessions r !! id with
       | None => (inl ErrNotFound, (pruneExpiredLocked del_ok now r).2)
       | Some e =>
           if negb (after (ss_ExpiresAt (se_session e)) now) then (inl ErrExpired, removeLocked (del_ok id) id ErrExpired r)
           else (inr (if includeState then se_session e else ss_set_state [] (ss_Revision (se_session e)) (se_session e), se_ctx e), r)
       end.

(** The rest of it: the catalog answers [scope] for the feature of the session. *)
Definition scope_check (scope : option ScopeIdentity) (del_ok : bool) (s : Session) (r : Runtime) : option irt_error * Runtime :=
  if bool_decide (scope = Some (ss_Scope s)) then (None, r)
  else (Some ErrScopeStale, cancelIfScope del_ok (ss_ID s) (ss_Scope s) ErrScopeStale r).

(** ** [Create] *)

Record CreateRequest := mkCreate { cr_FeatureID : bytes; cr_Binding : Binding; cr_State : bytes; cr_TTL : duration }.

Definition Create_args (closed : bool) (q : CreateRequest) : irt_error + (bytes * Binding * duration) :=
  if closed then inl ErrClosed
  else
    let featureID := normalizeFeatureID ToLower (cr_FeatureID q) in
    if negb (validIdentifier ToLower featureID) then inl ErrInvalidFeature
    else
      let b := binding_normalized (cr_Binding q) in
      match binding_Validate b with
      | Some e => inl e
      | None =>
          if cf_MaxStateBytes config <? blen (cr_State q) then inl ErrStateTooLarge
          else match normalizeTTL config (cr_TTL q) with
               | None => inl ErrInvalidTTL
               | Some ttl => inr (featureID, b, ttl)
               end
      end.

Definition Create_section (ids : list (option bytes)) (save_ok : bool) (del_ok : bytes -> bool) (now : time)
    (featureID : bytes) (scope : ScopeIdentity) (b : Binding) (state : bytes) (ttl : duration) (r : Runtime)
    : (irt_error + Session * nat) * Runtime :=
  if rt_closed r then (inl ErrClosed, r)
  else
    let r := (pruneExpiredLocked del_ok now r).2 in
    if negb (checkCapacityLocked scope (bn_ActorID b) (blen state) r) then (inl ErrCapacity, count_capacity r)
    else match uniqueIDLocked 4 ids r with
         | inl e => (inl e, r)
         | inr id =>
             let ctx := rt_ctxs r in
             let r := set_ctxs (S ctx) (rt_cancelled r) r in
             let s := mkSession id featureID scope b state 1 now (now + ttl) in
             match saveDurableLocked save_ok s None r with
             | (false, r) => (inl ErrStore, cancel_ctx ctx ErrStore r)
             | (true, r) =>
                 let r := put_entry id (mkEntry s (durabilityVersion featureID) ctx None None) r in
                 (inr (s, ctx), scheduleExpiryLocked id (now + ttl) (indexSessionLocked s r))
             end
         end.

(** ** [session.go] *)

Definition Resolve_check (actual : Binding) (s : Session) : option irt_error :=
  if binding_Matches (ss_Binding s) actual then None else Some ErrBindingMismatch.

(** What the second locked parts of the operations on a session start with. *)
Definition with_live (del_ok : bool) (now : time) (id : bytes) (scope : ScopeIdentity) (expected : option Z) (r : Runtime)
    (k : sessionEntry -> (irt_error + Session) * Runtime) : (irt_error + Session) * Runtime :=
  match rt_sessions r !! id with
  | None => (inl ErrNotFound, r)
  | Some e =>
      if negb (bool_decide (ss_Scope (se_session e) = scope)) then (inl ErrNotFound, r)
      else if negb (after (ss_ExpiresAt (se_session e)) now) then (inl ErrExpired, removeLocked del_ok id ErrExpired r)
      else match expected with
           | Some rev => if negb (ss_Revision (se_session e) =? rev) then (inl ErrRevisionConflict, r) else k e
           | None => k e
           end
  end.

Definition UpdateState_section (save_ok del_ok : bool) (now : time) (id : bytes) (scope : ScopeIdentity) (expected : Z)
    (state : bytes) (ttl : option duration) (r : Runtime) : (irt_error + Session) * Runtime :=
  with_live del_ok now id scope (Some expected) r (fun e =>
    let newTotal := rt_stateBytes r - blen (ss_State (se_session e)) + blen state in
    if cf_MaxTotalStateBytes config <? newTotal then (inl ErrCapacity, count_capacity r)
    else
      let next := ss_set_state state (next_revision (ss_Revision (se_session e))) (se_session e) in
      let next := match ttl with Some ttl => ss_set_expires (now + ttl) next | None => next end in
      match saveDurableLocked save_ok next None r with
      | (false, r) => (inl ErrStore, r)
      | (true, r) =>
          let r := (clearInputLocked id r).2 in
          let r := set_index (rt_byScope r) (rt_actorCounts r) newTotal r in
          let r := put_entry id (se_set_session next (se_set_input None e)) r in
          (inr next, match ttl with Some ttl => scheduleExpiryLocked id (now + ttl) r | None => r end)
      end).

Definition BindTarget_section (save_ok del_ok : bool) (now : time) (id : bytes) (scope : ScopeIdentity) (expected : Z)
    (target : TargetBinding) (r : Runtime) : (irt_error + Session) * Runtime :=
  with_live del_ok now id scope (Some expected) r (fun e =>
    match withTarget (ss_Binding (se_session e)) target with
    | inl err => (inl err, r)
    | inr b =>
        let next := ss_set_binding b (se_session e) in
        match saveDurableLocked save_ok next (se_input e) r with
        | (false, r) => (inl ErrStore, r)
        | (true, r) => (inr next, put_entry id (se_set_session next e) r)
        end
    end).

Definition Touch_section (save_ok del_ok : bool) (now : time) (id : bytes) (scope : ScopeIdentity) (ttl : duration) (r : Runtime)
    : (irt_error + Session) * Runtime :=
  with_live del_ok now id scope None r (fun e =>
    let next := ss_set_expires (now + ttl) (se_session e) in
    match saveDurableLocked save_ok next (se_input e) r with
    | (false, r) => (inl ErrStore, r)
    | (true, r) => (inr next, scheduleExpiryLocked id (now + ttl) (put_entry id (se_set_session next e) r))
    end).

Definition Cancel (del_ok : bool) (id : bytes) (r : Runtime) : bool * Runtime :=
  let '(removed, _, r) := removeLockedContext del_ok id ErrCanceled r in (removed, r).

(** One round of [CancelScopeContext]. *)
Definition cancel_one (del_ok : bytes -> bool) (acc : Z * list irt_error * Runtime) (id : bytes) : Z * list irt_error * Runtime :=
  let '(removed, errs, r) := acc in
  match removeLockedContext (del_ok id) id ErrScopeStale r with
  | (_, Some err, r) => (removed, errs ++ [err], r)
  | (ok, None, r) => ((if ok then removed + 1 else removed), errs, r)
  end.
Definition CancelScopeContext (del_ok : bytes -> bool) (scope : ScopeIdentity) (r : Runtime) : Z * list irt_error * Runtime :=
  if ScopeIdentity_IsZero scope then (0, [], r)
  else foldl (cancel_one del_ok) (0, [], r) (elements (default ∅ (rt_byScope r !! scope))).

Definition CancelScope (del_ok : bytes -> bool) (scope : ScopeIdentity) (r : Runtime) : Z * Runtime :=
  let '(removed, _, r) := CancelScopeContext del_ok scope r in (removed, r).

Definition PruneExpired (del_ok : bytes -> bool) (now : time) (r : Runtime) : Z * Runtime :=
  pruneExpiredLocked del_ok now (pruneExpiredInputsLocked now r).

Record Stats := mkStats { st_Sessions : Z; st_Inputs : Z; st_StateBytes : Z; st_counters : counters }.
Definition SnapshotStats (r : Runtime) : Stats :=
  mkStats (Z.of_nat (size (rt_sessions r))) (Z.of_nat (size (rt_inputs r))) (rt_stateBytes r) (rt_counters r).
Definition Stats_op (del_ok : bytes -> bool) (now : time) (r : Runtime) : Stats * Runtime :=
  let r := (PruneExpired del_ok now r).2 in (SnapshotStats r, r).

Definition Close (r : Runtime) : Runtime :=
  if rt_closed r then r
  else
    let r := foldl (fun r c => cancel_ctx c ErrClosed r) r (seq 0 (rt_ctxs r)) in
    mkRuntime true ∅ ∅ ∅ (mkHeap [] ∅) ∅ 0 (rt_durable r) (rt_preserve r) (rt_rows r) (rt_ctxs r) (rt_cancelled r) (rt_items r) (rt_counters r).

(** ** [input.go] *)

(** A claim of another session for the same actor and chat gives way when it expired. *)
Definition evict_input (key : input_key) (id : bytes) (now : time) (r : Runtime) : option Runtime :=
  match rt_inputs r !! key with
  | Some existingID =>
      if bytes_eqb existingID id then Some r
      else match rt_sessions r !! existingID with
           | None => Some (set_inputs (delete key (rt_inputs r)) r)
           | Some existing =>
               match se_input existing with
               | Some i => if after (ic_expiresAt i) now then None else Some (clearInputLocked existingID r).2
               | None => Some (clearInputLocked existingID r).2
               end
           end
  | None => Some r
  end.

Definition ArmInput_section (save_ok del_ok : bool) (now : time) (id : bytes) (scope : ScopeIdentity) (expected : Z)
    (state : bytes) (ttl : duration) (key : input_key) (r : Runtime) : (irt_error + Session) * Runtime :=
  with_live del_ok now id scope (Some expected) r (fun e =>
    match evict_input key id now r with
    | None => (inl ErrInputBusy, r)
    | Some r =>
        let newTotal := rt_stateBytes r - blen (ss_State (se_session e)) + blen state in
        if cf_MaxTotalStateBytes config <? newTotal then (inl ErrCapacity, count_capacity r)
        else
          let next := ss_set_state state (next_revision (ss_Revision (se_session e))) (se_session e) in
          let i := mkClaim key (if after (now + ttl) (ss_ExpiresAt next) then ss_ExpiresAt next else now + ttl) in
          match saveDurableLocked save_ok next (Some i) r with
          | (false, r) => (inl ErrStore, r)
          | (true, r) =>
              let r := (clearInputLocked id r).2 in
              let r := set_index (rt_byScope r) (rt_actorCounts r) newTotal r in
              (inr next, set_inputs (<[key := id]> (rt_inputs r)) (put_entry id (se_set_session next (se_set_input (Some i) e)) r))
          end
    end).

(** The locked part of [TakeInput]; the flag says whether there was a claim. *)
Definition TakeInput_section (save_ok : bool) (del_ok : bytes -> bool) (now : time) (actorID chatID : Z) (r : Runtime)
    : bool * (irt_error + option (Session * nat)) * Runtime :=
  let key := (actorID, chatID) in
  if rt_closed r then (false, inl ErrClosed, r)
  else match rt_inputs r !! key with
       | None => (false, inr None, r)
       | Some id =>
           match rt_sessions r !! id with
           | None => (false, inr None, set_inputs (delete key (rt_inputs r)) r)
           | Some e =>
               match se_input e with
               | None => (false, inr None, set_inputs (delete key (rt_inputs r)) r)
               | Some i =>
                   if negb (bool_decide (ic_key i = key)) then (false, inr None, set_inputs (delete key (rt_inputs r)) r)
                   else if negb (after (ic_expiresAt i) now) then (true, inl ErrInputExpired, (clearInputLocked id r).2)
                   else if negb (after (ss_ExpiresAt (se_session e)) now) then (true, inl ErrExpired, removeLocked (del_ok id) id ErrExpired r)
                   else
                     let next := ss_set_state (ss_State (se_session e)) (next_revision (ss_Revision (se_session e))) (se_session e) in
                     match saveDurableLocked save_ok next None r with
                     | (false, r) => (true, inl ErrStore, r)
                     | (true, r) => (true, inr (Some (next, se_ctx e)), put_entry id (se_set_session next (se_set_input None e)) (clearInputLocked id r).2)
                     end
               end
           end
       end.

Definition ReleaseInput (save_ok : bool) (id : bytes) (r : Runtime) : bool * Runtime :=
  if negb (validSessionID id) then (false, r)
  else match rt_sessions r !! id with
       | None => (false, r)
       | Some e =>
           match se_input e with
           | Some _ =>
               match saveDurableLocked save_ok (se_session e) None r with
               | (false, r) => (false, r)
               | (true, r) => clearInputLocked id r
               end
           | None => clearInputLocked id r
           end
       end.

(** ** [durable.go] *)

Definition SetDurableStore (r : Runtime) : option irt_error * Runtime :=
  if rt_closed r || rt_durable r || negb (bool_decide (rt_sessions r = ∅)) then (Some ErrInvalidConfig, r)
  else (None, set_store true (rt_preserve r) (rt_rows r) r).
Definition PreserveDurableOnShutdown (r : Runtime) : Runtime := set_store (rt_durable r) true (rt_rows r) r.

Definition restorable (scope : option ScopeIdentity) (now : time) (row : DurableSession) : bool :=
  let s := du_Session row in
  match scope with Some _ => true | None => false end &&
  negb (no_bytes (du_Version row)) && bytes_eqb (du_Version row) (durabilityVersion (ss_FeatureID s)) && after (ss_ExpiresAt s) now &&
  validSessionID (ss_ID s) && negb (ss_Revision s =? 0) && match binding_Validate (ss_Binding s) with None => true | Some _ => false end &&
  (blen (ss_State s) <=? cf_MaxStateBytes config).

(** The input claim a row restores, or why the row is refused for it. *)
Definition restore_input (now : time) (row : DurableSession) (r : Runtime) : irt_error + option inputClaim :=
  let at_ := du_InputExpires row in
  if negb (is_zero at_) && after at_ now then
    match inputKeyFromBinding (ss_Binding (du_Session row)) with
    | None => inl ErrInvalidBinding
    | Some key => match rt_inputs r !! key with Some _ => inl ErrInputBusy | None => inr (Some (mkClaim key at_)) end
    end
  else inr None.

Definition reject_row (del_ok : bool) (id : bytes) (r : Runtime) : option Runtime * Runtime :=
  if del_ok then let r := count_rejected (set_store (rt_durable r) (rt_preserve r) (delete id (rt_rows r)) r) in (Some r, r)
  else (None, count_store r).

(** One round of [RestoreDurable]: the state to go on with, unless the store failed. *)
Definition restore_row (scopeOf : bytes -> option ScopeIdentity) (del_ok : bytes -> bool) (now : time) (row : DurableSession) (r : Runtime)
    : option Runtime * Runtime :=
  let s := du_Session row in
  let scope := scopeOf (ss_FeatureID s) in
  if negb (restorable scope now row) then reject_row (del_ok (ss_ID s)) (ss_ID s) r
  else match rt_sessions r !! ss_ID s with
       | Some _ => (Some r, r)
       | None =>
           let sc := default (mkScope "" 0) scope in
           if negb (checkCapacityLocked sc (bn_ActorID (ss_Binding s)) (blen (ss_State s)) r) then reject_row (del_ok (ss_ID s)) (ss_ID s) r
           else
             let s := ss_set_scope sc s in
             let ctx := rt_ctxs r in
             let r := set_ctxs (S ctx) (rt_cancelled r) r in
             match restore_input now row r with
             | inl e => reject_row (del_ok (ss_ID s)) (ss_ID s) (cancel_ctx ctx e r)
             | inr input =>
                 let r := match input with Some i => set_inputs (<[ic_key i := ss_ID s]> (rt_inputs r)) r | None => r end in
                 let r := put_entry (ss_ID s) (mkEntry s (du_Version row) ctx None input) r in
                 let r := count_restored (scheduleExpiryLocked (ss_ID s) (ss_ExpiresAt s) (indexSessionLocked s r)) in
                 (Some r, r)
             end
       end.
Fixpoint restore_rows (scopeOf : bytes -> option ScopeIdentity) (del_ok : bytes -> bool) (now : time) (rows : list DurableSession) (r : Runtime)
    : option irt_error * Runtime :=
  match rows with
  | [] => (None, r)
  | row :: rows =>
      match restore_row scopeOf del_ok now row r with
      | (Some r, _) => restore_rows scopeOf del_ok now rows r
      | (None, r) => (Some ErrStore, r)
      end
  end.
(** [rows] is what [Load] answers, [None] for its error. *)
Definition RestoreDurable (scopeOf : bytes -> option ScopeIdentity) (del_ok : bytes -> bool) (now : time) (rows : option (list DurableSession))
    (r : Runtime) : option irt_error * Runtime :=
  if rt_closed r then (Some ErrClosed, r)
  else if negb (rt_durable r) then (None, r)
  else match rows with
       | None => (Some ErrStore, count_store r)
       | Some rows => restore_rows scopeOf del_ok now rows r
       end.

End Ops.
