(* ===== verification/InteractionInvariant.v ===== *)
(** * Interaction sessions: the invariant

    What the tables of the runtime of [internal/interaction] have to do with each other,
    and that every section keeps it: the index by scope, the counts per actor, the total
    of state bytes, the input claims, the expiry heap and the contexts all describe the
    sessions, and the limits hold. *)

From S2P Require Import Prelude.
From S2P Require Import Tasks.
From S2P Require Import GoHeap.
From S2P Require Import CallbackToken.
From S2P Require Import InteractionState.
From S2P Require Import InteractionOps.

Definition actor_of (e : sessionEntry) : Z := bn_ActorID (ss_Binding (se_session e)).
Definition scope_of (e : sessionEntry) : ScopeIdentity := ss_Scope (se_session e).
Definition bytes_in (e : sessionEntry) : Z := blen (ss_State (se_session e)).
Definition actor_count (a : Z) (m : gmap bytes sessionEntry) : Z := msum (fun e => if actor_of e =? a then 1 else 0) m.
Definition ids_of (sc : ScopeIdentity) (r : Runtime) : gset bytes := default ∅ (rt_byScope r !! sc).
Definition counted (a n : Z) : option Z := if (a =? 0) || (n =? 0) then None else Some n.

Record index_ok (r : Runtime) : Prop := {
  ix_id : forall id e, rt_sessions r !! id = Some e -> ss_ID (se_session e) = id;
  ix_nonempty : forall sc ids, rt_byScope r !! sc = Some ids -> ids <> ∅;
  ix_scope : forall sc id, id ∈ ids_of sc r <-> exists e, rt_sessions r !! id = Some e /\ scope_of e = sc;
  ix_actor : forall a, rt_actorCounts r !! a = counted a (actor_count a (rt_sessions r));
  ix_bytes : rt_stateBytes r = msum bytes_in (rt_sessions r);
  ix_inputs : forall key id, rt_inputs r !! key = Some id <->
    exists e i, rt_sessions r !! id = Some e /\ se_input e = Some i /\ ic_key i = key;
  ix_ctx : forall id e, rt_sessions r !! id = Some e -> (se_ctx e < rt_ctxs r)%nat;
  ix_ctx_inj : forall id id' e e', rt_sessions r !! id = Some e -> rt_sessions r !! id' = Some e' -> se_ctx e = se_ctx e' -> id = id';
  ix_live : forall c, (c < rt_ctxs r)%nat -> rt_cancelled r !! c = None <-> exists id e, rt_sessions r !! id = Some e /\ se_ctx e = c;
  ix_made : forall c cause, rt_cancelled r !! c = Some cause -> (c < rt_ctxs r)%nat;
  ix_closed : rt_closed r = true -> rt_sessions r = ∅
}.

Lemma actor_count_nonneg a m : 0 <= actor_count a m.
Proof. apply msum_nonneg. intros k e _. destruct (actor_of e =? a); lia. Qed.

Lemma state_bytes_nonneg (m : gmap bytes sessionEntry) : 0 <= msum bytes_in m.
Proof. apply msum_nonneg. intros k e _. unfold bytes_in, blen. lia. Qed.

Lemma zget_counted r a : index_ok r -> a <> 0 -> zget a (rt_actorCounts r) = actor_count a (rt_sessions r).
Proof.
  intros H Ha. unfold zget. rewrite (ix_actor _ H). unfold counted. rewrite (proj2 (Z.eqb_neq a 0)) by done. cbn.
  destruct (Z.eqb_spec (actor_count a (rt_sessions r)) 0) as [->|]; done.
Qed.

(** ** A session changes *)

(** What a change of an entry may not touch. *)
Definition same_place (e e' : sessionEntry) : Prop :=
  ss_ID (se_session e') = ss_ID (se_session e) /\ scope_of e' = scope_of e /\ actor_of e' = actor_of e /\ se_ctx e' = se_ctx e.

Lemma same_place_refl e : same_place e e.
Proof. done. Qed.

Section Change.
Context (r : Runtime) (id : bytes) (e e' : sessionEntry).
Hypotheses (H : index_ok r) (He : rt_sessions r !! id = Some e) (Hs : same_place e e').

Lemma change_count a : actor_count a (<[id := e']> (rt_sessions r)) = actor_count a (rt_sessions r).
Proof using All. unfold actor_count. rewrite (msum_insert _ _ _ _ e He). destruct Hs as (_ & _ & -> & _). lia. Qed.

(** The entries before and after, with what [P] sees of them. *)
Lemma change_exists (P : bytes -> sessionEntry -> Prop) : (P id e <-> P id e') ->
  (exists k x, <[id := e']> (rt_sessions r) !! k = Some x /\ P k x) <-> (exists k x, rt_sessions r !! k = Some x /\ P k x).
Proof using All.
  intros HP. split.
  - intros (k & x & [[<- <-]|[_ Hx]]%lookup_insert_Some & Hk); [exists id, e; tauto|by exists k, x].
  - intros (k & x & Hx & Hk). destruct (decide (k = id)) as [->|].
    + exists id, e'. rewrite lookup_insert_eq. split; [done|]. assert (x = e) by congruence. subst. tauto.
    + exists k, x. by rewrite lookup_insert_ne.
Qed.

Lemma change_at (P : sessionEntry -> Prop) k : (P e <-> P e') ->
  (exists x, <[id := e']> (rt_sessions r) !! k = Some x /\ P x) <-> (exists x, rt_sessions r !! k = Some x /\ P x).
Proof using All.
  intros HP. destruct (decide (k = id)) as [->|]; [|by rewrite lookup_insert_ne]. rewrite lookup_insert_eq, He. naive_solver.
Qed.

(** The change, with the bytes counted and the input claims brought in line. *)
Lemma change_ok inputs' :
  (forall key k, inputs' !! key = Some k <-> exists x i, <[id := e']> (rt_sessions r) !! k = Some x /\ se_input x = Some i /\ ic_key i = key) ->
  index_ok (set_inputs inputs' (set_index (rt_byScope r) (rt_actorCounts r) (rt_stateBytes r - bytes_in e + bytes_in e') (put_entry id e' r))).
Proof using All.
  intros Hi. pose proof H as [I1 I2 I3 I4 I5 I6 I7 I8 I9 I10 I11]. destruct Hs as (S1 & S2 & S3 & S4).
  split; cbn; try done.
  - intros k x [[<- <-]|[_ Hx]]%lookup_insert_Some; [rewrite S1; by apply I1|by apply I1].
  - intros sc k. rewrite (change_at (fun x => scope_of x = sc)) by (by rewrite S2). apply I3.
  - intros a. rewrite change_count. apply I4.
  - rewrite (msum_insert _ _ _ _ e He). lia.
  - intros k x [[<- <-]|[_ Hx]]%lookup_insert_Some; [rewrite S4; by eapply I7|by eapply I7].
  - intros k k' x x' [[<- <-]|[? Hx]]%lookup_insert_Some [[<- <-]|[? Hx']]%lookup_insert_Some; rewrite ?S4; try done; intros E.
    + by eapply I8.
    + by eapply I8.
    + by eapply I8.
  - intros c Hc. rewrite (change_exists (fun _ x => se_ctx x = c)) by (by rewrite S4). by apply I9.
  - intros Hc. by rewrite (I11 Hc), lookup_empty in He.
Qed.

(** The input claim stays as it is. *)
Lemma change_inputs_same : se_input e' = se_input e ->
  forall key k, rt_inputs r !! key = Some k <-> exists x i, <[id := e']> (rt_sessions r) !! k = Some x /\ se_input x = Some i /\ ic_key i = key.
Proof using All.
  intros E key k. rewrite (ix_inputs _ H). split; intros (x & i & Hx & Hi).
  - destruct (proj2 (change_at (fun x => exists i, se_input x = Some i /\ ic_key i = key) k ltac:(cbn; by rewrite E))) as (y & Hy & j & Hj); [by eauto|eauto].
  - destruct (proj1 (change_at (fun x => exists i, se_input x = Some i /\ ic_key i = key) k ltac:(cbn; by rewrite E))) as (y & Hy & j & Hj); [by eauto|eauto].
Qed.
End Change.

(** ** Input claims *)

Lemma runtime_eta r : set_index (rt_byScope r) (rt_actorCounts r) (rt_stateBytes r) r = r.
Proof. by destruct r. Qed.

Lemma claim_owner r id e i : index_ok r -> rt_sessions r !! id = Some e -> se_input e = Some i -> rt_inputs r !! ic_key i = Some id.
Proof. intros H He Hi. apply (ix_inputs _ H). by exists e, i. Qed.

Lemma clearInputLocked_eq r id e : index_ok r -> rt_sessions r !! id = Some e ->
  clearInputLocked id r =
    match se_input e with
    | Some i => (true, put_entry id (se_set_input None e) (set_inputs (delete (ic_key i) (rt_inputs r)) r))
    | None => (false, r)
    end.
Proof.
  intros H He. unfold clearInputLocked. rewrite He. destruct (se_input e) as [i|] eqn:Hi; [|done].
  rewrite bool_decide_true; [done|]. rewrite (ix_id _ H id e He). by eapply claim_owner.
Qed.

(** Clearing a claim leaves the session where it is, without a claim. *)
Lemma clear_ok r id : index_ok r -> index_ok (clearInputLocked id r).2 /\
  rt_sessions (clearInputLocked id r).2 = alter (se_set_input None) id (rt_sessions r) /\
  (forall key k, rt_inputs (clearInputLocked id r).2 !! key = Some k <-> rt_inputs r !! key = Some k /\ k <> id).
Proof.
  intros H. destruct (rt_sessions r !! id) as [e|] eqn:He.
  2: { assert (E : clearInputLocked id r = (false, r)) by (unfold clearInputLocked; by rewrite He). rewrite E. cbn. split_and!; [done| |].
    - apply map_eq. intros k. rewrite lookup_alter. case_decide; [subst; by rewrite He|done].
    - intros key k. split; [|tauto]. intros Hk. split; [done|]. intros ->. apply (ix_inputs _ H) in Hk as (e & i & He' & _). congruence. }
  rewrite (clearInputLocked_eq r id e H He).
  assert (Ha : <[id := se_set_input None e]> (rt_sessions r) = alter (se_set_input None) id (rt_sessions r)).
  { apply map_eq. intros k. rewrite lookup_alter. case_decide; [subst; by rewrite lookup_insert_eq, He|by rewrite lookup_insert_ne]. }
  assert (Hin : forall i key k, se_input e = Some i -> delete (ic_key i) (rt_inputs r) !! key = Some k <-> rt_inputs r !! key = Some k /\ k <> id).
  { intros i key k Hi. rewrite lookup_delete_Some. split.
    - intros [Hne Hk]. split; [done|]. intros ->. apply (ix_inputs _ H) in Hk as (x & j & Hx & Hj & <-). by simplify_eq.
    - intros [Hk Hne]. split; [|done]. intros <-. apply Hne. pose proof (claim_owner r id e i H He Hi). congruence. }
  destruct (se_input e) as [i|] eqn:Hi; cbn [snd].
  - split_and!; [|exact Ha|intros key k; cbn; by apply Hin].
    pose proof (change_ok r id e (se_set_input None e) H He (same_place_refl e) (delete (ic_key i) (rt_inputs r))) as HC.
    unfold bytes_in in HC. cbn [se_session se_set_input] in HC. replace (rt_stateBytes r - _ + _) with (rt_stateBytes r) in HC by lia. apply HC.
    intros key k. rewrite Hin by done. rewrite (ix_inputs _ H). split.
    + intros ((x & j & Hx & Hj) & Hne). exists x, j. by rewrite lookup_insert_ne.
    + intros (x & j & [[<- <-]|[Hne Hx]]%lookup_insert_Some & Hj); [by destruct Hj|]. split; [by exists x, j|done].
  - split_and!; [done| |].
    + rewrite <- Ha. apply map_eq. intros k. destruct (decide (k = id)) as [->|]; [|by rewrite lookup_insert_ne].
      rewrite lookup_insert_eq, He. destruct e; cbn in *; by subst.
    + intros key k. split; [|tauto]. intros Hk. split; [done|]. intros ->. apply (ix_inputs _ H) in Hk as (x & j & Hx & Hj & _). congruence.
Qed.

Lemma clear_fields r id : let r' := (clearInputLocked id r).2 in
  rt_closed r' = rt_closed r /\ rt_byScope r' = rt_byScope r /\ rt_actorCounts r' = rt_actorCounts r /\ rt_expiries r' = rt_expiries r /\
  rt_stateBytes r' = rt_stateBytes r /\ rt_rows r' = rt_rows r /\ rt_ctxs r' = rt_ctxs r /\ rt_cancelled r' = rt_cancelled r /\
  rt_items r' = rt_items r /\ rt_durable r' = rt_durable r /\ rt_preserve r' = rt_preserve r.
Proof.
  unfold clearInputLocked. destruct (rt_sessions r !! id) as [e|]; [|done]. destruct (se_input e); [|done]. cbn. by case_bool_decide.
Qed.

(** A claim is installed for a key nobody holds. *)
Lemma claim_ok r id e e' i : index_ok r -> rt_sessions r !! id = Some e -> same_place e e' -> se_input e = None -> se_input e' = Some i ->
  rt_inputs r !! ic_key i = None ->
  index_ok (set_inputs (<[ic_key i := id]> (rt_inputs r)) (set_index (rt_byScope r) (rt_actorCounts r) (rt_stateBytes r - bytes_in e + bytes_in e') (put_entry id e' r))).
Proof.
  intros H He Hs Hn Hi Hfree. apply change_ok; [done..|]. intros key k. rewrite lookup_insert_Some, (ix_inputs _ H). split.
  - intros [[<- <-]|[Hne (x & j & Hx & Hj & Hk)]]; [exists e', i; by rewrite lookup_insert_eq|].
    exists x, j. rewrite lookup_insert_ne; [done|]. intros <-. congruence.
  - intros (x & j & [[<- <-]|[Hne Hx]]%lookup_insert_Some & Hj & <-); [left; split; congruence|]. right.
    assert (Hk : rt_inputs r !! ic_key j = Some k) by (by eapply claim_owner). split; [congruence|]. by exists x, j.
Qed.

(** ** A session goes, a session comes *)

Lemma remove_index r r' id e cause : index_ok r -> rt_sessions r !! id = Some e -> se_input e = None ->
  let x := unindex id (se_session e) r in
  rt_closed r' = rt_closed r -> rt_sessions r' = delete id (rt_sessions r) -> rt_byScope r' = rt_byScope x -> rt_actorCounts r' = rt_actorCounts x ->
  rt_stateBytes r' = rt_stateBytes x -> rt_inputs r' = rt_inputs r -> rt_ctxs r' = rt_ctxs r -> rt_cancelled r' = <[se_ctx e := cause]> (rt_cancelled r) ->
  index_ok r'.
Proof.
  intros H He Hi x E1 E2 E3 E4 E5 E6 E7 E8. pose proof H as [I1 I2 I3 I4 I5 I6 I7 I8 I9 I10 I11]. pose proof (I1 id e He) as Hid.
  assert (Hgone : forall k y, delete id (rt_sessions r) !! k = Some y <-> rt_sessions r !! k = Some y /\ k <> id).
  { intros k y. rewrite lookup_delete_Some. naive_solver. }
  split; rewrite ?E1, ?E2, ?E3, ?E4, ?E5, ?E6, ?E7, ?E8; cbn.
  - intros k y [Hk _]%Hgone. by apply I1.
  - intros sc ids. case_bool_decide as Hem.
    + intros [_ Hs]%lookup_delete_Some. by eapply I2.
    + intros [[<- <-]|[_ Hs]]%lookup_insert_Some; [done|by eapply I2].
  - intros sc k. unfold ids_of. rewrite E3. cbn.
    assert (Hnew : forall z, z ∈ default ∅ ((if bool_decide (default ∅ (rt_byScope r !! ss_Scope (se_session e)) ∖ {[id]} = ∅)
        then delete (ss_Scope (se_session e)) (rt_byScope r)
        else <[ss_Scope (se_session e) := default ∅ (rt_byScope r !! ss_Scope (se_session e)) ∖ {[id]}]> (rt_byScope r)) !! sc) <->
      z ∈ ids_of sc r /\ (sc = scope_of e -> z <> id)).
    { intros z. unfold ids_of, scope_of. case_bool_decide as Hem; destruct (decide (sc = ss_Scope (se_session e))) as [->|Hne].
      - rewrite lookup_delete_eq. cbn. set_solver.
      - rewrite lookup_delete_ne by done. tauto.
      - rewrite lookup_insert_eq. cbn. set_solver.
      - rewrite lookup_insert_ne by done. tauto. }
    rewrite Hnew, I3. split.
    + intros [(y & Hy & Hsc) Hk]. exists y. split; [|done]. apply Hgone. split; [done|]. intros ->. apply Hk; [|done]. congruence.
    + intros (y & [Hy Hk]%Hgone & Hsc). split; [by exists y|done].
  - intros a. unfold actor_count. pose proof (msum_delete (fun e => if actor_of e =? a then 1 else 0) _ _ _ He) as Hm. cbn in Hm.
    fold (actor_count a (rt_sessions r)) in Hm. pose proof (actor_count_nonneg a (delete id (rt_sessions r))) as Hnn. fold (actor_count a (delete id (rt_sessions r))) in *.
    fold (actor_of e). destruct (Z.eqb_spec (actor_of e) 0) as [Ha0|Ha0].
    + rewrite I4. unfold counted. destruct (Z.eqb_spec a 0); [done|]. rewrite (proj2 (Z.eqb_neq _ a)) in Hm by congruence. by rewrite Hm, Z.add_0_l.
    + rewrite (zget_counted r (actor_of e) H Ha0). destruct (decide (a = actor_of e)) as [->|Hne].
      * rewrite Z.eqb_refl in Hm. destruct (Z.leb_spec (actor_count (actor_of e) (rt_sessions r)) 1).
        -- rewrite lookup_delete_eq. unfold counted. replace (actor_count _ (delete id _)) with 0 by lia. by rewrite orb_true_r.
        -- rewrite lookup_insert_eq. unfold counted. rewrite (proj2 (Z.eqb_neq (actor_of e) 0)), (proj2 (Z.eqb_neq (actor_count (actor_of e) (delete id (rt_sessions r))) 0)) by lia.
           cbn. f_equal. lia.
      * rewrite (proj2 (Z.eqb_neq (actor_of e) a)) in Hm by congruence.
        destruct (_ <=? 1); [rewrite lookup_delete_ne by done|rewrite lookup_insert_ne by done]; rewrite I4; by rewrite Hm, Z.add_0_l.
  - rewrite I5, (msum_delete _ _ _ _ He). unfold bytes_in at 1. lia.
  - intros key k. rewrite I6. split; intros (y & i & Hy & Hj & Hk).
    + exists y, i. split_and!; try done. apply Hgone. split; [done|]. intros ->. congruence.
    + apply Hgone in Hy as [Hy _]. by exists y, i.
  - intros k y [Hk _]%Hgone. by eapply I7.
  - intros k k' y y' [Hy _]%Hgone [Hy' _]%Hgone. by apply I8.
  - intros c Hc. destruct (decide (c = se_ctx e)) as [->|Hne].
    + rewrite lookup_insert_eq. split; [done|]. intros (k & y & [Hy Hk]%Hgone & Hx). destruct Hk. by eapply I8.
    + rewrite lookup_insert_ne by done. rewrite I9 by done. split; intros (k & y & Hy & Hx).
      * exists k, y. split; [|done]. apply Hgone. split; [done|]. intros ->. congruence.
      * apply Hgone in Hy as [Hy _]. by exists k, y.
  - intros c y [[<- _]|[_ Hc]]%lookup_insert_Some; [by eapply I7|by eapply I10].
  - intros Hc. by rewrite (I11 Hc), lookup_empty in He.
Qed.

Lemma insert_index r r' id e inputs : index_ok r -> rt_sessions r !! id = None -> ss_ID (se_session e) = id -> rt_closed r = false -> se_ctx e = rt_ctxs r ->
  let x := indexSessionLocked (se_session e) r in
  rt_closed r' = rt_closed r -> rt_sessions r' = <[id := e]> (rt_sessions r) -> rt_byScope r' = rt_byScope x -> rt_actorCounts r' = rt_actorCounts x ->
  rt_stateBytes r' = rt_stateBytes x -> rt_inputs r' = inputs -> rt_ctxs r' = S (rt_ctxs r) -> rt_cancelled r' = rt_cancelled r ->
  match se_input e with Some i => rt_inputs r !! ic_key i = None /\ inputs = <[ic_key i := id]> (rt_inputs r) | None => inputs = rt_inputs r end ->
  index_ok r'.
Proof.
  intros H Hf Hid Hc He x E1 E2 E3 E4 E5 E6 E7 E8 Hin. pose proof H as [I1 I2 I3 I4 I5 I6 I7 I8 I9 I10 I11].
  assert (Hne : forall k y, rt_sessions r !! k = Some y -> k <> id) by (intros k y Hy ->; congruence).
  assert (Hfresh : forall k y, rt_sessions r !! k = Some y -> se_ctx y <> rt_ctxs r) by (intros k y Hy E; specialize (I7 k y Hy); lia).
  split; rewrite ?E1, ?E2, ?E3, ?E4, ?E5, ?E6, ?E7, ?E8; cbn.
  - intros k y [[<- <-]|[_ Hy]]%lookup_insert_Some; [done|by apply I1].
  - intros sc ids [[<- <-]|[_ Hs]]%lookup_insert_Some; [set_solver|by eapply I2].
  - intros sc k. unfold ids_of. rewrite E3. cbn. fold (scope_of e). rewrite Hid.
    assert (Hnew : k ∈ default ∅ (<[scope_of e := {[id]} ∪ default ∅ (rt_byScope r !! scope_of e)]> (rt_byScope r) !! sc) <->
      k ∈ ids_of sc r \/ k = id /\ sc = scope_of e).
    { unfold ids_of. destruct (decide (sc = scope_of e)) as [->|]; [rewrite lookup_insert_eq; cbn; set_solver|rewrite lookup_insert_ne by done; naive_solver]. }
    rewrite Hnew, I3. split.
    + intros [(y & Hy & Hsc)|[-> ->]]; [exists y; rewrite lookup_insert_ne by (by apply not_eq_sym, (Hne k y)); done|exists e; by rewrite lookup_insert_eq].
    + intros (y & [[<- <-]|[_ Hy]]%lookup_insert_Some & Hsc); [by right|left; by exists y].
  - intros a. unfold actor_count. rewrite msum_insert_fresh by done. fold (actor_count a (rt_sessions r)). fold (actor_of e).
    pose proof (actor_count_nonneg a (rt_sessions r)). destruct (Z.eqb_spec (actor_of e) 0) as [Ha0|Ha0].
    + rewrite I4. unfold counted. destruct (Z.eqb_spec a 0); [done|]. rewrite (proj2 (Z.eqb_neq (actor_of e) a)) by congruence. by rewrite Z.add_0_l.
    + rewrite (zget_counted r (actor_of e) H Ha0). destruct (decide (a = actor_of e)) as [->|Hna].
      * rewrite lookup_insert_eq, Z.eqb_refl. unfold counted. rewrite (proj2 (Z.eqb_neq (actor_of e) 0)) by done.
        rewrite (proj2 (Z.eqb_neq (1 + _) 0)) by lia. cbn. f_equal. lia.
      * rewrite lookup_insert_ne by done. rewrite I4, (proj2 (Z.eqb_neq (actor_of e) a)) by congruence. by rewrite Z.add_0_l.
  - rewrite I5, msum_insert_fresh by done. unfold bytes_in at 2. lia.
  - intros key k. destruct (se_input e) as [i|] eqn:Ei.
    + destruct Hin as [Hfree ->]. rewrite lookup_insert_Some, I6. split.
      * intros [[<- <-]|[Hk (y & j & Hy & Hj)]]; [exists e, i; by rewrite lookup_insert_eq|]. exists y, j. rewrite lookup_insert_ne; [done|by apply not_eq_sym, (Hne k y)].
      * intros (y & j & [[<- <-]|[Hk Hy]]%lookup_insert_Some & Hj & <-); [left; split; congruence|]. right.
        assert (Ho : rt_inputs r !! ic_key j = Some k) by (apply I6; by exists y, j). split; [congruence|by exists y, j].
    + subst inputs. rewrite Hin, I6. split.
      * intros (y & j & Hy & Hj). exists y, j. rewrite lookup_insert_ne; [done|by apply not_eq_sym, (Hne k y)].
      * intros (y & j & [[<- <-]|[Hk Hy]]%lookup_insert_Some & Hj & Hkey); [congruence|by exists y, j].
  - intros k y [[<- <-]|[_ Hy]]%lookup_insert_Some; [lia|]. specialize (I7 k y Hy). lia.
  - intros k k' y y' [[<- <-]|[? Hy]]%lookup_insert_Some [[<- <-]|[? Hy']]%lookup_insert_Some; intros E; try done.
    + exfalso. eapply Hfresh; [exact Hy'|]. congruence.
    + exfalso. eapply Hfresh; [exact Hy|]. congruence.
    + by eapply I8.
  - intros c Hlt. destruct (decide (c = rt_ctxs r)) as [->|].
    + split; [|intros _; destruct (rt_cancelled r !! rt_ctxs r) eqn:Ex; [apply I10 in Ex; lia|done]].
      intros _. exists id, e. by rewrite lookup_insert_eq.
    + rewrite I9 by lia. split; intros (k & y & Hy & Hx).
      * exists k, y. rewrite lookup_insert_ne; [done|by apply not_eq_sym, (Hne k y)].
      * apply lookup_insert_Some in Hy as [[<- <-]|[_ Hy]]; [congruence|by exists k, y].
  - intros c y Hy%I10. lia.
  - congruence.
Qed.

(** A context that is made and cancelled at once. *)
Lemma stillborn_ctx r cause : index_ok r -> index_ok (cancel_ctx (rt_ctxs r) cause (set_ctxs (S (rt_ctxs r)) (rt_cancelled r) r)).
Proof.
  intros [I1 I2 I3 I4 I5 I6 I7 I8 I9 I10 I11]. unfold cancel_ctx. cbn.
  assert (Hn : rt_cancelled r !! rt_ctxs r = None) by (destruct (rt_cancelled r !! rt_ctxs r) eqn:Ex; [apply I10 in Ex; lia|done]).
  rewrite Hn. split; cbn; try done.
  - intros k y Hy. specialize (I7 k y Hy). lia.
  - intros c Hc. destruct (decide (c = rt_ctxs r)) as [->|].
    + rewrite lookup_insert_eq. split; [done|]. intros (k & y & Hy & Hx). specialize (I7 k y Hy). lia.
    + rewrite lookup_insert_ne by done. apply I9. lia.
  - intros c y [[<- _]|[_ Hc]]%lookup_insert_Some; [lia|apply I10 in Hc; lia].
Qed.

(** ** The expiry heap *)

Lemma expiry_less_asym a b : expiry_less a b = true -> expiry_less b a = false.
Proof. unfold expiry_less, before. rewrite Z.ltb_lt, Z.ltb_ge. lia. Qed.
Lemma expiry_less_negtrans a b c : expiry_less a b = false -> expiry_less b c = false -> expiry_less a c = false.
Proof. unfold expiry_less, before. rewrite !Z.ltb_ge. lia. Qed.

Definition items (r : Runtime) : list expiryItem := hs (rt_expiries r).
Definition item_of (id : bytes) (p : nat) (e : sessionEntry) : expiryItem := mkItem p id (ss_ExpiresAt (se_session e)).

(** Every session has its item in the heap, under its address and with its deadline, and
    the heap has no other; [out] are the items [pruneExpiredLocked] holds in its hands. *)
Record heap_ok (out : list expiryItem) (r : Runtime) : Prop := {
  hk_inv : heap_inv expiry_less ei_ptr (rt_expiries r);
  hk_nodup : NoDup (map ei_ptr (out ++ items r));
  hk_entry : forall id e, rt_sessions r !! id = Some e -> exists p, se_expiry e = Some p /\ item_of id p e ∈ out ++ items r;
  hk_item : forall it, it ∈ out ++ items r -> (ei_ptr it < rt_items r)%nat /\ exists e, rt_sessions r !! ei_id it = Some e /\ se_expiry e = Some (ei_ptr it)
}.

Lemma item_unique out r a b : heap_ok out r -> a ∈ out ++ items r -> b ∈ out ++ items r -> ei_ptr a = ei_ptr b -> a = b.
Proof.
  intros H [i Hi]%list_elem_of_lookup [j Hj]%list_elem_of_lookup E. assert (i = j) as ->; [|congruence].
  apply (NoDup_lookup (ei_ptr <$> out ++ items r) i j (ei_ptr b)); [apply H|rewrite list_lookup_fmap, Hi; cbn; by rewrite E|by rewrite list_lookup_fmap, Hj].
Qed.

(** The item of an entry is the one under its address. *)
Lemma item_known out r it e : heap_ok out r -> it ∈ out ++ items r -> rt_sessions r !! ei_id it = Some e -> it = item_of (ei_id it) (ei_ptr it) e.
Proof.
  intros H Hit He. destruct (hk_entry _ _ H _ _ He) as (p & Hp & Hin). destruct (hk_item _ _ H it Hit) as (_ & e' & He' & Hp').
  rewrite He in He'. injection He' as <-. assert (p = ei_ptr it) as -> by congruence. by apply (item_unique out r it _ H Hit Hin).
Qed.

Lemma heap_ok_perm out out' r : out ≡ₚ out' -> heap_ok out r -> heap_ok out' r.
Proof.
  intros Hp [K1 K2 K3 K4]. split; [done|by rewrite <- Hp| |].
  - intros id e He. destruct (K3 id e He) as (p & ? & Hin). exists p. by rewrite <- Hp.
  - intros it. rewrite <- Hp. apply K4.
Qed.

(** An entry changes, but neither its item nor its deadline. *)
Lemma heap_change out r r' id e e' : heap_ok out r -> rt_sessions r !! id = Some e -> rt_sessions r' = <[id := e']> (rt_sessions r) ->
  rt_expiries r' = rt_expiries r -> rt_items r' = rt_items r -> se_expiry e' = se_expiry e -> ss_ExpiresAt (se_session e') = ss_ExpiresAt (se_session e) ->
  heap_ok out r'.
Proof.
  intros [K1 K2 K3 K4] He Es Eh Ei Ep Et. unfold items in *. split; unfold items; rewrite ?Eh, ?Es, ?Ei; try done.
  - intros k x [[<- <-]|[_ Hx]]%lookup_insert_Some; [|by apply K3]. destruct (K3 id e He) as (p & Hp & Hin). exists p. split; [congruence|].
    unfold item_of in *. by rewrite Et.
  - intros it Hit. destruct (K4 it Hit) as (Hlt & x & Hx & Hp). split; [done|]. destruct (decide (ei_id it = id)) as [E|].
    + exists e'. rewrite E, lookup_insert_eq. split; [done|]. rewrite E in Hx. congruence.
    + exists x. by rewrite lookup_insert_ne.
Qed.

Lemma heap_pop out r item : heap_ok out r -> items r !! 0%nat = Some item ->
  let h := (heap_Pop expiry_less ei_ptr (rt_expiries r)).2 in
  heap_ok (item :: out) (set_expiries h (rt_items r) r) /\ ptr_index (ei_ptr item) h = -1 /\ length (hs h) = pred (length (items r)) /\
  (forall it, it ∈ items r -> ei_expiresAt item <= ei_expiresAt it) /\ items r ≡ₚ item :: hs h.
Proof.
  intros [K1 K2 K3 K4] Hi. destruct (heap_Pop_spec expiry_less ei_ptr expiry_less_asym expiry_less_negtrans _ _ K1 Hi) as (h' & -> & Hinv & Hp & Hmin & Hx).
  cbn. assert (Hall : out ++ items r ≡ₚ (item :: out) ++ hs h') by (unfold items; rewrite Hp; symmetry; apply Permutation_middle).
  split_and!.
  - split; [done|..]; unfold items at 1; cbn [rt_expiries set_expiries].
    + by rewrite <- Hall.
    + intros id e He. destruct (K3 id e He) as (p & ? & Hin). exists p. split; [done|]. by rewrite <- Hall.
    + intros it. rewrite <- Hall. apply K4.
  - unfold ptr_index, zget. by rewrite Hx.
  - unfold items. rewrite Hp. done.
  - intros it Hit%Hmin. unfold expiry_less, before in Hit. bool_to_prop. lia.
  - exact Hp.
Qed.

(** The item of an entry that goes: either in the heap, or in the hands of the prune. *)
Lemma heap_remove out out' r r' id e it : heap_ok out r -> rt_sessions r !! id = Some e -> se_expiry e = Some (ei_ptr it) ->
  it ∈ out ++ items r -> (out' = out /\ it ∈ items r \/ out = it :: out' /\ ptr_index (ei_ptr it) (rt_expiries r) = -1) ->
  rt_sessions r' = delete id (rt_sessions r) -> rt_expiries r' = rt_expiries (drop_expiry (se_expiry e) r) -> rt_items r' = rt_items r ->
  heap_ok out' r'.
Proof.
  intros H He Hp Hit Hcase Es Eh Ei. pose proof H as [K1 K2 K3 K4].
  assert (Hh : heap_inv expiry_less ei_ptr (rt_expiries r') /\ out ++ items r ≡ₚ it :: out' ++ items r').
  { rewrite Eh. unfold items. rewrite Eh. unfold drop_expiry. rewrite Hp. destruct Hcase as [[-> Hin]|[-> Hx]].
    - apply list_elem_of_lookup in Hin as [i Hi]. pose proof (proj2 K1 i it Hi) as Hidx. unfold ptr_index, zget. rewrite Hidx. cbn.
      rewrite (proj2 (Z.leb_le 0 (Z.of_nat i))), Nat2Z.id by lia. cbn.
      destruct (heap_Remove_spec expiry_less ei_ptr expiry_less_asym expiry_less_negtrans _ _ _ K1 Hi) as (h' & -> & Hinv & Hperm).
      split; [done|]. cbn. rewrite Hperm. symmetry. apply Permutation_middle.
    - rewrite Hx. done. }
  destruct Hh as [Hinv Hperm]. rewrite Hperm in K2. cbn in K2. apply NoDup_cons in K2 as [Hn K2].
  assert (Hown : forall k x, rt_sessions r !! k = Some x -> k <> id -> se_expiry x <> Some (ei_ptr it)).
  { intros k x Hx Hne Epx. destruct (K3 k x Hx) as (p & Hp' & Hin). assert (p = ei_ptr it) as -> by congruence.
    pose proof (item_unique _ _ _ _ H Hin Hit eq_refl) as Eit. destruct (K4 it Hit) as (_ & y & Hy & Hpy). rewrite <- Eit in Hy. cbn in Hy.
    destruct (K3 id e He) as (p & Hp2 & Hin2). assert (p = ei_ptr it) as -> by congruence.
    pose proof (item_unique _ _ _ _ H Hin2 Hit eq_refl) as Eit2. rewrite <- Eit in Eit2. by injection Eit2. }
  split; rewrite ?Es, ?Ei; try done.
  - intros k x [Hne Hx]%lookup_delete_Some. destruct (K3 k x Hx) as (p & Hp' & Hin). exists p. split; [done|]. rewrite Hperm in Hin.
    apply elem_of_cons in Hin as [E|Hin]; [|done]. destruct (Hown k x Hx (not_eq_sym Hne)). rewrite <- E. exact Hp'.
  - intros x Hx. destruct (K4 x) as (Hlt & y & Hy & Hpy); [rewrite Hperm; by right|]. split; [done|]. exists y. split; [|done].
    apply lookup_delete_Some. split; [|done]. intros E. rewrite <- E, He in Hy. injection Hy as <-. rewrite Hp in Hpy. injection Hpy as Hpy.
    apply Hn. rewrite Hpy. by apply list_elem_of_fmap_2.
Qed.

Lemma heap_push r it : heap_inv expiry_less ei_ptr (rt_expiries r) -> (forall y, y ∈ items r -> ei_ptr y <> ei_ptr it) ->
  let h := heap_Push expiry_less ei_ptr it (rt_expiries r) in heap_inv expiry_less ei_ptr h /\ hs h ≡ₚ it :: items r.
Proof. apply (heap_Push_spec expiry_less ei_ptr expiry_less_asym expiry_less_negtrans). Qed.

(** What the prune failed to remove goes back. *)
Lemma push_back_ok out it r : heap_ok (it :: out) r -> heap_ok out (push_back it r) /\ rt_sessions (push_back it r) = rt_sessions r.
Proof.
  intros H. pose proof H as [K1 K2 K3 K4]. destruct (K4 it ltac:(left)) as (Hlt & e & He & Hp). unfold push_back. rewrite He, bool_decide_true by done.
  split; [|done]. cbn in K2. apply NoDup_cons in K2 as [Hn K2].
  destruct (heap_push r it K1) as [Hinv Hperm].
  { intros y Hy E. apply Hn. rewrite <- E. apply list_elem_of_fmap_2. apply elem_of_app. by right. }
  assert (Hall : (it :: out) ++ items r ≡ₚ out ++ hs (heap_Push expiry_less ei_ptr it (rt_expiries r))) by (rewrite Hperm; apply Permutation_middle).
  split; [done|..]; unfold items at 1; cbn [rt_expiries set_expiries].
  - rewrite <- Hall. cbn. by apply NoDup_cons.
  - intros k x Hx. destruct (K3 k x Hx) as (p & Hp' & Hin). exists p. split; [done|]. by rewrite <- Hall.
  - intros y. rewrite <- Hall. apply K4.
Qed.

(** A new session with its first item. *)
Lemma heap_new r r1 id e : heap_ok [] r -> rt_sessions r !! id = None -> ss_ID (se_session e) = id -> se_expiry e = None ->
  rt_sessions r1 = <[id := e]> (rt_sessions r) -> rt_expiries r1 = rt_expiries r -> rt_items r1 = rt_items r ->
  heap_ok [] (scheduleExpiryLocked id (ss_ExpiresAt (se_session e)) r1).
Proof.
  intros H Hf Hid Hp Es Eh Ei. pose proof H as [K1 K2 K3 K4]. unfold scheduleExpiryLocked. rewrite Es, lookup_insert_eq, Hp, Hid.
  destruct (heap_push r1 (mkItem (rt_items r1) id (ss_ExpiresAt (se_session e)))) as [Hinv Hperm]; [by rewrite Eh| |].
  { intros y Hy E. cbn in E. unfold items in Hy. rewrite Eh in Hy. destruct (K4 y Hy) as [Hlt _]. lia. }
  assert (Hperm' : items (put_entry id (se_set_expiry (Some (rt_items r1)) e)
      (set_expiries (heap_Push expiry_less ei_ptr (mkItem (rt_items r1) id (ss_ExpiresAt (se_session e))) (rt_expiries r1)) (S (rt_items r1)) r1))
    ≡ₚ mkItem (rt_items r1) id (ss_ExpiresAt (se_session e)) :: items r) by (unfold items in *; cbn [put_entry set_sessions set_expiries rt_expiries]; by rewrite Hperm, Eh).
  split; [done|..]; cbn [app].
  - rewrite Hperm'. cbn. apply NoDup_cons. split; [|exact K2]. intros (y & E & Hy)%list_elem_of_fmap. destruct (K4 y Hy) as [Hlt _]. lia.
  - cbn. rewrite Es, insert_insert_eq. intros k x [[<- <-]|[Hne Hx]]%lookup_insert_Some.
    + exists (rt_items r1). split; [done|]. rewrite Hperm'. left.
    + destruct (K3 k x Hx) as (p & Hp' & Hin). exists p. split; [done|]. rewrite Hperm'. by right.
  - intros y. rewrite Hperm'. cbn [put_entry set_sessions set_expiries rt_items rt_sessions]. rewrite Es, insert_insert_eq. intros [->|Hy]%elem_of_cons.
    + cbn. split; [lia|]. rewrite lookup_insert_eq. by eexists.
    + destruct (K4 y Hy) as (Hlt & x & Hx & Hpx). split; [lia|]. exists x. rewrite lookup_insert_ne; [done|]. intros E. congruence.
Qed.

Lemma map_deadline_insert p t l i it : NoDup (map ei_ptr l) -> l !! i = Some it -> ei_ptr it = p -> map (set_deadline p t) l = <[i := mkItem p (ei_id it) t]> l.
Proof.
  intros Hnd Hi Hp. apply list_eq. intros j. change (map (set_deadline p t) l) with (set_deadline p t <$> l). rewrite list_lookup_fmap.
  destruct (decide (j = i)) as [->|Hne].
  - rewrite Hi. rewrite list_lookup_insert_eq by (by eapply lookup_lt_Some). cbn. unfold set_deadline. by rewrite Hp, Nat.eqb_refl.
  - rewrite list_lookup_insert_ne by done. destruct (l !! j) as [y|] eqn:Hj; [|done]. cbn. unfold set_deadline.
    destruct (Nat.eqb_spec (ei_ptr y) p) as [E|]; [|done]. destruct Hne. apply (NoDup_lookup (ei_ptr <$> l) j i p); [done|rewrite list_lookup_fmap, Hj; cbn; congruence|rewrite list_lookup_fmap, Hi; cbn; congruence].
Qed.

(** An entry gets a new deadline, and its item with it. *)
Lemma heap_reschedule r r1 id e e' : heap_ok [] r -> rt_sessions r !! id = Some e -> se_expiry e' = se_expiry e ->
  rt_sessions r1 = <[id := e']> (rt_sessions r) -> rt_expiries r1 = rt_expiries r -> rt_items r1 = rt_items r ->
  heap_ok [] (scheduleExpiryLocked id (ss_ExpiresAt (se_session e')) r1).
Proof.
  intros H He Hp Es Eh Ei. pose proof H as [K1 K2 K3 K4]. destruct (K3 id e He) as (p & Hp' & Hin).
  unfold scheduleExpiryLocked. rewrite Es, lookup_insert_eq, Hp, Hp', Eh, Ei. cbn [app] in *.
  apply list_elem_of_lookup in Hin as [i Hi]. pose proof (proj2 K1 i _ Hi) as Hidx. cbn in Hidx.
  unfold ptr_index, zget. rewrite Hidx. change (default 0 (Some (Z.of_nat i))) with (Z.of_nat i). rewrite Nat2Z.id.
  set (t := ss_ExpiresAt (se_session e')). unfold items in *. rewrite (map_deadline_insert p t (hs (rt_expiries r)) i (item_of id p e) K2 Hi eq_refl).
  destruct (heap_Fix_spec expiry_less ei_ptr expiry_less_asym expiry_less_negtrans (rt_expiries r) i (mkItem p id t) K1) as [Hinv Hperm];
    [by eapply lookup_lt_Some|done|].
  cbn [ei_id item_of]. set (h := heap_Fix _ _ _ _) in *.
  assert (Hold : hs (rt_expiries r) ≡ₚ item_of id p e :: delete i (hs (rt_expiries r))) by (by apply delete_Permutation).
  assert (Hnew : hs h ≡ₚ mkItem p id t :: delete i (hs (rt_expiries r))).
  { rewrite Hperm. rewrite insert_take_drop by (by eapply lookup_lt_Some). rewrite delete_take_drop. symmetry. apply Permutation_middle. }
  split; [done|..]; unfold items; cbn [rt_expiries set_expiries rt_sessions rt_items app].
  - rewrite Hnew. rewrite Hold in K2. exact K2.
  - rewrite Es. intros k x [[<- <-]|[Hne Hx]]%lookup_insert_Some.
    + exists p. split; [congruence|]. rewrite Hnew. left.
    + destruct (K3 k x Hx) as (q & Hq & Hin). exists q. split; [done|]. rewrite Hold in Hin. rewrite Hnew. apply elem_of_cons in Hin as [E|Hin]; [|by right].
      injection E as _ E _. by destruct Hne.
  - intros y. rewrite Hnew, Es. intros [->|Hy]%elem_of_cons.
    + cbn. destruct (K4 (item_of id p e)) as [Hlt _]; [rewrite Hold; left|]. split; [exact Hlt|]. exists e'. rewrite lookup_insert_eq. split; [done|congruence].
    + destruct (K4 y) as (Hlt & x & Hx & Hpx); [rewrite Hold; by right|]. split; [done|]. exists x. rewrite lookup_insert_ne; [done|].
      intros E. rewrite <- E, He in Hx. injection Hx as <-. rewrite Hp' in Hpx. injection Hpx as Hpx.
      rewrite Hold in K2. cbn in K2. apply NoDup_cons in K2 as [Hn _]. apply Hn. rewrite Hpx. by apply list_elem_of_fmap_2.
Qed.
