(* ===== verification/InteractionSteps.v ===== *)
(** * Interaction sessions: the sections keep the invariant

    Every section of InteractionOps.v keeps what InteractionInvariant.v states, with the
    limits of the configuration, whatever the clock, the catalog and the store answer. *)

From S2P Require Import Prelude.
From S2P Require Import Tasks.
From S2P Require Import GoHeap.
From S2P Require Import CallbackToken.
From S2P Require Import InteractionState.
From S2P Require Import InteractionOps.
From S2P Require Import InteractionInvariant.

Section Limits.
Context (config : Config).

(** The limits of the configuration. *)
Record limits_ok (r : Runtime) : Prop := {
  lm_sessions : Z.of_nat (size (rt_sessions r)) <= cf_MaxSessions config;
  lm_scope : forall sc, Z.of_nat (size (ids_of sc r)) <= cf_MaxSessionsPerScope config;
  lm_actor : forall a, a <> 0 -> actor_count a (rt_sessions r) <= cf_MaxSessionsPerActor config;
  lm_total : msum bytes_in (rt_sessions r) <= cf_MaxTotalStateBytes config;
  lm_state : forall id e, rt_sessions r !! id = Some e -> bytes_in e <= cf_MaxStateBytes config
}.

Record core_ok (out : list expiryItem) (r : Runtime) : Prop := {
  co_index : index_ok r;
  co_heap : heap_ok out r;
  co_limits : limits_ok r
}.

(** What no section but the lifecycle's touches. *)
Definition same_life (r r' : Runtime) : Prop :=
  rt_closed r' = rt_closed r /\ rt_durable r' = rt_durable r /\ rt_preserve r' = rt_preserve r.
Definition same_ctxs (r r' : Runtime) : Prop := rt_ctxs r' = rt_ctxs r /\ rt_cancelled r ⊆ rt_cancelled r'.

(** ** Removal *)

Lemma limits_delete r r' id : index_ok r -> index_ok r' -> rt_sessions r' = delete id (rt_sessions r) -> limits_ok r -> limits_ok r'.
Proof.
  intros H H' Es [L1 L2 L3 L4 L5]. split; rewrite ?Es.
  - destruct (rt_sessions r !! id) as [e|] eqn:He; [rewrite map_size_delete_Some by (by exists e); lia|by rewrite delete_id].
  - intros sc. etrans; [|apply (L2 sc)]. apply inj_le, subseteq_size. intros k Hk. apply (ix_scope _ H') in Hk as (x & Hx & Hs).
    rewrite Es in Hx. apply lookup_delete_Some in Hx as [_ Hx]. apply (ix_scope _ H). by exists x.
  - intros a Ha. destruct (rt_sessions r !! id) as [e|] eqn:He; [|rewrite delete_id by done; by apply L3].
    specialize (L3 a Ha). unfold actor_count in *. rewrite (msum_delete _ _ _ _ He) in L3. destruct (actor_of e =? a); lia.
  - destruct (rt_sessions r !! id) as [e|] eqn:He; [|by rewrite delete_id]. rewrite (msum_delete _ _ _ _ He) in L4. unfold bytes_in at 1, blen in L4. lia.
  - intros k x [_ Hx]%lookup_delete_Some. by eapply L5.
Qed.

(** The context of a session is not cancelled. *)
Lemma live_ctx r id e : index_ok r -> rt_sessions r !! id = Some e -> rt_cancelled r !! se_ctx e = None.
Proof. intros H He. apply (ix_live _ H); [by eapply ix_ctx|]. by exists id, e. Qed.

(** The row of a session goes with it. *)
Definition rows_after (e : sessionEntry) (id : bytes) (r : Runtime) : gmap bytes DurableSession :=
  if stored e r then delete id (rt_rows r) else rt_rows r.

Lemma drop_expiry_fields p r : let r' := drop_expiry p r in
  rt_closed r' = rt_closed r /\ rt_sessions r' = rt_sessions r /\ rt_byScope r' = rt_byScope r /\ rt_actorCounts r' = rt_actorCounts r /\
  rt_inputs r' = rt_inputs r /\ rt_stateBytes r' = rt_stateBytes r /\ rt_rows r' = rt_rows r /\ rt_ctxs r' = rt_ctxs r /\
  rt_cancelled r' = rt_cancelled r /\ rt_items r' = rt_items r /\ rt_durable r' = rt_durable r /\ rt_preserve r' = rt_preserve r.
Proof. unfold drop_expiry. destruct p as [p|]; [|done]. by destruct (0 <=? _). Qed.

Lemma count_cause_set cause r : exists c, count_cause cause r = set_counters c r.
Proof. unfold count_cause, ct_add. destruct cause; by eexists. Qed.

Lemma remove_spec r id e cause del_ok : index_ok r -> rt_sessions r !! id = Some e -> stored e r && negb del_ok = false ->
  exists r', removeLockedContext del_ok id cause r = (true, None, r') /\ index_ok r' /\ same_life r r' /\
    rt_sessions r' = delete id (rt_sessions r) /\ rt_rows r' = rows_after e id r /\ rt_ctxs r' = rt_ctxs r /\
    rt_cancelled r' = <[se_ctx e := cause]> (rt_cancelled r) /\ rt_items r' = rt_items r /\
    rt_expiries r' = rt_expiries (drop_expiry (se_expiry e) r) /\
    (forall key k, rt_inputs r' !! key = Some k <-> rt_inputs r !! key = Some k /\ k <> id).
Proof.
  intros H He Hst. unfold removeLockedContext. rewrite He, Hst.
  set (r0 := if stored e r then _ else r).
  assert (Hr0 : index_ok r0 /\ rt_sessions r0 = rt_sessions r /\ rt_expiries r0 = rt_expiries r /\ rt_rows r0 = rows_after e id r /\ same_life r r0 /\
    rt_ctxs r0 = rt_ctxs r /\ rt_cancelled r0 = rt_cancelled r /\ rt_items r0 = rt_items r /\ rt_inputs r0 = rt_inputs r).
  { unfold r0, rows_after. destruct (stored e r); [|done]. split_and!; try done. destruct H. by split. }
  clearbody r0. destruct Hr0 as (H0 & E1 & E2 & E3 & E4 & E5 & E6 & E7 & E8).
  destruct (clear_ok r0 id H0) as (H1 & S1 & In1). pose proof (clear_fields r0 id) as F1. cbv zeta in F1.
  set (r1 := (clearInputLocked id r0).2) in *. clearbody r1. destruct F1 as (F1 & F2 & F3 & F4 & F5 & F6 & F7 & F8 & F9 & F10 & F11).
  assert (He1 : rt_sessions r1 !! id = Some (se_set_input None e)) by (rewrite S1, lookup_alter_eq, E1, He; done).
  set (r2 := drop_expiry (se_expiry e) (set_sessions (delete id (rt_sessions r1)) r1)).
  pose proof (drop_expiry_fields (se_expiry e) (set_sessions (delete id (rt_sessions r1)) r1)) as D. cbv zeta in D. fold r2 in D.
  destruct D as (D1 & D2 & D3 & D4 & D5 & D6 & D7 & D8 & D9 & D10 & D11 & D12).
  assert (D13 : rt_expiries r2 = rt_expiries (drop_expiry (se_expiry e) r)).
  { unfold r2, drop_expiry. cbn. rewrite F4, E2. destruct (se_expiry e); [|by cbn; rewrite F4, E2]. destruct (0 <=? _); cbn; by rewrite ?F4, ?E2. }
  clearbody r2. cbn in *.
  assert (Hc : rt_cancelled r2 !! se_ctx e = None).
  { rewrite D9, F8, E6. apply (ix_live _ H); [by eapply ix_ctx|]. by exists id, e. }
  set (r3 := unindex id (se_session e) r2). unfold cancel_ctx. change (rt_cancelled r3) with (rt_cancelled r2). rewrite Hc.
  destruct (count_cause_set cause (set_ctxs (rt_ctxs r3) (<[se_ctx e := cause]> (rt_cancelled r2)) r3)) as [ct ->].
  eexists. split; [done|]. cbn. split_and!.
  - apply (remove_index r1 _ id (se_set_input None e) cause H1 He1 eq_refl); cbn; unfold unindex; cbn; rewrite ?D1, ?D2, ?D3, ?D4, ?D5, ?D6, ?D8, ?D9; done.
  - destruct E4 as (E4a & E4b & E4c). split_and!; cbn; congruence.
  - rewrite D2, S1, E1. apply map_eq. intros k. destruct (decide (k = id)) as [->|Hne]; [by rewrite !lookup_delete_eq|].
    rewrite !lookup_delete_ne by done. by rewrite lookup_alter_ne.
  - congruence.
  - congruence.
  - congruence.
  - congruence.
  - done.
  - intros key k. rewrite D5, In1, E8. done.
Qed.

Lemma remove_none r id cause del_ok : rt_sessions r !! id = None -> removeLockedContext del_ok id cause r = (false, None, r).
Proof. intros He. unfold removeLockedContext. by rewrite He. Qed.

Lemma remove_fails r id e cause del_ok : rt_sessions r !! id = Some e -> stored e r && negb del_ok = true ->
  removeLockedContext del_ok id cause r = (false, Some ErrStore, count_store r).
Proof. intros He Hs. unfold removeLockedContext. by rewrite He, Hs. Qed.

Lemma counters_ok out c r : core_ok out r -> core_ok out (set_counters c r).
Proof. intros [[] [] []]. by split; split. Qed.

Lemma set_store_ok out d p rows r : core_ok out r -> core_ok out (set_store d p rows r).
Proof. intros [[] [] []]. by split; split. Qed.

(** The item of an entry, outside the prune. *)
Lemma own_item out r id e : heap_ok out r -> rt_sessions r !! id = Some e -> exists p, se_expiry e = Some p /\ item_of id p e ∈ out ++ items r.
Proof. intros H. apply (hk_entry _ _ H). Qed.

Lemma remove_ok r id cause del_ok : core_ok [] r -> core_ok [] (removeLockedContext del_ok id cause r).2.
Proof.
  intros H. pose proof H as [Hi Hh Hl]. destruct (rt_sessions r !! id) as [e|] eqn:He; [|by rewrite remove_none].
  destruct (stored e r && negb del_ok) eqn:Hs; [rewrite (remove_fails _ _ _ _ _ He Hs); by apply counters_ok|].
  destruct (remove_spec r id e cause del_ok Hi He Hs) as (r' & -> & H1 & _ & S1 & _ & _ & _ & I1 & X1 & _). cbn.
  destruct (own_item _ _ _ _ Hh He) as (p & Hp & Hin). split; [done| |exact (limits_delete r r' id Hi H1 S1 Hl)].
  eapply (heap_remove [] [] r r' id e (item_of id p e)); try done. by left.
Qed.

(** ** Removals of several sessions *)

(** Sessions go, and their rows with them; what stays, stays as it is. *)
Record removes (r r' : Runtime) : Prop := {
  rm_life : same_life r r';
  rm_ctxs : same_ctxs r r';
  rm_sub : forall id e, rt_sessions r' !! id = Some e -> rt_sessions r !! id = Some e;
  rm_rows : forall id, is_Some (rt_sessions r' !! id) -> rt_rows r' !! id = rt_rows r !! id;
  rm_less : rt_rows r' ⊆ rt_rows r;
  rm_gone : forall id e, rt_sessions r !! id = Some e -> rt_sessions r' !! id = None -> stored e r = true -> rt_rows r' !! id = None
}.

Lemma removes_refl r : removes r r.
Proof. split; try done. congruence. Qed.

Lemma removes_same r r' : same_life r r' -> same_ctxs r r' -> rt_sessions r' = rt_sessions r -> rt_rows r' = rt_rows r -> removes r r'.
Proof. intros L C Es Er. split; rewrite ?Es, ?Er; try done. intros id e H1 H2. congruence. Qed.

Lemma stored_life e r r' : same_life r r' -> stored e r' = stored e r.
Proof. intros (_ & E1 & E2). unfold stored. by rewrite E1, E2. Qed.

Lemma removes_trans r1 r2 r3 : removes r1 r2 -> removes r2 r3 -> removes r1 r3.
Proof.
  intros [L1 C1 S1 W1 M1 G1] [L2 C2 S2 W2 M2 G2]. split.
  - destruct L1 as (? & ? & ?), L2 as (? & ? & ?). split_and!; congruence.
  - destruct C1, C2. split; [congruence|by etrans].
  - intros id e H. by apply S1, S2.
  - intros id H. rewrite W2 by done. apply W1. destruct H as [e H]. exists e. by apply S2.
  - by etrans.
  - intros id e H1 H3 Hs. destruct (rt_sessions r2 !! id) as [e2|] eqn:H2.
    + assert (e2 = e) as -> by (apply S1 in H2; congruence). apply (G2 id e H2 H3). by rewrite (stored_life e r1 r2 L1).
    + specialize (G1 id e H1 H2 Hs). destruct (rt_rows r3 !! id) as [row|] eqn:E; [|done]. rewrite map_subseteq_spec in M2. apply M2 in E. congruence.
Qed.

Lemma removes_one r id cause del_ok : index_ok r -> removes r (removeLockedContext del_ok id cause r).2 /\
  (forall k e, rt_sessions (removeLockedContext del_ok id cause r).2 !! k = Some e <->
     rt_sessions r !! k = Some e /\ (k <> id \/ stored e r && negb del_ok = true)).
Proof.
  intros H. destruct (rt_sessions r !! id) as [e|] eqn:He.
  2: { rewrite remove_none by done. cbn [snd]. split; [apply removes_refl|]. intros k x. split; [|tauto]. intros Hx. split; [done|]. left. intros ->. congruence. }
  destruct (stored e r && negb del_ok) eqn:Hs.
  - rewrite (remove_fails _ _ _ _ _ He Hs). split; [split; try done; cbn; congruence|]. intros k x. cbn. split; [|tauto]. intros Hx. split; [done|].
    destruct (decide (k = id)) as [->|]; [right|by left]. by simplify_eq.
  - destruct (remove_spec r id e cause del_ok H He Hs) as (r' & -> & _ & L & S1 & W1 & C1 & C2 & _). cbn. split.
    + split; [done|split; [done|rewrite C2; by apply insert_subseteq, (live_ctx r id e)]|..]; rewrite ?S1, ?W1; unfold rows_after.
      * by intros k x [_ Hx]%lookup_delete_Some.
      * intros k [x [Hne _]%lookup_delete_Some]. destruct (stored e r); [|done]. by rewrite lookup_delete_ne.
      * destruct (stored e r); [apply delete_subseteq|done].
      * intros k x Hx Hn Hst. destruct (decide (k = id)) as [->|]; [|by rewrite lookup_delete_ne in Hn; congruence].
        assert (x = e) as -> by congruence. rewrite Hst. apply lookup_delete_eq.
    + intros k x. rewrite S1, lookup_delete_Some. split; [intros [Hne Hx]; split; [done|left; congruence]|].
      intros [Hx [Hne|Hst]]; [by split|]. split; [|done]. intros <-. assert (x = e) as -> by congruence. congruence.
Qed.

(** ** The prune *)

Definition expired_at (now : time) (e : sessionEntry) : Prop := ss_ExpiresAt (se_session e) <= now.
Definition kept_by (del_ok : bytes -> bool) (now : time) (r : Runtime) (id : bytes) (e : sessionEntry) : Prop :=
  now < ss_ExpiresAt (se_session e) \/ stored e r && negb (del_ok id) = true.

Definition in_hands (out : list expiryItem) (id : bytes) (e : sessionEntry) : Prop := exists p, se_expiry e = Some p /\ item_of id p e ∈ out.

Lemma prune_loop_ok del_ok now fuel : forall out r, (length (items r) <= fuel)%nat -> core_ok out r ->
  let '(_, retry, r') := prune_loop fuel del_ok now r in
  core_ok (retry ++ out) r' /\ removes r r' /\
  (forall id e, rt_sessions r' !! id = Some e <-> rt_sessions r !! id = Some e /\ (kept_by del_ok now r id e \/ in_hands out id e)).
Proof.
  assert (Hstop : forall out r, core_ok out r -> (forall it, it ∈ items r -> now < ei_expiresAt it) -> core_ok ([] ++ out) r /\ removes r r /\
    (forall id e, rt_sessions r !! id = Some e <-> rt_sessions r !! id = Some e /\ (kept_by del_ok now r id e \/ in_hands out id e))).
  { intros out r H Hlate. split_and!; [done|apply removes_refl|]. intros id e. split; [|tauto]. intros He. split; [done|].
    destruct (own_item _ _ _ _ (co_heap _ _ H) He) as (p & Hp & [Hin|Hin]%elem_of_app); [right; by exists p|]. left. left. by apply Hlate in Hin. }
  induction fuel as [|fuel IH]; intros out r Hlen H.
  { cbn [prune_loop]. apply Hstop; [done|]. intros it Hit. destruct (items r); [by apply elem_of_nil in Hit|cbn in Hlen; lia]. }
  cbn [prune_loop]. fold (items r). destruct (items r !! 0%nat) as [item|] eqn:Htop.
  2: { apply Hstop; [done|]. intros it Hit. destruct (items r); [by apply elem_of_nil in Hit|done]. }
  destruct (heap_pop out r item (co_heap _ _ H) Htop) as (Hh & Hx & Hl & Hmin & Hperm). cbv zeta in Hh, Hx, Hl, Hmin, Hperm.
  destruct (after (ei_expiresAt item) now) eqn:Haft.
  { apply Hstop; [done|]. intros it Hit%Hmin. unfold after in Haft. bool_to_prop. lia. }
  unfold after in Haft. bool_to_prop. set (r1 := set_expiries _ _ r) in *.
  assert (H1 : core_ok (item :: out) r1) by (split; [destruct H as [[] _ _]; by split|done|destruct H as [_ _ []]; by split]).
  assert (Hitem : item ∈ out ++ items r) by (rewrite Hperm; apply elem_of_app; right; left).
  destruct (hk_item _ _ (co_heap _ _ H) item Hitem) as (_ & e & He & Hp).
  assert (Hdead : ss_ExpiresAt (se_session e) <= now) by (pose proof (item_known _ _ _ _ (co_heap _ _ H) Hitem He) as E; rewrite E in Haft; exact Haft).
  assert (Hother : forall id x, rt_sessions r !! id = Some x -> (in_hands (item :: out) id x <-> id = ei_id item \/ in_hands out id x)).
  { intros id x Hid. unfold in_hands. split.
    - intros (p & Hpx & [E|Hin]%elem_of_cons); [left; by rewrite <- E|right; by exists p].
    - intros [->|(p & Hpx & Hin)]; [|exists p; split; [done|by right]]. assert (x = e) as -> by congruence. exists (ei_ptr item). split; [done|].
      rewrite <- (item_known _ _ _ _ (co_heap _ _ H) Hitem He). left. }
  assert (Hlen1 : (length (items r1) <= fuel)%nat) by (unfold items at 1, r1; cbn [rt_expiries set_expiries]; rewrite Hl; lia).
  change (rt_sessions r1 !! ei_id item) with (rt_sessions r !! ei_id item). rewrite He, bool_decide_true by done. cbn [negb].
  destruct (stored e r1 && negb (del_ok (ei_id item))) eqn:Hs.
  - rewrite (remove_fails r1 _ e _ _ He Hs). assert (H2 : core_ok (item :: out) (count_store r1)) by (by apply counters_ok).
    specialize (IH (item :: out) (count_store r1) Hlen1 H2). destruct (prune_loop fuel del_ok now (count_store r1)) as [[n retry] r']. destruct IH as (I1 & I2 & I3).
    split_and!.
    + destruct I1 as [J1 J2 J3]. split; [done| |done]. eapply heap_ok_perm; [|exact J2]. cbn. symmetry. apply Permutation_middle.
    + eapply removes_trans; [|exact I2]. by apply removes_same.
    + intros id x. rewrite I3. change (rt_sessions (count_store r1)) with (rt_sessions r). split.
      * intros [Hid Hk]. split; [done|]. destruct Hk as [Hk|Hk]; [by left|]. apply (Hother id x Hid) in Hk as [->|Hk]; [|by right]. left. right.
        assert (x = e) as -> by congruence. exact Hs.
      * intros [Hid [Hk|Hk]]; (split; [done|]); [by left|right]. apply (Hother id x Hid). by right.
  - destruct (remove_spec r1 (ei_id item) e ErrExpired (del_ok (ei_id item)) (co_index _ _ H1) He Hs) as (r2 & E2 & J1 & JL & JS & _ & _ & _ & JI & JX & _).
    destruct (removes_one r1 (ei_id item) ErrExpired (del_ok (ei_id item)) (co_index _ _ H1)) as [JR _]. rewrite E2 in JR |- *. cbn [snd] in JR.
    assert (J2 : core_ok out r2).
    { split; [done| |exact (limits_delete r1 r2 _ (co_index _ _ H1) J1 JS (co_limits _ _ H1))].
      eapply (heap_remove (item :: out) out r1 r2 (ei_id item) e item); try done; [left|by right]. }
    assert (Hlen2 : (length (items r2) <= fuel)%nat).
    { unfold items at 1. rewrite JX. unfold drop_expiry. rewrite Hp. change (ptr_index (ei_ptr item) (rt_expiries r1)) with (ptr_index (ei_ptr item) (heap_Pop expiry_less ei_ptr (rt_expiries r)).2).
      rewrite Hx. exact Hlen1. }
    specialize (IH out r2 Hlen2 J2). destruct (prune_loop fuel del_ok now r2) as [[n retry] r']. destruct IH as (I1 & I2 & I3).
    split_and!; [done|eapply removes_trans; [|exact I2]; eapply removes_trans; [|exact JR]; by apply removes_same|].
    intros id x. rewrite I3, JS, lookup_delete_Some. change (rt_sessions r1) with (rt_sessions r).
    assert (Hsame : kept_by del_ok now r2 id x <-> kept_by del_ok now r id x) by (unfold kept_by; rewrite (stored_life x r1 r2 JL); done).
    rewrite Hsame. split; [tauto|]. intros [Hid Hk]. split_and!; [|done|done]. intros <-. assert (x = e) as -> by congruence.
    destruct Hk as [[Hk|Hk]|(p & Hpx & Hin)]; [lia|change (stored e r1) with (stored e r) in Hs; congruence|].
    assert (p = ei_ptr item) as -> by congruence. pose proof (hk_nodup _ _ Hh) as Hnd. cbn in Hnd. apply NoDup_cons in Hnd as [Hn _]. apply Hn.
    apply list_elem_of_fmap. exists (item_of (ei_id item) (ei_ptr item) e). split; [done|]. apply elem_of_app. by left.
Qed.

Lemma push_back_all retry : forall r, core_ok retry r -> let r' := foldl (fun r item => push_back item r) r retry in
  core_ok [] r' /\ rt_sessions r' = rt_sessions r /\ rt_rows r' = rt_rows r /\ same_life r r' /\ same_ctxs r r'.
Proof.
  induction retry as [|it retry IH]; intros r H; cbn [foldl]; [done|].
  destruct (push_back_ok retry it r (co_heap _ _ H)) as [Hh Es].
  assert (Hf : exists h, push_back it r = set_expiries h (rt_items r) r \/ push_back it r = r).
  { unfold push_back. destruct (rt_sessions r !! ei_id it); [|eexists ∅; by right]. case_bool_decide; eexists; [by left|by right]. Unshelve. all: exact (rt_expiries r). }
  destruct Hf as [h Hf].
  assert (H' : core_ok retry (push_back it r) /\ rt_rows (push_back it r) = rt_rows r /\ same_life r (push_back it r) /\ same_ctxs r (push_back it r)).
  { destruct Hf as [Hf|Hf]; rewrite Hf in Hh |- *; (split; [|done]); split; try done.
    - destruct H as [[] _ _]. by split.
    - destruct H as [_ _ []]. by split.
    - apply H.
    - apply H. }
  destruct H' as (H' & Er & L & C). destruct (IH _ H') as (I1 & I2 & I3 & I4 & I5). split_and!; [done|congruence|congruence| |].
  - destruct L as (? & ? & ?), I4 as (? & ? & ?). split_and!; congruence.
  - destruct C, I5. split; [congruence|by etrans].
Qed.

(** [pruneExpiredLocked] takes out exactly the expired sessions whose rows the store let go. *)
Lemma pruneExpired_ok del_ok now r : core_ok [] r -> let r' := (pruneExpiredLocked del_ok now r).2 in
  core_ok [] r' /\ removes r r' /\
  (forall id e, rt_sessions r' !! id = Some e <-> rt_sessions r !! id = Some e /\ kept_by del_ok now r id e).
Proof.
  intros H. unfold pruneExpiredLocked. pose proof (prune_loop_ok del_ok now (length (hs (rt_expiries r))) [] r ltac:(done) H) as HL.
  destruct (prune_loop _ _ _ _) as [[n retry] r1]. rewrite app_nil_r in HL. destruct HL as (L1 & L2 & L3).
  destruct (push_back_all retry r1 L1) as (P1 & P2 & P3 & P4 & P5). cbn [snd]. split_and!; [done| |].
  - eapply removes_trans; [exact L2|]. by apply removes_same.
  - intros id e. rewrite P2, L3. split; [|tauto]. intros [Hid [Hk|(p & _ & Hin)]]; [done|by apply elem_of_nil in Hin].
Qed.

(** ** Claims and rows *)

Lemma limits_same r r' : rt_byScope r' = rt_byScope r ->
  (forall id e', rt_sessions r' !! id = Some e' -> exists e, rt_sessions r !! id = Some e /\ bytes_in e' = bytes_in e) ->
  size (rt_sessions r') = size (rt_sessions r) -> (forall a, actor_count a (rt_sessions r') = actor_count a (rt_sessions r)) ->
  msum bytes_in (rt_sessions r') = msum bytes_in (rt_sessions r) -> limits_ok r -> limits_ok r'.
Proof.
  intros Es Hs Hz Ha Hb [L1 L2 L3 L4 L5]. split; [by rewrite Hz|by unfold ids_of in *; rewrite Es|intros a Hne; rewrite Ha; by apply L3|by rewrite Hb|].
  intros id e' He'. destruct (Hs id e' He') as (e & He & ->). by eapply L5.
Qed.

Lemma clear_core out r id : core_ok out r -> core_ok out (clearInputLocked id r).2.
Proof.
  intros [Hi Hh Hl]. destruct (clear_ok r id Hi) as (H1 & S1 & _). pose proof (clear_fields r id) as F. cbv zeta in F.
  destruct F as (F1 & F2 & F3 & F4 & F5 & F6 & F7 & F8 & F9 & F10 & F11).
  destruct (rt_sessions r !! id) as [e|] eqn:He.
  2: { assert (E : clearInputLocked id r = (false, r)) by (unfold clearInputLocked; by rewrite He). by rewrite E. }
  assert (Ea : alter (se_set_input None) id (rt_sessions r) = <[id := se_set_input None e]> (rt_sessions r)).
  { apply map_eq. intros k. rewrite lookup_alter. case_decide; [subst; by rewrite lookup_insert_eq, He|by rewrite lookup_insert_ne]. }
  rewrite Ea in S1. split; [done| |].
  - by eapply (heap_change out r _ id e (se_set_input None e)).
  - eapply (limits_same r); [done|..|exact Hl]; rewrite S1.
    + intros k x [[<- <-]|[_ Hx]]%lookup_insert_Some; [by exists e|by exists x].
    + by rewrite map_size_insert_Some by (by exists e).
    + intros a. by apply (change_count r id e (se_set_input None e) Hi He).
    + rewrite (msum_insert _ _ _ _ e He). unfold bytes_in. cbn. lia.
Qed.

(** A session changes where it is. *)
Lemma limits_change r r' id e e' : index_ok r -> limits_ok r -> rt_sessions r !! id = Some e -> same_place e e' ->
  bytes_in e' <= cf_MaxStateBytes config -> rt_stateBytes r - bytes_in e + bytes_in e' <= cf_MaxTotalStateBytes config ->
  rt_sessions r' = <[id := e']> (rt_sessions r) -> rt_byScope r' = rt_byScope r -> limits_ok r'.
Proof.
  intros Hi [L1 L2 L3 L4 L5] He Hs Hb Ht Es Eb. split; rewrite ?Es.
  - by rewrite map_size_insert_Some by (by exists e).
  - unfold ids_of in *. by rewrite Eb.
  - intros a Ha. rewrite (change_count r id e e' Hi He Hs). by apply L3.
  - rewrite (msum_insert _ _ _ _ e He). rewrite (ix_bytes _ Hi) in Ht. lia.
  - intros k x [[<- <-]|[_ Hx]]%lookup_insert_Some; [done|by eapply L5].
Qed.

(** The entry [e] becomes [e'], and the bytes and the claims are brought in line. *)
Definition changed (id : bytes) (e e' : sessionEntry) (inputs' : gmap input_key bytes) (r : Runtime) : Runtime :=
  set_inputs inputs' (set_index (rt_byScope r) (rt_actorCounts r) (rt_stateBytes r - bytes_in e + bytes_in e') (put_entry id e' r)).
Definition claims_of (m : gmap bytes sessionEntry) (inputs : gmap input_key bytes) : Prop :=
  forall key k, inputs !! key = Some k <-> exists x i, m !! k = Some x /\ se_input x = Some i /\ ic_key i = key.
Definition fits (r : Runtime) (e e' : sessionEntry) : Prop :=
  bytes_in e' <= cf_MaxStateBytes config /\ rt_stateBytes r - bytes_in e + bytes_in e' <= cf_MaxTotalStateBytes config.

Lemma change_core out r id e e' inputs' : core_ok out r -> rt_sessions r !! id = Some e -> same_place e e' -> se_expiry e' = se_expiry e ->
  ss_ExpiresAt (se_session e') = ss_ExpiresAt (se_session e) -> fits r e e' -> claims_of (<[id := e']> (rt_sessions r)) inputs' ->
  core_ok out (changed id e e' inputs' r).
Proof.
  intros [Hi Hh Hl] He Hs Hp Ht [Hb Htot] Hin. split.
  - by apply change_ok.
  - by eapply (heap_change out r _ id e e').
  - by eapply (limits_change r _ id e e').
Qed.

(** The fields [scheduleExpiryLocked] leaves alone. *)
Lemma schedule_fields id t r : let r' := scheduleExpiryLocked id t r in
  rt_closed r' = rt_closed r /\ rt_byScope r' = rt_byScope r /\ rt_actorCounts r' = rt_actorCounts r /\ rt_inputs r' = rt_inputs r /\
  rt_stateBytes r' = rt_stateBytes r /\ rt_rows r' = rt_rows r /\ rt_ctxs r' = rt_ctxs r /\ rt_cancelled r' = rt_cancelled r /\
  rt_durable r' = rt_durable r /\ rt_preserve r' = rt_preserve r.
Proof. unfold scheduleExpiryLocked. destruct (rt_sessions r !! id) as [e|]; [|done]. by destruct (se_expiry e). Qed.

Lemma schedule_sessions id t r e p : rt_sessions r !! id = Some e -> se_expiry e = Some p -> rt_sessions (scheduleExpiryLocked id t r) = rt_sessions r.
Proof. intros He Hp. unfold scheduleExpiryLocked. by rewrite He, Hp. Qed.

Lemma index_ext r r' : rt_closed r' = rt_closed r -> rt_sessions r' = rt_sessions r -> rt_byScope r' = rt_byScope r -> rt_actorCounts r' = rt_actorCounts r ->
  rt_inputs r' = rt_inputs r -> rt_stateBytes r' = rt_stateBytes r -> rt_ctxs r' = rt_ctxs r -> rt_cancelled r' = rt_cancelled r ->
  index_ok r -> index_ok r'.
Proof. intros E1 E2 E3 E4 E5 E6 E7 E8 []. split; unfold ids_of in *; rewrite ?E1, ?E2, ?E3, ?E4, ?E5, ?E6, ?E7, ?E8; done. Qed.

Lemma limits_ext r r' : rt_sessions r' = rt_sessions r -> rt_byScope r' = rt_byScope r -> limits_ok r -> limits_ok r'.
Proof. intros E1 E2 []. split; unfold ids_of in *; rewrite ?E1, ?E2; done. Qed.

(** A session changes and gets another deadline. *)
Lemma reschedule_core r id e e' inputs' : core_ok [] r -> rt_sessions r !! id = Some e -> same_place e e' -> se_expiry e' = se_expiry e ->
  fits r e e' -> claims_of (<[id := e']> (rt_sessions r)) inputs' ->
  core_ok [] (scheduleExpiryLocked id (ss_ExpiresAt (se_session e')) (changed id e e' inputs' r)).
Proof.
  intros [Hi Hh Hl] He Hs Hp [Hb Htot] Hin. set (r1 := changed id e e' inputs' r).
  pose proof (schedule_fields id (ss_ExpiresAt (se_session e')) r1) as F. cbv zeta in F. destruct F as (F1 & F2 & F3 & F4 & F5 & F6 & F7 & F8 & _).
  destruct (own_item _ _ _ _ Hh He) as (p & Hp' & _).
  assert (Es : rt_sessions (scheduleExpiryLocked id (ss_ExpiresAt (se_session e')) r1) = rt_sessions r1).
  { apply (schedule_sessions _ _ _ e' p); [apply lookup_insert_eq|congruence]. }
  split.
  - apply (index_ext r1); try done. by apply change_ok.
  - by apply (heap_reschedule r r1 id e e').
  - apply (limits_ext r1); try done. by eapply (limits_change r _ id e e').
Qed.

End Limits.
