(* ===== verification/InteractionSections.v ===== *)
(** * Interaction sessions: what a section does to sessions and rows

    The runtime's full invariant, with the rows of the store, and how a session's life
    goes on from one section to the next; every section of InteractionOps.v keeps the one
    and goes on as the other says. *)

From S2P Require Import Prelude.
From S2P Require Import Tasks.
From S2P Require Import GoHeap.
From S2P Require Import CommandText.
From S2P Require Import CallbackToken.
From S2P Require Import InteractionState.
From S2P Require Import InteractionOps.
From S2P Require Import InteractionInvariant.
From S2P Require Import InteractionSteps.

(** ** The life of a session *)

(** A binding is only ever completed. *)
Definition narrows (b b' : Binding) : Prop :=
  bn_ActorID b' = bn_ActorID b /\ (bn_ChatID b = 0 \/ bn_ChatID b' = bn_ChatID b) /\ (bn_MessageID b = 0 \/ bn_MessageID b' = bn_MessageID b) /\
  (bn_InlineMessageID b = [] \/ bn_InlineMessageID b' = bn_InlineMessageID b) /\
  (forall key, inputKeyFromBinding b = Some key -> inputKeyFromBinding b' = Some key).

(** [e'] is [e] after [k] revisions; its state changes with its revision only. *)
Record follows (k : Z) (e e' : sessionEntry) : Prop := {
  fo_ctx : se_ctx e' = se_ctx e;
  fo_id : ss_ID (se_session e') = ss_ID (se_session e);
  fo_feature : ss_FeatureID (se_session e') = ss_FeatureID (se_session e);
  fo_scope : scope_of e' = scope_of e;
  fo_version : se_durableVersion e' = se_durableVersion e;
  fo_created : ss_CreatedAt (se_session e') = ss_CreatedAt (se_session e);
  fo_binding : narrows (ss_Binding (se_session e)) (ss_Binding (se_session e'));
  fo_revision : ss_Revision (se_session e') = (ss_Revision (se_session e) + k) mod 2 ^ 64;
  fo_state : k = 0 -> ss_State (se_session e') = ss_State (se_session e)
}.

(** From [r] to [r'] a session goes on for at most [n] revisions, ends for good, or is new. *)
Record evolves (n : Z) (r r' : Runtime) : Prop := {
  ev_ctxs : (rt_ctxs r <= rt_ctxs r')%nat;
  ev_cancelled : rt_cancelled r ⊆ rt_cancelled r';
  ev_session : forall id e', rt_sessions r' !! id = Some e' ->
    (rt_ctxs r <= se_ctx e')%nat \/ exists e k, rt_sessions r !! id = Some e /\ 0 <= k <= n /\ follows k e e'
}.

Lemma narrows_refl b : narrows b b.
Proof. split_and!; auto. Qed.

Lemma narrows_trans b1 b2 b3 : narrows b1 b2 -> narrows b2 b3 -> narrows b1 b3.
Proof.
  intros (A1 & A2 & A3 & A4 & A5) (B1 & B2 & B3 & B4 & B5). split_and!; [congruence| | | |auto].
  - destruct A2 as [|A2]; [by left|]. destruct B2 as [B2|B2]; [left|right]; congruence.
  - destruct A3 as [|A3]; [by left|]. destruct B3 as [B3|B3]; [left|right]; congruence.
  - destruct A4 as [|A4]; [by left|]. destruct B4 as [B4|B4]; [left|right]; congruence.
Qed.

(** What a completed binding matches, the first one matched too. *)
Lemma narrows_matches b b' actual : narrows b b' -> binding_Matches b' actual = true -> binding_Matches b actual = true.
Proof.
  intros (A1 & A2 & A3 & A4 & _). unfold binding_Matches. rewrite !andb_true_iff, !negb_true_iff, !andb_false_iff, !negb_false_iff.
  intros (((H1 & H2) & H3) & H4). rewrite A1 in H1. split; [split; [split; [done|]|]|].
  - destruct A2 as [->|A2]; [by left|]. by rewrite A2 in H2.
  - destruct A3 as [->|A3]; [by left|]. by rewrite A3 in H3.
  - destruct A4 as [->|A4]; [by left|]. by rewrite A4 in H4.
Qed.

Lemma follows_refl e : 0 <= ss_Revision (se_session e) < 2 ^ 64 -> follows 0 e e.
Proof. intros H. split; try done; [apply narrows_refl|]. by rewrite Z.add_0_r, Z.mod_small. Qed.

Lemma follows_trans k1 k2 e1 e2 e3 : 0 <= k1 -> 0 <= k2 -> follows k1 e1 e2 -> follows k2 e2 e3 -> follows (k1 + k2) e1 e3.
Proof.
  intros Hk1 Hk2 [] []. split; try congruence.
  - by eapply narrows_trans.
  - rewrite fo_revision1, fo_revision0, Zplus_mod_idemp_l. f_equal. lia.
  - intros E. rewrite fo_state1, fo_state0 by lia. done.
Qed.

Lemma evolves_trans n m r1 r2 r3 : evolves n r1 r2 -> evolves m r2 r3 -> evolves (n + m) r1 r3.
Proof.
  intros [C1 X1 S1] [C2 X2 S2]. split; [lia|by etrans|]. intros id e3 H3.
  destruct (S2 id e3 H3) as [Hn|(e2 & k2 & H2 & Hk2 & F2)]; [left; lia|].
  destruct (S1 id e2 H2) as [Hn|(e1 & k1 & H1 & Hk1 & F1)]; [left; rewrite (fo_ctx _ _ _ F2); lia|].
  right. exists e1, (k1 + k2). split_and!; [done|lia|lia|]. apply (follows_trans k1 k2 e1 e2 e3); [lia|lia|done|done].
Qed.

Lemma evolves_weaken n m r r' : n <= m -> evolves n r r' -> evolves m r r'.
Proof. intros Hn [C X S]. split; [done|done|]. intros id e' H. destruct (S id e' H) as [|(e & k & He & Hk & F)]; [by left|right]. exists e, k. split_and!; [done|lia|lia|done]. Qed.

Section Sections.
Context (config : Config) (durabilityVersion : bytes -> bytes).
Notation core_ok := (core_ok config).
Notation fits := (fits config).

(** ** The invariant *)

Record entry_ok (e : sessionEntry) : Prop := {
  eo_id : validSessionID (ss_ID (se_session e)) = true;
  eo_version : se_durableVersion e = durabilityVersion (ss_FeatureID (se_session e));
  eo_binding : binding_Validate (ss_Binding (se_session e)) = None;
  eo_revision : 0 <= ss_Revision (se_session e) < 2 ^ 64;
  eo_claim : forall i, se_input e = Some i -> inputKeyFromBinding (ss_Binding (se_session e)) = Some (ic_key i)
}.

(** The row of a session at the instant [T]: the store holds the session as it is, and at
    most an input claim that is over. *)
Definition row_of (T : time) (e : sessionEntry) (row : DurableSession) : Prop :=
  du_Session row = unscoped (se_session e) /\ du_Version row = se_durableVersion e /\
  match se_input e with Some i => du_InputExpires row = ic_expiresAt i | None => du_InputExpires row <= T end.
(** The store keys a row by the session's identifier and knows no scope. *)
Definition row_wf (id : bytes) (row : DurableSession) : Prop :=
  ss_ID (du_Session row) = id /\ unscoped (du_Session row) = du_Session row /\ 0 <= ss_Revision (du_Session row) < 2 ^ 64.
Definition durable_entry (e : sessionEntry) : bool := negb (no_bytes (se_durableVersion e)).

Record store_ok (T : time) (r : Runtime) : Prop := {
  st_row : rt_durable r = true -> forall id e, rt_sessions r !! id = Some e -> durable_entry e = true ->
    exists row, rt_rows r !! id = Some row /\ row_of T e row;
  st_key : forall id row, rt_rows r !! id = Some row -> row_wf id row
}.

Record runtime_ok (T : time) (r : Runtime) : Prop := {
  ro_core : core_ok [] r;
  ro_entry : forall id e, rt_sessions r !! id = Some e -> entry_ok e;
  ro_store : store_ok T r;
  ro_time : 0 <= T
}.

(** What a section must leave behind. *)
Definition goes_on (n : Z) (T : time) (r r' : Runtime) : Prop := runtime_ok T r' /\ evolves n r r'.

Lemma row_of_later T T' e row : T <= T' -> row_of T e row -> row_of T' e row.
Proof. intros HT (H1 & H2 & H3). split_and!; [done|done|]. destruct (se_input e); [done|]. lia. Qed.

Lemma store_later T T' r : T <= T' -> store_ok T r -> store_ok T' r.
Proof.
  intros HT [H1 H2]. split; [|done]. intros Hd id e He Hv. destruct (H1 Hd id e He Hv) as (row & Hr & Hok). exists row. split; [done|].
  by eapply row_of_later.
Qed.

Lemma runtime_later T T' r : T <= T' -> runtime_ok T r -> runtime_ok T' r.
Proof. intros HT [H1 H2 H3 H4]. split; [done|done|by eapply store_later|]. lia. Qed.

(** ** Nothing but removals *)

Lemma removes_evolves T r r' : runtime_ok T r -> removes r r' -> evolves 0 r r'.
Proof.
  intros H [_ [C X] S _ _ _]. split; [lia|done|]. intros id e' He%S. right. exists e', 0. split_and!; [done|lia|lia|].
  apply follows_refl, (eo_revision _ (ro_entry _ _ H _ _ He)).
Qed.

Lemma removes_store T r r' : store_ok T r -> removes r r' -> store_ok T r'.
Proof.
  intros [H1 H2] [(_ & L & _) _ S W M _]. split.
  - rewrite L. intros Hd id e He Hv. destruct (H1 Hd id e (S _ _ He) Hv) as (row & Hr & Hok). exists row. split; [|done].
    by rewrite W by (by exists e).
  - intros id row Hr. apply H2. rewrite map_subseteq_spec in M. by apply M.
Qed.

Lemma removes_goes_on T r r' : runtime_ok T r -> removes r r' -> core_ok [] r' -> goes_on 0 T r r'.
Proof.
  intros H Hr Hc. split; [|by eapply removes_evolves]. split; [done| |eapply removes_store; [apply H|done]|apply H].
  intros id e He%(rm_sub _ _ Hr). by eapply ro_entry.
Qed.

Lemma stays T r : runtime_ok T r -> goes_on 0 T r r.
Proof. intros H. apply removes_goes_on; [done|apply removes_refl|apply H]. Qed.

Lemma goes_on_weaken n m T r r' : n <= m -> goes_on n T r r' -> goes_on m T r r'.
Proof. intros Hn [H1 H2]. split; [done|by eapply evolves_weaken]. Qed.

Lemma goes_on_trans n m T r1 r2 r3 : goes_on n T r1 r2 -> goes_on m T r2 r3 -> goes_on (n + m) T r1 r3.
Proof. intros [_ E1] [H3 E2]. split; [done|by eapply evolves_trans]. Qed.

Lemma remove_goes_on T r id cause del_ok : runtime_ok T r -> goes_on 0 T r (removeLocked del_ok id cause r).
Proof.
  intros H. apply removes_goes_on; [done|apply removes_one; apply (ro_core _ _ H)|]. apply remove_ok, H.
Qed.

Lemma prune_goes_on T now r del_ok : runtime_ok T r -> goes_on 0 T r (pruneExpiredLocked del_ok now r).2.
Proof. intros H. destruct (pruneExpired_ok config del_ok now r (ro_core _ _ H)) as (H1 & H2 & _). by apply removes_goes_on. Qed.

Lemma counters_goes_on T r c : runtime_ok T r -> goes_on 0 T r (set_counters c r).
Proof. intros H. apply removes_goes_on; [done|by apply removes_same|apply counters_ok, H]. Qed.

Lemma cancelIfScope_goes_on T r id scope cause del_ok : runtime_ok T r -> goes_on 0 T r (cancelIfScope del_ok id scope cause r).
Proof.
  intros H. unfold cancelIfScope. destruct (rt_sessions r !! id) as [e|]; [|by apply stays]. case_bool_decide; [|by apply stays]. by apply remove_goes_on.
Qed.

Lemma load_goes_on T now r id state del_ok : runtime_ok T r -> goes_on 0 T r (load_section state del_ok now id r).2.
Proof.
  intros H. unfold load_section. destruct (validSessionID id); [|by apply stays]. destruct (rt_closed r); [by apply stays|].
  destruct (rt_sessions r !! id) as [e|]; [|by apply prune_goes_on]. destruct (after _ now); [by apply stays|by apply remove_goes_on].
Qed.

Lemma scope_check_goes_on T r scope s del_ok : runtime_ok T r -> goes_on 0 T r (scope_check scope del_ok s r).2.
Proof. intros H. unfold scope_check. case_bool_decide; [by apply stays|by apply cancelIfScope_goes_on]. Qed.

(** What the sections on a session start with. *)
Lemma with_live_goes_on n T now r id scope expected del_ok k : 0 <= n -> runtime_ok T r ->
  (forall e, rt_sessions r !! id = Some e -> scope_of e = scope -> now < ss_ExpiresAt (se_session e) ->
     match expected with Some rev => ss_Revision (se_session e) = rev | None => True end -> goes_on n T r (k e).2) ->
  goes_on n T r (with_live del_ok now id scope expected r k).2.
Proof.
  intros Hn H Hk. assert (Hs : goes_on n T r r) by (apply (goes_on_weaken 0); [done|by apply stays]).
  unfold with_live. destruct (rt_sessions r !! id) as [e|] eqn:He; [|done]. case_bool_decide as Hsc; [cbn [negb]|done].
  destruct (after _ now) eqn:Ha; [cbn [negb]|apply (goes_on_weaken 0); [done|by apply remove_goes_on]].
  unfold after in Ha. apply Z.ltb_lt in Ha.
  destruct expected as [rev|]; [|by apply Hk]. destruct (Z.eqb_spec (ss_Revision (se_session e)) rev) as [Er|]; [|done]. by apply Hk.
Qed.

(** ** A section updates one session *)

Definition with_rows (rows : gmap bytes DurableSession) (r : Runtime) : Runtime := set_store (rt_durable r) (rt_preserve r) rows r.
Definition claim_time (input : option inputClaim) : time := match input with Some i => ic_expiresAt i | None => 0 end.
Definition saved_row (s : Session) (input : option inputClaim) : DurableSession :=
  mkDurable (unscoped s) (durabilityVersion (ss_FeatureID s)) (claim_time input).
Definition rows_saved (s : Session) (input : option inputClaim) (r : Runtime) : gmap bytes DurableSession :=
  if rt_durable r && negb (no_bytes (durabilityVersion (ss_FeatureID s))) then <[ss_ID s := saved_row s input]> (rt_rows r) else rt_rows r.

Lemma with_rows_same r : with_rows (rt_rows r) r = r.
Proof. by destruct r. Qed.

Lemma save_cases save_ok s input r :
  saveDurableLocked durabilityVersion save_ok s input r = (false, count_store r) \/
  saveDurableLocked durabilityVersion save_ok s input r = (true, with_rows (rows_saved s input r) r).
Proof.
  unfold saveDurableLocked, rows_saved. destruct (rt_durable r) eqn:Hd; cbn [negb andb]; [|right; by rewrite with_rows_same].
  destruct (no_bytes _); cbn [negb]; [right; by rewrite with_rows_same|]. destruct save_ok; [right|by left]. unfold with_rows. by rewrite Hd.
Qed.

Lemma rows_saved_other s input r k : k <> ss_ID s -> rows_saved s input r !! k = rt_rows r !! k.
Proof. intros Hk. unfold rows_saved. destruct (_ && _); [|done]. by rewrite lookup_insert_ne. Qed.

Lemma rows_saved_key s input r row : 0 <= ss_Revision s < 2 ^ 64 -> (rt_rows r !! ss_ID s = Some row -> row_wf (ss_ID s) row) ->
  rows_saved s input r !! ss_ID s = Some row -> row_wf (ss_ID s) row.
Proof. intros Hr Hk. unfold rows_saved. destruct (_ && _); [|done]. rewrite lookup_insert_eq. by intros [= <-]. Qed.

(** The saved row is the one of the entry the section goes on to make. *)
Lemma rows_saved_row T e r : 0 <= T -> entry_ok e -> rt_durable r = true -> durable_entry e = true ->
  exists row, rows_saved (se_session e) (se_input e) r !! ss_ID (se_session e) = Some row /\ row_of T e row.
Proof.
  intros HT He Hd Hv. unfold durable_entry in Hv. rewrite (eo_version _ He) in Hv. unfold rows_saved. rewrite Hd, Hv. cbn [andb]. rewrite lookup_insert_eq. eexists. split; [done|].
  split_and!; [done|by rewrite (eo_version _ He)|]. cbn. by destruct (se_input e).
Qed.

Lemma update_goes_on k T r r' id e e' : runtime_ok T r -> rt_sessions r !! id = Some e -> 0 <= k -> follows k e e' -> entry_ok e' ->
  core_ok [] r' -> rt_sessions r' = <[id := e']> (rt_sessions r) -> same_life r r' -> rt_ctxs r' = rt_ctxs r -> rt_cancelled r' = rt_cancelled r ->
  (forall j, j <> id -> rt_rows r' !! j = rt_rows r !! j) ->
  (forall row, rt_rows r' !! id = Some row -> row_wf id row) ->
  (rt_durable r = true -> durable_entry e' = true -> exists row, rt_rows r' !! id = Some row /\ row_of T e' row) ->
  goes_on k T r r'.
Proof.
  intros H He Hk F Ho Hc Es (L1 & L2 & L3) Ec Ex Wo Wk Wr. split; [split|].
  - done.
  - rewrite Es. intros j x [[<- <-]|[_ Hx]]%lookup_insert_Some; [done|by eapply ro_entry].
  - destruct (ro_store _ _ H) as [S1 S2]. split.
    + rewrite L2, Es. intros Hd j x [[<- <-]|[Hne Hx]]%lookup_insert_Some Hv; [by apply Wr|]. rewrite Wo by done. by apply S1.
    + intros j row. destruct (decide (j = id)) as [->|]; [apply Wk|]. rewrite Wo by done. apply S2.
  - apply H.
  - split; [lia|by rewrite Ex|]. rewrite Es. intros j x [[<- <-]|[_ Hx]]%lookup_insert_Some; right.
    + exists e, k. split_and!; [done|lia|lia|done].
    + exists x, 0. split_and!; [done|lia|lia|]. apply follows_refl, (eo_revision _ (ro_entry _ _ H _ _ Hx)).
Qed.

(** The same, for a section that saves the session it makes. *)
Lemma saved_goes_on k T r r' id e e' : runtime_ok T r -> rt_sessions r !! id = Some e -> 0 <= k -> follows k e e' -> entry_ok e' ->
  core_ok [] r' -> rt_sessions r' = <[id := e']> (rt_sessions r) -> same_life r r' -> rt_ctxs r' = rt_ctxs r -> rt_cancelled r' = rt_cancelled r ->
  rt_rows r' = rows_saved (se_session e') (se_input e') r -> goes_on k T r r'.
Proof.
  intros H He Hk F Ho Hc Es L Ec Ex Ew. assert (Hid : ss_ID (se_session e') = id).
  { rewrite (fo_id _ _ _ F). apply (ix_id _ (co_index _ _ _ (ro_core _ _ H)) _ _ He). }
  eapply update_goes_on; try done; rewrite Ew.
  - intros j Hj. apply rows_saved_other. congruence.
  - intros row Hr. rewrite <- Hid in Hr |- *. apply rows_saved_key in Hr; [done|by apply eo_revision|]. intros Hr'. by eapply st_key; [apply H|].
  - intros Hd Hv. rewrite <- Hid. apply rows_saved_row; [apply H|done..].
Qed.

(** An entry loses a claim that is over. *)
Lemma clear_goes_on T r id : runtime_ok T r -> (forall e i, rt_sessions r !! id = Some e -> se_input e = Some i -> ic_expiresAt i <= T) ->
  goes_on 0 T r (clearInputLocked id r).2.
Proof.
  intros H Hover. destruct (rt_sessions r !! id) as [e|] eqn:He.
  2: { assert (E : clearInputLocked id r = (false, r)) by (unfold clearInputLocked; by rewrite He). rewrite E. by apply stays. }
  pose proof (co_index _ _ _ (ro_core _ _ H)) as Hi. destruct (clear_ok r id Hi) as (_ & S1 & _). pose proof (clear_fields r id) as F. cbv zeta in F.
  destruct F as (F1 & F2 & F3 & F4 & F5 & F6 & F7 & F8 & F9 & F10 & F11). pose proof (ro_entry _ _ H _ _ He) as Ho.
  eapply (update_goes_on 0 T r _ id e (se_set_input None e)); try done.
  - destruct (follows_refl e (eo_revision _ Ho)). by split.
  - destruct Ho. by split.
  - apply clear_core, H.
  - rewrite S1. apply map_eq. intros j. rewrite lookup_alter. case_decide; [subst; by rewrite lookup_insert_eq, He|by rewrite lookup_insert_ne].
  - intros j _. by rewrite F6.
  - rewrite F6. intros row Hr. by eapply st_key; [apply H|].
  - rewrite F6. intros Hd Hv. destruct (st_row _ _ (ro_store _ _ H) Hd id e He Hv) as (row & Hr & R1 & R2 & R3). exists row. split; [done|].
    split_and!; [done|done|]. cbn. destruct (se_input e) as [i|] eqn:Hin; [|done]. rewrite R3. by apply (Hover e).
Qed.

Lemma with_rows_core r rows : core_ok [] r -> core_ok [] (with_rows rows r).
Proof. apply set_store_ok. Qed.

Lemma clear_change r id e e' : index_ok r -> rt_sessions r !! id = Some e -> let x := (clearInputLocked id r).2 in
  put_entry id e' (set_index (rt_byScope x) (rt_actorCounts x) (rt_stateBytes r - bytes_in e + bytes_in e') x) = changed id e e' (rt_inputs x) r.
Proof.
  intros H He. cbv zeta. rewrite (clearInputLocked_eq r id e H He). destruct (se_input e) as [i|]; cbn [snd]; [|by destruct r].
  unfold changed, put_entry. cbn. by rewrite insert_insert_eq.
Qed.

Lemma claims_cleared r id e' : index_ok r -> se_input e' = None -> claims_of (<[id := e']> (rt_sessions r)) (rt_inputs (clearInputLocked id r).2).
Proof.
  intros H Hn key k. destruct (clear_ok r id H) as (_ & _ & Hin). rewrite Hin, (ix_inputs _ H). split.
  - intros ((x & i & Hx & Hi) & Hne). exists x, i. by rewrite lookup_insert_ne.
  - intros (x & i & [[<- <-]|[Hne Hx]]%lookup_insert_Some & Hi & Hk); [congruence|]. split; [by exists x, i|done].
Qed.

Lemma claims_armed r id e' i : index_ok r -> se_input e' = Some i -> (forall k, rt_inputs r !! ic_key i = Some k -> k = id) ->
  claims_of (<[id := e']> (rt_sessions r)) (<[ic_key i := id]> (rt_inputs (clearInputLocked id r).2)).
Proof.
  intros H Hi Hfree key k. destruct (clear_ok r id H) as (_ & _ & Hin). rewrite lookup_insert_Some, Hin, (ix_inputs _ H). split.
  - intros [[<- <-]|(Hk & (x & j & Hx & Hj) & Hne)]; [exists e', i; by rewrite lookup_insert_eq|]. exists x, j. by rewrite lookup_insert_ne.
  - intros (x & j & [[<- <-]|[Hne Hx]]%lookup_insert_Some & Hj & <-); [left; split; congruence|]. right.
    pose proof (claim_owner r k x j H Hx Hj) as Ho. split_and!; [|by exists x, j|done]. intros E. rewrite <- E in Ho. apply Hfree in Ho. congruence.
Qed.

Lemma change_goes_on k T r id e e' inputs' : runtime_ok T r -> rt_sessions r !! id = Some e -> 0 <= k -> follows k e e' -> entry_ok e' ->
  se_expiry e' = se_expiry e -> fits r e e' -> claims_of (<[id := e']> (rt_sessions r)) inputs' ->
  let r' := changed id e e' inputs' (with_rows (rows_saved (se_session e') (se_input e') r) r) in
  (ss_ExpiresAt (se_session e') = ss_ExpiresAt (se_session e) -> goes_on k T r r') /\
  goes_on k T r (scheduleExpiryLocked id (ss_ExpiresAt (se_session e')) r').
Proof.
  intros H He Hk F Ho Hp Hf Hin r'. pose proof (ro_core _ _ H) as Hc.
  assert (Hs : same_place e e') by (destruct F as [? ? ? ? ? ? [? _]]; by split_and!).
  set (r0 := with_rows (rows_saved (se_session e') (se_input e') r) r) in *.
  assert (Hc0 : core_ok [] r0) by (by apply with_rows_core). split.
  - intros Ht. apply (saved_goes_on k T r r' id e e'); try done. by apply change_core.
  - pose proof (schedule_fields id (ss_ExpiresAt (se_session e')) r') as G. cbv zeta in G. destruct G as (G1 & G2 & G3 & G4 & G5 & G6 & G7 & G8 & G9 & G10).
    destruct (own_item _ _ _ _ (co_heap _ _ _ Hc) He) as (p & Hp' & _).
    assert (Es : rt_sessions (scheduleExpiryLocked id (ss_ExpiresAt (se_session e')) r') = rt_sessions r').
    { apply (schedule_sessions _ _ _ e' p); [apply lookup_insert_eq|congruence]. }
    apply (saved_goes_on k T r _ id e e'); try done. by apply reschedule_core.
Qed.

Lemma advance_ok e state : entry_ok e -> entry_ok (se_set_session (ss_set_state state (next_revision (ss_Revision (se_session e))) (se_session e)) e).
Proof. intros []. split; try done. cbn. apply Z.mod_pos_bound. lia. Qed.

Lemma UpdateState_goes_on T now r id scope expected state ttl save_ok del_ok : runtime_ok T r -> blen state <= cf_MaxStateBytes config ->
  goes_on 1 T r (UpdateState_section config durabilityVersion save_ok del_ok now id scope expected state ttl r).2.
Proof.
  intros H Hb. apply with_live_goes_on; [lia|done|]. intros e He _ _ _. pose proof (ro_entry _ _ H _ _ He) as Ho.
  cbv zeta. destruct (Z.ltb_spec (cf_MaxTotalStateBytes config) (rt_stateBytes r - blen (ss_State (se_session e)) + blen state)) as [Hlt|Hge].
  { apply (goes_on_weaken 0); [lia|]. by apply counters_goes_on. }
  set (next := match ttl with Some ttl => _ | None => _ end).
  destruct (save_cases save_ok next None r) as [->| ->]; [apply (goes_on_weaken 0); [lia|by apply counters_goes_on]|].
  set (e' := se_set_session next (se_set_input None e)).
  assert (Ho' : entry_ok e') by (destruct (advance_ok e state Ho); unfold e', next; destruct ttl; by split).
  assert (F : follows 1 e e') by (unfold e', next; destruct ttl; split; try done; apply narrows_refl).
  assert (Hst : ss_State next = state) by (unfold next; by destruct ttl).
  assert (Hf : fits r e e') by (unfold fits, bytes_in; cbn; rewrite Hst; split; [done|lia]).
  assert (Hcl : claims_of (<[id := e']> (rt_sessions r)) (rt_inputs (clearInputLocked id (with_rows (rows_saved next None r) r)).2)).
  { apply (claims_cleared (with_rows (rows_saved next None r) r) id e'); [|done]. apply (with_rows_core r), H. }
  destruct (change_goes_on 1 T r id e e' _ H He ltac:(lia) F Ho' eq_refl Hf Hcl) as [C1 C2]. cbv zeta in C1, C2. cbn [se_input se_session se_set_session se_set_input e'] in C1, C2.
  pose proof (clear_change (with_rows (rows_saved next None r) r) id e e' (co_index _ _ _ (with_rows_core r _ (ro_core _ _ H))) He) as Eq.
  cbv zeta in Eq. unfold bytes_in in Eq. cbn [se_session se_set_session e'] in Eq. rewrite Hst in Eq. change (rt_stateBytes (with_rows _ r)) with (rt_stateBytes r) in Eq.
  cbn [snd]. rewrite Eq. destruct ttl as [ttl|]; [exact C2|by apply C1].
Qed.

(** *** [BindTarget] *)

Lemma no_bytes_spec s : no_bytes s = bool_decide (s = []).
Proof. by apply bool_decide_ext. Qed.

(** A complete target makes a valid binding. *)
Lemma complete_valid a t : validateComplete t = None ->
  binding_Validate (mkBinding a (tg_ChatID t) (tg_MessageID t) (TrimSpace (tg_InlineMessageID t))) = None.
Proof.
  unfold validateComplete, binding_Validate. cbn [bn_ActorID bn_ChatID bn_MessageID bn_InlineMessageID]. rewrite TrimSpace_idem. destruct (no_bytes _); cbn; destruct (_ || _) eqn:E; try done; intros _; bool_to_prop.
  - rewrite (proj2 (Z.ltb_ge _ 0)) by lia. rewrite (proj2 (Z.eqb_neq (tg_ChatID t) 0)) by done. by rewrite !andb_false_r.
  - replace (tg_ChatID t) with 0 by done. replace (tg_MessageID t) with 0 by done. cbn. by rewrite !andb_false_r.
Qed.

Lemma bound_same a c : negb (a =? 0) && negb (c =? a) = false -> a = 0 \/ c = a.
Proof. destruct (Z.eqb_spec a 0); [by left|]. destruct (Z.eqb_spec c a); [by right|done]. Qed.

Lemma withTarget_ok b t b' : withTarget b t = inr b' -> binding_Validate b = None ->
  binding_Validate b' = None /\ narrows b b'.
Proof.
  unfold withTarget. destruct (validateComplete t) as [|] eqn:Hc; [done|]. rewrite !no_bytes_spec. case_bool_decide as Hi; cbn [negb].
  2: { unfold bytes_eqb. case_bool_decide; [|done]. intros [= <-] Hv. split; [done|apply narrows_refl]. }
  destruct (negb (bn_ChatID b =? 0) && _) eqn:E1; [done|]. destruct (negb (bn_MessageID b =? 0) && _) eqn:E2; [done|].
  destruct (negb (bool_decide _) && _) eqn:E3; [done|]. intros [= <-] Hv. split; [by apply complete_valid|].
  split_and!; [done|by apply bound_same|by apply bound_same|by left|].
  - apply bound_same in E1. intros key. unfold inputKeyFromBinding. cbn [bn_ActorID bn_ChatID bn_MessageID bn_InlineMessageID]. rewrite !no_bytes_spec, bool_decide_true by done.
    destruct (Z.eqb_spec (bn_ActorID b) 0) as [|Ha]; [done|]. destruct (Z.eqb_spec (bn_ChatID b) 0) as [|Hb]; [done|]. cbn. intros [= <-].
    destruct E1 as [?|E1]; [done|]. cbn [negb orb] in E3. rewrite andb_true_r in E3.
    apply negb_false_iff, bool_decide_eq_true in E3. rewrite E3, E1, (proj2 (Z.eqb_neq (bn_ChatID b) 0)) by done. done.
Qed.

Lemma put_changed r id e e' : bytes_in e' = bytes_in e -> put_entry id e' r = changed id e e' (rt_inputs r) r.
Proof. intros E. unfold changed. rewrite E, Z.sub_add. by destruct r. Qed.

Lemma same_fits r id e e' : core_ok [] r -> rt_sessions r !! id = Some e -> bytes_in e' = bytes_in e -> fits r e e'.
Proof.
  intros H He E. split; rewrite E; [by eapply lm_state; [apply H|]|]. rewrite Z.sub_add, (ix_bytes _ (co_index _ _ _ H)). apply H.
Qed.

(** A section saves and changes a session but neither its state nor its claim. *)
Lemma touch_goes_on T r id e e' : runtime_ok T r -> rt_sessions r !! id = Some e -> follows 0 e e' -> entry_ok e' ->
  se_expiry e' = se_expiry e -> se_input e' = se_input e ->
  let r' := put_entry id e' (with_rows (rows_saved (se_session e') (se_input e') r) r) in
  (ss_ExpiresAt (se_session e') = ss_ExpiresAt (se_session e) -> goes_on 0 T r r') /\
  goes_on 0 T r (scheduleExpiryLocked id (ss_ExpiresAt (se_session e')) r').
Proof.
  intros H He F Ho Hp Hi. assert (Eb : bytes_in e' = bytes_in e) by (unfold bytes_in; by rewrite (fo_state _ _ _ F eq_refl)). cbv zeta.
  rewrite (put_changed _ id e e' Eb). apply (change_goes_on 0 T r id e e' (rt_inputs r) H He ltac:(lia) F Ho Hp).
  - apply (same_fits r id); [apply H|done|done].
  - intros key k. apply (change_inputs_same r id e e' (co_index _ _ _ (ro_core _ _ H)) He); [|done]. destruct F as [? ? ? ? ? ? [? _]]. by split_and!.
Qed.

Lemma BindTarget_goes_on T now r id scope expected target save_ok del_ok : runtime_ok T r ->
  goes_on 0 T r (BindTarget_section durabilityVersion save_ok del_ok now id scope expected target r).2.
Proof.
  intros H. apply with_live_goes_on; [lia|done|]. intros e He _ _ _. pose proof (ro_entry _ _ H _ _ He) as Ho.
  destruct (withTarget _ target) as [err|b] eqn:Eb; [by apply stays|]. destruct (withTarget_ok _ _ _ Eb (eo_binding _ Ho)) as (B1 & B2).
  cbv zeta. set (next := ss_set_binding b (se_session e)).
  destruct (save_cases save_ok next (se_input e) r) as [->| ->]; [by apply counters_goes_on|].
  assert (F : follows 0 e (se_set_session next e)) by (destruct (follows_refl e (eo_revision _ Ho)); by split).
  assert (Ho' : entry_ok (se_set_session next e)) by (destruct Ho; split; try done; intros i Hi; by apply B2, eo_claim0).
  by apply (touch_goes_on T r id e (se_set_session next e) H He F Ho' eq_refl eq_refl).
Qed.

(** *** [Touch] *)

Lemma Touch_goes_on T now r id scope ttl save_ok del_ok : runtime_ok T r ->
  goes_on 0 T r (Touch_section durabilityVersion save_ok del_ok now id scope ttl r).2.
Proof.
  intros H. apply with_live_goes_on; [lia|done|]. intros e He _ _ _. pose proof (ro_entry _ _ H _ _ He) as Ho.
  cbv zeta. set (next := ss_set_expires (now + ttl) (se_session e)).
  destruct (save_cases save_ok next (se_input e) r) as [->| ->]; [by apply counters_goes_on|].
  assert (F : follows 0 e (se_set_session next e)) by (destruct (follows_refl e (eo_revision _ Ho)); by split).
  assert (Ho' : entry_ok (se_set_session next e)) by (destruct Ho; by split).
  by apply (touch_goes_on T r id e (se_set_session next e) H He F Ho' eq_refl eq_refl).
Qed.

(** *** Input claims *)

Lemma evict_ok T now r id key r1 : runtime_ok T r -> now <= T -> evict_input key id now r = Some r1 ->
  goes_on 0 T r r1 /\ rt_sessions r1 !! id = rt_sessions r !! id /\ rt_stateBytes r1 = rt_stateBytes r /\
  (forall k, rt_inputs r1 !! key = Some k -> k = id).
Proof.
  intros H Hn. pose proof (co_index _ _ _ (ro_core _ _ H)) as Hi. unfold evict_input.
  destruct (rt_inputs r !! key) as [x|] eqn:Hk; [|intros [= <-]; split_and!; [by apply stays|done|done|congruence]].
  unfold bytes_eqb. case_bool_decide as Hx; [intros [= <-]; subst; split_and!; [by apply stays|done|done|congruence]|].
  destruct (proj1 (ix_inputs _ Hi _ _) Hk) as (e & i & He & Hei & Hik). rewrite He, Hei.
  destruct (after (ic_expiresAt i) now) eqn:Ha; [done|]. intros [= <-]. unfold after in Ha. apply Z.ltb_ge in Ha.
  destruct (clear_ok r x Hi) as (_ & S1 & I1). pose proof (clear_fields r x) as F. cbv zeta in F. destruct F as (F1 & F2 & F3 & F4 & F5 & _). split_and!.
  - apply clear_goes_on; [done|]. intros y j Hy Hj. assert (j = i) as -> by congruence. lia.
  - rewrite S1, lookup_alter_ne by done. done.
  - done.
  - intros k [Hk' Hne]%I1. congruence.
Qed.

Lemma cleared_total T r id e e' rows : runtime_ok T r -> rt_sessions r !! id = Some e -> bytes_in e' = bytes_in e ->
  put_entry id e' (clearInputLocked id (with_rows rows r)).2 = changed id e e' (rt_inputs (clearInputLocked id (with_rows rows r)).2) (with_rows rows r).
Proof.
  intros H He Eb. rewrite <- (clear_change (with_rows rows r) id e e'); [|apply (with_rows_core r), H|done].
  rewrite Eb, Z.sub_add. pose proof (clear_fields (with_rows rows r) id) as F. cbv zeta in F. destruct F as (_ & _ & _ & _ & <- & _).
  by rewrite runtime_eta.
Qed.

Lemma ArmInput_goes_on T now r id scope expected state ttl key save_ok del_ok : runtime_ok T r -> now <= T -> blen state <= cf_MaxStateBytes config ->
  (forall e, rt_sessions r !! id = Some e -> inputKeyFromBinding (ss_Binding (se_session e)) = Some key) ->
  goes_on 1 T r (ArmInput_section config durabilityVersion save_ok del_ok now id scope expected state ttl key r).2.
Proof.
  intros H Hn Hb Hkey. apply with_live_goes_on; [lia|done|]. intros e He0 _ _ _.
  destruct (evict_input key id now r) as [r1|] eqn:Hev; [|apply (goes_on_weaken 0); [lia|by apply stays]].
  destruct (evict_ok T now r id key r1 H Hn Hev) as (G & He & Et & Hfree). apply (goes_on_trans 0 1 T r r1); [done|].
  destruct G as [H1 _]. rewrite He0 in He. specialize (Hkey e He0). clear H Hev He0 r Et. rename r1 into r, H1 into H.
  pose proof (ro_entry _ _ H _ _ He) as Ho.
  cbv zeta. destruct (Z.ltb_spec (cf_MaxTotalStateBytes config) (rt_stateBytes r - blen (ss_State (se_session e)) + blen state)) as [Hlt|Hge].
  { apply (goes_on_weaken 0); [lia|]. by apply counters_goes_on. }
  set (next := ss_set_state _ _ _). set (i := mkClaim key _).
  destruct (save_cases save_ok next (Some i) r) as [->| ->]; [apply (goes_on_weaken 0); [lia|by apply counters_goes_on]|].
  set (e' := se_set_session next (se_set_input (Some i) e)).
  assert (Ho' : entry_ok e') by (destruct (advance_ok e state Ho); split; try done; by intros j [= <-]).
  assert (F : follows 1 e e') by (split; try done; apply narrows_refl).
  assert (Hf : fits r e e') by (split; [done|exact Hge]).
  set (r0 := with_rows (rows_saved next (Some i) r) r).
  assert (Hcl : claims_of (<[id := e']> (rt_sessions r)) (<[key := id]> (rt_inputs (clearInputLocked id r0).2))).
  { apply (claims_armed r0 id e' i); [apply (with_rows_core r), H|done|done]. }
  destruct (change_goes_on 1 T r id e e' _ H He ltac:(lia) F Ho' eq_refl Hf Hcl) as [C1 _]. cbv zeta in C1.
  pose proof (clear_change r0 id e e' (co_index _ _ _ (with_rows_core r _ (ro_core _ _ H))) He) as Eq. cbv zeta in Eq. cbn [snd].
  change (blen (ss_State (se_session e))) with (bytes_in e). change (blen state) with (bytes_in e'). change (rt_stateBytes r) with (rt_stateBytes r0).
  rewrite Eq. by apply C1.
Qed.

Lemma TakeInput_goes_on T now r actorID chatID save_ok del_ok : runtime_ok T r -> now <= T ->
  goes_on 1 T r (TakeInput_section durabilityVersion save_ok del_ok now actorID chatID r).2.
Proof.
  intros H Hn. assert (Hs : goes_on 1 T r r) by (apply (goes_on_weaken 0); [lia|by apply stays]).
  unfold TakeInput_section. cbv zeta. destruct (rt_closed r); [done|]. destruct (rt_inputs r !! _) as [id|] eqn:Hk; [|done].
  destruct (proj1 (ix_inputs _ (co_index _ _ _ (ro_core _ _ H)) _ _) Hk) as (e & i & He & Hei & Hik). rewrite He, Hei, bool_decide_true by done. cbn [negb].
  destruct (after (ic_expiresAt i) now) eqn:Ha; cbn [negb].
  2: { apply (goes_on_weaken 0); [lia|]. apply clear_goes_on; [done|]. intros x j Hx Hj. unfold after in Ha. apply Z.ltb_ge in Ha. assert (j = i) as -> by congruence. lia. }
  destruct (after (ss_ExpiresAt _) now); cbn [negb]; [|apply (goes_on_weaken 0); [lia|by apply remove_goes_on]].
  pose proof (ro_entry _ _ H _ _ He) as Ho. set (next := ss_set_state _ _ _).
  destruct (save_cases save_ok next None r) as [->| ->]; [apply (goes_on_weaken 0); [lia|by apply counters_goes_on]|].
  set (e' := se_set_session next (se_set_input None e)).
  assert (Ho' : entry_ok e') by (destruct (advance_ok e (ss_State (se_session e)) Ho); by split).
  assert (F : follows 1 e e') by (split; try done; apply narrows_refl).
  cbn [snd]. fold e'. rewrite (cleared_total T r id e e' _ H He eq_refl).
  assert (Hf : fits r e e') by (apply (same_fits r id); [apply H|done|done]).
  pose proof (claims_cleared (with_rows (rows_saved next None r) r) id e' (co_index _ _ _ (with_rows_core r _ (ro_core _ _ H))) eq_refl) as Hcl.
  by apply (change_goes_on 1 T r id e e' _ H He ltac:(lia) F Ho' eq_refl Hf Hcl).
Qed.

Lemma ReleaseInput_goes_on T r id save_ok : runtime_ok T r -> goes_on 0 T r (ReleaseInput durabilityVersion save_ok id r).2.
Proof.
  intros H. unfold ReleaseInput. destruct (validSessionID id); cbn [negb]; [|by apply stays]. destruct (rt_sessions r !! id) as [e|] eqn:He; [|by apply stays].
  destruct (se_input e) as [i|] eqn:Hei.
  2: { apply clear_goes_on; [done|]. intros x j Hx Hj. congruence. }
  destruct (save_cases save_ok (se_session e) None r) as [->| ->]; [by apply counters_goes_on|].
  pose proof (ro_entry _ _ H _ _ He) as Ho. set (r0 := with_rows _ r).
  rewrite (clearInputLocked_eq r0 id e); [|apply (with_rows_core r), H|done]. rewrite Hei. cbn [snd].
  pose proof (clear_core config [] r0 id (with_rows_core r _ (ro_core _ _ H))) as Hc.
  rewrite (clearInputLocked_eq r0 id e) in Hc; [|apply (with_rows_core r), H|done]. rewrite Hei in Hc. cbn [snd] in Hc.
  apply (saved_goes_on 0 T r _ id e (se_set_input None e)); try done.
  - destruct (follows_refl e (eo_revision _ Ho)). by split.
  - destruct Ho. by split.
Qed.

(** *** Prunes *)

(** A claim that is over at [now]. *)
Definition claim_over (now : time) (e : sessionEntry) : Prop := exists i, se_input e = Some i /\ ic_expiresAt i <= now.

Lemma prune_input_ok T now r key id : runtime_ok T r -> now <= T -> rt_inputs r !! key = Some id -> let r' := prune_input now r (key, id) in
  goes_on 0 T r r' /\ (forall k x, rt_inputs r' !! k = Some x <-> rt_inputs r !! k = Some x /\ (k = key -> exists e, rt_sessions r !! x = Some e /\ ~ claim_over now e)) /\
  se_set_input None <$> rt_sessions r' = se_set_input None <$> rt_sessions r /\ (forall j, j <> id -> rt_sessions r' !! j = rt_sessions r !! j).
Proof.
  intros H Hn Hk. pose proof (co_index _ _ _ (ro_core _ _ H)) as Hi. destruct (proj1 (ix_inputs _ Hi _ _) Hk) as (e & i & He & Hei & Hik).
  unfold prune_input. cbv zeta. rewrite He, Hei, bool_decide_true by done. cbn [negb]. destruct (after (ic_expiresAt i) now) eqn:Ha; unfold after in Ha.
  - apply Z.ltb_lt in Ha. split_and!; [by apply stays| |done|done]. intros k x. split; [|tauto]. intros Hx. split; [done|]. intros ->. assert (x = id) as -> by congruence.
    exists e. split; [done|]. intros (j & Hj & Hle). assert (j = i) as -> by congruence. lia.
  - apply Z.ltb_ge in Ha. assert (E : set_inputs (delete key (rt_inputs r)) (put_entry id (se_set_input None e) r) = (clearInputLocked id r).2).
    { rewrite (clearInputLocked_eq r id e Hi He), Hei, Hik. done. }
    rewrite E. destruct (clear_ok r id Hi) as (_ & S1 & I1). split_and!.
    + apply clear_goes_on; [done|]. intros x j Hx Hj. assert (j = i) as -> by congruence. lia.
    + intros k x. rewrite I1. split; intros [Hx Hne]; (split; [done|]).
      * intros ->. congruence.
      * intros ->. apply (ix_inputs _ Hi) in Hx as (y & j & Hy & Hj & Hjk). assert (y = e) as -> by congruence. assert (j = i) as -> by congruence.
        destruct Hne as (z & Hz & Hno); [congruence|]. apply Hno. assert (z = e) as -> by congruence. by exists i.
    + rewrite S1. apply map_eq. intros k. rewrite !lookup_fmap, lookup_alter. case_decide; [subst|done]. by destruct (rt_sessions r !! k).
    + intros j Hj. by rewrite S1, lookup_alter_ne.
Qed.

Lemma prune_inputs_fold T now l : forall r, runtime_ok T r -> now <= T -> NoDup l.*1 -> (forall k id, (k, id) ∈ l -> rt_inputs r !! k = Some id) ->
  let r' := foldl (prune_input now) r l in
  goes_on 0 T r r' /\ se_set_input None <$> rt_sessions r' = se_set_input None <$> rt_sessions r /\
  (forall k x, rt_inputs r' !! k = Some x <-> rt_inputs r !! k = Some x /\ ((k, x) ∈ l -> exists e, rt_sessions r !! x = Some e /\ ~ claim_over now e)).
Proof.
  induction l as [|[key id] l IH]; intros r H Hn Hnd Hin; cbn [foldl].
  { split_and!; [by apply stays|done|]. intros k x. split; [|tauto]. intros Hx. split; [done|]. intros Hl. by apply elem_of_nil in Hl. }
  cbn in Hnd. apply NoDup_cons in Hnd as [Hnew Hnd].
  assert (Hk : rt_inputs r !! key = Some id) by (apply Hin; left).
  destruct (prune_input_ok T now r key id H Hn Hk) as (G & I1 & S1 & O1). cbv zeta in G, I1, S1, O1.
  assert (Hother : forall k x, (k, x) ∈ l -> k <> key /\ x <> id).
  { intros k x Hl. assert (k <> key) by (intros ->; apply Hnew; by apply (list_elem_of_fmap_2 fst l (key, x))). split; [done|]. intros ->.
    assert (Hkx : rt_inputs r !! k = Some id) by (apply Hin; by right). pose proof (co_index _ _ _ (ro_core _ _ H)) as Hi.
    apply (ix_inputs _ Hi) in Hkx as (e & i & He & Hei & Hik). pose proof Hk as Hk0. apply (ix_inputs _ Hi) in Hk0 as (e0 & i0 & He0 & Hei0 & Hik0). congruence. }
  destruct G as [H1 E1]. destruct (IH (prune_input now r (key, id)) H1 Hn Hnd) as (G2 & S2 & I2).
  { intros k x Hl. apply I1. split; [apply Hin; by right|]. intros ->. by destruct (Hother _ _ Hl). }
  split_and!; [by apply (goes_on_trans 0 0 T r _ _ (conj H1 E1))|congruence|].
  intros k x. rewrite I2, I1. split.
  - intros [[Hx Hxk] Hl]. split; [done|]. intros [[= -> ->]|Hl']%elem_of_cons; [by apply Hxk|].
    destruct (Hl Hl') as (e & He & Hno). exists e. split; [|done]. rewrite <- (O1 x); [done|]. by destruct (Hother _ _ Hl').
  - intros [Hx Hl]. split_and!; [done| |].
    + intros ->. assert (x = id) as -> by congruence. apply Hl. left.
    + intros Hl'. destruct (Hl ltac:(by right)) as (e & He & Hno). exists e. split; [|done]. rewrite O1; [done|]. by destruct (Hother _ _ Hl').
Qed.

(** [pruneExpiredInputsLocked] takes out exactly the claims that are over. *)
Lemma prune_inputs_ok T now r : runtime_ok T r -> now <= T -> let r' := pruneExpiredInputsLocked now r in
  goes_on 0 T r r' /\ se_set_input None <$> rt_sessions r' = se_set_input None <$> rt_sessions r /\
  (forall k x, rt_inputs r' !! k = Some x <-> rt_inputs r !! k = Some x /\ exists e, rt_sessions r !! x = Some e /\ ~ claim_over now e).
Proof.
  intros H Hn. destruct (prune_inputs_fold T now (map_to_list (rt_inputs r)) r H Hn) as (G & S1 & I1).
  - apply NoDup_fst_map_to_list.
  - intros k id. apply elem_of_map_to_list.
  - split_and!; [done|done|]. intros k x. unfold pruneExpiredInputsLocked. rewrite I1. split; intros [Hx Hl]; (split; [done|]); [|done].
    by apply Hl, elem_of_map_to_list.
Qed.

Lemma prune_inputs_kept now r : same_life r (pruneExpiredInputsLocked now r) /\
  (forall id e i, rt_sessions (pruneExpiredInputsLocked now r) !! id = Some e -> se_input e = Some i -> rt_sessions r !! id = Some e).
Proof.
  unfold pruneExpiredInputsLocked. generalize (map_to_list (rt_inputs r)) as l. intros l. revert r.
  induction l as [|[key id] l IH]; intros r; cbn [foldl]; [done|]. destruct (IH (prune_input now r (key, id))) as [L S].
  assert (H1 : same_life r (prune_input now r (key, id)) /\ (forall k e i, rt_sessions (prune_input now r (key, id)) !! k = Some e -> se_input e = Some i -> rt_sessions r !! k = Some e)).
  { unfold prune_input. destruct (rt_sessions r !! id) as [e|]; [|done]. destruct (se_input e) as [i|]; [|done]. destruct (negb _); [done|].
    destruct (after _ now); [done|]. split; [done|]. cbn. intros k x j [[<- <-]|[_ Hx]]%lookup_insert_Some; [done|done]. }
  destruct H1 as [(L1 & L2 & L3) S1]. destruct L as (M1 & M2 & M3). split; [split_and!; congruence|]. intros k e i He Hi. by eapply S1, Hi; eapply S.
Qed.

(** An entry after its claim was looked at. *)
Definition without_over (now : time) (e : sessionEntry) : sessionEntry :=
  match se_input e with Some i => if after (ic_expiresAt i) now then e else se_set_input None e | None => e end.

Lemma entry_eta e : se_input e = None -> se_set_input None e = e.
Proof. destruct e. cbn. by intros ->. Qed.

Lemma prune_inputs_sessions T now r : runtime_ok T r -> now <= T -> rt_sessions (pruneExpiredInputsLocked now r) = without_over now <$> rt_sessions r.
Proof.
  intros H Hn. destruct (prune_inputs_ok T now r H Hn) as ([H1 _] & S1 & I1). cbv zeta in S1, I1. destruct (prune_inputs_kept now r) as [_ Hkept].
  set (r1 := pruneExpiredInputsLocked now r) in *. pose proof (co_index _ _ _ (ro_core _ _ H)) as X. pose proof (co_index _ _ _ (ro_core _ _ H1)) as X1.
  apply map_eq. intros id. assert (E : (se_set_input None <$> rt_sessions r1) !! id = (se_set_input None <$> rt_sessions r) !! id) by (by rewrite S1).
  rewrite lookup_fmap in *. rewrite lookup_fmap in E. destruct (rt_sessions r1 !! id) as [e1|] eqn:He1, (rt_sessions r !! id) as [e|] eqn:He; try done. cbn.
  apply (inj Some) in E. f_equal. destruct (se_input e1) as [i1|] eqn:Hi1.
  - pose proof (Hkept id e1 i1 He1 Hi1) as Hk. assert (e1 = e) as -> by congruence. unfold without_over. rewrite Hi1.
    destruct (proj1 (I1 _ _) (claim_owner _ _ _ _ X1 He1 Hi1)) as (_ & y & Hy & Hno). assert (y = e) as -> by congruence.
    destruct (after (ic_expiresAt i1) now) eqn:Ha; [done|]. unfold after in Ha. apply Z.ltb_ge in Ha. destruct Hno. by exists i1.
  - rewrite <- (entry_eta e1 Hi1), E. unfold without_over. destruct (se_input e) as [i|] eqn:Hi; [|by apply entry_eta].
    destruct (after (ic_expiresAt i) now) eqn:Ha; [|done]. unfold after in Ha. apply Z.ltb_lt in Ha.
    destruct (proj1 (ix_inputs _ X1 (ic_key i) id)) as (y & j & Hy & Hj & _); [|congruence]. apply I1. split; [by eapply claim_owner|].
    exists e. split; [done|]. intros (j & Hj & Hle). assert (j = i) as -> by congruence. lia.
Qed.

Lemma PruneExpired_goes_on T now r del_ok : runtime_ok T r -> now <= T -> goes_on 0 T r (PruneExpired del_ok now r).2.
Proof.
  intros H Hn. destruct (prune_inputs_ok T now r H Hn) as (G & _). cbv zeta in G. unfold PruneExpired. apply (goes_on_trans 0 0 T _ _ _ G).
  apply prune_goes_on, G.
Qed.

(** *** Cancellation *)

Lemma Cancel_goes_on T r id del_ok : runtime_ok T r -> goes_on 0 T r (Cancel del_ok id r).2.
Proof.
  intros H. pose proof (remove_goes_on T r id ErrCanceled del_ok H) as G. unfold removeLocked in G. unfold Cancel.
  by destruct (removeLockedContext del_ok id ErrCanceled r) as [[removed err] r'].
Qed.

Lemma cancel_one_goes_on T del_ok acc id : runtime_ok T acc.2 -> goes_on 0 T acc.2 (cancel_one del_ok acc id).2.
Proof.
  destruct acc as [[n errs] r]. intros H. pose proof (remove_goes_on T r id ErrScopeStale (del_ok id) H) as G. unfold removeLocked in G. unfold cancel_one.
  by destruct (removeLockedContext (del_ok id) id ErrScopeStale r) as [[removed [err|]] r'].
Qed.

Lemma CancelScope_goes_on T r scope del_ok : runtime_ok T r -> goes_on 0 T r (CancelScopeContext del_ok scope r).2.
Proof.
  intros H. unfold CancelScopeContext. destruct (ScopeIdentity_IsZero scope); [by apply stays|].
  assert (Hf : forall l acc, runtime_ok T acc.2 -> goes_on 0 T acc.2 (foldl (cancel_one del_ok) acc l).2).
  { induction l as [|id l IH]; intros acc Hacc; cbn [foldl]; [by apply stays|].
    destruct (cancel_one_goes_on T del_ok acc id Hacc) as [G1 G2]. apply (goes_on_trans 0 0 T _ _ _ (conj G1 G2)), IH, G1. }
  by apply (Hf _ (0, [], r)).
Qed.

End Sections.
