(* ===== verification/InteractionLifecycle.v ===== *)
(** * Interaction sessions: creation, restart and shutdown

    The sections that add sessions ([Create], [RestoreDurable]) or change the runtime's
    life ([SetDurableStore], [PreserveDurableOnShutdown], [Close]) keep the invariant. *)

From S2P Require Import Prelude.
From S2P Require Import Tasks.
From S2P Require Import GoHeap.
From S2P Require Import CommandText.
From S2P Require Import CallbackToken.
From S2P Require Import InteractionState.
From S2P Require Import InteractionOps.
From S2P Require Import InteractionInvariant.
From S2P Require Import InteractionSteps.
From S2P Require Import InteractionSections.

Section Lifecycle.
Context (config : Config) (durabilityVersion : bytes -> bytes).
Notation core_ok := (core_ok config).
Notation runtime_ok := (runtime_ok config durabilityVersion).
Notation goes_on := (goes_on config durabilityVersion).
Notation entry_ok := (entry_ok durabilityVersion).

(** ** A session is added *)

Definition inserted (id : bytes) (e : sessionEntry) (inputs : gmap input_key bytes) (rows : gmap bytes DurableSession) (r : Runtime) : Runtime :=
  scheduleExpiryLocked id (ss_ExpiresAt (se_session e)) (indexSessionLocked (se_session e)
    (put_entry id e (set_inputs inputs (with_rows rows (set_ctxs (S (rt_ctxs r)) (rt_cancelled r) r))))).

Definition free_claim (id : bytes) (e : sessionEntry) (inputs : gmap input_key bytes) (r : Runtime) : Prop :=
  match se_input e with Some i => rt_inputs r !! ic_key i = None /\ inputs = <[ic_key i := id]> (rt_inputs r) | None => inputs = rt_inputs r end.

(** What a section checks before it adds a session. *)
Record fresh_for (id : bytes) (e : sessionEntry) (inputs : gmap input_key bytes) (r : Runtime) : Prop := {
  fr_none : rt_sessions r !! id = None;
  fr_id : ss_ID (se_session e) = id;
  fr_open : rt_closed r = false;
  fr_ctx : se_ctx e = rt_ctxs r;
  fr_expiry : se_expiry e = None;
  fr_room : checkCapacityLocked config (scope_of e) (actor_of e) (bytes_in e) r = true;
  fr_state : bytes_in e <= cf_MaxStateBytes config;
  fr_claim : free_claim id e inputs r
}.

Lemma inserted_fields id e inputs rows r : se_expiry e = None -> let r' := inserted id e inputs rows r in
  let x := indexSessionLocked (se_session e) r in
  rt_closed r' = rt_closed r /\ rt_sessions r' = <[id := se_set_expiry (Some (rt_items r)) e]> (rt_sessions r) /\ rt_byScope r' = rt_byScope x /\
  rt_actorCounts r' = rt_actorCounts x /\ rt_stateBytes r' = rt_stateBytes x /\ rt_inputs r' = inputs /\ rt_ctxs r' = S (rt_ctxs r) /\
  rt_cancelled r' = rt_cancelled r /\ rt_rows r' = rows /\ rt_durable r' = rt_durable r /\ rt_preserve r' = rt_preserve r.
Proof.
  intros Hp. unfold inserted, scheduleExpiryLocked. cbn. rewrite lookup_insert_eq, Hp. cbn. by rewrite insert_insert_eq.
Qed.

Lemma checkCapacity_room sc a b r : checkCapacityLocked config sc a b r = true ->
  Z.of_nat (size (rt_sessions r)) < cf_MaxSessions config /\ Z.of_nat (size (ids_of sc r)) < cf_MaxSessionsPerScope config /\
  (a <> 0 -> zget a (rt_actorCounts r) < cf_MaxSessionsPerActor config) /\ rt_stateBytes r + b <= cf_MaxTotalStateBytes config.
Proof.
  unfold checkCapacityLocked, ids_of. rewrite !andb_true_iff, !negb_true_iff. intros [[[H1 H2] H3] H4]. bool_to_prop. split_and!; lia.
Qed.

Lemma limits_insert r r' id e : index_ok r -> limits_ok config r -> rt_sessions r !! id = None -> ss_ID (se_session e) = id ->
  checkCapacityLocked config (scope_of e) (actor_of e) (bytes_in e) r = true -> bytes_in e <= cf_MaxStateBytes config ->
  rt_sessions r' = <[id := e]> (rt_sessions r) -> rt_byScope r' = rt_byScope (indexSessionLocked (se_session e) r) -> limits_ok config r'.
Proof.
  intros Hi [L1 L2 L3 L4 L5] Hn Hid Hc Hb Es Ebs. apply checkCapacity_room in Hc as (C1 & C2 & C3 & C4). split; rewrite ?Es.
  - rewrite map_size_insert_None by done. lia.
  - intros sc. unfold ids_of. rewrite Ebs. cbn. destruct (decide (sc = scope_of e)) as [->|Hne].
    + rewrite lookup_insert_eq. cbn. fold (scope_of e) (ids_of (scope_of e) r). rewrite size_union_alt.
      rewrite size_singleton.
      assert (size (ids_of (scope_of e) r ∖ {[ss_ID (se_session e)]}) <= size (ids_of (scope_of e) r))%nat by (apply subseteq_size; set_solver). lia.
    + rewrite lookup_insert_ne by done. apply L2.
  - intros a Ha. unfold actor_count. rewrite msum_insert_fresh by done. fold (actor_count a (rt_sessions r)).
    destruct (Z.eqb_spec (actor_of e) a) as [<-|]; [|specialize (L3 a Ha); lia]. specialize (C3 Ha). rewrite (zget_counted _ _ Hi Ha) in C3. lia.
  - rewrite msum_insert_fresh by done. rewrite (ix_bytes _ Hi) in C4. lia.
  - intros k x [[<- <-]|[_ Hx]]%lookup_insert_Some; [done|by eapply L5].
Qed.

Lemma inserted_core id e inputs rows r : core_ok [] r -> fresh_for id e inputs r -> core_ok [] (inserted id e inputs rows r).
Proof.
  intros [Hi Hh Hl] [F1 F2 F3 F4 F5 F6 F7 F8]. pose proof (inserted_fields id e inputs rows r F5) as G. cbv zeta in G.
  destruct G as (G1 & G2 & G3 & G4 & G5 & G6 & G7 & G8 & _). split.
  - by apply (insert_index r _ id (se_set_expiry (Some (rt_items r)) e) inputs).
  - by apply (heap_new r).
  - by apply (limits_insert r _ id (se_set_expiry (Some (rt_items r)) e)).
Qed.

Lemma insert_goes_on T id e inputs rows r : runtime_ok T r -> fresh_for id e inputs r -> entry_ok e ->
  (forall j, j <> id -> rows !! j = rt_rows r !! j) -> (forall row, rows !! id = Some row -> row_wf id row) ->
  (rt_durable r = true -> durable_entry e = true -> exists row, rows !! id = Some row /\ row_of T e row) ->
  goes_on 0 T r (inserted id e inputs rows r).
Proof.
  intros H Hf Ho Wo Wk Wr. pose proof (inserted_fields id e inputs rows r (fr_expiry _ _ _ _ Hf)) as G. cbv zeta in G.
  destruct G as (G1 & G2 & G3 & G4 & G5 & G6 & G7 & G8 & G9 & G10 & G11). split; [split|split].
  - apply inserted_core; [apply H|done].
  - rewrite G2. intros k x [[<- <-]|[_ Hx]]%lookup_insert_Some; [|by eapply ro_entry]. destruct Ho. by split.
  - destruct (ro_store _ _ _ _ H) as [S1 S2]. split.
    + rewrite G2, G9, G10. intros Hd k x [[<- <-]|[Hne Hx]]%lookup_insert_Some Hv; [by apply Wr|]. rewrite Wo by done. by apply S1.
    + rewrite G9. intros k row. destruct (decide (k = id)) as [->|]; [apply Wk|]. rewrite Wo by done. apply S2.
  - apply H.
  - lia.
  - by rewrite G8.
  - rewrite G2. intros k x [[<- <-]|[_ Hx]]%lookup_insert_Some; [left; cbn; by rewrite (fr_ctx _ _ _ _ Hf)|right].
    exists x, 0. split_and!; [done|lia|lia|]. eapply follows_refl, eo_revision, ro_entry; done.
Qed.

(** *** [Create] *)

Lemma uniqueID_ok n : forall ids r id, uniqueIDLocked n ids r = inr id -> validSessionID id = true /\ rt_sessions r !! id = None.
Proof.
  induction n as [|n IH]; intros ids r id; [done|]. cbn. destruct ids as [|[x|] ids]; [done| |done]. destruct (validSessionID x) eqn:Hv; cbn [negb]; [|done].
  destruct (rt_sessions r !! x) eqn:Hx; [apply IH|]. by intros [= <-].
Qed.

(** A context is made for nothing: the store refused the row. *)
Lemma stillborn_goes_on T r cause : runtime_ok T r -> goes_on 0 T r (cancel_ctx (rt_ctxs r) cause (set_ctxs (S (rt_ctxs r)) (rt_cancelled r) r)).
Proof.
  intros H. pose proof (stillborn_ctx r cause (co_index _ _ _ (ro_core _ _ _ _ H))) as Hi.
  set (r' := cancel_ctx _ _ _) in *.
  assert (G : rt_sessions r' = rt_sessions r /\ rt_byScope r' = rt_byScope r /\ rt_expiries r' = rt_expiries r /\ rt_items r' = rt_items r /\ rt_rows r' = rt_rows r /\
    rt_durable r' = rt_durable r /\ rt_ctxs r' = S (rt_ctxs r) /\ rt_cancelled r ⊆ rt_cancelled r').
  { unfold r', cancel_ctx. cbn. destruct (rt_cancelled r !! rt_ctxs r) eqn:E; cbn; [done|]. split_and!; try done. by apply insert_subseteq. }
  clearbody r'. destruct G as (G1 & G2 & G3 & G4 & G5 & G6 & G7 & G8). split; [split; [split|..]|split].
  - done.
  - destruct (co_heap _ _ _ (ro_core _ _ _ _ H)) as [K1 K2 K3 K4]. split; unfold items in *; rewrite ?G1, ?G3, ?G4; done.
  - apply (limits_ext config r); [done..|]. apply H.
  - rewrite G1. apply H.
  - destruct (ro_store _ _ _ _ H) as [S1 S2]. split; rewrite ?G1, ?G5, ?G6; done.
  - apply H.
  - lia.
  - done.
  - rewrite G1. intros k x Hx. right. exists x, 0. split_and!; [done|lia|lia|]. eapply follows_refl, eo_revision, ro_entry; done.
Qed.

Lemma Create_goes_on T now r ids save_ok del_ok featureID scope b state ttl : runtime_ok T r -> binding_Validate b = None -> blen state <= cf_MaxStateBytes config ->
  goes_on 0 T r (Create_section config durabilityVersion ids save_ok del_ok now featureID scope b state ttl r).2.
Proof.
  intros H Hb Hs. unfold Create_section. destruct (rt_closed r) eqn:Hc; [by apply stays|].
  pose proof (prune_goes_on config durabilityVersion T now r del_ok H) as G.
  assert (Hc' : rt_closed (pruneExpiredLocked del_ok now r).2 = false).
  { destruct (pruneExpired_ok config del_ok now r (ro_core _ _ _ _ H)) as (_ & [(L & _) _ _ _ _ _] & _). by rewrite L. }
  cbv zeta. set (r1 := (pruneExpiredLocked del_ok now r).2) in *. clearbody r1. destruct G as [H1 E1].
  apply (goes_on_trans config durabilityVersion 0 0 T r r1 _ (conj H1 E1)). clear r H E1 Hc. rename r1 into r, H1 into H, Hc' into Hc.
  destruct (checkCapacityLocked config scope (bn_ActorID b) (blen state) r) eqn:Hroom; cbn [negb]; [|by apply counters_goes_on].
  destruct (uniqueIDLocked 4 ids r) as [err|id] eqn:Hid; [by apply stays|]. apply uniqueID_ok in Hid as [Hv Hn].
  set (s := mkSession id featureID scope b state 1 now (now + ttl)). set (r0 := set_ctxs _ _ r).
  set (e := mkEntry s (durabilityVersion featureID) (rt_ctxs r) None None).
  assert (Ho : entry_ok e) by (by split).
  destruct (save_cases durabilityVersion save_ok s None r0) as [->| ->]; cbn [snd].
  - assert (Ex : exists c, cancel_ctx (rt_ctxs r) ErrStore (count_store r0) = set_counters c (cancel_ctx (rt_ctxs r) ErrStore r0)).
    { unfold cancel_ctx. cbn. destruct (rt_cancelled r !! rt_ctxs r); by eexists. }
    destruct Ex as [c ->]. destruct (stillborn_goes_on T r ErrStore H) as [G1 G2].
    apply (goes_on_trans config durabilityVersion 0 0 T _ _ _ (conj G1 G2)). by apply counters_goes_on.
  - change (goes_on 0 T r (inserted id e (rt_inputs r) (rows_saved durabilityVersion s None r) r)).
    pose proof (ro_store _ _ _ _ H) as [S1 S2]. apply insert_goes_on; [done|by split|done|..].
    + intros j Hj. by apply (rows_saved_other durabilityVersion s None r).
    + intros row Hr. apply (rows_saved_key durabilityVersion s None r row) in Hr; [done|done|apply S2].
    + intros Hd Hv'. by apply (rows_saved_row durabilityVersion T e r (ro_time _ _ _ _ H)).
Qed.

(** ** [RestoreDurable] *)

(** The session a row stands for in the scope [sc], with its context [ctx]. *)
Definition restored_entry (sc : ScopeIdentity) (row : DurableSession) (ctx : nat) (input : option inputClaim) : sessionEntry :=
  mkEntry (ss_set_scope sc (du_Session row)) (du_Version row) ctx None input.
Definition row_inputs (row : DurableSession) (input : option inputClaim) (r : Runtime) : gmap input_key bytes :=
  match input with Some i => <[ic_key i := ss_ID (du_Session row)]> (rt_inputs r) | None => rt_inputs r end.

Lemma restorable_ok scope now row : restorable config durabilityVersion scope now row = true -> let s := du_Session row in
  (exists sc, scope = Some sc) /\ du_Version row = durabilityVersion (ss_FeatureID s) /\ no_bytes (du_Version row) = false /\ now < ss_ExpiresAt s /\
  validSessionID (ss_ID s) = true /\ ss_Revision s <> 0 /\ binding_Validate (ss_Binding s) = None /\ blen (ss_State s) <= cf_MaxStateBytes config.
Proof.
  unfold restorable, bytes_eqb, after. cbv zeta. rewrite !andb_true_iff, !negb_true_iff. intros [[[[[[[H1 H2] H3] H4] H5] H6] H7] H8]. bool_to_prop.
  split_and!; try done.
  - destruct scope as [sc|]; [by exists sc|done].
  - by destruct (binding_Validate _).
Qed.

(** Only a claim that is not over is restored, for the actor and chat of the binding. *)
Lemma restore_input_ok now row r input : restore_input now row r = inr input ->
  match input with
  | Some i => inputKeyFromBinding (ss_Binding (du_Session row)) = Some (ic_key i) /\ ic_expiresAt i = du_InputExpires row /\ now < ic_expiresAt i /\ rt_inputs r !! ic_key i = None
  | None => du_InputExpires row = 0 \/ du_InputExpires row <= now
  end.
Proof.
  unfold restore_input, is_zero, after. cbv zeta. destruct (Z.eqb_spec (du_InputExpires row) 0) as [Hz|Hz]; cbn [negb andb]; [intros [= <-]; by left|].
  destruct (Z.ltb_spec now (du_InputExpires row)) as [Hlt|Hge]; [|intros [= <-]; by right].
  destruct (inputKeyFromBinding _) as [key|] eqn:Hk; [|done]. destruct (rt_inputs r !! key) eqn:Hi; [done|]. by intros [= <-].
Qed.

Lemma reject_goes_on T r id del_ok : runtime_ok T r -> rt_sessions r !! id = None -> let '(o, r') := reject_row del_ok id r in
  goes_on 0 T r r' /\ (o = Some r' \/ o = None) /\ rt_sessions r' = rt_sessions r /\ rt_durable r' = rt_durable r /\ (forall j, j <> id -> rt_rows r' !! j = rt_rows r !! j).
Proof.
  intros H Hn. unfold reject_row. destruct del_ok; [|split_and!; try done; [by apply counters_goes_on|by right]].
  split_and!; try done; [|by left|intros j Hj; cbn; by rewrite lookup_delete_ne].
  apply removes_goes_on; [done| |apply counters_ok, set_store_ok, H]. split; try done; cbn.
  - intros j [x Hx]. rewrite lookup_delete_ne by congruence. done.
  - apply delete_subseteq.
  - intros j x Hx Hno. congruence.
Qed.

(** What the loop of [RestoreDurable] relies on: the rows are the store's, one for each
    identifier, and what is in memory already would be restored too. *)
Definition rows_ready (scopeOf : bytes -> option ScopeIdentity) (now : time) (rows : list DurableSession) (r : Runtime) : Prop :=
  rt_closed r = false /\ rt_durable r = true /\ NoDup (map (fun row => ss_ID (du_Session row)) rows) /\
  forall row, row ∈ rows -> rt_rows r !! ss_ID (du_Session row) = Some row /\
    (is_Some (rt_sessions r !! ss_ID (du_Session row)) -> restorable config durabilityVersion (scopeOf (ss_FeatureID (du_Session row))) now row = true).

(** A row nothing speaks against is restored. *)
Lemma restore_row_good r scopeOf del_ok now row sc input : restorable config durabilityVersion (scopeOf (ss_FeatureID (du_Session row))) now row = true ->
  scopeOf (ss_FeatureID (du_Session row)) = Some sc -> rt_sessions r !! ss_ID (du_Session row) = None ->
  checkCapacityLocked config sc (bn_ActorID (ss_Binding (du_Session row))) (blen (ss_State (du_Session row))) r = true -> restore_input now row r = inr input ->
  let r' := count_restored (inserted (ss_ID (du_Session row)) (restored_entry sc row (rt_ctxs r) input) (row_inputs row input r) (rt_rows r) r) in
  restore_row config durabilityVersion scopeOf del_ok now row r = (Some r', r').
Proof.
  intros Hr Hs Hn Hc Hi. unfold restore_row. cbv zeta. rewrite Hr, Hs, Hn. cbn [negb]. change (default (mkScope "" 0) (Some sc)) with sc. rewrite Hc. cbn [negb].
  change (restore_input now row _) with (restore_input now row r). rewrite Hi. by destruct input.
Qed.

Lemma restore_row_ok T now r scopeOf del_ok row : runtime_ok T r -> now <= T -> rt_closed r = false -> rt_durable r = true ->
  let id := ss_ID (du_Session row) in rt_rows r !! id = Some row ->
  (is_Some (rt_sessions r !! id) -> restorable config durabilityVersion (scopeOf (ss_FeatureID (du_Session row))) now row = true) ->
  let '(o, r') := restore_row config durabilityVersion scopeOf del_ok now row r in
  goes_on 0 T r r' /\ (o = Some r' \/ o = None) /\ same_life r r' /\
  (forall j, j <> id -> rt_rows r' !! j = rt_rows r !! j /\ rt_sessions r' !! j = rt_sessions r !! j).
Proof.
  intros H Hn Hc Hd id Hrow Hlive. unfold restore_row. cbv zeta. fold id.
  assert (Hreject : forall r0, goes_on 0 T r r0 -> same_life r r0 -> rt_sessions r0 = rt_sessions r -> rt_rows r0 = rt_rows r -> rt_sessions r !! id = None ->
    let '(o, r') := reject_row (del_ok id) id r0 in goes_on 0 T r r' /\ (o = Some r' \/ o = None) /\ same_life r r' /\
    (forall j, j <> id -> rt_rows r' !! j = rt_rows r !! j /\ rt_sessions r' !! j = rt_sessions r !! j)).
  { intros r0 [H0 E0] L0 Es Ew Hid. pose proof (reject_goes_on T r0 id (del_ok id) H0 ltac:(by rewrite Es)) as R.
    assert (L : same_life r0 (reject_row (del_ok id) id r0).2) by (unfold reject_row; by destruct (del_ok id)).
    destruct (reject_row (del_ok id) id r0) as [o r'] eqn:Er. cbn in L. destruct R as (R1 & R2 & R3 & _ & R4). destruct L0 as (? & ? & ?), L as (? & ? & ?). split_and!; [|done|split_and!; congruence|].
    - by apply (goes_on_trans config durabilityVersion 0 0 T _ _ _ (conj H0 E0)).
    - intros j Hj. rewrite R3, R4, Es, Ew by done. done. }
  destruct (restorable config durabilityVersion _ now row) eqn:Hr; cbn [negb].
  2: { apply Hreject; try done; [by apply stays|]. destruct (rt_sessions r !! id) eqn:Hid; [|done]. specialize (Hlive ltac:(by eexists)). congruence. }
  destruct (restorable_ok _ _ _ Hr) as ((sc & Hsc) & V1 & V2 & V3 & V4 & V5 & V6 & V7). rewrite Hsc. cbn [default].
  destruct (rt_sessions r !! id) as [x|] eqn:Hid; [split_and!; try done; [by apply stays|by left]|].
  destruct (checkCapacityLocked _ _ _ _ r) eqn:Hroom; cbn [negb]; [|apply Hreject; try done; by apply stays].
  set (r0 := set_ctxs _ _ r). change (ss_ID (ss_set_scope sc (du_Session row))) with id. change (restore_input now row r0) with (restore_input now row r).
  destruct (restore_input now row r) as [err|input] eqn:Hin.
  { apply Hreject; try done; [by apply stillborn_goes_on|..]; unfold cancel_ctx, same_life; by destruct (rt_cancelled r0 !! _). }
  apply restore_input_ok in Hin. destruct (st_key _ _ (ro_store _ _ _ _ H) _ _ Hrow) as (W1 & W2 & W3).
  set (e := restored_entry sc row (rt_ctxs r) input).
  assert (Ho : entry_ok e). { split; try done. intros i Hi. cbn in Hi. subst input. apply Hin. }
  assert (Hf : fresh_for id e (row_inputs row input r) r). { split; try done. unfold free_claim. cbn. destruct input; [|done]. by destruct Hin as (_ & _ & _ & ?). }
  assert (G : goes_on 0 T r (inserted id e (row_inputs row input r) (rt_rows r) r)).
  { apply insert_goes_on; try done; [apply H|]. intros _ _. exists row. split; [done|]. split_and!; [by rewrite <- W2|done|]. cbn.
    pose proof (ro_time _ _ _ _ H). destruct input as [i|]; [by destruct Hin as (_ & -> & _)|]. destruct Hin; lia. }
  pose proof (inserted_fields id e (row_inputs row input r) (rt_rows r) r eq_refl) as F. cbv zeta in F.
  destruct F as (F1 & F2 & _ & _ & _ & _ & _ & _ & F9 & F10 & F11).
  match goal with |- context [count_restored ?x] => replace x with (inserted id e (row_inputs row input r) (rt_rows r) r) by (by destruct input) end.
  set (r1 := inserted _ _ _ _ _) in *. destruct G as [G1 G2]. split_and!.
  - apply (goes_on_trans config durabilityVersion 0 0 T _ _ _ (conj G1 G2)). by apply counters_goes_on.
  - by left.
  - by split_and!.
  - intros j Hj. split; [by rewrite <- F9|]. change (rt_sessions r1 !! j = rt_sessions r !! j). rewrite F2. by rewrite lookup_insert_ne.
Qed.

Lemma rows_ready_next T now r r' scopeOf row rows : rows_ready scopeOf now (row :: rows) r -> same_life r r' ->
  (forall j, j <> ss_ID (du_Session row) -> rt_rows r' !! j = rt_rows r !! j /\ rt_sessions r' !! j = rt_sessions r !! j) -> goes_on 0 T r r' -> rows_ready scopeOf now rows r'.
Proof.
  intros (Hc & Hd & Hnd & Hin) (L1 & L2 & _) Hj _. cbn in Hnd. apply NoDup_cons in Hnd as [Hnew Hnd]. split_and!; [congruence|congruence|done|].
  intros x Hx. assert (Hne : ss_ID (du_Session x) <> ss_ID (du_Session row)).
  { intros E. apply Hnew. rewrite <- E. by apply (list_elem_of_fmap_2 (fun row => ss_ID (du_Session row)) rows x). }
  destruct (Hj _ Hne) as [-> ->]. apply Hin. by right.
Qed.

Lemma restore_rows_goes_on T now scopeOf del_ok rows : forall r, runtime_ok T r -> now <= T -> rows_ready scopeOf now rows r ->
  goes_on 0 T r (restore_rows config durabilityVersion scopeOf del_ok now rows r).2.
Proof.
  induction rows as [|row rows IH]; intros r H Hn Hr; cbn [restore_rows]; [by apply stays|].
  pose proof Hr as (Hc & Hd & _ & Hin). destruct (Hin row ltac:(left)) as [Hrow Hlive].
  pose proof (restore_row_ok T now r scopeOf del_ok row H Hn Hc Hd Hrow Hlive) as R.
  destruct (restore_row _ _ _ _ _ _ _) as [o r1]. destruct R as (G & Ho & L & Hj). destruct Ho as [-> | ->]; [|done].
  pose proof (rows_ready_next T now r r1 scopeOf row rows Hr L Hj G) as Hr1. destruct G as [G1 G2].
  apply (goes_on_trans config durabilityVersion 0 0 T _ _ _ (conj G1 G2)). by apply IH.
Qed.

Lemma RestoreDurable_goes_on T now r scopeOf del_ok rows : runtime_ok T r -> now <= T ->
  (forall l, rows = Some l -> rt_closed r = false -> rt_durable r = true -> rows_ready scopeOf now l r) ->
  goes_on 0 T r (RestoreDurable config durabilityVersion scopeOf del_ok now rows r).2.
Proof.
  intros H Hn Hr. unfold RestoreDurable. destruct (rt_closed r) eqn:Hc; [by apply stays|]. destruct (rt_durable r) eqn:Hd; cbn [negb]; [|by apply stays].
  destruct rows as [l|]; [|by apply counters_goes_on]. apply restore_rows_goes_on; [done..|]. by apply Hr.
Qed.

(** ** The runtime's life *)

Lemma life_goes_on T r r' : runtime_ok T r -> core_ok [] r' -> rt_sessions r' = rt_sessions r -> rt_rows r' = rt_rows r -> same_ctxs r r' ->
  (rt_durable r' = true -> rt_durable r = true \/ rt_sessions r = ∅) -> goes_on 0 T r r'.
Proof.
  intros H Hc Es Ew [C X] Hd. split; [split|split].
  - done.
  - rewrite Es. apply H.
  - destruct (ro_store _ _ _ _ H) as [S1 S2]. split; rewrite ?Es, ?Ew; [|done]. intros Hd'. destruct (Hd Hd') as [Hd0|He]; [by apply S1|].
    intros id e Hid. by rewrite He, lookup_empty in Hid.
  - apply H.
  - lia.
  - done.
  - rewrite Es. intros k x Hx. right. exists x, 0. split_and!; [done|lia|lia|]. eapply follows_refl, eo_revision, ro_entry; done.
Qed.

Lemma SetDurableStore_goes_on T r : runtime_ok T r -> goes_on 0 T r (SetDurableStore r).2.
Proof.
  intros H. unfold SetDurableStore. destruct (_ || _) eqn:E; [by apply stays|]. bool_to_prop. apply life_goes_on; try done; [apply set_store_ok, H|].
  intros _. by right.
Qed.

Lemma Preserve_goes_on T r : runtime_ok T r -> goes_on 0 T r (PreserveDurableOnShutdown r).
Proof. intros H. apply life_goes_on; try done; [apply set_store_ok, H|]. by left. Qed.

Lemma cancel_all_fold cause l : forall r, (forall c, is_Some (rt_cancelled r !! c) -> (c < rt_ctxs r)%nat) -> (forall c, c ∈ l -> (c < rt_ctxs r)%nat) ->
  exists x, foldl (fun r c => cancel_ctx c cause r) r l = set_ctxs (rt_ctxs r) x r /\ rt_cancelled r ⊆ x /\ (forall c, c ∈ l -> is_Some (x !! c)) /\
    (forall c, is_Some (x !! c) -> (c < rt_ctxs r)%nat).
Proof.
  induction l as [|c l IH]; intros r Hm Hl; cbn [foldl].
  { exists (rt_cancelled r). split_and!; [by destruct r|done|intros c Hc; by apply elem_of_nil in Hc|done]. }
  assert (E : exists y, cancel_ctx c cause r = set_ctxs (rt_ctxs r) y r /\ rt_cancelled r ⊆ y /\ is_Some (y !! c) /\ (forall d, is_Some (y !! d) -> (d < rt_ctxs r)%nat)).
  { unfold cancel_ctx. destruct (rt_cancelled r !! c) eqn:Ec.
    - exists (rt_cancelled r). split_and!; [by destruct r|done|by rewrite Ec|done].
    - exists (<[c := cause]> (rt_cancelled r)). split_and!; [done|by apply insert_subseteq|by rewrite lookup_insert_eq|].
      intros d [z [[<- _]|[_ Hz]]%lookup_insert_Some]; [apply Hl; left|apply Hm; by exists z]. }
  destruct E as (y & -> & Y1 & Y2 & Y3). destruct (IH (set_ctxs (rt_ctxs r) y r)) as (x & -> & X1 & X2 & X3); [exact Y3|intros d Hd; apply Hl; by right|].
  exists x. split_and!; [done|by etrans|intros d [->|Hd]%elem_of_cons; [|by apply X2]|done].
  destruct Y2 as [z Hz]. exists z. cbn in X1. rewrite map_subseteq_spec in X1. by apply X1.
Qed.

Definition limits_nonneg : Prop :=
  0 <= cf_MaxSessions config /\ 0 <= cf_MaxSessionsPerScope config /\ 0 <= cf_MaxSessionsPerActor config /\ 0 <= cf_MaxTotalStateBytes config.

Lemma limits_empty r : limits_nonneg -> rt_sessions r = ∅ -> rt_byScope r = ∅ -> limits_ok config r.
Proof.
  intros (L1 & L2 & L3 & L4) Es Eb. split; rewrite ?Es; unfold ids_of, actor_count; rewrite ?Eb, ?msum_empty.
  - rewrite map_size_empty. done.
  - intros sc. rewrite lookup_empty. cbn. rewrite size_empty. done.
  - done.
  - done.
  - done.
Qed.

Lemma empty_core r : limits_nonneg -> rt_sessions r = ∅ -> rt_byScope r = ∅ -> rt_actorCounts r = ∅ -> rt_inputs r = ∅ -> rt_stateBytes r = 0 ->
  rt_expiries r = mkHeap [] ∅ -> (forall c, (c < rt_ctxs r)%nat <-> is_Some (rt_cancelled r !! c)) -> core_ok [] r.
Proof.
  intros Hlim E1 E2 E3 E4 E5 E6 Hx. split; [split| |by apply limits_empty]; rewrite ?E1, ?E2, ?E3, ?E4, ?E5; unfold ids_of; rewrite ?E2; try done.
  - intros sc id. rewrite lookup_empty. cbn. split; [set_solver|]. intros (e & He & _). by rewrite lookup_empty in He.
  - intros a. rewrite lookup_empty. unfold counted, actor_count. rewrite msum_empty. by rewrite orb_true_r.
  - intros key id. rewrite lookup_empty. split; [done|]. intros (e & i & He & _). by rewrite lookup_empty in He.
  - intros c Hc. apply Hx in Hc as [z Hz]. rewrite Hz. split; [done|]. intros (id & e & He & _). by rewrite lookup_empty in He.
  - intros c z Hc. apply Hx. by exists z.
  - split; unfold items; rewrite ?E6, ?E1; cbn; [split; [intros k Hk; cbn in Hk; lia|done]|constructor|done|]. intros it Hit. by apply elem_of_nil in Hit.
Qed.

Lemma Close_goes_on T r : runtime_ok T r -> goes_on 0 T r (Close r).
Proof.
  intros H. unfold Close. destruct (rt_closed r) eqn:Hc; [by apply stays|]. pose proof (co_index _ _ _ (ro_core _ _ _ _ H)) as Hi.
  destruct (cancel_all_fold ErrClosed (seq 0 (rt_ctxs r)) r) as (x & -> & X1 & X2 & X3).
  { intros c [z Hz]. by apply (ix_made _ Hi c z). }
  { intros c Hin. apply elem_of_seq in Hin. lia. }
  cbv zeta. split; [split|split]; cbn; try done.
  - apply empty_core; try done; cbn.
    + destruct (co_limits _ _ _ (ro_core _ _ _ _ H)) as [L1 L2 L3 L4 _]. split_and!.
      * lia.
      * specialize (L2 (mkScope "" 0)). lia.
      * specialize (L3 1 ltac:(done)). pose proof (actor_count_nonneg 1 (rt_sessions r)). lia.
      * pose proof (state_bytes_nonneg (rt_sessions r)). lia.
    + intros c. split; [intros Hlt; apply X2, elem_of_seq; lia|apply X3].
  - destruct (ro_store _ _ _ _ H) as [S1 S2]. by split.
  - apply H.
Qed.

Lemma NewRuntime_ok T rows : limits_nonneg -> 0 <= T -> (forall id row, rows !! id = Some row -> row_wf id row) -> runtime_ok T (NewRuntime rows).
Proof.
  intros Hl HT Hw. split; [|done|by split|done]. apply empty_core; try done. intros c. cbn. rewrite lookup_empty. split; [lia|by intros [? ?]].
Qed.

End Lifecycle.
