(* ===== verification/InteractionRuntime.v ===== *)
(** * Interaction sessions: the runtime's operations

    The methods of [internal/interaction]'s runtime as the callers see them: their
    argument checks, their sections, and between two sections of one call whatever other
    goroutines do. A button acts on the view it was drawn for. *)

From S2P Require Import Prelude.
From S2P Require Import Tasks.
From S2P Require Import GoHeap.
From S2P Require Import CommandText.
From S2P Require Import CallbackToken.
From S2P Require Import InteractionState.
From S2P Require Import InteractionOps.
From S2P Require Import InteractionInvariant.
From S2P Require Import InteractionSteps.
From S2P Require Import InteractionSections.
From S2P Require Import InteractionLifecycle.

(** What one call meets: whether its context is done, and at its [i]-th section the clock,
    the catalog, the store's answers, and what other goroutines do before it. *)
Record World := mkWorld {
  w_done : bool;
  w_now : nat -> time;
  w_scope : nat -> bytes -> option ScopeIdentity;
  w_action : bytes -> bytes -> bool;
  w_del : nat -> bytes -> bool;
  w_save : nat -> bool;
  w_ids : list (option bytes);
  w_others : nat -> Runtime -> Runtime
}.

Section Runtime.
Context (ToLower : bytes -> bytes) (config : Config) (durabilityVersion : bytes -> bytes) (w : World).

Definition result : Type := irt_error + Session * nat.

(** [loadCurrentSession]; the [i]-th section, and the one after it when the scope is stale. *)
Definition loadCurrentSession (includeState : bool) (i : nat) (id : bytes) (r : Runtime) : result * Runtime :=
  match load_section includeState (w_del w i) (w_now w i) id r with
  | (inl e, r) => (inl e, r)
  | (inr (s, ctx), r) =>
      match scope_check (w_scope w i (ss_FeatureID s)) (w_del w i id) s (w_others w i r) with
      | (Some e, r) => (inl e, r)
      | (None, r) => (inr (s, ctx), r)
      end
  end.

Definition Create (q : CreateRequest) (r : Runtime) : result * Runtime :=
  if w_done w then (inl ErrContext, r)
  else match Create_args ToLower config (rt_closed r) q with
       | inl e => (inl e, r)
       | inr (featureID, b, ttl) =>
           match w_scope w 0 featureID with
           | None => (inl ErrInvalidFeature, r)
           | Some scope =>
               if ScopeIdentity_IsZero scope then (inl ErrInvalidFeature, r)
               else match Create_section config durabilityVersion (w_ids w) (w_save w 0) (w_del w 0) (w_now w 0) featureID scope b (cr_State q) ttl (w_others w 0 r) with
                    | (inl e, r) => (inl e, r)
                    | (inr (s, ctx), r) =>
                        match scope_check (w_scope w 1 featureID) (w_del w 1 (ss_ID s)) s (w_others w 1 r) with
                        | (Some e, r) => (inl e, r)
                        | (None, r) => (inr (s, ctx), r)
                        end
                    end
           end
       end.

Definition Resolve (i : nat) (id : bytes) (actual : Binding) (r : Runtime) : result * Runtime :=
  if w_done w then (inl ErrContext, r)
  else
    let actual := binding_normalized actual in
    match binding_Validate actual with
    | Some e => (inl e, r)
    | None =>
        match loadCurrentSession true i id r with
        | (inl e, r) => (inl e, r)
        | (inr (s, ctx), r) => match Resolve_check actual s with Some e => (inl e, r) | None => (inr (s, ctx), r) end
        end
    end.

(** The deadline a request asks for: none, the default, or its own. *)
Definition optional_ttl (ttl : duration) : option (option duration) :=
  if ttl =? 0 then Some None else match normalizeTTL config ttl with Some ttl => Some (Some ttl) | None => None end.

Definition UpdateState (id : bytes) (expected : Z) (state : bytes) (ttl : duration) (r : Runtime) : (irt_error + Session) * Runtime :=
  if w_done w then (inl ErrContext, r)
  else if cf_MaxStateBytes config <? blen state then (inl ErrStateTooLarge, r)
  else if expected =? 0 then (inl ErrRevisionConflict, r)
  else match optional_ttl ttl with
       | None => (inl ErrInvalidTTL, r)
       | Some ttl =>
           match loadCurrentSession false 0 id r with
           | (inl e, r) => (inl e, r)
           | (inr (s, _), r) => UpdateState_section config durabilityVersion (w_save w 1) (w_del w 1 id) (w_now w 1) id (ss_Scope s) expected state ttl (w_others w 1 r)
           end
       end.

Definition BindTarget (i : nat) (id : bytes) (expected : Z) (target : TargetBinding) (r : Runtime) : (irt_error + Session) * Runtime :=
  if w_done w then (inl ErrContext, r)
  else if expected =? 0 then (inl ErrRevisionConflict, r)
  else match validateComplete target with
       | Some e => (inl e, r)
       | None =>
           match loadCurrentSession false i id r with
           | (inl e, r) => (inl e, r)
           | (inr (s, _), r) =>
               BindTarget_section durabilityVersion (w_save w (S i)) (w_del w (S i) id) (w_now w (S i)) id (ss_Scope s) expected target (w_others w (S i) r)
           end
       end.

Definition Touch (id : bytes) (ttl : duration) (r : Runtime) : (irt_error + Session) * Runtime :=
  if w_done w then (inl ErrContext, r)
  else match normalizeTTL config ttl with
       | None => (inl ErrInvalidTTL, r)
       | Some ttl =>
           match loadCurrentSession false 0 id r with
           | (inl e, r) => (inl e, r)
           | (inr (s, _), r) => Touch_section durabilityVersion (w_save w 1) (w_del w 1 id) (w_now w 1) id (ss_Scope s) ttl (w_others w 1 r)
           end
       end.

Definition ArmInput (id : bytes) (expected : Z) (state : bytes) (ttl : duration) (r : Runtime) : (irt_error + Session) * Runtime :=
  if w_done w then (inl ErrContext, r)
  else if cf_MaxStateBytes config <? blen state then (inl ErrStateTooLarge, r)
  else if expected =? 0 then (inl ErrRevisionConflict, r)
  else match normalizeTTL config ttl with
       | None => (inl ErrInvalidTTL, r)
       | Some ttl =>
           match loadCurrentSession false 0 id r with
           | (inl e, r) => (inl e, r)
           | (inr (s, _), r) =>
               match inputKeyFromBinding (ss_Binding s) with
               | None => (inl ErrInvalidBinding, r)
               | Some key =>
                   ArmInput_section config durabilityVersion (w_save w 1) (w_del w 1 id) (w_now w 1) id (ss_Scope s) expected state ttl key (w_others w 1 r)
               end
           end
       end.

(** The flag says whether there was a claim to take. *)
Definition TakeInput (actorID chatID : Z) (r : Runtime) : bool * (irt_error + option (Session * nat)) * Runtime :=
  if w_done w then (false, inl ErrContext, r)
  else if (actorID =? 0) || (chatID =? 0) then (false, inl ErrInvalidBinding, r)
  else match TakeInput_section durabilityVersion (w_save w 0) (w_del w 0) (w_now w 0) actorID chatID r with
       | (taken, inr (Some (s, ctx)), r) =>
           match scope_check (w_scope w 0 (ss_FeatureID s)) (w_del w 0 (ss_ID s)) s (w_others w 0 r) with
           | (Some e, r) => (true, inl e, r)
           | (None, r) => (taken, inr (Some (s, ctx)), r)
           end
       | other => other
       end.

(** ** [callback.go] *)

Fixpoint callback_batch (s : Session) (actionIDs : list bytes) : irt_error + list bytes :=
  match actionIDs with
  | [] => inr []
  | actionID :: actionIDs =>
      let actionID := normalizeFeatureID ToLower actionID in
      if negb (validIdentifier ToLower actionID) || negb (w_action w (ss_FeatureID s) actionID) then inl ErrActionNotFound
      else match EncodeCallbackToken ToLower (ss_FeatureID s) actionID (ss_ID s) (ss_Revision s) with
           | inl e => inl (ErrToken e)
           | inr data => match callback_batch s actionIDs with inl e => inl e | inr out => inr (data :: out) end
           end
  end.
Definition CallbackDataBatch (id : bytes) (actionIDs : list bytes) (r : Runtime) : (irt_error + list bytes) * Runtime :=
  if w_done w then (inl ErrContext, r)
  else match loadCurrentSession false 0 id r with
       | (inl e, r) => (inl e, r)
       | (inr (s, _), r) => (callback_batch s actionIDs, r)
       end.

(** [CallbackData]; [None] would be the index out of range of an empty batch. *)
Definition CallbackData (id actionID : bytes) (r : Runtime) : option (irt_error + bytes) * Runtime :=
  match CallbackDataBatch id [actionID] r with
  | (inl e, r) => (Some (inl e), r)
  | (inr batch, r) => (inr <$> hd_error batch, r)
  end.

Record ResolvedCallback := mkResolved { rc_Token : CallbackToken; rc_Session : Session; rc_Context : nat }.

Definition callback_finish (t : CallbackToken) (s : Session) (ctx : nat) : irt_error + ResolvedCallback :=
  if negb (ss_Revision s =? tk_Revision t) then inl ErrStaleToken
  else if negb (w_action w (ss_FeatureID s) (tk_ActionID t)) then inl ErrActionNotFound
  else inr (mkResolved (mkToken (tk_Version t) (ss_FeatureID s) (tk_ActionID t) (tk_SessionID t) (tk_Revision t)) s ctx).

(** [Resolve] is section 0; the sections of [BindTarget] are 2 and 3. *)
Definition ResolveCallback (data : bytes) (actual : Binding) (r : Runtime) : (irt_error + ResolvedCallback) * Runtime :=
  match ParseCallbackToken ToLower data with
  | None => (inl (ErrToken ErrInvalidCallbackToken), r)
  | Some t =>
      match Resolve 0 (tk_SessionID t) actual r with
      | (inl e, r) => (inl e, r)
      | (inr (s, ctx), r) =>
          match (if bindingHasTarget (ss_Binding s) then None else completeTargetFromBinding actual) with
          | Some target =>
              match BindTarget 2 (tk_SessionID t) (tk_Revision t) target (w_others w 1 r) with
              | (inl e, r) => (inl e, r)
              | (inr s, r) => (callback_finish t s ctx, r)
              end
          | None => (callback_finish t s ctx, r)
          end
      end
  end.

End Runtime.
