(* ===== verification/InteractionTheorems.v ===== *)
(** * Interaction sessions: the invariant and the callbacks

    Runs of the runtime as sequences of the sections of all goroutines, what holds after
    each, what a prune leaves, and on which session a callback acts. *)

From S2P Require Import Prelude.
From S2P Require Import Tasks.
From S2P Require Import GoHeap.
From S2P Require Import Utf8.
From S2P Require Import CommandText.
From S2P Require Import CallbackToken.
From S2P Require Import InteractionState.
From S2P Require Import InteractionOps.
From S2P Require Import InteractionInvariant.
From S2P Require Import InteractionSteps.
From S2P Require Import InteractionSections.
From S2P Require Import InteractionLifecycle.
From S2P Require Import InteractionRuntime.

(** ** Runs *)

(** What a goroutine does while it holds the lock. *)
Inductive section :=
  | SecCreate (ids : list (option bytes)) (save : bool) (del : bytes -> bool) (now : time) (feature : bytes) (scope : ScopeIdentity) (b : Binding) (state : bytes) (ttl : duration)
  | SecLoad (state : bool) (del : bytes -> bool) (now : time) (id : bytes)
  | SecScope (scope : option ScopeIdentity) (del : bool) (s : Session)
  | SecUpdate (save del : bool) (now : time) (id : bytes) (scope : ScopeIdentity) (expected : Z) (state : bytes) (ttl : option duration)
  | SecBind (save del : bool) (now : time) (id : bytes) (scope : ScopeIdentity) (expected : Z) (target : TargetBinding)
  | SecTouch (save del : bool) (now : time) (id : bytes) (scope : ScopeIdentity) (ttl : duration)
  | SecArm (save del : bool) (now : time) (id : bytes) (scope : ScopeIdentity) (expected : Z) (state : bytes) (ttl : duration) (key : input_key)
  | SecTake (save : bool) (del : bytes -> bool) (now : time) (actor chat : Z)
  | SecRelease (save : bool) (id : bytes)
  | SecCancel (del : bool) (id : bytes)
  | SecCancelScope (del : bytes -> bool) (scope : ScopeIdentity)
  | SecPrune (del : bytes -> bool) (now : time)
  | SecRestore (scopeOf : bytes -> option ScopeIdentity) (del : bytes -> bool) (now : time) (rows : option (list DurableSession))
  | SecSetStore
  | SecPreserve
  | SecClose.

Section Runs.
Context (config : Config) (durabilityVersion : bytes -> bytes).
Notation runtime_ok := (runtime_ok config durabilityVersion).
Notation goes_on := (goes_on config durabilityVersion).

Definition run (s : section) (r : Runtime) : Runtime :=
  match s with
  | SecCreate ids save del now feature scope b state ttl => (Create_section config durabilityVersion ids save del now feature scope b state ttl r).2
  | SecLoad state del now id => (load_section state del now id r).2
  | SecScope scope del s => (scope_check scope del s r).2
  | SecUpdate save del now id scope expected state ttl => (UpdateState_section config durabilityVersion save del now id scope expected state ttl r).2
  | SecBind save del now id scope expected target => (BindTarget_section durabilityVersion save del now id scope expected target r).2
  | SecTouch save del now id scope ttl => (Touch_section durabilityVersion save del now id scope ttl r).2
  | SecArm save del now id scope expected state ttl key => (ArmInput_section config durabilityVersion save del now id scope expected state ttl key r).2
  | SecTake save del now actor chat => (TakeInput_section durabilityVersion save del now actor chat r).2
  | SecRelease save id => (ReleaseInput durabilityVersion save id r).2
  | SecCancel del id => (Cancel del id r).2
  | SecCancelScope del scope => (CancelScopeContext del scope r).2
  | SecPrune del now => (PruneExpired del now r).2
  | SecRestore scopeOf del now rows => (RestoreDurable config durabilityVersion scopeOf del now rows r).2
  | SecSetStore => (SetDurableStore r).2
  | SecPreserve => PreserveDurableOnShutdown r
  | SecClose => Close r
  end.

(** The clock up to [T], and what the operations check before they take the lock; the rows
    of a restart are the store's. *)
Definition allowed (T : time) (s : section) (r : Runtime) : Prop :=
  match s with
  | SecCreate _ _ _ _ _ _ b state _ => binding_Validate b = None /\ blen state <= cf_MaxStateBytes config
  | SecUpdate _ _ _ _ _ _ state _ => blen state <= cf_MaxStateBytes config
  | SecArm _ _ now id _ _ state _ key => now <= T /\ blen state <= cf_MaxStateBytes config /\
      (forall e, rt_sessions r !! id = Some e -> inputKeyFromBinding (ss_Binding (se_session e)) = Some key)
  | SecTake _ _ now _ _ | SecPrune _ now => now <= T
  | SecRestore scopeOf _ now rows => now <= T /\
      (forall l, rows = Some l -> rt_closed r = false -> rt_durable r = true -> rows_ready config durabilityVersion scopeOf now l r)
  | _ => True
  end.

Lemma run_goes_on T s r : runtime_ok T r -> allowed T s r -> goes_on 1 T r (run s r).
Proof.
  assert (Hw : forall r', goes_on 0 T r r' -> goes_on 1 T r r') by (intros r'; apply goes_on_weaken; lia).
  intros H Ha. destruct s; cbn [run allowed] in *; destruct_and?;
    first [by apply UpdateState_goes_on|by apply ArmInput_goes_on|by apply TakeInput_goes_on|apply Hw].
  - by apply Create_goes_on.
  - by apply load_goes_on.
  - by apply scope_check_goes_on.
  - by apply BindTarget_goes_on.
  - by apply Touch_goes_on.
  - by apply ReleaseInput_goes_on.
  - by apply Cancel_goes_on.
  - by apply CancelScope_goes_on.
  - by apply PruneExpired_goes_on.
  - by apply RestoreDurable_goes_on.
  - by apply SetDurableStore_goes_on.
  - by apply Preserve_goes_on.
  - by apply Close_goes_on.
Qed.

(** What the sections of all goroutines lead to, from a new runtime on a store, with the
    clock up to [T]. *)
Inductive reachable : time -> Runtime -> Prop :=
  | reach_new T rows : 0 <= T -> (forall id row, rows !! id = Some row -> row_wf id row) -> reachable T (NewRuntime rows)
  | reach_time T T' r : T <= T' -> reachable T r -> reachable T' r
  | reach_run T s r : reachable T r -> allowed T s r -> reachable T (run s r).

Lemma sections_ok T r : limits_nonneg config -> reachable T r -> runtime_ok T r.
Proof.
  intros Hl. induction 1 as [T rows HT Hw|T T' r HT _ IH|T s r _ IH Ha].
  - by apply NewRuntime_ok.
  - by eapply runtime_later.
  - by apply (run_goes_on T s r IH Ha).
Qed.

End Runs.

(** The limits of a configuration that [NewRuntime] accepted. *)
Lemma config_limits c c' : config_normalized c = Some c' -> limits_nonneg c'.
Proof.
  unfold config_normalized. destruct (_ || _) eqn:E; [done|]. bool_to_prop. destruct (_ <? _); [done|]. destruct (_ <? _); [done|]. intros [= <-].
  unfold limits_nonneg, or_default. cbn. repeat case_match; lia.
Qed.


(** After [PruneExpired] exactly the unexpired sessions stay, without their input
    claims that are over; a session whose row the store would not delete stays too, to be
    pruned again, with its item back in the heap. *)
Theorem prune_exact config durabilityVersion T r del_ok now : runtime_ok config durabilityVersion T r -> now <= T ->
  let r' := (PruneExpired del_ok now r).2 in
  heap_ok [] r' /\ index_ok r' /\
  (forall id e', rt_sessions r' !! id = Some e' <->
     exists e, rt_sessions r !! id = Some e /\ e' = without_over now e /\ (now < ss_ExpiresAt (se_session e) \/ stored e r && negb (del_ok id) = true)).
Proof.
  intros H Hn r'. destruct (prune_inputs_ok config durabilityVersion T now r H Hn) as ([H1 _] & _).
  destruct (prune_inputs_kept now r) as [Hlife _]. pose proof (prune_inputs_sessions config durabilityVersion T now r H Hn) as S1.
  unfold r', PruneExpired. set (r1 := pruneExpiredInputsLocked now r) in *.
  destruct (pruneExpired_ok config del_ok now r1 (ro_core _ _ _ _ H1)) as ([Hi Hh _] & _ & S2). cbv zeta in *.
  assert (Hst : forall e, se_session (without_over now e) = se_session e /\ stored (without_over now e) r1 = stored e r).
  { intros e. rewrite (stored_life _ _ _ Hlife). unfold without_over. destruct (se_input e) as [i|]; [|done]. by destruct (after _ now). }
  split_and!; [done|done|]. intros id e'. rewrite S2, S1, lookup_fmap, fmap_Some. unfold kept_by. split.
  - intros [(e & He & ->) Hk]. destruct (Hst e) as [E1 E2]. rewrite E1, E2 in Hk. by exists e.
  - intros (e & He & -> & Hk). destruct (Hst e) as [E1 E2]. rewrite E1, E2. split; [by exists e|done].
Qed.

(** ** Callbacks *)

(** The session [id] goes on, for at most [n] revisions; if it ends, no other takes its name. *)
Definition keeps (id : bytes) (n : Z) (r r' : Runtime) : Prop :=
  forall e', rt_sessions r' !! id = Some e' -> exists e k, rt_sessions r !! id = Some e /\ 0 <= k <= n /\ follows k e e'.

Lemma keeps_trans id n m r1 r2 r3 : keeps id n r1 r2 -> keeps id m r2 r3 -> keeps id (n + m) r1 r3.
Proof.
  intros K1 K2 e3 H3. destruct (K2 e3 H3) as (e2 & k2 & H2 & Hk2 & F2). destruct (K1 e2 H2) as (e1 & k1 & H1 & Hk1 & F1).
  exists e1, (k1 + k2). split_and!; [done|lia|lia|]. apply (follows_trans k1 k2 e1 e2 e3); [lia|lia|done|done].
Qed.

(** What other goroutines do keeps the invariant and goes on with the session. *)
Definition fair (config : Config) (dv : bytes -> bytes) (T : time) (id : bytes) (m : Z) (w : World) : Prop :=
  forall i x, runtime_ok config dv T x -> runtime_ok config dv T (w_others w i x) /\ keeps id m x (w_others w i x).

Lemma keeps_same config dv T id r : runtime_ok config dv T r -> keeps id 0 r r.
Proof. intros H e He. exists e, 0. split_and!; [done|lia|lia|]. eapply follows_refl, eo_revision, ro_entry; done. Qed.

(** A section that makes no context goes on with every session. *)
Lemma section_keeps config dv T s r id : runtime_ok config dv T r -> allowed config dv T s r -> rt_ctxs (run config dv s r) = rt_ctxs r ->
  keeps id 1 r (run config dv s r).
Proof.
  intros H Ha Hc e' He'. destruct (run_goes_on config dv T s r H Ha) as [H1 [_ _ E]]. destruct (E id e' He') as [Hn|He]; [|done].
  pose proof (ix_ctx _ (co_index _ _ _ (ro_core _ _ _ _ H1)) _ _ He'). lia.
Qed.

(** The others take their turns [l]. *)
Lemma fair_turns config dv T id m w n r l : 0 <= m -> fair config dv T id m w -> runtime_ok config dv T r ->
  forall r0, keeps id n r0 r -> let r' := foldl (fun r i => w_others w i r) r l in
  runtime_ok config dv T r' /\ keeps id (n + Z.of_nat (length l) * m) r0 r'.
Proof.
  intros Hm Hf. revert n r. induction l as [|i l IH]; intros n r H r0 K; cbn [foldl length]; [by rewrite Z.add_0_r|].
  destruct (Hf i r H) as [H1 K1]. destruct (IH (n + m) (w_others w i r) H1 r0 ltac:(by eapply keeps_trans)) as [H2 K2].
  split; [done|]. replace (n + Z.of_nat (S (length l)) * m) with (n + m + Z.of_nat (length l) * m) by lia. exact K2.
Qed.

(** With fewer than [2 ^ 64] revisions between them, equal revisions are one revision. *)
Lemma same_revision k e e' : follows k e e' -> 0 <= k < 2 ^ 64 -> 0 <= ss_Revision (se_session e) < 2 ^ 64 ->
  ss_Revision (se_session e') = ss_Revision (se_session e) -> ss_State (se_session e') = ss_State (se_session e).
Proof.
  intros F Hk Hr E. apply (fo_state _ _ _ F). rewrite (fo_revision _ _ _ F) in E. pose proof (Z.div_mod (ss_Revision (se_session e) + k) (2 ^ 64) ltac:(lia)). lia.
Qed.

Lemma load_current w state i id r s ctx r' : loadCurrentSession w state i id r = (inr (s, ctx), r') ->
  r' = w_others w i r /\ exists e, rt_sessions r !! id = Some e /\ ctx = se_ctx e /\ w_scope w i (ss_FeatureID (se_session e)) = Some (scope_of e) /\
    s = (if state then se_session e else ss_set_state [] (ss_Revision (se_session e)) (se_session e)).
Proof.
  unfold loadCurrentSession, load_section. destruct (validSessionID id); cbn [negb]; [|done]. destruct (rt_closed r); [done|].
  destruct (rt_sessions r !! id) as [e|] eqn:He; [|done]. destruct (after _ _); cbn [negb]; [|done]. set (s0 := if state then _ else _).
  unfold scope_check. case_bool_decide as Hs; [|done]. intros [= <- <- <-]. split; [done|]. exists e. split_and!; try done.
  unfold scope_of. unfold s0 in Hs. by destruct state.
Qed.

Lemma batch_tokens ToLower w s actionIDs batch data : 0 <= ss_Revision s < 2 ^ 64 -> callback_batch ToLower w s actionIDs = inr batch -> data ∈ batch ->
  exists actionID, actionID ∈ actionIDs /\
    ParseCallbackToken ToLower data = Some (mkToken CallbackVersion [] (normalizeFeatureID ToLower actionID) (ss_ID s) (ss_Revision s)).
Proof.
  intros Hr. revert batch. induction actionIDs as [|a actionIDs IH]; intros batch; cbn [callback_batch]; [intros [= <-] Hd; by apply elem_of_nil in Hd|].
  cbv zeta. destruct (validIdentifier ToLower _) eqn:Hv; cbn [negb orb]; [|done]. destruct (w_action w _ _); cbn [negb]; [|done].
  destruct (EncodeCallbackToken _ _ _ _ _) as [err|d] eqn:Hd; [done|]. destruct (callback_batch _ _ _ _) as [err|out]; [done|]. intros [= <-].
  destruct (validIdentifier_spec ToLower _ Hv) as (_ & Hn & _). intros [->|Hin]%elem_of_cons.
  - exists a. split; [left|]. apply Encode_parse in Hd as (_ & _ & ->); [by rewrite Hn|unfold max_uint64; lia|by rewrite Hn].
  - destruct (IH out eq_refl Hin) as (x & Hx & Hp). exists x. split; [by right|done].
Qed.

(** What [BindTarget] answers with: the session of its last section, with the revision
    asked for. *)
Lemma bind_target dv w i id expected target r s r' : BindTarget dv w i id expected target r = (inr s, r') ->
  exists e b, rt_sessions (w_others w (S i) (w_others w i r)) !! id = Some e /\ ss_Revision (se_session e) = expected /\ s = ss_set_binding b (se_session e).
Proof.
  unfold BindTarget. destruct (w_done w); [done|]. destruct (expected =? 0); [done|]. destruct (validateComplete target); [done|].
  destruct (loadCurrentSession w false i id r) as [[err|[s0 ctx]] r0] eqn:Hl; [done|]. apply load_current in Hl as [-> _].
  set (r1 := w_others w (S i) (w_others w i r)). unfold BindTarget_section, with_live. destruct (rt_sessions r1 !! id) as [e|] eqn:He; [|done].
  case_bool_decide; cbn [negb]; [|done]. destruct (after _ _); cbn [negb]; [|done]. destruct (Z.eqb_spec (ss_Revision (se_session e)) expected) as [Er|]; cbn [negb]; [|done].
  destruct (withTarget _ target) as [err|b]; [done|]. destruct (saveDurableLocked _ _ _ _ _) as [[] r2]; [|done]. intros [= <- <-]. by exists e, b.
Qed.

Lemma resolve_ok w i id actual r s ctx r' : Resolve w i id actual r = (inr (s, ctx), r') ->
  r' = w_others w i r /\ binding_Matches (ss_Binding s) (binding_normalized actual) = true /\
  exists e, rt_sessions r !! id = Some e /\ ctx = se_ctx e /\ w_scope w i (ss_FeatureID s) = Some (ss_Scope s) /\ s = se_session e.
Proof.
  unfold Resolve. destruct (w_done w); [done|]. cbv zeta. destruct (binding_Validate _); [done|].
  destruct (loadCurrentSession w true i id r) as [[err|[s0 c]] r0] eqn:Hl; [done|]. unfold Resolve_check. destruct (binding_Matches _ _) eqn:Hm; [|done].
  intros [= <- <- <-]. apply load_current in Hl as (-> & e & He & -> & Hs & ->). split_and!; [done|done|]. by exists e.
Qed.

Lemma callback_finish_ok w t s ctx res : callback_finish w t s ctx = inr res ->
  ss_Revision s = tk_Revision t /\ w_action w (ss_FeatureID s) (tk_ActionID t) = true /\ rc_Session res = s /\ rc_Context res = ctx /\
  tk_ActionID (rc_Token res) = tk_ActionID t /\ tk_FeatureID (rc_Token res) = ss_FeatureID s.
Proof.
  unfold callback_finish. destruct (Z.eqb_spec (ss_Revision s) (tk_Revision t)); cbn [negb]; [|done]. destruct (w_action _ _ _) eqn:Ha; cbn [negb]; [|done]. by intros [= <-].
Qed.

(** The result of a callback shows the session [e] as it is, to the caller [actual], for one
    of the actions asked for. *)
Record acts_on (ToLower : bytes -> bytes) (w : World) (actual : Binding) (e : sessionEntry) (actionIDs : list bytes) (res : ResolvedCallback) : Prop := {
  ao_id : ss_ID (rc_Session res) = ss_ID (se_session e);
  ao_state : ss_State (rc_Session res) = ss_State (se_session e);
  ao_revision : ss_Revision (rc_Session res) = ss_Revision (se_session e);
  ao_feature : ss_FeatureID (rc_Session res) = ss_FeatureID (se_session e);
  ao_scope : ss_Scope (rc_Session res) = scope_of e;
  ao_current : w_scope w 0 (ss_FeatureID (rc_Session res)) = Some (ss_Scope (rc_Session res));
  ao_action : exists actionID, actionID ∈ actionIDs /\ tk_ActionID (rc_Token res) = normalizeFeatureID ToLower actionID;
  ao_declared : w_action w (ss_FeatureID (rc_Session res)) (tk_ActionID (rc_Token res)) = true;
  ao_binding : binding_Matches (ss_Binding (se_session e)) (binding_normalized actual) = true
}.

Lemma acts_on_ok ToLower w actual e x k b a actionIDs ctx res : a ∈ actionIDs -> follows k e x -> 0 <= k < 2 ^ 64 -> 0 <= ss_Revision (se_session e) < 2 ^ 64 ->
  w_scope w 0 (ss_FeatureID (se_session e)) = Some (scope_of e) -> binding_Matches (ss_Binding (se_session e)) (binding_normalized actual) = true ->
  callback_finish w (mkToken CallbackVersion [] (normalizeFeatureID ToLower a) (ss_ID (se_session e)) (ss_Revision (se_session e))) (ss_set_binding b (se_session x)) ctx = inr res ->
  acts_on ToLower w actual e actionIDs res.
Proof.
  intros Ha F Hk Hr Hs Hm Hf. apply callback_finish_ok in Hf as (Er & Hact & E & _ & Et & _). cbn in Er, Et, Hact. rewrite <- Et in Hact.
  split; rewrite ?E; cbn [ss_ID ss_State ss_Revision ss_FeatureID ss_Scope ss_set_binding]; try done.
  - apply (fo_id _ _ _ F).
  - by eapply same_revision.
  - apply (fo_feature _ _ _ F).
  - apply (fo_scope _ _ _ F).
  - rewrite (fo_feature _ _ _ F). change (ss_Scope (se_session x)) with (scope_of x). by rewrite (fo_scope _ _ _ F).
  - by exists a.
Qed.


(** ** Updates *)

Lemma schedule_session id t r e : rt_sessions r !! id = Some e ->
  exists e', rt_sessions (scheduleExpiryLocked id t r) !! id = Some e' /\ se_session e' = se_session e.
Proof.
  intros He. unfold scheduleExpiryLocked. rewrite He. destruct (se_expiry e) as [p|]; cbn; [by exists e|]. rewrite lookup_insert_eq. by eexists.
Qed.

Lemma update_ok config dv w id expected state ttl r s r' : UpdateState config dv w id expected state ttl r = (inr s, r') ->
  exists e e', rt_sessions (w_others w 1 (w_others w 0 r)) !! id = Some e /\ ss_Revision (se_session e) = expected /\
    ss_State s = state /\ ss_Revision s = next_revision expected /\ rt_sessions r' !! id = Some e' /\ se_session e' = s.
Proof.
  unfold UpdateState. destruct (w_done w); [done|]. destruct (_ <? _); [done|]. destruct (expected =? 0); [done|]. destruct (optional_ttl config ttl) as [t|]; [|done].
  destruct (loadCurrentSession w false 0 id r) as [[err|[s0 ctx]] r0] eqn:Hl; [done|]. apply load_current in Hl as [-> _].
  set (r1 := w_others w 1 (w_others w 0 r)). unfold UpdateState_section, with_live. destruct (rt_sessions r1 !! id) as [e|] eqn:He; [|done].
  case_bool_decide; cbn [negb]; [|done]. destruct (after _ _); cbn [negb]; [|done]. destruct (Z.eqb_spec (ss_Revision (se_session e)) expected) as [Er|]; cbn [negb]; [|done].
  cbv zeta. destruct (_ <? _); [done|]. destruct (saveDurableLocked _ _ _ _ _) as [[] r2]; [|done]. intros [= <- <-]. exists e.
  destruct t as [t|]; cbn [snd].
  - match goal with |- context [scheduleExpiryLocked id ?t ?x] => destruct (schedule_session id t x _ (lookup_insert_eq _ _ _)) as (e' & He' & Hs) end.
    exists e'. rewrite <- Er. done.
  - eexists. rewrite <- Er. split_and!; [done|done|done|done|apply lookup_insert_eq|done].
Qed.

(** An update consumes the revision it asked for: it leaves the session with the new
    state under the next revision, and no other update that asks for the same revision
    succeeds after it, whatever goes on in between, within [2 ^ 64 - 1] revisions. *)
Theorem update_consumes_revision config dv w1 w2 id expected state1 ttl1 state2 ttl2 n m T r r1 r2 s : 0 <= expected < 2 ^ 64 ->
  UpdateState config dv w1 id expected state1 ttl1 r = (inr s, r1) -> runtime_ok config dv T r2 -> keeps id n r1 r2 -> fair config dv T id m w2 ->
  0 <= n -> 0 <= m -> n + 2 * m < 2 ^ 64 - 1 ->
  (exists e, rt_sessions r1 !! id = Some e /\ se_session e = s) /\ ss_State s = state1 /\ ss_Revision s = next_revision expected /\
  exists err, (UpdateState config dv w2 id expected state2 ttl2 r2).1 = inl err.
Proof.
  intros He H1 Hr2 K Ho Hn Hm Hlt. apply update_ok in H1 as (_ & e1 & _ & _ & Hs & Hrev & He1 & Hes). split_and!; [by exists e1|done|done|].
  destruct (UpdateState config dv w2 id expected state2 ttl2 r2) as [[err|s2] r3] eqn:H2; [by exists err|exfalso].
  apply update_ok in H2 as (e2 & _ & He2 & Hrev2 & _). destruct (fair_turns config dv T _ m w2 n r2 [0; 1]%nat Hm Ho Hr2 r1 K) as [_ K2]. cbn [foldl length Z.of_nat] in K2.
  destruct (K2 e2 He2) as (x & k & Hx & Hk & F). assert (x = e1) as -> by congruence. pose proof (fo_revision _ _ _ F) as E.
  rewrite Hrev2, Hes, Hrev in E. unfold next_revision in E. rewrite Zplus_mod_idemp_l in E.
  pose proof (Z.div_mod (expected + 1 + k) (2 ^ 64) ltac:(lia)). lia.
Qed.

(** ** Samples *)

Definition sample_limits : Config := mkConfig 4 2 2 64 256 0 0.
Definition sample_config : Config := mkConfig 4 2 2 64 256 (15 * minute) (24 * (60 * minute)).
Definition sample_notes : bytes := bytes_of "notes".
Definition sample_version (feature : bytes) : bytes := if bytes_eqb feature sample_notes then bytes_of "v1" else [].
Definition sample_scope : ScopeIdentity := mkScope "notes" 1.
Definition sample_scopes (feature : bytes) : option ScopeIdentity := if bytes_eqb feature sample_notes then Some sample_scope else None.
Definition sample_binding : Binding := mkBinding 7 9 0 [].
Definition always (_ : bytes) : bool := true.

(** A session that waits for input. *)
Definition sample_sections : list section := [
  SecSetStore;
  SecCreate [Some sample_session] true always 1000 sample_notes sample_scope sample_binding [1; 2; 3] 100;
  SecArm true true 1010 sample_session sample_scope 1 [4] 50 (7, 9)].
Definition run_sections (l : list section) (r : Runtime) : Runtime := foldl (fun r s => run sample_config sample_version s r) r l.
Definition sample_runtime : Runtime := run_sections sample_sections (NewRuntime ∅).
Definition sample_row : DurableSession := mkDurable (mkSession sample_session sample_notes (mkScope "" 0) sample_binding [4] 2 1000 1100) (bytes_of "v1") 1060.
Definition sample_entry : sessionEntry :=
  mkEntry (mkSession sample_session sample_notes sample_scope sample_binding [4] 2 1000 1100) (bytes_of "v1") 0 (Some 0%nat) (Some (mkClaim (7, 9) 1060)).

Definition sample_armed : Runtime := run_sections (take 2 sample_sections) (NewRuntime ∅).

Lemma sample_reachable : reachable sample_config sample_version 1010 sample_runtime.
Proof.
  unfold sample_runtime, run_sections, sample_sections. cbn [foldl]. apply reach_run; [apply reach_run; [apply reach_run; [by apply reach_new|]|]|].
  - done.
  - split; by vm_compute.
  - split; [done|]. split; [by vm_compute|]. intros e He.
    assert (E : (fun e => inputKeyFromBinding (ss_Binding (se_session e))) <$> (rt_sessions sample_armed !! sample_session) = Some (Some (7, 9))) by (vm_compute; reflexivity).
    change (rt_sessions sample_armed !! sample_session = Some e) in He. rewrite He in E. by injection E.
Qed.

Lemma sample_runtime_ok : runtime_ok sample_config sample_version 1010 sample_runtime.
Proof. apply sections_ok; [by apply (config_limits sample_limits)|apply sample_reachable]. Qed.

Lemma sample_sessions : rt_sessions sample_runtime = {[sample_session := sample_entry]}.
Proof. vm_compute. reflexivity. Qed.
Lemma sample_rows : rt_rows sample_runtime = {[sample_session := sample_row]}.
Proof. vm_compute. reflexivity. Qed.


(** The claim is over at 1060, the session at 1100. *)
Lemma prune_exact_witness :
  rt_sessions (PruneExpired always 1060 sample_runtime).2 !! sample_session = Some (without_over 1060 sample_entry) /\ se_input (without_over 1060 sample_entry) = None /\
  rt_sessions (PruneExpired always 1100 sample_runtime).2 !! sample_session = None.
Proof.
  split; [|split; by vm_compute].
  apply (prune_exact sample_config sample_version 1060 sample_runtime always 1060 (runtime_later _ _ 1010 1060 _ ltac:(done) sample_runtime_ok) (Z.le_refl _)).
  exists sample_entry. split; [rewrite sample_sessions; apply lookup_singleton_eq|]. split; [done|left; by vm_compute].
Defined.

(** What a quiet call meets at the instant 1020. *)
Definition sample_world : World :=
  mkWorld false (fun _ => 1020) (fun _ => sample_scopes) (fun _ action => bytes_eqb action (bytes_of "next")) (fun _ => always) (fun _ => true) [] (fun _ r => r).

Lemma sample_fair T : fair sample_config sample_version T sample_session 0 sample_world.
Proof. intros i x H. split; [done|]. by eapply keeps_same. Qed.

Definition sample_caller : Binding := mkBinding 7 9 33 [].
Definition sample_data : bytes := bytes_of "a2:next:AQIDBAUGBwgJCgsMDQ4P_w.2".
Definition sample_resolved : ResolvedCallback :=
  mkResolved (mkToken CallbackVersion sample_notes (bytes_of "next") sample_session 2) (se_session sample_entry) 0.

Lemma sample_batch : (CallbackDataBatch ascii_lower_bytes sample_world sample_session [bytes_of "Next"] sample_runtime).1 = inr [sample_data].
Proof. vm_compute. reflexivity. Qed.
Lemma sample_resolves : (ResolveCallback ascii_lower_bytes sample_version sample_world sample_data sample_caller sample_runtime).1 = inr sample_resolved.
Proof. vm_compute. reflexivity. Qed.


Definition sample_updated : Runtime := run sample_config sample_version (SecUpdate true true 1020 sample_session sample_scope 2 [5; 6] None) sample_runtime.
Definition sample_new : Session := mkSession sample_session sample_notes sample_scope sample_binding [5; 6] 3 1000 1100.

Lemma sample_update : UpdateState sample_config sample_version sample_world sample_session 2 [5; 6] 0 sample_runtime = (inr sample_new, sample_updated).
Proof. vm_compute. reflexivity. Qed.
Lemma sample_updated_ok : runtime_ok sample_config sample_version 1010 sample_updated.
Proof.
  refine (proj1 (run_goes_on sample_config sample_version 1010 (SecUpdate true true 1020 sample_session sample_scope 2 [5; 6] None) sample_runtime sample_runtime_ok _)).
  by vm_compute.
Qed.

Lemma update_consumes_revision_witness : ss_Revision sample_new = 3 /\
  exists err, (UpdateState sample_config sample_version sample_world sample_session 2 [8] 0 sample_updated).1 = inl err.
Proof.
  split; [by vm_compute|].
  exact (proj2 (proj2 (proj2 (update_consumes_revision sample_config sample_version sample_world sample_world sample_session 2 [5; 6] 0 [8] 0 0 0 1010 sample_runtime
    sample_updated sample_updated sample_new ltac:(by vm_compute) sample_update sample_updated_ok (keeps_same _ _ _ _ _ sample_updated_ok) (sample_fair 1010)
    (Z.le_refl _) (Z.le_refl _) ltac:(by vm_compute))))).
Defined.
