(* ===== verification/InteractionRestart.v ===== *)
(** * Interaction sessions: a restart

    What the process reads back from the store after it stopped, at any point, is what it
    had in memory. *)

From S2P Require Import Prelude.
From S2P Require Import Tasks.
From S2P Require Import GoHeap.
From S2P Require Import CallbackToken.
From S2P Require Import InteractionState.
From S2P Require Import InteractionOps.
From S2P Require Import InteractionInvariant.
From S2P Require Import InteractionSteps.
From S2P Require Import InteractionSections.
From S2P Require Import InteractionLifecycle.
From S2P Require Import InteractionTheorems.

Lemma msum_mono {K V} `{Countable K} (f : V -> Z) (m' m : gmap K V) :
  (forall k v', m' !! k = Some v' -> exists v, m !! k = Some v /\ f v' <= f v) -> (forall k v, m !! k = Some v -> 0 <= f v) -> msum f m' <= msum f m.
Proof.
  revert m. induction m' as [|k v' m' Hk IH] using map_ind; intros m Hm Hf.
  - rewrite msum_empty. by apply msum_nonneg.
  - destruct (Hm k v') as (v & Hv & Hle); [apply lookup_insert_eq|]. rewrite msum_insert_fresh, (msum_delete _ _ _ _ Hv) by done.
    assert (msum f m' <= msum f (delete k m)); [|lia]. apply IH.
    + intros j x Hx. assert (j <> k) by congruence. rewrite lookup_delete_ne by done. apply Hm. by rewrite lookup_insert_ne.
    + intros j x [_ Hx]%lookup_delete_Some. by eapply Hf.
Qed.

Section Restart.
Context (config : Config) (durabilityVersion : bytes -> bytes) (scopeOf : bytes -> option ScopeIdentity) (now : time) (r : Runtime).
Notation runtime_ok := (runtime_ok config durabilityVersion).
Hypothesis Hok : runtime_ok now r.
Hypothesis Hdurable : rt_durable r = true.
(** The store has no row but those of the durable sessions. *)
Hypothesis Howned : forall id row, rt_rows r !! id = Some row -> exists e, rt_sessions r !! id = Some e /\ durable_entry e = true.
(** Features of different scopes have different scopes after the restart. *)
Hypothesis Hscopes : forall id1 id2 e1 e2 sc, rt_sessions r !! id1 = Some e1 -> rt_sessions r !! id2 = Some e2 ->
  scopeOf (ss_FeatureID (se_session e1)) = Some sc -> scopeOf (ss_FeatureID (se_session e2)) = Some sc -> scope_of e1 = scope_of e2.

(** The sessions that survive, and as what. *)
Definition survives (e : sessionEntry) (sc : ScopeIdentity) : Prop :=
  durable_entry e = true /\ scopeOf (ss_FeatureID (se_session e)) = Some sc /\ now < ss_ExpiresAt (se_session e) /\ ss_Revision (se_session e) <> 0.
Definition live_claim (e : sessionEntry) : option inputClaim :=
  match se_input e with Some i => if after (ic_expiresAt i) now then Some i else None | None => None end.
Definition survivor (e : sessionEntry) (sc : ScopeIdentity) (e' : sessionEntry) : Prop :=
  se_session e' = ss_set_scope sc (se_session e) /\ se_input e' = live_claim e.

Lemma survives_restorable id e row : rt_sessions r !! id = Some e -> row_of now e row ->
  forall sc, scopeOf (ss_FeatureID (du_Session row)) = Some sc -> survives e sc <-> restorable config durabilityVersion (scopeOf (ss_FeatureID (du_Session row))) now row = true.
Proof using All.
  intros He (R1 & R2 & _) sc Hsc. pose proof (ro_entry _ _ _ _ Hok _ _ He) as Ho. rewrite R1 in Hsc. change (ss_FeatureID (unscoped (se_session e))) with (ss_FeatureID (se_session e)) in Hsc. split.
  - intros (V1 & V2 & V3 & V4). unfold restorable. cbv zeta. rewrite R1, R2. cbn [unscoped ss_set_scope ss_FeatureID ss_ExpiresAt ss_ID ss_Revision ss_Binding ss_State].
    rewrite V2. unfold durable_entry in V1. rewrite V1. unfold bytes_eqb. rewrite bool_decide_true by apply Ho.
    unfold after. rewrite (proj2 (Z.ltb_lt _ _) V3), (eo_id _ _ Ho), (eo_binding _ _ Ho), (proj2 (Z.eqb_neq _ 0) V4). cbn.
    apply Z.leb_le. exact (lm_state _ _ (co_limits _ _ _ (ro_core _ _ _ _ Hok)) _ _ He).
  - intros Hr. apply restorable_ok in Hr as (_ & V1 & V2 & V3 & _ & V5 & _). rewrite R1 in V3, V5. rewrite R2 in V2. split_and!; [unfold durable_entry; by rewrite V2|done|done|done].
Qed.

(** ** There is room for all of them *)

(** [r'] holds some of the survivors. *)
Definition partial (r' : Runtime) : Prop :=
  forall id e', rt_sessions r' !! id = Some e' -> exists e sc, rt_sessions r !! id = Some e /\ survives e sc /\ survivor e sc e'.

Lemma partial_room r' id e sc : index_ok r' -> partial r' -> rt_sessions r !! id = Some e -> survives e sc -> rt_sessions r' !! id = None ->
  checkCapacityLocked config sc (actor_of e) (bytes_in e) r' = true.
Proof using All.
  intros Hi Hp He Hs Hn. destruct (ro_core _ _ _ _ Hok) as [Xi _ [L1 L2 L3 L4 _]].
  assert (Hmono : forall f : sessionEntry -> Z, (forall x y sc, survivor x sc y -> f y = f x) -> (forall x, 0 <= f x) -> f e + msum f (rt_sessions r') <= msum f (rt_sessions r)).
  { intros f Hf H0. rewrite <- (msum_insert_fresh f (rt_sessions r') id e Hn). apply msum_mono; [|by intros].
    intros k v [[<- <-]|[_ Hv]]%lookup_insert_Some; [exists e; by split|]. destruct (Hp k v Hv) as (x & sx & Hx & _ & Hxv). exists x. split; [done|]. rewrite (Hf x v sx Hxv). done. }
  assert (H1 : (S (size (rt_sessions r')) <= size (rt_sessions r))%nat).
  { rewrite <- (map_size_insert_None id e (rt_sessions r') Hn), <- !size_dom. apply subseteq_size. intros k. rewrite !elem_of_dom.
    intros [v [[<- <-]|[_ Hv]]%lookup_insert_Some]; [by exists e|]. destruct (Hp k v Hv) as (x & sx & Hx & _). by exists x. }
  assert (H2 : (S (size (ids_of sc r')) <= size (ids_of (scope_of e) r))%nat).
  { assert (Hid : id ∉ ids_of sc r') by (intros (x & Hx & _)%(ix_scope _ Hi); congruence).
    assert (E : size ({[id]} ∪ ids_of sc r') = S (size (ids_of sc r'))) by (rewrite size_union, size_singleton by set_solver; done).
    rewrite <- E. apply subseteq_size. intros k [->%elem_of_singleton|Hk]%elem_of_union; apply (ix_scope _ Xi).
    - by exists e.
    - apply (ix_scope _ Hi) in Hk as (v & Hv & Hsc). destruct (Hp k v Hv) as (x & sx & Hx & Hxs & Hxv & _). exists x. split; [done|].
      apply (Hscopes k id x e sc Hx He); [|apply Hs]. rewrite <- Hsc. unfold scope_of. rewrite Hxv. apply Hxs. }
  assert (H3 : bytes_in e + msum bytes_in (rt_sessions r') <= msum bytes_in (rt_sessions r)).
  { apply Hmono; [|intros x; unfold bytes_in, blen; lia]. intros x y sy [E _]. unfold bytes_in. by rewrite E. }
  assert (H4 : actor_of e <> 0 -> 1 + actor_count (actor_of e) (rt_sessions r') <= actor_count (actor_of e) (rt_sessions r)).
  { intros Ha. pose proof (Hmono (fun x => if actor_of x =? actor_of e then 1 else 0)) as M. cbv beta in M. rewrite Z.eqb_refl in M. apply M.
    - intros x y sy [E _]. unfold actor_of. by rewrite E.
    - intros x. destruct (_ =? _); lia. }
  unfold checkCapacityLocked. fold (ids_of sc r'). specialize (L2 (scope_of e)). rewrite !andb_true_iff, !negb_true_iff. split_and!.
  - apply Z.leb_gt. lia.
  - apply Z.leb_gt. lia.
  - destruct (Z.eqb_spec (actor_of e) 0) as [|Ha]; [done|]. cbn. apply Z.leb_gt. rewrite (zget_counted _ _ Hi Ha). specialize (L3 _ Ha). specialize (H4 Ha). lia.
  - apply Z.ltb_ge. rewrite (ix_bytes _ Hi). lia.
Qed.

Lemma restore_claim r' id e row : index_ok r' -> partial r' -> rt_sessions r !! id = Some e -> row_of now e row -> rt_sessions r' !! id = None ->
  restore_input now row r' = inr (live_claim e).
Proof using All.
  intros Hi Hp He (R1 & _ & R3) Hn. pose proof (ro_entry _ _ _ _ Hok _ _ He) as Ho. pose proof (ro_time _ _ _ _ Hok) as HT.
  unfold restore_input, live_claim, is_zero, after. cbv zeta. destruct (se_input e) as [i|] eqn:Hei.
  - rewrite R3. destruct (Z.ltb_spec now (ic_expiresAt i)) as [Hlt|]; [|by rewrite andb_false_r]. rewrite (proj2 (Z.eqb_neq _ 0)) by lia. cbn [negb andb].
    rewrite R1. change (ss_Binding (unscoped (se_session e))) with (ss_Binding (se_session e)). rewrite (eo_claim _ _ Ho i Hei).
    destruct (rt_inputs r' !! ic_key i) as [k|] eqn:Hk; [|by destruct i].
    apply (ix_inputs _ Hi) in Hk as (v & j & Hv & Hj & Hkey). destruct (Hp k v Hv) as (x & sx & Hx & _ & _ & Hl).
    assert (Hxj : se_input x = Some j). { rewrite Hj in Hl. unfold live_claim in Hl. destruct (se_input x) as [z|]; [|done]. destruct (after _ now); congruence. }
    pose proof (co_index _ _ _ (ro_core _ _ _ _ Hok)) as Xi. pose proof (claim_owner r k x j Xi Hx Hxj). pose proof (claim_owner r id e i Xi He Hei). congruence.
  - rewrite (proj2 (Z.ltb_ge now _)) by done. by rewrite andb_false_r.
Qed.

(** ** The loop *)

Notation row_id := (fun row => ss_ID (du_Session row)).

Lemma restore_step r' row : runtime_ok now r' -> rt_closed r' = false -> rt_durable r' = true -> partial r' ->
  rt_rows r !! row_id row = Some row -> rt_rows r' !! row_id row = Some row -> rt_sessions r' !! row_id row = None ->
  let '(o, r'') := restore_row config durabilityVersion scopeOf (fun _ => true) now row r' in
  o = Some r'' /\ partial r'' /\ (forall id, is_Some (rt_sessions r' !! id) -> is_Some (rt_sessions r'' !! id)) /\
  (forall e sc, rt_sessions r !! row_id row = Some e -> survives e sc -> is_Some (rt_sessions r'' !! row_id row)).
Proof using All.
  intros H Hc Hd Hp Hold Hrow Hn. cbv beta in *. destruct (Howned _ _ Hold) as (e & He & Hdur).
  destruct (st_row _ _ (ro_store _ _ _ _ Hok) Hdurable _ e He Hdur) as (row' & Hr' & Hof). assert (row' = row) as -> by congruence.
  assert (Ef : ss_FeatureID (du_Session row) = ss_FeatureID (se_session e)) by (destruct Hof as (-> & _); done).
  destruct (restorable config durabilityVersion (scopeOf (ss_FeatureID (du_Session row))) now row) eqn:Hr.
  - destruct (restorable_ok _ _ _ _ _ Hr) as ((sc & Hsc) & _). pose proof (proj2 (survives_restorable _ e row He Hof sc Hsc) Hr) as Hs.
    assert (Ea : bn_ActorID (ss_Binding (du_Session row)) = actor_of e /\ blen (ss_State (du_Session row)) = bytes_in e) by (destruct Hof as (-> & _); done).
    destruct Ea as [Ea Eb]. pose proof (partial_room r' _ e sc (co_index _ _ _ (ro_core _ _ _ _ H)) Hp He Hs Hn) as Hroom.
    pose proof (restore_claim r' _ e row (co_index _ _ _ (ro_core _ _ _ _ H)) Hp He Hof Hn) as Hin.
    rewrite (restore_row_good config durabilityVersion r' scopeOf (fun _ => true) now row sc (live_claim e) Hr Hsc Hn ltac:(by rewrite Ea, Eb) Hin).
    set (x := restored_entry sc row (rt_ctxs r') (live_claim e)).
    pose proof (inserted_fields (row_id row) x (row_inputs row (live_claim e) r') (rt_rows r') r' eq_refl) as F. cbv zeta beta in F. destruct F as (_ & F2 & _).
    change (rt_sessions (count_restored ?y)) with (rt_sessions y). split_and!; [done|..]; unfold partial; change (rt_sessions (count_restored ?y)) with (rt_sessions y); rewrite ?F2.
    + intros id v [[<- <-]|[_ Hv]]%lookup_insert_Some; [|by apply Hp]. exists e, sc. split; [done|]. split; [done|]. split; [|done]. destruct Hof as (E & _). cbn. rewrite E. by destruct (se_session e).
    + intros id [v Hv]. destruct (decide (id = ss_ID (du_Session row))) as [->|]; [by rewrite lookup_insert_eq|]. rewrite lookup_insert_ne by done. by exists v.
    + intros _ _ _ _. by rewrite lookup_insert_eq.
  - unfold restore_row. cbv zeta. rewrite Hr. cbn [negb]. unfold reject_row. split_and!; [done|exact Hp|done|].
    intros e2 sc He2 Hs. assert (e2 = e) as -> by congruence. assert (Hsc : scopeOf (ss_FeatureID (du_Session row)) = Some sc) by (rewrite Ef; apply Hs).
    apply (survives_restorable _ e row He Hof sc Hsc) in Hs. congruence.
Qed.

Lemma restore_loop rest : forall r', runtime_ok now r' -> rt_closed r' = false -> rt_durable r' = true -> partial r' -> NoDup (map row_id rest) ->
  (forall row, row ∈ rest -> rt_rows r !! row_id row = Some row /\ rt_rows r' !! row_id row = Some row /\ rt_sessions r' !! row_id row = None) ->
  let '(err, r'') := restore_rows config durabilityVersion scopeOf (fun _ => true) now rest r' in
  err = None /\ runtime_ok now r'' /\ partial r'' /\ (forall id, is_Some (rt_sessions r' !! id) -> is_Some (rt_sessions r'' !! id)) /\
  (forall row e sc, row ∈ rest -> rt_sessions r !! row_id row = Some e -> survives e sc -> is_Some (rt_sessions r'' !! row_id row)).
Proof using All.
  induction rest as [|row rest IH]; intros r' H Hc Hd Hp Hnd Hin; cbn [restore_rows].
  { split_and!; try done. intros row e sc Hrow. by apply elem_of_nil in Hrow. }
  destruct (Hin row ltac:(left)) as (Hold & Hrow & Hn).
  pose proof (restore_step r' row H Hc Hd Hp Hold Hrow Hn) as S.
  pose proof (restore_row_ok config durabilityVersion now now r' scopeOf (fun _ => true) row H (Z.le_refl _) Hc Hd Hrow ltac:(rewrite Hn; by intros [? ?])) as G.
  destruct (restore_row _ _ _ _ _ _ _) as [o r1]. destruct S as (-> & S1 & S2 & S3). destruct G as ([G1 _] & _ & (L1 & L2 & _) & Hj).
  cbn in Hnd. apply NoDup_cons in Hnd as [Hnew Hnd].
  assert (Hin1 : forall x, x ∈ rest -> rt_rows r !! row_id x = Some x /\ rt_rows r1 !! row_id x = Some x /\ rt_sessions r1 !! row_id x = None).
  { intros x Hx. assert (Hne : row_id x <> row_id row) by (cbv beta; intros E; apply Hnew; rewrite <- E; by apply (list_elem_of_fmap_2 row_id rest x)).
    destruct (Hj _ Hne) as [-> ->]. apply Hin. by right. }
  specialize (IH r1 G1 ltac:(congruence) ltac:(congruence) S1 Hnd Hin1). destruct (restore_rows _ _ _ _ _ _ _) as [err r2].
  destruct IH as (I1 & I2 & I3 & I4 & I5). split_and!; [done|done|done|auto|].
  intros x e sc [->|Hx]%elem_of_cons He Hs; [apply I4; by eapply S3|by eapply I5].
Qed.

End Restart.


(** ** Samples *)

(** The store after a restart with the feature in its second generation. *)
Definition sample_rescopes (feature : bytes) : option ScopeIdentity := if bytes_eqb feature sample_notes then Some (mkScope "notes" 2) else None.
Definition sample_restart : option irt_error * Runtime :=
  RestoreDurable sample_config sample_version sample_rescopes always 1050 (Some [sample_row]) (SetDurableStore (NewRuntime (rt_rows sample_runtime))).2.

