(* ===== verification/InteractionDispatch.v ===== *)
(** * Interaction sessions: the dispatcher

    Models [internal/interaction/dispatcher.go]: the table of action handlers, the
    registrations, the action prepared before its task is queued and its dispatch when the
    task runs. The handlers and the preparers are code of the features, known by a number. *)

From S2P Require Import Prelude.
From S2P Require Import Tasks.
From S2P Require Import Utf8.
From S2P Require Import CallbackToken.
From S2P Require Import InteractionState.
From S2P Require Import InteractionOps.
From S2P Require Import InteractionRuntime.
From S2P Require Import InteractionTheorems.

(** ** Data *)

Inductive dispatch_error := ErrHandlerRegistered | ErrHandlerUnavailable | ErrRuntime (e : irt_error) | ErrFeature (code : nat).

(** [ac_cause] is why the action's context is done, when it is. *)
Record Action := mkAction { ac_Token : CallbackToken; ac_Session : Session; ac_Context : nat; ac_cause : option irt_error; ac_Preparation : option nat }.

Inductive AckPolicy := AckHandlerOwned | AckImmediate.
Record ActionAdmission := mkAdmission { ad_Scope : ScopeIdentity; ad_Profile : ExecutionProfile; ad_State : option nat; ad_AckPolicy : AckPolicy }.

Definition handlerKey : Type := bytes * bytes.
Record handlerEntry := mkHandler { he_scope : ScopeIdentity; he_handler : nat; he_preparer : option nat; he_token : Z }.
Record Dispatcher := mkDispatcher { dp_handlers : gmap handlerKey handlerEntry; dp_next : Z }.
Record HandlerRegistration := mkRegistration { hr_key : handlerKey; hr_token : Z; hr_once : bool }.

Record preparedAction := mkPrepared {
  pa_data : bytes; pa_binding : Binding; pa_key : handlerKey; pa_scope : ScopeIdentity; pa_executionScope : ScopeIdentity;
  pa_profile : ExecutionProfile; pa_preparation : option nat; pa_ackPolicy : AckPolicy; pa_handlerToken : Z
}.

Definition no_profile : ExecutionProfile := mkProfile "" "" 0 0 [].

Definition pa_Scope (p : preparedAction) : ScopeIdentity :=
  if negb (ScopeIdentity_IsZero (pa_executionScope p)) then pa_executionScope p else pa_scope p.
Definition pa_Resources (p : preparedAction) : list ResourceRequirement := ep_Resources (pa_profile p).
Definition pa_ExecutionProfile (p : preparedAction) : ExecutionProfile := WithDefaults (pa_profile p) no_profile.

Definition NewDispatcher : Dispatcher := mkDispatcher ∅ 0.

(** ** Registration *)

Section Dispatch.
Context (ToLower : bytes -> bytes) (config : Config) (durabilityVersion : bytes -> bytes).

(** [register], with what the catalog answers. *)
Definition register (scopeOf : bytes -> option ScopeIdentity) (hasAction : bytes -> bytes -> bool) (scope : ScopeIdentity)
    (featureID actionID : bytes) (preparer : option nat) (handler : option nat) (d : Dispatcher) : (dispatch_error + HandlerRegistration) * Dispatcher :=
  match handler with
  | None => (inl ErrHandlerUnavailable, d)
  | Some handler =>
      if ScopeIdentity_IsZero scope then (inl ErrHandlerUnavailable, d)
      else
        let featureID := normalizeFeatureID ToLower featureID in
        let actionID := normalizeFeatureID ToLower actionID in
        if negb (validIdentifier ToLower featureID) || negb (validIdentifier ToLower actionID) || negb (hasAction featureID actionID)
        then (inl (ErrRuntime ErrActionNotFound), d)
        else if negb (bool_decide (scopeOf featureID = Some scope)) then (inl (ErrRuntime ErrScopeStale), d)
        else
          let key := (featureID, actionID) in
          if match dp_handlers d !! key with Some current => bool_decide (he_scope current = scope) | None => false end
          then (inl ErrHandlerRegistered, d)
          else
            let token := (dp_next d + 1) mod 2 ^ 64 in
            (inr (mkRegistration key token false), mkDispatcher (<[key := mkHandler scope handler preparer token]> (dp_handlers d)) token)
  end.

Definition Register (scopeOf : bytes -> option ScopeIdentity) (hasAction : bytes -> bytes -> bool) (scope : ScopeIdentity)
    (featureID actionID : bytes) (handler : option nat) (d : Dispatcher) : (dispatch_error + HandlerRegistration) * Dispatcher :=
  register scopeOf hasAction scope featureID actionID None handler d.

Definition RegisterPrepared (scopeOf : bytes -> option ScopeIdentity) (hasAction : bytes -> bytes -> bool) (scope : ScopeIdentity)
    (featureID actionID : bytes) (preparer : option nat) (handler : option nat) (d : Dispatcher) : (dispatch_error + HandlerRegistration) * Dispatcher :=
  match preparer with
  | None => (inl ErrHandlerUnavailable, d)
  | Some _ => register scopeOf hasAction scope featureID actionID preparer handler d
  end.

(** [HandlerRegistration.Close]. *)
Definition close_registration (reg : HandlerRegistration) (d : Dispatcher) : HandlerRegistration * Dispatcher :=
  if hr_once reg then (reg, d)
  else
    (mkRegistration (hr_key reg) (hr_token reg) true,
     match dp_handlers d !! hr_key reg with
     | Some current => if he_token current =? hr_token reg then mkDispatcher (delete (hr_key reg) (dp_handlers d)) (dp_next d) else d
     | None => d
     end).

Definition UnregisterScope (scope : ScopeIdentity) (d : Dispatcher) : Z * Dispatcher :=
  if ScopeIdentity_IsZero scope then (0, d)
  else
    let kept := filter (fun kv : handlerKey * handlerEntry => he_scope kv.2 <> scope) (dp_handlers d) in
    (Z.of_nat (size (dp_handlers d)) - Z.of_nat (size kept), mkDispatcher kept (dp_next d)).

(** ** Actions *)

(** What the features' code does: a preparer answers, a handler runs. *)
Context (run_preparer : nat -> Action -> dispatch_error + ActionAdmission) (run_handler : nat -> Action -> option dispatch_error).

(** The cause of the merged context when the handler starts. *)
Definition mergeActionContext (caller : option irt_error) (session : nat) (r : Runtime) : option irt_error :=
  match caller with Some cause => Some cause | None => rt_cancelled r !! session end.

(** [d] is the dispatcher when its table is read; the sections of [ResolveCallback] are 0
    to 3, the two questions to the catalog 4 and 5. *)
Definition Prepare (w : World) (data : bytes) (binding : Binding) (d : Dispatcher) (r : Runtime) : (dispatch_error + preparedAction) * Runtime :=
  match ResolveCallback ToLower durabilityVersion w data binding r with
  | (inl e, r) => (inl (ErrRuntime e), r)
  | (inr res, r) =>
      let s := rc_Session res in
      let key := (tk_FeatureID (rc_Token res), tk_ActionID (rc_Token res)) in
      match dp_handlers d !! key with
      | None => (inl ErrHandlerUnavailable, r)
      | Some entry =>
          if negb (bool_decide (he_scope entry = ss_Scope s)) then (inl ErrHandlerUnavailable, r)
          else if negb (bool_decide (w_scope w 4 (ss_FeatureID s) = Some (he_scope entry))) then (inl (ErrRuntime ErrScopeStale), r)
          else
            let admission :=
              match he_preparer entry with
              | None => inr (mkAdmission (he_scope entry) no_profile None AckHandlerOwned)
              | Some preparer =>
                  match run_preparer preparer (mkAction (rc_Token res) s (rc_Context res) (mergeActionContext None (rc_Context res) r) None) with
                  | inl e => inl e
                  | inr admission => if ScopeIdentity_IsZero (ad_Scope admission) then inl ErrHandlerUnavailable else inr admission
                  end
              end in
            match admission with
            | inl e => (inl e, r)
            | inr admission =>
                if negb (bool_decide (w_scope w 5 (ss_FeatureID s) = Some (he_scope entry))) then (inl (ErrRuntime ErrScopeStale), r)
                else (inr (mkPrepared data (binding_normalized binding) key (he_scope entry) (ad_Scope admission)
                             (WithDefaults (ad_Profile admission) no_profile) (ad_State admission) (ad_AckPolicy admission) (he_token entry)), r)
            end
      end
  end.

(** The handler that ran, with its action, and the error. *)
Definition dispatchPrepared (w : World) (caller : option irt_error) (p : preparedAction) (d : Dispatcher) (r : Runtime)
    : option (nat * Action) * option dispatch_error * Runtime :=
  match ResolveCallback ToLower durabilityVersion w (pa_data p) (pa_binding p) r with
  | (inl e, r) => (None, Some (ErrRuntime e), r)
  | (inr res, r) =>
      let s := rc_Session res in
      let key := (tk_FeatureID (rc_Token res), tk_ActionID (rc_Token res)) in
      if negb (bool_decide (key = pa_key p)) || negb (bool_decide (ss_Scope s = pa_scope p)) then (None, Some (ErrRuntime ErrScopeStale), r)
      else match dp_handlers d !! key with
           | None => (None, Some ErrHandlerUnavailable, r)
           | Some entry =>
               if negb (bool_decide (he_scope entry = pa_scope p)) || negb (he_token entry =? pa_handlerToken p) then (None, Some ErrHandlerUnavailable, r)
               else if negb (bool_decide (w_scope w 4 (ss_FeatureID s) = Some (pa_scope p))) then (None, Some (ErrRuntime ErrScopeStale), r)
               else
                 let action := mkAction (rc_Token res) s (rc_Context res) (mergeActionContext caller (rc_Context res) r) (pa_preparation p) in
                 (Some (he_handler entry, action), run_handler (he_handler entry) action, r)
           end
  end.

(** [Dispatch]: both at once; [w] is what the preparation meets, [w'] the execution. *)
Definition Dispatch (w w' : World) (caller : option irt_error) (data : bytes) (binding : Binding) (d d' : Dispatcher) (r : Runtime)
    : option (nat * Action) * option dispatch_error * Runtime :=
  match Prepare w data binding d r with
  | (inl e, r) => (None, Some e, r)
  | (inr p, r) => dispatchPrepared w' caller p d' r
  end.

End Dispatch.

(** ** The table *)

(** What changes the table. *)
Inductive table_op :=
  | OpRegister (scopeOf : bytes -> option ScopeIdentity) (hasAction : bytes -> bytes -> bool) (scope : ScopeIdentity) (featureID actionID : bytes)
      (preparer handler : option nat)
  | OpClose (reg : HandlerRegistration)
  | OpUnregister (scope : ScopeIdentity).
Definition run_table (ToLower : bytes -> bytes) (op : table_op) (d : Dispatcher) : Dispatcher :=
  match op with
  | OpRegister scopeOf hasAction scope featureID actionID preparer handler => (register ToLower scopeOf hasAction scope featureID actionID preparer handler d).2
  | OpClose reg => (close_registration reg d).2
  | OpUnregister scope => (UnregisterScope scope d).2
  end.

(** Every handler has a token of its own, and no token is used again. *)
Record table_ok (d : Dispatcher) : Prop := {
  tb_next : 0 <= dp_next d;
  tb_token : forall key e, dp_handlers d !! key = Some e -> 0 < he_token e <= dp_next d;
  tb_own : forall k1 k2 e1 e2, dp_handlers d !! k1 = Some e1 -> dp_handlers d !! k2 = Some e2 -> he_token e1 = he_token e2 -> k1 = k2
}.

(** From [d] to [d']: a handler of [d'] with a token of [d] is the handler it was in [d]. *)
Record table_later (n : Z) (d d' : Dispatcher) : Prop := {
  tl_next : dp_next d <= dp_next d' <= dp_next d + n;
  tl_same : forall key e, dp_handlers d' !! key = Some e -> he_token e <= dp_next d -> dp_handlers d !! key = Some e
}.

Lemma table_shrinks n d handlers : 0 <= n -> table_ok d -> handlers ⊆ dp_handlers d -> table_ok (mkDispatcher handlers (dp_next d)) /\ table_later n d (mkDispatcher handlers (dp_next d)).
Proof.
  rewrite map_subseteq_spec. intros Hn [T1 T2 T3] Hs. split; split; cbn; try done; [| |lia|].
  - intros key e He. by eapply T2, Hs.
  - intros k1 k2 e1 e2 H1 H2. apply T3; by apply Hs.
  - intros key e He _. by apply Hs.
Qed.

Lemma run_table_ok ToLower op d : table_ok d -> dp_next d + 1 < 2 ^ 64 -> table_ok (run_table ToLower op d) /\ table_later 1 d (run_table ToLower op d).
Proof.
  intros H Hb. assert (Hsame : table_ok d /\ table_later 1 d d) by (split; [done|]; split; [lia|done]).
  destruct op as [scopeOf hasAction scope f a preparer handler|reg|scope]; cbn [run_table].
  - unfold register. destruct handler as [h|]; [|done]. destruct (ScopeIdentity_IsZero scope); [done|]. cbv zeta. destruct (_ || _ || _); [done|]. destruct (negb _); [done|].
    destruct (match _ with Some _ => _ | None => _ end); [done|]. destruct H as [T1 T2 T3]. rewrite Z.mod_small by lia. cbn [snd]. set (key := (_, _)). split; split; cbn [dp_handlers dp_next]; try lia.
    + intros k e [[<- <-]|[_ He]]%lookup_insert_Some; cbn; [lia|]. specialize (T2 k e He). lia.
    + intros k1 k2 e1 e2 [[<- <-]|[? H1]]%lookup_insert_Some [[<- <-]|[? H2]]%lookup_insert_Some; cbn; try done; intros E.
      * specialize (T2 _ _ H2). lia.
      * specialize (T2 _ _ H1). lia.
      * by eapply T3.
    + intros k e [[<- <-]|[_ He]]%lookup_insert_Some; cbn; [lia|done].
  - unfold close_registration. destruct (hr_once reg); [done|]. cbn [snd]. destruct (dp_handlers d !! hr_key reg) as [e|]; [|done]. destruct (_ =? _); [|done].
    apply table_shrinks; [done|done|apply delete_subseteq].
  - unfold UnregisterScope. destruct (ScopeIdentity_IsZero scope); [done|]. apply table_shrinks; [done|done|apply map_filter_subseteq].
Qed.

Lemma table_later_trans n m d1 d2 d3 : 0 <= n -> 0 <= m -> table_later n d1 d2 -> table_later m d2 d3 -> table_later (n + m) d1 d3.
Proof. intros Hn Hm [A1 A2] [B1 B2]. split; [lia|]. intros key e He Ht. apply A2; [apply B2; [done|lia]|done]. Qed.

Lemma run_tables_ok ToLower ops : forall d, table_ok d -> dp_next d + Z.of_nat (length ops) < 2 ^ 64 ->
  let d' := foldl (fun d op => run_table ToLower op d) d ops in table_ok d' /\ table_later (Z.of_nat (length ops)) d d'.
Proof.
  induction ops as [|op ops IH]; intros d H Hb; cbn [foldl length]; [split; [done|]; split; [cbn; lia|done]|].
  cbn [length] in Hb. destruct (run_table_ok ToLower op d H ltac:(lia)) as [H1 L1]. destruct (IH (run_table ToLower op d) H1) as [H2 L2]; [destruct L1; lia|].
  split; [done|]. rewrite Nat2Z.inj_succ, <- Z.add_1_l. apply (table_later_trans 1 (Z.of_nat (length ops)) d _ _ ltac:(lia) ltac:(lia) L1 L2).
Qed.

(** ** Dispatch *)

(** The token of an accepted callback names the session's feature and revision. *)
Lemma resolve_callback_current ToLower dv w data b r res r' : ResolveCallback ToLower dv w data b r = (inr res, r') ->
  ss_Revision (rc_Session res) = tk_Revision (rc_Token res) /\ tk_FeatureID (rc_Token res) = ss_FeatureID (rc_Session res).
Proof.
  assert (Hf : forall t s ctx, callback_finish w t s ctx = inr res -> ss_Revision (rc_Session res) = tk_Revision (rc_Token res) /\ tk_FeatureID (rc_Token res) = ss_FeatureID (rc_Session res)).
  { intros t s ctx. unfold callback_finish. destruct (Z.eqb_spec (ss_Revision s) (tk_Revision t)); cbn [negb]; [|done]. destruct (negb _); [done|]. by intros [= <-]. }
  unfold ResolveCallback. destruct (ParseCallbackToken ToLower data) as [t|]; [|done]. destruct (Resolve _ _ _ _ _) as [[err|[s ctx]] r1]; [done|].
  destruct (if bindingHasTarget _ then None else _) as [target|]; [|intros [= E _]; by eapply Hf].
  destruct (BindTarget _ _ _ _ _ _ _) as [[err|s2] r2]; [done|]. intros [= E _]. by eapply Hf.
Qed.

Lemma prepare_ok ToLower dv prep w data b d r p r' : Prepare ToLower dv prep w data b d r = (inr p, r') ->
  exists entry, dp_handlers d !! pa_key p = Some entry /\ he_token entry = pa_handlerToken p /\ he_scope entry = pa_scope p /\ pa_data p = data.
Proof.
  unfold Prepare. destruct (ResolveCallback _ _ _ _ _ _) as [[err|res] r1]; [done|]. cbv zeta. destruct (dp_handlers d !! _) as [entry|] eqn:He; [|done].
  destruct (negb _); [done|]. destruct (negb _); [done|]. destruct (match he_preparer entry with Some _ => _ | None => _ end) as [err|adm]; [done|].
  destruct (negb _); [done|]. intros [= <- <-]. by exists entry.
Qed.

(** C18. A queued action runs on the generation it was prepared for, or not at all. When
    [Dispatch] runs a handler for an action that [Prepare] made, whatever was registered,
    closed and unregistered in between, then it is the handler that was registered when the
    action was prepared, still in the table under the same token; the session is current,
    of the scope of that registration, which the catalog still names, and its revision is
    the one the button was drawn for. *)
Theorem dispatch_fenced ToLower dv prep handle w1 w2 data b d1 d2 ops r1 r1' r2 r2' caller p h a err : table_ok d1 -> dp_next d1 + Z.of_nat (length ops) < 2 ^ 64 ->
  Prepare ToLower dv prep w1 data b d1 r1 = (inr p, r1') -> d2 = foldl (fun d op => run_table ToLower op d) d1 ops ->
  dispatchPrepared ToLower dv handle w2 caller p d2 r2 = (Some (h, a), err, r2') ->
  exists entry, dp_handlers d1 !! pa_key p = Some entry /\ dp_handlers d2 !! pa_key p = Some entry /\ he_handler entry = h /\ err = handle h a /\
    ac_Preparation a = pa_preparation p /\ pa_key p = (ss_FeatureID (ac_Session a), tk_ActionID (ac_Token a)) /\
    ss_Scope (ac_Session a) = he_scope entry /\ w_scope w2 4 (ss_FeatureID (ac_Session a)) = Some (he_scope entry) /\
    ss_Revision (ac_Session a) = tk_Revision (ac_Token a).
Proof.
  intros H Hb Hp -> Hd. destruct (run_tables_ok ToLower ops d1 H Hb) as [_ L]. cbv zeta in L. set (d2 := foldl _ _ _) in *.
  destruct (prepare_ok _ _ _ _ _ _ _ _ _ _ Hp) as (e1 & He1 & Ht1 & Hs1 & Hdata). unfold dispatchPrepared in Hd.
  destruct (ResolveCallback _ _ _ _ _ _) as [[|res] r3] eqn:Hr; [done|]. cbv zeta in Hd.
  destruct (decide ((tk_FeatureID (rc_Token res), tk_ActionID (rc_Token res)) = pa_key p)) as [Hk|Hk]; [rewrite bool_decide_true in Hd by done|by rewrite bool_decide_false in Hd].
  case_bool_decide as Hs; cbn [negb orb] in Hd; [|done]. rewrite Hk in Hd. destruct (_ !! _) as [e2|] eqn:He2; [|done].
  destruct (bool_decide (he_scope e2 = _)) eqn:Hs2; cbn [negb orb] in Hd; [apply bool_decide_eq_true in Hs2|done].
  destruct (Z.eqb_spec (he_token e2) (pa_handlerToken p)) as [Ht2|]; cbn [negb orb] in Hd; [|done]. case_bool_decide as Hcur; cbn [negb] in Hd; [|done].
  injection Hd as <- <- <- <-. assert (e2 = e1) as ->.
  { assert (E : dp_handlers d1 !! pa_key p = Some e2) by (apply (tl_same _ _ _ L); [done|]; rewrite Ht2, <- Ht1; by apply (tb_token _ H _ _ He1)). congruence. }
  exists e1. cbn [ac_Session ac_Token ac_Preparation].
  assert (Hf : ss_Revision (rc_Session res) = tk_Revision (rc_Token res) /\ tk_FeatureID (rc_Token res) = ss_FeatureID (rc_Session res)) by (by eapply resolve_callback_current).
  destruct Hf as [Hf1 Hf2]. split_and!; try done; [by rewrite <- Hf2|congruence|congruence].
Qed.

(** ** Samples *)

Definition all_actions (_ _ : bytes) : bool := true.
Definition no_preparer (_ : nat) (_ : Action) : dispatch_error + ActionAdmission := inl (ErrFeature 0).
Definition sample_handle (h : nat) (_ : Action) : option dispatch_error := if (h =? 5)%nat then None else Some (ErrFeature h).

(** Handler 5 is registered for the action [next]. *)
Definition sample_dispatcher : Dispatcher :=
  (register ascii_lower_bytes sample_scopes all_actions sample_scope sample_notes (bytes_of "next") None (Some 5%nat) NewDispatcher).2.
Definition sample_prepared : preparedAction :=
  mkPrepared sample_data sample_caller (sample_notes, bytes_of "next") sample_scope sample_scope no_profile None AckHandlerOwned 1.
Definition sample_action_run : Action := mkAction (rc_Token sample_resolved) (se_session sample_entry) 0 None None.

(** Another action is registered, and an old generation's handlers go. *)
Definition sample_ops : list table_op :=
  [OpRegister sample_scopes all_actions sample_scope sample_notes (bytes_of "back") None (Some 6%nat); OpUnregister (mkScope "notes" 9)].

Lemma sample_prepares : Prepare ascii_lower_bytes sample_version no_preparer sample_world sample_data sample_caller sample_dispatcher sample_runtime = (inr sample_prepared, sample_runtime).
Proof. vm_compute. reflexivity. Qed.
Lemma sample_dispatches : dispatchPrepared ascii_lower_bytes sample_version sample_handle sample_world None sample_prepared
    (foldl (fun d op => run_table ascii_lower_bytes op d) sample_dispatcher sample_ops) sample_runtime = (Some (5%nat, sample_action_run), None, sample_runtime).
Proof. vm_compute. reflexivity. Qed.
Lemma sample_dispatcher_ok : table_ok sample_dispatcher.
Proof.
  refine (proj1 (run_table_ok ascii_lower_bytes (OpRegister sample_scopes all_actions sample_scope sample_notes (bytes_of "next") None (Some 5%nat)) NewDispatcher _ _)); [|done].
  split; [done|intros key e He|intros k1 k2 e1 e2 He]; change (dp_handlers NewDispatcher) with (∅ : gmap handlerKey handlerEntry) in He; by rewrite lookup_empty in He.
Qed.

Lemma dispatch_fenced_witness : exists entry, dp_handlers sample_dispatcher !! (sample_notes, bytes_of "next") = Some entry /\ he_handler entry = 5%nat.
Proof.
  pose proof (dispatch_fenced ascii_lower_bytes sample_version no_preparer sample_handle sample_world sample_world sample_data sample_caller sample_dispatcher _ sample_ops
    sample_runtime sample_runtime sample_runtime sample_runtime None sample_prepared 5 sample_action_run None sample_dispatcher_ok ltac:(by vm_compute)
    sample_prepares eq_refl sample_dispatches) as (entry & H1 & _ & H2 & _).
  exists entry. split; [exact H1|exact H2].
Defined.
