(* ===== verification/Topology.v ===== *)
(** * Topological orders

    The loop that [internal/runtime/graph.go] ([StartupOrder]) and
    [internal/module/graph.go] ([ResolveOrder]) share: Kahn's algorithm with a
    queue sorted after every round. [least_first] is the reference: it takes,
    again and again, the least name all of whose dependencies were taken. The
    lemmas show that the loop computes it, that what it computes is in order, and
    that it leaves nodes out exactly when they depend on each other in a circle. *)

From stdpp Require Import sorting.
From S2P Require Import Prelude.

(** [sort.Strings]. *)
Definition sort_strings (l : list string) : list string := merge_sort String.le l.

Definition occurrences (x : string) (l : list string) : Z := lsum (fun y => if decide (y = x) then 1 else 0) l.

(** A node was taken: the degrees of its dependents fall, and those that reach zero join the queue. *)
Fixpoint release (dependents : list string) (inDegree : gmap string Z) (queue : list string)
    : gmap string Z * list string :=
  match dependents with
  | [] => (inDegree, queue)
  | d :: rest =>
      let inDegree := <[d := zget d inDegree - 1]> inDegree in
      release rest inDegree (if zget d inDegree =? 0 then queue ++ [d] else queue)
  end.

(** The loop: what was taken, the degrees and the queue at its end. Every round
    takes another node, so the number of nodes is enough fuel ([kahn_least_first]). *)
Fixpoint kahn (fuel : nat) (adj : gmap string (list string)) (inDegree : gmap string Z)
    (queue ordered : list string) : list string * gmap string Z * list string :=
  match fuel, queue with
  | S fuel, curr :: queue =>
      let '(inDegree, queue) := release (default [] (adj !! curr)) inDegree queue in
      kahn fuel adj inDegree (sort_strings queue) (ordered ++ [curr])
  | _, _ => (ordered, inDegree, queue)
  end.

Lemma sort_strings_perm l : sort_strings l ≡ₚ l.
Proof. apply merge_sort_Permutation. Qed.

Lemma sort_strings_unique l1 l2 : l1 ≡ₚ l2 -> sort_strings l1 = sort_strings l2.
Proof.
  intros Hp. apply (StronglySorted_unique String.le); try apply StronglySorted_merge_sort; try apply _.
  by rewrite !sort_strings_perm.
Qed.

Lemma elem_of_sort_strings x l : x ∈ sort_strings l <-> x ∈ l.
Proof. by rewrite sort_strings_perm. Qed.

Lemma occurrences_nonneg x l : 0 <= occurrences x l.
Proof. apply lsum_nonneg. intros y _. case_decide; lia. Qed.

Lemma occurrences_pos x l : 0 < occurrences x l <-> x ∈ l.
Proof.
  induction l as [|y l IH]; [cbn; split; [lia|by intros ?%elem_of_nil]|].
  change (occurrences x (y :: l)) with ((if decide (y = x) then 1 else 0) + occurrences x l).
  rewrite elem_of_cons, <- IH. pose proof (occurrences_nonneg x l).
  case_decide as Hy; (split; [intros Hx|intros [Hx|Hx]]); (lia || congruence || (by left) || (right; lia)).
Qed.

Lemma occurrences_app x l1 l2 : occurrences x (l1 ++ l2) = occurrences x l1 + occurrences x l2.
Proof. apply lsum_app. Qed.

Lemma release_spec l : forall inDegree queue,
  (forall n, n ∈ l -> occurrences n l <= zget n inDegree) ->
  let '(inDegree', queue') := release l inDegree queue in
  (forall n, zget n inDegree' = zget n inDegree - occurrences n l) /\
  exists new, queue' = queue ++ new /\ NoDup new /\ forall n, n ∈ new <-> n ∈ l /\ zget n inDegree' = 0.
Proof.
  induction l as [|a l IH]; intros deg queue Hle; cbn [release].
  - split; [intros n; cbn; lia|]. exists []. split_and_all; [by rewrite app_nil_r|constructor|set_solver].
  - set (deg1 := <[a := zget a deg - 1]> deg).
    assert (Hd1 : forall n, zget n deg1 = zget n deg - (if decide (a = n) then 1 else 0)).
    { intros n. unfold deg1. case_decide as Hn; [subst; rewrite zget_insert; lia|].
      rewrite zget_insert_ne by congruence. lia. }
    assert (Ho : forall n, occurrences n (a :: l) = (if decide (a = n) then 1 else 0) + occurrences n l) by done.
    assert (Hle1 : forall n, n ∈ l -> occurrences n l <= zget n deg1).
    { intros n Hn. rewrite Hd1. assert (Hx : n ∈ a :: l) by by right. specialize (Hle n Hx). rewrite Ho in Hle. lia. }
    specialize (IH deg1 (if zget a deg1 =? 0 then queue ++ [a] else queue) Hle1).
    destruct (release l deg1 _) as [deg' queue'] eqn:E. destruct IH as [Hdeg (new & -> & Hnd & Hnew)].
    split; [intros n; rewrite Hdeg, Hd1, Ho; lia|].
    assert (Hz : a ∈ l -> zget a deg1 <> 0).
    { intros Hal. specialize (Hle1 a Hal). pose proof (proj2 (occurrences_pos a l) Hal). lia. }
    assert (Hna : a ∉ l -> zget a deg' = zget a deg1).
    { intros Hal. rewrite Hdeg. pose proof (occurrences_nonneg a l). rewrite <- occurrences_pos in Hal. lia. }
    destruct (Z.eqb_spec (zget a deg1) 0) as [H0|H0].
    + exists (a :: new). rewrite <- app_assoc. split_and_all; [done| |].
      * constructor; [|done]. rewrite Hnew. tauto.
      * intros n. rewrite !elem_of_cons, Hnew. split; [intros [->|?]; [|tauto]|tauto].
        split; [by left|]. rewrite Hna; tauto.
    + exists new. split_and_all; [done..|]. intros n. rewrite elem_of_cons, Hnew.
      split; [tauto|]. intros [[->|?] Hn]; [|tauto]. destruct (decide (a ∈ l)); [tauto|]. rewrite Hna in Hn; tauto.
Qed.

Section Graph.
Context (nodes : list string) (deps : string -> list string).

(** The nodes not taken whose dependencies were all taken, least first. *)
Definition ready (taken : list string) : list string :=
  sort_strings (filter (fun n => n ∉ taken /\ Forall (fun d => d ∈ taken) (deps n)) nodes).

(** The reference order: the least ready node, again and again. *)
Fixpoint least_first (fuel : nat) (taken : list string) : list string :=
  match fuel, ready taken with
  | S fuel, n :: _ => least_first fuel (taken ++ [n])
  | _, _ => taken
  end.

(** Every node comes after its dependencies. *)
Definition in_order (l : list string) : Prop :=
  forall l1 n l2, l = l1 ++ n :: l2 -> forall d, d ∈ deps n -> d ∈ l1.

(** A circle: each of [l] depends on one of [l]. *)
Definition circular (l : list string) : Prop :=
  l <> [] /\ forall n, n ∈ l -> exists d, d ∈ deps n /\ d ∈ l.

Definition missing (taken : list string) (n : string) : Z :=
  lsum (fun d => if decide (d ∈ taken) then 0 else 1) (deps n).

Lemma elem_of_ready taken n :
  n ∈ ready taken <-> n ∈ nodes /\ n ∉ taken /\ Forall (fun d => d ∈ taken) (deps n).
Proof. unfold ready. rewrite elem_of_sort_strings, list_elem_of_filter. tauto. Qed.

Lemma NoDup_ready taken : NoDup nodes -> NoDup (ready taken).
Proof. intros. unfold ready. rewrite sort_strings_perm. by apply NoDup_filter. Qed.

Lemma missing_zero taken n : missing taken n = 0 <-> Forall (fun d => d ∈ taken) (deps n).
Proof.
  unfold missing. induction (deps n) as [|d l IH]; cbn [lsum foldr]; [by split|]. rewrite Forall_cons, <- IH.
  assert (0 <= lsum (fun d => if decide (d ∈ taken) then 0 else 1) l)
    by (apply lsum_nonneg; intros y _; case_decide; lia). unfold lsum in *.
  case_decide; split; [intros; split; [done|lia]|intros [? ?]; lia|lia|by intros [? _]].
Qed.

Lemma missing_take taken c n : c ∉ taken -> missing (taken ++ [c]) n = missing taken n - occurrences c (deps n).
Proof.
  intros Hc. unfold missing, occurrences. induction (deps n) as [|d l IH]; cbn [lsum foldr] in *; [done|].
  unfold lsum in *. rewrite IH. destruct (decide (d = c)) as [->|Hd].
  - destruct (decide (c ∈ taken ++ [c])); [|set_solver]. destruct (decide (c ∈ taken)); [done|lia].
  - destruct (decide (d ∈ taken ++ [c])), (decide (d ∈ taken)); (lia || set_solver).
Qed.

(** What holds of the nodes taken. *)
Record taken_ok (taken : list string) : Prop := {
  tk_nodup : NoDup taken;
  tk_nodes : forall n, n ∈ taken -> n ∈ nodes;
  tk_order : in_order taken
}.

Lemma in_order_snoc l n : in_order l -> (forall d, d ∈ deps n -> d ∈ l) -> in_order (l ++ [n]).
Proof.
  intros Hl Hn l1 m l2 E d Hd. destruct l2 as [|x l2 _] using rev_ind.
  - apply app_inj_tail in E as [-> ->]. by apply Hn.
  - rewrite app_comm_cons, app_assoc in E. apply app_inj_tail in E as [-> _]. by eapply Hl.
Qed.

Lemma in_order_closed l n d : in_order l -> n ∈ l -> d ∈ deps n -> d ∈ l.
Proof.
  intros Hl (l1 & l2 & ->)%list_elem_of_split Hd. apply elem_of_app. left. by eapply Hl.
Qed.

Lemma taken_ok_nil : taken_ok [].
Proof. split; [constructor|set_solver|]. intros l1 n l2 E. by destruct l1. Qed.

Lemma take_ok taken n rest : taken_ok taken -> ready taken = n :: rest -> taken_ok (taken ++ [n]).
Proof.
  intros [H1 H2 H3] E. assert (Hn : n ∈ ready taken) by (rewrite E; by left).
  apply elem_of_ready in Hn as (Hin & Hnt & Hd). rewrite Forall_forall in Hd. split.
  - apply NoDup_app. split_and_all; [done|set_solver|apply NoDup_singleton].
  - set_solver.
  - by apply in_order_snoc.
Qed.

Lemma least_first_ok fuel : forall taken, taken_ok taken -> taken_ok (least_first fuel taken).
Proof.
  induction fuel as [|fuel IH]; intros taken H; cbn [least_first]; [done|].
  destruct (ready taken) as [|n rest] eqn:E; [done|]. apply IH. by eapply take_ok.
Qed.

Lemma taken_length taken : taken_ok taken -> (length taken <= length nodes)%nat.
Proof. intros [H1 H2 _]. apply submseteq_length, NoDup_submseteq; [done|exact H2]. Qed.

(** With the number of nodes as fuel nothing ready is left. *)
Lemma least_first_done fuel : forall taken, taken_ok taken ->
  (length nodes <= fuel + length taken)%nat -> ready (least_first fuel taken) = [].
Proof.
  induction fuel as [|fuel IH]; intros taken H Hf; cbn [least_first].
  - destruct (ready taken) as [|n rest] eqn:E; [done|]. apply (take_ok _ _ _ H) in E.
    apply taken_length in E. rewrite length_app in E. simpl in E. lia.
  - destruct (ready taken) as [|n rest] eqn:E; [done|]. apply IH; [by eapply take_ok|].
    rewrite length_app. simpl. lia.
Qed.

Lemma stuck_circular taken : taken_ok taken -> ready taken = [] ->
  (forall n d, n ∈ nodes -> d ∈ deps n -> d ∈ nodes) ->
  let left := filter (fun n => n ∉ taken) nodes in left = [] \/ circular left.
Proof.
  intros H E Hdeps left. destruct (decide (left = [])) as [?|Hl]; [by left|right]. split; [done|].
  intros n [Hn Hin]%list_elem_of_filter.
  destruct (decide (Forall (fun d => d ∈ taken) (deps n))) as [Hf|Hf].
  - assert (Hx : n ∈ ready taken) by by apply elem_of_ready. rewrite E in Hx. by apply elem_of_nil in Hx.
  - apply not_Forall_Exists in Hf; [|apply _]. apply Exists_exists in Hf as (d & Hd & Hx). exists d.
    split; [done|]. apply list_elem_of_filter. split; [done|by eapply Hdeps].
Qed.

(** A circle is in no order. *)
Lemma circular_not_in_order l o : circular l -> in_order o -> (forall n, n ∈ l -> n ∈ o) -> False.
Proof.
  intros [Hne Hc]. revert l Hne Hc. induction o as [|x o IH] using rev_ind; intros l Hne Hc Ho Hl.
  - destruct l as [|n l]; [done|]. apply (not_elem_of_nil n), Hl. by left.
  - assert (Hpre : in_order o) by (intros l1 n l2 -> d Hd; eapply (Ho l1 n (l2 ++ [x])); [by rewrite <- app_assoc|done]).
    apply (IH (filter (fun n => n ∈ o) l)).
    + destruct l as [|n l]; [done|]. destruct (Hc n) as (d & Hd & Hin); [by left|].
      assert (Hdo : d ∈ o).
      { assert (Hn : n ∈ o ++ [x]) by (apply Hl; by left). apply list_elem_of_split in Hn as (l1 & l2 & E).
        assert (Hd1 : d ∈ l1) by by eapply Ho. destruct l2 as [|y l2 _] using rev_ind.
        - by apply app_inj_tail in E as [-> _].
        - rewrite app_comm_cons, app_assoc in E. apply app_inj_tail in E as [-> _]. set_solver. }
      intros E. assert (Hx : d ∈ filter (fun n => n ∈ o) (n :: l)) by by apply list_elem_of_filter.
      rewrite E in Hx. by apply elem_of_nil in Hx.
    + intros n [Hno Hin]%list_elem_of_filter. destruct (Hc n Hin) as (d & Hd & Hdl). exists d. split; [done|].
      apply list_elem_of_filter. split; [by eapply in_order_closed|done].
    + done.
    + by intros n [? _]%list_elem_of_filter.
Qed.

(** ** The loop computes the reference order *)

Definition degrees_ok (inDegree : gmap string Z) (taken : list string) : Prop :=
  forall n, n ∈ nodes -> zget n inDegree = missing taken n.

Definition edges_ok (adj : gmap string (list string)) : Prop :=
  forall c n, c ∈ nodes -> occurrences n (default [] (adj !! c)) = if decide (n ∈ nodes) then occurrences c (deps n) else 0.

Lemma edges_nodes adj c n : edges_ok adj -> c ∈ nodes -> n ∈ default [] (adj !! c) -> n ∈ nodes /\ c ∈ deps n.
Proof.
  intros Ha Hc Hn%occurrences_pos. rewrite (Ha c n Hc) in Hn. case_decide; [|lia].
  split; [done|by apply occurrences_pos].
Qed.

(** One round: the queue stays the ready nodes, the degrees the missing dependencies. *)
Lemma round_ok adj inDegree c rest taken : NoDup nodes -> taken_ok taken -> ready taken = c :: rest ->
  degrees_ok inDegree taken -> edges_ok adj ->
  let '(inDegree', queue') := release (default [] (adj !! c)) inDegree rest in
  degrees_ok inDegree' (taken ++ [c]) /\ sort_strings queue' = ready (taken ++ [c]).
Proof.
  intros Hnd Ht E Hdeg Hadj.
  pose proof (NoDup_ready taken Hnd) as Hr. rewrite E in Hr. apply NoDup_cons in Hr as [Hcr Hrest].
  assert (Hc : c ∈ ready taken) by (rewrite E; by left). apply elem_of_ready in Hc as (Hcn & Hct & Hcd).
  rewrite Forall_forall in Hcd.
  assert (Hin : forall n, n ∈ default [] (adj !! c) -> n ∈ nodes /\ c ∈ deps n) by (intros n; by apply edges_nodes).
  assert (Hle : forall n, n ∈ default [] (adj !! c) -> occurrences n (default [] (adj !! c)) <= zget n inDegree).
  { intros n Hn. destruct (Hin n Hn) as [Hnn _]. rewrite (Hadj c n Hcn), (Hdeg n Hnn), decide_True by done.
    assert (0 <= missing (taken ++ [c]) n) by (apply lsum_nonneg; intros y _; case_decide; lia).
    rewrite missing_take in * by done. lia. }
  pose proof (release_spec _ inDegree rest Hle) as Hrel.
  destruct (release _ inDegree rest) as [deg' queue']. destruct Hrel as [Hd' (new & -> & Hnew & Hmem)].
  assert (Hdeg' : degrees_ok deg' (taken ++ [c])).
  { intros n Hn. rewrite Hd', (Hdeg n Hn), (Hadj c n Hcn), decide_True, missing_take by done. done. }
  split; [done|].
  assert (Hnew' : forall n, n ∈ new <-> n ∈ nodes /\ c ∈ deps n /\ Forall (fun d => d ∈ taken ++ [c]) (deps n)).
  { intros n. rewrite Hmem. split.
    - intros [Hn H0]. destruct (Hin n Hn) as [Hnn Hcn']. split_and_all; [done..|].
      apply missing_zero. by rewrite <- Hdeg'.
    - intros (Hnn & Hcn' & Hf). split; [|rewrite Hdeg' by done; by apply missing_zero].
      apply occurrences_pos. rewrite (Hadj c n Hcn), decide_True by done. by apply occurrences_pos. }
  assert (Hrest' : forall n, n ∈ rest <-> n ∈ ready taken /\ n <> c) by (intros n; rewrite E; set_solver).
  apply sort_strings_unique, NoDup_Permutation; [|by apply NoDup_filter|].
  - apply NoDup_app. split_and_all; [done| |done]. intros n Hn Hx. apply Hrest' in Hn as [Hn _].
    apply elem_of_ready in Hn as (_ & _ & Hf). rewrite Forall_forall in Hf.
    apply Hnew' in Hx as (_ & Hx & _). by apply Hct, Hf.
  - intros n. rewrite elem_of_app, list_elem_of_filter, Hrest', Hnew', elem_of_ready, !Forall_forall. split.
    + intros [[(Hn & Hnt & Hf) Hnc]|(Hn & Hx & Hf)]; (split; [split|done]).
      * set_solver.
      * intros d Hd. apply elem_of_app. left. by apply Hf.
      * intros [Hnt|Hnc%list_elem_of_singleton]%elem_of_app; [by eapply Hct, in_order_closed; [apply Ht|..]|].
        subst n. by apply Hct, Hcd.
      * done.
    + intros [[Hnt Hf] Hn]. destruct (decide (c ∈ deps n)) as [Hx|Hx]; [by right|left].
      split; [split_and_all; [done|set_solver|]|set_solver].
      intros d Hd. specialize (Hf d Hd). apply elem_of_app in Hf as [?|Hf%list_elem_of_singleton]; [done|congruence].
Qed.

Lemma kahn_least_first adj : NoDup nodes -> edges_ok adj -> forall fuel inDegree queue taken,
  taken_ok taken -> queue = ready taken -> degrees_ok inDegree taken ->
  let '(ordered, inDegree', queue') := kahn fuel adj inDegree queue taken in
  ordered = least_first fuel taken /\ queue' = ready ordered /\ degrees_ok inDegree' ordered.
Proof.
  intros Hnd Hadj. induction fuel as [|fuel IH]; intros deg queue taken Ht -> Hdeg; cbn [kahn least_first]; [done|].
  destruct (ready taken) as [|c rest] eqn:E; [by rewrite E|].
  pose proof (round_ok adj deg c rest taken Hnd Ht E Hdeg Hadj) as Hr.
  destruct (release _ deg rest) as [deg' queue']. destruct Hr as [Hd' Hq'].
  apply IH; [by eapply take_ok|done..].
Qed.

(** The whole run: either every node is taken, or the nodes left out depend on each other in a circle. *)
Lemma kahn_run adj inDegree : NoDup nodes -> edges_ok adj -> degrees_ok inDegree [] ->
  (forall n d, n ∈ nodes -> d ∈ deps n -> d ∈ nodes) ->
  let '(ordered, inDegree', _) := kahn (length nodes) adj inDegree (ready []) [] in
  ordered = least_first (length nodes) [] /\ taken_ok ordered /\
  (forall n, n ∈ nodes -> 0 < zget n inDegree' <-> n ∉ ordered) /\
  (ordered ≡ₚ nodes /\ length ordered = length nodes \/
   circular (filter (fun n => n ∉ ordered) nodes) /\ length ordered <> length nodes).
Proof.
  intros Hnd Hadj Hdeg Hdeps.
  pose proof (kahn_least_first adj Hnd Hadj (length nodes) inDegree _ [] taken_ok_nil eq_refl Hdeg) as Hk.
  destruct (kahn _ _ _ _ _) as [[o deg'] q']. destruct Hk as (-> & _ & Hd').
  set (o := least_first (length nodes) []) in *.
  assert (Ho : taken_ok o) by apply least_first_ok, taken_ok_nil.
  assert (Hdone : ready o = []) by (apply least_first_done; [apply taken_ok_nil|simpl; lia]).
  split_and_all; [done|done| |].
  - intros n Hn. rewrite (Hd' n Hn).
    assert (0 <= missing o n) by (apply lsum_nonneg; intros y _; case_decide; lia). split.
    + intros Hm Hno. enough (missing o n = 0) by lia. apply missing_zero, Forall_forall.
      intros d Hd. by eapply in_order_closed; [apply Ho|..].
    + intros Hno. enough (missing o n <> 0) by lia. intros Hm. apply missing_zero in Hm.
      assert (Hx : n ∈ ready o) by by apply elem_of_ready. rewrite Hdone in Hx. by apply elem_of_nil in Hx.
  - destruct (stuck_circular o Ho Hdone Hdeps) as [Hl|Hc].
    + left. assert (Hp : o ≡ₚ nodes); [|split; [done|by rewrite Hp]].
      apply NoDup_Permutation; [apply Ho|done|]. intros n. split; [apply Ho|]. intros Hn.
      destruct (decide (n ∈ o)) as [?|Hx]; [done|].
      assert (Hf : n ∈ filter (fun n => n ∉ o) nodes) by by apply list_elem_of_filter.
      rewrite Hl in Hf. by apply elem_of_nil in Hf.
    + right. split; [done|]. intros El. destruct Hc as [Hne _]. apply Hne.
      assert (Hp : o ≡ₚ nodes) by (apply submseteq_length_Permutation; [apply NoDup_submseteq; apply Ho|lia]).
      destruct (filter _ nodes) as [|n l] eqn:Ef; [done|].
      assert (Hn : n ∈ filter (fun n => n ∉ o) nodes) by (rewrite Ef; by left).
      apply list_elem_of_filter in Hn as [Hno Hn]. by rewrite Hp in Hno.
Qed.
End Graph.

(** The reference does not depend on the order the nodes are listed in. *)
Lemma least_first_perm nodes nodes' deps fuel taken : nodes ≡ₚ nodes' ->
  least_first nodes deps fuel taken = least_first nodes' deps fuel taken.
Proof.
  intros Hp. revert taken. induction fuel as [|fuel IH]; intros taken; [done|]. cbn [least_first].
  assert (ready nodes deps taken = ready nodes' deps taken) as -> by (apply sort_strings_unique; by rewrite Hp).
  destruct (ready nodes' deps taken); [done|apply IH].
Qed.
