(* ===== verification/ModuleGraph.v ===== *)
(** * The order of the feature modules

    Models [internal/module/graph.go]: [ResolveOrder] validates the manifests,
    looks for a cycle by depth-first search with a recursion stack, and sorts the
    modules topologically. Both searches are over the same graph: the proofs show
    that they agree, so the last error of the function cannot occur. *)

From stdpp Require Import sorting.
From S2P Require Import Prelude.
From S2P Require Import Topology.

(** What [ResolveOrder] reads of [plugin.Manifest]. *)
Record Manifest := mkManifest {
  mf_ID : string; mf_Version : string; mf_Dependencies : list string; mf_Conflicts : list string
}.

Inductive module_error :=
  | ErrNilModule | ErrEmptyModuleID | ErrInvalidID (id : string) | ErrEmptyModuleVersion (id : string)
  | ErrDuplicateID (id : string) | ErrSelfDependency (id : string) | ErrDuplicateDependency (id dep : string)
  | ErrSelfConflict (id : string) | ErrDuplicateConflict (id conflict : string)
  | ErrUnknownDependency (id dep : string) | ErrConflict (id conflict : string)
  | ErrCycle (nodes : list string) | ErrUnresolved (resolved total : nat) | ErrFuel.

(** [validIDRegex]: lower-case letters and digits, then also [_] and [-]. *)
Definition id_head (c : Ascii.ascii) : bool :=
  let b := byte_of c in ((97 <=? b) && (b <=? 122)) || ((48 <=? b) && (b <=? 57)).
Definition id_tail (c : Ascii.ascii) : bool := id_head c || (byte_of c =? 95) || (byte_of c =? 45).
Definition valid_id (s : string) : bool :=
  match String.list_ascii_of_string s with [] => false | c :: l => id_head c && forallb id_tail l end.

(** The cleaned dependencies (and, the same loop, conflicts) of a manifest. *)
Fixpoint clean (id : string) (self : module_error) (dup : string -> module_error) (l seen : list string)
    : module_error + list string :=
  match l with
  | [] => inr (sort_strings seen)
  | d :: rest =>
      let d := trim_space d in
      if decide (d = EmptyString) then clean id self dup rest seen
      else if decide (d = id) then inl self
      else if decide (d ∈ seen) then inl (dup d)
      else clean id self dup rest (seen ++ [d])
  end.

Record tables := mkTables {
  tb_byID : gmap string Manifest; tb_deps : gmap string (list string); tb_conflicts : gmap string (list string)
}.

(** The first loop, over the modules as they come. *)
Fixpoint read_modules (modules : list (option Manifest)) (t : tables) : module_error + tables :=
  match modules with
  | [] => inr t
  | None :: _ => inl ErrNilModule
  | Some m :: rest =>
      let id := trim_space (mf_ID m) in
      if decide (id = EmptyString) then inl ErrEmptyModuleID
      else if negb (valid_id id) then inl (ErrInvalidID id)
      else if decide (mf_Version m = EmptyString) then inl (ErrEmptyModuleVersion id)
      else match tb_byID t !! id with
           | Some _ => inl (ErrDuplicateID id)
           | None =>
               match clean id (ErrSelfDependency id) (ErrDuplicateDependency id) (mf_Dependencies m) [] with
               | inl err => inl err
               | inr deps =>
                   match clean id (ErrSelfConflict id) (ErrDuplicateConflict id) (mf_Conflicts m) [] with
                   | inl err => inl err
                   | inr conflicts =>
                       read_modules rest (mkTables (<[id := m]> (tb_byID t)) (<[id := deps]> (tb_deps t))
                         (<[id := conflicts]> (tb_conflicts t)))
                   end
               end
           end
  end.

Definition deps_in (t : tables) (id : string) : list string := default [] (tb_deps t !! id).
Definition conflicts_in (t : tables) (id : string) : list string := default [] (tb_conflicts t !! id).

(** The first name of [l id] that is ([present]) or is not a module. *)
Fixpoint check_all (present : bool) (byID : gmap string Manifest) (l : string -> list string)
    (mk : string -> string -> module_error) (ids : list string) : option module_error :=
  match ids with
  | [] => None
  | id :: rest =>
      match filter (fun d => bool_decide (is_Some (byID !! d)) = present) (l id) with
      | d :: _ => Some (mk id d)
      | [] => check_all present byID l mk rest
      end
  end.

Inductive visitState := unvisited | visiting | visited.
#[global] Instance visitState_eq_dec : EqDecision visitState.
Proof. solve_decision. Defined.

Definition search := (gmap string visitState * list string)%type.
Definition visit_of (s : search) (id : string) : visitState := default unvisited (s.1 !! id).

(** The cycle reported: the path from the node met again. *)
Fixpoint path_from (id : string) (path : list string) : list string :=
  match path with [] => [] | p :: rest => if decide (p = id) then path else path_from id rest end.

(** [dfsCycle]; the recursion is as deep as the path is long, so the number of
    modules is enough fuel. *)
Fixpoint dfsCycle (fuel : nat) (deps : string -> list string) (curr : string) (s : search) : module_error + search :=
  match fuel with
  | O => inl ErrFuel
  | S fuel =>
      let fix each (nexts : list string) (s : search) : module_error + search :=
        match nexts with
        | [] => inr s
        | next :: rest =>
            match visit_of s next with
            | visiting => inl (ErrCycle (path_from next s.2 ++ [next]))
            | unvisited =>
                match dfsCycle fuel deps next s with
                | inl err => inl err
                | inr s => each rest s
                end
            | visited => each rest s
            end
        end in
      match each (deps curr) (<[curr := visiting]> s.1, s.2 ++ [curr]) with
      | inl err => inl err
      | inr s => inr (<[curr := visited]> s.1, removelast s.2)
      end
  end.

Fixpoint dfs_all (fuel : nat) (deps : string -> list string) (ids : list string) (s : search) : module_error + search :=
  match ids with
  | [] => inr s
  | id :: rest =>
      if decide (visit_of s id = unvisited) then
        match dfsCycle fuel deps id s with
        | inl err => inl err
        | inr s => dfs_all fuel deps rest s
        end
      else dfs_all fuel deps rest s
  end.

(** The dependents of every name, in the order of the names. *)
Definition dependents_of (deps : string -> list string) (ids : list string) : gmap string (list string) :=
  foldl (fun m id => foldl (fun m dep => <[dep := default [] (m !! dep) ++ [id]]> m) m (deps id)) ∅ ids.

Definition ResolveOrder (modules : list (option Manifest)) : module_error + list Manifest :=
  match modules with
  | [] => inr []
  | _ =>
      match read_modules modules (mkTables ∅ ∅ ∅) with
      | inl err => inl err
      | inr t =>
          let allIDs := sort_strings (map_to_list (tb_byID t)).*1 in
          match check_all false (tb_byID t) (deps_in t) ErrUnknownDependency allIDs with
          | Some err => inl err
          | None =>
              match check_all true (tb_byID t) (conflicts_in t) ErrConflict allIDs with
              | Some err => inl err
              | None =>
                  match dfs_all (length modules) (deps_in t) allIDs (∅, []) with
                  | inl err => inl err
                  | inr _ =>
                      let inDegree := foldl (fun m id => <[id := Z.of_nat (length (deps_in t id))]> m) ∅ allIDs in
                      let queue := filter (fun id => zget id inDegree = 0) allIDs in
                      let '(result, _, _) :=
                        kahn (length modules) (dependents_of (deps_in t) allIDs) inDegree (sort_strings queue) [] in
                      if decide (length result <> length modules) then inl (ErrUnresolved (length result) (length modules))
                      else inr (omap (fun id => tb_byID t !! id) result)
                  end
              end
          end
      end
  end.

(** ** The depth-first search *)

Section Search.
Context (nodes : list string) (deps : string -> list string).
Context (deps_nodes : forall n d, n ∈ nodes -> d ∈ deps n -> d ∈ nodes).

(** Every node of the path depends on the next. *)
Definition chain (path : list string) : Prop := forall l1 a b l2, path = l1 ++ a :: b :: l2 -> b ∈ deps a.

(** The state of the search: the path is what is being visited, [fin] what was, in
    the order the visits ended. *)
Record search_ok (s : search) (fin : list string) : Prop := {
  so_path : NoDup s.2 /\ forall n, n ∈ s.2 -> n ∈ nodes;
  so_visiting : forall n, visit_of s n = visiting <-> n ∈ s.2;
  so_visited : forall n, visit_of s n = visited <-> n ∈ fin;
  so_order : in_order deps fin;
  so_chain : chain s.2
}.

Definition is_cycle (err : module_error) : Prop :=
  exists x l, err = ErrCycle ((x :: l) ++ [x]) /\ circular deps (x :: l) /\ forall n, n ∈ x :: l -> n ∈ nodes.

Lemma path_from_split x path : x ∈ path -> exists l1 l2, path = l1 ++ x :: l2 /\ path_from x path = x :: l2.
Proof.
  induction path as [|p path IH]; intros Hx; [by apply elem_of_nil in Hx|]. cbn.
  destruct (decide (p = x)) as [->|Hp]; [by exists [], path|].
  apply elem_of_cons in Hx as [->|Hx]; [done|]. destruct (IH Hx) as (l1 & l2 & -> & ->). by exists (p :: l1), l2.
Qed.

Lemma chain_circular l1 x l2 curr : chain (l1 ++ x :: l2) -> last (l1 ++ x :: l2) = Some curr -> x ∈ deps curr ->
  circular deps (x :: l2).
Proof.
  intros Hc Hl Hx. split; [done|]. intros n (k1 & k2 & E)%list_elem_of_split. destruct k2 as [|m k2].
  - rewrite E, app_assoc, last_snoc in Hl. injection Hl as ->. exists x. split; [done|by left].
  - exists m. split; [|rewrite E; set_solver]. apply (Hc (l1 ++ k1) n m k2). by rewrite E, <- app_assoc.
Qed.

Lemma chain_snoc path curr : chain path -> (forall a, last path = Some a -> curr ∈ deps a) -> chain (path ++ [curr]).
Proof.
  intros Hc Hl l1 a b l2 E. destruct l2 as [|x l2 _] using rev_ind.
  - change (l1 ++ [a; b]) with (l1 ++ [a] ++ [b]) in E. rewrite app_assoc in E. apply app_inj_tail in E as [-> <-].
    apply Hl. by rewrite last_snoc.
  - rewrite !app_comm_cons, app_assoc in E. apply app_inj_tail in E as [-> _]. by eapply Hc.
Qed.

Lemma visit_insert s n x m path : visit_of (<[n := x]> s.1, path) m = if decide (n = m) then x else visit_of s m.
Proof.
  unfold visit_of. cbn [fst]. destruct (decide (n = m)) as [->|Hn]; [by rewrite lookup_insert_eq|by rewrite lookup_insert_ne].
Qed.

Lemma search_enter s fin curr : search_ok s fin -> visit_of s curr = unvisited -> curr ∈ nodes ->
  chain (s.2 ++ [curr]) -> search_ok (<[curr := visiting]> s.1, s.2 ++ [curr]) fin.
Proof.
  intros [H1 H2 H3 H4 H5] Hv Hc Hch.
  assert (Hnp : curr ∉ s.2) by (rewrite <- H2, Hv; done). assert (Hnf : curr ∉ fin) by (rewrite <- H3, Hv; done).
  split; cbn [snd]; try done.
  - split; [apply NoDup_app; split_and_all; [apply H1|set_solver|apply NoDup_singleton]|].
    intros n [Hn| ->%list_elem_of_singleton]%elem_of_app; [by apply H1|done].
  - intros n. rewrite visit_insert, elem_of_app, list_elem_of_singleton, <- H2. case_decide; naive_solver.
  - intros n. rewrite visit_insert, <- H3. case_decide as Hn; [subst; rewrite Hv; done|done].
Qed.

Lemma search_leave s fin path curr : search_ok s fin -> s.2 = path ++ [curr] ->
  (forall d, d ∈ deps curr -> d ∈ fin) -> search_ok (<[curr := visited]> s.1, path) (fin ++ [curr]).
Proof.
  intros [H1 H2 H3 H4 H5] E Hd. rewrite E in H1, H2, H5. destruct H1 as [Hnd Hin].
  apply NoDup_app in Hnd as (Hnd & Hx & _).
  assert (Hnp : curr ∉ path) by (intros Hp; apply (Hx _ Hp); by left).
  split; cbn [snd].
  - split; [done|]. intros n Hn. apply Hin, elem_of_app. by left.
  - intros n. rewrite visit_insert. case_decide as Hn; [subst; split; [done|intros; done]|].
    rewrite H2, elem_of_app, list_elem_of_singleton. naive_solver.
  - intros n. rewrite visit_insert, elem_of_app, list_elem_of_singleton, <- H3. case_decide; naive_solver.
  - by apply in_order_snoc.
  - intros l1 a b l2 ->. eapply (H5 l1 a b (l2 ++ [curr])). by rewrite <- app_assoc.
Qed.

(** What a visit does: it reports a cycle, or ends with the node and what it needs visited. *)
Lemma dfsCycle_spec fuel : forall curr s fin, search_ok s fin -> visit_of s curr = unvisited -> curr ∈ nodes ->
  chain (s.2 ++ [curr]) -> (length nodes <= fuel + length s.2)%nat ->
  match dfsCycle fuel deps curr s with
  | inl err => is_cycle err
  | inr s' => s'.2 = s.2 /\ exists fin', search_ok s' (fin ++ fin') /\ curr ∈ fin'
  end.
Proof using deps_nodes.
  induction fuel as [|fuel IH]; intros curr s fin Hs Hv Hcn Hch Hf.
  { exfalso. assert (Hnp : curr ∉ s.2) by (rewrite <- (so_visiting _ _ Hs), Hv; done).
    assert (Hl : (length (curr :: s.2) <= length nodes)%nat); [|simpl in Hl; lia].
    apply submseteq_length, NoDup_submseteq; [constructor; [done|apply Hs]|].
    intros n [->|Hn]%elem_of_cons; [done|by apply Hs]. }
  cbn [dfsCycle].
  match goal with |- context [match ?f (deps curr) _ with _ => _ end] => set (each := f) end.
  assert (Heach : forall nexts s1 fin1, search_ok s1 fin1 -> s1.2 = s.2 ++ [curr] -> (forall d, d ∈ nexts -> d ∈ deps curr) ->
    match each nexts s1 with
    | inl err => is_cycle err
    | inr s' => s'.2 = s1.2 /\ exists fin', search_ok s' (fin1 ++ fin') /\ forall d, d ∈ nexts -> d ∈ fin1 ++ fin'
    end).
  { induction nexts as [|next nexts IHn]; intros s1 fin1 Hs1 Ep Hd; cbn [each].
    { split; [done|]. exists []. rewrite app_nil_r. split; [done|set_solver]. }
    assert (Hnd : next ∈ deps curr) by (apply Hd; by left).
    assert (Hlast : last s1.2 = Some curr) by by rewrite Ep, last_snoc.
    destruct (visit_of s1 next) eqn:Hvn.
    - pose proof (IH next s1 fin1 Hs1 Hvn (deps_nodes curr next Hcn Hnd)) as Hrec.
      specialize (Hrec ltac:(apply chain_snoc; [apply Hs1|rewrite Hlast; by intros a [= <-]])).
      specialize (Hrec ltac:(rewrite Ep, length_app; simpl; lia)).
      destruct (dfsCycle fuel deps next s1) as [err|s2]; [done|]. destruct Hrec as (Ep2 & fin2 & Hs2 & Hin2).
      specialize (IHn s2 (fin1 ++ fin2) Hs2 ltac:(by rewrite Ep2) ltac:(intros d Hx; apply Hd; by right)).
      destruct (each nexts s2) as [err|s3]; [done|]. destruct IHn as (Ep3 & fin3 & Hs3 & Hin3).
      split; [by rewrite Ep3|]. exists (fin2 ++ fin3). rewrite app_assoc. split; [done|].
      intros d [->|Hx]%elem_of_cons; [set_solver|by apply Hin3].
    - assert (Hp : next ∈ s1.2) by by apply (so_visiting _ _ Hs1).
      destruct (path_from_split next s1.2 Hp) as (l1 & l2 & E & ->). exists next, l2. split; [done|].
      split; [|intros n Hn; apply (so_path _ _ Hs1); rewrite E; set_solver].
      apply (chain_circular l1 _ _ curr); rewrite <- ?E; [apply Hs1|done|done].
    - specialize (IHn s1 fin1 Hs1 Ep ltac:(intros d Hx; apply Hd; by right)).
      destruct (each nexts s1) as [err|s3]; [done|]. destruct IHn as (Ep3 & fin3 & Hs3 & Hin3).
      split; [done|]. exists fin3. split; [done|]. intros d [->|Hx]%elem_of_cons; [|by apply Hin3].
      apply (so_visited _ _ Hs1) in Hvn. set_solver. }
  pose proof (search_enter s fin curr Hs Hv Hcn Hch) as Hs0.
  specialize (Heach (deps curr) _ fin Hs0 eq_refl (fun d Hx => Hx)).
  destruct (each (deps curr) _) as [err|s1]; [done|]. destruct Heach as (Ep & fin1 & Hs1 & Hin). cbn [snd] in Ep.
  rewrite Ep, removelast_last. split; [done|]. exists (fin1 ++ [curr]). rewrite app_assoc. split; [|set_solver].
  by apply search_leave.
Qed.

Lemma dfs_all_spec fuel ids : (length nodes <= fuel)%nat -> (forall n, n ∈ ids -> n ∈ nodes) ->
  forall s fin, search_ok s fin -> s.2 = [] ->
  match dfs_all fuel deps ids s with
  | inl err => is_cycle err
  | inr s' => exists fin', search_ok s' (fin ++ fin') /\ forall n, n ∈ ids -> n ∈ fin ++ fin'
  end.
Proof using deps_nodes.
  intros Hf. induction ids as [|id ids IH]; intros Hin s fin Hs Ep; cbn [dfs_all].
  { exists []. rewrite app_nil_r. split; [done|set_solver]. }
  assert (Hin' : forall n, n ∈ ids -> n ∈ nodes) by (intros n Hn; apply Hin; by right).
  destruct (decide (visit_of s id = unvisited)) as [Hv|Hv].
  - pose proof (dfsCycle_spec fuel id s fin Hs Hv ltac:(apply Hin; by left)) as Hd.
    specialize (Hd ltac:(rewrite Ep; intros [|? [|? ?]] a b l2 E; done) ltac:(lia)).
    destruct (dfsCycle fuel deps id s) as [err|s1]; [done|]. destruct Hd as (Ep1 & fin1 & Hs1 & Hx).
    specialize (IH Hin' s1 (fin ++ fin1) Hs1 ltac:(by rewrite Ep1)).
    destruct (dfs_all fuel deps ids s1) as [err|s2]; [done|]. destruct IH as (fin2 & Hs2 & Hall).
    exists (fin1 ++ fin2). rewrite app_assoc. split; [done|]. intros n [->|Hn]%elem_of_cons; [set_solver|by apply Hall].
  - specialize (IH Hin' s fin Hs Ep). destruct (dfs_all fuel deps ids s) as [err|s2]; [done|].
    destruct IH as (fin2 & Hs2 & Hall). exists fin2. split; [done|]. intros n [->|Hn]%elem_of_cons; [|by apply Hall].
    apply elem_of_app. left. apply (so_visited _ _ Hs). destruct (visit_of s id) eqn:E; [done| |done].
    apply (so_visiting _ _ Hs) in E. rewrite Ep in E. by apply elem_of_nil in E.
Qed.
End Search.

(** ** The tables *)

Definition mid (m : Manifest) : string := trim_space (mf_ID m).
(** The names a manifest requires, and those it refuses. *)
Definition requires (m : Manifest) : list string := filter (fun d => d <> EmptyString) (map trim_space (mf_Dependencies m)).
Definition refuses (m : Manifest) : list string := filter (fun d => d <> EmptyString) (map trim_space (mf_Conflicts m)).

(** An error of a single manifest. *)
Definition manifest_error (err : module_error) : Prop :=
  match err with
  | ErrNilModule | ErrEmptyModuleID | ErrInvalidID _ | ErrEmptyModuleVersion _ | ErrDuplicateID _ | ErrSelfDependency _
  | ErrDuplicateDependency _ _ | ErrSelfConflict _ | ErrDuplicateConflict _ _ => True
  | _ => False
  end.

Lemma clean_spec id self dup l : forall seen,
  match clean id self dup l seen with
  | inl err => err = self \/ exists d, err = dup d
  | inr r => forall d, d ∈ r <-> d ∈ seen \/ d ∈ filter (fun d => d <> EmptyString) (map trim_space l)
  end.
Proof.
  induction l as [|x l IH]; intros seen; cbn [clean map].
  { intros d. rewrite elem_of_sort_strings. split; [by left|]. intros [?|Hd]; [done|by apply elem_of_nil in Hd]. }
  destruct (decide (trim_space x = EmptyString)) as [He|He].
  { specialize (IH seen). destruct (clean _ _ _ _ _); [done|]. intros d. rewrite IH, filter_cons_False by tauto. done. }
  case_decide; [by left|]. case_decide; [right; by eexists|]. specialize (IH (seen ++ [trim_space x])).
  destruct (clean _ _ _ _ _); [done|]. intros d.
  rewrite IH, filter_cons_True, elem_of_app, list_elem_of_singleton, elem_of_cons by done. tauto.
Qed.

Record tables_ok (ms : list Manifest) (t : tables) : Prop := {
  tb_nodup : NoDup (map mid ms);
  tb_lookup : forall id m, tb_byID t !! id = Some m <-> m ∈ ms /\ mid m = id;
  tb_requires : forall id d, d ∈ deps_in t id <-> exists m, m ∈ ms /\ mid m = id /\ d ∈ requires m;
  tb_refuses : forall id d, d ∈ conflicts_in t id <-> exists m, m ∈ ms /\ mid m = id /\ d ∈ refuses m;
  tb_size : size (tb_byID t) = length ms
}.

Lemma tables_none ms t id m : tables_ok ms t -> tb_byID t !! id = None -> m ∈ ms -> mid m <> id.
Proof. intros H Hn Hm E. assert (Hx : tb_byID t !! id = Some m) by by apply (tb_lookup _ _ H). congruence. Qed.

(** One more table row keeps a table of lists in step with the manifests. *)
Lemma row_ok (f : Manifest -> list string) ms (tb : gmap string (list string)) m l :
  (forall id d, d ∈ default [] (tb !! id) <-> exists x, x ∈ ms /\ mid x = id /\ d ∈ f x) ->
  (forall x, x ∈ ms -> mid x <> mid m) -> (forall d, d ∈ l <-> d ∈ f m) ->
  forall id d, d ∈ default [] (<[mid m := l]> tb !! id) <-> exists x, x ∈ ms ++ [m] /\ mid x = id /\ d ∈ f x.
Proof.
  intros Ht Hx Hl id d. setoid_rewrite elem_of_app. setoid_rewrite list_elem_of_singleton.
  destruct (decide (mid m = id)) as [<-|Hn].
  - rewrite lookup_insert_eq. cbn. rewrite Hl. split; [intros Hd; exists m; by auto|].
    intros (x & [Hin| ->] & E & Hd); [by destruct (Hx x Hin)|done].
  - rewrite lookup_insert_ne by done. rewrite Ht. split; [intros (x & ? & ? & ?); exists x; by auto|].
    intros (x & [Hin| ->] & E & Hd); [by exists x|done].
Qed.

Lemma read_modules_spec modules : forall ms t, tables_ok ms t ->
  match read_modules modules t with
  | inl err => manifest_error err
  | inr t' => exists ms', modules = map Some ms' /\ tables_ok (ms ++ ms') t'
  end.
Proof.
  induction modules as [|[m|] modules IH]; intros ms t H; cbn [read_modules]; [exists []; by rewrite app_nil_r| |done].
  fold (mid m). case_decide as Hz1; [done|]. destruct (negb _); [done|]. case_decide as Hz2; [done|].
  destruct (tb_byID t !! mid m) eqn:Hn; [done|].
  pose proof (clean_spec (mid m) (ErrSelfDependency (mid m)) (ErrDuplicateDependency (mid m)) (mf_Dependencies m) []) as Hd.
  destruct (clean _ _ _ (mf_Dependencies m) _) as [err|deps]; [by destruct Hd as [->|[d ->]]|].
  pose proof (clean_spec (mid m) (ErrSelfConflict (mid m)) (ErrDuplicateConflict (mid m)) (mf_Conflicts m) []) as Hc.
  destruct (clean _ _ _ (mf_Conflicts m) _) as [err|conflicts]; [by destruct Hc as [->|[d ->]]|].
  assert (Hne : forall x, x ∈ ms -> mid x <> mid m) by (intros x; by eapply tables_none).
  assert (H' : tables_ok (ms ++ [m]) (mkTables (<[mid m := m]> (tb_byID t)) (<[mid m := deps]> (tb_deps t))
    (<[mid m := conflicts]> (tb_conflicts t)))).
  { destruct H as [H1 H2 H3 H4 H5]. split; cbn [tb_byID tb_deps tb_conflicts].
    - rewrite map_app. apply NoDup_app. split_and_all; [done| |apply NoDup_singleton].
      intros id Hid Hx. apply list_elem_of_singleton in Hx as ->. apply list_elem_of_fmap in Hid as (x & E & Hx).
      by apply (Hne x).
    - intros id x. rewrite elem_of_app, list_elem_of_singleton. destruct (decide (mid m = id)) as [<-|Hid].
      + rewrite lookup_insert_eq. split; [intros [= <-]; by auto|]. intros [[Hx| ->] E]; [by destruct (Hne x)|done].
      + rewrite lookup_insert_ne by done. rewrite H2. split; [intros [? ?]; by auto|]. by intros [[Hx| ->] E].
    - apply row_ok; [done..|]. intros d. rewrite Hd. split; [intros [Hx|?]; [by apply elem_of_nil in Hx|done]|by right].
    - apply row_ok; [done..|]. intros d. rewrite Hc. split; [intros [Hx|?]; [by apply elem_of_nil in Hx|done]|by right].
    - rewrite map_size_insert_None, H5, length_app by done. simpl. lia. }
  specialize (IH _ _ H'). destruct (read_modules _ _) as [err|t']; [done|]. destruct IH as (ms' & -> & Ht').
  exists (m :: ms'). split; [done|]. by rewrite <- app_assoc in Ht'.
Qed.

Lemma check_all_spec present byID l mk ids :
  match check_all present byID l mk ids with
  | Some err => exists id d, err = mk id d /\ id ∈ ids /\ d ∈ l id /\ bool_decide (is_Some (byID !! d)) = present
  | None => forall id d, id ∈ ids -> d ∈ l id -> bool_decide (is_Some (byID !! d)) <> present
  end.
Proof.
  induction ids as [|id ids IH]; cbn [check_all]; [set_solver|].
  destruct (filter _ (l id)) as [|d rest] eqn:E.
  - destruct (check_all _ _ _ _ ids) as [err|].
    + destruct IH as (i & d & -> & ? & ? & ?). exists i, d. split_and_all; [done|by right|done|done].
    + intros i d [->|Hi]%elem_of_cons Hd; [|by apply (IH i)]. intros Hp.
      assert (Hx : d ∈ filter (fun d => bool_decide (is_Some (byID !! d)) = present) (l id)) by by apply list_elem_of_filter.
      rewrite E in Hx. by apply elem_of_nil in Hx.
  - assert (Hx : d ∈ filter (fun d => bool_decide (is_Some (byID !! d)) = present) (l id)) by (rewrite E; by left).
    apply list_elem_of_filter in Hx as [Hp Hd]. exists id, d. split_and_all; [done|by left|done|done].
Qed.

(** ** The sort *)

Lemma dependents_of_spec deps ids c n : NoDup ids ->
  occurrences n (default [] (dependents_of deps ids !! c)) = if decide (n ∈ ids) then occurrences c (deps n) else 0.
Proof.
  intros Hnd. unfold dependents_of.
  assert (Hgen : forall ids (m : gmap string (list string)), NoDup ids ->
    occurrences n (default [] (foldl (fun m id => foldl (fun m dep => <[dep := default [] (m !! dep) ++ [id]]> m) m (deps id)) m ids !! c))
    = occurrences n (default [] (m !! c)) + if decide (n ∈ ids) then occurrences c (deps n) else 0); [|by rewrite Hgen].
  clear ids Hnd. intros ids m Hnd. revert m. induction Hnd as [|id ids Hid Hnd IH]; intros m; cbn [foldl].
  { rewrite decide_False by set_solver. lia. }
  assert (Hin : forall l (m : gmap string (list string)),
    occurrences n (default [] (foldl (fun m dep => <[dep := default [] (m !! dep) ++ [id]]> m) m l !! c)) =
    occurrences n (default [] (m !! c)) + if decide (id = n) then occurrences c l else 0).
  { induction l as [|d l IHl]; intros m0; cbn [foldl]; [change (occurrences c []) with 0; destruct (decide (id = n)); lia|].
    rewrite IHl.
    change (occurrences c (d :: l)) with ((if decide (d = c) then 1 else 0) + occurrences c l).
    destruct (decide (d = c)) as [->|Hd].
    - rewrite lookup_insert_eq. unfold default at 1, from_option. unfold Datatypes.id at 1. rewrite occurrences_app. cbn.
      destruct (decide (id = n)); lia.
    - rewrite lookup_insert_ne by done. destruct (decide (id = n)); lia. }
  rewrite IH, Hin. destruct (decide (id = n)) as [->|Hn].
  - rewrite decide_False, decide_True by (done || by left). lia.
  - destruct (decide (n ∈ ids)), (decide (n ∈ id :: ids)); (lia || set_solver).
Qed.

Lemma degrees_spec (deps : string -> list string) ids n : NoDup ids -> n ∈ ids ->
  zget n (foldl (fun m id => <[id := Z.of_nat (length (deps id))]> m) ∅ ids) = Z.of_nat (length (deps n)).
Proof.
  intros _ Hn. revert Hn. generalize (∅ : gmap string Z). induction ids as [|id ids IH] using rev_ind; intros m Hn.
  { by apply elem_of_nil in Hn. }
  rewrite foldl_app. cbn. destruct (decide (id = n)) as [->|Hid]; [by rewrite zget_insert|].
  rewrite zget_insert_ne by congruence. apply IH. set_solver.
Qed.

Section Tables.
Context (ms : list Manifest) (t : tables) (Ht : tables_ok ms t).
Let ids := sort_strings (map_to_list (tb_byID t)).*1.

Lemma elem_of_ids n : n ∈ ids <-> exists m, m ∈ ms /\ mid m = n.
Proof using Ht.
  unfold ids. rewrite elem_of_sort_strings, list_elem_of_fmap. split.
  - intros ([k m] & -> & Hm%elem_of_map_to_list). exists m. by apply (tb_lookup _ _ Ht).
  - intros (m & Hm & E). exists (n, m). split; [done|]. apply elem_of_map_to_list. by apply (tb_lookup _ _ Ht).
Qed.

Lemma NoDup_ids : NoDup ids.
Proof. unfold ids. rewrite sort_strings_perm. apply NoDup_fst_map_to_list. Qed.

Lemma length_ids : length ids = length ms.
Proof using Ht.
  unfold ids. rewrite sort_strings_perm, length_fmap, length_map_to_list. apply (tb_size _ _ Ht).
Qed.

Lemma ids_lookup n : n ∈ ids <-> is_Some (tb_byID t !! n).
Proof using Ht.
  rewrite elem_of_ids. split; [intros (m & Hm & E); exists m; by apply (tb_lookup _ _ Ht)|].
  intros [m Hm]. exists m. by apply (tb_lookup _ _ Ht).
Qed.

(** An order of the names, read on the manifests. *)
Lemma order_manifests o : o ≡ₚ ids -> in_order (deps_in t) o ->
  let l := omap (fun id => tb_byID t !! id) o in
  l ≡ₚ ms /\ map mid l = o /\
  forall l1 m l2, l = l1 ++ m :: l2 -> forall d, d ∈ requires m -> exists m', m' ∈ l1 /\ mid m' = d.
Proof using Ht.
  intros Hp Ho l.
  assert (Hmap : map mid l = o).
  { unfold l. assert (Hall : forall n, n ∈ o -> is_Some (tb_byID t !! n)) by (intros n; rewrite Hp; apply ids_lookup).
    clear Hp Ho l. induction o as [|n o IH]; [done|]. destruct (Hall n) as [m Hm]; [by left|]. cbn [omap list_omap].
    rewrite Hm. cbn [map]. rewrite (IH ltac:(intros k Hk; apply Hall; by right)). f_equal.
    by apply (tb_lookup _ _ Ht) in Hm as [_ ?]. }
  assert (Hin : forall m, m ∈ l <-> m ∈ ms).
  { intros m. unfold l. rewrite list_elem_of_omap. split.
    - intros (n & _ & Hm). by apply (tb_lookup _ _ Ht) in Hm as [? _].
    - intros Hm. exists (mid m). split; [|by apply (tb_lookup _ _ Ht)]. rewrite Hp. apply elem_of_ids. by exists m. }
  split_and_all; [|done|].
  - apply NoDup_Permutation; [|apply (NoDup_fmap_1 mid), (tb_nodup _ _ Ht)|done].
    apply (NoDup_fmap_1 mid). change (NoDup (map mid l)). rewrite Hmap, Hp. apply NoDup_ids.
  - intros l1 m l2 El d Hd. rewrite <- Hmap, El, map_app in Ho.
    assert (Hx : d ∈ map mid l1).
    { eapply (Ho (map mid l1) (mid m)); [done|]. apply (tb_requires _ _ Ht). exists m. split; [|done].
      apply Hin. rewrite El. set_solver. }
    apply list_elem_of_fmap in Hx as (m' & -> & Hm'). by exists m'.
Qed.

Context (Hdeps : forall id d, id ∈ ids -> d ∈ deps_in t id -> bool_decide (is_Some (tb_byID t !! d)) <> false).

Lemma deps_ids n d : n ∈ ids -> d ∈ deps_in t n -> d ∈ ids.
Proof using Ht Hdeps.
  intros Hn Hd. apply ids_lookup. specialize (Hdeps n d Hn Hd). by destruct (bool_decide_reflect (is_Some (tb_byID t !! d))).
Qed.

Lemma search_init : search_ok ids (deps_in t) (∅, []) [].
Proof.
  assert (Hv : forall n, visit_of (∅, []) n = unvisited) by done.
  split; try done.
  - split; [constructor|set_solver].
  - intros n. rewrite Hv. split; [done|by intros ?%elem_of_nil].
  - intros n. rewrite Hv. split; [done|by intros ?%elem_of_nil].
  - intros l1 n l2 E. by destruct l1.
  - intros l1 a b l2 E. by destruct l1.
Qed.

(** When the search finds no cycle, the sort takes every module. *)
Lemma sort_complete s : dfs_all (length ms) (deps_in t) ids (∅, []) = inr s ->
  let inDegree := foldl (fun m id => <[id := Z.of_nat (length (deps_in t id))]> m) ∅ ids in
  let queue := filter (fun id => zget id inDegree = 0) ids in
  let '(result, _, _) := kahn (length ms) (dependents_of (deps_in t) ids) inDegree (sort_strings queue) [] in
  length result = length ms /\ result ≡ₚ ids /\ in_order (deps_in t) result /\
  result = least_first ids (deps_in t) (length ms) [].
Proof using Ht Hdeps.
  intros E inDegree queue.
  pose proof (dfs_all_spec ids (deps_in t) deps_ids (length ms) ids) as Hdfs. rewrite length_ids in Hdfs.
  specialize (Hdfs (le_n _) (fun n Hn => Hn) (∅, []) [] search_init eq_refl). rewrite E in Hdfs.
  destruct Hdfs as (fin & Hs & Hall). cbn [app] in Hs, Hall.
  assert (Hdeg : degrees_ok ids (deps_in t) inDegree []).
  { intros n Hn. unfold inDegree. rewrite degrees_spec by (done || apply NoDup_ids).
    unfold missing. induction (deps_in t n) as [|d l IH]; cbn [lsum foldr length]; [done|]. unfold lsum in IH. rewrite <- IH.
    rewrite decide_False by set_solver. lia. }
  assert (Hq : sort_strings queue = ready ids (deps_in t) []).
  { apply sort_strings_unique, NoDup_Permutation; try apply NoDup_filter, NoDup_ids. intros n. unfold queue.
    rewrite !list_elem_of_filter. split; intros [H1 Hn]; (split; [|done]); revert H1; rewrite (Hdeg n Hn), missing_zero;
      [|tauto]. intros ?. split; [set_solver|done]. }
  rewrite Hq. pose proof (kahn_run ids (deps_in t) (dependents_of (deps_in t) ids) inDegree NoDup_ids) as Hk.
  rewrite length_ids in Hk. specialize (Hk ltac:(intros c n Hc; apply dependents_of_spec, NoDup_ids) Hdeg deps_ids).
  destruct (kahn _ _ _ _ _) as [[result deg'] q']. destruct Hk as (Er & Hok & _ & [[Hp Hl]|[Hc _]]).
  - split_and_all; [done|done|apply Hok|done].
  - exfalso. eapply circular_not_in_order; [exact Hc|apply (so_order _ _ _ _ Hs)|].
    intros n [_ Hn]%list_elem_of_filter. by apply Hall.
Qed.
End Tables.

Lemma tables_init : tables_ok [] (mkTables ∅ ∅ ∅).
Proof.
  split; cbn; try done; [constructor| |intros id d; split..].
  - intros id m. split; [done|by intros [?%elem_of_nil _]].
  - by intros ?%elem_of_nil.
  - by intros (m & ?%elem_of_nil & _).
  - by intros ?%elem_of_nil.
  - by intros (m & ?%elem_of_nil & _).
Qed.

(** [ResolveOrder] decides whether the modules can be initialised in order. A
    result has exactly the modules given, each after all it requires, and no two
    that refuse each other. An error is about one manifest, or names a module that
    is required and missing, two modules that conflict, or a cycle: modules each of
    which requires another of them. The sort never fails after the search has
    passed, and the searches never run out of fuel. *)
Theorem ResolveOrder_decides modules :
  match ResolveOrder modules with
  | inr l =>
      map Some l ≡ₚ modules /\
      (forall l1 m l2, l = l1 ++ m :: l2 -> forall d, d ∈ requires m -> exists m', m' ∈ l1 /\ mid m' = d) /\
      (forall m m', m ∈ l -> m' ∈ l -> mid m' ∉ refuses m)
  | inl (ErrUnknownDependency id d) =>
      (exists m, Some m ∈ modules /\ mid m = id /\ d ∈ requires m) /\ forall m, Some m ∈ modules -> mid m <> d
  | inl (ErrConflict id d) => exists m m', Some m ∈ modules /\ Some m' ∈ modules /\ mid m = id /\ mid m' = d /\ d ∈ refuses m
  | inl (ErrCycle c) =>
      exists x l, c = (x :: l) ++ [x] /\
        forall n, n ∈ x :: l -> exists m d, Some m ∈ modules /\ mid m = n /\ d ∈ requires m /\ d ∈ x :: l
  | inl (ErrUnresolved _ _) | inl ErrFuel => False
  | inl err => manifest_error err
  end.
Proof.
  unfold ResolveOrder. destruct modules as [|m0 modules0]; [split_and_all; [done|by intros []|set_solver]|].
  set (modules := m0 :: modules0).
  pose proof (read_modules_spec modules [] _ tables_init) as Hread.
  destruct (read_modules modules _) as [err|t]; [by destruct err|]. destruct Hread as (ms & Em & Ht). cbn [app] in Ht.
  set (ids := sort_strings _).
  assert (Hms : forall m, Some m ∈ modules <-> m ∈ ms).
  { intros m. rewrite Em, list_elem_of_fmap. split; [by intros (x & [= <-] & ?)|intros; by exists m]. }
  assert (Hlen : length modules = length ms) by by rewrite Em, length_map.
  pose proof (check_all_spec false (tb_byID t) (deps_in t) ErrUnknownDependency ids) as Hdeps.
  destruct (check_all false _ _ _ _) as [err|].
  { destruct Hdeps as (id & d & -> & _ & Hd & Hb). split.
    - apply (tb_requires _ _ Ht) in Hd as (m & ? & ? & ?). exists m. by rewrite Hms.
    - intros m Hm E. apply bool_decide_eq_false in Hb. apply Hb. exists m. apply (tb_lookup _ _ Ht). by rewrite <- Hms. }
  pose proof (check_all_spec true (tb_byID t) (conflicts_in t) ErrConflict ids) as Hconf.
  destruct (check_all true _ _ _ _) as [err|].
  { destruct Hconf as (id & d & -> & _ & Hd & Hb). apply (tb_refuses _ _ Ht) in Hd as (m & ? & ? & ?).
    apply bool_decide_eq_true in Hb as [m' Hm']. apply (tb_lookup _ _ Ht) in Hm' as [? ?]. exists m, m'. by rewrite !Hms. }
  rewrite Hlen. pose proof (sort_complete ms t Ht Hdeps) as Hsort. fold ids in Hsort.
  pose proof (dfs_all_spec ids (deps_in t) (deps_ids ms t Ht Hdeps) (length ms) ids) as Hdfs.
  unfold ids at 1 in Hdfs. rewrite (length_ids ms t Ht) in Hdfs.
  specialize (Hdfs (le_n _) (fun n Hn => Hn) (∅, []) [] ltac:(eapply search_init; eassumption) eq_refl).
  destruct (dfs_all _ _ _ _) as [err|s].
  { destruct Hdfs as (x & l & -> & [_ Hc] & Hin). exists x, l. split; [done|]. intros n Hn.
    destruct (Hc n Hn) as (d & Hd & Hdl). apply (tb_requires _ _ Ht) in Hd as (m & ? & ? & ?). exists m, d. by rewrite Hms. }
  specialize (Hsort s eq_refl). cbv zeta in Hsort |- *. destruct (kahn _ _ _ _ _) as [[result deg'] q'].
  destruct Hsort as (Hl & Hp & Ho & _). rewrite decide_False by lia.
  destruct (order_manifests ms t Ht result Hp Ho) as (Hperm & _ & Hord). split_and_all; [by rewrite Em, Hperm|done|].
  intros m m' Hm Hm' Hr. rewrite Hperm in Hm, Hm'. apply (Hconf (mid m) (mid m')).
  - by apply (elem_of_ids ms t Ht); exists m.
  - apply (tb_refuses _ _ Ht). by exists m.
  - apply bool_decide_eq_true. exists m'. by apply (tb_lookup _ _ Ht).
Qed.
