(* ===== verification/RuntimeGraph.v ===== *)
(** * The dependency graph of the runtime

    Models [internal/runtime/graph.go]. A component is a type with the methods of
    the [Component] interface the graph uses. Go visits a map in no fixed order:
    [visit n l] is the order in which the [n]-th [range] of a call visits the keys
    [l], and the theorems hold for every permutation. *)

From S2P Require Import Prelude.
From S2P Require Import Topology.

Class Component (C : Type) := { Name : C -> string; Dependencies : C -> list string }.

Inductive graph_error :=
  | ErrNilComponent | ErrEmptyName | ErrDuplicate (name : string)
  | ErrMissingDependency (name dep : string) | ErrSelfDependency (name : string)
  | ErrCyclic (names : list string).

Section Graph.
Context {C : Type} `{Component C}.

#[local] Notation graph := (gmap string C).

(** A nil interface is [None]. *)
Definition Add (c : option C) (g : graph) : option graph_error * graph :=
  match c with
  | None => (Some ErrNilComponent, g)
  | Some c =>
      let name := trim_space (Name c) in
      if decide (name = EmptyString) then (Some ErrEmptyName, g)
      else match g !! name with
           | Some _ => (Some (ErrDuplicate name), g)
           | None => (None, <[name := c]> g)
           end
  end.

Definition Get (name : string) (g : graph) : option C := g !! name.

(** The keys of the map, and the dependencies of a name as the graph reads them. *)
Definition names (g : graph) : list string := (map_to_list g).*1.
Definition deps_of (g : graph) (name : string) : list string :=
  match g !! name with Some c => map trim_space (Dependencies c) | None => [] end.

(** The body of the second loop of [StartupOrder]. *)
Fixpoint link_deps (g : graph) (name : string) (deps : list string) (adj : gmap string (list string))
    (inDegree : gmap string Z) : graph_error + gmap string (list string) * gmap string Z :=
  match deps with
  | [] => inr (adj, inDegree)
  | dep :: rest =>
      let dep := trim_space dep in
      match g !! dep with
      | None => inl (ErrMissingDependency name dep)
      | Some _ =>
          link_deps g name rest (<[dep := default [] (adj !! dep) ++ [name]]> adj)
            (<[name := zget name inDegree + 1]> inDegree)
      end
  end.

Fixpoint link_all (g : graph) (keys : list string) (adj : gmap string (list string)) (inDegree : gmap string Z)
    : graph_error + gmap string (list string) * gmap string Z :=
  match keys with
  | [] => inr (adj, inDegree)
  | name :: rest =>
      match link_deps g name (from_option Dependencies [] (g !! name)) adj inDegree with
      | inl err => inl err
      | inr (adj, inDegree) => link_all g rest adj inDegree
      end
  end.

Definition StartupOrder (visit : nat -> list string -> list string) (g : graph) : graph_error + list C :=
  let inDegree := foldl (fun m name => <[name := 0]> m) ∅ (visit 0%nat (names g)) in
  let adj := foldl (fun m name => <[name := []]> m) ∅ (visit 0%nat (names g)) in
  match link_all g (visit 1%nat (names g)) adj inDegree with
  | inl err => inl err
  | inr (adj, inDegree) =>
      let adj := sort_strings <$> adj in
      let queue := filter (fun name => zget name inDegree = 0) (visit 2%nat (names g)) in
      let '(ordered, inDegree, _) := kahn (size g) adj inDegree (sort_strings queue) [] in
      if decide (length ordered <> size g) then
        inl (ErrCyclic (sort_strings (filter (fun name => 0 < zget name inDegree) (visit 3%nat (names g)))))
      else inr (omap (fun name => g !! name) ordered)
  end.

Fixpoint find_invalid (g : graph) (name : string) (deps : list string) : option graph_error :=
  match deps with
  | [] => None
  | dep :: rest =>
      let dep := trim_space dep in
      match g !! dep with
      | None => Some (ErrMissingDependency name dep)
      | Some _ => if decide (dep = name) then Some (ErrSelfDependency name) else find_invalid g name rest
      end
  end.

Fixpoint find_invalids (g : graph) (keys : list string) : option graph_error :=
  match keys with
  | [] => None
  | name :: rest =>
      match find_invalid g name (from_option Dependencies [] (g !! name)) with
      | Some err => Some err
      | None => find_invalids g rest
      end
  end.

Definition Validate (visit : nat -> list string -> list string) (g : graph) : option graph_error :=
  match find_invalids g (visit 4%nat (names g)) with
  | Some err => Some err
  | None => match StartupOrder visit g with inl err => Some err | inr _ => None end
  end.

Definition ShutdownOrder (visit : nat -> list string -> list string) (g : graph) : graph_error + list C :=
  match StartupOrder visit g with
  | inl err => inl err
  | inr startOrder => inr (reverse startOrder)
  end.

(** ** What the loops build *)

Lemma deps_of_map g name : map trim_space (from_option Dependencies [] (g !! name)) = deps_of g name.
Proof. unfold deps_of. by destruct (g !! name). Qed.

Lemma elem_of_names g n : n ∈ names g <-> is_Some (g !! n).
Proof.
  unfold names. rewrite list_elem_of_fmap. split.
  - intros ([k c] & -> & Hc%elem_of_map_to_list). by exists c.
  - intros [c Hc]. exists (n, c). split; [done|by apply elem_of_map_to_list].
Qed.

Lemma NoDup_names g : NoDup (names g).
Proof. apply NoDup_fst_map_to_list. Qed.

Lemma length_names g : length (names g) = size g.
Proof. unfold names. rewrite length_fmap. apply length_map_to_list. Qed.

Definition adds (n name c : string) (deps : list string) : Z := if decide (n = name) then occurrences c deps else 0.

Lemma link_deps_spec g name deps : forall adj inDegree,
  match link_deps g name deps adj inDegree with
  | inl err => exists d, d ∈ map trim_space deps /\ g !! d = None /\ err = ErrMissingDependency name d
  | inr (adj', inDegree') =>
      (forall d, d ∈ map trim_space deps -> is_Some (g !! d)) /\
      (forall c n, occurrences n (default [] (adj' !! c)) =
         occurrences n (default [] (adj !! c)) + adds n name c (map trim_space deps)) /\
      (forall n, zget n inDegree' = zget n inDegree + if decide (n = name) then Z.of_nat (length deps) else 0)
  end.
Proof.
  induction deps as [|d deps IH]; intros adj deg; cbn [link_deps map].
  - split_and_all; [set_solver| |].
    + intros c n. unfold adds. case_decide; cbn; lia.
    + intros n. case_decide; cbn; lia.
  - destruct (g !! trim_space d) as [cd|] eqn:E; [|exists (trim_space d); split_and_all; [by left|done|done]].
    specialize (IH (<[trim_space d := default [] (adj !! trim_space d) ++ [name]]> adj) (<[name := zget name deg + 1]> deg)).
    destruct (link_deps g name deps _ _) as [err|[adj' deg']].
    + destruct IH as (x & Hx & ? & ?). exists x. split_and_all; [by right|done|done].
    + destruct IH as (H1 & H2 & H3). split_and_all.
      * intros x [->|Hx]%elem_of_cons; [by exists cd|by apply H1].
      * intros c n. rewrite H2. unfold adds.
        assert (Ho : occurrences c (trim_space d :: map trim_space deps) =
          (if decide (trim_space d = c) then 1 else 0) + occurrences c (map trim_space deps)) by done. rewrite Ho.
        destruct (decide (trim_space d = c)) as [->|Hn].
        -- rewrite lookup_insert_eq. cbn [default from_option id]. rewrite occurrences_app. cbn.
           destruct (decide (name = n)), (decide (n = name)); (lia || congruence).
        -- rewrite lookup_insert_ne by done. case_decide; lia.
      * intros n. rewrite H3. cbn [length]. case_decide as Hn; [subst; rewrite zget_insert; lia|].
        by rewrite zget_insert_ne.
Qed.

Lemma link_all_spec g keys : NoDup keys -> forall adj inDegree,
  match link_all g keys adj inDegree with
  | inl err => exists n d, n ∈ keys /\ d ∈ deps_of g n /\ g !! d = None /\ err = ErrMissingDependency n d
  | inr (adj', inDegree') =>
      (forall n d, n ∈ keys -> d ∈ deps_of g n -> is_Some (g !! d)) /\
      (forall c n, occurrences n (default [] (adj' !! c)) =
         occurrences n (default [] (adj !! c)) + if decide (n ∈ keys) then occurrences c (deps_of g n) else 0) /\
      (forall n, zget n inDegree' =
         zget n inDegree + if decide (n ∈ keys) then Z.of_nat (length (deps_of g n)) else 0)
  end.
Proof.
  intros Hnd. induction Hnd as [|name keys Hni Hnd IH]; intros adj deg; cbn [link_all].
  - split_and_all; [set_solver| |].
    + intros c n. rewrite decide_False by set_solver. lia.
    + intros n. rewrite decide_False by set_solver. lia.
  - pose proof (link_deps_spec g name (from_option Dependencies [] (g !! name)) adj deg) as Hl.
    rewrite deps_of_map in Hl. destruct (link_deps _ _ _ _ _) as [err|[adj1 deg1]].
    + destruct Hl as (d & ? & ? & ->). exists name, d. split_and_all; [by left|done..].
    + destruct Hl as (H1 & H2 & H3). specialize (IH adj1 deg1).
      destruct (link_all g keys adj1 deg1) as [err|[adj' deg']].
      * destruct IH as (n & d & ? & ?). exists n, d. split; [by right|done].
      * destruct IH as (K1 & K2 & K3). split_and_all.
        -- intros n d [->|Hn]%elem_of_cons; [apply H1|by apply K1].
        -- intros c n. rewrite K2, H2. unfold adds. destruct (decide (n = name)) as [->|Hn].
           ++ rewrite decide_False, decide_True by (done || by left). lia.
           ++ destruct (decide (n ∈ keys)), (decide (n ∈ name :: keys)); (lia || set_solver).
        -- intros n. rewrite K3, H3. destruct (decide (n = name)) as [->|Hn].
           ++ rewrite decide_False, decide_True by (done || by left).
              rewrite <- deps_of_map, length_map. lia.
           ++ destruct (decide (n ∈ keys)), (decide (n ∈ name :: keys)); (lia || set_solver).
Qed.

Lemma foldl_init {A} (x : A) keys (m : gmap string A) n :
  foldl (fun m name => <[name := x]> m) m keys !! n = if decide (n ∈ keys) then Some x else m !! n.
Proof.
  revert m. induction keys as [|k keys IH]; intros m; cbn [foldl]; [by rewrite decide_False by set_solver|].
  rewrite IH. destruct (decide (n = k)) as [->|Hn].
  - rewrite lookup_insert_eq. rewrite (decide_True _ _ (P := k ∈ k :: keys)) by by left. by case_decide.
  - rewrite lookup_insert_ne by done. destruct (decide (n ∈ keys)), (decide (n ∈ k :: keys)); (done || set_solver).
Qed.

(** ** What the order is *)

Definition closed (g : graph) : Prop := forall n d, d ∈ deps_of g n -> is_Some (g !! d).

(** The reference: the least name whose dependencies were started is next. *)
Definition reference_order (g : graph) : graph_error + list C :=
  let o := least_first (names g) (deps_of g) (size g) [] in
  if decide (length o <> size g) then inl (ErrCyclic (sort_strings (filter (fun n => n ∉ o) (names g))))
  else inr (omap (fun n => g !! n) o).

Lemma deps_of_names g n d : d ∈ deps_of g n -> n ∈ names g.
Proof.
  rewrite elem_of_names. unfold deps_of. destruct (g !! n); [by eexists|by intros ?%elem_of_nil].
Qed.

Lemma missing_nil deps n : missing deps [] n = Z.of_nat (length (deps n)).
Proof.
  unfold missing. induction (deps n) as [|d l IH]; cbn [lsum foldr length]; [done|]. unfold lsum in *. rewrite IH.
  rewrite decide_False by set_solver. lia.
Qed.

Lemma occurrences_perm n l1 l2 : l1 ≡ₚ l2 -> occurrences n l1 = occurrences n l2.
Proof. unfold occurrences, lsum. induction 1; cbn; lia. Qed.

(** The two loops build the degrees and the edges of the graph. *)
Lemma link_all_ok g keys adj0 inDegree0 adj inDegree : keys ≡ₚ names g ->
  (forall n, zget n inDegree0 = 0) -> (forall c, default [] (adj0 !! c) = []) ->
  link_all g keys adj0 inDegree0 = inr (adj, inDegree) ->
  closed g /\ edges_ok (names g) (deps_of g) (sort_strings <$> adj) /\ degrees_ok (names g) (deps_of g) inDegree [].
Proof.
  intros Hk H0 Ha E. pose proof (link_all_spec g keys) as Hl.
  specialize (Hl ltac:(rewrite Hk; apply NoDup_names) adj0 inDegree0). rewrite E in Hl. destruct Hl as (H1 & H2 & H3).
  split_and_all.
  - intros n d Hd. apply (H1 n d); [|done]. rewrite Hk. by eapply deps_of_names.
  - intros c n _. rewrite lookup_fmap. transitivity (occurrences n (default [] (adj !! c))).
    + destruct (adj !! c); [|done]. apply occurrences_perm, sort_strings_perm.
    + rewrite H2, Ha. cbn. destruct (decide (n ∈ keys)) as [Hn|Hn]; rewrite Hk in Hn;
        [by rewrite decide_True|by rewrite decide_False].
  - intros n Hn. rewrite H3, H0, missing_nil, decide_True by by rewrite Hk. lia.
Qed.

Context (visit : nat -> list string -> list string) (visit_perm : forall n l, visit n l ≡ₚ l).

Lemma StartupOrder_cases g :
  (exists n d, d ∈ deps_of g n /\ g !! d = None /\ StartupOrder visit g = inl (ErrMissingDependency n d)) \/
  (closed g /\ StartupOrder visit g = reference_order g).
Proof using visit_perm.
  unfold StartupOrder.
  set (adj0 := foldl _ ∅ _). set (deg0 := foldl _ ∅ _).
  assert (Hdeg0 : forall n, zget n deg0 = 0) by (intros n; unfold zget, deg0; rewrite foldl_init; by case_decide).
  assert (Hadj0 : forall c, default [] (adj0 !! c) = []) by (intros c; unfold adj0; rewrite foldl_init; by case_decide).
  destruct (link_all g (visit 1%nat (names g)) adj0 deg0) as [err|[adj deg]] eqn:E.
  - left. pose proof (link_all_spec g (visit 1%nat (names g))) as Hl.
    specialize (Hl ltac:(rewrite visit_perm; apply NoDup_names) adj0 deg0). rewrite E in Hl.
    destruct Hl as (n & d & _ & ? & ? & ->). by exists n, d.
  - right. destruct (link_all_ok g _ _ _ _ _ (visit_perm _ _) Hdeg0 Hadj0 E) as (Hcl & Hadj & Hdeg). split; [done|].
    assert (Hq : sort_strings (filter (fun name => zget name deg = 0) (visit 2%nat (names g))) = ready (names g) (deps_of g) []).
    { apply sort_strings_unique. rewrite visit_perm. apply NoDup_Permutation; try apply NoDup_filter, NoDup_names.
      intros n. rewrite !list_elem_of_filter. split; intros [H1 Hn]; (split; [|done]); revert H1;
        rewrite (Hdeg n Hn), missing_zero; [|tauto]. intros ?. split; [set_solver|done]. }
    rewrite Hq, <- (length_names g).
    pose proof (kahn_run (names g) (deps_of g) _ deg (NoDup_names g) Hadj Hdeg) as Hk.
    specialize (Hk ltac:(intros n d _ Hd; apply elem_of_names; by eapply Hcl)).
    unfold reference_order. rewrite <- (length_names g).
    destruct (kahn _ _ _ _ _) as [[o deg'] q']. destruct Hk as (-> & _ & Hd' & _).
    destruct (decide _) as [Hne|He]; [|done]. do 2 f_equal. apply sort_strings_unique. rewrite visit_perm.
    apply NoDup_Permutation; try apply NoDup_filter, NoDup_names. intros n. rewrite !list_elem_of_filter.
    split; intros [H1 Hn]; (split; [|done]); by apply Hd'.
Qed.

(** C13. The order components start in does not depend on the order Go visits its
    maps: when every dependency is registered, [StartupOrder] starts, again and
    again, the least name among the components whose dependencies were started. *)
Theorem StartupOrder_least_first g : closed g -> StartupOrder visit g = reference_order g.
Proof using visit_perm.
  intros Hcl. destruct (StartupOrder_cases g) as [(n & d & Hd & Hn & _)|[_ ?]]; [|done].
  destruct (Hcl n d Hd). congruence.
Qed.

Lemma reference_order_spec g : closed g ->
  let o := least_first (names g) (deps_of g) (size g) [] in
  (o ≡ₚ names g /\ in_order (deps_of g) o /\ reference_order g = inr (omap (fun n => g !! n) o)) \/
  (exists l, reference_order g = inl (ErrCyclic l) /\ circular (deps_of g) l /\ forall n, n ∈ l -> n ∈ names g).
Proof.
  intros Hcl. assert (Hdn : forall n d, n ∈ names g -> d ∈ deps_of g n -> d ∈ names g)
    by (intros n d _ Hd; apply elem_of_names; by eapply Hcl).
  unfold reference_order. rewrite <- (length_names g). set (o := least_first _ _ _ _). cbv zeta.
  assert (Ho : taken_ok (names g) (deps_of g) o) by apply least_first_ok, taken_ok_nil.
  assert (Hdone : ready (names g) (deps_of g) o = []) by (apply least_first_done; [apply taken_ok_nil|simpl; lia]).
  destruct (decide (length o <> length (names g))) as [Hne|He].
  - right. eexists. split_and_all; [done| |].
    + destruct (stuck_circular _ _ o Ho Hdone Hdn) as [Hl|[Hc1 Hc2]].
      * destruct Hne. apply Permutation_length, NoDup_Permutation; [apply Ho|apply NoDup_names|].
        intros n. split; [apply Ho|]. intros Hn. destruct (decide (n ∈ o)); [done|].
        assert (Hf : n ∈ filter (fun n => n ∉ o) (names g)) by by apply list_elem_of_filter.
        rewrite Hl in Hf. by apply elem_of_nil in Hf.
      * split; [intros E; apply Hc1, Permutation_nil_r; by rewrite <- E, sort_strings_perm|].
        intros n Hn. rewrite elem_of_sort_strings in Hn. destruct (Hc2 n Hn) as (d & ? & ?). exists d.
        split; [done|by apply elem_of_sort_strings].
    + intros n Hn. rewrite elem_of_sort_strings in Hn. by apply list_elem_of_filter in Hn as [_ ?].
  - left. split_and_all; [|apply Ho|done].
    apply submseteq_length_Permutation; [apply NoDup_submseteq; apply Ho|lia].
Qed.

Lemma StartupOrder_order g l : StartupOrder visit g = inr l ->
  exists o, l = omap (fun n => g !! n) o /\ o ≡ₚ names g /\ in_order (deps_of g) o.
Proof using visit_perm.
  destruct (StartupOrder_cases g) as [(n & d & Hd & Hn & ->)|[Hcl ->]]; [done|].
  destruct (reference_order_spec g Hcl) as [(Hp & Ho & ->)|(l' & -> & _)]; [|done].
  intros [= <-]. by eexists.
Qed.

(** [StartupOrder] decides whether the components can be started in order. A
    result lists every component once, each after its dependencies. An error
    names a dependency that is not registered, or a non-empty set of components
    each of which depends on another of the set, and then no order exists. *)
Theorem StartupOrder_decides g :
  match StartupOrder visit g with
  | inr l => closed g /\ exists o, l = omap (fun n => g !! n) o /\ o ≡ₚ names g /\ in_order (deps_of g) o
  | inl (ErrMissingDependency n d) => d ∈ deps_of g n /\ g !! d = None
  | inl (ErrCyclic l) =>
      circular (deps_of g) l /\ (forall n, n ∈ l -> is_Some (g !! n)) /\
      ~ exists o, o ≡ₚ names g /\ in_order (deps_of g) o
  | inl _ => False
  end.
Proof using visit_perm.
  destruct (StartupOrder_cases g) as [(n & d & Hd & Hn & ->)|[Hcl ->]]; [done|].
  destruct (reference_order_spec g Hcl) as [(Hp & Ho & ->)|(l & -> & Hc & Hl)]; [split; [done|by eexists]|].
  split_and_all; [done|intros n Hn; by apply elem_of_names, Hl|].
  intros (o & Hp & Ho). eapply circular_not_in_order; [exact Hc|exact Ho|]. intros n Hn. rewrite Hp. by apply Hl.
Qed.

Lemma find_invalid_spec g name deps :
  match find_invalid g name deps with
  | Some (ErrMissingDependency n d) => n = name /\ d ∈ map trim_space deps /\ g !! d = None
  | Some (ErrSelfDependency n) => n = name /\ name ∈ map trim_space deps
  | Some _ => False
  | None => forall d, d ∈ map trim_space deps -> is_Some (g !! d) /\ d <> name
  end.
Proof.
  induction deps as [|d deps IH]; cbn [find_invalid map]; [set_solver|].
  destruct (g !! trim_space d) as [c|] eqn:E; [|split_and_all; [done|by left|done]].
  case_decide as Hd; [split; [done|rewrite <- Hd; by left]|].
  destruct (find_invalid g name deps) as [[]|]; try done.
  - destruct IH as (? & ? & ?). split_and_all; [done|by right|done].
  - destruct IH as (? & ?). split; [done|by right].
  - intros x [->|Hx]%elem_of_cons; [split; [by exists c|done]|by apply IH].
Qed.

Lemma find_invalids_spec g keys :
  match find_invalids g keys with
  | Some (ErrMissingDependency n d) => d ∈ deps_of g n /\ g !! d = None
  | Some (ErrSelfDependency n) => n ∈ deps_of g n
  | Some _ => False
  | None => forall n d, n ∈ keys -> d ∈ deps_of g n -> is_Some (g !! d)
  end.
Proof.
  induction keys as [|name keys IH]; cbn [find_invalids]; [set_solver|].
  pose proof (find_invalid_spec g name (from_option Dependencies [] (g !! name))) as Hf. rewrite deps_of_map in Hf.
  destruct (find_invalid _ _ _) as [[]|]; try done.
  - by destruct Hf as (-> & ? & ?).
  - by destruct Hf as (-> & ?).
  - destruct (find_invalids g keys) as [[]|]; try done.
    intros n d [->|Hn]%elem_of_cons Hd; [by apply Hf|by eapply IH].
Qed.

(** [Validate] accepts exactly the graphs that can be started in order. *)
Lemma Validate_accepts g : Validate visit g = None <-> exists l, StartupOrder visit g = inr l.
Proof using visit_perm.
  unfold Validate. pose proof (find_invalids_spec g (visit 4%nat (names g))) as Hf.
  pose proof (StartupOrder_decides g) as Hs.
  destruct (find_invalids _ _) as [err|].
  - split; [done|]. intros [l E]. rewrite E in Hs. destruct Hs as (Hcl & o & _ & Hp & Ho).
    exfalso. destruct err as [| | |n d|n|l']; try done.
    + destruct Hf as [Hd Hn]. destruct (Hcl n d Hd). congruence.
    + eapply (circular_not_in_order (deps_of g) [n] o); [split; [done|]|exact Ho|].
      * intros m ->%list_elem_of_singleton. exists n. split; [done|by left].
      * intros m ->%list_elem_of_singleton. rewrite Hp. by eapply deps_of_names.
  - destruct (StartupOrder visit g) as [err|l]; [|split; [by eexists|done]]. split; [done|]. by intros [l E].
Qed.
End Graph.
Notation graph C := (gmap string C) (only parsing).

(** ** A graph *)

Record plain_component := mkPlain { pl_name : string; pl_deps : list string }.
#[global] Instance plain_Component : Component plain_component := { Name := pl_name; Dependencies := pl_deps }.

Definition sample_graph : graph plain_component :=
  snd (Add (Some (mkPlain "api" ["cache"; " db "])) (snd (Add (Some (mkPlain " db " []))
    (snd (Add (Some (mkPlain "cache" ["db"])) ∅))))).
Definition backwards (n : nat) (l : list string) : list string := reverse l.

Lemma backwards_perm n l : backwards n l ≡ₚ l.
Proof. apply reverse_Permutation. Qed.

Lemma sample_graph_closed : closed sample_graph.
Proof.
  intros n d Hd. assert (Hn : n ∈ names sample_graph) by by eapply deps_of_names.
  assert (Hall : forallb (fun n => forallb (fun d => bool_decide (is_Some (sample_graph !! d))) (deps_of sample_graph n))
    (names sample_graph) = true) by (vm_compute; reflexivity).
  rewrite forallb_forall in Hall. specialize (Hall n (proj1 (list_elem_of_In _ _) Hn)).
  rewrite forallb_forall in Hall. specialize (Hall d (proj1 (list_elem_of_In _ _) Hd)).
  by apply bool_decide_eq_true in Hall.
Qed.

Lemma StartupOrder_least_first_witness :
  reference_order sample_graph = inr [mkPlain " db " []; mkPlain "cache" ["db"]; mkPlain "api" ["cache"; " db "]] /\
  StartupOrder backwards sample_graph = reference_order sample_graph.
Proof.
  split; [vm_compute; reflexivity|]. apply (StartupOrder_least_first backwards backwards_perm). apply sample_graph_closed.
Defined.

Lemma StartupOrder_decides_witness :
  exists l, StartupOrder backwards sample_graph = inr l /\ closed sample_graph /\
    exists o, l = omap (fun n => sample_graph !! n) o /\ o ≡ₚ names sample_graph /\ in_order (deps_of sample_graph) o.
Proof.
  pose proof (StartupOrder_decides backwards backwards_perm sample_graph) as H.
  assert (E : exists l, StartupOrder backwards sample_graph = inr l) by (eexists; vm_compute; reflexivity).
  destruct E as [l E]. exists l. split; [exact E|]. rewrite E in H. exact H.
Defined.
