(* ===== verification/RuntimeLifecycle.v ===== *)
(** * The lifecycle of the runtime

    Models [internal/runtime/state.go] and [runtime.go]: the state machine, [Start]
    with its rollback, and [performStop] with its phases and budgets. [opMu] makes
    [Start] and [performStop] exclude each other, so a run of the runtime is a
    sequence of calls ([rt_step]). A context is the time of its deadline and the
    time it is cancelled at; a callback of a component is a function from its
    context and the clock to how long it takes and the error it returns. [rt_calls]
    lists the callbacks in the order they were made, with their errors. *)

From stdpp Require Import sorting.
From S2P Require Import Prelude.
From S2P Require Import Topology.
From S2P Require Import RuntimeGraph.

(** ** The state machine *)

Inductive State :=
  | StateCreated | StateInitializing | StateStarting | StateRunning | StateStopping | StateStopped | StateFailed.
#[global] Instance State_eq_dec : EqDecision State.
Proof. solve_decision. Defined.

Definition IsTerminal (s : State) : bool := match s with StateStopped | StateFailed => true | _ => false end.

Definition isValidTransition (current next : State) : bool :=
  match current, next with
  | StateCreated, (StateInitializing | StateFailed) => true
  | StateInitializing, (StateStarting | StateFailed | StateStopping) => true
  | StateStarting, (StateRunning | StateFailed | StateStopping) => true
  | StateRunning, (StateStopping | StateFailed) => true
  | StateStopping, (StateStopped | StateFailed) => true
  | _, _ => false
  end.

(** [None] is the error. *)
Definition Transition (current next : State) : option State :=
  if isValidTransition current next then Some next else None.

(** ** Contexts and components *)

Inductive error := ErrComponent (msg : string) | ErrDeadlineExceeded | ErrCanceled.

Record context := mkContext { cx_deadline : option time; cx_cancel : option time }.
Definition Background : context := mkContext None None.

Definition passed (t : option time) (now : time) : bool := match t with Some t => t <=? now | None => false end.
Definition earlier (t u : option time) : option time :=
  match t, u with Some t, Some u => Some (Z.min t u) | Some t, None => Some t | None, u => u end.

(** [ctx.Err()] at a time: the first of cancellation and deadline. *)
Definition Err (ctx : context) (now : time) : option error :=
  if passed (earlier (cx_cancel ctx) (cx_deadline ctx)) now then
    match cx_cancel ctx, cx_deadline ctx with
    | Some c, Some d => Some (if c <? d then ErrCanceled else ErrDeadlineExceeded)
    | Some _, None => Some ErrCanceled
    | None, _ => Some ErrDeadlineExceeded
    end
  else None.

Definition WithDeadline (ctx : context) (d : time) : context :=
  mkContext (earlier (cx_deadline ctx) (Some d)) (cx_cancel ctx).
(** Cancelled with [other] as well ([context.AfterFunc(other, cancel)]). *)
Definition cancelled_with (ctx other : context) : context :=
  mkContext (cx_deadline ctx) (earlier (cx_cancel ctx) (earlier (cx_cancel other) (cx_deadline other))).

Definition callback := context -> time -> N * option error.

(** An optional interface a component does not implement is [None]. *)
Record component := mkComponent {
  co_Name : string; co_Dependencies : list string;
  co_Start : callback; co_Stop : callback;
  co_Quiesce : option callback; co_Drain : option callback; co_ForceStop : option callback;
  co_IsCritical : option bool
}.
#[global] Instance component_Component : Component component := { Name := co_Name; Dependencies := co_Dependencies }.

Inductive call := CallStart (c : string) | CallQuiesce (c : string) | CallDrain (c : string) | CallStop (c : string)
  | CallForceStop (c : string).

Inductive ShutdownPhase := PhaseQuiesce | PhaseDrain | PhaseStop | PhaseForceStop.
Record ShutdownPhaseReport := mkPhaseReport {
  ph_Phase : ShutdownPhase; ph_Component : string; ph_Duration : N; ph_Error : option error
}.

Inductive stop_error :=
  | BudgetBefore (c : string) (e : error) | QuiesceFailed (c : string) (e : error)
  | BudgetAfterQuiesce (c : string) (e : error) | DrainFailed (c : string) (e : error)
  | StopFailed (c : string) (e : error) | BudgetStopping (c : string) (e : error)
  | ForcedStopFailed (c : string) (e : error) | HardDeadline (e : error).

Inductive start_error :=
  | InvalidState (s : State) | InvalidGraph (e : graph_error) | StartCancelled (e : error) (rollback : list error)
  | ComponentFailed (c : string) (e : error) (rollback : list error).

Record ShutdownReport := mkReport {
  sr_TotalDuration : Z; sr_Phases : list ShutdownPhaseReport; sr_Errors : list stop_error
}.

Record runtime := mkRuntime {
  rt_state : State;
  rt_graph : graph component;
  rt_startedComps : list component;
  rt_rootCancel : option time;
  rt_startTime : option time;
  rt_stopTimeout : duration;
  rt_stopOnce : bool;
  rt_stopErr : list stop_error;
  rt_lastShutdown : option ShutdownReport;
  rt_now : time;
  rt_calls : list (call * option error)
}.

Definition rt_set_state (s : State) (r : runtime) : runtime :=
  mkRuntime s (rt_graph r) (rt_startedComps r) (rt_rootCancel r) (rt_startTime r) (rt_stopTimeout r) (rt_stopOnce r)
    (rt_stopErr r) (rt_lastShutdown r) (rt_now r) (rt_calls r).
Definition rt_set_graph (g : graph component) (r : runtime) : runtime :=
  mkRuntime (rt_state r) g (rt_startedComps r) (rt_rootCancel r) (rt_startTime r) (rt_stopTimeout r) (rt_stopOnce r)
    (rt_stopErr r) (rt_lastShutdown r) (rt_now r) (rt_calls r).
Definition rt_set_started (l : list component) (r : runtime) : runtime :=
  mkRuntime (rt_state r) (rt_graph r) l (rt_rootCancel r) (rt_startTime r) (rt_stopTimeout r) (rt_stopOnce r)
    (rt_stopErr r) (rt_lastShutdown r) (rt_now r) (rt_calls r).
Definition rt_set_startTime (t : option time) (r : runtime) : runtime :=
  mkRuntime (rt_state r) (rt_graph r) (rt_startedComps r) (rt_rootCancel r) t (rt_stopTimeout r) (rt_stopOnce r)
    (rt_stopErr r) (rt_lastShutdown r) (rt_now r) (rt_calls r).
Definition rt_set_stop (errs : list stop_error) (r : runtime) : runtime :=
  mkRuntime (rt_state r) (rt_graph r) (rt_startedComps r) (rt_rootCancel r) (rt_startTime r) (rt_stopTimeout r) true
    errs (rt_lastShutdown r) (rt_now r) (rt_calls r).
Definition rt_set_lastShutdown (s : option ShutdownReport) (r : runtime) : runtime :=
  mkRuntime (rt_state r) (rt_graph r) (rt_startedComps r) (rt_rootCancel r) (rt_startTime r) (rt_stopTimeout r)
    (rt_stopOnce r) (rt_stopErr r) s (rt_now r) (rt_calls r).

Definition SetFailed (r : runtime) : runtime := rt_set_state StateFailed r.

(** [rootCancel] *)
Definition rootCancel (r : runtime) : runtime :=
  mkRuntime (rt_state r) (rt_graph r) (rt_startedComps r) (earlier (rt_rootCancel r) (Some (rt_now r))) (rt_startTime r)
    (rt_stopTimeout r) (rt_stopOnce r) (rt_stopErr r) (rt_lastShutdown r) (rt_now r) (rt_calls r).

(** [New]. *)
Definition New (now : time) : runtime :=
  mkRuntime StateCreated ∅ [] None None (30 * second) false [] None now [].

(** A callback runs: the clock moves on. *)
Definition invoke (c : call) (f : callback) (ctx : context) (r : runtime) : N * option error * runtime :=
  let '(d, err) := f ctx (rt_now r) in
  (d, err, mkRuntime (rt_state r) (rt_graph r) (rt_startedComps r) (rt_rootCancel r) (rt_startTime r) (rt_stopTimeout r)
    (rt_stopOnce r) (rt_stopErr r) (rt_lastShutdown r) (rt_now r + Z.of_N d) (rt_calls r ++ [(c, err)])).

(** ** Register and Start *)

Definition Register (c : component) (r : runtime) : option (State + graph_error) * runtime :=
  if decide (rt_state r <> StateCreated) then (Some (inl (rt_state r)), r)
  else let '(err, g) := Add (Some c) (rt_graph r) in (inr <$> err, rt_set_graph g r).

(** [Rollback]: the callbacks of [started], the last first. *)
Fixpoint stop_each (ctx : context) (l : list component) (r : runtime) : list error * runtime :=
  match l with
  | [] => ([], r)
  | c :: rest =>
      let '(_, err, r) := invoke (CallStop (co_Name c)) (co_Stop c) ctx r in
      let '(errs, r) := stop_each ctx rest r in
      (option_list err ++ errs, r)
  end.
Definition Rollback (ctx : context) (started : list component) (r : runtime) : list error * runtime :=
  stop_each ctx (reverse started) r.

Definition failStartAndRollback (mk : list error -> start_error) (started : list component) (r : runtime)
    : option start_error * runtime :=
  let r := SetFailed r in
  let '(errs, r) := Rollback (WithDeadline Background (rt_now r + 10 * second)) started r in
  (Some (mk errs), rootCancel r).

(** The loop of [Start]; [inl] is its early return. *)
Fixpoint start_loop (ctx : context) (order started : list component) (r : runtime)
    : (option start_error * runtime) + list component * runtime :=
  match order with
  | [] => inr (started, r)
  | comp :: rest =>
      match Err ctx (rt_now r) with
      | Some e => inl (failStartAndRollback (StartCancelled e) started r)
      | None =>
          let componentCtx := cancelled_with (mkContext None (rt_rootCancel r)) ctx in
          let '(_, err, r) := invoke (CallStart (co_Name comp)) (co_Start comp) componentCtx r in
          match err with
          | Some e =>
              let e := default e (Err ctx (rt_now r)) in
              if default true (co_IsCritical comp) then
                inl (failStartAndRollback (ComponentFailed (co_Name comp) e) started r)
              else start_loop ctx rest started r
          | None => start_loop ctx rest (started ++ [comp]) r
          end
      end
  end.

Definition Start (visit : nat -> list string -> list string) (ctx : context) (r : runtime)
    : option start_error * runtime :=
  match Transition (rt_state r) StateInitializing with
  | None => (Some (InvalidState (rt_state r)), r)
  | Some s =>
      let r := rt_set_state s r in
      match StartupOrder visit (rt_graph r) with
      | inl err => (Some (InvalidGraph err), SetFailed r)
      | inr order =>
          match Transition (rt_state r) StateStarting with
          | None => (Some (InvalidState (rt_state r)), SetFailed r)
          | Some s =>
              match start_loop ctx order [] (rt_set_state s r) with
              | inl res => res
              | inr (started, r) =>
                  let r := rt_set_started started r in
                  match Transition (rt_state r) StateRunning with
                  | None => (Some (InvalidState (rt_state r)), SetFailed r)
                  | Some s => (None, rt_set_startTime (Some (rt_now r)) (rt_set_state s r))
                  end
              end
          end
      end
  end.

(** ** Stop *)

Definition forcedStopReserve : duration := 250 * millisecond.

(** [shutdownContext]: the runtime's own budget, and the owner's context. *)
Definition shutdownContext (ownerCtx : option context) (r : runtime) : context :=
  let deadline := rt_now r + rt_stopTimeout r in
  match ownerCtx with
  | None => mkContext (Some deadline) None
  | Some owner =>
      let deadline := match cx_deadline owner with Some d => if d <? deadline then d else deadline | None => deadline end in
      mkContext (Some deadline) (earlier (cx_cancel owner) (cx_deadline owner))
  end.

Definition reserveForcedStopBudget (ctx : context) (now : time) : context :=
  match cx_deadline ctx with
  | None => ctx
  | Some deadline =>
      let cutoff := deadline - forcedStopReserve in
      if cutoff - now <=? 0 then ctx else WithDeadline ctx cutoff
  end.

(** The accumulator of [performStop]: the report's phases and the errors. *)
Record stopping := mkStopping { st_phases : list ShutdownPhaseReport; st_errs : list stop_error }.

Definition add_err (e : option stop_error) (s : stopping) : stopping :=
  mkStopping (st_phases s) (st_errs s ++ option_list e).
Definition recordPhase (p : ShutdownPhase) (c : string) (d : N) (e : option error) (s : stopping) : stopping :=
  mkStopping (st_phases s ++ [mkPhaseReport p c d e]) (st_errs s).

(** An optional callback of one phase. *)
Definition run_phase (p : ShutdownPhase) (mk : string -> call) (failed : string -> error -> stop_error)
    (comp : component) (f : option callback) (ctx : context) (s : stopping) (r : runtime) : stopping * runtime :=
  match f with
  | None => (s, r)
  | Some f =>
      let '(d, err, r) := invoke (mk (co_Name comp)) f ctx r in
      (add_err (failed (co_Name comp) <$> err) (recordPhase p (co_Name comp) d err s), r)
  end.

(** The first loop: quiesce and drain, with whether the budget ran out. *)
Fixpoint quiesce_loop (graceCtx : context) (order : list component) (s : stopping) (r : runtime)
    : bool * stopping * runtime :=
  match order with
  | [] => (false, s, r)
  | comp :: rest =>
      match Err graceCtx (rt_now r) with
      | Some e => (true, add_err (Some (BudgetBefore (co_Name comp) e)) s, r)
      | None =>
          let '(s, r) := run_phase PhaseQuiesce CallQuiesce QuiesceFailed comp (co_Quiesce comp) graceCtx s r in
          match Err graceCtx (rt_now r) with
          | Some e => (true, add_err (Some (BudgetAfterQuiesce (co_Name comp) e)) s, r)
          | None =>
              let '(s, r) := run_phase PhaseDrain CallDrain DrainFailed comp (co_Drain comp) graceCtx s r in
              match Err graceCtx (rt_now r) with
              | Some _ => (true, s, r)
              | None => quiesce_loop graceCtx rest s r
              end
          end
      end
  end.

Definition force_stop (ctx : context) (comp : component) (s : stopping) (r : runtime) : stopping * runtime :=
  match Err ctx (rt_now r) with
  | Some _ => (s, r)
  | None => run_phase PhaseForceStop CallForceStop ForcedStopFailed comp (co_ForceStop comp) ctx s r
  end.

(** The second loop: [Stop], or [ForceStop] once the budget is gone. *)
Fixpoint stop_loop (graceCtx ctx : context) (order : list component) (forceMode : bool) (s : stopping) (r : runtime)
    : stopping * runtime :=
  match order with
  | [] => (s, r)
  | comp :: rest =>
      if forceMode then
        let '(s, r) := force_stop ctx comp s r in stop_loop graceCtx ctx rest true s r
      else
        let '(s, r) := run_phase PhaseStop CallStop StopFailed comp (Some (co_Stop comp)) graceCtx s r in
        match Err graceCtx (rt_now r) with
        | None => stop_loop graceCtx ctx rest false s r
        | Some e =>
            let s := add_err (Some (BudgetStopping (co_Name comp) e)) s in
            let '(s, r) := force_stop ctx comp s r in stop_loop graceCtx ctx rest true s r
        end
  end.

(** [performStop]: the errors it joins; none is a nil error. *)
Definition performStop (ctx : context) (r : runtime) : list stop_error * runtime :=
  let stopStart := rt_now r in
  let graceCtx := reserveForcedStopBudget ctx (rt_now r) in
  if decide (rt_state r = StateStopped) then ([], r)
  else
    let r := rt_set_state (default (rt_state r) (Transition (rt_state r) StateStopping)) r in
    let stopOrder := reverse (rt_startedComps r) in
    let '(graceExhausted, s, r) := quiesce_loop graceCtx stopOrder (mkStopping [] []) r in
    let forceMode := graceExhausted || bool_decide (is_Some (Err graceCtx (rt_now r))) in
    let '(s, r) := stop_loop graceCtx ctx stopOrder forceMode s r in
    let r := rootCancel r in
    let s := add_err (HardDeadline <$> Err ctx (rt_now r)) s in
    let r := rt_set_lastShutdown (Some (mkReport (rt_now r - stopStart) (st_phases s) (st_errs s))) r in
    match st_errs s with
    | _ :: _ => (st_errs s, SetFailed r)
    | [] => ([], rt_set_state (default (rt_state r) (Transition (rt_state r) StateStopped)) r)
    end.

(** [Stop] ([ownerCtx] is [None]) and [StopWithin]: [stopOnce] runs [performStop]
    once, every call gets its error. *)
Definition startStop (ownerCtx : option context) (r : runtime) : list stop_error * runtime :=
  if rt_stopOnce r then (rt_stopErr r, r)
  else let '(errs, r) := performStop (shutdownContext ownerCtx r) r in (errs, rt_set_stop errs r).

(** ** Runs *)

Inductive rt_op :=
  | OpRegister (c : component) | OpStart (visit : nat -> list string -> list string) (ctx : context)
  | OpStop (ownerCtx : option context) | OpWait (d : N).

Definition rt_step (op : rt_op) (r : runtime) : runtime :=
  match op with
  | OpRegister c => snd (Register c r)
  | OpStart visit ctx => snd (Start visit ctx r)
  | OpStop ownerCtx => snd (startStop ownerCtx r)
  | OpWait d =>
      mkRuntime (rt_state r) (rt_graph r) (rt_startedComps r) (rt_rootCancel r) (rt_startTime r) (rt_stopTimeout r)
        (rt_stopOnce r) (rt_stopErr r) (rt_lastShutdown r) (rt_now r + Z.of_N d) (rt_calls r)
  end.

Definition rt_run (ops : list rt_op) (r : runtime) : runtime := foldl (fun r op => rt_step op r) r ops.

(** ** Health *)

Inductive health_status := HealthHealthy | HealthDegraded | HealthUnhealthy | HealthOther (s : string).
#[global] Instance health_status_eq_dec : EqDecision health_status.
Proof. solve_decision. Defined.

Record component_health := mkHealth { ch_status : health_status; ch_details : string; ch_error : option string }.

Inductive reason := ReasonState (s : State) | ReasonComponent (c : string) (why : string).

Record AggregateHealth := mkAggregate {
  ag_Status : health_status; ag_Ready : bool; ag_Runtime : State; ag_Reasons : list reason;
  ag_Components : gmap string health_status
}.

(** The empty status counts as healthy. *)
Definition status_of (h : component_health) : health_status :=
  match ch_status h with HealthOther EmptyString => HealthHealthy | s => s end.

Definition health_one (report : AggregateHealth) (ch : component * component_health) : AggregateHealth :=
  let '(comp, h) := ch in
  let status := status_of h in
  let name := co_Name comp in
  let details := if decide (ch_details h = EmptyString) then None else Some (ReasonComponent name (ch_details h)) in
  let '(st, reasons) :=
    match status with
    | HealthUnhealthy =>
        (HealthUnhealthy,
          match details with
          | Some why => [why]
          | None => option_list (ReasonComponent name <$> ch_error h)
          end)
    | HealthDegraded =>
        if decide (ag_Status report <> HealthUnhealthy) then (HealthDegraded, option_list details)
        else (ag_Status report, [])
    | _ => (ag_Status report, [])
    end in
  mkAggregate st (ag_Ready report) (ag_Runtime report) (ag_Reasons report ++ reasons)
    (<[name := status]> (ag_Components report)).

Definition Health (probe : component -> component_health) (r : runtime) : AggregateHealth :=
  let s := rt_state r in
  let base :=
    if decide (s = StateRunning) then mkAggregate HealthHealthy true s [] ∅
    else mkAggregate (match s with StateFailed | StateStopped => HealthUnhealthy | _ => HealthDegraded end) false s
           [ReasonState s] ∅ in
  foldl health_one base (map (fun c => (c, probe c)) (rt_startedComps r)).

Lemma map_reverse {A B} (f : A -> B) l : map f (reverse l) = reverse (map f l).
Proof. unfold reverse. by rewrite <- !rev_alt, map_rev. Qed.

(** ** Starting *)

(** The components a log says were started, and the calls of a kind. *)
Definition log_started (l : list (call * option error)) : list string :=
  omap (fun ce => match ce with (CallStart c, None) => Some c | _ => None end) l.
Definition stop_calls (l : list (call * option error)) : list string :=
  omap (fun ce => match ce.1 with CallStop c => Some c | _ => None end) l.

(** Everything but the clock and the log is as before. *)
Definition same_but_log (r r' : runtime) : Prop :=
  rt_state r' = rt_state r /\ rt_graph r' = rt_graph r /\ rt_startedComps r' = rt_startedComps r /\
  rt_rootCancel r' = rt_rootCancel r /\ rt_stopOnce r' = rt_stopOnce r /\ rt_stopErr r' = rt_stopErr r /\
  rt_stopTimeout r' = rt_stopTimeout r /\ rt_now r <= rt_now r'.

Lemma same_but_log_refl r : same_but_log r r.
Proof. by repeat split. Qed.

Lemma same_but_log_trans r1 r2 r3 : same_but_log r1 r2 -> same_but_log r2 r3 -> same_but_log r1 r3.
Proof.
  intros (H1 & H2 & H3 & H4 & H5 & H6 & H7 & H8) (K1 & K2 & K3 & K4 & K5 & K6 & K7 & K8).
  repeat split; (congruence || lia).
Qed.

Lemma invoke_spec c f ctx r : exists d err,
  invoke c f ctx r = (d, err, snd (invoke c f ctx r)) /\
  rt_calls (snd (invoke c f ctx r)) = rt_calls r ++ [(c, err)] /\ same_but_log r (snd (invoke c f ctx r)).
Proof.
  unfold invoke. destruct (f ctx (rt_now r)) as [d err]. exists d, err. repeat split; simpl. lia.
Qed.

Lemma stop_each_spec ctx l : forall r, exists new,
  rt_calls (snd (stop_each ctx l r)) = rt_calls r ++ new /\
  map fst new = map (fun c => CallStop (co_Name c)) l /\ same_but_log r (snd (stop_each ctx l r)).
Proof.
  induction l as [|c l IH]; intros r; cbn [stop_each].
  - exists []. rewrite app_nil_r. split_and_all; [done..|apply same_but_log_refl].
  - destruct (invoke_spec (CallStop (co_Name c)) (co_Stop c) ctx r) as (d & err & -> & Hl & Hs).
    set (r1 := snd _) in *. destruct (IH r1) as (new & Hn & Hm & Hs').
    destruct (stop_each ctx l r1) as [errs r2]. simpl in *. exists ((CallStop (co_Name c), err) :: new).
    split_and_all; [|by rewrite <- Hm|by eapply same_but_log_trans].
    by rewrite Hn, Hl, <- app_assoc.
Qed.

Lemma fail_spec mk started r : exists e r' new,
  failStartAndRollback mk started r = (Some e, r') /\ rt_state r' = StateFailed /\
  rt_startedComps r' = rt_startedComps r /\ rt_graph r' = rt_graph r /\ is_Some (rt_rootCancel r') /\
  rt_stopOnce r' = rt_stopOnce r /\ rt_calls r' = rt_calls r ++ new /\
  map fst new = map (fun c => CallStop (co_Name c)) (reverse started).
Proof.
  unfold failStartAndRollback, Rollback.
  destruct (stop_each_spec (WithDeadline Background (rt_now (SetFailed r) + 10 * second)) (reverse started) (SetFailed r))
    as (new & Hn & Hm & Hs).
  destruct (stop_each _ _ _) as [errs r1]. simpl in Hn, Hs. destruct Hs as (H1 & H2 & H3 & H4 & H5 & _).
  do 2 eexists. exists new. split_and_all; simpl; try done.
  - unfold rootCancel, earlier. cbn. destruct (rt_rootCancel r1); by eexists.
Qed.

Lemma log_started_app l1 l2 : log_started (l1 ++ l2) = log_started l1 ++ log_started l2.
Proof. apply omap_app. Qed.

(** What the loop of [Start] does: a prefix of the order was tried; a component
    that failed and is not critical is passed over. *)
Lemma start_loop_spec ctx order : forall started r,
  match start_loop ctx order started r with
  | inr (started', r') => exists new good,
      rt_calls r' = rt_calls r ++ new /\ map fst new = map (fun c => CallStart (co_Name c)) order /\
      started' = started ++ good /\ log_started new = map co_Name good /\ good `sublist_of` order /\
      (forall c, c ∈ order -> c ∉ good -> co_IsCritical c = Some false) /\ same_but_log r r'
  | inl (err, r') => exists tried rest starts stops good,
      is_Some err /\ order = tried ++ rest /\ rt_calls r' = rt_calls r ++ starts ++ stops /\
      map fst starts = map (fun c => CallStart (co_Name c)) tried /\
      log_started starts = map co_Name good /\ good `sublist_of` tried /\
      map fst stops = map (fun c => CallStop (co_Name c)) (reverse (started ++ good)) /\
      rt_state r' = StateFailed /\ rt_startedComps r' = rt_startedComps r /\ rt_graph r' = rt_graph r /\
      rt_stopOnce r' = rt_stopOnce r
  end.
Proof.
  induction order as [|comp order IH]; intros started r; cbn [start_loop].
  - exists [], []. rewrite !app_nil_r. split_and_all; try done; try apply same_but_log_refl.
  - destruct (Err ctx (rt_now r)) as [e|].
    { destruct (fail_spec (StartCancelled e) started r) as (err & r' & new & -> & H1 & H2 & H3 & H4 & H5 & H6 & H7).
      exists [], (comp :: order), [], new, []. rewrite !app_nil_r. by split_and_all. }
    destruct (invoke_spec (CallStart (co_Name comp)) (co_Start comp)
      (cancelled_with (mkContext None (rt_rootCancel r)) ctx) r) as (d & err & -> & Hl & Hs).
    set (r1 := snd _) in *. destruct err as [e|].
    + destruct (default true (co_IsCritical comp)) eqn:Hcrit.
      * destruct (fail_spec (ComponentFailed (co_Name comp) (default e (Err ctx (rt_now r1)))) started r1)
          as (err & r' & new & -> & H1 & H2 & H3 & H4 & H5 & H6 & H7). destruct Hs as (? & ? & ? & ? & ? & _).
        exists [comp], order, [(CallStart (co_Name comp), Some e)], new, []. rewrite app_nil_r.
        split_and_all; try done; try congruence; (by apply sublist_nil_l) || (by rewrite H6, Hl, <- app_assoc).
      * specialize (IH started r1). destruct (start_loop ctx order started r1) as [[err r']|[started' r']].
        -- destruct IH as (tried & rest & starts & stops & good & H1 & -> & H2 & H3 & H4 & H5 & H6 & H7 & H8 & H9 & H10).
           destruct Hs as (? & ? & ? & ? & ? & _).
           exists (comp :: tried), rest, ((CallStart (co_Name comp), Some e) :: starts), stops, good.
           split_and_all; try done; try congruence;
             (by rewrite H2, Hl, <- app_assoc) || (by simpl; rewrite H3) || (by apply sublist_cons).
        -- destruct IH as (new & good & H1 & H2 & -> & H4 & H5 & H6 & H7).
           exists ((CallStart (co_Name comp), Some e) :: new), good.
           split_and_all; try done; try ((by rewrite H1, Hl, <- app_assoc) || (by simpl; rewrite H2) ||
             (by apply sublist_cons) || (by eapply same_but_log_trans)).
           intros c [->|Hc]%elem_of_cons Hg; [|by apply H6]. destruct (co_IsCritical comp) as [[]|]; done.
    + specialize (IH (started ++ [comp]) r1). destruct (start_loop ctx order _ r1) as [[err r']|[started' r']].
      * destruct IH as (tried & rest & starts & stops & good & H1 & -> & H2 & H3 & H4 & H5 & H6 & H7 & H8 & H9 & H10).
        destruct Hs as (? & ? & ? & ? & ? & _).
        exists (comp :: tried), rest, ((CallStart (co_Name comp), None) :: starts), stops, (comp :: good).
        rewrite <- app_assoc in H6.
        split_and_all; try done; try congruence; try ((by rewrite H2, Hl, <- app_assoc) || (by simpl; rewrite H3) ||
          (by apply sublist_skip)).
        change (co_Name comp :: log_started starts = co_Name comp :: map co_Name good). by rewrite H4.
      * destruct IH as (new & good & H1 & H2 & -> & H4 & H5 & H6 & H7).
        exists ((CallStart (co_Name comp), None) :: new), (comp :: good). rewrite <- app_assoc.
        split_and_all; try done; try ((by rewrite H1, Hl, <- app_assoc) || (by simpl; rewrite H2) ||
          (by apply sublist_skip) || (by eapply same_but_log_trans)).
        -- change (co_Name comp :: log_started new = co_Name comp :: map co_Name good). by rewrite H4.
        -- intros c [->|Hc]%elem_of_cons Hg; [destruct Hg; by left|]. apply H6; set_solver.
Qed.

(** What [Start] does, and what it leaves behind when it fails. *)
Lemma Start_spec visit ctx r : rt_state r = StateCreated ->
  let '(err, r') := Start visit ctx r in
  match err with
  | None => exists order new,
      StartupOrder visit (rt_graph r) = inr order /\ rt_state r' = StateRunning /\
      rt_calls r' = rt_calls r ++ new /\ map fst new = map (fun c => CallStart (co_Name c)) order /\
      log_started new = map co_Name (rt_startedComps r') /\ rt_startedComps r' `sublist_of` order /\
      forall c, c ∈ order -> c ∉ rt_startedComps r' -> co_IsCritical c = Some false
  | Some _ => exists tried starts stops,
      rt_state r' = StateFailed /\ rt_startedComps r' = rt_startedComps r /\
      rt_calls r' = rt_calls r ++ starts ++ stops /\
      map fst starts = map (fun c => CallStart (co_Name c)) tried /\
      (tried = [] \/ exists rest, StartupOrder visit (rt_graph r) = inr (tried ++ rest)) /\
      map fst stops = map CallStop (reverse (log_started starts))
  end.
Proof.
  intros Hst. unfold Start. rewrite Hst. cbn [Transition isValidTransition].
  change (rt_graph (rt_set_state StateInitializing r)) with (rt_graph r).
  destruct (StartupOrder visit (rt_graph r)) as [err|order] eqn:E.
  { exists [], [], []. rewrite !app_nil_r. split_and_all; try done. by left. }
  cbn [rt_state rt_set_state Transition isValidTransition].
  pose proof (start_loop_spec ctx order [] (rt_set_state StateStarting (rt_set_state StateInitializing r))) as Hl.
  destruct (start_loop _ _ _ _) as [[err r']|[started r']].
  - destruct Hl as (tried & rest & starts & stops & good & [e ->] & -> & H1 & H2 & H3 & _ & H4 & H5 & H6 & _).
    exists tried, starts, stops. split_and_all; try done; [right; by exists rest|].
    by rewrite H4, H3, !map_reverse, map_map.
  - destruct Hl as (new & good & H1 & H2 & -> & H3 & H4 & H5 & Hs). destruct Hs as (Hs & _).
    cbn [rt_state rt_set_state] in Hs. cbn [rt_state rt_set_started]. rewrite Hs. cbn [Transition isValidTransition].
    exists order, new. by split_and_all.
Qed.

(** ** Stopping *)

(** The calls of the first loop for a component, and of the second. *)
Definition graceful_calls (c : component) : list call :=
  (if co_Quiesce c then [CallQuiesce (co_Name c)] else []) ++ (if co_Drain c then [CallDrain (co_Name c)] else []).
Definition stopping_calls (c : component) : list call := [CallStop (co_Name c); CallForceStop (co_Name c)].

Definition call_errors (l : list (call * option error)) : list (call * error) :=
  omap (fun ce => (fun e => (ce.1, e)) <$> ce.2) l.
(** The errors of the callbacks. *)
Definition callback_errors (l : list stop_error) : list (call * error) :=
  omap (fun e => match e with
    | QuiesceFailed c e => Some (CallQuiesce c, e) | DrainFailed c e => Some (CallDrain c, e)
    | StopFailed c e => Some (CallStop c, e) | ForcedStopFailed c e => Some (CallForceStop c, e) | _ => None end) l.

Lemma Err_mono ctx t u : t <= u -> Err ctx u = None -> Err ctx t = None.
Proof.
  unfold Err. intros Htu. assert (Hp : forall x, passed x t = true -> passed x u = true).
  { intros [x|]; simpl; [|done]. rewrite !Z.leb_le. lia. }
  destruct (passed _ t) eqn:Et; [rewrite (Hp _ Et)|done]. destruct (cx_cancel ctx), (cx_deadline ctx); done.
Qed.

(** What one phase of one component does. *)
Lemma run_phase_spec p mk failed comp f ctx s r :
  (forall c e, callback_errors [failed c e] = [(mk c, e)]) ->
  let '(s', r') := run_phase p mk failed comp f ctx s r in
  exists new, rt_calls r' = rt_calls r ++ new /\
    map fst new = (if f then [mk (co_Name comp)] else []) /\ same_but_log r r' /\
    exists errs, st_errs s' = st_errs s ++ errs /\ callback_errors errs = call_errors new /\
      (call_errors new = [] -> errs = []).
Proof.
  intros Hf. unfold run_phase. destruct f as [f|].
  - destruct (invoke_spec (mk (co_Name comp)) f ctx r) as (d & err & -> & Hl & Hs).
    eexists. split_and_all; [exact Hl|done|exact Hs|]. eexists. split; [done|]. destruct err as [e|]; simpl; [|done].
    split; [|done]. apply Hf.
  - exists []. rewrite !app_nil_r. split_and_all; try apply same_but_log_refl; try done.
    exists []. by rewrite app_nil_r.
Qed.

Lemma callback_errors_app l1 l2 : callback_errors (l1 ++ l2) = callback_errors l1 ++ callback_errors l2.
Proof. apply omap_app. Qed.
Lemma call_errors_app l1 l2 : call_errors (l1 ++ l2) = call_errors l1 ++ call_errors l2.
Proof. apply omap_app. Qed.

(** A piece of a shutdown: the calls [new] were made and the errors [errs] collected. *)
Definition progress (s s' : stopping) (r r' : runtime) (new : list (call * option error)) (errs : list stop_error) : Prop :=
  rt_calls r' = rt_calls r ++ new /\ st_errs s' = st_errs s ++ errs /\ callback_errors errs = call_errors new /\
  same_but_log r r'.

Lemma progress_refl s r : progress s s r r [] [].
Proof. unfold progress. rewrite !app_nil_r. split_and_all; try done; apply same_but_log_refl. Qed.

Lemma progress_trans s1 s2 s3 r1 r2 r3 n1 n2 e1 e2 :
  progress s1 s2 r1 r2 n1 e1 -> progress s2 s3 r2 r3 n2 e2 -> progress s1 s3 r1 r3 (n1 ++ n2) (e1 ++ e2).
Proof.
  intros (H1 & H2 & H3 & H4) (K1 & K2 & K3 & K4). unfold progress.
  rewrite K1, H1, K2, H2, callback_errors_app, call_errors_app, H3, K3, !app_assoc.
  split_and_all; try done; by eapply same_but_log_trans.
Qed.

Lemma progress_err s r e : callback_errors [e] = [] -> progress s (add_err (Some e) s) r r [] [e].
Proof. intros He. unfold progress. rewrite app_nil_r. split_and_all; try done; apply same_but_log_refl. Qed.

(** The first loop goes through the graceful calls; it stops early only when the budget is gone. *)
Lemma quiesce_loop_spec g order : forall s r,
  let '(exhausted, s', r') := quiesce_loop g order s r in
  exists new errs, progress s s' r r' new errs /\
    map fst new `prefix_of` flat_map graceful_calls order /\
    (if exhausted then is_Some (Err g (rt_now r'))
     else map fst new = flat_map graceful_calls order /\ (call_errors new = [] -> errs = [])).
Proof.
  induction order as [|comp order IH]; intros s r; cbn [quiesce_loop flat_map].
  { exists [], []. split; [apply progress_refl|]. by split. }
  destruct (Err g (rt_now r)) as [e|] eqn:E0.
  { eexists _, _. split; [by apply progress_err|]. split; [apply prefix_nil|rewrite E0; by eexists]. }
  pose proof (run_phase_spec PhaseQuiesce CallQuiesce QuiesceFailed comp (co_Quiesce comp) g s r (fun _ _ => eq_refl)) as Hq.
  destruct (run_phase _ _ _ _ _ _ _ _) as [s1 r1]. destruct Hq as (n1 & Hl1 & Hm1 & Hs1 & e1 & He1 & Hc1 & Hz1).
  assert (P1 : progress s s1 r r1 n1 e1) by done.
  assert (Hg : graceful_calls comp = map fst n1 ++ if co_Drain comp then [CallDrain (co_Name comp)] else [])
    by (unfold graceful_calls; by rewrite Hm1). rewrite Hg.
  destruct (Err g (rt_now r1)) as [e|] eqn:E1.
  { eexists _, _. split; [eapply progress_trans; [exact P1|by apply progress_err]|]. rewrite app_nil_r, <- app_assoc.
    split; [by apply prefix_app_r|rewrite E1; by eexists]. }
  pose proof (run_phase_spec PhaseDrain CallDrain DrainFailed comp (co_Drain comp) g s1 r1 (fun _ _ => eq_refl)) as Hd.
  destruct (run_phase _ _ _ _ _ _ _ _) as [s2 r2]. destruct Hd as (n2 & Hl2 & Hm2 & Hs2 & e2 & He2 & Hc2 & Hz2).
  assert (P2 : progress s1 s2 r1 r2 n2 e2) by done. rewrite <- Hm2, <- map_app.
  pose proof (progress_trans _ _ _ _ _ _ _ _ _ _ P1 P2) as P12.
  destruct (Err g (rt_now r2)) as [e|] eqn:E2.
  { eexists _, _. split; [exact P12|]. split; [by apply prefix_app_r|rewrite E2; by eexists]. }
  specialize (IH s2 r2). destruct (quiesce_loop g order s2 r2) as [[ex s3] r3].
  destruct IH as (n3 & e3 & P3 & Hpre & Hex). eexists _, _. split; [eapply progress_trans; [exact P12|exact P3]|].
  rewrite (map_app _ (n1 ++ n2)). split; [by apply prefix_app|]. destruct ex; [done|].
  destruct Hex as [-> Hz3]. split; [done|]. rewrite !call_errors_app. intros Hz.
  apply app_eq_nil in Hz as [[Ha Hb]%app_eq_nil Hc]. by rewrite (Hz1 Ha), (Hz2 Hb), (Hz3 Hc).
Qed.

Lemma force_stop_spec ctx comp s r :
  let '(s', r') := force_stop ctx comp s r in
  exists new errs, progress s s' r r' new errs /\
    map fst new `sublist_of` [CallForceStop (co_Name comp)] /\ (call_errors new = [] -> errs = []).
Proof.
  unfold force_stop. destruct (Err ctx (rt_now r)).
  { exists [], []. split_and_all; [apply progress_refl|apply sublist_nil_l|done]. }
  pose proof (run_phase_spec PhaseForceStop CallForceStop ForcedStopFailed comp (co_ForceStop comp) ctx s r (fun _ _ => eq_refl)) as Hq.
  destruct (run_phase _ _ _ _ _ _ _ _) as [s1 r1]. destruct Hq as (n1 & Hl1 & Hm1 & Hs1 & e1 & He1 & Hc1 & Hz1).
  exists n1, e1. split; [done|]. split; [|done]. rewrite Hm1. destruct (co_ForceStop comp); [done|apply sublist_nil_l].
Qed.

Lemma sublist_app_2 {A} (l1 l2 k : list A) (x : A) : l1 `sublist_of` [x] -> l2 `sublist_of` k -> l1 ++ l2 `sublist_of` x :: k.
Proof. intros H1 H2. by apply (sublist_app l1 [x] l2 k). Qed.

Lemma stop_calls_app l1 l2 : stop_calls (l1 ++ l2) = stop_calls l1 ++ stop_calls l2.
Proof. apply omap_app. Qed.

Lemma stop_calls_map l : stop_calls l = omap (fun c => match c with CallStop c => Some c | _ => None end) (map fst l).
Proof. induction l as [|[[] e] l IH]; cbn; by rewrite <- ?IH. Qed.

Lemma stop_calls_forced l n : map fst l `sublist_of` [CallForceStop n] -> stop_calls l = [].
Proof.
  rewrite stop_calls_map. intros Hs. inversion Hs as [|? ? ? Hn|? ? ? Hn]; subst; [|by apply sublist_nil_r in Hn as ->].
  apply sublist_nil_r in Hn as ->. done.
Qed.

(** After the budget is gone nothing is stopped, and the rest is stopped by force. *)
Lemma stop_loop_forced g ctx order : forall s r,
  let '(s', r') := stop_loop g ctx order true s r in
  exists new errs, progress s s' r r' new errs /\
    map fst new `sublist_of` map (fun c => CallForceStop (co_Name c)) order /\ stop_calls new = [].
Proof.
  induction order as [|comp order IH]; intros s r; cbn [stop_loop map].
  { exists [], []. split_and_all; [apply progress_refl|done..]. }
  pose proof (force_stop_spec ctx comp s r) as Hf. destruct (force_stop ctx comp s r) as [s1 r1].
  destruct Hf as (n1 & e1 & P1 & Hm1 & _). specialize (IH s1 r1). destruct (stop_loop g ctx order true s1 r1) as [s2 r2].
  destruct IH as (n2 & e2 & P2 & Hm2 & Hs2). exists (n1 ++ n2), (e1 ++ e2). split_and_all.
  - by eapply progress_trans.
  - rewrite map_app. by apply sublist_app_2.
  - rewrite stop_calls_app, Hs2, app_nil_r. by eapply stop_calls_forced.
Qed.

Lemma forced_stopping order :
  map (fun c => CallForceStop (co_Name c)) order `sublist_of` flat_map stopping_calls order.
Proof. induction order as [|c order IH]; cbn; [done|]. by apply sublist_cons, sublist_skip. Qed.

Lemma stop_loop_spec g ctx order : forall s r,
  let '(s', r') := stop_loop g ctx order false s r in
  exists new errs, progress s s' r r' new errs /\
    map fst new `sublist_of` flat_map stopping_calls order /\ stop_calls new `prefix_of` map co_Name order /\
    (Err g (rt_now r') = None ->
       map fst new = map (fun c => CallStop (co_Name c)) order /\ (call_errors new = [] -> errs = [])).
Proof.
  induction order as [|comp order IH]; intros s r; cbn [stop_loop map flat_map].
  { exists [], []. split_and_all; [apply progress_refl|done..]. }
  pose proof (run_phase_spec PhaseStop CallStop StopFailed comp (Some (co_Stop comp)) g s r (fun _ _ => eq_refl)) as Hq.
  destruct (run_phase _ _ _ _ _ _ _ _) as [s1 r1]. destruct Hq as (n1 & Hl1 & Hm1 & Hs1 & e1 & He1 & Hc1 & Hz1).
  assert (P1 : progress s s1 r r1 n1 e1) by done.
  assert (Hst : stop_calls n1 = [co_Name comp]) by (rewrite stop_calls_map, Hm1; done).
  destruct (Err g (rt_now r1)) as [e|] eqn:E1.
  - set (sb := add_err _ s1). assert (Pb : progress s1 sb r1 r1 [] [BudgetStopping (co_Name comp) e]) by by apply progress_err.
    pose proof (force_stop_spec ctx comp sb r1) as Hf. destruct (force_stop ctx comp sb r1) as [s2 r2].
    destruct Hf as (n2 & e2 & P2 & Hm2 & _). pose proof (stop_loop_forced g ctx order s2 r2) as Hr.
    destruct (stop_loop g ctx order true s2 r2) as [s3 r3]. destruct Hr as (n3 & e3 & P3 & Hm3 & Hs3).
    pose proof (progress_trans _ _ _ _ _ _ _ _ _ _ P1 (progress_trans _ _ _ _ _ _ _ _ _ _ Pb
      (progress_trans _ _ _ _ _ _ _ _ _ _ P2 P3))) as P. eexists _, _. split; [exact P|].
    rewrite !stop_calls_app, Hst, Hs3, (stop_calls_forced n2 _ Hm2). split_and_all.
    + rewrite !map_app, Hm1. cbn. apply sublist_skip. apply sublist_app_2; [exact Hm2|].
      etrans; [exact Hm3|apply forced_stopping].
    + apply prefix_cons, prefix_nil.
    + intros Hn. exfalso. destruct P2 as (_ & _ & _ & (_ & _ & _ & _ & _ & _ & _ & Ht2)).
      destruct P3 as (_ & _ & _ & (_ & _ & _ & _ & _ & _ & _ & Ht3)).
      rewrite (Err_mono g (rt_now r1) (rt_now r3)) in E1; [done|lia|done].
  - specialize (IH s1 r1). destruct (stop_loop g ctx order false s1 r1) as [s2 r2].
    destruct IH as (n2 & e2 & P2 & Hm2 & Hp2 & Hg2). exists (n1 ++ n2), (e1 ++ e2). split_and_all.
    + by eapply progress_trans.
    + rewrite map_app, Hm1. cbn. by apply sublist_skip, sublist_cons.
    + rewrite stop_calls_app, Hst. by apply prefix_cons.
    + intros Hn. destruct (Hg2 Hn) as [Hm Hz]. rewrite map_app, Hm1, Hm. split; [done|].
      rewrite call_errors_app. intros [Ha Hb]%app_eq_nil. by rewrite (Hz1 Ha), (Hz Hb).
Qed.

Lemma grace_within ctx now t : Err (reserveForcedStopBudget ctx now) t = None -> Err ctx t = None.
Proof.
  unfold reserveForcedStopBudget. destruct (cx_deadline ctx) as [d|] eqn:E; [|done].
  destruct (_ <=? 0); [done|]. unfold Err, WithDeadline. cbn. rewrite E. cbn.
  destruct (cx_cancel ctx) as [c|]; cbn; repeat case_match; try done; bool_to_prop; lia.
Qed.

(** What [performStop] does. *)
Lemma performStop_spec ctx r : rt_state r <> StateStopped ->
  let '(errs, r') := performStop ctx r in
  let order := reverse (rt_startedComps r) in
  exists n1 n2, rt_calls r' = rt_calls r ++ n1 ++ n2 /\
    map fst n1 `prefix_of` flat_map graceful_calls order /\
    map fst n2 `sublist_of` flat_map stopping_calls order /\
    stop_calls n2 `prefix_of` map co_Name order /\
    callback_errors errs = call_errors (n1 ++ n2) /\
    is_Some (rt_rootCancel r') /\
    (errs <> [] -> rt_state r' = StateFailed) /\ (errs = [] -> rt_state r = StateRunning -> rt_state r' = StateStopped) /\
    (Err (reserveForcedStopBudget ctx (rt_now r)) (rt_now r') = None ->
       map fst n1 = flat_map graceful_calls order /\ map fst n2 = map (fun c => CallStop (co_Name c)) order /\
       (call_errors (n1 ++ n2) = [] -> errs = [])).
Proof.
  intros Hns. unfold performStop. rewrite decide_False by done. cbv zeta.
  set (g := reserveForcedStopBudget ctx (rt_now r)). set (order := reverse (rt_startedComps r)).
  set (st := default (rt_state r) (Transition (rt_state r) StateStopping)).
  change (reverse (rt_startedComps (rt_set_state st r))) with order.
  pose proof (quiesce_loop_spec g order (mkStopping [] []) (rt_set_state st r)) as Hq.
  destruct (quiesce_loop _ _ _ _) as [[ex s1] r1]. destruct Hq as (n1 & e1 & P1 & Hpre & Hex).
  assert (Hloop : let '(s2, r2) := stop_loop g ctx order (ex || bool_decide (is_Some (Err g (rt_now r1)))) s1 r1 in
    exists n2 e2, progress s1 s2 r1 r2 n2 e2 /\ map fst n2 `sublist_of` flat_map stopping_calls order /\
      stop_calls n2 `prefix_of` map co_Name order /\
      (Err g (rt_now r2) = None -> ex = false /\ map fst n2 = map (fun c => CallStop (co_Name c)) order /\
         (call_errors n2 = [] -> e2 = []))).
  { destruct (ex || bool_decide (is_Some (Err g (rt_now r1)))) eqn:Ef.
    - assert (Hsome : is_Some (Err g (rt_now r1))).
      { apply orb_true_iff in Ef as [->|Hb]; [done|by apply bool_decide_eq_true in Hb]. }
      pose proof (stop_loop_forced g ctx order s1 r1) as Hl. destruct (stop_loop _ _ _ _ _ _) as [s2 r2].
      destruct Hl as (n2 & e2 & P2 & Hm & Hs). exists n2, e2. split_and_all; [done| | |].
      + etrans; [exact Hm|apply forced_stopping].
      + rewrite Hs. apply prefix_nil.
      + intros Hn. destruct P2 as (_ & _ & _ & (_ & _ & _ & _ & _ & _ & _ & Ht)).
        rewrite (Err_mono g (rt_now r1) (rt_now r2)) in Hsome; [by destruct Hsome|done|done].
    - apply orb_false_iff in Ef as [-> _]. pose proof (stop_loop_spec g ctx order s1 r1) as Hl.
      destruct (stop_loop _ _ _ _ _ _) as [s2 r2]. destruct Hl as (n2 & e2 & P2 & Hm & Hs & Hg).
      exists n2, e2. split_and_all; try done. intros Hn. by split; [|apply Hg]. }
  destruct (stop_loop _ _ _ _ _ _) as [s2 r2]. destruct Hloop as (n2 & e2 & P2 & Hm & Hs & Hg).
  destruct (progress_trans _ _ _ _ _ _ _ _ _ _ P1 P2) as (Hl & He & Hc & (Hst & _ & _ & _)). cbn in Hl, He, Hst.
  set (hard := HardDeadline <$> Err ctx (rt_now (rootCancel r2))).
  assert (Hch : callback_errors (st_errs (add_err hard s2)) = call_errors (n1 ++ n2)).
  { cbn [st_errs add_err]. rewrite callback_errors_app, He, Hc. unfold hard. destruct (Err ctx _); by rewrite app_nil_r. }
  assert (Hgr : Err g (rt_now r2) = None -> map fst n1 = flat_map graceful_calls order /\
    map fst n2 = map (fun c => CallStop (co_Name c)) order /\
    (call_errors (n1 ++ n2) = [] -> st_errs (add_err hard s2) = [])).
  { intros Hn. destruct (Hg Hn) as (-> & H2 & H3). destruct Hex as [H4 H5]. split_and_all; [done..|].
    rewrite call_errors_app. intros [Ha Hb]%app_eq_nil. cbn [st_errs add_err]. unfold hard.
    change (rt_now (rootCancel r2)) with (rt_now r2). rewrite (grace_within ctx _ _ Hn). cbn.
    by rewrite He, (H5 Ha), (H3 Hb). }
  assert (Hroot : is_Some (rt_rootCancel (rootCancel r2))) by (unfold rootCancel, earlier; cbn; destruct (rt_rootCancel r2); by eexists).
  destruct (st_errs (add_err hard s2)) as [|e es] eqn:Ee; exists n1, n2;
    (split_and_all; try done; try exact Hl; try exact Hroot).
  intros _ Hrun. cbn. unfold st in Hst. rewrite Hrun in Hst. cbn in Hst. by rewrite Hst.
Qed.

Lemma performStop_frame ctx r :
  rt_graph (snd (performStop ctx r)) = rt_graph r /\ rt_startedComps (snd (performStop ctx r)) = rt_startedComps r /\
  (rt_state (snd (performStop ctx r)) = StateCreated -> rt_state r = StateCreated).
Proof.
  unfold performStop. case_decide as Hs; [done|].
  set (r0 := rt_set_state _ r). set (g := reserveForcedStopBudget ctx _).
  pose proof (quiesce_loop_spec g (reverse (rt_startedComps r0)) (mkStopping [] []) r0) as Hq. cbv zeta.
  destruct (quiesce_loop _ _ _ _) as [[ex s1] r1]. destruct Hq as (n1 & e1 & (_ & _ & _ & H1) & _).
  assert (Hl : same_but_log r1 (snd (stop_loop g ctx (reverse (rt_startedComps r0))
    (ex || bool_decide (is_Some (Err g (rt_now r1)))) s1 r1))).
  { destruct (ex || _).
    - pose proof (stop_loop_forced g ctx (reverse (rt_startedComps r0)) s1 r1) as Hl.
      destruct (stop_loop _ _ _ _ _ _). by destruct Hl as (? & ? & (_ & _ & _ & ?) & _).
    - pose proof (stop_loop_spec g ctx (reverse (rt_startedComps r0)) s1 r1) as Hl.
      destruct (stop_loop _ _ _ _ _ _). by destruct Hl as (? & ? & (_ & _ & _ & ?) & _). }
  destruct (stop_loop _ _ _ _ _ _) as [s2 r2]. cbn [snd] in Hl.
  destruct (same_but_log_trans _ _ _ H1 Hl) as (K1 & K2 & K3 & _).
  destruct (st_errs _); cbn; rewrite ?K1, ?K2, ?K3; split_and_all; try done.
  unfold r0. cbn. by destruct (rt_state r).
Qed.

(** ** Dependencies and the order of shutdown *)

Definition depends_on (c c' : component) : Prop := trim_space (co_Name c') ∈ map trim_space (co_Dependencies c).
Definition well_keyed (g : graph component) : Prop := forall k c, g !! k = Some c -> k = trim_space (co_Name c).

Lemma StronglySorted_sublist {A} (R : relation A) l k : l `sublist_of` k -> StronglySorted R k -> StronglySorted R l.
Proof.
  induction 1 as [|x l k Hs IH|x l k Hs IH]; [done| |]; intros H; apply StronglySorted_inv in H as [H Hf]; [|by apply IH].
  constructor; [by apply IH|]. rewrite Forall_forall in Hf |- *. intros y Hy. apply Hf. by eapply elem_of_sublist.
Qed.

Lemma StronglySorted_snoc {A} (R : relation A) l x :
  StronglySorted R l -> (forall y, y ∈ l -> R y x) -> StronglySorted R (l ++ [x]).
Proof.
  induction 1 as [|y l Hl IH Hf]; intros Hx; cbn; [by repeat constructor|].
  constructor; [apply IH; intros z Hz; apply Hx; by right|].
  apply Forall_app. split; [done|]. constructor; [apply Hx; by left|done].
Qed.

Lemma StronglySorted_rev {A} (R : relation A) l : StronglySorted R l -> StronglySorted (fun x y => R y x) (reverse l).
Proof.
  induction 1 as [|y l Hl IH Hf]; [constructor|]. rewrite reverse_cons. apply StronglySorted_snoc; [done|].
  intros z Hz. rewrite elem_of_reverse in Hz. rewrite Forall_forall in Hf. by apply Hf.
Qed.

Lemma omap_keys g o : well_keyed g -> (forall n, n ∈ o -> is_Some (g !! n)) ->
  map (fun c => trim_space (co_Name c)) (omap (fun n => g !! n) o) = o /\
  forall c, c ∈ omap (fun n => g !! n) o -> g !! trim_space (co_Name c) = Some c.
Proof.
  intros Hk. induction o as [|n o IH]; intros Ho; [split; [done|set_solver]|].
  destruct (Ho n) as [c Hc]; [by left|]. cbn [omap list_omap]. rewrite Hc. cbn [map].
  destruct IH as [IH1 IH2]; [intros m Hm; apply Ho; by right|]. rewrite <- (Hk n c Hc). split; [by f_equal|].
  intros d [->|Hd]%elem_of_cons; [by rewrite <- (Hk n c Hc)|by apply IH2].
Qed.

(** The order of [StartupOrder], read on the components. *)
Lemma order_spec visit g order : (forall n l, visit n l ≡ₚ l) -> well_keyed g -> StartupOrder visit g = inr order ->
  NoDup (map co_Name order) /\ StronglySorted (fun c c' => ~ depends_on c c') order /\
  forall c, c ∈ order -> ~ depends_on c c.
Proof.
  intros Hv Hk E. destruct (StartupOrder_order visit Hv g order E) as (o & -> & Hp & Ho).
  destruct (omap_keys g o Hk) as [Hm Hg]; [intros n Hn; apply elem_of_names; by rewrite <- Hp|].
  assert (Hnd : NoDup o) by (rewrite Hp; apply NoDup_names).
  set (order := omap (fun n => g !! n) o) in *. rewrite <- Hm in Ho, Hnd. clear Hm Hp E.
  assert (Hd : forall l1 c l2, order = l1 ++ c :: l2 -> forall c', c' ∈ c :: l2 -> ~ depends_on c c').
  { intros l1 c l2 El c' Hc' Hdep. rewrite El, map_app in Ho, Hnd. cbn [map] in Ho, Hnd.
    assert (Hin : trim_space (co_Name c') ∈ map (fun c => trim_space (co_Name c)) l1).
    { eapply Ho; [done|]. unfold deps_of. rewrite (Hg c); [exact Hdep|]. rewrite El. set_solver. }
    apply NoDup_app in Hnd as (_ & Hx & _). apply (Hx _ Hin).
    apply elem_of_cons in Hc' as [->|Hc']; [by left|right]. apply list_elem_of_fmap. by exists c'. }
  split_and_all.
  - apply (NoDup_fmap_1 trim_space). change (NoDup (map trim_space (map co_Name order))). by rewrite map_map.
  - clear -Hd. induction order as [|c order IH]; constructor.
    + apply IH. intros l1 c' l2 ->. by apply (Hd (c :: l1) c' l2).
    + apply Forall_forall. intros c' Hc'. apply (Hd [] c order eq_refl). by right.
  - intros c (l1 & l2 & El)%list_elem_of_split. apply (Hd l1 c l2 El). by left.
Qed.

Definition call_name (c : call) : string :=
  match c with CallStart c | CallQuiesce c | CallDrain c | CallStop c | CallForceStop c => c end.

(** [ca] may be made before [cb]: it does not go to something [cb]'s component needs. *)
Definition dependents_first (l : list component) (ca cb : call) : Prop :=
  forall a b, a ∈ l -> b ∈ l -> call_name ca = co_Name a -> call_name cb = co_Name b -> ~ depends_on b a.

Lemma names_unique (l : list component) a b :
  NoDup (map co_Name l) -> a ∈ l -> b ∈ l -> co_Name a = co_Name b -> a = b.
Proof.
  induction l as [|c l IH]; intros Hnd Ha Hb E; [by apply elem_of_nil in Ha|].
  cbn in Hnd. apply NoDup_cons in Hnd as [Hc Hnd].
  assert (Hx : forall d, d ∈ l -> co_Name d <> co_Name c).
  { intros d Hd Ed. apply Hc. rewrite <- Ed. apply list_elem_of_fmap. by exists d. }
  apply elem_of_cons in Ha as [->|Ha], Hb as [->|Hb]; [done| | |by apply IH].
  - by destruct (Hx b Hb).
  - by destruct (Hx a Ha).
Qed.

Lemma calls_sorted (f : component -> list call) l k : (forall c ca, ca ∈ f c -> call_name ca = co_Name c) ->
  NoDup (map co_Name l) -> (forall c, c ∈ l -> ~ depends_on c c) -> (forall c, c ∈ k -> c ∈ l) ->
  StronglySorted (fun a b => ~ depends_on b a) k -> StronglySorted (dependents_first l) (flat_map f k).
Proof.
  intros Hf Hnd Hi.
  induction k as [|c k IH]; intros Hk Hsk; cbn [flat_map]; [constructor|].
  apply StronglySorted_inv in Hsk as [Hsk Hck]. rewrite Forall_forall in Hck.
  assert (Hcl : c ∈ l) by (apply Hk; by left).
  apply StronglySorted_app_2; [|clear IH|apply IH; [intros d Hd; apply Hk; by right|done]].
  - intros ca cb Ha (d & Hd & Hcb)%list_elem_of_In%in_flat_map a b Hal Hbl Ea Eb.
    apply list_elem_of_In in Hd, Hcb. rewrite (Hf _ _ Ha) in Ea. rewrite (Hf _ _ Hcb) in Eb.
    assert (Hdl : d ∈ l) by (apply Hk; by right).
    rewrite <- (names_unique l c a), <- (names_unique l d b) by done. by apply Hck.
  - specialize (Hf c). induction (f c) as [|ca fc IH]; constructor; [apply IH; intros cb Hcb; apply Hf; by right|].
    apply Forall_forall. intros cb Hcb a b Hal Hbl Ea Eb. rewrite (Hf ca) in Ea by by left.
    rewrite (Hf cb) in Eb by by right. rewrite <- (names_unique l c a), <- (names_unique l c b) by done. by apply Hi.
Qed.

Lemma map_sublist {A B} (f : A -> B) l k : l `sublist_of` k -> map f l `sublist_of` map f k.
Proof. induction 1; cbn; by constructor. Qed.

Lemma prefix_sublist {A} (l k : list A) : l `prefix_of` k -> l `sublist_of` k.
Proof. intros [m ->]. by apply sublist_inserts_r. Qed.

Lemma graceful_call c ca : ca ∈ graceful_calls c -> ca = CallQuiesce (co_Name c) \/ ca = CallDrain (co_Name c).
Proof. unfold graceful_calls. destruct (co_Quiesce c), (co_Drain c); set_solver. Qed.
Lemma stopping_call c ca : ca ∈ stopping_calls c -> ca = CallStop (co_Name c) \/ ca = CallForceStop (co_Name c).
Proof. unfold stopping_calls. set_solver. Qed.
Lemma graceful_calls_name c ca : ca ∈ graceful_calls c -> call_name ca = co_Name c.
Proof. by intros [->| ->]%graceful_call. Qed.
Lemma stopping_calls_name c ca : ca ∈ stopping_calls c -> call_name ca = co_Name c.
Proof. by intros [->| ->]%stopping_call. Qed.

Lemma in_calls f (l : list component) ca k : ca ∈ k -> k `sublist_of` flat_map f l -> exists c : component, ca ∈ (f c : list call).
Proof.
  intros Hca Hs. eapply elem_of_sublist in Hca; [|exact Hs]. apply list_elem_of_In, in_flat_map in Hca as (c & _ & Hca).
  exists c. by apply list_elem_of_In.
Qed.

Lemma Start_stopOnce visit ctx r : rt_stopOnce (snd (Start visit ctx r)) = rt_stopOnce r.
Proof.
  unfold Start. destruct (Transition _ _) as [s|]; [|done].
  destruct (StartupOrder _ _) as [|order]; [done|]. destruct (Transition _ _) as [s'|]; [|done].
  pose proof (start_loop_spec ctx order [] (rt_set_state s' (rt_set_state s r))) as Hl.
  destruct (start_loop _ _ _ _) as [[err r']|[started r']].
  - by destruct Hl as (? & ? & ? & ? & ? & _ & _ & _ & _ & _ & _ & _ & _ & _ & _ & Hx).
  - destruct Hl as (? & ? & _ & _ & _ & _ & _ & _ & (_ & _ & _ & _ & Hx & _)). by destruct (Transition _ _).
Qed.

(** C12. The program's components come up and go down in dependency order. After a
    successful [Start], the calls of [Stop] fall in two phases, first quiescing and
    draining, then stopping (by force once the budget is gone), and within each
    phase a component is called only when no component that depends on it is
    called any more. *)
Theorem shutdown_dependents_first visit ctx ownerCtx r r1 :
  (forall n l, visit n l ≡ₚ l) -> well_keyed (rt_graph r) -> rt_state r = StateCreated -> rt_stopOnce r = false ->
  Start visit ctx r = (None, r1) ->
  let r2 := snd (startStop ownerCtx r1) in
  exists n1 n2, rt_calls r2 = rt_calls r1 ++ n1 ++ n2 /\
    StronglySorted (dependents_first (rt_startedComps r1)) (map fst n1) /\
    StronglySorted (dependents_first (rt_startedComps r1)) (map fst n2) /\
    (forall ca, ca ∈ map fst n1 -> exists c, ca = CallQuiesce c \/ ca = CallDrain c) /\
    (forall ca, ca ∈ map fst n2 -> exists c, ca = CallStop c \/ ca = CallForceStop c).
Proof.
  intros Hv Hk Hc Ho E. pose proof (Start_spec visit ctx r Hc) as Hst. rewrite E in Hst.
  destruct Hst as (order & new & Eo & Hs1 & _ & _ & _ & Hsub & _).
  destruct (order_spec visit _ order Hv Hk Eo) as (Hnd & Hss & Hirr).
  assert (Hnd1 : NoDup (map co_Name (rt_startedComps r1)))
    by (eapply sublist_NoDup; [exact Hnd|by apply map_sublist]).
  assert (Hss1 : StronglySorted (fun a b => ~ depends_on b a) (reverse (rt_startedComps r1)))
    by (apply (StronglySorted_rev (fun a b => ~ depends_on a b)); by eapply StronglySorted_sublist).
  assert (Hirr1 : forall c, c ∈ rt_startedComps r1 -> ~ depends_on c c)
    by (intros c Hin; apply Hirr; by eapply elem_of_sublist).
  assert (Ho1 : rt_stopOnce r1 = false) by (rewrite <- Ho, <- (Start_stopOnce visit ctx r), E; done).
  unfold startStop. rewrite Ho1.
  pose proof (performStop_spec (shutdownContext ownerCtx r1) r1) as Hp. rewrite Hs1 in Hp. specialize (Hp ltac:(done)).
  destruct (performStop _ r1) as [errs r2]. destruct Hp as (n1 & n2 & Hl & Hp1 & Hp2 & _).
  exists n1, n2. split; [exact Hl|]. apply prefix_sublist in Hp1.
  assert (Hin : forall c, c ∈ reverse (rt_startedComps r1) -> c ∈ rt_startedComps r1)
    by (intros c Hx; by rewrite elem_of_reverse in Hx).
  split_and_all.
  - eapply StronglySorted_sublist; [exact Hp1|]. apply calls_sorted; try done. apply graceful_calls_name.
  - eapply StronglySorted_sublist; [exact Hp2|]. apply calls_sorted; try done. apply stopping_calls_name.
  - intros ca Hca. destruct (in_calls _ _ _ _ Hca Hp1) as (c & Hx%graceful_call). by exists (co_Name c).
  - intros ca Hca. destruct (in_calls _ _ _ _ Hca Hp2) as (c & Hx%stopping_call). by exists (co_Name c).
Qed.

(** C11. [Start] brings everything up or nothing. On success the components were
    started in the order of the graph, those that count as started are exactly
    those whose [Start] returned no error, and every other one is optional. On
    failure the runtime is failed and the components that had started were
    stopped, each once, the last first; nothing is kept as started. *)
Theorem Start_outcome visit ctx r : rt_state r = StateCreated ->
  let '(err, r') := Start visit ctx r in
  match err with
  | None => exists order new,
      StartupOrder visit (rt_graph r) = inr order /\ rt_state r' = StateRunning /\
      rt_calls r' = rt_calls r ++ new /\ map fst new = map (fun c => CallStart (co_Name c)) order /\
      log_started new = map co_Name (rt_startedComps r') /\ rt_startedComps r' `sublist_of` order /\
      forall c, c ∈ order -> c ∉ rt_startedComps r' -> co_IsCritical c = Some false
  | Some _ => exists tried starts stops,
      rt_state r' = StateFailed /\ rt_startedComps r' = rt_startedComps r /\
      rt_calls r' = rt_calls r ++ starts ++ stops /\
      map fst starts = map (fun c => CallStart (co_Name c)) tried /\
      (tried = [] \/ exists rest, StartupOrder visit (rt_graph r) = inr (tried ++ rest)) /\
      map fst stops = map CallStop (reverse (log_started starts))
  end.
Proof. apply Start_spec. Qed.

(** While the budget lasts a shutdown is complete: every started component is
    quiesced and drained, and then every one is stopped, the last started first.
    The errors that [Stop] joins are exactly those the callbacks returned, and the
    runtime is stopped when there are none and failed otherwise. *)
Theorem performStop_graceful ctx r : rt_state r = StateRunning ->
  let '(errs, r') := performStop ctx r in
  Err (reserveForcedStopBudget ctx (rt_now r)) (rt_now r') = None ->
  exists new, rt_calls r' = rt_calls r ++ new /\
    map fst new = flat_map graceful_calls (reverse (rt_startedComps r)) ++
                  map (fun c => CallStop (co_Name c)) (reverse (rt_startedComps r)) /\
    callback_errors errs = call_errors new /\ (errs = [] <-> call_errors new = []) /\
    rt_state r' = if decide (call_errors new = []) then StateStopped else StateFailed.
Proof.
  intros Hr. pose proof (performStop_spec ctx r) as Hp. rewrite Hr in Hp. specialize (Hp ltac:(done)).
  destruct (performStop ctx r) as [errs r']. intros Hn.
  destruct Hp as (n1 & n2 & Hl & _ & _ & _ & Hc & _ & Hf & Hs & Hg). destruct (Hg Hn) as (H1 & H2 & H3).
  exists (n1 ++ n2). rewrite map_app, H1, H2.
  assert (Hiff : errs = [] <-> call_errors (n1 ++ n2) = []) by (split; [intros E; rewrite <- Hc, E; done|done]).
  split_and_all; try done; try apply Hiff. case_decide as Hd; [apply Hs; [by apply Hiff|done]|apply Hf; by rewrite Hiff].
Qed.

Lemma Start_graph visit ctx r : rt_graph (snd (Start visit ctx r)) = rt_graph r.
Proof.
  unfold Start. destruct (Transition _ _) as [s|]; [|done].
  destruct (StartupOrder _ _) as [|order]; [done|]. destruct (Transition _ _) as [s'|]; [|done].
  pose proof (start_loop_spec ctx order [] (rt_set_state s' (rt_set_state s r))) as Hl.
  destruct (start_loop _ _ _ _) as [[err r']|[started r']].
  - by destruct Hl as (? & ? & ? & ? & ? & _ & _ & _ & _ & _ & _ & _ & _ & _ & Hx & _).
  - destruct Hl as (? & ? & _ & _ & _ & _ & _ & _ & (_ & Hx & _)). by destruct (Transition _ _).
Qed.

(** ** Runs *)

Definition start_calls (l : list (call * option error)) : list string :=
  omap (fun ce => match ce.1 with CallStart c => Some c | _ => None end) l.

Record run_ok (r : runtime) : Prop := {
  ro_keyed : well_keyed (rt_graph r);
  ro_created : rt_state r = StateCreated -> rt_startedComps r = [] /\ start_calls (rt_calls r) = [] /\ stop_calls (rt_calls r) = [];
  ro_starts : NoDup (start_calls (rt_calls r));
  ro_stops : NoDup (stop_calls (rt_calls r));
  ro_names : NoDup (map co_Name (rt_startedComps r));
  ro_pending : rt_stopOnce r = false -> forall c, c ∈ rt_startedComps r -> co_Name c ∉ stop_calls (rt_calls r)
}.

Lemma start_calls_map l : start_calls l = omap (fun c => match c with CallStart c => Some c | _ => None end) (map fst l).
Proof. induction l as [|[[] e] l IH]; cbn; by rewrite <- ?IH. Qed.
Lemma start_calls_app l1 l2 : start_calls (l1 ++ l2) = start_calls l1 ++ start_calls l2.
Proof. apply omap_app. Qed.

Lemma calls_of_starts l names : map fst l = map CallStart names -> start_calls l = names /\ stop_calls l = [].
Proof.
  rewrite start_calls_map, stop_calls_map. intros ->. induction names as [|n names IH]; [done|].
  destruct IH as [IH1 IH2]. cbn. by rewrite IH1, IH2.
Qed.
Lemma calls_of_stops l names : map fst l = map CallStop names -> stop_calls l = names /\ start_calls l = [].
Proof.
  rewrite start_calls_map, stop_calls_map. intros ->. induction names as [|n names IH]; [done|].
  destruct IH as [IH1 IH2]. cbn. by rewrite IH1, IH2.
Qed.

Lemma no_start_calls l : (forall ca, ca ∈ map fst l -> forall c, ca <> CallStart c) -> start_calls l = [].
Proof.
  rewrite start_calls_map. induction (map fst l) as [|ca k IH]; intros H; [done|]. cbn.
  destruct ca; try (apply IH; intros cb Hcb; apply H; by right). exfalso. eapply (H (CallStart c)); [by left|done].
Qed.
Lemma no_stop_calls l : (forall ca, ca ∈ map fst l -> forall c, ca <> CallStop c) -> stop_calls l = [].
Proof.
  rewrite stop_calls_map. induction (map fst l) as [|ca k IH]; intros H; [done|]. cbn.
  destruct ca; try (apply IH; intros cb Hcb; apply H; by right). exfalso. eapply (H (CallStop c)); [by left|done].
Qed.

Lemma Add_well_keyed c g : well_keyed g -> well_keyed (snd (Add c g)).
Proof.
  unfold Add. destruct c as [c|]; [|done]. intros Hk. case_decide; [done|]. destruct (g !! _); [done|]. cbn [snd].
  intros k d. destruct (decide (trim_space (Name c) = k)) as [<-|Hn].
  - rewrite lookup_insert_eq. by intros [= <-].
  - rewrite lookup_insert_ne by done. apply Hk.
Qed.

Lemma log_started_names l names : map fst l = map CallStart names -> log_started l `sublist_of` names.
Proof.
  revert names. induction l as [|[ca e] l IH]; intros [|n names]; try done. intros [= -> H]. cbn.
  destruct e; [apply sublist_cons|apply sublist_skip]; by apply IH.
Qed.

Lemma Start_run_ok visit ctx r : (forall n l, visit n l ≡ₚ l) -> run_ok r -> run_ok (snd (Start visit ctx r)).
Proof.
  intros Hv Hrun. pose proof Hrun as [H1 H2 H3 H4 H5 H6]. destruct (decide (rt_state r = StateCreated)) as [Hc|Hc].
  - destruct (H2 Hc) as (E1 & E2 & E3). pose proof (Start_spec visit ctx r Hc) as Hs.
    pose proof (Start_stopOnce visit ctx r) as Ho. pose proof (Start_graph visit ctx r) as Hg.
    destruct (Start visit ctx r) as [[err|] r']; cbn in Ho, Hg |- *.
    + destruct Hs as (tried & starts & stops & Hst & Hsc & Hl & Hm & Hor & Hstop).
      rewrite <- (map_map co_Name CallStart) in Hm.
      destruct (calls_of_starts _ _ Hm) as [Ha Hb]. destruct (calls_of_stops _ _ Hstop) as [Hd He].
      assert (Hnd : NoDup (map co_Name tried)).
      { destruct Hor as [->|[rest Hor]]; [constructor|]. destruct (order_spec visit _ _ Hv H1 Hor) as [Hx _].
        rewrite map_app in Hx. by apply NoDup_app in Hx as [? _]. }
      split; rewrite ?Hl, ?Hsc, ?E1, ?start_calls_app, ?stop_calls_app, ?E2, ?E3, ?Ha, ?Hb, ?Hd, ?He, ?app_nil_r; cbn.
      * by rewrite Hg.
      * by rewrite Hst.
      * done.
      * rewrite reverse_Permutation. eapply sublist_NoDup; [exact Hnd|by apply log_started_names].
      * constructor.
      * set_solver.
    + destruct Hs as (order & new & Eo & Hst & Hl & Hm & Hlog & Hsub & _).
      rewrite <- (map_map co_Name CallStart) in Hm. destruct (calls_of_starts _ _ Hm) as [Ha Hb].
      destruct (order_spec visit _ _ Hv H1 Eo) as [Hnd _].
      split; rewrite ?Hl, ?start_calls_app, ?stop_calls_app, ?E2, ?E3, ?Ha, ?Hb, ?app_nil_r; cbn.
      * by rewrite Hg.
      * by rewrite Hst.
      * done.
      * constructor.
      * eapply sublist_NoDup; [exact Hnd|by apply map_sublist].
      * set_solver.
  - unfold Start. destruct (rt_state r) eqn:Hst; try done.
Qed.

Lemma Stop_run_ok ownerCtx r : run_ok r -> run_ok (snd (startStop ownerCtx r)).
Proof.
  intros Hrun. pose proof Hrun as [H1 H2 H3 H4 H5 H6]. unfold startStop. destruct (rt_stopOnce r) eqn:Ho; [done|].
  destruct (decide (rt_state r = StateStopped)) as [Hs|Hs].
  { unfold performStop. rewrite decide_True by done. cbn. by split. }
  pose proof (performStop_spec (shutdownContext ownerCtx r) r Hs) as Hp.
  pose proof (performStop_frame (shutdownContext ownerCtx r) r) as (Hg & Hc & Hcr').
  destruct (performStop _ r) as [errs r']. destruct Hp as (n1 & n2 & Hl & Hp1 & Hp2 & Hp3 & _). cbn in Hg, Hc, Hcr' |- *.
  apply prefix_sublist in Hp1, Hp3.
  assert (Ha : forall ca, ca ∈ map fst n1 -> forall c, ca <> CallStart c /\ ca <> CallStop c).
  { intros ca Hca c. by destruct (in_calls _ _ _ _ Hca Hp1) as (d & [->| ->]%graceful_call). }
  assert (Hb : forall ca, ca ∈ map fst n2 -> forall c, ca <> CallStart c).
  { intros ca Hca c. by destruct (in_calls _ _ _ _ Hca Hp2) as (d & [->| ->]%stopping_call). }
  assert (E1 : start_calls n1 = []) by (apply no_start_calls; intros; by apply Ha).
  assert (E2 : start_calls n2 = []) by by apply no_start_calls.
  assert (E3 : stop_calls n1 = []) by (apply no_stop_calls; intros; by apply Ha).
  assert (Hnd : NoDup (stop_calls n2)).
  { eapply sublist_NoDup; [|exact Hp3]. rewrite map_reverse, reverse_Permutation. exact H5. }
  split; cbn; rewrite ?Hl, ?Hg, ?Hc, ?start_calls_app, ?stop_calls_app, ?E1, ?E2, ?E3, ?app_nil_r; try done.
  - intros Hst. destruct (decide (rt_state r = StateCreated)) as [Hcr|Hcr].
    + destruct (H2 Hcr) as (K1 & K2 & K3). rewrite K1, K2, K3 in *. split_and_all; try done. cbn in Hp3 |- *.
      by apply sublist_nil_r in Hp3.
    + exfalso. by apply Hcr, Hcr'.
  - cbn. apply NoDup_app. split_and_all; [done| |done]. intros x Hx Hy.
    assert (Hz : x ∈ map co_Name (reverse (rt_startedComps r))) by by eapply elem_of_sublist.
    apply list_elem_of_fmap in Hz as (c & -> & Hc'). rewrite elem_of_reverse in Hc'. by apply (H6 eq_refl c).
Qed.

Definition op_ok (op : rt_op) : Prop :=
  match op with OpStart visit _ => forall n l, visit n l ≡ₚ l | _ => True end.

Lemma rt_step_ok op r : op_ok op -> run_ok r -> run_ok (rt_step op r).
Proof.
  intros Hop Hr. destruct op as [c|visit ctx|ownerCtx|d]; cbn [rt_step].
  - unfold Register. case_decide as Hs; [done|]. pose proof (Add_well_keyed (Some c) (rt_graph r)) as Ha.
    destruct (Add (Some c) (rt_graph r)) as [err g]. destruct Hr as [H1 H2 H3 H4 H5 H6]. split; try done. by apply Ha.
  - by apply Start_run_ok.
  - by apply Stop_run_ok.
  - destruct Hr. by split.
Qed.

Lemma New_run_ok now : run_ok (New now).
Proof. split; try done; try constructor. set_solver. Qed.

(** However often and in whatever order the operations of a runtime are
    called, no component is started twice and none is stopped twice. *)
Theorem each_component_once now ops : Forall op_ok ops ->
  NoDup (start_calls (rt_calls (rt_run ops (New now)))) /\ NoDup (stop_calls (rt_calls (rt_run ops (New now)))).
Proof.
  intros Hf. assert (Hr : run_ok (rt_run ops (New now))); [|by split; apply Hr].
  unfold rt_run. pose proof (New_run_ok now) as Hr. revert Hr. generalize (New now).
  induction Hf as [|op ops Hop _ IH]; intros r Hr; cbn [foldl]; [done|]. by apply IH, rt_step_ok.
Qed.

(** ** Health *)

Definition worse (st x : health_status) : health_status :=
  match x with
  | HealthUnhealthy => HealthUnhealthy
  | HealthDegraded => if decide (st = HealthUnhealthy) then HealthUnhealthy else HealthDegraded
  | _ => st
  end.
Definition graded (st : health_status) : Prop := st = HealthHealthy \/ st = HealthDegraded \/ st = HealthUnhealthy.

Lemma health_one_status report ch : ag_Status (health_one report ch) = worse (ag_Status report) (status_of ch.2).
Proof.
  destruct ch as [comp h]. unfold health_one, worse. cbn [snd]. destruct (status_of h); try done.
  destruct (decide (ag_Status report = HealthUnhealthy)) as [E|E].
  - rewrite decide_False by (intros Hx; by apply Hx). by rewrite E.
  - by rewrite decide_True.
Qed.

Lemma health_fold probe l : forall report,
  ag_Status (foldl health_one report (map (fun c => (c, probe c)) l)) =
  foldl worse (ag_Status report) (map (fun c => status_of (probe c)) l).
Proof. induction l as [|c l IH]; intros report; cbn [map foldl]; [done|]. by rewrite IH, health_one_status. Qed.

Lemma worse_graded st x : graded st -> graded (worse st x).
Proof. unfold graded, worse. destruct x; try done; [|by auto]. case_decide; by auto. Qed.

Lemma worse_unhealthy l : forall st, foldl worse st l = HealthUnhealthy <-> st = HealthUnhealthy \/ HealthUnhealthy ∈ l.
Proof.
  induction l as [|x l IH]; intros st; cbn [foldl]; [split; [by left|by intros [?|?%elem_of_nil]]|].
  rewrite IH, elem_of_cons.
  assert (Hw : worse st x = HealthUnhealthy <-> st = HealthUnhealthy \/ HealthUnhealthy = x); [|clear -Hw; tauto].
  unfold worse. destruct x as [| | |o]; try (split; [by left|by intros [?|?]]).
  - case_decide; (split; [try by left|by intros [?|?]]); done.
  - split; [by right|done].
Qed.

Lemma worse_degraded l : forall st, graded st -> ~ foldl worse st l = HealthUnhealthy ->
  foldl worse st l = if decide (st = HealthDegraded \/ HealthDegraded ∈ l) then HealthDegraded else HealthHealthy.
Proof.
  induction l as [|x l IH]; intros st Hg Hn; cbn [foldl] in *.
  - destruct Hg as [->|[->| ->]]; [by rewrite decide_False by (by intros [?|?%elem_of_nil])|by rewrite decide_True by by left|done].
  - rewrite (IH _ (worse_graded st x Hg) Hn). apply decide_ext. rewrite elem_of_cons.
    assert (Hx : ~ (worse st x = HealthUnhealthy)) by (intros Hx; apply Hn, worse_unhealthy; by left).
    unfold worse in *. destruct x as [| | |o]; [| |by destruct Hx|].
    + split; [intros [?|?]|intros [?|[?|?]]]; by auto.
    + case_decide; [by destruct Hx|]. split; intros _; [by right; left|by left].
    + split; [intros [?|?]|intros [?|[?|?]]]; by auto.
Qed.

(** The aggregated status is the worst: unhealthy when the runtime failed or
    stopped or a started component is unhealthy, else degraded when the runtime is
    not running or a component is degraded, else healthy. *)
Theorem Health_worst probe r :
  let statuses := map (fun c => status_of (probe c)) (rt_startedComps r) in
  ag_Status (Health probe r) =
    if decide (rt_state r = StateFailed \/ rt_state r = StateStopped \/ HealthUnhealthy ∈ statuses) then HealthUnhealthy
    else if decide (rt_state r <> StateRunning \/ HealthDegraded ∈ statuses) then HealthDegraded
    else HealthHealthy.
Proof.
  cbv zeta. unfold Health. set (base := if decide _ then _ else _).
  assert (Hb : ag_Status base = if decide (rt_state r = StateFailed \/ rt_state r = StateStopped) then HealthUnhealthy
    else if decide (rt_state r <> StateRunning) then HealthDegraded else HealthHealthy)
    by (unfold base; destruct (rt_state r); done).
  rewrite health_fold. set (l := map _ _).
  assert (Hg : graded (ag_Status base)) by (rewrite Hb; unfold graded; repeat case_decide; by auto).
  destruct (decide (foldl worse (ag_Status base) l = HealthUnhealthy)) as [E|E].
  - rewrite E, decide_True; [done|]. apply worse_unhealthy in E as [E|E]; [|by auto].
    rewrite Hb in E. repeat case_decide; (tauto || done).
  - rewrite (worse_degraded l _ Hg E). rewrite worse_unhealthy in E.
    assert (Hs : ~ (rt_state r = StateFailed \/ rt_state r = StateStopped)).
    { intros Hs. apply E. left. by rewrite Hb, decide_True. }
    rewrite (decide_False (P := _ \/ _ \/ _)) by (clear -E Hs; tauto). rewrite decide_False in Hb by done.
    apply decide_ext. rewrite Hb. case_decide as Hr; split; (intros [H|H]; [|by right]); try (by left); done.
Qed.

(** ** Two components, and what can go wrong *)

Definition instantly : callback := fun _ _ => (0%N, None).
Definition sample_db : component := mkComponent "db" [] instantly instantly (Some instantly) (Some instantly) None None.
Definition sample_api : component := mkComponent "api" ["db"] instantly instantly None (Some instantly) None (Some true).
(** Its [Drain] takes until the budget for grace is used up, and succeeds. *)
Definition slow_drain : component :=
  mkComponent "slow" [] instantly instantly None (Some (fun _ _ => (Z.to_N (29900 * millisecond), None))) None None.

Definition sample_runtime : runtime := rt_run [OpRegister sample_api; OpRegister sample_db] (New 0).
Definition sample_running : runtime := snd (Start backwards Background sample_runtime).

(** A shutdown can report success although nothing was stopped: when the budget
    runs out during a [Drain] that returns no error, [performStop] goes on by
    force, adds no error to the list, and never calls [Stop]. *)
Theorem stop_succeeds_without_stopping :
  let r := rt_run [OpRegister slow_drain; OpStart backwards Background] (New 0) in
  rt_state r = StateRunning /\ map co_Name (rt_startedComps r) = ["slow"] /\
  let '(errs, r') := startStop None r in
  errs = [] /\ rt_state r' = StateStopped /\ stop_calls (rt_calls r') = [].
Proof. vm_compute. by repeat split. Qed.

(** A [Stop] before [Start] uses up [stopOnce] and leaves the runtime in its first
    state: it can be started afterwards and then can never be stopped. *)
Theorem stop_before_start_leaks :
  let r := rt_run [OpRegister sample_db; OpStop None; OpStart backwards Background; OpStop None] (New 0) in
  rt_state r = StateRunning /\ map co_Name (rt_startedComps r) = ["db"] /\ stop_calls (rt_calls r) = [] /\
  forall ownerCtx, startStop ownerCtx r = ([], r).
Proof. split_and_all; try (vm_compute; reflexivity). intros ownerCtx. unfold startStop. by vm_compute. Qed.

Lemma sample_keyed : well_keyed (rt_graph sample_runtime).
Proof. apply (ro_keyed _ (rt_step_ok (OpRegister sample_db) _ I (rt_step_ok (OpRegister sample_api) _ I (New_run_ok 0)))). Qed.

Lemma Start_outcome_witness :
  let '(err, r') := Start backwards Background sample_runtime in
  err = None /\ exists order new,
    StartupOrder backwards (rt_graph sample_runtime) = inr order /\ rt_state r' = StateRunning /\
    rt_calls r' = rt_calls sample_runtime ++ new /\ map fst new = map (fun c => CallStart (co_Name c)) order /\
    log_started new = map co_Name (rt_startedComps r') /\ rt_startedComps r' `sublist_of` order /\
    forall c, c ∈ order -> c ∉ rt_startedComps r' -> co_IsCritical c = Some false.
Proof.
  pose proof (Start_outcome backwards Background sample_runtime) as H. specialize (H ltac:(vm_compute; reflexivity)).
  destruct (Start backwards Background sample_runtime) as [[err|] r'] eqn:E; [exfalso|by split].
  assert (Hx : fst (Start backwards Background sample_runtime) = None) by (vm_compute; reflexivity).
  by rewrite E in Hx.
Defined.

Lemma performStop_graceful_witness :
  rt_state sample_running = StateRunning /\
  let '(errs, r') := performStop (shutdownContext None sample_running) sample_running in
  exists new, rt_calls r' = rt_calls sample_running ++ new /\
    map fst new = [CallDrain "api"; CallQuiesce "db"; CallDrain "db"; CallStop "api"; CallStop "db"] /\
    callback_errors errs = call_errors new /\ (errs = [] <-> call_errors new = []) /\
    rt_state r' = if decide (call_errors new = []) then StateStopped else StateFailed.
Proof.
  split; [vm_compute; reflexivity|].
  pose proof (performStop_graceful (shutdownContext None sample_running) sample_running) as H.
  specialize (H ltac:(vm_compute; reflexivity)).
  assert (Hn : Err (reserveForcedStopBudget (shutdownContext None sample_running) (rt_now sample_running))
    (rt_now (snd (performStop (shutdownContext None sample_running) sample_running))) = None) by (vm_compute; reflexivity).
  destruct (performStop _ sample_running) as [errs r']. exact (H Hn).
Defined.

Lemma shutdown_dependents_first_witness :
  Start backwards Background sample_runtime = (None, sample_running) /\
  let r2 := snd (startStop None sample_running) in
  exists n1 n2, rt_calls r2 = rt_calls sample_running ++ n1 ++ n2 /\
    StronglySorted (dependents_first (rt_startedComps sample_running)) (map fst n1) /\
    StronglySorted (dependents_first (rt_startedComps sample_running)) (map fst n2) /\
    (forall ca, ca ∈ map fst n1 -> exists c, ca = CallQuiesce c \/ ca = CallDrain c) /\
    (forall ca, ca ∈ map fst n2 -> exists c, ca = CallStop c \/ ca = CallForceStop c).
Proof.
  assert (E : Start backwards Background sample_runtime = (None, sample_running)).
  { unfold sample_running. rewrite (surjective_pairing (Start backwards Background sample_runtime)) at 1.
    f_equal. }
  split; [exact E|].
  apply (shutdown_dependents_first backwards Background None sample_runtime sample_running backwards_perm sample_keyed);
    [vm_compute; reflexivity|vm_compute; reflexivity|exact E].
Defined.

Lemma each_component_once_witness :
  let ops := [OpRegister sample_api; OpRegister sample_db; OpStart backwards Background; OpStop None; OpStop None] in
  start_calls (rt_calls (rt_run ops (New 0))) = ["db"; "api"] /\
  NoDup (start_calls (rt_calls (rt_run ops (New 0)))) /\ NoDup (stop_calls (rt_calls (rt_run ops (New 0)))).
Proof.
  cbv zeta. split; [vm_compute; reflexivity|].
  apply each_component_once. repeat constructor; simpl; try done. exact backwards_perm.
Defined.
