(* ===== verification/Supervisor.v ===== *)
(** * The supervisor of background workers

    Models [internal/runtime/supervisor.go]. [sv_step] interleaves the callers of
    the supervisor, one goroutine per worker, the timers of the backoffs and the
    cancellation of the parent context. A goroutine stands at the head of its
    loop, in [Run], in its backoff, or is over; what it does in between takes the
    mutexes one after the other and touches only its own entry. [we_history] (the
    restarts ever allowed) and [we_runs] are kept for the statements. *)

From S2P Require Import Prelude.
From S2P Require Import RuntimeLifecycle.

Inductive RestartPolicy := NeverRestart | RestartTransient.

(** [ws_Run]: whether the function is not nil; what it returns is an event. *)
Record WorkerSpec := mkSpec {
  ws_Name : string; ws_Restart : RestartPolicy; ws_MaxRestarts : Z; ws_RestartWindow : duration; ws_Run : bool
}.

Inductive WorkerState :=
  WorkerStateCreated | WorkerStateRunning | WorkerStateStopped | WorkerStateFailed | WorkerStateDegraded.

Inductive goroutine := AtLoop | InRun | InBackoff (until : time) | Returned.

Inductive worker_error := RunError (e : string) | RunPanic (v : string) | BudgetExceeded (e : worker_error).

Record workerEntry := mkEntry {
  we_spec : WorkerSpec;
  we_state : WorkerState;
  we_restarts : list time;
  we_restartCount : Z;
  we_panics : Z;
  we_lastError : option worker_error;
  we_go : option goroutine;
  we_history : list time;
  we_runs : nat
}.

Definition DefaultMaxWorkers : Z := 64.
Definition DefaultBaseBackoff : duration := 25 * millisecond.
Definition DefaultRestartWindow : duration := 10 * second.
Definition DefaultMaxRestarts : Z := 3.

Definition we_set_state (s : WorkerState) (w : workerEntry) : workerEntry :=
  mkEntry (we_spec w) s (we_restarts w) (we_restartCount w) (we_panics w) (we_lastError w) (we_go w) (we_history w) (we_runs w).
Definition we_set_lastError (e : option worker_error) (w : workerEntry) : workerEntry :=
  mkEntry (we_spec w) (we_state w) (we_restarts w) (we_restartCount w) (we_panics w) e (we_go w) (we_history w) (we_runs w).
Definition we_set_go (g : goroutine) (w : workerEntry) : workerEntry :=
  mkEntry (we_spec w) (we_state w) (we_restarts w) (we_restartCount w) (we_panics w) (we_lastError w) (Some g) (we_history w)
    (we_runs w).
Definition we_add_panic (w : workerEntry) : workerEntry :=
  mkEntry (we_spec w) (we_state w) (we_restarts w) (we_restartCount w) (we_panics w + 1) (we_lastError w) (we_go w)
    (we_history w) (we_runs w).
Definition we_add_run (w : workerEntry) : workerEntry :=
  mkEntry (we_spec w) (we_state w) (we_restarts w) (we_restartCount w) (we_panics w) (we_lastError w) (we_go w)
    (we_history w) (S (we_runs w)).

Definition markRunning (w : workerEntry) : workerEntry := we_set_state WorkerStateRunning w.
Definition markStopped (w : workerEntry) : workerEntry := we_set_state WorkerStateStopped w.
Definition markFailed (e : worker_error) (w : workerEntry) : workerEntry :=
  we_set_lastError (Some e) (we_set_state WorkerStateFailed w).
Definition markDegraded (e : worker_error) (w : workerEntry) : workerEntry :=
  we_set_lastError (Some e) (we_set_state WorkerStateDegraded w).
Definition recordFailure (e : worker_error) (w : workerEntry) : workerEntry := we_set_lastError (Some e) w.

(** The sliding window: whether a restart is allowed, and the restarts in the window. *)
Definition checkAndRecordRestart (now : time) (window : duration) (maxRestarts : Z) (w : workerEntry)
    : bool * Z * workerEntry :=
  let filtered := filter (fun t => now - window < t) (we_restarts w) in
  let put l h := mkEntry (we_spec w) (we_state w) l (we_restartCount w + 1) (we_panics w) (we_lastError w) (we_go w) h (we_runs w) in
  if maxRestarts <=? Z.of_nat (length filtered) then (false, Z.of_nat (length filtered), put filtered (we_history w))
  else (true, Z.of_nat (length filtered) + 1, put (filtered ++ [now]) (we_history w ++ [now])).

(** [None] is the panic of [rand.Int63n] on a bound that is not positive; [rnd]
    is any integer, the random source. *)
Definition calculateBackoff (baseBackoff : duration) (attempt : Z) (rnd : Z) : option duration :=
  let base := if baseBackoff <=? 0 then DefaultBaseBackoff else baseBackoff in
  let shift := if 5 <? attempt then 5 else attempt in
  let backoff := wrap64 (base * 2 ^ shift) in
  let backoff := if 2 * second <? backoff then 2 * second else backoff in
  let n := wrap64 (Z.quot backoff 4 + 1) in
  if n <=? 0 then None else Some (wrap64 (backoff + rnd mod n)).

Record supervisor := mkSupervisor {
  sv_maxWorkers : Z;
  sv_baseBackoff : duration;
  sv_state : State;
  sv_workers : gmap string workerEntry;
  sv_order : list string;
  sv_ctx : option bool;        (* nil, or whether it is cancelled *)
  sv_wg : Z;
  sv_quiesced : bool;
  sv_stopOnce : bool;
  sv_stopDone : bool;
  sv_now : time;
  sv_crashed : bool
}.

Definition sv_set_state (s : State) (v : supervisor) : supervisor :=
  mkSupervisor (sv_maxWorkers v) (sv_baseBackoff v) s (sv_workers v) (sv_order v) (sv_ctx v) (sv_wg v) (sv_quiesced v)
    (sv_stopOnce v) (sv_stopDone v) (sv_now v) (sv_crashed v).
Definition sv_set_workers (m : gmap string workerEntry) (v : supervisor) : supervisor :=
  mkSupervisor (sv_maxWorkers v) (sv_baseBackoff v) (sv_state v) m (sv_order v) (sv_ctx v) (sv_wg v) (sv_quiesced v)
    (sv_stopOnce v) (sv_stopDone v) (sv_now v) (sv_crashed v).
Definition sv_set_order (l : list string) (v : supervisor) : supervisor :=
  mkSupervisor (sv_maxWorkers v) (sv_baseBackoff v) (sv_state v) (sv_workers v) l (sv_ctx v) (sv_wg v) (sv_quiesced v)
    (sv_stopOnce v) (sv_stopDone v) (sv_now v) (sv_crashed v).
Definition sv_set_ctx (c : option bool) (v : supervisor) : supervisor :=
  mkSupervisor (sv_maxWorkers v) (sv_baseBackoff v) (sv_state v) (sv_workers v) (sv_order v) c (sv_wg v) (sv_quiesced v)
    (sv_stopOnce v) (sv_stopDone v) (sv_now v) (sv_crashed v).
Definition sv_set_wg (n : Z) (v : supervisor) : supervisor :=
  mkSupervisor (sv_maxWorkers v) (sv_baseBackoff v) (sv_state v) (sv_workers v) (sv_order v) (sv_ctx v) n (sv_quiesced v)
    (sv_stopOnce v) (sv_stopDone v) (sv_now v) (sv_crashed v).
Definition sv_set_stop (quiesced once done : bool) (v : supervisor) : supervisor :=
  mkSupervisor (sv_maxWorkers v) (sv_baseBackoff v) (sv_state v) (sv_workers v) (sv_order v) (sv_ctx v) (sv_wg v) quiesced
    once done (sv_now v) (sv_crashed v).
Definition sv_crash (v : supervisor) : supervisor :=
  mkSupervisor (sv_maxWorkers v) (sv_baseBackoff v) (sv_state v) (sv_workers v) (sv_order v) (sv_ctx v) (sv_wg v) (sv_quiesced v)
    (sv_stopOnce v) (sv_stopDone v) (sv_now v) true.

(** [NewSupervisor] with the options [WithMaxWorkers] and [WithBaseBackoff]. *)
Definition NewSupervisor (maxWorkers : Z) (baseBackoff : duration) (now : time) : supervisor :=
  mkSupervisor (if 0 <? maxWorkers then maxWorkers else DefaultMaxWorkers)
    (if 0 <? baseBackoff then baseBackoff else DefaultBaseBackoff)
    StateCreated ∅ [] None 0 false false false now false.

(** ** The callers *)

Inductive supervisor_error :=
  ErrWorkerName | ErrWorkerRun | ErrStoppingOrQuiesced | ErrWorkerLimit | ErrWorkerRegistered | ErrCannotStart (s : State).

(** [wg.Add(1)] and [go s.runWorker(entry)]. *)
Definition spawn (name : string) (v : supervisor) : supervisor :=
  sv_set_workers (alter (we_set_go AtLoop) name (sv_workers v)) (sv_set_wg (sv_wg v + 1) v).

Definition Register (spec : WorkerSpec) (v : supervisor) : option supervisor_error * supervisor :=
  if decide (ws_Name spec = EmptyString) then (Some ErrWorkerName, v)
  else if negb (ws_Run spec) then (Some ErrWorkerRun, v)
  else if sv_quiesced v || bool_decide (sv_state v = StateStopping) || bool_decide (sv_state v = StateStopped)
  then (Some ErrStoppingOrQuiesced, v)
  else if sv_maxWorkers v <=? Z.of_nat (size (sv_workers v)) then (Some ErrWorkerLimit, v)
  else match sv_workers v !! ws_Name spec with
       | Some _ => (Some ErrWorkerRegistered, v)
       | None =>
           let entry := mkEntry spec WorkerStateCreated [] 0 0 None None [] 0 in
           let v := sv_set_order (sv_order v ++ [ws_Name spec])
                      (sv_set_workers (<[ws_Name spec := entry]> (sv_workers v)) v) in
           (None, if decide (sv_state v = StateRunning) then spawn (ws_Name spec) v else v)
       end.

(** [Go]. *)
Definition Go (name : string) (fn : bool) : supervisor -> option supervisor_error * supervisor :=
  Register (mkSpec name NeverRestart 0 0 fn).

(** [cancelled]: the state of the parent context. *)
Definition Start (cancelled : bool) (v : supervisor) : option supervisor_error * supervisor :=
  if decide (sv_state v <> StateCreated) then (Some (ErrCannotStart (sv_state v)), v)
  else (None, foldl (fun v name => spawn name v) (sv_set_ctx (Some cancelled) (sv_set_state StateRunning v)) (sv_order v)).

Definition Quiesce (v : supervisor) : supervisor := sv_set_stop true (sv_stopOnce v) (sv_stopDone v) v.

(** [Stop] up to its goroutine; the goroutine's end is [joined]. *)
Definition Stop (v : supervisor) : supervisor :=
  if sv_stopOnce v then v
  else
    let v := sv_set_stop true true (sv_stopDone v) (sv_set_state StateStopping v) in
    match sv_ctx v with Some _ => sv_set_ctx (Some true) v | None => v end.

Definition joined (v : supervisor) : option supervisor :=
  if sv_stopOnce v && negb (sv_stopDone v) && (sv_wg v =? 0)
  then Some (sv_set_stop (sv_quiesced v) true true (sv_set_state StateStopped v))
  else None.

(** ** [runWorker] *)

(** The goroutine returns: [defer s.wg.Done()]. *)
Definition worker_over (name : string) (w : workerEntry) (v : supervisor) : supervisor :=
  sv_set_workers (<[name := we_set_go Returned w]> (sv_workers v)) (sv_set_wg (sv_wg v - 1) v).
Definition worker_at (name : string) (g : goroutine) (w : workerEntry) (v : supervisor) : supervisor :=
  sv_set_workers (<[name := we_set_go g w]> (sv_workers v)) v.

(** The head of the loop, up to the call of [Run]. *)
Definition loop_head (name : string) (w : workerEntry) (v : supervisor) : supervisor :=
  match sv_ctx v with
  | Some false => worker_at name InRun (we_add_run (markRunning w)) v
  | _ => worker_over name (markStopped w) v
  end.

Inductive outcome := RunReturns (e : option string) | RunPanics (v : string).

(** [invokeWorker] returned: the rest of the loop, up to the backoff. *)
Definition loop_rest (name : string) (o : outcome) (rnd : Z) (w : workerEntry) (v : supervisor) : supervisor :=
  let w := match o with RunPanics _ => we_add_panic w | _ => w end in
  let err := match o with RunReturns None => None | RunReturns (Some e) => Some (RunError e) | RunPanics x => Some (RunPanic x) end in
  match sv_ctx v with
  | Some false =>
      match err with
      | None => worker_over name (markStopped w) v
      | Some err =>
          let w := recordFailure err w in
          match ws_Restart (we_spec w) with
          | NeverRestart => worker_over name (markFailed err w) v
          | RestartTransient =>
              let window := if ws_RestartWindow (we_spec w) <=? 0 then DefaultRestartWindow else ws_RestartWindow (we_spec w) in
              let maxRestarts := if ws_MaxRestarts (we_spec w) <=? 0 then DefaultMaxRestarts else ws_MaxRestarts (we_spec w) in
              let '(allowed, attemptInWindow, w) := checkAndRecordRestart (sv_now v) window maxRestarts w in
              if negb allowed then worker_over name (markDegraded (BudgetExceeded err) w) v
              else match calculateBackoff (sv_baseBackoff v) attemptInWindow rnd with
                   | None => sv_crash v    (* the process ends *)
                   | Some backoff => worker_at name (InBackoff (sv_now v + backoff)) w v
                   end
          end
      end
  | _ => worker_over name (markStopped w) v
  end.

(** ** Health *)

Definition degraded_workers (v : supervisor) : list (string * option worker_error) :=
  omap (fun name =>
    w ← sv_workers v !! name;
    match we_state w with
    | WorkerStateDegraded | WorkerStateFailed => Some (name, we_lastError w)
    | _ => None
    end) (sv_order v).

Definition Health (v : supervisor) : health_status * list (string * option worker_error) :=
  if decide (sv_state v = StateFailed) then (HealthUnhealthy, [])
  else match degraded_workers v with
       | [] => (HealthHealthy, [])
       | l => (HealthDegraded, l)
       end.

(** ** Interleavings *)

Inductive sv_event :=
  | EvRegister (spec : WorkerSpec) | EvStart (cancelled : bool) | EvQuiesce | EvStop | EvJoined
  | EvLoop (name : string) | EvReturn (name : string) (o : outcome) (rnd : Z)
  | EvTimer (name : string) | EvBackoffCancelled (name : string)
  | EvParentCancelled | EvTick (d : N).

Definition sv_step (ev : sv_event) (v : supervisor) : option supervisor :=
  if sv_crashed v then None
  else match ev with
  | EvRegister spec => Some (snd (Register spec v))
  | EvStart cancelled => Some (snd (Start cancelled v))
  | EvQuiesce => Some (Quiesce v)
  | EvStop => Some (Stop v)
  | EvJoined => joined v
  | EvLoop name =>
      match sv_workers v !! name with
      | Some w => match we_go w with Some AtLoop => Some (loop_head name w v) | _ => None end
      | None => None
      end
  | EvReturn name o rnd =>
      match sv_workers v !! name with
      | Some w => match we_go w with Some InRun => Some (loop_rest name o rnd w v) | _ => None end
      | None => None
      end
  | EvTimer name =>
      match sv_workers v !! name with
      | Some w =>
          match we_go w with
          | Some (InBackoff until) => if until <=? sv_now v then Some (worker_at name AtLoop w v) else None
          | _ => None
          end
      | None => None
      end
  | EvBackoffCancelled name =>
      match sv_workers v !! name with
      | Some w =>
          match we_go w, sv_ctx v with
          | Some (InBackoff _), Some true => Some (worker_over name (markStopped w) v)
          | _, _ => None
          end
      | None => None
      end
  | EvParentCancelled => match sv_ctx v with Some _ => Some (sv_set_ctx (Some true) v) | None => None end
  | EvTick d =>
      Some (mkSupervisor (sv_maxWorkers v) (sv_baseBackoff v) (sv_state v) (sv_workers v) (sv_order v) (sv_ctx v) (sv_wg v)
        (sv_quiesced v) (sv_stopOnce v) (sv_stopDone v) (sv_now v + Z.of_N d) (sv_crashed v))
  end.

Inductive sv_reachable (maxWorkers : Z) (baseBackoff : duration) (start : time) : supervisor -> Prop :=
  | sv_init : sv_reachable maxWorkers baseBackoff start (NewSupervisor maxWorkers baseBackoff start)
  | sv_next ev v v' : sv_reachable maxWorkers baseBackoff start v -> sv_step ev v = Some v' ->
      sv_reachable maxWorkers baseBackoff start v'.

Fixpoint sv_run (evs : list sv_event) (v : supervisor) : option supervisor :=
  match evs with [] => Some v | ev :: evs' => sv_step ev v ≫= sv_run evs' end.

(** ** One worker *)

Definition window_of (w : workerEntry) : duration :=
  if ws_RestartWindow (we_spec w) <=? 0 then DefaultRestartWindow else ws_RestartWindow (we_spec w).
Definition budget_of (w : workerEntry) : Z :=
  if ws_MaxRestarts (we_spec w) <=? 0 then DefaultMaxRestarts else ws_MaxRestarts (we_spec w).

Lemma budget_pos w : 0 < budget_of w.
Proof. unfold budget_of, DefaultMaxRestarts. destruct (Z.leb_spec (ws_MaxRestarts (we_spec w)) 0); lia. Qed.
Lemma window_pos w : 0 < window_of w.
Proof. unfold window_of, DefaultRestartWindow, second. destruct (Z.leb_spec (ws_RestartWindow (we_spec w)) 0); lia. Qed.

(** Whether its goroutine counts in the wait group, and how many runs its restarts allow. *)
Definition live (w : workerEntry) : Z := match we_go w with None | Some Returned => 0 | Some _ => 1 end.
Definition runs_ok (w : workerEntry) : Prop :=
  match we_go w with
  | None => we_runs w = 0%nat /\ we_history w = []
  | Some AtLoop | Some (InBackoff _) => we_runs w = length (we_history w)
  | Some InRun => we_runs w = S (length (we_history w))
  | Some Returned => (we_runs w <= S (length (we_history w)))%nat
  end.

(** [max] restarts apart, two restarts are a window apart. *)
Definition spaced (max window : Z) (h : list time) : Prop :=
  forall i j t u, h !! i = Some t -> h !! j = Some u -> Z.of_nat i + max <= Z.of_nat j -> t + window <= u.

Definition ascending (h : list time) : Prop := forall i j t u, h !! i = Some t -> h !! j = Some u -> (i <= j)%nat -> t <= u.

Record wk_ok (now : time) (w : workerEntry) : Prop := {
  wo_past : exists old, we_history w = old ++ we_restarts w /\ Forall (fun t => t <= now - window_of w) old;
  wo_ascending : ascending (we_history w);
  wo_now : Forall (fun t => t <= now) (we_history w);
  wo_spaced : spaced (budget_of w) (window_of w) (we_history w);
  wo_runs : runs_ok w
}.

Lemma wk_ok_later now now' w : now <= now' -> wk_ok now w -> wk_ok now' w.
Proof.
  intros Hn [(old & E & Ho) H2 H3 H4 H5]. split; try done.
  - exists old. split; [done|]. eapply Forall_impl; [exact Ho|]. simpl. lia.
  - eapply Forall_impl; [exact H3|]. simpl. lia.
Qed.

Lemma filter_all (P : time -> Prop) `{forall x, Decision (P x)} l : Forall P l -> filter P l = l.
Proof. induction 1 as [|x l Hx _ IH]; [done|]. by rewrite filter_cons_True, IH. Qed.

(** An ascending list splits at the cutoff. *)
Lemma filter_after c l : ascending l ->
  exists old, l = old ++ filter (fun t => c < t) l /\ Forall (fun t => t <= c) old.
Proof.
  induction l as [|t l IH]; intros Ha; [by exists []|].
  assert (Hal : ascending l) by (intros i j x y Hi Hj Hij; apply (Ha (S i) (S j)); [done|done|lia]).
  destruct (decide (c < t)) as [Hc|Hc].
  - exists []. split; [|done]. cbn [app]. rewrite filter_cons_True by done. f_equal. symmetry.
    apply filter_all, Forall_forall. intros x (i & Hi)%list_elem_of_lookup. specialize (Ha 0%nat (S i) t x eq_refl Hi ltac:(lia)). lia.
  - destruct (IH Hal) as (old & E & Ho). exists (t :: old). rewrite filter_cons_False by done. cbn [app].
    split; [by rewrite <- E|]. constructor; [lia|done].
Qed.

Lemma lookup_snoc_cases (h : list time) now i t : (h ++ [now]) !! i = Some t ->
  h !! i = Some t \/ i = length h /\ t = now.
Proof.
  intros H. apply lookup_app_Some in H as [H|[Hl H]]; [by left|]. right.
  apply list_lookup_singleton_Some in H as [Hi ->]. split; [lia|done].
Qed.

Lemma ascending_snoc h now : ascending h -> Forall (fun t => t <= now) h -> ascending (h ++ [now]).
Proof.
  intros Ha Hn i j t u Hi Hj Hij. rewrite Forall_forall in Hn.
  apply lookup_snoc_cases in Hi as [Hi|[-> ->]], Hj as [Hj|[-> ->]].
  - by eapply Ha.
  - by eapply Hn, list_elem_of_lookup_2.
  - apply lookup_lt_Some in Hj. lia.
  - lia.
Qed.

Lemma check_ok now w : wk_ok now w ->
  let '(allowed, attempt, w') := checkAndRecordRestart now (window_of w) (budget_of w) w in
  we_spec w' = we_spec w /\ we_go w' = we_go w /\ we_runs w' = we_runs w /\
  (exists old, we_history w' = old ++ we_restarts w' /\ Forall (fun t => t <= now - window_of w) old) /\
  ascending (we_history w') /\ Forall (fun t => t <= now) (we_history w') /\
  spaced (budget_of w) (window_of w) (we_history w') /\
  (if allowed then length (we_history w') = S (length (we_history w)) /\ 1 <= attempt <= budget_of w
   else we_history w' = we_history w).
Proof.
  intros [(old & E & Ho) H2 H3 H4 H5]. unfold checkAndRecordRestart. set (c := now - window_of w) in *.
  assert (Har : ascending (we_restarts w)).
  { intros i j t u Hi Hj Hij. apply (H2 (length old + i)%nat (length old + j)%nat); rewrite ?E, ?lookup_app_r by lia;
      [by replace (length old + i - length old)%nat with i by lia|by replace (length old + j - length old)%nat with j by lia|lia]. }
  destruct (filter_after c _ Har) as (old2 & E2 & Ho2). set (fl := filter _ (we_restarts w)) in *.
  assert (Eh : we_history w = (old ++ old2) ++ fl) by by rewrite E, E2, app_assoc.
  assert (Hold : Forall (fun t => t <= c) (old ++ old2)) by by apply Forall_app.
  destruct (Z.leb_spec (budget_of w) (Z.of_nat (length fl))) as [Hb|Hb]; cbn.
  - split_and_all; try done. by exists (old ++ old2).
  - split_and_all; try done; try lia.
    + exists (old ++ old2). split; [by rewrite Eh, !app_assoc|done].
    + by apply ascending_snoc.
    + apply Forall_app. split; [done|]. constructor; [lia|done].
    + intros i j t u Hi Hj Hij.
      apply lookup_snoc_cases in Hi as [Hi|[-> ->]], Hj as [Hj|[-> ->]].
      * by eapply H4.
      * rewrite Eh, length_app in Hij. rewrite Eh in Hi. rewrite lookup_app_l in Hi by lia.
        rewrite Forall_forall in Hold. specialize (Hold t (list_elem_of_lookup_2 _ _ _ Hi)). unfold c in Hold. lia.
      * apply lookup_lt_Some in Hj. pose proof (budget_pos w). lia.
      * pose proof (budget_pos w). lia.
    + rewrite length_app. simpl. lia.
Qed.

(** ** The supervisor *)

Definition idle (v : supervisor) : Prop := forall n w, sv_workers v !! n = Some w -> we_go w = None.

Record sv_ok (v : supervisor) : Prop := {
  vo_wg : sv_wg v = msum live (sv_workers v);
  vo_workers : forall n w, sv_workers v !! n = Some w -> wk_ok (sv_now v) w;
  vo_order : NoDup (sv_order v) /\ forall n, n ∈ sv_order v <-> is_Some (sv_workers v !! n);
  vo_state :
    match sv_state v with
    | StateCreated => sv_ctx v = None /\ idle v /\ sv_stopOnce v = false
    | StateRunning => is_Some (sv_ctx v) /\ sv_stopOnce v = false
    | StateStopping => (sv_ctx v = None /\ idle v \/ sv_ctx v = Some true) /\ sv_quiesced v = true /\ sv_stopOnce v = true
    | StateStopped => sv_wg v = 0 /\ sv_quiesced v = true /\ sv_stopOnce v = true
    | _ => False
    end;
  vo_done : sv_stopDone v = true <-> sv_state v = StateStopped
}.

Lemma live_range w : 0 <= live w <= 1.
Proof. unfold live. destruct (we_go w) as [[]|]; lia. Qed.

Lemma wg_zero v n w : sv_ok v -> sv_wg v = 0 -> sv_workers v !! n = Some w -> live w = 0.
Proof.
  intros H Hz Hw. rewrite (vo_wg v H) in Hz. pose proof (live_range w).
  assert (live w <= msum live (sv_workers v)) by (eapply msum_lookup_le; [intros; apply live_range|done]). lia.
Qed.

(** A worker that moves: the wait group keeps its sum, the rest is as before. *)
Lemma sv_put_ok n w w' v g : sv_ok v -> sv_workers v !! n = Some w -> wk_ok (sv_now v) w' ->
  we_go w <> None -> sv_state v <> StateStopped -> g = live w' - live w ->
  sv_ok (sv_set_workers (<[n := w']> (sv_workers v)) (sv_set_wg (sv_wg v + g) v)).
Proof.
  intros [H1 H2 H3 H4 H5] Hw Hw' Hgo Hs ->. split; simpl; try done.
  - rewrite (msum_insert _ _ _ _ _ Hw), H1. lia.
  - intros m x. destruct (decide (n = m)) as [->|Hn]; [rewrite lookup_insert_eq; by intros [= <-]|].
    rewrite lookup_insert_ne by done. apply H2.
  - split; [apply H3|]. intros m. rewrite (proj2 H3 m). destruct (decide (n = m)) as [->|Hn].
    + rewrite lookup_insert_eq, Hw. split; by eexists.
    + by rewrite lookup_insert_ne.
  - destruct (sv_state v); try done.
    + destruct H4 as (_ & Hi & _). by destruct (Hgo (Hi n w Hw)).
    + destruct H4 as ([[_ Hi]|Hc] & ? & ?); [by destruct (Hgo (Hi n w Hw))|]. by split_and_all; [right|..].
Qed.

Lemma over_ok n w w' v : sv_ok v -> sv_workers v !! n = Some w -> live w = 1 -> sv_state v <> StateStopped ->
  wk_ok (sv_now v) (we_set_go Returned w') -> sv_ok (worker_over n w' v).
Proof.
  intros H Hw Hl Hs Hk. unfold worker_over. replace (sv_wg v - 1) with (sv_wg v + -1) by lia.
  eapply sv_put_ok; try done; [intros E; unfold live in Hl; by rewrite E in Hl|]. rewrite Hl. done.
Qed.

Lemma at_ok n w g w' v : sv_ok v -> sv_workers v !! n = Some w -> live w = 1 -> sv_state v <> StateStopped ->
  g <> Returned -> wk_ok (sv_now v) (we_set_go g w') -> sv_ok (worker_at n g w' v).
Proof.
  intros H Hw Hl Hs Hg Hk. unfold worker_at.
  replace (sv_set_workers (<[n := we_set_go g w']> (sv_workers v)) v) with
    (sv_set_workers (<[n := we_set_go g w']> (sv_workers v)) (sv_set_wg (sv_wg v + 0) v))
    by (unfold sv_set_workers, sv_set_wg; simpl; by rewrite Z.add_0_r).
  eapply sv_put_ok; try done; [intros E; unfold live in Hl; by rewrite E in Hl|]. rewrite Hl.
  unfold live. simpl. by destruct g.
Qed.

(** Changing what the theorems do not look at keeps a worker well-formed. *)
Lemma wk_ok_same now w w' : wk_ok now w -> we_spec w' = we_spec w -> we_restarts w' = we_restarts w ->
  we_history w' = we_history w -> runs_ok w' -> wk_ok now w'.
Proof.
  intros [H1 H2 H3 H4 H5] E1 E2 E3 Hr. unfold window_of, budget_of in *.
  split; unfold window_of, budget_of; rewrite ?E1, ?E2, ?E3; done.
Qed.

Lemma running_not_stopped v n w : sv_ok v -> sv_workers v !! n = Some w -> live w = 1 -> sv_state v <> StateStopped.
Proof.
  intros H Hw Hl Hs. pose proof (vo_state v H) as Hv. rewrite Hs in Hv. destruct Hv as [Hz _].
  rewrite (wg_zero v n w H Hz Hw) in Hl. done.
Qed.

Lemma loop_head_ok n w v : sv_ok v -> sv_workers v !! n = Some w -> we_go w = Some AtLoop -> sv_ok (loop_head n w v).
Proof.
  intros H Hw Hg. assert (Hl : live w = 1) by (unfold live; by rewrite Hg).
  pose proof (running_not_stopped v n w H Hw Hl) as Hs. pose proof (vo_workers v H n w Hw) as Hk.
  pose proof (wo_runs _ _ Hk) as Hr. unfold runs_ok in Hr. rewrite Hg in Hr.
  unfold loop_head. destruct (sv_ctx v) as [[]|].
  - eapply over_ok; try done. apply (wk_ok_same _ w); try done. unfold runs_ok. simpl. lia.
  - eapply at_ok; try done. apply (wk_ok_same _ w); try done. unfold runs_ok. simpl. lia.
  - eapply over_ok; try done. apply (wk_ok_same _ w); try done. unfold runs_ok. simpl. lia.
Qed.

Lemma crash_ok v : sv_ok v -> sv_ok (sv_crash v).
Proof. intros []. by split. Qed.

Lemma loop_rest_ok n o rnd w v : sv_ok v -> sv_workers v !! n = Some w -> we_go w = Some InRun ->
  sv_ok (loop_rest n o rnd w v).
Proof.
  intros H Hw Hg. assert (Hl : live w = 1) by (unfold live; by rewrite Hg).
  pose proof (running_not_stopped v n w H Hw Hl) as Hs. pose proof (vo_workers v H n w Hw) as Hk.
  pose proof (wo_runs _ _ Hk) as Hr. unfold runs_ok in Hr. rewrite Hg in Hr.
  unfold loop_rest. set (w1 := match o with RunPanics _ => we_add_panic w | _ => w end).
  assert (E1 : we_spec w1 = we_spec w) by by destruct o.
  assert (E2 : we_restarts w1 = we_restarts w) by by destruct o.
  assert (E3 : we_history w1 = we_history w) by by destruct o.
  assert (E4 : we_runs w1 = we_runs w) by by destruct o.
  assert (E5 : we_go w1 = we_go w) by by destruct o.
  assert (Hover : forall f, (forall x, we_spec (f x) = we_spec x /\ we_restarts (f x) = we_restarts x /\
    we_history (f x) = we_history x /\ we_runs (f x) = we_runs x) -> sv_ok (worker_over n (f w1) v)).
  { intros f Hf. destruct (Hf w1) as (F1 & F2 & F3 & F4). eapply over_ok; try done.
    apply (wk_ok_same _ w); simpl; try congruence. unfold runs_ok. simpl. rewrite F4, F3, E4, E3. lia. }
  destruct (sv_ctx v) as [[]|]; try by apply (Hover markStopped).
  destruct (match o with RunReturns None => None | _ => _ end) as [err|]; [|by apply (Hover markStopped)].
  set (w2 := recordFailure err w1).
  change (ws_Restart (we_spec w2)) with (ws_Restart (we_spec w1)). destruct (ws_Restart (we_spec w1)).
  { by apply (Hover (fun x => markFailed err (recordFailure err x))). }
  assert (Hk2 : wk_ok (sv_now v) w2).
  { apply (wk_ok_same _ w); try done. unfold runs_ok. simpl. by rewrite E5, Hg, E4, E3. }
  pose proof (check_ok _ _ Hk2) as Hc. fold (window_of w2) (budget_of w2).
  destruct (checkAndRecordRestart _ _ _ _) as [[allowed attempt] w3].
  destruct Hc as (C1 & C2 & C3 & C4 & C5 & C6 & C7 & C8).
  assert (Hk3 : forall g w4, we_spec w4 = we_spec w3 -> we_restarts w4 = we_restarts w3 -> we_history w4 = we_history w3 ->
    runs_ok (we_set_go g w4) -> wk_ok (sv_now v) (we_set_go g w4)).
  { intros g w4 F1 F2 F3 F4. split; simpl; try done; unfold window_of, budget_of; simpl; rewrite ?F1, ?F2, ?F3, ?C1; done. }
  assert (Hr3 : we_runs w3 = S (length (we_history w))) by (rewrite C3; simpl; congruence).
  assert (E3' : we_history w2 = we_history w) by done.
  destruct allowed; cbn [negb].
  - destruct C8 as [Hlen _]. destruct (calculateBackoff _ _ _) as [backoff|].
    + eapply at_ok; try done. apply Hk3; try done. unfold runs_ok. simpl. rewrite Hlen, E3'. done.
    + by apply crash_ok.
  - eapply over_ok; try done. apply (Hk3 Returned (markDegraded _ w3)); try done. unfold runs_ok. simpl. rewrite C8, Hr3, E3'. lia.
Qed.

Lemma alter_lookup {A} n (f : A -> A) (m : gmap string A) w : m !! n = Some w -> alter f n m = <[n := f w]> m.
Proof.
  intros Hw. apply map_eq. intros k. destruct (decide (n = k)) as [->|Hn].
  - by rewrite lookup_alter_eq, lookup_insert_eq, Hw.
  - by rewrite lookup_alter_ne, lookup_insert_ne.
Qed.

Lemma spawn_ok n w v : sv_workers v !! n = Some w -> we_go w = None -> wk_ok (sv_now v) w ->
  sv_wg v = msum live (sv_workers v) ->
  sv_wg (spawn n v) = msum live (sv_workers (spawn n v)) /\
  sv_workers (spawn n v) = <[n := we_set_go AtLoop w]> (sv_workers v) /\ wk_ok (sv_now v) (we_set_go AtLoop w).
Proof.
  intros Hw Hg Hk Hwg. unfold spawn. simpl. rewrite (alter_lookup n (we_set_go AtLoop) _ w Hw). split_and_all; [|done|].
  - rewrite (msum_insert _ _ _ _ _ Hw), Hwg. unfold live at 3. unfold live. rewrite Hg. simpl. lia.
  - apply (wk_ok_same _ w); try done. pose proof (wo_runs _ _ Hk) as Hr. unfold runs_ok in *. rewrite Hg in Hr. simpl.
    by destruct Hr as [-> ->].
Qed.

(** [Start] launches every registered worker. *)
Lemma spawn_all_ok l : forall v, NoDup l ->
  (forall n, n ∈ l -> exists w, sv_workers v !! n = Some w /\ we_go w = None) ->
  (forall n w, sv_workers v !! n = Some w -> wk_ok (sv_now v) w) -> sv_wg v = msum live (sv_workers v) ->
  let v' := foldl (fun v name => spawn name v) v l in
  sv_wg v' = msum live (sv_workers v') /\ (forall n w, sv_workers v' !! n = Some w -> wk_ok (sv_now v) w) /\
  (forall n, is_Some (sv_workers v' !! n) <-> is_Some (sv_workers v !! n)) /\
  sv_state v' = sv_state v /\ sv_ctx v' = sv_ctx v /\ sv_now v' = sv_now v /\ sv_order v' = sv_order v /\
  sv_stopOnce v' = sv_stopOnce v /\ sv_stopDone v' = sv_stopDone v /\ sv_quiesced v' = sv_quiesced v.
Proof.
  induction l as [|n l IH]; intros v Hnd Hl Hk Hwg; cbn [foldl]; [by split_and_all|].
  apply NoDup_cons in Hnd as [Hn Hnd]. destruct (Hl n) as (w & Hw & Hg); [by left|].
  destruct (spawn_ok n w v Hw Hg (Hk n w Hw) Hwg) as (S1 & S2 & S3).
  destruct (IH (spawn n v) Hnd) as (K1 & K2 & K3 & K4); try done.
  - intros m Hm. destruct (Hl m) as (x & Hx & Hxg); [by right|]. exists x. split; [|done].
    rewrite S2, lookup_insert_ne by (intros ->; done). done.
  - intros m x. rewrite S2. destruct (decide (n = m)) as [->|Hnm]; [rewrite lookup_insert_eq; by intros [= <-]|].
    rewrite lookup_insert_ne by done. apply Hk.
  - split_and_all; try done; try apply K4. intros m. rewrite K3, S2. destruct (decide (n = m)) as [->|Hnm].
    + rewrite lookup_insert_eq, Hw. split; by eexists.
    + by rewrite lookup_insert_ne.
Qed.

Lemma Start_ok cancelled v : sv_ok v -> sv_ok (snd (Start cancelled v)).
Proof.
  intros H. unfold Start. case_decide as Hs; [done|]. cbn [snd].
  pose proof H as [H1 H2 H3 H4 H5]. rewrite Hs in H4. destruct H4 as (Hc & Hi & Ho).
  set (v0 := sv_set_ctx _ _). destruct (spawn_all_ok (sv_order v) v0) as (K1 & K2 & K3 & K4 & K5 & K6 & K7 & K8 & K9 & _); try done.
  - apply H3.
  - intros n Hn. apply H3 in Hn as [w Hw]. exists w. split; [done|by apply (Hi n)].
  - split; try done.
    + by rewrite K6.
    + rewrite K7. split; [apply H3|]. intros n. rewrite K3. apply H3.
    + rewrite K4, K5, K8. split; [by eexists|done].
    + rewrite K4, K9. change (sv_stopDone v0) with (sv_stopDone v). rewrite H5, Hs. done.
Qed.

Lemma Register_ok spec v : sv_ok v -> sv_ok (snd (Register spec v)).
Proof.
  intros H. unfold Register. case_decide as Hne; [done|]. destruct (negb _); [done|].
  destruct (sv_quiesced v) eqn:Hq; [done|]. cbn [orb].
  destruct (bool_decide (sv_state v = StateStopping)) eqn:E1; [done|]. destruct (bool_decide (sv_state v = StateStopped)) eqn:E2; [done|].
  cbn [orb]. apply bool_decide_eq_false in E1, E2. destruct (_ <=? _); [done|].
  destruct (sv_workers v !! ws_Name spec) eqn:Hn; [done|]. cbn [snd].
  set (n := ws_Name spec) in *. set (w := mkEntry spec _ _ _ _ _ _ _ _).
  set (v0 := sv_set_order _ _). pose proof H as [H1 H2 H3 H4 H5].
  assert (Hwk : wk_ok (sv_now v) w).
  { split; simpl; try done. by exists []. }
  assert (H0 : sv_ok v0).
  { split; simpl; try done.
    - rewrite msum_insert_fresh by done. by rewrite H1.
    - intros m x. destruct (decide (n = m)) as [->|Hm]; [rewrite lookup_insert_eq; by intros [= <-]|].
      rewrite lookup_insert_ne by done. apply H2.
    - split.
      + apply NoDup_app. split_and_all; [apply H3| |apply NoDup_singleton].
        intros m Hm ->%list_elem_of_singleton. apply H3 in Hm as [x Hx]. congruence.
      + intros m. rewrite elem_of_app, list_elem_of_singleton, (proj2 H3 m).
        destruct (decide (n = m)) as [->|Hm]; [rewrite lookup_insert_eq; split; [by eexists|by right]|].
        rewrite lookup_insert_ne by done. split; [intros [?|?]; congruence|by left].
    - destruct (sv_state v); try done. destruct H4 as (? & Hi & ?). split_and_all; try done.
      intros m x. simpl. destruct (decide (n = m)) as [->|Hm]; [rewrite lookup_insert_eq; by intros [= <-]|].
      rewrite lookup_insert_ne by done. apply Hi. }
  case_decide as Hr; [|done].
  assert (Hw0 : sv_workers v0 !! n = Some w) by (simpl; by rewrite lookup_insert_eq).
  pose proof H0 as [G1 G2 G3 G4 G5].
  destruct (spawn_ok n w v0 Hw0 eq_refl Hwk G1) as (S1 & S2 & S3).
  split; try done.
  - intros m x. rewrite S2. destruct (decide (n = m)) as [->|Hm]; [rewrite lookup_insert_eq; by intros [= <-]|].
    rewrite lookup_insert_ne by done. apply G2.
  - change (sv_order (spawn n v0)) with (sv_order v0). split; [apply G3|]. intros m. rewrite (proj2 G3 m), S2.
    destruct (decide (n = m)) as [->|Hm]; [rewrite lookup_insert_eq, Hw0; split; by eexists|by rewrite lookup_insert_ne].
  - change (sv_state (spawn n v0)) with (sv_state v0). rewrite Hr in G4 |- *. exact G4.
Qed.

Lemma Stop_ok v : sv_ok v -> sv_ok (Stop v).
Proof.
  intros H. pose proof H as [H1 H2 H3 H4 H5]. unfold Stop. destruct (sv_stopOnce v) eqn:Ho; [done|].
  assert (Hd : sv_stopDone v = false).
  { destruct (sv_stopDone v) eqn:Hd; [|done]. rewrite (proj1 H5 eq_refl) in H4. destruct H4 as (_ & _ & Hx). congruence. }
  set (v0 := sv_set_stop _ _ _ _). change (sv_ctx v0) with (sv_ctx v).
  assert (Hctx : sv_ctx v = None -> idle v -> sv_ok v0).
  { intros Hc Hi. split; simpl; try done; [by split; [left|]|]. rewrite Hd. split; done. }
  destruct (sv_ctx v) as [b|] eqn:Hc.
  - split; simpl; try done; [by split; [right|]|]. rewrite Hd. split; done.
  - apply Hctx; [done|]. destruct (sv_state v) eqn:Hs; try done; [by destruct H4 as (_ & ? & _)|by destruct H4 as [[] _]| |];
      destruct H4 as (_ & _ & ?); congruence.
Qed.

Lemma sv_step_ok ev v v' : sv_ok v -> sv_step ev v = Some v' -> sv_ok v'.
Proof.
  intros H. unfold sv_step. destruct (sv_crashed v); [done|]. destruct ev as [spec|c| | | |n|n o rnd|n|n| |d].
  - intros [= <-]. by apply Register_ok.
  - intros [= <-]. by apply Start_ok.
  - intros [= <-]. destruct H as [H1 H2 H3 H4 H5]. split; simpl; try done. destruct (sv_state v); try done; naive_solver.
  - intros [= <-]. by apply Stop_ok.
  - unfold joined. destruct (sv_stopOnce v) eqn:Ho; [|done]. destruct (sv_stopDone v) eqn:Hd; [done|]. cbn.
    destruct (Z.eqb_spec (sv_wg v) 0) as [Hz|]; [|done]. intros [= <-]. destruct H as [H1 H2 H3 H4 H5].
    split; simpl; try done. split_and_all; try done.
    destruct (sv_state v); try done; first [by destruct H4 as (_ & ? & _)|
      exfalso; destruct H4 as (_ & _ & ?); congruence|exfalso; destruct H4; congruence].
  - destruct (sv_workers v !! n) as [w|] eqn:Hw; [|done]. destruct (we_go w) as [[]|] eqn:Hg; try done. intros [= <-].
    by apply loop_head_ok.
  - destruct (sv_workers v !! n) as [w|] eqn:Hw; [|done]. destruct (we_go w) as [[]|] eqn:Hg; try done. intros [= <-].
    by apply loop_rest_ok.
  - destruct (sv_workers v !! n) as [w|] eqn:Hw; [|done]. destruct (we_go w) as [[| |until|]|] eqn:Hg; try done.
    destruct (until <=? sv_now v); [|done]. intros [= <-].
    assert (Hl : live w = 1) by (unfold live; by rewrite Hg). pose proof (vo_workers v H n w Hw) as Hk.
    eapply at_ok; try done; [by eapply running_not_stopped|]. apply (wk_ok_same _ w); try done.
    pose proof (wo_runs _ _ Hk) as Hr. unfold runs_ok in *. by rewrite Hg in Hr.
  - destruct (sv_workers v !! n) as [w|] eqn:Hw; [|done]. destruct (we_go w) as [[| |until|]|] eqn:Hg; try done.
    destruct (sv_ctx v) as [[]|]; try done. intros [= <-].
    assert (Hl : live w = 1) by (unfold live; by rewrite Hg). pose proof (vo_workers v H n w Hw) as Hk.
    eapply over_ok; try done; [by eapply running_not_stopped|]. apply (wk_ok_same _ w); try done.
    pose proof (wo_runs _ _ Hk) as Hr. unfold runs_ok in *. rewrite Hg in Hr. simpl. lia.
  - destruct (sv_ctx v) as [b|] eqn:Hc; [|done]. intros [= <-]. destruct H as [H1 H2 H3 H4 H5]. split; simpl; try done.
    destruct (sv_state v); try done; rewrite Hc in H4; naive_solver.
  - intros [= <-]. destruct H as [H1 H2 H3 H4 H5]. split; simpl; try done. intros n w Hw. eapply wk_ok_later, H2; [lia|done].
Qed.

Lemma sv_New_ok maxWorkers baseBackoff now : sv_ok (NewSupervisor maxWorkers baseBackoff now).
Proof.
  split; simpl; try done.
  - split; [constructor|]. intros n. split; [by intros ?%elem_of_nil|by intros [? ?]].
Qed.

Lemma sv_reachable_ok maxWorkers baseBackoff now v : sv_reachable maxWorkers baseBackoff now v -> sv_ok v.
Proof. induction 1 as [|ev v v' _ IH Hs]; [apply sv_New_ok|by eapply sv_step_ok]. Qed.

(** A failing worker cannot spin. Whatever its runs return and however it is
    scheduled, of its restarts any two that are [MaxRestarts] apart are at least a
    [RestartWindow] apart, so a window never holds more than [MaxRestarts] of them,
    and it runs at most once more than it was restarted. *)
Theorem restart_budget maxWorkers baseBackoff start v n w : sv_reachable maxWorkers baseBackoff start v ->
  sv_workers v !! n = Some w ->
  (we_runs w <= S (length (we_history w)))%nat /\
  forall i j t u, we_history w !! i = Some t -> we_history w !! j = Some u ->
    Z.of_nat i + budget_of w <= Z.of_nat j -> t + window_of w <= u.
Proof.
  intros Hr Hw. pose proof (vo_workers v (sv_reachable_ok _ _ _ _ Hr) n w Hw) as Hk. split; [|apply Hk].
  pose proof (wo_runs _ _ Hk) as Hx. unfold runs_ok in Hx. destruct (we_go w) as [[]|]; lia.
Qed.

(** [Stop] joins the workers: once its goroutine has closed [stopDone], no
    worker is running or about to run, and none ever runs again: every later step
    of the supervisor leaves all its workers as they are. *)
Theorem stop_joins maxWorkers baseBackoff start v : sv_reachable maxWorkers baseBackoff start v -> sv_stopDone v = true ->
  (forall n w, sv_workers v !! n = Some w -> we_go w = None \/ we_go w = Some Returned) /\
  forall ev v', sv_step ev v = Some v' -> sv_workers v' = sv_workers v /\ sv_stopDone v' = true.
Proof.
  intros Hr Hd. pose proof (sv_reachable_ok _ _ _ _ Hr) as H. pose proof (vo_state v H) as Hs.
  rewrite (proj1 (vo_done v H) Hd) in Hs. destruct Hs as (Hz & Hq & Ho).
  assert (Hover : forall n w, sv_workers v !! n = Some w -> we_go w = None \/ we_go w = Some Returned).
  { intros n w Hw. pose proof (wg_zero v n w H Hz Hw) as Hl. unfold live in Hl. destruct (we_go w) as [[]|]; auto; done. }
  split; [done|]. intros ev v'. unfold sv_step. destruct (sv_crashed v); [done|].
  destruct ev as [spec|c| | | |n|n o rnd|n|n| |d];
    try (destruct (sv_workers v !! n) as [w|] eqn:Hw; [|done]; destruct (Hover n w Hw) as [-> | ->]; done).
  - intros [= <-]. unfold Register. rewrite Hq. cbn. case_decide; [done|]. by destruct (negb _).
  - intros [= <-]. unfold Start. rewrite (proj1 (vo_done v H) Hd). done.
  - by intros [= <-].
  - intros [= <-]. unfold Stop. by rewrite Ho.
  - unfold joined. rewrite Hd, Ho. done.
  - destruct (sv_ctx v); [|done]. by intros [= <-].
  - by intros [= <-].
Qed.

(** The backoff before a restart. For every base up to 2^58 nanoseconds, about
    nine years, and every random source it is computed without overflow and
    without a panic: it doubles with the attempts in the window, is at most two
    seconds, and gets at most a quarter more. *)
Theorem calculateBackoff_bounds baseBackoff attempt rnd : 0 < baseBackoff <= 2 ^ 58 - 1 -> 1 <= attempt ->
  exists d, calculateBackoff baseBackoff attempt rnd = Some d /\
    let b := Z.min (baseBackoff * 2 ^ Z.min attempt 5) (2 * second) in b <= d <= b + b / 4.
Proof.
  intros Hb Ha. unfold calculateBackoff. destruct (Z.leb_spec baseBackoff 0) as [?|_]; [lia|].
  assert (Hs : (if 5 <? attempt then 5 else attempt) = Z.min attempt 5) by (destruct (Z.ltb_spec 5 attempt); lia).
  rewrite Hs. set (p := 2 ^ Z.min attempt 5).
  assert (Hp : 2 <= p <= 32).
  { unfold p. assert (Hm : Z.min attempt 5 = 1 \/ Z.min attempt 5 = 2 \/ Z.min attempt 5 = 3 \/ Z.min attempt 5 = 4 \/
      Z.min attempt 5 = 5) by lia. destruct Hm as [->|[->|[->|[->| ->]]]]; lia. }
  rewrite (wrap64_id (baseBackoff * p)) by (unfold min_int64, max_int64; nia).
  set (b := if _ <? _ then _ else _).
  assert (Eb : b = Z.min (baseBackoff * p) (2 * second)) by (unfold b; destruct (Z.ltb_spec (2 * second) (baseBackoff * p)); lia).
  assert (Hb2 : 0 < b <= 2000000000) by (rewrite Eb; unfold second; nia).
  rewrite Z.quot_div_nonneg by lia.
  assert (Hq : 0 <= b / 4 <= b) by (split; [apply Z.div_pos; lia|apply Z.div_le_upper_bound; lia]).
  rewrite (wrap64_id (b / 4 + 1)) by (unfold min_int64, max_int64; lia).
  destruct (Z.leb_spec (b / 4 + 1) 0); [lia|].
  pose proof (Z.mod_pos_bound rnd (b / 4 + 1) ltac:(lia)).
  rewrite wrap64_id by (unfold min_int64, max_int64; lia). eexists. split; [done|]. cbv zeta. rewrite <- Eb. lia.
Qed.

(** ** Runs *)

Lemma sv_run_reachable maxWorkers baseBackoff start evs : forall v v', sv_reachable maxWorkers baseBackoff start v ->
  sv_run evs v = Some v' -> sv_reachable maxWorkers baseBackoff start v'.
Proof.
  induction evs as [|ev evs IH]; intros v v' Hv; simpl; [by intros [= <-]|].
  destruct (sv_step ev v) as [v1|] eqn:E; [|done]. simpl. apply IH. by eapply sv_next.
Qed.

Definition poller : WorkerSpec := mkSpec "poller" RestartTransient 1 0 true.
(** It fails, is restarted, fails again and exceeds its budget of one restart; then the supervisor stops. *)
Definition poller_run : list sv_event :=
  [EvRegister poller; EvStart false; EvLoop "poller"; EvReturn "poller" (RunReturns (Some "offline")) 5;
   EvTick 60000000; EvTimer "poller"; EvLoop "poller"; EvReturn "poller" (RunPanics "nil map") 5; EvStop; EvJoined].

(** The limit counts every worker that was ever registered: a one-shot worker that
    returned keeps its place, and the next is refused although none is running. *)
Theorem finished_workers_count : exists v,
  sv_run [EvRegister (mkSpec "once" NeverRestart 0 0 true); EvStart false; EvLoop "once"; EvReturn "once" (RunReturns None) 0]
    (NewSupervisor 1 0 0) = Some v /\
  sv_wg v = 0 /\ fst (Register (mkSpec "next" NeverRestart 0 0 true) v) = Some ErrWorkerLimit.
Proof. eexists. split; [vm_compute; reflexivity|]. by vm_compute. Qed.

Lemma poller_reachable : exists v w, sv_run poller_run (NewSupervisor 4 0 0) = Some v /\
  sv_reachable 4 0 0 v /\ sv_workers v !! "poller" = Some w /\ sv_stopDone v = true /\
  we_state w = WorkerStateDegraded /\ we_runs w = 2%nat.
Proof.
  destruct (sv_run poller_run (NewSupervisor 4 0 0)) as [v|] eqn:E; [|by vm_compute in E].
  assert (Hr : sv_reachable 4 0 0 v) by (eapply sv_run_reachable; [apply sv_init|exact E]).
  vm_compute in E. injection E as <-. do 2 eexists. split_and_all; [reflexivity|exact Hr|vm_compute; reflexivity..].
Qed.

Lemma restart_budget_witness : exists v w, sv_run poller_run (NewSupervisor 4 0 0) = Some v /\ we_runs w = 2%nat /\
  (we_runs w <= S (length (we_history w)))%nat /\
  forall i j t u, we_history w !! i = Some t -> we_history w !! j = Some u ->
    Z.of_nat i + budget_of w <= Z.of_nat j -> t + window_of w <= u.
Proof.
  destruct poller_reachable as (v & w & E & Hr & Hw & _ & _ & Hn). exists v, w. split; [exact E|]. split; [exact Hn|].
  exact (restart_budget 4 0 0 v "poller" w Hr Hw).
Defined.

Lemma stop_joins_witness : exists v, sv_run poller_run (NewSupervisor 4 0 0) = Some v /\
  (forall n w, sv_workers v !! n = Some w -> we_go w = None \/ we_go w = Some Returned) /\
  forall ev v', sv_step ev v = Some v' -> sv_workers v' = sv_workers v /\ sv_stopDone v' = true.
Proof.
  destruct poller_reachable as (v & w & E & Hr & _ & Hd & _). exists v. split; [exact E|].
  exact (stop_joins 4 0 0 v Hr Hd).
Defined.

Lemma calculateBackoff_bounds_witness : exists d, calculateBackoff DefaultBaseBackoff 3 12345 = Some d /\
  let b := Z.min (DefaultBaseBackoff * 2 ^ Z.min 3 5) (2 * second) in b <= d <= b + b / 4.
Proof. apply (calculateBackoff_bounds DefaultBaseBackoff 3 12345); vm_compute; [split; [reflexivity|discriminate]|discriminate]. Defined.
