(* ===== verification/CallbackExecutor.v ===== *)
(** * The executor of lifecycle callbacks

    Models [internal/runtime/callback_executor.go]: a channel of [capacity] slots
    bounds the callbacks that run, and atomic counters describe it. [ex_step]
    interleaves the accesses to the channel and the counters one by one, so the
    compare-and-swap loop of [updatePeak] is a loop of steps. *)

From S2P Require Import Prelude.

(** A callback's error: its own, a panic of its own, and a panic of the completion hook joined to it. *)
Inductive callback_error := CbError (e : string) | CbPanic (v : string) | CbJoined (e : option callback_error) (hook : callback_error).

Inductive admission_error := ErrNilCallback | ErrContextDone.

(** Where a call of [StartWithCompletion] and then its goroutine stand. *)
Inductive ex_pc :=
  | Selecting                       (* before the select *)
  | HasSlot                         (* before [active.Add(1)] *)
  | PeakLoad (active : Z)           (* in [updatePeak], before the load *)
  | PeakSwap (active peak : Z)      (* before the compare-and-swap *)
  | Running                         (* the goroutine runs [fn] *)
  | Completing (err : option callback_error)    (* before the completion hook *)
  | Leaving (err : option callback_error)       (* before [active.Add(-1)] *)
  | Freeing (err : option callback_error)       (* before [<-e.slots] *)
  | Done (err : option callback_error)          (* the result is in the channel *)
  | Refused (e : admission_error).

(** [ex_highest]: the highest value [active] ever had, for the statements. *)
Record executor := mkExecutor {
  ex_capacity : Z; ex_slots : Z; ex_active : Z; ex_peak : Z; ex_saturated : Z;
  ex_calls : gmap nat (ex_pc * bool);     (* with whether there is a completion hook *)
  ex_highest : Z
}.

Definition DefaultLifecycleCallbackConcurrency : Z := 8.
Definition NewCallbackExecutor (concurrency : Z) : executor :=
  mkExecutor (if concurrency <=? 0 then DefaultLifecycleCallbackConcurrency else concurrency) 0 0 0 0 ∅ 0.

Definition ex_put (i : nat) (pc : ex_pc) (hook : bool) (x : executor) : executor :=
  mkExecutor (ex_capacity x) (ex_slots x) (ex_active x) (ex_peak x) (ex_saturated x) (<[i := (pc, hook)]> (ex_calls x)) (ex_highest x).
Definition ex_set_slots (n : Z) (x : executor) : executor :=
  mkExecutor (ex_capacity x) n (ex_active x) (ex_peak x) (ex_saturated x) (ex_calls x) (ex_highest x).
Definition ex_set_active (n : Z) (x : executor) : executor :=
  mkExecutor (ex_capacity x) (ex_slots x) n (ex_peak x) (ex_saturated x) (ex_calls x) (Z.max (ex_highest x) n).
Definition ex_set_peak (n : Z) (x : executor) : executor :=
  mkExecutor (ex_capacity x) (ex_slots x) (ex_active x) n (ex_saturated x) (ex_calls x) (ex_highest x).
Definition ex_add_saturated (x : executor) : executor :=
  mkExecutor (ex_capacity x) (ex_slots x) (ex_active x) (ex_peak x) (ex_saturated x + 1) (ex_calls x) (ex_highest x).

Inductive fn_outcome := FnReturns (e : option string) | FnPanics (v : string).
Definition normalize (o : fn_outcome) : option callback_error :=
  match o with FnReturns e => CbError <$> e | FnPanics v => Some (CbPanic v) end.

Inductive ex_event :=
  | EvCall (i : nat) (nil_fn ctx_done hook : bool)
  | EvSlot (i : nat)               (* the send on [slots] *)
  | EvCtxDone (i : nat)
  | EvActive (i : nat)
  | EvLoad (i : nat)
  | EvSwap (i : nat)
  | EvReturn (i : nat) (o : fn_outcome)
  | EvHook (i : nat) (panic : option string)
  | EvInactive (i : nat)
  | EvFree (i : nat).

Definition ex_step (ev : ex_event) (x : executor) : option executor :=
  match ev with
  | EvCall i nil_fn ctx_done hook =>
      match ex_calls x !! i with
      | Some _ => None
      | None => Some (ex_put i (if nil_fn then Refused ErrNilCallback else if ctx_done then Refused ErrContextDone else Selecting) hook x)
      end
  | EvSlot i =>
      match ex_calls x !! i with
      | Some (Selecting, hook) =>
          if ex_slots x <? ex_capacity x then Some (ex_put i HasSlot hook (ex_set_slots (ex_slots x + 1) x)) else None
      | _ => None
      end
  | EvCtxDone i =>
      match ex_calls x !! i with
      | Some (Selecting, hook) => Some (ex_put i (Refused ErrContextDone) hook (ex_add_saturated x))
      | _ => None
      end
  | EvActive i =>
      match ex_calls x !! i with
      | Some (HasSlot, hook) =>
          let active := (ex_active x + 1)%Z in Some (ex_put i (PeakLoad active) hook (ex_set_active active x))
      | _ => None
      end
  | EvLoad i =>
      match ex_calls x !! i with
      | Some (PeakLoad active, hook) =>
          Some (ex_put i (if active <=? ex_peak x then Running else PeakSwap active (ex_peak x)) hook x)
      | _ => None
      end
  | EvSwap i =>
      match ex_calls x !! i with
      | Some (PeakSwap active peak, hook) =>
          Some (if ex_peak x =? peak then ex_put i Running hook (ex_set_peak active x) else ex_put i (PeakLoad active) hook x)
      | _ => None
      end
  | EvReturn i o =>
      match ex_calls x !! i with
      | Some (Running, hook) => Some (ex_put i (if (hook : bool) then Completing (normalize o) else Leaving (normalize o)) hook x)
      | _ => None
      end
  | EvHook i panic =>
      match ex_calls x !! i with
      | Some (Completing err, hook) =>
          Some (ex_put i (Leaving (match panic with Some v => Some (CbJoined err (CbPanic v)) | None => err end)) hook x)
      | _ => None
      end
  | EvInactive i =>
      match ex_calls x !! i with
      | Some (Leaving err, hook) => Some (ex_put i (Freeing err) hook (ex_set_active (ex_active x - 1) x))
      | _ => None
      end
  | EvFree i =>
      match ex_calls x !! i with
      | Some (Freeing err, hook) => Some (ex_put i (Done err) hook (ex_set_slots (ex_slots x - 1) x))
      | _ => None
      end
  end.

Inductive ex_reachable (concurrency : Z) : executor -> Prop :=
  | ex_init : ex_reachable concurrency (NewCallbackExecutor concurrency)
  | ex_next ev x x' : ex_reachable concurrency x -> ex_step ev x = Some x' -> ex_reachable concurrency x'.

Fixpoint ex_run (evs : list ex_event) (x : executor) : option executor :=
  match evs with [] => Some x | ev :: evs' => ex_step ev x ≫= ex_run evs' end.

(** ** Invariant *)

Definition holds_slot (c : ex_pc * bool) : Z :=
  match c.1 with HasSlot | PeakLoad _ | PeakSwap _ _ | Running | Completing _ | Leaving _ | Freeing _ => 1 | _ => 0 end.
Definition counted (c : ex_pc * bool) : Z :=
  match c.1 with PeakLoad _ | PeakSwap _ _ | Running | Completing _ | Leaving _ => 1 | _ => 0 end.
Definition runs_callback (c : ex_pc * bool) : Z := match c.1 with Running | Completing _ => 1 | _ => 0 end.
(** What a caller still has to bring to the peak. *)
Definition pending_peak (pc : ex_pc) : option Z := match pc with PeakLoad a | PeakSwap a _ => Some a | _ => None end.

Record ex_ok (x : executor) : Prop := {
  xo_slots : ex_slots x = msum holds_slot (ex_calls x);
  xo_active : ex_active x = msum counted (ex_calls x);
  xo_capacity : 0 < ex_capacity x /\ ex_slots x <= ex_capacity x;
  xo_peak : 0 <= ex_peak x <= ex_highest x /\ ex_active x <= ex_highest x <= ex_capacity x;
  xo_pending : forall i pc hook a, ex_calls x !! i = Some (pc, hook) -> pending_peak pc = Some a -> a <= ex_highest x;
  xo_swap : forall i a p hook, ex_calls x !! i = Some (PeakSwap a p, hook) -> p < a;
  xo_highest : ex_highest x <= ex_peak x \/ exists i pc hook, ex_calls x !! i = Some (pc, hook) /\ pending_peak pc = Some (ex_highest x)
}.

Lemma holds_range c : 0 <= runs_callback c <= counted c /\ counted c <= holds_slot c.
Proof. destruct c as [[] h]; cbn; lia. Qed.

Lemma counts_le (m : gmap nat (ex_pc * bool)) :
  0 <= msum runs_callback m <= msum counted m /\ msum counted m <= msum holds_slot m.
Proof.
  induction m as [|i c m Hi IH] using map_ind; [by rewrite !msum_empty|].
  rewrite !msum_insert_fresh by done. pose proof (holds_range c). lia.
Qed.

(** A call moves: the counters move with what it holds. *)
Lemma ex_put_ok i c pc hook x x' : ex_ok x -> ex_calls x !! i = Some (c, hook) ->
  ex_capacity x' = ex_capacity x -> ex_calls x' = ex_calls x ->
  ex_slots x' = ex_slots x + holds_slot (pc, hook) - holds_slot (c, hook) ->
  ex_active x' = ex_active x + counted (pc, hook) - counted (c, hook) ->
  ex_slots x' <= ex_capacity x ->
  0 <= ex_peak x' <= ex_highest x' -> ex_highest x <= ex_highest x' -> ex_active x' <= ex_highest x' <= ex_capacity x ->
  (forall a, pending_peak pc = Some a -> a <= ex_highest x') ->
  (forall a p, pc = PeakSwap a p -> p < a) ->
  (ex_highest x' <= ex_peak x' \/ pending_peak pc = Some (ex_highest x') \/
   ex_highest x' = ex_highest x /\ ex_peak x <= ex_peak x' /\ pending_peak c <> Some (ex_highest x)) ->
  ex_ok (ex_put i pc hook x').
Proof.
  intros [H1 H2 H3 H4 H5 H6 H7] Hc Ec Em Es Ea Hcap Hp Hh Hhc Hpend Hsw Hor. split; cbn; rewrite ?Ec, ?Em; try lia.
  - rewrite (msum_insert _ _ _ _ _ Hc). lia.
  - rewrite (msum_insert _ _ _ _ _ Hc). lia.
  - intros j q h a [[<- [= <- <-]]|[_ Hj]]%lookup_insert_Some Ha; [by apply Hpend|]. specialize (H5 j q h a Hj Ha). lia.
  - intros j a p h [[<- [= -> _]]|[_ Hj]]%lookup_insert_Some; [by apply Hsw|by eapply H6].
  - destruct Hor as [?|[Hpk|(Eh & Hpe & Hne)]]; [by left| |].
    + right. exists i, pc, hook. by rewrite lookup_insert_eq.
    + rewrite Eh. destruct H7 as [?|(j & q & h & Hj & Hq)]; [left; lia|right].
      exists j, q, h. split; [|done]. rewrite lookup_insert_ne; [done|]. intros ->. rewrite Hc in Hj. by injection Hj as -> ->.
Qed.

Lemma ex_step_ok ev x x' : ex_ok x -> ex_step ev x = Some x' -> ex_ok x'.
Proof.
  intros H. pose proof H as [H1 H2 H3 H4 H5 H6 H7]. pose proof (counts_le (ex_calls x)) as Hle.
  destruct ev as [i nf cd hook|i|i|i|i|i|i o|i p|i|i]; cbn [ex_step];
    destruct (ex_calls x !! i) as [[pc hk]|] eqn:Hc; try done; try (destruct pc; try done).
  - intros [= <-]. set (pc := if nf then _ else _).
    assert (Hz : holds_slot (pc, hook) = 0 /\ counted (pc, hook) = 0 /\ pending_peak pc = None)
      by (unfold pc; destruct nf; [|destruct cd]; by repeat split). destruct Hz as (Z1 & Z2 & Z3).
    split; cbn; try done.
    + rewrite msum_insert_fresh by done. lia.
    + rewrite msum_insert_fresh by done. lia.
    + intros j q h a [[<- [= <- <-]]|[_ Hj]]%lookup_insert_Some Ha; [congruence|by eapply H5].
    + intros j a p h [[<- [= E _]]|[_ Hj]]%lookup_insert_Some; [by rewrite E in Z3|by eapply H6].
    + destruct H7 as [?|(j & q & h & Hj & Hq)]; [by left|right]. exists j, q, h. split; [|done].
      rewrite lookup_insert_ne; [done|]. intros ->. congruence.
  - destruct (Z.ltb_spec (ex_slots x) (ex_capacity x)); [|done]. intros [= <-].
    eapply ex_put_ok; try exact Hc; try done; cbn; try lia. right. right. by split_and!.
  - intros [= <-]. eapply ex_put_ok; try exact Hc; try done; cbn; try lia. right. right. by split_and!.
  - intros [= <-].
    assert (Hs1 : holds_slot (HasSlot, hk) = 1 /\ counted (HasSlot, hk) = 0) by done.
    assert (Hlt : ex_active x + 1 <= ex_slots x).
    { pose proof (counts_le (delete i (ex_calls x))) as Hd.
      rewrite H1, H2, (msum_delete holds_slot _ _ _ Hc), (msum_delete counted _ _ _ Hc). lia. }
    eapply ex_put_ok; try exact Hc; try done; cbn; try lia; [intros a [= <-]; lia|].
    destruct (Z.le_gt_cases (ex_highest x) (ex_active x + 1)); [right; left; f_equal; lia|right; right].
    split_and!; try done; lia.
  - intros [= <-]. destruct (Z.leb_spec active (ex_peak x)).
    + eapply ex_put_ok; try exact Hc; try done; cbn; try lia.
      destruct (decide (active = ex_highest x)) as [->|]; [by left|right; right]. split_and!; try done. congruence.
    + eapply ex_put_ok; try exact Hc; try done; cbn; try lia.
      * intros a [= <-]. by eapply H5.
      * by intros a p [= <- <-].
      * destruct (decide (active = ex_highest x)) as [->|]; [by right; left|right; right]. split_and!; try done. congruence.
  - pose proof (H6 i active peak hk Hc) as Hpa. pose proof (H5 i _ hk active Hc eq_refl) as Hah.
    intros [= <-]. destruct (Z.eqb_spec (ex_peak x) peak) as [<-|].
    + eapply ex_put_ok; try exact Hc; try done; cbn; try lia.
      destruct (decide (active = ex_highest x)) as [->|]; [by left|right; right]. split_and!; try done; [lia|congruence].
    + eapply ex_put_ok; try exact Hc; try done; cbn; try lia; [by intros a [= <-]|].
      destruct (decide (active = ex_highest x)) as [->|]; [by right; left|right; right]. split_and!; try done. congruence.
  - intros [= <-]. destruct hk; (eapply ex_put_ok; try exact Hc; try done; cbn; try lia; right; right; by split_and!).
  - intros [= <-]. eapply ex_put_ok; try exact Hc; try done; cbn; try lia. right. right. by split_and!.
  - intros [= <-]. eapply ex_put_ok; try exact Hc; try done; cbn; try lia. right. right. split_and!; try done. lia.
  - intros [= <-]. eapply ex_put_ok; try exact Hc; try done; cbn; try lia. right. right. by split_and!.
Qed.

Lemma ex_reachable_ok concurrency x : ex_reachable concurrency x -> ex_ok x.
Proof.
  induction 1 as [|ev x x' _ IH Hs]; [|by eapply ex_step_ok].
  unfold NewCallbackExecutor, DefaultLifecycleCallbackConcurrency.
  destruct (Z.leb_spec concurrency 0); split; cbn; try done; try lia; by left.
Qed.

(** The executor bounds its callbacks. In every interleaving at most
    [capacity] callbacks run, those whose caller has given up included, because a
    callback keeps its slot until it has returned; the counter of active callbacks
    never passes the capacity, and once no caller is between counting itself and
    [updatePeak] the lock-free peak is exactly the highest it ever was. *)
Theorem executor_bounded concurrency x : ex_reachable concurrency x ->
  0 <= msum runs_callback (ex_calls x) <= ex_active x /\ ex_active x <= ex_slots x <= ex_capacity x /\
  ex_peak x <= ex_highest x <= ex_capacity x /\
  ((forall i pc hook, ex_calls x !! i = Some (pc, hook) -> pending_peak pc = None) -> ex_peak x = ex_highest x).
Proof.
  intros Hr. destruct (ex_reachable_ok _ _ Hr) as [H1 H2 H3 H4 H5 H6 H7]. pose proof (counts_le (ex_calls x)).
  split_and!; try lia. intros Hn. destruct H7 as [?|(i & pc & hook & Hi & Hp)]; [lia|]. by rewrite (Hn i pc hook Hi) in Hp.
Qed.

Lemma ex_run_reachable concurrency evs : forall x x', ex_reachable concurrency x -> ex_run evs x = Some x' -> ex_reachable concurrency x'.
Proof.
  induction evs as [|ev evs IH]; intros x x' Hx; simpl; [by intros [= <-]|].
  destruct (ex_step ev x) as [x1|] eqn:E; [|done]. simpl. apply IH. by eapply ex_next.
Qed.

(** Two callers race on the peak: the second overtakes the first's compare-and-swap. *)
Definition peak_race : list ex_event :=
  [EvCall 0 false false true; EvCall 1 false false false; EvSlot 0; EvSlot 1; EvActive 0; EvActive 1; EvLoad 0; EvLoad 1; EvSwap 1;
   EvSwap 0; EvLoad 0; EvReturn 0 (FnPanics "boom"); EvHook 0 None; EvInactive 0; EvFree 0].

Lemma executor_bounded_witness : exists x, ex_run peak_race (NewCallbackExecutor 2) = Some x /\ ex_peak x = 2 /\
  0 <= msum runs_callback (ex_calls x) <= ex_active x /\ ex_active x <= ex_slots x <= ex_capacity x /\
  ex_peak x <= ex_highest x <= ex_capacity x /\
  ((forall i pc hook, ex_calls x !! i = Some (pc, hook) -> pending_peak pc = None) -> ex_peak x = ex_highest x).
Proof.
  eexists. split; [vm_compute; reflexivity|]. split; [reflexivity|]. apply (executor_bounded 2).
  eapply (ex_run_reachable 2 peak_race); [apply ex_init|vm_compute; reflexivity].
Defined.
