(* ===== verification/ResourceManager.v ===== *)
(** * Resources and their forced cleanup

    Models [internal/resource]: the tracked resources, the leaks of an owner, and the
    cleanup that several callers may force at once. A caller of [ForceCleanupOwner] is a
    program counter; what it does under the lock is one step, and so is the answer of the
    callback executor, a cleanup that returns, and each case of a [select]. *)

From S2P Require Import Prelude.

(** ** [types.go] *)

Definition StateActive : string := "active".
Definition StateReleasing : string := "releasing".
Definition StateReleased : string := "released".
Definition StateLeaked : string := "leaked".

Record Resource := mkResource {
  rs_ID : string; rs_Owner : string; rs_Type : string; rs_CreatedAt : time; rs_State : string; rs_Metadata : gmap string string
}.
Record OwnerSnapshot := mkSnapshot { os_Owner : string; os_TotalActive : Z; os_CountsByType : gmap string Z; os_Leaked : Z }.

(** ** [manager.go] *)

Definition LeakPolicyWarn : string := "warn".
Definition LeakPolicyDegraded : string := "degraded".
Definition LeakPolicyForceCleanup : string := "force_cleanup".
Definition DefaultMaxTrackedResources : Z := 16 * 1024.

Inductive resource_error := ErrEmptyID | ErrEmptyOwner | ErrEmptyType | ErrRegistered | ErrFull | ErrUnknown | ErrDegraded (n : Z) | ErrForced.
(** Why a cleanup failed: the context of the caller, the executor, the cleanup itself. *)
Inductive cleanup_error := CeContext | CeExecutor | CeFailed (code : nat).

(** A cleanup function is known by a number, a run by its address. *)
Record Manager := mkManager {
  rm_policy : string; rm_maxResources : Z; rm_resources : gmap string Resource; rm_cleanups : gmap string nat; rm_cleanupRuns : gmap string nat
}.
Definition NewManagerWithLimit (maxResources : Z) : Manager :=
  mkManager LeakPolicyWarn (if maxResources <=? 0 then DefaultMaxTrackedResources else maxResources) ∅ ∅ ∅.
Definition NewManager : Manager := NewManagerWithLimit DefaultMaxTrackedResources.

Definition set_tracked (resources : gmap string Resource) (cleanups runs : gmap string nat) (m : Manager) : Manager :=
  mkManager (rm_policy m) (rm_maxResources m) resources cleanups runs.
Definition SetLeakPolicy (p : string) (m : Manager) : Manager :=
  mkManager p (rm_maxResources m) (rm_resources m) (rm_cleanups m) (rm_cleanupRuns m).

Definition RegisterWithCleanupContext (now : time) (r : Resource) (cleanup : option nat) (m : Manager) : option resource_error * Manager :=
  if blank (rs_ID r) then (Some ErrEmptyID, m)
  else if blank (rs_Owner r) then (Some ErrEmptyOwner, m)
  else if blank (rs_Type r) then (Some ErrEmptyType, m)
  else
    let r := mkResource (rs_ID r) (rs_Owner r) (rs_Type r) (if is_zero (rs_CreatedAt r) then now else rs_CreatedAt r)
      (if decide (rs_State r = "") then StateActive else rs_State r) (rs_Metadata r) in
    match rm_resources m !! rs_ID r with
    | Some _ => (Some ErrRegistered, m)
    | None =>
        if rm_maxResources m <=? Z.of_nat (size (rm_resources m)) then (Some ErrFull, m)
        else (None, set_tracked (<[rs_ID r := r]> (rm_resources m))
                      (match cleanup with Some f => <[rs_ID r := f]> (rm_cleanups m) | None => rm_cleanups m end) (rm_cleanupRuns m) m)
    end.
Definition Register (now : time) (r : Resource) (m : Manager) : option resource_error * Manager := RegisterWithCleanupContext now r None m.

Definition Release (id : string) (m : Manager) : option resource_error * Manager :=
  match rm_resources m !! id with
  | None => (Some ErrUnknown, m)
  | Some _ => (None, set_tracked (delete id (rm_resources m)) (delete id (rm_cleanups m)) (delete id (rm_cleanupRuns m)) m)
  end.

Definition Get (id : string) (m : Manager) : option Resource := rm_resources m !! id.
(** The loops over the map; its order is the map's. *)
Definition ByOwner (owner : string) (m : Manager) : list Resource := filter (fun r => rs_Owner r = owner) (map_to_list (rm_resources m)).*2.
Definition ByType (rType : string) (m : Manager) : list Resource := filter (fun r => rs_Type r = rType) (map_to_list (rm_resources m)).*2.
Definition All (m : Manager) : list Resource := (map_to_list (rm_resources m)).*2.

Definition leaked (r : Resource) : Resource := mkResource (rs_ID r) (rs_Owner r) (rs_Type r) (rs_CreatedAt r) StateLeaked (rs_Metadata r).
(** What the loop of [DetectLeaks] makes of one resource. *)
Definition leak_mark (owner : string) (r : Resource) : Resource :=
  if bool_decide (rs_Owner r = owner) && bool_decide (rs_State r = StateActive) then leaked r else r.
Definition DetectLeaks (owner : string) (m : Manager) : list Resource * Manager :=
  let marked := leak_mark owner <$> rm_resources m in
  (filter (fun r => rs_Owner r = owner /\ rs_State r = StateLeaked) (map_to_list marked).*2,
   set_tracked marked (rm_cleanups m) (rm_cleanupRuns m) m).

Definition snap_add (s : OwnerSnapshot) (r : Resource) : OwnerSnapshot :=
  mkSnapshot (os_Owner s) (os_TotalActive s + 1) (<[rs_Type r := zget (rs_Type r) (os_CountsByType s) + 1]> (os_CountsByType s))
    (if decide (rs_State r = StateLeaked) then os_Leaked s + 1 else os_Leaked s).
Definition snapshot_of (owner : string) (m : Manager) : OwnerSnapshot :=
  foldl (fun s r => if decide (rs_Owner r = owner) then snap_add s r else s) (mkSnapshot owner 0 ∅ 0) (map_to_list (rm_resources m)).*2.
Definition all_snapshots (m : Manager) : gmap string OwnerSnapshot :=
  foldl (fun byOwner r => <[rs_Owner r := snap_add (default (mkSnapshot (rs_Owner r) 0 ∅ 0) (byOwner !! rs_Owner r)) r]> byOwner) ∅ (map_to_list (rm_resources m)).*2.

(** [HandleLeaksContext]: [errs] is what [ForceCleanupOwnerContext] answers. *)
Definition leak_outcome (policy : string) (leaks : list Resource) (errs : list (option string * cleanup_error)) : list Resource * option resource_error :=
  match leaks with
  | [] => ([], None)
  | _ =>
      if decide (policy = LeakPolicyForceCleanup) then (leaks, match errs with [] => None | _ => Some ErrForced end)
      else if decide (policy = LeakPolicyDegraded) then (leaks, Some (ErrDegraded (Z.of_nat (length leaks))))
      else (leaks, None)
  end.

(** ** Forced cleanup *)

Record cleanupRun := mkRun { cr_closed : bool; cr_err : option cleanup_error }.

(** Where a caller is: in the loop of [ForceCleanupOwnerContext], in [cleanupResource], or
    back. [Wait] is the [select] on a run's channel and the context. *)
Inductive caller_pc :=
  | Loop | Enter (id : string) | Lock (id : string) | Start (id : string) (run : nat) (fn : nat) | StartFailed (id : string) (run : nat) (e : cleanup_error)
  | Wait (id : string) (run : nat) | Result (id : string) (e : option cleanup_error) | Returned.
Record caller := mkCaller { ca_pc : caller_pc; ca_ids : list string; ca_errs : list (option string * cleanup_error); ca_done : bool }.

(** The goroutine of the executor that runs the cleanup [cb_fn] for a run. *)
Inductive callback_pc := Running | Completing (e : option cleanup_error) | Finished.
Record callback := mkCallback { cb_id : string; cb_fn : nat; cb_pc : callback_pc }.

(** [rsy_fault] records a channel closed twice. *)
Record rsys := mkRsys {
  rsy_m : Manager; rsy_runs : gmap nat cleanupRun; rsy_next : nat; rsy_callers : gmap nat caller; rsy_callbacks : gmap nat callback; rsy_fault : bool
}.

Definition put_caller (i : nat) (c : caller) (y : rsys) : rsys :=
  mkRsys (rsy_m y) (rsy_runs y) (rsy_next y) (<[i := c]> (rsy_callers y)) (rsy_callbacks y) (rsy_fault y).
Definition put_manager (m : Manager) (y : rsys) : rsys :=
  mkRsys m (rsy_runs y) (rsy_next y) (rsy_callers y) (rsy_callbacks y) (rsy_fault y).
Definition put_callback (run : nat) (b : callback) (y : rsys) : rsys :=
  mkRsys (rsy_m y) (rsy_runs y) (rsy_next y) (rsy_callers y) (<[run := b]> (rsy_callbacks y)) (rsy_fault y).
Definition at_pc (pc : caller_pc) (c : caller) : caller := mkCaller pc (ca_ids c) (ca_errs c) (ca_done c).

(** [run.err = e; close(run.done)]. *)
Definition close_run (run : nat) (e : option cleanup_error) (y : rsys) : rsys :=
  match rsy_runs y !! run with
  | Some u => mkRsys (rsy_m y) (<[run := mkRun true e]> (rsy_runs y)) (rsy_next y) (rsy_callers y) (rsy_callbacks y) (rsy_fault y || cr_closed u)
  | None => y
  end.

(** The locked part of [cleanupResource]. *)
Definition cleanup_locked (i : nat) (id : string) (c : caller) (y : rsys) : rsys :=
  let m := rsy_m y in
  match rm_resources m !! id with
  | None => put_caller i (at_pc (Result id None) c) y
  | Some _ =>
      match rm_cleanupRuns m !! id with
      | Some run => put_caller i (at_pc (Wait id run) c) y
      | None =>
          match rm_cleanups m !! id with
          | None => put_caller i (at_pc (Result id None) c) (put_manager (set_tracked (delete id (rm_resources m)) (delete id (rm_cleanups m)) (rm_cleanupRuns m) m) y)
          | Some fn =>
              let run := rsy_next y in
              put_caller i (at_pc (Start id run fn) c)
                (mkRsys (set_tracked (rm_resources m) (rm_cleanups m) (<[id := run]> (rm_cleanupRuns m)) m)
                   (<[run := mkRun false None]> (rsy_runs y)) (S run) (rsy_callers y) (rsy_callbacks y) (rsy_fault y))
          end
      end
  end.

(** The locked part of the completion hook. *)
Definition on_done (run : nat) (id : string) (e : option cleanup_error) (y : rsys) : rsys :=
  let m := rsy_m y in
  let m' :=
    if bool_decide (rm_cleanupRuns m !! id = Some run) then
      match e with
      | None => set_tracked (delete id (rm_resources m)) (delete id (rm_cleanups m)) (delete id (rm_cleanupRuns m)) m
      | Some _ => set_tracked (rm_resources m) (rm_cleanups m) (delete id (rm_cleanupRuns m)) m
      end
    else m in
  close_run run e (put_manager m' y).

(** The locked part after the executor refused. *)
Definition start_failed (run : nat) (id : string) (e : cleanup_error) (y : rsys) : rsys :=
  let m := rsy_m y in
  let m' := if bool_decide (rm_cleanupRuns m !! id = Some run) then set_tracked (rm_resources m) (rm_cleanups m) (delete id (rm_cleanupRuns m)) m else m in
  close_run run (Some e) (put_manager m' y).

(** The body of the loop of [ForceCleanupOwnerContext]. *)
Definition force_loop (c : caller) : caller :=
  match ca_ids c with
  | [] => at_pc Returned c
  | id :: ids =>
      if ca_done c then mkCaller Returned (id :: ids) (ca_errs c ++ [(None, CeContext)]) true
      else mkCaller (Enter id) ids (ca_errs c) false
  end.
Definition loop_result (id : string) (e : option cleanup_error) (c : caller) : caller :=
  match e with
  | None => at_pc Loop c
  | Some e => mkCaller (if ca_done c then Returned else Loop) (ca_ids c) (ca_errs c ++ [(Some id, e)]) (ca_done c)
  end.

(** One step of caller [i]; [refused] is the executor's answer, [first] the case the
    [select] takes when both are ready. *)
Definition caller_step (i : nat) (refused : option cleanup_error) (first : bool) (y : rsys) : option rsys :=
  match rsy_callers y !! i with
  | None => None
  | Some c =>
      match ca_pc c with
      | Loop => Some (put_caller i (force_loop c) y)
      | Enter id => Some (put_caller i (at_pc (if ca_done c then Result id (Some CeContext) else Lock id) c) y)
      | Lock id => Some (cleanup_locked i id c y)
      | Start id run fn =>
          match refused with
          | Some e => Some (put_caller i (at_pc (StartFailed id run e) c) y)
          | None => Some (put_caller i (at_pc (Wait id run) c) (put_callback run (mkCallback id fn Running) y))
          end
      | StartFailed id run e => Some (put_caller i (at_pc (Result id (Some e)) c) (start_failed run id e y))
      | Wait id run =>
          match rsy_runs y !! run with
          | Some u =>
              if cr_closed u && (first || negb (ca_done c)) then Some (put_caller i (at_pc (Result id (cr_err u)) c) y)
              else if ca_done c then Some (put_caller i (at_pc (Result id (Some CeContext)) c) y)
              else None
          | None => None
          end
      | Result id e => Some (put_caller i (loop_result id e c) y)
      | Returned => None
      end
  end.

Definition callback_step (run : nat) (e : option cleanup_error) (y : rsys) : option rsys :=
  match rsy_callbacks y !! run with
  | Some b =>
      match cb_pc b with
      | Running => Some (put_callback run (mkCallback (cb_id b) (cb_fn b) (Completing e)) y)
      | Completing e => Some (put_callback run (mkCallback (cb_id b) (cb_fn b) Finished) (on_done run (cb_id b) e y))
      | Finished => None
      end
  | None => None
  end.

Inductive resource_event :=
  | EvForce (i : nat) (owner : string) (ids : list string) (ctx_done : bool)
  | EvStep (i : nat) (refused : option cleanup_error) (first : bool)
  | EvCallback (run : nat) (e : option cleanup_error)
  | EvContext (i : nat)
  | EvRegister (now : time) (r : Resource) (cleanup : option nat)
  | EvRelease (id : string)
  | EvDetect (owner : string)
  | EvPolicy (p : string).

(** [EvForce] takes the identifiers of the owner in the order of the map. *)
Definition resource_step (ev : resource_event) (y : rsys) : option rsys :=
  match ev with
  | EvForce i owner ids ctx_done =>
      match rsy_callers y !! i with
      | Some _ => None
      | None =>
          if decide (ids ≡ₚ (map_to_list (filter (fun kv : string * Resource => rs_Owner kv.2 = owner) (rm_resources (rsy_m y)))).*1)
          then Some (put_caller i (mkCaller Loop ids [] ctx_done) y) else None
      end
  | EvStep i refused first => caller_step i refused first y
  | EvCallback run e => callback_step run e y
  | EvContext i => match rsy_callers y !! i with Some c => Some (put_caller i (mkCaller (ca_pc c) (ca_ids c) (ca_errs c) true) y) | None => None end
  | EvRegister now r cleanup => Some (put_manager (RegisterWithCleanupContext now r cleanup (rsy_m y)).2 y)
  | EvRelease id => Some (put_manager (Release id (rsy_m y)).2 y)
  | EvDetect owner => Some (put_manager (DetectLeaks owner (rsy_m y)).2 y)
  | EvPolicy p => Some (put_manager (SetLeakPolicy p (rsy_m y)) y)
  end.

Definition NewSystem (maxResources : Z) : rsys := mkRsys (NewManagerWithLimit maxResources) ∅ O ∅ ∅ false.

Inductive resource_reachable (maxResources : Z) : rsys -> Prop :=
  | rs_new : resource_reachable maxResources (NewSystem maxResources)
  | rs_next ev y y' : resource_reachable maxResources y -> resource_step ev y = Some y' -> resource_reachable maxResources y'.

Fixpoint resource_run (evs : list resource_event) (y : rsys) : option rsys :=
  match evs with
  | [] => Some y
  | ev :: evs => match resource_step ev y with Some y' => resource_run evs y' | None => None end
  end.
