(* ===== verification/ResourceTheorems.v ===== *)
(** * The resource manager: its invariant and what a forced cleanup promises

    Over [ResourceManager]: the invariant of the manager and of its cleanup runs, kept by
    every step of any number of concurrent callers, and the theorems on it: who closes a
    run, when a resource leaves the tracking, that a waiting caller is released, and what
    leak detection and the snapshots report. *)

From S2P Require Import Prelude.
From S2P Require Import ResourceManager.

(** ** The invariant *)

Record manager_ok (m : Manager) : Prop := {
  mo_bound : Z.of_nat (size (rm_resources m)) <= rm_maxResources m;
  mo_keys : forall id r, rm_resources m !! id = Some r -> rs_ID r = id;
  mo_cleanups : forall id fn, rm_cleanups m !! id = Some fn -> is_Some (rm_resources m !! id);
  mo_runs : forall id run, rm_cleanupRuns m !! id = Some run -> is_Some (rm_cleanups m !! id)
}.

(** The run a caller has still to start, or whose refusal it has still to record. *)
Definition charged (pc : caller_pc) : option nat :=
  match pc with Start _ run _ | StartFailed _ run _ => Some run | _ => None end.
Definition finished (b : callback) : bool := match cb_pc b with Finished => true | _ => false end.
Definition is_open (y : rsys) (run : nat) : Prop := exists e, rsy_runs y !! run = Some (mkRun false e).

(** What the identifier a run is registered under must be. *)
Definition run_of (m : Manager) (run : nat) (id : string) (fn : option nat) : Prop :=
  forall id', rm_cleanupRuns m !! id' = Some run -> id' = id /\ forall f, fn = Some f -> rm_cleanups m !! id = Some f.

Definition pc_ok (y : rsys) (pc : caller_pc) : Prop :=
  match pc with
  | Start id run fn => is_open y run /\ rsy_callbacks y !! run = None /\ run_of (rsy_m y) run id (Some fn)
  | StartFailed id run _ => is_open y run /\ rsy_callbacks y !! run = None /\ run_of (rsy_m y) run id None
  | Wait _ run => is_Some (rsy_runs y !! run)
  | _ => True
  end.

Record resource_ok (y : rsys) : Prop := {
  ro_manager : manager_ok (rsy_m y);
  ro_link : forall id run, rm_cleanupRuns (rsy_m y) !! id = Some run -> is_open y run;
  ro_callers : forall i c, rsy_callers y !! i = Some c -> pc_ok y (ca_pc c);
  ro_unique : forall i j c d run, rsy_callers y !! i = Some c -> rsy_callers y !! j = Some d ->
    charged (ca_pc c) = Some run -> charged (ca_pc d) = Some run -> i = j;
  ro_callbacks : forall run b, rsy_callbacks y !! run = Some b ->
    run_of (rsy_m y) run (cb_id b) (Some (cb_fn b)) /\ exists e, rsy_runs y !! run = Some (mkRun (finished b) e);
  ro_open : forall run, is_open y run ->
    (exists i c, rsy_callers y !! i = Some c /\ charged (ca_pc c) = Some run) \/ is_Some (rsy_callbacks y !! run);
  ro_fresh : forall run, (rsy_next y <= run)%nat -> rsy_runs y !! run = None;
  ro_fault : rsy_fault y = false
}.

(** ** The operations keep the manager's invariant *)

Lemma manager_New_ok n : manager_ok (NewManagerWithLimit n).
Proof.
  split; cbn; try by intros ? ? ?%lookup_empty_Some.
  rewrite map_size_empty. unfold DefaultMaxTrackedResources. destruct (Z.leb_spec n 0); cbn; lia.
Qed.

Lemma size_delete_le {A} id (m : gmap string A) : (size (delete id m) <= size m)%nat.
Proof. rewrite map_size_delete. case_match; cbn; lia. Qed.

(** Forgetting a resource, its cleanup and its run. *)
Lemma forget_ok id m : manager_ok m ->
  manager_ok (set_tracked (delete id (rm_resources m)) (delete id (rm_cleanups m)) (delete id (rm_cleanupRuns m)) m).
Proof.
  intros [B K C R]. split; cbn.
  - pose proof (size_delete_le id (rm_resources m)). lia.
  - intros id' r [_ H]%lookup_delete_Some. eauto.
  - intros id' fn [Hn H]%lookup_delete_Some. rewrite lookup_delete_ne by done. eauto.
  - intros id' run [Hn H]%lookup_delete_Some. rewrite lookup_delete_ne by done. eauto.
Qed.

Lemma forget_untracked_ok id m : manager_ok m -> rm_cleanupRuns m !! id = None ->
  manager_ok (set_tracked (delete id (rm_resources m)) (delete id (rm_cleanups m)) (rm_cleanupRuns m) m).
Proof. intros H E. pose proof (forget_ok id m H) as F. by rewrite (delete_id (rm_cleanupRuns m)) in F. Qed.

Lemma drop_run_ok id m : manager_ok m -> manager_ok (set_tracked (rm_resources m) (rm_cleanups m) (delete id (rm_cleanupRuns m)) m).
Proof. intros [B K C R]. split; cbn; try done. intros id' run [_ H]%lookup_delete_Some. eauto. Qed.

Lemma track_ok now r cleanup m : manager_ok m -> manager_ok (RegisterWithCleanupContext now r cleanup m).2.
Proof.
  intros [B K C R]. unfold RegisterWithCleanupContext.
  destruct (blank _); [done|]. destruct (blank _); [done|]. destruct (blank _); [done|].
  cbv zeta. cbn [rs_ID]. destruct (rm_resources m !! rs_ID r) eqn:E; [done|].
  destruct (Z.leb_spec (rm_maxResources m) (Z.of_nat (size (rm_resources m)))); [done|]. split; cbn.
  - rewrite map_size_insert_None by done. lia.
  - intros id' r' [[<- <-]|[_ H']]%lookup_insert_Some; [done|]. eauto.
  - intros id' fn H'. destruct (decide (id' = rs_ID r)) as [->|Hn]; [by rewrite lookup_insert_eq|].
    rewrite lookup_insert_ne by done. apply (C _ fn). destruct cleanup; [by rewrite lookup_insert_ne in H'|done].
  - intros id' run H'. destruct cleanup as [f|]; [|by eauto].
    destruct (decide (id' = rs_ID r)) as [->|Hn]; [by rewrite lookup_insert_eq|]. rewrite lookup_insert_ne by done. eauto.
Qed.

Lemma DetectLeaks_ok owner m : manager_ok m -> manager_ok (DetectLeaks owner m).2.
Proof.
  intros [B K C R]. split; cbn; [| | |by eauto].
  - by rewrite map_size_fmap.
  - intros id r'. rewrite lookup_fmap_Some. intros (r & <- & H). unfold leak_mark. case_match; cbn; eauto.
  - intros id fn H. rewrite lookup_fmap, fmap_is_Some. eauto.
Qed.

(** ** Steps that leave the runs alone *)

(** A manager that keeps, of the runs it still has, their cleanups. *)
Definition narrows (m m' : Manager) : Prop :=
  forall id run, rm_cleanupRuns m' !! id = Some run -> rm_cleanupRuns m !! id = Some run /\ rm_cleanups m' !! id = rm_cleanups m !! id.

Lemma run_of_narrows m m' run id fn : narrows m m' -> run_of m run id fn -> run_of m' run id fn.
Proof. intros N H id' E. destruct (N _ _ E) as [E' Ec]. destruct (H _ E') as [-> Hf]. split; [done|]. intros f Hf'. rewrite Ec. auto. Qed.

Lemma pc_ok_narrows m' y pc : narrows (rsy_m y) m' -> pc_ok y pc -> pc_ok (put_manager m' y) pc.
Proof. intros N. destruct pc; cbn; try done; intros (O & Cb & Rn); (split_and!; [done|done|by eapply run_of_narrows]). Qed.

Lemma put_manager_ok m' y : resource_ok y -> manager_ok m' -> narrows (rsy_m y) m' -> resource_ok (put_manager m' y).
Proof.
  intros [M L Ca U Cb O F Ft] M' N. split; try done.
  - cbn. intros id run [E _]%N. by eapply L.
  - intros i c E. apply pc_ok_narrows; [done|by eapply Ca].
  - intros run b E. destruct (Cb _ _ E) as [Hr Hu]. split; [by eapply run_of_narrows|done].
Qed.

Lemma narrows_delete id m : narrows m (set_tracked (delete id (rm_resources m)) (delete id (rm_cleanups m)) (delete id (rm_cleanupRuns m)) m).
Proof. intros id' run. cbn. intros [Hn E]%lookup_delete_Some. split; [done|]. by apply lookup_delete_ne. Qed.

Lemma narrows_drop id m : narrows m (set_tracked (rm_resources m) (rm_cleanups m) (delete id (rm_cleanupRuns m)) m).
Proof. intros id' run. cbn. by intros [_ E]%lookup_delete_Some. Qed.

Lemma narrows_Register now r cleanup m : manager_ok m -> narrows m (RegisterWithCleanupContext now r cleanup m).2.
Proof.
  intros [B K C R]. unfold RegisterWithCleanupContext.
  destruct (blank _); [done|]. destruct (blank _); [done|]. destruct (blank _); [done|]. cbv zeta. cbn [rs_ID].
  destruct (rm_resources m !! rs_ID r) eqn:E; [done|]. destruct (_ <=? _); [done|].
  intros id run H. split; [done|]. cbn. destruct cleanup as [f|]; [|done]. apply lookup_insert_ne. intros <-.
  destruct (R _ _ H) as [fn Hf]. destruct (C _ _ Hf). congruence.
Qed.

(** A caller that moves without taking or giving up a run. *)
Lemma put_caller_ok i c c' y : resource_ok y -> rsy_callers y !! i = c -> pc_ok y (ca_pc c') ->
  charged (ca_pc c') = (c ≫= fun c => charged (ca_pc c)) -> resource_ok (put_caller i c' y).
Proof.
  intros [M L Ca U Cb O F Ft] Hc Hp Hch. split; try done.
  - cbn. intros j d [[<- <-]|[_ E]]%lookup_insert_Some; [done|]. exact (Ca _ _ E).
  - cbn. intros j k d e run [[<- <-]|[Nj Ej]]%lookup_insert_Some [[<- <-]|[Nk Ek]]%lookup_insert_Some Hd He; [done| | |by eauto].
    + rewrite Hch in Hd. destruct c as [c|]; [|done]. by eapply (U i k).
    + rewrite Hch in He. destruct c as [c|]; [|done]. by eapply (U j i).
  - intros run Hr. destruct (O _ Hr) as [(j & d & Ej & Hd)|Hb]; [left|by right].
    destruct (decide (i = j)) as [<-|Hn].
    + exists i, c'. split; [apply lookup_insert_eq|]. rewrite Ej in Hc. subst c. by rewrite Hch.
    + exists j, d. split; [cbn; by rewrite lookup_insert_ne|done].
Qed.

(** ** Steps of a run *)

Lemma is_open_put_caller i c y run : is_open (put_caller i c y) run <-> is_open y run.
Proof. done. Qed.

(** A caller takes a fresh run for [id]. *)
Lemma take_run_ok i c id fn y : resource_ok y -> rsy_callers y !! i = Some c -> charged (ca_pc c) = None ->
  rm_cleanups (rsy_m y) !! id = Some fn -> rm_cleanupRuns (rsy_m y) !! id = None ->
  let m := rsy_m y in let run := rsy_next y in
  resource_ok (put_caller i (at_pc (Start id run fn) c)
    (mkRsys (set_tracked (rm_resources m) (rm_cleanups m) (<[id := run]> (rm_cleanupRuns m)) m)
       (<[run := mkRun false None]> (rsy_runs y)) (S run) (rsy_callers y) (rsy_callbacks y) (rsy_fault y))).
Proof.
  intros [M L Ca U Cb O F Ft] Hc Hch Hfn Hno m run.
  assert (Fr : rsy_runs y !! run = None) by (apply F; done).
  assert (Nr : forall r e, rsy_runs y !! r = Some e -> r <> run) by (intros r e ? ->; congruence).
  assert (Op : forall r, is_open y r -> exists e, <[run := mkRun false None]> (rsy_runs y) !! r = Some (mkRun false e)).
  { intros r [e He]. exists e. rewrite lookup_insert_ne; [done|]. apply not_eq_sym. by eapply Nr. }
  assert (Nm : forall r u id' f, rsy_runs y !! r = Some u -> run_of m r id' f ->
    run_of (set_tracked (rm_resources m) (rm_cleanups m) (<[id := run]> (rm_cleanupRuns m)) m) r id' f).
  { intros r u id' f Hu Hr id0. cbn. intros [[<- <-]|[_ E]]%lookup_insert_Some; [by apply Nr in Hu|]. by apply Hr. }
  split; try done; cbn.
  - destruct M as [B K C R]. split; cbn; try done. intros id' r [[<- <-]|[_ E]]%lookup_insert_Some; [done|]. by eapply R.
  - intros id' r [[<- <-]|[_ E]]%lookup_insert_Some; [exists None; apply lookup_insert_eq|]. exact (Op _ (L _ _ E)).
  - intros j d [[<- <-]|[_ E]]%lookup_insert_Some.
    + cbn. split_and!; [exists None; apply lookup_insert_eq| |].
      * destruct (rsy_callbacks y !! run) as [b|] eqn:Eb; [|done]. destruct (Cb _ _ Eb) as [_ [e He]]. congruence.
      * intros id0. cbn. intros [[<- _]|[_ E]]%lookup_insert_Some; [by split; [|intros f [= <-]]|]. destruct (L _ _ E). congruence.
    + specialize (Ca _ _ E). destruct (ca_pc d) as [| | |id' r f|id' r e|id' r|id' e|]; try done; cbn in Ca |- *.
      * destruct Ca as ([e Ho] & Hb & Hr). split_and!; [exact (Op _ (ex_intro _ e Ho))|done|by eapply Nm].
      * destruct Ca as ([e' Ho] & Hb & Hr). split_and!; [exact (Op _ (ex_intro _ e' Ho))|done|by eapply Nm].
      * destruct Ca as [u Hu]. exists u. rewrite lookup_insert_ne; [done|]. apply not_eq_sym. by eapply Nr.
  - assert (Nc : forall j d r, rsy_callers y !! j = Some d -> charged (ca_pc d) = Some r -> r <> run).
    { intros j d r E Hr. specialize (Ca _ _ E). destruct (ca_pc d); try done; cbn in Ca; destruct Ca as ([? He] & _); cbn in Hr; simplify_eq; by eapply Nr. }
    intros j k d e r [[<- <-]|[Nj Ej]]%lookup_insert_Some [[<- <-]|[Nk Ek]]%lookup_insert_Some Hd He; cbn in *; simplify_eq; try done; [by edestruct Nc| |].
    + by edestruct Nc.
    + by eapply (U j k).
  - intros r b E. destruct (Cb _ _ E) as [Hr [e He]]. split; [by eapply Nm|]. exists e.
    rewrite lookup_insert_ne; [done|]. apply not_eq_sym. by eapply Nr.
  - intros r [e He]. cbn in He. apply lookup_insert_Some in He as [[<- _]|[_ He]].
    + left. exists i, (at_pc (Start id run fn) c). split; [apply lookup_insert_eq|done].
    + destruct (O r (ex_intro _ e He)) as [(j & d & Ej & Hd)|Hb]; [left|by right].
      exists j, d. split; [|done]. rewrite lookup_insert_ne; [done|]. intros ->. rewrite Hc in Ej. congruence.
  - intros r Hr. rewrite lookup_insert_ne by lia. apply F. lia.
Qed.

Lemma open_not_closed y run e : is_open y run -> rsy_runs y !! run = Some (mkRun true e) -> False.
Proof. intros [e' H]. congruence. Qed.

Lemma charged_open y i c run : resource_ok y -> rsy_callers y !! i = Some c -> charged (ca_pc c) = Some run ->
  is_open y run /\ rsy_callbacks y !! run = None.
Proof.
  intros H E Hc. pose proof (ro_callers _ H _ _ E) as P. destruct (ca_pc c); simplify_eq/=; destruct P as (? & ? & ?); done.
Qed.

(** The executor starts the callback of the caller's run. *)
Lemma start_run_ok i c id run fn y : resource_ok y -> rsy_callers y !! i = Some c -> ca_pc c = Start id run fn ->
  resource_ok (put_caller i (at_pc (Wait id run) c) (put_callback run (mkCallback id fn Running) y)).
Proof.
  intros H Hc Hp. pose proof (ro_callers _ H _ _ Hc) as P. rewrite Hp in P. destruct P as ([e0 He0] & Hb & Hr).
  assert (Ch : charged (ca_pc c) = Some run) by (by rewrite Hp).
  destruct H as [M L Ca U Cb O F Ft]. split; try done; cbn.
  - intros j d [[<- <-]|[Nj E]]%lookup_insert_Some; [by eexists|]. pose proof (Ca _ _ E) as P.
    assert (charged (ca_pc d) <> Some run) by (intros Hd; by apply Nj, (U i j c d run)).
    destruct (ca_pc d); try done; cbn in *; rewrite lookup_insert_ne by congruence; done.
  - intros j k d e r [[<- <-]|[Nj Ej]]%lookup_insert_Some [[<- <-]|[Nk Ek]]%lookup_insert_Some; cbn; try done. by eapply U.
  - intros r b [[<- <-]|[Nr E]]%lookup_insert_Some; [|by apply Cb]. split; [done|]. by exists e0.
  - intros r Hro. destruct (decide (run = r)) as [<-|Nr]; [right; by rewrite lookup_insert_eq|]. rewrite lookup_insert_ne by done.
    destruct (O r Hro) as [(j & d & Ej & Hd)|Hx]; [left|by right].
    exists j, d. split; [|done]. rewrite lookup_insert_ne; [done|]. intros ->. congruence.
Qed.

Lemma run_of_none m run id fn : (forall id', rm_cleanupRuns m !! id' <> Some run) -> run_of m run id fn.
Proof. intros H id' E. by apply H in E. Qed.

(** What closing a run that is no longer registered does to the state around it. *)
Lemma close_run_eq run u e y : rsy_runs y !! run = Some u ->
  close_run run e y = mkRsys (rsy_m y) (<[run := mkRun true e]> (rsy_runs y)) (rsy_next y) (rsy_callers y) (rsy_callbacks y) (rsy_fault y || cr_closed u).
Proof. unfold close_run. by intros ->. Qed.

Section Close.
Context (run : nat) (e : option cleanup_error) (y : rsys).
Context (H : resource_ok y) (Hopen : is_open y run) (Hun : forall id, rm_cleanupRuns (rsy_m y) !! id <> Some run).

Lemma close_others r u : r <> run -> rsy_runs (close_run run e y) !! r = u <-> rsy_runs y !! r = u.
Proof. intros Hn. destruct Hopen as [e0 He0]. rewrite (close_run_eq _ _ _ _ He0). cbn. by rewrite lookup_insert_ne. Qed.

Lemma close_open r : is_open (close_run run e y) r -> r <> run /\ is_open y r.
Proof.
  intros [e1 He1]. destruct (decide (r = run)) as [->|Hn].
  - destruct Hopen as [e0 He0]. rewrite (close_run_eq _ _ _ _ He0) in He1. cbn in He1. by rewrite lookup_insert_eq in He1.
  - split; [done|]. exists e1. by apply close_others in He1.
Qed.

Lemma close_pc_ok pc : charged pc <> Some run -> pc_ok y pc -> pc_ok (close_run run e y) pc.
Proof.
  destruct Hopen as [e0 He0]. rewrite (close_run_eq _ _ _ _ He0). intros Hc.
  destruct pc as [| | |id r fn|id r x|id r|id x|]; cbn in *; try done.
  - intros ([e1 He1] & Hb & Hr). split_and!; try done. exists e1. cbn. rewrite lookup_insert_ne; congruence.
  - intros ([e1 He1] & Hb & Hr). split_and!; try done. exists e1. cbn. rewrite lookup_insert_ne; congruence.
  - intros Hs. destruct (decide (run = r)) as [->|Hn]; [by rewrite lookup_insert_eq|by rewrite lookup_insert_ne].
Qed.

(** The goroutine of the callback closes it and ends. *)
Lemma close_by_callback b : rsy_callbacks y !! run = Some b ->
  resource_ok (put_callback run (mkCallback (cb_id b) (cb_fn b) Finished) (close_run run e y)).
Proof.
  intros Hb. destruct Hopen as [e0 He0].
  assert (Nc : forall i c, rsy_callers y !! i = Some c -> charged (ca_pc c) <> Some run).
  { intros i c Hc Hch. destruct (charged_open _ _ _ _ H Hc Hch). congruence. }
  pose proof close_pc_ok as Pc. pose proof close_open as Co. rewrite (close_run_eq _ _ _ _ He0) in Pc, Co |- *.
  destruct H as [M L Ca U Cb O F Ft]. split; try done; cbn in *.
  - intros id r E. destruct (L _ _ E) as [e1 He1]. exists e1. cbn. rewrite lookup_insert_ne; [done|]. intros <-. by apply Hun in E.
  - intros i c E. specialize (Pc _ (Nc _ _ E) (Ca _ _ E)). specialize (Nc _ _ E).
    destruct (ca_pc c); try done; cbn in *; rewrite lookup_insert_ne by congruence; done.
  - intros r b' [[<- <-]|[Hn E]]%lookup_insert_Some.
    + split; [by apply run_of_none|]. exists e. by rewrite lookup_insert_eq.
    + destruct (Cb _ _ E) as [Hr [e1 He1]]. split; [done|]. exists e1. by rewrite lookup_insert_ne.
  - intros r Hr. destruct (Co r Hr) as [Hn Ho]. rewrite lookup_insert_ne by congruence. by apply O.
  - intros r Hr. rewrite lookup_insert_ne; [by apply F|]. intros <-. rewrite F in He0 by done. done.
  - by rewrite Ft.
Qed.

(** The caller whose start was refused closes it. *)
Lemma close_by_caller i c id x : rsy_callers y !! i = Some c -> charged (ca_pc c) = Some run ->
  resource_ok (put_caller i (at_pc (Result id x) c) (close_run run e y)).
Proof.
  intros Hc Hch. destruct (charged_open _ _ _ _ H Hc Hch) as [_ Hb]. destruct Hopen as [e0 He0].
  pose proof close_pc_ok as Pc. pose proof close_open as Co. rewrite (close_run_eq _ _ _ _ He0) in Pc, Co |- *.
  destruct H as [M L Ca U Cb O F Ft]. split; try done; cbn in *.
  - intros id' r E. destruct (L _ _ E) as [e1 He1]. exists e1. cbn. rewrite lookup_insert_ne; [done|]. intros <-. by apply Hun in E.
  - intros j d [[<- <-]|[Nj E]]%lookup_insert_Some; [done|]. apply Pc; [|by apply Ca in E].
    intros Hd. by apply Nj, (U i j c d run).
  - intros j k d d' r [[<- <-]|[Nj Ej]]%lookup_insert_Some [[<- <-]|[Nk Ek]]%lookup_insert_Some; cbn; try done. by eapply U.
  - intros r b E. destruct (Cb _ _ E) as [Hr [e1 He1]]. split; [done|]. exists e1. rewrite lookup_insert_ne; [done|]. congruence.
  - intros r Hr. destruct (Co r Hr) as [Hn Ho]. destruct (O r Ho) as [(j & d & Ej & Hd)|Hx]; [left|by right].
    exists j, d. split; [|done]. rewrite lookup_insert_ne; [done|]. congruence.
  - intros r Hr. rewrite lookup_insert_ne; [by apply F|]. intros <-. rewrite F in He0 by done. done.
  - by rewrite Ft.
Qed.
End Close.

(** ** Every step keeps the invariant *)

Lemma unregister run id y fn m' : resource_ok y -> run_of (rsy_m y) run id fn ->
  (rm_cleanupRuns (rsy_m y) !! id = Some run -> m' = set_tracked (delete id (rm_resources (rsy_m y))) (delete id (rm_cleanups (rsy_m y))) (delete id (rm_cleanupRuns (rsy_m y))) (rsy_m y)
     \/ m' = set_tracked (rm_resources (rsy_m y)) (rm_cleanups (rsy_m y)) (delete id (rm_cleanupRuns (rsy_m y))) (rsy_m y)) ->
  (rm_cleanupRuns (rsy_m y) !! id <> Some run -> m' = rsy_m y) ->
  resource_ok (put_manager m' y) /\ forall id', rm_cleanupRuns m' !! id' <> Some run.
Proof.
  intros H Hr Hin Hout. pose proof (ro_manager _ H) as M. destruct (decide (rm_cleanupRuns (rsy_m y) !! id = Some run)) as [E|E].
  - assert (G : forall m0, rm_cleanupRuns m0 = delete id (rm_cleanupRuns (rsy_m y)) -> forall id', rm_cleanupRuns m0 !! id' <> Some run).
    { intros m0 -> id' [Hn E']%lookup_delete_Some. by destruct (Hr _ E'). }
    destruct (Hin E) as [-> | ->]; (split; [|by apply G]); apply put_manager_ok;
      auto using forget_ok, drop_run_ok, narrows_delete, narrows_drop.
  - rewrite (Hout E). split; [by apply put_manager_ok|]. intros id' E'. destruct (Hr _ E') as [-> _]. done.
Qed.

Lemma on_done_ok run b e y : resource_ok y -> rsy_callbacks y !! run = Some b -> finished b = false ->
  resource_ok (put_callback run (mkCallback (cb_id b) (cb_fn b) Finished) (on_done run (cb_id b) e y)).
Proof.
  intros H Hb Hf. destruct (ro_callbacks _ H _ _ Hb) as [Hr [e0 He0]]. rewrite Hf in He0. unfold on_done.
  match goal with |- context [put_manager ?m y] => destruct (unregister run (cb_id b) y _ m H Hr) as [H' Hun] end.
  - intros E. rewrite bool_decide_true by done. destruct e; auto.
  - intros E. by rewrite bool_decide_false.
  - apply close_by_callback; [done|by exists e0|done|done].
Qed.

Lemma start_failed_ok i c run id e y : resource_ok y -> rsy_callers y !! i = Some c -> ca_pc c = StartFailed id run e ->
  resource_ok (put_caller i (at_pc (Result id (Some e)) c) (start_failed run id e y)).
Proof.
  intros H Hc Hp. assert (Ch : charged (ca_pc c) = Some run) by (by rewrite Hp).
  pose proof (ro_callers _ H _ _ Hc) as P. rewrite Hp in P. destruct P as (Ho & Hb & Hr). unfold start_failed.
  match goal with |- context [put_manager ?m y] => destruct (unregister run id y _ m H Hr) as [H' Hun] end.
  - intros E. rewrite bool_decide_true by done. auto.
  - intros E. by rewrite bool_decide_false.
  - by apply close_by_caller.
Qed.

(** A caller without a run moves to another place without one. *)
Lemma caller_move_ok i c c' y y0 : rsy_callers y !! i = Some c -> charged (ca_pc c) = None -> rsy_callers y0 = rsy_callers y ->
  resource_ok y0 -> pc_ok y0 (ca_pc c') -> charged (ca_pc c') = None -> resource_ok (put_caller i c' y0).
Proof. intros Hc Hch Ey H0 Hp Hch'. apply (put_caller_ok i (Some c)); [done|by rewrite Ey|done|]. cbn. by rewrite Hch. Qed.

Lemma cleanup_locked_ok i id c y : resource_ok y -> rsy_callers y !! i = Some c -> charged (ca_pc c) = None ->
  resource_ok (cleanup_locked i id c y).
Proof.
  intros H Hc Hch. unfold cleanup_locked. pose proof (fun c' => caller_move_ok i c c' y) as Mv.
  destruct (rm_resources (rsy_m y) !! id) eqn:Er; [|by apply Mv].
  destruct (rm_cleanupRuns (rsy_m y) !! id) as [run|] eqn:Eu.
  - apply Mv; try done. cbn. destruct (ro_link _ H _ _ Eu) as [e He]. by eexists.
  - destruct (rm_cleanups (rsy_m y) !! id) as [fn|] eqn:Ec; [by apply take_run_ok|]. apply Mv; try done.
    apply put_manager_ok; [done|by apply forget_untracked_ok, Eu; apply H|].
    intros id' run E. cbn in E |- *. split; [done|]. apply lookup_delete_ne. congruence.
Qed.

Lemma caller_step_ok i refused first y y' : resource_ok y -> caller_step i refused first y = Some y' -> resource_ok y'.
Proof.
  intros H. unfold caller_step. destruct (rsy_callers y !! i) as [c|] eqn:Hc; [|done].
  pose proof (ro_callers _ H _ _ Hc) as P.
  assert (Plain : forall c', pc_ok y (ca_pc c') -> charged (ca_pc c') = charged (ca_pc c) -> resource_ok (put_caller i c' y)).
  { intros c' Hp Hch. by eapply put_caller_ok. }
  destruct (ca_pc c) as [|id|id|id run fn|id run e|id run|id e|] eqn:Hp; cbn in P.
  - intros [= <-]. apply Plain; unfold force_loop; repeat case_match; done.
  - intros [= <-]. apply Plain; cbn; case_match; done.
  - intros [= <-]. apply cleanup_locked_ok; [done..|by rewrite Hp].
  - destruct refused as [e|]; intros [= <-]; [|by apply start_run_ok]. apply Plain; [|done].
    destruct P as (Ho & Hb & Hr). cbn. split_and!; [done..|]. intros id' E. by destruct (Hr _ E).
  - intros [= <-]. by apply start_failed_ok.
  - repeat case_match; intros; simplify_eq; by apply Plain.
  - intros [= <-]. apply Plain; unfold loop_result; repeat case_match; done.
  - done.
Qed.

Lemma callback_step_ok run e y y' : resource_ok y -> callback_step run e y = Some y' -> resource_ok y'.
Proof.
  intros H. unfold callback_step. destruct (rsy_callbacks y !! run) as [b|] eqn:Hb; [|done].
  destruct (cb_pc b) eqn:Hp; intros [= <-]; [|by apply on_done_ok; [..|by unfold finished; rewrite Hp]].
  destruct H as [M L Ca U Cb O F Ft]. split; try done; cbn.
  - intros i c E. specialize (Ca _ _ E). assert (Hn : forall r, rsy_callbacks y !! r = None -> run <> r) by (intros r ? <-; congruence).
    destruct (ca_pc c); try done; cbn in *; destruct Ca as (? & ? & ?); rewrite lookup_insert_ne by auto; done.
  - intros r b' [[<- <-]|[Hn E]]%lookup_insert_Some; [|by apply Cb]. destruct (Cb _ _ Hb) as [Hr [x Hx]].
    split; [done|]. exists x. unfold finished in *. by rewrite Hp in Hx.
  - intros r Hr. destruct (decide (run = r)) as [<-|Hn]; [right; by rewrite lookup_insert_eq|]. rewrite lookup_insert_ne by done. by apply O.
Qed.

Lemma resource_step_ok ev y y' : resource_ok y -> resource_step ev y = Some y' -> resource_ok y'.
Proof.
  intros H. pose proof (ro_manager _ H) as M.
  destruct ev as [i owner ids d|i refused first|run e|i|now r cl|id|owner|p]; cbn.
  - destruct (rsy_callers y !! i) eqn:E; [done|]. case_match; intros [= <-]. by apply (put_caller_ok i None).
  - by apply caller_step_ok.
  - by apply callback_step_ok.
  - destruct (rsy_callers y !! i) as [c|] eqn:E; intros [= <-]. apply (put_caller_ok i (Some c)); try done. by apply (ro_callers _ H _ _ E).
  - intros [= <-]. apply put_manager_ok; auto using track_ok, narrows_Register.
  - intros [= <-]. unfold Release. case_match; apply put_manager_ok; cbn; auto using forget_ok, narrows_delete. by intros id' run.
  - intros [= <-]. apply put_manager_ok; [done|by apply (DetectLeaks_ok owner)|by intros id run].
  - intros [= <-]. apply put_manager_ok; [done|by destruct M|by intros id run].
Qed.

Lemma system_New_ok maxResources : resource_ok (NewSystem maxResources).
Proof.
  split; cbn; try done; try (by apply manager_New_ok). intros run [e He]. done.
Qed.

Lemma resource_reachable_ok maxResources y : resource_reachable maxResources y -> resource_ok y.
Proof. induction 1; eauto using system_New_ok, resource_step_ok. Qed.

Lemma max_fixed ev y y' : resource_step ev y = Some y' -> rm_maxResources (rsy_m y') = rm_maxResources (rsy_m y).
Proof.
  assert (Cl : forall run e y, rsy_m (close_run run e y) = rsy_m y) by (intros; unfold close_run; by case_match).
  destruct ev as [i owner ids d|i refused first|run e|i|now r cl|id|owner|p]; cbn.
  - repeat case_match; intros; by simplify_eq.
  - unfold caller_step, cleanup_locked, start_failed. repeat case_match; intros; simplify_eq; cbn; rewrite ?Cl; cbn; try done; by case_match.
  - unfold callback_step, on_done. repeat case_match; intros; simplify_eq; cbn; rewrite ?Cl; cbn; done.
  - repeat case_match; intros; by simplify_eq.
  - intros [= <-]. cbn. unfold RegisterWithCleanupContext. by repeat case_match.
  - intros [= <-]. cbn. unfold Release. by repeat case_match.
  - by intros [= <-].
  - by intros [= <-].
Qed.

Lemma max_reachable maxResources y : resource_reachable maxResources y -> rm_maxResources (rsy_m y) = rm_maxResources (NewManagerWithLimit maxResources).
Proof. induction 1 as [|ev y y' _ IH E]; [done|]. by rewrite (max_fixed _ _ _ E). Qed.

Lemma resource_run_reachable maxResources evs : forall y y', resource_reachable maxResources y -> resource_run evs y = Some y' -> resource_reachable maxResources y'.
Proof.
  induction evs as [|ev evs IH]; intros y y' H; cbn; [by intros [= <-]|].
  destruct (resource_step ev y) as [y0|] eqn:E; [|done]. apply IH. by eapply rs_next.
Qed.

(** ** What the manager promises *)

(** Who will close a run: the caller that is starting it, or the goroutine of its callback. *)
Definition in_charge (y : rsys) (run : nat) (who : nat + unit) : Prop :=
  match who with
  | inl i => exists c, rsy_callers y !! i = Some c /\ charged (ca_pc c) = Some run
  | inr _ => exists b, rsy_callbacks y !! run = Some b /\ finished b = false
  end.

Lemma open_in_charge y run : resource_ok y -> is_open y run <-> exists who, in_charge y run who.
Proof.
  intros H. split.
  - intros Ho. destruct (ro_open _ H _ Ho) as [(i & c & E & Hc)|[b Hb]]; [by exists (inl i), c|].
    exists (inr tt), b. split; [done|]. destruct (ro_callbacks _ H _ _ Hb) as [_ [e He]]. destruct Ho as [e' He']. congruence.
  - intros [[i|[]] W]; [destruct W as (c & E & Hc); by eapply charged_open|]. destruct W as (b & Hb & Hf).
    destruct (ro_callbacks _ H _ _ Hb) as [_ [e He]]. exists e. congruence.
Qed.

(** In every state the manager can reach by registrations, releases, leak detections
    and concurrent forced cleanups, interleaved at every lock, [select] and callback: no
    more resources are tracked than the limit; an identifier has a cleanup run only
    while it is tracked with a cleanup, and that run is still open; every open run has
    exactly one goroutine in charge of closing it, the caller that is starting it or its
    callback; and no channel was closed twice. *)
Theorem cleanup_runs_exact maxResources y : resource_reachable maxResources y ->
  Z.of_nat (size (rm_resources (rsy_m y))) <= rm_maxResources (NewManagerWithLimit maxResources) /\
  (forall id run, rm_cleanupRuns (rsy_m y) !! id = Some run ->
     is_Some (rm_resources (rsy_m y) !! id) /\ is_Some (rm_cleanups (rsy_m y) !! id) /\ is_open y run) /\
  (forall run, is_open y run <-> exists who, in_charge y run who) /\
  (forall run who who', in_charge y run who -> in_charge y run who' -> who = who') /\
  rsy_fault y = false.
Proof.
  intros R. pose proof (resource_reachable_ok _ _ R) as H. pose proof (ro_manager _ H) as M. split_and!.
  - rewrite <- (max_reachable _ _ R). apply M.
  - intros id run E. destruct (mo_runs _ M _ _ E) as [fn Hf]. split_and!; [by eapply mo_cleanups|by exists fn|by eapply ro_link].
  - intros run. by apply open_in_charge.
  - intros run [i|[]] [j|[]] W W'; [f_equal| | |done].
    + destruct W as (c & Ec & Hc), W' as (d & Ed & Hd). by eapply (ro_unique _ H i j).
    + destruct W as (c & Ec & Hc), W' as (b & Eb & _). destruct (charged_open _ _ _ _ H Ec Hc). congruence.
    + destruct W' as (c & Ec & Hc), W as (b & Eb & _). destruct (charged_open _ _ _ _ H Ec Hc). congruence.
  - apply H.
Qed.

(** C19. A tracked resource leaves the tracking only when it is released, when a forced
    cleanup finds that it has no cleanup function, or when the very function it is
    registered with has run and returned without error. A failed, refused or abandoned
    cleanup keeps it, and so does the end of a cleanup of an earlier resource of the same
    identifier. *)
Theorem tracked_until_cleaned maxResources y ev y' id r :
  resource_reachable maxResources y -> resource_step ev y = Some y' ->
  rm_resources (rsy_m y) !! id = Some r -> rm_resources (rsy_m y') !! id = None ->
  ev = EvRelease id \/
  (exists i refused first c, ev = EvStep i refused first /\ rsy_callers y !! i = Some c /\ ca_pc c = Lock id /\ rm_cleanups (rsy_m y) !! id = None) \/
  (exists run e b, ev = EvCallback run e /\ rsy_callbacks y !! run = Some b /\ cb_pc b = Completing None /\
     cb_id b = id /\ rm_cleanups (rsy_m y) !! id = Some (cb_fn b)).
Proof.
  intros R S E E'. pose proof (resource_reachable_ok _ _ R) as H.
  assert (Cl : forall run e y, rsy_m (close_run run e y) = rsy_m y) by (intros; unfold close_run; by case_match).
  destruct ev as [i owner ids d|i refused first|run e|i|now r' cl|id'|owner|p]; cbn in S.
  - repeat case_match; simplify_eq/=; congruence.
  - right. left. unfold caller_step in S. destruct (rsy_callers y !! i) as [c|] eqn:Hc; [|done]. exists i, refused, first, c.
    destruct (ca_pc c) eqn:Hp; cbn in S; repeat case_match; simplify_eq/=; try congruence.
    + unfold cleanup_locked in E'. destruct (decide (id0 = id)) as [->|Hn]; [|repeat case_match; cbn in E'; rewrite ?lookup_delete_ne in E' by done; congruence].
      rewrite E in E'. repeat case_match; cbn in E'; congruence || done.
    + unfold start_failed in E'. rewrite Cl in E'. cbn in E'. case_match; cbn in E'; congruence.
  - right. right. unfold callback_step in S. destruct (rsy_callbacks y !! run) as [b|] eqn:Hb; [|done].
    destruct (ro_callbacks _ H _ _ Hb) as [Hr _]. exists run, e, b.
    destruct (cb_pc b) as [|x|] eqn:Hp; [injection S as <-; cbn in E'; congruence| |done]. simplify_eq/=.
    unfold on_done in E'. rewrite Cl in E'. cbn in E'.
    case_bool_decide as Hrun; [|congruence]. destruct x; [cbn in E'; congruence|]. cbn in E'.
    apply lookup_delete_None in E' as [Hi|E']; [subst id|congruence].
    destruct (Hr _ Hrun) as [_ Hf]. split_and!; auto.
  - repeat case_match; simplify_eq/=; congruence.
  - simplify_eq/=. unfold RegisterWithCleanupContext in E'. repeat case_match; cbn in E'; try (apply lookup_insert_None in E' as [E' _]); congruence.
  - simplify_eq/=. left. unfold Release in E'. case_match; cbn in E'; [|congruence].
    apply lookup_delete_None in E' as [->|E']; [done|]. congruence.
  - simplify_eq/=. rewrite lookup_fmap, E in E'. done.
  - by simplify_eq/=.
Qed.

(** Closing a run leaves the callers where they are. *)
Lemma close_run_callers run e y : rsy_callers (close_run run e y) = rsy_callers y.
Proof. unfold close_run. by case_match. Qed.
Lemma close_run_runs run e y u : rsy_runs y !! run = Some u -> rsy_runs (close_run run e y) !! run = Some (mkRun true e).
Proof. unfold close_run. intros ->. cbn. apply lookup_insert_eq. Qed.


Lemma start_failed_callers run id e y : rsy_callers (start_failed run id e y) = rsy_callers y.
Proof. unfold start_failed. by rewrite close_run_callers. Qed.

(** The two steps of a callback close its run. *)
Lemma callback_closes y run b answer : resource_ok y -> rsy_callbacks y !! run = Some b -> finished b = false ->
  exists evs y' e, (length evs <= 2)%nat /\ Forall (eq (EvCallback run answer)) evs /\ resource_run evs y = Some y' /\
    rsy_callers y' = rsy_callers y /\ rsy_runs y' !! run = Some (mkRun true e).
Proof.
  intros H Hb Hf. destruct (ro_callbacks _ H _ _ Hb) as [_ [e0 He0]]. unfold finished in Hf.
  destruct (cb_pc b) as [|x|] eqn:Hp; [| |done].
  - exists [EvCallback run answer; EvCallback run answer]. cbn. unfold callback_step. rewrite Hb, Hp. cbn.
    rewrite lookup_insert_eq. cbn. eexists _, answer. split_and!; [lia|by repeat constructor|done| |]; cbn.
    + unfold on_done. by rewrite close_run_callers.
    + unfold on_done. by eapply close_run_runs.
  - exists [EvCallback run answer]. cbn. unfold callback_step. rewrite Hb, Hp.
    eexists _, x. split_and!; [lia|by repeat constructor|done| |]; cbn.
    + unfold on_done. by rewrite close_run_callers.
    + unfold on_done. by eapply close_run_runs.
Qed.

(** A caller in charge closes its run, or hands it to a callback. *)
Lemma caller_closes y j d run refused answer : resource_ok y -> rsy_callers y !! j = Some d -> charged (ca_pc d) = Some run ->
  exists evs y' e, (length evs <= 3)%nat /\ Forall (fun ev => ev = EvCallback run answer \/ ev = EvStep j refused true) evs /\
    resource_run evs y = Some y' /\ (forall i, i <> j -> rsy_callers y' !! i = rsy_callers y !! i) /\ rsy_runs y' !! run = Some (mkRun true e).
Proof.
  intros H Hd Hch. destruct (charged_open _ _ _ _ H Hd Hch) as [[e0 He0] Hb].
  destruct (ca_pc d) as [| | |id r fn|id r x| | |] eqn:Hp; simplify_eq/=; [destruct refused as [x|]|].
  - exists [EvStep j (Some x) true; EvStep j (Some x) true]. cbn. unfold caller_step. rewrite Hd, Hp. cbn.
    rewrite lookup_insert_eq. cbn. eexists _, (Some x). split_and!; [lia|by auto|done| |]; cbn.
    + intros i Hn. rewrite start_failed_callers. cbn. by rewrite !lookup_insert_ne.
    + unfold start_failed. by eapply close_run_runs.
  - set (y1 := put_caller j (at_pc (Wait id run) d) (put_callback run (mkCallback id fn Running) y)).
    assert (S1 : resource_step (EvStep j None true) y = Some y1) by (cbn; unfold caller_step; by rewrite Hd, Hp).
    destruct (callback_closes y1 run (mkCallback id fn Running) answer) as (evs & y' & e & Hl & Ha & Hrun & Hcs & Hr).
    { by eapply resource_step_ok. } { by apply lookup_insert_eq. } { done. }
    exists (EvStep j None true :: evs), y', e. split_and!; [cbn; lia| | | |done].
    + constructor; [by right|]. eapply Forall_impl; [exact Ha|]. intros ev <-. by left.
    + cbn [resource_run]. by rewrite S1.
    + intros i Hn. rewrite Hcs. cbn. by rewrite lookup_insert_ne.
  - exists [EvStep j refused true]. cbn. unfold caller_step. rewrite Hd, Hp. eexists _, (Some x).
    split_and!; [lia|by auto|done| |]; cbn.
    + intros i Hn. rewrite start_failed_callers. by rewrite lookup_insert_ne.
    + unfold start_failed. by eapply close_run_runs.
Qed.

(** C20. A caller that waits for a cleanup run is never stuck behind it. Whatever the
    executor and the cleanup answer, at most three steps of whoever is in charge of the
    run close it, and then the waiting caller's own next step takes the error of the run. *)
Theorem waiter_released maxResources y i c id run refused answer :
  resource_reachable maxResources y -> rsy_callers y !! i = Some c -> ca_pc c = Wait id run ->
  exists evs y' e y'', (length evs <= 3)%nat /\
    Forall (fun ev => ev = EvCallback run answer \/ exists j, j <> i /\ ev = EvStep j refused true) evs /\
    resource_run evs y = Some y' /\ rsy_runs y' !! run = Some (mkRun true e) /\
    caller_step i refused true y' = Some y'' /\ rsy_callers y'' !! i = Some (at_pc (Result id e) c).
Proof.
  intros R Hc Hp. pose proof (resource_reachable_ok _ _ R) as H.
  assert (Last : forall y' e, rsy_callers y' !! i = Some c -> rsy_runs y' !! run = Some (mkRun true e) ->
    caller_step i refused true y' = Some (put_caller i (at_pc (Result id e) c) y')).
  { intros y' e Hc' Hr'. unfold caller_step. by rewrite Hc', Hp, Hr'. }
  pose proof (ro_callers _ H _ _ Hc) as P. rewrite Hp in P. destruct P as [[[] e] Hu].
  { exists [], y, e. eexists. split_and!; [cbn; lia|done|done|done|by apply Last|apply lookup_insert_eq]. }
  destruct (proj1 (open_in_charge y run H) (ex_intro _ e Hu)) as [[j|[]] W].
  - destruct W as (d & Hd & Hch). assert (j <> i) by (intros ->; rewrite Hc in Hd; simplify_eq; by rewrite Hp in Hch).
    destruct (caller_closes y j d run refused answer H Hd Hch) as (evs & y' & e' & Hl & Ha & Hrun & Hcs & Hr).
    exists evs, y', e'. eexists. split_and!; [done| |done|done|apply Last; [by rewrite Hcs|done]|apply lookup_insert_eq].
    eapply Forall_impl; [exact Ha|]. intros ev [->| ->]; [by left|right; by exists j].
  - destruct W as (b & Hb & Hf). destruct (callback_closes y run b answer H Hb Hf) as (evs & y' & e' & Hl & Ha & Hrun & Hcs & Hr).
    exists evs, y', e'. eexists. split_and!; [lia| |done|done|apply Last; [by rewrite Hcs|done]|apply lookup_insert_eq].
    eapply Forall_impl; [exact Ha|]. intros ev <-. by left.
Qed.

(** ** Leaks and snapshots *)

Lemma leak_mark_leaked owner r : rs_Owner (leak_mark owner r) = owner -> rs_State (leak_mark owner r) = StateLeaked ->
  leak_mark owner r = leaked r /\ rs_Owner r = owner /\ (rs_State r = StateActive \/ rs_State r = StateLeaked).
Proof.
  assert (E : rs_State r = StateLeaked -> r = leaked r) by (destruct r; cbn; by intros ->).
  unfold leak_mark. case_bool_decide as Ho; cbn; [case_bool_decide as Ha; cbn|]; intros ? Hs; split_and!; auto.
Qed.

Lemma leak_mark_twice owner r : leak_mark owner (leak_mark owner r) = leak_mark owner r.
Proof. unfold leak_mark at 2 3. case_match eqn:E; [|unfold leak_mark; by rewrite E]. unfold leak_mark. cbn. by rewrite andb_false_r. Qed.

(** The leaks [DetectLeaks] reports for an owner are its tracked resources that are
    active or already leaked, all reported as leaked; it leaves the resources of other
    owners, every cleanup function and every cleanup run as they were; and a second
    detection reports the same leaks and changes nothing. *)
Theorem DetectLeaks_exact owner m :
  (forall r', r' ∈ (DetectLeaks owner m).1 <-> exists id r, rm_resources m !! id = Some r /\ r' = leaked r /\
     rs_Owner r = owner /\ (rs_State r = StateActive \/ rs_State r = StateLeaked)) /\
  (forall id r, rm_resources m !! id = Some r -> rs_Owner r <> owner -> rm_resources (DetectLeaks owner m).2 !! id = Some r) /\
  rm_cleanups (DetectLeaks owner m).2 = rm_cleanups m /\ rm_cleanupRuns (DetectLeaks owner m).2 = rm_cleanupRuns m /\
  DetectLeaks owner (DetectLeaks owner m).2 = DetectLeaks owner m.
Proof.
  split_and!; try done.
  - intros r'. cbn. rewrite list_elem_of_filter, list_elem_of_fmap. split.
    + intros [[Ho Hs] ([id x] & -> & E)]. cbn in Ho, Hs |- *. apply elem_of_map_to_list in E. rewrite lookup_fmap in E.
      apply fmap_Some in E as (r & Hr & ->). exists id, r. split; [done|]. by apply leak_mark_leaked.
    + intros (id & r & Hr & -> & Ho & Hs). split; [done|]. exists (id, leaked r). split; [done|].
      apply elem_of_map_to_list. rewrite lookup_fmap, Hr. cbn. f_equal. unfold leak_mark. rewrite bool_decide_true by done.
      destruct Hs as [Hs|Hs]; [by rewrite bool_decide_true|]. rewrite bool_decide_false by (rewrite Hs; done).
      destruct r; cbn in *. by subst.
  - intros id r Hr Ho. cbn. rewrite lookup_fmap, Hr. cbn. unfold leak_mark. by rewrite bool_decide_false.
  - assert (E : leak_mark owner <$> (leak_mark owner <$> rm_resources m) = leak_mark owner <$> rm_resources m).
    { rewrite <- map_fmap_compose. apply map_fmap_ext. intros id r _. apply leak_mark_twice. }
    unfold DetectLeaks at 1. cbn. by rewrite E.
Qed.

Definition own_add (owner : string) (s : OwnerSnapshot) (r : Resource) : OwnerSnapshot := if decide (rs_Owner r = owner) then snap_add s r else s.

Lemma own_add_mine owner s r : rs_Owner r = owner -> own_add owner s r = snap_add s r.
Proof. intros H. unfold own_add. by destruct (decide _). Qed.
Lemma own_add_other owner s r : rs_Owner r <> owner -> own_add owner s r = s.
Proof. intros H. unfold own_add. by destruct (decide _). Qed.

Lemma count_cons {A} (P : A -> Prop) `{forall x, Decision (P x)} x l :
  Z.of_nat (length (filter P (x :: l))) = (if decide (P x) then 1 else 0) + Z.of_nat (length (filter P l)).
Proof. rewrite filter_cons. destruct (decide (P x)); cbn [length]; lia. Qed.

Lemma own_fold owner l : forall s, let s' := foldl (own_add owner) s l in let mine := filter (fun r => rs_Owner r = owner) l in
  os_TotalActive s' = os_TotalActive s + Z.of_nat (length mine) /\
  (forall t, zget t (os_CountsByType s') = zget t (os_CountsByType s) + Z.of_nat (length (filter (fun r => rs_Type r = t) mine))) /\
  os_Leaked s' = os_Leaked s + Z.of_nat (length (filter (fun r => rs_State r = StateLeaked) mine)).
Proof.
  induction l as [|r l IH]; intros s s' mine; [split_and!; [cbn; lia|intros; cbn; lia|cbn; lia]|].
  subst s' mine. cbn [foldl]. destruct (IH (own_add owner s r)) as (I1 & I2 & I3). rewrite filter_cons.
  destruct (decide (rs_Owner r = owner)) as [Ho|Ho]; [rewrite own_add_mine in * by done|by rewrite own_add_other in * by done].
  split_and!; [rewrite I1|intros t; rewrite I2, count_cons|rewrite I3, count_cons]; cbn [snap_add os_TotalActive os_CountsByType os_Leaked length].
  - lia.
  - destruct (decide (rs_Type r = t)) as [<-|Ht]; [rewrite zget_insert|rewrite zget_insert_ne by congruence]; lia.
  - destruct (decide (rs_State r = StateLeaked)); lia.
Qed.

Lemma own_fold_none owner l : filter (fun r => rs_Owner r = owner) l = [] -> forall s, foldl (own_add owner) s l = s.
Proof.
  induction l as [|r l IH]; [done|]. rewrite filter_cons. destruct (decide _) as [Ho|Ho]; [done|]. intros H s. cbn.
  rewrite own_add_other by done. by apply IH.
Qed.

Lemma all_fold owner l : forall acc : gmap string OwnerSnapshot,
  foldl (fun byOwner r => <[rs_Owner r := snap_add (default (mkSnapshot (rs_Owner r) 0 ∅ 0) (byOwner !! rs_Owner r)) r]> byOwner) acc l !! owner =
  match filter (fun r => rs_Owner r = owner) l with
  | [] => acc !! owner
  | _ => Some (foldl (own_add owner) (default (mkSnapshot owner 0 ∅ 0) (acc !! owner)) l)
  end.
Proof.
  induction l as [|r l IH]; intros acc; [done|]. cbn [foldl]. rewrite IH, filter_cons.
  destruct (decide (rs_Owner r = owner)) as [Ho|Hn].
  - rewrite own_add_mine, Ho, lookup_insert_eq by done. cbn. case_match eqn:E; [|done]. by rewrite own_fold_none.
  - by rewrite own_add_other, !lookup_insert_ne by done.
Qed.

(** The two summaries agree with the tracked resources and with each other:
    [AllSnapshots] has an entry for an owner exactly when the owner has a tracked
    resource, and it is the entry [OwnerSnapshot] computes; its total is the number of
    resources [ByOwner] returns, its counts are theirs by type, and its leaked count is
    the number of them in the leaked state. *)
Theorem snapshots_agree owner m :
  all_snapshots m !! owner = (match ByOwner owner m with [] => None | _ => Some (snapshot_of owner m) end) /\
  os_TotalActive (snapshot_of owner m) = Z.of_nat (length (ByOwner owner m)) /\
  (forall t, zget t (os_CountsByType (snapshot_of owner m)) = Z.of_nat (length (filter (fun r => rs_Type r = t) (ByOwner owner m)))) /\
  os_Leaked (snapshot_of owner m) = Z.of_nat (length (filter (fun r => rs_State r = StateLeaked) (ByOwner owner m))).
Proof.
  split; [|exact (own_fold owner (map_to_list (rm_resources m)).*2 (mkSnapshot owner 0 ∅ 0))].
  unfold all_snapshots. rewrite (all_fold owner _ ∅). unfold ByOwner, snapshot_of. by rewrite lookup_empty.
Qed.

(** ** A run *)

(** Two callers force the cleanup of an owner with two resources; the first starts the
    cleanup of the one that has a function, the second waits for the same run, and the
    function has just returned. *)
Definition sample_force : list resource_event :=
  [EvRegister 5 (mkResource "a" "plugin:x" "job" 0 "" ∅) (Some 7%nat); EvRegister 6 (mkResource "b" "plugin:x" "lock" 0 "" ∅) None;
   EvDetect "plugin:x"; EvForce 0 "plugin:x" ["a"; "b"] false; EvForce 1 "plugin:x" ["b"; "a"] false;
   EvStep 0 None true; EvStep 0 None true; EvStep 0 None true; EvStep 0 None true;
   EvStep 1 None true; EvStep 1 None true; EvStep 1 None true; EvStep 1 None true;
   EvStep 1 None true; EvStep 1 None true; EvStep 1 None true; EvCallback 0 None].

Lemma cleanup_runs_exact_witness : exists y, resource_run sample_force (NewSystem 2) = Some y /\
  size (rm_resources (rsy_m y)) = 1%nat /\ (exists who, in_charge y 0%nat who) /\ rsy_fault y = false.
Proof.
  eexists. split; [vm_compute; reflexivity|]. split; [reflexivity|]. split.
  - exists (inr tt), (mkCallback "a" 7 (Completing None)). by split.
  - eapply (cleanup_runs_exact 2), (resource_run_reachable 2 sample_force _ _ (rs_new 2)). vm_compute. reflexivity.
Defined.

Lemma tracked_until_cleaned_witness : exists y y' r, resource_run sample_force (NewSystem 2) = Some y /\
  resource_step (EvCallback 0 None) y = Some y' /\ rm_resources (rsy_m y) !! "a" = Some r /\ rm_resources (rsy_m y') !! "a" = None /\
  (EvCallback 0 None = EvRelease "a" \/
   (exists i refused first c, EvCallback 0 None = EvStep i refused first /\ rsy_callers y !! i = Some c /\ ca_pc c = Lock "a" /\ rm_cleanups (rsy_m y) !! "a" = None) \/
   (exists run e b, EvCallback 0 None = EvCallback run e /\ rsy_callbacks y !! run = Some b /\ cb_pc b = Completing None /\
      cb_id b = "a" /\ rm_cleanups (rsy_m y) !! "a" = Some (cb_fn b))).
Proof.
  eexists _, _, _. split; [vm_compute; reflexivity|]. split; [vm_compute; reflexivity|]. split; [vm_compute; reflexivity|].
  split; [vm_compute; reflexivity|].
  eapply (tracked_until_cleaned 2); [eapply (resource_run_reachable 2 sample_force _ _ (rs_new 2))| | |]; vm_compute; reflexivity.
Defined.

Lemma waiter_released_witness : exists y c, resource_run sample_force (NewSystem 2) = Some y /\
  rsy_callers y !! 1%nat = Some c /\ ca_pc c = Wait "a" 0 /\
  exists evs y' e y'', (length evs <= 3)%nat /\
    Forall (fun ev => ev = EvCallback 0 (Some (CeFailed 4)) \/ exists j, j <> 1%nat /\ ev = EvStep j None true) evs /\
    resource_run evs y = Some y' /\ rsy_runs y' !! 0%nat = Some (mkRun true e) /\
    caller_step 1 None true y' = Some y'' /\ rsy_callers y'' !! 1%nat = Some (at_pc (Result "a" e) c).
Proof.
  eexists _, _. split; [vm_compute; reflexivity|]. split; [vm_compute; reflexivity|]. split; [reflexivity|].
  eapply (waiter_released 2); [eapply (resource_run_reachable 2 sample_force _ _ (rs_new 2))| |]; vm_compute; reflexivity.
Defined.

(** A cleanup takes the identifiers of an owner first and looks them up one by one later:
    an identifier that another owner has registered meanwhile is cleaned up with it. *)
Definition stale_identifier : list resource_event :=
  [EvRegister 5 (mkResource "a" "plugin:x" "job" 0 "" ∅) None; EvForce 0 "plugin:x" ["a"] false; EvRelease "a";
   EvRegister 6 (mkResource "a" "plugin:y" "job" 0 "" ∅) None; EvStep 0 None true; EvStep 0 None true; EvStep 0 None true].
Lemma other_owner_cleaned : exists y y', resource_run (firstn 6 stale_identifier) (NewSystem 2) = Some y /\
  option_map rs_Owner (rm_resources (rsy_m y) !! "a") = Some "plugin:y" /\
  resource_run stale_identifier (NewSystem 2) = Some y' /\ rm_resources (rsy_m y') !! "a" = None.
Proof. eexists _, _. by vm_compute. Qed.
