(* ===== verification/PersistencePump.v ===== *)
(** * The persistence pump

    Models [internal/jobs/persistence_pump.go]: the bounded service that commits the
    results of durable tasks and acknowledges them to the engine. [pump_step]
    interleaves the callers with any number of workers, each at one of the atomic
    accesses of [workerLoop] and [workerDone]; what runs under [mu] is one step.
    [pp_accepted] and [pp_acked] are the requests the pump took and those whose
    acknowledgement it ran, [pp_maxEver] the largest byte budget it was given, for
    the statements. *)

From S2P Require Import Prelude.

Record request := mkRequest { pr_id : Z; pr_bytes : Z }.
#[global] Instance request_eq_dec : EqDecision request.
Proof. solve_decision. Defined.

Inductive pump_error := ErrPumpClosed | ErrPumpByteBudget | ErrPumpQueueFull.

(** What the operation of a request does, and what [processRequest] makes of it. *)
Inductive op_outcome := OpReturns (e : option string) | OpPanics (v : string).
Inductive op_error := OpError (e : string) | OpPanic (v : string) | OpContext.
Definition processRequest (expired : bool) (execute : option op_outcome) : option op_error :=
  if expired then Some OpContext
  else match execute with
       | None => None
       | Some (OpReturns e) => OpError <$> e
       | Some (OpPanics v) => Some (OpPanic v)
       end.

Inductive pworker :=
  | PSelect                                          (* at the select of [workerLoop] *)
  | PReceived (r : request)                          (* before [active.Add(1)] *)
  | PActive (r : request)                            (* before [queued.Add(-1)] *)
  | PRun (r : request)                               (* in [processRequest] *)
  | PRan (r : request) (e : option op_error)         (* before [active.Add(-1)] *)
  | PRelease (r : request) (e : option op_error)     (* before the lock that gives its bytes back *)
  | PAck (r : request) (e : option op_error)         (* before [ack] or the send of the result *)
  | PTimer                                           (* the idle timer fired, before the lock *)
  | PReturn.                                         (* returned, before the lock of [workerDone] *)

Record pump := mkPump {
  pp_started : bool;
  pp_running : bool; pp_accepting : bool;
  pp_concurrency : Z; pp_queueCap : Z;
  pp_queue : list request;
  pp_remaining : Z; pp_queued : Z; pp_active : Z;
  pp_done : bool;
  pp_maxRetainedBytes : Z; pp_retainedBytes : Z; pp_byteRejections : Z;
  pp_workers : gmap nat pworker; pp_next : nat;
  pp_accepted : list request; pp_acked : list (request * option op_error); pp_maxEver : Z
}.

Definition pp_set_life (running accepting done : bool) (p : pump) : pump :=
  mkPump (pp_started p) running accepting (pp_concurrency p) (pp_queueCap p) (pp_queue p) (pp_remaining p) (pp_queued p) (pp_active p)
    done (pp_maxRetainedBytes p) (pp_retainedBytes p) (pp_byteRejections p) (pp_workers p) (pp_next p) (pp_accepted p) (pp_acked p) (pp_maxEver p).
Definition pp_set_counts (remaining queued active : Z) (p : pump) : pump :=
  mkPump (pp_started p) (pp_running p) (pp_accepting p) (pp_concurrency p) (pp_queueCap p) (pp_queue p) remaining queued active
    (pp_done p) (pp_maxRetainedBytes p) (pp_retainedBytes p) (pp_byteRejections p) (pp_workers p) (pp_next p) (pp_accepted p) (pp_acked p) (pp_maxEver p).
Definition pp_set_queue (q : list request) (p : pump) : pump :=
  mkPump (pp_started p) (pp_running p) (pp_accepting p) (pp_concurrency p) (pp_queueCap p) q (pp_remaining p) (pp_queued p) (pp_active p)
    (pp_done p) (pp_maxRetainedBytes p) (pp_retainedBytes p) (pp_byteRejections p) (pp_workers p) (pp_next p) (pp_accepted p) (pp_acked p) (pp_maxEver p).
Definition pp_set_bytes (max retained rejections : Z) (p : pump) : pump :=
  mkPump (pp_started p) (pp_running p) (pp_accepting p) (pp_concurrency p) (pp_queueCap p) (pp_queue p) (pp_remaining p) (pp_queued p) (pp_active p)
    (pp_done p) max retained rejections (pp_workers p) (pp_next p) (pp_accepted p) (pp_acked p) (Z.max (pp_maxEver p) max).
Definition pp_set_workers (ws : gmap nat pworker) (next : nat) (p : pump) : pump :=
  mkPump (pp_started p) (pp_running p) (pp_accepting p) (pp_concurrency p) (pp_queueCap p) (pp_queue p) (pp_remaining p) (pp_queued p) (pp_active p)
    (pp_done p) (pp_maxRetainedBytes p) (pp_retainedBytes p) (pp_byteRejections p) ws next (pp_accepted p) (pp_acked p) (pp_maxEver p).
Definition pp_set_log (accepted : list request) (acked : list (request * option op_error)) (p : pump) : pump :=
  mkPump (pp_started p) (pp_running p) (pp_accepting p) (pp_concurrency p) (pp_queueCap p) (pp_queue p) (pp_remaining p) (pp_queued p) (pp_active p)
    (pp_done p) (pp_maxRetainedBytes p) (pp_retainedBytes p) (pp_byteRejections p) (pp_workers p) (pp_next p) accepted acked (pp_maxEver p).

Definition DefaultPersistenceRetainedBytes : Z := 64 * 2 ^ 20.
Definition defaultPersistenceRequestBytes : Z := 512.

Definition NewPersistencePump (concurrency queueCap : Z) : pump :=
  let concurrency := if concurrency <=? 0 then 2 else concurrency in
  let queueCap := if queueCap <=? 0 then 256 else queueCap in
  mkPump false false false concurrency queueCap [] 0 0 0 false DefaultPersistenceRetainedBytes 0 0 ∅ 0 [] []
    DefaultPersistenceRetainedBytes.

Definition SetMaxRetainedBytes (max : Z) (p : pump) : pump :=
  if max <=? 0 then p else pp_set_bytes max (pp_retainedBytes p) (pp_byteRejections p) p.

(** [Start]; it cannot be called twice, not even after [Stop]. *)
Definition Start (p : pump) : bool * pump :=
  if pp_started p then (false, p)
  else (true, mkPump true true true (pp_concurrency p) (pp_queueCap p) [] 0 0 0 false (pp_maxRetainedBytes p)
          (pp_retainedBytes p) (pp_byteRejections p) (pp_workers p) (pp_next p) (pp_accepted p) (pp_acked p) (pp_maxEver p)).

Fixpoint pp_spawn (n : nat) (p : pump) : pump :=
  match n with
  | O => p
  | S n => pp_spawn n (pp_set_workers (<[pp_next p := PSelect]> (pp_workers p)) (S (pp_next p))
             (pp_set_counts (pp_remaining p + 1) (pp_queued p) (pp_active p) p))
  end.

Definition ensureWorkersLocked (p : pump) : pump :=
  if negb (pp_running p) then p
  else
    let target := pp_active p + pp_queued p in
    let target := if target <? 1 then 1 else target in
    let target := if pp_concurrency p <? target then pp_concurrency p else target in
    pp_spawn (Z.to_nat (target - pp_remaining p)) p.

Definition pp_queueLen (p : pump) : Z := Z.of_nat (length (pp_queue p)).

(** [enqueueRequest]: the charge of the request is the one given, or the default. *)
Definition charge (bytes : Z) : Z := if bytes <=? 0 then defaultPersistenceRequestBytes else bytes.
Definition enqueueRequest (id bytes : Z) (p : pump) : option pump_error * pump :=
  let r := mkRequest id (charge bytes) in
  if negb (pp_accepting p) || negb (pp_running p) then (Some ErrPumpClosed, p)
  else if (0 <? pp_maxRetainedBytes p) && (pp_maxRetainedBytes p - pp_retainedBytes p <? pr_bytes r) then
    (Some ErrPumpByteBudget, pp_set_bytes (pp_maxRetainedBytes p) (pp_retainedBytes p) (pp_byteRejections p + 1) p)
  else if pp_queueLen p <? pp_queueCap p then
    let p := pp_set_counts (pp_remaining p) (pp_queued p + 1) (pp_active p) p in
    let p := pp_set_log (pp_accepted p ++ [r]) (pp_acked p) (pp_set_queue (pp_queue p ++ [r]) p) in
    let p := pp_set_bytes (pp_maxRetainedBytes p) (pp_retainedBytes p + pr_bytes r) (pp_byteRejections p) p in
    (None, ensureWorkersLocked p)
  else (Some ErrPumpQueueFull, p).

Definition Quiesce (p : pump) : pump := pp_set_life (pp_running p) false (pp_done p) p.

(** [Drain] up to its wait; [Start] is what makes [done]. *)
Definition Drain (p : pump) : pump :=
  if pp_running p then pp_set_life false false (pp_done p || (pp_remaining p =? 0)) p else p.

(** [workerDone]. *)
Definition workerDone (w : nat) (p : pump) : pump :=
  let p := pp_set_counts (pp_remaining p - 1) (pp_queued p) (pp_active p) (pp_set_workers (delete w (pp_workers p)) (pp_next p) p) in
  if negb (pp_running p) then
    if pp_remaining p =? 0 then pp_set_life (pp_running p) (pp_accepting p) true p else p
  else if 0 <? pp_queued p then ensureWorkersLocked p else p.

Definition pp_move (w : nat) (pc : pworker) (p : pump) : pump := pp_set_workers (<[w := pc]> (pp_workers p)) (pp_next p) p.

Inductive pump_event :=
  | PvEnqueue (id bytes : Z) | PvQuiesce | PvDrain | PvSetMax (max : Z)
  | PvReceive (w : nat) | PvClosed (w : nat) | PvTimeout (w : nat)
  | PvWorker (w : nat) (expired : bool) (execute : option op_outcome).

Definition pump_worker (w : nat) (pc : pworker) (expired : bool) (execute : option op_outcome) (p : pump) : option pump :=
  match pc with
  | PSelect => None
  | PReceived r => Some (pp_move w (PActive r) (pp_set_counts (pp_remaining p) (pp_queued p) (pp_active p + 1) p))
  | PActive r => Some (pp_move w (PRun r) (pp_set_counts (pp_remaining p) (pp_queued p - 1) (pp_active p) p))
  | PRun r => Some (pp_move w (PRan r (processRequest expired execute)) p)
  | PRan r e => Some (pp_move w (PRelease r e) (pp_set_counts (pp_remaining p) (pp_queued p) (pp_active p - 1) p))
  | PRelease r e =>
      let retained := pp_retainedBytes p - pr_bytes r in
      Some (pp_move w (PAck r e) (pp_set_bytes (pp_maxRetainedBytes p) (if retained <? 0 then 0 else retained) (pp_byteRejections p) p))
  | PAck r e => Some (pp_move w PSelect (pp_set_log (pp_accepted p) (pp_acked p ++ [(r, e)]) p))
  | PTimer => Some (pp_move w (if pp_running p && (pp_queued p =? 0) then PReturn else PSelect) p)
  | PReturn => Some (workerDone w p)
  end.

Definition is_return (pc : pworker) : bool := match pc with PReturn => true | _ => false end.
Definition retiring (p : pump) : bool := negb (bool_decide (map_Forall (fun _ pc => is_return pc = false) (pp_workers p))).

(** With [calm] no [Drain] comes between a worker's decision to retire and its [workerDone]. *)
Definition pump_step (calm : bool) (ev : pump_event) (p : pump) : option pump :=
  match ev with
  | PvEnqueue id bytes => Some (enqueueRequest id bytes p).2
  | PvQuiesce => Some (Quiesce p)
  | PvDrain => if calm && retiring p then None else Some (Drain p)
  | PvSetMax max => Some (SetMaxRetainedBytes max p)
  | PvReceive w =>
      match pp_workers p !! w, pp_queue p with
      | Some PSelect, r :: q => Some (pp_move w (PReceived r) (pp_set_queue q p))
      | _, _ => None
      end
  | PvClosed w =>
      match pp_workers p !! w, pp_queue p with
      | Some PSelect, [] => if pp_running p then None else Some (pp_move w PReturn p)
      | _, _ => None
      end
  | PvTimeout w => match pp_workers p !! w with Some PSelect => Some (pp_move w PTimer p) | _ => None end
  | PvWorker w expired execute => pp_workers p !! w ≫= fun pc => pump_worker w pc expired execute p
  end.

Inductive pump_reachable (calm : bool) (concurrency queueCap : Z) : pump -> Prop :=
  | pump_init : pump_reachable calm concurrency queueCap (Start (NewPersistencePump concurrency queueCap)).2
  | pump_next ev p p' : pump_reachable calm concurrency queueCap p -> pump_step calm ev p = Some p' ->
      pump_reachable calm concurrency queueCap p'.

Fixpoint pump_run (calm : bool) (evs : list pump_event) (p : pump) : option pump :=
  match evs with [] => Some p | ev :: evs => pump_step calm ev p ≫= pump_run calm evs end.

(** ** The invariant *)

Definition occ (r : request) (l : list request) : Z := lsum (fun x => if decide (x = r) then 1 else 0) l.
Definition in_hand (pc : pworker) : option request :=
  match pc with PReceived r | PActive r | PRun r | PRan r _ | PRelease r _ | PAck r _ => Some r | _ => None end.
Definition carries (r : request) (pc : pworker) : Z := if decide (in_hand pc = Some r) then 1 else 0.
Definition pqueued (pc : pworker) : Z := match pc with PReceived _ | PActive _ => 1 | _ => 0 end.
Definition pactive (pc : pworker) : Z := match pc with PActive _ | PRun _ | PRan _ _ => 1 | _ => 0 end.
Definition pbytes (pc : pworker) : Z :=
  match pc with PReceived r | PActive r | PRun r | PRan r _ | PRelease r _ => pr_bytes r | _ => 0 end.
Definition pone (pc : pworker) : Z := 1.

Record pump_ok (calm : bool) (p : pump) : Prop := {
  po_queued : pp_queued p = pp_queueLen p + msum pqueued (pp_workers p);
  po_active : pp_active p = msum pactive (pp_workers p);
  po_remaining : pp_remaining p = msum pone (pp_workers p);
  po_limits : 0 < pp_concurrency p /\ pp_remaining p <= pp_concurrency p /\ pp_queueLen p <= pp_queueCap p;
  po_next : forall w pc, pp_workers p !! w = Some pc -> (w < pp_next p)%nat;
  po_bytes : pp_retainedBytes p = lsum pr_bytes (pp_queue p) + msum pbytes (pp_workers p);
  po_max : 0 < pp_maxRetainedBytes p <= pp_maxEver p /\ pp_retainedBytes p <= pp_maxEver p;
  po_charged : forall r, r ∈ pp_accepted p -> 0 < pr_bytes r;
  po_once : forall r, occ r (pp_accepted p) =
    occ r (pp_queue p) + msum (carries r) (pp_workers p) + occ r (map fst (pp_acked p));
  po_closed : calm = true -> pp_running p = false -> forall w, pp_workers p !! w = Some PReturn -> pp_queue p = [];
  po_done : if pp_running p then pp_done p = false else (pp_done p = true <-> pp_remaining p = 0);
  po_flushed : calm = true -> pp_done p = true -> pp_queue p = []
}.

(** Whatever waits has a worker. *)
Definition alive (p : pump) : Prop := pp_running p = true -> pp_queue p <> [] -> 0 < pp_remaining p.

#[local] Arguments occ : simpl never.
#[local] Arguments lsum : simpl never.

Lemma occ_nonneg r l : 0 <= occ r l.
Proof. apply lsum_nonneg. intros x _. cbn. case_decide; lia. Qed.

Lemma occ_pos r l : 0 < occ r l <-> r ∈ l.
Proof.
  unfold occ, lsum. induction l as [|x l IH]; cbn; [split; [lia|by intros ?%elem_of_nil]|]. rewrite elem_of_cons, <- IH.
  pose proof (occ_nonneg r l). unfold occ, lsum in *. case_decide; subst; intuition (try lia; congruence).
Qed.

Lemma carries_nonneg r (m : gmap nat pworker) : 0 <= msum (carries r) m.
Proof. apply msum_nonneg. intros. unfold carries. case_decide; lia. Qed.

Lemma occ_app r l1 l2 : occ r (l1 ++ l2) = occ r l1 + occ r l2.
Proof. apply lsum_app. Qed.

(** What is in the queue or in the hands of a worker was accepted, and charged. *)
Lemma held_charged calm p w pc : pump_ok calm p -> pp_workers p !! w = Some pc -> 0 <= pbytes pc /\
  (forall r, in_hand pc = Some r -> 0 < pr_bytes r).
Proof.
  intros Hok Hw. assert (Hin : forall r, in_hand pc = Some r -> 0 < pr_bytes r).
  { intros r Hr. apply (po_charged _ _ Hok). apply occ_pos. rewrite (po_once _ _ Hok).
    assert (carries r pc <= msum (carries r) (pp_workers p)) as Hc.
    { apply (msum_lookup_le _ _ w); [|done]. intros k v _. unfold carries. case_decide; lia. }
    unfold carries at 1 in Hc. rewrite decide_True in Hc by done.
    pose proof (occ_nonneg r (pp_queue p)). pose proof (occ_nonneg r (map fst (pp_acked p))). lia. }
  split; [|done]. destruct pc; cbn; try lia; cbn in Hin; specialize (Hin _ eq_refl); lia.
Qed.

Lemma bytes_nonneg calm p : pump_ok calm p -> 0 <= msum pbytes (pp_workers p) /\ 0 <= lsum pr_bytes (pp_queue p).
Proof.
  intros Hok. split.
  - apply msum_nonneg. intros w pc Hw. by apply (held_charged calm p w pc).
  - apply lsum_nonneg. intros r Hr. assert (0 < pr_bytes r); [|lia]. apply (po_charged _ _ Hok), occ_pos.
    rewrite (po_once _ _ Hok). apply occ_pos in Hr.
    pose proof (carries_nonneg r (pp_workers p)). pose proof (occ_nonneg r (map fst (pp_acked p))). lia.
Qed.

(** ** It is kept *)

Lemma pump_init_ok calm concurrency queueCap : pump_ok calm (Start (NewPersistencePump concurrency queueCap)).2.
Proof.
  unfold NewPersistencePump, DefaultPersistenceRetainedBytes.
  split; cbn; unfold pp_queueLen; cbn; rewrite ?msum_empty; try done;
    repeat case_match; bool_to_prop; try lia; try (by intros r Hr%elem_of_nil).
Qed.

(** A worker moves and takes its counters along. *)
Lemma pmove_ok calm p p' w pc pc' :
  pump_ok calm p -> pp_workers p !! w = Some pc -> pp_workers p' = <[w := pc']> (pp_workers p) ->
  pp_queue p' = pp_queue p -> pp_queueCap p' = pp_queueCap p -> pp_concurrency p' = pp_concurrency p ->
  pp_next p' = pp_next p -> pp_running p' = pp_running p -> pp_done p' = pp_done p -> pp_accepted p' = pp_accepted p ->
  pp_maxEver p' = pp_maxEver p -> pp_maxRetainedBytes p' = pp_maxRetainedBytes p -> pp_remaining p' = pp_remaining p ->
  (forall r, carries r pc' + occ r (map fst (pp_acked p')) = carries r pc + occ r (map fst (pp_acked p))) ->
  pp_queued p' = pp_queued p - pqueued pc + pqueued pc' ->
  pp_active p' = pp_active p - pactive pc + pactive pc' ->
  pp_retainedBytes p' = pp_retainedBytes p - pbytes pc + pbytes pc' -> pbytes pc' <= pbytes pc ->
  (pc' = PReturn -> pp_running p = false -> pp_queue p = []) -> pump_ok calm p'.
Proof.
  intros [O1 O2 O3 O4 O5 O6 O7 O8 O9 O11 O12 O13] Hw El E1 E2 E3 E4 E5 E6 E7 E8 E9 E10 Hran R1 R2 R3 R4 R5.
  split; unfold pp_queueLen in *;
    rewrite ?El, ?E1, ?E2, ?E3, ?E4, ?E5, ?E6, ?E7, ?E8, ?E9, ?E10, ?R3, ?(msum_insert _ _ _ _ _ Hw); try done; try lia.
  - unfold pone in *. lia.
  - intros v q [[<- _]|[_ Hv]]%lookup_insert_Some; by eapply O5.
  - intros r. rewrite (msum_insert _ _ _ _ _ Hw), O9. specialize (Hran r). lia.
  - intros Hc Hr v [[<- Hv]|[_ Hv]]%lookup_insert_Some; [by apply R5|by eapply O11].
Qed.

Lemma pp_spawn_remaining n : forall p, pp_remaining (pp_spawn n p) = pp_remaining p + Z.of_nat n.
Proof. induction n as [|n IH]; intros p; cbn [pp_spawn]; [lia|]. rewrite IH. cbn. lia. Qed.

Lemma pp_spawn_ok calm n : forall p, pump_ok calm p -> pp_running p = true -> pp_remaining p + Z.of_nat n <= pp_concurrency p ->
  pump_ok calm (pp_spawn n p).
Proof.
  induction n as [|n IH]; intros p H Hr Hn; cbn [pp_spawn]; [done|]. apply IH; [|done|cbn; lia].
  assert (Hnew : pp_workers p !! pp_next p = None).
  { destruct (pp_workers p !! pp_next p) as [pc|] eqn:E; [|done]. pose proof (po_next _ _ H _ _ E). lia. }
  destruct H as [O1 O2 O3 O4 O5 O6 O7 O8 O9 O11 O12 O13].
  split; cbn; rewrite ?(msum_insert_fresh _ _ _ _ Hnew); unfold pp_queueLen in *; cbn; try done; try (unfold pone in *; lia).
  - intros w pc [[<- <-]|[_ Hw]]%lookup_insert_Some; [lia|]. pose proof (O5 w pc Hw). lia.
  - intros r. rewrite (msum_insert_fresh _ _ _ _ Hnew), O9. done.
  - congruence.
  - by rewrite Hr in *.
Qed.

Lemma pump_ensureWorkers_ok calm p : pump_ok calm p -> pump_ok calm (ensureWorkersLocked p).
Proof.
  intros H. unfold ensureWorkersLocked. destruct (pp_running p) eqn:Hr; cbn [negb]; [|done].
  destruct (po_limits _ _ H) as (H1 & H2 & H3). apply pp_spawn_ok; [done|done|].
  set (t := if pp_concurrency p <? _ then _ else _).
  assert (t <= pp_concurrency p) by (unfold t; repeat case_match; bool_to_prop; lia). lia.
Qed.

Lemma pump_ensureWorkers_some p : pp_running p = true -> 0 < pp_concurrency p -> 0 < pp_remaining (ensureWorkersLocked p).
Proof.
  intros Hr Hc. unfold ensureWorkersLocked. rewrite Hr. cbn [negb]. rewrite pp_spawn_remaining.
  set (t := if pp_concurrency p <? _ then _ else _).
  assert (1 <= t) by (unfold t; repeat case_match; bool_to_prop; lia). lia.
Qed.

Lemma enqueueRequest_ok calm id bytes p : pump_ok calm p -> pump_ok calm (enqueueRequest id bytes p).2.
Proof.
  intros H. unfold enqueueRequest. destruct (negb (pp_accepting p) || negb (pp_running p)) eqn:Hl; [done|]. bool_to_prop.
  assert (Hc : 0 < charge bytes) by (unfold charge, defaultPersistenceRequestBytes; destruct (Z.leb_spec bytes 0); lia).
  destruct ((0 <? pp_maxRetainedBytes p) && _) eqn:Hm.
  { destruct H as [O1 O2 O3 O4 O5 O6 O7 O8 O9 O11 O12 O13]. split; cbn; try done. lia. }
  assert (Hfit : pp_retainedBytes p + charge bytes <= pp_maxRetainedBytes p).
  { pose proof (po_max _ _ H). apply andb_false_iff in Hm as [Hm|Hm]; cbn in Hm; bool_to_prop; lia. }
  destruct (Z.ltb_spec (pp_queueLen p) (pp_queueCap p)); [|done]. cbn [snd].
  apply pump_ensureWorkers_ok. destruct H as [O1 O2 O3 O4 O5 O6 O7 O8 O9 O11 O12 O13].
  split; cbn; unfold pp_queueLen in *; cbn; rewrite ?length_app; cbn; try done; try lia.
  - rewrite lsum_app. unfold lsum at 2. cbn. lia.
  - intros r [Hr|Hr%list_elem_of_singleton]%elem_of_app; [by apply O8|by subst].
  - intros r. rewrite !occ_app, O9. lia.
  - intros Hc' Hr. congruence.
  - intros Hc' Hd. rewrite H1 in O12. congruence.
Qed.

Lemma enqueueRequest_alive id bytes p : alive p -> 0 < pp_concurrency p -> alive (enqueueRequest id bytes p).2.
Proof.
  intros Ha Hc. unfold enqueueRequest. destruct (negb (pp_accepting p) || negb (pp_running p)) eqn:Hl; [done|]. bool_to_prop.
  destruct (_ && _); [done|]. destruct (_ <? _); [|done]. intros _ _. by apply pump_ensureWorkers_some.
Qed.

(** The last step of a worker. *)
Lemma workerDone_ok calm w p : pump_ok calm p -> alive p -> pp_workers p !! w = Some PReturn ->
  pump_ok calm (workerDone w p) /\ alive (workerDone w p).
Proof.
  intros H Ha Hw. unfold workerDone. set (p1 := pp_set_counts _ _ _ _).
  assert (H1 : forall done', (pp_running p = false -> done' = true <-> pp_remaining p - 1 = 0) -> (pp_running p = true -> done' = pp_done p) ->
    pump_ok calm (pp_set_life (pp_running p) (pp_accepting p) done' p1)).
  { intros done' Hd Hd'. destruct H as [O1 O2 O3 O4 O5 O6 O7 O8 O9 O11 O12 O13]. subst p1.
    rewrite (msum_delete pqueued _ _ _ Hw) in O1. rewrite (msum_delete pactive _ _ _ Hw) in O2.
    rewrite (msum_delete pone _ _ _ Hw) in O3. rewrite (msum_delete pbytes _ _ _ Hw) in O6.
    split; cbn; unfold pp_queueLen in *; cbn in *; try done; try (unfold pone in *; lia).
    - intros v q [_ Hv]%lookup_delete_Some. by eapply O5.
    - intros r. rewrite O9, (msum_delete (carries r) _ _ _ Hw). unfold carries at 1. by rewrite decide_False.
    - intros Hc Hr v [_ Hv]%lookup_delete_Some. by eapply O11.
    - destruct (pp_running p); [by rewrite Hd'|by apply Hd].
    - intros Hc Hdone. destruct (pp_running p) eqn:Hr; [rewrite Hd' in Hdone by done; by apply O13|by eapply O11]. }
  pose proof (po_done _ _ H) as Hd. pose proof (po_remaining _ _ H) as Hrem.
  assert (0 < pp_remaining p).
  { rewrite Hrem, (msum_delete pone _ _ _ Hw). assert (0 <= msum pone (delete w (pp_workers p))); [by apply msum_nonneg|unfold pone at 1; lia]. }
  destruct (pp_running p) eqn:Hr; subst p1; cbn [negb pp_running pp_set_counts pp_set_workers]; rewrite Hr; cbn [negb].
  - specialize (H1 (pp_done p)). assert (H2 := H1 ltac:(done) ltac:(done)). clear H1.
    replace (pp_set_life true (pp_accepting p) (pp_done p) _) with
      (pp_set_counts (pp_remaining p - 1) (pp_queued p) (pp_active p) (pp_set_workers (delete w (pp_workers p)) (pp_next p) p)) in H2
      by (unfold pp_set_life, pp_set_counts, pp_set_workers; cbn; by rewrite Hr).
    cbn [pp_queued pp_set_counts]. destruct (Z.ltb_spec 0 (pp_queued p)) as [Hq|Hq].
    + split; [by apply pump_ensureWorkers_ok|]. intros _ _. apply pump_ensureWorkers_some; [done|]. apply (po_limits _ _ H).
    + split; [done|]. intros _ Hne. cbn in Hne. destruct (pp_queue p) eqn:E; [done|]. pose proof (po_queued _ _ H) as Hpq.
      assert (0 <= msum pqueued (pp_workers p)) by (apply msum_nonneg; intros k [] _; cbn; lia).
      unfold pp_queueLen in Hpq. rewrite E in Hpq. cbn in Hpq. lia.
  - cbn [pp_remaining pp_set_counts]. destruct (Z.eqb_spec (pp_remaining p - 1) 0) as [Hz|Hz].
    + split; [apply H1; [done|done]|]. intros Hr'. cbn in Hr'. congruence.
    + split; [|intros Hr'; cbn in Hr'; congruence].
      assert (H2 := H1 (pp_done p)). destruct (pp_done p) eqn:Ed.
      { exfalso. assert (pp_remaining p = 0) by (by apply Hd). lia. }
      specialize (H2 ltac:(intros _; split; [done|lia]) ltac:(congruence)).
      replace (pp_set_life false (pp_accepting p) false _) with
        (pp_set_counts (pp_remaining p - 1) (pp_queued p) (pp_active p) (pp_set_workers (delete w (pp_workers p)) (pp_next p) p)) in H2
        by (unfold pp_set_life, pp_set_counts, pp_set_workers; cbn; by rewrite Hr, Ed).
      exact H2.
Qed.

#[local] Ltac pmoves := eapply pmove_ok; [eassumption|eassumption|reflexivity|try done..]; cbn; try lia.

Lemma pump_worker_ok calm w pc expired execute p p' : pump_ok calm p -> alive p -> pp_workers p !! w = Some pc ->
  pump_worker w pc expired execute p = Some p' -> pump_ok calm p' /\ alive p'.
Proof.
  intros H Ha Hw E. pose proof (held_charged calm p w pc H Hw) as [Hb Hc].
  destruct pc as [|r|r|r|r e|r e|r e| |]; cbn [pump_worker] in E; try done; injection E as <-;
    try (split; [|exact Ha]); try (pmoves; fail).
  - destruct (po_max _ _ H) as [[_ Hm] _]. destruct (bytes_nonneg _ _ H) as [_ Hl]. pose proof (po_bytes _ _ H) as Hbytes.
    assert (pbytes (PRelease r e) <= msum pbytes (pp_workers p)) as Hle.
    { apply (msum_lookup_le _ _ w); [|done]. intros k v Hv. by apply (held_charged calm p k v H Hv). }
    cbn in Hle, Hb. destruct (Z.ltb_spec (pp_retainedBytes p - pr_bytes r) 0) as [|_]; [lia|]. pmoves.
  - pmoves. intros x. rewrite map_app, occ_app. unfold carries, occ, lsum. cbn. repeat case_decide; simplify_eq; lia.
  - destruct (pp_running p && _) eqn:Hr; pmoves. bool_to_prop. congruence.
  - by apply workerDone_ok.
Qed.

Lemma pump_step_ok calm ev p p' : pump_ok calm p -> alive p -> pump_step calm ev p = Some p' -> pump_ok calm p' /\ alive p'.
Proof.
  intros H Ha E. destruct ev as [id bytes| | |max|w|w|w|w expired execute]; cbn [pump_step] in E.
  - injection E as <-. split; [by apply enqueueRequest_ok|]. apply enqueueRequest_alive; [done|]. apply (po_limits _ _ H).
  - injection E as <-. split; [|done]. destruct H as [O1 O2 O3 O4 O5 O6 O7 O8 O9 O11 O12 O13]. by split.
  - destruct (calm && retiring p) eqn:Hc; [done|]. injection E as <-. unfold Drain.
    destruct (pp_running p) eqn:Hr; [|done]. split; [|by intros Hr'].
    destruct H as [O1 O2 O3 O4 O5 O6 O7 O8 O9 O11 O12 O13]. rewrite Hr in O12. split; try done.
    + intros -> _ w Hw. cbn in Hw. exfalso. cbn in Hc. unfold retiring in Hc. apply negb_false_iff, bool_decide_eq_true in Hc.
      by specialize (Hc w PReturn Hw).
    + cbn in *. rewrite O12. cbn. by rewrite Z.eqb_eq.
    + cbn in *. rewrite O12. cbn. intros _ Hz. apply Z.eqb_eq in Hz. destruct (pp_queue p) eqn:Eq; [done|].
      specialize (Ha Hr). rewrite Eq in Ha. specialize (Ha ltac:(done)). lia.
  - injection E as <-. unfold SetMaxRetainedBytes. destruct (Z.leb_spec max 0); [done|]. split; [|done].
    destruct H as [O1 O2 O3 O4 O5 O6 O7 O8 O9 O11 O12 O13]. split; cbn; try done; lia.
  - destruct (pp_workers p !! w) as [[]|] eqn:Hw; try done. destruct (pp_queue p) as [|r q] eqn:Hq; [done|]. injection E as <-.
    assert (Hrem : 0 < pp_remaining p).
    { rewrite (po_remaining _ _ H), (msum_delete pone _ _ _ Hw). assert (0 <= msum pone (delete w (pp_workers p))); [by apply msum_nonneg|unfold pone at 1; lia]. }
    split; [|intros Hr _; exact Hrem].
    destruct H as [O1 O2 O3 O4 O5 O6 O7 O8 O9 O11 O12 O13]. unfold pp_queueLen in *. rewrite Hq in *. cbn [length] in *.
    split; cbn; unfold pp_queueLen; cbn; rewrite ?(msum_insert _ _ _ _ _ Hw); cbn; try done; try lia.
    + unfold pone in *. lia.
    + intros v y [[<- _]|[_ Hv]]%lookup_insert_Some; by eapply O5.
    + rewrite O6. unfold lsum. cbn. lia.
    + intros x. rewrite O9, (msum_insert _ _ _ _ _ Hw). unfold occ, lsum, carries. cbn. repeat case_decide; simplify_eq; lia.
    + intros Hc Hr v [[<- Hv]|[_ Hv]]%lookup_insert_Some; [done|]. by specialize (O11 Hc Hr v Hv).
    + intros Hc Hd. by specialize (O13 Hc Hd).
  - destruct (pp_workers p !! w) as [[]|] eqn:Hw; try done. destruct (pp_queue p) as [|r q] eqn:Hq; [|done].
    destruct (pp_running p) eqn:Hr; [done|]. injection E as <-. split; [|exact Ha]. pmoves.
  - destruct (pp_workers p !! w) as [[]|] eqn:Hw; try done. injection E as <-. split; [|exact Ha]. pmoves.
  - destruct (pp_workers p !! w) as [pc|] eqn:Hw; [|done]. cbn in E. by eapply pump_worker_ok.
Qed.

Lemma pump_reachable_ok calm concurrency queueCap p : pump_reachable calm concurrency queueCap p -> pump_ok calm p /\ alive p.
Proof.
  induction 1 as [|ev p p' _ [IH1 IH2] E]; [split; [apply pump_init_ok|]|by eapply pump_step_ok].
  intros _ Hq. by destruct Hq.
Qed.

Lemma pump_run_reachable calm concurrency queueCap evs : forall p p', pump_reachable calm concurrency queueCap p ->
  pump_run calm evs p = Some p' -> pump_reachable calm concurrency queueCap p'.
Proof.
  induction evs as [|ev evs IH]; intros p p' Hp E; cbn in E; [by injection E as <-|].
  destruct (pump_step calm ev p) as [p1|] eqn:E1; [|done]. cbn in E. eapply IH; [by eapply pump_next|exact E].
Qed.

(** ** What the pump promises *)

Lemma occ_count r l : occ r l = Z.of_nat (count_occ request_eq_dec l r).
Proof.
  unfold occ, lsum. induction l as [|x l IH]; cbn; [done|]. rewrite IH. unfold decide, decide_rel.
  destruct (request_eq_dec x r); lia.
Qed.

Lemma occ_permutation l1 l2 : (forall r, occ r l1 = occ r l2) -> l1 ≡ₚ l2.
Proof. intros H. apply (Permutation_count_occ request_eq_dec). intros r. specialize (H r). rewrite !occ_count in H. lia. Qed.

Lemma msum_pone (m : gmap nat pworker) : msum pone m = Z.of_nat (size m).
Proof.
  induction m as [|k v m Hk IH] using map_ind; [by rewrite msum_empty, map_size_empty|].
  rewrite msum_insert_fresh, map_size_insert_None by done. unfold pone in *. lia.
Qed.

Definition retained_by (p : pump) : Z := lsum pr_bytes (pp_queue p) + msum pbytes (pp_workers p).

(** At every point of every interleaving of callers and workers the counters of the pump
    are exact: [retainedBytes] is the charge of what waits and of what is being
    committed and stays within the largest budget the pump was given, [remaining]
    counts the workers, never more than [concurrency], the queue is within its
    capacity, [queued] and [active] count the requests before and in their operation,
    and every accepted request is in exactly one place: in the queue, in the hands of
    one worker, or acknowledged. *)
Theorem pump_exact concurrency queueCap p :
  pump_reachable false concurrency queueCap p ->
  (pp_retainedBytes p = retained_by p /\ retained_by p <= pp_maxEver p) /\
  (pp_remaining p = Z.of_nat (size (pp_workers p)) /\ pp_remaining p <= pp_concurrency p) /\
  pp_queueLen p <= pp_queueCap p /\
  pp_queued p = pp_queueLen p + msum pqueued (pp_workers p) /\
  pp_active p = msum pactive (pp_workers p) /\
  (forall r, occ r (pp_accepted p) =
    occ r (pp_queue p) + msum (carries r) (pp_workers p) + occ r (map fst (pp_acked p))).
Proof.
  intros [[O1 O2 O3 O4 O5 O6 O7 O8 O9 O11 O12 O13] _]%pump_reachable_ok. unfold retained_by. rewrite <- msum_pone.
  split_and!; try done; lia.
Qed.

(** [Drain] commits everything: once [done] is closed no worker is left, nothing
    waits, and the requests acknowledged are the requests accepted, each once, provided
    no worker was between its decision to retire and [workerDone] when [Drain] came. *)
Theorem drain_commits_all concurrency queueCap p :
  pump_reachable true concurrency queueCap p -> pp_done p = true ->
  pp_workers p = ∅ /\ pp_queue p = [] /\ map fst (pp_acked p) ≡ₚ pp_accepted p.
Proof.
  intros [[O1 O2 O3 O4 O5 O6 O7 O8 O9 O11 O12 O13] _]%pump_reachable_ok Hd.
  destruct (pp_running p); [congruence|]. specialize (O13 eq_refl Hd).
  assert (Hw : pp_workers p = ∅) by (apply map_size_empty_inv; rewrite msum_pone in O3; apply O12 in Hd; lia).
  split_and!; [done|done|]. apply occ_permutation. intros r. rewrite O9, O13, Hw, msum_empty. done.
Qed.

Definition prank (pc : pworker) : Z :=
  match pc with
  | PReturn => 1 | PSelect => 2 | PTimer => 3 | PAck _ _ => 4 | PRelease _ _ => 5 | PRan _ _ => 6
  | PRun _ => 7 | PActive _ => 8 | PReceived _ => 9
  end.
Definition pump_rank (p : pump) : Z := 10 * pp_queueLen p + msum prank (pp_workers p).
Definition worker_event (ev : pump_event) : bool :=
  match ev with PvReceive _ | PvClosed _ | PvWorker _ _ _ => true | _ => false end.

Lemma prank_nonneg (m : gmap nat pworker) : 0 <= msum prank m.
Proof. apply msum_nonneg. intros k [] _; cbn; lia. Qed.

(** Every step of a worker brings a closed pump nearer to its end. *)
Lemma worker_descends calm ev p p' : pp_running p = false -> worker_event ev = true -> pump_step calm ev p = Some p' ->
  pp_running p' = false /\ pump_rank p' < pump_rank p.
Proof.
  intros Hr He E. destruct ev as [| | | |w|w| |w expired execute]; try done; cbn in E.
  - destruct (pp_workers p !! w) as [[]|] eqn:Hw; try done. destruct (pp_queue p) as [|r q] eqn:Hq; [done|]. injection E as <-.
    split; [done|]. unfold pump_rank, pp_queueLen. cbn. rewrite Hq, (msum_insert prank _ _ _ _ Hw). cbn. lia.
  - destruct (pp_workers p !! w) as [[]|] eqn:Hw; try done. destruct (pp_queue p) as [|r q] eqn:Hq; [|done].
    rewrite Hr in E. injection E as <-. split; [done|].
    unfold pump_rank, pp_queueLen. cbn. rewrite (msum_insert prank _ _ _ _ Hw). cbn. lia.
  - destruct (pp_workers p !! w) as [pc|] eqn:Hw; [|done]. cbn in E.
    destruct pc; cbn in E; try done; injection E as <-;
      try (split; [done|]; unfold pump_rank, pp_queueLen; cbn; rewrite ?Hr, (msum_insert prank _ _ _ _ Hw); cbn; lia).
    unfold workerDone. cbn. rewrite Hr. cbn. case_match; cbn; (split; [done|]);
      unfold pump_rank, pp_queueLen; cbn; rewrite (msum_delete prank _ _ _ Hw); cbn; lia.
Qed.

(** As long as it has a worker, that worker has a step. *)
Lemma worker_enabled calm p w pc : pp_running p = false -> pp_workers p !! w = Some pc ->
  forall expired execute, exists ev, worker_event ev = true /\ ev ∈ [PvReceive w; PvClosed w; PvWorker w expired execute] /\
    is_Some (pump_step calm ev p).
Proof.
  intros Hr Hw expired execute. assert (pc = PSelect \/ pc <> PSelect) as [->|Hs] by (destruct pc; auto).
  - destruct (pp_queue p) as [|r q] eqn:Hq.
    + exists (PvClosed w). cbn. rewrite Hw, Hq, Hr. split_and!; [done|set_solver|done].
    + exists (PvReceive w). cbn. rewrite Hw, Hq. split_and!; [done|set_solver|done].
  - exists (PvWorker w expired execute). cbn. rewrite Hw. cbn. split_and!; [done|set_solver|]. by destruct pc.
Qed.

Lemma worker_run_descends calm evs : forall p p', pp_running p = false -> forallb worker_event evs = true ->
  pump_run calm evs p = Some p' -> pp_running p' = false /\ Z.of_nat (length evs) + pump_rank p' <= pump_rank p.
Proof.
  induction evs as [|ev evs IH]; intros p p' Hr He E; cbn in *; [injection E as <-; split; [done|lia]|]. bool_to_prop.
  destruct (pump_step calm ev p) as [p1|] eqn:E1; [|done]. cbn in E.
  destruct (worker_descends calm ev p p1) as [Hr1 Hlt]; [done..|].
  destruct (IH p1 p') as [Hr' Hle]; [done..|]. split; [done|lia].
Qed.


(** ** Executions *)

Definition pump_start : pump := (Start (NewPersistencePump 2 4)).2.
Definition pump_after (calm : bool) (evs : list pump_event) : pump := default pump_start (pump_run calm evs pump_start).

Lemma pump_after_reachable calm evs : pump_reachable calm 2 4 (pump_after calm evs).
Proof.
  unfold pump_after. destruct (pump_run calm evs pump_start) as [p|] eqn:E; cbn; [|apply pump_init].
  eapply pump_run_reachable; [apply pump_init|exact E].
Qed.

(** The steps of a worker over one request. *)
Definition serve (w : nat) (execute : option op_outcome) : list pump_event :=
  PvReceive w :: replicate 6 (PvWorker w false execute).

Definition two_then_drain : list pump_event :=
  [PvEnqueue 1 100; PvEnqueue 2 0; PvReceive 0; PvWorker 0 false None; PvReceive 1; PvDrain].
Definition finish_both : list pump_event :=
  replicate 5 (PvWorker 0 false (Some (OpReturns None))) ++ [PvClosed 0] ++
  replicate 6 (PvWorker 1 false (Some (OpPanics "boom"))) ++ [PvClosed 1; PvWorker 1 false None; PvWorker 0 false None].

Example pump_exact_witness : retained_by (pump_after false two_then_drain) = 612 /\
  pp_remaining (pump_after false two_then_drain) = 2.
Proof.
  destruct (pump_exact 2 4 (pump_after false two_then_drain)) as ((E1 & _) & _ & _); [apply pump_after_reachable|].
  rewrite <- E1. split; vm_compute; reflexivity.
Defined.

Example drain_commits_all_witness :
  pp_acked (pump_after true (two_then_drain ++ finish_both)) = [(mkRequest 1 100, None); (mkRequest 2 512, Some (OpPanic "boom"))] /\
  map fst (pp_acked (pump_after true (two_then_drain ++ finish_both))) ≡ₚ pp_accepted (pump_after true (two_then_drain ++ finish_both)).
Proof.
  split; [vm_compute; reflexivity|].
  apply (drain_commits_all 2 4); [apply pump_after_reachable|vm_compute; reflexivity].
Defined.


(** A worker between its decision to retire and [workerDone] is still counted in
    [remaining], so that a request accepted then gets no worker of its own; when
    [Drain] comes before that worker reaches [workerDone], the worker closes [done]
    and the request is neither run nor acknowledged, although [Drain] returns nil. *)
Definition lost_request : list pump_event :=
  [PvEnqueue 1 100] ++ serve 0 (Some (OpReturns None)) ++
  [PvTimeout 0; PvWorker 0 false None; PvEnqueue 2 100; PvDrain; PvWorker 0 false None].

Lemma drain_over_retiring_worker_loses :
  pump_reachable false 2 4 (pump_after false lost_request) /\
  pp_done (pump_after false lost_request) = true /\ pp_workers (pump_after false lost_request) = ∅ /\
  pp_queue (pump_after false lost_request) = [mkRequest 2 100] /\
  pp_acked (pump_after false lost_request) = [(mkRequest 1 100, None)].
Proof. split; [apply pump_after_reachable|]. vm_compute. by split_and!. Qed.
