(* ===== verification/JobStore.v ===== *)
(** * The durable store of job occurrences and attempts

    Models [internal/jobs/domain.go] and the statements of [internal/jobs/sqlite] on
    definitions, schedules, occurrences, attempts and the outbox. A statement is one
    operation on the tables, and so is a transaction, since SQLite serialises writers and
    every transaction takes the writer's intent first; [io] says whether the database
    answers, and a transaction that fails changes nothing. Foreign keys are enforced, as
    [database.Open] asks for. Columns that hold JSON hold the value it encodes, and times
    in columns compare as times. What a [SELECT ... LIMIT] chooses is an argument of the statement that uses it. *)

From stdpp Require Import pretty sorting.
From S2P Require Import Prelude.
From S2P Require Import Execution.
From S2P Require Import Tasks.

(** ** [domain.go] *)

Inductive OverlapPolicy := OverlapUnset | OverlapForbid | OverlapReplace | OverlapAllowBounded | OverlapOther (s : string).
Inductive MisfirePolicy := MisfireUnset | MisfireSkip | MisfireRunOnce | MisfireCatchUpBounded | MisfireOther (s : string).
(** [OccurrenceUnset] is the empty string. *)
Inductive OccurrenceState := OccurrenceUnset | OccurrenceReady | OccurrenceDispatched | OccurrenceCompleted | OccurrenceFailed | OccurrenceCancelled | OccurrenceBlocked.
Inductive AttemptState :=
  | AttemptLeased | AttemptRunning | AttemptCompleted | AttemptFailed | AttemptTimedOut | AttemptCancelled | AttemptAbortedBeforeStart | AttemptDeferred.

#[export] Instance OverlapPolicy_dec : EqDecision OverlapPolicy. Proof. solve_decision. Defined.
#[export] Instance MisfirePolicy_dec : EqDecision MisfirePolicy. Proof. solve_decision. Defined.
#[export] Instance OccurrenceState_dec : EqDecision OccurrenceState. Proof. solve_decision. Defined.
#[export] Instance AttemptState_dec : EqDecision AttemptState. Proof. solve_decision. Defined.

(** [BackoffMultiplier] is a float64, kept as its text. *)
Record JobRetryPolicy := mkRetryPolicy {
  rp_MaxAttempts : Z; rp_MaxDeferrals : Z; rp_InitialDelay : duration; rp_MaxDelay : duration; rp_BackoffMultiplier : string
}.
Record JobDefinition := mkDefinition {
  jd_ID : string; jd_ScopeOwner : string; jd_QuotaOwner : string; jd_HandlerType : string; jd_Version : Z; jd_Payload : string;
  jd_Pool : string; jd_Class : string; jd_Timeout : duration; jd_Resources : list ResourceRequirement;
  jd_RetryPolicy : JobRetryPolicy; jd_Enabled : bool; jd_Revision : Z
}.
Record JobSchedule := mkSchedule {
  js_ID : string; js_JobID : string; js_Recurrence : string; js_Interval : duration; js_Timezone : string; js_NextDueAt : time;
  js_MisfirePolicy : MisfirePolicy; js_OverlapPolicy : OverlapPolicy; js_Enabled : bool; js_Revision : Z
}.
(** An empty [ScheduleID] is NULL in the table. [oc_UpdatedAt] is a column only. *)
Record JobOccurrence := mkOccurrence {
  oc_ID : string; oc_JobID : string; oc_ScheduleID : string; oc_ScheduledFor : time; oc_OccurrenceKey : string;
  oc_State : OccurrenceState; oc_ReadyAt : time; oc_CancelEpoch : Z; oc_Revision : Z; oc_UpdatedAt : time
}.
(** What [result] encodes: [attemptResultMetadata], or nothing. *)
Record attempt_metadata := mkAttemptMetadata { am_Disposition : Disposition; am_Code : string }.
#[export] Instance attempt_metadata_dec : EqDecision attempt_metadata. Proof. solve_decision. Defined.
Record JobAttempt := mkAttempt {
  at_ID : string; at_OccurrenceID : string; at_AttemptNo : Z; at_TaskID : string; at_LeaseEpoch : Z; at_LeaseUntil : time;
  at_State : AttemptState; at_StartedAt : option time; at_FinishedAt : option time; at_Result : option attempt_metadata; at_Error : string; at_CreatedAt : time
}.
Record AttemptSummary := mkSummary {
  sm_OccurrenceState : OccurrenceState; sm_ReadyAt : time; sm_Latest : JobAttempt; sm_AttemptCount : Z; sm_RetryBudgetUses : Z; sm_Deferrals : Z
}.
(** A payload is what [CancelOccurrence] encodes, or bytes. *)
Inductive outbox_payload := PayloadCancel (occurrenceID reason : string) (cancel_epoch : Z) | PayloadBytes (b : string).
Record OutboxEvent := mkOutbox { ob_ID : string; ob_OccurrenceID : string; ob_Kind : string; ob_Payload : outbox_payload; ob_CommittedAt : time; ob_delivered : bool }.

Inductive job_error :=
  | ErrDatabase | ErrDefinitionNotFound | ErrScheduleNotFound | ErrOccurrenceNotFound | ErrAttemptNotFound | ErrLeaseFencingLost
  | ErrOccurrenceNotReady | ErrRevisionConflict | ErrInvalidRequest | ErrConstraint | ErrNotDue | ErrNotPending.

(** The tables. [tb_redesigned] is [execution_runtime_state.mode = 'redesigned']. *)
Record job_tables := mkTables {
  tb_definitions : gmap string JobDefinition; tb_schedules : gmap string JobSchedule; tb_occurrences : gmap string JobOccurrence;
  tb_attempts : gmap string JobAttempt; tb_outbox : gmap string OutboxEvent; tb_redesigned : bool
}.
Definition empty_tables : job_tables := mkTables ∅ ∅ ∅ ∅ ∅ false.

Definition put_definition (d : JobDefinition) (t : job_tables) : job_tables :=
  mkTables (<[jd_ID d := d]> (tb_definitions t)) (tb_schedules t) (tb_occurrences t) (tb_attempts t) (tb_outbox t) (tb_redesigned t).
Definition put_schedule (s : JobSchedule) (t : job_tables) : job_tables :=
  mkTables (tb_definitions t) (<[js_ID s := s]> (tb_schedules t)) (tb_occurrences t) (tb_attempts t) (tb_outbox t) (tb_redesigned t).
Definition put_occurrence (o : JobOccurrence) (t : job_tables) : job_tables :=
  mkTables (tb_definitions t) (tb_schedules t) (<[oc_ID o := o]> (tb_occurrences t)) (tb_attempts t) (tb_outbox t) (tb_redesigned t).
Definition put_attempt (a : JobAttempt) (t : job_tables) : job_tables :=
  mkTables (tb_definitions t) (tb_schedules t) (tb_occurrences t) (<[at_ID a := a]> (tb_attempts t)) (tb_outbox t) (tb_redesigned t).
Definition put_outbox (e : OutboxEvent) (t : job_tables) : job_tables :=
  mkTables (tb_definitions t) (tb_schedules t) (tb_occurrences t) (tb_attempts t) (<[ob_ID e := e]> (tb_outbox t)) (tb_redesigned t).

(** ** Texts *)

(** [t.UnixNano()]. *)
Definition unix_epoch : Z := 62135596800 * second.
Definition UnixNano (t : time) : Z := wrap64 (t - unix_epoch).

(** [t.UTC().Format(time.RFC3339Nano)] of a year that has four digits. *)
Definition pad (width : nat) (n : Z) : string :=
  let digits := pretty n in Nat.iter (width - String.length digits) (String.append "0") digits.
Definition civil (days : Z) : Z * Z * Z :=
  let z := days + 306 in
  let era := z / 146097 in let doe := z mod 146097 in
  let yoe := (doe - doe / 1460 + doe / 36524 - doe / 146096) / 365 in
  let doy := doe - (365 * yoe + yoe / 4 - yoe / 100) in
  let mp := (5 * doy + 2) / 153 in
  let month := if mp <? 10 then mp + 3 else mp - 9 in
  (yoe + era * 400 + (if month <=? 2 then 1 else 0), month, doy - (153 * mp + 2) / 5 + 1).
(** The fraction without its trailing zeros. *)
Fixpoint trim_zeros (fuel : nat) (width : nat) (n : Z) : string :=
  match fuel with
  | O => pad width n
  | S fuel => if (n mod 10 =? 0) && (1 <? width)%nat then trim_zeros fuel (width - 1) (n / 10) else pad width n
  end.
Definition RFC3339Nano (t : time) : string :=
  let s := t / second in let ns := t mod second in
  let '(y, m, d) := civil (s / 86400) in let r := s mod 86400 in
  (pad 4 y +:+ "-" +:+ pad 2 m +:+ "-" +:+ pad 2 d +:+ "T" +:+ pad 2 (r / 3600) +:+ ":" +:+ pad 2 (r / 60 mod 60) +:+ ":" +:+ pad 2 (r mod 60)
   +:+ (if (ns =? 0)%Z then "" else "." +:+ trim_zeros 9 9 ns) +:+ "Z")%string.

Definition attempt_id (occurrenceID : string) (no : Z) : string := ("attempt:" +:+ occurrenceID +:+ ":" +:+ pretty no)%string.
Definition task_id (occurrenceID : string) (no : Z) : string := ("task:" +:+ occurrenceID +:+ ":" +:+ pretty no)%string.
Definition cancel_event_id (occurrenceID : string) (epoch : Z) : string := ("outbox:cancel:" +:+ occurrenceID +:+ ":" +:+ pretty epoch)%string.
Definition slot_id (scheduleID : string) (due : time) : string := ("occ:" +:+ scheduleID +:+ ":" +:+ pretty (UnixNano due))%string.
Definition slot_key (scheduleID : string) (due : time) : string := ("sched:" +:+ scheduleID +:+ ":" +:+ RFC3339Nano due)%string.

(** ** Definitions *)

Fixpoint valid_job_resources (seen : gset string) (rs : list ResourceRequirement) : bool :=
  match rs with
  | [] => true
  | r :: rs =>
      if bool_decide (rr_Name r = "") || negb (bool_decide (rr_Name r = trim_space (rr_Name r))) || (rr_Amount r <=? 0) then false
      else if decide (rr_Name r ∈ seen) then false
      else valid_job_resources ({[rr_Name r]} ∪ seen) rs
  end.

(** [timeout_ms] keeps whole milliseconds; Go's division truncates. *)
Definition stored_timeout (d : duration) : duration := Z.quot d millisecond * millisecond.

Definition stored_definition (def : JobDefinition) (revision : Z) : JobDefinition :=
  mkDefinition (jd_ID def) (jd_ScopeOwner def) (jd_QuotaOwner def) (jd_HandlerType def) (jd_Version def) (jd_Payload def) (jd_Pool def)
    (jd_Class def) (stored_timeout (jd_Timeout def)) (jd_Resources def) (jd_RetryPolicy def) (jd_Enabled def) revision.

Definition SaveDefinition (io : bool) (def : JobDefinition) (t : job_tables) : option job_error * job_tables :=
  if negb (valid_job_resources ∅ (jd_Resources def)) then (Some ErrInvalidRequest, t)
  else if io then
    (None, put_definition (stored_definition def (match tb_definitions t !! jd_ID def with Some old => jd_Revision old + 1 | None => jd_Revision def end)) t)
  else (Some ErrDatabase, t).

Definition UpdateDefinitionCAS (io : bool) (def : JobDefinition) (expectedRevision : Z) (t : job_tables) : option job_error * job_tables :=
  if negb (valid_job_resources ∅ (jd_Resources def)) then (Some ErrInvalidRequest, t)
  else if io then
    match tb_definitions t !! jd_ID def with
    | Some old =>
        if jd_Revision old =? expectedRevision then (None, put_definition (stored_definition def (jd_Revision old + 1)) t)
        else (Some ErrRevisionConflict, t)
    | None => (Some ErrDefinitionNotFound, t)
    end
  else (Some ErrDatabase, t).

Definition GetDefinition (io : bool) (id : string) (t : job_tables) : job_error + JobDefinition :=
  if io then match tb_definitions t !! id with Some d => inr d | None => inl ErrDefinitionNotFound end else inl ErrDatabase.

(** Deleting occurrences deletes their attempts. *)
Definition delete_occurrences (gone : JobOccurrence -> bool) (t : job_tables) : job_tables :=
  mkTables (tb_definitions t) (tb_schedules t) (filter (fun kv => gone kv.2 = false) (tb_occurrences t))
    (filter (fun kv => match tb_occurrences t !! at_OccurrenceID kv.2 with Some o => gone o | None => false end = false) (tb_attempts t))
    (tb_outbox t) (tb_redesigned t).
Definition oc_forget_schedule (o : JobOccurrence) : JobOccurrence :=
  mkOccurrence (oc_ID o) (oc_JobID o) "" (oc_ScheduledFor o) (oc_OccurrenceKey o) (oc_State o) (oc_ReadyAt o) (oc_CancelEpoch o) (oc_Revision o) (oc_UpdatedAt o).
(** Deleting schedules leaves NULL in the occurrences that refer to them. *)
Definition delete_schedules (gone : JobSchedule -> bool) (t : job_tables) : job_tables :=
  mkTables (tb_definitions t) (filter (fun kv => gone kv.2 = false) (tb_schedules t))
    ((fun o => match tb_schedules t !! oc_ScheduleID o with Some s => if gone s then oc_forget_schedule o else o | None => o end) <$> tb_occurrences t)
    (tb_attempts t) (tb_outbox t) (tb_redesigned t).

Definition DeleteDefinition (io : bool) (id : string) (t : job_tables) : option job_error * job_tables :=
  if blank id then (Some ErrInvalidRequest, t)
  else if io then
    let t := delete_occurrences (fun o => bool_decide (oc_JobID o = id)) (delete_schedules (fun s => bool_decide (js_JobID s = id)) t) in
    (None, mkTables (delete id (tb_definitions t)) (tb_schedules t) (tb_occurrences t) (tb_attempts t) (tb_outbox t) (tb_redesigned t))
  else (Some ErrDatabase, t).

(** ** Reads *)

Definition GetOccurrence (io : bool) (id : string) (t : job_tables) : job_error + JobOccurrence :=
  if io then match tb_occurrences t !! id with Some o => inr o | None => inl ErrOccurrenceNotFound end else inl ErrDatabase.
Definition occurrence_by_key (key : string) (t : job_tables) : option JobOccurrence :=
  head (filter (fun o => oc_OccurrenceKey o = key) (map_to_list (tb_occurrences t)).*2).
Definition GetOccurrenceByKey (io : bool) (key : string) (t : job_tables) : job_error + JobOccurrence :=
  if io then match occurrence_by_key key t with Some o => inr o | None => inl ErrOccurrenceNotFound end else inl ErrDatabase.

Definition attempts_of (occurrenceID : string) (t : job_tables) : list JobAttempt :=
  filter (fun a => at_OccurrenceID a = occurrenceID) (map_to_list (tb_attempts t)).*2.
(** [COALESCE(MAX(attempt_no), 0)]. *)
Definition latest_no (occurrenceID : string) (t : job_tables) : Z := foldr (fun a n => Z.max (at_AttemptNo a) n) 0 (attempts_of occurrenceID t).
(** [ORDER BY attempt_no DESC LIMIT 1]; the pair is unique. *)
Definition latest_attempt (occurrenceID : string) (t : job_tables) : option JobAttempt :=
  head (filter (fun a => at_AttemptNo a = latest_no occurrenceID t) (attempts_of occurrenceID t)).

Definition count_attempts (P : JobAttempt -> bool) (occurrenceID : string) (t : job_tables) : Z :=
  Z.of_nat (length (filter (fun a => P a = true) (attempts_of occurrenceID t))).
Definition is_deferred (a : JobAttempt) : bool := bool_decide (at_State a = AttemptDeferred).
Definition CountAttempts (io : bool) (occurrenceID : string) (t : job_tables) : job_error + Z :=
  if io then inr (count_attempts (fun _ => true) occurrenceID t) else inl ErrDatabase.
Definition CountRetryBudgetUses (io : bool) (occurrenceID : string) (t : job_tables) : job_error + Z :=
  if io then inr (count_attempts (fun a => negb (is_deferred a)) occurrenceID t) else inl ErrDatabase.
Definition CountDeferrals (io : bool) (occurrenceID : string) (t : job_tables) : job_error + Z :=
  if io then inr (count_attempts is_deferred occurrenceID t) else inl ErrDatabase.

(** The scan fills missing start and end times with the creation time. *)
Definition scanned (a : JobAttempt) : JobAttempt :=
  mkAttempt (at_ID a) (at_OccurrenceID a) (at_AttemptNo a) (at_TaskID a) (at_LeaseEpoch a) (at_LeaseUntil a) (at_State a)
    (Some (default (at_CreatedAt a) (at_StartedAt a))) (Some (default (at_CreatedAt a) (at_FinishedAt a))) (at_Result a) (at_Error a) (at_CreatedAt a).
Definition LatestAttempt (io : bool) (occurrenceID : string) (t : job_tables) : job_error + JobAttempt :=
  if io then match latest_attempt occurrenceID t with Some a => inr (scanned a) | None => inl ErrAttemptNotFound end else inl ErrDatabase.

(** One query: the counts of the group, joined with the occurrence and the attempt that has the greatest number. *)
Definition attempt_summary (occurrenceID : string) (t : job_tables) : option AttemptSummary :=
  match attempts_of occurrenceID t, tb_occurrences t !! occurrenceID, latest_attempt occurrenceID t with
  | _ :: _, Some o, Some a =>
      Some (mkSummary (oc_State o) (oc_ReadyAt o) (scanned a) (count_attempts (fun _ => true) occurrenceID t)
              (lsum (fun a => if negb (is_deferred a) then 1 else 0) (attempts_of occurrenceID t))
              (lsum (fun a => if is_deferred a then 1 else 0) (attempts_of occurrenceID t)))
  | _, _, _ => None
  end.
Definition AttemptSummary_query (io : bool) (occurrenceID : string) (t : job_tables) : job_error + AttemptSummary :=
  if io then match attempt_summary occurrenceID t with Some s => inr s | None => inl ErrAttemptNotFound end else inl ErrDatabase.

(** [ORDER BY ready_at ASC, id ASC]. *)
Definition ready_before (a b : JobOccurrence) : Prop := oc_ReadyAt a < oc_ReadyAt b \/ (oc_ReadyAt a = oc_ReadyAt b /\ String.le (oc_ID a) (oc_ID b)).
#[export] Instance ready_before_dec a b : Decision (ready_before a b). Proof. unfold ready_before. apply _. Defined.
Definition page (limit : Z) : nat := Z.to_nat (if limit <=? 0 then 50 else if 500 <? limit then 500 else limit).
Definition unresolved_page (limit : Z) (t : job_tables) : list JobOccurrence :=
  take (page limit) (merge_sort ready_before (filter (fun o => oc_State o = OccurrenceDispatched) (map_to_list (tb_occurrences t)).*2)).
Definition ListUnresolvedOccurrences (io : bool) (limit : Z) (t : job_tables) : job_error + list JobOccurrence :=
  if io then inr (unresolved_page limit t) else inl ErrDatabase.
(** The page, joined with the summaries; an occurrence without attempts has none. *)
Definition ListRecoveryCandidates (io : bool) (limit : Z) (t : job_tables) : job_error + list (JobOccurrence * AttemptSummary) :=
  if io then inr (omap (fun o => (fun s => (o, s)) <$> attempt_summary (oc_ID o) t) (unresolved_page limit t)) else inl ErrDatabase.
Definition ListReadyOccurrences (io : bool) (now : time) (limit : Z) (t : job_tables) : job_error + list JobOccurrence :=
  if io then inr (take (page limit) (merge_sort ready_before
    (filter (fun o => oc_State o = OccurrenceReady /\ oc_ReadyAt o <= now) (map_to_list (tb_occurrences t)).*2))) else inl ErrDatabase.

(** ** Occurrences *)

Definition occurrenceTerminal (s : OccurrenceState) : bool :=
  match s with OccurrenceCompleted | OccurrenceFailed | OccurrenceCancelled => true | _ => false end.
Definition attemptTerminal (s : AttemptState) : bool := match s with AttemptLeased | AttemptRunning => false | _ => true end.

Definition oc_set_state (s : OccurrenceState) (now : time) (o : JobOccurrence) : JobOccurrence :=
  mkOccurrence (oc_ID o) (oc_JobID o) (oc_ScheduleID o) (oc_ScheduledFor o) (oc_OccurrenceKey o) s (oc_ReadyAt o) (oc_CancelEpoch o) (oc_Revision o + 1) now.
Definition oc_set_ready (readyAt now : time) (o : JobOccurrence) : JobOccurrence :=
  mkOccurrence (oc_ID o) (oc_JobID o) (oc_ScheduleID o) (oc_ScheduledFor o) (oc_OccurrenceKey o) (oc_State o) readyAt (oc_CancelEpoch o) (oc_Revision o + 1) now.
Definition oc_cancel (now : time) (o : JobOccurrence) : JobOccurrence :=
  mkOccurrence (oc_ID o) (oc_JobID o) (oc_ScheduleID o) (oc_ScheduledFor o) (oc_OccurrenceKey o) OccurrenceCancelled (oc_ReadyAt o) (oc_CancelEpoch o + 1) (oc_Revision o + 1) now.
Definition oc_touch (now : time) (o : JobOccurrence) : JobOccurrence :=
  mkOccurrence (oc_ID o) (oc_JobID o) (oc_ScheduleID o) (oc_ScheduledFor o) (oc_OccurrenceKey o) (oc_State o) (oc_ReadyAt o) (oc_CancelEpoch o) (oc_Revision o) now.

(** What the table accepts of a new row. *)
Definition insertable (o : JobOccurrence) (t : job_tables) : bool :=
  bool_decide (tb_occurrences t !! oc_ID o = None) && bool_decide (occurrence_by_key (oc_OccurrenceKey o) t = None) &&
  bool_decide (is_Some (tb_definitions t !! oc_JobID o)) && (bool_decide (oc_ScheduleID o = "") || bool_decide (is_Some (tb_schedules t !! oc_ScheduleID o))).

(** [io'] is the answer to the query that follows a failed insert. *)
Definition MaterializeOccurrence (io io' : bool) (now : time) (occ : JobOccurrence) (t : job_tables) : (job_error + JobOccurrence) * job_tables :=
  let o := mkOccurrence (oc_ID occ) (oc_JobID occ) (oc_ScheduleID occ) (oc_ScheduledFor occ) (oc_OccurrenceKey occ)
    (if decide (oc_State occ = OccurrenceUnset) then OccurrenceReady else oc_State occ)
    (if is_zero (oc_ReadyAt occ) then now else oc_ReadyAt occ) (oc_CancelEpoch occ) (oc_Revision occ) now in
  if io && insertable o t then (inr o, put_occurrence o t)
  else match GetOccurrenceByKey io' (oc_OccurrenceKey occ) t with
       | inr existing => (inr existing, t)
       | inl _ => (inl (if io then ErrConstraint else ErrDatabase), t)
       end.

Definition FinalizeOccurrence (io : bool) (now : time) (occurrenceID : string) (state : OccurrenceState) (t : job_tables) : option job_error * job_tables :=
  if negb (bool_decide (state = OccurrenceFailed) || bool_decide (state = OccurrenceCancelled)) then (Some ErrInvalidRequest, t)
  else if io then
    match tb_occurrences t !! occurrenceID with
    | None => (Some ErrOccurrenceNotFound, t)
    | Some o =>
        if decide (oc_State o = state) then (None, t)
        else if decide (oc_State o = OccurrenceDispatched) then (None, put_occurrence (oc_set_state state now o) t)
        else (Some ErrLeaseFencingLost, t)
    end
  else (Some ErrDatabase, t).

Definition DeferOccurrence (io : bool) (now : time) (occurrenceID : string) (readyAt : time) (t : job_tables) : option job_error * job_tables :=
  if io then
    match tb_occurrences t !! occurrenceID with
    | Some o => if decide (oc_State o = OccurrenceDispatched) then (None, put_occurrence (oc_set_ready readyAt now o) t) else (Some ErrOccurrenceNotFound, t)
    | None => (Some ErrOccurrenceNotFound, t)
    end
  else (Some ErrDatabase, t).

Definition insert_outbox (e : OutboxEvent) (t : job_tables) : option job_tables :=
  match tb_outbox t !! ob_ID e with Some _ => None | None => Some (put_outbox e t) end.

Definition CancelOccurrence (io : bool) (now : time) (occurrenceID reason : string) (t : job_tables) : option job_error * job_tables :=
  if io then
    match tb_occurrences t !! occurrenceID with
    | None => (Some ErrOccurrenceNotFound, t)
    | Some o =>
        if occurrenceTerminal (oc_State o) then (None, t)
        else
          let epoch := oc_CancelEpoch o + 1 in
          match insert_outbox (mkOutbox (cancel_event_id occurrenceID epoch) occurrenceID "occurrence_cancelled" (PayloadCancel occurrenceID reason epoch) now false)
                  (put_occurrence (oc_cancel now o) t) with
          | Some t' => (None, t')
          | None => (Some ErrConstraint, t)
          end
    end
  else (Some ErrDatabase, t).

(** [ids] is the choice of the inner query, among the rows it may choose. *)
Definition prunable (jobID : string) (before_ : time) (o : JobOccurrence) : bool :=
  bool_decide (oc_JobID o = jobID) && occurrenceTerminal (oc_State o) && (oc_UpdatedAt o <? before_).
Definition DeleteTerminalOccurrences (io : bool) (ids : list string) (jobID : string) (before_ : time) (t : job_tables) : option job_error * job_tables :=
  if decide (jobID = "") then (Some ErrInvalidRequest, t)
  else if io then (None, delete_occurrences (fun o => bool_decide (oc_ID o ∈ ids) && prunable jobID before_ o) t)
  else (Some ErrDatabase, t).

(** ** Attempts *)

(** Why an occurrence cannot be leased: it is not due, its state is not one of the two, or
    the attempt with the greatest number is missing, superfluous or still open. *)
Definition lease_refused (checked : time) (o : JobOccurrence) (latestAttemptNo : Z) (latest : option JobAttempt) : option job_error :=
  match oc_State o with
  | OccurrenceReady =>
      if after (oc_ReadyAt o) checked then Some ErrOccurrenceNotReady
      else if negb (latestAttemptNo =? 0) then Some ErrLeaseFencingLost else None
  | OccurrenceDispatched =>
      if after (oc_ReadyAt o) checked then Some ErrOccurrenceNotReady
      else if latestAttemptNo =? 0 then Some ErrOccurrenceNotReady
      else match latest with
           | Some a => if attemptTerminal (at_State a) then None else Some ErrOccurrenceNotReady
           | None => Some ErrOccurrenceNotReady
           end
  | _ => Some ErrOccurrenceNotReady
  end.

(** [checked] is the reading of the clock of the check, [now] that of the lease. Without
    [taskID] the identifier of the task is derived. The update of the occurrence finds
    the row the transaction has just read. *)
Definition prepareAttemptLease (io : bool) (checked now : time) (occurrenceID : string) (taskID : option string) (leaseDuration : duration) (t : job_tables)
    : (job_error + JobAttempt) * job_tables :=
  if (leaseDuration <=? 0) || bool_decide (taskID = Some "") then (inl ErrInvalidRequest, t)
  else if io then
    match tb_occurrences t !! occurrenceID with
    | None => (inl ErrOccurrenceNotFound, t)
    | Some o =>
        let latest := latest_no occurrenceID t in
        match lease_refused checked o latest (latest_attempt occurrenceID t) with
        | Some e => (inl e, t)
        | None =>
            let no := latest + 1 in
            let a := mkAttempt (attempt_id occurrenceID no) occurrenceID no (default (task_id occurrenceID no) taskID) no (now + leaseDuration)
              AttemptLeased None None None "" now in
            if bool_decide (tb_attempts t !! at_ID a = None) && forallb (fun b => negb (bool_decide (at_TaskID b = at_TaskID a))) (map_to_list (tb_attempts t)).*2 then
              (inr a, put_attempt a (put_occurrence (oc_set_state OccurrenceDispatched now o) t))
            else (inl ErrConstraint, t)
        end
    end
  else (inl ErrDatabase, t).
Definition PrepareAttemptLease (io : bool) (checked now : time) (occurrenceID taskID : string) := prepareAttemptLease io checked now occurrenceID (Some taskID).
Definition PrepareNextAttemptLease (io : bool) (checked now : time) (occurrenceID : string) := prepareAttemptLease io checked now occurrenceID None.

Definition at_finish (s : AttemptState) (result : option attempt_metadata) (err : string) (now : time) (a : JobAttempt) : JobAttempt :=
  mkAttempt (at_ID a) (at_OccurrenceID a) (at_AttemptNo a) (at_TaskID a) (at_LeaseEpoch a) (at_LeaseUntil a) s (at_StartedAt a) (Some now) result err (at_CreatedAt a).

Definition CommitAttemptDeferred (io : bool) (now : time) (attemptID : string) (leaseEpoch : Z) (readyAt : time) (reason : string) (t : job_tables)
    : option job_error * job_tables :=
  if is_zero readyAt then (Some ErrInvalidRequest, t)
  else if io then
    match tb_attempts t !! attemptID with
    | None => (Some ErrLeaseFencingLost, t)
    | Some a =>
        if negb (at_LeaseEpoch a =? leaseEpoch) then (Some ErrLeaseFencingLost, t)
        else match tb_occurrences t !! at_OccurrenceID a with
        | None => (Some ErrLeaseFencingLost, t)
        | Some o =>
            if negb (latest_no (at_OccurrenceID a) t =? at_AttemptNo a) || negb (bool_decide (oc_State o = OccurrenceDispatched)) then (Some ErrLeaseFencingLost, t)
            else if is_deferred a then
              (if bool_decide (at_Error a = reason) && (oc_ReadyAt o =? readyAt) then None else Some ErrLeaseFencingLost, t)
            else if attemptTerminal (at_State a) then (Some ErrLeaseFencingLost, t)
            else (None, put_occurrence (oc_set_ready readyAt now o) (put_attempt (at_finish AttemptDeferred (at_Result a) reason now a) t))
        end
    end
  else (Some ErrDatabase, t).

(** [outbox] is the event of [CommitAttemptResultWithOutbox], if it has one: identifier, kind and payload. *)
Definition commit_attempt (io : bool) (now : time) (attemptID : string) (leaseEpoch : Z) (outcome : AttemptState) (result : option attempt_metadata) (errStr : string)
    (outbox : option (string * string * string)) (t : job_tables) : option job_error * job_tables :=
  if io then
    match outcome with
    | AttemptCompleted | AttemptFailed | AttemptTimedOut | AttemptCancelled | AttemptAbortedBeforeStart =>
        match tb_attempts t !! attemptID with
        | None => (Some ErrLeaseFencingLost, t)
        | Some a =>
            if negb (at_LeaseEpoch a =? leaseEpoch) then (Some ErrLeaseFencingLost, t)
            else if attemptTerminal (at_State a) then
              (if bool_decide (at_State a = outcome) && bool_decide (at_Result a = result) && bool_decide (at_Error a = errStr) then None else Some ErrLeaseFencingLost, t)
            else match tb_occurrences t !! at_OccurrenceID a with
            | None => (Some ErrDatabase, t)
            | Some o =>
                if negb (latest_no (at_OccurrenceID a) t =? at_AttemptNo a) || negb (bool_decide (oc_State o = OccurrenceDispatched)) then (Some ErrLeaseFencingLost, t)
                else
                  let t1 := put_attempt (at_finish outcome result errStr now a) t in
                  let t2 := match outcome with
                    | AttemptCompleted => put_occurrence (oc_set_state OccurrenceCompleted now o) t1
                    | AttemptCancelled => put_occurrence (oc_set_state OccurrenceCancelled now o) t1
                    | _ => t1
                    end in
                  match outbox with
                  | None => (None, t2)
                  | Some (id, kind, payload) =>
                      match insert_outbox (mkOutbox id (at_OccurrenceID a) kind (PayloadBytes payload) now false) t2 with
                      | Some t3 => (None, t3)
                      | None => (Some ErrConstraint, t)
                      end
                  end
            end
        end
    | _ => (Some ErrInvalidRequest, t)
    end
  else (Some ErrDatabase, t).
Definition CommitAttemptResult (io : bool) (now : time) (attemptID : string) (leaseEpoch : Z) (outcome : AttemptState) (result : option attempt_metadata) (errStr : string) :=
  commit_attempt io now attemptID leaseEpoch outcome result errStr None.
Definition CommitAttemptResultWithOutbox (io : bool) (now : time) (attemptID : string) (leaseEpoch : Z) (outcome : AttemptState) (result : option attempt_metadata)
    (errStr outboxEventID outboxKind outboxPayload : string) :=
  commit_attempt io now attemptID leaseEpoch outcome result errStr
    (if bool_decide (outboxEventID = "") || bool_decide (outboxKind = "") then None else Some (outboxEventID, outboxKind, outboxPayload)).

(** ** Schedules *)

Section Schedules.
(** Whether [time.LoadLocation] knows a time zone: its database is not part of the repository. *)
Variable zone_known : string -> bool.

(** [int64(sched.Interval.Seconds())], exact below 2^23 seconds. *)
Definition interval_seconds (d : duration) : Z := Z.quot d second.
Definition SaveSchedule (io : bool) (sched : JobSchedule) (t : job_tables) : option job_error * job_tables :=
  let recurrence_ok :=
    if decide (js_Recurrence sched = "once") then js_Interval sched =? 0
    else if decide (js_Recurrence sched = "interval") then negb (js_Interval sched <? second) else false in
  let tz := if decide (js_Timezone sched = "") then "UTC"%string else js_Timezone sched in
  let misfire_ok := match js_MisfirePolicy sched with MisfireUnset | MisfireRunOnce | MisfireSkip => true | _ => false end in
  let overlap_ok := match js_OverlapPolicy sched with OverlapUnset | OverlapForbid => true | _ => false end in
  if blank (js_ID sched) || blank (js_JobID sched) || negb recurrence_ok || is_zero (js_NextDueAt sched) || negb (zone_known tz) || negb misfire_ok || negb overlap_ok
  then (Some ErrInvalidRequest, t)
  else if io then
    if bool_decide (is_Some (tb_definitions t !! js_JobID sched)) then
      (None, put_schedule (mkSchedule (js_ID sched) (js_JobID sched) (js_Recurrence sched) (interval_seconds (js_Interval sched) * second) tz (js_NextDueAt sched)
               (if decide (js_MisfirePolicy sched = MisfireUnset) then MisfireRunOnce else js_MisfirePolicy sched)
               (if decide (js_OverlapPolicy sched = OverlapUnset) then OverlapForbid else js_OverlapPolicy sched) (js_Enabled sched)
               (match tb_schedules t !! js_ID sched with Some old => js_Revision old + 1 | None => js_Revision sched end)) t)
    else (Some ErrConstraint, t)
  else (Some ErrDatabase, t).
End Schedules.

Definition js_advance (nextDue : time) (enabled : bool) (s : JobSchedule) : JobSchedule :=
  mkSchedule (js_ID s) (js_JobID s) (js_Recurrence s) (js_Interval s) (js_Timezone s) nextDue (js_MisfirePolicy s) (js_OverlapPolicy s) enabled (js_Revision s + 1).

Definition SkipDueSchedule (io : bool) (now : time) (scheduleID : string) (nextDue : time) (t : job_tables) : option job_error * job_tables :=
  if io then
    match tb_schedules t !! scheduleID with
    | None => (Some ErrScheduleNotFound, t)
    | Some s => if negb (js_Enabled s) || after (js_NextDueAt s) now then (Some ErrNotDue, t) else (None, put_schedule (js_advance nextDue (js_Enabled s) s) t)
    end
  else (Some ErrDatabase, t).

Definition DisableSchedule (io : bool) (id : string) (t : job_tables) : option job_error * job_tables :=
  if io then
    match tb_schedules t !! id with
    | Some s => (None, if js_Enabled s then put_schedule (js_advance (js_NextDueAt s) false s) t else t)
    | None => (None, t)
    end
  else (Some ErrDatabase, t).

(** [schedule_registration.go]. *)
Definition DeletePreparedSchedule (io : bool) (id : string) (t : job_tables) : option job_error * job_tables :=
  let id := trim_space id in
  if decide (id = "") then (Some ErrInvalidRequest, t)
  else if io then (None, delete_schedules (fun s => bool_decide (js_ID s = id) && negb (js_Enabled s) && (js_Revision s =? 1)) t)
  else (Some ErrDatabase, t).

Definition GetSchedule (io : bool) (id : string) (t : job_tables) : job_error + JobSchedule :=
  if io then match tb_schedules t !! id with Some s => inr s | None => inl ErrScheduleNotFound end else inl ErrDatabase.

Definition due_before (a b : JobSchedule) : Prop := js_NextDueAt a < js_NextDueAt b \/ (js_NextDueAt a = js_NextDueAt b /\ String.le (js_ID a) (js_ID b)).
#[export] Instance due_before_dec a b : Decision (due_before a b). Proof. unfold due_before. apply _. Defined.
Definition ListDueSchedules (io : bool) (now : time) (limit : Z) (t : job_tables) : job_error + list JobSchedule :=
  let limit := if (limit <=? 0) || (1000 <? limit) then 100 else limit in
  if io then inr (take (Z.to_nat limit) (merge_sort due_before (filter (fun s => js_Enabled s = true /\ js_NextDueAt s <= now) (map_to_list (tb_schedules t)).*2)))
  else inl ErrDatabase.

Definition earliest (l : list time) : option time := match l with [] => None | x :: l => Some (foldr Z.min x l) end.
Definition EarliestScheduleDue (io : bool) (t : job_tables) : job_error + option time :=
  if io then inr (earliest (map js_NextDueAt (filter (fun s => js_Enabled s = true) (map_to_list (tb_schedules t)).*2))) else inl ErrDatabase.
Definition EarliestDeferredOccurrenceDue (io : bool) (now : time) (t : job_tables) : job_error + option time :=
  if io then inr (earliest (map oc_ReadyAt (filter (fun o => oc_State o = OccurrenceDispatched /\ now < oc_ReadyAt o) (map_to_list (tb_occurrences t)).*2)))
  else inl ErrDatabase.
Definition CutoverActive (io : bool) (t : job_tables) : job_error + bool := if io then inr (tb_redesigned t) else inl ErrDatabase.

Definition oc_active (o : JobOccurrence) : bool := match oc_State o with OccurrenceReady | OccurrenceDispatched => true | _ => false end.
Definition active_count (jobID : string) (t : job_tables) : nat :=
  length (filter (fun o => oc_JobID o = jobID /\ oc_active o = true) (map_to_list (tb_occurrences t)).*2).

(** [ON CONFLICT(occurrence_key) DO UPDATE]; another conflict fails the transaction. *)
Definition insert_slot (o : JobOccurrence) (t : job_tables) : option job_tables :=
  match occurrence_by_key (oc_OccurrenceKey o) t with
  | Some old => Some (put_occurrence (oc_touch (oc_UpdatedAt o) old) t)
  | None => if insertable o t then Some (put_occurrence o t) else None
  end.

Definition MaterializeDueSchedule (io : bool) (now : time) (scheduleID : string) (nextDue : time) (t : job_tables)
    : (job_error + option JobOccurrence) * job_tables :=
  if io then
    match tb_schedules t !! scheduleID with
    | None => (inl ErrScheduleNotFound, t)
    | Some s =>
        if negb (js_Enabled s) || after (js_NextDueAt s) now then (inl ErrNotDue, t)
        else
          let advanced := put_schedule (js_advance nextDue (negb (bool_decide (js_Recurrence s = "once"))) s) in
          if bool_decide (js_OverlapPolicy s = OverlapForbid) && (0 <? active_count (js_JobID s) t)%nat then (inr None, advanced t)
          else
            let o := mkOccurrence (slot_id scheduleID (js_NextDueAt s)) (js_JobID s) scheduleID (js_NextDueAt s) (slot_key scheduleID (js_NextDueAt s))
              OccurrenceReady now 0 1 now in
            match insert_slot o t with
            | Some t' => (inr (Some o), advanced t')
            | None => (inl ErrConstraint, t)
            end
    end
  else (inl ErrDatabase, t).

(** ** The outbox *)

Definition RecordOutboxEvent (io : bool) (now : time) (eventID occurrenceID kind payload : string) (t : job_tables) : option job_error * job_tables :=
  if io then
    match insert_outbox (mkOutbox eventID occurrenceID kind (PayloadBytes payload) now false) t with Some t => (None, t) | None => (Some ErrConstraint, t) end
  else (Some ErrDatabase, t).

Definition committed_before (a b : OutboxEvent) : Prop := ob_CommittedAt a < ob_CommittedAt b \/ (ob_CommittedAt a = ob_CommittedAt b /\ String.le (ob_ID a) (ob_ID b)).
#[export] Instance committed_before_dec a b : Decision (committed_before a b). Proof. unfold committed_before. apply _. Defined.
Definition ListPendingOutbox (io : bool) (limit : Z) (t : job_tables) : job_error + list OutboxEvent :=
  let limit := if (limit <=? 0) || (1000 <? limit) then 100 else limit in
  if io then inr (take (Z.to_nat limit) (merge_sort committed_before (filter (fun e => ob_delivered e = false) (map_to_list (tb_outbox t)).*2))) else inl ErrDatabase.
Definition MarkOutboxDelivered (io : bool) (eventID : string) (t : job_tables) : option job_error * job_tables :=
  if io then
    match tb_outbox t !! eventID with
    | Some e => if ob_delivered e then (Some ErrNotPending, t)
                else (None, put_outbox (mkOutbox (ob_ID e) (ob_OccurrenceID e) (ob_Kind e) (ob_Payload e) (ob_CommittedAt e) true) t)
    | None => (Some ErrNotPending, t)
    end
  else (Some ErrDatabase, t).
