(* ===== verification/JobInvariant.v ===== *)
(** * The job store: its steps and its invariant

    The statements of [JobStore] as the steps of one store that any number of goroutines
    use, and the invariant every step keeps: keys are unique, the attempts of an
    occurrence are numbered without a gap and only the last of them may be open, and the
    state of the occurrence agrees with its last attempt. *)

From stdpp Require Import pretty.
From S2P Require Import Prelude.
From S2P Require Import JobStore.

(** ** Identifiers are different *)

Fixpoint free_of (c : Ascii.ascii) (s : string) : bool :=
  match s with EmptyString => true | String d s => negb (Ascii.eqb c d) && free_of c s end.
Definition colon : Ascii.ascii := Ascii.Ascii false true false true true true false false.

Lemma digit_not_colon x : Ascii.eqb colon (pretty_N_char x) = false.
Proof. unfold pretty_N_char. repeat match goal with |- context [match ?p with _ => _ end] => is_var p; destruct p end; reflexivity. Qed.

Lemma free_digits x : forall s, free_of colon s = true -> free_of colon (pretty_N_go x s) = true.
Proof.
  induction (N.lt_wf_0 x) as [x _ IH]; intros s H. assert (x = 0 \/ 0 < x)%N as [->|Hx] by lia; [done|].
  rewrite pretty_N_go_step by done. apply IH; [by apply N.div_lt|].
  cbn -[pretty_N_char Ascii.eqb]. by rewrite digit_not_colon, H.
Qed.

Lemma free_pretty (z : Z) : free_of colon (pretty z) = true.
Proof.
  assert (H : forall x : N, free_of colon (pretty x) = true) by (intros x; unfold pretty, pretty_N; case_decide; [done|by apply free_digits]).
  destruct z as [|p|p]; [done|exact (H (N.pos p))|]. exact (H (N.pos p)).
Qed.

Lemma free_app c s1 s2 : free_of c (s1 +:+ String c s2) = false.
Proof.
  induction s1 as [|d s1 IH]; [change (negb (Ascii.eqb c c) && free_of c s2 = false); by rewrite Ascii.eqb_refl|].
  change (negb (Ascii.eqb c d) && free_of c (s1 +:+ String c s2) = false). rewrite IH. apply andb_false_r.
Qed.

Lemma last_colon s1 : forall s2 d1 d2, free_of colon d1 = true -> free_of colon d2 = true ->
  (s1 +:+ String colon d1 = s2 +:+ String colon d2)%string -> s1 = s2 /\ d1 = d2.
Proof.
  induction s1 as [|c s1 IH]; intros [|c' s2] d1 d2 F1 F2 E; unfold String.app in E; fold String.app in E; injection E.
  - done.
  - intros -> _. by rewrite free_app in F1.
  - intros <- _. by rewrite free_app in F2.
  - intros E' ->. destruct (IH s2 d1 d2 F1 F2 E') as [-> ->]. done.
Qed.

Lemma numbered_inj (prefix occ occ' : string) (n n' : Z) :
  (prefix +:+ occ +:+ ":" +:+ pretty n = prefix +:+ occ' +:+ ":" +:+ pretty n')%string -> occ = occ' /\ n = n'.
Proof.
  intros E. assert (E' : (occ +:+ String colon (pretty n) = occ' +:+ String colon (pretty n'))%string).
  { induction prefix as [|c p IH]; [exact E|]. cbn in E. injection E as E. by apply IH. }
  destruct (last_colon _ _ _ _ (free_pretty n) (free_pretty n') E') as [-> Hp]. split; [done|]. by apply (inj pretty).
Qed.

Lemma attempt_id_inj occ occ' n n' : attempt_id occ n = attempt_id occ' n' -> occ = occ' /\ n = n'.
Proof. apply numbered_inj. Qed.

(** ** The steps of the store *)

(** The statements that change the tables, with what the database and the clock answer. *)
Inductive job_event :=
  | JeSaveDefinition (io : bool) (def : JobDefinition)
  | JeUpdateDefinition (io : bool) (def : JobDefinition) (expectedRevision : Z)
  | JeDeleteDefinition (io : bool) (id : string)
  | JeMaterialize (io io' : bool) (now : time) (occ : JobOccurrence)
  | JeFinalize (io : bool) (now : time) (occurrenceID : string) (state : OccurrenceState)
  | JeDefer (io : bool) (now : time) (occurrenceID : string) (readyAt : time)
  | JeCancel (io : bool) (now : time) (occurrenceID reason : string)
  | JePrune (io : bool) (ids : list string) (jobID : string) (before_ : time)
  | JePrepare (io : bool) (checked now : time) (occurrenceID : string) (taskID : option string) (lease : duration)
  | JeCommitDeferred (io : bool) (now : time) (attemptID : string) (leaseEpoch : Z) (readyAt : time) (reason : string)
  | JeCommit (io : bool) (now : time) (attemptID : string) (leaseEpoch : Z) (outcome : AttemptState) (result : option attempt_metadata) (errStr : string)
      (outbox : option (string * string * string))
  | JeSaveSchedule (zone_known : string -> bool) (io : bool) (sched : JobSchedule)
  | JeSkip (io : bool) (now : time) (scheduleID : string) (nextDue : time)
  | JeDisable (io : bool) (id : string)
  | JeDeletePrepared (io : bool) (id : string)
  | JeSlot (io : bool) (now : time) (scheduleID : string) (nextDue : time)
  | JeOutbox (io : bool) (now : time) (eventID occurrenceID kind payload : string)
  | JeDelivered (io : bool) (eventID : string).

Definition job_step (ev : job_event) (t : job_tables) : job_tables :=
  match ev with
  | JeSaveDefinition io def => (SaveDefinition io def t).2
  | JeUpdateDefinition io def rev => (UpdateDefinitionCAS io def rev t).2
  | JeDeleteDefinition io id => (DeleteDefinition io id t).2
  | JeMaterialize io io' now occ => (MaterializeOccurrence io io' now occ t).2
  | JeFinalize io now id state => (FinalizeOccurrence io now id state t).2
  | JeDefer io now id readyAt => (DeferOccurrence io now id readyAt t).2
  | JeCancel io now id reason => (CancelOccurrence io now id reason t).2
  | JePrune io ids jobID before_ => (DeleteTerminalOccurrences io ids jobID before_ t).2
  | JePrepare io checked now id taskID lease => (prepareAttemptLease io checked now id taskID lease t).2
  | JeCommitDeferred io now id epoch readyAt reason => (CommitAttemptDeferred io now id epoch readyAt reason t).2
  | JeCommit io now id epoch outcome result errStr outbox => (commit_attempt io now id epoch outcome result errStr outbox t).2
  | JeSaveSchedule zk io s => (SaveSchedule zk io s t).2
  | JeSkip io now id next => (SkipDueSchedule io now id next t).2
  | JeDisable io id => (DisableSchedule io id t).2
  | JeDeletePrepared io id => (DeletePreparedSchedule io id t).2
  | JeSlot io now id next => (MaterializeDueSchedule io now id next t).2
  | JeOutbox io now id occ kind payload => (RecordOutboxEvent io now id occ kind payload t).2
  | JeDelivered io id => (MarkOutboxDelivered io id t).2
  end.

(** The callers of [MaterializeOccurrence] give it a ready occurrence. *)
Definition event_ok (ev : job_event) : bool := match ev with JeMaterialize _ _ _ occ => bool_decide (oc_State occ = OccurrenceReady) | _ => true end.

Inductive job_reachable : job_tables -> Prop :=
  | jr_empty : job_reachable empty_tables
  | jr_step ev t : job_reachable t -> event_ok ev = true -> job_reachable (job_step ev t).

Fixpoint job_run (evs : list job_event) (t : job_tables) : job_tables :=
  match evs with [] => t | ev :: evs => job_run evs (job_step ev t) end.
Lemma job_run_reachable evs : forall t, job_reachable t -> forallb event_ok evs = true -> job_reachable (job_run evs t).
Proof. induction evs as [|ev evs IH]; intros t H; cbn; [done|]. intros [E Es]%andb_true_iff. apply IH; [by apply jr_step|done]. Qed.

(** ** The last attempt *)

Definition is_latest (m : gmap string JobAttempt) (id : string) (n : Z) : Prop :=
  (forall k a, m !! k = Some a -> at_OccurrenceID a = id -> at_AttemptNo a <= n) /\ 0 <= n /\
  (n = 0 \/ exists k a, m !! k = Some a /\ at_OccurrenceID a = id /\ at_AttemptNo a = n).

Lemma is_latest_unique m id n n' : (forall k a, m !! k = Some a -> 1 <= at_AttemptNo a) -> is_latest m id n -> is_latest m id n' -> n = n'.
Proof.
  intros P (U & Z0 & C) (U' & Z0' & C').
  destruct C as [->|(k & a & E & Ho & <-)], C' as [->|(k' & a' & E' & Ho' & <-)]; [done|..].
  - pose proof (U _ _ E' Ho'). specialize (P _ _ E'). lia.
  - pose proof (U' _ _ E Ho). specialize (P _ _ E). lia.
  - pose proof (U _ _ E' Ho'). pose proof (U' _ _ E Ho). lia.
Qed.

Lemma elem_of_attempts t id a : a ∈ attempts_of id t <-> (exists k, tb_attempts t !! k = Some a) /\ at_OccurrenceID a = id.
Proof.
  unfold attempts_of. rewrite list_elem_of_filter, list_elem_of_fmap. split.
  - intros (Ho & [k b] & -> & H%elem_of_map_to_list). split; [by exists k|done].
  - intros ([k H] & Ho). split; [done|]. exists (k, a). split; [done|]. by apply elem_of_map_to_list.
Qed.

Lemma latest_no_is t id : is_latest (tb_attempts t) id (latest_no id t).
Proof.
  assert (H : forall l, (forall a, a ∈ l -> at_AttemptNo a <= foldr (fun a n => Z.max (at_AttemptNo a) n) 0 l) /\
    0 <= foldr (fun a n => Z.max (at_AttemptNo a) n) 0 l /\
    (foldr (fun a n => Z.max (at_AttemptNo a) n) 0 l = 0 \/ exists a, a ∈ l /\ at_AttemptNo a = foldr (fun a n => Z.max (at_AttemptNo a) n) 0 l)).
  { induction l as [|x l (U & N & C)]; cbn; [split_and!; [by intros ? ?%elem_of_nil|lia|by left]|]. split_and!.
    - intros a [->|Ha]%elem_of_cons; [lia|]. specialize (U _ Ha). lia.
    - lia.
    - set (f := foldr _ 0 l) in *. destruct (Z.max_spec (at_AttemptNo x) f) as [[Hl ->]|[Hl ->]].
      + destruct C as [C|(a & Ha & Hn)]; [by left|right]. exists a. split; [by right|done].
      + right. exists x. split; [by left|done]. }
  destruct (H (attempts_of id t)) as (U & N & C). split_and!; [|done|].
  - intros k a E Ho. apply U. apply elem_of_attempts. split; [by exists k|done].
  - destruct C as [C|(a & Ha & Hn)]; [by left|right]. apply elem_of_attempts in Ha as [[k E] Ho]. by exists k, a.
Qed.

(** ** The invariant *)

Definition agrees (t : job_tables) (id : string) (s : OccurrenceState) : Prop :=
  match s with
  | OccurrenceReady => latest_no id t = 0
  | OccurrenceDispatched => 1 <= latest_no id t
  | OccurrenceCompleted => exists a, tb_attempts t !! attempt_id id (latest_no id t) = Some a /\ at_State a = AttemptCompleted
  | OccurrenceFailed | OccurrenceCancelled => True
  | _ => False
  end.

(** The state an attempt leaves its occurrence in when it closes it. *)
Definition closes (s : AttemptState) : option OccurrenceState :=
  match s with AttemptCompleted => Some OccurrenceCompleted | AttemptCancelled => Some OccurrenceCancelled | _ => None end.

Record tables_ok (t : job_tables) : Prop := {
  to_occ : forall id o, tb_occurrences t !! id = Some o -> oc_ID o = id /\ agrees t id (oc_State o);
  to_keys : forall id id' o o', tb_occurrences t !! id = Some o -> tb_occurrences t !! id' = Some o' -> oc_OccurrenceKey o = oc_OccurrenceKey o' -> id = id';
  to_att : forall k a, tb_attempts t !! k = Some a ->
    k = attempt_id (at_OccurrenceID a) (at_AttemptNo a) /\ at_ID a = k /\ at_LeaseEpoch a = at_AttemptNo a /\ 1 <= at_AttemptNo a /\
    is_Some (tb_occurrences t !! at_OccurrenceID a);
  to_prev : forall k a, tb_attempts t !! k = Some a -> 1 < at_AttemptNo a ->
    exists b, tb_attempts t !! attempt_id (at_OccurrenceID a) (at_AttemptNo a - 1) = Some b /\ attemptTerminal (at_State b) = true;
  to_closed : forall k a s, tb_attempts t !! k = Some a -> closes (at_State a) = Some s ->
    at_AttemptNo a = latest_no (at_OccurrenceID a) t /\ exists o, tb_occurrences t !! at_OccurrenceID a = Some o /\ oc_State o = s
}.

Lemma tables_ok_ext t t' : tb_occurrences t' = tb_occurrences t -> tb_attempts t' = tb_attempts t -> tables_ok t -> tables_ok t'.
Proof.
  destruct t as [d s o a x r], t' as [d' s' o' a' x' r']. cbn. intros -> -> [H1 H2 H3 H4 H5]. split; [exact H1|exact H2|exact H3|exact H4|exact H5].
Qed.

Lemma no_positive t : tables_ok t -> forall k a, tb_attempts t !! k = Some a -> 1 <= at_AttemptNo a.
Proof. intros H k a E. by apply (to_att _ H) in E as (_ & _ & _ & ? & _). Qed.

Lemma latest_no_le t k a : tables_ok t -> tb_attempts t !! k = Some a -> at_AttemptNo a <= latest_no (at_OccurrenceID a) t.
Proof. intros H E. by eapply (latest_no_is t). Qed.

(** The last attempt is the one its number names. *)
Lemma latest_lookup t id : tables_ok t -> latest_no id t <> 0 ->
  exists a, tb_attempts t !! attempt_id id (latest_no id t) = Some a /\ at_OccurrenceID a = id /\ at_AttemptNo a = latest_no id t.
Proof.
  intros H Hn. destruct (latest_no_is t id) as (_ & _ & [C|(k & a & E & <- & Hno)]); [done|].
  exists a. destruct (to_att _ H _ _ E) as (-> & _). by rewrite <- Hno.
Qed.

Lemma latest_attempt_is t id : tables_ok t -> latest_attempt id t = tb_attempts t !! attempt_id id (latest_no id t).
Proof.
  intros H. unfold latest_attempt. destruct (filter _ _) as [|a l] eqn:E; cbn.
  - symmetry. apply eq_None_not_Some. intros [a Ha]. destruct (to_att _ H _ _ Ha) as (Hk & _ & _ & _ & _).
    apply attempt_id_inj in Hk as [Hid Hno].
    assert (Hin : a ∈ filter (fun a => at_AttemptNo a = latest_no id t) (attempts_of id t)).
    { apply list_elem_of_filter. split; [done|]. apply elem_of_attempts. split; [by eexists|done]. }
    rewrite E in Hin. by apply elem_of_nil in Hin.
  - assert (Hin : a ∈ filter (fun a => at_AttemptNo a = latest_no id t) (attempts_of id t)) by (rewrite E; left).
    apply list_elem_of_filter in Hin as [Hno Ha]. apply elem_of_attempts in Ha as [[k Hk] Ho].
    destruct (to_att _ H _ _ Hk) as (-> & _). by rewrite Ho, Hno in Hk.
Qed.

(** Updates that keep numbers and occurrences of the attempts keep the last number. *)
Lemma latest_no_same t t' id :
  (forall k a, tb_attempts t !! k = Some a -> 1 <= at_AttemptNo a) -> is_latest (tb_attempts t') id (latest_no id t) ->
  (forall k a, tb_attempts t' !! k = Some a -> 1 <= at_AttemptNo a) -> latest_no id t' = latest_no id t.
Proof. intros _ H P. eapply is_latest_unique; [exact P|apply latest_no_is|exact H]. Qed.

Lemma finish_latest t k a a' id : tables_ok t -> tb_attempts t !! k = Some a -> at_ID a' = k -> at_OccurrenceID a' = at_OccurrenceID a ->
  at_AttemptNo a' = at_AttemptNo a -> latest_no id (put_attempt a' t) = latest_no id t.
Proof.
  intros H E Hk Ho Hn. apply latest_no_same; [by apply no_positive| |].
  - destruct (latest_no_is t id) as (U & N & C). cbn. rewrite Hk. split_and!; [|done|].
    + intros j b [[<- <-]|[_ Hb]]%lookup_insert_Some Hob; [rewrite Hn; eapply U; [exact E|by rewrite <- Ho]|by eapply U].
    + destruct C as [C|(j & b & Hb & Hob & Hnb)]; [by left|right]. destruct (decide (k = j)) as [<-|Hne].
      * exists k, a'. rewrite E in Hb. injection Hb as <-. rewrite lookup_insert_eq. split_and!; congruence.
      * exists j, b. by rewrite lookup_insert_ne.
  - cbn. rewrite Hk. intros j b [[<- <-]|[_ Hb]]%lookup_insert_Some; [rewrite Hn|]; by eapply no_positive.
Qed.

Lemma lease_latest t a id : tables_ok t -> at_ID a = attempt_id (at_OccurrenceID a) (at_AttemptNo a) ->
  at_AttemptNo a = latest_no (at_OccurrenceID a) t + 1 ->
  latest_no id (put_attempt a t) = if decide (id = at_OccurrenceID a) then latest_no id t + 1 else latest_no id t.
Proof.
  intros H Hk Hn. pose proof (latest_no_is t (at_OccurrenceID a)) as (_ & Np & _).
  eapply is_latest_unique; [|apply latest_no_is|].
  - cbn. intros j b [[<- <-]|[_ Hb]]%lookup_insert_Some; [lia|by eapply no_positive].
  - assert (Fresh : tb_attempts t !! at_ID a = None).
    { apply eq_None_not_Some. intros [b Hb]. destruct (to_att _ H _ _ Hb) as (Hk' & _). rewrite Hk in Hk'. apply attempt_id_inj in Hk' as [Ho' Hn'].
      pose proof (latest_no_le _ _ _ H Hb) as L. rewrite <- Ho', <- Hn' in L. lia. }
    destruct (latest_no_is t id) as (U & N & C). case_decide as Hd; cbn; split_and!; try lia.
    + intros j b [[<- <-]|[_ Hb]]%lookup_insert_Some Hob; [subst id; lia|]. specialize (U _ _ Hb Hob). lia.
    + right. exists (at_ID a), a. rewrite lookup_insert_eq. subst id. split_and!; [done|done|lia].
    + intros j b [[<- <-]|[_ Hb]]%lookup_insert_Some Hob; [by subst id|by eapply U].
    + destruct C as [C|(j & b & Hb & Hob & Hnb)]; [by left|right]. exists j, b. rewrite lookup_insert_ne; [done|]. intros <-. congruence.
Qed.
