(* ===== verification/JobSteps.v ===== *)
(** * Every statement keeps the invariant of the job store

    What a statement does to the tables is one of a few changes: an occurrence is
    added, changed in place, or deleted with its attempts; an attempt is leased; the open
    attempt ends. Each keeps the invariant, and so does every statement. *)

From S2P Require Import Prelude.
From S2P Require Import JobStore.
From S2P Require Import JobInvariant.

(** An occurrence that is not closed has no attempt that closed it. *)
Lemma not_closed t k a o : tables_ok t -> tb_attempts t !! k = Some a -> tb_occurrences t !! at_OccurrenceID a = Some o ->
  occurrenceTerminal (oc_State o) = false -> closes (at_State a) = None.
Proof.
  intros H Ha Ho Hs. destruct (closes (at_State a)) as [s|] eqn:E; [|done].
  destruct (to_closed _ H _ _ _ Ha E) as (_ & o' & Ho' & Hs'). rewrite Ho in Ho'. injection Ho' as <-.
  destruct (at_State a); simplify_eq/=; by rewrite <- E in Hs.
Qed.

Lemma update_occurrence_ok o o' t : tables_ok t -> tb_occurrences t !! oc_ID o' = Some o -> oc_OccurrenceKey o' = oc_OccurrenceKey o ->
  agrees t (oc_ID o') (oc_State o') -> oc_State o' = oc_State o \/ occurrenceTerminal (oc_State o) = false -> tables_ok (put_occurrence o' t).
Proof.
  intros H Ho Hk Ha Hs. pose proof H as [H1 H2 H3 H4 H5]. split; cbn.
  - intros id x [[<- <-]|[_ Hx]]%lookup_insert_Some; [by split|]. by apply H1.
  - intros i j x y [[<- <-]|[Ni Hx]]%lookup_insert_Some [[<- <-]|[Nj Hy]]%lookup_insert_Some E; try done.
    + apply (H2 _ _ o y); [done..|]. by rewrite <- Hk.
    + apply (H2 _ _ x o); [done..|]. by rewrite <- Hk.
    + by apply (H2 _ _ x y).
  - intros k a Ea. destruct (H3 _ _ Ea) as (A & B & C & D & [x Hx]). split_and!; [done..|].
    destruct (decide (oc_ID o' = at_OccurrenceID a)) as [->|Hn]; [rewrite lookup_insert_eq; by eexists|rewrite lookup_insert_ne by done; by exists x].
  - exact H4.
  - intros k a s Ea Ec. destruct (H5 _ _ _ Ea Ec) as (A & x & Hx & Hxs). split; [exact A|].
    destruct (decide (oc_ID o' = at_OccurrenceID a)) as [Hd|Hn]; [|exists x; by rewrite lookup_insert_ne].
    rewrite Hd, lookup_insert_eq. exists o'. split; [done|]. rewrite Hd, Hx in Ho. injection Ho as ->.
    destruct Hs as [->|Hs]; [done|]. assert (E : closes (at_State a) = None) by (by apply (not_closed t k a o)). congruence.
Qed.

Lemma fresh_no_attempts id t : tables_ok t -> tb_occurrences t !! id = None -> latest_no id t = 0.
Proof.
  intros H Hn. destruct (latest_no_is t id) as (_ & _ & [->|(k & a & E & Ho & _)]); [done|].
  destruct (to_att _ H _ _ E) as (_ & _ & _ & _ & [o Hx]). congruence.
Qed.

Lemma key_free key t : occurrence_by_key key t = None -> forall id o, tb_occurrences t !! id = Some o -> oc_OccurrenceKey o <> key.
Proof.
  unfold occurrence_by_key. intros H id o Ho Hk.
  assert (Hin : o ∈ filter (fun o => oc_OccurrenceKey o = key) (map_to_list (tb_occurrences t)).*2).
  { apply list_elem_of_filter. split; [done|]. apply list_elem_of_fmap. exists (id, o). split; [done|]. by apply elem_of_map_to_list. }
  destruct (filter _ _); [by apply elem_of_nil in Hin|done].
Qed.

Lemma key_found key t o : occurrence_by_key key t = Some o -> exists id, tb_occurrences t !! id = Some o /\ oc_OccurrenceKey o = key.
Proof.
  unfold occurrence_by_key. intros H. destruct (filter _ _) as [|x l] eqn:E; [done|]. injection H as ->.
  assert (Hin : o ∈ filter (fun o => oc_OccurrenceKey o = key) (map_to_list (tb_occurrences t)).*2) by (rewrite E; left).
  apply list_elem_of_filter in Hin as [Hk Hin]. apply list_elem_of_fmap in Hin as ([id y] & -> & Hin). exists id. split; [by apply elem_of_map_to_list|done].
Qed.

Lemma insert_occurrence_ok o t : tables_ok t -> insertable o t = true -> oc_State o = OccurrenceReady -> tables_ok (put_occurrence o t).
Proof.
  intros H Hi Hs. unfold insertable in Hi. apply andb_true_iff in Hi as [[[Hid Hk]%andb_true_iff _]%andb_true_iff _].
  apply bool_decide_eq_true in Hid, Hk. pose proof (key_free _ _ Hk) as Kf. pose proof (fresh_no_attempts _ _ H Hid) as L0.
  pose proof H as [H1 H2 H3 H4 H5]. split; cbn.
  - intros id x [[<- <-]|[_ Hx]]%lookup_insert_Some; [|by apply H1]. split; [done|]. rewrite Hs. exact L0.
  - intros i j x y [[<- <-]|[Ni Hx]]%lookup_insert_Some [[<- <-]|[Nj Hy]]%lookup_insert_Some E; try done.
    + by edestruct Kf.
    + by edestruct Kf.
    + by apply (H2 _ _ x y).
  - intros k a Ea. destruct (H3 _ _ Ea) as (A & B & C & D & [x Hx]). split_and!; [done..|].
    rewrite lookup_insert_ne; [by exists x|]. congruence.
  - exact H4.
  - intros k a s Ea Ec. destruct (H5 _ _ _ Ea Ec) as (A & x & Hx & Hxs). split; [exact A|]. exists x.
    rewrite lookup_insert_ne; [done|]. congruence.
Qed.

(** A change of every occurrence that keeps identifier, key and state. *)
Lemma map_occurrences_ok (f : JobOccurrence -> JobOccurrence) t t' : tables_ok t ->
  (forall o, oc_ID (f o) = oc_ID o /\ oc_OccurrenceKey (f o) = oc_OccurrenceKey o /\ oc_State (f o) = oc_State o) ->
  tb_occurrences t' = f <$> tb_occurrences t -> tb_attempts t' = tb_attempts t -> tables_ok t'.
Proof.
  intros H Hf Eo Ea. destruct t as [d s oc at_ ob r], t' as [d' s' oc' at' ob' r']. cbn in Eo, Ea. subst oc' at'.
  pose proof H as [H1 H2 H3 H4 H5]. cbn in *. split; cbn.
  - intros id x. rewrite lookup_fmap, fmap_Some. intros (y & Hy & ->). destruct (Hf y) as (-> & _ & ->). by apply H1.
  - intros i j x y. rewrite !lookup_fmap, !fmap_Some. intros (x' & Hx & ->) (y' & Hy & ->).
    destruct (Hf x') as (_ & -> & _), (Hf y') as (_ & -> & _). by apply H2.
  - intros k a Ha. destruct (H3 _ _ Ha) as (A & B & C & D & E). rewrite lookup_fmap, fmap_is_Some. by split_and!.
  - exact H4.
  - intros k a st Ha Hc. destruct (H5 _ _ _ Ha Hc) as (A & x & Hx & Hs). split; [exact A|]. exists (f x).
    rewrite lookup_fmap, Hx. split; [done|]. by destruct (Hf x) as (_ & _ & ->).
Qed.

Section Delete.
Context (gone : JobOccurrence -> bool) (t : job_tables) (H : tables_ok t).

Lemma deleted_occurrence id o : tb_occurrences (delete_occurrences gone t) !! id = Some o <-> tb_occurrences t !! id = Some o /\ gone o = false.
Proof. cbn. by rewrite map_lookup_filter_Some. Qed.

Lemma deleted_attempt k a : tb_attempts (delete_occurrences gone t) !! k = Some a <->
  tb_attempts t !! k = Some a /\ match tb_occurrences t !! at_OccurrenceID a with Some o => gone o | None => false end = false.
Proof. cbn. by rewrite map_lookup_filter_Some. Qed.

Lemma deleted_latest id o : tb_occurrences t !! id = Some o -> gone o = false -> latest_no id (delete_occurrences gone t) = latest_no id t.
Proof.
  intros Ho Hg. apply latest_no_same; [by apply no_positive| |].
  - destruct (latest_no_is t id) as (U & N & C). split_and!; [|done|].
    + intros k a [Ha _]%deleted_attempt Hi. by eapply U.
    + destruct C as [C|(k & a & Ha & Hi & Hn)]; [by left|right]. exists k, a. split; [|done]. apply deleted_attempt. by rewrite Hi, Ho.
  - intros k a [Ha _]%deleted_attempt. by eapply no_positive.
Qed.

Lemma delete_occurrences_ok : tables_ok (delete_occurrences gone t).
Proof.
  pose proof H as [H1 H2 H3 H4 H5]. split.
  - intros id o [Ho Hg]%deleted_occurrence. destruct (H1 _ _ Ho) as [A B]. split; [done|].
    unfold agrees in *. rewrite (deleted_latest id o Ho Hg). destruct (oc_State o); try done.
    destruct B as (a & Ha & Hs). exists a. split; [|done]. apply deleted_attempt. split; [done|].
    destruct (H3 _ _ Ha) as (Hk & _). apply attempt_id_inj in Hk as [<- _]. by rewrite Ho.
  - intros i j o o' [Ho _]%deleted_occurrence [Ho' _]%deleted_occurrence. by apply H2.
  - intros k a [Ha Hg]%deleted_attempt. destruct (H3 _ _ Ha) as (A & B & C & D & [o Ho]). split_and!; [done..|].
    exists o. apply deleted_occurrence. by rewrite Ho in Hg.
  - intros k a [Ha Hg]%deleted_attempt Hn. destruct (H4 _ _ Ha Hn) as (b & Hb & Ht). exists b. split; [|done].
    apply deleted_attempt. split; [done|]. destruct (H3 _ _ Hb) as (Hk & _). apply attempt_id_inj in Hk as [<- _]. done.
  - intros k a s [Ha Hg]%deleted_attempt Hc. destruct (H5 _ _ _ Ha Hc) as (A & o & Ho & Hs). rewrite Ho in Hg.
    split; [by rewrite (deleted_latest _ o)|]. exists o. split; [by apply deleted_occurrence|done].
Qed.
End Delete.

(** Leasing the next attempt of an occurrence none of whose attempts is open. *)
Lemma lease_ok o a t : tables_ok t -> tb_occurrences t !! oc_ID o = Some o -> occurrenceTerminal (oc_State o) = false ->
  at_OccurrenceID a = oc_ID o -> at_AttemptNo a = latest_no (oc_ID o) t + 1 -> at_ID a = attempt_id (oc_ID o) (at_AttemptNo a) ->
  at_LeaseEpoch a = at_AttemptNo a -> at_State a = AttemptLeased ->
  (forall b, tb_attempts t !! attempt_id (oc_ID o) (latest_no (oc_ID o) t) = Some b -> attemptTerminal (at_State b) = true) ->
  forall now, tables_ok (put_attempt a (put_occurrence (oc_set_state OccurrenceDispatched now o) t)).
Proof.
  intros H Ho Hs Hoc Hno Hid Hep Hst Hprev now.
  assert (Lt : forall id, latest_no id (put_attempt a t) = if decide (id = oc_ID o) then latest_no id t + 1 else latest_no id t).
  { intros id. rewrite (lease_latest t a id); [by rewrite Hoc|done|by rewrite Hoc|by rewrite Hoc]. }
  assert (Fresh : forall k b, tb_attempts t !! k = Some b -> k <> at_ID a).
  { intros k b Hb ->. destruct (to_att _ H _ _ Hb) as (Hk & _). rewrite Hid in Hk. apply attempt_id_inj in Hk as [Hbo Hbn].
    pose proof (latest_no_le _ _ _ H Hb) as L. rewrite <- Hbo in L. lia. }
  assert (Open : forall k b, tb_attempts t !! k = Some b -> at_OccurrenceID b = oc_ID o -> closes (at_State b) = None).
  { intros k b Hb Hbo. apply (not_closed t k b o); [done..|by rewrite Hbo|done]. }
  pose proof H as [H1 H2 H3 H4 H5].
  set (o' := oc_set_state OccurrenceDispatched now o).
  change (tables_ok (put_attempt a (put_occurrence o' t))).
  assert (Lt' : forall id, latest_no id (put_attempt a (put_occurrence o' t)) = if decide (id = oc_ID o) then latest_no id t + 1 else latest_no id t) by exact Lt.
  split.
  - cbn [put_attempt put_occurrence tb_occurrences]. intros id x [[<- <-]|[Hn Hx]]%lookup_insert_Some.
    + split; [done|]. cbn [o' oc_set_state oc_State oc_ID agrees]. rewrite Lt'. rewrite decide_True by done. pose proof (latest_no_is t (oc_ID o)) as (_ & ? & _). lia.
    + destruct (H1 _ _ Hx) as [A B]. split; [done|]. unfold agrees in *. rewrite Lt', decide_False by (intros ->; apply Hn; done).
      destruct (oc_State x); try done. destruct B as (b & Hb & Hbs). exists b. split; [|done]. cbn. rewrite lookup_insert_ne; [done|]. apply not_eq_sym. by eapply Fresh.
  - cbn. intros i j x y [[<- <-]|[Ni Hx]]%lookup_insert_Some [[<- <-]|[Nj Hy]]%lookup_insert_Some E; try done.
    + by apply (H2 _ _ o y).
    + by apply (H2 _ _ x o).
    + by apply (H2 _ _ x y).
  - cbn. intros k b [[<- <-]|[_ Hb]]%lookup_insert_Some.
    + rewrite Hoc. pose proof (latest_no_is t (oc_ID o)) as (_ & ? & _). split_and!; [done|done|done|lia|rewrite lookup_insert_eq; by eexists].
    + destruct (H3 _ _ Hb) as (A & B & C & D & [x Hx]). split_and!; [done..|].
      destruct (decide (oc_ID o = at_OccurrenceID b)) as [->|Hn]; [rewrite lookup_insert_eq; by eexists|rewrite lookup_insert_ne by done; by exists x].
  - cbn. intros k b [[<- <-]|[_ Hb]]%lookup_insert_Some Hn.
    + rewrite Hoc, Hno. replace (latest_no (oc_ID o) t + 1 - 1) with (latest_no (oc_ID o) t) by lia.
      destruct (latest_lookup t (oc_ID o) H) as (b & Hb & _); [lia|]. exists b. split; [|by apply Hprev].
      rewrite lookup_insert_ne; [done|]. apply not_eq_sym. by eapply Fresh.
    + destruct (H4 _ _ Hb Hn) as (c & Hc & Ht). exists c. split; [|done]. rewrite lookup_insert_ne; [done|]. apply not_eq_sym. by eapply Fresh.
  - intros k b s. cbn [put_attempt put_occurrence tb_attempts tb_occurrences]. intros [[<- <-]|[_ Hb]]%lookup_insert_Some Hc; [by rewrite Hst in Hc|].
    destruct (H5 _ _ _ Hb Hc) as (A & x & Hx & Hxs).
    assert (Hn : at_OccurrenceID b <> oc_ID o) by (intros E; rewrite (Open _ _ Hb E) in Hc; done).
    rewrite Lt', decide_False by done. split; [done|]. exists x. rewrite lookup_insert_ne; [done|]. by apply not_eq_sym.
Qed.

(** Ending the open attempt of a dispatched occurrence. *)
Lemma attempt_finish_ok o o' k a a' t : tables_ok t -> tb_attempts t !! k = Some a -> attemptTerminal (at_State a) = false ->
  tb_occurrences t !! at_OccurrenceID a = Some o -> oc_State o = OccurrenceDispatched -> latest_no (at_OccurrenceID a) t = at_AttemptNo a ->
  at_ID a' = at_ID a -> at_OccurrenceID a' = at_OccurrenceID a -> at_AttemptNo a' = at_AttemptNo a -> at_LeaseEpoch a' = at_LeaseEpoch a ->
  attemptTerminal (at_State a') = true ->
  oc_ID o' = oc_ID o -> oc_OccurrenceKey o' = oc_OccurrenceKey o -> oc_State o' = default OccurrenceDispatched (closes (at_State a')) ->
  tables_ok (put_occurrence o' (put_attempt a' t)).
Proof.
  intros H Ha Hop Ho Hd Hl Eid Eoc Eno Eep Hte Oid Ok Ost. pose proof H as [H1 H2 H3 H4 H5].
  destruct (H3 _ _ Ha) as (Hk & Hid & Hep & Hpos & _). destruct (H1 _ _ Ho) as [Hoid _].
  assert (Lt : forall id, latest_no id (put_occurrence o' (put_attempt a' t)) = latest_no id t).
  { intros id. change (latest_no id (put_attempt a' t) = latest_no id t). eapply finish_latest; [exact H|exact Ha|congruence|done|done]. }
  split.
  - cbn [put_attempt put_occurrence tb_occurrences]. rewrite Oid, Hoid. intros id x [[<- <-]|[Hn Hx]]%lookup_insert_Some.
    + split; [congruence|]. rewrite Ost. destruct (closes (at_State a')) as [s|] eqn:Ec; cbn; [|rewrite Lt; lia].
      destruct (at_State a') eqn:Es; try discriminate Ec; injection Ec as <-; [|done]. cbn [agrees]. rewrite Lt. exists a'. split; [|done]. rewrite Hl. cbn. rewrite Eid, Hid, Hk. apply lookup_insert_eq.
    + destruct (H1 _ _ Hx) as [A B]. split; [done|]. unfold agrees in *. rewrite Lt. destruct (oc_State x); try done.
      destruct B as (b & Hb & Hbs). exists b. split; [|done]. cbn. rewrite Eid, Hid, Hk, lookup_insert_ne; [done|]. intros E. apply attempt_id_inj in E as [<- _]. done.
  - cbn. rewrite Oid, Hoid. intros i j x y [[<- <-]|[Ni Hx]]%lookup_insert_Some [[<- <-]|[Nj Hy]]%lookup_insert_Some E; try done.
    + apply (H2 _ _ o y); [done..|congruence].
    + apply (H2 _ _ x o); [done..|congruence].
    + by apply (H2 _ _ x y).
  - cbn. rewrite Oid, Hoid. assert (Some' : forall i, is_Some (tb_occurrences t !! i) -> is_Some (<[at_OccurrenceID a:=o']> (tb_occurrences t) !! i)).
    { intros i Hi. destruct (decide (at_OccurrenceID a = i)) as [<-|Hn]; [rewrite lookup_insert_eq; by eexists|by rewrite lookup_insert_ne]. }
    intros j b [[<- <-]|[_ Hb]]%lookup_insert_Some.
    + rewrite Eoc, Eno, Eep, Eid. split_and!; [congruence|done|done|done|apply Some'; by exists o].
    + destruct (H3 _ _ Hb) as (A & B & C & D & E). split_and!; auto.
  - cbn. assert (Keep : forall j b, tb_attempts t !! j = Some b -> attemptTerminal (at_State b) = true ->
      exists c, <[at_ID a' := a']> (tb_attempts t) !! j = Some c /\ attemptTerminal (at_State c) = true).
    { intros j b Hb Ht. destruct (decide (at_ID a' = j)) as [<-|Hn]; [exists a'; by rewrite lookup_insert_eq|exists b; by rewrite lookup_insert_ne]. }
    intros j b [[<- <-]|[_ Hb]]%lookup_insert_Some Hn.
    + rewrite Eoc, Eno in *. destruct (H4 _ _ Ha Hn) as (c & Hc & Ht). by eapply Keep.
    + destruct (H4 _ _ Hb Hn) as (c & Hc & Ht). by eapply Keep.
  - intros j b s. cbn [put_attempt put_occurrence tb_attempts tb_occurrences]. rewrite Lt, Oid, Hoid.
    intros [[<- <-]|[_ Hb]]%lookup_insert_Some Hc.
    + rewrite Eoc, Eno. split; [done|]. exists o'. rewrite lookup_insert_eq. split; [done|]. by rewrite Ost, Hc.
    + destruct (H5 _ _ _ Hb Hc) as (A & x & Hx & Hxs). split; [done|]. exists x. rewrite lookup_insert_ne; [done|].
      intros E. rewrite <- E, Ho in Hx. injection Hx as <-. rewrite Hd in Hxs. destruct (at_State b); simplify_eq/=.
Qed.

(** ** The statements *)

Lemma insert_outbox_ok e t t' : tables_ok t -> insert_outbox e t = Some t' -> tables_ok t'.
Proof. unfold insert_outbox. intros H. case_match; intros [= <-]. by apply (tables_ok_ext t). Qed.

Lemma state_kept o o' t : tables_ok t -> tb_occurrences t !! oc_ID o' = Some o -> oc_OccurrenceKey o' = oc_OccurrenceKey o -> oc_State o' = oc_State o ->
  tables_ok (put_occurrence o' t).
Proof.
  intros H Ho Hk Hs. apply (update_occurrence_ok o); [done..| |by left]. rewrite Hs. by apply (to_occ _ H) in Ho as [_ ?].
Qed.

Lemma occurrence_id t id o : tables_ok t -> tb_occurrences t !! id = Some o -> oc_ID o = id.
Proof. intros H Ho. by apply (to_occ _ H) in Ho as [? _]. Qed.

Lemma delete_schedules_ok gone t : tables_ok t -> tables_ok (delete_schedules gone t).
Proof.
  intros H. eapply (map_occurrences_ok (fun o => match tb_schedules t !! oc_ScheduleID o with Some s => if gone s then oc_forget_schedule o else o | None => o end)); [exact H| |done|done].
  intros o. by repeat case_match.
Qed.

Lemma finalize_step io now id s t : tables_ok t -> tables_ok (FinalizeOccurrence io now id s t).2.
Proof.
  intros H. unfold FinalizeOccurrence. destruct (bool_decide _ || bool_decide _) eqn:Hs; [|done]. cbn. destruct io; [|done].
  destruct (tb_occurrences t !! id) as [o|] eqn:Ho; [|done]. pose proof (occurrence_id _ _ _ H Ho) as Hid.
  destruct (decide (oc_State o = s)); [exact H|]. destruct (decide (oc_State o = OccurrenceDispatched)) as [Hd|]; [|exact H]. cbn. apply (update_occurrence_ok o); cbn; [done|by rewrite Hid|done| |right; by rewrite Hd].
  apply orb_true_iff in Hs as [->%bool_decide_eq_true| ->%bool_decide_eq_true]; done.
Qed.

Lemma defer_step io now id r t : tables_ok t -> tables_ok (DeferOccurrence io now id r t).2.
Proof.
  intros H. unfold DeferOccurrence. destruct io; [|done]. destruct (tb_occurrences t !! id) as [o|] eqn:Ho; [|done].
  case_decide; [|done]. cbn. apply (state_kept o); cbn; try done. by rewrite (occurrence_id _ _ _ H Ho).
Qed.

Lemma cancel_step io now id reason t : tables_ok t -> tables_ok (CancelOccurrence io now id reason t).2.
Proof.
  intros H. unfold CancelOccurrence. destruct io; [|done]. destruct (tb_occurrences t !! id) as [o|] eqn:Ho; [|done].
  destruct (occurrenceTerminal (oc_State o)) eqn:Ht; [done|]. case_match eqn:E; [|done]. cbn. eapply insert_outbox_ok; [|exact E].
  apply (update_occurrence_ok o); cbn; [done|by rewrite (occurrence_id _ _ _ H Ho)|done|done|by right].
Qed.

Lemma materialize_step io io' now occ t : tables_ok t -> oc_State occ = OccurrenceReady -> tables_ok (MaterializeOccurrence io io' now occ t).2.
Proof.
  intros H Hs. unfold MaterializeOccurrence. case_match eqn:E; [|destruct (GetOccurrenceByKey _ _ _); exact H]. apply andb_true_iff in E as [_ E].
  apply insert_occurrence_ok; [done|done|]. cbn. by rewrite Hs.
Qed.

Lemma prepare_step io checked now id taskID d t : tables_ok t -> tables_ok (prepareAttemptLease io checked now id taskID d t).2.
Proof.
  intros H. unfold prepareAttemptLease. destruct (_ || _); [done|]. destruct io; [|done].
  destruct (tb_occurrences t !! id) as [o|] eqn:Ho; [|done]. pose proof (occurrence_id _ _ _ H Ho) as Hid. destruct (lease_refused _ _ _ _) eqn:Er; [exact H|].
  cbv zeta. destruct (_ && _); [|exact H]. cbn [snd]. rewrite <- Hid in *. unfold lease_refused in Er. apply lease_ok; try done.
  - destruct (oc_State o); done.
  - intros b Hb. rewrite latest_attempt_is, Hb in Er by done. destruct (oc_State o); try done; repeat case_match; simplify_eq; bool_to_prop; try done.
    exfalso. destruct (to_att _ H _ _ Hb) as (Hk & _ & _ & Hp & _). apply attempt_id_inj in Hk as [_ Hn]. lia.
Qed.

Lemma commit_deferred_step io now aid epoch r reason t : tables_ok t -> tables_ok (CommitAttemptDeferred io now aid epoch r reason t).2.
Proof.
  intros H. unfold CommitAttemptDeferred. destruct (is_zero r); [done|]. destruct io; [|done].
  destruct (tb_attempts t !! aid) as [a|] eqn:Ha; [|done]. destruct (negb (_ =? _)); [done|].
  destruct (tb_occurrences t !! at_OccurrenceID a) as [o|] eqn:Ho; [|done]. case_match eqn:Hg; [done|].
  apply orb_false_iff in Hg as [Hl%negb_false_iff%Z.eqb_eq Hd%negb_false_iff%bool_decide_eq_true].
  destruct (is_deferred a); [by case_match|]. destruct (attemptTerminal (at_State a)) eqn:Ht; [done|]. cbn.
  eapply (attempt_finish_ok o _ aid a); cbn; done.
Qed.

Lemma commit_step io now aid epoch outcome result err outbox t : tables_ok t -> tables_ok (commit_attempt io now aid epoch outcome result err outbox t).2.
Proof.
  intros H. unfold commit_attempt. destruct io; [|done].
  assert (G : attemptTerminal outcome = true -> outcome <> AttemptDeferred -> forall a o, tb_attempts t !! aid = Some a -> attemptTerminal (at_State a) = false ->
    tb_occurrences t !! at_OccurrenceID a = Some o -> latest_no (at_OccurrenceID a) t = at_AttemptNo a -> oc_State o = OccurrenceDispatched ->
    tables_ok (match outcome with
      | AttemptCompleted => put_occurrence (oc_set_state OccurrenceCompleted now o) (put_attempt (at_finish outcome result err now a) t)
      | AttemptCancelled => put_occurrence (oc_set_state OccurrenceCancelled now o) (put_attempt (at_finish outcome result err now a) t)
      | _ => put_attempt (at_finish outcome result err now a) t end)).
  { intros Hte Hnd a o Ha Hop Ho Hl Hd.
    assert (F : forall o', oc_ID o' = oc_ID o -> oc_OccurrenceKey o' = oc_OccurrenceKey o -> oc_State o' = default OccurrenceDispatched (closes outcome) ->
      tables_ok (put_occurrence o' (put_attempt (at_finish outcome result err now a) t))) by (intros; eapply (attempt_finish_ok o _ aid a); done).
    assert (Same : tables_ok (put_occurrence o (put_attempt (at_finish outcome result err now a) t)) -> tables_ok (put_attempt (at_finish outcome result err now a) t)).
    { apply tables_ok_ext; [|done]. cbn. symmetry. apply insert_id. by rewrite (occurrence_id _ _ _ H Ho). }
    destruct outcome; try done; try (by apply F); apply Same, F; done. }
  destruct outcome; try done; (destruct (tb_attempts t !! aid) as [a|] eqn:Ha; [|done]); (destruct (negb (_ =? _)); [done|]);
    (destruct (attemptTerminal (at_State a)) eqn:Ht; [by case_match|]); (destruct (tb_occurrences t !! at_OccurrenceID a) as [o|] eqn:Ho; [|done]);
    (case_match eqn:Hg; [done|]); apply orb_false_iff in Hg as [Hl%negb_false_iff%Z.eqb_eq Hd%negb_false_iff%bool_decide_eq_true];
    specialize (G eq_refl ltac:(done) a o eq_refl Ht Ho Hl Hd); repeat case_match; simplify_eq/=; try done; by eapply insert_outbox_ok.
Qed.

Lemma slot_step io now id next t : tables_ok t -> tables_ok (MaterializeDueSchedule io now id next t).2.
Proof.
  intros H. unfold MaterializeDueSchedule. destruct io; [|done]. destruct (tb_schedules t !! id) as [s|]; [|done]. destruct (_ || _); [done|].
  destruct (_ && _); [by apply (tables_ok_ext t)|]. case_match eqn:E; [|done]. cbn. apply (tables_ok_ext j); [done|done|].
  unfold insert_slot in E. case_match eqn:Ek; simplify_eq.
  - destruct (key_found _ _ _ Ek) as (i & Hi & Hk). apply (state_kept j0); cbn; try done. by rewrite (occurrence_id _ _ _ H Hi).
  - case_match eqn:Ei; simplify_eq. by apply insert_occurrence_ok.
Qed.

Lemma job_step_ok ev t : tables_ok t -> event_ok ev = true -> tables_ok (job_step ev t).
Proof.
  intros H E. destruct ev; cbn [job_step event_ok] in *.
  - unfold SaveDefinition. repeat case_match; try done; by apply (tables_ok_ext t).
  - unfold UpdateDefinitionCAS. repeat case_match; try done; by apply (tables_ok_ext t).
  - unfold DeleteDefinition. destruct (blank id); [done|]. destruct io; [|done]. cbn [snd].
    eapply (tables_ok_ext (delete_occurrences _ (delete_schedules _ t))); [reflexivity|reflexivity|]. by apply delete_occurrences_ok, delete_schedules_ok.
  - apply materialize_step; [done|by apply bool_decide_eq_true in E].
  - by apply finalize_step.
  - by apply defer_step.
  - by apply cancel_step.
  - unfold DeleteTerminalOccurrences. case_decide; [done|]. destruct io; [|done]. by apply delete_occurrences_ok.
  - by apply prepare_step.
  - by apply commit_deferred_step.
  - by apply commit_step.
  - unfold SaveSchedule. repeat case_match; try done; by apply (tables_ok_ext t).
  - unfold SkipDueSchedule. repeat case_match; try done; by apply (tables_ok_ext t).
  - unfold DisableSchedule. repeat case_match; try done; by apply (tables_ok_ext t).
  - unfold DeletePreparedSchedule. cbv zeta. case_decide; [done|]. destruct io; [|done]. by apply delete_schedules_ok.
  - by apply slot_step.
  - unfold RecordOutboxEvent. repeat case_match; try done. by eapply insert_outbox_ok.
  - unfold MarkOutboxDelivered. repeat case_match; try done; by apply (tables_ok_ext t).
Qed.

Lemma job_reachable_ok t : job_reachable t -> tables_ok t.
Proof. induction 1; [|by apply job_step_ok]. split; cbn; by intros. Qed.
