(* ===== verification/JobTheorems.v ===== *)
(** * What the job store promises

    The states of the store that any sequence of statements reaches: the numbering and
    exclusivity of attempts, the life of an occurrence as an abstract automaton, the
    settlement of an attempt that happens once and may be repeated, and the summary query
    against the reads it stands for. *)

From S2P Require Import Prelude.
From S2P Require Import JobStore.
From S2P Require Import JobInvariant.
From S2P Require Import JobSteps.

(** ** The attempts of an occurrence *)

Lemma attempts_complete t id : tables_ok t -> forall k n, latest_no id t - n = Z.of_nat k -> 1 <= n ->
  exists a, tb_attempts t !! attempt_id id n = Some a /\ at_OccurrenceID a = id /\ at_AttemptNo a = n.
Proof.
  intros H. induction k as [|k IH]; intros n Hk Hn.
  - assert (n = latest_no id t) as -> by lia. apply latest_lookup; [done|lia].
  - destruct (IH (n + 1)) as (a & Ha & Ho & Hna); [lia|lia|]. destruct (to_prev _ H _ _ Ha) as (b & Hb & _); [lia|].
    rewrite Ho, Hna in Hb. replace (n + 1 - 1) with n in Hb by lia. exists b. split; [done|].
    destruct (to_att _ H _ _ Hb) as (Hk' & _). apply attempt_id_inj in Hk' as [-> ->]. done.
Qed.

Lemma earlier_terminal t k a : tables_ok t -> tb_attempts t !! k = Some a -> at_AttemptNo a < latest_no (at_OccurrenceID a) t -> attemptTerminal (at_State a) = true.
Proof.
  intros H Ha Hl. pose proof (no_positive _ H _ _ Ha) as Hp.
  destruct (attempts_complete t (at_OccurrenceID a) H (Z.to_nat (latest_no (at_OccurrenceID a) t - (at_AttemptNo a + 1))) (at_AttemptNo a + 1)) as (b & Hb & Ho & Hn); [lia|lia|].
  destruct (to_prev _ H _ _ Hb) as (c & Hc & Ht); [lia|]. rewrite Ho, Hn in Hc. replace (at_AttemptNo a + 1 - 1) with (at_AttemptNo a) in Hc by lia.
  destruct (to_att _ H _ _ Ha) as (-> & _). congruence.
Qed.

(** C26. In every state of the store: occurrence keys are unique; the attempts of an
    occurrence are numbered [1, 2, ..., n] without a gap, each with its number as lease
    epoch; only the last of them can be open, so an occurrence has at most one open
    lease; and an occurrence is completed exactly when one of its attempts is, which is
    then its last and only one. *)
Theorem job_store_exact t : job_reachable t ->
  (forall id id' o o', tb_occurrences t !! id = Some o -> tb_occurrences t !! id' = Some o' -> oc_OccurrenceKey o = oc_OccurrenceKey o' -> id = id') /\
  (forall id n, (exists a, tb_attempts t !! attempt_id id n = Some a) <-> 1 <= n <= latest_no id t) /\
  (forall k a, tb_attempts t !! k = Some a -> k = attempt_id (at_OccurrenceID a) (at_AttemptNo a) /\ at_LeaseEpoch a = at_AttemptNo a /\
     (at_AttemptNo a = latest_no (at_OccurrenceID a) t \/ attemptTerminal (at_State a) = true)) /\
  (forall k k' a a', tb_attempts t !! k = Some a -> tb_attempts t !! k' = Some a' -> at_OccurrenceID a = at_OccurrenceID a' ->
     attemptTerminal (at_State a) = false -> attemptTerminal (at_State a') = false -> k = k') /\
  (forall id o, tb_occurrences t !! id = Some o -> oc_State o = OccurrenceCompleted <-> exists k a, tb_attempts t !! k = Some a /\ at_OccurrenceID a = id /\ at_State a = AttemptCompleted) /\
  (forall k k' a a', tb_attempts t !! k = Some a -> tb_attempts t !! k' = Some a' -> at_OccurrenceID a = at_OccurrenceID a' ->
     at_State a = AttemptCompleted -> at_State a' = AttemptCompleted -> k = k').
Proof.
  intros R. pose proof (job_reachable_ok _ R) as H.
  assert (Last : forall k k' a a', tb_attempts t !! k = Some a -> tb_attempts t !! k' = Some a' -> at_OccurrenceID a = at_OccurrenceID a' ->
    at_AttemptNo a = latest_no (at_OccurrenceID a) t -> at_AttemptNo a' = latest_no (at_OccurrenceID a') t -> k = k').
  { intros k k' a a' Ha Ha' Ho Hn Hn'. destruct (to_att _ H _ _ Ha) as (-> & _), (to_att _ H _ _ Ha') as (-> & _). congruence. }
  assert (Op : forall k a, tb_attempts t !! k = Some a -> attemptTerminal (at_State a) = false -> at_AttemptNo a = latest_no (at_OccurrenceID a) t).
  { intros k a Ha Ht. pose proof (latest_no_le _ _ _ H Ha). destruct (Z.eq_dec (at_AttemptNo a) (latest_no (at_OccurrenceID a) t)); [done|].
    rewrite (earlier_terminal t k a) in Ht; [done|done|done|lia]. }
  split_and!.
  - apply H.
  - intros id n. split.
    + intros [a Ha]. destruct (to_att _ H _ _ Ha) as (Hk & _ & _ & Hp & _). apply attempt_id_inj in Hk as [-> ->]. split; [done|by eapply latest_no_le].
    + intros [Hn Hl]. destruct (attempts_complete t id H (Z.to_nat (latest_no id t - n)) n) as (a & Ha & _); [lia|done|by exists a].
  - intros k a Ha. destruct (to_att _ H _ _ Ha) as (Hk & _ & He & _ & _). split_and!; [done|done|].
    destruct (attemptTerminal (at_State a)) eqn:Ht; [by right|left; by eapply Op].
  - intros k k' a a' Ha Ha' Ho Ht Ht'. eapply Last; eauto.
  - intros id o Ho. destruct (to_occ _ H _ _ Ho) as [_ Ag]. split.
    + intros Hs. rewrite Hs in Ag. destruct Ag as (a & Ha & Hst). eexists _, a. split; [exact Ha|].
      destruct (to_att _ H _ _ Ha) as (Hk & _). apply attempt_id_inj in Hk as [<- _]. done.
    + intros (k & a & Ha & <- & Hs). destruct (to_closed _ H k a OccurrenceCompleted Ha) as (_ & o' & Ho' & Hs'); [by rewrite Hs|]. congruence.
  - intros k k' a a' Ha Ha' Ho Hs Hs'. destruct (to_closed _ H k a OccurrenceCompleted Ha) as (Hn & _); [by rewrite Hs|].
    destruct (to_closed _ H k' a' OccurrenceCompleted Ha') as (Hn' & _); [by rewrite Hs'|]. by eapply Last.
Qed.

(** ** The life of an occurrence *)

(** The abstract occurrence: pending, leased to attempt [n], waiting after attempt [n],
    or done. *)
Inductive phase := Absent | Pending | Leased (n : Z) | Waiting (n : Z) | Done (s : OccurrenceState).

Inductive phase_edge : phase -> phase -> Prop :=
  | pe_materialize : phase_edge Absent Pending
  | pe_first : phase_edge Pending (Leased 1)
  | pe_next n : phase_edge (Waiting n) (Leased (n + 1))
  | pe_settle n : phase_edge (Leased n) (Waiting n)
  | pe_complete n : phase_edge (Leased n) (Done OccurrenceCompleted)
  | pe_cancel_attempt n : phase_edge (Leased n) (Done OccurrenceCancelled)
  | pe_give_up n s : s = OccurrenceFailed \/ s = OccurrenceCancelled -> phase_edge (Waiting n) (Done s)
  | pe_abandon n s : s = OccurrenceFailed \/ s = OccurrenceCancelled -> phase_edge (Leased n) (Done s)
  | pe_cancel : phase_edge Pending (Done OccurrenceCancelled)
  | pe_delete p : phase_edge p Absent.

Definition phase_from (s : OccurrenceState) (last : option JobAttempt) : phase :=
  match s with
  | OccurrenceDispatched =>
      match last with
      | Some a => if attemptTerminal (at_State a) then Waiting (at_AttemptNo a) else Leased (at_AttemptNo a)
      | None => Pending
      end
  | OccurrenceCompleted | OccurrenceFailed | OccurrenceCancelled => Done s
  | _ => Pending
  end.
Definition phase_of (id : string) (t : job_tables) : phase :=
  match tb_occurrences t !! id with Some o => phase_from (oc_State o) (latest_attempt id t) | None => Absent end.

Definition moves (id : string) (t t' : job_tables) : Prop := phase_of id t' = phase_of id t \/ phase_edge (phase_of id t) (phase_of id t').

Lemma moves_ext id t t' : tb_occurrences t' = tb_occurrences t -> tb_attempts t' = tb_attempts t -> moves id t t'.
Proof. destruct t as [d s o a x r], t' as [d' s' o' a' x' r']. cbn. intros -> ->. by left. Qed.

(** Only one occurrence changes. *)
Lemma moves_put o t id : (id = oc_ID o -> moves id t (put_occurrence o t)) -> moves id t (put_occurrence o t).
Proof. intros H. destruct (decide (id = oc_ID o)) as [E|E]; [by apply H|left]. unfold phase_of. cbn. by rewrite lookup_insert_ne. Qed.

Lemma phase_put o t : phase_of (oc_ID o) (put_occurrence o t) = phase_from (oc_State o) (latest_attempt (oc_ID o) t).
Proof. unfold phase_of. cbn. by rewrite lookup_insert_eq. Qed.

Lemma phase_is id o t : tb_occurrences t !! id = Some o -> phase_of id t = phase_from (oc_State o) (latest_attempt id t).
Proof. intros E. unfold phase_of. by rewrite E. Qed.

Lemma moves_same_state o o' t id : tb_occurrences t !! oc_ID o' = Some o -> oc_State o' = oc_State o -> moves id t (put_occurrence o' t).
Proof. intros Ho Hs. apply moves_put. intros ->. left. rewrite phase_put, (phase_is _ _ _ Ho). by rewrite Hs. Qed.

(** A dispatched occurrence has a last attempt. *)
Lemma dispatched_last t id o : tables_ok t -> tb_occurrences t !! id = Some o -> oc_State o = OccurrenceDispatched ->
  exists a, latest_attempt id t = Some a /\ tb_attempts t !! attempt_id id (latest_no id t) = Some a /\ at_OccurrenceID a = id /\ at_AttemptNo a = latest_no id t.
Proof.
  intros H Ho Hs. destruct (to_occ _ H _ _ Ho) as [_ Ag]. rewrite Hs in Ag. cbn in Ag.
  destruct (latest_lookup t id H) as (a & Ha & Hi & Hn); [lia|]. exists a. split; [by rewrite latest_attempt_is|done].
Qed.

(** An attempt of another occurrence is written. *)
Lemma moves_other t t' a id : tables_ok t -> tables_ok t' -> tb_attempts t' = <[at_ID a := a]> (tb_attempts t) -> tb_occurrences t' !! id = tb_occurrences t !! id ->
  id <> at_OccurrenceID a -> moves id t t'.
Proof.
  intros H H' Ea Eo Hn. left. unfold phase_of. rewrite Eo. destruct (tb_occurrences t !! id); [|done]. f_equal.
  assert (Hid : at_ID a = attempt_id (at_OccurrenceID a) (at_AttemptNo a)).
  { assert (Ha : tb_attempts t' !! at_ID a = Some a) by (rewrite Ea; apply lookup_insert_eq). by destruct (to_att _ H' _ _ Ha) as (? & _). }
  assert (Ne : forall n, at_ID a <> attempt_id id n) by (intros n E; rewrite Hid in E; by apply attempt_id_inj in E as [<- _]).
  assert (Hl : latest_no id t' = latest_no id t).
  { apply latest_no_same; [by apply no_positive| |by apply no_positive]. rewrite Ea. destruct (latest_no_is t id) as (U & N & C). split_and!; [|done|].
    - intros k b [[<- <-]|[_ Hb]]%lookup_insert_Some Hi; [by destruct Hn|by eapply U].
    - destruct C as [C|(k & b & Hb & Hi & Hb')]; [by left|right]. exists k, b. split; [|done]. rewrite lookup_insert_ne; [done|].
      destruct (to_att _ H _ _ Hb) as (-> & _). by rewrite Hi. }
  by rewrite !latest_attempt_is, Hl, Ea, lookup_insert_ne.
Qed.

(** The last attempt of the written occurrence, once its number is known. *)
Lemma last_written t' a : tables_ok t' -> tb_attempts t' !! at_ID a = Some a -> latest_no (at_OccurrenceID a) t' = at_AttemptNo a ->
  latest_attempt (at_OccurrenceID a) t' = Some a.
Proof. intros H Ha Hl. rewrite latest_attempt_is, Hl by done. by destruct (to_att _ H _ _ Ha) as (<- & _). Qed.

Lemma prepare_moves io checked now id taskID d t x : tables_ok t -> moves x t (prepareAttemptLease io checked now id taskID d t).2.
Proof.
  intros H. pose proof (prepare_step io checked now id taskID d t H) as H'. revert H'. unfold prepareAttemptLease.
  destruct (_ || _); [by left|]. destruct io; [|by left]. destruct (tb_occurrences t !! id) as [o|] eqn:Ho; [|by left].
  pose proof (occurrence_id _ _ _ H Ho) as Hid. destruct (lease_refused _ _ _ _) eqn:Er; [by left|]. cbv zeta. destruct (_ && _); [|by left]. cbn [snd].
  set (a := mkAttempt _ _ _ _ _ _ _ _ _ _ _ _). intros H'. destruct (decide (x = id)) as [->|Hx].
  2:{ apply (moves_other t _ a); [done|done|done| |done]. cbn. rewrite lookup_insert_ne; [done|]. congruence. }
  right. rewrite (phase_is _ _ _ Ho). rewrite (phase_is id (oc_set_state OccurrenceDispatched now o)) by (cbn; rewrite Hid; apply lookup_insert_eq).
  assert (La : latest_attempt id (put_attempt a (put_occurrence (oc_set_state OccurrenceDispatched now o) t)) = Some a).
  { apply (last_written _ a); [done|cbn; apply lookup_insert_eq|]. change (latest_no id (put_attempt a t) = latest_no id t + 1).
    rewrite lease_latest by done. by rewrite decide_True. }
  rewrite La. clear La.
  unfold lease_refused in Er. cbn. destruct (oc_State o) eqn:Es; try done; repeat case_match; simplify_eq; bool_to_prop; cbn.
  - match goal with E : latest_no _ t = 0 |- _ => rewrite E end. constructor.
  - destruct (dispatched_last _ _ _ H Ho Es) as (b & Hb & _ & _ & Hn). simplify_eq. rewrite <- Hn.
    match goal with E : attemptTerminal _ = true |- _ => rewrite E end. constructor.
Qed.

Lemma finish_moves aid o o' a a' t t' x : tables_ok t -> tables_ok t' -> tb_attempts t !! aid = Some a -> at_ID a' = aid ->
  at_OccurrenceID a' = at_OccurrenceID a -> at_AttemptNo a' = at_AttemptNo a -> attemptTerminal (at_State a) = false -> attemptTerminal (at_State a') = true ->
  tb_occurrences t !! at_OccurrenceID a = Some o -> oc_State o = OccurrenceDispatched -> latest_no (at_OccurrenceID a) t = at_AttemptNo a ->
  tb_attempts t' = <[at_ID a' := a']> (tb_attempts t) -> tb_occurrences t' = <[at_OccurrenceID a := o']> (tb_occurrences t) ->
  oc_State o' = default OccurrenceDispatched (closes (at_State a')) -> moves x t t'.
Proof.
  intros H H' Ha Hid Hoc Hno Ht Ht' Ho Hs Hl Ea Eo Hs'. destruct (decide (x = at_OccurrenceID a)) as [->|Hx].
  2:{ apply (moves_other t t' a'); [done|done|done| |by rewrite Hoc]. by rewrite Eo, lookup_insert_ne. }
  right. rewrite (phase_is _ _ _ Ho), (phase_is _ o') by (by rewrite Eo, lookup_insert_eq).
  assert (Hla : latest_attempt (at_OccurrenceID a) t = Some a).
  { rewrite latest_attempt_is, Hl by done. by destruct (to_att _ H _ _ Ha) as (<- & _). }
  assert (Hla' : latest_attempt (at_OccurrenceID a) t' = Some a').
  { rewrite <- Hoc. apply last_written; [done|by rewrite Ea, lookup_insert_eq|]. rewrite Hoc, Hno, <- Hl.
    apply latest_no_same; [by apply no_positive| |by apply no_positive]. rewrite Ea.
    pose proof (finish_latest t aid a a' (at_OccurrenceID a) H Ha Hid Hoc Hno) as E. rewrite <- E. apply (latest_no_is (put_attempt a' t)). }
  rewrite Hla, Hla', Hs, Hs'. cbn. rewrite Ht. destruct (at_State a') eqn:Es'; try done; cbn; rewrite ?Es', ?Hno; cbn; constructor.
Qed.

Lemma delete_moves gone t x : tables_ok t -> moves x t (delete_occurrences gone t).
Proof.
  intros H. pose proof (delete_occurrences_ok gone t H) as H'. destruct (tb_occurrences t !! x) as [o|] eqn:Ho.
  - destruct (gone o) eqn:Hg.
    + right. unfold phase_of at 2. destruct (tb_occurrences (delete_occurrences gone t) !! x) as [o'|] eqn:E; [|constructor].
      apply deleted_occurrence in E as [E Hg']. congruence.
    + left. rewrite (phase_is _ o (delete_occurrences gone t)) by (by apply deleted_occurrence). rewrite (phase_is _ _ _ Ho). f_equal.
      rewrite !latest_attempt_is, (deleted_latest _ _ H x o) by done. destruct (tb_attempts t !! _) as [a|] eqn:Ha.
      * apply deleted_attempt. split; [done|]. destruct (to_att _ H _ _ Ha) as (Hk & _). apply attempt_id_inj in Hk as [<- _]. by rewrite Ho.
      * apply eq_None_not_Some. intros [a [Ha' _]%deleted_attempt]. congruence.
  - left. unfold phase_of. rewrite Ho. destruct (tb_occurrences (delete_occurrences gone t) !! x) eqn:E; [|done].
    apply deleted_occurrence in E as [E _]. congruence.
Qed.

Lemma delete_schedules_phase gone t x : phase_of x (delete_schedules gone t) = phase_of x t.
Proof.
  unfold phase_of, delete_schedules. cbn. rewrite lookup_fmap. destruct (tb_occurrences t !! x) as [o|]; [|done]. cbn. by repeat case_match.
Qed.

Lemma finalize_moves io now id s t x : tables_ok t -> moves x t (FinalizeOccurrence io now id s t).2.
Proof.
  intros H. unfold FinalizeOccurrence. destruct (bool_decide _ || bool_decide _) eqn:Hs; [|by left]. cbn. destruct io; [|by left].
  destruct (tb_occurrences t !! id) as [o|] eqn:Ho; [|by left]. pose proof (occurrence_id _ _ _ H Ho) as Hid.
  destruct (decide (oc_State o = s)); [by left|]. destruct (decide (oc_State o = OccurrenceDispatched)) as [Hd|]; [|by left].
  apply moves_put. cbn. intros ->. right. rewrite Hid in *. rewrite <- Hid at 2. rewrite (phase_put (oc_set_state s now o)), (phase_is _ _ _ Ho), Hd. cbn.
  destruct (dispatched_last _ _ _ H Ho Hd) as (a & -> & _ & _ & _).
  assert (Hs' : s = OccurrenceFailed \/ s = OccurrenceCancelled) by (apply orb_true_iff in Hs as [?%bool_decide_eq_true|?%bool_decide_eq_true]; auto).
  replace (phase_from s _) with (Done s) by (by destruct Hs' as [-> | ->]). destruct (attemptTerminal (at_State a)); by constructor.
Qed.

Lemma cancel_moves io now id reason t x : tables_ok t -> moves x t (CancelOccurrence io now id reason t).2.
Proof.
  intros H. unfold CancelOccurrence. destruct io; [|by left]. destruct (tb_occurrences t !! id) as [o|] eqn:Ho; [|by left].
  pose proof (occurrence_id _ _ _ H Ho) as Hid. destruct (occurrenceTerminal (oc_State o)) eqn:Ht; [by left|].
  destruct (insert_outbox _ _) as [t'|] eqn:E; [|by left]. cbn [snd]. unfold insert_outbox in E. case_match; [done|]. injection E as <-.
  unfold moves. change (phase_of x (put_outbox ?e ?t)) with (phase_of x t).
  apply moves_put. cbn. intros ->. right. rewrite Hid in *. rewrite <- Hid at 2. rewrite (phase_put (oc_cancel now o)), (phase_is _ _ _ Ho). cbn.
  destruct (oc_State o) eqn:Es; try done; cbn; try constructor. destruct (dispatched_last _ _ _ H Ho Es) as (a & -> & _ & _ & _).
  destruct (attemptTerminal (at_State a)); constructor; by right.
Qed.

Lemma insert_moves o t x : tb_occurrences t !! oc_ID o = None -> oc_State o = OccurrenceReady -> moves x t (put_occurrence o t).
Proof.
  intros Hn Hs. apply moves_put. intros ->. right. rewrite phase_put, Hs. unfold phase_of. rewrite Hn. constructor.
Qed.

Lemma insertable_fresh o t : insertable o t = true -> tb_occurrences t !! oc_ID o = None.
Proof. unfold insertable. intros [[[H _]%andb_true_iff _]%andb_true_iff _]%andb_true_iff. by apply bool_decide_eq_true in H. Qed.

Lemma commit_moves io now aid epoch outcome result err outbox t x : tables_ok t -> moves x t (commit_attempt io now aid epoch outcome result err outbox t).2.
Proof.
  intros H. pose proof (commit_step io now aid epoch outcome result err None t H) as H'. revert H'.
  unfold commit_attempt. destruct io; [|by left].
  destruct outcome; try (by left); (destruct (tb_attempts t !! aid) as [a|] eqn:Ha; [|by left]); (destruct (negb (_ =? _)); [by left|]);
    (destruct (attemptTerminal (at_State a)) eqn:Ht; [destruct (_ && _); by left|]); (destruct (tb_occurrences t !! at_OccurrenceID a) as [o|] eqn:Ho; [|by left]);
    (destruct (_ || _) eqn:Hg; [by left|]); apply orb_false_iff in Hg as [Hl%negb_false_iff%Z.eqb_eq Hd%negb_false_iff%bool_decide_eq_true];
    pose proof (occurrence_id _ _ _ H Ho) as Hid; destruct (to_att _ H _ _ Ha) as (_ & Haid & _); cbv zeta; cbn [snd]; intros H'.
  all: match type of H' with tables_ok ?t2 => assert (M : moves x t t2);
    [|destruct outbox as [[[? ?] ?]|]; [|exact M]; destruct (insert_outbox _ t2) as [t3|] eqn:E; [|by left];
      unfold insert_outbox in E; destruct (tb_outbox t2 !! _); [done|]; injection E as <-; exact M] end.
  1: apply (finish_moves aid o (oc_set_state OccurrenceCompleted now o) a (at_finish AttemptCompleted result err now a)); try done; cbn; by rewrite Hid.
  3: apply (finish_moves aid o (oc_set_state OccurrenceCancelled now o) a (at_finish AttemptCancelled result err now a)); try done; cbn; by rewrite Hid.
  all: eapply (finish_moves aid o o a (at_finish _ result err now a)); try done; cbn; rewrite ?insert_id by done; done.
Qed.

Lemma slot_moves io now id next t x : tables_ok t -> moves x t (MaterializeDueSchedule io now id next t).2.
Proof.
  intros H. unfold MaterializeDueSchedule. destruct io; [|by left]. destruct (tb_schedules t !! id) as [s|]; [|by left]. destruct (_ || _); [by left|].
  destruct (_ && _); [by apply moves_ext|]. destruct (insert_slot _ t) as [t'|] eqn:E; [|by left]. cbn [snd].
  match goal with |- moves _ _ (put_schedule ?s _) => unfold moves; change (phase_of x (put_schedule s t')) with (phase_of x t') end. fold (moves x t t').
  unfold insert_slot in E. destruct (occurrence_by_key _ t) as [old|] eqn:Ek.
  - injection E as <-. destruct (key_found _ _ _ Ek) as (i & Hi & _). apply (moves_same_state old); [|done]. cbn. by rewrite (occurrence_id _ _ _ H Hi).
  - destruct (insertable _ t) eqn:Ei; [|done]. injection E as <-. apply insert_moves; [by apply insertable_fresh|done].
Qed.

(** C25. The store refines the life of an occurrence, whatever the statements and their
    order: it is pending when it is materialised, then leased to its attempts one after
    another, with the next number each, waiting between them; it is completed or cancelled
    by the attempt that holds the lease, given up as failed or cancelled while it is
    dispatched, or cancelled; and once it is done it never changes until it is deleted. *)
Theorem occurrence_life t ev id : job_reachable t -> event_ok ev = true ->
  phase_of id (job_step ev t) = phase_of id t \/ phase_edge (phase_of id t) (phase_of id (job_step ev t)).
Proof.
  intros R E. pose proof (job_reachable_ok _ R) as H. change (moves id t (job_step ev t)). destruct ev; cbn [job_step event_ok] in *.
  - unfold SaveDefinition. repeat case_match; first [by left|by apply moves_ext].
  - unfold UpdateDefinitionCAS. repeat case_match; first [by left|by apply moves_ext].
  - unfold DeleteDefinition. destruct (blank id0); [by left|]. destruct io; [|by left]. cbn [snd].
    pose proof (delete_moves (fun o => bool_decide (oc_JobID o = id0)) _ id (delete_schedules_ok (fun s => bool_decide (js_JobID s = id0)) _ H)) as M.
    unfold moves in M. rewrite delete_schedules_phase in M. exact M.
  - unfold MaterializeOccurrence. destruct (_ && _) eqn:Ei; [|destruct (GetOccurrenceByKey _ _ _); by left]. apply andb_true_iff in Ei as [_ Ei].
    apply insert_moves; [by apply (insertable_fresh _ t)|]. cbn. apply bool_decide_eq_true in E. by rewrite E.
  - by apply finalize_moves.
  - unfold DeferOccurrence. destruct io; [|by left]. destruct (tb_occurrences t !! occurrenceID) as [o|] eqn:Ho; [|by left].
    case_decide; [|by left]. apply (moves_same_state o); [|done]. cbn. by rewrite (occurrence_id _ _ _ H Ho).
  - by apply cancel_moves.
  - unfold DeleteTerminalOccurrences. case_decide; [by left|]. destruct io; [|by left]. by apply delete_moves.
  - by apply prepare_moves.
  - pose proof (commit_deferred_step io now attemptID leaseEpoch readyAt reason t H) as H'. revert H'. unfold CommitAttemptDeferred.
    destruct (is_zero _); [by left|]. destruct io; [|by left]. destruct (tb_attempts t !! attemptID) as [a|] eqn:Ha; [|by left].
    destruct (negb (_ =? _)); [by left|]. destruct (tb_occurrences t !! at_OccurrenceID a) as [o|] eqn:Ho; [|by left]. destruct (_ || _) eqn:Hg; [by left|].
    apply orb_false_iff in Hg as [Hl%negb_false_iff%Z.eqb_eq Hd%negb_false_iff%bool_decide_eq_true].
    destruct (is_deferred a); [destruct (_ && _); by left|]. destruct (attemptTerminal (at_State a)) eqn:Ht; [by left|]. cbn [snd]. intros H'.
    destruct (to_att _ H _ _ Ha) as (_ & Haid & _). apply (finish_moves attemptID o (oc_set_ready readyAt now o) a (at_finish AttemptDeferred (at_Result a) reason now a)); try done; cbn; by rewrite (occurrence_id _ _ _ H Ho).
  - by apply commit_moves.
  - unfold SaveSchedule. repeat case_match; first [by left|by apply moves_ext].
  - unfold SkipDueSchedule. repeat case_match; first [by left|by apply moves_ext].
  - unfold DisableSchedule. repeat case_match; first [by left|by apply moves_ext].
  - unfold DeletePreparedSchedule. cbv zeta. case_decide; [by left|]. destruct io; [|by left]. left. apply delete_schedules_phase.
  - by apply slot_moves.
  - unfold RecordOutboxEvent, insert_outbox. repeat case_match; simplify_eq; first [by left|by apply moves_ext].
  - unfold MarkOutboxDelivered. repeat case_match; first [by left|by apply moves_ext].
Qed.

(** ** An attempt settles once *)

(** Whether the statement commits the attempt. *)
Definition commits (ev : job_event) (k : string) : bool :=
  match ev with JeCommit _ _ id _ _ _ _ _ | JeCommitDeferred _ _ id _ _ _ => bool_decide (id = k) | _ => false end.

(** The row of an attempt stays as it is, or is deleted with its occurrence, unless the
    attempt is open and the statement commits it. *)
Lemma row_step t ev k a : tables_ok t -> tb_attempts t !! k = Some a -> (attemptTerminal (at_State a) = true \/ commits ev k = false) ->
  tb_attempts (job_step ev t) !! k = Some a \/
  (tb_attempts (job_step ev t) !! k = None /\ tb_occurrences (job_step ev t) !! at_OccurrenceID a = None).
Proof.
  intros H Ha Ht.
  assert (Del : forall gone t0, tables_ok t0 -> tb_attempts t0 = tb_attempts t ->
    tb_attempts (delete_occurrences gone t0) !! k = Some a \/
    (tb_attempts (delete_occurrences gone t0) !! k = None /\ tb_occurrences (delete_occurrences gone t0) !! at_OccurrenceID a = None)).
  { intros gone t0 H0 E. rewrite <- E in Ha. destruct (to_att _ H0 _ _ Ha) as (_ & _ & _ & _ & [o Ho]). destruct (gone o) eqn:Hg; [right|left].
    - split; apply eq_None_not_Some; intros [x Hx]; [apply deleted_attempt in Hx as [Hx Hx']|apply deleted_occurrence in Hx as [Hx Hx']; congruence].
      rewrite Ha in Hx. injection Hx as <-. by rewrite Ho, Hg in Hx'.
    - apply deleted_attempt. by rewrite Ho. }
  destruct ev; cbn [job_step].
  - left. unfold SaveDefinition. by repeat case_match.
  - left. unfold UpdateDefinitionCAS. by repeat case_match.
  - unfold DeleteDefinition. destruct (blank id); [by left|]. destruct io; [|by left]. apply Del; [|done]. first [exact H|by apply delete_schedules_ok].
  - left. unfold MaterializeOccurrence. destruct (_ && _); [done|]. by destruct (GetOccurrenceByKey _ _ _).
  - left. unfold FinalizeOccurrence. by repeat case_match.
  - left. unfold DeferOccurrence. by repeat case_match.
  - left. unfold CancelOccurrence, insert_outbox. repeat case_match; simplify_eq; done.
  - unfold DeleteTerminalOccurrences. case_decide; [by left|]. destruct io; [|by left]. apply Del; [|done]. first [exact H|by apply delete_schedules_ok].
  - left. unfold prepareAttemptLease. destruct (_ || _); [done|]. destruct io; [|done]. destruct (tb_occurrences t !! _); [|done].
    destruct (lease_refused _ _ _ _); [done|]. cbv zeta. destruct (_ && _) eqn:E; [|done]. apply andb_true_iff in E as [E%bool_decide_eq_true _].
    cbn. rewrite lookup_insert_ne; [done|]. intros <-. cbn in E. congruence.
  - left. unfold CommitAttemptDeferred. destruct (is_zero _); [done|]. destruct io; [|done]. destruct (tb_attempts t !! attemptID) as [b|] eqn:Hb; [|done].
    destruct (negb _); [done|]. destruct (tb_occurrences t !! _); [|done]. destruct (_ || _); [done|]. destruct (is_deferred b); [by destruct (_ && _)|].
    destruct (attemptTerminal (at_State b)) eqn:Hbt; [done|]. cbn. destruct (to_att _ H _ _ Hb) as (_ & -> & _). rewrite lookup_insert_ne; [done|].
    destruct Ht as [Ht|Ht]; [congruence|by apply bool_decide_eq_false in Ht].
  - left. unfold commit_attempt, insert_outbox. destruct io; [|done].
    destruct outcome; try done; (destruct (tb_attempts t !! attemptID) as [b|] eqn:Hb; [|done]); (destruct (negb _); [done|]);
      (destruct (attemptTerminal (at_State b)) eqn:Hbt; [by destruct (_ && _)|]); destruct (to_att _ H _ _ Hb) as (_ & Hbid & _);
      assert (Hne : attemptID <> k) by (destruct Ht as [Ht|Ht]; [congruence|by apply bool_decide_eq_false in Ht]); repeat case_match; simplify_eq; cbn; rewrite ?lookup_insert_ne by done; done.
  - left. unfold SaveSchedule. by repeat case_match.
  - left. unfold SkipDueSchedule. by repeat case_match.
  - left. unfold DisableSchedule. by repeat case_match.
  - left. unfold DeletePreparedSchedule. cbv zeta. case_decide; [done|]. by destruct io.
  - left. unfold MaterializeDueSchedule, insert_slot. repeat case_match; simplify_eq; done.
  - left. unfold RecordOutboxEvent, insert_outbox. repeat case_match; simplify_eq; done.
  - left. unfold MarkOutboxDelivered. by repeat case_match.
Qed.

(** The attempt is not deleted meanwhile. *)
Fixpoint kept (k : string) (evs : list job_event) (t : job_tables) : Prop :=
  match evs with [] => True | ev :: evs => is_Some (tb_attempts (job_step ev t) !! k) /\ kept k evs (job_step ev t) end.

(** C27. An attempt settles once. When it is terminal its row stays as it is, whatever
    statements follow, until it is deleted; and a commit that reaches the store again is
    accepted, and changes nothing, exactly when it repeats the one that settled it: the
    same lease epoch, outcome, result and error. Every other commit of it is refused and
    changes nothing. *)
Theorem settled_once t evs k a now epoch outcome result err outbox :
  job_reachable t -> forallb event_ok evs = true -> tb_attempts t !! k = Some a -> attemptTerminal (at_State a) = true -> kept k evs t ->
  let t' := job_run evs t in
  tb_attempts t' !! k = Some a /\
  exists e, commit_attempt true now k epoch outcome result err outbox t' = (e, t') /\
    (e = None <-> epoch = at_LeaseEpoch a /\ outcome = at_State a /\ outcome <> AttemptDeferred /\ result = at_Result a /\ err = at_Error a).
Proof.
  intros R Hok Ha Ht Hk. assert (Ha' : tb_attempts (job_run evs t) !! k = Some a).
  { revert t R Ha Hk. induction evs as [|ev evs IH]; intros t R Ha; [done|]. cbn in Hok. apply andb_true_iff in Hok as [Ho Hok].
    intros [[b Hb] Hk]. cbn. apply IH; [done|by apply jr_step| |done].
    destruct (row_step t ev k a (job_reachable_ok _ R) Ha (or_introl Ht)) as [?|[? _]]; [done|congruence]. }
  split; [exact Ha'|]. unfold commit_attempt. destruct (decide (outcome = AttemptDeferred)) as [->|Hd].
  { exists (Some ErrInvalidRequest). by split; [|split; [|intros (_ & _ & ? & _)]]. }
  destruct (decide (attemptTerminal outcome = true)) as [Hte|Hte].
  2:{ exists (Some ErrInvalidRequest). destruct outcome; try done; (split; [done|]); (split; [done|]); intros (_ & E & _); rewrite <- E in Ht; done. }
  rewrite Ha', Ht. destruct (Z.eqb_spec (at_LeaseEpoch a) epoch) as [He|He].
  - exists (if bool_decide (at_State a = outcome) && bool_decide (at_Result a = result) && bool_decide (at_Error a = err) then None else Some ErrLeaseFencingLost).
    split; [by destruct outcome|]. destruct (bool_decide_reflect (at_State a = outcome)), (bool_decide_reflect (at_Result a = result)), (bool_decide_reflect (at_Error a = err));
      cbn; split; try done; intros (? & ? & ? & ? & ?); congruence.
  - exists (Some ErrLeaseFencingLost). split; [by destruct outcome|]. split; [done|]. intros (E & _). by rewrite E in He.
Qed.

(** ** A run *)

(** A job with a schedule, whose slot is materialised and leased; the attempt fails, a
    second one completes. *)
Definition sample_definition : JobDefinition :=
  mkDefinition "digest" "core" "core" "digest.send" 1 "" "general" "normal" (30 * second) [] (mkRetryPolicy 2 0 0 0 "0") true 1.
Definition sample_schedule (due : time) : JobSchedule :=
  mkSchedule "hourly" "digest" "interval" (60 * minute) "UTC" due MisfireRunOnce OverlapForbid true 1.
Definition t0 : time := unix_epoch + 1700000000 * second.
Definition occ0 : string := slot_id "hourly" t0.
Definition sample_jobs : list job_event :=
  [JeSaveDefinition true sample_definition; JeSaveSchedule (fun _ => true) true (sample_schedule t0);
   JeSlot true (t0 + second) "hourly" (t0 + 60 * minute);
   JePrepare true (t0 + 2 * second) (t0 + 2 * second) occ0 None (90 * second);
   JeCommit true (t0 + 3 * second) (attempt_id occ0 1) 1 AttemptFailed None "boom" None].
Definition sample_rest : list job_event :=
  [JePrepare true (t0 + 4 * second) (t0 + 4 * second) occ0 None (90 * second);
   JeCommit true (t0 + 5 * second) (attempt_id occ0 2) 2 AttemptCompleted None "" None].

Lemma sample_jobs_reachable evs : forallb event_ok evs = true -> job_reachable (job_run evs empty_tables).
Proof. apply job_run_reachable, jr_empty. Qed.

Lemma job_store_exact_witness : let t := job_run (sample_jobs ++ sample_rest) empty_tables in
  job_reachable t /\ latest_no occ0 t = 2 /\
  (forall id n, (exists a, tb_attempts t !! attempt_id id n = Some a) <-> 1 <= n <= latest_no id t).
Proof.
  intros t. assert (R : job_reachable t) by (apply sample_jobs_reachable; vm_compute; reflexivity).
  split; [exact R|]. split; [vm_compute; reflexivity|]. exact (proj1 (proj2 (job_store_exact t R))).
Defined.

Lemma occurrence_life_witness : let t := job_run sample_jobs empty_tables in
  let ev := JePrepare true (t0 + 4 * second) (t0 + 4 * second) occ0 None (90 * second) in
  phase_of occ0 t = Waiting 1 /\ phase_of occ0 (job_step ev t) = Leased 2 /\
  (phase_of occ0 (job_step ev t) = phase_of occ0 t \/ phase_edge (phase_of occ0 t) (phase_of occ0 (job_step ev t))).
Proof.
  intros t ev. split; [vm_compute; reflexivity|]. split; [vm_compute; reflexivity|].
  apply (occurrence_life t ev occ0); [apply sample_jobs_reachable|]; vm_compute; reflexivity.
Defined.

Lemma settled_once_witness : let t := job_run sample_jobs empty_tables in let t' := job_run sample_rest t in
  exists a, tb_attempts t !! attempt_id occ0 1 = Some a /\ tb_attempts t' !! attempt_id occ0 1 = Some a /\
  exists e, commit_attempt true (t0 + 9 * second) (attempt_id occ0 1) 1 AttemptFailed None "boom" None t' = (e, t') /\
    (e = None <-> 1 = at_LeaseEpoch a /\ AttemptFailed = at_State a /\ AttemptFailed <> AttemptDeferred /\ None = at_Result a /\ "boom"%string = at_Error a).
Proof.
  intros t t'. destruct (tb_attempts t !! attempt_id occ0 1) as [a|] eqn:E; [|vm_compute in E; discriminate E]. exists a. split; [reflexivity|].
  apply (settled_once t sample_rest (attempt_id occ0 1) a); [apply sample_jobs_reachable; vm_compute; reflexivity|vm_compute; reflexivity|exact E| |].
  - vm_compute in E. injection E as <-. reflexivity.
  - split; [vm_compute; by eexists|]. split; [vm_compute; by eexists|exact I].
Defined.
