(* ===== verification/JobRetry.v ===== *)
(** * The retry protocol of the job manager

    Models the decisions of [internal/jobs/manager_retry.go], [manager_recovery.go],
    [manager_attempt.go] and [manager_schedule.go] over the store: what the monitor of an
    attempt does with its result, what the recovery pass does with a candidate, and how a
    due schedule advances. [retryDelay] computes in float64; its value is an argument. *)

From stdpp Require Import sorting.
From S2P Require Import Prelude.
From S2P Require Import Execution.
From S2P Require Import Tasks.
From S2P Require Import JobStore.
From S2P Require Import JobInvariant.
From S2P Require Import JobSteps.
From S2P Require Import JobTheorems.

(** ** Results and their durable form *)

Definition attemptState (outcome : Outcome) : AttemptState :=
  match outcome with
  | OutcomeCompleted => AttemptCompleted
  | OutcomeTimedOut => AttemptTimedOut
  | OutcomeCancelled => AttemptCancelled
  | OutcomeAbortedBeforeStart => AttemptAbortedBeforeStart
  | _ => AttemptFailed
  end.
Definition encodeAttemptResultMetadata (res : TaskResult) : option attempt_metadata :=
  if bool_decide (tr_Outcome res = OutcomeCompleted) || bool_decide (tr_Outcome res = OutcomeCancelled) then None
  else
    let semantics := TaskResult_Semantics res in
    if decide (sem_Disposition semantics = DispositionUnset) then None else Some (mkAttemptMetadata (sem_Disposition semantics) (sem_Code semantics)).
Definition persistedAttemptSemantics (attempt : JobAttempt) : option Semantics :=
  match at_Result attempt with
  | Some m => if decide (am_Disposition m = DispositionUnset) then None else Some (mkSemantics (am_Disposition m) (am_Code m) 0)
  | None => None
  end.
Definition occurrenceStateForSemantics (s : Semantics) : OccurrenceState :=
  if decide (sem_Disposition s = DispositionCancelled) then OccurrenceCancelled else OccurrenceFailed.

(** [commitAttemptResult]. *)
Definition commitAttemptResult (io : bool) (now : time) (attempt : JobAttempt) (res : TaskResult) (t : job_tables) : option job_error * job_tables :=
  if decide (tr_Cause res = CauseRateLimited) then
    if is_zero (tr_FinishedAt res) then (Some ErrInvalidRequest, t)
    else CommitAttemptDeferred io now (at_ID attempt) (at_LeaseEpoch attempt) (time_add (tr_FinishedAt res) (Z.max 0 (tr_RetryAfter res))) (fi_Message (tr_Failure res)) t
  else CommitAttemptResult io now (at_ID attempt) (at_LeaseEpoch attempt) (attemptState (tr_Outcome res)) (encodeAttemptResultMetadata res) (fi_Message (tr_Failure res)) t.

Definition leaseDurationFor (def : JobDefinition) : duration :=
  let leaseDuration := wrap64 (jd_Timeout def + minute) in if leaseDuration <? minute then minute else leaseDuration.

(** ** Budgets *)

Definition maxAttempts (policy : JobRetryPolicy) : Z := if rp_MaxAttempts policy <=? 0 then 1 else rp_MaxAttempts policy.
Definition maxDeferrals (policy : JobRetryPolicy) : Z := if 0 <? rp_MaxDeferrals policy then rp_MaxDeferrals policy else maxAttempts policy + 1.

(** [loadAttemptSummary] of a store without the query: [io] answers its reads in turn. *)
Definition zero_attempt : JobAttempt := mkAttempt "" "" 0 "" 0 0 AttemptLeased None None None "" 0.
Definition loadAttemptSummary (io : nat -> bool) (occurrenceID : string) (t : job_tables) : job_error + AttemptSummary :=
  match GetOccurrence (io 0%nat) occurrenceID t with
  | inl e => inl e
  | inr occ =>
      if occurrenceTerminal (oc_State occ) then inr (mkSummary (oc_State occ) (oc_ReadyAt occ) zero_attempt 0 0 0)
      else
        match LatestAttempt (io 1%nat) occurrenceID t, CountAttempts (io 2%nat) occurrenceID t, CountRetryBudgetUses (io 3%nat) occurrenceID t, CountDeferrals (io 4%nat) occurrenceID t with
        | inl e, _, _, _ | _, inl e, _, _ | _, _, inl e, _ | _, _, _, inl e => inl e
        | inr latest, inr count, inr uses, inr deferrals => inr (mkSummary (oc_State occ) (oc_ReadyAt occ) latest count uses deferrals)
        end
  end.

(** ** The monitor of an attempt *)

(** What [watchAttempt] does: forget the occurrence, forget it and wake the recovery,
    close it, put its next attempt off, or drive it now. *)
Inductive watch_decision := Forget | ForgetAndRecover | Finalize (s : OccurrenceState) | PutOff (delay : duration) | Drive.

Definition watchAttempt (policy : JobRetryPolicy) (delay : duration) (res : TaskResult) (summary : job_error + AttemptSummary) : watch_decision :=
  if decide (tr_Cause res = CausePersistenceFailure) then ForgetAndRecover
  else if decide (tr_Outcome res = OutcomeCompleted) then Forget
  else
    match summary with
    | inl _ => ForgetAndRecover
    | inr summary =>
        if occurrenceTerminal (sm_OccurrenceState summary) then Forget
        else
          let semantics := TaskResult_Semantics res in
          if negb (Semantics_ShouldRetry semantics) && negb (Semantics_IsSuccess semantics) then Finalize (occurrenceStateForSemantics semantics)
          else if decide (tr_Outcome res = OutcomeUnset) then ForgetAndRecover
          else if decide (tr_Cause res = CauseRateLimited) then
            if maxDeferrals policy <=? sm_Deferrals summary then Finalize OccurrenceFailed else ForgetAndRecover
          else if maxAttempts policy <=? sm_RetryBudgetUses summary then Finalize OccurrenceFailed
          else if 0 <? delay then PutOff delay
          else Drive
    end.

(** ** The recovery pass *)

Inductive recover_decision := Deferred | Stale | Orphaned | RecoverFinalize (s : OccurrenceState) | Redrive.

(** [runnable]: the definition is known and enabled, and has a handler. *)
Definition recoverCandidate (policy : JobRetryPolicy) (now : time) (tracked runnable : bool) (occ : JobOccurrence) (summary : AttemptSummary) : recover_decision :=
  if after (oc_ReadyAt occ) now then Deferred
  else if tracked then Stale
  else if negb runnable then Orphaned
  else if negb (bool_decide (sm_OccurrenceState summary = OccurrenceDispatched)) then Stale
  else
    let latest := sm_Latest summary in
    if negb (attemptTerminal (at_State latest)) then Stale
    else
      match (if is_deferred latest then None else persistedAttemptSemantics latest) with
      | Some semantics =>
          if negb (Semantics_ShouldRetry semantics) && negb (Semantics_IsSuccess semantics) then RecoverFinalize (occurrenceStateForSemantics semantics)
          else if maxAttempts policy <=? sm_RetryBudgetUses summary then RecoverFinalize OccurrenceFailed else Redrive
      | None =>
          if is_deferred latest && (maxDeferrals policy <=? sm_Deferrals summary) then RecoverFinalize OccurrenceFailed
          else if maxAttempts policy <=? sm_RetryBudgetUses summary then RecoverFinalize OccurrenceFailed else Redrive
      end.

(** ** Schedules *)

Definition NextIntervalDueAfter (nextDue now : time) (interval : duration) : option time :=
  if interval <=? 0 then None
  else if after nextDue now then Some nextDue
  else
    let delta := time_sub now nextDue in
    if after now nextDue && (delta =? max_int64) then None
    else
      let steps := wrap64 (Z.quot delta interval + 1) in
      if (steps <=? 0) || (Z.quot max_int64 interval <? steps) then None
      else
        let candidate := time_add nextDue (wrap64 (steps * interval)) in
        if after candidate now then Some candidate else None.

Section Schedules.
Variable zone_known : string -> bool.

Definition validateSchedulePolicy (s : JobSchedule) : bool :=
  negb (blank (js_ID s)) && negb (blank (js_JobID s)) &&
  (if decide (js_Recurrence s = "once") then js_Interval s =? 0
   else if decide (js_Recurrence s = "interval") then negb (js_Interval s <? second) else false) &&
  negb (is_zero (js_NextDueAt s)) && zone_known (if decide (js_Timezone s = "") then "UTC"%string else js_Timezone s) &&
  match js_MisfirePolicy s with MisfireUnset | MisfireRunOnce | MisfireSkip => true | _ => false end &&
  match js_OverlapPolicy s with OverlapUnset | OverlapForbid => true | _ => false end.

(** One round of [ProcessDueSchedules] up to the attempt it drives: the next due time it
    computes decides which statement it runs. *)
Inductive schedule_action := Quarantine | SkipSlot (nextDue : time) | MaterializeSlot (nextDue : time).
Definition schedule_round (now : time) (s : JobSchedule) : schedule_action :=
  if negb (validateSchedulePolicy s) then Quarantine
  else if decide (js_Recurrence s = "once") then MaterializeSlot (js_NextDueAt s)
  else
    let interval := if js_Interval s <=? 0 then minute else js_Interval s in
    match NextIntervalDueAfter (js_NextDueAt s) now interval with
    | None => Quarantine
    | Some nextDue =>
        if bool_decide (js_MisfirePolicy s = MisfireSkip) && negb (before now (time_add (js_NextDueAt s) interval)) then SkipSlot nextDue
        else MaterializeSlot nextDue
    end.
(** [now] is the argument of the round, [clock] what the store reads. *)
Definition run_round (io : bool) (now clock : time) (s : JobSchedule) (t : job_tables) : (job_error + option JobOccurrence) * job_tables :=
  match schedule_round now s with
  | Quarantine => let '(e, t) := DisableSchedule io (js_ID s) t in (inl (default ErrInvalidRequest e), t)
  | SkipSlot nextDue => match SkipDueSchedule io clock (js_ID s) nextDue t with (Some e, t) => (inl e, t) | (None, t) => (inr None, t) end
  | MaterializeSlot nextDue => MaterializeDueSchedule io clock (js_ID s) nextDue t
  end.
End Schedules.

(** ** The compact summary *)

Lemma attempts_of_nil id t : tables_ok t -> attempts_of id t = [] <-> latest_no id t = 0.
Proof.
  intros H. unfold latest_no. destruct (attempts_of id t) as [|a l] eqn:E; [done|]. split; [done|]. cbn. intros Hz.
  assert (Ha : a ∈ attempts_of id t) by (rewrite E; left). apply elem_of_attempts in Ha as [[k Hk] _]. pose proof (no_positive _ H _ _ Hk). lia.
Qed.

Lemma lsum_count (P : JobAttempt -> bool) l : lsum (fun a => if P a then 1 else 0) l = Z.of_nat (length (filter (fun a => P a = true) l)).
Proof.
  induction l as [|a l IH]; [done|]. change (lsum (fun a => if P a then 1 else 0) (a :: l)) with ((if P a then 1 else 0) + lsum (fun a => if P a then 1 else 0) l).
  rewrite IH, filter_cons. destruct (P a) eqn:E; [rewrite decide_True by done|rewrite decide_False by congruence]; cbn [length]; lia.
Qed.

(** The one query of [AttemptSummary] answers what the five reads it replaces answer:
    for every occurrence that is not closed, the same summary, or the same error when the
    occurrence has no attempt. *)
Theorem summary_query_agrees id t o : job_reachable t -> tb_occurrences t !! id = Some o -> occurrenceTerminal (oc_State o) = false ->
  loadAttemptSummary (fun _ => true) id t = AttemptSummary_query true id t.
Proof.
  intros R Ho Hs. pose proof (job_reachable_ok _ R) as H. unfold loadAttemptSummary, AttemptSummary_query, attempt_summary. cbn.
  rewrite Ho. cbn. rewrite Hs. destruct (attempts_of id t) as [|a l] eqn:E.
  - rewrite (latest_attempt_is t id H). apply (attempts_of_nil id t H) in E. rewrite E.
    destruct (tb_attempts t !! attempt_id id 0) as [b|] eqn:Hb; [|done]. exfalso.
    destruct (to_att _ H _ _ Hb) as (Hk & _ & _ & Hp & _). apply attempt_id_inj in Hk as [_ Hn]. lia.
  - assert (Hl : latest_no id t <> 0) by (intros E'; apply (attempts_of_nil id t H) in E'; congruence).
    destruct (latest_lookup t id H Hl) as (b & Hb & _). rewrite (latest_attempt_is t id H), Hb. rewrite <- E.
    unfold count_attempts. by rewrite !lsum_count.
Qed.

(** ** The monitor and the recovery decide the same *)

(** What the recovery does for a decision of the monitor. *)
Definition same_decision (policy : JobRetryPolicy) (summary : AttemptSummary) (d : watch_decision) : recover_decision :=
  match d with
  | Finalize s => RecoverFinalize s
  | _ => if maxAttempts policy <=? sm_RetryBudgetUses summary then RecoverFinalize OccurrenceFailed else Redrive
  end.

(** C28. The recovery pass and the live monitor of an attempt decide alike from what the
    commit of the result left in the store: whenever a result that leaves its occurrence
    dispatched has been committed, the recovery of the untracked, runnable and due
    occurrence closes it in the same state when the monitor would close it, and drives
    its next attempt when the monitor would drive it, put it off, or leave it to the
    recovery, except that the budget of attempts bounds it in every case. *)
Theorem recovery_agrees_with_monitor policy delay now res summary occ :
  tr_Outcome res <> OutcomeCompleted -> tr_Outcome res <> OutcomeCancelled -> tr_Cause res <> CausePersistenceFailure ->
  (tr_Cause res = CauseRateLimited -> Semantics_ShouldRetry (TaskResult_Semantics res) = true) ->
  sm_OccurrenceState summary = OccurrenceDispatched -> oc_ReadyAt occ <= now ->
  at_State (sm_Latest summary) = (if decide (tr_Cause res = CauseRateLimited) then AttemptDeferred else attemptState (tr_Outcome res)) ->
  (tr_Cause res <> CauseRateLimited -> at_Result (sm_Latest summary) = encodeAttemptResultMetadata res) ->
  (tr_Cause res = CauseRateLimited -> tr_Outcome res <> OutcomeUnset) ->
  recoverCandidate policy now false true occ summary = same_decision policy summary (watchAttempt policy delay res (inr summary)).
Proof.
  intros Hc Hx Hp Hrl Hst Hready Hlatest Hresult Hunset. unfold recoverCandidate, watchAttempt.
  assert (after (oc_ReadyAt occ) now = false) as -> by (unfold after; apply Z.ltb_ge; done). rewrite Hst. cbn.
  rewrite (decide_False (P := tr_Cause res = CausePersistenceFailure)), (decide_False (P := tr_Outcome res = OutcomeCompleted)) by done.
  destruct (decide (tr_Cause res = CauseRateLimited)) as [E|E].
  - unfold is_deferred. rewrite Hlatest. cbn. rewrite (Hrl E). cbn. rewrite decide_False by auto.
    destruct (maxDeferrals policy <=? sm_Deferrals summary); cbn; [done|]. by destruct (maxAttempts policy <=? _).
  - assert (Hd : is_deferred (sm_Latest summary) = false) by (unfold is_deferred; rewrite Hlatest; destruct (tr_Outcome res); done).
    assert (attemptTerminal (at_State (sm_Latest summary)) = true) as -> by (rewrite Hlatest; destruct (tr_Outcome res); done).
    assert (Hu : sem_Disposition (TaskResult_Semantics res) <> DispositionUnset) by (unfold TaskResult_Semantics; case_decide; [done|]; destruct (tr_Outcome res); done).
    assert (Henc : persistedAttemptSemantics (sm_Latest summary) = Some (mkSemantics (sem_Disposition (TaskResult_Semantics res)) (sem_Code (TaskResult_Semantics res)) 0)).
    { unfold persistedAttemptSemantics. rewrite (Hresult E). unfold encodeAttemptResultMetadata. rewrite !bool_decide_false by done. cbn.
      rewrite decide_False by done. cbn. by rewrite decide_False. }
    rewrite Hd, Henc. cbn -[Semantics_ShouldRetry Semantics_IsSuccess occurrenceStateForSemantics].
    assert (Hsem : forall m, m = mkSemantics (sem_Disposition (TaskResult_Semantics res)) (sem_Code (TaskResult_Semantics res)) 0 ->
      Semantics_ShouldRetry m = Semantics_ShouldRetry (TaskResult_Semantics res) /\ Semantics_IsSuccess m = Semantics_IsSuccess (TaskResult_Semantics res) /\
      occurrenceStateForSemantics m = occurrenceStateForSemantics (TaskResult_Semantics res)) by (intros m ->; done).
    destruct (Hsem _ eq_refl) as (-> & -> & ->).
    destruct (negb (Semantics_ShouldRetry _) && negb (Semantics_IsSuccess _)); cbn; [done|].
    destruct (decide (tr_Outcome res = OutcomeUnset)); cbn; [done|]. destruct (maxAttempts policy <=? sm_RetryBudgetUses summary) eqn:Em; cbn; [done|].
    destruct (0 <? delay); cbn; by rewrite Em.
Qed.

(** ** The next due time *)

(** C29. [NextIntervalDueAfter] keeps the phase of an interval schedule and never
    overflows: whatever the two instants, a time it returns is strictly after [now], is
    [nextDue] plus a whole number of intervals, and is the first such time unless
    [nextDue] itself is still to come; and it returns one whenever the schedule is behind
    by less than the range of [time.Duration] less one interval. *)
Theorem NextIntervalDueAfter_exact nextDue now interval : 0 < interval <= max_int64 ->
  (forall next, NextIntervalDueAfter nextDue now interval = Some next ->
     now < next /\ (exists k, 0 <= k /\ next = nextDue + k * interval) /\ (nextDue <= now -> next <= now + interval)) /\
  (now - nextDue <= max_int64 - interval -> is_Some (NextIntervalDueAfter nextDue now interval)).
Proof.
  intros [Hi Hm]. unfold NextIntervalDueAfter. destruct (Z.leb_spec interval 0); [lia|]. unfold after.
  destruct (Z.ltb_spec now nextDue) as [Hlt|Hge].
  { split; [|by eexists]. intros next [= <-]. split_and!; [done|exists 0; lia|lia]. }
  unfold time_sub. rewrite (Z.max_r min_int64) by (unfold min_int64, max_int64; lia).
  destruct (Z.le_gt_cases max_int64 (now - nextDue)) as [Hbig|Hsmall].
  { rewrite Z.min_l by done. assert (nextDue <? now = true) as -> by (apply Z.ltb_lt; unfold max_int64 in *; lia). rewrite Z.eqb_refl. cbn.
    split; [done|]. unfold max_int64 in *. lia. }
  rewrite Z.min_r by lia. assert (now - nextDue =? max_int64 = false) as -> by (apply Z.eqb_neq; lia). rewrite andb_false_r.
  rewrite (Z.quot_div_nonneg (now - nextDue)) by lia.
  set (q := (now - nextDue) / interval). pose proof (Z.div_mod (now - nextDue) interval ltac:(lia)) as Hdm.
  pose proof (Z.mod_pos_bound (now - nextDue) interval ltac:(lia)) as Hmod. fold q in Hdm.
  assert (Hq : 0 <= q) by (apply Z.div_pos; lia).
  assert (Hqm : q <= now - nextDue) by nia.
  rewrite (wrap64_id (q + 1)) by (unfold min_int64, max_int64 in *; lia).
  assert (q + 1 <=? 0 = false) as -> by (apply Z.leb_gt; lia). cbn [orb]. rewrite Z.quot_div_nonneg by (unfold max_int64; lia).
  destruct (Z.ltb_spec (max_int64 / interval) (q + 1)) as [Hov|Hok].
  { split; [done|]. intros Hle. assert ((q + 1) * interval <= max_int64) by nia.
    assert (q + 1 <= max_int64 / interval) by (apply Z.div_le_lower_bound; lia). lia. }
  assert (Hfit : (q + 1) * interval <= max_int64) by (pose proof (Z.mul_div_le max_int64 interval ltac:(lia)); nia).
  rewrite wrap64_id by (unfold min_int64, max_int64 in *; nia). unfold time_add.
  assert (now <? nextDue + (q + 1) * interval = true) as -> by (apply Z.ltb_lt; nia).
  split; [|by eexists]. intros next [= <-]. split_and!; [nia|exists (q + 1); lia|nia].
Qed.

(** ** Runs *)

Lemma summary_query_agrees_witness : let t := job_run sample_jobs empty_tables in exists o s,
  tb_occurrences t !! occ0 = Some o /\ oc_State o = OccurrenceDispatched /\ AttemptSummary_query true occ0 t = inr s /\ sm_RetryBudgetUses s = 1 /\
  loadAttemptSummary (fun _ => true) occ0 t = AttemptSummary_query true occ0 t.
Proof.
  intros t. destruct (tb_occurrences t !! occ0) as [o|] eqn:Eo; [|vm_compute in Eo; discriminate Eo].
  destruct (AttemptSummary_query true occ0 t) as [e|s] eqn:Es; [vm_compute in Es; discriminate Es|]. exists o, s.
  split; [reflexivity|]. split; [vm_compute in Eo; by injection Eo as <-|]. split; [reflexivity|]. split; [vm_compute in Es; by injection Es as <-|].
  rewrite <- Es. apply (summary_query_agrees occ0 t o); [apply sample_jobs_reachable; vm_compute; reflexivity|exact Eo|vm_compute in Eo; by injection Eo as <-].
Defined.

Definition sample_failure : TaskResult := mkResult "task:x:1" "" OutcomeFailed CauseNone DispositionPermanent 0 0 0 None (mkFailure "bad" "boom" "").
Definition sample_failed_attempt : JobAttempt := mkAttempt "attempt:x:1" "x" 1 "task:x:1" 1 0 AttemptFailed None None (encodeAttemptResultMetadata sample_failure) "boom" 0.
Lemma recovery_agrees_with_monitor_witness :
  let policy := mkRetryPolicy 3 0 0 0 "0" in let occ := mkOccurrence "x" "j" "" 0 "k" OccurrenceDispatched 5 0 0 0 in
  let summary := mkSummary OccurrenceDispatched 5 sample_failed_attempt 1 1 0 in
  recoverCandidate policy 10 false true occ summary = same_decision policy summary (watchAttempt policy 0 sample_failure (inr summary)) /\
  recoverCandidate policy 10 false true occ summary = RecoverFinalize OccurrenceFailed.
Proof.
  cbv zeta. split; [|vm_compute; reflexivity].
  apply recovery_agrees_with_monitor; [vm_compute; discriminate..| | | | | |]; try (vm_compute; discriminate); try (intros E; vm_compute in E; discriminate E); vm_compute; reflexivity.
Defined.

Lemma NextIntervalDueAfter_exact_witness : 0 < 60 * second <= max_int64 /\
  NextIntervalDueAfter t0 (t0 + 150 * second) (60 * second) = Some (t0 + 180 * second) /\
  (forall next, NextIntervalDueAfter t0 (t0 + 150 * second) (60 * second) = Some next ->
     t0 + 150 * second < next /\ (exists k, 0 <= k /\ next = t0 + k * (60 * second)) /\ (t0 <= t0 + 150 * second -> next <= t0 + 150 * second + 60 * second)).
Proof.
  assert (H : 0 < 60 * second <= max_int64) by (unfold second, max_int64; lia). split; [exact H|]. split; [vm_compute; reflexivity|].
  exact (proj1 (NextIntervalDueAfter_exact t0 (t0 + 150 * second) (60 * second) H)).
Defined.

(** An occurrence that was materialised and never leased (the process stopped between
    the two transactions, or its handler was not registered yet) is never a candidate of
    the recovery, and while it is there every due slot of a schedule of its job passes
    without an occurrence. *)
Lemma ready_occurrence_is_stuck t s o id now next : tables_ok t -> tb_occurrences t !! id = Some o -> oc_State o = OccurrenceReady -> oc_JobID o = js_JobID s ->
  tb_schedules t !! js_ID s = Some s -> js_Enabled s = true -> js_NextDueAt s <= now -> js_OverlapPolicy s = OverlapForbid ->
  (forall limit candidates c, ListRecoveryCandidates true limit t = inr candidates -> c ∈ candidates -> oc_ID c.1 <> id) /\
  exists t', MaterializeDueSchedule true now (js_ID s) next t = (inr None, t') /\ tb_occurrences t' = tb_occurrences t.
Proof.
  intros H Ho Hs Hj Hsch He Hd Hf. split.
  - intros limit candidates c [= <-] Hc. apply list_elem_of_omap in Hc as (x & Hx & Hfx). destruct (attempt_summary _ t); simplify_eq/=.
    unfold unresolved_page in Hx. apply subseteq_take in Hx. rewrite merge_sort_Permutation in Hx. apply list_elem_of_filter in Hx as [Hst Hx].
    apply list_elem_of_fmap in Hx as ([k y] & -> & Hx). apply elem_of_map_to_list in Hx. cbn in *. intros E.
    rewrite (occurrence_id _ _ _ H Hx) in E. subst k. congruence.
  - unfold MaterializeDueSchedule. rewrite Hsch, He. unfold after. assert (now <? js_NextDueAt s = false) as -> by (apply Z.ltb_ge; done). cbn [negb orb].
    assert (Hpos : (0 <? active_count (js_JobID s) t)%nat = true); [|rewrite Hf, bool_decide_true, Hpos by done; by eexists].
    apply Nat.ltb_lt. unfold active_count. assert (Hin : o ∈ filter (fun o => oc_JobID o = js_JobID s /\ oc_active o = true) (map_to_list (tb_occurrences t)).*2).
    { apply list_elem_of_filter. split; [unfold oc_active; by rewrite Hs|]. apply list_elem_of_fmap. exists (id, o). split; [done|]. by apply elem_of_map_to_list. }
    destruct (filter _ _); [by apply elem_of_nil in Hin|cbn; lia].
Qed.

(** The lease of an attempt whose process stopped is never taken over: however late it
    is, no further attempt is leased and the recovery passes the occurrence by. *)
Lemma crashed_lease_is_stuck t id o a policy checked now d runnable : tables_ok t -> tb_occurrences t !! id = Some o -> oc_State o = OccurrenceDispatched ->
  latest_attempt id t = Some a -> attemptTerminal (at_State a) = false -> 0 < d -> at_LeaseUntil a < checked -> oc_ReadyAt o <= now ->
  (exists e, PrepareNextAttemptLease true checked now id d t = (inl e, t)) /\
  (forall s, attempt_summary id t = Some s -> match recoverCandidate policy now false runnable o s with Stale | Orphaned => True | _ => False end).
Proof.
  intros H Ho Hs Hla Ht Hd _ Hr. split.
  - unfold PrepareNextAttemptLease, prepareAttemptLease. assert (d <=? 0 = false) as -> by (apply Z.leb_gt; done). cbn. rewrite Ho.
    assert (exists e, lease_refused checked o (latest_no id t) (latest_attempt id t) = Some e) as [e ->].
    { unfold lease_refused. rewrite Hs, Hla, Ht. repeat case_match; by eexists. }
    by exists e.
  - intros s Es. unfold attempt_summary in Es. rewrite Ho, Hla in Es. destruct (attempts_of id t); [done|]. injection Es as <-.
    unfold recoverCandidate. unfold after. assert (now <? oc_ReadyAt o = false) as -> by (apply Z.ltb_ge; done). cbn.
    destruct runnable; [|done]. cbn. rewrite Hs. cbn. by rewrite Ht.
Qed.

(** The recovery lists its candidates before it looks whether a monitor owns them. A
    monitor that drives the second attempt of two, is refused by the task engine and lets
    go of the occurrence, leaves the recovery with the old count: a third is leased. *)
Lemma stale_candidate_exceeds_budget : let policy := mkRetryPolicy 2 0 0 0 "0" in
  let t1 := job_run sample_jobs empty_tables in
  let t2 := job_run [JePrepare true (t0 + 4 * second) (t0 + 4 * second) occ0 None (90 * second);
                     JeCommit true (t0 + 5 * second) (attempt_id occ0 2) 2 AttemptAbortedBeforeStart None "backlog full" None] t1 in
  exists c a t3, ListRecoveryCandidates true 256 t1 = inr [c] /\
    watchAttempt policy 0 (mkResult "" "" OutcomeFailed CauseNone DispositionRetryable 0 0 0 None no_failure) (AttemptSummary_query true occ0 t1) = Drive /\
    recoverCandidate policy (t0 + 6 * second) false true c.1 c.2 = Redrive /\
    PrepareNextAttemptLease true (t0 + 6 * second) (t0 + 6 * second) occ0 (90 * second) t2 = (inr a, t3) /\
    CountRetryBudgetUses true occ0 t3 = inr 3 /\ maxAttempts policy = 2.
Proof. eexists _, _, _. by vm_compute. Qed.
