(* ===== verification/JobManager.v ===== *)
(** * The job manager

    Models [internal/jobs/manager.go] and the goroutines of [manager_retry.go],
    [manager_recovery.go], [manager_attempt.go] and [manager_schedule.go] over the store of
    [JobStore]. A goroutine is a program counter; one step of it is what it does under one
    lock, one statement of the store, one channel operation or one answer of another
    component, which [job_answer] carries. The task engine is its tickets: a task it has
    admitted runs until its handler returns, its result is committed by the callback the
    manager gave it, and then the ticket is settled. Waking the scheduler is counted.
    The context of [Start] is not cancelled before [Stop], and the engine is not forced
    down while handlers run. *)

From stdpp Require Import pretty sorting.
From S2P Require Import Prelude.
From S2P Require Import Execution.
From S2P Require Import Tasks.
From S2P Require Import JobStore.
From S2P Require Import JobRetry.

(** ** State *)

Definition retryQueueCap : nat := 256.
Definition retryWorkers : Z := 4.
Definition recoveryScanLimit : Z := 256.
Definition outboxBatchSize : Z := 100.
Definition outboxDrainBatchLimit : nat := 4.

Record tracked_occurrence := mkTracked { tro_def : JobDefinition; tro_taskID : string; tro_timingOwned : bool }.
(** A ticket is the identifier of its task. *)
Record retryItem := mkRetryItem { ri_occurrenceID : string; ri_ticket : string }.

(** [retryStopping] stands for the closed [stopCh] and the cancelled [baseCtx] as well:
    [beginStop] sets the three under [retryMu], once; [Start] makes the channels and the
    context anew and clears the flag. [started] stands for the channels [Start]
    makes; [scheduleWake] counts the calls of the callback, if there is one. *)
Record job_manager := mkJobManager {
  jm_tables : job_tables; jm_definitions : gmap string JobDefinition; jm_handlers : gset string; jm_tracked : gmap string tracked_occurrence; jm_registrationMu : bool; jm_sequence : Z;
  jm_accepting : bool; jm_started : bool; jm_retryQueue : list retryItem; jm_retryRemaining : Z; jm_retryQueued : Z; jm_retryActive : Z; jm_retryStopping : bool; jm_stopOnce : bool;
  jm_workersRemaining : Z; jm_done : bool; jm_recoveryWake : bool; jm_outboxWake : bool; jm_outboxSink : bool; jm_scheduleWake : option Z
}.

Definition jm_set_tables (v : job_tables) (m : job_manager) : job_manager :=
  mkJobManager v (jm_definitions m) (jm_handlers m) (jm_tracked m) (jm_registrationMu m) (jm_sequence m) (jm_accepting m) (jm_started m)
    (jm_retryQueue m) (jm_retryRemaining m) (jm_retryQueued m) (jm_retryActive m) (jm_retryStopping m) (jm_stopOnce m) (jm_workersRemaining m)
    (jm_done m) (jm_recoveryWake m) (jm_outboxWake m) (jm_outboxSink m) (jm_scheduleWake m).
Definition jm_set_definitions (v : gmap string JobDefinition) (m : job_manager) : job_manager :=
  mkJobManager (jm_tables m) v (jm_handlers m) (jm_tracked m) (jm_registrationMu m) (jm_sequence m) (jm_accepting m) (jm_started m) (jm_retryQueue m)
    (jm_retryRemaining m) (jm_retryQueued m) (jm_retryActive m) (jm_retryStopping m) (jm_stopOnce m) (jm_workersRemaining m) (jm_done m)
    (jm_recoveryWake m) (jm_outboxWake m) (jm_outboxSink m) (jm_scheduleWake m).
Definition jm_set_handlers (v : gset string) (m : job_manager) : job_manager :=
  mkJobManager (jm_tables m) (jm_definitions m) v (jm_tracked m) (jm_registrationMu m) (jm_sequence m) (jm_accepting m) (jm_started m)
    (jm_retryQueue m) (jm_retryRemaining m) (jm_retryQueued m) (jm_retryActive m) (jm_retryStopping m) (jm_stopOnce m) (jm_workersRemaining m)
    (jm_done m) (jm_recoveryWake m) (jm_outboxWake m) (jm_outboxSink m) (jm_scheduleWake m).
Definition jm_set_tracked (v : gmap string tracked_occurrence) (m : job_manager) : job_manager :=
  mkJobManager (jm_tables m) (jm_definitions m) (jm_handlers m) v (jm_registrationMu m) (jm_sequence m) (jm_accepting m) (jm_started m)
    (jm_retryQueue m) (jm_retryRemaining m) (jm_retryQueued m) (jm_retryActive m) (jm_retryStopping m) (jm_stopOnce m) (jm_workersRemaining m)
    (jm_done m) (jm_recoveryWake m) (jm_outboxWake m) (jm_outboxSink m) (jm_scheduleWake m).
Definition jm_set_registrationMu (v : bool) (m : job_manager) : job_manager :=
  mkJobManager (jm_tables m) (jm_definitions m) (jm_handlers m) (jm_tracked m) v (jm_sequence m) (jm_accepting m) (jm_started m) (jm_retryQueue m)
    (jm_retryRemaining m) (jm_retryQueued m) (jm_retryActive m) (jm_retryStopping m) (jm_stopOnce m) (jm_workersRemaining m) (jm_done m)
    (jm_recoveryWake m) (jm_outboxWake m) (jm_outboxSink m) (jm_scheduleWake m).
Definition jm_set_sequence (v : Z) (m : job_manager) : job_manager :=
  mkJobManager (jm_tables m) (jm_definitions m) (jm_handlers m) (jm_tracked m) (jm_registrationMu m) v (jm_accepting m) (jm_started m)
    (jm_retryQueue m) (jm_retryRemaining m) (jm_retryQueued m) (jm_retryActive m) (jm_retryStopping m) (jm_stopOnce m) (jm_workersRemaining m)
    (jm_done m) (jm_recoveryWake m) (jm_outboxWake m) (jm_outboxSink m) (jm_scheduleWake m).
Definition jm_set_accepting (v : bool) (m : job_manager) : job_manager :=
  mkJobManager (jm_tables m) (jm_definitions m) (jm_handlers m) (jm_tracked m) (jm_registrationMu m) (jm_sequence m) v (jm_started m)
    (jm_retryQueue m) (jm_retryRemaining m) (jm_retryQueued m) (jm_retryActive m) (jm_retryStopping m) (jm_stopOnce m) (jm_workersRemaining m)
    (jm_done m) (jm_recoveryWake m) (jm_outboxWake m) (jm_outboxSink m) (jm_scheduleWake m).
Definition jm_set_started (v : bool) (m : job_manager) : job_manager :=
  mkJobManager (jm_tables m) (jm_definitions m) (jm_handlers m) (jm_tracked m) (jm_registrationMu m) (jm_sequence m) (jm_accepting m) v
    (jm_retryQueue m) (jm_retryRemaining m) (jm_retryQueued m) (jm_retryActive m) (jm_retryStopping m) (jm_stopOnce m) (jm_workersRemaining m)
    (jm_done m) (jm_recoveryWake m) (jm_outboxWake m) (jm_outboxSink m) (jm_scheduleWake m).
Definition jm_set_retryQueue (v : list retryItem) (m : job_manager) : job_manager :=
  mkJobManager (jm_tables m) (jm_definitions m) (jm_handlers m) (jm_tracked m) (jm_registrationMu m) (jm_sequence m) (jm_accepting m) (jm_started m) v
    (jm_retryRemaining m) (jm_retryQueued m) (jm_retryActive m) (jm_retryStopping m) (jm_stopOnce m) (jm_workersRemaining m) (jm_done m)
    (jm_recoveryWake m) (jm_outboxWake m) (jm_outboxSink m) (jm_scheduleWake m).
Definition jm_set_retryRemaining (v : Z) (m : job_manager) : job_manager :=
  mkJobManager (jm_tables m) (jm_definitions m) (jm_handlers m) (jm_tracked m) (jm_registrationMu m) (jm_sequence m) (jm_accepting m) (jm_started m)
    (jm_retryQueue m) v (jm_retryQueued m) (jm_retryActive m) (jm_retryStopping m) (jm_stopOnce m) (jm_workersRemaining m) (jm_done m)
    (jm_recoveryWake m) (jm_outboxWake m) (jm_outboxSink m) (jm_scheduleWake m).
Definition jm_set_retryQueued (v : Z) (m : job_manager) : job_manager :=
  mkJobManager (jm_tables m) (jm_definitions m) (jm_handlers m) (jm_tracked m) (jm_registrationMu m) (jm_sequence m) (jm_accepting m) (jm_started m)
    (jm_retryQueue m) (jm_retryRemaining m) v (jm_retryActive m) (jm_retryStopping m) (jm_stopOnce m) (jm_workersRemaining m) (jm_done m)
    (jm_recoveryWake m) (jm_outboxWake m) (jm_outboxSink m) (jm_scheduleWake m).
Definition jm_set_retryActive (v : Z) (m : job_manager) : job_manager :=
  mkJobManager (jm_tables m) (jm_definitions m) (jm_handlers m) (jm_tracked m) (jm_registrationMu m) (jm_sequence m) (jm_accepting m) (jm_started m)
    (jm_retryQueue m) (jm_retryRemaining m) (jm_retryQueued m) v (jm_retryStopping m) (jm_stopOnce m) (jm_workersRemaining m) (jm_done m)
    (jm_recoveryWake m) (jm_outboxWake m) (jm_outboxSink m) (jm_scheduleWake m).
Definition jm_set_retryStopping (v : bool) (m : job_manager) : job_manager :=
  mkJobManager (jm_tables m) (jm_definitions m) (jm_handlers m) (jm_tracked m) (jm_registrationMu m) (jm_sequence m) (jm_accepting m) (jm_started m)
    (jm_retryQueue m) (jm_retryRemaining m) (jm_retryQueued m) (jm_retryActive m) v (jm_stopOnce m) (jm_workersRemaining m) (jm_done m)
    (jm_recoveryWake m) (jm_outboxWake m) (jm_outboxSink m) (jm_scheduleWake m).
Definition jm_set_stopOnce (v : bool) (m : job_manager) : job_manager :=
  mkJobManager (jm_tables m) (jm_definitions m) (jm_handlers m) (jm_tracked m) (jm_registrationMu m) (jm_sequence m) (jm_accepting m) (jm_started m)
    (jm_retryQueue m) (jm_retryRemaining m) (jm_retryQueued m) (jm_retryActive m) (jm_retryStopping m) v (jm_workersRemaining m) (jm_done m)
    (jm_recoveryWake m) (jm_outboxWake m) (jm_outboxSink m) (jm_scheduleWake m).
Definition jm_set_workersRemaining (v : Z) (m : job_manager) : job_manager :=
  mkJobManager (jm_tables m) (jm_definitions m) (jm_handlers m) (jm_tracked m) (jm_registrationMu m) (jm_sequence m) (jm_accepting m) (jm_started m)
    (jm_retryQueue m) (jm_retryRemaining m) (jm_retryQueued m) (jm_retryActive m) (jm_retryStopping m) (jm_stopOnce m) v (jm_done m)
    (jm_recoveryWake m) (jm_outboxWake m) (jm_outboxSink m) (jm_scheduleWake m).
Definition jm_set_done (v : bool) (m : job_manager) : job_manager :=
  mkJobManager (jm_tables m) (jm_definitions m) (jm_handlers m) (jm_tracked m) (jm_registrationMu m) (jm_sequence m) (jm_accepting m) (jm_started m)
    (jm_retryQueue m) (jm_retryRemaining m) (jm_retryQueued m) (jm_retryActive m) (jm_retryStopping m) (jm_stopOnce m) (jm_workersRemaining m) v
    (jm_recoveryWake m) (jm_outboxWake m) (jm_outboxSink m) (jm_scheduleWake m).
Definition jm_set_recoveryWake (v : bool) (m : job_manager) : job_manager :=
  mkJobManager (jm_tables m) (jm_definitions m) (jm_handlers m) (jm_tracked m) (jm_registrationMu m) (jm_sequence m) (jm_accepting m) (jm_started m)
    (jm_retryQueue m) (jm_retryRemaining m) (jm_retryQueued m) (jm_retryActive m) (jm_retryStopping m) (jm_stopOnce m) (jm_workersRemaining m)
    (jm_done m) v (jm_outboxWake m) (jm_outboxSink m) (jm_scheduleWake m).
Definition jm_set_outboxWake (v : bool) (m : job_manager) : job_manager :=
  mkJobManager (jm_tables m) (jm_definitions m) (jm_handlers m) (jm_tracked m) (jm_registrationMu m) (jm_sequence m) (jm_accepting m) (jm_started m)
    (jm_retryQueue m) (jm_retryRemaining m) (jm_retryQueued m) (jm_retryActive m) (jm_retryStopping m) (jm_stopOnce m) (jm_workersRemaining m)
    (jm_done m) (jm_recoveryWake m) v (jm_outboxSink m) (jm_scheduleWake m).
Definition jm_set_outboxSink (v : bool) (m : job_manager) : job_manager :=
  mkJobManager (jm_tables m) (jm_definitions m) (jm_handlers m) (jm_tracked m) (jm_registrationMu m) (jm_sequence m) (jm_accepting m) (jm_started m)
    (jm_retryQueue m) (jm_retryRemaining m) (jm_retryQueued m) (jm_retryActive m) (jm_retryStopping m) (jm_stopOnce m) (jm_workersRemaining m)
    (jm_done m) (jm_recoveryWake m) (jm_outboxWake m) v (jm_scheduleWake m).
Definition jm_set_scheduleWake (v : option Z) (m : job_manager) : job_manager :=
  mkJobManager (jm_tables m) (jm_definitions m) (jm_handlers m) (jm_tracked m) (jm_registrationMu m) (jm_sequence m) (jm_accepting m) (jm_started m)
    (jm_retryQueue m) (jm_retryRemaining m) (jm_retryQueued m) (jm_retryActive m) (jm_retryStopping m) (jm_stopOnce m) (jm_workersRemaining m)
    (jm_done m) (jm_recoveryWake m) (jm_outboxWake m) (jm_outboxSink m) v.

Definition NewManagerWithPorts (t : job_tables) : job_manager :=
  mkJobManager t ∅ ∅ ∅ false 0 false false [] 0 0 0 false false 0 false false false false None.

(** ** Signals and tracking *)

Definition signalRecovery (m : job_manager) : job_manager := if jm_started m then jm_set_recoveryWake true m else m.
Definition signalOutbox (m : job_manager) : job_manager := if jm_started m then jm_set_outboxWake true m else m.
Definition signalSchedule (m : job_manager) : job_manager := jm_set_scheduleWake (Z.succ <$> jm_scheduleWake m) m.

Definition timingOwnedOccurrence (o : JobOccurrence) : bool :=
  negb (bool_decide (oc_ScheduleID o = "")) || String.prefix "sched:" (oc_OccurrenceKey o) || String.prefix "periodic:" (oc_OccurrenceKey o).

(** Whether the schedules were to be woken, too. *)
Definition untrack (id : string) (m : job_manager) : bool * job_manager :=
  let shouldWake := match jm_tracked m !! id with Some tr => tro_timingOwned tr | None => false end in
  let m := jm_set_tracked (delete id (jm_tracked m)) m in
  (shouldWake, if shouldWake then signalSchedule m else m).
Definition untrackOrWakeTimingOccurrence (o : JobOccurrence) (m : job_manager) : job_manager :=
  let '(woken, m) := untrack (oc_ID o) m in
  if woken then m else if timingOwnedOccurrence o then signalSchedule m else m.
Definition track (id : string) (def : JobDefinition) (taskID : string) (timingOwned : bool) (m : job_manager) : job_manager :=
  jm_set_tracked (<[id := mkTracked def taskID timingOwned]> (jm_tracked m)) m.

(** ** The retry workers *)

(** [active] and [queued] are what the two loads return. The second component is the
    number of workers started. *)
Definition ensureRetryWorkersLocked (active queued : Z) (m : job_manager) : job_manager * nat :=
  if jm_retryStopping m || negb (jm_started m) then (m, O)
  else
    let target := active + queued in
    let target := if target <? 1 then 1 else target in
    let target := if retryWorkers <? target then retryWorkers else target in
    let n := Z.to_nat (target - jm_retryRemaining m) in
    (jm_set_workersRemaining (jm_workersRemaining m + Z.of_nat n) (jm_set_retryRemaining (jm_retryRemaining m + Z.of_nat n) m), n).

(** Whether the item was taken; otherwise the recovery is to be woken. *)
Definition enqueueRetry (active queued : Z) (item : retryItem) (m : job_manager) : bool * (job_manager * nat) :=
  if jm_retryStopping m || negb (jm_started m) then (false, (m, O))
  else if (length (jm_retryQueue m) <? retryQueueCap)%nat then
    (true, ensureRetryWorkersLocked active queued (jm_set_retryQueue (jm_retryQueue m ++ [item]) (jm_set_retryQueued (jm_retryQueued m + 1) m)))
  else (false, (m, O)).

(** The section of [retryWorkerDone]. *)
Definition retryWorkerDone (active queued : Z) (m : job_manager) : job_manager * nat :=
  let m := jm_set_retryRemaining (jm_retryRemaining m - 1) m in
  if negb (jm_retryStopping m) && (0 <? jm_retryQueued m) then ensureRetryWorkersLocked active queued m else (m, O).
(** The last worker closes [done]. *)
Definition workerDone (m : job_manager) : job_manager :=
  let m := jm_set_workersRemaining (jm_workersRemaining m - 1) m in
  if jm_workersRemaining m =? 0 then jm_set_done true m else m.

(** ** Goroutines *)

Record drive := mkDrive { dr_occurrenceID : string; dr_def : JobDefinition; dr_timingOwned : bool }.
(** Who drives an attempt, and what is left of its loop; [drain] says that the pass of the
    coordinator is followed by a delivery of the outbox. *)
Inductive driver :=
  | BySubmit | ByMonitor
  | ByRecovery (drain : bool) (rest : list (JobOccurrence * AttemptSummary))
  | BySchedule (now : time) (rest : list JobSchedule).
Inductive drive_pc :=
  | DrLease | DrTrack (a : JobAttempt) | DrSubmit (a : JobAttempt) | DrUntrack (a : JobAttempt) (e : goerror) | DrAbort (a : JobAttempt) (e : goerror)
  | DrSignal | DrEnqueue (a : JobAttempt) | DrWake.

Inductive job_pc :=
  (* [SubmitOccurrence] *)
  | SuEnter (jobID key : string) | SuMaterialize (def : JobDefinition) (occ : JobOccurrence)
  (* [driveAttempt], and the same protocol of [SubmitOccurrence] *)
  | Driving (who : driver) (d : drive) (pc : drive_pc)
  (* [retryLoop], [watchAttempt] *)
  | RlSelect | RlTaken (item : retryItem) | RlCounted (item : retryItem) | WaEnter (item : retryItem) | WaWait (item : retryItem) (tr : tracked_occurrence)
  | WaWaited (item : retryItem) (tr : tracked_occurrence) (res : TaskResult) | WaDecide (item : retryItem) (tr : tracked_occurrence) (res : TaskResult)
  | WaFinalize (id : string) (s : OccurrenceState) | WaDefer (id : string) (delay : duration) | WaUntrack (id : string) (recover : bool)
  | WaSignal (untrack : option string) | WaDrive (item : retryItem) (tr : tracked_occurrence) | WaDone | RlLeave | RlGone
  (* [durableCoordinatorLoop], [Recover], [drainOutbox] *)
  | CoSelect | ReEnter (drain : bool) | ReList (drain : bool) | ReScan (drain : bool) (rest : list (JobOccurrence * AttemptSummary))
  | ReFinalize (drain : bool) (o : JobOccurrence) (s : OccurrenceState) (rest : list (JobOccurrence * AttemptSummary))
  | ReUntrack (drain : bool) (o : JobOccurrence) (rest : list (JobOccurrence * AttemptSummary))
  | ObList (batch : nat) | ObSend (batch : nat) (full : bool) (events : list OutboxEvent) | ObMark (batch : nat) (full : bool) (e : OutboxEvent) (events : list OutboxEvent)
  | ObSignal
  (* [ProcessDueSchedules] *)
  | PrList (now : time) (limit : Z) | PrRound (now : time) (rest : list JobSchedule) | PrDrive (now : time) (o : JobOccurrence) (rest : list JobSchedule)
  | PrSignal (now : time) (rest : list JobSchedule)
  (* [CancelOccurrence], [CancelByOwner] *)
  | CaStore (id reason : string) | CaSignal (id : string) | CaUntrack (id : string)
  | OwStore (ids : list string) | OwUntrack (id : string) (ids : list string)
  (* definitions and schedules *)
  | SiSignal | HaSignal | RgLock (def : JobDefinition) | RgCheck (def : JobDefinition) | RgSave (def : JobDefinition) | RgStore (def : JobDefinition) | RgSignal | RgUnlock
  | DfLock (id : string) | DfCheck (id : string) | DfDelete (id : string) | DfForget (id : string)
  | UpRead (def : JobDefinition) | UpSave (def : JobDefinition) | UpStore (def : JobDefinition)
  | ScSave (s : JobSchedule) | ScDisable (id : string) | ScSignal | PruneStore (ids : list string) (jobID : string) (before_ : time)
  (* [Stop] *)
  | StQuiesce | StBegin | StWait
  | Returned.

(** What a step is told: the database's answers, readings of the clock, the error of
    [Submit] or of the outbox sink, loads of counters, the choice of a [select]. *)
Record job_answer := mkAnswer {
  an_io : bool; an_io' : bool; an_checked : time; an_now : time; an_error : option goerror; an_active : Z; an_queued : Z; an_choice : nat
}.
(** What a step leaves: the goroutine, the manager, the attempt whose task the engine
    has admitted, the retry workers started. *)
Record job_effect := mkEffect { ef_pc : job_pc; ef_manager : job_manager; ef_ticket : option JobAttempt; ef_spawned : nat }.
Definition goto (pc : job_pc) (m : job_manager) : option job_effect := Some (mkEffect pc m None O).
Definition goto_spawn (pc : job_pc) (mn : job_manager * nat) : option job_effect := Some (mkEffect pc mn.1 None mn.2).
Definition with_tables (t : job_tables) (m : job_manager) : job_manager := jm_set_tables t m.

Definition after_drive (who : driver) (d : drive) (ok : bool) : job_pc :=
  match who with
  | BySubmit => Returned
  | ByMonitor => if ok then WaDone else WaUntrack (dr_occurrenceID d) true
  | ByRecovery drain rest => ReScan drain rest
  | BySchedule now rest => if ok then PrRound now rest else PrSignal now rest
  end.

Definition CauseAdmissionRejected : Cause := "admission_rejected".
Definition abortedTaskResult (taskID : string) (err : goerror) (now : time) : TaskResult :=
  let semantics := SemanticsOf (Some err) in
  mkResult taskID "" OutcomeAbortedBeforeStart CauseAdmissionRejected (sem_Disposition semantics) 0 now 0 None
    (mkFailure (sem_Code semantics) (error_text err) "").

Definition drive_step (a : job_answer) (who : driver) (d : drive) (pc : drive_pc) (m : job_manager) : option job_effect :=
  let id := dr_occurrenceID d in
  match pc with
  | DrLease =>
      match PrepareNextAttemptLease (an_io a) (an_checked a) (an_now a) id (leaseDurationFor (dr_def d)) (jm_tables m) with
      | (inr attempt, t) => goto (Driving who d (DrTrack attempt)) (with_tables t m)
      | (inl _, t) => goto (after_drive who d false) (with_tables t m)
      end
  | DrTrack attempt => goto (Driving who d (DrSubmit attempt)) (track id (dr_def d) (at_TaskID attempt) (dr_timingOwned d) m)
  | DrSubmit attempt =>
      match an_error a with
      | None => Some (mkEffect (Driving who d (DrEnqueue attempt)) m (Some attempt) O)
      | Some e => goto (Driving who d (DrUntrack attempt e)) m
      end
  | DrUntrack attempt e => goto (Driving who d (DrAbort attempt e)) (untrack id m).2
  | DrAbort attempt e =>
      let res := abortedTaskResult (at_TaskID attempt) e (an_now a) in
      goto (Driving who d DrSignal) (with_tables (CommitAttemptResult (an_io a) (an_now a) (at_ID attempt) (at_LeaseEpoch attempt) AttemptAbortedBeforeStart
        (encodeAttemptResultMetadata res) (error_text e) (jm_tables m)).2 m)
  | DrSignal => goto (after_drive who d false) (signalRecovery m)
  | DrEnqueue attempt =>
      match enqueueRetry (an_active a) (an_queued a) (mkRetryItem id (at_TaskID attempt)) m with
      | (true, mn) => goto_spawn (after_drive who d true) mn
      | (false, mn) => goto_spawn (Driving who d DrWake) mn
      end
  | DrWake => goto (after_drive who d true) (signalRecovery m)
  end.

Section Manager.
(** [retryDelay] computes in float64; [zone_known] is the database of time zones. *)
Variable retry_delay : JobRetryPolicy -> Z -> duration.
Variable zone_known : string -> bool.

(** [retryLoop] chooses between its stop, its queue and its idle timer. *)
Definition retry_step (a : job_answer) (tickets : gmap string TaskResult) (pc : job_pc) (m : job_manager) : option job_effect :=
  match pc with
  | RlSelect =>
      match an_choice a with
      | O => if jm_retryStopping m then goto RlLeave m else None
      | S O => match jm_retryQueue m with item :: q => goto (RlTaken item) (jm_set_retryQueue q m) | [] => None end
      | _ => goto (if jm_retryQueued m =? 0 then RlLeave else RlSelect) m
      end
  | RlTaken item => goto (RlCounted item) (jm_set_retryActive (jm_retryActive m + 1) m)
  | RlCounted item => goto (WaEnter item) (jm_set_retryQueued (jm_retryQueued m - 1) m)
  | WaEnter item => goto (match jm_tracked m !! ri_occurrenceID item with Some tr => WaWait item tr | None => WaDone end) m
  | WaWait item tr =>
      match an_choice a with
      | O => if jm_retryStopping m then goto WaDone m else None
      | _ => match tickets !! ri_ticket item with Some res => goto (WaWaited item tr res) m | None => None end
      end
  | WaWaited item tr res => goto (if jm_retryStopping m then WaDone else WaDecide item tr res) m
  | WaDecide item tr res =>
      let id := ri_occurrenceID item in let policy := jd_RetryPolicy (tro_def tr) in
      let summary := AttemptSummary_query (an_io a) id (jm_tables m) in
      let delay := match summary with inr s => retry_delay policy (sm_RetryBudgetUses s) | inl _ => 0 end in
      goto (match watchAttempt policy delay res summary with
            | Forget => WaUntrack id false
            | ForgetAndRecover => WaUntrack id true
            | Finalize s => WaFinalize id s
            | PutOff d => WaDefer id d
            | Drive => WaDrive item tr
            end) m
  | WaFinalize id s =>
      match FinalizeOccurrence (an_io a) (an_now a) id s (jm_tables m) with
      | (None, t) => goto (WaUntrack id false) (with_tables t m)
      | (Some _, t) => goto (WaSignal None) (with_tables t m)
      end
  | WaDefer id delay =>
      match DeferOccurrence (an_io a) (an_now a) id (time_add (an_checked a) delay) (jm_tables m) with
      | (None, t) => goto (WaUntrack id true) (with_tables t m)
      | (Some _, t) => goto (WaSignal (Some id)) (with_tables t m)
      end
  | WaUntrack id recover => goto (if recover then WaSignal None else WaDone) (untrack id m).2
  | WaSignal then_untrack => goto (match then_untrack with Some id => WaUntrack id false | None => WaDone end) (signalRecovery m)
  | WaDrive item tr => goto (if jm_accepting m then Driving ByMonitor (mkDrive (ri_occurrenceID item) (tro_def tr) (tro_timingOwned tr)) DrLease else WaDone) m
  | WaDone => goto RlSelect (jm_set_retryActive (jm_retryActive m - 1) m)
  | RlLeave => goto_spawn RlGone (retryWorkerDone (an_active a) (an_queued a) m)
  | RlGone => goto Returned (workerDone m)
  | _ => None
  end.

(** [durableCoordinatorLoop] chooses between its stop, the two wakes and its timer, which
    may be due for the outbox as well. *)
Definition end_pass (drain : bool) : job_pc := if drain then ObList O else CoSelect.
Definition next_send (batch : nat) (full : bool) (events : list OutboxEvent) : job_pc :=
  match events with [] => if full then ObList (S batch) else CoSelect | _ => ObSend batch full events end.

Definition coordinator_step (a : job_answer) (pc : job_pc) (m : job_manager) : option job_effect :=
  match pc with
  | CoSelect =>
      match an_choice a with
      | O => if jm_retryStopping m then goto RlGone m else None
      | 1%nat => if jm_recoveryWake m then goto (ReEnter false) (jm_set_recoveryWake false m) else None
      | 2%nat => if jm_outboxWake m then goto (ObList O) (jm_set_outboxWake false m) else None
      | 3%nat => goto (ReEnter false) m
      | _ => goto (ReEnter true) m
      end
  | ReEnter drain => goto (if jm_accepting m then ReList drain else end_pass drain) m
  | ReList drain =>
      match ListRecoveryCandidates (an_io a) recoveryScanLimit (jm_tables m) with
      | inr l => goto (ReScan drain l) m
      | inl _ => goto (end_pass drain) m
      end
  | ReScan drain [] => goto (end_pass drain) m
  | ReScan drain ((o, summary) :: rest) =>
      let tracked := bool_decide (is_Some (jm_tracked m !! oc_ID o)) in
      match jm_definitions m !! oc_JobID o with
      | Some def =>
          goto (match recoverCandidate (jd_RetryPolicy def) (an_now a) tracked (jd_Enabled def && bool_decide (jd_HandlerType def ∈ jm_handlers m)) o summary with
                | RecoverFinalize s => ReFinalize drain o s rest
                | Redrive => Driving (ByRecovery drain rest) (mkDrive (oc_ID o) def (timingOwnedOccurrence o)) DrLease
                | _ => ReScan drain rest
                end) m
      | None => goto (ReScan drain rest) m
      end
  | ReFinalize drain o s rest =>
      match FinalizeOccurrence (an_io a) (an_now a) (oc_ID o) s (jm_tables m) with
      | (None, t) => goto (ReUntrack drain o rest) (with_tables t m)
      | (Some _, t) => goto (ReScan drain rest) (with_tables t m)
      end
  | ReUntrack drain o rest => goto (ReScan drain rest) (untrackOrWakeTimingOccurrence o m)
  | ObList batch =>
      if (batch =? 0)%nat && negb (jm_outboxSink m) then goto CoSelect m
      else if (outboxDrainBatchLimit <=? batch)%nat then goto (if an_io a then ObSignal else CoSelect) m
      else match ListPendingOutbox (an_io a) outboxBatchSize (jm_tables m) with
      | inr ((e :: _) as events) => goto (ObSend batch (bool_decide (Z.of_nat (length events) = outboxBatchSize)) events) m
      | _ => goto CoSelect m
      end
  | ObSend batch full (e :: events) => goto (match an_error a with None => ObMark batch full e events | Some _ => CoSelect end) m
  | ObMark batch full e events =>
      match MarkOutboxDelivered (an_io a) (ob_ID e) (jm_tables m) with
      | (None, t) => goto (next_send batch full events) (with_tables t m)
      | (Some _, t) => goto CoSelect (with_tables t m)
      end
  | ObSignal => goto CoSelect (signalOutbox m)
  | _ => None
  end.

(** [ProcessDueSchedules]: [an_now] is the store's reading of the clock. *)
Definition schedules_step (a : job_answer) (pc : job_pc) (m : job_manager) : option job_effect :=
  match pc with
  | PrList now limit =>
      match ListDueSchedules (an_io a) now limit (jm_tables m) with
      | inr l => goto (PrRound now l) m
      | inl _ => goto Returned m
      end
  | PrRound now [] => goto Returned m
  | PrRound now (s :: rest) =>
      match run_round zone_known (an_io a) now (an_now a) s (jm_tables m) with
      | (inr (Some o), t) => goto (PrDrive now o rest) (with_tables t m)
      | (inr None, t) => goto (PrRound now rest) (with_tables t m)
      | (inl _, t) => goto Returned (with_tables t m)
      end
  | PrDrive now o rest =>
      goto (match jm_definitions m !! oc_JobID o with
            | Some def =>
                if bool_decide (jd_HandlerType def ∈ jm_handlers m) then Driving (BySchedule now rest) (mkDrive (oc_ID o) def (timingOwnedOccurrence o)) DrLease
                else PrSignal now rest
            | None => PrSignal now rest
            end) m
  | PrSignal now rest => goto (PrRound now rest) (signalRecovery m)
  | _ => None
  end.

(** [Register] fills the gaps of a definition. *)
Definition normalized_definition (def : JobDefinition) : JobDefinition :=
  mkDefinition (jd_ID def) (jd_ScopeOwner def) (jd_QuotaOwner def) (jd_HandlerType def) (if jd_Version def <=? 0 then 1 else jd_Version def) (jd_Payload def)
    (if decide (jd_Pool def = "") then "general"%string else jd_Pool def) (if decide (jd_Class def = "") then "normal"%string else jd_Class def)
    (jd_Timeout def) (jd_Resources def) (jd_RetryPolicy def) true (jd_Revision def).
Definition with_revision (r : Z) (def : JobDefinition) : JobDefinition :=
  mkDefinition (jd_ID def) (jd_ScopeOwner def) (jd_QuotaOwner def) (jd_HandlerType def) (jd_Version def) (jd_Payload def) (jd_Pool def) (jd_Class def)
    (jd_Timeout def) (jd_Resources def) (jd_RetryPolicy def) (jd_Enabled def) r.
Definition registrable (def : JobDefinition) : bool :=
  negb (bool_decide (jd_ID def = "") || bool_decide (jd_ScopeOwner def = "") || bool_decide (jd_QuotaOwner def = "") || bool_decide (jd_HandlerType def = ""))
  && valid_job_resources ∅ (jd_Resources def).

(** [Register], [DeleteDefinition], [UpdateDefinition], [SaveSchedule],
    [DisableSchedule], [PruneOccurrences], and the signals that end [SetOutboxSink] and
    [RegisterHandler]. *)
Definition registry_step (a : job_answer) (pc : job_pc) (m : job_manager) : option job_effect :=
  match pc with
  | SiSignal => goto Returned (signalOutbox m)
  | HaSignal => goto Returned (signalRecovery m)
  | RgLock def => if jm_registrationMu m then None else goto (RgCheck def) (jm_set_registrationMu true m)
  | RgCheck def =>
      goto (if bool_decide (is_Some (jm_definitions m !! jd_ID def)) || negb (bool_decide (jd_HandlerType def ∈ jm_handlers m)) then RgUnlock else RgSave def) m
  | RgSave def =>
      match SaveDefinition (an_io a) def (jm_tables m) with
      | (None, t) => goto (RgStore def) (with_tables t m)
      | (Some _, t) => goto RgUnlock (with_tables t m)
      end
  | RgStore def => goto RgSignal (jm_set_definitions (<[jd_ID def := def]> (jm_definitions m)) m)
  | RgSignal => goto RgUnlock (signalRecovery m)
  | RgUnlock => goto Returned (jm_set_registrationMu false m)
  | DfLock id => if jm_registrationMu m then None else goto (DfCheck id) (jm_set_registrationMu true m)
  | DfCheck id =>
      goto (if existsb (fun tr => bool_decide (jd_ID (tro_def tr) = id)) (map_to_list (jm_tracked m)).*2 then RgUnlock
            else if decide (is_Some (jm_definitions m !! id)) then DfDelete id else RgUnlock) m
  | DfDelete id =>
      match DeleteDefinition (an_io a) id (jm_tables m) with
      | (None, t) => goto (DfForget id) (with_tables t m)
      | (Some _, t) => goto RgUnlock (with_tables t m)
      end
  | DfForget id => goto RgSignal (jm_set_definitions (delete id (jm_definitions m)) m)
  | UpRead def =>
      match jm_definitions m !! jd_ID def with
      | Some current => goto (UpSave (with_revision (jd_Revision current) def)) m
      | None => goto Returned m
      end
  | UpSave def =>
      match UpdateDefinitionCAS (an_io a) def (jd_Revision def) (jm_tables m) with
      | (None, t) => goto (UpStore (with_revision (jd_Revision def + 1) def)) (with_tables t m)
      | (Some _, t) => goto Returned (with_tables t m)
      end
  | UpStore def => goto Returned (jm_set_definitions (<[jd_ID def := def]> (jm_definitions m)) m)
  | ScSave s =>
      match SaveSchedule zone_known (an_io a) s (jm_tables m) with
      | (None, t) => goto ScSignal (with_tables t m)
      | (Some _, t) => goto Returned (with_tables t m)
      end
  | ScDisable id =>
      match DisableSchedule (an_io a) id (jm_tables m) with
      | (None, t) => goto ScSignal (with_tables t m)
      | (Some _, t) => goto Returned (with_tables t m)
      end
  | ScSignal => goto Returned (signalSchedule m)
  | PruneStore ids jobID before_ => goto Returned (with_tables (DeleteTerminalOccurrences (an_io a) ids jobID before_ (jm_tables m)).2 m)
  | _ => None
  end.

Definition manual_key (jobID : string) (sequence : Z) : string := ("manual:" +:+ jobID +:+ ":" +:+ pretty sequence)%string.
Definition manual_id (jobID : string) (now : time) (sequence : Z) : string :=
  ("occ:" +:+ jobID +:+ ":" +:+ pretty (UnixNano now) +:+ ":" +:+ pretty sequence)%string.

(** [SubmitOccurrence]; the sequence is drawn even when [key] is given. *)
Definition submit_step (a : job_answer) (pc : job_pc) (m : job_manager) : option job_effect :=
  match pc with
  | SuEnter jobID key =>
      match jm_definitions m !! jobID with
      | Some def =>
          if negb (jm_accepting m) || negb (bool_decide (jd_HandlerType def ∈ jm_handlers m)) || negb (jd_Enabled def) then goto Returned m
          else
            let sequence := jm_sequence m + 1 in let now := an_now a in
            goto (SuMaterialize def (mkOccurrence (manual_id jobID now sequence) jobID "" now (if decide (key = "") then manual_key jobID sequence else key)
                    OccurrenceReady now 0 0 0)) (jm_set_sequence sequence m)
      | None => goto Returned m
      end
  | SuMaterialize def occ =>
      match MaterializeOccurrence (an_io a) (an_io' a) (an_now a) occ (jm_tables m) with
      | (inr o, t) => goto (Driving BySubmit (mkDrive (oc_ID o) def (timingOwnedOccurrence o)) DrLease) (with_tables t m)
      | (inl _, t) => goto Returned (with_tables t m)
      end
  | _ => None
  end.

(** The requests to cancel tasks go to the engine, whose tickets may end at any time. *)
Definition cancel_step (a : job_answer) (pc : job_pc) (m : job_manager) : option job_effect :=
  match pc with
  | CaStore id reason =>
      match JobStore.CancelOccurrence (an_io a) (an_now a) id reason (jm_tables m) with
      | (None, t) => goto (CaSignal id) (with_tables t m)
      | (Some _, t) => goto Returned (with_tables t m)
      end
  | CaSignal id => goto (CaUntrack id) (signalOutbox m)
  | CaUntrack id => goto Returned (untrack id m).2
  | OwStore [] => goto Returned m
  | OwStore (id :: ids) =>
      goto (OwUntrack id ids) (with_tables (JobStore.CancelOccurrence (an_io a) (an_now a) id "owner cancelled" (jm_tables m)).2 m)
  | OwUntrack id ids => goto (OwStore ids) (untrack id m).2
  | _ => None
  end.

(** [Quiesce], [beginStop], [Stop]; an error of the context ends the wait. *)
Definition stop_step (a : job_answer) (pc : job_pc) (m : job_manager) : option job_effect :=
  match pc with
  | StQuiesce => goto StBegin (jm_set_accepting false m)
  | StBegin => goto StWait (if jm_stopOnce m then m else jm_set_stopOnce true (jm_set_retryStopping true m))
  | StWait => if jm_done m || negb (jm_started m) || bool_decide (is_Some (an_error a)) then goto Returned m else None
  | _ => None
  end.

Definition thread_step (a : job_answer) (tickets : gmap string TaskResult) (pc : job_pc) (m : job_manager) : option job_effect :=
  match pc with
  | SuEnter _ _ | SuMaterialize _ _ => submit_step a pc m
  | Driving who d dpc => drive_step a who d dpc m
  | RlSelect | RlTaken _ | RlCounted _ | WaEnter _ | WaWait _ _ | WaWaited _ _ _ | WaDecide _ _ _ | WaFinalize _ _ | WaDefer _ _ | WaUntrack _ _
  | WaSignal _ | WaDrive _ _ | WaDone | RlLeave | RlGone => retry_step a tickets pc m
  | CoSelect | ReEnter _ | ReList _ | ReScan _ _ | ReFinalize _ _ _ _ | ReUntrack _ _ _ | ObList _ | ObSend _ _ _ | ObMark _ _ _ _ | ObSignal =>
      coordinator_step a pc m
  | PrList _ _ | PrRound _ _ | PrDrive _ _ _ | PrSignal _ _ => schedules_step a pc m
  | CaStore _ _ | CaSignal _ | CaUntrack _ | OwStore _ | OwUntrack _ _ => cancel_step a pc m
  | StQuiesce | StBegin | StWait => stop_step a pc m
  | Returned => None
  | _ => registry_step a pc m
  end.

(** ** The system *)

(** A ticket of the engine: its handler has not returned; it returned and its result is
    to be committed; settled. *)
Inductive ticket_state := TicketRunning | TicketReturned (res : TaskResult) | TicketSettled (res : TaskResult).
Record job_system := mkJobSystem {
  y_manager : job_manager; y_tickets : gmap string (JobAttempt * ticket_state); y_threads : gmap nat job_pc; y_next : nat
}.
Definition settled_tickets (y : job_system) : gmap string TaskResult :=
  omap (fun t => match t.2 with TicketSettled res => Some res | _ => None end) (y_tickets y).

(** New goroutines take fresh numbers. *)
Fixpoint spawn_goroutines (n : nat) (pc : job_pc) (y : job_system) : job_system :=
  match n with
  | O => y
  | S n => spawn_goroutines n pc (mkJobSystem (y_manager y) (y_tickets y) (<[y_next y := pc]> (y_threads y)) (S (y_next y)))
  end.
Definition call (pc : job_pc) (m : job_manager) (y : job_system) : option job_system :=
  Some (spawn_goroutines 1 pc (mkJobSystem m (y_tickets y) (y_threads y) (y_next y))).
Definition put_ticket (k : string) (a : JobAttempt) (st : ticket_state) (y : job_system) : job_system :=
  mkJobSystem (y_manager y) (<[k := (a, st)]> (y_tickets y)) (y_threads y) (y_next y).

Definition apply_effect (i : nat) (e : job_effect) (y : job_system) : job_system :=
  let y := mkJobSystem (ef_manager e) (y_tickets y) (<[i := ef_pc e]> (y_threads y)) (y_next y) in
  let y := match ef_ticket e with Some a => put_ticket (at_TaskID a) a TicketRunning y | None => y end in
  spawn_goroutines (ef_spawned e) RlSelect y.

(** [Start] adopts the stored definitions it does not know, up to the first whose
    resources are invalid. *)
Fixpoint adopt_definitions (l : list JobDefinition) (defs : gmap string JobDefinition) : bool * gmap string JobDefinition :=
  match l with
  | [] => (true, defs)
  | d :: l =>
      if negb (valid_job_resources ∅ (jd_Resources d)) then (false, defs)
      else adopt_definitions l (if decide (is_Some (defs !! jd_ID d)) then defs else <[jd_ID d := d]> defs)
  end.
Definition definition_before (a b : JobDefinition) : Prop := String.le (jd_ID a) (jd_ID b).
#[export] Instance definition_before_dec a b : Decision (definition_before a b). Proof. unfold definition_before. apply _. Defined.
Definition ListDefinitions (io : bool) (t : job_tables) : job_error + list JobDefinition :=
  if io then inr (merge_sort definition_before (map_to_list (tb_definitions t)).*2) else inl ErrDatabase.

Definition Start (io : bool) (y : job_system) : option job_system :=
  let m := y_manager y in
  if jm_started m then Some y
  else match ListDefinitions io (jm_tables m) with
  | inl _ => Some y
  | inr l =>
      let '(ok, defs) := adopt_definitions l (jm_definitions m) in
      let m := jm_set_definitions defs m in
      if negb ok then Some (mkJobSystem m (y_tickets y) (y_threads y) (y_next y))
      else call CoSelect (jm_set_outboxWake true (jm_set_recoveryWake true (jm_set_workersRemaining 1 (jm_set_retryStopping false (jm_set_accepting true (jm_set_started true m)))))) y
  end.

(** The result of a task whose commit the engine gives up, and of one cancelled in its
    queue. *)
Definition uncertain_task_result (taskID message : string) (now : time) : TaskResult :=
  mkResult taskID "" OutcomeFailed CausePersistenceFailure DispositionRetryable 0 now 0 None (mkFailure CausePersistenceFailure message "").
Definition cancelled_task_result (taskID : string) (reason : Cause) (now : time) : TaskResult :=
  mkResult taskID "" OutcomeCancelled reason DispositionCancelled 0 now 0 None (mkFailure reason "" "").

(** The wake that follows an acknowledged commit. *)
Definition wake_committed (a : JobAttempt) (res : TaskResult) (m : job_manager) : job_manager :=
  if negb (bool_decide (tr_Cause res = CauseRateLimited)) && (bool_decide (tr_Outcome res = OutcomeCompleted) || bool_decide (tr_Outcome res = OutcomeCancelled)) then
    match jm_tracked m !! at_OccurrenceID a with Some tr => if tro_timingOwned tr then signalSchedule m else m | None => m end
  else m.

Inductive manager_event :=
  | EvStep (i : nat) (a : job_answer)
  | EvStart (io : bool)
  | EvSubmit (jobID key : string) | EvProcessDue (now : time) (limit : Z) | EvCancel (id reason : string) | EvCancelByOwner (owner : string) (ids : list string)
  | EvRegisterHandler (ty : string) | EvRegister (def : JobDefinition) | EvUpdateDefinition (def : JobDefinition) | EvDeleteDefinition (id : string)
  | EvSaveSchedule (s : JobSchedule) | EvDisableSchedule (id : string) | EvPrune (ids : list string) (jobID : string) (before_ : time)
  | EvSetOutboxSink (sink : bool) | EvSetScheduleWake (wake : bool) | EvQuiesce | EvStop
  (* the engine: a handler returns, a task is cancelled in its queue, a commit, a commit given up *)
  | EvReturn (k : string) (res : TaskResult) | EvDrop (k : string) (reason : Cause) (now : time)
  | EvCommit (k : string) (io ack : bool) (now : time) | EvGiveUp (k : string) (message : string) (now : time)
  (* the process stops and another takes over the database *)
  | EvCrash.

Definition owned_by (owner : string) (tr : tracked_occurrence) : bool :=
  bool_decide (jd_ScopeOwner (tro_def tr) = owner) || bool_decide (jd_ScopeOwner (tro_def tr) = ("plugin:" +:+ owner)%string).

Definition manager_step (ev : manager_event) (y : job_system) : option job_system :=
  let m := y_manager y in
  match ev with
  | EvStep i a =>
      match y_threads y !! i with
      | Some pc => (fun e => apply_effect i e y) <$> thread_step a (settled_tickets y) pc m
      | None => None
      end
  | EvStart io => Start io y
  | EvSubmit jobID key => call (SuEnter jobID key) m y
  | EvProcessDue now limit => call (PrList now limit) m y
  | EvCancel id reason => call (CaStore id reason) m y
  | EvCancelByOwner owner ids =>
      if decide (ids ≡ₚ (map_to_list (filter (fun kv => owned_by owner kv.2 = true) (jm_tracked m))).*1) then call (OwStore ids) m y else None
  | EvRegisterHandler ty =>
      if bool_decide (ty = "") || bool_decide (ty ∈ jm_handlers m) then Some y else call HaSignal (jm_set_handlers ({[ty]} ∪ jm_handlers m) m) y
  | EvRegister def => if registrable def then call (RgLock (normalized_definition def)) m y else Some y
  | EvUpdateDefinition def => if bool_decide (jd_ID def = "") || negb (valid_job_resources ∅ (jd_Resources def)) then Some y else call (UpRead def) m y
  | EvDeleteDefinition id => let id := trim_space id in if decide (id = "") then Some y else call (DfLock id) m y
  | EvSaveSchedule s => if validateSchedulePolicy zone_known s then call (ScSave s) m y else Some y
  | EvDisableSchedule id => call (ScDisable id) m y
  | EvPrune ids jobID before_ => call (PruneStore ids jobID before_) m y
  | EvSetOutboxSink sink => call SiSignal (jm_set_outboxSink sink m) y
  | EvSetScheduleWake wake => Some (mkJobSystem (jm_set_scheduleWake (if wake then Some 0 else None) m) (y_tickets y) (y_threads y) (y_next y))
  | EvQuiesce => Some (mkJobSystem (jm_set_accepting false m) (y_tickets y) (y_threads y) (y_next y))
  | EvStop => call StQuiesce m y
  | EvReturn k res => match y_tickets y !! k with Some (a, TicketRunning) => Some (put_ticket k a (TicketReturned res) y) | _ => None end
  | EvDrop k reason now => match y_tickets y !! k with Some (a, TicketRunning) => Some (put_ticket k a (TicketSettled (cancelled_task_result k reason now)) y) | _ => None end
  | EvCommit k io ack now =>
      match y_tickets y !! k with
      | Some (a, TicketReturned res) =>
          match commitAttemptResult io now a res (jm_tables m) with
          | (None, t) =>
              let y := mkJobSystem (wake_committed a res (with_tables t m)) (y_tickets y) (y_threads y) (y_next y) in
              Some (if ack then put_ticket k a (TicketSettled res) y else y)
          | (Some _, t) => Some (mkJobSystem (with_tables t m) (y_tickets y) (y_threads y) (y_next y))
          end
      | _ => None
      end
  | EvGiveUp k message now =>
      match y_tickets y !! k with Some (a, TicketReturned _) => Some (put_ticket k a (TicketSettled (uncertain_task_result k message now)) y) | _ => None end
  | EvCrash => Some (mkJobSystem (NewManagerWithPorts (jm_tables m)) ∅ ∅ (y_next y))
  end.
End Manager.
