(* ===== verification/JobSystem.v ===== *)
(** * Executions of the job manager

    Which attempts are held by goroutines and tickets in the states [JobManager] reaches:
    an occurrence has one handler at a time, an acknowledged result is in the store, and
    the retry workers serve their queue and are joined by [Stop]. *)

From S2P Require Import Prelude.
From S2P Require Import Execution.
From S2P Require Import Tasks.
From S2P Require Import JobStore.
From S2P Require Import JobInvariant.
From S2P Require Import JobSteps.
From S2P Require Import JobTheorems.
From S2P Require Import JobRetry.
From S2P Require Import JobManager.

(** ** What a goroutine holds *)

(** The attempt a goroutine has leased and whose task the engine has not admitted. *)
Definition holds (pc : job_pc) : option JobAttempt :=
  match pc with Driving _ _ (DrTrack a | DrSubmit a | DrUntrack a _ | DrAbort a _) => Some a | _ => None end.
Definition held (threads : gmap nat job_pc) : gmap nat JobAttempt := omap holds threads.

Lemma held_lookup threads i a : held threads !! i = Some a <-> exists pc, threads !! i = Some pc /\ holds pc = Some a.
Proof. unfold held. rewrite lookup_omap. destruct (threads !! i) as [pc|]; cbn; split; [intros H; by exists pc|intros (p & [= ->] & H); done|done|intros (p & ? & _); done]. Qed.

Lemma held_insert threads i pc : held (<[i := pc]> threads) = match holds pc with Some a => <[i := a]> (held threads) | None => delete i (held threads) end.
Proof. unfold held. destruct (holds pc) eqn:E; [by apply omap_insert_Some|by apply omap_insert_None]. Qed.

(** ** What a step does to the store *)

Definition no_statement : job_event := JeDelivered false "".

Inductive core_move (a : job_answer) (t : job_tables) (pc : job_pc) (e : job_effect) : Prop :=
  | cm_quiet ev : event_ok ev = true -> (forall k, commits ev k = false) -> jm_tables (ef_manager e) = job_step ev t ->
      holds (ef_pc e) = holds pc -> ef_ticket e = None -> core_move a t pc e
  | cm_lease id d attempt : holds pc = None -> holds (ef_pc e) = Some attempt -> ef_ticket e = None ->
      PrepareNextAttemptLease (an_io a) (an_checked a) (an_now a) id d t = (inr attempt, jm_tables (ef_manager e)) -> core_move a t pc e
  | cm_submit attempt : holds pc = Some attempt -> holds (ef_pc e) = None -> ef_ticket e = Some attempt -> jm_tables (ef_manager e) = t -> core_move a t pc e
  | cm_abort attempt outcome result err : holds pc = Some attempt -> holds (ef_pc e) = None -> ef_ticket e = None ->
      jm_tables (ef_manager e) = (commit_attempt (an_io a) (an_now a) (at_ID attempt) (at_LeaseEpoch attempt) outcome result err None t).2 -> core_move a t pc e.

Lemma signal_tables m : jm_tables (signalRecovery m) = jm_tables m /\ jm_tables (signalOutbox m) = jm_tables m.
Proof. unfold signalRecovery, signalOutbox. by destruct (jm_started m). Qed.
Lemma untrack_tables id m : jm_tables (untrack id m).2 = jm_tables m.
Proof. unfold untrack. by destruct (jm_tracked m !! id) as [tr|]; [destruct (tro_timingOwned tr)|]. Qed.
Lemma untrack_or_wake_tables o m : jm_tables (untrackOrWakeTimingOccurrence o m) = jm_tables m.
Proof.
  unfold untrackOrWakeTimingOccurrence. pose proof (untrack_tables (oc_ID o) m) as H. destruct (untrack _ m) as [w m']. cbn in H. by destruct w, (timingOwnedOccurrence o).
Qed.
Lemma ensure_tables x y m : jm_tables (ensureRetryWorkersLocked x y m).1 = jm_tables m.
Proof. unfold ensureRetryWorkersLocked. by destruct (_ || _). Qed.
Lemma enqueue_tables x y item m : jm_tables (enqueueRetry x y item m).2.1 = jm_tables m.
Proof. unfold enqueueRetry. destruct (_ || _); [done|]. destruct (_ <? _)%nat; [|done]. cbn [snd]. by rewrite ensure_tables. Qed.
Lemma worker_done_tables x y m : jm_tables (retryWorkerDone x y m).1 = jm_tables m.
Proof. unfold retryWorkerDone. destruct (_ && _); [|done]. by rewrite ensure_tables. Qed.
Lemma last_done_tables m : jm_tables (workerDone m) = jm_tables m.
Proof. unfold workerDone. by destruct (_ =? 0). Qed.

Lemma after_drive_holds who d ok : holds (after_drive who d ok) = None.
Proof. by destruct who, ok. Qed.
Lemma end_pass_holds drain : holds (end_pass drain) = None.
Proof. by destruct drain. Qed.
Lemma next_send_holds batch full l : holds (next_send batch full l) = None.
Proof. by destruct l, full. Qed.

Lemma quiet_none a t pc e : jm_tables (ef_manager e) = t -> holds (ef_pc e) = holds pc -> ef_ticket e = None -> core_move a t pc e.
Proof. intros. by apply (cm_quiet _ _ _ _ no_statement). Qed.

(** Without the reductions of [injection]. *)
Ltac effect_of E := apply (inj Some) in E as <-.
Ltac quiet_step := apply quiet_none;
  [cbn [ef_manager]; rewrite ?untrack_tables, ?untrack_or_wake_tables, ?worker_done_tables, ?last_done_tables, ?(proj1 (signal_tables _)), ?(proj2 (signal_tables _)); reflexivity
  |cbn [ef_pc]; rewrite ?after_drive_holds, ?end_pass_holds, ?next_send_holds; reflexivity|reflexivity].

Section Moves.
Variable retry_delay : JobRetryPolicy -> Z -> duration.
Variable zone_known : string -> bool.

Lemma drive_move a who d pc m e : drive_step a who d pc m = Some e -> core_move a (jm_tables m) (Driving who d pc) e.
Proof.
  unfold drive_step, goto, goto_spawn. destruct pc; intros E.
  - destruct (PrepareNextAttemptLease _ _ _ _ _ _) as [[x|attempt] t] eqn:P; effect_of E.
    + apply (cm_quiet _ _ _ _ (JePrepare (an_io a) (an_checked a) (an_now a) (dr_occurrenceID d) None (leaseDurationFor (dr_def d)))); try done; [|apply after_drive_holds].
      cbn. unfold PrepareNextAttemptLease in P. by rewrite P.
    + eapply cm_lease; done.
  - effect_of E. quiet_step.
  - destruct (an_error a); effect_of E; [quiet_step|]. by eapply cm_submit.
  - effect_of E. quiet_step.
  - effect_of E. by eapply cm_abort.
  - effect_of E. quiet_step.
  - pose proof (enqueue_tables (an_active a) (an_queued a) (mkRetryItem (dr_occurrenceID d) (at_TaskID a0)) m) as T.
    destruct (enqueueRetry _ _ _ m) as [ok mn]. destruct ok; effect_of E; apply quiet_none; cbn; try done. apply after_drive_holds.
  - effect_of E. quiet_step.
Qed.

(** [ev] is the statement of the step, whose answer is in the context. *)
Ltac statement ev := apply (cm_quiet _ _ _ _ ev);
  [reflexivity|reflexivity|cbn [job_step ef_manager with_tables]; match goal with E : _ = (_, _) |- _ => rewrite E; reflexivity end
  |cbn [ef_pc]; rewrite ?end_pass_holds, ?next_send_holds; reflexivity|reflexivity].

Lemma retry_move a tickets pc m e : retry_step retry_delay a tickets pc m = Some e -> core_move a (jm_tables m) pc e.
Proof.
  unfold retry_step, goto, goto_spawn. destruct pc; try done; intros E.
  - repeat case_match; simplify_eq; quiet_step.
  - effect_of E. quiet_step.
  - effect_of E. quiet_step.
  - effect_of E. case_match; quiet_step.
  - repeat case_match; simplify_eq; quiet_step.
  - effect_of E. case_match; quiet_step.
  - effect_of E. case_match; quiet_step.
  - destruct (FinalizeOccurrence _ _ _ _ _) as [[x|] t] eqn:P; effect_of E; statement (JeFinalize (an_io a) (an_now a) id s).
  - destruct (DeferOccurrence _ _ _ _ _) as [[x|] t] eqn:P; effect_of E; statement (JeDefer (an_io a) (an_now a) id (time_add (an_checked a) delay)).
  - effect_of E. destruct recover; quiet_step.
  - effect_of E. case_match; quiet_step.
  - effect_of E. case_match; quiet_step.
  - effect_of E. quiet_step.
  - effect_of E. quiet_step.
  - effect_of E. quiet_step.
Qed.

Lemma coordinator_move a pc m e : coordinator_step a pc m = Some e -> core_move a (jm_tables m) pc e.
Proof.
  unfold coordinator_step, goto. destruct pc; try done; intros E.
  - repeat case_match; simplify_eq; quiet_step.
  - effect_of E. case_match; quiet_step.
  - repeat case_match; simplify_eq; quiet_step.
  - destruct rest as [|[o summary] rest]; [effect_of E; quiet_step|]. destruct (jm_definitions m !! _); effect_of E; repeat case_match; quiet_step.
  - destruct (FinalizeOccurrence _ _ _ _ _) as [[x|] t] eqn:P; effect_of E; statement (JeFinalize (an_io a) (an_now a) (oc_ID o) s).
  - effect_of E. quiet_step.
  - repeat case_match; simplify_eq; quiet_step.
  - destruct events; [done|]. effect_of E. case_match; quiet_step.
  - destruct (MarkOutboxDelivered _ _ _) as [[x|] t] eqn:P; effect_of E; statement (JeDelivered (an_io a) (ob_ID e0)).
  - effect_of E. quiet_step.
Qed.

Lemma schedules_move a pc m e : schedules_step zone_known a pc m = Some e -> core_move a (jm_tables m) pc e.
Proof.
  unfold schedules_step, goto. destruct pc; try done; intros E.
  - repeat case_match; simplify_eq; quiet_step.
  - destruct rest as [|s rest]; [effect_of E; quiet_step|]. destruct (run_round _ _ _ _ _ _) as [r t] eqn:P.
    assert (exists ev, event_ok ev = true /\ (forall k, commits ev k = false) /\ t = job_step ev (jm_tables m)) as (ev & Ho & Hc & ->).
    { unfold run_round in P. destruct (schedule_round _ _ _) as [|next|next].
      - exists (JeDisable (an_io a) (js_ID s)). cbn. by destruct (DisableSchedule _ _ _); simplify_eq.
      - exists (JeSkip (an_io a) (an_now a) (js_ID s) next). cbn. by destruct (SkipDueSchedule _ _ _ _ _) as [[|] ?]; simplify_eq.
      - exists (JeSlot (an_io a) (an_now a) (js_ID s) next). cbn. by rewrite P. }
    repeat case_match; simplify_eq; by apply (cm_quiet _ _ _ _ ev).
  - effect_of E. repeat case_match; quiet_step.
  - effect_of E. quiet_step.
Qed.

Lemma registry_move a pc m e : registry_step zone_known a pc m = Some e -> core_move a (jm_tables m) pc e.
Proof.
  unfold registry_step, goto. destruct pc; try done; intros E; repeat case_match; simplify_eq; try quiet_step.
  - statement (JeSaveDefinition (an_io a) def).
  - statement (JeSaveDefinition (an_io a) def).
  - statement (JeDeleteDefinition (an_io a) id).
  - statement (JeDeleteDefinition (an_io a) id).
  - statement (JeUpdateDefinition (an_io a) def (jd_Revision def)).
  - statement (JeUpdateDefinition (an_io a) def (jd_Revision def)).
  - statement (JeSaveSchedule zone_known (an_io a) s).
  - statement (JeSaveSchedule zone_known (an_io a) s).
  - statement (JeDisable (an_io a) id).
  - statement (JeDisable (an_io a) id).
  - by apply (cm_quiet _ _ _ _ (JePrune (an_io a) ids jobID before_)).
Qed.

(** [SubmitOccurrence] materialises a ready occurrence. *)
Definition pc_ok (pc : job_pc) : Prop := match pc with SuMaterialize _ occ => oc_State occ = OccurrenceReady | _ => True end.

Lemma submit_move a pc m e : pc_ok pc -> submit_step a pc m = Some e -> core_move a (jm_tables m) pc e.
Proof.
  unfold submit_step, goto. destruct pc; try done; cbn [pc_ok]; intros Hs E.
  - repeat case_match; simplify_eq; quiet_step.
  - destruct (MaterializeOccurrence _ _ _ _ _) as [[x|o] t] eqn:P; effect_of E;
      (apply (cm_quiet _ _ _ _ (JeMaterialize (an_io a) (an_io' a) (an_now a) occ)); [by apply bool_decide_eq_true|done|cbn; by rewrite P|done|done]).
Qed.

Lemma cancel_move a pc m e : cancel_step a pc m = Some e -> core_move a (jm_tables m) pc e.
Proof.
  unfold cancel_step, goto. destruct pc; try done; intros E.
  - destruct (JobStore.CancelOccurrence _ _ _ _ _) as [[x|] t] eqn:P; effect_of E; statement (JeCancel (an_io a) (an_now a) id reason).
  - effect_of E. quiet_step.
  - effect_of E. quiet_step.
  - destruct ids as [|id ids]; effect_of E; [quiet_step|]. by apply (cm_quiet _ _ _ _ (JeCancel (an_io a) (an_now a) id "owner cancelled")).
  - effect_of E. quiet_step.
Qed.

Lemma stop_move a pc m e : stop_step a pc m = Some e -> core_move a (jm_tables m) pc e.
Proof. unfold stop_step, goto. destruct pc; try done; intros E; repeat case_match; simplify_eq; quiet_step. Qed.

Lemma thread_move a tickets pc m e : pc_ok pc -> thread_step retry_delay zone_known a tickets pc m = Some e -> core_move a (jm_tables m) pc e.
Proof.
  intros Hp. destruct pc; cbn [thread_step];
    first [by apply submit_move | apply drive_move | apply retry_move | apply coordinator_move | apply schedules_move | apply cancel_move | apply stop_move
          | apply registry_move | done].
Qed.

Lemma thread_pc_ok a tickets pc m e : thread_step retry_delay zone_known a tickets pc m = Some e -> pc_ok (ef_pc e).
Proof.
  assert (Ad : forall who d ok, pc_ok (after_drive who d ok)) by (intros who d ok; by destruct who, ok).
  assert (Ns : forall batch full l, pc_ok (next_send batch full l)) by (intros batch full l; by destruct l, full).
  assert (Ep : forall drain, pc_ok (end_pass drain)) by (intros drain; by destruct drain).
  destruct pc; cbn [thread_step submit_step retry_step coordinator_step schedules_step cancel_step stop_step registry_step]; unfold drive_step, goto, goto_spawn; intros E;
    repeat case_match; simplify_eq; cbn; auto.
Qed.
End Moves.

(** ** Attempts and their rows *)

Definition ident (a : JobAttempt) : Prop :=
  at_ID a = attempt_id (at_OccurrenceID a) (at_AttemptNo a) /\ at_TaskID a = task_id (at_OccurrenceID a) (at_AttemptNo a) /\ at_LeaseEpoch a = at_AttemptNo a.
Definition removed (t : job_tables) (a : JobAttempt) : Prop := tb_occurrences t !! at_OccurrenceID a = None.
Definition row_open (t : job_tables) (a : JobAttempt) : Prop := exists r, tb_attempts t !! at_ID a = Some r /\ attemptTerminal (at_State r) = false.

(** What the commit of a result leaves in the row. *)
Definition settled_as (res : TaskResult) (r : JobAttempt) : Prop :=
  if decide (tr_Cause res = CauseRateLimited) then at_State r = AttemptDeferred /\ at_Error r = fi_Message (tr_Failure res)
  else at_State r = attemptState (tr_Outcome res) /\ at_Result r = encodeAttemptResultMetadata res /\ at_Error r = fi_Message (tr_Failure res).
(** The engine settles a ticket without an acknowledgement of the store when it gives the
    commit up, or when the task was cancelled in its queue. *)
Definition unacknowledged (res : TaskResult) : Prop := tr_Cause res = CausePersistenceFailure \/ tr_Outcome res = OutcomeCancelled.

Definition row_of (st : ticket_state) (r : JobAttempt) : Prop :=
  match st with
  | TicketRunning => attemptTerminal (at_State r) = false
  | TicketReturned _ => True
  | TicketSettled res => unacknowledged res \/ settled_as res r
  end.
Definition ticket_ok (t : job_tables) (a : JobAttempt) (st : ticket_state) : Prop :=
  ident a /\ (removed t a \/ exists r, tb_attempts t !! at_ID a = Some r /\ row_of st r).

Lemma settled_as_terminal res r : settled_as res r -> attemptTerminal (at_State r) = true.
Proof. unfold settled_as. case_decide; intros (-> & _); [done|]. by destruct (tr_Outcome res). Qed.

Lemma task_id_inj occ occ' n n' : task_id occ n = task_id occ' n' -> occ = occ' /\ n = n'.
Proof. apply (numbered_inj "task:"). Qed.

Lemma same_task a b : ident a -> ident b -> at_ID a = at_ID b <-> at_TaskID a = at_TaskID b.
Proof.
  intros (Ha & Ta & _) (Hb & Tb & _). split; intros E.
  - rewrite Ha, Hb in E. apply attempt_id_inj in E as [E1 E2]. congruence.
  - rewrite Ta, Tb in E. apply task_id_inj in E as [E1 E2]. congruence.
Qed.

Lemma row_fields t a r : tables_ok t -> ident a -> tb_attempts t !! at_ID a = Some r ->
  at_OccurrenceID r = at_OccurrenceID a /\ at_AttemptNo r = at_AttemptNo a /\ at_LeaseEpoch r = at_LeaseEpoch a.
Proof.
  intros H (Ha & _ & He) Hr. destruct (to_att _ H _ _ Hr) as (Hk & _ & Hre & _). rewrite Ha in Hk. apply attempt_id_inj in Hk as [E1 E2]. by rewrite He, Hre, E1, E2.
Qed.

Lemma open_last t a : tables_ok t -> ident a -> row_open t a -> latest_no (at_OccurrenceID a) t = at_AttemptNo a.
Proof.
  intros H Hi (r & Hr & Ho). destruct (row_fields _ _ _ H Hi Hr) as (E1 & E2 & _). pose proof (latest_no_le _ _ _ H Hr) as L.
  destruct (Z.eq_dec (at_AttemptNo r) (latest_no (at_OccurrenceID r) t)) as [E|E]; [congruence|].
  rewrite (earlier_terminal t (at_ID a) r H Hr) in Ho; [done|lia].
Qed.

Lemma open_unique t a b : tables_ok t -> ident a -> ident b -> row_open t a -> row_open t b -> at_OccurrenceID a = at_OccurrenceID b -> at_ID a = at_ID b.
Proof.
  intros H Ha Hb Oa Ob E. pose proof (open_last _ _ H Ha Oa). pose proof (open_last _ _ H Hb Ob). destruct Ha as (-> & _), Hb as (-> & _). congruence.
Qed.

(** ** Holders *)

Section Core.
Variable tickets : gmap string (JobAttempt * ticket_state).
Variable h : gmap nat JobAttempt.

(** The attempts whose handler may yet run or is running. *)
Definition live (a : JobAttempt) : Prop := (exists i, h !! i = Some a) \/ (exists k, tickets !! k = Some (a, TicketRunning)).
End Core.

Record core_ok (t : job_tables) (tickets : gmap string (JobAttempt * ticket_state)) (h : gmap nat JobAttempt) : Prop := {
  co_tables : tables_ok t;
  co_held : forall i a, h !! i = Some a -> ident a /\ (removed t a \/ row_open t a) /\ tickets !! at_TaskID a = None;
  co_ticket : forall k a st, tickets !! k = Some (a, st) -> k = at_TaskID a /\ ticket_ok t a st;
  co_one : forall a b, live tickets h a -> live tickets h b -> at_OccurrenceID a = at_OccurrenceID b -> at_ID a = at_ID b;
  co_holder : forall i j a b, h !! i = Some a -> h !! j = Some b -> at_ID a = at_ID b -> i = j
}.

(** No identifier of an occurrence in use is given to a new one. *)
Definition fresh_rows (t t' : job_tables) (tickets : gmap string (JobAttempt * ticket_state)) (h : gmap nat JobAttempt) : Prop :=
  forall id, tb_occurrences t !! id = None -> is_Some (tb_occurrences t' !! id) ->
    (forall i a, h !! i = Some a -> at_OccurrenceID a <> id) /\ (forall k a st, tickets !! k = Some (a, st) -> at_OccurrenceID a <> id).

Lemma live_row t tickets h a : core_ok t tickets h -> live tickets h a -> ident a /\ (removed t a \/ row_open t a).
Proof.
  intros C [[i Hi]|[k Hk]].
  - destruct (co_held _ _ _ C _ _ Hi) as (? & ? & _). done.
  - destruct (co_ticket _ _ _ C _ _ _ Hk) as (_ & Hid & Hr). split; [done|]. destruct Hr as [Hr|(r & Hr & Ho)]; [by left|right]. by exists r.
Qed.

(** A commit deletes no row. *)
Lemma commit_keeps_rows t ev k k' : commits ev k = true -> is_Some (tb_attempts t !! k') -> is_Some (tb_attempts (job_step ev t) !! k').
Proof.
  intros Hc Hr. destruct ev; try done; cbn [job_step]; unfold CommitAttemptDeferred, commit_attempt, insert_outbox; repeat case_match; simplify_eq; try exact Hr;
    cbn; (destruct (decide (at_ID j = k')) as [<-|?]; [rewrite lookup_insert_eq; by eexists|by rewrite lookup_insert_ne]).
Qed.

(** A statement that commits no live attempt. *)
Lemma core_statement t tickets h ev : core_ok t tickets h -> event_ok ev = true -> fresh_rows t (job_step ev t) tickets h ->
  (forall a, live tickets h a -> commits ev (at_ID a) = false) -> core_ok (job_step ev t) tickets h.
Proof.
  intros C Hok F Hc. pose proof (co_tables _ _ _ C) as H.
  assert (Rem : forall a, removed t a -> ((exists i, h !! i = Some a) \/ exists k st, tickets !! k = Some (a, st)) -> removed (job_step ev t) a).
  { intros a Hr Hu. apply eq_None_not_Some. intros Hs. destruct (F _ Hr Hs) as [F1 F2]. destruct Hu as [[i Hi]|(k & st & Hk)]; [by eapply F1|by eapply F2]. }
  assert (Row : forall a r, ident a -> tb_attempts t !! at_ID a = Some r -> (attemptTerminal (at_State r) = true \/ commits ev (at_ID a) = false) ->
    removed (job_step ev t) a \/ tb_attempts (job_step ev t) !! at_ID a = Some r).
  { intros a r Hi Hr Ht. destruct (row_fields _ _ _ H Hi Hr) as (E & _). destruct (row_step t ev _ _ H Hr Ht) as [?|[_ ?]]; [by right|left]. unfold removed. by rewrite <- E. }
  assert (Kept : forall a r, ident a -> tb_attempts t !! at_ID a = Some r -> removed (job_step ev t) a \/ is_Some (tb_attempts (job_step ev t) !! at_ID a)).
  { intros a r Hi Hr. destruct (commits ev (at_ID a)) eqn:E; [right; by apply (commit_keeps_rows t ev (at_ID a))|].
    destruct (Row a r Hi Hr (or_intror E)) as [?|?]; [by left|right; by exists r]. }
  split.
  - by apply job_step_ok.
  - intros i a Hi. destruct (co_held _ _ _ C _ _ Hi) as (Hid & Hr & Hn). split_and!; [done| |done]. destruct Hr as [Hr|(r & Hr & Ho)]; [left; apply Rem; eauto|].
    destruct (Row a r Hid Hr) as [?|?]; [right; apply Hc; left; eauto|by left|right; by exists r].
  - intros k a st Hk. destruct (co_ticket _ _ _ C _ _ _ Hk) as (E & Hid & Hr). split; [done|]. split; [done|]. destruct Hr as [Hr|(r & Hr & Ho)]; [left; apply Rem; eauto|].
    destruct (attemptTerminal (at_State r)) eqn:Ht.
    + destruct (Row a r Hid Hr) as [?|?]; [by left|by left|right; by exists r].
    + destruct st as [|res|res].
      * destruct (Row a r Hid Hr) as [?|?]; [right; apply Hc; right; eauto|by left|right; by exists r].
      * destruct (Kept a r Hid Hr) as [?|[r' Hr']]; [by left|right; by exists r'].
      * destruct Ho as [Ho|Ho]; [|apply settled_as_terminal in Ho; congruence]. destruct (Kept a r Hid Hr) as [?|[r' Hr']]; [by left|right; exists r'; split; [done|by left]].
  - intros a b. apply (co_one _ _ _ C).
  - intros i j a b. apply (co_holder _ _ _ C).
Qed.

(** ** The moves of a goroutine *)

Lemma prepare_leased io checked now id d t a t' : PrepareNextAttemptLease io checked now id d t = (inr a, t') ->
  ident a /\ tb_attempts t !! at_ID a = None /\ tb_attempts t' !! at_ID a = Some a /\ at_State a = AttemptLeased /\ is_Some (tb_occurrences t !! at_OccurrenceID a).
Proof.
  unfold PrepareNextAttemptLease, prepareAttemptLease. intros E. repeat case_match; simplify_eq; bool_to_prop. cbn in *.
  split_and!; [done|done|apply lookup_insert_eq|done|by eexists].
Qed.

Lemma core_lease t t' tickets h i io checked now id d a : core_ok t tickets h -> fresh_rows t t' tickets h -> h !! i = None ->
  PrepareNextAttemptLease io checked now id d t = (inr a, t') -> core_ok t' tickets (<[i := a]> h).
Proof.
  intros C F Hi P. destruct (prepare_leased _ _ _ _ _ _ _ _ P) as (Hid & Hnew & Hrow & Hst & [o Ho]).
  assert (t' = job_step (JePrepare io checked now id None d) t) as -> by (cbn; unfold PrepareNextAttemptLease in P; by rewrite P).
  assert (C' : core_ok (job_step (JePrepare io checked now id None d) t) tickets h) by (by apply core_statement).
  assert (Open : row_open (job_step (JePrepare io checked now id None d) t) a) by (exists a; by rewrite Hst).
  assert (Other : forall b, live tickets h b -> at_OccurrenceID a = at_OccurrenceID b -> False).
  { intros b Hb E. destruct (live_row _ _ _ _ C Hb) as (Hidb & [Hr|(r & Hr & _)]); [unfold removed in Hr; rewrite <- E in Hr; congruence|].
    destruct (live_row _ _ _ _ C' Hb) as (_ & [Hr'|Ob]).
    - destruct (to_att _ (co_tables _ _ _ C') _ _ Hrow) as (_ & _ & _ & _ & [x Hx]). unfold removed in Hr'. rewrite <- E in Hr'. congruence.
    - rewrite <- (open_unique _ a b (co_tables _ _ _ C') Hid Hidb Open Ob E) in Hr. congruence. }
  assert (Live : forall b, live tickets (<[i := a]> h) b -> b = a \/ live tickets h b).
  { intros b [[j [[_ <-]|[_ Hj]]%lookup_insert_Some]|Hk]; [by left|right; left; by exists j|right; by right]. }
  split.
  - apply C'.
  - intros j b [[<- <-]|[_ Hj]]%lookup_insert_Some; [|by apply (co_held _ _ _ C' j)]. split_and!; [done|by right|].
    apply eq_None_not_Some. intros [[b st] Hb]. destruct (co_ticket _ _ _ C _ _ _ Hb) as (E & Hidb & Hr). apply (same_task a b Hid Hidb) in E.
    destruct Hr as [Hr|(r & Hr & _)]; [|congruence]. unfold removed in Hr. destruct Hid as (Ia & _), Hidb as (Ib & _). rewrite Ia, Ib in E.
    apply attempt_id_inj in E as [E _]. congruence.
  - apply (co_ticket _ _ _ C').
  - intros x y [->|Hx]%Live [->|Hy]%Live E; [done|by destruct (Other y)|by destruct (Other x)|by apply (co_one _ _ _ C)].
  - intros j k x y [[<- <-]|[_ Hj]]%lookup_insert_Some [[<- <-]|[_ Hk]]%lookup_insert_Some E; try done.
    + exfalso. destruct (co_held _ _ _ C _ _ Hk) as (Iy & _). apply (Other y); [left; by exists k|]. destruct Hid as (Ia & _), Iy as (Iy & _). rewrite Ia, Iy in E. by apply attempt_id_inj in E as [E _].
    + exfalso. destruct (co_held _ _ _ C _ _ Hj) as (Ix & _). apply (Other x); [left; by exists j|]. destruct Hid as (Ia & _), Ix as (Ix & _). rewrite Ia, Ix in E. by apply attempt_id_inj in E as [E _].
    + by apply (co_holder _ _ _ C _ _ _ _ Hj Hk).
Qed.

Lemma live_delete tickets h i a : live tickets (delete i h) a -> live tickets h a.
Proof. intros [[j [_ Hj]%lookup_delete_Some]|Hk]; [left; by exists j|by right]. Qed.

Lemma core_release t tickets h i : core_ok t tickets h -> core_ok t tickets (delete i h).
Proof.
  intros C. split.
  - apply C.
  - intros j b [_ Hj]%lookup_delete_Some. by apply (co_held _ _ _ C j).
  - apply C.
  - intros x y Hx%live_delete Hy%live_delete. by apply (co_one _ _ _ C).
  - intros j k x y [_ Hj]%lookup_delete_Some [_ Hk]%lookup_delete_Some. by apply (co_holder _ _ _ C).
Qed.

(** The engine admits the task of a held attempt. *)
Lemma core_submit t tickets h i a : core_ok t tickets h -> h !! i = Some a -> core_ok t (<[at_TaskID a := (a, TicketRunning)]> tickets) (delete i h).
Proof.
  intros C Hi. destruct (co_held _ _ _ C _ _ Hi) as (Hid & Hr & Hn).
  assert (Live : forall b, live (<[at_TaskID a := (a, TicketRunning)]> tickets) (delete i h) b -> live tickets h b).
  { intros b [[j [_ Hj]%lookup_delete_Some]|[k [[_ [= <-]]|[_ Hk]]%lookup_insert_Some]]; [left; by exists j|left; by exists i|right; by exists k]. }
  split.
  - apply C.
  - intros j b [Hj Hb]%lookup_delete_Some. destruct (co_held _ _ _ C _ _ Hb) as (Hidb & Hrb & Hnb). split_and!; [done..|].
    rewrite lookup_insert_ne; [done|]. intros E. apply (same_task a b Hid Hidb) in E. apply Hj. by eapply (co_holder _ _ _ C).
  - intros k b st [[<- [= <- <-]]|[_ Hk]]%lookup_insert_Some; [|by apply (co_ticket _ _ _ C)]. split; [done|]. split; [done|].
    destruct Hr as [Hr|(r & Hr & Ho)]; [by left|right; by exists r].
  - intros x y Hx%Live Hy%Live. by apply (co_one _ _ _ C).
  - intros j k x y [_ Hj]%lookup_delete_Some [_ Hk]%lookup_delete_Some. by apply (co_holder _ _ _ C).
Qed.

(** A ticket advances. *)
Lemma core_ticket_step t tickets h k a st st' : core_ok t tickets h -> tickets !! k = Some (a, st) -> st' <> TicketRunning ->
  (removed t a \/ exists r, tb_attempts t !! at_ID a = Some r /\ row_of st' r) -> core_ok t (<[k := (a, st')]> tickets) h.
Proof.
  intros C Hk Hn Hr. destruct (co_ticket _ _ _ C _ _ _ Hk) as (Ek & Hid & _).
  assert (Live : forall b, live (<[k := (a, st')]> tickets) h b -> live tickets h b).
  { intros b [Hb|[k' [[_ [= _ E]]|[_ Hb]]%lookup_insert_Some]]; [by left|done|right; by exists k']. }
  split.
  - apply C.
  - intros j b Hj. destruct (co_held _ _ _ C _ _ Hj) as (Hidb & Hrb & Hnb). split_and!; [done..|]. rewrite lookup_insert_ne; [done|]. intros E. congruence.
  - intros k' b x [[<- [= <- <-]]|[_ Hb]]%lookup_insert_Some; [|by apply (co_ticket _ _ _ C)]. done.
  - intros x y Hx%Live Hy%Live. by apply (co_one _ _ _ C).
  - apply (co_holder _ _ _ C).
Qed.

(** A goroutine commits the attempt it holds and lets go of it. *)
Lemma core_abort t tickets h i a io now outcome result err : core_ok t tickets h -> h !! i = Some a ->
  fresh_rows t (commit_attempt io now (at_ID a) (at_LeaseEpoch a) outcome result err None t).2 tickets h ->
  core_ok (commit_attempt io now (at_ID a) (at_LeaseEpoch a) outcome result err None t).2 tickets (delete i h).
Proof.
  intros C Hi F. destruct (co_held _ _ _ C _ _ Hi) as (Hid & _ & Hn).
  apply (core_statement t tickets (delete i h) (JeCommit io now (at_ID a) (at_LeaseEpoch a) outcome result err None)); [by apply core_release|done| |].
  - intros id Ho Hs. destruct (F id Ho Hs) as [F1 F2]. split; [intros j b [_ Hj]%lookup_delete_Some; by eapply F1|exact F2].
  - intros b Hb. apply bool_decide_eq_false. intros E. destruct Hb as [[j [Hj Hb]%lookup_delete_Some]|[k Hk]]; [apply Hj; by eapply (co_holder _ _ _ C)|].
    destruct (co_ticket _ _ _ C _ _ _ Hk) as (-> & Hidb & _). apply (same_task a b Hid Hidb) in E. congruence.
Qed.

(** ** The commit of a ticket *)

Lemma commit_statement io now a res t : exists ev, event_ok ev = true /\ (commitAttemptResult io now a res t).2 = job_step ev t /\
  (forall k, commits ev k = true -> k = at_ID a).
Proof.
  unfold commitAttemptResult. case_decide.
  - destruct (is_zero _); [by exists no_statement|].
    eexists (JeCommitDeferred io now (at_ID a) (at_LeaseEpoch a) _ _). split; [done|]. split; [reflexivity|]. intros k E. cbn in E. by apply bool_decide_eq_true in E.
  - eexists (JeCommit io now (at_ID a) (at_LeaseEpoch a) _ _ _ None). split; [done|]. split; [reflexivity|]. intros k E. cbn in E. by apply bool_decide_eq_true in E.
Qed.

Lemma commit_settles io now a res t t' : tables_ok t -> ident a -> commitAttemptResult io now a res t = (None, t') ->
  exists r, tb_attempts t' !! at_ID a = Some r /\ settled_as res r.
Proof.
  intros H Hid E. assert (Same : forall r, tb_attempts t !! at_ID a = Some r -> at_ID r = at_ID a) by (intros r Hr; by destruct (to_att _ H _ _ Hr) as (_ & -> & _)).
  unfold commitAttemptResult in E. unfold settled_as. case_decide.
  - destruct (is_zero _); [done|]. unfold CommitAttemptDeferred in E. destruct (is_zero _); [done|]. destruct io; [|done].
    destruct (tb_attempts t !! at_ID a) as [r|] eqn:Hr; [|done]. specialize (Same r eq_refl). repeat case_match; simplify_eq; bool_to_prop.
    + exists r. unfold is_deferred in *. by bool_to_prop.
    + cbn. rewrite Same, lookup_insert_eq. by eexists.
  - unfold CommitAttemptResult, commit_attempt in E. destruct io; [|done].
    destruct (tb_attempts t !! at_ID a) as [r|] eqn:Hr; [specialize (Same r eq_refl)|by destruct (attemptState _)].
    destruct (attemptState (tr_Outcome res)) eqn:Ha; try done; repeat case_match; simplify_eq; bool_to_prop;
      first [by exists r | cbn; rewrite Same, lookup_insert_eq; by eexists].
Qed.

Lemma core_commit t tickets h k a res io now : core_ok t tickets h -> tickets !! k = Some (a, TicketReturned res) ->
  fresh_rows t (commitAttemptResult io now a res t).2 tickets h -> core_ok (commitAttemptResult io now a res t).2 tickets h.
Proof.
  intros C Hk F. destruct (co_ticket _ _ _ C _ _ _ Hk) as (Ek & Hid & _). destruct (commit_statement io now a res t) as (ev & Hok & Eev & Hc). rewrite Eev in *.
  apply core_statement; [done..|]. intros b Hb. destruct (commits ev (at_ID b)) eqn:E; [|done]. apply Hc in E.
  destruct (live_row _ _ _ _ C Hb) as (Hidb & _). assert (Et : at_TaskID b = k) by (rewrite Ek; by apply same_task). destruct Hb as [[j Hj]|[k' Hk']].
  - destruct (co_held _ _ _ C _ _ Hj) as (_ & _ & Hn). congruence.
  - destruct (co_ticket _ _ _ C _ _ _ Hk') as (-> & _). congruence.
Qed.

(** ** The reachable systems *)

Definition fresh_id (y : job_system) (id : string) : bool :=
  forallb (fun kv => negb (bool_decide (at_OccurrenceID kv.2.1 = id))) (map_to_list (y_tickets y)) &&
  forallb (fun kv => negb (bool_decide (at_OccurrenceID kv.2 = id))) (map_to_list (held (y_threads y))).
(** The identifier of an occurrence that was deleted is not given to a new one while a
    goroutine or a ticket of this process still refers to it: identifiers contain the time
    of the submission, or the schedule and the slot. *)
Definition no_reuse (y y' : job_system) : bool :=
  forallb (fun kv => bool_decide (is_Some (tb_occurrences (jm_tables (y_manager y)) !! kv.1)) || fresh_id y kv.1) (map_to_list (tb_occurrences (jm_tables (y_manager y')))).

Section Reachable.
Variable retry_delay : JobRetryPolicy -> Z -> duration.
Variable zone_known : string -> bool.

(** A process takes over any tables the store may hold. *)
Definition new_system (t : job_tables) : job_system := mkJobSystem (NewManagerWithPorts t) ∅ ∅ O.
Inductive manager_reachable : job_system -> Prop :=
  | mr_new t : job_reachable t -> manager_reachable (new_system t)
  | mr_next ev y y' : manager_reachable y -> manager_step retry_delay zone_known ev y = Some y' -> no_reuse y y' = true -> manager_reachable y'.

Fixpoint manager_run (evs : list manager_event) (y : job_system) : option job_system :=
  match evs with
  | [] => Some y
  | ev :: evs =>
      match manager_step retry_delay zone_known ev y with
      | Some y' => if no_reuse y y' then manager_run evs y' else None
      | None => None
      end
  end.
Lemma manager_run_reachable evs : forall y y', manager_reachable y -> manager_run evs y = Some y' -> manager_reachable y'.
Proof.
  induction evs as [|ev evs IH]; intros y y' R E; cbn in E; [by simplify_eq|]. destruct (manager_step _ _ ev y) as [y1|] eqn:E1; [|done].
  destruct (no_reuse y y1) eqn:E2; [|done]. apply (IH y1); [by eapply mr_next|done].
Qed.

Lemma no_reuse_fresh y y' : no_reuse y y' = true ->
  fresh_rows (jm_tables (y_manager y)) (jm_tables (y_manager y')) (y_tickets y) (held (y_threads y)).
Proof.
  unfold no_reuse. rewrite forallb_forall. intros H id Hn [o Ho]. specialize (H (id, o)). cbn in H.
  rewrite bool_decide_false in H by (rewrite Hn; intros [? ?]; done). cbn in H. unfold fresh_id in H. rewrite andb_true_iff, !forallb_forall in H.
  destruct H as [H1 H2]; [by apply list_elem_of_In, elem_of_map_to_list|]. split.
  - intros i a Hi E. specialize (H2 (i, a)). cbn in H2. rewrite bool_decide_true in H2 by done. by discriminate H2; apply list_elem_of_In, elem_of_map_to_list.
  - intros k a st Hk E. specialize (H1 (k, (a, st))). cbn in H1. rewrite bool_decide_true in H1 by done. by discriminate H1; apply list_elem_of_In, elem_of_map_to_list.
Qed.

Record system_ok (y : job_system) : Prop := {
  so_core : core_ok (jm_tables (y_manager y)) (y_tickets y) (held (y_threads y));
  so_pc : forall i pc, y_threads y !! i = Some pc -> pc_ok pc;
  so_next : forall i, (y_next y <= i)%nat -> y_threads y !! i = None
}.

Lemma spawned_system_ok n pc y : holds pc = None -> pc_ok pc -> system_ok y -> system_ok (spawn_goroutines n pc y).
Proof.
  intros Hh Hp. revert y. induction n as [|n IH]; intros y [C P N]; [done|]. cbn. apply IH. split; cbn.
  - rewrite held_insert, Hh, delete_id; [done|]. unfold held. rewrite lookup_omap, N by done. done.
  - intros i p [[<- <-]|[_ Hi]]%lookup_insert_Some; [done|by eapply P].
  - intros i Hi. rewrite lookup_insert_ne by lia. apply N. lia.
Qed.

Lemma spawn_kept n pc y : y_manager (spawn_goroutines n pc y) = y_manager y /\ y_tickets (spawn_goroutines n pc y) = y_tickets y.
Proof. revert y. induction n as [|n IH]; intros y; [done|]. cbn. by destruct (IH (mkJobSystem (y_manager y) (y_tickets y) (<[y_next y := pc]> (y_threads y)) (S (y_next y)))) as [-> ->]. Qed.

Lemma manager_changed m y : system_ok y -> jm_tables m = jm_tables (y_manager y) -> system_ok (mkJobSystem m (y_tickets y) (y_threads y) (y_next y)).
Proof. intros [C P N] E. split; cbn; [by rewrite E|done|done]. Qed.

Lemma call_ok pc m y y' : system_ok y -> call pc m y = Some y' -> holds pc = None -> pc_ok pc -> jm_tables m = jm_tables (y_manager y) -> system_ok y'.
Proof. intros H Hc Hh Hp E. unfold call in Hc. apply (inj Some) in Hc as <-. apply spawned_system_ok; [done|done|]. by apply manager_changed. Qed.

Lemma put_ticket_ok k a st st' y : system_ok y -> y_tickets y !! k = Some (a, st) -> st' <> TicketRunning ->
  (removed (jm_tables (y_manager y)) a \/ exists r, tb_attempts (jm_tables (y_manager y)) !! at_ID a = Some r /\ row_of st' r) -> system_ok (put_ticket k a st' y).
Proof. intros [C P N] Hk Hn Hr. split; [by eapply core_ticket_step|done|done]. Qed.

Lemma thread_ok i a y pc e : system_ok y -> y_threads y !! i = Some pc -> thread_step retry_delay zone_known a (settled_tickets y) pc (y_manager y) = Some e ->
  no_reuse y (apply_effect i e y) = true -> system_ok (apply_effect i e y).
Proof.
  intros [C P N] Hi E F%no_reuse_fresh. pose proof (thread_pc_ok _ _ _ _ _ _ _ E) as Hp'. apply thread_move in E; [|by eapply P].
  assert (Htab : jm_tables (y_manager (apply_effect i e y)) = jm_tables (ef_manager e)).
  { unfold apply_effect. destruct (ef_ticket e); by rewrite (proj1 (spawn_kept _ _ _)). }
  rewrite Htab in F. clear Htab. unfold apply_effect. apply spawned_system_ok; [done|done|].
  assert (Hin : forall b, holds pc = Some b -> held (y_threads y) !! i = Some b) by (intros b Hb; apply held_lookup; eauto).
  assert (Hout : holds pc = None -> held (y_threads y) !! i = None) by (intros Hb; unfold held; by rewrite lookup_omap, Hi).
  assert (Thr : forall j p, <[i := ef_pc e]> (y_threads y) !! j = Some p -> pc_ok p) by (intros j p [[<- <-]|[_ Hj]]%lookup_insert_Some; [done|by eapply P]).
  assert (Nxt : forall j, (y_next y <= j)%nat -> <[i := ef_pc e]> (y_threads y) !! j = None).
  { intros j Hj. rewrite lookup_insert_ne; [by apply N|]. intros <-. rewrite N in Hi by done. done. }
  destruct E as [ev Hok Hc Ht Hh Hk|id d b Hh Hh' Hk Ht|b Hh Hh' Hk Ht|b outcome result err Hh Hh' Hk Ht]; rewrite Hk; (split; [|exact Thr|exact Nxt]); cbn.
  - rewrite Ht in *. rewrite held_insert, Hh. destruct (holds pc) as [b|] eqn:Eh; [rewrite insert_id by auto|rewrite delete_id by auto]; by apply core_statement.
  - rewrite held_insert, Hh'. eapply core_lease; [exact C|exact F|by apply Hout|exact Ht].
  - rewrite Ht, held_insert, Hh'. by apply core_submit; [|apply Hin].
  - rewrite Ht in *. rewrite held_insert, Hh'. by apply core_abort; [|apply Hin|].
Qed.

Lemma start_ok io y y' : system_ok y -> Start io y = Some y' -> system_ok y'.
Proof.
  intros H. unfold Start. destruct (jm_started _); [by intros [= <-]|]. destruct (ListDefinitions _ _) as [|l]; [by intros [= <-]|].
  destruct (adopt_definitions _ _) as [[] defs]; cbn [negb]; [intros E; by apply (call_ok _ _ _ _ H E)|]. intros [= <-]. by apply manager_changed.
Qed.

Lemma wake_committed_tables a res m : jm_tables (wake_committed a res m) = jm_tables m.
Proof. unfold wake_committed. by repeat case_match. Qed.

Lemma commit_ok k io ack now y y' : system_ok y -> manager_step retry_delay zone_known (EvCommit k io ack now) y = Some y' -> no_reuse y y' = true -> system_ok y'.
Proof.
  intros H E F. cbn [manager_step] in E. destruct (y_tickets y !! k) as [[a [|res|res]]|] eqn:Hk; try done.
  pose proof (core_commit _ _ _ k a res io now (so_core _ H) Hk) as C. apply no_reuse_fresh in F.
  destruct (commitAttemptResult io now a res _) as [[x|] t] eqn:Ec; cbn [snd] in C.
  - apply (inj Some) in E as <-. split; [by apply C|apply H|apply H].
  - assert (S1 : core_ok t (y_tickets y) (held (y_threads y))).
    { apply C. destruct ack; apply (inj Some) in E as <-; cbn [y_manager put_ticket] in F; rewrite wake_committed_tables in F; exact F. }
    assert (H1 : system_ok (mkJobSystem (wake_committed a res (with_tables t (y_manager y))) (y_tickets y) (y_threads y) (y_next y))).
    { split; [cbn; by rewrite wake_committed_tables|apply H|apply H]. }
    destruct ack; apply (inj Some) in E as <-; [|done]. eapply put_ticket_ok; [done|exact Hk|done|]. cbn. rewrite wake_committed_tables. right.
    destruct (co_ticket _ _ _ (so_core _ H) _ _ _ Hk) as (_ & Hid & _).
    destruct (commit_settles io now a res _ t (co_tables _ _ _ (so_core _ H)) Hid Ec) as (r & Hr & Hs). exists r. split; [done|by right].
Qed.

Lemma system_step_ok ev y y' : system_ok y -> manager_step retry_delay zone_known ev y = Some y' -> no_reuse y y' = true -> system_ok y'.
Proof.
  intros H E F. pose proof (fun k a st => co_ticket _ _ _ (so_core _ H) k a st) as T.
  destruct ev; try (cbn [manager_step] in E; by apply (call_ok _ _ _ _ H E));
    try (cbn [manager_step] in E; repeat case_match; first [by apply (call_ok _ _ _ _ H E) | apply (inj Some) in E as <-; first [exact H | by apply manager_changed] | discriminate E]).
  - cbn [manager_step] in E. destruct (y_threads y !! i) as [pc|] eqn:Hi; [|done]. apply fmap_Some in E as (e & E & ->). by apply (thread_ok i a y pc).
  - by apply (start_ok io y).
  - cbn [manager_step] in E. destruct (y_tickets y !! k) as [[a [|r|r]]|] eqn:Hk; try done. apply (inj Some) in E as <-. eapply put_ticket_ok; [done|exact Hk|done|].
    destruct (T _ _ _ Hk) as (_ & _ & [Hr|(r & Hr & _)]); [by left|right; by exists r].
  - cbn [manager_step] in E. destruct (y_tickets y !! k) as [[a [|r|r]]|] eqn:Hk; try done. apply (inj Some) in E as <-. eapply put_ticket_ok; [done|exact Hk|done|].
    destruct (T _ _ _ Hk) as (_ & _ & [Hr|(r & Hr & _)]); [by left|right; exists r; split; [done|by left; right]].
  - by apply (commit_ok k io ack now y).
  - cbn [manager_step] in E. destruct (y_tickets y !! k) as [[a [|r|r]]|] eqn:Hk; try done. apply (inj Some) in E as <-. eapply put_ticket_ok; [done|exact Hk|done|].
    destruct (T _ _ _ Hk) as (_ & _ & [Hr|(r0 & Hr & _)]); [by left|right; exists r0; split; [done|by left; left]].
  - cbn [manager_step] in E. apply (inj Some) in E as <-. split; cbn; [|done|done].
    split; [apply (co_tables _ _ _ (so_core _ H))|done|done|intros x y0 [[i Hi]|[k Hk]]; [by rewrite held_lookup in Hi; destruct Hi as (? & ? & _)|done]|].
    intros i j x y0 Hi. by apply held_lookup in Hi as (? & ? & _).
Qed.

Lemma reachable_system_ok y : manager_reachable y -> system_ok y.
Proof.
  induction 1 as [t R|ev y y' R IH E F]; [|by eapply system_step_ok]. split; [|done|done].
  split; [by apply job_reachable_ok|done|done|intros x z [[i Hi]|[k Hk]]; [by apply held_lookup in Hi as (? & ? & _)|done]|].
  intros i j x z Hi. by apply held_lookup in Hi as (? & ? & _).
Qed.
End Reachable.
