(* ===== verification/JobWorkers.v ===== *)
(** * The workers of the job manager

    The counters of [JobManager] against its goroutines: a waiting item of the retry queue
    has a worker, and [done] is closed when every worker and the coordinator have left. *)

From S2P Require Import Prelude.
From S2P Require Import JobStore.
From S2P Require Import JobRetry.
From S2P Require Import JobManager.

(** ** Roles *)

Inductive role := RetryWorker | Coordinator | Leaving | Caller.
Definition role_of (pc : job_pc) : role :=
  match pc with
  | RlSelect | RlTaken _ | RlCounted _ | WaEnter _ | WaWait _ _ | WaWaited _ _ _ | WaDecide _ _ _ | WaFinalize _ _ | WaDefer _ _ | WaUntrack _ _
  | WaSignal _ | WaDrive _ _ | WaDone | RlLeave | Driving ByMonitor _ _ => RetryWorker
  | CoSelect | ReEnter _ | ReList _ | ReScan _ _ | ReFinalize _ _ _ _ | ReUntrack _ _ _ | ObList _ | ObSend _ _ _ | ObMark _ _ _ _ | ObSignal
  | Driving (ByRecovery _ _) _ _ => Coordinator
  | RlGone => Leaving
  | _ => Caller
  end.
Definition is_worker (pc : job_pc) : Z := match role_of pc with RetryWorker => 1 | _ => 0 end.
Definition is_coordinator (pc : job_pc) : Z := match role_of pc with Coordinator => 1 | _ => 0 end.
Definition is_joined (pc : job_pc) : Z := match role_of pc with Caller => 0 | _ => 1 end.
(** The item is out of the queue and still counted. *)
Definition is_taking (pc : job_pc) : Z := match pc with RlTaken _ | RlCounted _ => 1 | _ => 0 end.

Lemma roles pc : 0 <= is_worker pc /\ 0 <= is_coordinator pc /\ 0 <= is_taking pc /\ is_worker pc + is_coordinator pc <= is_joined pc /\ is_joined pc <= 1 /\
  is_taking pc <= is_worker pc.
Proof. unfold is_worker, is_coordinator, is_joined, is_taking. destruct (role_of pc) eqn:E; destruct pc; try done; cbn in *; try lia; destruct who; done. Qed.

(** ** The steps *)

Section Steps.
Variable retry_delay : JobRetryPolicy -> Z -> duration.
Variable zone_known : string -> bool.

(** The fields the workers depend on. *)
Definition worker_fields (m : job_manager) : Z * Z * Z * list retryItem * bool * bool * bool :=
  (jm_retryRemaining m, jm_retryQueued m, jm_workersRemaining m, jm_retryQueue m, jm_started m, jm_retryStopping m, jm_done m).

Lemma signal_fields m : worker_fields (signalRecovery m) = worker_fields m /\ worker_fields (signalOutbox m) = worker_fields m.
Proof. unfold signalRecovery, signalOutbox. destruct (jm_started m) eqn:E; unfold worker_fields; cbn; by rewrite ?E. Qed.
Lemma untrack_fields id m : worker_fields (untrack id m).2 = worker_fields m.
Proof. unfold untrack. by destruct (jm_tracked m !! id) as [tr|]; [destruct (tro_timingOwned tr)|]. Qed.
Lemma untrack_or_wake_fields o m : worker_fields (untrackOrWakeTimingOccurrence o m) = worker_fields m.
Proof.
  unfold untrackOrWakeTimingOccurrence. pose proof (untrack_fields (oc_ID o) m) as H. destruct (untrack _ m) as [w m']. cbn in H. by destruct w, (timingOwnedOccurrence o).
Qed.

(** What a step of [pc] owes: [m] is the manager before, [e] the effect. *)
Record counted (pc : job_pc) (m : job_manager) (e : job_effect) : Prop := {
  ct_remaining : jm_retryRemaining (ef_manager e) = jm_retryRemaining m - is_worker pc + is_worker (ef_pc e) + Z.of_nat (ef_spawned e);
  ct_queued : jm_retryQueued (ef_manager e) - Z.of_nat (length (jm_retryQueue (ef_manager e)))
            = jm_retryQueued m - Z.of_nat (length (jm_retryQueue m)) - is_taking pc + is_taking (ef_pc e);
  ct_workers : jm_workersRemaining (ef_manager e) = jm_workersRemaining m - is_joined pc + is_joined (ef_pc e) + Z.of_nat (ef_spawned e);
  ct_joined : is_joined (ef_pc e) <= is_joined pc;
  ct_coordinator : is_coordinator (ef_pc e) = is_coordinator pc \/ jm_retryStopping m = true;
  ct_started : jm_started (ef_manager e) = jm_started m;
  ct_unstarted : jm_started m = false -> ef_spawned e = O /\ (length (jm_retryQueue (ef_manager e)) <= length (jm_retryQueue m))%nat;
  ct_stopping : jm_retryStopping m = true -> jm_retryStopping (ef_manager e) = true /\ ef_spawned e = O;
  ct_served : jm_started m = true -> jm_retryStopping (ef_manager e) = false -> 0 < jm_retryQueued (ef_manager e) ->
    (jm_retryQueued (ef_manager e) <= jm_retryQueued m /\ jm_retryRemaining (ef_manager e) = jm_retryRemaining m) \/ 0 < jm_retryRemaining (ef_manager e);
  ct_bound : jm_retryRemaining m <= retryWorkers -> jm_retryRemaining (ef_manager e) <= retryWorkers;
  ct_done_kept : jm_done m = true -> jm_done (ef_manager e) = true;
  ct_done_new : jm_done (ef_manager e) = true -> jm_done m = true \/ (jm_workersRemaining (ef_manager e) = 0 /\ is_joined pc = 1);
  ct_last : 0 <= jm_workersRemaining m -> jm_workersRemaining (ef_manager e) = 0 -> jm_workersRemaining m = 0 \/ jm_done (ef_manager e) = true
}.

Lemma counted_same pc m e : worker_fields (ef_manager e) = worker_fields m -> ef_spawned e = O -> role_of (ef_pc e) = role_of pc -> is_taking (ef_pc e) = is_taking pc ->
  counted pc m e.
Proof.
  unfold worker_fields. intros E S R T. injection E as E1 E2 E3 E4 E5 E6 E7.
  assert (is_worker (ef_pc e) = is_worker pc /\ is_coordinator (ef_pc e) = is_coordinator pc /\ is_joined (ef_pc e) = is_joined pc) as (W & C & J)
    by (unfold is_worker, is_coordinator, is_joined; by rewrite R).
  split; rewrite ?E1, ?E2, ?E3, ?E4, ?E5, ?E6, ?E7, ?S, ?W, ?C, ?J, ?T; try lia; try done; auto.
Qed.

Lemma role_after_drive who d ok pc : role_of (after_drive who d ok) = role_of (Driving who d pc) /\ is_taking (after_drive who d ok) = 0.
Proof. by destruct who, ok. Qed.
Lemma role_end_pass drain : role_of (end_pass drain) = Coordinator /\ is_taking (end_pass drain) = 0.
Proof. by destruct drain. Qed.
Lemma role_next_send batch full l : role_of (next_send batch full l) = Coordinator /\ is_taking (next_send batch full l) = 0.
Proof. by destruct l, full. Qed.

Lemma ensure_spec x y m m' n : ensureRetryWorkersLocked x y m = (m', n) ->
  jm_retryRemaining m' = jm_retryRemaining m + Z.of_nat n /\ jm_workersRemaining m' = jm_workersRemaining m + Z.of_nat n /\
  jm_retryQueued m' = jm_retryQueued m /\ jm_retryQueue m' = jm_retryQueue m /\ jm_started m' = jm_started m /\ jm_retryStopping m' = jm_retryStopping m /\ jm_done m' = jm_done m /\
  (jm_retryStopping m = true \/ jm_started m = false -> n = O) /\ (jm_started m = true -> jm_retryStopping m = false -> 0 < jm_retryRemaining m') /\
  (jm_retryRemaining m <= retryWorkers -> jm_retryRemaining m' <= retryWorkers).
Proof.
  unfold ensureRetryWorkersLocked. destruct (jm_retryStopping m) eqn:Es; cbn [orb]; [intros [= <- <-]; split_and!; try done; lia|].
  destruct (jm_started m) eqn:Et; cbn [negb]; [|intros [= <- <-]; split_and!; try done; lia].
  set (target := if retryWorkers <? _ then _ else _). assert (1 <= target <= retryWorkers) by (unfold target, retryWorkers; repeat case_match; bool_to_prop; lia).
  intros [= <- <-]. cbn. split_and!; try done; lia.
Qed.

(** A step that keeps the counters and the role. *)
Ltac same_step := apply counted_same; cbn [ef_manager ef_pc ef_spawned];
  [rewrite ?untrack_fields, ?untrack_or_wake_fields, ?(proj1 (signal_fields _)), ?(proj2 (signal_fields _)); reflexivity
  |reflexivity
  |rewrite ?(proj1 (role_end_pass _)), ?(proj1 (role_next_send _ _ _)); try reflexivity; apply role_after_drive
  |rewrite ?(proj2 (role_end_pass _)), ?(proj2 (role_next_send _ _ _)); try reflexivity; apply (role_after_drive _ _ _ DrLease)].
Ltac effect_of E := apply (inj Some) in E as <-.

Lemma drive_counted a who d pc m e : drive_step a who d pc m = Some e -> counted (Driving who d pc) m e.
Proof.
  unfold drive_step, goto, goto_spawn. destruct pc; intros E.
  - destruct (PrepareNextAttemptLease _ _ _ _ _ _) as [[x|attempt] t]; effect_of E; same_step.
  - effect_of E. same_step.
  - destruct (an_error a); effect_of E; same_step.
  - effect_of E. same_step.
  - effect_of E. same_step.
  - effect_of E. same_step.
  - unfold enqueueRetry in E. destruct (jm_retryStopping m || negb (jm_started m)) eqn:Es; [effect_of E; same_step|].
    destruct (_ <? _)%nat; [|effect_of E; same_step]. apply orb_false_iff in Es as [Es Et%negb_false_iff].
    destruct (ensureRetryWorkersLocked _ _ _) as [m' n] eqn:En. effect_of E. apply ensure_spec in En as (R & W & Q & L & St & Sp & D & _ & P & B).
    destruct (role_after_drive who d true (DrEnqueue a0)) as [Er Ek].
    assert (is_worker (after_drive who d true) = is_worker (Driving who d (DrEnqueue a0)) /\ is_coordinator (after_drive who d true) = is_coordinator (Driving who d (DrEnqueue a0)) /\
      is_joined (after_drive who d true) = is_joined (Driving who d (DrEnqueue a0))) as (W' & C' & J') by (unfold is_worker, is_coordinator, is_joined; by rewrite Er).
    cbn in *. split; cbn [ef_manager ef_pc ef_spawned fst snd]; rewrite ?R, ?W, ?Q, ?L, ?St, ?Sp, ?D, ?W', ?C', ?J', ?Ek; cbn [is_taking]; try lia; try congruence; auto.
    + rewrite length_app. cbn. lia.
    + intros _ _ _. right. rewrite <- R. by apply P.
  - effect_of E. same_step.
Qed.

Ltac count_step := split; cbn; repeat match goal with E : _ = _ |- _ => rewrite E; clear E end; cbn; try lia; try done; auto; try (intros _ _ _; left; split; lia); try (intros; left; lia).
Ltac same_cases E := repeat case_match; simplify_eq; same_step.

Lemma retry_counted a tickets pc m e : retry_step retry_delay a tickets pc m = Some e -> counted pc m e.
Proof.
  unfold retry_step, goto, goto_spawn. destruct pc; try done; intros E.
  - destruct (an_choice a) as [|[|n]].
    + destruct (jm_retryStopping m); [|done]. effect_of E. same_step.
    + destruct (jm_retryQueue m) as [|item q] eqn:Eq; [done|]. effect_of E. count_step.
    + effect_of E. destruct (jm_retryQueued m =? 0); same_step.
  - effect_of E. same_step.
  - effect_of E. count_step.
  - effect_of E. destruct (jm_tracked m !! _); same_step.
  - same_cases E.
  - same_cases E.
  - effect_of E. destruct (watchAttempt _ _ _ _); same_step.
  - destruct (FinalizeOccurrence _ _ _ _ _) as [[x|] t]; effect_of E; same_step.
  - destruct (DeferOccurrence _ _ _ _ _) as [[x|] t]; effect_of E; same_step.
  - effect_of E. destruct recover; same_step.
  - effect_of E. destruct untrack; same_step.
  - effect_of E. destruct (jm_accepting m); same_step.
  - effect_of E. same_step.
  - destruct (retryWorkerDone _ _ m) as [m' n] eqn:Ew. effect_of E. unfold retryWorkerDone in Ew.
    destruct (negb (jm_retryStopping _) && _) eqn:Es.
    + apply ensure_spec in Ew as (R & W & Q & L & St & Sp & D & Z0 & P & B). cbn in *. apply andb_true_iff in Es as [Es%negb_true_iff Hq].
      split; cbn; rewrite ?R, ?W, ?Q, ?L, ?St, ?Sp, ?D; try lia; try congruence; auto.
      intros ? ? ?. right. rewrite <- R. by apply P.
    + injection Ew as <- <-. cbn in Es. split; cbn; try lia; try done; auto.
      intros _ Hs Hq. rewrite Hs in Es. cbn in Es. apply Z.ltb_ge in Es. lia.
  - effect_of E. unfold workerDone. destruct (_ =? 0) eqn:Ez; [apply Z.eqb_eq in Ez|apply Z.eqb_neq in Ez]; cbn in Ez; count_step.
Qed.

Lemma coordinator_counted a pc m e : coordinator_step a pc m = Some e -> counted pc m e.
Proof.
  unfold coordinator_step, goto. destruct pc; try done; intros E.
  - destruct (an_choice a) as [|[|[|[|n]]]].
    + destruct (jm_retryStopping m) eqn:Es; [|done]. effect_of E. count_step.
    + destruct (jm_recoveryWake m); [|done]. effect_of E. same_step.
    + destruct (jm_outboxWake m); [|done]. effect_of E. same_step.
    + effect_of E. same_step.
    + effect_of E. same_step.
  - effect_of E. destruct (jm_accepting m); same_step.
  - destruct (ListRecoveryCandidates _ _ _); effect_of E; same_step.
  - destruct rest as [|[o summary] rest]; [effect_of E; same_step|]. destruct (jm_definitions m !! _); effect_of E; repeat case_match; same_step.
  - destruct (FinalizeOccurrence _ _ _ _ _) as [[x|] t]; effect_of E; same_step.
  - effect_of E. same_step.
  - same_cases E.
  - destruct events; [done|]. effect_of E. case_match; same_step.
  - destruct (MarkOutboxDelivered _ _ _) as [[x|] t]; effect_of E; same_step.
  - effect_of E. same_step.
Qed.

Lemma caller_counted a pc m e :
  submit_step a pc m = Some e \/ schedules_step zone_known a pc m = Some e \/ registry_step zone_known a pc m = Some e \/ cancel_step a pc m = Some e -> counted pc m e.
Proof.
  unfold submit_step, schedules_step, registry_step, cancel_step, goto. intros [E|[E|[E|E]]]; destruct pc; try done; same_cases E.
Qed.

Lemma stop_counted a pc m e : stop_step a pc m = Some e -> counted pc m e.
Proof.
  unfold stop_step, goto. destruct pc; try done; intros E; [effect_of E; same_step| |same_cases E].
  effect_of E. destruct (jm_stopOnce m); [same_step|]. count_step.
Qed.

Lemma thread_counted a tickets pc m e : thread_step retry_delay zone_known a tickets pc m = Some e -> counted pc m e.
Proof.
  destruct pc; cbn [thread_step]; intros E;
    first [by apply (caller_counted a); auto | by apply (drive_counted a) | by apply (retry_counted a tickets) | by apply (coordinator_counted a) | by apply (stop_counted a) | done].
Qed.
End Steps.

(** ** The system *)

Lemma msum_le {V} (f g : V -> Z) (m : gmap nat V) : (forall v, f v <= g v) -> msum f m <= msum g m.
Proof. intros H. induction m as [|k v m Hk IH] using map_ind; [by rewrite !msum_empty|]. rewrite !msum_insert_fresh by done. specialize (H v). lia. Qed.

Lemma spawn_sum f n pc y : (forall i, (y_next y <= i)%nat -> y_threads y !! i = None) ->
  msum f (y_threads (spawn_goroutines n pc y)) = msum f (y_threads y) + Z.of_nat n * f pc /\ (forall i, (y_next (spawn_goroutines n pc y) <= i)%nat -> y_threads (spawn_goroutines n pc y) !! i = None) /\
  y_manager (spawn_goroutines n pc y) = y_manager y.
Proof.
  revert y. induction n as [|n IH]; intros y H; [split_and!; [cbn; lia|done|done]|]. cbn [spawn_goroutines]. edestruct (IH (mkJobSystem (y_manager y) (y_tickets y) (<[y_next y := pc]> (y_threads y)) (S (y_next y)))) as (S1 & S2 & S3).
  - cbn. intros i Hi. rewrite lookup_insert_ne by lia. apply H. lia.
  - rewrite S1, S3. cbn. rewrite msum_insert_fresh by (by apply H). split_and!; [lia|done|done].
Qed.

Record workers_ok (y : job_system) : Prop := {
  wo_remaining : jm_retryRemaining (y_manager y) = msum is_worker (y_threads y);
  wo_queued : jm_retryQueued (y_manager y) = Z.of_nat (length (jm_retryQueue (y_manager y))) + msum is_taking (y_threads y);
  wo_workers : jm_workersRemaining (y_manager y) = msum is_joined (y_threads y);
  wo_before : jm_started (y_manager y) = false -> msum is_joined (y_threads y) = 0 /\ jm_retryQueue (y_manager y) = [] /\ jm_done (y_manager y) = false;
  wo_coordinator : jm_started (y_manager y) = true -> jm_retryStopping (y_manager y) = false -> 1 <= msum is_coordinator (y_threads y);
  wo_served : jm_started (y_manager y) = true -> jm_retryStopping (y_manager y) = false -> 0 < jm_retryQueued (y_manager y) -> 0 < jm_retryRemaining (y_manager y);
  wo_bound : jm_retryRemaining (y_manager y) <= retryWorkers;
  wo_done : jm_done (y_manager y) = true -> jm_retryStopping (y_manager y) = true /\ jm_workersRemaining (y_manager y) = 0;
  wo_last : jm_started (y_manager y) = true -> jm_workersRemaining (y_manager y) = 0 -> jm_done (y_manager y) = true;
  wo_next : forall i, (y_next y <= i)%nat -> y_threads y !! i = None
}.

Lemma joined_nonneg (th : gmap nat job_pc) : 0 <= msum is_joined th /\ msum is_coordinator th <= msum is_joined th /\ msum is_worker th <= msum is_joined th /\
  0 <= msum is_taking th /\ msum is_taking th <= msum is_worker th /\ 0 <= msum is_coordinator th.
Proof. split_and!; try (apply msum_nonneg; intros i pc _); try (apply msum_le; intros pc); pose proof (roles pc); lia. Qed.

Lemma effect_workers pc i e y : workers_ok y -> y_threads y !! i = Some pc -> counted pc (y_manager y) e -> workers_ok (apply_effect i e y).
Proof.
  intros W Hi C. unfold apply_effect. set (y1 := match ef_ticket e with Some a => _ | None => _ end).
  assert (y_manager y1 = ef_manager e /\ y_threads y1 = <[i := ef_pc e]> (y_threads y) /\ y_next y1 = y_next y) as (Em & Et & En) by (unfold y1; by destruct (ef_ticket e)).
  assert (N1 : forall j, (y_next y1 <= j)%nat -> y_threads y1 !! j = None).
  { rewrite Et, En. intros j Hj. rewrite lookup_insert_ne; [by apply (wo_next _ W)|]. intros <-. rewrite (wo_next _ W) in Hi by done. done. }
  assert (Sum : forall f, msum f (y_threads (spawn_goroutines (ef_spawned e) RlSelect y1)) = msum f (y_threads y) - f pc + f (ef_pc e) + Z.of_nat (ef_spawned e) * f RlSelect).
  { intros f. rewrite (proj1 (spawn_sum f _ _ _ N1)), Et, (msum_insert f _ i _ pc Hi). lia. }
  destruct (spawn_sum is_worker (ef_spawned e) RlSelect y1 N1) as (_ & N2 & Em2). rewrite Em in Em2.
  pose proof (joined_nonneg (y_threads y)) as (J0 & J1 & J2 & J3 & J4 & J5).
  pose proof (joined_nonneg (y_threads (spawn_goroutines (ef_spawned e) RlSelect y1))) as (K0 & K1 & K2 & K3 & K4 & K5).
  pose proof (msum_lookup_le is_joined _ _ _ (fun _ v _ => ltac:(pose proof (roles v); lia)) Hi) as Lj.
  pose proof (roles pc) as Rp. pose proof (roles (ef_pc e)) as Re. destruct W as [W1 W2 W3 W4 W5 W6 W7 W8 W9 W10], C as [C1 C2 C3 C4 C5 C6 C7 C8 C9 C10 C11 C12 C13].
  assert (Jl : jm_workersRemaining (ef_manager e) = msum is_joined (y_threads (spawn_goroutines (ef_spawned e) RlSelect y1))) by (rewrite Sum, C3, W3; cbn; lia).
  split; rewrite ?Em2; [rewrite Sum, C1, W1; cbn; lia|rewrite Sum; cbn; lia|exact Jl| | | | | | |exact N2].
  - intros Hs. rewrite C6 in Hs. destruct (W4 Hs) as (A & B & D), (C7 Hs) as [Z1 Z2]. rewrite Sum, Z1, A. rewrite B in Z2. split_and!; [lia|by apply length_zero_iff_nil; cbn in Z2; lia|].
    destruct (jm_done (ef_manager e)); [|done]. destruct C12 as [?|[_ ?]]; [done|congruence|lia].
  - intros Hs Hp. rewrite C6 in Hs. destruct (jm_retryStopping (y_manager y)) eqn:Sm; [destruct (C8 eq_refl); congruence|].
    destruct C5 as [C5|?]; [|done]. rewrite Sum, C5. specialize (W5 Hs eq_refl). cbn. lia.
  - intros Hs Hp Hq. rewrite C6 in Hs. destruct (jm_retryStopping (y_manager y)) eqn:Sm; [destruct (C8 eq_refl); congruence|].
    destruct (C9 Hs Hp Hq) as [[Q1 Q2]|?]; [|done]. rewrite Q2. apply W6; [done|done|lia].
  - auto.
  - intros Hd. destruct (C12 Hd) as [Hd'|[Hw Hj]].
    + destruct (W8 Hd') as [S1 S2], (C8 (proj1 (W8 Hd'))) as [S3 S4]. split; [done|]. rewrite Jl, Sum, S4. rewrite W3 in S2. lia.
    + split; [|done]. destruct (jm_retryStopping (ef_manager e)) eqn:Sp; [done|]. destruct (jm_retryStopping (y_manager y)) eqn:Sm; [destruct (C8 eq_refl); congruence|].
      destruct (jm_started (y_manager y)) eqn:St; [|destruct (W4 eq_refl); lia]. specialize (W5 eq_refl eq_refl). destruct C5 as [C5|?]; [|done].
      pose proof (Sum is_coordinator) as Sc. change (is_coordinator RlSelect) with 0 in Sc. lia.
  - intros Hs Hw. rewrite C6 in Hs. destruct C13 as [?|?]; [lia|done|apply C11; auto|done].
Qed.

Lemma fields_workers m tickets y : workers_ok y -> worker_fields m = worker_fields (y_manager y) -> workers_ok (mkJobSystem m tickets (y_threads y) (y_next y)).
Proof. unfold worker_fields. intros [] E. injection E as E1 E2 E3 E4 E5 E6 E7. split; cbn; rewrite ?E1, ?E2, ?E3, ?E4, ?E5, ?E6, ?E7; done. Qed.

Lemma caller_workers n pc y : workers_ok y -> role_of pc = Caller -> is_taking pc = 0 -> workers_ok (spawn_goroutines n pc y).
Proof.
  intros W Hr Ht. pose proof (fun f => proj1 (spawn_sum f n pc y (wo_next _ W))) as Sum. destruct (spawn_sum is_worker n pc y (wo_next _ W)) as (_ & N & Em).
  assert (is_worker pc = 0 /\ is_coordinator pc = 0 /\ is_joined pc = 0) as (Z1 & Z2 & Z3) by (unfold is_worker, is_coordinator, is_joined; by rewrite Hr).
  destruct W. split; rewrite ?Em, ?Sum, ?Z1, ?Z2, ?Z3, ?Ht, ?Z.mul_0_r, ?Z.add_0_r; done.
Qed.

Lemma call_workers pc m y y' : workers_ok y -> call pc m y = Some y' -> role_of pc = Caller -> is_taking pc = 0 -> worker_fields m = worker_fields (y_manager y) -> workers_ok y'.
Proof. intros W Hc Hr Ht E. unfold call in Hc. apply (inj Some) in Hc as <-. apply caller_workers; [by apply fields_workers|done|done]. Qed.

Lemma start_workers io y y' : workers_ok y -> Start io y = Some y' -> workers_ok y'.
Proof.
  intros W. unfold Start. destruct (jm_started (y_manager y)) eqn:Hs; [by intros [= <-]|]. destruct (ListDefinitions _ _) as [|l]; [by intros [= <-]|].
  destruct (adopt_definitions _ _) as [[] defs]; cbn [negb]; intros E; [|apply (inj Some) in E as <-; by apply fields_workers].
  unfold call in E. apply (inj Some) in E as <-. destruct (wo_before _ W Hs) as (A & B & D). pose proof (joined_nonneg (y_threads y)) as J.
  pose proof (fun f m => proj1 (spawn_sum f 1 CoSelect (mkJobSystem m (y_tickets y) (y_threads y) (y_next y)) (wo_next _ W))) as Sum. cbn [y_threads] in Sum.
  match goal with |- workers_ok (spawn_goroutines 1 CoSelect (mkJobSystem ?m _ _ _)) => destruct (spawn_sum is_worker 1 CoSelect (mkJobSystem m (y_tickets y) (y_threads y) (y_next y)) (wo_next _ W)) as (_ & N & Em) end.
  cbn [y_manager] in Em. destruct W as [W1 W2 W3 W4 W5 W6 W7 W8 W9 W10].
  split; rewrite ?Em, ?Sum; [| | | | | | | | |exact N]; cbn; try lia; try done.
  - intros _ _ Hq. rewrite W2, B in Hq. cbn in Hq. lia.
  - by rewrite D.
Qed.

Lemma step_workers retry_delay zone_known ev y y' : workers_ok y -> manager_step retry_delay zone_known ev y = Some y' -> workers_ok y'.
Proof.
  intros W E. destruct ev; try (cbn [manager_step] in E; by apply (call_workers _ _ _ _ W E));
    try (cbn [manager_step] in E; repeat case_match; first [by apply (call_workers _ _ _ _ W E) | apply (inj Some) in E as <-; first [exact W | by apply fields_workers] | discriminate E]).
  - cbn [manager_step] in E. destruct (y_threads y !! i) as [pc|] eqn:Hi; [|done]. apply fmap_Some in E as (e & E & ->). eapply effect_workers; [done|exact Hi|by eapply thread_counted].
  - by apply (start_workers io y).
  - cbn [manager_step] in E. destruct (y_tickets y !! k) as [[a [|res|res]]|]; try done.
    assert (Wk : forall t, worker_fields (wake_committed a res (with_tables t (y_manager y))) = worker_fields (y_manager y)) by (intros t; unfold wake_committed; by repeat case_match).
    destruct (commitAttemptResult _ _ _ _ _) as [[x|] t]; [|destruct ack]; apply (inj Some) in E as <-; unfold put_ticket; cbn; by apply fields_workers.
  - cbn [manager_step] in E. apply (inj Some) in E as <-. split; cbn; try done.
Qed.
