(* ===== verification/JobManagerTheorems.v ===== *)
(** * What the job manager promises

    The properties of every interleaving of submissions, retry workers, the coordinator,
    schedule rounds, cancellations, commits of the engine and restarts of the process, and
    the executions that show where the manager loses sight of an occurrence. *)

From S2P Require Import Prelude.
From S2P Require Import Execution.
From S2P Require Import Tasks.
From S2P Require Import JobStore.
From S2P Require Import JobInvariant.
From S2P Require Import JobSteps.
From S2P Require Import JobTheorems.
From S2P Require Import JobRetry.
From S2P Require Import JobManager.
From S2P Require Import JobSystem.
From S2P Require Import JobWorkers.

Lemma reachable_workers_ok rd zk y : manager_reachable rd zk y -> workers_ok y.
Proof. induction 1 as [t R|ev y y' R IH E F]; [by split|by eapply step_workers]. Qed.

Lemma worker_exists f (th : gmap nat job_pc) : (forall pc, f pc = 0 \/ f pc = 1) -> 0 < msum f th -> exists i pc, th !! i = Some pc /\ f pc = 1.
Proof.
  intros Hf. induction th as [|i pc th Hi IH] using map_ind; [by rewrite msum_empty|]. rewrite msum_insert_fresh by done. intros Hs.
  destruct (Hf pc) as [E|E]; [|exists i, pc; by rewrite lookup_insert_eq]. destruct IH as (j & p & Hj & Hp); [lia|].
  exists j, p. split; [|done]. rewrite lookup_insert_ne; [done|]. congruence.
Qed.

(** C21. An occurrence is executed by one handler at a time: in every interleaving of
    submissions, retries, recovery passes, schedule rounds, cancellations and restarts,
    with a database that may fail at every statement, two admitted tasks of an occurrence
    whose handlers have not returned are the same task; its attempt is open in the store,
    is the last one, and the occurrence is not completed (unless the occurrence was
    deleted); and no goroutine is about to submit another attempt of it. *)
Theorem one_execution_per_occurrence rd zk y : manager_reachable rd zk y ->
  (forall k k' a a', y_tickets y !! k = Some (a, TicketRunning) -> y_tickets y !! k' = Some (a', TicketRunning) -> at_OccurrenceID a = at_OccurrenceID a' -> k = k') /\
  (forall k a, y_tickets y !! k = Some (a, TicketRunning) -> k = task_id (at_OccurrenceID a) (at_AttemptNo a) /\
     forall o, tb_occurrences (jm_tables (y_manager y)) !! at_OccurrenceID a = Some o ->
       (exists r, tb_attempts (jm_tables (y_manager y)) !! at_ID a = Some r /\ attemptTerminal (at_State r) = false) /\
       at_AttemptNo a = latest_no (at_OccurrenceID a) (jm_tables (y_manager y)) /\ oc_State o <> OccurrenceCompleted) /\
  (forall i who d a k b, y_threads y !! i = Some (Driving who d (DrSubmit a)) -> y_tickets y !! k = Some (b, TicketRunning) -> at_OccurrenceID a <> at_OccurrenceID b).
Proof.
  intros R. pose proof (so_core _ (reachable_system_ok _ _ _ R)) as C. set (t := jm_tables (y_manager y)) in *. pose proof (co_tables _ _ _ C) as H.
  assert (Lv : forall k a, y_tickets y !! k = Some (a, TicketRunning) -> live (y_tickets y) (held (y_threads y)) a) by (intros k a Hk; right; by exists k).
  split_and!.
  - intros k k' a a' Hk Hk' E. pose proof (co_one _ _ _ C _ _ (Lv _ _ Hk) (Lv _ _ Hk') E) as Ei.
    destruct (co_ticket _ _ _ C _ _ _ Hk) as (-> & Ia & _), (co_ticket _ _ _ C _ _ _ Hk') as (-> & Ia' & _). by apply same_task.
  - intros k a Hk. destruct (co_ticket _ _ _ C _ _ _ Hk) as (-> & Ia & _). split; [apply Ia|]. intros o Ho.
    destruct (live_row _ _ _ _ C (Lv _ _ Hk)) as (_ & [Hr|Op]); [unfold removed in Hr; congruence|]. pose proof (open_last _ _ H Ia Op) as L.
    split_and!; [exact Op|done|]. intros Hs. destruct (to_occ _ H _ _ Ho) as [_ Ag]. rewrite Hs in Ag. cbn [agrees] in Ag. rewrite L in Ag. destruct Ag as (r & Hr & Hc).
    destruct Op as (r' & Hr' & Ht). destruct Ia as (Ei & _). rewrite Ei, Hr in Hr'. injection Hr' as <-. by rewrite Hc in Ht.
  - intros i who d a k b Hi Hk E. assert (Ha : held (y_threads y) !! i = Some a) by (apply held_lookup; eauto).
    destruct (co_held _ _ _ C _ _ Ha) as (Ia & _ & Hn). destruct (co_ticket _ _ _ C _ _ _ Hk) as (Ek & Ib & _).
    pose proof (co_one _ _ _ C a b (or_introl (ex_intro _ i Ha)) (Lv _ _ Hk) E) as Ei. apply (same_task a b Ia Ib) in Ei. congruence.
Qed.

(** C22. What a ticket reports is in the store: when the engine has settled the ticket of
    an attempt with a result that is neither a persistence failure nor a cancellation, the
    row of the attempt holds that result, as deferred when the task was rate limited and
    otherwise with the outcome, its semantics and its message; and an attempt that
    completed has completed its occurrence. Only an occurrence that was deleted is
    excepted. So the monitor need not read the occurrence again. *)
Theorem acknowledged_result_is_durable rd zk y k a res : manager_reachable rd zk y -> y_tickets y !! k = Some (a, TicketSettled res) ->
  tr_Cause res <> CausePersistenceFailure -> tr_Outcome res <> OutcomeCancelled -> forall o, tb_occurrences (jm_tables (y_manager y)) !! at_OccurrenceID a = Some o ->
  (exists r, tb_attempts (jm_tables (y_manager y)) !! at_ID a = Some r /\ at_Error r = fi_Message (tr_Failure res) /\
     (tr_Cause res = CauseRateLimited -> at_State r = AttemptDeferred) /\
     (tr_Cause res <> CauseRateLimited -> at_State r = attemptState (tr_Outcome res) /\ at_Result r = encodeAttemptResultMetadata res)) /\
  (tr_Outcome res = OutcomeCompleted -> tr_Cause res <> CauseRateLimited -> oc_State o = OccurrenceCompleted).
Proof.
  intros R Hk Hp Hx o Ho. pose proof (so_core _ (reachable_system_ok _ _ _ R)) as C. set (t := jm_tables (y_manager y)) in *. pose proof (co_tables _ _ _ C) as H.
  destruct (co_ticket _ _ _ C _ _ _ Hk) as (_ & Ia & [Hr|(r & Hr & [[?|?]|S])]); [unfold removed in Hr; congruence|done|done|]. fold t in Hr. split.
  - exists r. split; [done|]. unfold settled_as in S. destruct (decide (tr_Cause res = CauseRateLimited)); [|by destruct S as (? & ? & ?)]. by destruct S.
  - intros Hc Hn. unfold settled_as in S. rewrite decide_False in S by done. destruct S as (Hs & _). rewrite Hc in Hs.
    destruct (to_closed _ H _ _ OccurrenceCompleted Hr) as (_ & o' & Ho' & Hs'); [by rewrite Hs|]. destruct (row_fields _ _ _ H Ia Hr) as (E & _). rewrite E in Ho'. congruence.
Qed.

(** C23. The retry queue is served: until the manager stops, an item that waits in it has a
    retry worker, there are never more than four of them, and the counter of the waiting
    items is the length of the queue plus the items just taken. A worker whose idle timer
    fired while an item arrived starts its successor as it leaves. *)
Theorem waiting_item_has_worker rd zk y : manager_reachable rd zk y ->
  (jm_started (y_manager y) = true -> jm_retryStopping (y_manager y) = false -> jm_retryQueue (y_manager y) <> [] ->
     exists i pc, y_threads y !! i = Some pc /\ role_of pc = RetryWorker) /\
  msum is_worker (y_threads y) <= retryWorkers /\
  jm_retryQueued (y_manager y) = Z.of_nat (length (jm_retryQueue (y_manager y))) + msum is_taking (y_threads y).
Proof.
  intros R. pose proof (reachable_workers_ok _ _ _ R) as W. split_and!; [|rewrite <- (wo_remaining _ W); by apply W|by apply W].
  intros Hs Hp Hq. assert (Hpos : 0 < msum is_worker (y_threads y)).
  { rewrite <- (wo_remaining _ W). apply (wo_served _ W Hs Hp). rewrite (wo_queued _ W). pose proof (joined_nonneg (y_threads y)). destruct (jm_retryQueue (y_manager y)); [done|cbn; lia]. }
  destruct (worker_exists is_worker _ ltac:(intros pc; unfold is_worker; destruct (role_of pc); auto) Hpos) as (i & pc & Hi & Hw).
  exists i, pc. split; [done|]. unfold is_worker in Hw. by destruct (role_of pc).
Qed.

(** C24. [Stop] joins: once started, [done] is closed exactly when the coordinator and every
    retry worker have left, and then the manager is stopping. *)
Theorem stop_joins_workers rd zk y : manager_reachable rd zk y -> jm_started (y_manager y) = true ->
  (jm_done (y_manager y) = true <-> forall i pc, y_threads y !! i = Some pc -> role_of pc = Caller) /\
  (jm_done (y_manager y) = true -> jm_retryStopping (y_manager y) = true).
Proof.
  intros R Hs. pose proof (reachable_workers_ok _ _ _ R) as W. split; [|apply W]. split.
  - intros Hd i pc Hi. destruct (wo_done _ W Hd) as [_ Hw]. rewrite (wo_workers _ W) in Hw.
    pose proof (msum_lookup_le is_joined _ _ _ (fun _ v _ => ltac:(pose proof (roles v); lia)) Hi) as L. assert (Lj : is_joined pc <= 0) by lia. clear L.
    unfold is_joined in Lj. by destruct (role_of pc).
  - intros Hc. apply (wo_last _ W Hs). rewrite (wo_workers _ W). apply msum_zero. intros i pc Hi. unfold is_joined. by rewrite (Hc i pc Hi).
Qed.

(** ** Runs *)

Definition no_delay : JobRetryPolicy -> Z -> duration := fun _ _ => 0.
Definition any_zone : string -> bool := fun _ => true.
(** A step of goroutine [i] at second [s], with the answer of the database and the choice of
    the select. *)
Definition step_at (i : nat) (s : Z) (io : bool) (choice : nat) : manager_event :=
  EvStep i (mkAnswer io io (t0 + s * second) (t0 + s * second) None 0 0 choice).
Definition steps_at (i n : nat) (s : Z) : list manager_event := repeat (step_at i s true 1) n.

(** Goroutine 0 is the coordinator, 1 registers the handler, 2 the definition, 3 submits
    and starts the retry worker 4. *)
Definition sample_submission : list manager_event :=
  [EvStart true; EvRegisterHandler "digest.send"] ++ steps_at 1 1 1 ++ [EvRegister sample_definition] ++ steps_at 2 6 1 ++
  [EvSubmit "digest" ""] ++ steps_at 3 6 2.
Definition sample_occurrence : string := manual_id "digest" (t0 + 2 * second) 1.
Definition sample_task : string := task_id sample_occurrence 1.
Definition sample_result (o : Outcome) (d : Disposition) : TaskResult := mkResult sample_task "" o CauseNone d 0 (t0 + 3 * second) 0 None no_failure.
Definition sample_execution (o : Outcome) (d : Disposition) : list manager_event :=
  sample_submission ++ [EvReturn sample_task (sample_result o d); EvCommit sample_task true true (t0 + 3 * second)].
Definition sample_system (evs : list manager_event) : job_system := default (new_system empty_tables) (manager_run no_delay any_zone evs (new_system empty_tables)).

Lemma sample_system_reachable evs : is_Some (manager_run no_delay any_zone evs (new_system empty_tables)) -> manager_reachable no_delay any_zone (sample_system evs).
Proof. intros [y E]. unfold sample_system. rewrite E. apply (manager_run_reachable _ _ evs (new_system empty_tables)); [apply mr_new, jr_empty|exact E]. Qed.

Lemma one_execution_per_occurrence_witness : let y := sample_system sample_submission in exists a,
  y_tickets y !! sample_task = Some (a, TicketRunning) /\ is_Some (tb_occurrences (jm_tables (y_manager y)) !! at_OccurrenceID a) /\
  (forall k', y_tickets y !! k' = Some (a, TicketRunning) -> sample_task = k').
Proof.
  intros y. destruct (y_tickets y !! sample_task) as [[a st]|] eqn:E; [|vm_compute in E; discriminate E]. exists a.
  assert (st = TicketRunning) as -> by (vm_compute in E; congruence).
  assert (R : manager_reachable no_delay any_zone y) by (apply sample_system_reachable; vm_compute; by eexists).
  split; [reflexivity|]. split; [vm_compute in E; injection E as <-; vm_compute; by eexists|].
  intros k' Hk. exact (proj1 (one_execution_per_occurrence _ _ y R) sample_task k' a a E Hk eq_refl).
Defined.

Lemma acknowledged_result_is_durable_witness : let y := sample_system (sample_execution OutcomeCompleted DispositionSuccess) in exists a o,
  y_tickets y !! sample_task = Some (a, TicketSettled (sample_result OutcomeCompleted DispositionSuccess)) /\
  tb_occurrences (jm_tables (y_manager y)) !! at_OccurrenceID a = Some o /\ oc_State o = OccurrenceCompleted.
Proof.
  intros y. destruct (y_tickets y !! sample_task) as [[a st]|] eqn:E; [|vm_compute in E; discriminate E]. exists a.
  assert (st = TicketSettled (sample_result OutcomeCompleted DispositionSuccess)) as -> by (vm_compute in E; vm_compute; congruence).
  destruct (tb_occurrences (jm_tables (y_manager y)) !! at_OccurrenceID a) as [o|] eqn:Ho; [|vm_compute in E; injection E as <-; vm_compute in Ho; discriminate Ho].
  exists o. split; [reflexivity|]. split; [reflexivity|].
  assert (R : manager_reachable no_delay any_zone y) by (apply sample_system_reachable; vm_compute; by eexists).
  refine (proj2 (acknowledged_result_is_durable _ _ y sample_task a _ R E _ _ o Ho) _ _); vm_compute; congruence.
Defined.

Lemma waiting_item_has_worker_witness : let y := sample_system sample_submission in
  manager_reachable no_delay any_zone y /\ jm_retryQueue (y_manager y) = [mkRetryItem sample_occurrence sample_task] /\
  exists i pc, y_threads y !! i = Some pc /\ role_of pc = RetryWorker.
Proof.
  intros y. assert (R : manager_reachable no_delay any_zone y) by (apply sample_system_reachable; vm_compute; by eexists).
  split; [exact R|]. split; [vm_compute; reflexivity|]. apply (proj1 (waiting_item_has_worker _ _ y R)); vm_compute; congruence.
Defined.

(** A stop that lets the coordinator and the worker leave. *)
Definition sample_stop : list manager_event :=
  sample_submission ++ [EvStop] ++ steps_at 5 2 4 ++ [step_at 0 4 true 0; step_at 0 4 true 0; step_at 4 4 true 0; step_at 4 4 true 0; step_at 4 4 true 0].
Lemma stop_joins_workers_witness : let y := sample_system sample_stop in
  manager_reachable no_delay any_zone y /\ jm_started (y_manager y) = true /\ jm_done (y_manager y) = true /\
  (forall i pc, y_threads y !! i = Some pc -> role_of pc = Caller).
Proof.
  intros y. assert (R : manager_reachable no_delay any_zone y) by (apply sample_system_reachable; vm_compute; by eexists).
  split; [exact R|]. assert (Hs : jm_started (y_manager y) = true) by (vm_compute; reflexivity). split; [exact Hs|].
  assert (Hd : jm_done (y_manager y) = true) by (vm_compute; reflexivity). split; [exact Hd|].
  exact (proj1 (proj1 (stop_joins_workers _ _ y R Hs)) Hd).
Defined.

(** ** Occurrences the manager loses sight of *)

(** The recovery passes a tracked occurrence by, so one that stays tracked without a
    monitor is never closed nor retried by this process. *)
Lemma tracked_is_passed_by policy now runnable o s : match recoverCandidate policy now true runnable o s with Deferred | Stale => True | _ => False end.
Proof. unfold recoverCandidate. by destruct (after _ _). Qed.

(** A full queue: the recovery is woken, and the occurrence stays tracked though no
    worker will ever watch its ticket. *)
Lemma full_queue_keeps_tracking a who d attempt m : jm_started m = true -> (retryQueueCap <= length (jm_retryQueue m))%nat ->
  exists e, drive_step a who d (DrEnqueue attempt) m = Some e /\ jm_tracked (ef_manager e) = jm_tracked m /\ jm_retryQueue (ef_manager e) = jm_retryQueue m /\
  exists e', drive_step a who d DrWake (ef_manager e) = Some e' /\ ef_pc e' = after_drive who d true /\ jm_tracked (ef_manager e') = jm_tracked m.
Proof.
  intros Hs Hl. cbn [drive_step]. unfold enqueueRetry. rewrite Hs.
  assert ((length (jm_retryQueue m) <? retryQueueCap)%nat = false) as -> by (apply Nat.ltb_ge; lia).
  destruct (jm_retryStopping m); cbn; (eexists; split; [reflexivity|]; cbn; split; [done|]; split; [done|]; eexists; split; [reflexivity|]; cbn;
    split; [done|]; unfold signalRecovery; by rewrite Hs).
Qed.

(** The closing of an occurrence that fails once: its worker wakes the recovery and goes
    back to its queue, and the occurrence stays tracked. Neither a queue, a worker nor a
    ticket refers to it any more, and the recovery passes it by. *)
Lemma failed_finalize_keeps_tracking :
  let y := sample_system (sample_execution OutcomeFailed DispositionPermanent ++ steps_at 4 7 4 ++ [step_at 4 4 false 0] ++ steps_at 4 2 4 ++ steps_at 0 4 5) in
  is_Some (jm_tracked (y_manager y) !! sample_occurrence) /\ jm_retryQueue (y_manager y) = [] /\ y_threads y !! 4%nat = Some RlSelect /\
  y_threads y !! 0%nat = Some (ReScan false []) /\ jm_recoveryWake (y_manager y) = false /\
  (exists o, tb_occurrences (jm_tables (y_manager y)) !! sample_occurrence = Some o /\ oc_State o = OccurrenceDispatched).
Proof. vm_compute. split_and!; try done; by eexists. Qed.

(** [Stop] before [Start] uses up [stopOnce]; a manager started later never stops. *)
Lemma manager_stop_before_start_leaks : let y := sample_system ([EvStop] ++ steps_at 0 3 1 ++ [EvStart true; EvStop] ++ steps_at 2 2 2) in
  jm_started (y_manager y) = true /\ y_threads y !! 1%nat = Some CoSelect /\ y_threads y !! 2%nat = Some StWait /\ jm_retryStopping (y_manager y) = false.
Proof. by vm_compute. Qed.
