(* ===== verification/TimerHeap.v ===== *)
(** * The timer heap of the scheduler

    Models [internal/scheduler/heap.go]: the indexed min-heap of timer entries by
    deadline, first pushed first among equal deadlines, on the heap of GoHeap.v. *)

From S2P Require Import Prelude.
From S2P Require Import GoHeap.
From Stdlib Require Import Sorted.

Inductive TimerKind := TimerScheduleOccurrence | TimerRetryReady | TimerMaintenance | TimerLeaseExpiry.

(** [te_ptr] is the address of the entry, [te_Data] the address of what it carries;
    [HeapIndex] is in the store of the heap. [Sequence] is written by [Push] and read
    by the heap only. *)
Record TimerEntry := mkTimer {
  te_ptr : nat; te_Kind : TimerKind; te_Owner : string; te_ID : string; te_Generation : Z;
  te_Deadline : time; te_Sequence : Z; te_Data : nat
}.

Record IndexedHeap := mkIndexed { ih_h : iheap TimerEntry; ih_seq : Z }.

(** [timerHeap.Less]. *)
Definition timer_less (a b : TimerEntry) : bool :=
  if te_Deadline a =? te_Deadline b then te_Sequence a <? te_Sequence b else before (te_Deadline a) (te_Deadline b).

Definition NewIndexedHeap : IndexedHeap := mkIndexed (mkHeap [] ∅) 0.

Definition timer_index (h : iheap TimerEntry) (e : TimerEntry) : Z := zget (te_ptr e) (hidx h).

(** The heap holds the entry at its [HeapIndex] (a comparison of pointers). *)
Definition timer_at_index (h : iheap TimerEntry) (e : TimerEntry) : bool :=
  let i := timer_index h e in
  (0 <=? i) && (i <? Z.of_nat (length (hs h))) &&
  match hs h !! Z.to_nat i with Some e' => (te_ptr e' =? te_ptr e)%nat | None => false end.

Definition te_set_Sequence (n : Z) (e : TimerEntry) : TimerEntry :=
  mkTimer (te_ptr e) (te_Kind e) (te_Owner e) (te_ID e) (te_Generation e) (te_Deadline e) n (te_Data e).

(** [IndexedHeap.Push]: an entry that is already in the heap keeps its sequence number
    and is sorted again by the deadline it has now. *)
Definition timer_Push (entry : option TimerEntry) (ih : IndexedHeap) : IndexedHeap :=
  match entry with
  | None => ih
  | Some e =>
      if is_zero (te_Deadline e) then ih
      else if timer_at_index (ih_h ih) e then
        let i := Z.to_nat (timer_index (ih_h ih) e) in
        let e := te_set_Sequence (default 0 (te_Sequence <$> hs (ih_h ih) !! i)) e in
        mkIndexed (heap_Fix timer_less te_ptr i (mkHeap (<[i := e]> (hs (ih_h ih))) (hidx (ih_h ih)))) (ih_seq ih)
      else
        let seq := ih_seq ih + 1 in
        mkIndexed (heap_Push timer_less te_ptr (te_set_Sequence seq e) (ih_h ih)) seq
  end.

Definition set_index (e : TimerEntry) (i : Z) (h : iheap TimerEntry) : iheap TimerEntry :=
  mkHeap (hs h) (<[te_ptr e := i]> (hidx h)).

Definition timer_Remove (entry : option TimerEntry) (ih : IndexedHeap) : IndexedHeap :=
  match entry with
  | None => ih
  | Some e =>
      if timer_at_index (ih_h ih) e then
        mkIndexed (set_index e (-1) (heap_Remove timer_less te_ptr (Z.to_nat (timer_index (ih_h ih) e)) (ih_h ih)).2) (ih_seq ih)
      else ih
  end.

Definition timer_PeekEarliest (ih : IndexedHeap) : option TimerEntry := hs (ih_h ih) !! 0%nat.

(** The loop of [PopDue]: a round adds one entry to [due], so [maxBatch] is enough fuel. *)
Fixpoint pop_due (fuel : nat) (now : time) (h : iheap TimerEntry) : list TimerEntry * iheap TimerEntry :=
  match fuel with
  | O => ([], h)
  | S fuel' =>
      match hs h !! 0%nat with
      | None => ([], h)
      | Some top =>
          if after (te_Deadline top) now then ([], h)
          else
            match heap_Pop timer_less te_ptr h with
            | (Some item, h') =>
                let '(due, h'') := pop_due fuel' now (set_index item (-1) h') in (item :: due, h'')
            | (None, h') => ([], h')
            end
      end
  end.

Definition PopDue (now : time) (maxBatch : Z) (ih : IndexedHeap) : list TimerEntry * IndexedHeap :=
  let maxBatch := if maxBatch <=? 0 then 100 else maxBatch in
  let '(due, h) := pop_due (Z.to_nat maxBatch) now (ih_h ih) in (due, mkIndexed h (ih_seq ih)).

Definition timer_Len (ih : IndexedHeap) : Z := Z.of_nat (length (hs (ih_h ih))).

(** ** The invariant *)

Lemma timer_less_asym a b : timer_less a b = true -> timer_less b a = false.
Proof.
  unfold timer_less, before. destruct (Z.eqb_spec (te_Deadline a) (te_Deadline b)) as [->|].
  - rewrite Z.eqb_refl, Z.ltb_lt, Z.ltb_ge. lia.
  - destruct (Z.eqb_spec (te_Deadline b) (te_Deadline a)); [lia|]. rewrite Z.ltb_lt, Z.ltb_ge. lia.
Qed.

Definition timer_le (a b : TimerEntry) : Prop :=
  te_Deadline a < te_Deadline b \/ te_Deadline a = te_Deadline b /\ te_Sequence a <= te_Sequence b.

Lemma timer_less_false a b : timer_less a b = false <-> timer_le b a.
Proof.
  unfold timer_less, timer_le, before. destruct (Z.eqb_spec (te_Deadline a) (te_Deadline b)); rewrite Z.ltb_ge; lia.
Qed.

Lemma timer_less_negtrans a b c : timer_less a b = false -> timer_less b c = false -> timer_less a c = false.
Proof. rewrite !timer_less_false. unfold timer_le. lia. Qed.

Record timers_ok (ih : IndexedHeap) : Prop := {
  ti_heap : heap_inv timer_less te_ptr (ih_h ih);
  ti_seq : forall e, e ∈ hs (ih_h ih) -> te_Sequence e <= ih_seq ih
}.

Lemma nodup_map_inj {A B} (f : A -> B) l a b : NoDup (map f l) -> a ∈ l -> b ∈ l -> f a = f b -> a = b.
Proof.
  intros Hnd [i Hi]%list_elem_of_lookup [j Hj]%list_elem_of_lookup E.
  assert (i = j) as ->; [|congruence].
  apply (NoDup_lookup (f <$> l) i j (f b)); [exact Hnd|rewrite list_lookup_fmap, Hi; cbn; by rewrite E|by rewrite list_lookup_fmap, Hj].
Qed.

Lemma timers_nodup ih : timers_ok ih -> NoDup (map te_ptr (hs (ih_h ih))).
Proof.
  intros [[_ Hok] _]. apply NoDup_alt. intros i j p Hi Hj.
  apply list_lookup_fmap_Some in Hi as (a & -> & Ha). apply list_lookup_fmap_Some in Hj as (b & Hp & Hb).
  by eapply (idx_ok_inj te_ptr).
Qed.

Lemma set_index_inv e i h : heap_inv timer_less te_ptr h -> te_ptr e ∉ map te_ptr (hs h) ->
  heap_inv timer_less te_ptr (set_index e i h).
Proof.
  intros [Hh Hok] Hk. split; [done|]. intros j a Ha. cbn in *. rewrite lookup_insert_ne; [by apply Hok|].
  intros Hp. apply Hk. rewrite Hp. apply list_elem_of_fmap. exists a. split; [done|]. by eapply list_elem_of_lookup_2.
Qed.

Lemma timer_present ih e : timers_ok ih -> te_ptr e ∈ map te_ptr (hs (ih_h ih)) ->
  timer_at_index (ih_h ih) e = true /\
  exists e0, hs (ih_h ih) !! Z.to_nat (timer_index (ih_h ih) e) = Some e0 /\ te_ptr e0 = te_ptr e.
Proof.
  intros [[_ Hok] _] (e0 & Hp & [i Hi]%list_elem_of_lookup)%list_elem_of_fmap.
  pose proof (Hok i e0 Hi) as Hx. unfold timer_at_index, timer_index, zget. rewrite Hp, Hx. cbn.
  rewrite Nat2Z.id, Hi. pose proof (lookup_lt_Some _ _ _ Hi). split; [|by exists e0].
  rewrite Nat.eqb_refl, !andb_true_iff. split_and!; [apply Z.leb_le; lia|apply Z.ltb_lt; lia|done].
Qed.

Lemma timer_absent ih e : te_ptr e ∉ map te_ptr (hs (ih_h ih)) -> timer_at_index (ih_h ih) e = false.
Proof.
  intros Hn. unfold timer_at_index. apply andb_false_iff. right. destruct (hs (ih_h ih) !! _) as [e'|] eqn:He; [|done].
  apply Nat.eqb_neq. intros Hp. apply Hn. rewrite <- Hp. apply list_elem_of_fmap. exists e'. split; [done|].
  by eapply list_elem_of_lookup_2.
Qed.

Lemma timer_Push_fresh e ih : timers_ok ih -> te_Deadline e <> 0 -> te_ptr e ∉ map te_ptr (hs (ih_h ih)) ->
  timers_ok (timer_Push (Some e) ih) /\ hs (ih_h (timer_Push (Some e) ih)) ≡ₚ te_set_Sequence (ih_seq ih + 1) e :: hs (ih_h ih).
Proof.
  intros Hok Hz Hf. cbn. unfold is_zero. destruct (Z.eqb_spec (te_Deadline e) 0); [done|]. rewrite timer_absent by done. cbn.
  destruct (heap_Push_spec timer_less te_ptr timer_less_asym timer_less_negtrans (te_set_Sequence (ih_seq ih + 1) e) (ih_h ih))
    as [H1 H2]; [apply Hok| |].
  { intros y Hy Hp. cbn in Hp. apply Hf. apply list_elem_of_fmap. exists y. by rewrite Hp. }
  split; [|done]. split; [done|]. cbn. intros y. rewrite H2. intros [->|Hy]%elem_of_cons; [cbn; lia|].
  pose proof (ti_seq _ Hok y Hy). lia.
Qed.

Lemma timer_Remove_present e ih : timers_ok ih -> te_ptr e ∈ map te_ptr (hs (ih_h ih)) ->
  timers_ok (timer_Remove (Some e) ih) /\
  exists e0, te_ptr e0 = te_ptr e /\ hs (ih_h ih) ≡ₚ e0 :: hs (ih_h (timer_Remove (Some e) ih)).
Proof.
  intros Hok He. destruct (timer_present ih e Hok He) as (Hat & e0 & Hi & Hp). unfold timer_Remove. rewrite Hat.
  destruct (heap_Remove_spec timer_less te_ptr timer_less_asym timer_less_negtrans (ih_h ih) _ e0 (ti_heap _ Hok) Hi)
    as (h' & -> & Hinv & Hperm). cbn. split; [|by exists e0].
  pose proof (timers_nodup _ Hok) as Hnd. rewrite Hperm in Hnd. cbn in Hnd. apply NoDup_cons in Hnd as [Hn _].
  split; [apply set_index_inv; [done|by rewrite <- Hp]|]. cbn. intros y Hy. apply (ti_seq _ Hok). rewrite Hperm. by right.
Qed.

Lemma timer_Remove_absent e ih : te_ptr e ∉ map te_ptr (hs (ih_h ih)) -> timer_Remove (Some e) ih = ih.
Proof. intros Hn. cbn. by rewrite timer_absent. Qed.

Lemma timer_Peek_least ih e : timers_ok ih -> e ∈ hs (ih_h ih) ->
  exists top, timer_PeekEarliest ih = Some top /\ te_Deadline top <= te_Deadline e.
Proof.
  intros Hok He. unfold timer_PeekEarliest. destruct (hs (ih_h ih) !! 0%nat) as [top|] eqn:Ht.
  - destruct (heap_Pop_spec timer_less te_ptr timer_less_asym timer_less_negtrans (ih_h ih) top (ti_heap _ Hok) Ht) as (_ & _ & _ & _ & Hmin & _).
    exists top. split; [done|]. apply Hmin, timer_less_false in He. unfold timer_le in He. lia.
  - destruct (hs (ih_h ih)); [by apply elem_of_nil in He|done].
Qed.

Lemma pop_due_spec fuel now : forall h, heap_inv timer_less te_ptr h -> NoDup (map te_ptr (hs h)) ->
  let '(due, h') := pop_due fuel now h in
  heap_inv timer_less te_ptr h' /\ hs h ≡ₚ due ++ hs h' /\ (length due <= fuel)%nat /\
  (forall e, e ∈ due -> te_Deadline e <= now) /\
  ((length due < fuel)%nat -> forall e, e ∈ hs h' -> now < te_Deadline e) /\
  StronglySorted timer_le due /\ (forall a b, a ∈ due -> b ∈ hs h' -> timer_le a b).
Proof.
  induction fuel as [|fuel IH]; intros h Hinv Hnd; cbn [pop_due].
  { split_and!; [done|done|done|set_solver|lia|constructor|set_solver]. }
  destruct (hs h !! 0%nat) as [top|] eqn:Htop.
  2: { destruct (hs h) eqn:Hh; [|done]. split_and!; [done|done|cbn; lia|set_solver|rewrite ?Hh; set_solver|constructor|set_solver]. }
  destruct (heap_Pop_spec timer_less te_ptr timer_less_asym timer_less_negtrans h top Hinv Htop) as (h1 & Hpop & Hinv1 & Hperm & Hmin & _).
  assert (Hle : forall e, e ∈ hs h -> timer_le top e) by (intros e He; by apply timer_less_false, Hmin).
  destruct (after (te_Deadline top) now) eqn:Haft; unfold after in Haft; bool_to_prop.
  { split_and!; [done|done|cbn; lia|set_solver| |constructor|set_solver]. intros _ e He. specialize (Hle e He). unfold timer_le in Hle. lia. }
  rewrite Hpop. rewrite Hperm in Hnd. cbn in Hnd. apply NoDup_cons in Hnd as [Hn Hnd].
  specialize (IH (set_index top (-1) h1) ltac:(by apply set_index_inv) Hnd).
  destruct (pop_due fuel now (set_index top (-1) h1)) as [due h'] eqn:Edue.
  destruct IH as (I1 & I2 & I3 & I4 & I5 & I6 & I7).
  assert (Hsub : forall e, e ∈ due \/ e ∈ hs h' -> e ∈ hs h).
  { intros e He. rewrite Hperm. right. change (hs h1) with (hs (set_index top (-1) h1)). rewrite I2. by apply elem_of_app. }
  split_and!.
  - done.
  - rewrite Hperm. cbn. f_equiv. exact I2.
  - cbn. lia.
  - intros e [->|He]%elem_of_cons; [lia|by apply I4].
  - cbn. intros Hl e He. apply I5; [lia|done].
  - constructor; [done|]. apply List.Forall_forall. intros e He. apply Hle, Hsub. left. by apply list_elem_of_In.
  - intros a b [->|Ha]%elem_of_cons Hb; [apply Hle, Hsub; by right|by apply I7].
Qed.

(** [PopDue] takes the due entries out, at most [maxBatch] of them, earliest deadline
    first and first pushed first among equals; none it leaves comes before one it
    takes, a due entry is left only when the batch is full, and the heap keeps its order
    and still knows the position of every entry. *)
Theorem PopDue_exact (now : time) (maxBatch : Z) (ih : IndexedHeap) : timers_ok ih ->
  let '(due, ih') := PopDue now maxBatch ih in
  timers_ok ih' /\ hs (ih_h ih) ≡ₚ due ++ hs (ih_h ih') /\
  (forall e, e ∈ due -> te_Deadline e <= now) /\ StronglySorted timer_le due /\
  (forall a b, a ∈ due -> b ∈ hs (ih_h ih') -> timer_le a b) /\
  let batch := if maxBatch <=? 0 then 100 else maxBatch in
  Z.of_nat (length due) <= batch /\
  (Z.of_nat (length due) < batch -> forall e, e ∈ hs (ih_h ih') -> now < te_Deadline e).
Proof.
  intros Hok. unfold PopDue. set (batch := if maxBatch <=? 0 then 100 else maxBatch).
  assert (Hb : 0 <= batch) by (unfold batch; destruct (Z.leb_spec maxBatch 0); lia).
  pose proof (pop_due_spec (Z.to_nat batch) now (ih_h ih) (ti_heap _ Hok) (timers_nodup _ Hok)) as H.
  destruct (pop_due _ _ _) as [due h']. destruct H as (I1 & I2 & I3 & I4 & I5 & I6 & I7). cbn.
  split_and!; try done; [|lia|intros Hl; apply I5; lia].
  split; [done|]. cbn. intros e He. apply (ti_seq _ Hok). rewrite I2. apply elem_of_app. by right.
Qed.
