(* ===== verification/ScheduleStore.v ===== *)
(** * The rows of scheduled jobs

    Models [internal/scheduler/repository.go]: the SQL statements of
    [SQLiteRepository] as operations on a table of rows by id, with the history table.
    A statement is one atomic table operation, and so is a transaction, since SQLite
    serialises writers; [io] says whether the database answers, and a transaction that
    fails changes nothing. [DATETIME] values are compared as instants. What [SELECT]
    answers with [ORDER BY next_run_at LIMIT n] is an argument of the operation that
    reads it, with what SQL promises about it as the predicate [selects]. [fk] says
    whether the database enforces the foreign key of [scheduled_job_history] that
    [InitSchema] declares. *)

From stdpp Require Import sorting.
From S2P Require Import Prelude.
From Stdlib Require Import Sorted.

Definition JobStatusInitializing : string := "initializing".
Definition JobStatusPending : string := "pending".
Definition JobStatusRunning : string := "running".
Definition JobStatusFailed : string := "failed".
Definition JobStatusCompleted : string := "completed".

(** The columns that are written once. *)
Record job_request := mkRequest {
  rq_ChatID : Z; rq_PeerType : string; rq_AccessHash : Z; rq_ActionType : string; rq_Payload : string;
  rq_IntervalSeconds : Z; rq_CreatedBy : Z
}.

Record ScheduledJob := mkJob {
  sj_ID : Z; sj_request : job_request; sj_CreatedAt : time;
  sj_NextRunAt : time; sj_LastError : string; sj_AttemptCount : Z; sj_Status : string; sj_MaxAttempts : Z;
  sj_LeaseUntil : option time; sj_ClaimedAt : option time; sj_LastStartedAt : option time; sj_LastFinishedAt : option time;
  sj_ClaimToken : string
}.

Record JobHistoryEntry := mkHistory {
  he_JobID : Z; he_RanAt : time; he_DurationMs : Z; he_Success : bool; he_ErrorMsg : string
}.

(** [db_last] is the last id AUTOINCREMENT gave. *)
Record sched_db := mkDb { db_jobs : gmap Z ScheduledJob; db_last : Z; db_history : list JobHistoryEntry }.

Inductive sched_error := ErrDatabase | ErrJobLeaseLost | ErrNotFound | ErrNotInitializing | ErrForeignKey | ErrContext.

Definition sj_interval (j : ScheduledJob) : Z := rq_IntervalSeconds (sj_request j).

Definition put_job (j : ScheduledJob) (db : sched_db) : sched_db := mkDb (<[sj_ID j := j]> (db_jobs db)) (db_last db) (db_history db).

(** ** The history and its foreign key *)

Definition insert_history (fk : bool) (h : JobHistoryEntry) (db : sched_db) : option sched_db :=
  if fk && bool_decide (db_jobs db !! he_JobID h = None) then None
  else Some (mkDb (db_jobs db) (db_last db) (db_history db ++ [h])).

Definition delete_row (fk : bool) (id : Z) (db : sched_db) : sched_db :=
  mkDb (delete id (db_jobs db)) (db_last db)
    (if fk then filter (fun h => he_JobID h <> id) (db_history db) else db_history db).

(** ** Creation *)

Definition CreateScheduledJob (io : bool) (now : time) (job : ScheduledJob) (db : sched_db)
    : (sched_error + ScheduledJob) * sched_db :=
  let id := db_last db + 1 in
  let j := mkJob id (sj_request job) (if is_zero (sj_CreatedAt job) then now else sj_CreatedAt job)
             (sj_NextRunAt job) (sj_LastError job) (sj_AttemptCount job)
             (if String.eqb (sj_Status job) "" then JobStatusPending else sj_Status job)
             (if sj_MaxAttempts job <=? 0 then 3 else sj_MaxAttempts job)
             (sj_LeaseUntil job) (sj_ClaimedAt job) (sj_LastStartedAt job) (sj_LastFinishedAt job) (sj_ClaimToken job) in
  if io then (inr j, mkDb (<[id := j]> (db_jobs db)) id (db_history db)) else (inl ErrDatabase, db).

Definition sj_set_status (st : string) (j : ScheduledJob) : ScheduledJob :=
  mkJob (sj_ID j) (sj_request j) (sj_CreatedAt j) (sj_NextRunAt j) (sj_LastError j) (sj_AttemptCount j) st (sj_MaxAttempts j)
    (sj_LeaseUntil j) (sj_ClaimedAt j) (sj_LastStartedAt j) (sj_LastFinishedAt j) (sj_ClaimToken j).

Definition ActivateScheduledJob (io : bool) (id : Z) (db : sched_db) : option sched_error * sched_db :=
  if io then
    match db_jobs db !! id with
    | Some j =>
        if bool_decide (sj_Status j = JobStatusInitializing) then (None, put_job (sj_set_status JobStatusPending j) db)
        else (Some ErrNotInitializing, db)
    | None => (Some ErrNotInitializing, db)
    end
  else (Some ErrDatabase, db).

Definition GetScheduledJob (io : bool) (id : Z) (db : sched_db) : sched_error + option ScheduledJob :=
  if io then inr (db_jobs db !! id) else inl ErrDatabase.

(** ** Due jobs *)

Definition expired_lease (now : time) (j : ScheduledJob) : bool :=
  bool_decide (sj_Status j = JobStatusRunning) && match sj_LeaseUntil j with Some t => t <? now | None => false end.

(** [status = 'pending' OR (status = 'running' AND lease_until < now)]. *)
Definition claimable (now : time) (j : ScheduledJob) : bool :=
  bool_decide (sj_Status j = JobStatusPending) || expired_lease now j.

Definition due (now : time) (j : ScheduledJob) : bool := claimable now j && (sj_NextRunAt j <=? now).

Definition run_before (a b : ScheduledJob) : Prop := sj_NextRunAt a <= sj_NextRunAt b.

#[global] Instance run_before_dec a b : Decision (run_before a b).
Proof. apply Z_le_dec. Defined.
#[global] Instance run_before_total : Total run_before.
Proof. intros a b. unfold run_before. lia. Qed.
#[global] Instance run_before_trans : Transitive run_before.
Proof. unfold run_before. intros a b c. lia. Qed.

(** What SQL promises of [SELECT ... WHERE due ORDER BY next_run_at ASC LIMIT limit]. *)
Record selects (now : time) (limit : Z) (db : sched_db) (rows : list ScheduledJob) : Prop := {
  se_rows : forall j, j ∈ rows -> db_jobs db !! sj_ID j = Some j /\ due now j = true;
  se_nodup : NoDup (map sj_ID rows);
  se_sorted : StronglySorted run_before rows;
  se_limit : Z.of_nat (length rows) <= limit;
  se_left : forall id j, db_jobs db !! id = Some j -> due now j = true -> id ∉ map sj_ID rows ->
    Z.of_nat (length rows) = limit /\ forall i, i ∈ rows -> run_before i j
}.

Definition due_list (now : time) (db : sched_db) : list ScheduledJob :=
  merge_sort run_before (filter (fun j => due now j = true) (map snd (map_to_list (db_jobs db)))).

(** [ListDueScheduledJobs], in some order of equal times. *)
Definition ListDueScheduledJobs (io : bool) (now : time) (db : sched_db) : sched_error + list ScheduledJob :=
  if io then inr (due_list now db) else inl ErrDatabase.

Definition omin (a b : option time) : option time :=
  match a, b with Some x, Some y => Some (Z.min x y) | Some x, None => Some x | None, y => y end.

Definition due_time (j : ScheduledJob) : option time :=
  if bool_decide (sj_Status j = JobStatusPending) then Some (sj_NextRunAt j)
  else if bool_decide (sj_Status j = JobStatusRunning) then sj_LeaseUntil j else None.

Definition GetEarliestDueTime (io : bool) (db : sched_db) : sched_error + option time :=
  if io then inr (map_fold (fun _ j acc => omin (due_time j) acc) None (db_jobs db)) else inl ErrDatabase.

(** ** Claims *)

Definition sj_claim (token lastErr : string) (leaseUntil now : time) (j : ScheduledJob) : ScheduledJob :=
  mkJob (sj_ID j) (sj_request j) (sj_CreatedAt j) (sj_NextRunAt j) lastErr (sj_AttemptCount j + 1) JobStatusRunning (sj_MaxAttempts j)
    (Some leaseUntil) (Some now) (Some now) (sj_LastFinishedAt j) token.

Definition lease_expired_history (now : time) (j : ScheduledJob) : JobHistoryEntry :=
  mkHistory (sj_ID j) now 0 false "execution lease expired (previous worker abandoned or crashed)".

(** One round of the loop over the selected rows; [None] when the transaction fails. *)
Definition claim_row (fk : bool) (token : string) (leaseUntil now : time) (j : ScheduledJob) (db : sched_db)
    : option (option ScheduledJob * sched_db) :=
  let running := bool_decide (sj_Status j = JobStatusRunning) in
  let lastErr := if running then "previous execution lease expired"%string else sj_LastError j in
  match (if running then insert_history fk (lease_expired_history now j) db else Some db) with
  | None => None
  | Some db =>
      match db_jobs db !! sj_ID j with
      | Some row =>
          if claimable now row then
            Some (Some (sj_claim token lastErr leaseUntil now j), put_job (sj_claim token lastErr leaseUntil now row) db)
          else Some (None, db)
      | None => Some (None, db)
      end
  end.

Fixpoint claim_rows (fk : bool) (leaseUntil now : time) (rows : list (ScheduledJob * string)) (db : sched_db)
    : option (list ScheduledJob * sched_db) :=
  match rows with
  | [] => Some ([], db)
  | (j, token) :: rest =>
      match claim_row fk token leaseUntil now j db with
      | None => None
      | Some (claimed, db) =>
          match claim_rows fk leaseUntil now rest db with
          | None => None
          | Some (more, db) => Some (option_list claimed ++ more, db)
          end
      end
  end.

Definition default_lease : duration := 90 * second.

(** [claimDueScheduledJobsOnce]: [rows] is what its query answers, [tokens] the tokens
    it generates. *)
Definition claim_limit (limit : Z) : Z := if limit <=? 0 then 10 else limit.
Definition claimDueScheduledJobsOnce (fk io : bool) (rows : list ScheduledJob) (tokens : list string) (now : time)
    (lease : duration) (db : sched_db) : (sched_error + list ScheduledJob) * sched_db :=
  let lease := if lease <=? 0 then default_lease else lease in
  if io then
    match rows with
    | [] => (inr [], db)
    | _ =>
        match claim_rows fk (now + lease) now (zip rows tokens) db with
        | Some (claimed, db) => (inr claimed, db)
        | None => (inl ErrForeignKey, db)
        end
    end
  else (inl ErrDatabase, db).

(** The answers of the database to the attempts of [ClaimDueScheduledJobs]: it may be
    locked, and then the context may end during the delay. *)
Inductive claim_attempt := AttemptOk | AttemptBusy (cancelled : bool) | AttemptFails.
Fixpoint ClaimDueScheduledJobs (attempts : list claim_attempt) (left : nat) (fk : bool) (rows : list ScheduledJob) (tokens : list string)
    (now : time) (lease : duration) (db : sched_db) : (sched_error + list ScheduledJob) * sched_db :=
  match attempts, left with
  | AttemptOk :: _, S _ => claimDueScheduledJobsOnce fk true rows tokens now lease db
  | AttemptFails :: _, S _ => (inl ErrDatabase, db)
  | AttemptBusy cancelled :: rest, S (S _ as left) =>
      if cancelled then (inl ErrContext, db) else ClaimDueScheduledJobs rest left fk rows tokens now lease db
  | _, _ => (inl ErrDatabase, db)
  end.
Definition claim_max_attempts : nat := 5.

(** ** Settlement *)

(** The row a claim still owns. *)
Definition owned_row (id : Z) (claimToken : string) (db : sched_db) : option ScheduledJob :=
  match db_jobs db !! id with
  | Some j => if bool_decide (sj_Status j = JobStatusRunning) && bool_decide (sj_ClaimToken j = claimToken) then Some j else None
  | None => None
  end.

(** The loop of [CompleteScheduledJob]; a round advances by at least one nanosecond. *)
Fixpoint next_slot (fuel : nat) (step : duration) (nextRun now : time) : time :=
  match fuel with
  | O => nextRun
  | S fuel => if after nextRun now then nextRun else next_slot fuel step (nextRun + step) now
  end.
Definition interval_step (seconds : Z) : duration := wrap64 (seconds * second).
Definition advance (seconds : Z) (nextRunAt now : time) : time :=
  let step := interval_step seconds in next_slot (Z.to_nat ((now - nextRunAt) / step + 1)) step (nextRunAt + step) now.

Definition sj_complete (nextRun now : time) (j : ScheduledJob) : ScheduledJob :=
  mkJob (sj_ID j) (sj_request j) (sj_CreatedAt j) nextRun "" 0 JobStatusPending (sj_MaxAttempts j)
    None None (sj_LastStartedAt j) (Some now) "".

(** A transaction: its effect, or nothing. *)
Definition commit (res : option sched_db) (db : sched_db) : option sched_error * sched_db :=
  match res with Some db => (None, db) | None => (Some ErrForeignKey, db) end.

Definition CompleteScheduledJob (fk io : bool) (id : Z) (claimToken : string) (durationMs : Z) (now : time) (db : sched_db)
    : option sched_error * sched_db :=
  if io then
    match owned_row id claimToken db with
    | None => (Some ErrJobLeaseLost, db)
    | Some j =>
        let db' := if 0 <? sj_interval j then put_job (sj_complete (advance (sj_interval j) (sj_NextRunAt j) now) now j) db
                   else delete_row fk id db in
        commit (insert_history fk (mkHistory id now durationMs true "") db') db
    end
  else (Some ErrDatabase, db).

Definition sj_fail (st : string) (nextRun : time) (lastError : string) (now : time) (j : ScheduledJob) : ScheduledJob :=
  mkJob (sj_ID j) (sj_request j) (sj_CreatedAt j) nextRun lastError (sj_AttemptCount j) st (sj_MaxAttempts j)
    None (sj_ClaimedAt j) (sj_LastStartedAt j) (Some now) "".

Definition FailScheduledJob (fk io : bool) (id : Z) (claimToken lastError : string) (durationMs : Z) (retryDelay : duration)
    (isPermanent : bool) (now : time) (db : sched_db) : option sched_error * sched_db :=
  if io then
    match owned_row id claimToken db with
    | None => (Some ErrJobLeaseLost, db)
    | Some j =>
        let maxAttempts := if sj_MaxAttempts j <=? 0 then 3 else sj_MaxAttempts j in
        let j' := if isPermanent || (maxAttempts <=? sj_AttemptCount j) then sj_fail JobStatusFailed (sj_NextRunAt j) lastError now j
                  else sj_fail JobStatusPending (now + retryDelay) lastError now j in
        commit (insert_history fk (mkHistory id now durationMs false lastError) (put_job j' db)) db
    end
  else (Some ErrDatabase, db).

Definition sj_set_lease (t : time) (j : ScheduledJob) : ScheduledJob :=
  mkJob (sj_ID j) (sj_request j) (sj_CreatedAt j) (sj_NextRunAt j) (sj_LastError j) (sj_AttemptCount j) (sj_Status j) (sj_MaxAttempts j)
    (Some t) (sj_ClaimedAt j) (sj_LastStartedAt j) (sj_LastFinishedAt j) (sj_ClaimToken j).

Definition RenewJobLease (io : bool) (id : Z) (claimToken : string) (extension : duration) (now : time) (db : sched_db)
    : option sched_error * sched_db :=
  if io then
    match owned_row id claimToken db with
    | None => (Some ErrJobLeaseLost, db)
    | Some j => (None, put_job (sj_set_lease (now + extension) j) db)
    end
  else (Some ErrDatabase, db).

(** ** Unfenced updates *)

Definition update_row (io : bool) (id : Z) (f : ScheduledJob -> ScheduledJob) (db : sched_db) : option sched_error * sched_db :=
  if io then
    match db_jobs db !! id with Some j => (None, put_job (f j) db) | None => (Some ErrNotFound, db) end
  else (Some ErrDatabase, db).

Definition sj_set_next (t : time) (j : ScheduledJob) : ScheduledJob :=
  mkJob (sj_ID j) (sj_request j) (sj_CreatedAt j) t (sj_LastError j) (sj_AttemptCount j) (sj_Status j) (sj_MaxAttempts j)
    (sj_LeaseUntil j) (sj_ClaimedAt j) (sj_LastStartedAt j) (sj_LastFinishedAt j) (sj_ClaimToken j).
Definition sj_record_failure (e : string) (j : ScheduledJob) : ScheduledJob :=
  mkJob (sj_ID j) (sj_request j) (sj_CreatedAt j) (sj_NextRunAt j) e (sj_AttemptCount j + 1) (sj_Status j) (sj_MaxAttempts j)
    (sj_LeaseUntil j) (sj_ClaimedAt j) (sj_LastStartedAt j) (sj_LastFinishedAt j) (sj_ClaimToken j).

Definition UpdateScheduledJobNextRun (io : bool) (id : Z) (nextRun : time) := update_row io id (sj_set_next nextRun).
Definition RecordJobFailure (io : bool) (id : Z) (lastError : string) := update_row io id (sj_record_failure lastError).

Definition DeleteScheduledJob (fk io : bool) (id : Z) (db : sched_db) : option sched_error * sched_db :=
  if io then
    match db_jobs db !! id with Some _ => (None, delete_row fk id db) | None => (Some ErrNotFound, db) end
  else (Some ErrDatabase, db).

Definition RecordJobRun (fk io : bool) (h : JobHistoryEntry) (db : sched_db) : option sched_error * sched_db :=
  if io then commit (insert_history fk h db) db else (Some ErrDatabase, db).

(** ** Tables *)

Record table_ok (db : sched_db) : Prop := {
  tb_key : forall id j, db_jobs db !! id = Some j -> sj_ID j = id;
  tb_last : forall id j, db_jobs db !! id = Some j -> id <= db_last db
}.

Definition claim_error (j : ScheduledJob) : string :=
  if bool_decide (sj_Status j = JobStatusRunning) then "previous execution lease expired"%string else sj_LastError j.
Definition claimed_row (lu now : time) (jt : ScheduledJob * string) : ScheduledJob :=
  sj_claim jt.2 (claim_error jt.1) lu now jt.1.

Lemma claim_row_ok fk token lu now j db : db_jobs db !! sj_ID j = Some j -> claimable now j = true ->
  exists h, claim_row fk token lu now j db =
    Some (Some (claimed_row lu now (j, token)), put_job (claimed_row lu now (j, token)) (mkDb (db_jobs db) (db_last db) (db_history db ++ h))).
Proof.
  intros Hj Hc. unfold claim_row, claimed_row, claim_error. cbn [fst snd]. destruct (bool_decide (sj_Status j = JobStatusRunning)).
  - unfold insert_history. cbn. rewrite bool_decide_false by (rewrite Hj; done). rewrite andb_false_r. cbn. rewrite Hj, Hc.
    by eexists.
  - exists []. rewrite Hj, Hc, app_nil_r. destruct db. done.
Qed.

(** The loop claims every selected row under its own token and touches no other. *)
Lemma claim_rows_ok fk lu now rows : forall tokens db, (length rows <= length tokens)%nat ->
  (forall j, j ∈ rows -> db_jobs db !! sj_ID j = Some j /\ claimable now j = true) -> NoDup (map sj_ID rows) ->
  exists db', claim_rows fk lu now (zip rows tokens) db = Some (map (claimed_row lu now) (zip rows tokens), db') /\
    db_last db' = db_last db /\
    (forall id, id ∉ map sj_ID rows -> db_jobs db' !! id = db_jobs db !! id) /\
    (forall jt, jt ∈ zip rows tokens -> db_jobs db' !! sj_ID jt.1 = Some (claimed_row lu now jt)).
Proof.
  induction rows as [|j rows IH]; intros tokens db Hlen Hrows Hnd; cbn.
  { exists db. split_and!; [done|done|done|]. intros jt Hjt. by apply elem_of_nil in Hjt. }
  destruct tokens as [|t tokens]; [cbn in Hlen; lia|]. cbn in Hnd. apply NoDup_cons in Hnd as [Hn Hnd].
  destruct (Hrows j) as [Hj Hc]; [left|]. destruct (claim_row_ok fk t lu now j db Hj Hc) as [h Eh]. cbn. rewrite Eh.
  set (db1 := put_job _ _). destruct (IH tokens db1) as (db' & E & Hlast & Hout & Hin).
  - cbn in Hlen. lia.
  - intros i Hi. destruct (Hrows i) as [Hi1 Hi2]; [by right|]. split; [|done]. cbn. rewrite lookup_insert_ne; [done|].
    intros Hid. apply Hn. rewrite Hid. apply list_elem_of_fmap. by exists i.
  - done.
  - rewrite E. exists db'. split_and!; [done|by rewrite Hlast| |].
    + intros id Hid. apply not_elem_of_cons in Hid as [Hid1 Hid2]. rewrite Hout by done. cbn. by rewrite lookup_insert_ne.
    + intros jt [->|Hjt]%elem_of_cons; [|by apply Hin]. cbn [fst]. rewrite Hout by done. cbn. by rewrite lookup_insert_eq.
Qed.

(** ** Claims take due jobs *)

Definition fresh_tokens (tokens : list string) (used : list (Z * string)) : Prop :=
  NoDup tokens /\ forall t, t ∈ tokens -> t <> "" /\ t ∉ map snd used.

(** A claim takes exactly the due rows the query selected, at most [limit] of them and
    the earliest: each becomes running under its own token, with a new lease and one
    attempt more, and is returned as it is stored; no other row changes. *)
Theorem claim_takes_due fk now limit lease rows tokens db db' answer :
  table_ok db -> selects now (claim_limit limit) db rows -> length tokens = length rows ->
  claimDueScheduledJobsOnce fk true rows tokens now lease db = (answer, db') ->
  exists claimed, answer = inr claimed /\ map sj_ID claimed = map sj_ID rows /\
    Z.of_nat (length claimed) <= claim_limit limit /\
    (forall j, j ∈ claimed -> db_jobs db' !! sj_ID j = Some j /\ sj_Status j = JobStatusRunning /\ sj_ClaimToken j ∈ tokens /\
      sj_LeaseUntil j = Some (now + (if lease <=? 0 then default_lease else lease)) /\
      exists i, db_jobs db !! sj_ID j = Some i /\ due now i = true /\ sj_AttemptCount j = sj_AttemptCount i + 1 /\
        sj_NextRunAt j = sj_NextRunAt i) /\
    (forall id, id ∉ map sj_ID claimed -> db_jobs db' !! id = db_jobs db !! id).
Proof.
  intros Hdb Hsel Hlen E. unfold claimDueScheduledJobsOnce in E. set (ls := if lease <=? 0 then _ else _) in *.
  destruct (claim_rows_ok fk (now + ls) now rows tokens db) as (db1 & E1 & Hlast & Hout & Hin); [lia| |apply Hsel|].
  { intros j Hj. destruct (se_rows _ _ _ _ Hsel j Hj) as [H1 H2]. split; [done|]. unfold due in H2. by bool_to_prop. }
  assert (Hids : map sj_ID (map (claimed_row (now + ls) now) (zip rows tokens)) = map sj_ID rows).
  { transitivity (map sj_ID (fst <$> zip rows tokens)); [|by rewrite fst_zip by lia].
    change (fst <$> zip rows tokens) with (map fst (zip rows tokens)). by rewrite !List.map_map. }
  assert (E' : answer = inr (map (claimed_row (now + ls) now) (zip rows tokens)) /\ db' = db1).
  { destruct rows as [|r rows]; [cbn in *; by simplify_eq|]. rewrite E1 in E. by simplify_eq. }
  destruct E' as [-> ->]. eexists. split; [done|]. split_and!; [done| | |].
  - rewrite length_map, length_zip. pose proof (se_limit _ _ _ _ Hsel). lia.
  - intros j ([i t] & -> & Hjt)%list_elem_of_fmap. pose proof (Hin _ Hjt) as Hr. cbn in Hr.
    apply elem_of_zip_l in Hjt as Hi. apply elem_of_zip_r in Hjt as Ht.
    destruct (se_rows _ _ _ _ Hsel i Hi) as [Hi1 Hi2]. split_and!; [done|done|done|done|]. by exists i.
  - intros id Hid. apply Hout. by rewrite <- Hids.
Qed.

(** ** The next slot of a recurring job *)

Lemma next_slot_spec step now : forall fuel nextRun, 0 < step -> now - nextRun < Z.of_nat fuel * step ->
  now < next_slot fuel step nextRun now /\
  exists k, 0 <= k /\ next_slot fuel step nextRun now = nextRun + k * step /\ (0 < k -> nextRun + (k - 1) * step <= now).
Proof.
  induction fuel as [|fuel IH]; intros nextRun Hs Hf; cbn [next_slot]; [split; [lia|]; exists 0; lia|].
  unfold after. destruct (Z.ltb_spec now nextRun) as [Hlt|Hge]; [split; [done|]; exists 0; lia|].
  destruct (IH (nextRun + step) Hs) as (H1 & k & Hk & H2 & H3); [lia|]. split; [done|]. exists (k + 1). rewrite H2. split; [lia|].
  split; [lia|]. intros _. destruct (decide (k = 0)) as [->|]; [lia|]. specialize (H3 ltac:(lia)). lia.
Qed.

(** A recurring job that completes is pending again at its next slot: the first time
    after [now] among [next_run_at] plus whole multiples of the interval, however many
    slots were missed, with no attempts counted and its completion in the history. The
    interval is any [ScheduleRecurring] can store, a positive [time.Duration] in seconds. *)
Theorem complete_recurring_next_slot fk id token durationMs now db j :
  table_ok db -> owned_row id token db = Some j -> 0 < sj_interval j <= max_int64 / second ->
  let '(err, db') := CompleteScheduledJob fk true id token durationMs now db in
  let step := sj_interval j * second in
  err = None /\ exists k, 1 <= k /\
    now < sj_NextRunAt j + k * step /\ (1 < k -> sj_NextRunAt j + (k - 1) * step <= now) /\
    db_jobs db' = <[id := sj_complete (sj_NextRunAt j + k * step) now j]> (db_jobs db) /\
    db_history db' = db_history db ++ [mkHistory id now durationMs true ""].
Proof.
  intros Hdb Ho [Hi1 Hi2]. unfold CompleteScheduledJob. rewrite Ho. destruct (Z.ltb_spec 0 (sj_interval j)); [|lia].
  assert (Hj : db_jobs db !! id = Some j).
  { unfold owned_row in Ho. destruct (db_jobs db !! id) as [i|]; [|done]. by destruct (_ && _); [injection Ho as ->|]. }
  assert (Hid : sj_ID j = id) by (by eapply tb_key).
  assert (Hstep : interval_step (sj_interval j) = sj_interval j * second).
  { unfold interval_step. apply wrap64_id. assert (sj_interval j * second <= max_int64) by (pose proof (Z.mul_div_le max_int64 second ltac:(done)); unfold second in *; lia).
    unfold max_int64, min_int64, second in *. lia. }
  unfold insert_history. cbn. rewrite Hid, lookup_insert_eq, andb_false_r. cbn. split; [done|].
  unfold advance. rewrite Hstep. set (step := sj_interval j * second). assert (0 < step) by (unfold step, second; lia).
  destruct (next_slot_spec step now (Z.to_nat ((now - sj_NextRunAt j) / step + 1)) (sj_NextRunAt j + step)) as (H1 & k & Hk & H2 & H3); [done| |].
  { pose proof (Z.mod_pos_bound (now - sj_NextRunAt j) step ltac:(lia)).
    pose proof (Z.div_mod (now - sj_NextRunAt j) step ltac:(lia)).
    destruct (Z.le_gt_cases 0 ((now - sj_NextRunAt j) / step + 1)); [rewrite Z2Nat.id by done; nia|]. nia. }
  rewrite H2 in *. exists (k + 1). replace (sj_NextRunAt j + (k + 1) * step) with (sj_NextRunAt j + step + k * step) by lia.
  split_and!; [lia|done| |done|done]. intros Hk1. specialize (H3 ltac:(lia)). lia.
Qed.

(** ** The deadline of the scheduler *)

Lemma omin_le_l a b x : a = Some x -> exists y, omin a b = Some y /\ y <= x.
Proof. intros ->. destruct b as [y|]; cbn; eexists; split; [done|lia|done|lia]. Qed.
Lemma omin_le_r a b x : b = Some x -> exists y, omin a b = Some y /\ y <= x.
Proof. intros ->. destruct a as [y|]; cbn; eexists; split; [done|lia|done|lia]. Qed.

Lemma earliest_le (m : gmap Z ScheduledJob) id j t : m !! id = Some j -> due_time j = Some t ->
  exists e, map_fold (fun _ j acc => omin (due_time j) acc) None m = Some e /\ e <= t.
Proof.
  revert id j t. apply (map_fold_weak_ind (fun r m => forall id j t, m !! id = Some j -> due_time j = Some t -> exists e, r = Some e /\ e <= t)).
  - done.
  - intros i x m' r Hi IH id j t [[<- <-]|[_ Hj]]%lookup_insert_Some Ht; [by apply omin_le_l|].
    destruct (IH id j t Hj Ht) as (e & -> & He). destruct (omin_le_r (due_time x) _ e eq_refl) as (y & E & Hy). exists y. split; [done|lia].
Qed.

Lemma earliest_attained (m : gmap Z ScheduledJob) e : map_fold (fun _ j acc => omin (due_time j) acc) None m = Some e ->
  exists id j, m !! id = Some j /\ due_time j = Some e.
Proof.
  apply (map_fold_weak_ind (fun r m => r = Some e -> exists id j, m !! id = Some j /\ due_time j = Some e)); [done|].
  intros i x m' r Hi IH E.
  assert (H : due_time x = Some e \/ r = Some e).
  { destruct (due_time x) as [a|]; [|by right]. destruct r as [b|]; cbn in E; [|by left]. injection E as <-.
    destruct (Z.min_spec a b) as [[_ ->]|[_ ->]]; auto. }
  destruct H as [H|H]; [exists i, x; by rewrite lookup_insert_eq|]. destruct (IH H) as (id & j & Hj & Ht).
  exists id, j. rewrite lookup_insert_ne; [done|]. intros ->. congruence.
Qed.

(** [GetEarliestDueTime] never lets a due job sleep: whatever could be claimed at [now],
    the deadline it gives the scheduler loop is not after [now]; and when it gives a
    deadline not after [now], some row is pending and due, or runs under a lease that
    ends by then. *)
Theorem earliest_due_wakes now db :
  (forall id j, db_jobs db !! id = Some j -> due now j = true ->
    exists e, GetEarliestDueTime true db = inr (Some e) /\ e <= now) /\
  (forall e, GetEarliestDueTime true db = inr (Some e) -> e <= now -> exists id j, db_jobs db !! id = Some j /\
    (sj_Status j = JobStatusPending /\ sj_NextRunAt j <= now \/ sj_Status j = JobStatusRunning /\ exists u, sj_LeaseUntil j = Some u /\ u <= now)).
Proof.
  unfold GetEarliestDueTime. split.
  - intros id j Hj Hd. unfold due, claimable, expired_lease in Hd. bool_to_prop.
    assert (exists t, due_time j = Some t /\ t <= now) as (t & Ht & Hle).
    { unfold due_time. destruct (bool_decide (sj_Status j = JobStatusPending)); [by eexists|]. cbn in H.
      destruct (bool_decide (sj_Status j = JobStatusRunning)); [|done]. destruct (sj_LeaseUntil j) as [u|]; [|done]. cbn in H.
      bool_to_prop. exists u. split; [done|lia]. }
    destruct (earliest_le _ id j t Hj Ht) as (e & -> & He). exists e. split; [done|lia].
  - intros e [= E] He. destruct (earliest_attained _ _ E) as (id & j & Hj & Ht). exists id, j. split; [done|].
    unfold due_time in Ht. destruct (bool_decide _) eqn:E1; bool_to_prop; [left; simplify_eq; by split|].
    destruct (bool_decide _) eqn:E2; bool_to_prop; [|done]. right. split; [done|]. by exists e.
Qed.

(** ** Claims over time *)

(** [ss_issued] are the claims handed out, [ss_settled] those a [CompleteScheduledJob] or
    [FailScheduledJob] ended. *)
Record sched_sys := mkSys { ss_db : sched_db; ss_issued : list (Z * string); ss_settled : list (Z * string) }.

Inductive sched_op :=
  | SoCreate (io : bool) (now : time) (job : ScheduledJob)
  | SoActivate (io : bool) (id : Z)
  | SoClaim (attempts : list claim_attempt) (rows : list ScheduledJob) (tokens : list string) (now : time) (limit : Z) (lease : duration)
  | SoComplete (io : bool) (id : Z) (token : string) (durationMs : Z) (now : time)
  | SoFail (io : bool) (id : Z) (token lastError : string) (durationMs : Z) (retryDelay : duration) (isPermanent : bool) (now : time)
  | SoRenew (io : bool) (id : Z) (token : string) (extension : duration) (now : time)
  | SoUpdateNext (io : bool) (id : Z) (nextRun : time)
  | SoRecordFailure (io : bool) (id : Z) (lastError : string)
  | SoDelete (io : bool) (id : Z)
  | SoRecordRun (io : bool) (h : JobHistoryEntry).

(** What a caller and the environment keep to: the query of a claim answers what SQL
    promises, its random tokens are new, and a row is created unclaimed. *)
Definition op_ok (s : sched_sys) (op : sched_op) : Prop :=
  match op with
  | SoCreate _ _ job => sj_Status job ∈ [""%string; JobStatusInitializing; JobStatusPending]
  | SoClaim _ rows tokens now limit _ =>
      selects now (claim_limit limit) (ss_db s) rows /\ length tokens = length rows /\ fresh_tokens tokens (ss_issued s)
  | _ => True
  end.

Definition settle_log (res : option sched_error * sched_db) (id : Z) (token : string) (s : sched_sys) : sched_sys :=
  mkSys res.2 (ss_issued s) (match res.1 with None => (id, token) :: ss_settled s | Some _ => ss_settled s end).
Definition with_db (db : sched_db) (s : sched_sys) : sched_sys := mkSys db (ss_issued s) (ss_settled s).

Definition sched_step (fk : bool) (op : sched_op) (s : sched_sys) : sched_sys :=
  let db := ss_db s in
  match op with
  | SoCreate io now job => with_db (CreateScheduledJob io now job db).2 s
  | SoActivate io id => with_db (ActivateScheduledJob io id db).2 s
  | SoClaim attempts rows tokens now limit lease =>
      let '(answer, db) := ClaimDueScheduledJobs attempts claim_max_attempts fk rows tokens now lease db in
      mkSys db (match answer with inr jobs => map (fun j => (sj_ID j, sj_ClaimToken j)) jobs | inl _ => [] end ++ ss_issued s) (ss_settled s)
  | SoComplete io id token d now => settle_log (CompleteScheduledJob fk io id token d now db) id token s
  | SoFail io id token e d delay permanent now => settle_log (FailScheduledJob fk io id token e d delay permanent now db) id token s
  | SoRenew io id token ext now => with_db (RenewJobLease io id token ext now db).2 s
  | SoUpdateNext io id next => with_db (UpdateScheduledJobNextRun io id next db).2 s
  | SoRecordFailure io id e => with_db (RecordJobFailure io id e db).2 s
  | SoDelete io id => with_db (DeleteScheduledJob fk io id db).2 s
  | SoRecordRun io h => with_db (RecordJobRun fk io h db).2 s
  end.

Inductive sched_reach (fk : bool) (s : sched_sys) : sched_sys -> Prop :=
  | sched_refl : sched_reach fk s s
  | sched_next op s' : sched_reach fk s s' -> op_ok s' op -> sched_reach fk s (sched_step fk op s').
Definition sched_start : sched_sys := mkSys (mkDb ∅ 0 []) [] [].

(** Whoever holds this claim of this job may settle it. *)
Definition owns (db : sched_db) (id : Z) (token : string) : Prop := is_Some (owned_row id token db).

Record sys_ok (s : sched_sys) : Prop := {
  sy_table : table_ok (ss_db s);
  sy_owner : forall id t, owns (ss_db s) id t -> (id, t) ∈ ss_issued s /\ (id, t) ∉ ss_settled s;
  sy_settled : forall c, c ∈ ss_settled s -> c ∈ ss_issued s;
  sy_once : NoDup (ss_settled s)
}.

Lemma owns_row db id t : owns db id t <->
  exists j, db_jobs db !! id = Some j /\ sj_Status j = JobStatusRunning /\ sj_ClaimToken j = t.
Proof.
  unfold owns, owned_row. destruct (db_jobs db !! id) as [j|].
  - destruct (bool_decide (sj_Status j = _)) eqn:E1, (bool_decide (sj_ClaimToken j = t)) eqn:E2; cbn; bool_to_prop;
      split; try (intros [? ?]; done); intros; try naive_solver.
  - split; [intros [? ?]; done|naive_solver].
Qed.

(** How the owners of two tables compare: [new] are those the second has more. *)
Definition owners_within (db db' : sched_db) (new : Z -> string -> Prop) : Prop :=
  forall id t, owns db' id t -> owns db id t \/ new id t.

Lemma owns_put db j id t : owns (put_job j db) id t ->
  owns db id t /\ id <> sj_ID j \/ id = sj_ID j /\ sj_Status j = JobStatusRunning /\ sj_ClaimToken j = t.
Proof.
  rewrite !owns_row. intros (i & Hi & Hs & Ht). cbn in Hi. apply lookup_insert_Some in Hi as [[<- <-]|[Hne Hi]]; [by right|].
  left. split; [by exists i|done].
Qed.

Lemma put_table_ok db j : table_ok db -> is_Some (db_jobs db !! sj_ID j) -> table_ok (put_job j db).
Proof.
  intros [H1 H2] [i Hi]. split; cbn; intros id k [[<- <-]|[_ Hk]]%lookup_insert_Some; eauto.
Qed.

Lemma delete_table_ok fk db id : table_ok db -> table_ok (delete_row fk id db).
Proof. intros [H1 H2]. split; cbn; intros k j [_ Hj]%lookup_delete_Some; eauto. Qed.

Lemma owns_delete fk db id k t : owns (delete_row fk id db) k t -> owns db k t /\ k <> id.
Proof.
  rewrite !owns_row. intros (j & Hj & ?). cbn in Hj. apply lookup_delete_Some in Hj as [Hne Hj]. split; [by exists j|done].
Qed.

Lemma owns_jobs db db' id t : db_jobs db' = db_jobs db -> owns db' id t <-> owns db id t.
Proof. intros E. by rewrite !owns_row, E. Qed.

Lemma table_jobs db db' : db_jobs db' = db_jobs db -> db_last db' = db_last db -> table_ok db -> table_ok db'.
Proof. intros E1 E2 [H1 H2]. split; rewrite E1, ?E2; eauto. Qed.

(** ** What a step does to the claims *)

Record steps_to (s s' : sched_sys) (new : list (Z * string)) : Prop := {
  st_table : table_ok (ss_db s');
  st_issued : ss_issued s' = new ++ ss_issued s;
  st_new : forall c, c ∈ new -> c ∉ ss_issued s;
  st_owns : forall id t, owns (ss_db s') id t -> owns (ss_db s) id t \/ (id, t) ∈ new;
  st_settled : ss_settled s' = ss_settled s \/
    exists id t, ss_settled s' = (id, t) :: ss_settled s /\ owns (ss_db s) id t /\ forall u, ~ owns (ss_db s') id u
}.

Lemma keep_ok s db : table_ok db -> (forall id t, owns db id t -> owns (ss_db s) id t) -> steps_to s (with_db db s) [].
Proof.
  intros Ht Ho. split; cbn; [done|done| | |by left].
  - intros c Hc. by apply elem_of_nil in Hc.
  - intros id t H. left. by apply Ho.
Qed.

Lemma same_ok s : table_ok (ss_db s) -> steps_to s (with_db (ss_db s) s) [].
Proof. intros H. by apply keep_ok. Qed.

Lemma settle_row_ok s id token res j : table_ok (ss_db s) -> owned_row id token (ss_db s) = Some j ->
  (forall db', res = Some db' -> table_ok db' /\ forall k t, owns db' k t -> owns (ss_db s) k t /\ k <> id) ->
  steps_to s (settle_log (commit res (ss_db s)) id token s) [].
Proof.
  intros Ht Hj Hres. assert (Ho : owns (ss_db s) id token) by (by exists j).
  destruct res as [db'|]; cbn; [|by apply same_ok]. destruct (Hres db' eq_refl) as [Ht' Ho'].
  split; cbn; [done|done| | |].
  - intros c Hc. by apply elem_of_nil in Hc.
  - intros k t Hk. left. by apply Ho'.
  - right. exists id, token. split_and!; [done|done|]. intros u Hu. by apply Ho' in Hu as [_ ?].
Qed.

Lemma insert_history_jobs fk h db db' : insert_history fk h db = Some db' -> db_jobs db' = db_jobs db /\ db_last db' = db_last db.
Proof. unfold insert_history. destruct (_ && _); [done|]. intros [= <-]. done. Qed.

Lemma owned_row_lookup db id token j : owned_row id token db = Some j ->
  db_jobs db !! id = Some j /\ sj_Status j = JobStatusRunning /\ sj_ClaimToken j = token.
Proof.
  unfold owned_row. destruct (db_jobs db !! id) as [i|]; [|done]. destruct (_ && _) eqn:E; [|done]. intros [= ->]. by bool_to_prop.
Qed.

Lemma update_row_ok io id f s : table_ok (ss_db s) -> (forall j, sj_ID (f j) = sj_ID j) ->
  (forall j t, sj_Status (f j) = JobStatusRunning -> sj_ClaimToken (f j) = t -> sj_Status j = JobStatusRunning /\ sj_ClaimToken j = t) ->
  steps_to s (with_db (update_row io id f (ss_db s)).2 s) [].
Proof.
  intros H Hid Hf. unfold update_row. destruct io; [|by apply same_ok]. destruct (db_jobs (ss_db s) !! id) as [j|] eqn:Hj; [|by apply same_ok].
  assert (Hk : sj_ID j = id) by (eapply tb_key; [exact H|done]). cbn. apply keep_ok.
  - apply put_table_ok; [exact H|]. rewrite Hid, Hk. by exists j.
  - intros k t [[Ho _]|(-> & Hs & Ht)]%owns_put; [done|]. rewrite Hid, Hk. apply owns_row. exists j. split; [done|]. by apply Hf.
Qed.

Lemma claim_due_cases fk rows tokens now lease db : forall attempts n,
  (exists e, ClaimDueScheduledJobs attempts n fk rows tokens now lease db = (inl e, db)) \/
  ClaimDueScheduledJobs attempts n fk rows tokens now lease db = claimDueScheduledJobsOnce fk true rows tokens now lease db.
Proof.
  induction attempts as [|a attempts IH]; intros n; cbn; [left; by eexists|].
  destruct a as [|cancelled|], n as [|[|n]]; cbn; try (left; by eexists); try (by right). destruct cancelled; [left; by eexists|apply IH].
Qed.

Lemma claim_step_ok fk attempts rows tokens now limit lease s : table_ok (ss_db s) -> op_ok s (SoClaim attempts rows tokens now limit lease) ->
  exists new, steps_to s (sched_step fk (SoClaim attempts rows tokens now limit lease) s) new.
Proof.
  intros H1 (Hsel & Hlen & Hnd & Hfresh). cbn [sched_step].
  destruct (claim_due_cases fk rows tokens now lease (ss_db s) attempts claim_max_attempts) as [[e ->]| ->]; [exists []; by apply same_ok|].
  unfold claimDueScheduledJobsOnce. set (ls := if lease <=? 0 then _ else _).
  destruct (claim_rows_ok fk (now + ls) now rows tokens (ss_db s)) as (db1 & E1 & Hlast & Hout & Hin); [lia| |apply Hsel|].
  { intros j Hj. destruct (se_rows _ _ _ _ Hsel j Hj) as [Hj1 Hj2]. split; [done|]. unfold due in Hj2. by bool_to_prop. }
  set (res := match rows with [] => _ | _ => _ end).
  assert (E : exists claimed, res = (inr claimed, db1) /\ claimed = map (claimed_row (now + ls) now) (zip rows tokens)).
  { subst res. destruct rows as [|r rows]; [cbn in *; simplify_eq; by eexists|]. rewrite E1. by eexists. }
  destruct E as (claimed & -> & ->).
  assert (Hrow : forall id j, db_jobs db1 !! id = Some j -> (exists jt, jt ∈ zip rows tokens /\ j = claimed_row (now + ls) now jt /\ id = sj_ID jt.1) \/
    db_jobs (ss_db s) !! id = Some j).
  { intros id j Hj. destruct (decide (id ∈ map sj_ID rows)) as [Hid|Hid]; [left|right; by rewrite <- Hout].
    rewrite <- (fst_zip rows tokens) in Hid by lia. apply list_elem_of_fmap in Hid as (i & -> & (jt & -> & Hjt)%list_elem_of_fmap).
    exists jt. split_and!; [done| |done]. specialize (Hin jt Hjt). congruence. }
  eexists. split; cbn; [|done| | |by left].
  - split.
    + intros id j Hj. destruct (Hrow id j Hj) as [(jt & _ & -> & ->)|Hj']; [done|by eapply tb_key].
    + intros id j Hj. rewrite Hlast. destruct (Hrow id j Hj) as [(jt & Hjt & -> & ->)|Hj']; [|by eapply tb_last].
      destruct jt as [i t]. apply elem_of_zip_l in Hjt. apply (tb_last _ H1 (sj_ID i) i). by apply (se_rows _ _ _ _ Hsel).
  - intros c (j & -> & ([i t] & -> & Hjt)%list_elem_of_fmap)%list_elem_of_fmap Hc. apply elem_of_zip_r in Hjt.
    apply (Hfresh t Hjt). apply list_elem_of_fmap. by exists (sj_ID i, t).
  - intros id t (j & Hj & Hs & Ht)%owns_row. destruct (Hrow id j Hj) as [([i u] & Hjt & -> & ->)|Hj'].
    + right. cbn in Ht. subst u. apply list_elem_of_fmap. eexists. split; [|apply list_elem_of_fmap; by exists (i, t)]. done.
    + left. apply owns_row. by exists j.
Qed.

Lemma sched_step_ok fk op s : table_ok (ss_db s) -> op_ok s op -> exists new, steps_to s (sched_step fk op s) new.
Proof.
  intros H Hop. destruct op as [io now job|io id|attempts rows tokens now limit lease|io id token d now|io id token e d delay perm now|
    io id token ext now|io id next|io id e|io id|io h]; [| |by apply claim_step_ok| | | | | | |]; cbn [sched_step]; exists [].
  - unfold CreateScheduledJob. destruct io; [|by apply same_ok]. cbn [snd]. apply keep_ok.
    + destruct H as [K1 K2]. split; cbn; intros k j [[<- <-]|[_ Hj]]%lookup_insert_Some; eauto; [lia|]. specialize (K2 k j Hj). lia.
    + intros id t. rewrite !owns_row. intros (j & Hj & Hs & Ht). cbn in Hj. apply lookup_insert_Some in Hj as [[<- <-]|[_ Hj]]; [|by exists j].
      exfalso. cbn in Hs, Hop. destruct (String.eqb_spec (sj_Status job) ""); [done|]. rewrite Hs in Hop. set_solver.
  - unfold ActivateScheduledJob. destruct io; [|by apply same_ok]. destruct (db_jobs (ss_db s) !! id) as [j|] eqn:Hj; [|by apply same_ok].
    destruct (bool_decide _) eqn:Hst; [|by apply same_ok]. assert (Hk : sj_ID j = id) by (eapply tb_key; [exact H|done]). cbn. apply keep_ok.
    + apply put_table_ok; [exact H|]. cbn. rewrite Hk. by exists j.
    + intros k t [[Ho _]|(_ & Hs & _)]%owns_put; [done|]. done.
  - unfold CompleteScheduledJob. destruct io; [|by apply same_ok]. destruct (owned_row id token (ss_db s)) as [j|] eqn:Hj; [|by apply same_ok].
    destruct (owned_row_lookup _ _ _ _ Hj) as (Hl & Hs & Ht). assert (Hk : sj_ID j = id) by (eapply tb_key; [exact H|done]).
    eapply (settle_row_ok _ _ _ _ j); [done|done|]. intros db' (Ej & El)%insert_history_jobs. destruct (0 <? sj_interval j).
    + split; [eapply table_jobs; [done|done|]; apply put_table_ok; [exact H|cbn; rewrite Hk; by exists j]|].
      intros k t Ho. rewrite (owns_jobs _ _ _ _ Ej) in Ho. apply owns_put in Ho as [[Ho Hne]|(_ & Hs' & _)]; [|done]. by rewrite <- Hk.
    + split; [eapply table_jobs; [done|done|]; apply delete_table_ok, H|].
      intros k t Ho. rewrite (owns_jobs _ _ _ _ Ej) in Ho. by apply owns_delete in Ho.
  - unfold FailScheduledJob. destruct io; [|by apply same_ok]. destruct (owned_row id token (ss_db s)) as [j|] eqn:Hj; [|by apply same_ok].
    destruct (owned_row_lookup _ _ _ _ Hj) as (Hl & Hs & Ht). assert (Hk : sj_ID j = id) by (eapply tb_key; [exact H|done]).
    set (j' := if perm || _ then _ else _).
    assert (Hj' : sj_ID j' = id /\ sj_Status j' <> JobStatusRunning) by (unfold j'; destruct (perm || _); done).
    eapply (settle_row_ok _ _ _ _ j); [done|done|]. intros db' (Ej & El)%insert_history_jobs.
    split; [eapply table_jobs; [done|done|]; apply put_table_ok; [exact H|rewrite (proj1 Hj'); by exists j]|].
    intros k t Ho. rewrite (owns_jobs _ _ _ _ Ej) in Ho. apply owns_put in Ho as [[Ho Hne]|(_ & Hs' & _)]; [|by destruct Hj'].
    split; [done|]. by rewrite (proj1 Hj') in Hne.
  - unfold RenewJobLease. destruct io; [|by apply same_ok]. destruct (owned_row id token (ss_db s)) as [j|] eqn:Hj; [|by apply same_ok].
    destruct (owned_row_lookup _ _ _ _ Hj) as (Hl & Hs & Ht). assert (Hk : sj_ID j = id) by (eapply tb_key; [exact H|done]). cbn.
    apply keep_ok; [apply put_table_ok; [exact H|cbn; rewrite Hk; by exists j]|].
    intros k t [[Ho _]|(-> & _ & Ht')]%owns_put; [done|]. cbn in *. rewrite Hk. apply owns_row. by exists j.
  - by apply update_row_ok.
  - by apply update_row_ok.
  - unfold DeleteScheduledJob. destruct io; [|by apply same_ok]. destruct (db_jobs (ss_db s) !! id) as [j|]; [|by apply same_ok]. cbn.
    apply keep_ok; [apply delete_table_ok, H|]. by intros k t [Ho _]%owns_delete.
  - unfold RecordJobRun. destruct io; [|by apply same_ok]. destruct (insert_history fk h (ss_db s)) as [db'|] eqn:E; [|by apply same_ok]. cbn.
    apply insert_history_jobs in E as [Ej El]. apply keep_ok; [eapply table_jobs; [done|done|exact H]|].
    intros k t. by rewrite (owns_jobs _ _ _ _ Ej).
Qed.

Lemma sys_step_ok fk op s : sys_ok s -> op_ok s op -> sys_ok (sched_step fk op s).
Proof.
  intros [H1 H2 H3 H4] Hop. destruct (sched_step_ok fk op s H1 Hop) as [new [T1 T2 T3 T4 T5]].
  assert (Hn : forall c, c ∈ new -> c ∉ ss_settled s) by (intros c Hc Hs; by eapply T3; [|apply H3]).
  split; [done| | |].
  - intros id t Ho. rewrite T2, elem_of_app. destruct (T4 id t Ho) as [Ho'|Hi].
    + destruct (H2 id t Ho') as [Hi Hs]. split; [by right|]. destruct T5 as [->|(k & u & -> & _ & Hno)]; [done|].
      intros [[= -> ->]|Hin]%elem_of_cons; [by eapply Hno|done].
    + split; [by left|]. destruct T5 as [->|(k & u & -> & _ & Hno)]; [by apply Hn|].
      intros [[= -> ->]|Hin]%elem_of_cons; [by eapply Hno|by eapply Hn].
  - intros c. rewrite T2, elem_of_app. destruct T5 as [->|(k & u & -> & Ho & _)]; [right; by apply H3|].
    intros [->|Hc]%elem_of_cons; right; [by apply H2|by apply H3].
  - destruct T5 as [->|(k & u & -> & Ho & _)]; [done|]. constructor; [by apply H2|done].
Qed.

Lemma sched_start_ok : sys_ok sched_start.
Proof.
  split; cbn; [split; cbn; intros id j Hj; by apply lookup_empty_Some in Hj| | |constructor].
  - intros id t (j & Hj & _)%owns_row. cbn in Hj. by apply lookup_empty_Some in Hj.
  - intros c Hc. by apply elem_of_nil in Hc.
Qed.

Lemma sched_reach_ok fk s s' : sched_reach fk s s' -> sys_ok s -> sys_ok s'.
Proof. induction 1 as [|op s' _ IH Hop]; intros H; [done|]. by apply sys_step_ok; [apply IH|]. Qed.

Lemma lost_reach fk s s' id t : sched_reach fk s s' -> sys_ok s -> (id, t) ∈ ss_issued s -> ~ owns (ss_db s) id t ->
  (id, t) ∈ ss_issued s' /\ ~ owns (ss_db s') id t.
Proof.
  intros Hr Hs Hi Hn. induction Hr as [|op s' Hr IH Hop]; [done|]. destruct IH as [Hi' Hn'].
  destruct (sched_step_ok fk op s') as [new [T1 T2 T3 T4 T5]]; [by eapply sy_table, (sched_reach_ok _ _ _ Hr)|done|]. split.
  - rewrite T2. apply elem_of_app. by right.
  - intros [Ho|Ho]%T4; [done|]. by eapply T3.
Qed.

Definition refused (id : Z) (token : string) (fk : bool) (db : sched_db) : Prop :=
  (forall d now, CompleteScheduledJob fk true id token d now db = (Some ErrJobLeaseLost, db)) /\
  (forall e d delay permanent now, FailScheduledJob fk true id token e d delay permanent now db = (Some ErrJobLeaseLost, db)) /\
  (forall ext now, RenewJobLease true id token ext now db = (Some ErrJobLeaseLost, db)).

Lemma refused_iff fk id t db : ~ owns db id t -> refused id t fk db.
Proof.
  intros Hn. assert (E : owned_row id t db = None) by (unfold owns in Hn; destruct (owned_row id t db); [by destruct Hn|done]).
  unfold refused, CompleteScheduledJob, FailScheduledJob, RenewJobLease. by rewrite E.
Qed.

(** C35. Fencing: once a worker that was handed a claim is told that its lease is lost (the
    lease expired and the job was claimed again, the job was deleted, or the claim was
    settled), every later completion, failure or renewal under that claim is refused with
    [ErrJobLeaseLost] and changes nothing, whatever happens in between; and a claim is
    settled at most once. *)
Theorem lost_lease_stays_lost fk s s' id token d now :
  sched_reach fk sched_start s -> sched_reach fk s s' -> (id, token) ∈ ss_issued s ->
  (CompleteScheduledJob fk true id token d now (ss_db s)).1 = Some ErrJobLeaseLost \/ (id, token) ∈ ss_settled s ->
  refused id token fk (ss_db s') /\ NoDup (ss_settled s').
Proof.
  intros Hr Hr' Hi Hlost. pose proof (sched_reach_ok _ _ _ Hr sched_start_ok) as Hs.
  pose proof (sched_reach_ok _ _ _ Hr' Hs) as Hs'. split; [|apply Hs'].
  assert (Hn : ~ owns (ss_db s) id token).
  { destruct Hlost as [Hlost|Hset]; [|intros Ho; by apply (sy_owner _ Hs) in Ho as [_ ?]].
    intros [j Hj]. unfold CompleteScheduledJob in Hlost. rewrite Hj in Hlost. unfold commit in Hlost. by destruct (insert_history _ _ _). }
  apply refused_iff. by eapply lost_reach.
Qed.

(** ** Executions *)

(** [due_list] cut at the limit is an answer SQL may give. *)
Lemma due_list_selects now limit db : table_ok db -> 0 <= limit -> selects now limit db (take (Z.to_nat limit) (due_list now db)).
Proof.
  intros Hdb Hl. set (l := due_list now db).
  assert (Hin : forall j, j ∈ l <-> db_jobs db !! sj_ID j = Some j /\ due now j = true).
  { intros j. unfold l, due_list. rewrite merge_sort_Permutation, list_elem_of_filter, list_elem_of_fmap. split.
    - intros (Hd & [k i] & -> & Hk%elem_of_map_to_list). cbn in *. by rewrite (tb_key _ Hdb k i Hk).
    - intros [Hj Hd]. split; [done|]. exists (sj_ID j, j). split; [done|]. by apply elem_of_map_to_list. }
  assert (Hsorted : StronglySorted run_before l) by apply (StronglySorted_merge_sort run_before).
  assert (Hnd : NoDup (sj_ID <$> l)).
  { unfold l, due_list. rewrite merge_sort_Permutation. eapply sublist_NoDup; [|apply fmap_sublist, sublist_filter].
    change (map snd (map_to_list (db_jobs db))) with (snd <$> map_to_list (db_jobs db)). rewrite <- list_fmap_compose.
    rewrite (list_fmap_ext _ fst); [apply NoDup_fst_map_to_list|].
    intros i [k j] Hk%list_elem_of_lookup_2%elem_of_map_to_list. by apply (tb_key _ Hdb). }
  assert (Hsplit : l = take (Z.to_nat limit) l ++ drop (Z.to_nat limit) l) by (by rewrite take_drop).
  split.
  - intros j Hj. apply Hin. rewrite Hsplit. apply elem_of_app. by left.
  - eapply sublist_NoDup; [exact Hnd|apply fmap_sublist, sublist_take].
  - rewrite Hsplit in Hsorted. by apply StronglySorted_app in Hsorted as (_ & ? & _).
  - rewrite length_take. lia.
  - intros id j Hj Hd Hout. assert (Hjd : j ∈ drop (Z.to_nat limit) l).
    { assert (Hjl : j ∈ l) by (apply Hin; by rewrite (tb_key _ Hdb _ _ Hj)). rewrite Hsplit in Hjl. apply elem_of_app in Hjl as [Hjl|]; [|done].
      exfalso. apply Hout. apply list_elem_of_fmap. exists j. split; [|done]. symmetry. by apply (tb_key _ Hdb). }
    split.
    + apply list_elem_of_lookup in Hjd as [i Hi]. apply lookup_lt_Some in Hi. rewrite length_drop in Hi. rewrite length_take. lia.
    + intros i Hi. rewrite Hsplit in Hsorted. apply StronglySorted_app in Hsorted as (Hall & _). by apply Hall.
Qed.

Definition hourly : job_request := mkRequest 7 "chat" 0 "message" "hello" 3600 1.
Definition once : job_request := mkRequest 7 "chat" 0 "message" "bye" 0 1.
Definition new_job (r : job_request) (next : time) : ScheduledJob :=
  mkJob 0 r 0 next "" 0 JobStatusInitializing 3 None None None None "".

Definition sample_hour : time := 3600 * second.
Definition two_jobs : list sched_op :=
  [SoCreate true 1 (new_job hourly sample_hour); SoCreate true 1 (new_job once 5); SoActivate true 1; SoActivate true 2].
Definition run_ops (fk : bool) (ops : list sched_op) (s : sched_sys) : sched_sys := foldl (fun s op => sched_step fk op s) s ops.
Definition sample_two : sched_sys := run_ops false two_jobs sched_start.

Lemma run_ops_reach fk s0 : forall ops s, sched_reach fk s0 s ->
  (forall pre op post, ops = pre ++ op :: post -> op_ok (run_ops fk pre s) op) -> sched_reach fk s0 (run_ops fk ops s).
Proof.
  induction ops as [|op ops IH]; intros s Hs Hops; [done|]. cbn. apply IH.
  - apply sched_next; [done|]. by apply (Hops [] op ops).
  - intros pre op' post ->. by apply (Hops (op :: pre) op' post).
Qed.

(** The rows and tokens of a claim at [now]. *)
Definition claim_at (tokens : list string) (now : time) (lease : duration) (s : sched_sys) : sched_op :=
  let rows := take 10 (due_list now (ss_db s)) in SoClaim [AttemptOk] rows (take (length rows) tokens) now 10 lease.

Definition tokens_fresh (tokens : list string) (used : list (Z * string)) : bool :=
  bool_decide (NoDup tokens) && forallb (fun t => bool_decide (t <> ""%string) && bool_decide (t ∉ map snd used)) tokens.

Lemma claim_at_ok tokens now lease s : sys_ok s -> (length (take 10 (due_list now (ss_db s))) <= length tokens)%nat ->
  tokens_fresh (take (length (take 10 (due_list now (ss_db s)))) tokens) (ss_issued s) = true -> op_ok s (claim_at tokens now lease s).
Proof.
  intros Hs Hlen Hf. unfold tokens_fresh in Hf. apply andb_true_iff in Hf as [Hf1%bool_decide_eq_true Hf2].
  split; [apply (due_list_selects now 10); [apply Hs|lia]|]. split; [rewrite length_take; lia|]. split; [done|].
  intros t Ht%list_elem_of_In. rewrite forallb_forall in Hf2. specialize (Hf2 t Ht). by bool_to_prop.
Qed.

Lemma sample_two_reach : sched_reach false sched_start sample_two.
Proof.
  apply run_ops_reach; [apply sched_refl|]. unfold two_jobs. intros pre op post E.
  destruct pre as [|o1 [|o2 [|o3 [|o4 pre]]]]; cbn in E; simplify_eq; [cbn; right; left|cbn; right; left|exact I|exact I|].
  by destruct pre.
Qed.

Definition claimed_two : sched_sys := sched_step false (claim_at ["a"; "b"]%string sample_hour second sample_two) sample_two.
Lemma claimed_two_reach : sched_reach false sched_start claimed_two.
Proof.
  apply sched_next; [apply sample_two_reach|].
  apply claim_at_ok; [apply (sched_reach_ok _ _ _ sample_two_reach), sched_start_ok|vm_compute; lia|vm_compute; reflexivity].
Qed.

Definition later : time := 3 * sample_hour + 5.
Definition reclaimed : sched_sys := sched_step false (claim_at ["c"; "d"]%string later minute claimed_two) claimed_two.
Lemma reclaimed_reach : sched_reach false sched_start reclaimed.
Proof.
  apply sched_next; [apply claimed_two_reach|].
  apply claim_at_ok; [apply (sched_reach_ok _ _ _ claimed_two_reach), sched_start_ok|vm_compute; lia|vm_compute; reflexivity].
Qed.

Example claim_takes_due_witness : exists claimed,
  (claimDueScheduledJobsOnce false true (take 10 (due_list sample_hour (ss_db sample_two))) ["a"; "b"]%string sample_hour second (ss_db sample_two)).1
    = inr claimed /\ map sj_ID claimed = [2; 1].
Proof.
  destruct (claim_takes_due false sample_hour 10 second (take 10 (due_list sample_hour (ss_db sample_two))) ["a"; "b"]%string (ss_db sample_two)
    _ _ (sy_table _ (sched_reach_ok _ _ _ sample_two_reach sched_start_ok))
    (due_list_selects sample_hour 10 _ (sy_table _ (sched_reach_ok _ _ _ sample_two_reach sched_start_ok)) ltac:(lia))
    ltac:(vm_compute; reflexivity) (surjective_pairing _)) as (claimed & E & Hids & _).
  exists claimed. split; [exact E|]. rewrite Hids. vm_compute. reflexivity.
Defined.

Example complete_recurring_next_slot_witness :
  exists k, 1 <= k /\ later < sample_hour + k * sample_hour /\
    db_jobs (CompleteScheduledJob false true 1 "d" 20 later (ss_db reclaimed)).2 !! 1 ≫= (fun j => Some (sj_NextRunAt j)) = Some (sample_hour + k * sample_hour).
Proof.
  assert (E : exists j, owned_row 1 "d" (ss_db reclaimed) = Some j /\ sj_interval j = 3600 /\ sj_NextRunAt j = sample_hour)
    by (eexists; vm_compute; repeat split; reflexivity).
  destruct E as (j & Hj & Hi & Hn).
  pose proof (complete_recurring_next_slot false 1 "d" 20 later (ss_db reclaimed) j
    (sy_table _ (sched_reach_ok _ _ _ reclaimed_reach sched_start_ok)) Hj ltac:(rewrite Hi; vm_compute; split; [reflexivity|discriminate])) as H.
  destruct (CompleteScheduledJob _ _ _ _ _ _ _) as [err db']. cbn zeta in H. destruct H as (_ & k & Hk & Hlt & _ & Hdb & _).
  rewrite Hi, Hn in *. change (3600 * second) with sample_hour in *. exists k. split_and!; [exact Hk|exact Hlt|].
  cbn [snd]. rewrite Hdb, lookup_insert_eq. reflexivity.
Defined.

Example earliest_due_wakes_witness : exists e, GetEarliestDueTime true (ss_db sample_two) = inr (Some e) /\ e <= 5.
Proof.
  apply (proj1 (earliest_due_wakes 5 (ss_db sample_two)) 2 (default (new_job once 5) (db_jobs (ss_db sample_two) !! 2))); vm_compute; reflexivity.
Defined.

Example lost_lease_stays_lost_witness :
  (1, "b"%string) ∈ ss_issued reclaimed /\ refused 1 "b" false (ss_db (sched_step false (SoComplete true 1 "d" 20 later) reclaimed)).
Proof.
  split; [vm_compute; set_solver|].
  apply (lost_lease_stays_lost false reclaimed (sched_step false (SoComplete true 1 "d" 20 later) reclaimed) 1 "b" 0 0 reclaimed_reach).
  - apply sched_next; [apply sched_refl|exact I].
  - vm_compute. set_solver.
  - left. vm_compute. reflexivity.
Defined.

(** With the schema of [InitSchema] and foreign keys enforced, as [database.Open] sets
    them, a one-shot job can never complete: the transaction deletes the row and then
    inserts a history entry that refers to it. *)
Lemma foreign_key_blocks_one_shot id token d now db j :
  owned_row id token db = Some j -> sj_interval j <= 0 ->
  CompleteScheduledJob true true id token d now db = (Some ErrForeignKey, db).
Proof.
  intros Hj Hi. unfold CompleteScheduledJob. rewrite Hj. destruct (Z.ltb_spec 0 (sj_interval j)); [lia|].
  unfold insert_history. cbn. by rewrite lookup_delete_eq, bool_decide_true.
Qed.
