(* ===== verification/PeriodicTables.v ===== *)
(** * The registrations of the periodic coordinator

    Models what [periodicCoordinator] of [internal/scheduler/periodic_timer.go] keeps
    under its lock and the sections that change it: the registrations by key, the
    timer heap they share timer entries with, and the definitions [runTaskFunc] looks
    up. A registration is at an address, its generation, since every registration is
    made with a generation of its own; [tb_regs] is the store and [tb_entries] the map
    of the code from keys to addresses. Periodic.v puts the sections together with
    the lifecycle and the loop. *)

From S2P Require Import Prelude.
From S2P Require Import GoHeap.
From S2P Require Import TimerHeap.

Record periodicRegistration := mkReg {
  rg_Owner : string; rg_Name : string; rg_Interval : duration; rg_Task : nat;
  rg_ScheduledFor : time; rg_NextRun : time;
  rg_Running : bool; rg_OccurrenceID : string;
  rg_Runs : Z; rg_Failures : Z; rg_LastRunAt : time; rg_LastError : string;
  rg_heapEntry : option TimerEntry
}.

Record tables := mkTables {
  tb_entries : gmap string nat;
  tb_regs : gmap nat periodicRegistration;
  tb_jobDefs : gmap string (string * string);
  tb_heap : IndexedHeap;
  tb_seq : nat;
  tb_timers : nat  (* addresses of timer entries given out *)
}.

Definition no_tables : tables := mkTables ∅ ∅ ∅ NewIndexedHeap 0 0.

Definition set_timer (e : option TimerEntry) (r : periodicRegistration) : periodicRegistration :=
  mkReg (rg_Owner r) (rg_Name r) (rg_Interval r) (rg_Task r) (rg_ScheduledFor r) (rg_NextRun r) (rg_Running r) (rg_OccurrenceID r)
    (rg_Runs r) (rg_Failures r) (rg_LastRunAt r) (rg_LastError r) e.
Definition set_running (running : bool) (occ : string) (r : periodicRegistration) : periodicRegistration :=
  mkReg (rg_Owner r) (rg_Name r) (rg_Interval r) (rg_Task r) (rg_ScheduledFor r) (rg_NextRun r) running occ
    (rg_Runs r) (rg_Failures r) (rg_LastRunAt r) (rg_LastError r) (rg_heapEntry r).
Definition set_slot_times (scheduledFor nextRun : time) (r : periodicRegistration) : periodicRegistration :=
  mkReg (rg_Owner r) (rg_Name r) (rg_Interval r) (rg_Task r) scheduledFor nextRun (rg_Running r) (rg_OccurrenceID r)
    (rg_Runs r) (rg_Failures r) (rg_LastRunAt r) (rg_LastError r) (rg_heapEntry r).
Definition set_stats (runs failures : Z) (lastRun : time) (e : string) (r : periodicRegistration) : periodicRegistration :=
  mkReg (rg_Owner r) (rg_Name r) (rg_Interval r) (rg_Task r) (rg_ScheduledFor r) (rg_NextRun r) (rg_Running r) (rg_OccurrenceID r)
    runs failures lastRun e (rg_heapEntry r).

Definition put_reg (g : nat) (r : periodicRegistration) (t : tables) : tables :=
  mkTables (tb_entries t) (<[g := r]> (tb_regs t)) (tb_jobDefs t) (tb_heap t) (tb_seq t) (tb_timers t).
Definition set_heap (h : IndexedHeap) (t : tables) : tables :=
  mkTables (tb_entries t) (tb_regs t) (tb_jobDefs t) h (tb_seq t) (tb_timers t).

Definition periodicKey (owner name : string) : string :=
  if String.eqb owner "" || String.eqb owner "runtime" then name else (owner ++ "/" ++ name)%string.
Definition periodicDefinitionID (owner name : string) : string := ("periodic:" ++ owner ++ ":" ++ name)%string.

(** The registration a key leads to. *)
Definition reg_at (k : string) (t : tables) : option (nat * periodicRegistration) :=
  match tb_entries t !! k with Some g => match tb_regs t !! g with Some r => Some (g, r) | None => None end | None => None end.

(** ** Registration *)

Record reg_args := mkArgs { ra_owner : string; ra_name : string; ra_interval : duration; ra_task : nat }.

(** The arguments of [Register] and the options it checks. *)
Inductive reg_error := ErrEmptyName | ErrInterval | ErrNilTask | ErrMaxAttempts | ErrRetryDelay | ErrNotRunning | ErrNoJobs | ErrRegisterJob.
Definition Register_args (owner name : string) (interval : duration) (maxAttempts : Z) (retryDelay : duration) (task : option nat)
    : reg_error + reg_args :=
  let owner := trim_space owner in
  let owner := if String.eqb owner "" then "runtime"%string else owner in
  let name := trim_space name in
  if String.eqb name "" then inl ErrEmptyName
  else if interval <=? 0 then inl ErrInterval
  else match task with
       | None => inl ErrNilTask
       | Some f => if maxAttempts <? 0 then inl ErrMaxAttempts
                   else if retryDelay <? 0 then inl ErrRetryDelay
                   else inr (mkArgs owner name interval f)
       end.

(** Takes the timer of a registration out of the heap. *)
Definition drop_timer (g : nat) (r : periodicRegistration) (t : tables) : tables :=
  match rg_heapEntry r with
  | Some e => put_reg g (set_timer None r) (set_heap (timer_Remove (Some e) (tb_heap t)) t)
  | None => t
  end.
Definition live_occurrence (r : periodicRegistration) : list string :=
  if rg_Running r && negb (String.eqb (rg_OccurrenceID r) "") then [rg_OccurrenceID r] else [].

(** The section of [Register] that installs the registration, with the occurrence it
    is going to cancel. *)
Definition register_section (a : reg_args) (now : time) (t : tables) : list string * tables :=
  let g := S (tb_seq t) in
  let key := periodicKey (ra_owner a) (ra_name a) in
  let '(cancels, t) :=
    match reg_at key t with Some (g0, old) => (live_occurrence old, drop_timer g0 old t) | None => ([], t) end in
  let nextRun := now + ra_interval a in
  let e := mkTimer (tb_timers t) TimerScheduleOccurrence (ra_owner a) key (Z.of_nat g) nextRun 0 g in
  let reg := mkReg (ra_owner a) (ra_name a) (ra_interval a) (ra_task a) nextRun nextRun false "" 0 0 0 "" (Some e) in
  (cancels,
   mkTables (<[key := g]> (tb_entries t)) (<[g := reg]> (tb_regs t))
     (<[periodicDefinitionID (ra_owner a) (ra_name a) := (ra_owner a, ra_name a)]> (tb_jobDefs t))
     (timer_Push (Some e) (tb_heap t)) g (S (tb_timers t))).

Definition runTaskFunc (defID : string) (t : tables) : option nat :=
  match tb_jobDefs t !! defID with
  | None => None
  | Some (owner, name) => (fun gr => rg_Task gr.2) <$> reg_at (periodicKey owner name) t
  end.

(** What [Unregister], [UnregisterOwned] and [UnregisterByOwner] do to one entry. *)
Definition remove_entry (k : string) (t : tables) : tables :=
  match reg_at k t with
  | None => t
  | Some (g, r) =>
      let t := drop_timer g r t in
      mkTables (delete k (tb_entries t)) (tb_regs t) (delete (periodicDefinitionID (rg_Owner r) (rg_Name r)) (tb_jobDefs t))
        (tb_heap t) (tb_seq t) (tb_timers t)
  end.

(** [Unregister] takes the entry whose key is the name, or else some entry of that name:
    [other] is the one a traversal of the map meets first. *)
Definition unregister_target (name : string) (other : option string) (t : tables) : option string :=
  match reg_at name t with
  | Some _ => Some name
  | None => match other with
            | Some k => match reg_at k t with Some (_, r) => if String.eqb (rg_Name r) name then Some k else None | None => None end
            | None => None
            end
  end.
Definition some_occurrence (r : periodicRegistration) : list string :=
  if String.eqb (rg_OccurrenceID r) "" then [] else [rg_OccurrenceID r].
Definition Unregister (k : string) (t : tables) : list string * tables :=
  match reg_at k t with Some (_, r) => (some_occurrence r, remove_entry k t) | None => ([], t) end.

Definition of_owner (owner : string) (r : periodicRegistration) : bool :=
  String.eqb (rg_Owner r) owner || String.eqb (rg_Owner r) ("plugin:" ++ owner).
(** One round of the loop of [UnregisterByOwner] over the map. *)
Definition by_owner_round (owner : string) (acc : list string * Z * tables) (k : string) : list string * Z * tables :=
  let '(pending, count, t) := acc in
  match reg_at k t with
  | Some (_, r) => if of_owner owner r then (pending ++ live_occurrence r, count + 1, remove_entry k t) else acc
  | None => acc
  end.
Definition UnregisterByOwner (owner : string) (keys : list string) (t : tables) : list string * Z * tables :=
  foldl (by_owner_round owner) ([], 0, t) keys.

(** The section of [Stop]. *)
Definition stop_section (t : tables) : list string * tables :=
  (concat (map (fun k => match reg_at k t with Some (_, r) => live_occurrence r | None => [] end) (map fst (map_to_list (tb_entries t)))),
   mkTables ∅ (tb_regs t) (tb_jobDefs t) NewIndexedHeap (tb_seq t) (tb_timers t)).

(** ** Due ticks *)

(** One round of [syncHeapLocked]. *)
Definition sync_one (k : string) (t : tables) : tables :=
  match reg_at k t with
  | None => t
  | Some (g, r) =>
      if rg_Running r then t
      else
        match rg_heapEntry r with
        | None =>
            let e := mkTimer (tb_timers t) TimerScheduleOccurrence (rg_Owner r) (periodicKey (rg_Owner r) (rg_Name r)) (Z.of_nat g)
                       (rg_NextRun r) 0 g in
            mkTables (tb_entries t) (<[g := set_timer (Some e) r]> (tb_regs t)) (tb_jobDefs t) (timer_Push (Some e) (tb_heap t))
              (tb_seq t) (S (tb_timers t))
        | Some e =>
            if te_Deadline e =? rg_NextRun r then t
            else
              let e' := mkTimer (te_ptr e) (te_Kind e) (te_Owner e) (te_ID e) (te_Generation e) (rg_NextRun r) (te_Sequence e) (te_Data e) in
              put_reg g (set_timer (Some e') r) (set_heap (timer_Push (Some e') (timer_Remove (Some e) (tb_heap t))) t)
        end
  end.
Definition syncHeapLocked (keys : list string) (t : tables) : tables := foldl (fun t k => sync_one k t) t keys.

Record due_run := mkRun {
  dr_owner : string; dr_name : string; dr_generation : nat; dr_interval : duration; dr_scheduledFor : time
}.
Definition run_key (run : due_run) : string := periodicKey (dr_owner run) (dr_name run).

(** One round of [collectDueLocked]. *)
Definition collect_one (item : TimerEntry) (t : tables) : list due_run * tables :=
  match tb_regs t !! te_Data item with
  | None => ([], t)
  | Some r =>
      if negb (Z.of_nat (te_Data item) =? te_Generation item) || rg_Running r then ([], t)
      else
        let slot := if is_zero (rg_ScheduledFor r) then rg_NextRun r else rg_ScheduledFor r in
        ([mkRun (rg_Owner r) (rg_Name r) (te_Data item) (rg_Interval r) slot],
         put_reg (te_Data item) (set_slot_times slot (rg_NextRun r) (set_timer None (set_running true (rg_OccurrenceID r) r))) t)
  end.
Fixpoint collect (items : list TimerEntry) (t : tables) : list due_run * tables :=
  match items with
  | [] => ([], t)
  | item :: rest =>
      let '(due, t) := collect_one item t in
      let '(more, t) := collect rest t in (due ++ more, t)
  end.
Definition collectDueLocked (now : time) (t : tables) : list due_run * tables :=
  let '(items, h) := PopDue now 100 (tb_heap t) in collect items (set_heap h t).

(** ** Occurrences *)

(** The registration a run was made for, if it is still the one of its key. *)
Definition current (run : due_run) (t : tables) : option periodicRegistration :=
  match reg_at (run_key run) t with
  | Some (g, r) => if (g =? dr_generation run)%nat && rg_Running r then Some r else None
  | None => None
  end.

(** [bindOccurrence]: the tables, and the stray occurrence it is going to cancel. *)
Definition bindOccurrence (run : due_run) (occ : string) (t : tables) : list string * tables :=
  match current run t with
  | Some r => ([], put_reg (dr_generation run) (set_running true occ r) t)
  | None => (if String.eqb occ "" then [] else [occ], t)
  end.

Definition backoff : duration := 200 * millisecond.
Definition finishSubmission (run : due_run) (now : time) (t : tables) : tables :=
  match current run t with
  | Some r =>
      if String.eqb (rg_OccurrenceID r) "" then
        put_reg (dr_generation run)
          (set_slot_times (if is_zero (rg_ScheduledFor r) then dr_scheduledFor run else rg_ScheduledFor r) (now + backoff) (set_running false "" r)) t
      else t
  | None => t
  end.

Record pendingReconcile := mkPending { pr_key : string; pr_occurrenceID : string; pr_interval : duration }.
Definition inflight (keys : list string) (t : tables) : list pendingReconcile :=
  concat (map (fun k => match reg_at k t with
                        | Some (_, r) => map (fun occ => mkPending k occ (rg_Interval r)) (live_occurrence r)
                        | None => [] end) keys).
Definition inflightCount (t : tables) : Z := Z.of_nat (length (inflight (map fst (map_to_list (tb_entries t))) t)).

(** The section of [reconcileOne]; [failed] holds the error of a failed or cancelled occurrence. *)
Definition settle_tick (p : pendingReconcile) (finished : time) (failed : option string) (t : tables) : tables :=
  match reg_at (pr_key p) t with
  | Some (g, r) =>
      if rg_Running r && String.eqb (rg_OccurrenceID r) (pr_occurrenceID p) then
        let nextSlot := finished + pr_interval p in
        let r := set_stats (rg_Runs r + 1) (match failed with Some _ => rg_Failures r + 1 | None => rg_Failures r end) finished
                   (default ""%string failed) (set_running false "" r) in
        put_reg g (set_slot_times nextSlot nextSlot r) t
      else t
  | None => t
  end.

(** ** The invariant *)

Definition heap_of (t : tables) : list TimerEntry := hs (ih_h (tb_heap t)).

(** The registration a run was made for is still in the store. *)
Definition made_for (run : due_run) (t : tables) : Prop :=
  (dr_generation run <= tb_seq t)%nat /\
  exists r, tb_regs t !! dr_generation run = Some r /\ rg_Owner r = dr_owner run /\ rg_Name r = dr_name run.

(** [hands] are the due runs the loop has collected and not yet bound or backed off,
    [timers] the timer entries that stand for a registration. *)
Record regs_ok (hands : list due_run) (now : time) (timers : list TimerEntry) (t : tables) : Prop := {
  to_ptrs : NoDup (map te_ptr timers);
  to_entry : forall k g, tb_entries t !! k = Some g ->
    exists r, tb_regs t !! g = Some r /\ periodicKey (rg_Owner r) (rg_Name r) = k /\ (g <= tb_seq t)%nat;
  to_timer : forall e, e ∈ timers -> (te_ptr e < tb_timers t)%nat /\ te_Generation e = Z.of_nat (te_Data e) /\
    exists k r e', reg_at k t = Some (te_Data e, r) /\ rg_heapEntry r = Some e' /\ te_ptr e' = te_ptr e;
  to_back : forall k g r e', reg_at k t = Some (g, r) -> rg_heapEntry r = Some e' ->
    rg_Running r = false /\ te_Data e' = g /\ te_Generation e' = Z.of_nat g /\
    exists e, e ∈ timers /\ te_ptr e = te_ptr e' /\ te_Data e = g /\ te_Deadline e = te_Deadline e';
  to_idle : forall k g r, reg_at k t = Some (g, r) -> rg_Running r = false -> rg_OccurrenceID r = ""%string;
  to_hands : forall run r, run ∈ hands -> reg_at (run_key run) t = Some (dr_generation run, r) ->
    rg_Running r = true /\ rg_OccurrenceID r = ""%string /\ rg_ScheduledFor r = dr_scheduledFor run;
  to_nodup : NoDup (map dr_generation hands);
  to_gen : forall run, run ∈ hands -> made_for run t;
  to_inflight : forall k g r, reg_at k t = Some (g, r) -> rg_Running r = true -> rg_OccurrenceID r = ""%string ->
    exists run, run ∈ hands /\ dr_generation run = g /\ run_key run = k;
  to_slot : forall k g r, reg_at k t = Some (g, r) ->
    0 < rg_ScheduledFor r <= rg_NextRun r /\ 0 < rg_Interval r /\ (rg_Running r = true -> rg_ScheduledFor r <= now)
}.

Definition tables_ok (hands : list due_run) (now : time) (t : tables) : Prop :=
  timers_ok (tb_heap t) /\ regs_ok hands now (heap_of t) t.

Lemma reg_at_Some k t g r : reg_at k t = Some (g, r) <-> tb_entries t !! k = Some g /\ tb_regs t !! g = Some r.
Proof.
  unfold reg_at. destruct (tb_entries t !! k) as [g'|]; [|naive_solver]. destruct (tb_regs t !! g') as [r'|] eqn:E; naive_solver.
Qed.

Lemma made_for_put run t g r r' : made_for run t -> tb_regs t !! g = Some r -> rg_Owner r' = rg_Owner r -> rg_Name r' = rg_Name r ->
  made_for run (put_reg g r' t).
Proof.
  intros (Hg & r1 & Hr1 & Ho & Hn) Hr Eo En. split; [done|]. cbn. destruct (decide (g = dr_generation run)) as [->|].
  - exists r'. rewrite lookup_insert_eq. assert (r1 = r) by congruence. subst r1. split_and!; [done|congruence..].
  - exists r1. by rewrite lookup_insert_ne.
Qed.

Section Ok.
Context (hands : list due_run) (now : time) (timers : list TimerEntry).

Lemma reg_at_key t k g r : regs_ok hands now timers t -> reg_at k t = Some (g, r) -> periodicKey (rg_Owner r) (rg_Name r) = k /\ (g <= tb_seq t)%nat.
Proof. intros H [He Hr]%reg_at_Some. destruct (to_entry _ _ _ _ H k g He) as (r' & Hr' & Hk & Hg). by simplify_eq. Qed.

Lemma reg_at_inj t k k' g r r' : regs_ok hands now timers t -> reg_at k t = Some (g, r) -> reg_at k' t = Some (g, r') -> k = k' /\ r = r'.
Proof.
  intros H H1 H2. destruct (reg_at_key t k g r H H1) as [<- _]. destruct (reg_at_key t k' g r' H H2) as [<- _].
  apply reg_at_Some in H1 as [_ H1], H2 as [_ H2]. by simplify_eq.
Qed.

(** A change of one registration in the store. *)
Lemma reg_at_put t k g r r' k' : regs_ok hands now timers t -> reg_at k t = Some (g, r) ->
  reg_at k' (put_reg g r' t) = if decide (k' = k) then Some (g, r') else reg_at k' t.
Proof.
  intros H Hk. pose proof (proj1 (reg_at_Some _ _ _ _) Hk) as [He Hr]. unfold reg_at, put_reg. cbn. case_decide as Hd.
  - subst. by rewrite He, lookup_insert_eq.
  - destruct (tb_entries t !! k') as [g'|] eqn:He'; [|done]. rewrite lookup_insert_ne; [done|]. intros <-.
    destruct (to_entry _ _ _ _ H _ _ He') as (r1 & Hr1 & Hk1 & _). assert (r1 = r) by congruence. subst r1. apply Hd.
    by destruct (reg_at_key t k g r H Hk) as [<- _].
Qed.
End Ok.

(** The same tables, seen at a later time. *)
Lemma regs_later hands now now' timers t : now <= now' -> regs_ok hands now timers t -> regs_ok hands now' timers t.
Proof.
  intros Hle [O1 O2 O3 O4 O5 O6 O7 O8 O9 O10]. split; try done. intros k g r H. destruct (O10 k g r H) as (? & ? & Hs).
  split_and!; [lia..|]. intros Hr. specialize (Hs Hr). lia.
Qed.

(** A registration changes, and with it what the loop holds, while its timer stays as it is. *)
Lemma put_ok hands hands' now timers t k g r r' :
  regs_ok hands now timers t -> reg_at k t = Some (g, r) ->
  rg_Owner r' = rg_Owner r -> rg_Name r' = rg_Name r -> rg_Interval r' = rg_Interval r -> rg_heapEntry r' = rg_heapEntry r ->
  (rg_heapEntry r <> None -> rg_Running r' = false) ->
  (rg_Running r' = false -> rg_OccurrenceID r' = ""%string) ->
  0 < rg_ScheduledFor r' <= rg_NextRun r' -> (rg_Running r' = true -> rg_ScheduledFor r' <= now) ->
  NoDup (map dr_generation hands') -> (forall run, run ∈ hands' -> run ∈ hands \/ dr_generation run = g /\ rg_Owner r = dr_owner run /\ rg_Name r = dr_name run) ->
  (forall run, run ∈ hands -> dr_generation run <> g -> run ∈ hands') ->
  (forall run, run ∈ hands' -> dr_generation run = g -> run_key run = k ->
    rg_Running r' = true /\ rg_OccurrenceID r' = ""%string /\ rg_ScheduledFor r' = dr_scheduledFor run) ->
  (rg_Running r' = true -> rg_OccurrenceID r' = ""%string -> exists run, run ∈ hands' /\ dr_generation run = g /\ run_key run = k) ->
  regs_ok hands' now timers (put_reg g r' t).
Proof.
  intros H Hk E1 E2 E3 E4 H1 H2 H3 H4 N1 N2 N3 N4 N5.
  pose proof (fun k' => reg_at_put hands now timers t k g r r' k' H Hk) as Hput.
  assert (Hother : forall k' g' r1, k' <> k -> reg_at k' t = Some (g', r1) -> g' <> g).
  { intros k' g' r1 Hne Hk' ->. by destruct (reg_at_inj hands now timers t k' k g r1 r H Hk' Hk). }
  destruct H as [O1 O2 O3 O4 O5 O6 O7 O8 O9 O10]. split; cbn; try done.
  - intros k' g' He. destruct (decide (g' = g)) as [->|Hne].
    + exists r'. rewrite lookup_insert_eq, E1, E2. destruct (O2 k' g He) as (r1 & Hr1 & Hk1 & Hg).
      apply reg_at_Some in Hk as [_ Hr]. assert (r1 = r) by congruence. by subst r1.
    + rewrite lookup_insert_ne by done. by apply O2.
  - intros e He. destruct (O3 e He) as (? & ? & k' & r1 & e' & Hk' & He' & ?). split_and!; [done|done|].
    destruct (decide (k' = k)) as [->|Hne].
    + rewrite Hk in Hk'. simplify_eq. exists k, r', e'. rewrite Hput, decide_True, E4 by done. done.
    + exists k', r1, e'. by rewrite Hput, decide_False.
  - intros k' g' r1 e'. rewrite Hput. case_decide as Hd.
    + intros [= <- <-] He'. rewrite E4 in He'. destruct (O4 k g r e' Hk He') as (? & ? & ? & ?). split_and!; [|done..]. apply H1. congruence.
    + apply O4.
  - intros k' g' r1. rewrite Hput. case_decide; [intros [= <- <-]; apply H2|apply O5].
  - intros run r1 Hin. rewrite Hput. case_decide as Hd; [intros [= Hg <-]; by apply N4|].
    intros Hk'. destruct (N2 run Hin) as [Hin'|[Hg _]]; [by apply O6|]. by destruct (Hother _ _ _ Hd Hk').
  - intros run Hin. apply reg_at_Some in Hk as [He Hr]. destruct (N2 run Hin) as [Hin'|(Hg & Ho & Hn)].
    + by apply (made_for_put run t g r r'); [apply O8|..].
    + split; cbn; [rewrite Hg; by destruct (O2 k g He) as (? & ? & ? & ?)|]. exists r'. rewrite Hg, lookup_insert_eq, E1, E2. done.
  - intros k' g' r1. rewrite Hput. case_decide as Hd; [intros [= <- <-]; subst k'; apply N5|].
    intros Hk' Hr Ho. destruct (O9 k' g' r1 Hk' Hr Ho) as (run & Hin & Hg & Hkey). exists run. split_and!; [|done..].
    apply N3; [done|]. rewrite Hg. by eapply Hother.
  - intros k' g' r1. rewrite Hput. case_decide; [intros [= <- <-]; rewrite E3; split_and!; try lia; [by apply (O10 k g r)|done]|apply O10].
Qed.

(** A timer leaves the list and its registration forgets it. *)
Lemma take_timer hands now e timers timers' t k g r :
  regs_ok hands now timers t -> timers ≡ₚ e :: timers' -> te_Data e = g -> reg_at k t = Some (g, r) ->
  regs_ok hands now timers' (put_reg g (set_timer None r) t) /\ rg_Running r = false.
Proof.
  intros H Hp He Hk. pose proof (fun k' => reg_at_put hands now timers t k g r (set_timer None r) k' H Hk) as Hput.
  assert (Hin : e ∈ timers) by (rewrite Hp; left).
  assert (Hr : rg_Running r = false /\ exists e', rg_heapEntry r = Some e' /\ te_ptr e' = te_ptr e).
  { destruct (to_timer _ _ _ _ H e Hin) as (_ & _ & k1 & r1 & e' & Hk1 & He1 & Hptr). rewrite He in Hk1.
    destruct (reg_at_inj hands now timers t k1 k g r1 r H Hk1 Hk) as [-> ->].
    destruct (to_back _ _ _ _ H k g r e' Hk He1) as [Hrun _]. split; [done|by exists e']. }
  destruct Hr as (Hrun & e0 & He0 & Hptr0). split; [|done].
  assert (Hsub : forall x, x ∈ timers' -> x ∈ timers) by (intros x Hx; rewrite Hp; by right).
  pose proof (to_ptrs _ _ _ _ H) as Hnd. rewrite Hp in Hnd. cbn in Hnd. apply NoDup_cons in Hnd as [Hout Hnd].
  assert (Hptr : forall x, x ∈ timers' -> te_ptr x <> te_ptr e).
  { intros x Hx E. apply Hout. rewrite <- E. apply list_elem_of_fmap. by exists x. }
  assert (Hother : forall k' g' r1, k' <> k -> reg_at k' t = Some (g', r1) -> g' <> g).
  { intros k' g' r1 Hne Hk' ->. by destruct (reg_at_inj hands now timers t k' k g r1 r H Hk' Hk). }
  pose proof H as [O1 O2 O3 O4 O5 O6 O7 O8 O9 O10]. split; try done.
  - intros k' g' Hent. cbn. destruct (decide (g' = g)) as [->|Hne].
    + exists (set_timer None r). rewrite lookup_insert_eq. destruct (O2 k' g Hent) as (r1 & Hr1 & Hk1 & Hg).
      apply reg_at_Some in Hk as [_ Hr]. assert (r1 = r) by congruence. by subst r1.
    + rewrite lookup_insert_ne by done. by apply O2.
  - intros x Hx. destruct (O3 x (Hsub x Hx)) as (? & ? & k1 & r1 & e1 & Hk1 & He1 & Hp1). split_and!; [done|done|].
    exists k1, r1, e1. rewrite Hput. rewrite decide_False; [done|]. intros ->. rewrite Hk in Hk1. simplify_eq.
    apply (Hptr x Hx). congruence.
  - intros k' g' r1 e1. rewrite Hput. case_decide; [by intros [= <- <-]|]. intros Hk' He1.
    destruct (O4 k' g' r1 e1 Hk' He1) as (? & ? & ? & x & Hx & ? & ? & ?). split_and!; [done..|]. exists x. split_and!; [|done..].
    rewrite Hp in Hx. apply elem_of_cons in Hx as [->|]; [|done]. exfalso. apply (Hother k' g' r1); [done|done|congruence].
  - intros k' g' r1. rewrite Hput. case_decide; [intros [= <- <-]; by apply (O5 k _ r Hk)|apply O5].
  - intros run r1 Hrun1. rewrite Hput. case_decide as Hd; [|by apply O6]. intros [= Hg <-]. apply (O6 run r Hrun1). by rewrite Hd, Hk, Hg.
  - intros run Hrin. apply reg_at_Some in Hk as [_ Hreg]. by apply (made_for_put run t g r); [apply O8| |..].
  - intros k' g' r1. rewrite Hput. case_decide; [intros [= <- <-]; subst; by apply (O9 k _ r Hk)|apply O9].
  - intros k' g' r1. rewrite Hput. case_decide; [intros [= <- <-]; by apply (O10 k _ r Hk)|apply O10].
Qed.

(** A registration without a timer gets one. *)
Lemma give_timer hands now e e' timers t k g r :
  regs_ok hands now timers t -> reg_at k t = Some (g, r) -> rg_heapEntry r = None -> rg_Running r = false ->
  te_ptr e ∉ map te_ptr timers -> (te_ptr e < tb_timers t)%nat -> te_Generation e = Z.of_nat g -> te_Data e = g ->
  te_ptr e' = te_ptr e -> te_Generation e' = Z.of_nat g -> te_Data e' = g -> te_Deadline e = te_Deadline e' ->
  regs_ok hands now (e :: timers) (put_reg g (set_timer (Some e') r) t).
Proof.
  intros H Hk Hnone Hrun Hfresh Hlt Hgen Hdata E1 E2 E3 E4.
  pose proof (fun k' => reg_at_put hands now timers t k g r (set_timer (Some e') r) k' H Hk) as Hput.
  pose proof H as [O1 O2 O3 O4 O5 O6 O7 O8 O9 O10]. split; try done.
  - by constructor.
  - intros k' g' Hent. cbn. destruct (decide (g' = g)) as [->|Hne].
    + exists (set_timer (Some e') r). rewrite lookup_insert_eq. destruct (O2 k' g Hent) as (r1 & Hr1 & Hk1 & Hg).
      apply reg_at_Some in Hk as [_ Hr]. assert (r1 = r) by congruence. by subst r1.
    + rewrite lookup_insert_ne by done. by apply O2.
  - intros x [->|Hx]%elem_of_cons.
    + split_and!; [done|by rewrite Hdata|]. exists k, (set_timer (Some e') r), e'. rewrite Hput, decide_True, Hdata by done. done.
    + destruct (O3 x Hx) as (? & ? & k1 & r1 & e1 & Hk1 & He1 & Hp1). split_and!; [done|done|]. exists k1, r1, e1. rewrite Hput.
      rewrite decide_False; [done|]. intros ->. rewrite Hk in Hk1. simplify_eq.
  - intros k' g' r1 e1. rewrite Hput. case_decide.
    + intros [= <- <-] [= <-]. split_and!; [done..|]. exists e. split_and!; [left|done..].
    + intros Hk' He1. destruct (O4 k' g' r1 e1 Hk' He1) as (? & ? & ? & x & Hx & ?). split_and!; [done..|]. exists x. split; [by right|done].
  - intros k' g' r1. rewrite Hput. case_decide; [intros [= <- <-]; by apply (O5 k _ r Hk)|apply O5].
  - intros run r1 Hrun1. rewrite Hput. case_decide as Hd; [|by apply O6]. intros [= Hg <-]. apply (O6 run r Hrun1). by rewrite Hd, Hk, Hg.
  - intros run Hrin. apply reg_at_Some in Hk as [_ Hreg]. by apply (made_for_put run t g r); [apply O8| |..].
  - intros k' g' r1. rewrite Hput. case_decide; [intros [= <- <-]; subst; by apply (O9 k _ r Hk)|apply O9].
  - intros k' g' r1. rewrite Hput. case_decide; [intros [= <- <-]; by apply (O10 k _ r Hk)|apply O10].
Qed.

(** Fields the registrations do not depend on. *)
Lemma regs_same hands now timers t t' : regs_ok hands now timers t ->
  tb_entries t' = tb_entries t -> tb_regs t' = tb_regs t -> (tb_seq t <= tb_seq t')%nat -> (tb_timers t <= tb_timers t')%nat ->
  regs_ok hands now timers t'.
Proof.
  intros [O1 O2 O3 O4 O5 O6 O7 O8 O9 O10] E1 E2 E3 E4.
  assert (Hat : forall k, reg_at k t' = reg_at k t) by (intros k; unfold reg_at; by rewrite E1, E2).
  split; try done; rewrite ?E1, ?E2; try (setoid_rewrite Hat; done).
  - intros k g He. destruct (O2 k g He) as (r & ? & ? & ?). exists r. split_and!; [done..|lia].
  - intros e He. destruct (O3 e He) as (? & ? & k & r & e' & ?). split_and!; [lia|done|]. exists k, r, e'. by rewrite Hat.
  - intros run Hr. destruct (O8 run Hr) as [Hle Hm]. split; [lia|]. by rewrite E2.
Qed.

Lemma regs_perm hands now timers timers' t : timers ≡ₚ timers' -> regs_ok hands now timers t -> regs_ok hands now timers' t.
Proof. intros Hp [O1 O2 O3 O4 O5 O6 O7 O8 O9 O10]. split; try done; by setoid_rewrite <- Hp. Qed.

(** A key without a timer loses its registration. *)
Lemma delete_ok hands now timers t t' k g r : regs_ok hands now timers t -> reg_at k t = Some (g, r) -> rg_heapEntry r = None ->
  tb_entries t' = delete k (tb_entries t) -> tb_regs t' = tb_regs t -> tb_seq t' = tb_seq t -> tb_timers t' = tb_timers t ->
  regs_ok hands now timers t' /\ forall k', reg_at k' t' = if decide (k' = k) then None else reg_at k' t.
Proof.
  intros [O1 O2 O3 O4 O5 O6 O7 O8 O9 O10] Hk Hnone E1 E2 E3 E4.
  assert (Hat : forall k', reg_at k' t' = if decide (k' = k) then None else reg_at k' t).
  { intros k'. unfold reg_at. rewrite E1, E2. case_decide; [subst; by rewrite lookup_delete_eq|by rewrite lookup_delete_ne]. }
  assert (Hsub : forall k' x, reg_at k' t' = Some x -> k' <> k /\ reg_at k' t = Some x) by (intros k' x; rewrite Hat; by case_decide).
  split; [|done]. split; rewrite ?E1, ?E2, ?E3, ?E4; try done.
  - intros k' g' [Hne He]%lookup_delete_Some. by apply O2.
  - intros e He. destruct (O3 e He) as (? & ? & k1 & r1 & e1 & Hk1 & He1 & ?). split_and!; [done..|]. exists k1, r1, e1.
    rewrite Hat, decide_False; [done|]. intros ->. congruence.
  - intros k' g' r1 e1 [_ Hk']%Hsub. by apply (O4 k' g' r1 e1 Hk').
  - intros k' g' r1 [_ Hk']%Hsub. by apply (O5 k' g' r1 Hk').
  - intros run r1 Hr [_ Hk']%Hsub. by apply O6.
  - intros run Hr. unfold made_for. rewrite E2, E3. by apply O8.
  - intros k' g' r1 [_ Hk']%Hsub. by apply (O9 k' g' r1 Hk').
  - intros k' g' r1 [_ Hk']%Hsub. by apply (O10 k' g' r1 Hk').
Qed.

Lemma drop_timer_ok hands now t k g r : tables_ok hands now t -> reg_at k t = Some (g, r) ->
  tables_ok hands now (drop_timer g r t) /\ tb_entries (drop_timer g r t) = tb_entries t /\ tb_seq (drop_timer g r t) = tb_seq t /\
  tb_timers (drop_timer g r t) = tb_timers t /\ reg_at k (drop_timer g r t) = Some (g, set_timer None r) /\
  forall k', k' <> k -> reg_at k' (drop_timer g r t) = reg_at k' t.
Proof.
  intros [Hh H] Hk. unfold drop_timer. destruct (rg_heapEntry r) as [e'|] eqn:He'.
  2: { split_and!; [done|done|done|done| |done]. rewrite Hk. destruct r; cbn in *. by subst. }
  destruct (to_back _ _ _ _ H k g r e' Hk He') as (_ & _ & _ & e & He & Hp & Hg & _).
  destruct (timer_Remove_present e' (tb_heap t) Hh) as [Hh' (e0 & Hp0 & Hperm)].
  { rewrite <- Hp. apply list_elem_of_fmap. by exists e. }
  assert (e0 = e) as ->.
  { assert (He0 : e0 ∈ heap_of t) by (unfold heap_of; rewrite Hperm; left).
    pose proof (to_ptrs _ _ _ _ H) as Hnd. by eapply (nodup_map_inj te_ptr); [exact Hnd|done|done|congruence]. }
  destruct (take_timer hands now e (heap_of t) (heap_of (set_heap (timer_Remove (Some e') (tb_heap t)) t)) t k g r) as [Hok _]; [done..|].
  split_and!; [split; [done|]|done|done|done| |].
  - eapply regs_same; [exact Hok|done..].
  - change (put_reg g (set_timer None r) (set_heap _ t)) with (set_heap (timer_Remove (Some e') (tb_heap t)) (put_reg g (set_timer None r) t)).
    change (reg_at k (set_heap _ (put_reg g (set_timer None r) t))) with (reg_at k (put_reg g (set_timer None r) t)).
    by rewrite (reg_at_put hands now (heap_of t) t k g r _ _ H Hk), decide_True.
  - intros k' Hne. change (reg_at k' (put_reg g (set_timer None r) t) = reg_at k' t).
    by rewrite (reg_at_put hands now (heap_of t) t k g r _ _ H Hk), decide_False.
Qed.

Lemma remove_entry_ok hands now t k : tables_ok hands now t ->
  tables_ok hands now (remove_entry k t) /\ forall k', reg_at k' (remove_entry k t) = if decide (k' = k) then None else reg_at k' t.
Proof.
  intros H. unfold remove_entry. destruct (reg_at k t) as [[g r]|] eqn:Hk.
  2: { split; [done|]. intros k'. case_decide; by subst. }
  destruct (drop_timer_ok hands now t k g r H Hk) as ([Hh Hok] & He & Hs & Ht & Hat & Hother).
  destruct (delete_ok hands now (heap_of (drop_timer g r t)) (drop_timer g r t)
    (mkTables (delete k (tb_entries (drop_timer g r t))) (tb_regs (drop_timer g r t))
       (delete (periodicDefinitionID (rg_Owner r) (rg_Name r)) (tb_jobDefs (drop_timer g r t)))
       (tb_heap (drop_timer g r t)) (tb_seq (drop_timer g r t)) (tb_timers (drop_timer g r t))) k g (set_timer None r))
    as [Hok' Hat']; [done..|].
  split; [by split|]. intros k'. rewrite Hat'. case_decide; [done|by apply Hother].
Qed.

Lemma UnregisterByOwner_ok hands now owner keys : forall acc, tables_ok hands now acc.2 ->
  tables_ok hands now (foldl (by_owner_round owner) acc keys).2.
Proof.
  induction keys as [|k keys IH]; intros [[pending count] t] H; cbn [foldl]; [done|]. apply IH. unfold by_owner_round.
  destruct (reg_at k t) as [[g r]|]; [|done]. destruct (of_owner owner r); [by apply remove_entry_ok|done].
Qed.

Lemma stop_section_ok hands now t : tables_ok hands now t -> tables_ok hands now (stop_section t).2.
Proof.
  intros [Hh [O1 O2 O3 O4 O5 O6 O7 O8 O9 O10]]. split; cbn.
  - split; cbn; [split; [intros i; cbn; lia|done]|intros e He; by apply elem_of_nil in He].
  - assert (Hat : forall k, reg_at k (stop_section t).2 = None) by done.
    split; cbn; try done; try (intros; rewrite Hat in *; done); try (intros *; by intros ?%elem_of_nil).
    constructor.
Qed.

(** A key gets a new registration, of a new generation, without a timer yet. *)
Lemma install_ok hands now t t' k reg :
  tables_ok hands now t -> (forall g r, reg_at k t = Some (g, r) -> rg_heapEntry r = None) ->
  periodicKey (rg_Owner reg) (rg_Name reg) = k -> rg_Running reg = false -> rg_OccurrenceID reg = ""%string -> rg_heapEntry reg = None ->
  0 < rg_ScheduledFor reg <= rg_NextRun reg -> 0 < rg_Interval reg ->
  tb_entries t' = <[k := S (tb_seq t)]> (tb_entries t) -> tb_regs t' = <[S (tb_seq t) := reg]> (tb_regs t) ->
  tb_seq t' = S (tb_seq t) -> (tb_timers t <= tb_timers t')%nat ->
  regs_ok hands now (heap_of t) t' /\ reg_at k t' = Some (S (tb_seq t), reg).
Proof.
  intros [Hh H] Hnone Hkey Hrun Hocc He Hslot Hint E1 E2 E3 E4. pose proof H as [O1 O2 O3 O4 O5 O6 O7 O8 O9 O10].
  assert (Hat : forall k', reg_at k' t' = if decide (k' = k) then Some (S (tb_seq t), reg) else reg_at k' t).
  { intros k'. unfold reg_at. rewrite E1, E2. case_decide as Hd; [subst; by rewrite lookup_insert_eq, lookup_insert_eq|].
    rewrite lookup_insert_ne by done. destruct (tb_entries t !! k') as [g'|] eqn:Hg; [|done]. rewrite lookup_insert_ne; [done|].
    intros <-. destruct (O2 k' _ Hg) as (_ & _ & _ & Hle). lia. }
  split; [|by rewrite Hat, decide_True]. split; rewrite ?E1, ?E2, ?E3; try done.
  - intros k' g' [[<- <-]|[Hne Hg]]%lookup_insert_Some; [exists reg; by rewrite lookup_insert_eq|].
    destruct (O2 k' g' Hg) as (r1 & Hr1 & Hk1 & Hle). exists r1. rewrite lookup_insert_ne by lia. split_and!; [done..|lia].
  - intros e Hin. destruct (O3 e Hin) as (? & ? & k1 & r1 & e1 & Hk1 & He1 & ?). split_and!; [lia|done|]. exists k1, r1, e1.
    rewrite Hat, decide_False; [done|]. intros ->. apply Hnone in Hk1. congruence.
  - intros k' g' r1 e1. rewrite Hat. case_decide; [intros [= <- <-]; congruence|apply O4].
  - intros k' g' r1. rewrite Hat. case_decide; [by intros [= <- <-]|apply O5].
  - intros run r1 Hin. rewrite Hat. case_decide; [|by apply O6]. intros [= Hg _]. destruct (O8 run Hin) as [Hle _]. lia.
  - intros run Hin. destruct (O8 run Hin) as [Hle (r1 & Hr1 & Hm)]. split; [lia|]. exists r1. rewrite E2, lookup_insert_ne by lia. done.
  - intros k' g' r1. rewrite Hat. case_decide; [intros [= <- <-]; congruence|apply O9].
  - intros k' g' r1. rewrite Hat. case_decide; [intros [= <- <-]; split_and!; [lia..|congruence]|apply O10].
Qed.

(** Pushing the timer of a registration that has none. *)
Lemma push_timer_ok hands now t t' k g r e :
  regs_ok hands now (heap_of t) t -> timers_ok (tb_heap t) -> reg_at k t = Some (g, r) -> rg_heapEntry r = None -> rg_Running r = false ->
  te_ptr e ∉ map te_ptr (heap_of t) -> (te_ptr e < tb_timers t')%nat -> te_Generation e = Z.of_nat g -> te_Data e = g -> te_Deadline e <> 0 ->
  tb_entries t' = tb_entries t -> tb_regs t' = <[g := set_timer (Some e) r]> (tb_regs t) -> tb_heap t' = timer_Push (Some e) (tb_heap t) ->
  tb_seq t' = tb_seq t -> (tb_timers t <= tb_timers t')%nat ->
  tables_ok hands now t' /\ forall k', reg_at k' t' = if decide (k' = k) then Some (g, set_timer (Some e) r) else reg_at k' t.
Proof.
  intros H Hh Hk Hnone Hrun Hfresh Hlt Hgen Hdata Hdl E1 E2 E3 E4 E5.
  destruct (timer_Push_fresh e (tb_heap t) Hh Hdl Hfresh) as [Hh' Hperm].
  pose (t0 := mkTables (tb_entries t) (tb_regs t) (tb_jobDefs t) (tb_heap t) (tb_seq t) (tb_timers t')).
  assert (H0 : regs_ok hands now (heap_of t) t0) by (eapply regs_same; [exact H|done..]).
  pose proof (give_timer hands now (te_set_Sequence (ih_seq (tb_heap t) + 1) e) e (heap_of t) t0 k g r H0 Hk Hnone Hrun
    Hfresh Hlt Hgen Hdata eq_refl Hgen Hdata eq_refl) as H1.
  split.
  - split; [by rewrite E3|]. eapply regs_perm; [unfold heap_of; rewrite E3; symmetry; exact Hperm|].
    eapply regs_same; [exact H1|done|by rewrite E2|by rewrite E4|done].
  - intros k'. transitivity (reg_at k' (put_reg g (set_timer (Some e) r) t0)); [unfold reg_at; cbn; by rewrite E1, E2|].
    by rewrite (reg_at_put hands now (heap_of t) t0 k g r (set_timer (Some e) r) k' H0 Hk).
Qed.

Lemma register_section_ok hands now a t : tables_ok hands now t -> 0 <= now -> 0 < ra_interval a ->
  tables_ok hands now (register_section a now t).2 /\
  exists e, forall k', reg_at k' (register_section a now t).2 =
    if decide (k' = periodicKey (ra_owner a) (ra_name a)) then
      Some (S (tb_seq t), mkReg (ra_owner a) (ra_name a) (ra_interval a) (ra_task a) (now + ra_interval a) (now + ra_interval a) false "" 0 0 0 "" (Some e))
    else reg_at k' t.
Proof.
  intros H Hnow Hint. unfold register_section. set (key := periodicKey (ra_owner a) (ra_name a)).
  set (t0 := (match reg_at key t with Some (g0, old) => (live_occurrence old, drop_timer g0 old t) | None => ([], t) end)).
  assert (H0 : tables_ok hands now t0.2 /\ tb_seq t0.2 = tb_seq t /\ tb_timers t0.2 = tb_timers t /\
    (forall g r, reg_at key t0.2 = Some (g, r) -> rg_heapEntry r = None) /\ forall k', k' <> key -> reg_at k' t0.2 = reg_at k' t).
  { subst t0. destruct (reg_at key t) as [[g0 old]|] eqn:Hk; cbn [snd].
    - destruct (drop_timer_ok hands now t key g0 old H Hk) as (Hok & _ & Hs & Ht & Hat & Hother).
      split_and!; [done|done|done| |done]. intros g r. rewrite Hat. by intros [= <- <-].
    - split_and!; [done|done|done| |done]. by rewrite Hk. }
  clearbody t0. destruct t0 as [cancels t0]. cbn [snd] in *. destruct H0 as (H0 & Hs & Ht & Hnone & Hother). cbn zeta.
  set (nextRun := now + ra_interval a). set (e := mkTimer _ _ _ _ _ _ _ _). set (reg := mkReg _ _ _ _ _ _ _ _ _ _ _ _ _).
  pose (t1 := mkTables (<[key := S (tb_seq t)]> (tb_entries t0)) (<[S (tb_seq t) := set_timer None reg]> (tb_regs t0)) (tb_jobDefs t0)
    (tb_heap t0) (S (tb_seq t)) (tb_timers t0)).
  destruct (install_ok hands now t0 t1 key (set_timer None reg)) as [H1 Hk1]; try done; try (cbn; rewrite ?Hs; done).
  { cbn. unfold nextRun. lia. }
  rewrite Hs in Hk1.
  assert (Hat1 : forall k', reg_at k' t1 = if decide (k' = key) then Some (S (tb_seq t), set_timer None reg) else reg_at k' t0).
  { intros k'. case_decide as Hd; [by subst|]. unfold t1, reg_at. cbn. rewrite lookup_insert_ne by done.
    destruct (tb_entries t0 !! k') as [g'|] eqn:Hg; [|done]. rewrite lookup_insert_ne; [done|].
    intros <-. destruct H0 as [_ H0]. destruct (to_entry _ _ _ _ H0 k' _ Hg) as (_ & _ & _ & Hle). lia. }
  destruct (push_timer_ok hands now t1
    (mkTables (<[key := S (tb_seq t)]> (tb_entries t0)) (<[S (tb_seq t) := reg]> (tb_regs t0))
       (<[periodicDefinitionID (ra_owner a) (ra_name a) := (ra_owner a, ra_name a)]> (tb_jobDefs t0))
       (timer_Push (Some e) (tb_heap t0)) (S (tb_seq t)) (S (tb_timers t0))) key (S (tb_seq t)) (set_timer None reg) e)
    as [H2 Hat2]; try done; try (cbn; lia).
  - apply H0.
  - cbn. intros (x & Hp & Hx)%list_elem_of_fmap. destruct H0 as [_ H0]. destruct (to_timer _ _ _ _ H0 x Hx) as (Hlt & _). lia.
  - unfold t1. cbn [tb_regs]. by rewrite insert_insert_eq.
  - split; [exact H2|]. exists e. intros k'. rewrite Hat2, Hat1. case_decide; [done|]. by apply Hother.
Qed.

(** ** Collecting what is due *)

(** An idle registration with a timer has it at its next run. *)
Definition timed (k : string) (t : tables) : Prop :=
  forall g r, reg_at k t = Some (g, r) -> rg_Running r = false -> exists e, rg_heapEntry r = Some e /\ te_Deadline e = rg_NextRun r.

(** The registrations of the two tables differ at most in their timers. *)
Definition same_regs (t t' : tables) : Prop :=
  (forall k g r, reg_at k t = Some (g, r) -> exists e, reg_at k t' = Some (g, set_timer e r)) /\
  (forall k, reg_at k t = None -> reg_at k t' = None).

Lemma sync_one_ok hands now t k : tables_ok hands now t ->
  tables_ok hands now (sync_one k t) /\ timed k (sync_one k t) /\ (forall k', k' <> k -> reg_at k' (sync_one k t) = reg_at k' t) /\
  (forall g r, reg_at k t = Some (g, r) -> exists e, reg_at k (sync_one k t) = Some (g, set_timer e r)) /\
  (reg_at k t = None -> reg_at k (sync_one k t) = None).
Proof.
  intros H. unfold sync_one. destruct (reg_at k t) as [[g r]|] eqn:Hk.
  2: { split_and!; [done| |done|done|done]. intros g r. by rewrite Hk. }
  assert (Hkeep : exists e, reg_at k t = Some (g, set_timer e r)) by (exists (rg_heapEntry r); rewrite Hk; by destruct r).
  pose proof H as [Hh Hok]. destruct (to_slot _ _ _ _ Hok k g r Hk) as (Hs & _).
  destruct (rg_Running r) eqn:Hrun.
  { split_and!; [done| |done| |done]; [intros g1 r1; rewrite Hk; by intros [= <- <-] ?; congruence|by intros g1 r1 [= <- <-]]. }
  destruct (rg_heapEntry r) as [e|] eqn:He.
  - destruct (Z.eqb_spec (te_Deadline e) (rg_NextRun r)) as [Hd|Hd].
    { split_and!; [done| |done| |done]; [intros g1 r1; rewrite Hk; intros [= <- <-] _; by exists e|by intros g1 r1 [= <- <-]]. }
    destruct (drop_timer_ok hands now t k g r H Hk) as ([Hh1 Hok1] & E1 & E2 & E3 & Hat & Hother).
    unfold drop_timer in *. rewrite He in *. set (t1 := put_reg g (set_timer None r) _) in *.
    destruct (to_back _ _ _ _ Hok k g r e Hk He) as (_ & Hdata & Hgen & x & Hx & Hp & _).
    set (e' := mkTimer _ _ _ _ _ _ _ _).
    destruct (push_timer_ok hands now t1 (put_reg g (set_timer (Some e') r) (set_heap (timer_Push (Some e') (timer_Remove (Some e) (tb_heap t))) t))
      k g (set_timer None r) e') as [H2 Hat2]; try done; cbn; try lia.
    + intros (y & Hpy & Hy)%list_elem_of_fmap. destruct (to_timer _ _ _ _ Hok1 y Hy) as (_ & _ & k1 & r1 & e1 & Hk1 & He1 & Hp1).
      assert (y = x) as ->.
      { assert (Hyt : y ∈ heap_of t).
        { destruct (timer_Remove_present e (tb_heap t) Hh) as [_ (e0 & _ & Hperm)]; [rewrite <- Hp; apply list_elem_of_fmap; by exists x|].
          unfold heap_of. rewrite Hperm. right. exact Hy. }
        eapply (nodup_map_inj te_ptr); [apply (to_ptrs _ _ _ _ Hok)|done|done|congruence]. }
      assert (k1 = k) as ->.
      { destruct (decide (k1 = k)); [done|]. rewrite Hother in Hk1 by done.
        destruct (to_timer _ _ _ _ Hok x Hx) as (_ & _ & k2 & r2 & e2 & Hk2 & He2 & Hp2).
        destruct (reg_at_inj hands now _ _ _ _ _ _ _ Hok Hk1 Hk2) as [-> _].
        destruct (to_back _ _ _ _ Hok k g r e Hk He) as (_ & _ & _ & x' & Hx' & Hp' & Hg' & _).
        assert (x' = x) as -> by (eapply (nodup_map_inj te_ptr); [apply (to_ptrs _ _ _ _ Hok)|done|done|congruence]).
        rewrite Hg' in Hk2. by destruct (reg_at_inj hands now _ _ _ _ _ _ _ Hok Hk2 Hk). }
      rewrite Hat in Hk1. by simplify_eq.
    + assert (te_ptr x < tb_timers t)%nat by (by apply (to_timer _ _ _ _ Hok)). lia.
    + by rewrite insert_insert_eq.
    + split_and!; [done| | | |done].
      * intros g1 r1. rewrite Hat2, decide_True by done. intros [= <- <-] _. by exists e'.
      * intros k' Hne. rewrite Hat2, decide_False by done. by apply Hother.
      * intros g1 r1 [= <- <-]. exists (Some e'). by rewrite Hat2, decide_True.
  - set (e := mkTimer _ _ _ _ _ _ _ _).
    destruct (push_timer_ok hands now t (mkTables (tb_entries t) (<[g := set_timer (Some e) r]> (tb_regs t)) (tb_jobDefs t)
      (timer_Push (Some e) (tb_heap t)) (tb_seq t) (S (tb_timers t))) k g r e) as [H2 Hat2]; try done; cbn; try lia.
    + intros (y & Hpy & Hy)%list_elem_of_fmap. destruct (to_timer _ _ _ _ Hok y Hy) as (Hlt & _). lia.
    + split_and!; [done| | | |done].
      * intros g1 r1. rewrite Hat2, decide_True by done. intros [= <- <-] _. by exists e.
      * intros k' Hne. by rewrite Hat2, decide_False.
      * intros g1 r1 [= <- <-]. exists (Some e). by rewrite Hat2, decide_True.
Qed.

Lemma syncHeapLocked_ok hands now keys : forall t, tables_ok hands now t ->
  tables_ok hands now (syncHeapLocked keys t) /\ (forall k, k ∈ keys \/ timed k t -> timed k (syncHeapLocked keys t)) /\
  same_regs t (syncHeapLocked keys t).
Proof.
  unfold syncHeapLocked. induction keys as [|k keys IH]; intros t H; cbn [foldl].
  { split_and!; [done|by intros k [Hk%elem_of_nil|]|]. split; [|done]. intros k g r Hk. exists (rg_heapEntry r). rewrite Hk. by destruct r. }
  destruct (sync_one_ok hands now t k H) as (H1 & Hk & Hother & Hsame & Hnone).
  destruct (IH (sync_one k t) H1) as (H2 & Ht2 & [Hs2 Hn2]). split_and!; [done| |split].
  - intros k' Hk'. apply Ht2. destruct (decide (k' = k)) as [->|Hne]; [by right|]. destruct Hk' as [[->|Hin]%elem_of_cons|Htm]; [done|by left|].
    right. unfold timed in *. rewrite Hother by done. exact Htm.
  - intros k' g r Hk'. destruct (decide (k' = k)) as [->|Hne].
    + destruct (Hsame g r Hk') as [e He]. destruct (Hs2 k g _ He) as [e' He']. exists e'. rewrite He'. by destruct r.
    + apply Hs2. by rewrite Hother.
  - intros k' Hk'. apply Hn2. destruct (decide (k' = k)) as [->|Hne]; [by apply Hnone|by rewrite Hother].
Qed.

(** One due item: its registration starts running and its run goes to the loop. *)
Lemma collect_one_ok hands now t item rest :
  regs_ok hands now (item :: rest) t -> (forall k, timed k t) -> te_Deadline item <= now ->
  exists run, (collect_one item t).1 = [run] /\ regs_ok (run :: hands) now rest (collect_one item t).2 /\
    (forall k, timed k (collect_one item t).2) /\
    (exists k r, reg_at k t = Some (dr_generation run, r) /\ run_key run = k /\ dr_scheduledFor run = rg_ScheduledFor r /\
      (forall k', k' <> k -> reg_at k' (collect_one item t).2 = reg_at k' t) /\
      reg_at k (collect_one item t).2 = Some (dr_generation run, set_timer None (set_running true "" r))).
Proof.
  intros H Htm Hdue. destruct (to_timer _ _ _ _ H item ltac:(left)) as (_ & Hgen & k & r & e & Hk & He & Hp).
  destruct (take_timer hands now item (item :: rest) rest t k (te_Data item) r H) as [H1 Hrun]; [done|done|done|].
  assert (Hdl : te_Deadline item = rg_NextRun r).
  { destruct (Htm k (te_Data item) r Hk Hrun) as (e1 & He1 & Hd1). rewrite He in He1. injection He1 as <-.
    destruct (to_back _ _ _ _ H k _ r e Hk He) as (_ & _ & _ & x & Hx & Hpx & _ & Hdx). rewrite <- Hd1, <- Hdx.
    assert (item = x) as <-; [|done]. eapply (nodup_map_inj te_ptr); [apply (to_ptrs _ _ _ _ H)|left|done|congruence]. }
  destruct (to_slot _ _ _ _ H k _ r Hk) as (Hslot & Hint & _). pose proof (to_idle _ _ _ _ H k _ r Hk Hrun) as Hocc.
  unfold collect_one. apply reg_at_Some in Hk as Hk'. destruct Hk' as [Hent Hreg]. rewrite Hreg.
  rewrite Hgen, Z.eqb_refl, Hrun. cbn [negb orb]. unfold is_zero. destruct (Z.eqb_spec (rg_ScheduledFor r) 0); [lia|].
  set (run := mkRun _ _ _ _ _). set (r' := set_slot_times _ _ _).
  assert (Er' : r' = set_timer None (set_running true "" r)) by (unfold r'; rewrite Hocc; done).
  assert (Hkey : run_key run = k) by (by destruct (reg_at_key hands now (item :: rest) t k _ r H Hk)).
  assert (Hk1 : reg_at k (put_reg (te_Data item) (set_timer None r) t) = Some (te_Data item, set_timer None r)).
  { by rewrite (reg_at_put hands now (item :: rest) t k (te_Data item) r _ k H Hk), decide_True. }
  assert (Hfresh : forall x, x ∈ hands -> dr_generation x <> te_Data item).
  { intros x Hx E. destruct (to_gen _ _ _ _ H x Hx) as (_ & r1 & Hr1 & Ho & Hn). rewrite E in Hr1. assert (r1 = r) by congruence. subst r1.
    destruct (to_hands _ _ _ _ H x r Hx) as (? & _); [|congruence]. unfold run_key. rewrite E, <- Ho, <- Hn. exact (eq_trans (f_equal (fun k => reg_at k t) Hkey) Hk). }
  assert (Hput : put_reg (te_Data item) r' t = put_reg (te_Data item) r' (put_reg (te_Data item) (set_timer None r) t))
    by (unfold put_reg; cbn; by rewrite insert_insert_eq).
  exists run. split; [done|]. cbn [snd]. rewrite Hput.
  assert (Hat : forall k', reg_at k' (put_reg (te_Data item) r' (put_reg (te_Data item) (set_timer None r) t)) =
    if decide (k' = k) then Some (te_Data item, r') else reg_at k' t).
  { intros k'. rewrite (reg_at_put hands now rest _ k (te_Data item) _ r' k' H1 Hk1). case_decide as Hd; [done|].
    by rewrite (reg_at_put hands now (item :: rest) t k (te_Data item) r _ k' H Hk), decide_False. }
  split_and!.
  - rewrite Er'. eapply (put_ok hands (run :: hands) now rest _ k (te_Data item)); [exact H1|exact Hk1|..]; try done; cbn; try lia.
    + constructor; [|apply (to_nodup _ _ _ _ H)]. intros (x & E & Hx)%list_elem_of_fmap. by eapply Hfresh.
    + intros x [->|Hx]%elem_of_cons; [by right|by left].
    + intros x Hx _. by right.
    + intros x [->|Hx]%elem_of_cons E; [done|]. by destruct (Hfresh x Hx).
    + intros _ _. exists run. split_and!; [left|done|done].
  - intros k' g1 r1. rewrite Hat. case_decide; [by intros [= <- <-]; rewrite Er'|apply Htm].
  - exists k, r. split_and!; [done|done|done| |].
    + intros k' Hne. by rewrite Hat, decide_False.
    + by rewrite Hat, decide_True, Er'.
Qed.

Lemma hands_perm hands hands' now timers t : hands ≡ₚ hands' -> regs_ok hands now timers t -> regs_ok hands' now timers t.
Proof.
  intros Hp [O1 O2 O3 O4 O5 O6 O7 O8 O9 O10]. split; try done; try by setoid_rewrite <- Hp.
Qed.

(** What a collected run stands for. *)
Definition taken (t t' : tables) (run : due_run) : Prop :=
  exists r, reg_at (run_key run) t = Some (dr_generation run, r) /\ rg_Running r = false /\ dr_scheduledFor run = rg_ScheduledFor r /\
    reg_at (run_key run) t' = Some (dr_generation run, set_timer None (set_running true "" r)).

Lemma collect_ok now items : forall hands rest t, regs_ok hands now (items ++ rest) t -> (forall k, timed k t) ->
  (forall e, e ∈ items -> te_Deadline e <= now) ->
  let '(due, t') := collect items t in
  regs_ok (due ++ hands) now rest t' /\ (forall k, timed k t') /\ (forall run, run ∈ due -> taken t t' run) /\
  (forall k, k ∉ map run_key due -> reg_at k t' = reg_at k t) /\ length due = length items /\ NoDup (map run_key due).
Proof.
  induction items as [|item items IH]; intros hands rest t H Htm Hdl; cbn [collect].
  { split_and!; [done|done|by intros run ?%elem_of_nil|done|done|constructor]. }
  destruct (collect_one_ok hands now t item (items ++ rest) H Htm (Hdl item ltac:(left))) as (run & E1 & H1 & Htm1 & k & r & Hk & Hkey & Hs & Hother & Hat).
  destruct (to_timer _ _ _ _ H item ltac:(left)) as (_ & _ & k0 & r0 & e0 & Hk0 & He0 & _).
  assert (Hrun : rg_Running r = false).
  { destruct (rg_Running r) eqn:Er; [|done]. exfalso. unfold collect_one in E1.
    apply reg_at_Some in Hk0 as [_ Hr0]. rewrite Hr0 in E1. destruct (negb _ || rg_Running r0) eqn:Ec; [done|].
    cbn in E1. injection E1 as <-. cbn in Hk. apply reg_at_Some in Hk as [_ Hr]. bool_to_prop. congruence. }
  destruct (collect_one item t) as [d1 t1] eqn:Eone. cbn in E1, H1, Htm1, Hother, Hat. subst d1.
  specialize (IH (run :: hands) rest t1 H1 Htm1). destruct (collect items t1) as [more t'].
  destruct IH as (I1 & I2 & I3 & I4 & I5 & I6); [intros e He; apply Hdl; by right|].
  assert (Hnew : k ∉ map run_key more).
  { intros (x & Ex & Hx)%list_elem_of_fmap. destruct (I3 x Hx) as (r1 & Hr1 & Hrun1 & _). rewrite <- Ex, Hat in Hr1. by simplify_eq. }
  split_and!; [|done| | |cbn; lia|].
  - eapply hands_perm; [|exact I1]. cbn. symmetry. apply Permutation_middle.
  - intros x [->|Hx]%elem_of_cons.
    + exists r. rewrite Hkey. split_and!; [done..|]. rewrite I4 by done. exact Hat.
    + destruct (I3 x Hx) as (r1 & Hr1 & Hrun1 & Hs1 & Hat1). exists r1. split_and!; [|done..].
      rewrite <- Hr1. symmetry. apply Hother. intros E. rewrite E, Hat in Hr1. by simplify_eq.
  - cbn. intros k' [Hne Hk']%not_elem_of_cons. rewrite I4 by done. apply Hother. by rewrite <- Hkey.
  - cbn. constructor; [by rewrite Hkey|done].
Qed.

Lemma collect_fields items : forall t, tb_heap (collect items t).2 = tb_heap t /\ tb_seq (collect items t).2 = tb_seq t.
Proof.
  induction items as [|x items IH]; intros t; cbn; [done|]. specialize (IH (collect_one x t).2).
  unfold collect_one in *. destruct (tb_regs t !! te_Data x) as [r|]; cbn in *; [|by destruct (collect items t)].
  destruct (negb _ || _); cbn in *; destruct (collect items _); cbn in *; done.
Qed.

Lemma collectDueLocked_seq now t : tb_seq (collectDueLocked now t).2 = tb_seq t.
Proof. unfold collectDueLocked. destruct (PopDue now 100 (tb_heap t)) as [items h]. by rewrite (proj2 (collect_fields items _)). Qed.

Lemma syncHeapLocked_seq keys : forall t, tb_seq (syncHeapLocked keys t) = tb_seq t.
Proof.
  unfold syncHeapLocked. induction keys as [|k keys IH]; intros t; cbn; [done|]. rewrite IH. unfold sync_one. repeat case_match; done.
Qed.

Lemma collectDueLocked_ok now t : tables_ok [] now t -> (forall k, timed k t) ->
  let '(due, t') := collectDueLocked now t in
  tables_ok due now t' /\ (forall k, timed k t') /\ (forall run, run ∈ due -> taken t t' run) /\
  (forall k, k ∉ map run_key due -> reg_at k t' = reg_at k t) /\ NoDup (map run_key due) /\
  ((length due < 100)%nat -> forall k g r, reg_at k t' = Some (g, r) -> rg_Running r = false -> now < rg_NextRun r).
Proof.
  intros [Hh H] Htm. unfold collectDueLocked. pose proof (PopDue_exact now 100 (tb_heap t) Hh) as HP.
  destruct (PopDue now 100 (tb_heap t)) as [items h]. destruct HP as (Hh' & Hperm & Hdue & _ & _ & _ & Hrest). cbn in Hrest.
  assert (H0 : regs_ok [] now (items ++ hs (ih_h h)) (set_heap h t)).
  { eapply regs_perm; [exact Hperm|]. by eapply regs_same. }
  pose proof (collect_ok now items [] (hs (ih_h h)) (set_heap h t) H0 Htm Hdue) as HC.
  destruct (collect items (set_heap h t)) as [due t'] eqn:EC. destruct HC as (C1 & C2 & C3 & C4 & C5 & C6). rewrite app_nil_r in C1.
  assert (Eh : tb_heap t' = h) by (by rewrite <- (f_equal snd EC : _ = t'), (proj1 (collect_fields items _))).
  split_and!; try done.
  - split; [by rewrite Eh|]. unfold heap_of. by rewrite Eh.
  - intros Hlen k g r Hk Hrun. destruct (C2 k g r Hk Hrun) as (e & He & Hd). rewrite <- Hd.
    destruct (to_back _ _ _ _ C1 k g r e Hk He) as (_ & _ & _ & x & Hx & _ & _ & Hdx). rewrite <- Hdx.
    apply Hrest; [rewrite <- C5; lia|done].
Qed.

(** ** Occurrences *)

Lemma current_Some run t r : current run t = Some r <-> reg_at (run_key run) t = Some (dr_generation run, r) /\ rg_Running r = true.
Proof.
  unfold current. destruct (reg_at (run_key run) t) as [[g r0]|]; [|naive_solver].
  destruct (Nat.eqb_spec g (dr_generation run)) as [->|Hne], (rg_Running r0) eqn:Er; cbn;
    (split; [intros E; simplify_eq; split; congruence|intros [E1 E2]; simplify_eq; congruence]).
Qed.

Lemma running_no_timer hands now timers t k g r : regs_ok hands now timers t -> reg_at k t = Some (g, r) -> rg_Running r = true ->
  rg_heapEntry r = None.
Proof.
  intros H Hk Hr. destruct (rg_heapEntry r) as [e|] eqn:He; [|done]. destruct (to_back _ _ _ _ H k g r e Hk He) as [? _]. congruence.
Qed.

(** The loop lets go of a run whose registration is no longer the current one. *)
Lemma drop_hand run rest now timers t : regs_ok (run :: rest) now timers t -> current run t = None -> regs_ok rest now timers t.
Proof.
  intros [O1 O2 O3 O4 O5 O6 O7 O8 O9 O10] Hc. split; try done.
  - intros x r Hx. apply O6. by right.
  - cbn in O7. by apply NoDup_cons in O7 as [_ ?].
  - intros x Hx. apply O8. by right.
  - intros k g r Hk Hr Ho. destruct (O9 k g r Hk Hr Ho) as (x & [->|Hx]%elem_of_cons & Hg & Hkey); [|by exists x].
    exfalso. assert (current run t = Some r) as E; [|congruence]. apply current_Some. by rewrite Hkey, Hg.
Qed.

(** The current registration of the run the loop holds changes, and the loop lets go of it. *)
Lemma resolve_hand run rest now timers t r r' : regs_ok (run :: rest) now timers t -> current run t = Some r ->
  rg_Owner r' = rg_Owner r -> rg_Name r' = rg_Name r -> rg_Interval r' = rg_Interval r -> rg_heapEntry r' = rg_heapEntry r ->
  (rg_Running r' = false -> rg_OccurrenceID r' = ""%string) -> (rg_Running r' = true -> rg_OccurrenceID r' <> ""%string) ->
  0 < rg_ScheduledFor r' <= rg_NextRun r' -> (rg_Running r' = true -> rg_ScheduledFor r' <= now) ->
  regs_ok rest now timers (put_reg (dr_generation run) r' t).
Proof.
  intros H [Hk Hr]%current_Some E1 E2 E3 E4 H1 H2 H3 H4. pose proof (to_nodup _ _ _ _ H) as Hnd. cbn in Hnd.
  apply NoDup_cons in Hnd as [Hout Hnd].
  eapply (put_ok (run :: rest) rest now timers t (run_key run)); try done.
  - intros Hne. by rewrite (running_no_timer _ _ _ _ _ _ _ H Hk Hr) in Hne.
  - intros x Hx. left. by right.
  - intros x [->|Hx]%elem_of_cons Hg; [done|done].
  - intros x Hx Hg. exfalso. apply Hout. rewrite <- Hg. apply list_elem_of_fmap. by exists x.
  - intros Hr' Ho. by destruct (H2 Hr').
Qed.

Lemma bind_ok run rest occ now t : tables_ok (run :: rest) now t -> occ <> ""%string -> tables_ok rest now (bindOccurrence run occ t).2.
Proof.
  intros [Hh H] Hocc. unfold bindOccurrence. destruct (current run t) as [r|] eqn:Hc; cbn; [|split; [done|by eapply drop_hand]].
  split; [done|]. apply current_Some in Hc as Hc'. destruct Hc' as [Hk Hr]. destruct (to_slot _ _ _ _ H _ _ _ Hk) as (? & _ & Hs).
  apply (resolve_hand run rest now _ t r); try done. cbn. intros _. by apply Hs.
Qed.

Lemma finish_tick_ok run rest now t : tables_ok (run :: rest) now t -> tables_ok rest now (finishSubmission run now t).
Proof.
  intros [Hh H]. unfold finishSubmission. destruct (current run t) as [r|] eqn:Hc; cbn; [|split; [done|by eapply drop_hand]].
  apply current_Some in Hc as Hc'. destruct Hc' as [Hk Hr]. destruct (to_slot _ _ _ _ H _ _ _ Hk) as (Hs & _ & Hle).
  destruct (to_hands _ _ _ _ H run r) as (_ & Ho & _); [left|done|]. rewrite Ho. cbn. split; [done|]. specialize (Hle Hr).
  apply (resolve_hand run rest now _ t r); try done; cbn; try done; try (rewrite Ho; done).
  unfold is_zero, backoff, millisecond. destruct (Z.eqb_spec (rg_ScheduledFor r) 0); lia.
Qed.

Lemma settle_tick_ok hands p finished failed now t : tables_ok hands now t -> pr_occurrenceID p <> ""%string ->
  0 <= finished -> 0 < pr_interval p -> tables_ok hands now (settle_tick p finished failed t).
Proof.
  intros [Hh H] Hocc Hf Hi. unfold settle_tick. destruct (reg_at (pr_key p) t) as [[g r]|] eqn:Hk; [|by split].
  destruct (rg_Running r) eqn:Hr; [|by split]. destruct (String.eqb_spec (rg_OccurrenceID r) (pr_occurrenceID p)) as [Ho|]; [|by split]. cbn.
  split; [done|]. eapply (put_ok hands hands now _ t (pr_key p)); try done; cbn; try lia; try by left.
  - by apply (to_nodup _ _ _ _ H).
  - intros run Hin Hg Hkey. exfalso. rewrite <- Hg in Hk. destruct (to_hands _ _ _ _ H run r Hin) as (_ & Ho' & _); [by rewrite Hkey|]. congruence.
Qed.

Lemma no_tables_ok now : tables_ok [] now no_tables.
Proof.
  split; cbn.
  - split; cbn; [split; [intros i; cbn; lia|done]|by intros e ?%elem_of_nil].
  - assert (Hat : forall k, reg_at k no_tables = None) by (intros k; unfold reg_at; cbn; by rewrite lookup_empty).
    split; cbn; try (intros *; rewrite Hat; done); try (by intros * ?%elem_of_nil); try constructor.
    intros k g Hk. by apply lookup_empty_Some in Hk.
Qed.
