(* ===== verification/Periodic.v ===== *)
(** * The periodic coordinator

    Models [periodicCoordinator] of [internal/scheduler/periodic_timer.go] over the
    tables of PeriodicTables.v: [Start], [Stop], [Register], the ways to unregister,
    [notify] with its one-place wake channel, and [loop], the goroutine that exists while
    something is registered. Callers and loops are interleaved at their atomic sections:
    what runs under [mu] is one step, and so are a send on the wake channel, the choice
    of a [select], and a call of the job manager, whose answer is part of the event. A
    context has the number of the [Start] that made it. *)

From S2P Require Import Prelude.
From S2P Require Import GoHeap.
From S2P Require Import TimerHeap.
From S2P Require Import PeriodicTables.

(** What a round of the loop keeps from its section at the head: its context, whether
    there was a job manager, whether anything was due, and the earliest deadline. *)
Record lap := mkLap { lp_ctx : nat; lp_jobs : bool; lp_ran : bool; lp_earliest : option time }.

Inductive loop_pc :=
  | LHead                                                (* before the lock *)
  | LRuns (l : lap) (due : list due_run)                 (* before [submitExecution] of the first, or [reconcileInflight] *)
  | LBind (l : lap) (run : due_run) (occ : string) (rest : list due_run)   (* before the lock of [bindOccurrence] *)
  | LFinish (l : lap) (run : due_run) (rest : list due_run)                (* before the lock of [finishSubmission] *)
  | LSettle (l : lap) (ps : list pendingReconcile)       (* before [GetOccurrence] of the first *)
  | LSettled (l : lap) (p : pendingReconcile) (finished : time) (failed : option string) (ps : list pendingReconcile)
  | LIdle (l : lap)                                      (* before [inflightCount] *)
  | LWait (ctx : nat) (until : option time)              (* at the select *)
  | LExit.                                               (* returned, before the deferred function *)

Record life := mkLife {
  lf_running : bool; lf_loopRunning : bool; lf_done : option nat;
  lf_ctx : option nat; lf_cancelled : gset nat; lf_contexts : nat;
  lf_loops : gmap nat loop_pc; lf_fresh : nat
}.

(** [ca_registering] are the calls of [Register] between their checks and their section,
    [ca_notifies] and [ca_sends] those of [notify] before the lock and before the send,
    [ca_cancels] the contexts a [Stop] is about to cancel. *)
Record calls := mkCalls {
  ca_wake : bool; ca_registering : list reg_args; ca_notifies : nat; ca_sends : nat; ca_cancels : list nat
}.

(** Ghost: the ticks submitted to the job manager and those whose occurrence settled. *)
Inductive tick := Submitted (g : nat) (slot : time) | Settled (g : nat) (slot : time).

Record periodic := mkPeriodic {
  pd_tables : tables; pd_life : life; pd_calls : calls; pd_hasJobs : bool; pd_now : time;
  pd_trace : list tick;      (* newest first *)
  pd_closed : list string    (* occurrences the coordinator asked to cancel *)
}.

Definition pd_set_tables (t : tables) (p : periodic) : periodic :=
  mkPeriodic t (pd_life p) (pd_calls p) (pd_hasJobs p) (pd_now p) (pd_trace p) (pd_closed p).
Definition pd_set_life (f : life) (p : periodic) : periodic :=
  mkPeriodic (pd_tables p) f (pd_calls p) (pd_hasJobs p) (pd_now p) (pd_trace p) (pd_closed p).
Definition pd_set_calls (c : calls) (p : periodic) : periodic :=
  mkPeriodic (pd_tables p) (pd_life p) c (pd_hasJobs p) (pd_now p) (pd_trace p) (pd_closed p).
Definition pd_log (tr : list tick) (closed : list string) (p : periodic) : periodic :=
  mkPeriodic (pd_tables p) (pd_life p) (pd_calls p) (pd_hasJobs p) (pd_now p) (tr ++ pd_trace p) (closed ++ pd_closed p).

Definition put_loop (id : nat) (pc : loop_pc) (p : periodic) : periodic :=
  let f := pd_life p in
  pd_set_life (mkLife (lf_running f) (lf_loopRunning f) (lf_done f) (lf_ctx f) (lf_cancelled f) (lf_contexts f)
                 (<[id := pc]> (lf_loops f)) (lf_fresh f)) p.
Definition set_wake (b : bool) (p : periodic) : periodic :=
  let c := pd_calls p in pd_set_calls (mkCalls b (ca_registering c) (ca_notifies c) (ca_sends c) (ca_cancels c)) p.
Definition set_registering (l : list reg_args) (p : periodic) : periodic :=
  let c := pd_calls p in pd_set_calls (mkCalls (ca_wake c) l (ca_notifies c) (ca_sends c) (ca_cancels c)) p.
Definition set_notify (notifies sends : nat) (p : periodic) : periodic :=
  let c := pd_calls p in pd_set_calls (mkCalls (ca_wake c) (ca_registering c) notifies sends (ca_cancels c)) p.
Definition set_cancels (l : list nat) (p : periodic) : periodic :=
  let c := pd_calls p in pd_set_calls (mkCalls (ca_wake c) (ca_registering c) (ca_notifies c) (ca_sends c) l) p.
Definition add_notify (p : periodic) : periodic := set_notify (S (ca_notifies (pd_calls p))) (ca_sends (pd_calls p)) p.

Definition newPeriodicCoordinator (jobs : bool) (now : time) : periodic :=
  mkPeriodic no_tables (mkLife false false None None ∅ 0 ∅ 0) (mkCalls false [] 0 0 []) jobs now [] [].

(** ** Lifecycle *)

Definition ctx_live (f : life) : bool :=
  match lf_ctx f with Some c => negb (bool_decide (c ∈ lf_cancelled f)) | None => false end.

Definition startLoopLocked (p : periodic) : periodic :=
  let f := pd_life p in
  if negb (lf_running f) || lf_loopRunning f || negb (ctx_live f) || bool_decide (tb_entries (pd_tables p) = ∅) then p
  else pd_set_life (mkLife (lf_running f) true (Some (lf_fresh f)) (lf_ctx f) (lf_cancelled f) (lf_contexts f)
                      (<[lf_fresh f := LHead]> (lf_loops f)) (S (lf_fresh f))) p.

(** [notify] up to its unlock. *)
Definition notify_section (p : periodic) : periodic :=
  let p := startLoopLocked p in
  if lf_loopRunning (pd_life p) then set_notify (ca_notifies (pd_calls p)) (S (ca_sends (pd_calls p))) p else p.

Definition Start (p : periodic) : bool * periodic :=
  let f := pd_life p in
  if lf_running f then (false, p)
  else (true, startLoopLocked (pd_set_life (mkLife true (lf_loopRunning f) (lf_done f) (Some (S (lf_contexts f))) (lf_cancelled f)
                                              (S (lf_contexts f)) (lf_loops f) (lf_fresh f)) p)).

(** [Stop] up to its unlock; the cancellation, those of the occurrences, and [notify] follow. *)
Definition Stop (p : periodic) : periodic :=
  let f := pd_life p in
  if lf_running f then
    let '(pending, t) := stop_section (pd_tables p) in
    let p := pd_log [] pending (pd_set_tables t p) in
    let p := pd_set_life (mkLife false (lf_loopRunning f) (lf_done f) (lf_ctx f) (lf_cancelled f) (lf_contexts f) (lf_loops f) (lf_fresh f)) p in
    add_notify (set_cancels (option_list (lf_ctx f) ++ ca_cancels (pd_calls p)) p)
  else p.

Definition cancel_ctx (c : nat) (p : periodic) : periodic :=
  let f := pd_life p in
  pd_set_life (mkLife (lf_running f) (lf_loopRunning f) (lf_done f) (lf_ctx f) ({[c]} ∪ lf_cancelled f) (lf_contexts f) (lf_loops f) (lf_fresh f)) p.

(** [Register] up to the call that registers the job definition. *)
Definition Register (owner name : string) (interval : duration) (maxAttempts : Z) (retryDelay : duration) (task : option nat)
    (p : periodic) : option reg_error * periodic :=
  match Register_args owner name interval maxAttempts retryDelay task with
  | inl e => (Some e, p)
  | inr a =>
      if negb (lf_running (pd_life p)) || bool_decide (lf_ctx (pd_life p) = None) then (Some ErrNotRunning, p)
      else if negb (pd_hasJobs p) then (Some ErrNoJobs, p)
      else (None, set_registering (a :: ca_registering (pd_calls p)) p)
  end.
(** The rest of [Register], the definition being registered or updated. *)
Definition Register_install (i : nat) (p : periodic) : option periodic :=
  match ca_registering (pd_calls p) !! i with
  | None => None
  | Some a =>
      let '(cancels, t) := register_section a (pd_now p) (pd_tables p) in
      Some (add_notify (set_registering (delete i (ca_registering (pd_calls p))) (pd_log [] cancels (pd_set_tables t p))))
  end.

(** [Unregister] and [UnregisterOwned], at the key they settle on. *)
Definition unregister_at (k : option string) (p : periodic) : bool * periodic :=
  match k with
  | Some k =>
      match reg_at k (pd_tables p) with
      | Some _ => let '(occ, t) := Unregister k (pd_tables p) in (true, add_notify (pd_log [] occ (pd_set_tables t p)))
      | None => (false, p)
      end
  | None => (false, p)
  end.
Definition unregister_owner (owner : string) (keys : list string) (p : periodic) : Z * periodic :=
  if blank owner then (0, p)
  else
    let '(pending, count, t) := UnregisterByOwner (trim_space owner) keys (pd_tables p) in
    let p := pd_log [] pending (pd_set_tables t p) in
    (count, if 0 <? count then add_notify p else p).

(** ** The loop *)

Definition periodicSettlementSafetyInterval : duration := 30 * second.

Inductive submit_answer := SubmitOk (occ : string) | SubmitFound (occ : string) | SubmitLost.
Inductive occurrence_answer := OccOpen | OccCompleted | OccFailed (finishedAt : option time) (e : string).
Inductive choice := SelCtx | SelWake | SelTimer.
Inductive loop_answer := AnsNone | AnsKeys (keys : list string) | AnsSubmit (a : submit_answer) | AnsOccurrence (a : occurrence_answer) | AnsSel (s : choice).

(** A traversal of the map of registrations, in some order. *)
Definition traversal (keys : list string) (t : tables) : bool :=
  bool_decide (NoDup keys) && bool_decide (list_to_set keys =@{gset string} dom (tb_entries t)).

Definition retire_loop (id : nat) (p : periodic) : periodic :=
  let f := pd_life p in
  if bool_decide (lf_done f = Some id) then
    pd_set_life (mkLife (lf_running f) false None (lf_ctx f) (lf_cancelled f) (lf_contexts f) (lf_loops f) (lf_fresh f)) p
  else p.

(** The section at the head of the loop. *)
Definition loop_head (id : nat) (keys : list string) (p : periodic) : option periodic :=
  let t := pd_tables p in
  match lf_running (pd_life p), lf_ctx (pd_life p) with
  | true, Some c =>
      if bool_decide (tb_entries t = ∅) then Some (put_loop id LExit (retire_loop id p))
      else if negb (traversal keys t) then None
      else
        let '(due, t) := collectDueLocked (pd_now p) (syncHeapLocked keys t) in
        let l := mkLap c (pd_hasJobs p) (negb (bool_decide (due = []))) (te_Deadline <$> timer_PeekEarliest (tb_heap t)) in
        Some (put_loop id (LRuns l due) (pd_set_tables t p))
  | _, _ => Some (put_loop id LExit p)
  end.

Definition wait_until (l : lap) (now : time) (inflight : Z) : option time :=
  match lp_earliest l with
  | None => if 0 <? inflight then Some (now + periodicSettlementSafetyInterval) else None
  | Some e => if (now + periodicSettlementSafetyInterval <? e) && (0 <? inflight) then Some (now + periodicSettlementSafetyInterval) else Some e
  end.

Definition settled_tick (pr : pendingReconcile) (t : tables) : list tick :=
  match reg_at (pr_key pr) t with
  | Some (g, r) => if rg_Running r && String.eqb (rg_OccurrenceID r) (pr_occurrenceID pr) then [Settled g (rg_ScheduledFor r)] else []
  | None => []
  end.

(** An attempt does not end before the slot it was submitted for. *)
Definition plausible_end (pr : pendingReconcile) (finished : time) (t : tables) : bool :=
  match reg_at (pr_key pr) t with Some (_, r) => rg_ScheduledFor r <=? finished | None => true end && (0 <=? finished).

Definition loop_step (id : nat) (ans : loop_answer) (p : periodic) : option periodic :=
  let t := pd_tables p in
  match lf_loops (pd_life p) !! id with
  | None => None
  | Some pc =>
      match pc, ans with
      | LHead, AnsKeys keys => loop_head id keys p
      | LRuns l (run :: rest), AnsSubmit a =>
          if lp_jobs l then
            let p := pd_log [Submitted (dr_generation run) (dr_scheduledFor run)] [] p in
            match a with
            | SubmitOk occ | SubmitFound occ => if String.eqb occ "" then None else Some (put_loop id (LBind l run occ rest) p)
            | SubmitLost => Some (put_loop id (LFinish l run rest) p)
            end
          else Some (put_loop id (LFinish l run rest) p)
      | LRuns l [], AnsKeys keys =>
          if negb (traversal keys t) then None
          else Some (put_loop id (LSettle l (if lp_jobs l then inflight keys t else [])) p)
      | LBind l run occ rest, AnsNone =>
          let '(stray, t) := bindOccurrence run occ t in
          Some (put_loop id (LRuns l rest) (pd_log [] stray (pd_set_tables t p)))
      | LFinish l run rest, AnsNone =>
          Some (put_loop id (LRuns l rest) (add_notify (pd_set_tables (finishSubmission run (pd_now p) t) p)))
      | LSettle l [], AnsNone => Some (put_loop id (if lp_ran l then LHead else LIdle l) p)
      | LSettle l (pr :: ps), AnsOccurrence a =>
          match a with
          | OccOpen => Some (put_loop id (LSettle l ps) p)
          | OccCompleted => Some (put_loop id (LSettled l pr (pd_now p) None ps) p)
          | OccFailed fin e =>
              let finished := match fin with Some f => f | None => pd_now p end in
              if plausible_end pr finished t then Some (put_loop id (LSettled l pr finished (Some e) ps) p) else None
          end
      | LSettled l pr finished failed ps, AnsNone =>
          Some (put_loop id (LSettle l ps) (add_notify (pd_log (settled_tick pr t) [] (pd_set_tables (settle_tick pr finished failed t) p))))
      | LIdle l, AnsNone => Some (put_loop id (LWait (lp_ctx l) (wait_until l (pd_now p) (inflightCount t))) p)
      | LWait c until, AnsSel s =>
          match s with
          | SelCtx => if bool_decide (c ∈ lf_cancelled (pd_life p)) then Some (put_loop id LExit p) else None
          | SelWake => if ca_wake (pd_calls p) then Some (put_loop id LHead (set_wake false p)) else None
          | SelTimer => match until with
                        | Some u => if u <=? pd_now p then Some (put_loop id LHead p) else None
                        | None => None
                        end
          end
      | LExit, AnsNone =>
          let p := retire_loop id p in
          let f := pd_life p in
          Some (pd_set_life (mkLife (lf_running f) (lf_loopRunning f) (lf_done f) (lf_ctx f) (lf_cancelled f) (lf_contexts f)
                               (delete id (lf_loops f)) (lf_fresh f)) p)
      | _, _ => None
      end
  end.

Inductive periodic_event :=
  | PvTime (d : N) | PvStart | PvStop | PvCancel (i : nat) | PvParent | PvSetJobs (b : bool)
  | PvRegister (owner name : string) (interval : duration) (maxAttempts : Z) (retryDelay : duration) (task : option nat)
  | PvInstall (i : nat) | PvRefused (i : nat)
  | PvUnregister (name : string) (other : option string) | PvUnregisterOwned (owner name : string)
  | PvUnregisterByOwner (owner : string) (keys : list string)
  | PvNotify | PvSend | PvLoop (id : nat) (ans : loop_answer).

(** With [calm] no [Start] comes while a loop of an earlier [Start] winds down. *)
Definition periodic_step (calm : bool) (ev : periodic_event) (p : periodic) : option periodic :=
  match ev with
  | PvTime d => Some (mkPeriodic (pd_tables p) (pd_life p) (pd_calls p) (pd_hasJobs p) (pd_now p + Z.of_N d) (pd_trace p) (pd_closed p))
  | PvStart => if calm && lf_loopRunning (pd_life p) then None else Some (Start p).2
  | PvStop => Some (Stop p)
  | PvCancel i =>
      match ca_cancels (pd_calls p) !! i with
      | Some c => Some (cancel_ctx c (set_cancels (delete i (ca_cancels (pd_calls p))) p))
      | None => None
      end
  | PvParent => match lf_ctx (pd_life p) with Some c => Some (cancel_ctx c p) | None => None end
  | PvSetJobs b => Some (add_notify (mkPeriodic (pd_tables p) (pd_life p) (pd_calls p) b (pd_now p) (pd_trace p) (pd_closed p)))
  | PvRegister owner name interval maxAttempts retryDelay task => Some (Register owner name interval maxAttempts retryDelay task p).2
  | PvInstall i => Register_install i p
  | PvRefused i => Some (set_registering (delete i (ca_registering (pd_calls p))) p)
  | PvUnregister name other =>
      if blank name then Some p else Some (unregister_at (unregister_target (trim_space name) other (pd_tables p)) p).2
  | PvUnregisterOwned owner name => Some (unregister_at (Some (periodicKey (trim_space owner) (trim_space name))) p).2
  | PvUnregisterByOwner owner keys => if traversal keys (pd_tables p) then Some (unregister_owner owner keys p).2 else None
  | PvNotify =>
      match ca_notifies (pd_calls p) with O => None | S n => Some (notify_section (set_notify n (ca_sends (pd_calls p)) p)) end
  | PvSend =>
      match ca_sends (pd_calls p) with O => None | S n => Some (set_wake true (set_notify (ca_notifies (pd_calls p)) n p)) end
  | PvLoop id ans => loop_step id ans p
  end.

Inductive periodic_reachable (calm : bool) : periodic -> Prop :=
  | periodic_init jobs now : 0 <= now -> periodic_reachable calm (newPeriodicCoordinator jobs now)
  | periodic_next ev p p' : periodic_reachable calm p -> periodic_step calm ev p = Some p' -> periodic_reachable calm p'.

Fixpoint periodic_run (calm : bool) (evs : list periodic_event) (p : periodic) : option periodic :=
  match evs with [] => Some p | ev :: rest => periodic_step calm ev p ≫= periodic_run calm rest end.

(** ** What the loop holds *)

Definition hands_of (pc : loop_pc) : list due_run :=
  match pc with LRuns _ due => due | LBind _ run _ rest | LFinish _ run rest => run :: rest | _ => [] end.
Definition pending_of (pc : loop_pc) : list pendingReconcile :=
  match pc with LSettle _ ps => ps | LSettled _ pr _ _ ps => pr :: ps | _ => [] end.
Definition lap_of (pc : loop_pc) : option lap :=
  match pc with LRuns l _ | LBind l _ _ _ | LFinish l _ _ | LSettle l _ | LSettled l _ _ _ _ | LIdle l => Some l | _ => None end.
Definition ctx_of (pc : loop_pc) : option nat := match pc with LWait c _ => Some c | _ => lp_ctx <$> lap_of pc end.

Definition loop_at (p : periodic) : option loop_pc := lf_done (pd_life p) ≫= fun id => lf_loops (pd_life p) !! id.
Definition hands (p : periodic) : list due_run := match loop_at p with Some pc => hands_of pc | None => [] end.

(** The coordinator's own bookkeeping of its ticks, newest first: a tick is submitted
    again only under the same slot as long as its occurrence has not settled, and a
    settled slot never. *)
Fixpoint good_trace (tr : list tick) : Prop :=
  match tr with
  | [] => True
  | Submitted g s :: older =>
      Settled g s ∉ older /\ (forall s', Submitted g s' ∈ older -> s' = s \/ Settled g s' ∈ older /\ s' < s) /\ good_trace older
  | Settled g s :: older => Submitted g s ∈ older /\ Settled g s ∉ older /\ good_trace older
  end.

Definition tick_generation (x : tick) : nat := match x with Submitted g _ | Settled g _ => g end.

(** The slot of a registration, or of a run, against the trace. *)
Definition slot_open (g : nat) (slot : time) (tr : list tick) : Prop :=
  (forall s, Settled g s ∈ tr -> s < slot) /\ (forall s, Submitted g s ∈ tr -> s = slot \/ Settled g s ∈ tr /\ s < slot).

Record trace_ok (p : periodic) : Prop := {
  tk_reg : forall k g r, reg_at k (pd_tables p) = Some (g, r) -> slot_open g (rg_ScheduledFor r) (pd_trace p) /\
    (rg_Running r = true -> rg_OccurrenceID r <> ""%string -> Submitted g (rg_ScheduledFor r) ∈ pd_trace p);
  tk_hand : forall run, run ∈ hands p -> slot_open (dr_generation run) (dr_scheduledFor run) (pd_trace p);
  tk_bind : forall l run occ rest, loop_at p = Some (LBind l run occ rest) -> occ <> ""%string /\
    Submitted (dr_generation run) (dr_scheduledFor run) ∈ pd_trace p;
  tk_seq : forall x, x ∈ pd_trace p -> (tick_generation x <= tb_seq (pd_tables p))%nat;
  tk_good : good_trace (pd_trace p)
}.

(** Every idle registration will be looked at in time by a loop that sleeps until [e]. *)
Definition sleepy (t : tables) (e : option time) : Prop :=
  forall k g r, reg_at k t = Some (g, r) -> rg_Running r = false -> exists u, e = Some u /\ u <= rg_NextRun r.

Definition covers (t : tables) (pc : loop_pc) : Prop :=
  match pc with
  | LHead => True
  | LWait _ until => sleepy t until
  | LExit => False
  | _ => match lap_of pc with Some l => lp_ran l = true \/ sleepy t (lp_earliest l) | None => False end
  end.

Definition armed (p : periodic) : Prop :=
  lf_running (pd_life p) = true -> ctx_live (pd_life p) = true -> tb_entries (pd_tables p) <> ∅ ->
  (0 < ca_notifies (pd_calls p))%nat \/
  exists pc, loop_at p = Some pc /\ pc <> LExit /\ (ca_wake (pd_calls p) = true \/ (0 < ca_sends (pd_calls p))%nat \/ covers (pd_tables p) pc).

Definition life_ok (calm : bool) (f : life) : Prop :=
  lf_loopRunning f = bool_decide (is_Some (lf_done f)) /\
  (forall id, lf_done f = Some id -> is_Some (lf_loops f !! id)) /\
  (forall id pc, lf_loops f !! id = Some pc -> lf_done f <> Some id -> pc = LExit) /\
  (forall id, is_Some (lf_loops f !! id) -> (id < lf_fresh f)%nat) /\
  (calm = true -> lf_running f = true -> forall id pc, lf_done f = Some id -> lf_loops f !! id = Some pc ->
    (forall c, ctx_of pc = Some c -> lf_ctx f = Some c) /\ (pc = LExit -> ctx_live f = false)).

Definition pc_ok (t : tables) (pc : loop_pc) : Prop :=
  (hands_of pc <> [] -> exists l, lap_of pc = Some l /\ lp_ran l = true) /\
  (forall pr, pr ∈ pending_of pc -> pr_occurrenceID pr <> ""%string /\ 0 < pr_interval pr) /\
  match pc with
  | LSettled _ pr finished _ _ => 0 <= finished /\ forall g r, reg_at (pr_key pr) t = Some (g, r) ->
      rg_Running r = true -> rg_OccurrenceID r = pr_occurrenceID pr -> rg_ScheduledFor r <= finished
  | LIdle l => lp_ran l = false
  | _ => True
  end.

Record base_ok (calm : bool) (p : periodic) : Prop := {
  pk_now : 0 <= pd_now p;
  pk_tables : tables_ok (hands p) (pd_now p) (pd_tables p);
  pk_life : life_ok calm (pd_life p);
  pk_pc : forall id pc, lf_loops (pd_life p) !! id = Some pc -> pc_ok (pd_tables p) pc;
  pk_args : forall a, a ∈ ca_registering (pd_calls p) -> 0 < ra_interval a;
  pk_trace : trace_ok p
}.
Definition periodic_ok (calm : bool) (p : periodic) : Prop := base_ok calm p /\ (calm = true -> armed p).

(** ** Tables that keep their registrations *)

Definition alike (r0 r : periodicRegistration) : Prop :=
  rg_ScheduledFor r = rg_ScheduledFor r0 /\ rg_NextRun r = rg_NextRun r0 /\ rg_Running r = rg_Running r0 /\ rg_OccurrenceID r = rg_OccurrenceID r0.

(** Every registration of [t'] is one of [t], up to its timer, or a new idle one. *)
Definition kept (t t' : tables) : Prop :=
  (tb_seq t <= tb_seq t')%nat /\
  forall k g r, reg_at k t' = Some (g, r) ->
    (exists r0, reg_at k t = Some (g, r0) /\ alike r0 r) \/ ((tb_seq t < g)%nat /\ rg_Running r = false).

Lemma kept_refl t : kept t t.
Proof. split; [done|]. intros k g r H. left. by exists r. Qed.

Lemma kept_trans t1 t2 t3 : kept t1 t2 -> kept t2 t3 -> kept t1 t3.
Proof.
  intros [S1 K1] [S2 K2]. split; [lia|]. intros k g r H. destruct (K2 k g r H) as [(r2 & H2 & A1 & A2 & A3 & A4)|[Hg Hr]]; [|right; split; [lia|done]].
  destruct (K1 k g r2 H2) as [(r1 & H1 & B1 & B2 & B3 & B4)|[Hg Hr]]; [left; exists r1; split; [done|]; split_and!; congruence|right; split; [done|congruence]].
Qed.

Lemma remove_entry_kept hands now k t : tables_ok hands now t -> kept t (remove_entry k t).
Proof.
  intros H. destruct (remove_entry_ok hands now t k H) as [_ Hat]. split.
  - unfold remove_entry, drop_timer. destruct (reg_at k t) as [[g r]|]; [|done]. by destruct (rg_heapEntry r).
  - intros k' g r. rewrite Hat. case_decide; [done|]. intros Hk. left. by exists r.
Qed.

Lemma by_owner_kept hands now owner keys : forall acc, tables_ok hands now acc.2 -> kept acc.2 (foldl (by_owner_round owner) acc keys).2.
Proof.
  induction keys as [|k keys IH]; intros acc H; cbn [foldl]; [apply kept_refl|].
  assert (H1 : tables_ok hands now (by_owner_round owner acc k).2 /\ kept acc.2 (by_owner_round owner acc k).2).
  { destruct acc as [[pending count] t]. cbn in *. destruct (reg_at k t) as [[g r]|]; [|split; [done|apply kept_refl]].
    destruct (of_owner owner r); [|split; [done|apply kept_refl]]. cbn. split; [by apply remove_entry_ok|by eapply remove_entry_kept]. }
  destruct H1 as [H1 K1]. eapply kept_trans; [exact K1|]. by apply IH.
Qed.

Lemma register_kept hands now a t : tables_ok hands now t -> 0 <= now -> 0 < ra_interval a -> kept t (register_section a now t).2.
Proof.
  intros H Hn Hi. destruct (register_section_ok hands now a t H Hn Hi) as [_ [e Hat]]. split.
  - unfold register_section. destruct (reg_at _ t) as [[g0 old]|]; cbn; lia.
  - intros k g r. rewrite Hat. case_decide; [intros [= <- <-]; right; split; [lia|done]|]. intros Hk. left. by exists r.
Qed.

Lemma stop_kept t : kept t (stop_section t).2.
Proof. split; [done|]. intros k g r. unfold reg_at. cbn. by rewrite lookup_empty. Qed.

Lemma kept_trace p p' : trace_ok p -> kept (pd_tables p) (pd_tables p') -> loop_at p' = loop_at p -> pd_trace p' = pd_trace p -> trace_ok p'.
Proof.
  intros [T1 T2 T3 T4 T5] [Hseq K] El Et. unfold hands in *. split; unfold hands; rewrite ?El, ?Et; try done.
  - intros k g r Hk. destruct (K k g r Hk) as [(r0 & Hk0 & A1 & A2 & A3 & A4)|[Hg Hr]].
    + rewrite A1, A3, A4. by apply (T1 k).
    + split; [|congruence]. split; intros s Hs%T4; cbn in Hs; lia.
  - intros x Hx%T4. lia.
Qed.

Lemma kept_pc t t' pc : kept t t' -> pc_ok t pc -> pc_ok t' pc.
Proof.
  intros [_ K] (P1 & P2 & P3). split_and!; [done|done|]. destruct pc; try done. destruct P3 as [P3 P4]. split; [done|].
  intros g r Hk Hr Ho. destruct (K _ g r Hk) as [(r0 & Hk0 & A1 & A2 & A3 & A4)|[_ Hr']]; [|congruence].
  rewrite A1. apply (P4 g r0 Hk0); congruence.
Qed.

Lemma trace_same p p' : trace_ok p -> pd_tables p' = pd_tables p -> loop_at p' = loop_at p -> pd_trace p' = pd_trace p -> trace_ok p'.
Proof. intros H E1 E2 E3. apply (kept_trace p); [done|rewrite E1; apply kept_refl|done|done]. Qed.

(** What callers do to the tables, before they call [notify]. *)
Lemma caller_ok calm p t closed : base_ok calm p -> tables_ok (hands p) (pd_now p) t -> kept (pd_tables p) t ->
  periodic_ok calm (add_notify (pd_log [] closed (pd_set_tables t p))).
Proof.
  intros [O1 O2 O3 O4 O5 O6] Ht K. split; [|intros _ _ _ _; left; cbn; lia]. split; cbn; try done.
  - intros id pc Hpc. eapply kept_pc; [exact K|by eapply O4].
  - by apply (kept_trace p).
Qed.

(** Nothing but the pending calls changes. *)
Lemma calls_ok calm p c : base_ok calm p -> (forall a, a ∈ ca_registering c -> 0 < ra_interval a) -> base_ok calm (pd_set_calls c p).
Proof. intros [O1 O2 O3 O4 O5 O6] Hl. split; cbn; try done. by apply (trace_same p). Qed.

(** ** Lifecycle *)

Lemma startLoop_ok calm p : base_ok calm p ->
  base_ok calm (startLoopLocked p) /\ pd_tables (startLoopLocked p) = pd_tables p /\ pd_calls (startLoopLocked p) = pd_calls p /\
  lf_running (pd_life (startLoopLocked p)) = lf_running (pd_life p) /\ ctx_live (pd_life (startLoopLocked p)) = ctx_live (pd_life p) /\
  (lf_running (pd_life p) = true -> ctx_live (pd_life p) = true -> tb_entries (pd_tables p) <> ∅ ->
    lf_loopRunning (pd_life (startLoopLocked p)) = true /\
    (lf_loopRunning (pd_life p) = false -> loop_at (startLoopLocked p) = Some LHead) /\
    (calm = true -> exists pc, loop_at (startLoopLocked p) = Some pc /\ pc <> LExit)).
Proof.
  intros H. unfold startLoopLocked. destruct (_ || _) eqn:E.
  - split_and!; try done. intros Hr Hx He. rewrite Hr, Hx, bool_decide_false in E by done.
    destruct (lf_loopRunning (pd_life p)) eqn:El; [|done].
    split_and!; [done|by intros ?|]. destruct H as [_ _ (L1 & L2 & L3 & L4 & L5) _ _ _]. intros Hc. rewrite L1 in El. bool_to_prop.
    destruct El as [id Hd]. destruct (L2 id Hd) as [pc Hpc]. exists pc. unfold loop_at. rewrite Hd. cbn. split; [done|].
    intros ->. destruct (L5 Hc Hr id LExit Hd Hpc) as [_ Hl]. rewrite Hl in Hx by done. done.
  - bool_to_prop. destruct H as [O1 O2 (L1 & L2 & L3 & L4 & L5) O4 O5 O6]. rewrite L1 in *. bool_to_prop.
    assert (Hd : lf_done (pd_life p) = None) by (destruct (lf_done (pd_life p)); [exfalso; eauto|done]).
    assert (Hh : hands p = []) by (unfold hands, loop_at; by rewrite Hd).
    assert (Hnew : lf_loops (pd_life p) !! lf_fresh (pd_life p) = None).
    { destruct (lf_loops (pd_life p) !! lf_fresh (pd_life p)) eqn:El; [|done]. pose proof (L4 _ (mk_is_Some _ _ El)). lia. }
    set (p' := pd_set_life _ _). assert (Hat : loop_at p' = Some LHead) by (unfold loop_at; cbn; by rewrite lookup_insert_eq).
    split_and!; try done; [|intros _ _ _; split_and!; [done|done|intros _; by exists LHead]].
    split; try done.
    + unfold hands. rewrite Hat. cbn. by rewrite Hh in O2.
    + split_and!; cbn; [done| | | |].
      * intros id [= <-]. by rewrite lookup_insert_eq.
      * intros id pc [[<- <-]|[Hne Hpc]]%lookup_insert_Some Hn; [done|]. apply (L3 id pc Hpc). congruence.
      * intros id [pc [[<- _]|[_ Hpc]]%lookup_insert_Some]; [lia|]. pose proof (L4 id (mk_is_Some _ _ Hpc)). lia.
      * intros _ _ id pc [= <-] Hpc. rewrite lookup_insert_eq in Hpc. injection Hpc as <-. done.
    + cbn. intros id pc [[<- <-]|[Hne Hpc]]%lookup_insert_Some; [|by eapply O4].
      split_and!; [done|by intros pr ?%elem_of_nil|done].
    + destruct O6 as [T1 T2 T3 T4 T5]. split; try done.
      * unfold hands. rewrite Hat. by intros run ?%elem_of_nil.
      * intros l run occ rest. by rewrite Hat.
Qed.

Lemma notify_section_ok calm p : base_ok calm p -> periodic_ok calm (notify_section p).
Proof.
  intros H. destruct (startLoop_ok calm p H) as (H1 & E1 & E2 & E3 & E4 & Hl). unfold notify_section.
  destruct (lf_loopRunning (pd_life (startLoopLocked p))) eqn:El.
  - split; [apply calls_ok; [done|cbn; rewrite E2; apply H]|]. intros Hc Hr Hx He. cbn in *. rewrite E1, E3, E4 in *.
    destruct (Hl Hr Hx He) as (_ & _ & (pc & Hpc & Hne)); [done|]. right. exists pc. split_and!; [done|done|]. right. left. cbn. lia.
  - split; [done|]. intros Hc Hr Hx He. rewrite E1, E3, E4 in *. by destruct (Hl Hr Hx He).
Qed.

(** A change of the lifecycle that leaves the loops alone. *)
Lemma life_change_ok calm p f : base_ok calm p ->
  lf_loops f = lf_loops (pd_life p) -> lf_done f = lf_done (pd_life p) -> lf_loopRunning f = lf_loopRunning (pd_life p) ->
  lf_fresh f = lf_fresh (pd_life p) ->
  (calm = true -> lf_running f = true -> forall id pc, lf_done f = Some id -> lf_loops f !! id = Some pc ->
    (forall c, ctx_of pc = Some c -> lf_ctx f = Some c) /\ (pc = LExit -> ctx_live f = false)) ->
  base_ok calm (pd_set_life f p).
Proof.
  intros [O1 O2 (L1 & L2 & L3 & L4 & L5) O4 O5 O6] E1 E2 E3 E4 Hc.
  assert (Hat : loop_at (pd_set_life f p) = loop_at p) by (unfold loop_at; cbn; by rewrite E1, E2).
  split; cbn; rewrite ?E1; try done.
  - unfold hands. by rewrite Hat.
  - split_and!; rewrite ?E1, ?E2, ?E3, ?E4; try done. by rewrite E1, E2 in Hc.
  - by apply (trace_same p).
Qed.

Lemma periodic_Start_ok calm p : periodic_ok calm p -> (calm = true -> lf_loopRunning (pd_life p) = false) -> periodic_ok calm (Start p).2.
Proof.
  intros [H Ha] Hcalm. unfold Start. destruct (lf_running (pd_life p)) eqn:Hr; [by split|]. cbn [snd].
  set (p1 := pd_set_life _ p).
  assert (Hdone : calm = true -> lf_done (pd_life p) = None).
  { intros Hc. specialize (Hcalm Hc). destruct (pk_life _ _ H) as (L1 & _). rewrite L1 in Hcalm. bool_to_prop.
    destruct (lf_done (pd_life p)); [exfalso; eauto|done]. }
  assert (H1 : base_ok calm p1).
  { apply life_change_ok; try done. intros Hc _ id pc Hd. cbn in Hd. by rewrite (Hdone Hc) in Hd. }
  destruct (startLoop_ok calm p1 H1) as (H2 & E1 & E2 & E3 & E4 & Hl). split; [done|]. intros Hc Hr' Hx He. rewrite E1, E3, E4 in *.
  destruct (Hl Hr' Hx He) as (_ & Hhead & _). right. exists LHead. split_and!; [by apply Hhead, Hcalm|done|]. by right; right.
Qed.

Lemma periodic_Stop_ok calm p : periodic_ok calm p -> periodic_ok calm (Stop p).
Proof.
  intros [H Ha]. unfold Stop. destruct (lf_running (pd_life p)) eqn:Hr; [|by split].
  pose proof (caller_ok calm p (stop_section (pd_tables p)).2 (stop_section (pd_tables p)).1 H
    (stop_section_ok _ _ _ (pk_tables _ _ H)) (stop_kept _)) as [H1 _].
  destruct (stop_section (pd_tables p)) as [pending t]. cbn [fst snd] in H1. split; [|by intros _ Hr'].
  eapply (life_change_ok calm _ (mkLife false _ _ _ _ _ _ _)) in H1; [|reflexivity..|done].
  eapply calls_ok in H1; [exact H1|]. cbn. apply H.
Qed.

Lemma cancel_ok calm p c : periodic_ok calm p -> periodic_ok calm (cancel_ctx c p).
Proof.
  intros [H Ha]. assert (Hl : ctx_live (pd_life (cancel_ctx c p)) = true -> ctx_live (pd_life p) = true).
  { unfold ctx_live. cbn. destruct (lf_ctx (pd_life p)) as [c0|]; [|done]. intros Hn. bool_to_prop. apply negb_true_iff, bool_decide_eq_false.
    set_solver. }
  split.
  - apply life_change_ok; try done. intros Hc Hr id pc Hd Hpc. destruct (pk_life _ _ H) as (_ & _ & _ & _ & L5).
    destruct (L5 Hc Hr id pc Hd Hpc) as [K1 K2]. split; [done|]. intros E. specialize (K2 E).
    apply not_true_is_false. intros Ex%Hl. congruence.
  - intros Hc Hr Hx He. apply Ha; try done. by apply Hl.
Qed.

(** ** The loop *)

Lemma live_loop calm f id pc : life_ok calm f -> lf_loops f !! id = Some pc -> pc <> LExit -> lf_done f = Some id.
Proof. intros (_ & _ & L3 & _) Hpc Hne. destruct (decide (lf_done f = Some id)); [done|]. by destruct (Hne (L3 id pc Hpc n)). Qed.

(** The loop moves from one place to another. *)
Lemma periodic_move_ok calm p p' id pc pc' : base_ok calm p -> lf_loops (pd_life p) !! id = Some pc -> pc <> LExit ->
  pd_life p' = pd_life (put_loop id pc' p) -> pd_now p' = pd_now p -> ca_registering (pd_calls p') = ca_registering (pd_calls p) ->
  tables_ok (hands_of pc') (pd_now p) (pd_tables p') -> pc_ok (pd_tables p') pc' -> trace_ok p' ->
  (calm = true -> lf_running (pd_life p) = true -> (forall c, ctx_of pc' = Some c -> lf_ctx (pd_life p) = Some c) /\
    (pc' = LExit -> ctx_live (pd_life p) = false)) ->
  base_ok calm p' /\ loop_at p' = Some pc'.
Proof.
  intros [O1 O2 O3 O4 O5 O6] Hpc Hne El En Er Ht Hp Htr Hc.
  pose proof (live_loop _ _ _ _ O3 Hpc Hne) as Hd. pose proof O3 as (L1 & L2 & L3 & L4 & L5).
  assert (Hat : loop_at p' = Some pc') by (unfold loop_at; rewrite El; cbn; rewrite Hd; cbn; by rewrite lookup_insert_eq).
  split; [|done]. split; rewrite ?En, ?Er; try done.
  - unfold hands. by rewrite Hat.
  - rewrite El. split_and!; cbn; [done| | | |].
    + intros i Hi. rewrite Hd in Hi. injection Hi as <-. by rewrite lookup_insert_eq.
    + intros i pc0 [[<- <-]|[_ Hi]]%lookup_insert_Some Hn; [by rewrite Hd in Hn|by apply (L3 i)].
    + intros i [pc0 [[<- _]|[_ Hi]]%lookup_insert_Some]; [apply L4; by exists pc|apply L4; by exists pc0].
    + intros Hcalm Hr i pc0 Hi Hi'. rewrite Hd in Hi. injection Hi as <-. rewrite lookup_insert_eq in Hi'. injection Hi' as <-.
      by apply Hc.
  - rewrite El. cbn. intros i pc0 [[<- <-]|[Hni Hi]]%lookup_insert_Some; [done|].
    assert (pc0 = LExit) as -> by (apply (L3 i); [done|congruence]). split_and!; [done|by intros pr ?%elem_of_nil|done].
Qed.

(** Where the context of the loop comes from. *)
Lemma ctx_kept calm p id pc pc' : base_ok calm p -> lf_loops (pd_life p) !! id = Some pc -> pc <> LExit ->
  (forall c, ctx_of pc' = Some c -> ctx_of pc = Some c) -> pc' <> LExit ->
  calm = true -> lf_running (pd_life p) = true -> (forall c, ctx_of pc' = Some c -> lf_ctx (pd_life p) = Some c) /\
    (pc' = LExit -> ctx_live (pd_life p) = false).
Proof.
  intros H Hpc Hne Hctx Hne' Hc Hr. pose proof (pk_life _ _ H) as Hl. pose proof (live_loop _ _ _ _ Hl Hpc Hne) as Hd.
  destruct Hl as (_ & _ & _ & _ & L5). destruct (L5 Hc Hr id pc Hd Hpc) as [K _]. split; [|done]. intros c Hx. by apply K, Hctx.
Qed.

Lemma hands_loop p pc : loop_at p = Some pc -> hands p = hands_of pc.
Proof. unfold hands. by intros ->. Qed.

(** The registrations the head of the loop leaves as they were, and those it takes. *)
Lemma head_regs hands now keys t : tables_ok hands now t -> hands = [] -> traversal keys t = true ->
  let '(due, t') := collectDueLocked now (syncHeapLocked keys t) in
  tables_ok due now t' /\ tb_seq t' = tb_seq t /\
  (forall k g r, reg_at k t' = Some (g, r) -> exists r0, reg_at k t = Some (g, r0) /\ rg_ScheduledFor r = rg_ScheduledFor r0 /\
    (rg_Running r = true -> rg_OccurrenceID r <> ""%string -> rg_Running r0 = true /\ rg_OccurrenceID r0 = rg_OccurrenceID r)) /\
  (forall run, run ∈ due -> exists r0, reg_at (run_key run) t = Some (dr_generation run, r0) /\ dr_scheduledFor run = rg_ScheduledFor r0) /\
  (due = [] -> sleepy t' (te_Deadline <$> timer_PeekEarliest (tb_heap t'))).
Proof.
  intros H -> Htrav. destruct (syncHeapLocked_ok [] now keys t H) as (H1 & Htm & [Hs Hn]).
  assert (Hall : forall k, timed k (syncHeapLocked keys t)).
  { intros k. apply Htm. unfold traversal in Htrav. bool_to_prop. destruct (reg_at k t) as [[g r]|] eqn:Hk.
    - left. apply reg_at_Some in Hk as [He _]. apply (elem_of_list_to_set (C := gset string)). rewrite H2. by apply elem_of_dom_2 in He.
    - right. intros g r. by rewrite Hk. }
  assert (Hback : forall k g r, reg_at k (syncHeapLocked keys t) = Some (g, r) -> exists r0 e, reg_at k t = Some (g, r0) /\ r = set_timer e r0).
  { intros k g r Hk. destruct (reg_at k t) as [[g0 r0]|] eqn:Hk0; [|by rewrite (Hn k Hk0) in Hk].
    destruct (Hs k g0 r0 Hk0) as [e He]. rewrite He in Hk. injection Hk as <- <-. by exists r0, e. }
  pose proof (collectDueLocked_ok now (syncHeapLocked keys t) H1 Hall) as HC.
  pose proof (collectDueLocked_seq now (syncHeapLocked keys t)) as Hseq2. rewrite syncHeapLocked_seq in Hseq2.
  destruct (collectDueLocked now (syncHeapLocked keys t)) as [due t']. cbn in Hseq2. destruct HC as (C1 & C2 & C3 & C4 & C5 & C6).
  split_and!; [done|done| | |].
  - intros k g r Hk. destruct (decide (k ∈ map run_key due)) as [(run & -> & Hrun)%list_elem_of_fmap|Hnot].
    + destruct (C3 run Hrun) as (r1 & Hr1 & Hidle & _ & Hr1'). rewrite Hk in Hr1'. injection Hr1' as -> ->.
      destruct (Hback _ _ _ Hr1) as (r0 & e & Hr0 & ->). exists r0. by split_and!.
    + rewrite C4 in Hk by done. destruct (Hback _ _ _ Hk) as (r0 & e & Hr0 & ->). exists r0. by split_and!.
  - intros run Hrun. destruct (C3 run Hrun) as (r1 & Hr1 & _ & Hslot & _). destruct (Hback _ _ _ Hr1) as (r0 & e & Hr0 & ->).
    by exists r0.
  - intros -> k g r Hk Hidle. destruct (C2 k g r Hk Hidle) as (e & He & Hd). destruct C1 as [Hh Hok].
    destruct (to_back _ _ _ _ Hok k g r e Hk He) as (_ & _ & _ & x & Hx & _ & _ & Hdx).
    destruct (timer_Peek_least _ x Hh Hx) as (top & -> & Hle). exists (te_Deadline top). split; [done|]. rewrite <- Hd, <- Hdx. exact Hle.
Qed.

Lemma pc_ok_plain t pc : hands_of pc = [] -> pending_of pc = [] -> (forall l, pc = LIdle l -> lp_ran l = false) -> pc_ok t pc.
Proof. intros E1 E2 E3. unfold pc_ok. rewrite E1, E2. split_and!; [done|by intros pr ?%elem_of_nil|]. destruct pc; try done. by apply E3. Qed.

Lemma trace_move p p' pc : trace_ok p -> pd_tables p' = pd_tables p -> pd_trace p' = pd_trace p -> loop_at p' = Some pc \/ loop_at p' = None ->
  (forall run, run ∈ hands_of pc -> run ∈ hands p) -> (forall l run occ rest, pc <> LBind l run occ rest) -> trace_ok p'.
Proof.
  intros [T1 T2 T3 T4 T5] E1 E2 Hat Hh Hb. split; rewrite ?E1, ?E2; try done.
  - intros run Hrun. apply T2. unfold hands in Hrun. destruct Hat as [Hat|Hat]; rewrite Hat in Hrun; [by apply Hh|by apply elem_of_nil in Hrun].
  - intros l run occ rest Hl. destruct Hat as [Hat|Hat]; rewrite Hat in Hl; [|done]. injection Hl as ->. by destruct (Hb l run occ rest).
Qed.

Lemma loop_at_put id pc p : lf_done (pd_life p) = Some id -> loop_at (put_loop id pc p) = Some pc.
Proof. intros Hd. unfold loop_at. cbn. rewrite Hd. cbn. by rewrite lookup_insert_eq. Qed.

(** The loop gives its place up. *)
Lemma retired_ok calm p p' id : base_ok calm p -> lf_done (pd_life p) = Some id -> hands p = [] ->
  lf_loops (pd_life p') = <[id := LExit]> (lf_loops (pd_life p)) \/ lf_loops (pd_life p') = delete id (lf_loops (pd_life p)) ->
  lf_done (pd_life p') = None -> lf_loopRunning (pd_life p') = false -> lf_fresh (pd_life p') = lf_fresh (pd_life p) ->
  pd_tables p' = pd_tables p -> pd_now p' = pd_now p -> pd_calls p' = pd_calls p -> pd_trace p' = pd_trace p -> base_ok calm p'.
Proof.
  intros [O1 O2 (L1 & L2 & L3 & L4 & L5) O4 O5 O6] Hd Hh El E1 E2 E3 E4 E5 E6 E7.
  assert (Hat : loop_at p' = None) by (unfold loop_at; by rewrite E1).
  assert (Hloop : forall i pc, lf_loops (pd_life p') !! i = Some pc -> pc = LExit /\ is_Some (lf_loops (pd_life p) !! i)).
  { intros i pc Hi. destruct (decide (i = id)) as [->|Hne].
    - split; [|by apply L2]. destruct El as [El|El]; rewrite El in Hi; [rewrite lookup_insert_eq in Hi; by injection Hi|by rewrite lookup_delete_eq in Hi].
    - assert (Hi' : lf_loops (pd_life p) !! i = Some pc).
      { destruct El as [El|El]; rewrite El in Hi; [by rewrite lookup_insert_ne in Hi|by rewrite lookup_delete_ne in Hi]. }
      split; [|by exists pc]. apply (L3 i pc Hi'). congruence. }
  split; rewrite ?E4, ?E5, ?E6; try done.
  - unfold hands. rewrite Hat. by rewrite Hh in O2.
  - split_and!; rewrite ?E1, ?E2, ?E3; try done.
    + intros i pc Hi _. by apply Hloop in Hi as [? _].
    + intros i [pc Hi]. apply L4. by apply Hloop in Hi as [_ ?].
  - intros i pc Hi. apply Hloop in Hi as [-> _]. by apply pc_ok_plain.
  - apply (trace_move p _ LExit); try done; [by right|by intros run ?%elem_of_nil].
Qed.

Lemma head_ok calm p p' id keys : periodic_ok calm p -> lf_loops (pd_life p) !! id = Some LHead -> loop_head id keys p = Some p' ->
  periodic_ok calm p'.
Proof.
  intros [H Ha] Hpc E. pose proof (live_loop _ _ _ _ (pk_life _ _ H) Hpc ltac:(done)) as Hd.
  assert (Hh : hands p = []) by (unfold hands, loop_at; rewrite Hd; cbn; by rewrite Hpc).
  pose proof (pk_tables _ _ H) as Ht. rewrite Hh in Ht. unfold loop_head in E.
  assert (Hexit : trace_ok (put_loop id LExit p)).
  { apply (trace_move p _ LExit); try done; [by apply pk_trace in H|left; by apply loop_at_put|by intros run ?%elem_of_nil]. }
  destruct (lf_running (pd_life p)) eqn:Hr.
  2: { injection E as <-. split; [|by intros _ Hr'; cbn in Hr'; congruence].
    apply (periodic_move_ok calm p _ id LHead LExit); try done; [by apply pc_ok_plain|intros _; congruence]. }
  destruct (lf_ctx (pd_life p)) as [c|] eqn:Hctx.
  2: { injection E as <-. split; [|intros _ _ Hx; cbn in Hx; unfold ctx_live in Hx; cbn in Hx; by rewrite Hctx in Hx].
    apply (periodic_move_ok calm p _ id LHead LExit); try done; [by apply pc_ok_plain|].
    intros _ _. split; [done|]. intros _. unfold ctx_live. by rewrite Hctx. }
  case_bool_decide as He.
  - injection E as <-. unfold retire_loop. rewrite bool_decide_true by done. split; [|by intros _ _ _ Hn].
    eapply (retired_ok calm p _ id); try done. by left.
  - destruct (traversal keys (pd_tables p)) eqn:Htrav; [|done]. cbn in E.
    pose proof (head_regs [] (pd_now p) keys (pd_tables p) Ht eq_refl Htrav) as HR.
    destruct (collectDueLocked (pd_now p) (syncHeapLocked keys (pd_tables p))) as [due t]. injection E as <-.
    destruct HR as (R1 & R2 & R3 & R4 & R5). set (l := mkLap _ _ _ _). set (p' := put_loop _ _ _).
    assert (Htr : trace_ok p').
    { destruct (pk_trace _ _ H) as [T1 T2 T3 T4 T5]. split; try done.
      - cbn. intros k g r Hk. destruct (R3 k g r Hk) as (r0 & Hr0 & Es & Eo). destruct (T1 k g r0 Hr0) as [S1 S2]. rewrite Es. split; [done|].
        intros H1 H2. destruct (Eo H1 H2) as [H3 H4]. apply S2; congruence.
      - unfold hands, loop_at. cbn. rewrite Hd. cbn. rewrite lookup_insert_eq. cbn. intros run Hrun.
        destruct (R4 run Hrun) as (r0 & Hr0 & Es). rewrite Es. by apply (T1 _ _ _ Hr0).
      - unfold loop_at. cbn. rewrite Hd. cbn. by rewrite lookup_insert_eq.
      - cbn. by rewrite R2. }
    destruct (periodic_move_ok calm p p' id LHead (LRuns l due)) as [H1 Hat]; try done.
    + split_and!; [|by intros pr ?%elem_of_nil|done]. cbn. intros Hne. exists l. split; [done|]. cbn. by rewrite bool_decide_false.
    + intros _ _. split; [by intros c0 [= <-]|done].
    + split; [done|]. intros _ _ _ _. right. exists (LRuns l due). split_and!; [done|done|]. right. right. cbn.
      destruct (decide (due = [])) as [->|Hne]; [right; by apply R5|left; by rewrite bool_decide_false].
Qed.

Lemma hand_key hands now timers t run k r : regs_ok hands now timers t -> run ∈ hands -> reg_at k t = Some (dr_generation run, r) ->
  k = run_key run /\ rg_Running r = true /\ rg_OccurrenceID r = ""%string /\ rg_ScheduledFor r = dr_scheduledFor run.
Proof.
  intros H Hrun Hk. destruct (to_gen _ _ _ _ H run Hrun) as (_ & r1 & Hr1 & Ho & Hn).
  apply reg_at_Some in Hk as Hk'. destruct Hk' as [_ Hr]. assert (r1 = r) by congruence. subst r1.
  destruct (reg_at_key hands now timers t k _ r H Hk) as [Hkey _]. assert (Ek : k = run_key run) by (unfold run_key; by rewrite <- Ho, <- Hn).
  split; [done|]. apply (to_hands _ _ _ _ H run r Hrun). by rewrite <- Ek.
Qed.

Lemma slot_open_submit g slot g' tr : slot_open g slot tr -> slot_open g' slot tr -> slot_open g slot (Submitted g' slot :: tr).
Proof.
  intros [S1 S2] _. split.
  - intros s [E|Hs]%elem_of_cons; [done|by apply S1].
  - intros s [[= -> ->]|Hs]%elem_of_cons; [by left|]. destruct (S2 s Hs) as [->|[Hx Hlt]]; [by left|right]. split; [by right|done].
Qed.

Lemma slot_open_other x g slot tr : tick_generation x <> g -> slot_open g slot tr -> slot_open g slot (x :: tr).
Proof.
  intros Hne [S1 S2]. split.
  - intros s [E|Hs]%elem_of_cons; [by subst x|by apply S1].
  - intros s [E|Hs]%elem_of_cons; [by subst x|]. destruct (S2 s Hs) as [->|[Hx Hlt]]; [by left|right]. split; [by right|done].
Qed.

(** The step that submits a run. *)
Lemma submit_trace calm p p' l run rest pc : base_ok calm p -> loop_at p = Some (LRuns l (run :: rest)) ->
  loop_at p' = Some pc -> hands_of pc = run :: rest -> (forall l run' occ rest, pc = LBind l run' occ rest -> run' = run /\ occ <> ""%string) ->
  pd_tables p' = pd_tables p -> pd_trace p' = Submitted (dr_generation run) (dr_scheduledFor run) :: pd_trace p -> trace_ok p'.
Proof.
  intros H Hat Hat' Hh Hb Et Etr.
  assert (H' : trace_ok p /\ tables_ok (run :: rest) (pd_now p) (pd_tables p)).
  { split; [apply H|]. pose proof (pk_tables _ _ H) as Ht. by rewrite (hands_loop _ _ Hat) in Ht. }
  destruct H' as [[T1 T2 T3 T4 T5] [_ Hreg]]. rewrite (hands_loop _ _ Hat) in T2. cbn in T2.
  pose proof (T2 run ltac:(left)) as Hrun. split; rewrite ?Et, ?Etr.
  - intros k g r Hk. destruct (T1 k g r Hk) as [S1 S2]. split; [|intros; right; by apply S2].
    destruct (decide (g = dr_generation run)) as [->|Hne]; [|by apply slot_open_other].
    destruct (hand_key _ _ _ _ run k r Hreg ltac:(left) Hk) as (_ & _ & _ & ->). by apply slot_open_submit.
  - rewrite (hands_loop _ _ Hat'), Hh. intros x Hx. destruct (decide (dr_generation x = dr_generation run)) as [E|Hne].
    + assert (x = run) as -> by (eapply (nodup_map_inj dr_generation); [apply (to_nodup _ _ _ _ Hreg)|done|left|done]).
      by apply slot_open_submit.
    + apply slot_open_other; [done|]. by apply T2.
  - rewrite Hat'. intros l' run' occ rest' [= E]. destruct (Hb _ _ _ _ E) as [-> Ho]. split; [done|left].
  - intros x [->|Hx]%elem_of_cons; [|by apply T4]. cbn. by destruct (to_gen _ _ _ _ Hreg run ltac:(left)).
  - cbn. split_and!; [|apply Hrun|done]. intros Hs%(proj1 Hrun). lia.
Qed.

(** A registration changes as the loop resolves the run it holds. *)
Lemma resolve_trace calm p p' run rest r r' pc : base_ok calm p -> hands p = run :: rest -> current run (pd_tables p) = Some r ->
  pd_tables p' = put_reg (dr_generation run) r' (pd_tables p) -> pd_trace p' = pd_trace p -> loop_at p' = Some pc -> hands_of pc = rest ->
  (forall l run occ rest, pc <> LBind l run occ rest) -> rg_ScheduledFor r' = rg_ScheduledFor r ->
  (rg_Running r' = true -> rg_OccurrenceID r' <> ""%string -> Submitted (dr_generation run) (rg_ScheduledFor r) ∈ pd_trace p) ->
  trace_ok p'.
Proof.
  intros H Hh [Hk Hr]%current_Some Et Etr Hat Hh' Hb Es Hocc. pose proof (pk_tables _ _ H) as [_ Hreg].
  destruct (pk_trace _ _ H) as [T1 T2 T3 T4 T5]. rewrite Hh in T2. split; rewrite ?Etr; try done.
  - intros k g r1. rewrite Et, (reg_at_put _ _ _ _ _ _ _ _ _ Hreg Hk). case_decide; [|by apply T1]. intros [= <- <-]. rewrite Es.
    split; [by apply (T1 (run_key run) _ r)|done].
  - rewrite (hands_loop _ _ Hat), Hh'. intros x Hx. apply T2. by right.
  - intros l run' occ rest'. rewrite Hat. intros [= E]. by destruct (Hb _ _ _ _ E).
  - rewrite Et. exact T4.
Qed.

(** The registrations that are idle stay so. *)
Lemma sleepy_put hands now timers t k g r r' e : regs_ok hands now timers t -> reg_at k t = Some (g, r) -> rg_Running r' = true ->
  sleepy t e -> sleepy (put_reg g r' t) e.
Proof.
  intros H Hk Hr Hs k' g' r1. rewrite (reg_at_put _ _ _ _ _ _ _ _ _ H Hk). case_decide; [intros [= <- <-]; congruence|apply Hs].
Qed.

Lemma armed_move p p' pc pc' : armed p -> loop_at p = Some pc -> loop_at p' = Some pc' -> pc' <> LExit ->
  lf_running (pd_life p') = lf_running (pd_life p) -> ctx_live (pd_life p') = ctx_live (pd_life p) -> tb_entries (pd_tables p') = tb_entries (pd_tables p) ->
  (ca_notifies (pd_calls p) <= ca_notifies (pd_calls p'))%nat -> (ca_wake (pd_calls p) = true -> ca_wake (pd_calls p') = true \/ pc' = LHead) ->
  (ca_sends (pd_calls p) <= ca_sends (pd_calls p'))%nat -> (covers (pd_tables p) pc -> covers (pd_tables p') pc') -> armed p'.
Proof.
  intros Ha Hat Hat' Hne E1 E2 E3 E4 E5 E6 Hc Hr Hx He. rewrite E1, E2, E3 in *. destruct (Ha Hr Hx He) as [Hn|(pc0 & Hpc & _ & Hcov)]; [left; lia|].
  right. exists pc'. split_and!; [done|done|]. rewrite Hat in Hpc. injection Hpc as <-. destruct Hcov as [Hw|[Hs|Hcov]].
  - destruct (E5 Hw) as [Hw'| ->]; [by left|right; by right].
  - right. left. lia.
  - right. right. by apply Hc.
Qed.

Lemma armed_notified p : (0 < ca_notifies (pd_calls p))%nat -> armed p.
Proof. by left. Qed.

Section Step.
Context (calm : bool) (p : periodic) (id : nat).
Hypothesis Hok : periodic_ok calm p.

#[local] Lemma step_at pc : lf_loops (pd_life p) !! id = Some pc -> pc <> LExit -> lf_done (pd_life p) = Some id /\ loop_at p = Some pc.
Proof.
  intros Hpc Hne. destruct Hok as [H _]. pose proof (live_loop _ _ _ _ (pk_life _ _ H) Hpc Hne) as Hd. split; [done|].
  unfold loop_at. rewrite Hd. cbn. exact Hpc.
Qed.

(** A step that only moves the loop on. *)
Lemma plain_ok p' pc pc' : lf_loops (pd_life p) !! id = Some pc -> pc <> LExit -> pc' <> LExit ->
  pd_life p' = pd_life (put_loop id pc' p) -> pd_tables p' = pd_tables p -> pd_now p' = pd_now p -> pd_trace p' = pd_trace p ->
  ca_registering (pd_calls p') = ca_registering (pd_calls p) -> hands_of pc' = [] -> hands_of pc = [] ->
  pc_ok (pd_tables p) pc' -> (forall c, ctx_of pc' = Some c -> ctx_of pc = Some c) ->
  (armed p -> armed p') -> periodic_ok calm p'.
Proof.
  intros Hpc Hne Hne' El Et En Etr Er Hh' Hh Hp Hctx Ha. destruct (step_at pc Hpc Hne) as [Hd Hat]. destruct Hok as [H Ha0].
  assert (Hat' : loop_at p' = Some pc') by (unfold loop_at; rewrite El; apply loop_at_put, Hd).
  destruct (periodic_move_ok calm p p' id pc pc') as [H1 _]; try done.
  - rewrite Et, Hh'. pose proof (pk_tables _ _ H) as Ht. by rewrite (hands_loop _ _ Hat), Hh in Ht.
  - by rewrite Et.
  - apply (trace_move p p' pc'); [apply H|done|done|by left|by rewrite Hh'; intros run ?%elem_of_nil|].
    intros l run occ rest ->. done.
  - by apply ctx_kept with (id := id) (pc := pc).
  - split; [done|]. intros Hc. by apply Ha, Ha0.
Qed.

Lemma run_step_ok l run rest a p' : lf_loops (pd_life p) !! id = Some (LRuns l (run :: rest)) ->
  loop_step id (AnsSubmit a) p = Some p' -> periodic_ok calm p'.
Proof.
  intros Hpc E. destruct (step_at _ Hpc ltac:(done)) as [Hd Hat]. destruct Hok as [H Ha]. unfold loop_step in E. rewrite Hpc in E.
  pose proof (pk_tables _ _ H) as Ht. rewrite (hands_loop _ _ Hat) in Ht. cbn in Ht.
  destruct (pk_pc _ _ H id _ Hpc) as (P1 & _ & _).
  assert (Hran : lp_ran l = true) by (destruct (P1 ltac:(done)) as (l0 & [= <-] & ?); done).
  assert (Hmove : forall p1 pc', pd_life p1 = pd_life (put_loop id pc' p) -> pd_tables p1 = pd_tables p -> pd_now p1 = pd_now p ->
    pd_calls p1 = pd_calls p -> hands_of pc' = run :: rest -> lap_of pc' = Some l -> pending_of pc' = [] -> pc' <> LExit -> trace_ok p1 ->
    (match pc' with LSettled _ _ _ _ _ => False | _ => True end) -> covers (pd_tables p) pc' -> periodic_ok calm p1).
  { intros p1 pc' El Et En Ec Hh Hl Hp Hne Htr Hns Hcov.
    destruct (periodic_move_ok calm p p1 id (LRuns l (run :: rest)) pc') as [H1 Hat1]; try done; try (by rewrite ?Et, ?Hh, ?Ec).
    - rewrite Et. split_and!; [intros _; by exists l|by rewrite Hp; intros pr ?%elem_of_nil|by destruct pc'].
    - apply ctx_kept with (id := id) (pc := LRuns l (run :: rest)); try done. intros c. destruct pc'; cbn in Hl |- *; by simplify_eq.
    - split; [done|]. intros Hc. eapply (armed_move p p1 (LRuns l (run :: rest)) pc'); rewrite ?El, ?Et, ?Ec; try done; [by apply Ha|by left]. }
  destruct (lp_jobs l).
  - assert (Htr : forall pc', hands_of pc' = run :: rest -> (forall l run' occ rest, pc' = LBind l run' occ rest -> run' = run /\ occ <> ""%string) ->
      trace_ok (put_loop id pc' (pd_log [Submitted (dr_generation run) (dr_scheduledFor run)] [] p))).
    { intros pc' Hh Hb. eapply (submit_trace calm p _ l run rest pc'); try done. by apply loop_at_put. }
    destruct a as [occ|occ|].
    1,2: destruct (String.eqb_spec occ "") as [|Ho]; [done|]; injection E as <-; eapply (Hmove _ (LBind l run occ rest)); try done;
      [apply Htr; [done|by intros ? ? ? ? [= <- <- <- <-]]|by left].
    injection E as <-. eapply (Hmove _ (LFinish l run rest)); try done; [by apply Htr|by left].
  - injection E as <-. eapply (Hmove _ (LFinish l run rest)); try done; [|by left].
    apply (trace_move p _ (LFinish l run rest)); try done; [apply H|left; by apply loop_at_put|]. by rewrite (hands_loop _ _ Hat).
Qed.

Lemma bind_step_ok l run occ rest p' : lf_loops (pd_life p) !! id = Some (LBind l run occ rest) ->
  loop_step id AnsNone p = Some p' -> periodic_ok calm p'.
Proof.
  intros Hpc E. destruct (step_at _ Hpc ltac:(done)) as [Hd Hat]. destruct Hok as [H Ha]. unfold loop_step in E. rewrite Hpc in E.
  destruct (bindOccurrence run occ (pd_tables p)) as [stray t] eqn:Eb. injection E as <-.
  pose proof (pk_tables _ _ H) as Ht. rewrite (hands_loop _ _ Hat) in Ht. cbn in Ht.
  destruct (tk_bind _ (pk_trace _ _ H) l run occ rest Hat) as [Hocc Hsub].
  destruct (pk_pc _ _ H id _ Hpc) as (P1 & _ & _). destruct (P1 ltac:(done)) as (l0 & [= <-] & Hran).
  pose proof (bind_ok run rest occ (pd_now p) (pd_tables p) Ht Hocc) as Ht'. rewrite Eb in Ht'. cbn in Ht'.
  set (p' := put_loop id (LRuns l rest) (pd_log [] stray (pd_set_tables t p))).
  assert (Hat' : loop_at p' = Some (LRuns l rest)) by (by apply loop_at_put).
  assert (Htr : trace_ok p').
  { unfold bindOccurrence in Eb. destruct (current run (pd_tables p)) as [r|] eqn:Hc; injection Eb as <- <-.
    - eapply (resolve_trace calm p p' run rest r (set_running true occ r) (LRuns l rest)); try done; [by rewrite (hands_loop _ _ Hat)|].
      intros _ _. apply current_Some in Hc as [Hk _]. destruct Ht as [_ Hreg].
      destruct (to_hands _ _ _ _ Hreg run r ltac:(left) Hk) as (_ & _ & ->). exact Hsub.
    - apply (trace_move p p' (LRuns l rest)); try done; [apply H|by left|]. rewrite (hands_loop _ _ Hat). cbn. intros x Hx. by right. }
  destruct (periodic_move_ok calm p p' id (LBind l run occ rest) (LRuns l rest)) as [H1 _]; try done.
  - split_and!; [intros _; by exists l|by intros pr ?%elem_of_nil|done].
  - by apply ctx_kept with (id := id) (pc := LBind l run occ rest).
  - split; [done|]. intros Hc. eapply (armed_move p p' (LBind l run occ rest)); try done; [by apply Ha| |by left|by left].
    cbn. unfold bindOccurrence in Eb. destruct (current run (pd_tables p)); by injection Eb as <- <-.
Qed.

Lemma finish_step_ok l run rest p' : lf_loops (pd_life p) !! id = Some (LFinish l run rest) ->
  loop_step id AnsNone p = Some p' -> periodic_ok calm p'.
Proof.
  intros Hpc E. destruct (step_at _ Hpc ltac:(done)) as [Hd Hat]. destruct Hok as [H Ha]. unfold loop_step in E. rewrite Hpc in E. injection E as <-.
  pose proof (pk_tables _ _ H) as Ht. rewrite (hands_loop _ _ Hat) in Ht. cbn in Ht.
  destruct (pk_pc _ _ H id _ Hpc) as (P1 & _ & _). destruct (P1 ltac:(done)) as (l0 & [= <-] & Hran).
  set (p' := put_loop _ _ _). assert (Hat' : loop_at p' = Some (LRuns l rest)) by (by apply loop_at_put).
  assert (Htr : trace_ok p').
  { destruct (current run (pd_tables p)) as [r|] eqn:Hc.
    - apply current_Some in Hc as Hc'. destruct Hc' as [Hk _]. destruct Ht as [_ Hreg].
      destruct (to_hands _ _ _ _ Hreg run r ltac:(left) Hk) as (_ & Ho & Hslot). destruct (to_slot _ _ _ _ Hreg _ _ r Hk) as (Hpos & _).
      set (r' := set_slot_times (if is_zero (rg_ScheduledFor r) then dr_scheduledFor run else rg_ScheduledFor r) (pd_now p + backoff) (set_running false "" r)).
      eapply (resolve_trace calm p p' run rest r r' (LRuns l rest)); try done; [by rewrite (hands_loop _ _ Hat)| |].
      + cbn. unfold finishSubmission. rewrite Hc, Ho. reflexivity.
      + cbn. unfold is_zero. destruct (Z.eqb_spec (rg_ScheduledFor r) 0); [lia|done].
    - apply (trace_move p p' (LRuns l rest)); try done; [apply H| |by left|].
      + cbn. unfold finishSubmission. by rewrite Hc.
      + rewrite (hands_loop _ _ Hat). cbn. intros x Hx. by right. }
  destruct (periodic_move_ok calm p p' id (LFinish l run rest) (LRuns l rest)) as [H1 _]; try done.
  - by apply finish_tick_ok.
  - split_and!; [intros _; by exists l|by intros pr ?%elem_of_nil|done].
  - by apply ctx_kept with (id := id) (pc := LFinish l run rest).
  - split; [done|]. intros _. apply armed_notified. cbn. lia.
Qed.

Lemma inflight_ok keys t pr : pr ∈ inflight keys t -> exists g r, reg_at (pr_key pr) t = Some (g, r) /\ rg_Running r = true /\
  rg_OccurrenceID r = pr_occurrenceID pr /\ pr_occurrenceID pr <> ""%string /\ pr_interval pr = rg_Interval r.
Proof.
  unfold inflight. intros (l & Hin & Hl)%list_elem_of_In%in_concat.
  apply in_map_iff in Hin as (k & <- & _). apply list_elem_of_In in Hl.
  destruct (reg_at k t) as [[g r]|] eqn:Hk; [|by apply elem_of_nil in Hl]. apply list_elem_of_fmap in Hl as (occ & -> & Hocc).
  unfold live_occurrence in Hocc. destruct (rg_Running r) eqn:Hr; [|by apply elem_of_nil in Hocc].
  destruct (String.eqb_spec (rg_OccurrenceID r) "") as [|Ho]; cbn in Hocc; [by apply elem_of_nil in Hocc|].
  apply list_elem_of_singleton in Hocc as ->. exists g, r. by split_and!.
Qed.

Lemma scan_step_ok l keys p' : lf_loops (pd_life p) !! id = Some (LRuns l []) ->
  loop_step id (AnsKeys keys) p = Some p' -> periodic_ok calm p'.
Proof.
  intros Hpc E. unfold loop_step in E. rewrite Hpc in E. destruct (negb (traversal keys (pd_tables p))); [done|]. injection E as <-.
  destruct (step_at _ Hpc ltac:(done)) as [Hd Hat].
  eapply (plain_ok _ (LRuns l []) (LSettle l _)); try done.
  - split_and!; [done| |done]. cbn. intros pr Hpr. destruct (lp_jobs l); [|by apply elem_of_nil in Hpr].
    destruct (inflight_ok _ _ _ Hpr) as (g & r & Hk & _ & _ & Hocc & ->). split; [done|]. destruct Hok as [H _].
    by destruct (to_slot _ _ _ _ (proj2 (pk_tables _ _ H)) _ g r Hk) as (_ & ? & _).
  - intros Ha. eapply (armed_move p _ (LRuns l []) (LSettle l _)); try done; [by apply loop_at_put|by left].
Qed.

Lemma settle_step_ok l ps ans p' : lf_loops (pd_life p) !! id = Some (LSettle l ps) ->
  loop_step id ans p = Some p' -> periodic_ok calm p'.
Proof.
  intros Hpc E. unfold loop_step in E. rewrite Hpc in E. destruct (step_at _ Hpc ltac:(done)) as [Hd Hat]. destruct Hok as [H Ha].
  destruct (pk_pc _ _ H id _ Hpc) as (_ & P2 & _). cbn in P2. destruct ps as [|pr ps].
  - destruct ans; try done. injection E as <-. destruct (lp_ran l) eqn:Hran.
    + eapply (plain_ok _ (LSettle l []) LHead); try done; try by apply pc_ok_plain.
      intros Ha'. eapply (armed_move p _ (LSettle l []) LHead); try done; [by apply loop_at_put|by right].
    + eapply (plain_ok _ (LSettle l []) (LIdle l)); try done.
      intros Ha'. eapply (armed_move p _ (LSettle l []) (LIdle l)); try done; [by apply loop_at_put|by left].
  - assert (Hmove : forall pc', hands_of pc' = [] -> lap_of pc' = Some l -> pc_ok (pd_tables p) pc' -> pc' <> LExit ->
      (forall c, ctx_of pc' = Some c -> c = lp_ctx l) -> (covers (pd_tables p) (LSettle l (pr :: ps)) -> covers (pd_tables p) pc') ->
      periodic_ok calm (put_loop id pc' p)).
    { intros pc' Hh Hl Hp Hne Hctx Hcov. eapply (plain_ok _ (LSettle l (pr :: ps)) pc'); try done.
      - intros c Hc. cbn. f_equal. symmetry. by apply Hctx.
      - intros Ha'. eapply (armed_move p _ (LSettle l (pr :: ps)) pc'); try done; [by apply loop_at_put|by left]. }
    assert (Hpend : forall x, x ∈ ps -> pr_occurrenceID x <> ""%string /\ 0 < pr_interval x) by (intros x Hx; apply P2; by right).
    assert (Hsettled : forall finished failed, 0 <= finished -> (forall g r, reg_at (pr_key pr) (pd_tables p) = Some (g, r) ->
        rg_Running r = true -> rg_OccurrenceID r = pr_occurrenceID pr -> rg_ScheduledFor r <= finished) ->
      periodic_ok calm (put_loop id (LSettled l pr finished failed ps) p)).
    { intros finished failed Hf Hslot. apply Hmove; try done; try (by split_and!); by intros c [= <-]. }
    destruct ans as [| | |[| |fin e]|]; try done.
    + injection E as <-. apply Hmove; try done; try (by split_and!); by intros c [= <-].
    + injection E as <-. apply Hsettled; [apply H|]. intros g r Hk Hr _. destruct (to_slot _ _ _ _ (proj2 (pk_tables _ _ H)) _ g r Hk) as (_ & _ & Hs). by apply Hs.
    + destruct (plausible_end _ _ _) eqn:Hpl; [|done]. injection E as <-. unfold plausible_end in Hpl. apply andb_true_iff in Hpl as [Hp1 Hp2].
      bool_to_prop. apply Hsettled; [done|]. intros g r Hk _ _. rewrite Hk in Hp1. by bool_to_prop.
Qed.

Lemma settled_step_ok l pr finished failed ps p' : lf_loops (pd_life p) !! id = Some (LSettled l pr finished failed ps) ->
  loop_step id AnsNone p = Some p' -> periodic_ok calm p'.
Proof.
  intros Hpc E. destruct (step_at _ Hpc ltac:(done)) as [Hd Hat]. destruct Hok as [H Ha]. unfold loop_step in E. rewrite Hpc in E. injection E as <-.
  destruct (pk_pc _ _ H id _ Hpc) as (_ & P2 & P3). destruct P3 as [Hf Hslot]. destruct (P2 pr ltac:(left)) as [Hocc Hint].
  pose proof (pk_tables _ _ H) as Ht. rewrite (hands_loop _ _ Hat) in Ht. cbn in Ht.
  set (p' := put_loop _ _ _). assert (Hat' : loop_at p' = Some (LSettle l ps)) by (by apply loop_at_put).
  pose proof (settle_tick_ok [] pr finished failed (pd_now p) (pd_tables p) Ht Hocc Hf Hint) as Ht'.
  assert (Htr : trace_ok p').
  { pose proof (pk_trace _ _ H) as HT. destruct HT as [T1 T2 T3 T4 T5] eqn:E0. clear E0. unfold p', settle_tick, settled_tick.
    destruct (reg_at (pr_key pr) (pd_tables p)) as [[g r]|] eqn:Hk.
    2: { apply (trace_move p _ (LSettle l ps)); try done; [by left|by intros run ?%elem_of_nil]. }
    destruct (rg_Running r && String.eqb (rg_OccurrenceID r) (pr_occurrenceID pr)) eqn:Hc.
    2: { apply (trace_move p _ (LSettle l ps)); try done; [by left|by intros run ?%elem_of_nil]. }
    apply andb_true_iff in Hc as [Hr Ho%String.eqb_eq]. destruct (T1 _ g r Hk) as [[S1 S2] S3]. destruct Ht as [_ Hreg].
    assert (Hnext : rg_ScheduledFor r < finished + pr_interval pr) by (specialize (Hslot g r eq_refl Hr Ho); lia).
    split.
    - intros k g1 r1. cbn. rewrite (reg_at_put _ _ _ _ _ _ _ _ _ Hreg Hk). case_decide as Hkk.
      + intros [= <- <-]. cbn. split; [|done]. split.
        * intros s [[= ->]|Hs]%elem_of_cons; [lia|]. specialize (S1 s Hs). lia.
        * intros s [|Hs]%elem_of_cons; [done|]. right. destruct (S2 s Hs) as [->|[Hx Hlt]]; (split; [|lia]); [left|by right].
      + intros Hk1. destruct (T1 k g1 r1 Hk1) as [S4 S5]. split; [|intros; right; by apply S5].
        apply slot_open_other; [|done]. cbn. intros ->. by destruct (reg_at_inj _ _ _ _ _ _ _ _ _ Hreg Hk1 Hk).
    - intros run. erewrite hands_loop by (apply loop_at_put; exact Hd). by intros ?%elem_of_nil.
    - intros l' run occ rest. erewrite loop_at_put by exact Hd. done.
    - cbn. intros x [->|Hx]%elem_of_cons; [|by apply T4]. cbn. by destruct (reg_at_key _ _ _ _ _ _ _ Hreg Hk).
    - cbn. split_and!; [by apply S3; [|rewrite Ho]| |done]. intros Hs%S1. lia. }
  destruct (periodic_move_ok calm p p' id (LSettled l pr finished failed ps) (LSettle l ps)) as [H1 _]; try done.
  - split_and!; [done| |done]. intros x Hx. apply P2. cbn. by right.
  - by apply ctx_kept with (id := id) (pc := LSettled l pr finished failed ps).
  - split; [done|]. intros _. apply armed_notified. cbn. lia.
Qed.

Lemma idle_step_ok l p' : lf_loops (pd_life p) !! id = Some (LIdle l) -> loop_step id AnsNone p = Some p' -> periodic_ok calm p'.
Proof.
  intros Hpc E. destruct (step_at _ Hpc ltac:(done)) as [Hd Hat]. unfold loop_step in E. rewrite Hpc in E. injection E as <-.
  set (u := wait_until _ _ _). eapply (plain_ok _ (LIdle l) (LWait (lp_ctx l) u)); try done; try by apply pc_ok_plain.
  intros Ha. destruct (Hok) as [H _]. destruct (pk_pc _ _ H id _ Hpc) as (_ & _ & Hran).
  eapply (armed_move p _ (LIdle l) (LWait (lp_ctx l) u)); try done; [by apply loop_at_put|by left|].
  cbn. rewrite Hran. intros [|Hs]; [done|]. intros k g r Hk Hr. destruct (Hs k g r Hk Hr) as (e & He & Hle). unfold u, wait_until. rewrite He.
  destruct (_ && _) eqn:Hw; [|by exists e]. apply andb_true_iff in Hw as [Hw _]. bool_to_prop. eexists. split; [done|]. lia.
Qed.

Lemma dead_ctx c pc : lf_loops (pd_life p) !! id = Some pc -> lf_done (pd_life p) = Some id -> ctx_of pc = Some c ->
  c ∈ lf_cancelled (pd_life p) -> calm = true -> lf_running (pd_life p) = true -> ctx_live (pd_life p) = false.
Proof.
  intros Hpc Hd Hx Hc Hcalm Hr. destruct Hok as [H _]. destruct (pk_life _ _ H) as (_ & _ & _ & _ & L5).
  destruct (L5 Hcalm Hr id pc Hd Hpc) as [K _]. unfold ctx_live. rewrite (K c Hx). by rewrite bool_decide_true.
Qed.

Lemma wait_step_ok c until s p' : lf_loops (pd_life p) !! id = Some (LWait c until) ->
  loop_step id (AnsSel s) p = Some p' -> periodic_ok calm p'.
Proof.
  intros Hpc E. destruct (step_at _ Hpc ltac:(done)) as [Hd Hat]. unfold loop_step in E. rewrite Hpc in E. destruct s.
  - case_bool_decide as Hc; [|done]. injection E as <-. destruct Hok as [H Ha].
    assert (Hdead : calm = true -> lf_running (pd_life p) = true -> ctx_live (pd_life p) = false) by (by eapply dead_ctx).
    destruct (periodic_move_ok calm p (put_loop id LExit p) id (LWait c until) LExit) as [H1 _]; try done.
    + pose proof (pk_tables _ _ H) as Ht. by rewrite (hands_loop _ _ Hat) in Ht.
    + by apply pc_ok_plain.
    + apply (trace_move p _ LExit); try done; [apply H|left; by apply loop_at_put|by intros run ?%elem_of_nil].
    + intros Hcalm Hr. split; [done|]. intros _. by apply Hdead.
    + split; [done|]. intros Hcalm Hr Hx. assert (ctx_live (pd_life p) = true) as Hl by exact Hx. by rewrite Hdead in Hl.
  - destruct (ca_wake (pd_calls p)) eqn:Hw; [|done]. injection E as <-.
    eapply (plain_ok _ (LWait c until) LHead); try done; [by apply pc_ok_plain|].
    intros Ha. eapply (armed_move p _ (LWait c until) LHead); try done; [by apply loop_at_put|by right].
  - destruct until as [u|]; [|done]. destruct (u <=? pd_now p); [|done]. injection E as <-.
    eapply (plain_ok _ (LWait c (Some u)) LHead); try done; [by apply pc_ok_plain|].
    intros Ha. eapply (armed_move p _ (LWait c (Some u)) LHead); try done; [by apply loop_at_put|by right].
Qed.

Lemma exit_step_ok p' : lf_loops (pd_life p) !! id = Some LExit -> loop_step id AnsNone p = Some p' -> periodic_ok calm p'.
Proof.
  intros Hpc E. unfold loop_step in E. rewrite Hpc in E. unfold retire_loop in E. destruct Hok as [H Ha]. case_bool_decide as Hd.
  - injection E as <-. assert (Hat : loop_at p = Some LExit) by (unfold loop_at; rewrite Hd; exact Hpc). split.
    + eapply (retired_ok calm p _ id); try done; [by rewrite (hands_loop _ _ Hat)|by right].
    + intros Hcalm Hr Hx. destruct (pk_life _ _ H) as (_ & _ & _ & _ & L5). destruct (L5 Hcalm Hr id LExit Hd Hpc) as [_ Hl].
      assert (ctx_live (pd_life p) = true) as Hx' by exact Hx. by rewrite Hl in Hx'.
  - injection E as <-. set (p' := pd_set_life _ p).
    assert (Hat : loop_at p' = loop_at p).
    { unfold loop_at. cbn. destruct (lf_done (pd_life p)) as [i|]; [|done]. cbn. apply lookup_delete_ne. congruence. }
    destruct H as [O1 O2 (L1 & L2 & L3 & L4 & L5) O4 O5 O6]. split.
    + split; try done.
      * unfold hands. by rewrite Hat.
      * split_and!; cbn; [done| | | |].
        -- intros i Hi. rewrite lookup_delete_ne by congruence. by apply L2.
        -- intros i pc Hi. apply lookup_delete_Some in Hi as [_ Hi]. by apply L3.
        -- intros i [pc Hi]. apply lookup_delete_Some in Hi as [_ Hi]. apply L4. by exists pc.
        -- intros Hc Hr i pc Hi Hpc'. apply lookup_delete_Some in Hpc' as [_ Hpc']. by apply (L5 Hc Hr i pc).
      * cbn. intros i pc Hi. apply lookup_delete_Some in Hi as [_ Hi]. by apply (O4 i).
      * by apply (trace_same p).
    + intros Hcalm. specialize (Ha Hcalm). unfold armed in *. rewrite Hat. exact Ha.
Qed.

Lemma loop_step_ok ans p' : loop_step id ans p = Some p' -> periodic_ok calm p'.
Proof.
  intros E. destruct (lf_loops (pd_life p) !! id) as [pc|] eqn:Hpc; [|unfold loop_step in E; by rewrite Hpc in E].
  destruct pc as [|l [|run rest]|l run occ rest|l run rest|l ps|l pr f fl ps|l|c u|].
  - destruct ans; try (unfold loop_step in E; rewrite Hpc in E; done). eapply head_ok; [exact Hok|exact Hpc|].
    unfold loop_step in E. by rewrite Hpc in E.
  - destruct ans; try (unfold loop_step in E; rewrite Hpc in E; done). by eapply scan_step_ok.
  - destruct ans; try (unfold loop_step in E; rewrite Hpc in E; done). by eapply run_step_ok.
  - destruct ans; try (unfold loop_step in E; rewrite Hpc in E; done). by eapply bind_step_ok.
  - destruct ans; try (unfold loop_step in E; rewrite Hpc in E; done). by eapply finish_step_ok.
  - by eapply settle_step_ok.
  - destruct ans; try (unfold loop_step in E; rewrite Hpc in E; done). by eapply settled_step_ok.
  - destruct ans; try (unfold loop_step in E; rewrite Hpc in E; done). by eapply idle_step_ok.
  - destruct ans; try (unfold loop_step in E; rewrite Hpc in E; done). by eapply wait_step_ok.
  - destruct ans; try (unfold loop_step in E; rewrite Hpc in E; done). by eapply exit_step_ok.
Qed.

End Step.

(** ** Every step *)

Lemma Register_args_interval owner name interval maxAttempts retryDelay task a :
  Register_args owner name interval maxAttempts retryDelay task = inr a -> 0 < ra_interval a.
Proof.
  unfold Register_args. destruct (String.eqb (trim_space name) ""); [done|]. destruct (Z.leb_spec interval 0); [done|].
  destruct task; [|done]. destruct (maxAttempts <? 0); [done|]. destruct (retryDelay <? 0); [done|]. by intros [= <-].
Qed.

(** [UnregisterByOwner] either takes something out or leaves everything as it was. *)
Lemma by_owner_count owner keys : forall acc, 0 <= acc.1.2 ->
  let acc' := foldl (by_owner_round owner) acc keys in acc.1.2 <= acc'.1.2 /\ (acc'.1.2 = acc.1.2 -> acc'.2 = acc.2 /\ acc'.1.1 = acc.1.1).
Proof.
  induction keys as [|k keys IH]; intros acc H; cbn [foldl]; [done|].
  assert (Hstep : (by_owner_round owner acc k = acc) \/ acc.1.2 < (by_owner_round owner acc k).1.2).
  { destruct acc as [[pending count] t]. cbn. destruct (reg_at k t) as [[g r]|]; [|by left]. destruct (of_owner owner r); [right; cbn; lia|by left]. }
  destruct Hstep as [->|Hlt]; [by apply IH|]. destruct (IH (by_owner_round owner acc k) ltac:(lia)) as [H1 _]. cbn zeta. split; lia.
Qed.

Lemma unregister_at_ok calm p k : periodic_ok calm p -> periodic_ok calm (unregister_at k p).2.
Proof.
  intros Hok. unfold unregister_at, Unregister. destruct k as [k|]; [|done]. destruct (reg_at k (pd_tables p)) as [[g r]|]; [|done].
  destruct Hok as [H _]. apply caller_ok; [done| |].
  - by apply remove_entry_ok, H.
  - eapply remove_entry_kept, H.
Qed.

Lemma unregister_owner_ok calm p owner keys : periodic_ok calm p -> periodic_ok calm (unregister_owner owner keys p).2.
Proof.
  intros Hok. unfold unregister_owner, UnregisterByOwner. destruct (blank owner); [done|]. destruct Hok as [H Ha].
  pose proof (UnregisterByOwner_ok (hands p) (pd_now p) (trim_space owner) keys ([], 0, pd_tables p) (pk_tables _ _ H)) as H1.
  pose proof (by_owner_kept (hands p) (pd_now p) (trim_space owner) keys ([], 0, pd_tables p) (pk_tables _ _ H)) as H2.
  pose proof (by_owner_count (trim_space owner) keys ([], 0, pd_tables p) ltac:(cbn; lia)) as H3.
  destruct (foldl _ _ keys) as [[pending count] t]. cbn in *. destruct H3 as [H3 H4]. destruct (Z.ltb_spec 0 count).
  - by apply caller_ok.
  - destruct (H4 ltac:(lia)) as [-> ->]. split.
    + destruct H as [O1 O2 O3 O4 O5 O6]. split; try done. by apply (trace_same p).
    + intros Hc. exact (Ha Hc).
Qed.

Lemma register_install_ok calm p i p' : periodic_ok calm p -> Register_install i p = Some p' -> periodic_ok calm p'.
Proof.
  intros [H _] E. unfold Register_install in E. destruct (ca_registering (pd_calls p) !! i) as [a|] eqn:Ea; [|done].
  assert (Hi : 0 < ra_interval a) by (eapply pk_args; [exact H|by eapply list_elem_of_lookup_2]).
  pose proof (register_section_ok (hands p) (pd_now p) a (pd_tables p) (pk_tables _ _ H) (pk_now _ _ H) Hi) as [H1 _].
  pose proof (register_kept (hands p) (pd_now p) a (pd_tables p) (pk_tables _ _ H) (pk_now _ _ H) Hi) as H2.
  destruct (register_section a (pd_now p) (pd_tables p)) as [cancels t]. injection E as <-. cbn in H1, H2.
  destruct (caller_ok calm p t cancels H H1 H2) as [H3 _]. split; [|intros _; apply armed_notified; cbn; lia].
  eapply calls_ok in H3; [exact H3|]. cbn. intros x Hx. eapply (pk_args _ _ H). by eapply list_elem_of_delete_inv.
Qed.

(** Changes the tables, the trace and the lifecycle do not notice. *)
Lemma calls_armed calm p c : periodic_ok calm p -> (forall a, a ∈ ca_registering c -> a ∈ ca_registering (pd_calls p)) ->
  (ca_notifies (pd_calls p) <= ca_notifies c)%nat -> (ca_wake (pd_calls p) = true -> ca_wake c = true) ->
  (ca_sends (pd_calls p) <= ca_sends c)%nat \/ ca_wake c = true -> periodic_ok calm (pd_set_calls c p).
Proof.
  intros [H Ha] Hr Hn Hw Hs. split; [apply calls_ok; [done|]; intros a Hin; by eapply pk_args, Hr|].
  intros Hc H1 H2 H3. destruct (Ha Hc H1 H2 H3) as [Hn'|(pc & Hpc & Hne & Hcov)]; [left; cbn; lia|].
  right. exists pc. split_and!; [done|done|]. cbn. destruct Hcov as [Hx|[Hx|Hx]]; [left; by apply Hw| |by right; right].
  destruct Hs as [Hs|Hs]; [right; left; lia|by left].
Qed.

Lemma time_ok calm p now' jobs : periodic_ok calm p -> pd_now p <= now' ->
  periodic_ok calm (mkPeriodic (pd_tables p) (pd_life p) (pd_calls p) jobs now' (pd_trace p) (pd_closed p)).
Proof.
  intros [[O1 O2 O3 O4 O5 O6] Ha] Hle. split; [|exact Ha]. split; try done; cbn.
  - lia.
  - destruct O2 as [Oh Or]. split; [done|]. eapply regs_later; [exact Hle|exact Or].
  - by apply (trace_same p).
Qed.

Lemma periodic_step_ok calm ev p p' : periodic_ok calm p -> periodic_step calm ev p = Some p' -> periodic_ok calm p'.
Proof.
  intros Hok E. destruct ev as [d| | |i| |b|o n iv ma rd task|i|i|n other|o n|o keys| | |id ans]; cbn [periodic_step] in E.
  - injection E as <-. by apply time_ok; [|lia].
  - destruct (calm && lf_loopRunning (pd_life p)) eqn:Hc; [done|]. injection E as <-. apply periodic_Start_ok; [done|].
    intros ->. by destruct (lf_loopRunning (pd_life p)).
  - injection E as <-. by apply periodic_Stop_ok.
  - destruct (_ !! i); [|done]. injection E as <-. apply cancel_ok, calls_armed; try done. by left.
  - destruct (lf_ctx (pd_life p)); [|done]. injection E as <-. by apply cancel_ok.
  - injection E as <-. pose proof (time_ok calm p (pd_now p) b Hok ltac:(lia)) as H. apply calls_armed; try done; cbn; [lia|by left].
  - injection E as <-. unfold Register. destruct (Register_args _ _ _ _ _ _) as [e|a] eqn:Ea; [done|].
    destruct (_ || _); [done|]. destruct (negb _); [done|]. cbn. destruct Hok as [H Ha]. split; [|exact Ha].
    apply calls_ok; [done|]. cbn. intros x [->|Hx]%elem_of_cons; [by eapply Register_args_interval|by eapply pk_args].
  - by eapply register_install_ok.
  - injection E as <-. apply calls_armed; try done; [|by left]. intros a. apply list_elem_of_delete_inv.
  - destruct (blank n); injection E as <-; [done|by apply unregister_at_ok].
  - injection E as <-. exact (unregister_at_ok calm p (Some _) Hok).
  - destruct (traversal keys _); [|done]. injection E as <-. by apply unregister_owner_ok.
  - destruct (ca_notifies (pd_calls p)) as [|k] eqn:Hn; [done|]. injection E as <-. apply notify_section_ok, calls_ok; [apply Hok|]. apply Hok.
  - destruct (ca_sends (pd_calls p)) as [|k] eqn:Hn; [done|]. injection E as <-.
    eapply (calls_armed calm p (mkCalls true _ (ca_notifies (pd_calls p)) k _)) in Hok; [exact Hok|done|done|done|by right].
  - by eapply loop_step_ok.
Qed.

Lemma periodic_reachable_ok calm p : periodic_reachable calm p -> periodic_ok calm p.
Proof.
  induction 1 as [jobs now Hn|ev p p' _ IH E]; [|by eapply periodic_step_ok].
  split; [|by intros _ Hr]. split; try done.
  - apply no_tables_ok.
  - split_and!; cbn; try done. intros id. rewrite lookup_empty. by intros [? ?].
  - cbn. intros a Ha. by apply elem_of_nil in Ha.
  - split; try done.
    + cbn. intros run Hr. by apply elem_of_nil in Hr.
    + cbn. intros x Hx. by apply elem_of_nil in Hx.
Qed.

Lemma periodic_run_reachable calm evs : forall p p', periodic_reachable calm p -> periodic_run calm evs p = Some p' -> periodic_reachable calm p'.
Proof.
  induction evs as [|ev evs IH]; intros p p' H E; cbn in E; [by injection E as <-|].
  destruct (periodic_step calm ev p) as [p1|] eqn:E1; [|done]. eapply IH; [by eapply periodic_next|exact E].
Qed.

(** ** What the coordinator promises *)


(** A registration is at most in one place: while it waits it has no
    occurrence and the loop has no run of it; while it runs it has no timer and is not in
    the heap, and either the loop has exactly one run of it in its hands, for its slot, or it is
    bound to the occurrence of a slot that was submitted and has not settled. *)
Theorem one_in_flight p k g r : periodic_reachable false p -> reg_at k (pd_tables p) = Some (g, r) ->
  (rg_Running r = false -> rg_OccurrenceID r = ""%string /\ forall run, run ∈ hands p -> dr_generation run <> g) /\
  (rg_Running r = true -> rg_heapEntry r = None /\ (forall e, e ∈ heap_of (pd_tables p) -> te_Data e <> g) /\
    (rg_OccurrenceID r = ""%string -> exists run, run ∈ hands p /\ dr_generation run = g /\ dr_scheduledFor run = rg_ScheduledFor r /\
      forall run', run' ∈ hands p -> dr_generation run' = g -> run' = run) /\
    (rg_OccurrenceID r <> ""%string -> (forall run, run ∈ hands p -> dr_generation run <> g) /\
      Submitted g (rg_ScheduledFor r) ∈ pd_trace p /\ Settled g (rg_ScheduledFor r) ∉ pd_trace p)).
Proof.
  intros Hp Hk. destruct (periodic_reachable_ok _ _ Hp) as [H _]. destruct (pk_tables _ _ H) as [_ Hreg].
  assert (Hhand : forall run, run ∈ hands p -> dr_generation run = g -> rg_Running r = true /\ rg_OccurrenceID r = ""%string /\
    rg_ScheduledFor r = dr_scheduledFor run).
  { intros run Hrun <-. by destruct (hand_key _ _ _ _ run k r Hreg Hrun Hk) as (_ & ?). }
  split.
  - intros Hr. split; [by eapply to_idle|]. intros run Hrun Hg. destruct (Hhand run Hrun Hg) as [? _]. congruence.
  - intros Hr. pose proof (running_no_timer _ _ _ _ _ _ _ Hreg Hk Hr) as Hnone. destruct (tk_reg _ (pk_trace _ _ H) k g r Hk) as [[S1 _] S2].
    split_and!; [done| | |].
    + intros e He Hg. destruct (to_timer _ _ _ _ Hreg e He) as (_ & _ & k' & r' & e' & Hk' & He' & _). rewrite Hg in Hk'.
      destruct (reg_at_inj _ _ _ _ _ _ _ _ _ Hreg Hk Hk') as [_ <-]. congruence.
    + intros Ho. destruct (to_inflight _ _ _ _ Hreg k g r Hk Hr Ho) as (run & Hrun & Hg & _). destruct (Hhand run Hrun Hg) as (_ & _ & Hs).
      exists run. split_and!; [done|done|done|]. intros run' Hrun' Hg'. eapply (nodup_map_inj dr_generation); [apply (to_nodup _ _ _ _ Hreg)|done|done|congruence].
    + intros Ho. split_and!; [|by apply S2|].
      * intros run Hrun Hg. by destruct (Hhand run Hrun Hg) as (_ & ? & _).
      * intros Hs%S1. lia.
Qed.

(** C34. No tick is slept through: whenever the coordinator runs with a live context and
    something registered, a [notify] is on its way, or there is a loop that has a wake-up
    in store, will look at the registrations before it sleeps, or sleeps no longer than
    until the next run of every idle one. It holds as long as no [Start] overlaps with the
    end of a loop of an earlier [Start]. *)
Theorem no_tick_sleeps p : periodic_reachable true p -> armed p.
Proof. intros H. by apply (periodic_reachable_ok _ _ H). Qed.

(** ** A sample run *)

Definition sample_periodic : periodic := newPeriodicCoordinator true 100.

(** One registration ("k", every 50), installed at 100. *)
Definition sample_registering : list periodic_event :=
  [PvStart; PvRegister "" "k" 50 0 0 (Some 7%nat); PvInstall 0; PvNotify; PvSend].
Definition sample_sleeping : list periodic_event :=
  sample_registering ++
  [PvLoop 0 (AnsKeys ["k"]); PvLoop 0 (AnsKeys ["k"]); PvLoop 0 AnsNone; PvLoop 0 AnsNone; PvLoop 0 (AnsSel SelWake)].
Definition sample_ticked : list periodic_event :=
  sample_registering ++
  [PvTime 60; PvLoop 0 (AnsKeys ["k"]); PvLoop 0 (AnsSubmit (SubmitOk "o1")); PvLoop 0 AnsNone; PvLoop 0 (AnsKeys ["k"]);
   PvLoop 0 (AnsOccurrence OccCompleted); PvLoop 0 AnsNone].
Definition sample_bound : list periodic_event :=
  sample_registering ++ [PvTime 60; PvLoop 0 (AnsKeys ["k"]); PvLoop 0 (AnsSubmit (SubmitFound "o1")); PvLoop 0 AnsNone].

Definition sample_after (calm : bool) (evs : list periodic_event) : periodic := default sample_periodic (periodic_run calm evs sample_periodic).

Lemma after_reachable calm evs : (if periodic_run calm evs sample_periodic then true else false) = true -> periodic_reachable calm (sample_after calm evs).
Proof.
  intros Hsome. unfold sample_after. destruct (periodic_run calm evs sample_periodic) as [p|] eqn:Hp; [cbn|done]. eapply periodic_run_reachable; [|exact Hp]. by apply periodic_init.
Qed.


Definition sample_bound_reg : periodicRegistration := mkReg "runtime" "k" 50 7 150 150 true "o1" 0 0 0 "" None.
Lemma one_in_flight_witness : reg_at "k" (pd_tables (sample_after false sample_bound)) = Some (1%nat, sample_bound_reg) /\
  Submitted 1 150 ∈ pd_trace (sample_after false sample_bound) /\ Settled 1 150 ∉ pd_trace (sample_after false sample_bound).
Proof.
  assert (E : reg_at "k" (pd_tables (sample_after false sample_bound)) = Some (1%nat, sample_bound_reg)) by (vm_compute; reflexivity).
  assert (Hr : periodic_reachable false (sample_after false sample_bound)) by (apply after_reachable; vm_compute; reflexivity).
  set (p := sample_after false sample_bound) in *. clearbody p.
  destruct (one_in_flight p _ _ _ Hr E) as [_ H]. destruct (H eq_refl) as (_ & _ & _ & Hb). destruct Hb as (_ & H1 & H2); [discriminate|].
  split; [exact E|]. split; [exact H1|exact H2].
Defined.

Lemma no_tick_sleeps_witness : loop_at (sample_after true sample_sleeping) = Some LHead /\ armed (sample_after true sample_sleeping).
Proof.
  split; [vm_compute; reflexivity|]. apply no_tick_sleeps, after_reachable. vm_compute. reflexivity.
Defined.

(** [Start] while the loop of an earlier [Start] winds down, as after a [Stop] that timed
    out, sees [loopRunning] and starts no loop; the [notify] of the next [Register] puts
    its wake-up in the channel, the old loop leaves by its cancelled context all the
    same, and the task has no loop although the coordinator runs. *)
Definition racing_start : list periodic_event :=
  sample_registering ++
  [PvLoop 0 (AnsKeys ["k"]); PvLoop 0 (AnsKeys ["k"]); PvLoop 0 AnsNone; PvLoop 0 AnsNone;
   PvStop; PvCancel 0; PvNotify; PvStart; PvSend;
   PvRegister "" "k" 50 0 0 (Some 7%nat); PvInstall 0; PvNotify; PvSend; PvLoop 0 (AnsSel SelCtx); PvLoop 0 AnsNone].
Lemma racing_start_stalls : let p := sample_after false racing_start in periodic_reachable false p /\
  lf_running (pd_life p) = true /\ ctx_live (pd_life p) = true /\ tb_entries (pd_tables p) !! "k"%string = Some 2%nat /\
  lf_loops (pd_life p) = ∅ /\ ca_notifies (pd_calls p) = 0%nat /\ ca_sends (pd_calls p) = 0%nat.
Proof.
  cbv zeta. split; [apply after_reachable; vm_compute; reflexivity|]. split_and!; vm_compute; reflexivity.
Qed.
