(* ===== verification/ClaimStore.v ===== *)
(** * Where idempotency claims are kept

    Models the two stores behind [internal/idempotency]: the map of the manager
    itself ([manager.go], [claim.go]) and the table of [repository.go]. Both are
    instances of one interface, [ClaimLaws]: what a store answers is a function of
    its claims, at its own resolution of time. A statement of the repository runs
    under [claimMu] and in one implicit transaction, so it is one step; it fails
    when the database does, which is an argument ([io]), and then changes nothing.
    SQLite's [INSERT ... ON CONFLICT(key) DO UPDATE ... WHERE] on a table with
    primary key [key] is an insertion, or an update of the one row that has the key
    when it satisfies the condition; [RowsAffected] counts the rows written. *)

From S2P Require Import Prelude.

Inductive claimStatus := claimStatusAccepted | claimStatusProcessing | claimStatusReserved.
#[global] Instance claimStatus_eq_dec : EqDecision claimStatus.
Proof. solve_decision. Defined.

(** ** The interface *)

(** What a store knows of a key; the expiry is in the store's unit. *)
Record claim := mkClaim { cl_status : claimStatus; cl_token : string; cl_expires : Z }.

Class ClaimOps (S : Type) := {
  cs_empty : S;
  cs_Claim : bool -> string -> time -> time -> S -> option bool * S;
  cs_BeginClaim : bool -> string -> string -> time -> time -> S -> option bool * S;
  cs_AcceptClaim : bool -> string -> string -> time -> S -> option bool * S;
  cs_ReserveClaim : bool -> string -> string -> time -> S -> option bool * S;
  cs_ReleaseClaim : bool -> string -> string -> S -> option bool * S;
  cs_IsProcessed : bool -> string -> time -> S -> option bool;
  cs_DeleteExpired : bool -> time -> S -> S;
  cs_EarliestExpiry : bool -> S -> option (option time);
  (** its claims and the resolution of its clock *)
  cs_claims : S -> gmap string claim;
  cs_tick : time -> Z
}.

(** A key can be claimed when nobody holds it, or its claim has expired. *)
Definition claimable (m : gmap string claim) (key : string) (now : Z) : bool :=
  match m !! key with None => true | Some c => cl_expires c <=? now end.
(** The holder of [token] still processes [key]. *)
Definition processes (m : gmap string claim) (key token : string) : bool :=
  match m !! key with
  | None => false
  | Some c => bool_decide (cl_status c = claimStatusProcessing) && bool_decide (cl_token c = token)
  end.
Definition releasable (m : gmap string claim) (key token : string) : bool :=
  match m !! key with
  | None => false
  | Some c => bool_decide (cl_status c <> claimStatusAccepted) && bool_decide (cl_token c = token)
  end.

(** An operation that answers [b] and, when it does, changes the claims by [f]; or fails. *)
Definition answers {S} `{ClaimOps S} (io b : bool) (f : gmap string claim -> gmap string claim) (s : S)
    (res : option bool * S) : Prop :=
  match res with
  | (None, s') => io = false /\ s' = s
  | (Some b', s') => b' = b /\ cs_claims s' = if b then f (cs_claims s) else cs_claims s
  end.

Definition with_status (st : claimStatus) (token : option string) (expires : Z) (c : claim) : claim :=
  mkClaim st (default (cl_token c) token) expires.

Class ClaimLaws (S : Type) `{ClaimOps S} := {
  cs_tick_mono : forall t u, t <= u -> cs_tick t <= cs_tick u;
  cs_tick_pos : forall t, millisecond <= t -> 0 < cs_tick t;
  cs_empty_claims : cs_claims cs_empty = ∅;
  cs_Claim_spec : forall io key now expires s,
    answers io (claimable (cs_claims s) key (cs_tick now))
      (<[key := mkClaim claimStatusAccepted "" (cs_tick expires)]>) s (cs_Claim io key now expires s);
  cs_BeginClaim_spec : forall io key token now expires s,
    answers io (claimable (cs_claims s) key (cs_tick now))
      (<[key := mkClaim claimStatusProcessing token (cs_tick expires)]>) s (cs_BeginClaim io key token now expires s);
  cs_AcceptClaim_spec : forall io key token expires s,
    answers io (processes (cs_claims s) key token)
      (alter (with_status claimStatusAccepted (Some "") (cs_tick expires)) key) s (cs_AcceptClaim io key token expires s);
  cs_ReserveClaim_spec : forall io key token expires s,
    answers io (processes (cs_claims s) key token)
      (alter (with_status claimStatusReserved None (cs_tick expires)) key) s (cs_ReserveClaim io key token expires s);
  cs_ReleaseClaim_spec : forall io key token s,
    answers io (releasable (cs_claims s) key token) (delete key) s (cs_ReleaseClaim io key token s);
  cs_IsProcessed_spec : forall io key now s,
    match cs_IsProcessed io key now s with
    | None => io = false
    | Some b => b = negb (claimable (cs_claims s) key (cs_tick now))
    end;
  (** what is expired may go, what has expired for a tick goes *)
  cs_DeleteExpired_spec : forall io now s,
    let m := cs_claims s in
    let m' := cs_claims (cs_DeleteExpired io now s) in
    (forall k, m' !! k = m !! k \/ m' !! k = None /\ exists c, m !! k = Some c /\ cl_expires c <= cs_tick now) /\
    (io = true -> forall k c, m' !! k = Some c -> cs_tick now <= cl_expires c);
  cs_EarliestExpiry_spec : forall io s, (forall k c, cs_claims s !! k = Some c -> 0 < cl_expires c) ->
    match cs_EarliestExpiry io s with
    | None => io = false
    | Some None => cs_claims s = ∅
    | Some (Some t) => (exists k c, cs_claims s !! k = Some c /\ cs_tick t = cl_expires c) /\
        forall k c, cs_claims s !! k = Some c -> cs_tick t <= cl_expires c
    end
}.

(** ** The manager's own map *)

Record entry := mkEntry {
  en_key : string; en_token : string; en_status : claimStatus; en_createdAt : time; en_expiresAt : time
}.

Section Memory.
Implicit Types m : gmap string entry.

Definition mem_Claim (key : string) (now expiresAt : time) m : option bool * gmap string entry :=
  match m !! key with
  | Some e =>
      if before now (en_expiresAt e) then (Some false, m)
      else (Some true, <[key := mkEntry key "" claimStatusAccepted now expiresAt]> m)
  | None => (Some true, <[key := mkEntry key "" claimStatusAccepted now expiresAt]> m)
  end.

Definition mem_Begin (key token : string) (now expiresAt : time) m : option bool * gmap string entry :=
  let won := (Some true, <[key := mkEntry key token claimStatusProcessing now expiresAt]> m) in
  match m !! key with
  | Some current => if before now (en_expiresAt current) then (Some false, m) else won
  | None => won
  end.

Definition mem_owned (key token : string) m (f : entry -> gmap string entry) : option bool * gmap string entry :=
  match m !! key with
  | None => (Some false, m)
  | Some current =>
      if bool_decide (en_status current <> claimStatusProcessing) || bool_decide (en_token current <> token)
      then (Some false, m) else (Some true, f current)
  end.

Definition mem_Accept (key token : string) (expiresAt : time) m : option bool * gmap string entry :=
  mem_owned key token m (fun e => <[key := mkEntry (en_key e) "" claimStatusAccepted (en_createdAt e) expiresAt]> m).
Definition mem_Reserve (key token : string) (expiresAt : time) m : option bool * gmap string entry :=
  mem_owned key token m
    (fun e => <[key := mkEntry (en_key e) (en_token e) claimStatusReserved (en_createdAt e) expiresAt]> m).
Definition mem_Release (key token : string) m : option bool * gmap string entry :=
  match m !! key with
  | None => (Some false, m)
  | Some current =>
      if (bool_decide (en_status current <> claimStatusProcessing) && bool_decide (en_status current <> claimStatusReserved))
         || bool_decide (en_token current <> token)
      then (Some false, m) else (Some true, delete key m)
  end.

Definition mem_IsProcessed (key : string) (now : time) m : option bool :=
  match m !! key with Some e => Some (before now (en_expiresAt e)) | None => Some false end.

(** [evictExpired] and [nextExpiry] without a repository; the order in which [range]
    visits the map does not matter to either. *)
Definition mem_evict (now : time) m : gmap string entry := filter (fun ke => after now (en_expiresAt ke.2) = false) m.
Definition mem_next m : option time :=
  let next := foldl (fun next ke => if is_zero next || before (en_expiresAt ke.2) next then en_expiresAt ke.2 else next)
                0 (map_to_list m) in
  if is_zero next then None else Some next.
(** [SizeContext] without a repository. *)
Definition mem_Size (now : time) m : Z := Z.of_nat (size m).
End Memory.

(** ** The table *)

Record row := mkRow { ro_created_at_ms : Z; ro_expires_at_ms : Z; ro_status : claimStatus; ro_claim_token : string }.

(** [t.UnixMilli()]: Go rounds towards minus infinity. *)
Definition UnixMilli (t : time) : Z := t / millisecond.

Section Table.
Implicit Types t : gmap string row.

Definition sql_upsert (key : string) (r : row) t : option bool * gmap string row :=
  match t !! key with
  | None => (Some true, <[key := r]> t)
  | Some old =>
      if ro_expires_at_ms old <=? ro_created_at_ms r then (Some true, <[key := r]> t) else (Some false, t)
  end.
Definition sql_Claim (key : string) (createdAt expiresAt : time) t : option bool * gmap string row :=
  sql_upsert key (mkRow (UnixMilli createdAt) (UnixMilli expiresAt) claimStatusAccepted "") t.
Definition sql_BeginClaim (key token : string) (createdAt expiresAt : time) t : option bool * gmap string row :=
  sql_upsert key (mkRow (UnixMilli createdAt) (UnixMilli expiresAt) claimStatusProcessing token) t.

(** [UPDATE ... WHERE key = ? AND status = 'processing' AND claim_token = ?] *)
Definition sql_update (key token : string) (f : row -> row) t : option bool * gmap string row :=
  match t !! key with
  | Some r =>
      if bool_decide (ro_status r = claimStatusProcessing) && bool_decide (ro_claim_token r = token)
      then (Some true, <[key := f r]> t) else (Some false, t)
  | None => (Some false, t)
  end.
Definition sql_AcceptClaim (key token : string) (expiresAt : time) t : option bool * gmap string row :=
  sql_update key token (fun r => mkRow (ro_created_at_ms r) (UnixMilli expiresAt) claimStatusAccepted "") t.
Definition sql_ReserveClaim (key token : string) (expiresAt : time) t : option bool * gmap string row :=
  sql_update key token
    (fun r => mkRow (ro_created_at_ms r) (UnixMilli expiresAt) claimStatusReserved (ro_claim_token r)) t.
Definition sql_ReleaseClaim (key token : string) t : option bool * gmap string row :=
  match t !! key with
  | Some r =>
      if bool_decide (ro_status r ∈ [claimStatusProcessing; claimStatusReserved]) && bool_decide (ro_claim_token r = token)
      then (Some true, delete key t) else (Some false, t)
  | None => (Some false, t)
  end.

Definition sql_IsProcessed (key : string) (now : time) t : option bool :=
  match t !! key with Some r => Some (UnixMilli now <? ro_expires_at_ms r) | None => Some false end.
Definition sql_DeleteExpired (now : time) t : gmap string row :=
  filter (fun kr => UnixMilli now < ro_expires_at_ms kr.2) t.
(** [SELECT MIN(expires_at_ms)]: NULL on an empty table. *)
Definition sql_EarliestExpiry t : option time :=
  match map_to_list t with
  | [] => None
  | kr :: rest =>
      Some (foldl (fun next kr => Z.min next (ro_expires_at_ms kr.2)) (ro_expires_at_ms kr.2) rest * millisecond)
  end.
Definition sql_Size (now : time) t : Z := Z.of_nat (size (filter (fun kr => UnixMilli now < ro_expires_at_ms kr.2) t)).
End Table.

(** ** The instances *)

#[global] Instance memory_ops : ClaimOps (gmap string entry) := {
  cs_empty := ∅;
  cs_Claim _ := mem_Claim;
  cs_BeginClaim _ := mem_Begin;
  cs_AcceptClaim _ := mem_Accept;
  cs_ReserveClaim _ := mem_Reserve;
  cs_ReleaseClaim _ := mem_Release;
  cs_IsProcessed _ := mem_IsProcessed;
  cs_DeleteExpired _ := mem_evict;
  cs_EarliestExpiry _ m := Some (mem_next m);
  cs_claims m := (fun e => mkClaim (en_status e) (en_token e) (en_expiresAt e)) <$> m;
  cs_tick t := t
}.

(** A statement, or the error of a database that is away. *)
Definition when {A} (io : bool) (t : A) (res : option bool * A) : option bool * A := if io then res else (None, t).

#[global] Instance table_ops : ClaimOps (gmap string row) := {
  cs_empty := ∅;
  cs_Claim io key now exp t := when io t (sql_Claim key now exp t);
  cs_BeginClaim io key token now exp t := when io t (sql_BeginClaim key token now exp t);
  cs_AcceptClaim io key token exp t := when io t (sql_AcceptClaim key token exp t);
  cs_ReserveClaim io key token exp t := when io t (sql_ReserveClaim key token exp t);
  cs_ReleaseClaim io key token t := when io t (sql_ReleaseClaim key token t);
  cs_IsProcessed io key now t := if io then sql_IsProcessed key now t else None;
  cs_DeleteExpired io now t := if io then sql_DeleteExpired now t else t;
  cs_EarliestExpiry io t := if io then Some (sql_EarliestExpiry t) else None;
  cs_claims t := (fun r => mkClaim (ro_status r) (ro_claim_token r) (ro_expires_at_ms r)) <$> t;
  cs_tick := UnixMilli
}.

Lemma alter_fmap_insert {A} (g : A -> claim) (f : claim -> claim) (h : A -> A) (m : gmap string A) k x :
  m !! k = Some x -> g (h x) = f (g x) -> g <$> <[k := h x]> m = alter f k (g <$> m).
Proof.
  intros Hk E. apply map_eq. intros i. rewrite lookup_fmap. destruct (decide (i = k)) as [->|Hi].
  - rewrite lookup_alter_eq, lookup_insert_eq, lookup_fmap, Hk. cbn. by rewrite E.
  - by rewrite lookup_alter_ne, lookup_insert_ne, lookup_fmap by done.
Qed.

(** The two ways a store writes a key: whole, or an owned claim in place. *)
Ltac store_cases :=
  unfold answers, claimable, processes, releasable; cbn [cs_claims memory_ops table_ops]; rewrite lookup_fmap;
  repeat (case_match; cbn in *; simplify_eq); unfold before in *; try done;
  try (split; [|by rewrite ?fmap_insert, ?fmap_delete]); bool_to_prop; repeat case_bool_decide; try done; try lia.

Ltac release_cases :=
  unfold answers, releasable; cbn [cs_claims memory_ops table_ops]; rewrite lookup_fmap;
  repeat match goal with
  | |- context [match ?m !! ?k with _ => _ end] => destruct (m !! k) as [x|]; [|done]; cbn
  | |- context [?m !! ?k] => destruct (m !! k) as [x|]; [|done]; cbn
  | |- context [en_status ?x] => destruct (en_status x) eqn:?
  | |- context [ro_status ?x] => destruct (ro_status x) eqn:?
  end; repeat case_bool_decide; cbn; try done; try set_solver; try (split; [done|by rewrite ?fmap_delete]).

Lemma memory_next_min l next : (forall ke, ke ∈ l -> 0 < en_expiresAt (snd ke)) ->
  let r := foldl (fun next (ke : string * entry) =>
    if is_zero next || before (en_expiresAt ke.2) next then en_expiresAt ke.2 else next) next l in
  0 < next -> 0 < r <= next /\ (r = next \/ exists ke, ke ∈ l /\ r = en_expiresAt ke.2) /\ forall ke, ke ∈ l -> r <= en_expiresAt ke.2.
Proof.
  revert next. induction l as [|ke l IH]; intros next Hl r Hn.
  { subst r. cbn. split; [lia|]. split; [by left|]. intros ke Hke. by apply elem_of_nil in Hke. }
  subst r. cbn [foldl]. set (n := if is_zero next || before (en_expiresAt ke.2) next then en_expiresAt ke.2 else next).
  assert (Hke : 0 < en_expiresAt ke.2) by (apply Hl; left).
  assert (E : n = Z.min next (en_expiresAt ke.2)).
  { subst n. unfold is_zero, before. destruct (Z.eqb_spec next 0), (Z.ltb_spec (en_expiresAt ke.2) next); cbn; lia. }
  destruct (IH n) as (H1 & H2 & H3); [intros ke' Hin; apply Hl; by right|lia|].
  split; [lia|]. split.
  - destruct H2 as [H2|(ke' & Hin & H2)]; [|right; exists ke'; split; [by right|done]].
    destruct (Z.min_spec next (en_expiresAt ke.2)) as [[? Em]|[? Em]]; [left; lia|right; exists ke; split; [left|lia]].
  - intros ke' Hin. apply elem_of_cons in Hin as [->|Hin]; [lia|by apply H3].
Qed.

Lemma min_list l next : let r := foldl (fun next (kr : string * row) => Z.min next (ro_expires_at_ms kr.2)) next l in
  r <= next /\ (r = next \/ exists kr, kr ∈ l /\ r = ro_expires_at_ms kr.2) /\ forall kr, kr ∈ l -> r <= ro_expires_at_ms kr.2.
Proof.
  revert next. induction l as [|kr l IH]; intros next r; subst r; cbn [foldl].
  { split; [lia|]. split; [by left|]. intros kr Hkr. by apply elem_of_nil in Hkr. }
  destruct (IH (Z.min next (ro_expires_at_ms kr.2))) as (H1 & H2 & H3). split; [lia|]. split.
  - destruct H2 as [H2|(kr' & Hin & H2)]; [|right; exists kr'; split; [by right|done]].
    destruct (Z.min_spec next (ro_expires_at_ms kr.2)) as [[? Em]|[? Em]]; [left; lia|right; exists kr; split; [left|lia]].
  - intros kr' Hin. apply elem_of_cons in Hin as [->|Hin]; [lia|by apply H3].
Qed.

(** Deleting what a predicate that sees only the claim does not keep. *)
Lemma deletes_expired {A} (g : A -> claim) (P : string * A -> Prop) `{forall x, Decision (P x)} (m : gmap string A) now :
  (forall k x, ~ P (k, x) -> cl_expires (g x) <= now) -> (forall k x, P (k, x) -> now <= cl_expires (g x)) ->
  let m' := g <$> filter P m in
  (forall k, m' !! k = (g <$> m) !! k \/ m' !! k = None /\ exists c, (g <$> m) !! k = Some c /\ cl_expires c <= now) /\
  (forall k c, m' !! k = Some c -> now <= cl_expires c).
Proof.
  intros Hout Hin m'. subst m'. split.
  - intros k. rewrite !lookup_fmap. destruct (m !! k) as [x|] eqn:E.
    + destruct (decide (P (k, x))) as [HP|HP].
      * left. by rewrite (map_lookup_filter_Some_2 _ _ _ _ E HP).
      * right. split; [|exists (g x); split; [done|by apply (Hout k)]].
        assert (filter P m !! k = None) as ->; [|done]. apply map_lookup_filter_None. right. intros y Hy. by simplify_eq.
    + left. assert (filter P m !! k = None) as ->; [|done]. apply map_lookup_filter_None. by left.
  - intros k c. rewrite lookup_fmap. destruct (filter P m !! k) as [x|] eqn:E; [|done]. intros [= <-].
    apply map_lookup_filter_Some in E as [_ HP]. by apply (Hin k).
Qed.

#[global] Instance memory_laws : ClaimLaws (gmap string entry).
Proof.
  split.
  - done.
  - intros t Ht. change (0 < t). unfold millisecond in Ht. lia.
  - done.
  - intros io key now expires m. cbn [cs_Claim memory_ops cs_tick]. unfold mem_Claim. store_cases.
  - intros io key token now expires m. cbn [cs_BeginClaim memory_ops cs_tick]. unfold mem_Begin. store_cases.
  - intros io key token expires m. cbn [cs_AcceptClaim memory_ops cs_tick]. unfold mem_Accept, mem_owned. store_cases.
    split; [done|]. by apply (alter_fmap_insert _ _ (fun e => mkEntry (en_key e) "" claimStatusAccepted (en_createdAt e) expires)).
  - intros io key token expires m. cbn [cs_ReserveClaim memory_ops cs_tick]. unfold mem_Reserve, mem_owned. store_cases.
    split; [done|]. by apply (alter_fmap_insert _ _ (fun e => mkEntry (en_key e) (en_token e) claimStatusReserved (en_createdAt e) expires)).
  - intros io key token m. cbn [cs_ReleaseClaim memory_ops cs_tick]. unfold mem_Release. release_cases.
  - intros io key now m. cbn [cs_IsProcessed memory_ops cs_tick]. unfold mem_IsProcessed. store_cases.
  - intros io now m. cbn [cs_DeleteExpired memory_ops cs_claims cs_tick]. unfold mem_evict, after.
    destruct (deletes_expired (fun e => mkClaim (en_status e) (en_token e) (en_expiresAt e))
      (fun ke => (en_expiresAt ke.2 <? now) = false) m now) as [H1 H2]; [..|by split].
    + intros k x Hx. cbn in *. destruct (Z.ltb_spec (en_expiresAt x) now); [lia|done].
    + intros k x Hx. cbn in *. lia.
  - intros io m Hpos. cbn [cs_EarliestExpiry memory_ops cs_claims cs_tick] in *. unfold mem_next.
    assert (Hall : forall ke, ke ∈ map_to_list m -> 0 < en_expiresAt ke.2).
    { intros [k e] Hin. apply elem_of_map_to_list in Hin.
      apply (Hpos k (mkClaim (en_status e) (en_token e) (en_expiresAt e))). by rewrite lookup_fmap, Hin. }
    destruct (map_to_list m) as [|ke l] eqn:E; [by apply map_to_list_empty_iff in E as ->|].
    cbn [foldl is_zero]. change (is_zero 0 || _) with true. cbn [orb].
    assert (Hke : 0 < en_expiresAt ke.2) by (apply Hall; left).
    destruct (memory_next_min l (en_expiresAt ke.2)) as (H1 & H2 & H3); [intros ke' Hin; apply Hall; by right|done|].
    set (r := foldl _ _ l) in *. unfold is_zero. destruct (Z.eqb_spec r 0); [lia|]. split.
    + assert (exists ke', ke' ∈ ke :: l /\ r = en_expiresAt ke'.2) as ([k e] & Hin & ->).
      { destruct H2 as [->|(ke' & Hin & ->)]; [exists ke; split; [left|done]|exists ke'; split; [by right|done]]. }
      rewrite <- E in Hin. apply elem_of_map_to_list in Hin. exists k.
      eexists. split; [by rewrite lookup_fmap, Hin|done].
    + intros k c. rewrite lookup_fmap. destruct (m !! k) as [e|] eqn:Ek; [|done]. intros [= <-]. cbn.
      apply elem_of_map_to_list in Ek. rewrite E in Ek. apply elem_of_cons in Ek as [<-|Ek]; [cbn in *; lia|]. by apply (H3 (k, e)).
Qed.

Lemma UnixMilli_mono t u : t <= u -> UnixMilli t <= UnixMilli u.
Proof. apply Z.div_le_mono. done. Qed.

Ltac table_cases := unfold when; match goal with |- answers ?io _ _ _ _ => destruct io; [|by split] end; store_cases.

#[global] Instance table_laws : ClaimLaws (gmap string row).
Proof.
  split.
  - apply UnixMilli_mono.
  - intros t Ht. apply UnixMilli_mono in Ht. change (1 <= UnixMilli t) in Ht. cbn [cs_tick table_ops]. lia.
  - done.
  - intros io key now expires t. cbn [cs_Claim table_ops cs_tick]. unfold sql_Claim, sql_upsert. table_cases.
  - intros io key token now expires t. cbn [cs_BeginClaim table_ops cs_tick]. unfold sql_BeginClaim, sql_upsert. table_cases.
  - intros io key token expires t. cbn [cs_AcceptClaim table_ops cs_tick]. unfold sql_AcceptClaim, sql_update. table_cases.
    split; [done|]. by apply (alter_fmap_insert _ _ (fun r => mkRow (ro_created_at_ms r) (UnixMilli expires) claimStatusAccepted "")).
  - intros io key token expires t. cbn [cs_ReserveClaim table_ops cs_tick]. unfold sql_ReserveClaim, sql_update. table_cases.
    split; [done|]. by apply (alter_fmap_insert _ _
      (fun r => mkRow (ro_created_at_ms r) (UnixMilli expires) claimStatusReserved (ro_claim_token r))).
  - intros io key token t. cbn [cs_ReleaseClaim table_ops cs_tick]. unfold sql_ReleaseClaim, when.
    destruct io; [|by split]. release_cases.
  - intros io key now t. cbn [cs_IsProcessed table_ops cs_tick]. destruct io; [|done].
    unfold sql_IsProcessed. store_cases.
  - intros io now t. cbn [cs_DeleteExpired table_ops cs_claims cs_tick]. destruct io; [|split; [by left|done]].
    destruct (deletes_expired (fun r => mkClaim (ro_status r) (ro_claim_token r) (ro_expires_at_ms r))
      (fun kr => UnixMilli now < ro_expires_at_ms kr.2) t (UnixMilli now)) as [H1 H2]; [..|by split];
      intros k x Hx; cbn in *; lia.
  - intros io t _. cbn [cs_EarliestExpiry table_ops cs_claims cs_tick]. destruct io; [|done].
    unfold sql_EarliestExpiry. destruct (map_to_list t) as [|kr l] eqn:E; [by apply map_to_list_empty_iff in E as ->|].
    destruct (min_list l (ro_expires_at_ms kr.2)) as (H1 & H2 & H3). set (r := foldl _ _ l) in *.
    assert (HU : UnixMilli (r * millisecond) = r) by (apply Z.div_mul; done). rewrite HU. split.
    + assert (exists kr', kr' ∈ kr :: l /\ r = ro_expires_at_ms kr'.2) as ([k x] & Hin & ->).
      { destruct H2 as [->|(kr' & Hin & ->)]; [exists kr; split; [left|done]|exists kr'; split; [by right|done]]. }
      rewrite <- E in Hin. apply elem_of_map_to_list in Hin. exists k.
      eexists. split; [by rewrite lookup_fmap, Hin|done].
    + intros k c. rewrite lookup_fmap. destruct (t !! k) as [x|] eqn:Ek; [|done]. intros [= <-]. cbn.
      apply elem_of_map_to_list in Ek. rewrite E in Ek. apply elem_of_cons in Ek as [<-|Ek]; [cbn in *; lia|]. by apply (H3 (k, x)).
Qed.

(** [SizeContext] promises the number of live keys: the table counts those that have
    not expired, the map all that have not been evicted. *)
Lemma memory_size_counts_expired :
  let m := snd (mem_Claim "k" 0 millisecond (∅ : gmap string entry)) in
  let t := snd (sql_Claim "k" 0 millisecond (∅ : gmap string row)) in
  mem_Size (2 * millisecond) m = 1 /\ sql_Size (2 * millisecond) t = 0.
Proof. split; vm_compute; reflexivity. Qed.
