(* ===== verification/Idempotency.v ===== *)
(** * Idempotency claims

    Models [CheckAndSet], [IsProcessedContext] and [evictExpired] of
    [internal/idempotency/manager.go] and the [ExecutionClaim] of [claim.go], over
    any store with the laws of [ClaimStore.v]. An operation reads the clock before
    it takes the lock of the store, so its reading ([read]) may be older than the
    claims it finds. The manager is compared with a table of leases, which knows
    nothing of tokens, eviction or the resolution of the store. *)

From S2P Require Import Prelude.
From S2P Require Import ClaimStore.

Inductive idem_error := ErrEmptyKey | ErrToken | ErrRepository | ErrClaimNotOwned.

Record ExecutionClaim := mkClaimHandle { ec_key : string; ec_token : string; ec_done : bool }.

Definition default_ttl : duration := 10 * minute.
Definition ttl_of (ttl : duration) : duration := if ttl <=? 0 then default_ttl else ttl.

Section Manager.
Context {S : Type} `{ClaimOps S}.

(** [CheckAndSet]; [Claim] of the store is either branch on [m.repo]. *)
Definition CheckAndSet (io : bool) (read : time) (key : string) (ttl : duration) (s : S) : (idem_error + bool) * S :=
  let cleanKey := trim_space key in
  if decide (cleanKey = EmptyString) then (inl ErrEmptyKey, s)
  else match cs_Claim io cleanKey read (time_add read (ttl_of ttl)) s with
       | (None, s) => (inl ErrRepository, s)
       | (Some claimed, s) => (inr claimed, s)
       end.

Definition IsProcessedContext (io : bool) (read : time) (key : string) (s : S) : idem_error + bool :=
  let cleanKey := trim_space key in
  if decide (cleanKey = EmptyString) then inr false
  else match cs_IsProcessed io cleanKey read s with None => inl ErrRepository | Some b => inr b end.

(** [Begin]; [token] is what [newClaimToken] returns, [None] its error. *)
Definition Begin (io : bool) (token : option string) (read : time) (key : string) (ttl : duration) (s : S)
    : (idem_error + option ExecutionClaim) * S :=
  let cleanKey := trim_space key in
  if decide (cleanKey = EmptyString) then (inl ErrEmptyKey, s)
  else match token with
       | None => (inl ErrToken, s)
       | Some token =>
           match cs_BeginClaim io cleanKey token read (time_add read (ttl_of ttl)) s with
           | (None, s) => (inl ErrRepository, s)
           | (Some false, s) => (inr None, s)
           | (Some true, s) => (inr (Some (mkClaimHandle cleanKey token false)), s)
           end
       end.

(** The three operations of a claim share this ending; [settles] tells whether a success is the last. *)
Definition settle (settles : bool) (c : ExecutionClaim) (res : option bool * S) : option idem_error * ExecutionClaim * S :=
  match res with
  | (None, s) => (Some ErrRepository, c, s)
  | (Some false, s) => (Some ErrClaimNotOwned, c, s)
  | (Some true, s) => (None, if settles then mkClaimHandle (ec_key c) (ec_token c) true else c, s)
  end.

Definition Accept (io : bool) (read : time) (ttl : duration) (c : ExecutionClaim) (s : S)
    : option idem_error * ExecutionClaim * S :=
  if ec_done c then (None, c, s)
  else settle true c (cs_AcceptClaim io (ec_key c) (ec_token c) (time_add read (ttl_of ttl)) s).
Definition Reserve (io : bool) (read : time) (ttl : duration) (c : ExecutionClaim) (s : S)
    : option idem_error * ExecutionClaim * S :=
  if ec_done c then (Some ErrClaimNotOwned, c, s)
  else settle false c (cs_ReserveClaim io (ec_key c) (ec_token c) (time_add read (ttl_of ttl)) s).
Definition Release (io : bool) (c : ExecutionClaim) (s : S) : option idem_error * ExecutionClaim * S :=
  if ec_done c then (None, c, s)
  else settle true c (cs_ReleaseClaim io (ec_key c) (ec_token c) s).

(** ** Runs *)

(** The store, the claims handed out in the order they were, and the clock. *)
Record system := mkSystem { sy_store : S; sy_handles : list ExecutionClaim; sy_now : time }.

Inductive idem_op :=
  | OpCheckAndSet (key : string) (ttl : duration)
  | OpIsProcessed (key : string)
  | OpBegin (token : option string) (key : string) (ttl : duration)
  | OpAccept (h : nat) (ttl : duration) | OpReserve (h : nat) (ttl : duration) | OpRelease (h : nat)
  | OpEvict | OpTick (d : N).

Inductive idem_answer :=
  | AnsBool (b : bool) | AnsHandle (h : option nat) | AnsDone | AnsErr (e : idem_error) | AnsNothing.

Definition ans_bool (r : idem_error + bool) : idem_answer := match r with inl e => AnsErr e | inr b => AnsBool b end.
Definition ans_err (r : option idem_error) : idem_answer := match r with Some e => AnsErr e | None => AnsDone end.

Definition on_handle (h : nat) (f : ExecutionClaim -> S -> option idem_error * ExecutionClaim * S) (y : system)
    : idem_answer * system :=
  match sy_handles y !! h with
  | None => (AnsNothing, y)
  | Some c => let '(e, c, s) := f c (sy_store y) in (ans_err e, mkSystem s (<[h := c]> (sy_handles y)) (sy_now y))
  end.

(** One operation, which read the clock [lag] ago. *)
Definition idem_step (io : bool) (lag : N) (op : idem_op) (y : system) : idem_answer * system :=
  let read := sy_now y - Z.of_N lag in
  match op with
  | OpCheckAndSet key ttl =>
      let '(r, s) := CheckAndSet io read key ttl (sy_store y) in (ans_bool r, mkSystem s (sy_handles y) (sy_now y))
  | OpIsProcessed key => (ans_bool (IsProcessedContext io read key (sy_store y)), y)
  | OpBegin token key ttl =>
      let '(r, s) := Begin io token read key ttl (sy_store y) in
      match r with
      | inl e => (AnsErr e, mkSystem s (sy_handles y) (sy_now y))
      | inr None => (AnsHandle None, mkSystem s (sy_handles y) (sy_now y))
      | inr (Some c) => (AnsHandle (Some (length (sy_handles y))), mkSystem s (sy_handles y ++ [c]) (sy_now y))
      end
  | OpAccept h ttl => on_handle h (Accept io read ttl) y
  | OpReserve h ttl => on_handle h (Reserve io read ttl) y
  | OpRelease h => on_handle h (Release io) y
  | OpEvict => (AnsNothing, mkSystem (cs_DeleteExpired io read (sy_store y)) (sy_handles y) (sy_now y))
  | OpTick d => (AnsNothing, mkSystem (sy_store y) (sy_handles y) (sy_now y + Z.of_N d))
  end.

Fixpoint idem_run (ops : list (bool * N * idem_op)) (y : system) : list idem_answer * system :=
  match ops with
  | [] => ([], y)
  | (io, lag, op) :: rest =>
      let '(a, y) := idem_step io lag op y in
      let '(l, y) := idem_run rest y in (a :: l, y)
  end.

Definition idem_start (now : time) : system := mkSystem cs_empty [] now.
End Manager.

(** ** Leases *)

Inductive phase := Accepted | Processing (h : nat) | Reserved (h : nat).
Record lease := mkLease { le_phase : phase; le_until : Z }.

(** The leases of the keys, the key of each claim handed out, and the claims that are over. *)
Record leases := mkLeases { ls_table : gmap string lease; ls_keys : list string; ls_over : gset nat }.

Definition no_leases : leases := mkLeases ∅ [] ∅.
Definition put_lease (k : string) (l : lease) (L : leases) : leases :=
  mkLeases (<[k := l]> (ls_table L)) (ls_keys L) (ls_over L).
Definition drop_lease (k : string) (L : leases) : leases := mkLeases (delete k (ls_table L)) (ls_keys L) (ls_over L).
Definition hand_out (k : string) (L : leases) : leases := mkLeases (ls_table L) (ls_keys L ++ [k]) (ls_over L).
Definition over (h : nat) (L : leases) : leases := mkLeases (ls_table L) (ls_keys L) ({[h]} ∪ ls_over L).

(** No lease of the key runs at [t]; a lease runs. *)
Definition free (L : leases) (k : string) (t : Z) : Prop := forall l, ls_table L !! k = Some l -> le_until l <= t.
Definition held (L : leases) (k : string) (t : Z) : Prop := exists l, ls_table L !! k = Some l /\ t < le_until l.
(** The lease of the key is in one of the phases. *)
Definition owned (L : leases) (k : string) (ps : list phase) : Prop := exists l, ls_table L !! k = Some l /\ le_phase l ∈ ps.
Definition owned_at (L : leases) (k : string) (ps : list phase) (t : Z) : Prop :=
  exists l, ls_table L !! k = Some l /\ le_phase l ∈ ps /\ t < le_until l.

(** What may happen to a table of leases. [read] and [now] are the ticks of the
    clock as the operation read it and at the time of the step, [until] the tick at
    which a lease given for some time ends. A key is given only when no lease of it
    runs [now], and refused only when one ran at [read]; the claim that owns a lease
    succeeds as long as the lease runs, and no other claim succeeds. *)
Definition lease_step (io : bool) (read now : Z) (until : duration -> Z) (op : idem_op) (ans : idem_answer)
    (L L' : leases) : Prop :=
  match op, ans with
  | OpCheckAndSet key ttl, AnsBool true =>
      free L (trim_space key) now /\ L' = put_lease (trim_space key) (mkLease Accepted (until ttl)) L
  | OpCheckAndSet key ttl, AnsBool false => held L (trim_space key) read /\ L' = L
  | OpIsProcessed key, AnsBool true => held L (trim_space key) read /\ L' = L
  | OpIsProcessed key, AnsBool false => free L (trim_space key) now /\ L' = L
  | OpBegin token key ttl, AnsHandle (Some h) =>
      h = length (ls_keys L) /\ free L (trim_space key) now /\
      L' = hand_out (trim_space key) (put_lease (trim_space key) (mkLease (Processing h) (until ttl)) L)
  | OpBegin token key ttl, AnsHandle None => held L (trim_space key) read /\ L' = L
  | OpAccept h ttl, AnsDone => exists k, ls_keys L !! h = Some k /\
      (h ∈ ls_over L /\ L' = L \/
       h ∉ ls_over L /\ owned L k [Processing h] /\ L' = over h (put_lease k (mkLease Accepted (until ttl)) L))
  | OpReserve h ttl, AnsDone => exists k, ls_keys L !! h = Some k /\
      h ∉ ls_over L /\ owned L k [Processing h] /\ L' = put_lease k (mkLease (Reserved h) (until ttl)) L
  | OpRelease h, AnsDone => exists k, ls_keys L !! h = Some k /\
      (h ∈ ls_over L /\ L' = L \/
       h ∉ ls_over L /\ owned L k [Processing h; Reserved h] /\ L' = over h (drop_lease k L))
  | OpAccept h _, AnsErr ErrClaimNotOwned => exists k, ls_keys L !! h = Some k /\
      h ∉ ls_over L /\ ~ owned_at L k [Processing h] now /\ L' = L
  | OpReserve h _, AnsErr ErrClaimNotOwned => exists k, ls_keys L !! h = Some k /\
      (h ∈ ls_over L \/ ~ owned_at L k [Processing h] now) /\ L' = L
  | OpRelease h, AnsErr ErrClaimNotOwned => exists k, ls_keys L !! h = Some k /\
      h ∉ ls_over L /\ ~ owned_at L k [Processing h; Reserved h] now /\ L' = L
  | (OpAccept h _ | OpReserve h _ | OpRelease h), AnsNothing => (length (ls_keys L) <= h)%nat /\ L' = L
  | (OpCheckAndSet key _ | OpBegin _ key _), AnsErr ErrEmptyKey => trim_space key = EmptyString /\ L' = L
  | OpBegin token _ _, AnsErr ErrToken => token = None /\ L' = L
  | (OpEvict | OpTick _), AnsNothing => L' = L
  | _, AnsErr ErrRepository => io = false /\ L' = L
  | _, _ => False
  end.

Section Leases.
Context {S : Type} `{ClaimLaws S}.

Definition later (op : idem_op) (now : time) : time := match op with OpTick d => now + Z.of_N d | _ => now end.

(** The answers of a run are those of a table of leases. *)
Fixpoint lease_run (tick : time -> Z) (now : time) (ops : list (bool * N * idem_op)) (answers : list idem_answer)
    (L L' : leases) : Prop :=
  match ops, answers with
  | [], [] => L' = L
  | (io, lag, op) :: ops, a :: answers =>
      let read := now - Z.of_N lag in
      exists L1, lease_step io (tick read) (tick now) (fun ttl => tick (time_add read (ttl_of ttl))) op a L L1 /\
                 lease_run tick (later op now) ops answers L1 L'
  | _, _ => False
  end.

Definition token_of (op : bool * N * idem_op) : option string := match op.2 with OpBegin t _ _ => t | _ => None end.

(** ** The simulation *)

(** What the store knows of a key is what its lease says; an evicted lease has ended. *)
Definition agrees (handles : list ExecutionClaim) (k : string) (c : claim) (l : lease) : Prop :=
  cl_expires c = le_until l /\
  match le_phase l with
  | Accepted => cl_status c = claimStatusAccepted
  | Processing h => cl_status c = claimStatusProcessing /\ handles !! h = Some (mkClaimHandle k (cl_token c) false)
  | Reserved h => cl_status c = claimStatusReserved /\ handles !! h = Some (mkClaimHandle k (cl_token c) false)
  end.

Record simulates (used : list string) (y : system (S:=S)) (L : leases) : Prop := {
  sim_keys : ls_keys L = map ec_key (sy_handles y);
  sim_over : forall h c, sy_handles y !! h = Some c -> (ec_done c = true <-> h ∈ ls_over L);
  sim_known : forall h, h ∈ ls_over L -> (h < length (sy_handles y))%nat;
  sim_used : forall c, c ∈ sy_handles y -> ec_token c ∈ used;
  sim_tokens : NoDup (map ec_token (sy_handles y));
  sim_claims : forall k c, cs_claims (sy_store y) !! k = Some c -> exists l, ls_table L !! k = Some l /\ agrees (sy_handles y) k c l;
  sim_gone : forall k l, ls_table L !! k = Some l -> cs_claims (sy_store y) !! k = None -> le_until l <= cs_tick (sy_now y);
  sim_named : ls_table L !! EmptyString = None
}.

Lemma same_token used y L i j a b : simulates used y L -> sy_handles y !! i = Some a -> sy_handles y !! j = Some b ->
  ec_token a = ec_token b -> i = j.
Proof.
  intros Hsim Hi Hj E. pose proof (sim_tokens _ _ _ Hsim) as Hnd. eapply NoDup_lookup; [exact Hnd|..].
  - by apply list_lookup_fmap_Some_2. 
  - rewrite list_lookup_fmap, Hj. cbn. by rewrite E.
Qed.

(** A claimable key has no running lease, another one has. *)
Lemma claimable_free used y L k read : simulates used y L -> read <= sy_now y ->
  if claimable (cs_claims (sy_store y)) k (cs_tick read) then free L k (cs_tick (sy_now y)) else held L k (cs_tick read).
Proof.
  intros Hsim Hread. apply (cs_tick_mono (S:=S)) in Hread. unfold claimable.
  destruct (cs_claims (sy_store y) !! k) as [c|] eqn:E.
  - destruct (sim_claims _ _ _ Hsim _ _ E) as (l & Hl & He & _). destruct (Z.leb_spec (cl_expires c) (cs_tick read)).
    + intros l' Hl'. simplify_eq. lia.
    + exists l. split; [done|lia].
  - intros l Hl. by eapply sim_gone.
Qed.
(** The claim that owns a key in the store owns its lease; when it does not, no lease of it runs. *)
Lemma processes_owned used y L h c : simulates used y L -> sy_handles y !! h = Some c -> ec_done c = false ->
  if processes (cs_claims (sy_store y)) (ec_key c) (ec_token c) then owned L (ec_key c) [Processing h]
  else ~ owned_at L (ec_key c) [Processing h] (cs_tick (sy_now y)).
Proof.
  intros Hsim Hh Hd. unfold processes. destruct (cs_claims (sy_store y) !! ec_key c) as [cl|] eqn:E.
  - destruct (sim_claims _ _ _ Hsim _ _ E) as (l & Hl & He & Ha). destruct (bool_decide _ && bool_decide _) eqn:Eb.
    + bool_to_prop. exists l. split; [done|]. destruct (le_phase l) as [|h'|h'] eqn:Ep; [congruence| |destruct Ha; congruence].
      destruct Ha as [_ Ha]. rewrite (same_token _ _ _ _ _ _ _ Hsim Hh Ha) by done. left.
    + intros (l' & Hl' & Hp & _). simplify_eq. apply list_elem_of_singleton in Hp. rewrite Hp in Ha. destruct Ha as [Hst Ha].
      assert (cl_token cl = ec_token c) by (rewrite Hh in Ha; by injection Ha as ->).
      apply andb_false_iff in Eb as [Eb|Eb]; bool_to_prop; congruence.
  - intros (l' & Hl' & _ & Ht). pose proof (sim_gone _ _ _ Hsim _ _ Hl' E). lia.
Qed.

Lemma releasable_owned used y L h c : simulates used y L -> sy_handles y !! h = Some c -> ec_done c = false ->
  if releasable (cs_claims (sy_store y)) (ec_key c) (ec_token c) then owned L (ec_key c) [Processing h; Reserved h]
  else ~ owned_at L (ec_key c) [Processing h; Reserved h] (cs_tick (sy_now y)).
Proof.
  intros Hsim Hh Hd. unfold releasable. destruct (cs_claims (sy_store y) !! ec_key c) as [cl|] eqn:E.
  - destruct (sim_claims _ _ _ Hsim _ _ E) as (l & Hl & He & Ha). destruct (bool_decide _ && bool_decide _) eqn:Eb.
    + bool_to_prop. exists l. split; [done|]. destruct (le_phase l) as [|h'|h'] eqn:Ep; [congruence| |];
        destruct Ha as [_ Ha]; rewrite (same_token _ _ _ _ _ _ _ Hsim Hh Ha) by done; set_solver.
    + intros (l' & Hl' & Hp & _). simplify_eq. apply andb_false_iff in Eb.
      apply elem_of_cons in Hp as [Hp|Hp%list_elem_of_singleton]; rewrite Hp in Ha; destruct Ha as [Hst Ha];
        (assert (cl_token cl = ec_token c) by (rewrite Hh in Ha; by injection Ha as ->));
        destruct Eb as [Eb|Eb]; bool_to_prop; try congruence; destruct Eb; congruence.
  - intros (l' & Hl' & _ & Ht). pose proof (sim_gone _ _ _ Hsim _ _ Hl' E). lia.
Qed.

(** ** The simulation is kept *)

Lemma sim_write used y L s k c l : simulates used y L -> k <> EmptyString ->
  cs_claims s = <[k := c]> (cs_claims (sy_store y)) -> agrees (sy_handles y) k c l ->
  simulates used (mkSystem s (sy_handles y) (sy_now y)) (put_lease k l L).
Proof.
  intros Hsim Hk Hs Hc. destruct Hsim as [Hs1 Hs2 Hs0 Hs3 Hs4 Hs5 Hs6 Hs7]. split; cbn in *; try done.
  - intros k' c' Hc'. rewrite Hs in Hc'. destruct (decide (k' = k)) as [->|Hne].
    + rewrite lookup_insert_eq in Hc'. rewrite lookup_insert_eq. injection Hc' as <-. by exists l.
    + rewrite lookup_insert_ne in Hc' by done. rewrite lookup_insert_ne by done. by apply Hs5.
  - intros k' l' Hl' Hc'. rewrite Hs in Hc'. destruct (decide (k' = k)) as [->|Hne]; [by rewrite lookup_insert_eq in Hc'|].
    rewrite lookup_insert_ne in Hc' by done. rewrite lookup_insert_ne in Hl' by done. by eapply Hs6.
  - by rewrite lookup_insert_ne.
Qed.

Lemma sim_drop used y L s k : simulates used y L -> cs_claims s = delete k (cs_claims (sy_store y)) ->
  simulates used (mkSystem s (sy_handles y) (sy_now y)) (drop_lease k L).
Proof.
  intros Hsim Hs. destruct Hsim as [Hs1 Hs2 Hs0 Hs3 Hs4 Hs5 Hs6 Hs7]. split; cbn in *; try done.
  - intros k' c' Hc'. rewrite Hs in Hc'. destruct (decide (k' = k)) as [->|Hne]; [by rewrite lookup_delete_eq in Hc'|].
    rewrite lookup_delete_ne in Hc' by done. rewrite lookup_delete_ne by done. by apply Hs5.
  - intros k' l' Hl' Hc'. rewrite Hs in Hc'. destruct (decide (k' = k)) as [->|Hne]; [by rewrite lookup_delete_eq in Hl'|].
    rewrite lookup_delete_ne in Hc' by done. rewrite lookup_delete_ne in Hl' by done. by eapply Hs6.
  - destruct (decide (k = EmptyString)) as [->|]; [by rewrite lookup_delete_eq|by rewrite lookup_delete_ne].
Qed.

(** A claim that no lease names any more is over. *)
Lemma sim_finish used y L h c : simulates used y L -> sy_handles y !! h = Some c ->
  (forall l cl, ls_table L !! ec_key c = Some l -> cs_claims (sy_store y) !! ec_key c = Some cl ->
     le_phase l <> Processing h /\ le_phase l <> Reserved h) ->
  simulates used (mkSystem (sy_store y) (<[h := mkClaimHandle (ec_key c) (ec_token c) true]> (sy_handles y)) (sy_now y)) (over h L).
Proof.
  intros Hsim Hh Hun. destruct Hsim as [Hs1 Hs2 Hs0 Hs3 Hs4 Hs5 Hs6 Hs7].
  pose proof (lookup_lt_Some _ _ _ Hh) as Hlt. split; cbn in *.
  - rewrite Hs1, !list_fmap_insert. symmetry. apply list_insert_id. by rewrite list_lookup_fmap, Hh.
  - intros h' c' Hc'. destruct (decide (h' = h)) as [->|Hne].
    + rewrite list_lookup_insert_eq in Hc' by done. simplify_eq. set_solver.
    + rewrite list_lookup_insert_ne in Hc' by done. rewrite (Hs2 _ _ Hc'). set_solver.
  - intros h' Hh'. rewrite length_insert. apply elem_of_union in Hh' as [->%elem_of_singleton|Hh']; auto.
  - intros c' [i Hi]%list_elem_of_lookup. apply list_lookup_insert_Some in Hi as [(-> & <- & _)|(_ & Hi)]; cbn;
      eapply Hs3, list_elem_of_lookup_2; eassumption.
  - rewrite list_fmap_insert. cbn. rewrite list_insert_id; [done|]. by rewrite list_lookup_fmap, Hh.
  - intros k' cl Hcl. destruct (Hs5 _ _ Hcl) as (l & Hl & He & Ha). exists l. split; [done|]. split; [done|].
    destruct (le_phase l) as [|h'|h'] eqn:Ep; [done|..]; destruct Ha as [Hst Ha]; (split; [done|]);
      (destruct (decide (h' = h)) as [->|Hne]; [|by rewrite list_lookup_insert_ne]);
      exfalso; simplify_eq; cbn in *; destruct (Hun _ _ Hl Hcl); congruence.
  - done.
  - done.
Qed.
Lemma sim_store used y L s : simulates used y L -> cs_claims s = cs_claims (sy_store y) ->
  simulates used (mkSystem s (sy_handles y) (sy_now y)) L.
Proof. intros [Hs1 Hs2 Hs0 Hs3 Hs4 Hs5 Hs6 Hs7] Hs. split; cbn in *; try done; rewrite Hs; done. Qed.

Lemma sim_more used used' y L : simulates used y L -> used ⊆ used' -> simulates used' y L.
Proof. intros [Hs1 Hs2 Hs0 Hs3 Hs4 Hs5 Hs6 Hs7] Hu. split; try done. intros c Hc. by apply Hu, Hs3. Qed.

(** A claim handed out, with a token never used before. *)
Lemma sim_hand_out used y L s k token until : simulates used y L -> k <> EmptyString -> token ∉ used ->
  cs_claims s = <[k := mkClaim claimStatusProcessing token until]> (cs_claims (sy_store y)) ->
  simulates (token :: used) (mkSystem s (sy_handles y ++ [mkClaimHandle k token false]) (sy_now y))
    (hand_out k (put_lease k (mkLease (Processing (length (sy_handles y))) until) L)).
Proof.
  intros [Hs1 Hs2 Hs0 Hs3 Hs4 Hs5 Hs6 Hs7] Hk Htok Hs.
  assert (Hold : forall k' c l, agrees (sy_handles y) k' c l -> agrees (sy_handles y ++ [mkClaimHandle k token false]) k' c l).
  { intros k' c l [He Ha]. split; [done|]. destruct (le_phase l); [done|..]; destruct Ha as [Hst Ha];
      (split; [done|by apply lookup_app_l_Some]). }
  split; cbn.
  - by rewrite map_app, Hs1.
  - intros h c Hc. apply lookup_app_Some in Hc as [Hc|[Hge Hc]]; [by apply Hs2|].
    apply list_lookup_singleton_Some in Hc as [Hh <-]. split; [done|]. intros Hin. apply Hs0 in Hin. lia.
  - intros h Hin. apply Hs0 in Hin. rewrite length_app. cbn. lia.
  - intros c Hc. apply elem_of_app in Hc as [Hc|Hc%list_elem_of_singleton]; [right; by apply Hs3|subst; left].
  - rewrite map_app. cbn. apply NoDup_app. split; [done|]. split; [|by apply NoDup_singleton].
    intros t Ht ->%list_elem_of_singleton. apply list_elem_of_fmap in Ht as (c & -> & Hc). by apply Htok, Hs3.
  - intros k' c. rewrite Hs. destruct (decide (k' = k)) as [->|Hne].
    + rewrite !lookup_insert_eq. intros [= <-]. eexists. split; [done|]. split; [done|]. cbn. split; [done|].
      by rewrite lookup_app_r, Nat.sub_diag.
    + rewrite !lookup_insert_ne by done. intros Hc. destruct (Hs5 _ _ Hc) as (l & Hl & Ha). exists l. auto.
  - intros k' l. rewrite Hs. destruct (decide (k' = k)) as [->|Hne]; [by rewrite !lookup_insert_eq|].
    rewrite !lookup_insert_ne by done. apply Hs6.
  - by rewrite lookup_insert_ne.
Qed.
(** ** Steps *)

Definition step_sim (used : list string) (y : system) (L : leases) (io : bool) (lag : N) (op : idem_op) : Prop :=
  let read := sy_now y - Z.of_N lag in
  let '(a, y') := idem_step io lag op y in
  sy_now y' = later op (sy_now y) /\
  exists L', lease_step io (cs_tick read) (cs_tick (sy_now y)) (fun ttl => cs_tick (time_add read (ttl_of ttl))) op a L L' /\
             simulates (option_list (token_of (io, lag, op)) ++ used) y' L'.

Lemma sim_eta used y L : simulates used (mkSystem (sy_store y) (sy_handles y) (sy_now y)) L -> simulates used y L.
Proof. by destruct y. Qed.

Lemma CheckAndSet_sim used y L io lag key ttl : simulates used y L -> step_sim used y L io lag (OpCheckAndSet key ttl).
Proof.
  intros Hsim. unfold step_sim. cbn. unfold CheckAndSet. destruct (decide (trim_space key = EmptyString)) as [Hk|Hk].
  { split; [done|]. exists L. split; [done|]. by apply sim_store. }
  set (read := sy_now y - Z.of_N lag).
  pose proof (cs_Claim_spec io (trim_space key) read (time_add read (ttl_of ttl)) (sy_store y)) as Hspec.
  pose proof (claimable_free used y L (trim_space key) read Hsim ltac:(subst read; lia)) as Hfree.
  destruct (cs_Claim _ _ _ _ _) as [[b|] s]; cbn in *; (split; [done|]).
  - destruct Hspec as [-> Hs]. destruct (claimable _ _ _).
    + eexists. split; [by split|]. eapply sim_write; [done|done|exact Hs|]. by split.
    + exists L. split; [done|]. by apply sim_store.
  - destruct Hspec as [-> ->]. exists L. split; [done|]. by apply sim_store.
Qed.

Lemma Begin_sim used y L io lag token key ttl : simulates used y L -> (forall t, token = Some t -> t ∉ used) ->
  step_sim used y L io lag (OpBegin token key ttl).
Proof.
  intros Hsim Htok. unfold step_sim. cbn. unfold Begin.
  assert (Hsame : simulates (option_list token ++ used) (mkSystem (sy_store y) (sy_handles y) (sy_now y)) L).
  { eapply sim_more; [by apply sim_store|]. set_solver. }
  destruct (decide (trim_space key = EmptyString)) as [Hk|Hk].
  { split; [done|]. exists L. split; [by destruct token|done]. }
  destruct token as [token|]; [|by split; [done|exists L]].
  set (read := sy_now y - Z.of_N lag).
  pose proof (cs_BeginClaim_spec io (trim_space key) token read (time_add read (ttl_of ttl)) (sy_store y)) as Hspec.
  pose proof (claimable_free used y L (trim_space key) read Hsim ltac:(subst read; lia)) as Hfree.
  destruct (cs_BeginClaim _ _ _ _ _ _) as [[b|] s]; cbn in *.
  - destruct Hspec as [-> Hs]. destruct (claimable _ _ _); (split; [done|]).
    + eexists. split; [split; [|by split]|]. { by rewrite (sim_keys _ _ _ Hsim), length_map. }
      eapply sim_hand_out; [done|done|by apply Htok|exact Hs].
    + exists L. split; [done|]. eapply sim_more; [by apply sim_store|]. set_solver.
  - destruct Hspec as [-> ->]. split; [done|]. exists L. done.
Qed.

(** A claim that changes nothing of itself. *)
Lemma put_back (l : list ExecutionClaim) h c : l !! h = Some c -> <[h := c]> l = l.
Proof. apply list_insert_id. Qed.

Lemma key_of used y L h c : simulates used y L -> sy_handles y !! h = Some c -> ls_keys L !! h = Some (ec_key c).
Proof. intros Hsim Hh. by rewrite (sim_keys _ _ _ Hsim), list_lookup_fmap, Hh. Qed.

Lemma owned_named used y L k ps : simulates used y L -> owned L k ps -> k <> EmptyString.
Proof. intros Hsim (l & Hl & _) ->. by rewrite (sim_named _ _ _ Hsim) in Hl. Qed.

Lemma not_over used y L h c : simulates used y L -> sy_handles y !! h = Some c -> ec_done c = false -> h ∉ ls_over L.
Proof. intros Hsim Hh Hd Hin. apply (sim_over _ _ _ Hsim _ _ Hh) in Hin. congruence. Qed.

Lemma processes_alter (m : gmap string claim) k token (f : claim -> claim) : processes m k token = true ->
  exists c, m !! k = Some c /\ cl_status c = claimStatusProcessing /\ cl_token c = token /\ alter f k m = <[k := f c]> m.
Proof.
  unfold processes. destruct (m !! k) as [c|] eqn:E; [|done]. intros Hp. bool_to_prop. exists c. split_and_all; try done.
  apply map_eq. intros i. destruct (decide (i = k)) as [->|]; [by rewrite lookup_alter_eq, lookup_insert_eq, E|].
  by rewrite lookup_alter_ne, lookup_insert_ne.
Qed.
Lemma Accept_sim used y L io lag h ttl : simulates used y L -> step_sim used y L io lag (OpAccept h ttl).
Proof.
  intros Hsim. unfold step_sim. cbn [idem_step]. unfold on_handle. destruct (sy_handles y !! h) as [c|] eqn:Hh.
  2: { split; [done|]. exists L. split; [|done]. split; [|done]. rewrite (sim_keys _ _ _ Hsim), length_map. by apply lookup_ge_None. }
  pose proof (key_of _ _ _ _ _ Hsim Hh) as Hk. unfold Accept. destruct (ec_done c) eqn:Hd.
  { split; [done|]. exists L. split; [exists (ec_key c); split; [done|]; left; split; [by apply (sim_over _ _ _ Hsim _ _ Hh)|done]|].
    rewrite put_back by done. by apply sim_store. }
  set (read := sy_now y - Z.of_N lag). set (e := time_add read (ttl_of ttl)).
  pose proof (cs_AcceptClaim_spec io (ec_key c) (ec_token c) e (sy_store y)) as Hspec.
  pose proof (processes_owned _ _ _ _ _ Hsim Hh Hd) as Hown. pose proof (not_over _ _ _ _ _ Hsim Hh Hd) as Hover.
  destruct (cs_AcceptClaim _ _ _ _ _) as [[b|] s]; cbn in *.
  - destruct Hspec as [-> Hs]. destruct (processes _ _ _) eqn:Hp; (split; [done|]).
    + pose proof (owned_named _ _ _ _ _ Hsim Hown) as Hne.
      apply (processes_alter _ _ _ (with_status claimStatusAccepted (Some "") (cs_tick e))) in Hp as (cl & _ & _ & _ & Hcl).
      rewrite Hcl in Hs. eexists. split; [exists (ec_key c); split; [done|]; right; split; [done|]; split; [done|reflexivity]|].
      eapply (sim_finish used (mkSystem s (sy_handles y) (sy_now y))); [|done|].
      * eapply sim_write; [done|done|exact Hs|]. by split.
      * intros l cl'. cbn. rewrite lookup_insert_eq. by intros [= <-].
    + exists L. split; [by exists (ec_key c)|]. rewrite put_back by done. by apply sim_store.
  - destruct Hspec as [-> ->]. split; [done|]. exists L. split; [done|]. rewrite put_back by done. by apply sim_store.
Qed.

Lemma Reserve_sim used y L io lag h ttl : simulates used y L -> step_sim used y L io lag (OpReserve h ttl).
Proof.
  intros Hsim. unfold step_sim. cbn [idem_step]. unfold on_handle. destruct (sy_handles y !! h) as [c|] eqn:Hh.
  2: { split; [done|]. exists L. split; [|done]. split; [|done]. rewrite (sim_keys _ _ _ Hsim), length_map. by apply lookup_ge_None. }
  pose proof (key_of _ _ _ _ _ Hsim Hh) as Hk. unfold Reserve. destruct (ec_done c) eqn:Hd.
  { split; [done|]. exists L. split; [exists (ec_key c); split; [done|]; split; [left; by apply (sim_over _ _ _ Hsim _ _ Hh)|done]|].
    rewrite put_back by done. by apply sim_store. }
  set (read := sy_now y - Z.of_N lag). set (e := time_add read (ttl_of ttl)).
  pose proof (cs_ReserveClaim_spec io (ec_key c) (ec_token c) e (sy_store y)) as Hspec.
  pose proof (processes_owned _ _ _ _ _ Hsim Hh Hd) as Hown. pose proof (not_over _ _ _ _ _ Hsim Hh Hd) as Hover.
  destruct (cs_ReserveClaim _ _ _ _ _) as [[b|] s]; cbn in *.
  - destruct Hspec as [-> Hs]. destruct (processes _ _ _) eqn:Hp; (split; [done|]).
    + pose proof (owned_named _ _ _ _ _ Hsim Hown) as Hne.
      apply (processes_alter _ _ _ (with_status claimStatusReserved None (cs_tick e))) in Hp as (cl & _ & _ & Ht & Hcl).
      rewrite Hcl in Hs. eexists. split; [exists (ec_key c); split; [done|]; split; [done|]; split; [done|reflexivity]|].
      rewrite put_back by done. eapply sim_write; [done|done|exact Hs|]. split; [done|]. cbn. split; [done|].
      rewrite Hh, Ht. destruct c; cbn in *; by subst.
    + exists L. split; [exists (ec_key c); split; [done|]; split; [by right|done]|]. rewrite put_back by done. by apply sim_store.
  - destruct Hspec as [-> ->]. split; [done|]. exists L. split; [done|]. rewrite put_back by done. by apply sim_store.
Qed.

Lemma Release_sim used y L io lag h : simulates used y L -> step_sim used y L io lag (OpRelease h).
Proof.
  intros Hsim. unfold step_sim. cbn [idem_step]. unfold on_handle. destruct (sy_handles y !! h) as [c|] eqn:Hh.
  2: { split; [done|]. exists L. split; [|done]. split; [|done]. rewrite (sim_keys _ _ _ Hsim), length_map. by apply lookup_ge_None. }
  pose proof (key_of _ _ _ _ _ Hsim Hh) as Hk. unfold Release. destruct (ec_done c) eqn:Hd.
  { split; [done|]. exists L. split; [exists (ec_key c); split; [done|]; left; split; [by apply (sim_over _ _ _ Hsim _ _ Hh)|done]|].
    rewrite put_back by done. by apply sim_store. }
  pose proof (cs_ReleaseClaim_spec io (ec_key c) (ec_token c) (sy_store y)) as Hspec.
  pose proof (releasable_owned _ _ _ _ _ Hsim Hh Hd) as Hown. pose proof (not_over _ _ _ _ _ Hsim Hh Hd) as Hover.
  destruct (cs_ReleaseClaim _ _ _ _) as [[b|] s]; cbn in *.
  - destruct Hspec as [-> Hs]. destruct (releasable _ _ _) eqn:Hp; (split; [done|]).
    + eexists. split; [exists (ec_key c); split; [done|]; right; split; [done|]; split; [done|reflexivity]|].
      eapply (sim_finish used (mkSystem s (sy_handles y) (sy_now y))); [by eapply sim_drop|done|].
      intros l cl. cbn. by rewrite lookup_delete_eq.
    + exists L. split; [by exists (ec_key c)|]. rewrite put_back by done. by apply sim_store.
  - destruct Hspec as [-> ->]. split; [done|]. exists L. split; [done|]. rewrite put_back by done. by apply sim_store.
Qed.

Lemma IsProcessed_sim used y L io lag key : simulates used y L -> step_sim used y L io lag (OpIsProcessed key).
Proof.
  intros Hsim. unfold step_sim. cbn. split; [done|]. exists L. split; [|done].
  unfold IsProcessedContext. destruct (decide (trim_space key = EmptyString)) as [Hk|Hk]; cbn.
  { split; [|done]. intros l Hl. by rewrite Hk, (sim_named _ _ _ Hsim) in Hl. }
  set (read := sy_now y - Z.of_N lag).
  pose proof (cs_IsProcessed_spec io (trim_space key) read (sy_store y)) as Hspec.
  pose proof (claimable_free used y L (trim_space key) read Hsim ltac:(subst read; lia)) as Hfree.
  destruct (cs_IsProcessed _ _ _ _) as [b|]; cbn; [|done]. subst b. by destruct (claimable _ _ _).
Qed.

Lemma Evict_sim used y L io lag : simulates used y L -> step_sim used y L io lag OpEvict.
Proof.
  intros Hsim. unfold step_sim. cbn. split; [done|]. exists L. split; [done|].
  destruct (cs_DeleteExpired_spec io (sy_now y - Z.of_N lag) (sy_store y)) as [Hdel _].
  destruct Hsim as [Hs1 Hs2 Hs0 Hs3 Hs4 Hs5 Hs6 Hs7]. split; cbn; try done.
  - intros k c Hc. apply Hs5. by destruct (Hdel k) as [<-|[Hn _]]; [|congruence].
  - intros k l Hl Hn. destruct (Hdel k) as [E|[_ (c & Hc & He)]]; [apply (Hs6 k); congruence|].
    destruct (Hs5 _ _ Hc) as (l' & Hl' & Hu & _). simplify_eq.
    etrans; [|apply (cs_tick_mono (sy_now y - Z.of_N lag)); lia]. lia.
Qed.

Lemma Tick_sim used y L io lag d : simulates used y L -> step_sim used y L io lag (OpTick d).
Proof.
  intros Hsim. unfold step_sim. cbn. split; [done|]. exists L. split; [done|].
  destruct Hsim as [Hs1 Hs2 Hs0 Hs3 Hs4 Hs5 Hs6 Hs7]. split; cbn; try done.
  intros k l Hl Hn. etrans; [by eapply Hs6|]. apply cs_tick_mono. lia.
Qed.

Lemma idem_step_sim used y L io lag op : simulates used y L -> (forall t, token_of (io, lag, op) = Some t -> t ∉ used) ->
  step_sim used y L io lag op.
Proof.
  intros Hsim Htok. destruct op; auto using CheckAndSet_sim, IsProcessed_sim, Begin_sim, Accept_sim, Reserve_sim, Release_sim,
    Evict_sim, Tick_sim.
Qed.
Lemma start_sim now : simulates [] (idem_start now) no_leases.
Proof.
  split; cbn; try done; try apply NoDup_nil_2; try (intros *; rewrite cs_empty_claims; by rewrite lookup_empty).
  intros c Hc. by apply elem_of_nil in Hc.
Qed.

Lemma idem_run_sim ops : forall used y L, simulates used y L -> NoDup (omap token_of ops) ->
  (forall t, t ∈ omap token_of ops -> t ∉ used) ->
  exists L' used', lease_run cs_tick (sy_now y) ops (idem_run ops y).1 L L' /\ simulates used' (idem_run ops y).2 L'.
Proof.
  induction ops as [|[[io lag] op] ops IH]; intros used y L Hsim Hnd Hfresh; [by exists L, used|].
  cbn [idem_run lease_run]. pose proof (idem_step_sim used y L io lag op Hsim) as Hstep. unfold step_sim in Hstep.
  destruct (idem_step io lag op y) as [a y'] eqn:E. cbn [omap list_omap] in *.
  destruct Hstep as (Hnow & L1 & Hlease & Hsim1).
  { intros t Ht. apply Hfresh. rewrite Ht. left. }
  destruct (IH (option_list (token_of (io, lag, op)) ++ used) y' L1) as (L' & used' & Hrun & Hsim'); [done|..].
  { destruct (token_of (io, lag, op)); [by apply NoDup_cons in Hnd as [_ Hnd]|done]. }
  { intros t Ht. destruct (token_of (io, lag, op)) as [t0|] eqn:Et; cbn.
    - apply NoDup_cons in Hnd as [Hnd _]. intros [->|Hin]%elem_of_cons; [done|]. apply (Hfresh t); [by right|done].
    - by apply Hfresh. }
  destruct (idem_run ops y') as [l y2]. cbn in *. exists L', used'. split; [|done]. exists L1. split; [done|].
  by rewrite <- Hnow.
Qed.

(** C30. Over any store that keeps the interface's laws, and when no token is drawn
    twice, the manager refines a table of leases: whatever the operations, their
    order, how stale the clock each of them read, the failures of the store and the
    evictions in between, every answer it gives is one the leases allow. A key is
    given to one claim at a time until its lease ends, a claim that has lost its key
    can neither accept, reserve nor release it, and the claim that owns a running
    lease is never refused. *)
Theorem claims_refine_leases now ops : NoDup (omap token_of ops) ->
  exists L, lease_run cs_tick now ops (idem_run ops (idem_start (S:=S) now)).1 no_leases L.
Proof.
  intros Hnd. destruct (idem_run_sim ops [] (idem_start now) no_leases (start_sim now) Hnd) as (L & _ & Hrun & _).
  - intros t _ Ht. by apply elem_of_nil in Ht.
  - by exists L.
Qed.

(** ** Exclusion *)

Definition elapsed (ops : list (bool * N * idem_op)) (now : time) : time := foldl (fun t o => later o.2 t) now ops.
(** The operation is one of claim [h]; it claims the key. *)
Definition concerns (h : nat) (op : idem_op) : bool :=
  match op with OpAccept i _ | OpReserve i _ | OpRelease i => bool_decide (i = h) | _ => false end.
Definition claims_key (k : string) (op : idem_op) : bool :=
  match op with OpCheckAndSet key _ | OpBegin _ key _ => bool_decide (trim_space key = k) | _ => false end.
Definition granted_answer (a : idem_answer) : bool := match a with AnsBool b => b | AnsHandle (Some _) => true | _ => false end.

Lemma lease_run_app tick ops1 ops2 : forall now answers L L', lease_run tick now (ops1 ++ ops2) answers L L' ->
  exists a1 a2 L1, answers = a1 ++ a2 /\ length a1 = length ops1 /\
    lease_run tick now ops1 a1 L L1 /\ lease_run tick (elapsed ops1 now) ops2 a2 L1 L'.
Proof.
  induction ops1 as [|[[io lag] op] ops1 IH]; intros now answers L L' Hrun; [by exists [], answers, L|].
  destruct answers as [|a answers]; [done|]. cbn in Hrun. destruct Hrun as (L1 & Hstep & Hrun).
  destruct (IH _ _ _ _ Hrun) as (a1 & a2 & L2 & -> & Hlen & H1 & H2).
  exists (a :: a1), a2, L2. cbn. split_and_all; [done|by f_equal|by exists L1|done].
Qed.

Lemma later_mono op now : now <= later op now.
Proof. destruct op; cbn; lia. Qed.

(** A lease of claim [h] that runs stays what it is while others work. *)
Definition stays (L : leases) (k : string) (h : nat) (u now : Z) : Prop :=
  ls_table L !! k = Some (mkLease (Processing h) u) \/ u <= now.

Lemma lease_step_stays io read now now' until op a L L' k h u : concerns h op = false -> now <= now' ->
  stays L k h u now -> lease_step io read now until op a L L' -> stays L' k h u now'.
Proof.
  intros Hop Hnow [Hk|Hu] Hstep; [|right; lia].
  assert (Hfree : forall k' l, free L k' now -> <[k' := l]> (ls_table L) !! k = Some (mkLease (Processing h) u) \/ u <= now').
  { intros k' l Hf. destruct (decide (k' = k)) as [->|]; [right; specialize (Hf _ Hk); cbn in Hf; lia|left; by rewrite lookup_insert_ne]. }
  assert (Hown : forall k' h' ps, owned L k' ps -> h' <> h -> ps = [Processing h'] \/ ps = [Processing h'; Reserved h'] -> k' <> k).
  { intros k' h' ps (l & Hl & Hp) Hne Hps ->. rewrite Hk in Hl. injection Hl as <-. cbn in Hp. destruct Hps as [->| ->]; set_solver. }
  destruct op; cbn in *; repeat case_match; cbn in *; try done; try case_bool_decide; try done; bool_to_prop;
    destruct_and?; try match goal with H : exists _, _ |- _ => destruct H end; destruct_and?; destruct_or?; destruct_and?; subst; try (left; exact Hk);
    try (apply Hfree; done); left; cbn.
  all: try (rewrite lookup_insert_ne; [done|]); try (rewrite lookup_delete_ne; [done|]); eapply Hown; eauto.
Qed.

Lemma lease_run_stays (ops : list (bool * N * idem_op)) k h u : forall now answers L L', (forall o, o ∈ ops -> concerns h o.2 = false) ->
  stays L k h u (cs_tick now) -> lease_run cs_tick now ops answers L L' -> stays L' k h u (cs_tick (elapsed ops now)).
Proof.
  induction ops as [|[[io lag] op] ops IH]; intros now answers L L' Hops Hs Hrun; destruct answers as [|a answers]; try done.
  { by cbn in Hrun; subst. }
  cbn in Hrun |- *. destruct Hrun as (L1 & Hstep & Hrun). eapply IH; [|..|exact Hrun].
  - intros o Ho. apply Hops. by right.
  - eapply lease_step_stays; [|apply cs_tick_mono, (later_mono op)|exact Hs|exact Hstep]. apply (Hops (io, lag, op)). left.
Qed.

(** A key has one owner: when [Begin] has given a claim on it and the claim has
    not been accepted, reserved or released, a later [Begin] or [CheckAndSet] of the
    same key succeeds only once the time the first was given for has passed. *)
Theorem claim_excludes now ops1 io lag token key ttl ops2 io' lag' op' h :
  let ops := ops1 ++ (io, lag, OpBegin token key ttl) :: ops2 ++ [(io', lag', op')] in
  let answers := (idem_run ops (idem_start (S:=S) now)).1 in
  NoDup (omap token_of ops) ->
  answers !! length ops1 = Some (AnsHandle (Some h)) ->
  (forall o, o ∈ ops2 -> concerns h o.2 = false) ->
  claims_key (trim_space key) op' = true -> (granted_answer <$> last answers) = Some true ->
  cs_tick (elapsed ops1 now - Z.of_N lag + ttl_of ttl) <= cs_tick (elapsed (ops1 ++ (io, lag, OpBegin token key ttl) :: ops2) now).
Proof.
  intros ops answers Hnd Hbegin Hops2 Hkey Hlast.
  destruct (idem_run_sim ops [] (idem_start now) no_leases (start_sim now) Hnd) as (L & _ & Hrun & _).
  { intros t _ Ht. by apply elem_of_nil in Ht. }
  change (idem_run ops (idem_start now)).1 with answers in Hrun. clearbody answers. cbn in Hrun.
  apply lease_run_app in Hrun as (a1 & a2 & L1 & -> & Hlen & _ & Hrun). rewrite lookup_app_r, Hlen, Nat.sub_diag in Hbegin by lia.
  destruct a2 as [|a a2]; [done|]. injection Hbegin as ->. destruct Hrun as (L2 & Hstep & Hrun).
  unfold lease_step in Hstep. destruct Hstep as (-> & Hfree & ->).
  apply lease_run_app in Hrun as (a3 & a4 & L3 & -> & Hlen3 & Hrun3 & Hrun).
  destruct a4 as [|a4 [|]]; [done| |by destruct Hrun as (? & _ & ?)]. destruct Hrun as (L4 & Hstep & _).
  assert (Hgrant : granted_answer a4 = true).
  { rewrite !app_comm_cons, app_assoc, last_snoc in Hlast. by injection Hlast. }
  assert (Hs : stays L3 (trim_space key) (length (ls_keys L1)) (cs_tick (elapsed ops1 now - Z.of_N lag + ttl_of ttl))
                 (cs_tick (elapsed ops2 (elapsed ops1 now)))).
  { eapply lease_run_stays; [exact Hops2| |exact Hrun3]. left. cbn. by rewrite lookup_insert_eq. }
  unfold elapsed at 2. rewrite foldl_app. cbn [foldl later]. change (foldl _ _ ops2) with (elapsed ops2 (elapsed ops1 now)).
  destruct Hs as [Hs|]; [|done].
  assert (Hf : free L3 (trim_space key) (cs_tick (elapsed ops2 (elapsed ops1 now)))).
  { destruct op'; try done; cbn in Hkey; apply bool_decide_eq_true in Hkey; rewrite <- Hkey; cbn in Hstep;
      repeat case_match; cbn in Hgrant; try done; subst; destruct_and?; try done. }
  exact (Hf _ Hs).
Qed.
End Leases.

(** ** Witnesses *)

(** A claim that expires, is taken over, and is released too late by its first owner; then the second is accepted. *)
Definition takeover : list (bool * N * idem_op) :=
  [(true, 0%N, OpBegin (Some "a") " job " second); (true, 0%N, OpBegin (Some "b") "job" second);
   (false, 0%N, OpAccept 0 second); (true, 0%N, OpTick 1000000000%N); (true, 0%N, OpEvict);
   (true, 0%N, OpBegin (Some "c") "job" second); (true, 5%N, OpRelease 0); (true, 0%N, OpReserve 1 second);
   (true, 0%N, OpAccept 1 second); (true, 0%N, OpRelease 1); (true, 0%N, OpIsProcessed "job")].

Lemma claims_refine_leases_witness :
  (idem_run takeover (idem_start (S:=gmap string row) second)).1 =
    [AnsHandle (Some 0%nat); AnsHandle None; AnsErr ErrRepository; AnsNothing; AnsNothing; AnsHandle (Some 1%nat);
     AnsErr ErrClaimNotOwned; AnsDone; AnsErr ErrClaimNotOwned; AnsDone; AnsBool false] /\
  exists L, lease_run cs_tick second takeover (idem_run takeover (idem_start (S:=gmap string row) second)).1 no_leases L.
Proof.
  split; [vm_compute; reflexivity|]. apply (claims_refine_leases (S:=gmap string row) second takeover).
  vm_compute. repeat constructor; rewrite ?elem_of_cons, ?elem_of_nil; intuition congruence.
Defined.

Lemma claim_excludes_witness :
  let ops2 := [(true, 0%N, OpTick 1000000000%N)] in
  cs_tick (S:=gmap string entry) (elapsed [] 0 - 0 + second) <=
  cs_tick (S:=gmap string entry) (elapsed ((true, 0%N, OpBegin (Some "a") "job" second) :: ops2) 0).
Proof.
  apply (claim_excludes (S:=gmap string entry) 0 [] true 0 (Some "a") "job" second [(true, 0%N, OpTick 1000000000%N)]
    true 0 (OpCheckAndSet "job" 0) 0).
  - vm_compute. repeat constructor; rewrite ?elem_of_nil; tauto.
  - vm_compute. reflexivity.
  - intros o Ho. apply list_elem_of_singleton in Ho as ->. reflexivity.
  - vm_compute. reflexivity.
  - vm_compute. reflexivity.
Defined.
