(* ===== verification/CleanupLoop.v ===== *)
(** * The cleanup of expired claims

    Models the lifecycle of [internal/idempotency/manager.go]: [Start], [Stop],
    [signalCleanup] and [cleanupLoop]. The coordinator is a goroutine that exists
    only while there is something to expire: [signalCleanup] starts it, or leaves a
    token in its one-place wake channel, and it ends when it finds nothing. Callers
    and workers are interleaved at their atomic sections: what runs under
    [lifecycleMu] is one step, and so are a send on the wake channel, a call of the
    store, and a choice of a [select]. A context and the wake channel made with it
    by one [Start] have the number of that [Start]. *)

From S2P Require Import Prelude.
From S2P Require Import ClaimStore.
From S2P Require Import Idempotency.

(** Where a worker is in [cleanupLoop]. *)
Inductive wk_pc :=
  | WLoop                      (* before [nextExpiry] *)
  | WErr (until : time)        (* at the select after an error *)
  | WNone                      (* nothing found, before the lock *)
  | WWait (next : time)        (* at the select with the timer of [next] *)
  | WEvict                     (* before [evictExpired] *)
  | WLeave                     (* returned, before the lock of the deferred function *)
  | WClose.                    (* before [close(done)] *)

#[global] Instance wk_pc_eq_dec : EqDecision wk_pc.
Proof. solve_decision. Defined.

Inductive choice := SelCtx | SelWake | SelTimer.

Section Cleanup.
Context {S : Type} `{ClaimOps S}.
Context (cleanupInterval : duration) (has_repo : bool).

Record cleanup := mkCleanup {
  cu_sys : system (S:=S);
  cu_started : bool; cu_runCtx : option nat; cu_cleanupWake : nat;
  cu_workerRunning : bool; cu_workerDone : option nat;
  cu_cancelled : gset nat;             (* contexts *)
  cu_tokens : gset nat;                (* wake channels that hold a token *)
  cu_workers : gmap nat (nat * wk_pc); (* the context and channel of a worker, and where it is *)
  cu_fresh : nat;
  cu_reading : list nat;               (* [Start]s before [nextExpiry] *)
  cu_signals : nat;                    (* calls of [signalCleanup] before its lock *)
  cu_sends : list nat;                 (* calls before the send on the channel *)
  cu_cancels : list nat                (* [Stop]s before [cancel()] *)
}.

Definition cu_set_sys (y : system) (s : cleanup) : cleanup :=
  mkCleanup y (cu_started s) (cu_runCtx s) (cu_cleanupWake s) (cu_workerRunning s) (cu_workerDone s) (cu_cancelled s)
    (cu_tokens s) (cu_workers s) (cu_fresh s) (cu_reading s) (cu_signals s) (cu_sends s) (cu_cancels s).
Definition cu_set_life (started : bool) (ctx : option nat) (wake : nat) (s : cleanup) : cleanup :=
  mkCleanup (cu_sys s) started ctx wake (cu_workerRunning s) (cu_workerDone s) (cu_cancelled s)
    (cu_tokens s) (cu_workers s) (cu_fresh s) (cu_reading s) (cu_signals s) (cu_sends s) (cu_cancels s).
Definition cu_set_worker (running : bool) (done : option nat) (s : cleanup) : cleanup :=
  mkCleanup (cu_sys s) (cu_started s) (cu_runCtx s) (cu_cleanupWake s) running done (cu_cancelled s)
    (cu_tokens s) (cu_workers s) (cu_fresh s) (cu_reading s) (cu_signals s) (cu_sends s) (cu_cancels s).
Definition cu_set_workers (ws : gmap nat (nat * wk_pc)) (fresh : nat) (s : cleanup) : cleanup :=
  mkCleanup (cu_sys s) (cu_started s) (cu_runCtx s) (cu_cleanupWake s) (cu_workerRunning s) (cu_workerDone s) (cu_cancelled s)
    (cu_tokens s) ws fresh (cu_reading s) (cu_signals s) (cu_sends s) (cu_cancels s).
Definition cu_set_tokens (t : gset nat) (s : cleanup) : cleanup :=
  mkCleanup (cu_sys s) (cu_started s) (cu_runCtx s) (cu_cleanupWake s) (cu_workerRunning s) (cu_workerDone s) (cu_cancelled s)
    t (cu_workers s) (cu_fresh s) (cu_reading s) (cu_signals s) (cu_sends s) (cu_cancels s).
Definition cu_set_cancelled (c : gset nat) (s : cleanup) : cleanup :=
  mkCleanup (cu_sys s) (cu_started s) (cu_runCtx s) (cu_cleanupWake s) (cu_workerRunning s) (cu_workerDone s) c
    (cu_tokens s) (cu_workers s) (cu_fresh s) (cu_reading s) (cu_signals s) (cu_sends s) (cu_cancels s).
Definition cu_set_calls (reading : list nat) (signals : nat) (sends cancels : list nat) (s : cleanup) : cleanup :=
  mkCleanup (cu_sys s) (cu_started s) (cu_runCtx s) (cu_cleanupWake s) (cu_workerRunning s) (cu_workerDone s) (cu_cancelled s)
    (cu_tokens s) (cu_workers s) (cu_fresh s) reading signals sends cancels.

Definition put_worker (w : nat) (g : nat) (pc : wk_pc) (s : cleanup) : cleanup :=
  cu_set_workers (<[w := (g, pc)]> (cu_workers s)) (cu_fresh s) s.
Definition add_signal (s : cleanup) : cleanup :=
  cu_set_calls (cu_reading s) (Datatypes.S (cu_signals s)) (cu_sends s) (cu_cancels s) s.

(** [NewManager]. *)
Definition new_cleanup (now : time) : cleanup :=
  mkCleanup (idem_start now) false None 0 false None ∅ ∅ ∅ 0 [] 0 [] [].

(** The operations that call [signalCleanup] when they succeed; those of a claim that
    is over return at once. *)
Definition is_over (h : nat) (y : system (S:=S)) : bool := default true (ec_done <$> sy_handles y !! h).
Definition signals_cleanup (op : idem_op) (a : idem_answer) (y : system (S:=S)) : bool :=
  match op, a with
  | OpCheckAndSet _ _, AnsBool b => b
  | OpBegin _ _ _, AnsHandle (Some _) => true
  | (OpAccept h _ | OpReserve h _ | OpRelease h), AnsDone => negb (is_over h y)
  | _, _ => false
  end.

(** [Start] up to its unlock. *)
Definition Start (s : cleanup) : cleanup :=
  if cu_started s then s
  else
    let g := Datatypes.S (cu_cleanupWake s) in
    cu_set_calls (g :: cu_reading s) (cu_signals s) (cu_sends s) (cu_cancels s) (cu_set_life true (Some g) g s).

(** [signalCleanup] up to its unlock: the channel it is going to send on. *)
Definition signal_section (s : cleanup) : cleanup :=
  match cu_runCtx s with
  | Some g =>
      if negb (cu_started s) || bool_decide (g ∈ cu_cancelled s) then s
      else
        let s :=
          if cu_workerRunning s then s
          else cu_set_worker true (Some (cu_fresh s))
                 (cu_set_workers (<[cu_fresh s := (g, WLoop)]> (cu_workers s)) (Datatypes.S (cu_fresh s)) s) in
        cu_set_calls (cu_reading s) (cu_signals s) (cu_cleanupWake s :: cu_sends s) (cu_cancels s) s
  | None => s
  end.

(** The send that ends [signalCleanup]; it never blocks, a full channel keeps its token. *)
Definition send_wake (i : nat) (s : cleanup) : option cleanup :=
  match cu_sends s !! i with
  | None => None
  | Some g => Some (cu_set_tokens ({[g]} ∪ cu_tokens s)
                (cu_set_calls (cu_reading s) (cu_signals s) (delete i (cu_sends s)) (cu_cancels s) s))
  end.

(** [Stop] up to its unlock. *)
Definition Stop (s : cleanup) : cleanup :=
  if cu_started s then
    cu_set_calls (cu_reading s) (cu_signals s) (cu_sends s) (option_list (cu_runCtx s) ++ cu_cancels s)
      (cu_set_life false None (cu_cleanupWake s) s)
  else s.

(** One step of a worker: [io] is whether the database answers, [sel] the choice of a select. *)
Definition cleanup_worker (w : nat) (io : bool) (sel : choice) (s : cleanup) : option cleanup :=
  match cu_workers s !! w with
  | None => None
  | Some (g, pc) =>
      let now := sy_now (cu_sys s) in
      let leave_or_wake (timer : bool) (k : cleanup) :=
        match sel with
        | SelCtx => if bool_decide (g ∈ cu_cancelled s) then Some (put_worker w g WLeave s) else None
        | SelWake =>
            if bool_decide (g ∈ cu_tokens s) then Some (put_worker w g WLoop (cu_set_tokens (cu_tokens s ∖ {[g]}) s)) else None
        | SelTimer => if timer then Some k else None
        end in
      match pc with
      | WLoop =>
          Some (match cs_EarliestExpiry io (sy_store (cu_sys s)) with
                | None => put_worker w g (WErr (now + cleanupInterval)) s
                | Some None => put_worker w g WNone s
                | Some (Some next) => put_worker w g (WWait next) s
                end)
      | WErr until => leave_or_wake (until <=? now) (put_worker w g WLoop s)
      | WWait next => leave_or_wake (next <=? now) (put_worker w g WEvict s)
      | WNone =>
          Some (if negb (bool_decide (cu_workerDone s = Some w)) then put_worker w g WLeave s
                else if bool_decide (g ∈ cu_tokens s) then put_worker w g WLoop (cu_set_tokens (cu_tokens s ∖ {[g]}) s)
                else put_worker w g WLeave (cu_set_worker false None s))
      | WEvict =>
          let y := cu_sys s in
          let y := if has_repo && bool_decide (g ∈ cu_cancelled s) then y
                   else mkSystem (cs_DeleteExpired io now (sy_store y)) (sy_handles y) (sy_now y) in
          Some (put_worker w g WLoop (cu_set_sys y s))
      | WLeave =>
          let s := if bool_decide (cu_workerDone s = Some w) then cu_set_worker false None s else s in
          Some (put_worker w g WClose s)
      | WClose => Some (cu_set_workers (delete w (cu_workers s)) (cu_fresh s) s)
      end
  end.

Inductive cu_event :=
  | EvOp (io : bool) (lag : N) (op : idem_op)
  | EvStart | EvStartRead (i : nat) (io : bool) | EvSignal | EvSend (i : nat) | EvStop | EvCancel (i : nat)
  | EvParent                                       (* the context given to [Start] ends *)
  | EvWorker (w : nat) (io : bool) (sel : choice).

(** Without [racing] a call of [signalCleanup] is not overtaken between its unlock
    and its send, and no [Start] comes while a worker of an earlier one still runs. *)
Definition cleanup_step (racing : bool) (ev : cu_event) (s : cleanup) : option cleanup :=
  match ev with
  | EvOp io lag op =>
      if (sy_now (cu_sys s) - Z.of_N lag <? millisecond) || match op with OpEvict => true | _ => false end then None
      else
        let '(a, y) := idem_step io lag op (cu_sys s) in
        Some (if signals_cleanup op a (cu_sys s) then add_signal (cu_set_sys y s) else cu_set_sys y s)
  | EvStart => if negb racing && negb (cu_started s) && cu_workerRunning s then None else Some (Start s)
  | EvStartRead i io =>
      match cu_reading s !! i with
      | None => None
      | Some _ =>
          let s' := cu_set_calls (delete i (cu_reading s)) (cu_signals s) (cu_sends s) (cu_cancels s) s in
          Some (match cs_EarliestExpiry io (sy_store (cu_sys s)) with Some None => s' | _ => add_signal s' end)
      end
  | EvSignal =>
      match cu_signals s with
      | O => None
      | Datatypes.S n =>
          let s := signal_section (cu_set_calls (cu_reading s) n (cu_sends s) (cu_cancels s) s) in
          Some (if racing then s else default s (send_wake 0 s))
      end
  | EvSend i => send_wake i s
  | EvStop => Some (Stop s)
  | EvCancel i =>
      match cu_cancels s !! i with
      | None => None
      | Some g =>
          Some (cu_set_cancelled ({[g]} ∪ cu_cancelled s)
            (cu_set_calls (cu_reading s) (cu_signals s) (cu_sends s) (delete i (cu_cancels s)) s))
      end
  | EvParent =>
      match cu_runCtx s with
      | Some g => Some (cu_set_cancelled ({[g]} ∪ cu_cancelled s) s)
      | None => None
      end
  | EvWorker w io sel => cleanup_worker w io sel s
  end.

Inductive cleanup_reachable (racing : bool) (start : time) : cleanup -> Prop :=
  | cleanup_init : cleanup_reachable racing start (new_cleanup start)
  | cleanup_next ev s s' : cleanup_reachable racing start s -> cleanup_step racing ev s = Some s' ->
      cleanup_reachable racing start s'.

Fixpoint cleanup_run (racing : bool) (evs : list cu_event) (s : cleanup) : option cleanup :=
  match evs with
  | [] => Some s
  | ev :: rest => match cleanup_step racing ev s with Some s => cleanup_run racing rest s | None => None end
  end.

(** ** The invariant *)

Context `{!ClaimLaws S}.

Definition claims_of (s : cleanup) : gmap string claim := cs_claims (sy_store (cu_sys s)).
Definition at_work (pc : wk_pc) : bool := match pc with WLeave | WClose => false | _ => true end.

(** A worker that will see every claim of the store: it is going to read the
    expiries, or there is a token that makes it read them, or it waits no longer
    than the first of them. *)
Definition covers (s : cleanup) (g : nat) (pc : wk_pc) : Prop :=
  at_work pc = true /\
  (g ∈ cu_tokens s \/
   match pc with
   | WWait next => forall k c, claims_of s !! k = Some c -> cs_tick next <= cl_expires c
   | WNone => claims_of s = ∅
   | _ => True
   end).

Definition armed (s : cleanup) : Prop :=
  cu_started s = true -> cu_cleanupWake s ∉ cu_cancelled s ->
  cu_reading s <> [] \/ (0 < cu_signals s)%nat \/ claims_of s = ∅ \/
  exists w pc, cu_workerDone s = Some w /\ cu_workers s !! w = Some (cu_cleanupWake s, pc) /\ covers s (cu_cleanupWake s) pc.

Record cleanup_ok (racing : bool) (s : cleanup) : Prop := {
  ok_ctx : cu_runCtx s = if cu_started s then Some (cu_cleanupWake s) else None;
  ok_running : cu_workerRunning s = bool_decide (is_Some (cu_workerDone s));
  ok_fresh : forall w, is_Some (cu_workers s !! w) -> (w < cu_fresh s)%nat;
  ok_owner : forall w, cu_workerDone s = Some w -> exists g pc, cu_workers s !! w = Some (g, pc) /\ pc <> WClose;
  ok_work : forall w g pc, cu_workers s !! w = Some (g, pc) -> at_work pc = true -> cu_workerDone s = Some w;
  ok_leaving : forall w g, cu_workerDone s = Some w -> cu_workers s !! w = Some (g, WLeave) -> g ∈ cu_cancelled s;
  ok_positive : forall k c, claims_of s !! k = Some c -> 0 < cl_expires c;
  ok_sends : racing = false -> cu_sends s = [];
  ok_same : racing = false -> forall w g pc, cu_started s = true -> cu_workerDone s = Some w ->
    cu_workers s !! w = Some (g, pc) -> g = cu_cleanupWake s;
  ok_armed : racing = false -> armed s
}.

(** What one operation does to the claims: each keeps its expiry or gets that of a clock that runs. *)
Definition wrote (m m' : gmap string claim) : Prop :=
  forall k c, m' !! k = Some c -> m !! k = Some c \/ exists t, millisecond <= t /\ cl_expires c = cs_tick (S:=S) t.

Lemma wrote_insert k c m t : millisecond <= t -> cl_expires c = cs_tick (S:=S) t -> wrote m (<[k := c]> m).
Proof. intros Ht Hc k' c' [[<- <-]|[_ Hk]]%lookup_insert_Some; [right; by exists t|by left]. Qed.
Lemma wrote_alter k st tok m t : millisecond <= t -> wrote m (alter (with_status st tok (cs_tick (S:=S) t)) k m).
Proof.
  intros Ht k' c' Hk. destruct (decide (k = k')) as [->|Hne]; [|by rewrite lookup_alter_ne in Hk; [left|]].
  rewrite lookup_alter_eq in Hk. destruct (m !! k'); [|done]. injection Hk as <-. right. by exists t.
Qed.
Lemma wrote_delete k m : wrote m (delete k m).
Proof. intros k' c' [_ Hk]%lookup_delete_Some. by left. Qed.

(** An operation changes no claim, or it has succeeded, and then it signals. *)
Definition changes (signals : bool) (m m' : gmap string claim) : Prop := m' = m \/ signals = true /\ wrote m m'.

Lemma answers_changes io b (f : gmap string claim -> gmap string claim) s res : answers io b f s res ->
  (forall m, wrote m (f m)) -> changes (default false res.1) (cs_claims s) (cs_claims res.2).
Proof.
  intros Ha Hf. destruct res as [[b'|] s']; cbn in *; [|destruct Ha as [_ ->]; by left].
  destruct Ha as [-> ->]. destruct b; [right; split; [done|apply Hf]|by left].
Qed.

Lemma ttl_pos ttl : 0 < ttl_of ttl.
Proof. unfold ttl_of, default_ttl, minute, second. destruct (Z.leb_spec ttl 0); lia. Qed.

Lemma on_handle_changes h settles f y io (b : ExecutionClaim -> S -> bool) g :
  (forall c s, ec_done c = true -> exists e, f c s = (e, c, s)) ->
  (forall c s, ec_done c = false -> exists res, f c s = settle settles c res /\ answers io (b c s) (g c) s res) ->
  (forall c m, wrote m (g c m)) ->
  let '(a, y') := on_handle h f y in
  changes (match a with AnsDone => negb (is_over h y) | _ => false end) (cs_claims (sy_store y)) (cs_claims (sy_store y')).
Proof.
  intros Hdone Hf Hg. unfold on_handle, is_over. destruct (sy_handles y !! h) as [c|]; [|by left]. cbn.
  destruct (ec_done c) eqn:Hd.
  - destruct (Hdone c (sy_store y) Hd) as [e ->]. by left.
  - destruct (Hf c (sy_store y) Hd) as (res & -> & Ha). pose proof (answers_changes _ _ _ _ _ Ha (Hg c)) as Hc.
    destruct res as [[[]|] s']; cbn in *; [done|..]; destruct Hc as [Hc|[? _]]; try done; by left.
Qed.

Lemma idem_step_changes io lag op y : millisecond <= sy_now y - Z.of_N lag -> op <> OpEvict ->
  let '(a, y') := idem_step io lag op y in
  changes (signals_cleanup op a y) (cs_claims (sy_store y)) (cs_claims (sy_store y')).
Proof.
  intros Hread Hop. set (read := sy_now y - Z.of_N lag) in *.
  assert (Hexp : forall ttl, millisecond <= time_add read (ttl_of ttl)) by (intros ttl; pose proof (ttl_pos ttl); unfold time_add; lia).
  destruct op as [key ttl|key|token key ttl|h ttl|h ttl|h| |d]; cbn [idem_step signals_cleanup]; fold read; try done; try by left.
  - unfold CheckAndSet. case_decide; [by left|].
    pose proof (answers_changes _ _ _ _ _ (cs_Claim_spec io (trim_space key) read (time_add read (ttl_of ttl)) (sy_store y))) as Hc.
    destruct (cs_Claim _ _ _ _ _) as [[b|] s]; cbn in *; apply Hc; intros m; (eapply wrote_insert; [apply Hexp|reflexivity]).
  - unfold Begin. case_decide; [by left|]. destruct token as [token|]; [|by left].
    pose proof (answers_changes _ _ _ _ _ (cs_BeginClaim_spec io (trim_space key) token read (time_add read (ttl_of ttl)) (sy_store y))) as Hc.
    destruct (cs_BeginClaim _ _ _ _ _ _) as [[[]|] s]; cbn in *; apply Hc; intros m; (eapply wrote_insert; [apply Hexp|reflexivity]).
  - apply (on_handle_changes _ true _ _ io (fun c s => processes (cs_claims s) (ec_key c) (ec_token c))
      (fun c => alter (with_status claimStatusAccepted (Some "") (cs_tick (time_add read (ttl_of ttl)))) (ec_key c))).
    + intros c s Hd. unfold Accept. rewrite Hd. by eexists.
    + intros c s Hd. unfold Accept. rewrite Hd. eexists. split; [done|apply cs_AcceptClaim_spec].
    + intros c m. by apply wrote_alter.
  - apply (on_handle_changes _ false _ _ io (fun c s => processes (cs_claims s) (ec_key c) (ec_token c))
      (fun c => alter (with_status claimStatusReserved None (cs_tick (time_add read (ttl_of ttl)))) (ec_key c))).
    + intros c s Hd. unfold Reserve. rewrite Hd. by eexists.
    + intros c s Hd. unfold Reserve. rewrite Hd. eexists. split; [done|apply cs_ReserveClaim_spec].
    + intros c m. by apply wrote_alter.
  - apply (on_handle_changes _ true _ _ io (fun c s => releasable (cs_claims s) (ec_key c) (ec_token c)) (fun c => delete (ec_key c))).
    + intros c s Hd. unfold Release. rewrite Hd. by eexists.
    + intros c s Hd. unfold Release. rewrite Hd. eexists. split; [done|apply cs_ReleaseClaim_spec].
    + intros c m. apply wrote_delete.
Qed.

(** ** It is kept *)

Lemma ok_new racing now : cleanup_ok racing (new_cleanup now).
Proof.
  assert (E : claims_of (new_cleanup now) = ∅) by apply cs_empty_claims.
  split; try done.
  - intros w [x Hw]. cbn in Hw. by rewrite lookup_empty in Hw.
  - intros k c. rewrite E. by rewrite lookup_empty.
Qed.

Lemma ok_op racing s io lag op s' : cleanup_ok racing s -> cleanup_step racing (EvOp io lag op) s = Some s' ->
  cleanup_ok racing s'.
Proof.
  intros Hok Hstep. cbn in Hstep. destruct (_ <? millisecond) eqn:Hr; [done|]. cbn in Hstep.
  assert (Hop : op <> OpEvict) by (by intros ->). bool_to_prop.
  pose proof (idem_step_changes io lag op (cu_sys s) Hr Hop) as Hch. destruct (idem_step _ _ _ _) as [a y].
  replace (match op with OpEvict => true | _ => false end) with false in Hstep by (by destruct op). injection Hstep as <-.
  assert (Hpos : forall k c, cs_claims (sy_store y) !! k = Some c -> 0 < cl_expires c).
  { intros k c Hc. destruct Hch as [E|[_ Hw]]; [rewrite E in Hc; by apply (ok_positive _ _ Hok k)|].
    destruct (Hw _ _ Hc) as [Hc'|(t & Ht & ->)]; [by apply (ok_positive _ _ Hok k)|by apply cs_tick_pos]. }
  destruct Hok. destruct (signals_cleanup op a (cu_sys s)); split; cbn; try done.
  - intros _ _ _. right. left. cbn. lia.
  - destruct Hch as [E|[? _]]; [|done]. intros Hrc Hst Hca. destruct (ok_armed0 Hrc Hst Hca) as [?|[?|Ha]]; [by left|by right; left|].
    right. right. unfold covers, claims_of in *. cbn. by rewrite E.
Qed.

Lemma ok_start racing s s' : cleanup_ok racing s -> cleanup_step racing EvStart s = Some s' -> cleanup_ok racing s'.
Proof.
  intros Hok Hstep. cbn in Hstep. destruct (_ && cu_workerRunning s) eqn:Hr; [done|]. injection Hstep as <-.
  unfold Start. destruct (cu_started s) eqn:Hs; [done|]. destruct Hok. split; cbn; try done.
  - intros ->. cbn in Hr. intros w g pc _ Hw. rewrite ok_running0, Hw in Hr. done.
  - intros _ _ _. by left.
Qed.

Lemma ok_start_read racing s i io s' : cleanup_ok racing s ->
  cleanup_step racing (EvStartRead i io) s = Some s' -> cleanup_ok racing s'.
Proof.
  intros Hok Hstep. cbn in Hstep. destruct (cu_reading s !! i) as [g|]; [|done]. injection Hstep as <-.
  pose proof (cs_EarliestExpiry_spec io (sy_store (cu_sys s)) (ok_positive _ _ Hok)) as Hspec.
  destruct Hok. destruct (cs_EarliestExpiry _ _) as [[t|]|]; split; cbn; try done; intros _ _ _; right; [left; cbn; lia|right; by left|left; cbn; lia].
Qed.

Lemma ok_tokens racing s g : cleanup_ok racing s -> cleanup_ok racing (cu_set_tokens ({[g]} ∪ cu_tokens s) s).
Proof.
  intros []. split; cbn; try done. intros Hrc Hst Hca. destruct (ok_armed0 Hrc Hst Hca) as [?|[?|[?|(w & pc & H1 & H2 & H3 & H4)]]];
    [by left|by right; left|by right; right; left|]. right. right. right. exists w, pc. split_and_all; [done..|].
  split; [done|]. destruct H4; [left; set_solver|by right].
Qed.

Lemma ok_sends_drop s sends : cleanup_ok true s -> cleanup_ok true (cu_set_calls (cu_reading s) (cu_signals s) sends (cu_cancels s) s).
Proof. intros []. by split. Qed.

Lemma ok_cancelled racing s g cancels : cleanup_ok racing s ->
  cleanup_ok racing (cu_set_cancelled ({[g]} ∪ cu_cancelled s) (cu_set_calls (cu_reading s) (cu_signals s) (cu_sends s) cancels s)).
Proof.
  intros []. split; cbn; try done; [intros; set_solver|]. intros Hrc Hst Hca. apply (ok_armed0 Hrc Hst). cbn in Hca. set_solver.
Qed.

(** A worker is started. *)
Lemma ok_spawn racing s : cleanup_ok racing s -> cu_started s = true -> cu_workerRunning s = false ->
  let s' := cu_set_worker true (Some (cu_fresh s))
              (cu_set_workers (<[cu_fresh s := (cu_cleanupWake s, WLoop)]> (cu_workers s)) (Datatypes.S (cu_fresh s)) s) in
  cleanup_ok racing s'.
Proof.
  intros Hok Hs Hr. assert (Hnone : cu_workerDone s = None).
  { destruct (cu_workerDone s) eqn:E; [|done]. by rewrite (ok_running _ _ Hok), E in Hr. }
  assert (Hnew : cu_workers s !! cu_fresh s = None).
  { destruct (cu_workers s !! cu_fresh s) eqn:E; [|done]. pose proof (ok_fresh _ _ Hok (cu_fresh s) (mk_is_Some _ _ E)). lia. }
  destruct Hok. split; cbn; try done.
  - intros w [-> | [_ Hw%ok_fresh0]]%lookup_insert_is_Some; lia.
  - intros w [= <-]. exists (cu_cleanupWake s), WLoop. by rewrite lookup_insert_eq.
  - intros w g pc [[<- _]|[_ Hw]]%lookup_insert_Some Hpc; [done|]. specialize (ok_work0 _ _ _ Hw Hpc). congruence.
  - intros w g [= <-]. by rewrite lookup_insert_eq.
  - intros _ w g pc _ [= <-]. rewrite lookup_insert_eq. congruence.
  - intros _ _ _. right. right. right. exists (cu_fresh s), WLoop. split_and_all; [done|cbn; by rewrite lookup_insert_eq|]. split; [done|by right].
Qed.

(** The start of a call of [signalCleanup], or its end without a worker to start. *)
Lemma ok_calls racing s signals sends : cleanup_ok racing s -> (racing = false -> sends = []) ->
  (racing = false -> armed (cu_set_calls (cu_reading s) signals sends (cu_cancels s) s)) ->
  cleanup_ok racing (cu_set_calls (cu_reading s) signals sends (cu_cancels s) s).
Proof. intros [] Hs Ha. by split. Qed.

Lemma owner_covers s : cleanup_ok false s -> cu_started s = true -> cu_cleanupWake s ∉ cu_cancelled s ->
  cu_workerDone s <> None -> cu_cleanupWake s ∈ cu_tokens s ->
  exists w pc, cu_workerDone s = Some w /\ cu_workers s !! w = Some (cu_cleanupWake s, pc) /\ covers s (cu_cleanupWake s) pc.
Proof.
  intros Hok Hst Hca Hw Ht. destruct (cu_workerDone s) as [w|] eqn:E; [|done].
  destruct (ok_owner _ _ Hok w E) as (g & pc & Hwk & Hpc).
  assert (g = cu_cleanupWake s) as -> by (by eapply (ok_same _ _ Hok)).
  exists w, pc. split_and_all; [done..|]. split; [|by left].
  destruct pc; try done. exfalso. apply Hca. by eapply (ok_leaving _ _ Hok).
Qed.

Lemma ok_signal racing s s' : cleanup_ok racing s -> cleanup_step racing EvSignal s = Some s' -> cleanup_ok racing s'.
Proof.
  intros Hok Hstep. cbn [cleanup_step] in Hstep. destruct (cu_signals s) as [|n]; [done|]. injection Hstep as <-.
  set (s0 := cu_set_calls (cu_reading s) n (cu_sends s) (cu_cancels s) s).
  assert (Hquiet : cu_started s = false \/ cu_cleanupWake s ∈ cu_cancelled s -> cleanup_ok racing s0 /\ signal_section s0 = s0).
  { intros Hq. split.
    - apply ok_calls; [done|apply Hok|]. intros _ Hst Hca. cbn in *. destruct Hq; [congruence|done].
    - unfold signal_section. cbn. rewrite (ok_ctx _ _ Hok). destruct (cu_started s) eqn:Hs; [|done]. destruct Hq as [?|Hq]; [done|].
      cbn. by rewrite bool_decide_eq_true_2. }
  destruct (cu_started s) eqn:Hs; [destruct (decide (cu_cleanupWake s ∈ cu_cancelled s)) as [Hc|Hc]|].
  1,3: destruct Hquiet as [Hok0 ->]; [by auto|]; destruct racing; [done|]; unfold send_wake;
    by rewrite (ok_sends _ _ Hok0).
  set (s1 := if cu_workerRunning s then s
    else cu_set_worker true (Some (cu_fresh s))
           (cu_set_workers (<[cu_fresh s := (cu_cleanupWake s, WLoop)]> (cu_workers s)) (Datatypes.S (cu_fresh s)) s)).
  assert (Hok1 : cleanup_ok racing s1) by (subst s1; destruct (cu_workerRunning s) eqn:Hr; [done|by apply ok_spawn]).
  assert (Hd : cu_workerDone s1 <> None).
  { subst s1. destruct (cu_workerRunning s) eqn:Hr; [|done]. rewrite (ok_running _ _ Hok) in Hr.
    apply bool_decide_eq_true in Hr as [w Hw]. by rewrite Hw. }
  assert (E : signal_section s0 = cu_set_calls (cu_reading s1) n (cu_cleanupWake s :: cu_sends s) (cu_cancels s1) s1).
  { unfold signal_section. cbn. rewrite (ok_ctx _ _ Hok), Hs. cbn. rewrite bool_decide_eq_false_2 by done.
    subst s1. by destruct (cu_workerRunning s). }
  rewrite E. clear E. destruct racing; [by apply ok_calls|]. unfold send_wake. cbn [cu_sends cu_set_calls lookup list_lookup default].
  rewrite (ok_sends _ _ Hok eq_refl). cbn.
  assert (Hw : cu_cleanupWake s1 = cu_cleanupWake s) by (subst s1; by destruct (cu_workerRunning s)).
  clearbody s1. set (s2 := cu_set_tokens ({[cu_cleanupWake s]} ∪ cu_tokens s1) s1).
  assert (Hok2 : cleanup_ok false s2) by (by apply ok_tokens).
  change (cleanup_ok false (cu_set_calls (cu_reading s2) n [] (cu_cancels s2) s2)).
  apply ok_calls; [done|done|]. intros _ Hst Hca. right. right. right.
  apply (owner_covers s2); [done..|]. cbn. rewrite Hw. set_solver.
Qed.

Lemma ok_stop racing s : cleanup_ok racing s -> cleanup_ok racing (Stop s).
Proof. intros Hok. unfold Stop. destruct (cu_started s) eqn:Hs; [|done]. destruct Hok. split; try done. Qed.

Lemma lookup_put s w g pc w' : cu_workers (put_worker w g pc s) !! w' = if decide (w' = w) then Some (g, pc) else cu_workers s !! w'.
Proof. cbn. destruct (decide (w' = w)) as [->|]; [by rewrite lookup_insert_eq|by rewrite lookup_insert_ne]. Qed.

(** A worker at work moves on. *)
Lemma ok_put racing s w g pc pc' : cleanup_ok racing s -> cu_workers s !! w = Some (g, pc) -> at_work pc = true -> pc' <> WClose ->
  (pc' = WLeave -> g ∈ cu_cancelled s) -> (racing = false -> armed (put_worker w g pc' s)) -> cleanup_ok racing (put_worker w g pc' s).
Proof.
  intros Hok Hw Hpc Hpc' Hl Ha. pose proof (ok_work _ _ Hok _ _ _ Hw Hpc) as Hd. destruct Hok. split; try done.
  - intros w'. rewrite lookup_put. case_decide; [subst; intros _; apply ok_fresh0; by eexists|apply ok_fresh0].
  - intros w' Hw'. rewrite lookup_put. case_decide; [by exists g, pc'|by apply ok_owner0].
  - intros w' g' pc''. rewrite lookup_put. case_decide; [by subst|apply ok_work0].
  - intros w' g' Hw'. rewrite lookup_put. case_decide; [intros [= <- ->]; by apply Hl|by apply ok_leaving0].
  - intros Hr w' g' pc'' Hs Hw'. rewrite lookup_put. case_decide; [intros [= <- _]; subst; by eapply ok_same0|by eapply ok_same0].
Qed.

Lemma put_armed s w g pc pc' : cleanup_ok false s -> cu_workers s !! w = Some (g, pc) -> at_work pc = true ->
  covers s g pc' \/ claims_of s = ∅ \/ g ∈ cu_cancelled s -> armed (put_worker w g pc' s).
Proof.
  intros Hok Hw Hpc Hc Hst Hca. pose proof (ok_work _ _ Hok _ _ _ Hw Hpc) as Hd.
  assert (g = cu_cleanupWake s) as -> by (by eapply (ok_same _ _ Hok)).
  right. right. destruct Hc as [Hc|[Hc|Hc]]; [right|by left|done]. exists w, pc'. rewrite lookup_put. by rewrite decide_True.
Qed.

Lemma ok_wakes racing s w g pc : cleanup_ok racing s -> cu_workers s !! w = Some (g, pc) -> at_work pc = true ->
  cleanup_ok racing (put_worker w g WLoop (cu_set_tokens (cu_tokens s ∖ {[g]}) s)).
Proof.
  intros Hok Hw Hpc. assert (Hp : cleanup_ok racing (put_worker w g WLoop s)).
  { eapply ok_put; [done..|]. intros ->. eapply put_armed; [done..|]. left. split; [done|by right]. }
  pose proof (ok_work _ _ Hok _ _ _ Hw Hpc) as Hd. destruct Hp. split; try done.
  intros Hr Hst Hca. subst. assert (g = cu_cleanupWake s) as -> by (by eapply (ok_same _ _ Hok)).
  right. right. right. exists w, WLoop. cbn. rewrite lookup_insert_eq. split_and_all; [done..|]. split; [done|by right].
Qed.

(** What the select of a waiting worker does. *)
Lemma ok_select racing s w g pc (timer : bool) pc' sel s' : cleanup_ok racing s -> cu_workers s !! w = Some (g, pc) -> at_work pc = true ->
  pc' = WLoop \/ pc' = WEvict ->
  match sel with
  | SelCtx => if bool_decide (g ∈ cu_cancelled s) then Some (put_worker w g WLeave s) else None
  | SelWake => if bool_decide (g ∈ cu_tokens s) then Some (put_worker w g WLoop (cu_set_tokens (cu_tokens s ∖ {[g]}) s)) else None
  | SelTimer => if timer then Some (put_worker w g pc' s) else None
  end = Some s' -> cleanup_ok racing s'.
Proof.
  intros Hok Hw Hpc Hpc' Hstep. destruct sel.
  - destruct (bool_decide _) eqn:Hc; [|done]. injection Hstep as <-. bool_to_prop.
    eapply ok_put; [done..|]. intros ->. eapply put_armed; eauto.
  - destruct (bool_decide _) eqn:Hc; [|done]. injection Hstep as <-. by eapply ok_wakes.
  - destruct timer; [|done]. injection Hstep as <-. destruct Hpc' as [-> | ->];
      (eapply ok_put; [done..|]; intros ->; eapply put_armed; [done..|]; left; split; [done|by right]).
Qed.

Lemma ok_evict racing s w g io : cleanup_ok racing s -> cu_workers s !! w = Some (g, WEvict) ->
  let y := cu_sys s in
  cleanup_ok racing (put_worker w g WLoop (cu_set_sys (mkSystem (cs_DeleteExpired io (sy_now y) (sy_store y)) (sy_handles y) (sy_now y)) s)).
Proof.
  intros Hok Hw y. assert (Hp : cleanup_ok racing (put_worker w g WLoop s)).
  { eapply ok_put; [done..|]. intros ->. eapply put_armed; [done..|]. left. split; [done|by right]. }
  pose proof (ok_work _ _ Hok _ _ _ Hw eq_refl) as Hd.
  destruct (cs_DeleteExpired_spec io (sy_now y) (sy_store y)) as [Hdel _]. destruct Hp. split; try done.
  - intros k c Hc. unfold claims_of in Hc. cbn in Hc. destruct (Hdel k) as [E|[E _]]; rewrite E in Hc; [|done].
    by apply (ok_positive0 k).
  - intros Hr Hst Hca. subst. assert (g = cu_cleanupWake s) as -> by (by eapply (ok_same _ _ Hok)).
    right. right. right. exists w, WLoop. cbn. rewrite lookup_insert_eq. split_and_all; [done..|]. split; [done|by right].
Qed.

(** The worker gives up its place: it was cancelled, or there is nothing for it to do. *)
Lemma ok_retire racing s w g pc pc' : cleanup_ok racing s -> cu_workers s !! w = Some (g, pc) -> cu_workerDone s = Some w ->
  at_work pc' = false ->
  (racing = false -> cu_started s = true -> cu_reading s <> [] \/ (0 < cu_signals s)%nat \/ claims_of s = ∅ \/ g ∈ cu_cancelled s) ->
  cleanup_ok racing (put_worker w g pc' (cu_set_worker false None s)).
Proof.
  intros Hok Hw Hd Hpc' Hq. destruct (Hok). split; try done.
  - intros w'. rewrite lookup_put. case_decide; [subst; intros _; apply ok_fresh0; by eexists|apply ok_fresh0].
  - intros w' g' pc''. rewrite lookup_put. case_decide; [intros [= <- <-] ?; congruence|]. intros Hw' Hpc''.
    specialize (ok_work0 _ _ _ Hw' Hpc''). congruence.
  - intros Hr Hst Hca. cbn in Hst, Hca. subst. assert (g = cu_cleanupWake s) as -> by (by eapply (ok_same _ _ Hok)).
    destruct (Hq eq_refl Hst) as [?|[?|[?|?]]]; [by left|by right; left|by right; right; left|done].
Qed.

Lemma ok_worker racing s w io sel s' : cleanup_ok racing s -> cleanup_worker w io sel s = Some s' -> cleanup_ok racing s'.
Proof.
  intros Hok Hstep. unfold cleanup_worker in Hstep. destruct (cu_workers s !! w) as [[g pc]|] eqn:Hw; [|done].
  destruct pc as [|until| |next| | |].
  - injection Hstep as <-. pose proof (cs_EarliestExpiry_spec io (sy_store (cu_sys s)) (ok_positive _ _ Hok)) as Hspec.
    destruct (cs_EarliestExpiry _ _) as [[t|]|]; (eapply ok_put; [done..|]; intros ->; eapply put_armed; [done..|]).
    + left. split; [done|]. right. apply Hspec.
    + right. left. exact Hspec.
    + left. split; [done|]. by right.
  - eapply ok_select; [done|exact Hw|done|by left|exact Hstep].
  - pose proof (ok_work _ _ Hok _ _ _ Hw eq_refl) as Hd. injection Hstep as <-. rewrite bool_decide_eq_true_2 by done. cbn.
    destruct (bool_decide (g ∈ cu_tokens s)) eqn:Ht; [by eapply ok_wakes|]. bool_to_prop.
    eapply ok_retire; [done..|]. intros -> Hst.
    destruct (decide (cu_cleanupWake s ∈ cu_cancelled s)) as [Hca|Hca].
    + right. right. right. by rewrite (ok_same _ _ Hok eq_refl _ _ _ Hst Hd Hw).
    + destruct (ok_armed _ _ Hok eq_refl Hst Hca) as [?|[?|[?|(w' & pc & Hd' & Hw' & _ & Hc)]]]; [by left|by right; left|by right; right; left|].
      rewrite Hd in Hd'. injection Hd' as <-. rewrite Hw in Hw'. injection Hw' as -> <-. destruct Hc; [done|by right; right; left].
  - eapply ok_select; [done|exact Hw|done|by right|exact Hstep].
  - injection Hstep as <-. destruct (has_repo && _); [|by apply ok_evict].
    replace (cu_set_sys (cu_sys s) s) with s by (by destruct s).
    eapply ok_put; [done..|]. intros ->. eapply put_armed; [done..|]. left. split; [done|by right].
  - injection Hstep as <-. destruct (bool_decide (cu_workerDone s = Some w)) eqn:Hd; bool_to_prop.
    + eapply ok_retire; [done..|]. intros _ _. right. right. right. by eapply (ok_leaving _ _ Hok).
    + destruct (Hok). split; try done.
      * intros w'. rewrite lookup_put. case_decide; [subst; intros _; apply ok_fresh0; by eexists|apply ok_fresh0].
      * intros w' Hw'. rewrite lookup_put. case_decide; [by subst|by apply ok_owner0].
      * intros w' g' pc''. rewrite lookup_put. case_decide; [by intros [= <- <-]|apply ok_work0].
      * intros w' g' Hw'. rewrite lookup_put. case_decide; [by subst|by apply ok_leaving0].
      * intros Hr w' g' pc'' Hs Hw'. rewrite lookup_put. case_decide; [by subst|by eapply ok_same0].
      * intros Hr Hst Hca. destruct (ok_armed0 Hr Hst Hca) as [?|[?|[?|(w' & pc & Hd' & Hw' & Hc)]]]; [by left|by right; left|by right; right; left|].
        right. right. right. exists w', pc. rewrite lookup_put. case_decide; [by subst|done].
  - injection Hstep as <-. assert (Hd : cu_workerDone s <> Some w).
    { intros Hd. destruct (ok_owner _ _ Hok _ Hd) as (g' & pc & Hw' & Hpc). congruence. }
    destruct (Hok). split; try done.
    * intros w' Hw'. cbn in Hw'. apply lookup_delete_is_Some in Hw' as [_ Hw']. by apply ok_fresh0.
    * intros w' Hw'. destruct (ok_owner0 _ Hw') as (g' & pc & Hw'' & Hpc). exists g', pc. cbn. by rewrite lookup_delete_ne by (intros ->; by apply Hd).
    * intros w' g' pc Hw'. cbn in Hw'. apply lookup_delete_Some in Hw' as [_ Hw']. by eapply ok_work0.
    * intros w' g' Hd' Hw'. cbn in Hw'. apply lookup_delete_Some in Hw' as [_ Hw']. by eapply ok_leaving0.
    * intros Hr w' g' pc Hs Hd' Hw'. cbn in Hw'. apply lookup_delete_Some in Hw' as [_ Hw']. by eapply ok_same0.
    * intros Hr Hst Hca. destruct (ok_armed0 Hr Hst Hca) as [?|[?|[?|(w' & pc & Hd' & Hw' & Hc)]]]; [by left|by right; left|by right; right; left|].
      right. right. right. exists w', pc. cbn. by rewrite lookup_delete_ne by (intros ->; by apply Hd).
Qed.

Lemma cleanup_step_ok racing ev s s' : cleanup_ok racing s -> cleanup_step racing ev s = Some s' -> cleanup_ok racing s'.
Proof.
  intros Hok Hstep. destruct ev as [io lag op| |i io| |i| |i| |w io sel].
  - by eapply ok_op.
  - by eapply ok_start.
  - by eapply ok_start_read.
  - by eapply ok_signal.
  - cbn in Hstep. unfold send_wake in Hstep. destruct (cu_sends s !! i) as [g|] eqn:E; [|done]. injection Hstep as <-.
    destruct racing; [|by rewrite (ok_sends _ _ Hok eq_refl) in E]. exact (ok_tokens true _ g (ok_sends_drop s (delete i (cu_sends s)) Hok)).
  - injection Hstep as <-. by apply ok_stop.
  - cbn in Hstep. destruct (cu_cancels s !! i) as [g|]; [|done]. injection Hstep as <-. by apply ok_cancelled.
  - cbn in Hstep. destruct (cu_runCtx s) as [g|]; [|done]. injection Hstep as <-.
    pose proof (ok_cancelled racing s g (cu_cancels s) Hok) as Hc. by destruct s.
  - by eapply ok_worker.
Qed.

Lemma cleanup_reachable_ok racing start s : cleanup_reachable racing start s -> cleanup_ok racing s.
Proof. induction 1; [apply ok_new|by eapply cleanup_step_ok]. Qed.

Lemma cleanup_run_reachable racing evs start : forall s s', cleanup_reachable racing start s -> cleanup_run racing evs s = Some s' ->
  cleanup_reachable racing start s'.
Proof.
  induction evs as [|ev evs IH]; intros s s' Hs Hr; cbn in Hr; [by simplify_eq|].
  destruct (cleanup_step racing ev s) as [s1|] eqn:E; [|done]. eapply IH; [|exact Hr]. by eapply cleanup_next.
Qed.

(** ** What it is for *)

(** Nothing is pending but the work of the worker. *)
Definition settled (s : cleanup) : Prop :=
  cu_started s = true /\ cu_cleanupWake s ∉ cu_cancelled s /\ cu_reading s = [] /\ cu_signals s = 0%nat.


(** What is reached by the worker alone, with a database that answers, and by the clock. *)
Definition alone (w : nat) (ev : cu_event) : Prop :=
  match ev with EvWorker w' io _ => w' = w /\ io = true | EvOp _ _ (OpTick _) => True | _ => False end.
Definition evicts (w : nat) (n : nat) (s : cleanup) : Prop :=
  exists evs s', (length evs <= n)%nat /\ Forall (alone w) evs /\ cleanup_run false evs s = Some s' /\
    forall k c, claims_of s' !! k = Some c -> cs_tick (sy_now (cu_sys s)) <= cl_expires c.

Lemma evicts_after ev w n s s1 : alone w ev -> cleanup_step false ev s = Some s1 -> sy_now (cu_sys s) <= sy_now (cu_sys s1) ->
  evicts w n s1 -> evicts w (Datatypes.S n) s.
Proof.
  intros Ha Hs Hnow (evs & s' & Hlen & Hall & Hrun & Hout). exists (ev :: evs), s'. split_and_all.
  - cbn. lia.
  - by constructor.
  - cbn. by rewrite Hs.
  - intros k c Hc. etrans; [by apply cs_tick_mono|by eapply Hout].
Qed.

Lemma evicts_now w n s : (forall k c, claims_of s !! k = Some c -> cs_tick (sy_now (cu_sys s)) <= cl_expires c) -> evicts w n s.
Proof. intros Hc. exists [], s. split_and_all; [cbn; lia|constructor|done|done]. Qed.

Lemma evicts_at_evict w g n s : cu_workers s !! w = Some (g, WEvict) -> g ∉ cu_cancelled s -> evicts w (Datatypes.S n) s.
Proof.
  intros Hw Hg. eapply (evicts_after (EvWorker w true SelTimer)); [done|cbn; unfold cleanup_worker; by rewrite Hw| |].
  - by rewrite bool_decide_eq_false_2, andb_false_r.
  - rewrite bool_decide_eq_false_2, andb_false_r by done. apply evicts_now. intros k c Hc.
    by eapply (proj2 (cs_DeleteExpired_spec true (sy_now (cu_sys s)) (sy_store (cu_sys s))) eq_refl k).
Qed.

Lemma evicts_at_wait w g next n s : cu_workers s !! w = Some (g, WWait next) -> g ∉ cu_cancelled s ->
  (forall k c, claims_of s !! k = Some c -> cs_tick next <= cl_expires c) -> evicts w (2 + n) s.
Proof.
  intros Hw Hg Hc. destruct (Z.leb_spec next (sy_now (cu_sys s))) as [Hn|Hn].
  - eapply (evicts_after (EvWorker w true SelTimer) _ _ _ (put_worker w g WEvict s)); [done| |done|].
    + cbn. unfold cleanup_worker. rewrite Hw. by destruct (Z.leb_spec next (sy_now (cu_sys s))); [|lia].
    + eapply evicts_at_evict; [|exact Hg]. cbn. by rewrite lookup_insert_eq.
  - apply evicts_now. intros k c Hk. etrans; [apply cs_tick_mono; by apply Z.lt_le_incl|by eapply Hc].
Qed.

Lemma evicts_at_loop w g n s : cu_workers s !! w = Some (g, WLoop) -> g ∉ cu_cancelled s ->
  (forall k c, claims_of s !! k = Some c -> 0 < cl_expires c) -> evicts w (3 + n) s.
Proof.
  intros Hw Hg Hpos. pose proof (cs_EarliestExpiry_spec true (sy_store (cu_sys s)) Hpos) as Hspec.
  destruct (cs_EarliestExpiry true _) as [[t|]|] eqn:E; [|apply evicts_now; intros k c; unfold claims_of; by rewrite Hspec, lookup_empty|done].
  eapply (evicts_after (EvWorker w true SelTimer) _ _ _ (put_worker w g (WWait t) s)); [done| |done|].
  - cbn. unfold cleanup_worker. by rewrite Hw, E.
  - eapply evicts_at_wait; [cbn; by rewrite lookup_insert_eq|exact Hg|apply Hspec].
Qed.

Lemma evicts_by_token w g pc n s : cu_workers s !! w = Some (g, pc) -> match pc with WNone | WErr _ | WWait _ => True | _ => False end ->
  (pc = WNone -> cu_workerDone s = Some w) -> g ∈ cu_tokens s -> g ∉ cu_cancelled s ->
  (forall k c, claims_of s !! k = Some c -> 0 < cl_expires c) -> evicts w (4 + n) s.
Proof.
  intros Hw Hpc Hd Ht Hg Hpos.
  eapply (evicts_after (EvWorker w true SelWake) _ _ _ (put_worker w g WLoop (cu_set_tokens (cu_tokens s ∖ {[g]}) s))); [done| |done|].
  - cbn. unfold cleanup_worker. rewrite Hw. destruct pc; try done; rewrite ?(bool_decide_eq_true_2 (g ∈ cu_tokens s)) by done; try done.
    by rewrite bool_decide_eq_true_2 by auto.
  - eapply evicts_at_loop; [cbn; by rewrite lookup_insert_eq|exact Hg|exact Hpos].
Qed.

(** And the worker does its work: from any such state, if the database answers,
    the worker alone and the clock need at most five steps until no claim is left
    that had expired. *)
Theorem cleanup_evicts start s : cleanup_reachable false start s -> settled s -> millisecond <= sy_now (cu_sys s) ->
  exists w, evicts w 5 s.
Proof.
  intros Hs (H1 & H2 & H3 & H4) Hnow. destruct (decide (claims_of s = ∅)) as [He|Hne].
  { exists 0%nat. apply evicts_now. intros k c. by rewrite He, lookup_empty. }
  apply cleanup_reachable_ok in Hs as Hok. pose proof (ok_positive _ _ Hok) as Hpos.
  destruct (ok_armed _ _ Hok eq_refl H1 H2) as [?|[?|[?|(w & pc & Hd & Hw & Hpc & Hc)]]]; [done|lia|done|]. exists w.
  destruct (decide (cu_cleanupWake s ∈ cu_tokens s)) as [Ht|Ht].
  { destruct pc; try done; try (by eapply (evicts_by_token _ _ _ 1)); [by eapply (evicts_at_loop _ _ 2)|by eapply (evicts_at_evict _ _ 4)]. }
  destruct Hc as [Hc|Hc]; [done|]. destruct pc as [|until| |next| | |]; try done.
  - by eapply (evicts_at_loop _ _ 2).
  - eapply (evicts_after (EvOp true 0 (OpTick (Z.to_N (until - sy_now (cu_sys s)))))); [done| | |].
    + cbn. destruct (Z.ltb_spec (sy_now (cu_sys s) - 0) millisecond); [lia|]. reflexivity.
    + cbn. lia.
    + set (s1 := cu_set_sys _ s). eapply (evicts_after (EvWorker w true SelTimer) _ _ _ (put_worker w (cu_cleanupWake s) WLoop s1)); [done| |done|].
      * cbn. unfold cleanup_worker. subst s1. cbn. rewrite Hw. cbn.
        destruct (Z.leb_spec until (sy_now (cu_sys s) + Z.of_N (Z.to_N (until - sy_now (cu_sys s))))); [done|lia].
      * eapply (evicts_at_loop _ (cu_cleanupWake s) 0); [cbn; by rewrite lookup_insert_eq|exact H2|exact Hpos].
  - by eapply (evicts_at_wait _ _ _ 3).
  - by eapply (evicts_at_evict _ _ 4).
Qed.
End Cleanup.

(** ** Races *)

(** A worker drains a first claim, is woken by the token of that claim, and finds nothing. *)
Definition drained_worker : list cu_event :=
  [EvStart; EvStartRead 0 true; EvOp true 0 (OpCheckAndSet "a" second); EvSignal; EvWorker 0 true SelTimer;
   EvOp true 0 (OpTick 2000000000); EvWorker 0 true SelTimer; EvWorker 0 true SelTimer].
Definition nothing_left : list cu_event := [EvWorker 0 true SelTimer; EvWorker 0 true SelTimer; EvWorker 0 true SelTimer].

Definition late_send : list cu_event :=
  drained_worker ++ EvSend 0 :: nothing_left ++
  [EvOp true 0 (OpCheckAndSet "b" second); EvSignal;
   EvWorker 0 true SelTimer; EvWorker 0 true SelTimer; EvWorker 0 true SelTimer; EvSend 0].

(** A [Start] while the worker of the generation before has been cancelled but still runs. *)
Definition early_start : list cu_event :=
  [EvStart; EvStartRead 0 true; EvOp true 0 (OpCheckAndSet "a" second); EvSignal; EvSend 0; EvWorker 0 true SelTimer;
   EvStop; EvCancel 0; EvWorker 0 true SelCtx;
   EvStart; EvStartRead 0 true; EvSignal; EvSend 0; EvWorker 0 true SelTimer; EvWorker 0 true SelTimer].

#[global] Instance settled_dec {S} `{ClaimOps S} (s : cleanup (S:=S)) : Decision (settled s).
Proof. unfold settled. apply _. Defined.

(** Started, nothing under way, a claim to expire, and no worker. *)
Definition abandoned (s : cleanup (S:=gmap string entry)) : Prop :=
  settled s /\ cu_sends s = [] /\ cu_workers s = ∅ /\ cu_workerRunning s = false /\ claims_of s <> ∅.
#[global] Instance abandoned_dec s : Decision (abandoned s).
Proof. unfold abandoned. apply _. Defined.

Lemma run_checked {A} (P : A -> Prop) `{forall a, Decision (P a)} (o : option A) :
  match o with Some a => bool_decide (P a) | None => false end = true -> exists a, o = Some a /\ P a.
Proof. destruct o as [a|]; [|done]. intros Hb%bool_decide_eq_true. by exists a. Qed.

(** [signalCleanup] sends after it has given up its lock. A worker that ends in between
    misses the token, and nobody expires the claim that was just made. A [Start] that
    comes before the last worker has ended finds [workerRunning] set and starts none. *)
Lemma cleanup_abandoned :
  (exists s, cleanup_run second false true late_send (new_cleanup second) = Some s /\ abandoned s) /\
  (exists s, cleanup_run second false true early_start (new_cleanup second) = Some s /\ abandoned s).
Proof. split; apply (run_checked abandoned); vm_compute; reflexivity. Qed.

(** ** Witnesses *)

Definition one_claim : list cu_event :=
  [EvStart; EvStartRead 0 true; EvOp true 0 (OpCheckAndSet "a" second); EvSignal; EvWorker 0 true SelTimer].

(** The manager waits for its one claim to expire. *)
Lemma one_claim_waits : exists s, cleanup_run second true false one_claim (new_cleanup (S:=gmap string row) second) = Some s /\
  settled s /\ claims_of s <> ∅ /\ millisecond <= sy_now (cu_sys s).
Proof. apply (run_checked (fun s => settled s /\ claims_of s <> ∅ /\ millisecond <= sy_now (cu_sys s))). vm_compute. reflexivity. Qed.


Lemma cleanup_evicts_witness : exists s, cleanup_run second true false one_claim (new_cleanup (S:=gmap string row) second) = Some s /\
  exists w, evicts second true w 5 s.
Proof.
  destruct one_claim_waits as (s & E & Hs & _ & Hnow). exists s. split; [done|].
  apply (cleanup_evicts second true second s); [|done|done].
  eapply cleanup_run_reachable; [apply cleanup_init|exact E].
Defined.
