(* ===== verification/Executor.v ===== *)
(** * The physical executor

    Models [internal/taskengine/permit.go] and [internal/taskengine/executor.go]:
    the permit a worker must claim before it runs anything, and
    [executeAssignment], which runs one assignment and classifies what came out
    of it. A permit is the record [permit] of [EngineState] with the cell of its
    life: reserved, started, released, and the [sync.Once] around [onRelease].
    What the handler does is a parameter: it returns an error or panics, given
    the context it runs in and its timeout. *)

From S2P Require Import Prelude.
From S2P Require Import Execution.
From S2P Require Import Tasks.
From S2P Require Import EngineState.

(** ** Permits ([permit.go]) *)

Definition errPermitAlreadyUsed := sentinel "execution permit already used".
Definition errPermitExpired := sentinel "execution permit expired".
Definition errPermitInvalid := sentinel "execution permit does not match assignment".

Inductive permit_phase := PermitReserved | PermitStarted | PermitReleased.

#[global] Instance permit_phase_eq_dec : EqDecision permit_phase.
Proof. solve_decision. Defined.

(** [pc_released]: [once] is spent; [pc_hooks]: how often [onRelease] ran. *)
Record permit_cell := mkCell {
  pc_permit : permit;
  pc_phase : permit_phase;
  pc_onRelease : option closure;
  pc_released : bool;
  pc_hooks : Z
}.

Definition newPermit (ptr : nat) (pool : PoolID) (taskID : TaskID) (epoch : Z)
    (onRelease : option closure) : permit_cell :=
  mkCell (mkPermit ptr pool taskID epoch) PermitReserved onRelease false 0.

Definition permit_use (spec : WorkSpec) (p : option permit_cell) : option goerror * option permit_cell :=
  match p with
  | None => (Some errPermitInvalid, None)
  | Some c =>
      if bool_decide (pm_pool (pc_permit c) <> ws_Pool spec)
         || bool_decide (pm_taskID (pc_permit c) <> ws_ID spec)
      then (Some errPermitInvalid, p)
      else
        match pc_phase c with
        | PermitReserved =>
            (None, Some (mkCell (pc_permit c) PermitStarted (pc_onRelease c) (pc_released c) (pc_hooks c)))
        | PermitReleased => (Some errPermitExpired, p)
        | PermitStarted => (Some errPermitAlreadyUsed, p)
        end
  end.

Definition permit_release (p : option permit_cell) : option permit_cell :=
  match p with
  | None => None
  | Some c =>
      let hooks := if pc_released c then pc_hooks c
        else match pc_onRelease c with Some _ => pc_hooks c + 1 | None => pc_hooks c end in
      Some (mkCell (pc_permit c) PermitReleased (pc_onRelease c) true hooks)
  end.

(** ** [executeAssignment] *)

(** What a handler does. *)
Inductive handler_outcome := HandlerReturns (err : option goerror) | HandlerPanics (recovered : string).

(** The context a handler runs in, with its timeout, [0] when it has none. *)
Record handler_run := mkRun { hr_ctx : option Context; hr_timeout : duration }.

Definition with_outcome (o : Outcome) (c : Cause) (d : Disposition) (r : TaskResult) : TaskResult :=
  mkResult (tr_TaskID r) (tr_AttemptID r) o c d (tr_StartedAt r) (tr_FinishedAt r) (tr_RetryAfter r)
    (tr_Output r) (tr_Failure r).
Definition with_times (started finished : time) (r : TaskResult) : TaskResult :=
  mkResult (tr_TaskID r) (tr_AttemptID r) (tr_Outcome r) (tr_Cause r) (tr_Disposition r) started finished
    (tr_RetryAfter r) (tr_Output r) (tr_Failure r).
Definition with_retry (wait : duration) (r : TaskResult) : TaskResult :=
  mkResult (tr_TaskID r) (tr_AttemptID r) (tr_Outcome r) (tr_Cause r) (tr_Disposition r)
    (tr_StartedAt r) (tr_FinishedAt r) wait (tr_Output r) (tr_Failure r).

(** The switch on the error of the handler. *)
Definition classify_error (err : option goerror) (r : TaskResult) : TaskResult :=
  let semantics := SemanticsOf err in
  match err with
  | None => with_outcome OutcomeCompleted CauseNone DispositionSuccess r
  | Some e =>
      let failure := mkFailure (sem_Code semantics) (error_text e) "" in
      if decide (sem_Disposition semantics = DispositionHandled) then
        with_outcome OutcomeCompleted CauseNone DispositionHandled r
      else
        match errors_As retryAfterCarrier e with
        | Some wait =>
            let wait := if wait <? 0 then 0 else wait in
            tr_set_Failure failure (with_retry wait
              (with_outcome OutcomeFailed CauseRateLimited DispositionRetryable r))
        | None =>
            if errors_Is e context_DeadlineExceeded then
              tr_set_Failure failure
                (with_outcome OutcomeTimedOut CauseTimeout (sem_Disposition semantics) r)
            else if errors_Is e context_Canceled then
              tr_set_Failure failure
                (with_outcome OutcomeCancelled CauseUserCancel DispositionCancelled r)
            else
              tr_set_Failure failure (with_retry (sem_RetryAfter semantics)
                (with_outcome OutcomeFailed CauseNone (sem_Disposition semantics) r))
        end
  end.

(** The context the handler gets: its timeout, the metadata of a durable
    occurrence, the resources the engine holds for it. *)
Definition handler_context (ctx : Context) (spec : WorkSpec) : handler_run :=
  let timeout := if 0 <? ws_ExecutionTimeout spec then ws_ExecutionTimeout spec else 0 in
  let runCtx := match ws_Job spec with
    | Some _ => WithMetadata (Some ctx) (mkMetadata true)
    | None => ctx
    end in
  mkRun (WithHeldResources (Some runCtx) (ws_Resources spec)) timeout.

Section Execute.
Variable handler : closure -> handler_run -> handler_outcome.
(** The readings of the clock: at the deadline check, at the start, at the end. *)
Variables check_time start_time finish_time : time.

(** The result before the deferred functions; with the run of the handler, if
    it ran, and the text of its panic. *)
Definition execute_body (ctx : Context) (spec : WorkSpec) (grant : option permit_cell)
    (r : TaskResult) : TaskResult * option handler_run * option string * option permit_cell :=
  let '(err, grant) := permit_use spec grant in
  match err with
  | Some e =>
      (tr_set_Failure (mkFailure "lease_lost" (error_text e) "")
         (with_outcome OutcomeAbortedBeforeStart CauseLeaseLost DispositionRetryable r), None, None, grant)
  | None =>
  match ctx_err ctx with
  | Some e =>
      (tr_set_Failure (mkFailure "shutdown" (error_text e) "")
         (with_outcome OutcomeCancelled CauseShutdown DispositionCancelled r), None, None, grant)
  | None =>
  if negb (is_zero (ws_QueueDeadline spec)) && negb (before check_time (ws_QueueDeadline spec)) then
    (tr_set_Failure (mkFailure "queue_expired" "queue deadline expired before execution" "")
       (with_outcome OutcomeTimedOut CauseQueueExpired DispositionRetryable r), None, None, grant)
  else
  match ws_Handler spec with
  | None =>
      (tr_set_Failure (mkFailure ReasonUnknownHandler (error_text ErrUnknownHandler) "")
         (with_outcome OutcomeAbortedBeforeStart (tr_Cause r) DispositionPermanent r), None, None, grant)
  | Some h =>
      let run := handler_context ctx spec in
      let r := with_times start_time (tr_FinishedAt r) r in
      match handler h run with
      | HandlerPanics msg => (r, Some run, Some msg, grant)
      | HandlerReturns err => (classify_error err r, Some run, None, grant)
      end
  end end end.

(** The result, the run of the handler, and the permit afterwards. [onStarted]
    is called with the start time exactly when the handler runs. *)
Definition executeAssignment (ctx : Context) (spec : WorkSpec) (grant : option permit_cell)
    : TaskResult * option handler_run * option permit_cell :=
  let attempt := match ws_Job spec with Some job => or_AttemptID job | None => "" end in
  let r := mkResult (ws_ID spec) attempt OutcomeUnset "" DispositionUnset 0 0 0 None no_failure in
  let '(r, run, recovered, grant) := execute_body ctx spec grant r in
  let r := with_times (tr_StartedAt r) finish_time r in
  let r := match recovered with
    | None => r
    | Some msg => tr_set_Failure (mkFailure "panic" ("panic in task handler: " +:+ msg)%string "")
        (with_outcome OutcomePanic CausePanic DispositionInternal r)
    end in
  (r, run, permit_release grant).
End Execute.

(** ** Lemmas *)

(** The handler can be started under a permit. *)
Definition startable (check_time : time) (ctx : Context) (spec : WorkSpec) (grant : option permit_cell) : Prop :=
  (exists c, grant = Some c /\ pm_pool (pc_permit c) = ws_Pool spec /\
     pm_taskID (pc_permit c) = ws_ID spec /\ pc_phase c = PermitReserved) /\
  ctx_err ctx = None /\
  (ws_QueueDeadline spec <> 0 -> check_time < ws_QueueDeadline spec) /\
  is_Some (ws_Handler spec).

Lemma permit_use_ok spec p : (permit_use spec p).1 = None <->
  exists c, p = Some c /\ pm_pool (pc_permit c) = ws_Pool spec /\
    pm_taskID (pc_permit c) = ws_ID spec /\ pc_phase c = PermitReserved.
Proof.
  unfold permit_use. destruct p as [c|]; [|split; [done|by intros (? & ? & _)]].
  destruct (bool_decide _) eqn:E1; bool_to_prop; simpl.
  { split; [done|]. intros (? & [= <-] & ? & _). done. }
  destruct (bool_decide _) eqn:E2; bool_to_prop; simpl.
  { split; [done|]. intros (? & [= <-] & _ & ? & _). done. }
  destruct (pc_phase c) eqn:E3; simpl; split; try done.
  - intros _. exists c. split_and_all; try done; by apply dec_stable.
  - intros (? & [= <-] & _ & _ & ?). congruence.
  - intros (? & [= <-] & _ & _ & ?). congruence.
Qed.

Lemma deadline_open t d : negb (is_zero d) && negb (before t d) = false <-> (d <> 0 -> t < d).
Proof.
  unfold is_zero, before. destruct (Z.eqb_spec d 0), (Z.ltb_spec t d); simpl; split; intros; try done; lia.
Qed.

(** Claiming a permit leaves its release function alone. *)
Lemma permit_use_frame spec c : exists d, (permit_use spec (Some c)).2 = Some d /\
  pc_onRelease d = pc_onRelease c /\ pc_released d = pc_released c /\ pc_hooks d = pc_hooks c.
Proof.
  unfold permit_use. destruct (_ || _); [by exists c|]. destruct (pc_phase c); by eexists.
Qed.

Lemma permit_release_phase p c : permit_release p = Some c -> pc_phase c = PermitReleased /\ pc_released c = true.
Proof. destruct p; [|done]. by intros [= <-]. Qed.

(** What the body does, by whether the handler can be started. *)
Lemma execute_body_cases handler check_time start_time ctx spec grant r :
  let '(r', run, recovered, grant') := execute_body handler check_time start_time ctx spec grant r in
  grant' = (permit_use spec grant).2 /\ tr_TaskID r' = tr_TaskID r /\ tr_AttemptID r' = tr_AttemptID r /\
  ((startable check_time ctx spec grant /\
    exists h, ws_Handler spec = Some h /\ run = Some (handler_context ctx spec) /\
      tr_StartedAt r' = start_time /\
      match handler h (handler_context ctx spec) with
      | HandlerPanics msg => recovered = Some msg /\ r' = with_times start_time (tr_FinishedAt r) r
      | HandlerReturns err => recovered = None /\
          r' = classify_error err (with_times start_time (tr_FinishedAt r) r)
      end)
   \/ (~ startable check_time ctx spec grant /\ run = None /\ recovered = None /\
      tr_StartedAt r' = tr_StartedAt r /\
      tr_Outcome r' ∈ [OutcomeAbortedBeforeStart; OutcomeCancelled; OutcomeTimedOut])).
Proof.
  unfold execute_body. pose proof (permit_use_ok spec grant) as Hu.
  destruct (permit_use spec grant) as [err grant'] eqn:Eu. simpl in Hu.
  destruct err as [e|].
  { split_and_all; try done. right. split_and_all; try done; [|set_solver].
    intros [Hs _]. by apply Hu in Hs. }
  specialize (proj1 Hu eq_refl) as Hg.
  destruct (ctx_err ctx) as [e|] eqn:Ec.
  { split_and_all; try done. right. split_and_all; try done; [|set_solver].
    intros (_ & Hs & _). congruence. }
  destruct (negb (is_zero (ws_QueueDeadline spec)) && _) eqn:Ed.
  { split_and_all; try done. right. split_and_all; try done; [|set_solver].
    intros (_ & _ & Hs & _). apply (deadline_open _ _) in Hs. congruence. }
  pose proof (proj1 (deadline_open _ _) Ed) as Hd. clear Ed.
  destruct (ws_Handler spec) as [h|] eqn:Eh.
  2: { split_and_all; try done. right. split_and_all; try done; [|set_solver].
       intros (_ & _ & _ & Hs). rewrite Eh in Hs. by destruct Hs. }
  assert (Hs : startable check_time ctx spec grant) by (unfold startable; rewrite Eh; by eauto).
  assert (Hc : forall err s, tr_TaskID (classify_error err s) = tr_TaskID s /\
    tr_AttemptID (classify_error err s) = tr_AttemptID s /\
    tr_StartedAt (classify_error err s) = tr_StartedAt s).
  { intros err s. unfold classify_error. by repeat (case_match; simpl). }
  destruct (handler h (handler_context ctx spec)) as [err|msg] eqn:Er.
  - destruct (Hc err (with_times start_time (tr_FinishedAt r) r)) as (C1 & C2 & C3).
    rewrite C1, C2. split_and_all; try done. left. split; [done|]. exists h. rewrite Er. by split_and_all.
  - split_and_all; try done. left. split; [done|]. exists h. rewrite Er. by split_and_all.
Qed.

Lemma executeAssignment_fields handler t0 t1 t2 ctx spec grant :
  let '(res, run, grant') := executeAssignment handler t0 t1 t2 ctx spec grant in
  tr_TaskID res = ws_ID spec /\ tr_FinishedAt res = t2 /\
  tr_StartedAt res = (match run with Some _ => t1 | None => 0 end) /\
  grant' = permit_release (permit_use spec grant).2 /\
  (run = Some (handler_context ctx spec) /\ startable t0 ctx spec grant
   \/ run = None /\ ~ startable t0 ctx spec grant).
Proof.
  unfold executeAssignment. set (r0 := mkResult _ _ _ _ _ _ _ _ _ _).
  pose proof (execute_body_cases handler t0 t1 ctx spec grant r0) as H.
  destruct (execute_body _ _ _ _ _ _ r0) as [[[r run] recovered] g].
  destruct H as (-> & H1 & _ & [(Hs & h & _ & -> & H4 & _)|(Hs & -> & _ & H4 & _)]);
    destruct recovered; simpl; rewrite ?H1, ?H4; split_and_all; eauto.
Qed.

(** The held resources leave the metadata of a context. *)
Lemma CanDurablyYield_WithHeldResources ctx rs :
  CanDurablyYield (WithHeldResources ctx rs) = CanDurablyYield ctx.
Proof.
  revert ctx. induction rs as [|r rs IH]; intros ctx; simpl; [done|]. rewrite IH.
  case_match; [|done]. unfold WithHeldResource. case_match; destruct ctx; done.
Qed.

(** ** Properties *)

(** C38. A permit starts its task at most once: the handler runs exactly when the
    worker holds the reserved permit of this task and pool, the context is live,
    the queue deadline is not reached and there is a handler; [onStarted] gets
    the start time of the result exactly then. After the call the permit is
    released, and [onRelease] ran at most once: whatever assignment is executed
    under it next, its handler does not run and the result says so. *)
Theorem executeAssignment_once (handler handler' : closure -> handler_run -> handler_outcome)
    (t0 t1 t2 t0' t1' t2' : time) (ctx ctx' : Context) (spec spec' : WorkSpec) (c : permit_cell) :
  pc_released c = false -> pc_hooks c = 0 ->
  let '(res, run, grant) := executeAssignment handler t0 t1 t2 ctx spec (Some c) in
  (is_Some run <-> startable t0 ctx spec (Some c)) /\
  tr_TaskID res = ws_ID spec /\ tr_StartedAt res = (if run then t1 else 0) /\
  let '(res', run', grant') := executeAssignment handler' t0' t1' t2' ctx' spec' grant in
  run' = None /\ tr_StartedAt res' = 0 /\
  (exists c', grant' = Some c' /\ pc_phase c' = PermitReleased /\
     pc_hooks c' = match pc_onRelease c with Some _ => 1 | None => 0 end).
Proof.
  intros Hr Hh. pose proof (executeAssignment_fields handler t0 t1 t2 ctx spec (Some c)) as H1.
  destruct (executeAssignment handler t0 t1 t2 ctx spec (Some c)) as [[res run] grant].
  destruct H1 as (I1 & _ & S1 & G1 & R1).
  pose proof (executeAssignment_fields handler' t0' t1' t2' ctx' spec' grant) as H2.
  destruct (executeAssignment handler' t0' t1' t2' ctx' spec' grant) as [[res' run'] grant'].
  destruct H2 as (_ & _ & S2 & G2 & R2).
  assert (Hg : exists d, grant = Some d /\ pc_phase d = PermitReleased /\ pc_released d = true /\
    pc_hooks d = match pc_onRelease c with Some _ => 1 | None => 0 end).
  { subst grant. destruct (permit_use_frame spec c) as (d & -> & F1 & F2 & F3). simpl.
    rewrite F1, F2, F3, Hr, Hh. eexists. by split_and_all. }
  destruct Hg as (d & -> & Hp & Hrel & Hhk).
  assert (Hno : ~ startable t0' ctx' spec' (Some d)).
  { intros ((x & [= <-] & _ & _ & Hx) & _). congruence. }
  destruct R2 as [[_ Hs]|[-> _]]; [done|].
  split_and_all; try done.
  - destruct R1 as [[-> Hs]|[-> Hs]]; split; try done; by intros [? [=]].
  - subst grant'. destruct (permit_use_frame spec' d) as (d' & -> & F1 & F2 & F3). simpl.
    rewrite F2, F3, Hrel, Hhk. eexists. by split_and_all.
Qed.

(** C39. The result of a task tells what its handler did: [Completed] exactly for
    no error or an error that was handled, [Failed] with the cause rate limited
    and the delay the limiter asked for, [TimedOut] and [Cancelled] for the two
    context errors, [Panic] for a panic and [Failed] for the rest; a rate limit
    wins over a context error. Its disposition is always set, its retry delay is
    never negative, and a handler that completed is never retried. *)
Theorem executeAssignment_classifies (handler : closure -> handler_run -> handler_outcome)
    (t0 t1 t2 : time) (ctx : Context) (spec : WorkSpec) (grant : option permit_cell) (h : closure) :
  startable t0 ctx spec grant -> ws_Handler spec = Some h ->
  let res := (executeAssignment handler t0 t1 t2 ctx spec grant).1.1 in
  match handler h (handler_context ctx spec) with
  | HandlerPanics _ => tr_Outcome res = OutcomePanic /\ tr_Cause res = CausePanic
  | HandlerReturns None => tr_Outcome res = OutcomeCompleted
  | HandlerReturns (Some e) =>
      if decide (sem_Disposition (SemanticsOf (Some e)) = DispositionHandled)
      then tr_Outcome res = OutcomeCompleted /\ tr_Disposition res = DispositionHandled
      else
        tr_Failure res = mkFailure (sem_Code (SemanticsOf (Some e))) (error_text e) "" /\
        match errors_As retryAfterCarrier e with
        | Some wait => tr_Outcome res = OutcomeFailed /\ tr_Cause res = CauseRateLimited /\
            TaskResult_ShouldRetry res = true /\ tr_RetryAfter res = Z.max 0 wait
        | None =>
            if errors_Is e context_DeadlineExceeded then tr_Outcome res = OutcomeTimedOut
            else if errors_Is e context_Canceled then tr_Outcome res = OutcomeCancelled
            else tr_Outcome res = OutcomeFailed
        end
  end /\
  tr_Disposition res <> DispositionUnset /\ 0 <= tr_RetryAfter res /\
  (tr_Outcome res = OutcomeCompleted -> TaskResult_ShouldRetry res = false).
Proof.
  intros Hs Hh. unfold executeAssignment. set (r0 := mkResult _ _ _ _ _ _ _ _ _ _).
  pose proof (execute_body_cases handler t0 t1 ctx spec grant r0) as H.
  destruct (execute_body _ _ _ _ _ _ r0) as [[[r run] recovered] g].
  destruct H as (_ & _ & _ & [(_ & h' & Hh' & _ & _ & Hr)|(Hn & _)]); [|done].
  rewrite Hh in Hh'. injection Hh' as <-.
  destruct (handler h (handler_context ctx spec)) as [[e|]|msg].
  - destruct Hr as [-> ->]. cbn zeta. unfold classify_error.
    pose proof (SemanticsOf_normalized (Some e)) as [Hset Hpos].
    destruct (decide (sem_Disposition (SemanticsOf (Some e)) = DispositionHandled)); simpl.
    { split_and_all; try done; lia. }
    destruct (errors_As retryAfterCarrier e) as [wait|]; simpl.
    { destruct (Z.ltb_spec wait 0); split_and_all; try done; lia. }
    destruct (errors_Is e context_DeadlineExceeded); simpl; [split_and_all; try done; lia|].
    destruct (errors_Is e context_Canceled); simpl; split_and_all; try done; lia.
  - destruct Hr as [-> ->]. simpl. split_and_all; try done; lia.
  - destruct Hr as [-> ->]. simpl. split_and_all; try done; lia.
Qed.

(** What a handler sees of its assignment: its context holds a resource
    exactly when the caller's did or the specification requires it, it may yield
    durably exactly when it runs a durable occurrence or the caller could, and
    its timeout is the one of the specification. *)
Theorem handler_environment (ctx : Context) (spec : WorkSpec) (name : string) :
  let run := handler_context ctx spec in
  (HasHeldResource (hr_ctx run) name = true <->
     HasHeldResource (Some ctx) name = true \/
     (trim_space name <> "" /\ exists r, r ∈ ws_Resources spec /\ 0 < rr_Amount r /\
        trim_space (rr_Name r) = trim_space name)) /\
  (CanDurablyYield (hr_ctx run) = true <->
     is_Some (ws_Job spec) \/ CanDurablyYield (Some ctx) = true) /\
  hr_timeout run = Z.max 0 (ws_ExecutionTimeout spec).
Proof.
  cbn zeta. unfold handler_context. cbn [hr_ctx hr_timeout]. split_and_all.
  - rewrite HasHeldResource_WithHeldResources. by destruct (ws_Job spec).
  - rewrite CanDurablyYield_WithHeldResources. destruct (ws_Job spec); simpl.
    + split; [by left; eexists|]. done.
    + split; [by right|]. intros [[? [=]]|H]; done.
  - destruct (Z.ltb_spec 0 (ws_ExecutionTimeout spec)); lia.
Qed.

Definition sample_grant : permit_cell := newPermit 0 "pool" "a" 1 (Some 3%nat).
Definition sample_work : WorkSpec :=
  mkWorkSpec "a" (mkScope "" 0) "o" "pool" PriorityNormal "" 0 0 "" None None
    [mkReq "cpu" 1] (Some 5%nat) None None.

Lemma executeAssignment_once_witness :
  let '(res, run, grant) := executeAssignment (fun _ _ => HandlerReturns None) 1 2 3 Background sample_work
    (Some sample_grant) in
  tr_StartedAt res = 2 /\ run = Some (handler_context Background sample_work) /\
  (executeAssignment (fun _ _ => HandlerReturns None) 1 2 3 Background sample_work grant).1.2 = None.
Proof.
  split; [reflexivity|]. split; [reflexivity|].
  exact (proj1 (proj2 (proj2 (proj2 (executeAssignment_once (fun _ _ => HandlerReturns None)
    (fun _ _ => HandlerReturns None) 1 2 3 1 2 3 Background Background sample_work sample_work sample_grant
    eq_refl eq_refl))))).
Defined.

Lemma sample_startable : startable 1 Background sample_work (Some sample_grant).
Proof. split; [by exists sample_grant|]. split; [done|]. split; [done|by eexists]. Qed.

Lemma executeAssignment_classifies_witness :
  tr_Outcome (executeAssignment (fun _ _ => HandlerReturns (Some (sentinel context_Canceled))) 1 2 3
    Background sample_work (Some sample_grant)).1.1 = OutcomeCancelled.
Proof.
  exact (proj2 (proj1 (executeAssignment_classifies
    (fun _ _ => HandlerReturns (Some (sentinel context_Canceled))) 1 2 3 Background sample_work
    (Some sample_grant) 5 sample_startable eq_refl))).
Defined.
