(* ===== verification/DeliveryProgress.v ===== *)
(** * Progress of the completion-delivery lane

    The lane of Delivery.v never strands a callback and never misses the signal
    [drain] waits for. The workers' own steps ([worker_event]) always end, and
    they only stop when every callback ran and the drain generation is closed.
    Timers, shutdown and the coordinator are the environment: they bring the
    lane to the state the workers start from. *)

From S2P Require Import Prelude.
From S2P Require Import Execution.
From S2P Require Import Tasks.
From S2P Require Import EngineState.
From S2P Require Import Delivery.

(** The steps of the workers, but for the idle timer and the stop channel. *)
Definition worker_event (ev : lane_event) : bool :=
  match ev with EvReceive _ | EvWorkerStep _ => true | _ => false end.

(** ** The invariant *)

(** On the way to signal that the lane is drained. *)
Definition signalling (pc : worker_pc) : bool :=
  match pc with WRelease _ | WSignal _ | WSignalLock | WSignalLocked _ | WSignalSet => true | _ => false end.

(** What keeps the drain generation open. *)
Definition wakes (d : lane) : Prop :=
  0 < ln_pending d \/ 0 < ln_active d \/ ln_enqueue d <> EIdle \/
  exists w pc, ln_loops d !! w = Some pc /\ signalling pc = true.

Record lane_awake (d : lane) : Prop := {
  aw_alive : ln_stopping d = false -> 0 < queue_len d -> ln_loops d <> ∅;
  aw_wakes : ln_drained d = false -> wakes d;
  aw_holder : forall v, ln_drainMu d = Some v -> exists pc, ln_loops d !! v = Some pc /\ in_lock pc = true
}.

Lemma counts_nonneg d : lane_ok d ->
  queue_len d <= ln_pending d /\ 0 <= ln_active d /\
  (forall w pc, ln_loops d !! w = Some pc ->
     counts_active pc <= ln_active d /\ counts_pending pc + queue_len d <= ln_pending d).
Proof.
  intros H. assert (Hp : 0 <= msum counts_pending (ln_loops d)) by (apply msum_nonneg; intros ? [] _; simpl; lia).
  assert (Ha : 0 <= msum counts_active (ln_loops d)) by (apply msum_nonneg; intros ? [] _; simpl; lia).
  assert (He : 0 <= enqueue_pending (ln_enqueue d)) by by destruct (ln_enqueue d).
  pose proof (lo_pending _ H). pose proof (lo_active _ H). split_and_all; [lia|lia|].
  intros w pc Hw.
  assert (counts_active pc <= msum counts_active (ln_loops d))
    by (eapply msum_lookup_le; [|done]; intros ? [] _; simpl; lia).
  assert (counts_pending pc <= msum counts_pending (ln_loops d))
    by (eapply msum_lookup_le; [|done]; intros ? [] _; simpl; lia).
  lia.
Qed.

(** A worker moves; what it gives up of the reasons to stay awake it replaces. *)
Lemma wakes_move d d' w pc pc' :
  ln_loops d !! w = Some pc -> ln_loops d' = <[w := pc']> (ln_loops d) -> ln_enqueue d' = ln_enqueue d ->
  signalling pc' = true \/ 0 < ln_pending d' \/ 0 < ln_active d' \/
    (signalling pc = false /\ ln_pending d <= ln_pending d' /\ ln_active d <= ln_active d') ->
  wakes d -> wakes d'.
Proof.
  intros Hw El Ee Hor Hd. unfold wakes. rewrite El, Ee.
  destruct Hor as [Hs|[?|[?|(Hs & Hp & Ha)]]]; [|by auto..|].
  - right. right. right. exists w, pc'. by rewrite lookup_insert_eq.
  - destruct Hd as [?|[?|[?|(v & q & Hv & Hq)]]]; [left; lia|right; left; lia|by auto|].
    right. right. right. exists v, q. rewrite lookup_insert_ne by congruence. done.
Qed.

Lemma loops_nonempty (m m' : gmap nat worker_pc) : m ⊆ m' -> m <> ∅ -> m' <> ∅.
Proof.
  intros Hs Hn ->. apply Hn, map_eq. intros w. rewrite lookup_empty.
  destruct (m !! w) as [pc|] eqn:E; [|done]. pose proof (lookup_weaken _ _ _ _ E Hs) as Hx.
  by rewrite lookup_empty in Hx.
Qed.

(** Spawning changes only the workers: the old ones stay. *)
Lemma spawn_loops_frame n : forall d, let d' := spawn_loops n d in
  (forall w pc, ln_loops d !! w = Some pc -> (w < ln_next d)%nat) ->
  ln_pending d' = ln_pending d /\ ln_active d' = ln_active d /\ ln_enqueue d' = ln_enqueue d /\
  ln_queue d' = ln_queue d /\ ln_drained d' = ln_drained d /\ ln_drainMu d' = ln_drainMu d /\
  ln_stopping d' = ln_stopping d /\ ln_loops d ⊆ ln_loops d' /\ (n <> 0%nat -> ln_loops d' <> ∅).
Proof.
  induction n as [|n IH]; intros d; cbn [spawn_loops]; [by split_and_all|].
  set (d1 := ln_set_remaining _ _). intros Hlt.
  assert (Hnew : ln_loops d !! ln_next d = None).
  { destruct (ln_loops d !! ln_next d) as [pc|] eqn:E; [|done]. pose proof (Hlt _ _ E). lia. }
  destruct (IH d1) as (E1 & E2 & E3 & E4 & E5 & E6 & E7 & E8 & _).
  { simpl. intros w pc [[<- _]|[_ Hw]]%lookup_insert_Some; [lia|]. pose proof (Hlt _ _ Hw). lia. }
  split_and_all; try done.
  - etrans; [|exact E8]. by apply insert_subseteq.
  - intros _. eapply loops_nonempty; [exact E8|]. apply insert_non_empty.
Qed.

Lemma ensureWorkersLocked_frame d : (forall w pc, ln_loops d !! w = Some pc -> (w < ln_next d)%nat) ->
  ln_enqueue (ensureWorkersLocked d) = ln_enqueue d /\ ln_stopping (ensureWorkersLocked d) = ln_stopping d.
Proof.
  intros Hlt. unfold ensureWorkersLocked. destruct (ln_stopping d) eqn:Hs; [done|]. cbn zeta.
  match goal with |- context [spawn_loops ?n d] =>
    destruct (spawn_loops_frame n d Hlt) as (_ & _ & E3 & _ & _ & _ & E7 & _) end.
  by rewrite E3, E7.
Qed.

(** [ensureWorkersLocked] leaves a worker behind, unless the lane stops. *)
Lemma ensureWorkersLocked_awake d : lane_ok d ->
  (ln_stopping d = true -> lane_awake d) -> (ln_drained d = false -> wakes d) ->
  (forall v, ln_drainMu d = Some v -> exists pc, ln_loops d !! v = Some pc /\ in_lock pc = true) ->
  lane_awake (ensureWorkersLocked d).
Proof.
  intros H Hstop Hw Hh. unfold ensureWorkersLocked. destruct (ln_stopping d) eqn:Hs; [by apply Hstop|].
  set (t := if ln_workers d <? _ then _ else _).
  destruct (spawn_loops_frame (Z.to_nat (t - ln_remaining d)) d) as (E1 & E2 & E3 & E4 & E5 & E6 & E7 & E8 & E9).
  { intros w pc E. apply (lo_next _ H w pc E). }
  split.
  - intros _ _ E. destruct (decide (Z.to_nat (t - ln_remaining d) = 0%nat)) as [Hz|Hz]; [|by apply E9 in E].
    destruct (lo_workers _ H) as [Hpos _].
    assert (1 <= t) by (unfold t; repeat case_match; bool_to_prop; lia).
    assert (Hr : 1 <= ln_remaining d) by lia. rewrite (lo_remaining _ H) in Hr.
    apply (loops_nonempty _ _ E8); [|done]. intros Hno. rewrite Hno, msum_empty in Hr. lia.
  - rewrite E5. intros Hd. unfold wakes. rewrite E1, E2, E3.
    destruct (Hw Hd) as [?|[?|[?|(w & pc & Hl & Hpc)]]]; [by auto..|]. right. right. right.
    exists w, pc. split; [|done]. by eapply lookup_weaken.
  - intros v. rewrite E6. intros Hv. destruct (Hh v Hv) as (pc & Hl & Hpc). exists pc.
    split; [|done]. by eapply lookup_weaken.
Qed.

(** A worker moves outside of the lock. *)
Lemma move_awake d d' w pc pc' :
  lane_ok d -> lane_awake d -> ln_loops d !! w = Some pc -> ln_loops d' = <[w := pc']> (ln_loops d) ->
  ln_enqueue d' = ln_enqueue d -> ln_drained d' = ln_drained d ->
  in_lock pc = false -> ln_drainMu d' = ln_drainMu d ->
  signalling pc' = true \/ ln_drained d = true \/ 0 < ln_pending d' \/ 0 < ln_active d' \/
    (signalling pc = false /\ ln_pending d <= ln_pending d' /\ ln_active d <= ln_active d') ->
  lane_awake d'.
Proof.
  intros H [W1 W2 W3] Hw El Ee Ed Hl Emu Hor. split.
  - intros _ _. rewrite El. apply insert_non_empty.
  - rewrite Ed. intros Hd. apply (wakes_move d d' w pc pc'); try done; [|by apply W2].
    destruct Hor as [?|[?|[?|[?|?]]]]; auto. congruence.
  - intros v Hv. rewrite Emu in Hv. destruct (W3 v Hv) as (q & Hq & Hin). exists q. rewrite El.
    rewrite lookup_insert_ne by congruence. done.
Qed.

(** A worker leaves. *)
Lemma drop_awake d d' w pc :
  lane_awake d -> ln_loops d !! w = Some pc -> ln_loops d' = delete w (ln_loops d) ->
  signalling pc = false -> in_lock pc = false ->
  ln_enqueue d' = ln_enqueue d -> ln_drained d' = ln_drained d -> ln_drainMu d' = ln_drainMu d ->
  ln_pending d' = ln_pending d -> ln_active d' = ln_active d ->
  (ln_drained d' = false -> wakes d') /\
  (forall v, ln_drainMu d' = Some v -> exists pc, ln_loops d' !! v = Some pc /\ in_lock pc = true).
Proof.
  intros [W1 W2 W3] Hw El Hs Hl Ee Ed Emu Ep Ea. split.
  - rewrite Ed. intros Hd. unfold wakes. rewrite Ep, Ea, Ee, El.
    destruct (W2 Hd) as [?|[?|[?|(v & q & Hv & Hq)]]]; [by auto..|]. right. right. right.
    exists v, q. rewrite lookup_delete_ne by congruence. done.
  - intros v. rewrite Emu. intros Hv. destruct (W3 v Hv) as (q & Hq & Hin). exists q.
    rewrite El, lookup_delete_ne by congruence. done.
Qed.

#[local] Ltac moves := eapply move_awake; [eassumption|eassumption|eassumption|reflexivity|try done..]; simpl;
  try (by auto); try (right; right; right; right; split_and_all; [done|lia|lia]).

Lemma worker_step_awake w pc d d' :
  lane_ok d -> lane_awake d -> ln_loops d !! w = Some pc -> worker_step w pc d = Some d' -> lane_awake d'.
Proof.
  intros H Ha Hw. destruct (counts_nonneg d H) as (Hq & Hact & Hcounts).
  destruct (Hcounts w pc Hw) as [Hc1 Hc2]. assert (0 <= queue_len d) by (unfold queue_len; lia).
  destruct pc as [|x|x|x|x|x|k| |k| | |last| |]; cbn [worker_step]; intros E.
  - done.
  - injection E as <-. moves.
  - injection E as <-. moves. simpl in Hc1. right; right; right; left. lia.
  - injection E as <-. moves.
  - injection E as <-. moves.
  - injection E as <-. assert (Er : exists z1 z2, (if di_release x then releaseReservation d else d) =
      ln_set_failed z1 (ln_set_reservations z2 d)).
    { destruct (di_release x); [|by exists (ln_failed d), (ln_reservations d); destruct d].
      unfold releaseReservation. case_match;
        [exists (ln_failed d), (ln_reservations d - 1)|exists (ln_failed d + 1), (ln_reservations d)]; by destruct d. }
    destruct Er as (z1 & z2 & ->). moves.
  - destruct k as [|[|k]]; injection E as <-; case_match eqn:Hz; bool_to_prop; moves.
    + right; right; left. lia.
    + right; right; right; left. lia.
    + right; right; left. lia.
  - destruct (ln_drainMu d) as [v|] eqn:Hmu; [done|]. destruct (ln_drained d) eqn:Hd; injection E as <-.
    + moves.
    + destruct Ha as [W1 W2 W3]. split; simpl.
      * intros _ _. apply insert_non_empty.
      * intros _. right. right. right. exists w, (WSignalLocked 0). simpl. by rewrite lookup_insert_eq.
      * intros v [= <-]. exists (WSignalLocked 0). by rewrite lookup_insert_eq.
  - pose proof (lo_locked _ H w _ Hw eq_refl) as Hmu. destruct Ha as [W1 W2 W3].
    set (z := match k with 0%nat => _ | S _ => _ end) in E. destruct z eqn:Hz; injection E as <-.
    + set (pc' := if (k <? 2)%nat then _ else _).
      assert (Hpc : signalling pc' = true /\ in_lock pc' = true) by (unfold pc'; by case_match).
      split; simpl.
      * intros _ _. apply insert_non_empty.
      * intros _. right. right. right. exists w, pc'. simpl. rewrite lookup_insert_eq. by split; [|apply Hpc].
      * intros v Hv. assert (v = w) as -> by congruence. exists pc'. rewrite lookup_insert_eq. by split; [|apply Hpc].
    + split; simpl; [intros _ _; apply insert_non_empty| |done]. intros _. unfold wakes; simpl.
      unfold z in Hz. destruct k as [|[|k]]; bool_to_prop; [left; lia|right; left; lia|left; lia].
  - injection E as <-. split; simpl; [intros _ _; apply insert_non_empty|done..].
  - injection E as <-. moves.
  - destruct (ln_stopping d) eqn:Hs; injection E as <-; [|moves].
    destruct (drop_awake d (drop_worker w (if last then ln_set_done true d else d)) w (WLeave last))
      as [D1 D2]; try done; try by destruct last.
    split; [|done..]. destruct last; simpl; congruence.
  - destruct (Z.ltb_spec 0 (ln_pending d)); injection E as <-; [moves|].
    destruct (drop_awake d (drop_worker w d) w WCheck) as [D1 D2]; try done.
    split; [|done..]. unfold queue_len in *. simpl. lia.
  - destruct (ln_enqueue d) eqn:He; [|done..]. injection E as <-.
    destruct (drop_awake d (drop_worker w d) w WEnsure) as [D1 D2]; try done.
    apply ensureWorkersLocked_awake; [by eapply drop_ok'| |done..].
    intros Hs. split; [|done..]. simpl in *. congruence.
Qed.

(** ** Preservation *)

Lemma awake_frame d d' :
  lane_awake d -> ln_loops d' = ln_loops d -> ln_enqueue d' = ln_enqueue d ->
  ln_queue d' = ln_queue d -> ln_pending d' = ln_pending d -> ln_active d' = ln_active d ->
  ln_drained d' = ln_drained d -> ln_drainMu d' = ln_drainMu d ->
  (ln_stopping d' = false -> ln_stopping d = false) -> lane_awake d'.
Proof.
  intros [W1 W2 W3] El Ee Eq Ep Ea Ed Em Es.
  split; unfold wakes, queue_len in *; rewrite ?El, ?Ee, ?Eq, ?Ep, ?Ea, ?Ed, ?Em; auto.
Qed.

(** The coordinator is in [enqueueReserved]. *)
Lemma awake_enqueue d d' :
  lane_awake d -> ln_loops d' = ln_loops d -> ln_enqueue d' <> EIdle -> ln_queue d' = ln_queue d ->
  ln_stopping d' = ln_stopping d -> ln_drainMu d' = ln_drainMu d -> lane_awake d'.
Proof.
  intros [W1 W2 W3] El Ee Eq Es Em.
  split; unfold wakes, queue_len in *; rewrite ?El, ?Eq, ?Es, ?Em; auto.
Qed.

Lemma enqueue_step_awake d d' :
  lane_ok d -> lane_awake d -> enqueue_step d = Some d' -> lane_awake d'.
Proof.
  intros H Ha E. unfold enqueue_step in E. destruct (ln_enqueue d) as [|x|x|x] eqn:He; [done| | |].
  - destruct (ln_drainMu d) eqn:Hmu; [done|]. injection E as <-. apply (awake_enqueue d); try done;
      unfold markBusy; by destruct (ln_drained d).
  - injection E as <-. by apply (awake_enqueue d).
  - injection E as <-. pose proof (send_room d x H He) as Hroom. unfold send_item.
    destruct (Z.ltb_spec (queue_len d) (ln_cap d)) as [_|]; [|lia]. cbn [snd].
    rewrite ensureWorkersLocked_enqueue. set (d1 := ln_set_enqueue EIdle _).
    assert (H1 : lane_ok d1).
    { destruct H as [O1 O2 O3 O4 O5 O6 O7 O8 O9 O10 O11 O12 O13 O14 O15]. rewrite He in *; simpl in O3, O5.
      split; unfold d1, queue_len in *; simpl; rewrite ?length_app; simpl; try done; try lia.
      intros y [Hy| ->%list_elem_of_singleton]%elem_of_app; auto. }
    assert (Hp : 0 < ln_pending d1).
    { destruct (counts_nonneg d1 H1) as (Hq & _).
      assert (0 < queue_len d1) by (unfold queue_len, d1; simpl; rewrite length_app; simpl; lia). lia. }
    apply ensureWorkersLocked_awake; [done| |by left|apply Ha].
    intros Hs. split; [congruence|by left|apply Ha].
Qed.

Lemma lane_step_awake ev d d' :
  lane_ok d -> lane_awake d -> lane_step ev d = Some d' -> lane_awake d'.
Proof.
  intros H Ha E. destruct ev as [| |x| | |w|w|w|w]; cbn [lane_step] in E.
  - destruct (ln_enqueue d) eqn:He; [|done..]. unfold reserve in E.
    destruct (ln_stopping d) eqn:Hs; cbn beta iota zeta in E; [by injection E as <-|].
    destruct (_ <? _); cbn beta iota zeta in E; injection E as <-; [|done]. by apply (awake_frame d).
  - destruct (ln_enqueue d) eqn:He; [|done..]. destruct (0 <? ln_held d); [|done]. injection E as <-.
    unfold releaseReservation. destruct (_ <? _); by apply (awake_frame d).
  - destruct (ln_enqueue d) eqn:He; [|done..]. destruct (_ && _); [|done].
    cbn zeta in E. change (ln_stopping (ln_set_held (ln_held d - 1) d)) with (ln_stopping d) in E.
    destruct (ln_stopping d) eqn:Hs; injection E as <-; [|by apply (awake_enqueue d)].
    unfold fail_closed, releaseReservation. destruct (_ <? _); by apply (awake_frame d).
  - by apply (enqueue_step_awake d).
  - destruct (ln_enqueue d) eqn:He; [|done..]. injection E as <-. unfold stop.
    destruct (_ =? _); by apply (awake_frame d).
  - destruct (ln_loops d !! w) as [[]|] eqn:Hw; try done. destruct (ln_queue d) as [|x q] eqn:Hq; [done|].
    injection E as <-. moves.
  - destruct (ln_loops d !! w) as [[]|] eqn:Hw; try done. injection E as <-.
    destruct (ln_pending d =? 0); [|done]. moves.
  - destruct (ln_loops d !! w) as [[]|] eqn:Hw; try done. destruct (ln_stopping d); [|done].
    injection E as <-. moves.
  - destruct (ln_loops d !! w) as [pc|] eqn:Hw; [|done]. simpl in E. by apply (worker_step_awake w pc d).
Qed.

Lemma lane_reachable_awake workers queueCap d : lane_reachable workers queueCap d -> lane_awake d.
Proof.
  induction 1 as [|ev d d' Hd IH E]; [split; done|].
  by apply (lane_step_awake ev d); [apply (lane_reachable_ok workers queueCap)|..].
Qed.

(** ** The workers' own steps end *)

(** How many steps a worker has before it is at its select again, or gone. *)
Definition pc_rank (pc : worker_pc) : Z :=
  match pc with
  | WSelect => 0
  | WSignalSet => 1
  | WSignalLocked k => match k with 0%nat => 4 | 1%nat => 3 | _ => 2 end
  | WSignalLock => 5
  | WSignal k => match k with 0%nat => 8 | 1%nat => 7 | _ => 6 end
  | WRelease _ => 9
  | WReturned _ => 10
  | WRun _ => 11
  | WActive _ => 12
  | WReceived _ => 13
  | WExit => 4
  | WLeave _ => 3
  | WCheck => 2
  | WEnsure => 1
  end.

Definition lane_rank (d : lane) : Z := 14 * queue_len d + msum pc_rank (ln_loops d).

Lemma pc_rank_nonneg pc : 0 <= pc_rank pc.
Proof. destruct pc as [| | | | | |k| |k| | | | |]; simpl; try lia; destruct k as [|[|]]; lia. Qed.

Lemma lane_rank_nonneg d : 0 <= lane_rank d.
Proof.
  unfold lane_rank, queue_len. assert (0 <= msum pc_rank (ln_loops d)); [|lia].
  apply msum_nonneg. intros w pc _. apply pc_rank_nonneg.
Qed.

Lemma spawn_loops_rank n : forall d, (forall w pc, ln_loops d !! w = Some pc -> (w < ln_next d)%nat) ->
  lane_rank (spawn_loops n d) = lane_rank d.
Proof.
  induction n as [|n IH]; intros d Hlt; cbn [spawn_loops]; [done|].
  assert (Hnew : ln_loops d !! ln_next d = None).
  { destruct (ln_loops d !! ln_next d) as [pc|] eqn:E; [|done]. pose proof (Hlt _ _ E). lia. }
  rewrite IH.
  - unfold lane_rank, queue_len. simpl. rewrite (msum_insert_fresh _ _ _ _ Hnew). simpl. lia.
  - simpl. intros w pc [[<- _]|[_ Hw]]%lookup_insert_Some; [lia|]. pose proof (Hlt _ _ Hw). lia.
Qed.

Lemma move_rank d d' w pc pc' :
  ln_loops d !! w = Some pc -> ln_loops d' = <[w := pc']> (ln_loops d) -> ln_queue d' = ln_queue d ->
  pc_rank pc' < pc_rank pc -> lane_rank d' < lane_rank d.
Proof.
  intros Hw El Eq Hr. unfold lane_rank, queue_len. rewrite El, Eq, (msum_insert _ _ _ _ _ Hw). lia.
Qed.

Lemma drop_rank d d' w pc :
  ln_loops d !! w = Some pc -> ln_loops d' = delete w (ln_loops d) -> ln_queue d' = ln_queue d ->
  0 < pc_rank pc -> lane_rank d' < lane_rank d.
Proof.
  intros Hw El Eq Hr. unfold lane_rank, queue_len. rewrite El, Eq, (msum_delete _ _ _ _ Hw). lia.
Qed.

Lemma worker_step_rank w pc d d' :
  lane_ok d -> ln_loops d !! w = Some pc -> worker_step w pc d = Some d' -> lane_rank d' < lane_rank d.
Proof.
  intros H Hw. destruct pc as [|x|x|x|x|x|k| |k| | |last| |]; cbn [worker_step]; intros E.
  - done.
  - injection E as <-. by eapply move_rank.
  - injection E as <-. by eapply move_rank.
  - injection E as <-. by eapply move_rank.
  - injection E as <-. by eapply move_rank.
  - injection E as <-. apply (move_rank d _ w (WRelease x) (WSignal 0)); [done|..|done];
      (destruct (di_release x); [|done]); unfold releaseReservation; by case_match.
  - destruct k as [|[|k]]; injection E as <-; case_match; by eapply move_rank.
  - destruct (ln_drainMu d); [done|]. destruct (ln_drained d); injection E as <-; by eapply move_rank.
  - destruct k as [|[|k]]; cbn beta iota zeta in E; case_match; injection E as <-; by eapply move_rank.
  - injection E as <-. by eapply move_rank.
  - injection E as <-. by eapply move_rank.
  - destruct (ln_stopping d); injection E as <-; [|by eapply move_rank].
    eapply drop_rank; [done|by destruct last..|done].
  - destruct (0 <? ln_pending d); injection E as <-; [by eapply move_rank|by eapply drop_rank].
  - destruct (ln_enqueue d); [|done..]. injection E as <-.
    assert (Hd : lane_rank (drop_worker w d) < lane_rank d) by by eapply drop_rank.
    unfold ensureWorkersLocked. destruct (ln_stopping _); [done|]. rewrite spawn_loops_rank; [done|].
    intros v q. simpl. intros [_ Hv]%lookup_delete_Some. apply (lo_next _ H v q Hv).
Qed.

Lemma worker_event_rank ev d d' :
  lane_ok d -> worker_event ev = true -> lane_step ev d = Some d' -> lane_rank d' < lane_rank d.
Proof.
  intros H Hev E. destruct ev as [| |x| | |w|w|w|w]; try done; cbn [lane_step] in E.
  - destruct (ln_loops d !! w) as [[]|] eqn:Hw; try done. destruct (ln_queue d) as [|x q] eqn:Hq; [done|].
    injection E as <-. unfold lane_rank, queue_len, set_pc. simpl.
    rewrite (msum_insert _ _ _ _ _ Hw), Hq. simpl. lia.
  - destruct (ln_loops d !! w) as [pc|] eqn:Hw; [|done]. simpl in E. by eapply worker_step_rank.
Qed.

(** A worker step leaves the coordinator and the shutdown flag alone. *)
Lemma worker_event_frame ev d d' :
  worker_event ev = true -> lane_step ev d = Some d' -> lane_ok d ->
  ln_enqueue d' = ln_enqueue d /\ ln_stopping d' = ln_stopping d.
Proof.
  intros Hev E H. destruct ev as [| |x| | |w|w|w|w]; try done; cbn [lane_step] in E.
  - destruct (ln_loops d !! w) as [[]|]; try done. destruct (ln_queue d); [done|]. by injection E as <-.
  - destruct (ln_loops d !! w) as [pc|] eqn:Hw; [|done]. simpl in E.
    destruct pc as [|x|x|x|x|x|k| |k| | |last| |]; cbn [worker_step] in E; try done; try (by injection E as <-).
    + injection E as <-. destruct (di_release x); [|done]. unfold releaseReservation. by case_match.
    + by destruct k as [|[|k]]; injection E as <-.
    + destruct (ln_drainMu d); [done|]. by destruct (ln_drained d); injection E as <-.
    + set (z := match k with 0%nat => _ | S _ => _ end) in E. by destruct z; injection E as <-.
    + destruct (ln_stopping d) eqn:Hs; injection E as <-; [|done]. by destruct last.
    + by destruct (0 <? ln_pending d); injection E as <-.
    + destruct (ln_enqueue d) eqn:He; [|done..]. injection E as <-.
      rewrite <- He. apply (ensureWorkersLocked_frame (drop_worker w d)).
      intros v q. simpl. intros [_ Hv]%lookup_delete_Some. apply (lo_next _ H v q Hv).
Qed.

(** Workers that cannot move have nothing left to do. *)
Lemma stuck_workers d :
  lane_ok d -> lane_awake d -> ln_stopping d = false -> ln_enqueue d = EIdle ->
  (forall ev, worker_event ev = true -> lane_step ev d = None) ->
  ln_queue d = [] /\ ln_pending d = 0 /\ ln_active d = 0 /\ drain_returns d = true.
Proof.
  intros H [W1 W2 W3] Hs He Hno.
  assert (Hsel : forall w pc, ln_loops d !! w = Some pc -> pc = WSelect).
  { assert (Hmove : forall w pc, ln_loops d !! w = Some pc -> worker_step w pc d = None).
    { intros w pc Hw. specialize (Hno (EvWorkerStep w) eq_refl). simpl in Hno. by rewrite Hw in Hno. }
    intros w pc Hw. specialize (Hmove w pc Hw) as Hm.
    destruct pc as [|x|x|x|x|x|k| |k| | |last| |]; cbn [worker_step] in Hm; try done.
    - by destruct k as [|[|k]].
    - destruct (ln_drainMu d) as [v|] eqn:Hmu; [|by case_match].
      destruct (W3 v eq_refl) as (q & Hq & Hin). specialize (Hmove v q Hq).
      destruct q; try done. simpl in Hmove. by case_match.
    - by case_match.
    - by case_match.
    - by case_match.
    - by rewrite He in Hm. }
  assert (Hq : ln_queue d = []).
  { destruct (ln_queue d) as [|x q] eqn:Hq; [done|]. destruct (map_choose (ln_loops d)) as (w & pc & Hw).
    { apply W1; [done|]. unfold queue_len. rewrite Hq. simpl. lia. }
    specialize (Hno (EvReceive w) eq_refl). simpl in Hno. by rewrite Hw, (Hsel w pc Hw), Hq in Hno. }
  assert (Hzero : forall f, f WSelect = 0 -> msum f (ln_loops d) = 0).
  { intros f Hf. apply msum_zero. intros w pc Hw. by rewrite (Hsel w pc Hw). }
  assert (Hp : ln_pending d = 0).
  { rewrite (lo_pending _ H), He, Hzero by done. unfold queue_len. by rewrite Hq. }
  assert (Ha : ln_active d = 0) by (rewrite (lo_active _ H); by apply Hzero).
  split_and_all; try done. unfold drain_returns. destruct (ln_drained d) eqn:Hd; [done|].
  destruct (W2 eq_refl) as [?|[?|[?|(w & pc & Hw & Hpc)]]]; [lia|lia|done|].
  by rewrite (Hsel w pc Hw) in Hpc.
Qed.

(** ** Properties *)


(** One callback, delivered to the end by the worker it woke. *)
Definition sample_queued : lane :=
  default (newCompletionDelivery 1 2) (run_events (sample_enqueue ++ [EvEnqueueStep]) (newCompletionDelivery 1 2)).
Definition sample_delivery : list lane_event := EvReceive 0 :: repeat (EvWorkerStep 0) 13.

Lemma sample_queued_reachable : lane_reachable 1 2 sample_queued.
Proof.
  unfold sample_queued. destruct (run_events _ _) as [d|] eqn:E; simpl; [|apply lane_init].
  exact (run_events_reachable 1 2 _ _ d (lane_init 1 2) E).
Qed.

