(* ===== verification/DurabilityLane.v ===== *)
(** * The durability lane

    Models [internal/taskengine/durability_lane.go]: the bounded lane that waits
    for commit acknowledgements and runs direct commits. As in Delivery.v,
    [lane_step] interleaves the coordinator, inside [enqueue] between its atomic
    accesses, with any number of workers, each at one of the atomic accesses of
    [loop] and [workerDone]; what runs under [workerMu] between two accesses that
    others can see is one step. [du_accepted] and [du_ran] are the functions the
    lane took and those that returned, for the statements. *)

From S2P Require Import Prelude.
From S2P Require Import Execution.
From S2P Require Import Tasks.

Inductive dworker :=
  | DSelect                      (* at the select of [loop] *)
  | DReceived (f : closure)      (* before [active.Add(1)] *)
  | DActive (f : closure)        (* before [pending.Add(-1)] *)
  | DRun (f : closure)           (* in the function *)
  | DReturned (f : closure)      (* before [active.Add(-1)] *)
  | DExit                        (* before [remaining.Add(-1)] *)
  | DLeave (last : bool)         (* before [stopping.Load()] of [workerDone] *)
  | DCheck                       (* before [pending.Load()] of [workerDone] *)
  | DEnsure.                     (* before the lock of [ensureWorkers] *)

(** Where the coordinator is in [enqueue]: outside, before the lock with the
    first check passed, and under the lock before [pending.Add] or the send. *)
Inductive denqueue := DIdle | DLock (f : closure) | DPend (f : closure) | DSend (f : closure).

Record dlane := mkDLane {
  du_queue : list closure;
  du_cap : Z;
  du_workers : Z;
  du_pending : Z;
  du_active : Z;
  du_failed : Z;
  du_stopping : bool;
  du_remaining : Z;
  du_done : bool;
  du_loops : gmap nat dworker;
  du_next : nat;
  du_enqueue : denqueue;
  du_accepted : list closure;
  du_ran : list closure
}.

Definition du_set_queue (v : list closure) (s : dlane) : dlane :=
  mkDLane v (du_cap s) (du_workers s) (du_pending s) (du_active s) (du_failed s) (du_stopping s)
    (du_remaining s) (du_done s) (du_loops s) (du_next s) (du_enqueue s) (du_accepted s) (du_ran s).
Definition du_set_pending (v : Z) (s : dlane) : dlane :=
  mkDLane (du_queue s) (du_cap s) (du_workers s) v (du_active s) (du_failed s) (du_stopping s)
    (du_remaining s) (du_done s) (du_loops s) (du_next s) (du_enqueue s) (du_accepted s) (du_ran s).
Definition du_set_active (v : Z) (s : dlane) : dlane :=
  mkDLane (du_queue s) (du_cap s) (du_workers s) (du_pending s) v (du_failed s) (du_stopping s)
    (du_remaining s) (du_done s) (du_loops s) (du_next s) (du_enqueue s) (du_accepted s) (du_ran s).
Definition du_set_failed (v : Z) (s : dlane) : dlane :=
  mkDLane (du_queue s) (du_cap s) (du_workers s) (du_pending s) (du_active s) v (du_stopping s)
    (du_remaining s) (du_done s) (du_loops s) (du_next s) (du_enqueue s) (du_accepted s) (du_ran s).
Definition du_set_stopping (v : bool) (s : dlane) : dlane :=
  mkDLane (du_queue s) (du_cap s) (du_workers s) (du_pending s) (du_active s) (du_failed s) v
    (du_remaining s) (du_done s) (du_loops s) (du_next s) (du_enqueue s) (du_accepted s) (du_ran s).
Definition du_set_remaining (v : Z) (s : dlane) : dlane :=
  mkDLane (du_queue s) (du_cap s) (du_workers s) (du_pending s) (du_active s) (du_failed s)
    (du_stopping s) v (du_done s) (du_loops s) (du_next s) (du_enqueue s) (du_accepted s) (du_ran s).
Definition du_set_done (v : bool) (s : dlane) : dlane :=
  mkDLane (du_queue s) (du_cap s) (du_workers s) (du_pending s) (du_active s) (du_failed s)
    (du_stopping s) (du_remaining s) v (du_loops s) (du_next s) (du_enqueue s) (du_accepted s) (du_ran
    s).
Definition du_set_loops (v : gmap nat dworker) (s : dlane) : dlane :=
  mkDLane (du_queue s) (du_cap s) (du_workers s) (du_pending s) (du_active s) (du_failed s)
    (du_stopping s) (du_remaining s) (du_done s) v (du_next s) (du_enqueue s) (du_accepted s) (du_ran s).
Definition du_set_next (v : nat) (s : dlane) : dlane :=
  mkDLane (du_queue s) (du_cap s) (du_workers s) (du_pending s) (du_active s) (du_failed s)
    (du_stopping s) (du_remaining s) (du_done s) (du_loops s) v (du_enqueue s) (du_accepted s) (du_ran
    s).
Definition du_set_enqueue (v : denqueue) (s : dlane) : dlane :=
  mkDLane (du_queue s) (du_cap s) (du_workers s) (du_pending s) (du_active s) (du_failed s)
    (du_stopping s) (du_remaining s) (du_done s) (du_loops s) (du_next s) v (du_accepted s) (du_ran s).
Definition du_set_accepted (v : list closure) (s : dlane) : dlane :=
  mkDLane (du_queue s) (du_cap s) (du_workers s) (du_pending s) (du_active s) (du_failed s)
    (du_stopping s) (du_remaining s) (du_done s) (du_loops s) (du_next s) (du_enqueue s) v (du_ran s).
Definition du_set_ran (v : list closure) (s : dlane) : dlane :=
  mkDLane (du_queue s) (du_cap s) (du_workers s) (du_pending s) (du_active s) (du_failed s)
    (du_stopping s) (du_remaining s) (du_done s) (du_loops s) (du_next s) (du_enqueue s) (du_accepted s)
    v.

(** ** The operations of the lane *)

Definition defaultDurabilityConcurrency : Z := 4.

Definition newDurabilityLane (workers queueCap : Z) : dlane :=
  {| du_queue := []; du_cap := if queueCap <=? 0 then 1 else queueCap;
     du_workers := if workers <=? 0 then defaultDurabilityConcurrency else workers;
     du_pending := 0; du_active := 0; du_failed := 0; du_stopping := false; du_remaining := 0;
     du_done := false; du_loops := ∅; du_next := 0; du_enqueue := DIdle; du_accepted := []; du_ran := [] |}.

Definition du_queueLen (d : dlane) : Z := Z.of_nat (length (du_queue d)).

Fixpoint du_spawn (n : nat) (d : dlane) : dlane :=
  match n with
  | O => d
  | S n' =>
      du_spawn n' (du_set_remaining (du_remaining d + 1)
        (du_set_next (S (du_next d)) (du_set_loops (<[du_next d := DSelect]> (du_loops d)) d)))
  end.

Definition du_ensureWorkersLocked (d : dlane) : dlane :=
  if du_stopping d then d
  else
    let target := du_active d + du_pending d in
    let target := if target <? 1 then 1 else target in
    let target := if du_workers d <? target then du_workers d else target in
    du_spawn (Z.to_nat (target - du_remaining d)) d.

Definition du_fail (d : dlane) : dlane := du_set_failed (du_failed d + 1) d.

(** The select of [enqueue], once the function is counted as pending. *)
Definition du_send (f : closure) (d : dlane) : bool * dlane :=
  if du_queueLen d <? du_cap d then
    (true, du_ensureWorkersLocked (du_set_accepted (du_accepted d ++ [f]) (du_set_queue (du_queue d ++ [f]) d)))
  else (false, du_fail (du_set_pending (du_pending d - 1) d)).

(** [enqueue] without interleaving. *)
Definition du_enqueue_fn (fn : option closure) (d : dlane) : bool * dlane :=
  match fn with
  | None => (false, d)
  | Some f => if du_stopping d then (false, du_fail d) else du_send f (du_set_pending (du_pending d + 1) d)
  end.

(** [stop], up to the wait for [done]. *)
Definition du_stop (d : dlane) : dlane :=
  let d := du_set_stopping true d in
  if du_remaining d =? 0 then du_set_done true d else d.

(** ** Interleavings *)

Inductive dlane_event :=
  | DvEnqueue (f : closure)         (* the coordinator enters [enqueue] *)
  | DvEnqueueStep                   (* its next step *)
  | DvStop
  | DvReceive (w : nat)
  | DvIdleTimeout (w : nat)
  | DvStopSeen (w : nat)
  | DvWorkerStep (w : nat).

Definition du_move (w : nat) (pc : dworker) (d : dlane) : dlane :=
  du_set_loops (<[w := pc]> (du_loops d)) d.
Definition du_drop (w : nat) (d : dlane) : dlane := du_set_loops (delete w (du_loops d)) d.

(** [workerMu] is held. *)
Definition du_locked (d : dlane) : bool :=
  match du_enqueue d with DPend _ | DSend _ => true | _ => false end.

Definition du_worker_step (w : nat) (pc : dworker) (d : dlane) : option dlane :=
  match pc with
  | DSelect => None
  | DReceived f => Some (du_move w (DActive f) (du_set_active (du_active d + 1) d))
  | DActive f => Some (du_move w (DRun f) (du_set_pending (du_pending d - 1) d))
  | DRun f => Some (du_move w (DReturned f) d)
  | DReturned f => Some (du_move w DSelect (du_set_ran (du_ran d ++ [f]) (du_set_active (du_active d - 1) d)))
  | DExit =>
      let d := du_set_remaining (du_remaining d - 1) d in
      Some (du_move w (DLeave (du_remaining d =? 0)) d)
  | DLeave last =>
      if du_stopping d then Some (du_drop w (if last then du_set_done true d else d))
      else Some (du_move w DCheck d)
  | DCheck => if 0 <? du_pending d then Some (du_move w DEnsure d) else Some (du_drop w d)
  | DEnsure => if du_locked d then None else Some (du_ensureWorkersLocked (du_drop w d))
  end.

Definition du_enqueue_step (d : dlane) : option dlane :=
  match du_enqueue d with
  | DIdle => None
  | DLock f =>
      if du_stopping d then Some (du_set_enqueue DIdle (du_fail d)) else Some (du_set_enqueue (DPend f) d)
  | DPend f => Some (du_set_enqueue (DSend f) (du_set_pending (du_pending d + 1) d))
  | DSend f => Some (du_set_enqueue DIdle (du_send f d).2)
  end.

Definition dlane_step (ev : dlane_event) (d : dlane) : option dlane :=
  match ev with
  | DvEnqueue f =>
      match du_enqueue d with
      | DIdle => Some (if du_stopping d then du_fail d else du_set_enqueue (DLock f) d)
      | _ => None
      end
  | DvEnqueueStep => du_enqueue_step d
  | DvStop => if du_locked d then None else Some (du_stop d)
  | DvReceive w =>
      match du_loops d !! w, du_queue d with
      | Some DSelect, f :: q => Some (du_move w (DReceived f) (du_set_queue q d))
      | _, _ => None
      end
  | DvIdleTimeout w =>
      match du_loops d !! w with
      | Some DSelect => Some (if du_pending d =? 0 then du_move w DExit d else d)
      | _ => None
      end
  | DvStopSeen w =>
      match du_loops d !! w with
      | Some DSelect => if du_stopping d then Some (du_move w DExit d) else None
      | _ => None
      end
  | DvWorkerStep w => du_loops d !! w ≫= fun pc => du_worker_step w pc d
  end.

Inductive dlane_reachable (workers queueCap : Z) : dlane -> Prop :=
  | dlane_init : dlane_reachable workers queueCap (newDurabilityLane workers queueCap)
  | dlane_next ev d d' : dlane_reachable workers queueCap d -> dlane_step ev d = Some d' ->
      dlane_reachable workers queueCap d'.

Fixpoint drun_events (evs : list dlane_event) (d : dlane) : option dlane :=
  match evs with [] => Some d | ev :: evs' => dlane_step ev d ≫= drun_events evs' end.

(** ** The invariant *)

Definition dcarried (pc : dworker) : option closure :=
  match pc with DReceived f | DActive f | DRun f | DReturned f => Some f | _ => None end.
Definition dcarries (f : closure) (pc : dworker) : Z := if decide (dcarried pc = Some f) then 1 else 0.
Definition dpending (pc : dworker) : Z := match pc with DReceived _ | DActive _ => 1 | _ => 0 end.
Definition dactive (pc : dworker) : Z := match pc with DActive _ | DRun _ | DReturned _ => 1 | _ => 0 end.
Definition dremaining (pc : dworker) : Z := match pc with DLeave _ | DCheck | DEnsure => 0 | _ => 1 end.
Definition denqueue_pending (e : denqueue) : Z := match e with DSend _ => 1 | _ => 0 end.

(** How often [f] occurs. *)
Definition occurs (f : closure) (l : list closure) : Z := lsum (fun g => if decide (g = f) then 1 else 0) l.

Record dlane_ok (d : dlane) : Prop := {
  do_cap : 0 < du_cap d /\ du_queueLen d <= du_cap d;
  do_pending : du_pending d = denqueue_pending (du_enqueue d) + du_queueLen d + msum dpending (du_loops d);
  do_active : du_active d = msum dactive (du_loops d);
  do_remaining : du_remaining d = msum dremaining (du_loops d);
  do_workers : 0 < du_workers d /\ du_remaining d <= du_workers d;
  do_next : forall w pc, du_loops d !! w = Some pc -> (w < du_next d)%nat;
  do_once : forall f, occurs f (du_accepted d) =
    occurs f (du_queue d) + msum (dcarries f) (du_loops d) + occurs f (du_ran d);
  do_done : du_done d = true -> du_stopping d = true;
  do_locked : du_locked d = true -> du_stopping d = false
}.

Lemma occurs_app f l1 l2 : occurs f (l1 ++ l2) = occurs f l1 + occurs f l2.
Proof. apply lsum_app. Qed.

Lemma dlane_init_ok workers queueCap : dlane_ok (newDurabilityLane workers queueCap).
Proof.
  unfold newDurabilityLane, defaultDurabilityConcurrency.
  split; simpl; unfold du_queueLen; simpl; rewrite ?msum_empty; try done;
    repeat case_match; bool_to_prop; lia.
Qed.

(** A worker moves and takes its counters along. *)
Lemma dmove_ok d d' w pc pc' :
  dlane_ok d -> du_loops d !! w = Some pc -> du_loops d' = <[w := pc']> (du_loops d) ->
  du_queue d' = du_queue d -> du_cap d' = du_cap d -> du_workers d' = du_workers d ->
  du_next d' = du_next d -> du_enqueue d' = du_enqueue d -> du_stopping d' = du_stopping d ->
  du_done d' = du_done d -> du_accepted d' = du_accepted d ->
  (forall f, dcarries f pc' + occurs f (du_ran d') = dcarries f pc + occurs f (du_ran d)) ->
  du_pending d' = du_pending d - dpending pc + dpending pc' ->
  du_active d' = du_active d - dactive pc + dactive pc' ->
  du_remaining d' = du_remaining d - dremaining pc + dremaining pc' ->
  dremaining pc' <= dremaining pc -> dlane_ok d'.
Proof.
  intros [O1 O2 O3 O4 O5 O6 O7 O8 O9] Hw El E1 E2 E3 E4 E5 E6 E7 E8 Hran R1 R2 R3 R4.
  split; unfold du_queueLen, du_locked in *;
    rewrite ?El, ?E1, ?E2, ?E3, ?E4, ?E5, ?E6, ?E7, ?E8, ?(msum_insert _ _ _ _ _ Hw); try done; try lia.
  - intros v q [[<- _]|[_ Hv]]%lookup_insert_Some; by eapply O6.
  - intros f. rewrite (msum_insert _ _ _ _ _ Hw), O7. specialize (Hran f). lia.
Qed.

(** A worker with nothing in its hands is gone. *)
Lemma ddrop_ok d d' w pc :
  dlane_ok d -> du_loops d !! w = Some pc -> du_loops d' = delete w (du_loops d) ->
  du_queue d' = du_queue d -> du_cap d' = du_cap d -> du_workers d' = du_workers d ->
  du_next d' = du_next d -> du_enqueue d' = du_enqueue d -> du_stopping d' = du_stopping d ->
  du_accepted d' = du_accepted d -> du_ran d' = du_ran d -> du_pending d' = du_pending d ->
  du_active d' = du_active d -> du_remaining d' = du_remaining d ->
  dcarried pc = None -> dpending pc = 0 -> dactive pc = 0 -> dremaining pc = 0 ->
  (du_done d' = true -> du_stopping d = true) -> dlane_ok d'.
Proof.
  intros [O1 O2 O3 O4 O5 O6 O7 O8 O9] Hw El E1 E2 E3 E4 E5 E6 E7 E8 E9 E10 E11 C1 C2 C3 C4 Hd.
  rewrite (msum_delete dpending _ _ _ Hw) in O2. rewrite (msum_delete dactive _ _ _ Hw) in O3.
  rewrite (msum_delete dremaining _ _ _ Hw) in O4.
  split; unfold du_queueLen, du_locked in *;
    rewrite ?El, ?E1, ?E2, ?E3, ?E4, ?E5, ?E6, ?E7, ?E8, ?E9, ?E10, ?E11; try done; try lia.
  - intros v q [_ Hv]%lookup_delete_Some. by eapply O6.
  - intros f. rewrite O7, (msum_delete (dcarries f) _ _ _ Hw).
    assert (dcarries f pc = 0) as -> by (unfold dcarries; rewrite C1; by rewrite decide_False). lia.
Qed.

Lemma du_spawn_ok n : forall d,
  dlane_ok d -> du_remaining d + Z.of_nat n <= du_workers d -> dlane_ok (du_spawn n d).
Proof.
  induction n as [|n IH]; intros d H Hn; cbn [du_spawn]; [done|].
  apply IH; [|simpl; lia].
  assert (Hnew : du_loops d !! du_next d = None).
  { destruct (du_loops d !! du_next d) as [pc|] eqn:E; [|done]. pose proof (do_next _ H _ _ E). lia. }
  destruct H as [O1 O2 O3 O4 O5 O6 O7 O8 O9].
  split; simpl; rewrite ?(msum_insert_fresh _ _ _ _ Hnew); unfold du_queueLen in *; simpl; try done; try lia.
  - intros w pc [[<- <-]|[_ Hw]]%lookup_insert_Some; [lia|]. pose proof (O6 w pc Hw). lia.
  - intros f. rewrite (msum_insert_fresh _ _ _ _ Hnew), O7. done.
Qed.

Lemma du_ensureWorkersLocked_ok d : dlane_ok d -> dlane_ok (du_ensureWorkersLocked d).
Proof.
  intros H. unfold du_ensureWorkersLocked. destruct (du_stopping d); [done|].
  destruct (do_workers _ H). apply du_spawn_ok; [done|].
  set (t := if du_workers d <? _ then _ else _).
  assert (t <= du_workers d) by (unfold t; case_match; bool_to_prop; lia). lia.
Qed.

Lemma du_spawn_enqueue e n : forall d, du_set_enqueue e (du_spawn n d) = du_spawn n (du_set_enqueue e d).
Proof. induction n as [|n IH]; intros d; cbn [du_spawn]; [done|]. by rewrite IH. Qed.

Lemma du_ensureWorkersLocked_enqueue e d :
  du_set_enqueue e (du_ensureWorkersLocked d) = du_ensureWorkersLocked (du_set_enqueue e d).
Proof. unfold du_ensureWorkersLocked. simpl. destruct (du_stopping d); [done|]. apply du_spawn_enqueue. Qed.

#[local] Ltac dmoves := eapply dmove_ok; [eassumption|eassumption|reflexivity|try done..]; simpl; try lia.

Lemma du_worker_step_ok w pc d d' :
  dlane_ok d -> du_loops d !! w = Some pc -> du_worker_step w pc d = Some d' -> dlane_ok d'.
Proof.
  intros H Hw. destruct pc as [|f|f|f|f| |last| |]; cbn [du_worker_step]; intros E.
  - done.
  - injection E as <-. dmoves.
  - injection E as <-. dmoves.
  - injection E as <-. dmoves.
  - injection E as <-. dmoves. intros g. rewrite occurs_app. unfold dcarries, occurs. simpl.
    repeat case_decide; simplify_eq; try done; lia.
  - injection E as <-. dmoves.
  - destruct (du_stopping d) eqn:Hs; injection E as <-; [|dmoves].
    eapply ddrop_ok; [eassumption|eassumption|by destruct last..|done|done|done|done|done].
  - destruct (0 <? du_pending d); injection E as <-; [dmoves|].
    eapply ddrop_ok; [eassumption|eassumption|reflexivity|try done..]. apply (do_done _ H).
  - destruct (du_locked d); [done|]. injection E as <-. apply du_ensureWorkersLocked_ok.
    eapply ddrop_ok; [eassumption|eassumption|reflexivity|try done..]. apply (do_done _ H).
Qed.

Lemma du_enqueue_step_ok d d' : dlane_ok d -> du_enqueue_step d = Some d' -> dlane_ok d'.
Proof.
  intros H E. pose proof (do_locked _ H) as Hl. unfold du_enqueue_step in E. unfold du_locked in Hl.
  destruct (du_enqueue d) as [|f|f|f] eqn:He; [done| | |];
    destruct H as [O1 O2 O3 O4 O5 O6 O7 O8 O9]; unfold du_locked in O9; rewrite He in *; simpl in O2.
  - destruct (du_stopping d) eqn:Hs; injection E as <-; split; simpl; unfold du_queueLen in *; simpl; try done;
      rewrite ?Hs; done.
  - injection E as <-. split; simpl; unfold du_queueLen in *; simpl; try done; lia.
  - injection E as <-. specialize (Hl eq_refl). unfold du_send.
    destruct (Z.ltb_spec (du_queueLen d) (du_cap d)); cbn [snd].
    + rewrite du_ensureWorkersLocked_enqueue. apply du_ensureWorkersLocked_ok.
      split; simpl; unfold du_queueLen in *; simpl; rewrite ?length_app; simpl; try done; try lia.
      intros g. rewrite !occurs_app, O7. lia.
    + split; simpl; unfold du_queueLen in *; simpl; try done; lia.
Qed.

Lemma dlane_step_ok ev d d' : dlane_ok d -> dlane_step ev d = Some d' -> dlane_ok d'.
Proof.
  intros H E. destruct ev as [f| | |w|w|w|w]; cbn [dlane_step] in E.
  - destruct (du_enqueue d) eqn:He; [|done..]. destruct (du_stopping d) eqn:Hs; injection E as <-;
      destruct H as [O1 O2 O3 O4 O5 O6 O7 O8 O9]; unfold du_locked in O9; rewrite He in *; simpl in O2;
      split; simpl; unfold du_locked, du_queueLen in *; simpl; rewrite ?He; done.
  - by apply (du_enqueue_step_ok d).
  - destruct (du_locked d) eqn:Hl; [done|]. injection E as <-. unfold du_stop.
    destruct H as [O1 O2 O3 O4 O5 O6 O7 O8 O9]. simpl.
    destruct (_ =? _); split; simpl; unfold du_locked, du_queueLen in *; simpl; try done; by rewrite Hl.
  - destruct (du_loops d !! w) as [[]|] eqn:Hw; try done. destruct (du_queue d) as [|f q] eqn:Hq; [done|].
    injection E as <-. destruct H as [O1 O2 O3 O4 O5 O6 O7 O8 O9]. unfold du_queueLen in *.
    rewrite Hq in *. simpl length in *.
    split; unfold du_move, du_queueLen, du_locked in *; simpl; rewrite ?(msum_insert _ _ _ _ _ Hw); simpl; try done; try lia.
    + intros v y [[<- _]|[_ Hv]]%lookup_insert_Some; by eapply O6.
    + intros g. rewrite O7, (msum_insert _ _ _ _ _ Hw). unfold occurs, dcarries. simpl.
      repeat case_decide; simplify_eq; lia.
  - destruct (du_loops d !! w) as [[]|] eqn:Hw; try done. injection E as <-.
    destruct (du_pending d =? 0); [|done]. dmoves.
  - destruct (du_loops d !! w) as [[]|] eqn:Hw; try done. destruct (du_stopping d); [|done].
    injection E as <-. dmoves.
  - destruct (du_loops d !! w) as [pc|] eqn:Hw; [|done]. simpl in E. by apply (du_worker_step_ok w pc d).
Qed.

Lemma dlane_reachable_ok workers queueCap d : dlane_reachable workers queueCap d -> dlane_ok d.
Proof. induction 1 as [|ev d d' _ IH E]; [apply dlane_init_ok|by apply (dlane_step_ok ev d)]. Qed.

Lemma drun_events_reachable workers queueCap evs : forall d d',
  dlane_reachable workers queueCap d -> drun_events evs d = Some d' -> dlane_reachable workers queueCap d'.
Proof.
  induction evs as [|ev evs IH]; intros d d' Hd E; simpl in E; [by injection E as <-|].
  destruct (dlane_step ev d) as [d1|] eqn:E1; [|done]. simpl in E.
  apply (IH d1); [|done]. by apply (dlane_next _ _ ev d).
Qed.

(** ** Properties *)

(** The durability lane loses and repeats nothing: in every interleaving, a
    function it took is, as often as it was taken, in the queue, in the hands of
    a worker, or done; the queue and the workers stay within their limits, and
    [pending] and [active] count exactly what is queued and running. *)
Theorem durability_lane_exact (workers queueCap : Z) (d : dlane) :
  dlane_reachable workers queueCap d ->
  (forall f, occurs f (du_accepted d) =
     occurs f (du_queue d) + msum (dcarries f) (du_loops d) + occurs f (du_ran d)) /\
  du_queueLen d <= du_cap d /\ du_remaining d <= du_workers d /\
  du_active d = msum dactive (du_loops d) /\
  du_pending d = denqueue_pending (du_enqueue d) + du_queueLen d + msum dpending (du_loops d).
Proof. intros H%dlane_reachable_ok. split_and_all; apply H. Qed.

(** The only worker is on its way out when a function arrives; its successor
    takes it, and shutdown comes before the first one read the shutdown flag. *)
Definition early_stop : list dlane_event :=
  [DvEnqueue 7; DvEnqueueStep; DvEnqueueStep; DvEnqueueStep; DvReceive 0]
  ++ repeat (DvWorkerStep 0) 4 ++ [DvIdleTimeout 0; DvWorkerStep 0]
  ++ [DvEnqueue 8; DvEnqueueStep; DvEnqueueStep; DvEnqueueStep; DvReceive 1; DvWorkerStep 1; DvWorkerStep 1]
  ++ [DvStop; DvWorkerStep 0].

(** [stop] can return while a function still runs: [workerDone] decides on
    the count it brought to zero itself, and a worker that was spawned between
    this and its reading of [stopping] is not waited for: [done] is closed. *)
Theorem durability_stop_returns_early :
  exists d, dlane_reachable 1 4 d /\ du_done d = true /\ du_loops d !! 1%nat = Some (DRun 8) /\ du_remaining d = 1.
Proof.
  destruct (drun_events early_stop (newDurabilityLane 1 4)) as [d|] eqn:E; [|by vm_compute in E].
  exists d. split; [exact (drun_events_reachable 1 4 early_stop _ d (dlane_init 1 4) E)|].
  vm_compute in E. injection E as <-. by split_and_all.
Qed.

Definition sample_dlane : dlane :=
  default (newDurabilityLane 1 4) (drun_events (take 6 early_stop) (newDurabilityLane 1 4)).

Lemma sample_dlane_reachable : dlane_reachable 1 4 sample_dlane.
Proof.
  unfold sample_dlane. destruct (drun_events _ _) as [d|] eqn:E; simpl; [|apply dlane_init].
  exact (drun_events_reachable 1 4 _ _ d (dlane_init 1 4) E).
Qed.

Lemma durability_lane_exact_witness :
  occurs 7 (du_accepted sample_dlane) = 1 /\
  occurs 7 (du_accepted sample_dlane) =
    occurs 7 (du_queue sample_dlane) + msum (dcarries 7) (du_loops sample_dlane) + occurs 7 (du_ran sample_dlane).
Proof.
  split; [vm_compute; reflexivity|]. exact (proj1 (durability_lane_exact 1 4 sample_dlane sample_dlane_reachable) 7%nat).
Defined.
