(* ===== verification/Engine.v ===== *)
(** * The coordinator of the task engine

    Models the control loop of [internal/taskengine]: admission
    ([engine_admission.go]), dispatch, workers and resources
    ([engine_dispatch.go]), completion, cancellation, eviction and shutdown
    ([engine_completion.go]), the durable commit protocol ([durability.go]) and
    the dispatcher of requests ([handleRequest] of [engine.go]). Each handler is
    the whole handler, from state to state.

    What the handlers take from outside is an argument of the section:
    [clock n k], the [k]-th reading of the clock during the [n]-th use of it;
    [pool_order n] and [id_order n], the order in which the [n]-th iteration
    over a map visits its keys; [resolver], the handler resolver; [pump], the
    commit transport, and [answer n], whether the [n]-th hand-over to it or to
    the durability lane was accepted. *)

From stdpp Require Import pretty.
From S2P Require Import Prelude.
From S2P Require Import Execution.
From S2P Require Import Tasks.
From S2P Require Import AdmissionTypes.
From S2P Require Import EngineAccounting.
From S2P Require Import EngineConfig.
From S2P Require Import EngineState.

(** ** Decision cells *)

Inductive submitDecisionState := decisionPending | decisionAccepted | decisionRejected | decisionCancelled.

#[global] Instance submitDecisionState_eq_dec : EqDecision submitDecisionState.
Proof. solve_decision. Defined.

(** The compare-and-swap of a cell that holds [cell]. *)
Definition decide_cell (next cell : submitDecisionState) : bool * submitDecisionState :=
  if decide (cell = decisionPending) then (true, next) else (false, cell).

Inductive controlDecisionState := controlDecisionPending | controlDecisionApplied | controlDecisionCancelled.

#[global] Instance controlDecisionState_eq_dec : EqDecision controlDecisionState.
Proof. solve_decision. Defined.

Definition decide_control (next cell : controlDecisionState) : bool * controlDecisionState :=
  if decide (cell = controlDecisionPending) then (true, next) else (false, cell).

(** The optional interfaces of the commit transport. *)
Inductive pump_kind := PumpAck | PumpSized | PumpPlain.

(** [terminalStateFor] of [durability.go]. *)
Definition terminalStateFor (outcome : Outcome) : TaskState :=
  match outcome with
  | OutcomeCompleted => StateCompleted
  | OutcomeTimedOut => StateTimedOut
  | OutcomeCancelled => StateCancelled
  | _ => StateFailed
  end.

Definition zero_failure_result (id : TaskID) (attempt : AttemptID) (o : Outcome) (c : Cause)
    (d : Disposition) (started finished : time) (f : FailureInfo) : TaskResult :=
  mkResult id attempt o c d started finished 0 None f.

(** ** Lists used as slices *)

Fixpoint index_of (x : nat) (l : list nat) : option nat :=
  match l with
  | [] => None
  | y :: l' => if (y =? x)%nat then Some 0%nat else S <$> index_of x l'
  end.

Definition runningCount (l : list slot) : Z := Z.of_nat (length (List.filter sl_running l)).

Fixpoint first_free (i : nat) (l : list slot) : option nat :=
  match l with
  | [] => None
  | x :: l' => if sl_running x then first_free (S i) l' else Some i
  end.

(** ** Resources, on the maps of the engine *)

Definition resourcesAvailable (used capacity : gmap string Z) (spec : WorkSpec) : bool :=
  forallb (fun r => negb (zget (rr_Name r) capacity <? zget (rr_Name r) used + rr_Amount r))
    (ws_Resources spec).

Definition reserve_all (rs : list ResourceRequirement) (used : gmap string Z) : gmap string Z :=
  fold_left (fun m r => <[rr_Name r := zget (rr_Name r) m + rr_Amount r]> m) rs used.

Definition release_one (m : gmap string Z) (r : ResourceRequirement) : gmap string Z :=
  let v := zget (rr_Name r) m - rr_Amount r in
  if v <=? 0 then delete (rr_Name r) m else <[rr_Name r := v]> m.

Definition release_all (rs : list ResourceRequirement) (used : gmap string Z) : gmap string Z :=
  fold_left release_one rs used.

Section Engine.
Context {A L : Type} {AO : AdmissionOps A} {LO : DeliveryOps L}.
Variable clock : nat -> nat -> time.
Variable pool_order : nat -> list PoolID -> list PoolID.
Variable id_order : nat -> list TaskID -> list TaskID.
Variable resolver : option (string -> option govalue -> option closure * option goerror).
Variable pump : option pump_kind.
Variable answer : nat -> bool.

#[local] Abbreviation engine := (engine A L).

(** ** The environment *)

Definition tick (s : engine) : nat * engine := (e_ticks s, e_set_ticks (S (e_ticks s)) s).
Definition now (s : engine) : time * engine := let '(n, s) := tick s in (clock n 0, s).
Definition ask (s : engine) : bool * engine := let '(n, s) := tick s in (answer n, s).
Definition range_pools (s : engine) : list PoolID * engine :=
  let '(n, s) := tick s in (pool_order n (map fst (map_to_list (e_configPools s))), s).
Definition range_ids (s : engine) : list TaskID * engine :=
  let '(n, s) := tick s in (id_order n (map fst (map_to_list (e_registry s))), s).
Definition alloc (s : engine) : nat * engine := (e_fresh s, e_set_fresh (S (e_fresh s)) s).

(** ** Settlement ([engine_completion.go]) *)

Definition syncActiveTasks (delta : Z) (s : engine) : engine :=
  e_set_activeTasks (e_activeTasks s + delta) s.

Definition checkDrained (s : engine) : engine :=
  if e_quiesced s && (e_activeTasks s =? 0) && negb (e_drained s)
  then e_set_drainDone true (e_set_drained true s) else s.

(** [e.retainedBytes -= n], and not below zero. *)
Definition release_retained (n : Z) (s : engine) : engine :=
  let b := e_retainedBytes s - n in
  e_set_retainedBytes (if b <? 0 then 0 else b) s.

(** [evictTerminalHead]; every round takes one identifier off the order, so one
    more round than it is long is enough fuel. *)
Fixpoint evict_head (fuel : nat) (shouldEvict : engine -> bool) (s : engine) : engine :=
  match fuel with
  | O => s
  | S fuel' =>
      if shouldEvict s then
        match e_terminalOrder s with
        | [] => s
        | oldest :: rest =>
            let s := e_set_terminalOrder rest s in
            let s :=
              match e_registry s !! oldest with
              | Some r =>
                  if terminal_state (r_state r) then
                    let s := release_retained (r_retainedBytes r) s in
                    e_set_registry (delete oldest (e_registry s)) s
                  else s
              | None => s
              end in
            evict_head fuel' shouldEvict s
        end
      else s
  end.

Definition evictTerminalHead (shouldEvict : engine -> bool) (s : engine) : engine :=
  evict_head (S (length (e_terminalOrder s))) shouldEvict s.

Definition over_retention (s : engine) : bool :=
  if (0 <? e_maxTerminalRetained s) &&
     (e_maxTerminalRetained s <? Z.of_nat (length (e_terminalOrder s))) then true
  else (0 <? e_maxRetainedBytes s) && (e_maxRetainedBytes s <? e_retainedBytes s).

Definition evictTerminalRecords (s : engine) : engine := evictTerminalHead over_retention s.

Definition head_expired (now : time) (s : engine) : bool :=
  match e_terminalOrder s with
  | [] => false
  | id :: _ =>
      match e_registry s !! id with
      | None => true
      | Some r =>
          if terminal_state (r_state r) then e_terminalTTL s <? time_sub now (r_finishedAt r) else true
      end
  end.

Definition evictExpiredTerminal (now : time) (s : engine) : engine :=
  if e_terminalTTL s <=? 0 then s else evictTerminalHead (head_expired now) s.

Fixpoint first_expiry (s : engine) (order : list TaskID) : option time :=
  match order with
  | [] => None
  | id :: order' =>
      match e_registry s !! id with
      | None => first_expiry s order'
      | Some r =>
          if negb (terminal_state (r_state r)) || is_zero (r_finishedAt r) then first_expiry s order'
          else Some (time_add (r_finishedAt r) (e_terminalTTL s))
      end
  end.

Definition earliestTerminalExpiry (s : engine) : option time :=
  if e_terminalTTL s <=? 0 then None else first_expiry s (e_terminalOrder s).

Definition onTaskSettled (rec : option taskRecord) (s : engine) : engine :=
  let s := syncActiveTasks (-1) s in
  let s :=
    match rec with
    | Some r =>
        if isTerminal rec then
          evictTerminalRecords (e_set_terminalOrder (e_terminalOrder s ++ [ws_ID (r_spec r)]) s)
        else s
    | None => s
    end in
  checkDrained s.

(** The fields a terminal record keeps of its specification. *)
Definition strip_spec (spec : WorkSpec) : WorkSpec :=
  mkWorkSpec (ws_ID spec) (ws_Scope spec) (ws_QuotaOwner spec) (ws_Pool spec) (ws_Class spec)
    "" 0 0 "" None None [] None None None.

Definition settleTerminal (id : TaskID) (s : engine) : engine :=
  match e_registry s !! id with
  | None => add_fault (FaultNilRecord id) s
  | Some rec =>
      let rec :=
        match ws_Job (r_spec rec) with
        | Some job =>
            if decide (tr_AttemptID (r_result rec) = "")
            then r_set_result (tr_set_AttemptID (or_AttemptID job) (r_result rec)) rec else rec
        | None => rec
        end in
      let s := if 0 <? e_resultSlotsHeld s then e_set_resultSlotsHeld (e_resultSlotsHeld s - 1) s else s in
      let '(rec, s) :=
        match ws_OnComplete (r_spec rec) with
        | Some cb =>
            if r_callbackReserved rec then
              let '(_, d) := dl_enqueueReserved cb (r_result rec) (e_delivery s) in
              (r_set_callbackReserved false rec, e_set_delivery d s)
            else (rec, s)
        | None => (rec, s)
        end in
      let detached := terminalDetachedSpecBytes (r_spec rec) in
      let detached := if r_retainedBytes rec <? detached then r_retainedBytes rec else detached in
      let rec := r_set_retainedBytes (r_retainedBytes rec - detached) rec in
      let s := release_retained detached s in
      let rec := r_set_spec (strip_spec (r_spec rec)) rec in
      let rec := r_set_pendingResult zero_result (r_set_permit None (r_set_cancelFunc None rec)) in
      let s := if r_done rec then add_fault (FaultCloseOfClosed id) s else s in
      let rec := r_set_done true rec in
      onTaskSettled (Some rec) (set_rec id rec s)
  end.

(** Store the bounded result of a record and charge it. *)
Definition store_result (id : TaskID) (rec : taskRecord) (res : TaskResult) (s : engine) : engine :=
  let '(bounded, delta) := boundResult (e_maxOutputBytes s) (e_maxFailureBytes s) res in
  let rec := r_set_result bounded rec in
  let rec := r_set_retainedBytes (r_retainedBytes rec + delta) rec in
  e_set_retainedBytes (e_retainedBytes s + delta) (set_rec id rec s).

(** ** Workers ([engine.go], [engine_dispatch.go]) *)

Definition spawnWorker (pool : PoolID) (slotID : nat) (s : engine) : bool * engine :=
  match pool_slots s pool !! slotID with
  | None => (false, s)
  | Some x =>
      if sl_running x then (false, s)
      else
        let '(t, s) := now s in
        (true, set_slot pool slotID (fun _ => mkSlot true t true (Some None)) s)
  end.

Definition spawnNextWorker (pool : PoolID) (s : engine) : bool * engine :=
  if zget pool (e_poolConcurrencies s) <=? runningCount (pool_slots s pool) then (false, s)
  else
    match first_free 0 (pool_slots s pool) with
    | None => (false, s)
    | Some slotID =>
        let '(ok, s) := spawnWorker pool slotID s in
        if ok then (true, set_idle pool (idle_slots s pool ++ [slotID]) s) else (false, s)
    end.

Definition retireWorker (pool : PoolID) (slotID : nat) (s : engine) : bool * engine :=
  if runningCount (pool_slots s pool) <=? zget pool (e_poolMinWorkers s) then (false, s)
  else
    match index_of slotID (idle_slots s pool) with
    | None => (false, s)
    | Some index =>
        let s := set_idle pool (delete index (idle_slots s pool)) s in
        (true, set_slot pool slotID (fun x => mkSlot false 0 false (sl_mailbox x)) s)
    end.

(** Every round retires an idle worker, so the idle slots are enough fuel. *)
Fixpoint retire_excess (fuel : nat) (pool : PoolID) (s : engine) : engine :=
  match fuel with
  | O => s
  | S fuel' =>
      if zget pool (e_poolConcurrencies s) <? runningCount (pool_slots s pool) then
        match last (idle_slots s pool) with
        | None => s
        | Some slotID =>
            let '(ok, s) := retireWorker pool slotID s in
            if ok then retire_excess fuel' pool s else s
        end
      else s
  end.

Definition retireExcessWorkers (pool : PoolID) (s : engine) : engine :=
  retire_excess (length (idle_slots s pool)) pool s.

(** The loop of [sweepIdleWorkers] over the idle slots of a pool, from position
    [i - 1] down to the first. *)
Fixpoint sweep_idle (i : nat) (pool : PoolID) (now : time) (timeout : duration) (minimum running : Z)
    (s : engine) : engine :=
  match i with
  | O => s
  | S i' =>
      if running <=? minimum then s
      else
        match idle_slots s pool !! i' with
        | None => add_fault (FaultIndex pool i') s
        | Some slotID =>
            match pool_slots s pool !! slotID with
            | None => add_fault (FaultIndex pool slotID) s
            | Some x =>
                if is_zero (sl_idleSince x) then sweep_idle i' pool now timeout minimum running s
                else if timeout <=? time_sub now (sl_idleSince x) then
                  let '(ok, s) := retireWorker pool slotID s in
                  sweep_idle i' pool now timeout minimum (if ok then running - 1 else running) s
                else sweep_idle i' pool now timeout minimum running s
            end
        end
  end.

Definition sweep_idle_pool (now : time) (s : engine) (pool : PoolID) : engine :=
  let minimum := zget pool (e_poolMinWorkers s) in
  let timeout := orElse (zget pool (e_poolIdleTimeouts s)) (10 * second) in
  let running := runningCount (pool_slots s pool) in
  if running <=? minimum then s
  else sweep_idle (length (idle_slots s pool)) pool now timeout minimum running s.

Definition sweepIdleWorkers (now : time) (s : engine) : engine :=
  let '(pools, s) := range_pools s in fold_left (sweep_idle_pool now) pools s.

Fixpoint min_deadline (l : list slot) (idle : list nat) (timeout : duration) (acc : option time)
    : option time :=
  match idle with
  | [] => acc
  | i :: idle' =>
      let since := match l !! i with Some x => sl_idleSince x | None => 0 end in
      let acc :=
        if is_zero since then acc
        else
          let deadline := time_add since timeout in
          match acc with
          | None => Some deadline
          | Some earliest => if before deadline earliest then Some deadline else acc
          end in
      min_deadline l idle' timeout acc
  end.

Definition earliestRetirementDeadline (s : engine) : option time * engine :=
  let '(pools, s) := range_pools s in
  (fold_left (fun acc pool =>
     if runningCount (pool_slots s pool) <=? zget pool (e_poolMinWorkers s) then acc
     else min_deadline (pool_slots s pool) (idle_slots s pool)
            (orElse (zget pool (e_poolIdleTimeouts s)) (10 * second)) acc) pools None, s).

(** ** Dispatch ([engine_dispatch.go]) *)

Definition expire_one (now : time) (s : engine) (entry : QueueEntry) : engine :=
  let id := qe_ID entry in
  match e_registry s !! id with
  | None => s
  | Some rec =>
      if decide (r_state rec = StateQueued) then
        let msg := "queue deadline expired before execution" in
        let rec := r_set_errorMsg msg (r_set_finishedAt now (r_set_state StateTimedOut rec)) in
        let res := zero_failure_result id "" OutcomeTimedOut CauseQueueExpired DispositionRetryable 0
          now (mkFailure "queue_expired" msg "") in
        settleTerminal id (store_result id rec res s)
      else s
  end.

Definition sweepExpired (pool : PoolID) (now : time) (s : engine) : engine :=
  let '(expired, a) := a_pop_expired pool now (e_adm s) in
  let s := fold_left (expire_one now) expired (e_set_adm a s) in
  evictExpiredTerminal now s.

(** The send on the mailbox of a slot: it blocks the coordinator when the
    mailbox is full or was never made. *)
Definition send_assignment (pool : PoolID) (slotID : nat) (a : workerAssignment) (s : engine) : engine :=
  match pool_slots s pool !! slotID ≫= sl_mailbox with
  | None => add_fault (FaultNilMailbox pool slotID) s
  | Some (Some _) => add_fault (FaultMailboxFull pool slotID) s
  | Some None =>
      set_slot pool slotID (fun x => mkSlot (sl_running x) (sl_idleSince x) (sl_cancel x) (Some (Some a))) s
  end.

(** The assignment of the candidate [spec] to the first idle slot. *)
Definition assign (pool : PoolID) (slotID : nat) (rest : list nat) (spec : WorkSpec) (id : TaskID)
    (rec : taskRecord) (s : engine) : engine :=
  let s := set_idle pool rest s in
  let s := set_slot pool slotID (fun x => mkSlot (sl_running x) 0 (sl_cancel x) (sl_mailbox x)) s in
  let epoch := e_dispatchEpoch s + 1 in
  let s := e_set_dispatchEpoch epoch s in
  let '(ptr, s) := alloc s in
  let permit := mkPermit ptr pool (ws_ID (r_spec rec)) epoch in
  let '(ctx, s) := alloc s in
  let s := e_set_resourceUsed (reserve_all (ws_Resources (r_spec rec)) (e_resourceUsed s)) s in
  let rec := r_set_permit (Some permit) rec in
  let rec := r_set_dispatchEpoch epoch rec in
  let rec := r_set_state StateDispatching rec in
  let rec := r_set_cancelFunc (Some ctx) rec in
  let s := set_rec id rec s in
  let s := send_assignment pool slotID (mkAssignment spec permit ctx) s in
  if r_cancelRequested rec then e_set_cancelledCtxs ({[ctx]} ∪ e_cancelledCtxs s) s else s.

(** The loop of [tryDispatch]; every round takes a waiting task out of the
    controller, so the fuel is the number of waiting tasks and one. *)
Fixpoint dispatch_loop (fuel : nat) (pool : PoolID) (s : engine) : engine :=
  match fuel, idle_slots s pool with
  | O, _ | _, [] => s
  | S fuel', slotID :: rest =>
      let '(n, s) := tick s in
      match a_select (clock n) (resourcesAvailable (e_resourceUsed s) (e_resourceCapacity s)) pool
              (e_adm s) with
      | SelectPanic => add_fault (FaultSelectPanic pool) s
      | NoEligible a => e_set_adm a s
      | Selected candidate a =>
          let s := e_set_adm a s in
          let id := qe_ID candidate in
          match e_registry s !! id with
          | Some rec =>
              if decide (r_state rec = StateQueued)
              then dispatch_loop fuel' pool (assign pool slotID rest (qe_Spec candidate) id rec s)
              else dispatch_loop fuel' pool s
          | None => dispatch_loop fuel' pool s
          end
      end
  end.

(** [if waiting > 0 && no idle slot { spawnNextWorker }]. *)
Definition grow (pool : PoolID) (s : engine) : engine :=
  if (0 <? (a_stats pool (e_adm s)).1) && bool_decide (idle_slots s pool = [])
  then (spawnNextWorker pool s).2 else s.

Definition tryDispatch (pool : PoolID) (s : engine) : engine :=
  if negb (e_rootLive s) then s
  else
    let '(t, s) := now s in
    let s := sweepExpired pool t s in
    let s := grow pool s in
    let s := dispatch_loop (S (Z.to_nat (a_stats pool (e_adm s)).1)) pool s in
    grow pool s.

Definition dispatch_all (s : engine) : engine :=
  let '(pools, s) := range_pools s in fold_left (fun s pool => tryDispatch pool s) pools s.

Definition markWorkerIdle (pool : PoolID) (slotID : nat) (s : engine) : engine :=
  match pool_slots s pool !! slotID with
  | None => s
  | Some x =>
      if negb (sl_running x) then s
      else
        let '(t, s) := now s in
        let s := set_slot pool slotID (fun x => mkSlot (sl_running x) t (sl_cancel x) (sl_mailbox x)) s in
        if decide (slotID ∈ idle_slots s pool) then s
        else
          let s := set_idle pool (idle_slots s pool ++ [slotID]) s in
          dispatch_all (retireExcessWorkers pool s)
  end.

(** ** Live configuration *)

(** The loop that refills a pool to its minimum: it stops when no worker can be
    spawned, so the slots of the pool are enough fuel. *)
Fixpoint refill_workers (fuel : nat) (pool : PoolID) (minimum : Z) (s : engine) : engine :=
  match fuel with
  | O => s
  | S fuel' =>
      if runningCount (pool_slots s pool) <? minimum then
        let '(ok, s) := spawnNextWorker pool s in
        if ok then refill_workers fuel' pool minimum s else s
      else s
  end.

Definition applyPoolConfig (pool : PoolID) (cfg : PoolEngineConfig) (s : engine)
    : option goerror * engine :=
  let hardMax := Z.of_nat (length (pool_slots s pool)) in
  if hardMax =? 0 then (cfg_error ("unknown pool " +:+ pool)%string, s)
  else if (pe_Concurrency cfg <=? 0) || (hardMax <? pe_Concurrency cfg)
          || (pe_MinConcurrency cfg <? 0) || (pe_Concurrency cfg <? pe_MinConcurrency cfg) then
    (cfg_error "invalid live pool bounds", s)
  else if pe_IdleTimeout cfg <? 0 then (cfg_error "live pool idle timeout cannot be negative", s)
  else if pe_BacklogLimit cfg <? 0 then (cfg_error "live pool backlog limit cannot be negative", s)
  else if pe_PayloadBudget cfg <? 0 then (cfg_error "live pool payload budget cannot be negative", s)
  else
    let cfg := pe_set_MinConcurrency (effectivePoolMinimum cfg (pe_Concurrency cfg)) cfg in
    let cfg := if pe_IdleTimeout cfg =? 0
      then pe_set_IdleTimeout (zget pool (e_poolIdleTimeouts s)) cfg else cfg in
    let '(a, err) := a_set_pool_config pool (mkPoolConfig (pe_BacklogLimit cfg) (pe_PayloadBudget cfg))
      (e_adm s) in
    match err with
    | Some _ => (err, s)
    | None =>
        let s := e_set_adm a s in
        let s := e_set_configPools (<[pool := cfg]> (e_configPools s)) s in
        let s := e_set_poolConcurrencies (<[pool := pe_Concurrency cfg]> (e_poolConcurrencies s)) s in
        let s := e_set_poolMinWorkers (<[pool := pe_MinConcurrency cfg]> (e_poolMinWorkers s)) s in
        let s := e_set_poolIdleTimeouts (<[pool := pe_IdleTimeout cfg]> (e_poolIdleTimeouts s)) s in
        let s := retireExcessWorkers pool s in
        let '(t, s) := now s in
        let s := sweepIdleWorkers t s in
        (None, refill_workers (S (length (pool_slots s pool))) pool (pe_MinConcurrency cfg) s)
    end.

Definition applyResourceCapacity (name : string) (capacity : Z) (s : engine) : option goerror * engine :=
  if bool_decide (name = "") || (capacity <=? 0) then
    (cfg_error "resource name and positive capacity required", s)
  else if capacity <? zget name (e_resourceUsed s) then
    (cfg_error ("resource " +:+ name +:+ " currently uses " +:+ pretty (zget name (e_resourceUsed s)))%string, s)
  else (None, dispatch_all (e_set_resourceCapacity (<[name := capacity]> (e_resourceCapacity s)) s)).

(** ** Durable commits ([durability.go]) *)

Definition releaseCommitWaiter (seq : Z) (s : engine) : engine :=
  e_set_commitWaiters (e_commitWaiters s ∖ {[seq]}) s.

(** The message of a record whose commit is uncertain, and its charge. *)
Definition uncertain_result (note : string) (rec : taskRecord) (cap_detail : bool) (s : engine)
    : TaskResult :=
  let res := r_pendingResult rec in
  let f := tr_Failure res in
  let msg := if decide (fi_Message f = "") then note else (fi_Message f +:+ "; " +:+ note)%string in
  let res := tr_set_Cause CausePersistenceFailure res in
  let msg := truncateField msg (e_maxFailureBytes s) in
  let detail := if cap_detail then truncateField (fi_Detail f) (e_maxFailureBytes s) else fi_Detail f in
  tr_set_Failure (mkFailure (fi_Code f) msg detail) res.

Definition settle_uncertain (id : TaskID) (rec : taskRecord) (res : TaskResult) (s : engine) : engine :=
  let oldLen := slen (fi_Message (tr_Failure (r_result rec))) in
  let rec := r_set_durability durRecovery (r_set_state StateRecoveryRequired rec) in
  let rec := r_set_errorMsg (fi_Message (tr_Failure res)) (r_set_result res rec) in
  let delta := slen (fi_Message (tr_Failure res)) - oldLen in
  if 0 <? delta then
    let rec := r_set_retainedBytes (r_retainedBytes rec + delta) rec in
    settleTerminal id (e_set_retainedBytes (e_retainedBytes s + delta) (set_rec id rec s))
  else settleTerminal id (set_rec id rec s).

(** A terminal state other than success shows the message of the result. *)
Definition with_error_message (rec : taskRecord) : taskRecord :=
  if bool_decide (r_state rec ∈ [StateTimedOut; StateCancelled; StateFailed])
  then r_set_errorMsg (fi_Message (tr_Failure (r_result rec))) rec else rec.

Definition applyCommitAck (id : TaskID) (seq : Z) (ackErr : option goerror) (s : engine) : engine :=
  match e_registry s !! id with
  | None => s
  | Some rec =>
      if bool_decide (r_state rec <> StateCommitPending)
         || bool_decide (r_durability rec <> durPending) || negb (r_commitSeq rec =? seq) then s
      else
        let s := releaseCommitWaiter seq s in
        let s := e_set_commitPending (e_commitPending s - 1) s in
        match ackErr with
        | None =>
            let rec := r_set_durability durCommitted rec in
            let rec := r_set_state (terminalStateFor (r_execOutcome rec)) rec in
            let rec := r_set_result (r_pendingResult rec) rec in
            settleTerminal id (set_rec id (with_error_message rec) s)
        | Some e =>
            let note := ("durable commit failed or uncertain: " +:+ error_text e)%string in
            settle_uncertain id rec (uncertain_result note rec true s) s
        end
  end.

Definition abandonPending (id : TaskID) (reason : string) (s : engine) : engine :=
  match e_registry s !! id with
  | None => s
  | Some rec =>
      if decide (r_state rec = StateCommitPending) then
        let s := releaseCommitWaiter (r_commitSeq rec) s in
        let s := e_set_commitPending (e_commitPending s - 1) s in
        let note := ("engine shutdown before durable acknowledgement: " +:+ reason)%string in
        settle_uncertain id rec (uncertain_result note rec false s) s
      else s
  end.

Definition add_commit (rec : taskRecord) (path : commit_path) (s : engine) : engine :=
  let res := r_pendingResult rec in
  e_set_commits (e_commits s ++ [mkCommit (ws_ID (r_spec rec)) (r_commitSeq rec)
    (ws_Commit (r_spec rec)) res (durabilityCommitRetainedBytes res) path]) s.

(** The direct commit in the durability lane, or the explicit failure. *)
Definition direct_commit (rec : taskRecord) (s : engine) : engine :=
  let '(ok, s) := ask s in
  if ok then add_commit rec ViaDirectLane s
  else applyCommitAck (ws_ID (r_spec rec)) (r_commitSeq rec)
         (Some (text_error "durability commit lane saturated")) s.

(** The second call of the pump ([EnqueueSized] or [Enqueue]) and the waiter. *)
Definition pump_commit (rec : taskRecord) (s : engine) : engine :=
  let '(ok, s) := ask s in
  if ok then
    let s := e_set_commitWaiters ({[r_commitSeq rec]} ∪ e_commitWaiters s) s in
    let '(ok, s) := ask s in
    if ok then add_commit rec ViaPumpWaiter s
    else applyCommitAck (ws_ID (r_spec rec)) (r_commitSeq rec)
           (Some (text_error "durability acknowledgement lane saturated")) s
  else direct_commit rec s.

Definition beginCommit (id : TaskID) (s : engine) : engine :=
  match e_registry s !! id with
  | None => add_fault (FaultNilRecord id) s
  | Some rec =>
      let rec := r_set_durability durPending (r_set_state StateCommitPending rec) in
      let s := e_set_commitPending (e_commitPending s + 1) (set_rec id rec s) in
      match pump with
      | None => direct_commit rec s
      | Some PumpAck =>
          let '(ok, s) := ask s in
          if ok then add_commit rec ViaAckPump s else pump_commit rec s
      | Some _ => pump_commit rec s
      end
  end.

(** ** Completion, cancellation, shutdown ([engine_completion.go]) *)

Definition cancel_ctx (rec : taskRecord) (s : engine) : engine :=
  match r_cancelFunc rec with
  | None => s
  | Some ctx => e_set_cancelledCtxs ({[ctx]} ∪ e_cancelledCtxs s) s
  end.

Definition releaseResources (spec : WorkSpec) (s : engine) : engine :=
  e_set_resourceUsed (release_all (ws_Resources spec) (e_resourceUsed s)) s.

(** The result of a task that was cancelled while it ran. *)
Definition late_cancelled (reason : Cause) (res : TaskResult) : TaskResult :=
  let f := tr_Failure res in
  let msg := if decide (fi_Message f = "")
    then ("late cancellation applied: " +:+ reason)%string else fi_Message f in
  tr_set_Failure (mkFailure reason msg (fi_Detail f))
    (tr_set_Disposition DispositionCancelled (tr_set_Cause reason (tr_set_Outcome OutcomeCancelled res))).

(** The fence of a message of a worker: it must come from the grant the record
    holds, of the current dispatch epoch. *)
Definition owns_grant (grant : option permit) (rec : taskRecord) : bool :=
  match grant, r_permit rec with
  | Some g, Some p => (pm_ptr g =? pm_ptr p)%nat && (pm_dispatchEpoch g =? r_dispatchEpoch rec)
  | _, _ => false
  end.

(** The tail of a completion, once the freed capacity was handed out. *)
Definition finish_completion (id : TaskID) (spec : WorkSpec) (s : engine) : engine :=
  match e_registry s !! id with
  | None => add_fault (FaultNilRecord id) s
  | Some rec =>
      let rec := r_set_errorMsg (if decide (r_errorMsg rec = "") then ""
        else truncateField (r_errorMsg rec) (e_maxFailureBytes s)) rec in
      let s := store_result id rec (r_result rec) s in
      match e_registry s !! id with
      | None => s
      | Some rec =>
          if negb (RequiresDurability (Some spec)) then
            let rec := r_set_state (terminalStateFor (tr_Outcome (r_result rec))) rec in
            settleTerminal id (set_rec id (with_error_message rec) s)
          else
            let rec := r_set_execOutcome (tr_Outcome (r_result rec)) rec in
            let rec := r_set_pendingResult (r_result rec) rec in
            beginCommit id (set_rec id rec s)
      end
  end.

Definition applyWorkerCompleted (res : TaskResult) (grant : option permit) (s : engine) : engine :=
  let id := tr_TaskID res in
  match e_registry s !! id with
  | None => s
  | Some rec =>
      if negb (bool_decide (r_state rec ∈ [StateDispatching; StateRunning])) then s
      else if negb (owns_grant grant rec) then s
      else
        let rec := r_set_finishedAt (tr_FinishedAt res) (r_set_result res rec) in
        let rec := if r_cancelRequested rec
          then r_set_result (late_cancelled (r_cancelReason rec) res) rec else rec in
        let spec := r_spec rec in
        let s := releaseResources spec s in
        let s := e_set_adm (a_terminal spec (e_adm s)) s in
        let s := cancel_ctx rec s in
        let rec := if is_zero (r_startedAt rec) then r_set_startedAt (tr_StartedAt res) rec else rec in
        finish_completion id spec (dispatch_all (set_rec id rec s))
  end.

Definition applyCancel (id : TaskID) (reason : Cause) (s : engine)
    : CancelReceipt * option goerror * engine :=
  match e_registry s !! id with
  | None => (mkReceipt id false StateNone reason, Some ErrTaskNotFound, s)
  | Some rec =>
      match r_state rec with
      | StateCreated | StateAdmitted | StateQueued =>
          let '(_, a) := a_remove id (e_adm s) in
          let s := e_set_adm a s in
          let '(t, s) := now s in
          let rec := r_set_cancelReason reason (r_set_cancelRequested true (r_set_state StateCancelled rec)) in
          let rec := r_set_finishedAt t rec in
          let res := zero_failure_result id "" OutcomeCancelled reason DispositionCancelled 0 t
            (mkFailure reason "" "") in
          (mkReceipt id true StateCancelled reason, None, settleTerminal id (store_result id rec res s))
      | StateDispatching | StateRunning =>
          let rec := r_set_cancelReason reason (r_set_cancelRequested true rec) in
          (mkReceipt id true (r_state rec) reason, None, cancel_ctx rec (set_rec id rec s))
      | st => (mkReceipt id false st reason, None, s)
      end
  end.

(** The scope tombstones: every round drops the oldest. *)
Fixpoint trim_tombstones (fuel : nat) (s : engine) : engine :=
  match fuel, e_cancelledScopeOrder s with
  | O, _ | _, [] => s
  | S fuel', oldest :: rest =>
      if (0 <? e_maxScopeTombstones s) &&
         (e_maxScopeTombstones s <? Z.of_nat (length (e_cancelledScopeOrder s))) then
        trim_tombstones fuel'
          (e_set_cancelledScopes (delete oldest (e_cancelledScopes s)) (e_set_cancelledScopeOrder rest s))
      else s
  end.

Definition in_scope (scope : ScopeIdentity) (rec : taskRecord) : bool :=
  let sc := ws_Scope (r_spec rec) in
  if decide (sc_Owner sc = sc_Owner scope) then
    if negb (sc_Generation scope =? 0) && negb (sc_Generation sc =? sc_Generation scope) then false
    else true
  else false.

Definition cancel_one (scope : ScopeIdentity) (reason : Cause) (acc : Z * engine) (id : TaskID)
    : Z * engine :=
  let '(n, s) := acc in
  match e_registry s !! id with
  | None => (n, s)
  | Some rec =>
      if negb (in_scope scope rec) then (n, s)
      else if terminal_state (r_state rec) || bool_decide (r_state rec = StateCommitPending) then (n, s)
      else
        let '(receipt, err, s) := applyCancel id reason s in
        (if bool_decide (err = None) && cr_Accepted receipt then n + 1 else n, s)
  end.

Definition applyCancelScope (scope : ScopeIdentity) (reason : Cause) (s : engine) : Z * engine :=
  let s := if decide (is_Some (e_cancelledScopes s !! scope)) then s
    else e_set_cancelledScopeOrder (e_cancelledScopeOrder s ++ [scope]) s in
  let s := e_set_cancelledScopes (<[scope := reason]> (e_cancelledScopes s)) s in
  let s := trim_tombstones (length (e_cancelledScopeOrder s)) s in
  let '(ids, s) := range_ids s in
  fold_left (cancel_one scope reason) ids (0, s).

Definition applyResult (id : TaskID) (s : engine) : option TaskResult :=
  match e_registry s !! id with
  | None => None
  | Some rec => if terminal_state (r_state rec) then Some (r_result rec) else None
  end.

Definition applySnapshot (id : TaskID) (s : engine) : option TaskSnapshot :=
  (fun rec =>
     let spec := r_spec rec in
     mkSnapshot (ws_ID spec) (ws_Scope spec) (ws_QuotaOwner spec) (ws_Pool spec) (ws_Class spec)
       (r_state rec) (r_admittedAt rec) (r_queuedAt rec) (r_startedAt rec) (r_finishedAt rec)
       (r_errorMsg rec)) <$> e_registry s !! id.

Definition applyQuiesce (s : engine) : engine :=
  checkDrained (e_set_quiesced true (e_set_accepting false s)).

Definition forceCancelInFlight (id : TaskID) (s : engine) : engine :=
  match e_registry s !! id with
  | None => s
  | Some rec =>
      if negb (bool_decide (r_state rec ∈ [StateDispatching; StateRunning])) then s
      else
        let rec := r_set_cancelReason CauseShutdown (r_set_cancelRequested true rec) in
        let s := cancel_ctx rec s in
        let s := match r_permit rec with
          | None => s
          | Some p => e_set_releasedPermits ({[pm_ptr p]} ∪ e_releasedPermits s) s
          end in
        let s := releaseResources (r_spec rec) s in
        let s := e_set_adm (a_terminal (r_spec rec) (e_adm s)) s in
        let '(t, s) := now s in
        let durable := RequiresDurability (Some (r_spec rec)) in
        let rec := r_set_finishedAt t
          (r_set_state (if durable then StateRecoveryRequired else StateCancelled) rec) in
        let msg := if durable
          then "durable in-flight task abandoned by forced shutdown; effect unknown; recovery required"
          else "task cancelled by forced shutdown" in
        let attempt := match ws_Job (r_spec rec) with None => "" | Some job => or_AttemptID job end in
        let res := zero_failure_result (ws_ID (r_spec rec)) attempt OutcomeCancelled CauseShutdown
          DispositionCancelled (r_startedAt rec) t (mkFailure "shutdown" msg "") in
        let '(bounded, _) := boundResult (e_maxOutputBytes s) (e_maxFailureBytes s) res in
        let rec := r_set_errorMsg (fi_Message (tr_Failure bounded)) rec in
        settleTerminal id (store_result id rec res s)
  end.

Definition finalize_one (s : engine) (id : TaskID) : engine :=
  match e_registry s !! id with
  | None => s
  | Some rec =>
      match r_state rec with
      | StateQueued => (applyCancel id CauseShutdown s).2
      | StateDispatching | StateRunning => forceCancelInFlight id s
      | StateCommitPending => abandonPending id "shutdown" s
      | _ => s
      end
  end.

Definition applyStopFinalize (s : engine) : engine :=
  let s := e_set_quiesced true (e_set_accepting false s) in
  let '(ids, s) := range_ids s in
  checkDrained (fold_left finalize_one ids s).

Definition applyWorkerStarted (id : TaskID) (grant : option permit) (startedAt : time) (s : engine)
    : engine :=
  match e_registry s !! id with
  | None => s
  | Some rec =>
      if decide (r_state rec = StateDispatching) then
        if owns_grant grant rec
        then set_rec id (r_set_startedAt startedAt (r_set_state StateRunning rec)) s else s
      else s
  end.

(** ** Admission ([engine_admission.go]) *)

Definition reject {X} (reason : string) (base : option goerror) : X + goerror :=
  inr (NewAdmissionError reason base).

Definition closed_scope_error (cause : Cause) (sc : ScopeIdentity) (with_generation : bool) : goerror :=
  let gen := if with_generation
    then (" (generation " +:+ pretty (sc_Generation sc) +:+ ")")%string else "" in
  wrap_error (error_text ErrScopeClosed +:+ ": scope " +:+ sc_Owner sc +:+ gen +:+ " is closed ("
    +:+ cause +:+ ")")%string ErrScopeClosed.

(** The tombstone that closes a scope: of its generation, or of all. *)
Definition scope_closed (s : engine) (sc : ScopeIdentity) : option goerror :=
  if decide (sc_Owner sc = "") then None
  else
    match e_cancelledScopes s !! sc with
    | Some cause => Some (closed_scope_error cause sc true)
    | None =>
        match e_cancelledScopes s !! mkScope (sc_Owner sc) 0 with
        | Some cause => Some (closed_scope_error cause sc false)
        | None => None
        end
    end.

Definition resource_missing (s : engine) (spec : WorkSpec) : bool :=
  existsb (fun r =>
    match e_resourceCapacity s !! rr_Name r with
    | None => true
    | Some capacity => capacity <? rr_Amount r
    end) (ws_Resources spec).

(** [callerCtx.Err()], the [n]-th time it is called. *)
Definition ctx_error (callerCtx : option (nat -> option goerror)) (n : nat) : option goerror :=
  match callerCtx with None => None | Some err => err n end.

(** The checks of [admitSubmit] before anything is reserved: the specification
    as it will be stored with its charges, or the error. *)
Definition admission_checks (callerCtx : option (nat -> option goerror)) (spec : WorkSpec) (t : time)
    (s : engine) : (WorkSpec * Z * Z) + goerror :=
  match ctx_error callerCtx 0 with
  | Some err => reject ReasonLinearizationCancel (errors_Join [Some ErrLinearizationCancel; Some err])
  | None =>
  let '(spec, invalid) := Validate spec in
  match invalid with
  | Some err => inr (wrap_error ("invalid work spec: " +:+ error_text err)%string err)
  | None =>
  if decide (is_Some (e_registry s !! ws_ID spec)) then inr (text_error "task id already registered")
  else
  let resolved :=
    match ws_Handler spec, resolver with
    | None, Some resolve =>
        if decide (ws_HandlerRef spec <> "") then
          match resolve (ws_HandlerRef spec) (ws_Input spec) with
          | (Some handler, None) => inl (ws_set_Handler (Some handler) spec)
          | (_, err) => reject ReasonUnknownHandler (errors_Join [Some ErrUnknownHandler; err])
          end
        else inl spec
    | _, _ => inl spec
    end in
  match resolved with
  | inr err => inr err
  | inl spec =>
  if decide (ws_Handler spec = None) then reject ReasonUnknownHandler (Some ErrUnknownHandler)
  else if negb (is_zero (ws_QueueDeadline spec)) && negb (before t (ws_QueueDeadline spec)) then
    reject ReasonDeadlineExpired (Some ErrDeadlineExpired)
  else if negb (e_accepting s) then reject ReasonEngineQuiescing (Some ErrEngineQuiescing)
  else
  match scope_closed s (ws_Scope spec) with
  | Some err => reject ReasonScopeClosed (Some err)
  | None =>
  if (0 <? e_resultCapacity s) && (e_resultCapacity s <=? e_resultSlotsHeld s) then
    reject ReasonResultBackpressure (Some ErrResultBackpressure)
  else
  match payloadSize (ws_Input spec) with
  | inr err => reject ReasonUnsupportedPayload (Some err)
  | inl inputBytes =>
  let admissionBytes := inputBytes + if decide (is_Some (ws_Job spec)) then jobRefBytes else 0 in
  if resource_missing s spec then reject ReasonResourceUnavailable (Some ErrResourceUnavailable)
  else
  match a_can_admit spec admissionBytes (e_adm s) with
  | Some err => inr err
  | None =>
  let retainedCharge := taskOverheadBytes + inputBytes + workSpecMetadataBytes spec in
  if (0 <? e_maxRetainedBytes s) && (e_maxRetainedBytes s <? e_retainedBytes s + retainedCharge) then
    reject ReasonRetainedBudget (Some ErrRetainedBudget)
  else
  match freezePayload (ws_Input spec) with
  | inr err => reject ReasonUnsupportedPayload (Some err)
  | inl frozenInput =>
  let spec := freezeWorkSpecMetadata (ws_set_Input frozenInput spec) in
  match ctx_error callerCtx 1 with
  | Some err => reject ReasonLinearizationCancel (errors_Join [Some ErrLinearizationCancel; Some err])
  | None => inl (spec, admissionBytes, retainedCharge)
  end end end end end end end end.

(** The publication of an accepted task. *)
Definition publish (spec : WorkSpec) (admissionBytes retainedCharge : Z) (callbackReserved : bool)
    (s : engine) : engine :=
  let '(t, s) := now s in
  let seq := e_commitSeq s + 1 in
  let s := e_set_commitSeq seq s in
  let rec := mkRecord spec StateAdmitted None 0 zero_result false None false "" callbackReserved
    retainedCharge durNone zero_result OutcomeUnset seq t t 0 0 "" in
  let s := set_rec (ws_ID spec) rec s in
  let s := e_set_resultSlotsHeld (e_resultSlotsHeld s + 1) s in
  let s := e_set_retainedBytes (e_retainedBytes s + retainedCharge) s in
  let s := syncActiveTasks 1 s in
  let s := set_rec (ws_ID spec) (r_set_state StateQueued rec) s in
  let '(ptr, s) := alloc s in
  match a_enqueue (mkEntry ptr spec t admissionBytes) (e_adm s) with
  | None => add_fault (FaultEnqueuePanic (ws_ID spec)) s
  | Some a => tryDispatch (ws_Pool spec) (e_set_adm a s)
  end.

(** The ticket of a task is its identifier. The decision cell is [None] when the
    request has none. *)
Definition admitSubmit (callerCtx : option (nat -> option goerror)) (spec : WorkSpec)
    (cell : option submitDecisionState) (s : engine)
    : (TaskID + goerror) * option submitDecisionState * engine :=
  let '(t, s) := now s in
  match admission_checks callerCtx spec t s with
  | inr err => (inr err, cell, s)
  | inl (spec, admissionBytes, retainedCharge) =>
      let '(reserved, s) :=
        match ws_OnComplete spec with
        | None => (true, s)
        | Some _ => let '(ok, d) := dl_reserve (e_delivery s) in (ok, e_set_delivery d s)
        end in
      if negb reserved then (reject ReasonDeliveryBackpressure (Some ErrDeliveryBackpressure), cell, s)
      else
        let callbackReserved := bool_decide (is_Some (ws_OnComplete spec)) in
        let '(accepted, cell) :=
          match cell with
          | None => (true, None)
          | Some c => let '(ok, c) := decide_cell decisionAccepted c in (ok, Some c)
          end in
        if accepted then
          (inl (ws_ID spec), cell, publish spec admissionBytes retainedCharge callbackReserved s)
        else
          let s := if callbackReserved
            then e_set_delivery (dl_releaseReservation (e_delivery s)) s else s in
          (reject ReasonLinearizationCancel (Some ErrLinearizationCancel), cell, s)
  end.

(** ** Requests ([engine.go]) *)

Record PoolRuntimeStats := mkPoolStats {
  prs_Workers : Z; prs_MinWorkers : Z; prs_MaxWorkers : Z; prs_Idle : Z; prs_IdleWorkers : Z;
  prs_Running : Z; prs_Dispatching : Z; prs_Waiting : Z; prs_WaitingBytes : Z
}.

(** [snapshotPoolRuntimeStats] of [diagnostics.go]. *)
Definition count_state (pool : PoolID) (st : TaskState) (s : engine) : Z :=
  msum (fun r => if decide (ws_Pool (r_spec r) = pool /\ r_state r = st) then 1 else 0) (e_registry s).

Definition snapshotPoolRuntimeStats (s : engine) : gmap PoolID PoolRuntimeStats :=
  map_imap (fun pool maximum =>
    let '(waiting, waitingBytes) := a_stats pool (e_adm s) in
    let idle := Z.of_nat (length (idle_slots s pool)) in
    Some (mkPoolStats (runningCount (pool_slots s pool)) (zget pool (e_poolMinWorkers s)) maximum
      idle idle (count_state pool StateRunning s) (count_state pool StateDispatching s)
      waiting waitingBytes)) (e_poolConcurrencies s).

Inductive engineRequest :=
  | ReqSubmit (callerCtx : option (nat -> option goerror)) (spec : WorkSpec)
      (cell : option submitDecisionState)
  | ReqCancel (id : TaskID) (reason : Cause)
  | ReqCancelScope (scope : ScopeIdentity) (reason : Cause)
  | ReqSnapshot (id : TaskID)
  | ReqResult (id : TaskID)
  | ReqStats
  | ReqWorkerStarted (id : TaskID) (grant : option permit) (started : time)
  | ReqWorkerCompleted (res : TaskResult) (grant : option permit) (pool : PoolID) (slotID : nat)
  | ReqCommitAck (id : TaskID) (seq : Z) (ackErr : option goerror)
  | ReqSweep
  | ReqQuiesce
  | ReqSetOwnerLimits (owner : OwnerID) (limits : OwnerLimits) (cell : option controlDecisionState)
  | ReqConfigurePool (pool : PoolID) (cfg : PoolEngineConfig)
  | ReqSetResourceCapacity (name : string) (capacity : Z)
  | ReqStopFinalize.

Inductive engineReply :=
  | ReplyTicket (ticket : TaskID + goerror) (cell : option submitDecisionState)
  | ReplyReceipt (receipt : CancelReceipt) (err : option goerror)
  | ReplyCount (n : Z)
  | ReplySnapshot (snap : option TaskSnapshot)
  | ReplyResult (res : option TaskResult)
  | ReplyStats (pools : gmap PoolID PoolRuntimeStats) (resources : gmap string (Z * Z))
      (resultSlotsHeld activeTasks retainedBytes terminalCount commitPending : Z)
  | ReplyControl (err : option goerror) (cell : option controlDecisionState)
  | ReplyErr (err : option goerror)
  | ReplyNone.

Definition sweep_pools (t : time) (s : engine) : engine :=
  let '(pools, s) := range_pools s in fold_left (fun s pool => sweepExpired pool t s) pools s.

Definition handleRequest (req : engineRequest) (s : engine) : engineReply * engine :=
  match req with
  | ReqSubmit callerCtx spec cell =>
      let '(r, cell, s) := admitSubmit callerCtx spec cell s in
      let cell := match r, cell with
        | inr _, Some c => Some (decide_cell decisionRejected c).2
        | _, _ => cell
        end in
      (ReplyTicket r cell, s)
  | ReqCancel id reason => let '(receipt, err, s) := applyCancel id reason s in (ReplyReceipt receipt err, s)
  | ReqCancelScope scope reason => let '(n, s) := applyCancelScope scope reason s in (ReplyCount n, s)
  | ReqSnapshot id => (ReplySnapshot (applySnapshot id s), s)
  | ReqResult id => (ReplyResult (applyResult id s), s)
  | ReqStats =>
      (ReplyStats (snapshotPoolRuntimeStats s)
         (map_imap (fun name capacity => Some (zget name (e_resourceUsed s), capacity)) (e_resourceCapacity s))
         (e_resultSlotsHeld s) (e_activeTasks s) (e_retainedBytes s)
         (Z.of_nat (length (e_terminalOrder s))) (e_commitPending s), s)
  | ReqWorkerStarted id grant started => (ReplyNone, applyWorkerStarted id grant started s)
  | ReqWorkerCompleted res grant pool slotID =>
      (ReplyNone, markWorkerIdle pool slotID (applyWorkerCompleted res grant s))
  | ReqCommitAck id seq ackErr => (ReplyNone, applyCommitAck id seq ackErr s)
  | ReqSweep => let '(t, s) := now s in (ReplyNone, sweep_pools t s)
  | ReqQuiesce => (ReplyNone, applyQuiesce s)
  | ReqSetOwnerLimits owner limits cell =>
      let '(ok, cell) := match cell with
        | None => (true, None)
        | Some c => let '(ok, c) := decide_control controlDecisionApplied c in (ok, Some c)
        end in
      if ok then (ReplyControl None cell, e_set_adm (a_set_owner_limits owner limits (e_adm s)) s)
      else (ReplyControl (Some (sentinel context_Canceled)) cell, s)
  | ReqConfigurePool pool cfg => let '(err, s) := applyPoolConfig pool cfg s in (ReplyErr err, s)
  | ReqSetResourceCapacity name capacity =>
      let '(err, s) := applyResourceCapacity name capacity s in (ReplyErr err, s)
  | ReqStopFinalize => (ReplyNone, applyStopFinalize s)
  end.

(** One round of [runLoop]: a request, the sweep timer, or the end of the root
    context, after which the loop returns. *)
Inductive loop_event := LoopRequest (req : engineRequest) | LoopSweepTimer | LoopRootDone.

Definition run_event (ev : loop_event) (s : engine) : engine :=
  match ev with
  | LoopRequest req => (handleRequest req s).2
  | LoopSweepTimer =>
      let '(t, s) := now s in
      sweepIdleWorkers t (sweep_pools t s)
  | LoopRootDone => applyStopFinalize s
  end.

(** ** [Start] *)

(** The minimum workers of a pool. *)
Fixpoint start_workers (slotID n : nat) (pool : PoolID) (s : engine) : engine :=
  match n with
  | O => s
  | S n' =>
      let '(ok, s) := spawnWorker pool slotID s in
      let s := if ok then set_idle pool (idle_slots s pool ++ [slotID]) s else s in
      start_workers (S slotID) n' pool s
  end.

(** [Start] of an engine made from [cfg]; [runStarted]: it was started before. *)
Definition Start (cfg : Config) (runStarted : bool) (s : engine) : option goerror * engine :=
  match ValidateConfig cfg with
  | Some configErr => (Some configErr, s)
  | None =>
      if runStarted then (Some (text_error "task engine already started"), s)
      else
        let s := e_set_rootLive true (e_set_accepting true s) in
        let s := e_set_drainDone false (e_set_drained false (e_set_quiesced false s)) in
        let '(pools, s) := range_pools s in
        (None, fold_left (fun s pool =>
           start_workers 0 (Z.to_nat (zget pool (e_poolMinWorkers s))) pool s) pools s)
  end.

End Engine.
