(* ===== verification/EngineInvariant.v ===== *)
(** * The invariant of the task engine

    What holds of the coordinator of Engine.v between two requests, and the
    lemmas that its steps keep it, proved against the laws of the admission
    controller ([AdmissionLaws]). Within a handler the invariant is broken in
    three controlled ways, which a [phase] names: [ph_released] are in-flight
    records whose resources and admission slot were already given back,
    [ph_settling] terminal records that are not settled yet, and [ph_dequeued]
    queued records the controller no longer holds. *)

From S2P Require Import Prelude.
From S2P Require Import Execution.
From S2P Require Import Tasks.
From S2P Require Import AdmissionTypes.
From S2P Require Import EngineAccounting.
From S2P Require Import EngineConfig.
From S2P Require Import EngineState.
From S2P Require Import Engine.

Record phase := mkPhase {
  ph_released : gset TaskID; ph_settling : gset TaskID; ph_dequeued : gset TaskID
}.

Definition quiet : phase := mkPhase ∅ ∅ ∅.

Definition rec_id (r : taskRecord) : TaskID := ws_ID (r_spec r).
Definition ind (b : bool) : Z := if b then 1 else 0.

Definition live (ph : phase) (r : taskRecord) : bool :=
  negb (terminal_state (r_state r)) || bool_decide (rec_id r ∈ ph_settling ph).
Definition flying (r : taskRecord) : bool :=
  bool_decide (r_state r ∈ [StateDispatching; StateRunning]).
Definition inflight (ph : phase) (r : taskRecord) : bool :=
  flying r && bool_decide (rec_id r ∉ ph_released ph).
Definition pending (r : taskRecord) : bool := bool_decide (r_state r = StateCommitPending).

(** The amount of the resource [n] a specification needs. *)
Definition amount (n : string) (spec : WorkSpec) : Z :=
  lsum (fun q => if decide (rr_Name q = n) then rr_Amount q else 0) (ws_Resources spec).

Definition resources_ok (spec : WorkSpec) : Prop := valid_resources (ws_Resources spec).

(** One record: its identity, the closing of its channel, the phases of
    durability, and the permit of an in-flight task. *)
Record record_ok (ph : phase) (epoch seq : Z) (fresh : nat) (id : TaskID) (r : taskRecord) : Prop := {
  rk_id : rec_id r = id;
  rk_state : r_state r ∈ [StateQueued; StateDispatching; StateRunning; StateCommitPending] \/
    terminal_state (r_state r) = true;
  rk_done : r_done r = negb (live ph r);
  rk_retained : 0 <= r_retainedBytes r;
  rk_callback : live ph r = true -> r_callbackReserved r = bool_decide (is_Some (ws_OnComplete (r_spec r)));
  rk_resources : resources_ok (r_spec r);
  rk_durability : pending r = true <-> r_durability r = durPending;
  rk_commit : pending r = true -> is_Some (ws_Commit (r_spec r));
  rk_seq : r_commitSeq r <= seq;
  rk_permit : flying r = true -> exists p, r_permit r = Some p /\
    pm_taskID p = id /\ pm_pool p = ws_Pool (r_spec r) /\
    pm_dispatchEpoch p = r_dispatchEpoch r /\ r_dispatchEpoch r <= epoch /\ (pm_ptr p < fresh)%nat
}.

Section Invariant.
Context {A L : Type} {AO : AdmissionOps A} {LO : DeliveryOps L}.
#[local] Abbreviation engine := (engine A L).
Implicit Types (s : engine) (ph : phase) (r : taskRecord).

(** The controller holds exactly the queued records. *)
Record admission_ok ph s : Prop := {
  ao_ok : a_ok (e_adm s);
  ao_index : forall id e, a_index (e_adm s) !! id = Some e ->
    (exists r, e_registry s !! id = Some r /\ r_state r = StateQueued /\ r_spec r = qe_Spec e) /\
    (qe_ptr e < e_fresh s)%nat;
  ao_queued : forall id r, e_registry s !! id = Some r -> r_state r = StateQueued ->
    id ∉ ph_dequeued ph -> is_Some (a_index (e_adm s) !! id)
}.

(** The counters are sums over the registry. *)
Record accounts_ok ph s : Prop := {
  ac_slots : e_resultSlotsHeld s = msum (fun r => ind (live ph r)) (e_registry s);
  ac_active : e_activeTasks s = msum (fun r => ind (live ph r)) (e_registry s);
  ac_retained : e_retainedBytes s = msum r_retainedBytes (e_registry s);
  ac_pending : e_commitPending s = msum (fun r => ind (pending r)) (e_registry s);
  ac_used : forall n, zget n (e_resourceUsed s) =
    msum (fun r => if inflight ph r then amount n (r_spec r) else 0) (e_registry s);
  ac_used_pos : forall n v, e_resourceUsed s !! n = Some v -> 0 < v;
  ac_owners : forall o, a_active (e_adm s) o =
    msum (fun r => ind (inflight ph r && bool_decide (ws_QuotaOwner (r_spec r) = o))) (e_registry s);
  ac_locks : forall key id, a_locks (e_adm s) !! key = Some id <->
    key <> "" /\ exists r, e_registry s !! id = Some r /\ inflight ph r = true /\
      ws_OrderingKey (r_spec r) = key;
  ac_capacity : forall n, zget n (e_resourceUsed s) <= zget n (e_resourceCapacity s);
  ac_credits : 0 < e_resultCapacity s -> e_resultSlotsHeld s <= e_resultCapacity s
}.

(** The retention order lists the settled records. *)
Record order_ok ph s : Prop := {
  or_nodup : NoDup (e_terminalOrder s);
  or_elems : forall id, id ∈ e_terminalOrder s <->
    exists r, e_registry s !! id = Some r /\ live ph r = false
}.

(** The life cycle: a drained engine is quiesced and idle, and its drain channel
    is closed. *)
Record lifecycle_ok s : Prop := {
  lc_quiesced : e_quiesced s = true -> e_accepting s = false;
  lc_drained : e_drained s = true -> e_quiesced s = true /\ e_activeTasks s = 0;
  lc_done : e_drainDone s = e_drained s
}.

Record engine_ok ph s : Prop := {
  eo_records : forall id r, e_registry s !! id = Some r ->
    record_ok ph (e_dispatchEpoch s) (e_commitSeq s) (e_fresh s) id r;
  eo_admission : admission_ok ph s;
  eo_accounts : accounts_ok ph s;
  eo_order : order_ok ph s;
  eo_lifecycle : lifecycle_ok s
}.

(** ** Lemmas *)

Context {AL : AdmissionLaws A}.

Lemma ind_nonneg b : 0 <= ind b.
Proof. by destruct b. Qed.

Lemma terminal_not_queued r : terminal_state (r_state r) = true -> r_state r <> StateQueued.
Proof. intros H Hq. rewrite Hq in H. done. Qed.

Lemma terminal_not_flying r : terminal_state (r_state r) = true -> flying r = false.
Proof. unfold flying. destruct (r_state r); done. Qed.

Lemma terminal_not_pending r : terminal_state (r_state r) = true -> pending r = false.
Proof. unfold pending. destruct (r_state r); done. Qed.

Lemma live_of_not_terminal ph r : terminal_state (r_state r) = false -> live ph r = true.
Proof. unfold live. by intros ->. Qed.

(** Steps that change nothing the invariant looks at but the clock. *)
Lemma engine_ok_frame ph s s' :
  engine_ok ph s ->
  e_registry s' = e_registry s -> e_adm s' = e_adm s -> e_dispatchEpoch s' = e_dispatchEpoch s ->
  e_commitSeq s' = e_commitSeq s -> e_fresh s' = e_fresh s ->
  e_resultSlotsHeld s' = e_resultSlotsHeld s -> e_activeTasks s' = e_activeTasks s ->
  e_retainedBytes s' = e_retainedBytes s -> e_commitPending s' = e_commitPending s ->
  e_resourceUsed s' = e_resourceUsed s -> e_terminalOrder s' = e_terminalOrder s ->
  e_resourceCapacity s' = e_resourceCapacity s -> e_resultCapacity s' = e_resultCapacity s ->
  lifecycle_ok s' -> engine_ok ph s'.
Proof.
  intros [H1 [H2 H3 H4] [G1 G2 G3 G4 G5 G6 G7 G8 G9 G10] [O1 O2] _]
    Er Ea Ed Ec Ef E1 E2 E3 E4 E5 E6 E7 E8 Hl.
  split; [|split|split|split|done];
    rewrite ?Er, ?Ea, ?Ed, ?Ec, ?Ef, ?E1, ?E2, ?E3, ?E4, ?E5, ?E6, ?E7, ?E8; done.
Qed.

(** A controller that gave up nothing but some waiting tasks. *)
Lemma engine_ok_adm ph ph' s a :
  engine_ok ph s -> a_ok a -> a_same_slots (e_adm s) a ->
  (forall id e, a_index a !! id = Some e -> a_index (e_adm s) !! id = Some e) ->
  ph_released ph' = ph_released ph -> ph_settling ph' = ph_settling ph ->
  (forall id, id ∉ ph_dequeued ph' -> id ∉ ph_dequeued ph) ->
  (forall id, id ∉ ph_dequeued ph' -> is_Some (a_index (e_adm s) !! id) -> is_Some (a_index a !! id)) ->
  engine_ok ph' (e_set_adm a s).
Proof.
  intros H Hok (Hp & Hact & Hlk & _) Hsub Er Es Hd Hidx.
  assert (Hlive : forall r, live ph' r = live ph r) by (intros; unfold live; by rewrite Es).
  assert (Hinf : forall r, inflight ph' r = inflight ph r) by (intros; unfold inflight; by rewrite Er).
  destruct H as [H1 [H2 H3 H4] [G1 G2 G3 G4 G5 G6 G7 G8 G9 G10] [O1 O2] Hl].
  split; [| | | |by destruct Hl; split].
  - intros id r Hr. specialize (H1 id r Hr). destruct H1. by split; rewrite ?Hlive.
  - split; simpl; [done| |].
    + intros id e He. by apply H3, Hsub.
    + intros id r Hr Hq Hn. apply Hidx; [done|]. by apply (H4 id r Hr Hq), Hd.
  - split; simpl; try done.
    + rewrite G1. apply msum_ext. intros. by rewrite Hlive.
    + rewrite G2. apply msum_ext. intros. by rewrite Hlive.
    + intros n. rewrite G5. apply msum_ext. intros. by rewrite Hinf.
    + intros o. rewrite Hact, G7. apply msum_ext. intros. by rewrite Hinf.
    + intros key id. rewrite Hlk, G8. by setoid_rewrite Hinf.
  - split; simpl; [done|]. intros id. rewrite O2. by setoid_rewrite Hlive.
Qed.

(** ** Counting over the registry when one record changes *)

Section Counting.
Context (R : gmap TaskID taskRecord) (id : TaskID) (r : taskRecord) (Hr : R !! id = Some r).
Implicit Types f g : taskRecord -> Z.

(** The counts may read the phase, as long as it only changes for [id]. *)
Lemma msum_replace f g r' :
  (forall j x, R !! j = Some x -> j <> id -> g x = f x) ->
  msum g (<[id := r']> R) = msum f R - f r + g r'.
Proof.
  intros Hfg. rewrite (msum_insert g R id r' r Hr).
  rewrite (msum_delete g R id r Hr), (msum_delete f R id r Hr).
  rewrite (msum_ext g f (delete id R)); [lia|].
  intros j x [Hne Hx]%lookup_delete_Some. by apply (Hfg j).
Qed.

Lemma msum_remove f g :
  (forall j x, R !! j = Some x -> j <> id -> g x = f x) ->
  msum g (delete id R) = msum f R - f r.
Proof.
  intros Hfg. rewrite (msum_delete f R id r Hr).
  rewrite (msum_ext g f (delete id R)); [lia|].
  intros j x [Hne Hx]%lookup_delete_Some. by apply (Hfg j).
Qed.

End Counting.

(** Two phases that treat every record but [id] alike. *)
Definition phase_same (ph ph' : phase) (id : TaskID) : Prop :=
  forall j, j <> id -> (j ∈ ph_released ph' <-> j ∈ ph_released ph) /\
    (j ∈ ph_settling ph' <-> j ∈ ph_settling ph) /\ (j ∈ ph_dequeued ph' <-> j ∈ ph_dequeued ph).

Lemma phase_same_refl ph id : phase_same ph ph id.
Proof. intros j _. tauto. Qed.

Lemma live_same ph ph' id r : phase_same ph ph' id -> rec_id r <> id -> live ph' r = live ph r.
Proof.
  intros H Hr. destruct (H (rec_id r) Hr) as (_ & Hs & _). unfold live. f_equal.
  by apply bool_decide_ext.
Qed.

Lemma inflight_same ph ph' id r : phase_same ph ph' id -> rec_id r <> id -> inflight ph' r = inflight ph r.
Proof.
  intros H Hr. destruct (H (rec_id r) Hr) as (Hs & _ & _). unfold inflight. f_equal.
  apply bool_decide_ext. by rewrite Hs.
Qed.

(** Rewriting one record. The hypotheses are what the step must do to the
    counters, the controller, the locks and the order because of that record. *)
Lemma engine_ok_rec ph ph' s s' id r r' :
  engine_ok ph s -> e_registry s !! id = Some r -> e_registry s' = <[id := r']> (e_registry s) ->
  phase_same ph ph' id ->
  (e_dispatchEpoch s <= e_dispatchEpoch s') -> e_commitSeq s' = e_commitSeq s ->
  (e_fresh s <= e_fresh s')%nat ->
  record_ok ph' (e_dispatchEpoch s') (e_commitSeq s') (e_fresh s') id r' ->
  (* the controller *)
  a_ok (e_adm s') ->
  (forall j e, a_index (e_adm s') !! j = Some e -> a_index (e_adm s) !! j = Some e /\
     (j = id -> r_state r' = StateQueued /\ r_spec r' = r_spec r)) ->
  (forall j, j <> id -> a_index (e_adm s') !! j = a_index (e_adm s) !! j) ->
  (r_state r' = StateQueued -> id ∉ ph_dequeued ph' -> is_Some (a_index (e_adm s') !! id)) ->
  (* the counters *)
  e_resultSlotsHeld s' = e_resultSlotsHeld s - ind (live ph r) + ind (live ph' r') ->
  e_activeTasks s' = e_activeTasks s - ind (live ph r) + ind (live ph' r') ->
  e_retainedBytes s' = e_retainedBytes s - r_retainedBytes r + r_retainedBytes r' ->
  e_commitPending s' = e_commitPending s - ind (pending r) + ind (pending r') ->
  (forall n, zget n (e_resourceUsed s') = zget n (e_resourceUsed s)
     - (if inflight ph r then amount n (r_spec r) else 0)
     + (if inflight ph' r' then amount n (r_spec r') else 0)) ->
  (forall n v, e_resourceUsed s' !! n = Some v -> 0 < v) ->
  (forall o, a_active (e_adm s') o = a_active (e_adm s) o
     - ind (inflight ph r && bool_decide (ws_QuotaOwner (r_spec r) = o))
     + ind (inflight ph' r' && bool_decide (ws_QuotaOwner (r_spec r') = o))) ->
  (forall key j, a_locks (e_adm s') !! key = Some j <->
     (j <> id /\ a_locks (e_adm s) !! key = Some j) \/
     (j = id /\ key <> "" /\ inflight ph' r' = true /\ ws_OrderingKey (r_spec r') = key)) ->
  (* the order and the life cycle *)
  NoDup (e_terminalOrder s') ->
  (forall j, j ∈ e_terminalOrder s' <->
     (j <> id /\ j ∈ e_terminalOrder s) \/ (j = id /\ live ph' r' = false)) ->
  (forall n, zget n (e_resourceUsed s') <= zget n (e_resourceCapacity s')) ->
  (0 < e_resultCapacity s' -> e_resultSlotsHeld s' <= e_resultCapacity s') ->
  lifecycle_ok s' -> engine_ok ph' s'.
Proof.
  intros [H1 [H2 H3 H4] [G1 G2 G3 G4 G5 G6 G7 G8 G9 G10] [O1 O2] _] Hr Er Hph Hep Hseq Hfr Hrec'
    Ha Hidx Hidx' Hq' E1 E2 E3 E4 E5 E6 E7 E8 N1 N2 N3 N4 Hl.
  assert (Hne : forall j x, e_registry s !! j = Some x -> j <> id -> rec_id x <> id).
  { intros j x Hx Hj. by rewrite (rk_id _ _ _ _ _ _ (H1 j x Hx)). }
  assert (Hlive : forall j x, e_registry s !! j = Some x -> j <> id -> live ph' x = live ph x).
  { intros j x Hx Hj. apply (live_same _ _ id); [done|by apply (Hne j)]. }
  assert (Hinf : forall j x, e_registry s !! j = Some x -> j <> id -> inflight ph' x = inflight ph x).
  { intros j x Hx Hj. apply (inflight_same _ _ id); [done|by apply (Hne j)]. }
  split; [| | | |done].
  - intros j x Hx. rewrite Er in Hx. apply lookup_insert_Some in Hx as [[<- <-]|[Hj Hx]]; [done|].
    destruct (H1 j x Hx) as [K1 K2 K3 K4 K5 K6 K7 K8 K9 K10].
    assert (Hlx : live ph' x = live ph x) by (apply (Hlive j); done).
    split; try done; try (rewrite Hlx; done); [lia|]. intros Hf.
    destruct (K10 Hf) as (p & ? & ? & ? & ? & ? & ?). exists p. split_and_all; try done; lia.
  - split; [done| |].
    + intros j e He. destruct (Hidx j e He) as [He' Hid]. destruct (H3 j e He') as [(x & Hx & Hs & Hsp) Hp].
      split; [|lia]. rewrite Er. destruct (decide (j = id)) as [->|Hj].
      * exists r'. rewrite lookup_insert_eq. destruct (Hid eq_refl) as [? Hspec].
        rewrite Hspec. replace r with x by congruence. done.
      * exists x. by rewrite lookup_insert_ne.
    + intros j x Hx Hs Hn. rewrite Er in Hx.
      apply lookup_insert_Some in Hx as [[<- <-]|[Hj Hx]]; [by apply Hq'|].
      rewrite Hidx' by done. apply (H4 j x Hx Hs).
      destruct (Hph j (not_eq_sym Hj)) as (_ & _ & Hd). tauto.
  - split; try done; rewrite ?Er.
    + rewrite (msum_replace _ id r Hr (fun x => ind (live ph x))); [lia|].
      intros j x Hx Hj. by rewrite (Hlive j).
    + rewrite (msum_replace _ id r Hr (fun x => ind (live ph x))); [lia|].
      intros j x Hx Hj. by rewrite (Hlive j).
    + rewrite (msum_replace _ id r Hr r_retainedBytes); [lia|done].
    + rewrite (msum_replace _ id r Hr (fun x => ind (pending x))); [lia|done].
    + intros n. rewrite (msum_replace _ id r Hr (fun x => if inflight ph x then amount n (r_spec x) else 0)).
      { rewrite <- G5. apply E5. } intros j x Hx Hj. by rewrite (Hinf j).
    + intros o. rewrite (msum_replace _ id r Hr
        (fun x => ind (inflight ph x && bool_decide (ws_QuotaOwner (r_spec x) = o)))).
      { rewrite <- G7. apply E7. } intros j x Hx Hj. by rewrite (Hinf j).
    + intros key j. rewrite E8, G8. split.
      * intros [[Hj (Hk & x & Hx & Hi & Hkey)]|(-> & Hk & Hi & Hkey)]; (split; [done|]).
        -- exists x. rewrite lookup_insert_ne by done. by rewrite (Hinf j).
        -- exists r'. by rewrite lookup_insert_eq.
      * intros (Hk & x & Hx & Hi & Hkey). apply lookup_insert_Some in Hx as [[<- <-]|[Hj Hx]]; [by right|].
        left. split; [done|]. split; [done|]. exists x. by rewrite <- (Hinf j).
  - split; [done|]. intros j. rewrite N2, O2, Er. split.
    + intros [[Hj (x & Hx & Hx')]|[-> Hx]].
      * exists x. rewrite lookup_insert_ne by done. by rewrite (Hlive j).
      * exists r'. by rewrite lookup_insert_eq.
    + intros (x & Hx & Hx'). apply lookup_insert_Some in Hx as [[<- <-]|[Hj Hx]]; [by right|].
      left. split; [done|]. exists x. by rewrite <- (Hlive j).
Qed.

(** ** Frames *)

(** The workers, their configuration and the faults are untouched. *)
Definition same_workers s s' : Prop :=
  e_slots s' = e_slots s /\ e_idleSlots s' = e_idleSlots s /\ e_configPools s' = e_configPools s /\
  e_poolConcurrencies s' = e_poolConcurrencies s /\ e_poolMinWorkers s' = e_poolMinWorkers s /\
  e_poolIdleTimeouts s' = e_poolIdleTimeouts s /\ e_rootLive s' = e_rootLive s /\
  e_faults s' = e_faults s.

#[global] Instance same_workers_refl : Reflexive same_workers.
Proof. intros s. by unfold same_workers. Qed.

#[global] Instance same_workers_trans : Transitive same_workers.
Proof. unfold same_workers. intros s1 s2 s3 H1 H2. split_and_all; intuition congruence. Qed.

(** The records that have not reached a terminal state, but for [id], are
    untouched. *)
Definition keeps_live (except : gset TaskID) s s' : Prop :=
  forall id r, e_registry s !! id = Some r -> terminal_state (r_state r) = false -> id ∉ except ->
    e_registry s' !! id = Some r.

#[global] Instance keeps_live_refl X : Reflexive (keeps_live X).
Proof. by intros s id r. Qed.

#[global] Instance keeps_live_trans X : Transitive (keeps_live X).
Proof. intros s1 s2 s3 H1 H2 id r Hr Ht Hn. apply H2; try done. by apply H1. Qed.

Ltac frame_w :=
  match goal with
  | |- same_workers _ _ => unfold same_workers; simpl; split_and_all; reflexivity
  | |- keeps_live _ _ _ => intros ? ? ?; done
  end.

(** The record [id] is over, and no other one was written. *)
Record closes (id : TaskID) s s' : Prop := {
  cl_others : forall j x, j <> id -> e_registry s' !! j = Some x -> e_registry s !! j = Some x;
  cl_over : forall x, e_registry s' !! id = Some x -> terminal_state (r_state x) = true;
  cl_quiesced : e_quiesced s' = e_quiesced s
}.

(** Everything but the record [id], the counters of the settlement, and the order. *)
Record rewritten s s1 (id : TaskID) (r' : taskRecord) : Prop := {
  rw_registry : e_registry s1 = <[id := r']> (e_registry s);
  rw_epoch : e_dispatchEpoch s1 = e_dispatchEpoch s;
  rw_seq : e_commitSeq s1 = e_commitSeq s;
  rw_fresh : e_fresh s1 = e_fresh s;
  rw_capacity : e_resourceCapacity s1 = e_resourceCapacity s;
  rw_credits : e_resultCapacity s1 = e_resultCapacity s;
  rw_workers : same_workers s s1
}.

(** ** Eviction *)

Lemma settled_terminal ph r : live ph r = false -> terminal_state (r_state r) = true.
Proof. unfold live. destruct (terminal_state _); done. Qed.

Lemma settled_inflight ph r : live ph r = false -> inflight ph r = false.
Proof. intros H. unfold inflight. by rewrite terminal_not_flying by (by apply (settled_terminal ph)). Qed.

Lemma evict_one_ok ph s id rest r :
  engine_ok ph s -> e_terminalOrder s = id :: rest -> e_registry s !! id = Some r ->
  engine_ok ph (e_set_registry (delete id (e_registry s))
    (release_retained (r_retainedBytes r) (e_set_terminalOrder rest s))).
Proof.
  intros H Ho Hr. pose proof H as [H1 [H2 H3 H4] [G1 G2 G3 G4 G5 G6 G7 G8 G9 G10] [O1 O2] [L1 L2 L3]].
  assert (Hset : live ph r = false).
  { destruct (proj1 (O2 id)) as (x & Hx & ?); [rewrite Ho; left|]. congruence. }
  pose proof (settled_terminal _ _ Hset) as Hterm. pose proof (settled_inflight _ _ Hset) as Hinf.
  rewrite Ho in O1. apply NoDup_cons in O1 as [Hnin O1].
  assert (Hb : 0 <= e_retainedBytes s - r_retainedBytes r).
  { rewrite G3, (msum_delete _ _ _ _ Hr). assert (0 <= msum r_retainedBytes (delete id (e_registry s)));
      [|lia]. apply msum_nonneg. intros j x [_ Hx]%lookup_delete_Some. apply (H1 j x Hx). }
  split; unfold release_retained; simpl.
  - intros j x [_ Hx]%lookup_delete_Some. by apply H1.
  - split; simpl; [done| |].
    + intros j e He. destruct (H3 j e He) as [(x & Hx & Hq & Hsp) Hp]. split; [|done].
      exists x. rewrite lookup_delete_ne; [done|]. intros ->. rewrite Hr in Hx. injection Hx as ->.
      by apply terminal_not_queued in Hterm.
    + intros j x [_ Hx]%lookup_delete_Some. by apply (H4 j x).
  - split; simpl; try done.
    + rewrite G1, (msum_remove _ id r Hr (fun x => ind (live ph x)) (fun x => ind (live ph x))) by done.
      rewrite Hset. simpl. lia.
    + rewrite G2, (msum_remove _ id r Hr (fun x => ind (live ph x)) (fun x => ind (live ph x))) by done.
      rewrite Hset. simpl. lia.
    + rewrite (msum_remove _ id r Hr r_retainedBytes r_retainedBytes), <- G3 by done.
      destruct (Z.ltb_spec (e_retainedBytes s - r_retainedBytes r) 0); lia.
    + rewrite G4, (msum_remove _ id r Hr (fun x => ind (pending x)) (fun x => ind (pending x))) by done.
      rewrite terminal_not_pending by done. simpl. lia.
    + intros n. rewrite G5, (msum_remove _ id r Hr (fun x => if inflight ph x then amount n (r_spec x) else 0)
        (fun x => if inflight ph x then amount n (r_spec x) else 0)) by done. rewrite Hinf. lia.
    + intros o. rewrite G7, (msum_remove _ id r Hr
        (fun x => ind (inflight ph x && bool_decide (ws_QuotaOwner (r_spec x) = o)))
        (fun x => ind (inflight ph x && bool_decide (ws_QuotaOwner (r_spec x) = o)))) by done.
      rewrite Hinf. simpl. lia.
    + intros key j. rewrite G8. split.
      * intros (Hk & x & Hx & Hi & Hkey). split; [done|]. exists x. rewrite lookup_delete_ne; [done|].
        intros ->. congruence.
      * intros (Hk & x & [_ Hx]%lookup_delete_Some & Hi & Hkey). eauto.
  - split; simpl; [done|]. intros j. rewrite Ho in O2. split.
    + intros Hj. destruct (proj1 (O2 j)) as (x & Hx & ?); [by right|]. exists x.
      rewrite lookup_delete_ne; [done|]. by intros ->.
    + intros (x & [Hne Hx]%lookup_delete_Some & Hl).
      assert (Hin : j ∈ id :: rest) by (apply O2; eauto). set_solver.
  - split; simpl; done.
Qed.

Lemma evict_head_ok ph fuel should : forall s,
  engine_ok ph s ->
  let s' := evict_head fuel should s in
  engine_ok ph s' /\ same_workers s s' /\ keeps_live ∅ s s' /\ e_adm s' = e_adm s /\
  e_registry s' ⊆ e_registry s /\ e_quiesced s' = e_quiesced s.
Proof.
  induction fuel as [|fuel IH]; intros s H; cbn [evict_head]; [done|].
  destruct (should s); [|done]. destruct (e_terminalOrder s) as [|id rest] eqn:Ho; [done|].
  destruct (proj1 (or_elems _ _ (eo_order _ _ H) id)) as (r & Hr & Hset); [rewrite Ho; left|].
  simpl. rewrite Hr. rewrite (settled_terminal _ _ Hset).
  pose proof (evict_one_ok ph s id rest r H Ho Hr) as H'.
  set (s1 := e_set_registry _ _) in *. destruct (IH s1 H') as (I1 & I2 & I3 & I4 & I5 & I6).
  split; [done|]. split; [by (etrans; [|exact I2])|]. split; [|split; [done|split; [etrans; [exact I5|apply delete_subseteq]|done]]].
  - etrans; [|exact I3]. intros j x Hx Ht _. unfold s1. simpl. rewrite lookup_delete_ne; [done|].
    intros ->. rewrite Hr in Hx. injection Hx as ->. pose proof (settled_terminal _ _ Hset). congruence.
Qed.

(** ** Draining *)

Lemma checkDrained_ok ph s : engine_ok ph s -> engine_ok ph (checkDrained s).
Proof.
  intros H. unfold checkDrained. destruct (_ && _) eqn:E; [|done].
  apply (engine_ok_frame ph s); try done. destruct (eo_lifecycle _ _ H) as [L1 L2 L3].
  bool_to_prop. split; simpl; auto.
Qed.

Lemma checkDrained_frame s :
  same_workers s (checkDrained s) /\ keeps_live ∅ s (checkDrained s).
Proof. unfold checkDrained. destruct (_ && _); split; frame_w. Qed.

Lemma checkDrained_registry s : e_registry (checkDrained s) = e_registry s.
Proof. unfold checkDrained. by destruct (_ && _). Qed.

(** The engine counts at least one active task while a record is live. *)
Lemma live_active ph s id r :
  engine_ok ph s -> e_registry s !! id = Some r -> live ph r = true -> 0 < e_activeTasks s.
Proof.
  intros H Hr Hl. rewrite (ac_active _ _ (eo_accounts _ _ H)).
  pose proof (msum_lookup_le (fun x => ind (live ph x)) (e_registry s) id r
    (fun _ _ _ => ind_nonneg _) Hr) as Hle. simpl in Hle. rewrite Hl in Hle. simpl in Hle. lia.
Qed.

Lemma live_slots ph s id r :
  engine_ok ph s -> e_registry s !! id = Some r -> live ph r = true -> 0 < e_resultSlotsHeld s.
Proof.
  intros H Hr Hl. rewrite (ac_slots _ _ (eo_accounts _ _ H)), <- (ac_active _ _ (eo_accounts _ _ H)).
  by apply (live_active ph s id r).
Qed.

(** ** Settlement *)

Definition settled (id : TaskID) ph : phase :=
  mkPhase (ph_released ph) (ph_settling ph ∖ {[id]}) (ph_dequeued ph).

(** Counting a terminal record as settled. *)
Lemma settled_ok ph s s1 id r r' :
  engine_ok ph s -> e_registry s !! id = Some r -> terminal_state (r_state r) = true ->
  live ph r = true -> rewritten s s1 id r' ->
  r_state r' = r_state r -> r_spec r' = strip_spec (r_spec r) -> r_done r' = true ->
  r_durability r' = r_durability r -> r_commitSeq r' = r_commitSeq r -> 0 <= r_retainedBytes r' ->
  e_adm s1 = e_adm s -> e_resultSlotsHeld s1 = e_resultSlotsHeld s - 1 ->
  e_activeTasks s1 = e_activeTasks s - 1 ->
  e_retainedBytes s1 = e_retainedBytes s - r_retainedBytes r + r_retainedBytes r' ->
  e_commitPending s1 = e_commitPending s -> e_resourceUsed s1 = e_resourceUsed s ->
  e_terminalOrder s1 = e_terminalOrder s ++ [id] ->
  e_quiesced s1 = e_quiesced s -> e_accepting s1 = e_accepting s -> e_drained s1 = e_drained s ->
  e_drainDone s1 = e_drainDone s -> engine_ok (settled id ph) s1.
Proof.
  intros H Hr Hterm Hlive [W1 W2 W3 W4 W5 W6 _] B1 B2 B3 B4 B5 B6 C1 C2 C3 C4 C5 C6 C7 C8 C9 C10 C11.
  pose proof (eo_records _ _ H id r Hr) as Hrec. pose proof (rk_id _ _ _ _ _ _ Hrec) as Hid.
  pose proof (live_active _ _ _ _ H Hr Hlive) as Hact.
  assert (Hflag : rec_id r' = id) by (unfold rec_id; rewrite B2; exact Hid).
  assert (Hlive' : live (settled id ph) r' = false).
  { unfold live. rewrite B1, Hterm, Hflag. simpl. apply bool_decide_eq_false_2. set_solver. }
  assert (Hinf : forall ph0 x, r_state x = r_state r -> inflight ph0 x = false).
  { intros ph0 x Hx. unfold inflight. rewrite terminal_not_flying; [done|]. by rewrite Hx. }
  assert (Hpend : forall x, r_state x = r_state r -> pending x = false).
  { intros x Hx. apply terminal_not_pending. by rewrite Hx. }
  assert (Hnin : id ∉ e_terminalOrder s).
  { intros (x & Hx & Hlx)%(or_elems _ _ (eo_order _ _ H)). congruence. }
  pose proof (eo_admission _ _ H) as [Ha1 Ha2 Ha3]. pose proof (eo_accounts _ _ H) as Hacc.
  eapply (engine_ok_rec ph (settled id ph) s s1 id r r' H Hr W1);
    rewrite ?W2, ?W3, ?W4, ?W5, ?W6, ?C1, ?C2, ?C3, ?C4, ?C5, ?C6, ?C7, ?Hlive, ?Hlive'; try done.
  - intros j Hj. simpl. set_solver.
  - destruct Hrec as [K1 K2 K3 K4 K5 K6 K7 K8 K9 K10].
    constructor; rewrite ?B1, ?B2, ?B3, ?B4, ?B5, ?Hlive'; try done.
    + split; [constructor|]. intros q Hq. by apply not_elem_of_nil in Hq.
    + unfold pending in *. by rewrite B1.
    + rewrite (Hpend r') by done. discriminate.
    + intros Hf. by rewrite terminal_not_flying in Hf by (by rewrite B1).
  - intros j e He. split; [done|]. intros ->. destruct (Ha2 id e He) as [(x & Hx & Hq & _) _].
    rewrite Hr in Hx. injection Hx as <-. by apply terminal_not_queued in Hterm.
  - rewrite B1. intros Hq. by apply terminal_not_queued in Hterm.
  - simpl. lia.
  - simpl. lia.
  - rewrite (Hpend r), (Hpend r') by done. simpl. lia.
  - intros n. rewrite (Hinf ph r), (Hinf _ r') by done. lia.
  - apply Hacc.
  - intros o. rewrite (Hinf ph r), (Hinf _ r') by done. simpl. lia.
  - intros key j. rewrite (Hinf _ r') by done. split.
    + intros Hl. left. split; [|done]. intros ->. apply (ac_locks _ _ Hacc) in Hl as (_ & x & Hx & Hi & _).
      rewrite Hr in Hx. injection Hx as <-. by rewrite (Hinf ph r) in Hi.
    + intros [[_ ?]|(_ & _ & ? & _)]; done.
  - apply NoDup_app. split_and_all; [apply (eo_order _ _ H)|set_solver|apply NoDup_singleton].
  - intros j. rewrite elem_of_app, list_elem_of_singleton.
    split; [|naive_solver]. intros [Hj| ->]; [left; split; [by intros ->|done]|auto].
  - apply Hacc.
  - pose proof (ac_credits _ _ Hacc). lia.
  - destruct (eo_lifecycle _ _ H) as [L1 L2 L3].
    split; rewrite ?C8, ?C9, ?C10, ?C11, ?C3; try done. intros Hd. destruct (L2 Hd). lia.
Qed.

(** What [settleTerminal] makes of a record and of the engine before it looks
    for records to evict. *)
Lemma settleTerminal_shape id s r :
  e_registry s !! id = Some r -> r_done r = false -> terminal_state (r_state r) = true ->
  r_retainedBytes r <= e_retainedBytes s -> 0 < e_resultSlotsHeld s ->
  exists r' s1, settleTerminal id s = checkDrained (evictTerminalRecords s1) /\
    (r_state r' = r_state r /\ r_spec r' = strip_spec (r_spec r) /\ r_done r' = true /\
     r_durability r' = r_durability r /\ r_commitSeq r' = r_commitSeq r /\ 0 <= r_retainedBytes r') /\
    rewritten s s1 id r' /\
    e_adm s1 = e_adm s /\ e_resultSlotsHeld s1 = e_resultSlotsHeld s - 1 /\
    e_activeTasks s1 = e_activeTasks s - 1 /\
    e_retainedBytes s1 = e_retainedBytes s - r_retainedBytes r + r_retainedBytes r' /\
    e_commitPending s1 = e_commitPending s /\ e_resourceUsed s1 = e_resourceUsed s /\
    e_terminalOrder s1 = e_terminalOrder s ++ [rec_id r] /\
    e_quiesced s1 = e_quiesced s /\ e_accepting s1 = e_accepting s /\ e_drained s1 = e_drained s /\
    e_drainDone s1 = e_drainDone s.
Proof.
  intros Hr Hdone Hterm Hret Hslots. unfold settleTerminal. rewrite Hr.
  set (r1 := match ws_Job (r_spec r) with Some _ => _ | None => r end).
  assert (H1 : r_state r1 = r_state r /\ r_spec r1 = r_spec r /\ r_done r1 = r_done r /\
    r_durability r1 = r_durability r /\ r_commitSeq r1 = r_commitSeq r /\
    r_retainedBytes r1 = r_retainedBytes r).
  { unfold r1. destruct (ws_Job _); [case_decide|]; done. }
  clearbody r1. destruct H1 as (A1 & A2 & A3 & A4 & A5 & A6).
  destruct (Z.ltb_spec 0 (e_resultSlotsHeld s)) as [_|]; [|lia].
  set (s1 := e_set_resultSlotsHeld _ s).
  set (p := match ws_OnComplete (r_spec r1) with Some _ => _ | None => (r1, s1) end).
  assert (H2 : exists c d, p = (r_set_callbackReserved c r1, e_set_delivery d s1)).
  { unfold p. destruct (ws_OnComplete _) as [cb|].
    - destruct (r_callbackReserved r1) eqn:Hc.
      + destruct (dl_enqueueReserved _ _ _) as [ok d]. by exists false, d.
      + exists false, (e_delivery s1). rewrite <- Hc. by destruct r1, s1.
    - exists (r_callbackReserved r1), (e_delivery s1). by destruct r1, s1. }
  clearbody p. destruct H2 as (c & d & ->). simpl. rewrite A3, Hdone.
  set (det := if _ <? _ then _ else _).
  assert (Hdet : 0 <= r_retainedBytes r1 - det).
  { unfold det. destruct (Z.ltb_spec (r_retainedBytes r1) (terminalDetachedSpecBytes (r_spec r1))); lia. }
  clearbody det. rewrite A6 in Hdet. unfold release_retained. simpl.
  destruct (Z.ltb_spec (e_retainedBytes s - det) 0) as [|_]; [lia|].
  unfold onTaskSettled. simpl. rewrite A1, Hterm.
  match goal with |- context [set_rec id ?x _] => exists x end.
  eexists. split; [reflexivity|]. simpl. rewrite A1, A2, A4, A5, A6.
  split; [split_and_all; try done; lia|]. split; [split; try done; frame_w|].
  split_and_all; try done. lia.
Qed.

Lemma settle_ok ph s id r :
  engine_ok ph s -> e_registry s !! id = Some r -> terminal_state (r_state r) = true ->
  id ∈ ph_settling ph ->
  let s' := settleTerminal id s in
  engine_ok (settled id ph) s' /\ same_workers s s' /\ keeps_live {[id]} s s' /\
  e_adm s' = e_adm s /\ closes id s s'.
Proof.
  intros H Hr Hterm Hset. pose proof (eo_records _ _ H id r Hr) as Hrec.
  pose proof (rk_id _ _ _ _ _ _ Hrec) as Hid.
  assert (Hlive : live ph r = true).
  { unfold live. rewrite Hterm. simpl. rewrite Hid. by apply bool_decide_eq_true_2. }
  pose proof (live_active _ _ _ _ H Hr Hlive) as Hact.
  assert (Hret : r_retainedBytes r <= e_retainedBytes s).
  { rewrite (ac_retained _ _ (eo_accounts _ _ H)). apply (msum_lookup_le r_retainedBytes _ id r); [|done].
    intros j x Hx. apply (rk_retained _ _ _ _ _ _ (eo_records _ _ H j x Hx)). }
  destruct (settleTerminal_shape id s r Hr) as (r' & s1 & Heq & (B1 & B2 & B3 & B4 & B5 & B6) & Hw &
    C1 & C2 & C3 & C4 & C5 & C6 & C7 & C8 & C9 & C10 & C11);
    [by rewrite (rk_done _ _ _ _ _ _ Hrec), Hlive|done|done|by apply (live_slots ph s id r)|].
  cbn zeta. rewrite Heq. clear Heq. rewrite Hid in C7.
  assert (Hok : engine_ok (settled id ph) s1).
  { by apply (settled_ok ph s s1 id r r'). }
  unfold evictTerminalRecords, evictTerminalHead.
  destruct (evict_head_ok (settled id ph) (S (length (e_terminalOrder s1))) over_retention s1 Hok)
    as (E1 & E2 & E3 & E4 & E5 & E6).
  set (s2 := evict_head _ _ s1) in *. clearbody s2. destruct (checkDrained_frame s2) as [D1 D2].
  split_and_all.
  - by apply checkDrained_ok.
  - etrans; [|exact D1]. etrans; [|exact E2]. apply Hw.
  - intros j x Hx Ht Hn. apply D2; [|done|set_solver]. apply E3; [|done|set_solver].
    rewrite (rw_registry _ _ _ _ Hw), lookup_insert_ne; [done|set_solver].
  - unfold checkDrained. destruct (_ && _); simpl; by rewrite E4.
  - assert (Hsub : e_registry (checkDrained s2) ⊆ <[id := r']> (e_registry s)).
    { rewrite <- (rw_registry _ _ _ _ Hw). by rewrite checkDrained_registry. }
    split.
    + intros j x Hj Hx. apply (lookup_weaken _ _ _ _ Hx) in Hsub. by rewrite lookup_insert_ne in Hsub.
    + intros x Hx. apply (lookup_weaken _ _ _ _ Hx) in Hsub. rewrite lookup_insert_eq in Hsub.
      injection Hsub as <-. by rewrite B1.
    + rewrite <- C8, <- E6. unfold checkDrained. by destruct (_ && _).
Qed.

End Invariant.
