(* ===== verification/EngineSteps.v ===== *)
(** * The steps of the task engine keep its invariant

    The invariant of EngineInvariant.v through the building blocks of the
    handlers of Engine.v: the environment, storing a terminal result,
    settlement, expiry, workers, dispatch. A state is [good] when the invariant
    holds, the bookkeeping of the workers is consistent and nothing has stopped
    the coordinator. [busy] are the slots whose worker has taken its assignment
    and not reported yet. *)

From S2P Require Import Prelude.
From S2P Require Import Execution.
From S2P Require Import Tasks.
From S2P Require Import AdmissionTypes.
From S2P Require Import EngineAccounting.
From S2P Require Import EngineConfig.
From S2P Require Import EngineState.
From S2P Require Import Engine.
From S2P Require Import EngineInvariant.

Section Steps.
Context {A L : Type} {AO : AdmissionOps A} {LO : DeliveryOps L}.
#[local] Abbreviation engine := (engine A L).
Implicit Types (s : engine) (ph : phase) (r : taskRecord) (busy : gset (PoolID * nat)).

(** A slot whose worker waits at an empty mailbox. *)
Definition slot_free s pool i : Prop :=
  exists x, pool_slots s pool !! i = Some x /\ sl_running x = true /\ sl_mailbox x = Some None.

Record workers_ok busy s : Prop := {
  wk_nodup : forall pool, NoDup (idle_slots s pool);
  wk_idle : forall pool i, i ∈ idle_slots s pool -> slot_free s pool i /\ (pool, i) ∉ busy;
  wk_busy : forall pool i, (pool, i) ∈ busy -> slot_free s pool i
}.

Definition good ph busy s : Prop := engine_ok ph s /\ workers_ok busy s /\ e_faults s = [].

(** The records of the tasks on a worker are untouched. *)
Definition keeps_flying s s' : Prop :=
  forall id r, e_registry s !! id = Some r -> flying r = true -> e_registry s' !! id = Some r.

(** One record was rewritten; of the rest only the retained bytes and the number
    of pending commits may differ. *)
Record stored s s' (id : TaskID) (r' : taskRecord) : Prop := {
  st_rewritten : rewritten s s' id r';
  st_adm : e_adm s' = e_adm s;
  st_slots : e_resultSlotsHeld s' = e_resultSlotsHeld s;
  st_active : e_activeTasks s' = e_activeTasks s;
  st_used : e_resourceUsed s' = e_resourceUsed s;
  st_order : e_terminalOrder s' = e_terminalOrder s;
  st_quiesced : e_quiesced s' = e_quiesced s;
  st_accepting : e_accepting s' = e_accepting s;
  st_drained : e_drained s' = e_drained s;
  st_drainDone : e_drainDone s' = e_drainDone s
}.

Definition settling (id : TaskID) ph : phase :=
  mkPhase (ph_released ph) ({[id]} ∪ ph_settling ph) (ph_dequeued ph).

(** ** Lemmas *)

Context {AL : AdmissionLaws A}.

#[global] Instance keeps_flying_refl : Reflexive keeps_flying.
Proof. by intros s id r. Qed.

#[global] Instance keeps_flying_trans : Transitive keeps_flying.
Proof. intros s1 s2 s3 H1 H2 id r Hr Hf. apply H2; [by apply H1|done]. Qed.

Lemma flying_not_terminal r : flying r = true -> terminal_state (r_state r) = false.
Proof. unfold flying. rewrite bool_decide_eq_true. destruct (r_state r); set_solver. Qed.

Lemma flying_not_queued r : flying r = true -> r_state r <> StateQueued.
Proof. unfold flying. rewrite bool_decide_eq_true. intros H E. rewrite E in H. set_solver. Qed.

Lemma flying_not_pending r : flying r = true -> pending r = false.
Proof.
  unfold flying, pending. rewrite bool_decide_eq_true, bool_decide_eq_false. intros H E.
  rewrite E in H. set_solver.
Qed.

(** ** Workers *)

Lemma workers_ok_same busy s s' : workers_ok busy s -> same_workers s s' -> workers_ok busy s'.
Proof.
  intros [W1 W2 W3] (E1 & E2 & _). unfold slot_free, idle_slots, pool_slots in *.
  split; unfold slot_free, idle_slots, pool_slots; rewrite ?E1, ?E2; done.
Qed.

Lemma good_same ph ph' busy s s' :
  good ph busy s -> same_workers s s' -> engine_ok ph' s' -> good ph' busy s'.
Proof.
  intros (_ & HW & HF) Hs He. split; [done|]. split; [by apply (workers_ok_same busy s)|].
  by destruct Hs as (_ & _ & _ & _ & _ & _ & _ & ->).
Qed.

Lemma pool_slots_set pool i f s pool' :
  pool_slots (set_slot pool i f s) pool' =
  if decide (pool' = pool) then alter f i (pool_slots s pool') else pool_slots s pool'.
Proof.
  unfold pool_slots, set_slot. simpl. destruct (decide (pool' = pool)) as [->|Hn].
  - rewrite lookup_alter_eq. by destruct (e_slots s !! pool).
  - by rewrite lookup_alter_ne by done.
Qed.

Lemma idle_slots_set pool l s pool' :
  idle_slots (set_idle pool l s) pool' = if decide (pool' = pool) then l else idle_slots s pool'.
Proof.
  unfold idle_slots, set_idle. simpl. destruct (decide (pool' = pool)) as [->|Hn].
  - by rewrite lookup_insert_eq.
  - by rewrite lookup_insert_ne by done.
Qed.

Lemma slot_free_set pool i f s pool' j :
  (pool', j) <> (pool, i) -> slot_free (set_slot pool i f s) pool' j <-> slot_free s pool' j.
Proof.
  intros Hn. unfold slot_free. setoid_rewrite pool_slots_set.
  destruct (decide (pool' = pool)) as [->|]; [|done].
  rewrite list_lookup_alter_ne; [done|]. intros ->. done.
Qed.

Lemma slot_free_idle pool l s pool' j : slot_free (set_idle pool l s) pool' j <-> slot_free s pool' j.
Proof. done. Qed.

(** The steps on the worker tables change nothing the invariant looks at. *)
Lemma engine_ok_workers ph s slots idle faults :
  engine_ok ph s -> engine_ok ph (e_set_faults faults (e_set_idleSlots idle (e_set_slots slots s))).
Proof. intros H. by apply (engine_ok_frame ph s); [..|destruct (eo_lifecycle _ _ H)]. Qed.

Lemma engine_ok_slot ph pool i f s : engine_ok ph s -> engine_ok ph (set_slot pool i f s).
Proof. intros H. by apply (engine_ok_frame ph s); [..|destruct (eo_lifecycle _ _ H)]. Qed.

Lemma engine_ok_idle ph pool l s : engine_ok ph s -> engine_ok ph (set_idle pool l s).
Proof. intros H. by apply (engine_ok_frame ph s); [..|destruct (eo_lifecycle _ _ H)]. Qed.

(** ** Phases *)

Lemma engine_ok_phase ph ph' s :
  engine_ok ph s ->
  (forall id r, e_registry s !! id = Some r -> live ph' r = live ph r /\ inflight ph' r = inflight ph r /\
     (r_state r = StateQueued -> id ∉ ph_dequeued ph' -> id ∉ ph_dequeued ph)) ->
  engine_ok ph' s.
Proof.
  intros [H1 [H2 H3 H4] [G1 G2 G3 G4 G5 G6 G7 G8 G9 G10] [O1 O2] Hl] Hp.
  split; [| | | |done].
  - intros id r Hr. destruct (Hp id r Hr) as (E & _). destruct (H1 id r Hr). by split; rewrite ?E.
  - split; [done|done|]. intros id r Hr Hq Hn. apply (H4 id r Hr Hq). by apply (Hp id r Hr).
  - split; try done.
    + rewrite G1. apply msum_ext. intros id r Hr. by destruct (Hp id r Hr) as (-> & _).
    + rewrite G2. apply msum_ext. intros id r Hr. by destruct (Hp id r Hr) as (-> & _).
    + intros n. rewrite G5. apply msum_ext. intros id r Hr. by destruct (Hp id r Hr) as (_ & -> & _).
    + intros o. rewrite G7. apply msum_ext. intros id r Hr. by destruct (Hp id r Hr) as (_ & -> & _).
    + intros key id. rewrite G8. split; intros (Hk & r & Hr & Hi & E); (split; [done|]);
        destruct (Hp id r Hr) as (_ & Ei & _); exists r; rewrite ?Ei; rewrite ?Ei in Hi; done.
  - split; [done|]. intros id. rewrite O2. split; intros (r & Hr & Hi);
      destruct (Hp id r Hr) as (E & _); exists r; rewrite ?E; rewrite ?E in Hi; done.
Qed.

(** Whether the record of [id] is listed does not matter once it is over. *)
Lemma phase_over ph ph' s id :
  engine_ok ph s -> phase_same ph ph' id -> (id ∈ ph_settling ph' <-> id ∈ ph_settling ph) ->
  (forall r, e_registry s !! id = Some r -> terminal_state (r_state r) = true) -> engine_ok ph' s.
Proof.
  intros H Hph Hs Ht. apply (engine_ok_phase ph); [done|]. intros j r Hr.
  pose proof (rk_id _ _ _ _ _ _ (eo_records _ _ H j r Hr)) as Hid.
  destruct (decide (j = id)) as [->|Hj].
  - pose proof (Ht r Hr) as Htr. split_and_all.
    + unfold live. rewrite Hid. f_equal. by apply bool_decide_ext.
    + unfold inflight. by rewrite terminal_not_flying.
    + intros Hq. by apply terminal_not_queued in Htr.
  - split_and_all.
    + apply (live_same _ _ id); [done|by rewrite Hid].
    + apply (inflight_same _ _ id); [done|by rewrite Hid].
    + intros _ Hn. destruct (Hph j Hj) as (_ & _ & Hd). tauto.
Qed.

(** ** Terminal states *)

Lemma index_queued ph s id r :
  engine_ok ph s -> e_registry s !! id = Some r -> r_state r <> StateQueued ->
  a_index (e_adm s) !! id = None.
Proof.
  intros H Hr Hq. destruct (a_index (e_adm s) !! id) as [e|] eqn:He; [|done].
  destruct (ao_index _ _ (eo_admission _ _ H) id e He) as [(x & Hx & Hs & _) _]. congruence.
Qed.

Lemma lifecycle_same s s' :
  lifecycle_ok s -> e_quiesced s' = e_quiesced s -> e_accepting s' = e_accepting s ->
  e_drained s' = e_drained s -> e_drainDone s' = e_drainDone s -> e_activeTasks s' = e_activeTasks s ->
  lifecycle_ok s'.
Proof. intros [H1 H2 H3] E1 E2 E3 E4 E5. split; rewrite ?E1, ?E2, ?E3, ?E4, ?E5; done. Qed.

Lemma terminal_ok ph s s' id r r' :
  engine_ok ph s -> e_registry s !! id = Some r -> terminal_state (r_state r) = false ->
  a_index (e_adm s) !! id = None -> inflight ph r = false ->
  terminal_state (r_state r') = true -> r_spec r' = r_spec r -> r_done r' = r_done r ->
  r_callbackReserved r' = r_callbackReserved r -> r_durability r' <> durPending ->
  r_commitSeq r' = r_commitSeq r -> 0 <= r_retainedBytes r' ->
  stored s s' id r' ->
  e_retainedBytes s' = e_retainedBytes s - r_retainedBytes r + r_retainedBytes r' ->
  e_commitPending s' = e_commitPending s - ind (pending r) ->
  engine_ok (settling id ph) s'.
Proof.
  intros H Hr Hnt Hidx Hinf Ht B1 B2 B3 B4 B5 B6 [[W1 W2 W3 W4 W5 W6 _] C1 C2 C3 C4 C5 D1 D2 D3 D4] E1 E2.
  pose proof (eo_records _ _ H id r Hr) as Hrec. pose proof (rk_id _ _ _ _ _ _ Hrec) as Hid.
  assert (Hid' : rec_id r' = id) by (unfold rec_id; rewrite B1; exact Hid).
  assert (Hlive : live ph r = true) by by apply live_of_not_terminal.
  assert (Hlive' : live (settling id ph) r' = true).
  { unfold live. rewrite Hid', Ht. simpl. apply bool_decide_eq_true_2. set_solver. }
  assert (Hinf' : forall ph', inflight ph' r' = false).
  { intros ph'. unfold inflight. by rewrite terminal_not_flying. }
  pose proof (eo_admission _ _ H) as [Ha1 Ha2 Ha3]. pose proof (eo_accounts _ _ H) as Hacc.
  eapply (engine_ok_rec ph (settling id ph) s s' id r r' H Hr W1);
    rewrite ?W2, ?W3, ?W4, ?W5, ?W6, ?C1, ?C2, ?C3, ?C4, ?C5, ?E1, ?E2, ?Hinf, ?Hinf', ?Hlive, ?Hlive'; try done;
    try (intros; lia).
  - intros j Hj. simpl. set_solver.
  - destruct Hrec as [K1 K2 K3 K4 K5 K6 K7 K8 K9 K10].
    constructor; rewrite ?B1, ?B2, ?B3, ?B5, ?Hlive'; try done.
    + by right.
    + by rewrite K3, Hlive.
    + intros _. by apply K5.
    + rewrite terminal_not_pending by done. split; [done|]. intros Hd. by destruct B4.
    + by rewrite terminal_not_pending by done.
    + intros Hf. apply flying_not_terminal in Hf. congruence.
  - intros j e He. split; [done|]. intros ->. congruence.
  - intros Hq. by apply terminal_not_queued in Ht.
  - rewrite (terminal_not_pending r') by done. simpl. lia.
  - apply Hacc.
  - intros o. simpl. lia.
  - intros key j. split.
    + intros Hl. left. split; [|done]. intros ->. apply (ac_locks _ _ Hacc) in Hl as (_ & x & Hx & Hi & _).
      congruence.
    + intros [[_ ?]|(_ & _ & ? & _)]; done.
  - apply (eo_order _ _ H).
  - intros j. split; [|intros [[_ ?]|[_ ?]]; done]. intros Hj. left. split; [|done].
    intros ->. apply (or_elems _ _ (eo_order _ _ H)) in Hj as (x & Hx & Hlx). congruence.
  - apply Hacc.
  - pose proof (ac_credits _ _ Hacc). lia.
  - apply (lifecycle_same s); try done. apply (eo_lifecycle _ _ H).
Qed.

(** Storing a terminal record and settling it ends the task. *)
Lemma finish_ok ph ph' busy s s' id r r' :
  good ph busy s -> e_registry s !! id = Some r -> terminal_state (r_state r) = false ->
  a_index (e_adm s) !! id = None -> inflight ph r = false ->
  phase_same ph ph' id -> id ∉ ph_settling ph' ->
  terminal_state (r_state r') = true -> r_spec r' = r_spec r -> r_done r' = r_done r ->
  r_callbackReserved r' = r_callbackReserved r -> r_durability r' <> durPending ->
  r_commitSeq r' = r_commitSeq r -> 0 <= r_retainedBytes r' ->
  stored s s' id r' ->
  e_retainedBytes s' = e_retainedBytes s - r_retainedBytes r + r_retainedBytes r' ->
  e_commitPending s' = e_commitPending s - ind (pending r) ->
  good ph' busy (settleTerminal id s') /\
  (flying r = false -> keeps_flying s (settleTerminal id s')) /\
  e_adm (settleTerminal id s') = e_adm s /\ closes id s (settleTerminal id s').
Proof.
  intros Hg Hr Hnt Hidx Hinf Hph Hns Ht B1 B2 B3 B4 B5 B6 Hst E1 E2. pose proof Hg as (H & _ & _).
  pose proof (terminal_ok ph s s' id r r' H Hr Hnt Hidx Hinf Ht B1 B2 B3 B4 B5 B6 Hst E1 E2) as H'.
  destruct Hst as [[W1 W2 W3 W4 V1 V2 W5] C1 _ _ _ _ D1 _ _ _].
  assert (Hr' : e_registry s' !! id = Some r') by by rewrite W1, lookup_insert_eq.
  destruct (settle_ok (settling id ph) s' id r' H' Hr' Ht) as (S1 & S2 & S3 & S4 & S5); [simpl; set_solver|].
  split; [|split; [|split]].
  - apply (good_same ph ph' busy s); [done|by etrans|].
    apply (phase_over (settled id (settling id ph)) _ _ id); [done| | |apply S5].
    + intros j Hj. destruct (Hph j Hj) as (P1 & P2 & P3). simpl. set_solver.
    + simpl. set_solver.
  - intros Hf j x Hx Hxf. apply S3; [|by apply flying_not_terminal|].
    + rewrite W1, lookup_insert_ne; [done|]. intros ->. congruence.
    + intros ->%elem_of_singleton. congruence.
  - by rewrite S4.
  - destruct S5 as [S5 S6 S7]. split; [|done|congruence]. intros j x Hj Hx. apply (S5 j x Hj) in Hx.
    by rewrite W1, lookup_insert_ne in Hx.
Qed.

(** ** Expiry *)

Definition flight (X : gset TaskID) : phase := mkPhase X ∅ ∅.

Lemma boundResult_charge o f res : 0 <= (boundResult o f res).2.
Proof.
  unfold boundResult. destruct (capOutput (tr_Output res) o) as [out n] eqn:E. simpl.
  assert (0 <= n).
  { unfold capOutput in E. destruct (tr_Output res) as [[[] v|[] v|v|z v|t i]|]; simplify_eq/=; try lia.
    all: repeat case_match; simplify_eq; bool_to_prop; try lia; try apply slen_nonneg. }
  pose proof (slen_nonneg (disposition_string (tr_Disposition res))).
  pose proof (slen_nonneg (truncateField (fi_Code (tr_Failure res)) f)).
  pose proof (slen_nonneg (truncateField (fi_Message (tr_Failure res)) f)).
  pose proof (slen_nonneg (truncateField (fi_Detail (tr_Failure res)) f)). lia.
Qed.

(** What storing a result makes of a record and of the engine. *)
Lemma store_result_shape id rec res s :
  exists b d, 0 <= d /\ (b, d) = boundResult (e_maxOutputBytes s) (e_maxFailureBytes s) res /\
    let r' := r_set_retainedBytes (r_retainedBytes rec + d) (r_set_result b rec) in
    stored s (store_result id rec res s) id r' /\
    e_retainedBytes (store_result id rec res s) = e_retainedBytes s + d /\
    e_commitPending (store_result id rec res s) = e_commitPending s.
Proof.
  unfold store_result. pose proof (boundResult_charge (e_maxOutputBytes s) (e_maxFailureBytes s) res) as Hd.
  destruct (boundResult _ _ res) as [b d]. exists b, d. split; [done|]. split; [done|].
  split; [|done]. by split.
Qed.

Lemma expire_one_ok X D now busy s entry :
  let id := qe_ID entry in
  good (mkPhase X ∅ ({[id]} ∪ D)) busy s -> id ∉ D -> a_index (e_adm s) !! id = None ->
  good (mkPhase X ∅ D) busy (expire_one now s entry) /\ keeps_flying s (expire_one now s entry) /\
  e_adm (expire_one now s entry) = e_adm s.
Proof.
  intros id Hg Hn Hidx. unfold expire_one. fold id.
  assert (Hskip : (forall r, e_registry s !! id = Some r -> r_state r <> StateQueued) ->
    good (mkPhase X ∅ D) busy s).
  { intros Hq. apply (good_same _ _ _ s) with (1 := Hg); [done|]. destruct Hg as (H & _).
    apply (engine_ok_phase _ _ _ H). intros j r Hr. split_and_all; [done|done|]. simpl.
    intros Hs Hj. destruct (decide (j = id)) as [->|]; [by destruct (Hq r)|set_solver]. }
  destruct (e_registry s !! id) as [r|] eqn:Hr; [|by split_and_all; [apply Hskip|..]].
  case_decide as Hq; [|split_and_all; [apply Hskip; congruence|done..]].
  set (rec := r_set_errorMsg _ _). set (res := zero_failure_result _ _ _ _ _ _ _ _).
  destruct (store_result_shape id rec res s) as (b & d & Hd & _ & Hst & Eb & Ep).
  assert (Hf : flying r = false) by (unfold flying; by rewrite Hq).
  destruct Hg as (H & HW & HF). pose proof (eo_records _ _ H id r Hr) as [K1 K2 K3 K4 K5 K6 K7 K8 K9 K10].
  assert (Hp : pending r = false) by (unfold pending; by rewrite Hq).
  edestruct (finish_ok (mkPhase X ∅ ({[id]} ∪ D)) (mkPhase X ∅ D) busy s (store_result id rec res s) id r)
    as (F1 & F2 & F3 & _); [by split|done| |done| | |set_solver|..|exact Hst| | |]; try done.
  - by rewrite Hq.
  - unfold inflight. by rewrite Hf.
  - intros j Hj. simpl. set_solver.
  - simpl. intros E. apply K7 in E. congruence.
  - simpl. lia.
  - rewrite Eb. simpl. lia.
  - rewrite Ep, Hp. simpl. lia.
  - split; [exact F1|]. split; [by apply F2|exact F3].
Qed.

Lemma expire_all_ok X now busy l : forall s,
  good (mkPhase X ∅ (list_to_set (qe_ID <$> l))) busy s -> NoDup (qe_ID <$> l) ->
  (forall e, e ∈ l -> a_index (e_adm s) !! qe_ID e = None) ->
  let s' := fold_left (expire_one now) l s in
  good (flight X) busy s' /\ keeps_flying s s' /\ e_adm s' = e_adm s.
Proof.
  induction l as [|e l IH]; intros s Hg Hnd Hidx; simpl; [done|].
  rewrite fmap_cons in Hnd. apply NoDup_cons in Hnd as [Hn Hnd]. simpl in Hg.
  destruct (expire_one_ok X (list_to_set (qe_ID <$> l)) now busy s e Hg) as (G & K & E).
  { by rewrite elem_of_list_to_set. } { apply Hidx. left. }
  destruct (IH (expire_one now s e) G Hnd) as (G' & K' & E').
  { intros x Hx. rewrite E. apply Hidx. by right. }
  split; [exact G'|]. split; [by etrans|congruence].
Qed.

Lemma evictTerminalHead_good ph busy should s :
  good ph busy s -> good ph busy (evictTerminalHead should s) /\ keeps_flying s (evictTerminalHead should s) /\
  e_adm (evictTerminalHead should s) = e_adm s.
Proof.
  intros Hg. destruct (evict_head_ok ph (S (length (e_terminalOrder s))) should s) as (E1 & E2 & E3 & E4 & _);
    [apply Hg|]. unfold evictTerminalHead. split; [by apply (good_same ph _ _ s)|]. split; [|done].
  intros id r Hr Hf. apply E3; [done|by apply flying_not_terminal|set_solver].
Qed.

Lemma sweepExpired_ok X pool now busy s :
  good (flight X) busy s ->
  let s' := sweepExpired pool now s in good (flight X) busy s' /\ keeps_flying s s'.
Proof.
  intros Hg. unfold sweepExpired. pose proof Hg as (H & _ & _).
  pose proof (a_pop_expired_law pool now (e_adm s) (ao_ok _ _ (eo_admission _ _ H))) as HL.
  destruct (a_pop_expired pool now (e_adm s)) as [expired a]. destruct HL as (Hok & Hsl & Hnd & _ & Hidx).
  assert (Hg1 : good (mkPhase X ∅ (list_to_set (qe_ID <$> expired))) busy (e_set_adm a s)).
  { apply (good_same _ _ _ s _ Hg); [done|]. apply (engine_ok_adm (flight X)); try done.
    - intros id e. rewrite Hidx. by case_decide.
    - simpl. intros id Hn Hs. rewrite Hidx. case_decide as Hin; [|done]. destruct Hn. by apply elem_of_list_to_set. }
  destruct (expire_all_ok X now busy expired _ Hg1 Hnd) as (G & K & E).
  { intros e He. simpl. rewrite Hidx. case_decide as Hn; [done|]. destruct Hn. by apply list_elem_of_fmap_2. }
  simpl in *. unfold evictExpiredTerminal.
  destruct (_ <=? _); [by split|].
  destruct (evictTerminalHead_good _ _ (head_expired now) _ G) as (G2 & K2 & _). split; [done|].
  by etrans; [|exact K2].
Qed.

End Steps.
