(* ===== verification/EngineDispatch.v ===== *)
(** * Workers, resources and dispatch keep the invariant

    The invariant of the engine through the worker tables, the reservation of
    resources and the dispatch loop of Engine.v. *)

From S2P Require Import Prelude.
From S2P Require Import Execution.
From S2P Require Import Tasks.
From S2P Require Import AdmissionTypes.
From S2P Require Import EngineAccounting.
From S2P Require Import EngineConfig.
From S2P Require Import EngineState.
From S2P Require Import Engine.
From S2P Require Import EngineInvariant.
From S2P Require Import EngineSteps.

(** The identifiers in [X] are of tasks on a worker. *)
Definition all_flying {A L} (X : gset TaskID) (s : engine A L) : Prop :=
  forall id, id ∈ X -> exists r, e_registry s !! id = Some r /\ flying r = true.

(** What the requirements [rs] ask of the resource [n]. *)
Definition demand (n : string) (rs : list ResourceRequirement) : Z :=
  lsum (fun q => if decide (rr_Name q = n) then rr_Amount q else 0) rs.

(** ** Lemmas *)

(** ** Resources *)

Lemma demand_nonneg n rs : (forall q, q ∈ rs -> 0 < rr_Amount q) -> 0 <= demand n rs.
Proof. intros H. apply lsum_nonneg. intros q Hq. case_decide; [|done]. specialize (H q Hq). lia. Qed.

Lemma reserve_all_zget n rs : forall used, zget n (reserve_all rs used) = zget n used + demand n rs.
Proof.
  unfold demand, reserve_all. induction rs as [|r rs IH]; intros used; simpl; [lia|].
  rewrite IH. destruct (decide (rr_Name r = n)) as [<-|Hn].
  - rewrite zget_insert. lia.
  - rewrite zget_insert_ne by done. lia.
Qed.

Lemma zget_nonneg (used : gmap string Z) n :
  (forall k v, used !! k = Some v -> 0 < v) -> 0 <= zget n used.
Proof. intros H. unfold zget. destruct (used !! n) eqn:E; simpl; [apply H in E; lia|lia]. Qed.

Lemma reserve_all_pos rs : forall used,
  (forall q, q ∈ rs -> 0 < rr_Amount q) -> (forall n v, used !! n = Some v -> 0 < v) ->
  forall n v, reserve_all rs used !! n = Some v -> 0 < v.
Proof.
  unfold reserve_all. induction rs as [|r rs IH]; intros used Hr Hu n v; simpl; [apply Hu|].
  apply IH; [intros; apply Hr; by right|]. intros k w Hk.
  apply lookup_insert_Some in Hk as [[<- <-]|[_ Hk]]; [|by apply (Hu k)].
  pose proof (zget_nonneg used (rr_Name r) Hu). specialize (Hr r ltac:(left)). lia.
Qed.

Lemma release_one_zget m r n :
  rr_Amount r <= zget (rr_Name r) m ->
  zget n (release_one m r) = zget n m - if decide (rr_Name r = n) then rr_Amount r else 0.
Proof.
  intros H. unfold release_one. destruct (Z.leb_spec (zget (rr_Name r) m - rr_Amount r) 0).
  - destruct (decide (rr_Name r = n)) as [<-|Hn]; unfold zget in *.
    + rewrite lookup_delete_eq. simpl. lia.
    + rewrite lookup_delete_ne by done. lia.
  - destruct (decide (rr_Name r = n)) as [<-|Hn]; [by rewrite zget_insert|rewrite zget_insert_ne by done; lia].
Qed.

Lemma release_one_pos m r :
  (forall n v, m !! n = Some v -> 0 < v) -> forall n v, release_one m r !! n = Some v -> 0 < v.
Proof.
  intros H n v. unfold release_one. case_match eqn:E; bool_to_prop.
  - intros [_ Hv]%lookup_delete_Some. by apply (H n).
  - intros [[_ <-]|[_ Hv]]%lookup_insert_Some; [done|by apply (H n)].
Qed.

Lemma release_all_spec rs : forall used,
  (forall q, q ∈ rs -> 0 < rr_Amount q) -> (forall n, demand n rs <= zget n used) ->
  forall n, zget n (release_all rs used) = zget n used - demand n rs.
Proof.
  unfold release_all. induction rs as [|r rs IH]; intros used Hp Hd n; simpl; [unfold demand; simpl; lia|].
  assert (Hrs : forall q, q ∈ rs -> 0 < rr_Amount q) by (intros; apply Hp; by right).
  assert (Hle : rr_Amount r <= zget (rr_Name r) used).
  { specialize (Hd (rr_Name r)). pose proof (demand_nonneg (rr_Name r) rs Hrs).
    unfold demand in *. simpl in Hd. rewrite decide_True in Hd by done. lia. }
  rewrite IH; [|done|].
  - rewrite release_one_zget by done. unfold demand. simpl. lia.
  - intros k. rewrite release_one_zget by done. specialize (Hd k). unfold demand in *. simpl in Hd. lia.
Qed.

Lemma release_all_pos rs : forall used,
  (forall n v, used !! n = Some v -> 0 < v) -> forall n v, release_all rs used !! n = Some v -> 0 < v.
Proof.
  unfold release_all. induction rs as [|r rs IH]; intros used H n v; simpl; [apply H|].
  apply IH. by apply release_one_pos.
Qed.

Lemma demand_absent n rs : n ∉ map rr_Name rs -> demand n rs = 0.
Proof.
  unfold demand. induction rs as [|r rs IH]; simpl; [done|]. intros Hn.
  rewrite decide_False by set_solver. rewrite IH; set_solver.
Qed.

Lemma demand_present r rs : NoDup (map rr_Name rs) -> r ∈ rs -> demand (rr_Name r) rs = rr_Amount r.
Proof.
  induction rs as [|x rs IH]; simpl; intros Hnd Hr; [set_solver|].
  apply NoDup_cons in Hnd as [Hn Hnd]. unfold demand in *. simpl.
  apply elem_of_cons in Hr as [->|Hr].
  - rewrite decide_True by done. fold (demand (rr_Name x) rs). rewrite demand_absent by done. lia.
  - rewrite decide_False, IH by (try done; intros E; apply Hn; rewrite E; by apply list_elem_of_fmap_2). lia.
Qed.

(** The eligibility test of the dispatcher keeps every resource within its
    capacity. *)
Lemma resourcesAvailable_fits used capacity spec :
  resourcesAvailable used capacity spec = true -> NoDup (map rr_Name (ws_Resources spec)) ->
  (forall n, zget n used <= zget n capacity) ->
  forall n, zget n used + demand n (ws_Resources spec) <= zget n capacity.
Proof.
  unfold resourcesAvailable. intros Hav Hnd Hu n. rewrite forallb_forall in Hav.
  destruct (decide (n ∈ map rr_Name (ws_Resources spec))) as [Hin|Hn].
  - apply list_elem_of_fmap in Hin as (r & -> & Hr). rewrite demand_present by done.
    apply list_elem_of_In, Hav in Hr. bool_to_prop. lia.
  - rewrite demand_absent by done. specialize (Hu n). lia.
Qed.

Section Dispatch.
Context {A L : Type} {AO : AdmissionOps A} {LO : DeliveryOps L} {AL : AdmissionLaws A}.
#[local] Abbreviation engine := (engine A L).
Implicit Types (s : engine) (ph : phase) (r : taskRecord) (busy : gset (PoolID * nat)).

Lemma all_flying_keeps X s s' : all_flying X s -> keeps_flying s s' -> all_flying X s'.
Proof. intros H K id Hid. destruct (H id Hid) as (r & Hr & Hf). exists r. split; [by apply K|done]. Qed.

Lemma keeps_flying_eq s s' : e_registry s' = e_registry s -> keeps_flying s s'.
Proof. intros E id r Hr _. by rewrite E. Qed.

Lemma good_tick ph busy s n : good ph busy s -> good ph busy (e_set_ticks n s).
Proof.
  intros H. apply (good_same ph ph busy s _ H); [done|]. destruct H as (H & _).
  by apply (engine_ok_frame ph s); [..|destruct (eo_lifecycle _ _ H)].
Qed.

(** ** Workers *)

(** A step that may change nothing but the worker tables and the environment. *)
Definition only_workers s s' : Prop :=
  exists slots idle n, s' = e_set_ticks n (e_set_idleSlots idle (e_set_slots slots s)).

Lemma only_workers_refl s : only_workers s s.
Proof. exists (e_slots s), (e_idleSlots s), (e_ticks s). by destruct s. Qed.

Lemma only_workers_trans s1 s2 s3 : only_workers s1 s2 -> only_workers s2 s3 -> only_workers s1 s3.
Proof. intros (a & b & c & ->) (a' & b' & c' & ->). by exists a', b', c'. Qed.

Lemma only_workers_good ph busy s s' :
  good ph busy s -> only_workers s s' -> workers_ok busy s' -> good ph busy s'.
Proof.
  intros (H & _ & HF) (a & b & c & ->) HW. split; [|by split].
  by apply (engine_ok_frame ph s); [..|destruct (eo_lifecycle _ _ H)].
Qed.

Lemma only_workers_registry s s' : only_workers s s' -> e_registry s' = e_registry s.
Proof. by intros (a & b & c & ->). Qed.

Lemma only_workers_adm s s' : only_workers s s' -> e_adm s' = e_adm s.
Proof. by intros (a & b & c & ->). Qed.

Lemma set_idle_only pool l s s1 : only_workers s s1 -> only_workers s (set_idle pool l s1).
Proof.
  intros (a & b & c & ->). exists a, (<[pool:=l]> b), c. reflexivity.
Qed.

Lemma set_slot_only pool i f s s1 : only_workers s s1 -> only_workers s (set_slot pool i f s1).
Proof.
  intros (a & b & c & ->). exists (alter (alter f i) pool a), b, c. reflexivity.
Qed.

Lemma first_free_spec l : forall i j,
  first_free i l = Some j -> exists k x, j = (i + k)%nat /\ l !! k = Some x /\ sl_running x = false.
Proof.
  induction l as [|x l IH]; intros i j; simpl; [done|].
  destruct (sl_running x) eqn:Hx.
  - intros H. destruct (IH _ _ H) as (k & y & -> & ? & ?). exists (S k), y. split; [lia|done].
  - intros [= <-]. exists 0%nat, x. split; [lia|done].
Qed.

Lemma index_of_spec x l : NoDup l -> match index_of x l with
  | Some i => l !! i = Some x
  | None => x ∉ l
  end.
Proof.
  induction l as [|y l IH]; simpl; intros H; [set_solver|].
  apply NoDup_cons in H as [Hn H]. specialize (IH H).
  destruct (Nat.eqb_spec y x) as [->|Hyx]; [done|].
  destruct (index_of x l); simpl; [done|set_solver].
Qed.

(** One slot gets a new worker, and becomes idle. *)
Lemma spawn_idle_ok busy pool i t n s x :
  workers_ok busy s -> pool_slots s pool !! i = Some x -> sl_running x = false ->
  let s1 := e_set_ticks n (set_slot pool i (fun _ => mkSlot true t true (Some None)) s) in
  workers_ok busy (set_idle pool (idle_slots s pool ++ [i]) s1).
Proof.
  intros [W1 W2 W3] Hx Hrun s1.
  assert (Hfree : ~ slot_free s pool i) by (intros (y & Hy & Hy' & _); congruence).
  assert (Hnew : slot_free s1 pool i).
  { exists (mkSlot true t true (Some None)). split; [|done]. unfold s1.
    change (pool_slots (set_slot pool i (fun _ => mkSlot true t true (Some None)) s) pool !! i =
      Some (mkSlot true t true (Some None))).
    rewrite pool_slots_set, decide_True, list_lookup_alter_eq, Hx by done. done. }
  assert (Hold : forall p j, slot_free s p j -> slot_free s1 p j).
  { intros p j Hj. apply (slot_free_set pool i _ s p j); [|done]. intros [= -> ->]. done. }
  split.
  - intros p. rewrite idle_slots_set. destruct (decide (p = pool)) as [->|]; [|apply W1].
    apply NoDup_app. split_and_all; [apply W1| |apply NoDup_singleton].
    intros j Hj ->%list_elem_of_singleton. by destruct (W2 pool i Hj).
  - intros p j. rewrite idle_slots_set.
    destruct (decide (p = pool)) as [->|].
    + intros [Hj| ->%list_elem_of_singleton]%elem_of_app.
      * destruct (W2 pool j Hj). split; [by apply Hold|done].
      * split; [done|]. intros Hb. by apply Hfree, W3.
    + intros Hj. destruct (W2 p j Hj). split; [by apply Hold|done].
  - intros p j Hj. by apply Hold, W3.
Qed.

(** An idle slot loses its worker. *)
Lemma retire_idle_ok busy pool i k s :
  workers_ok busy s -> idle_slots s pool !! k = Some i ->
  workers_ok busy (set_slot pool i (fun x => mkSlot false 0 false (sl_mailbox x))
    (set_idle pool (delete k (idle_slots s pool)) s)).
Proof.
  intros [W1 W2 W3] Hk. set (l := delete k (idle_slots s pool)).
  assert (Hin : i ∈ idle_slots s pool) by (by eapply list_elem_of_lookup_2).
  assert (Hl : NoDup l /\ forall j, j ∈ l -> j ∈ idle_slots s pool /\ j <> i).
  { pose proof (delete_Permutation _ _ _ Hk) as HP. specialize (W1 pool). rewrite HP in W1.
    apply NoDup_cons in W1 as [Hn Hnd]. split; [done|]. intros j Hj. split.
    - rewrite HP. by right.
    - by intros ->. }
  destruct Hl as [Hnd Hl].
  assert (Hfree : forall p j, (p, j) <> (pool, i) -> slot_free s p j ->
    slot_free (set_slot pool i (fun x => mkSlot false 0 false (sl_mailbox x)) (set_idle pool l s)) p j).
  { intros p j Hne Hj. by apply slot_free_set. }
  split.
  - intros p. change (NoDup (idle_slots (set_idle pool l s) p)). rewrite idle_slots_set.
    destruct (decide (p = pool)); [done|apply W1].
  - intros p j. change (j ∈ idle_slots (set_idle pool l s) p -> slot_free (set_slot pool i
      (fun x => mkSlot false 0 false (sl_mailbox x)) (set_idle pool l s)) p j /\ (p, j) ∉ busy).
    rewrite idle_slots_set. destruct (decide (p = pool)) as [->|Hp]; intros Hj.
    + destruct (Hl j Hj) as [Hj' Hne]. destruct (W2 pool j Hj'). split; [|done].
      apply Hfree; [congruence|done].
    + destruct (W2 p j Hj). split; [|done]. apply Hfree; [congruence|done].
  - intros p j Hj. apply Hfree; [|by apply W3]. intros [= -> ->]. by destruct (W2 pool i Hin).
Qed.

Lemma retireWorker_ok busy pool i s :
  workers_ok busy s ->
  let s' := (retireWorker pool i s).2 in only_workers s s' /\ workers_ok busy s' /\
    (forall p, p <> pool -> idle_slots s' p = idle_slots s p) /\
    (idle_slots s' pool = idle_slots s pool \/
     exists k, idle_slots s pool !! k = Some i /\ idle_slots s' pool = delete k (idle_slots s pool)).
Proof.
  intros HW. unfold retireWorker.
  destruct (_ <=? _). { split_and_all; [apply only_workers_refl|done|done|by left]. }
  pose proof (index_of_spec i (idle_slots s pool) (wk_nodup _ _ HW pool)) as Hi.
  destruct (index_of i (idle_slots s pool)) as [k|].
  2: { split_and_all; [apply only_workers_refl|done|done|by left]. }
  simpl. split_and_all.
  - apply set_slot_only, set_idle_only, only_workers_refl.
  - by apply retire_idle_ok.
  - intros p Hp. change (idle_slots (set_idle pool (delete k (idle_slots s pool)) s) p = idle_slots s p).
    by rewrite idle_slots_set, decide_False.
  - right. exists k. split; [done|].
    change (idle_slots (set_idle pool (delete k (idle_slots s pool)) s) pool = delete k (idle_slots s pool)).
    by rewrite idle_slots_set, decide_True.
Qed.

Lemma retire_excess_ok busy pool fuel : forall s,
  workers_ok busy s ->
  let s' := retire_excess fuel pool s in only_workers s s' /\ workers_ok busy s'.
Proof.
  induction fuel as [|fuel IH]; intros s HW; simpl; [split; [apply only_workers_refl|done]|].
  destruct (_ <? _); [|split; [apply only_workers_refl|done]].
  destruct (last (idle_slots s pool)) as [i|]; [|split; [apply only_workers_refl|done]].
  destruct (retireWorker_ok busy pool i s HW) as (S1 & S2 & _).
  destruct (retireWorker pool i s) as [ok s1]. simpl in *.
  destruct ok; [|done]. destruct (IH s1 S2) as [I1 I2]. split; [|done].
  by eapply only_workers_trans.
Qed.

(** The loop stays within the idle slots, whatever it retires behind it. *)
Lemma sweep_idle_ok busy pool now timeout minimum i : forall running s,
  workers_ok busy s -> (i <= length (idle_slots s pool))%nat ->
  let s' := sweep_idle i pool now timeout minimum running s in only_workers s s' /\ workers_ok busy s'.
Proof.
  induction i as [|i IH]; intros running s HW Hi; simpl; [split; [apply only_workers_refl|done]|].
  destruct (_ <=? _); [split; [apply only_workers_refl|done]|].
  destruct (idle_slots s pool !! i) as [j|] eqn:Hj.
  2: { apply lookup_ge_None in Hj. lia. }
  destruct (wk_idle _ _ HW pool j) as [(x & Hx & _) _]; [by eapply list_elem_of_lookup_2|].
  rewrite Hx. destruct (is_zero _); [apply IH; [done|lia]|].
  destruct (_ <=? _); [|apply IH; [done|lia]].
  destruct (retireWorker_ok busy pool j s HW) as (S1 & S2 & _ & Hidle).
  destruct (retireWorker pool j s) as [ok s1]. simpl in *.
  destruct (IH (if ok then running - 1 else running) s1 S2) as [I1 I2].
  - destruct Hidle as [->|(k & Hk & ->)]; [lia|].
    rewrite length_delete by done. pose proof (lookup_lt_Some _ _ _ Hk). lia.
  - split; [|done]. by eapply only_workers_trans.
Qed.

Lemma sweep_pools_workers busy now pools : forall s,
  workers_ok busy s ->
  let s' := fold_left (sweep_idle_pool now) pools s in only_workers s s' /\ workers_ok busy s'.
Proof.
  induction pools as [|pool pools IH]; intros s HW; simpl; [split; [apply only_workers_refl|done]|].
  assert (H : only_workers s (sweep_idle_pool now s pool) /\ workers_ok busy (sweep_idle_pool now s pool)).
  { unfold sweep_idle_pool. destruct (_ <=? _); [split; [apply only_workers_refl|done]|].
    by apply sweep_idle_ok. }
  destruct H as [H1 H2]. destruct (IH _ H2) as [I1 I2]. split; [|done]. by eapply only_workers_trans.
Qed.

Lemma tick_only s n : only_workers s (e_set_ticks n s).
Proof. by exists (e_slots s), (e_idleSlots s), n. Qed.

Lemma tick_workers busy s n : workers_ok busy s -> workers_ok busy (e_set_ticks n s).
Proof. intros H. by apply (workers_ok_same busy s). Qed.

Lemma retireExcess_good X busy pool s :
  good (flight X) busy s -> good (flight X) busy (retireExcessWorkers pool s) /\
  e_registry (retireExcessWorkers pool s) = e_registry s.
Proof.
  intros Hg. destruct (retire_excess_ok busy pool (length (idle_slots s pool)) s) as [G1 G2]; [apply Hg|].
  split; [by apply (only_workers_good _ _ s)|]. by apply only_workers_registry.
Qed.

Variable clock : nat -> nat -> time.
Variable pool_order : nat -> list PoolID -> list PoolID.

Lemma spawnWorker_idle busy pool i s :
  workers_ok busy s -> spawnWorker clock pool i s = (false, s) \/
  exists s1, spawnWorker clock pool i s = (true, s1) /\ only_workers s s1 /\
    idle_slots s1 pool = idle_slots s pool /\
    workers_ok busy (set_idle pool (idle_slots s pool ++ [i]) s1).
Proof.
  intros HW. unfold spawnWorker. destruct (pool_slots s pool !! i) as [x|] eqn:Hx; [|by left].
  destruct (sl_running x) eqn:Hrun; [by left|]. right. unfold now, tick.
  eexists. split; [reflexivity|]. split_and_all.
  - eexists _, (e_idleSlots s), _. reflexivity.
  - done.
  - exact (spawn_idle_ok busy pool i (clock (e_ticks s) 0) (S (e_ticks s)) s x HW Hx Hrun).
Qed.

Lemma spawnNextWorker_ok busy pool s :
  workers_ok busy s ->
  let s' := (spawnNextWorker clock pool s).2 in only_workers s s' /\ workers_ok busy s'.
Proof.
  intros HW. unfold spawnNextWorker.
  destruct (_ <=? _); [split; [apply only_workers_refl|done]|].
  destruct (first_free 0 (pool_slots s pool)) as [i|]; [|split; [apply only_workers_refl|done]].
  destruct (spawnWorker_idle busy pool i s HW) as [->|(s1 & -> & Ho & Hi & HW1)]; simpl;
    [split; [apply only_workers_refl|done]|].
  rewrite Hi. split; [by apply set_idle_only|done].
Qed.

Lemma start_workers_ok busy pool n : forall i s,
  workers_ok busy s ->
  let s' := start_workers clock i n pool s in only_workers s s' /\ workers_ok busy s'.
Proof.
  induction n as [|n IH]; intros i s HW; simpl; [split; [apply only_workers_refl|done]|].
  destruct (spawnWorker_idle busy pool i s HW) as [->|(s1 & -> & Ho & Hi & HW1)].
  - by apply IH.
  - rewrite Hi. destruct (IH (S i) _ HW1) as [I1 I2]. split; [|exact I2].
    eapply only_workers_trans; [|exact I1]. by apply set_idle_only.
Qed.

Lemma refill_workers_ok busy pool minimum fuel : forall s,
  workers_ok busy s ->
  let s' := refill_workers clock fuel pool minimum s in only_workers s s' /\ workers_ok busy s'.
Proof.
  induction fuel as [|fuel IH]; intros s HW; simpl; [split; [apply only_workers_refl|done]|].
  destruct (_ <? _); [|split; [apply only_workers_refl|done]].
  destruct (spawnNextWorker_ok busy pool s HW) as [S1 S2].
  destruct (spawnNextWorker clock pool s) as [ok s1]. simpl in *.
  destruct ok; [|done]. destruct (IH s1 S2) as [I1 I2]. split; [|done].
  by eapply only_workers_trans.
Qed.

Lemma sweepIdleWorkers_ok busy now s :
  workers_ok busy s ->
  let s' := sweepIdleWorkers pool_order now s in only_workers s s' /\ workers_ok busy s'.
Proof.
  intros HW. unfold sweepIdleWorkers, range_pools, tick.
  destruct (sweep_pools_workers busy now (pool_order (e_ticks s) (map fst (map_to_list (e_configPools s))))
    _ (tick_workers busy s (S (e_ticks s)) HW)) as [I1 I2].
  split; [|done]. eapply only_workers_trans; [|exact I1]. apply tick_only.
Qed.

Lemma grow_ok busy pool s :
  workers_ok busy s -> only_workers s (grow clock pool s) /\ workers_ok busy (grow clock pool s).
Proof.
  intros HW. unfold grow. destruct (_ && _); [by apply spawnNextWorker_ok|].
  split; [apply only_workers_refl|done].
Qed.

(** ** Assignment *)

(** The idle slot [i] takes an assignment. *)
Lemma assign_workers busy pool i rest a s :
  workers_ok busy s -> idle_slots s pool = i :: rest ->
  workers_ok busy (set_slot pool i (fun x => mkSlot (sl_running x) 0 (sl_cancel x) (Some (Some a)))
    (set_idle pool rest s)).
Proof.
  intros [W1 W2 W3] Hk.
  assert (Hin : i ∈ idle_slots s pool) by (rewrite Hk; left).
  assert (Hl : NoDup rest /\ i ∉ rest).
  { specialize (W1 pool). rewrite Hk in W1. apply NoDup_cons in W1. tauto. }
  destruct Hl as [Hnd Hni]. set (f := fun x => _).
  assert (Hfree : forall p j, (p, j) <> (pool, i) -> slot_free s p j ->
    slot_free (set_slot pool i f (set_idle pool rest s)) p j).
  { intros p j Hne Hj. by apply slot_free_set. }
  split.
  - intros p. change (NoDup (idle_slots (set_idle pool rest s) p)). rewrite idle_slots_set.
    destruct (decide (p = pool)); [done|apply W1].
  - intros p j. change (j ∈ idle_slots (set_idle pool rest s) p ->
      slot_free (set_slot pool i f (set_idle pool rest s)) p j /\ (p, j) ∉ busy).
    rewrite idle_slots_set. destruct (decide (p = pool)) as [->|Hp]; intros Hj.
    + destruct (W2 pool j); [rewrite Hk; by right|]. split; [|done]. apply Hfree; [congruence|done].
    + destruct (W2 p j Hj). split; [|done]. apply Hfree; [congruence|done].
  - intros p j Hj. apply Hfree; [|by apply W3]. intros [= -> ->]. by destruct (W2 pool i Hin).
Qed.

Definition granted pool r s : taskRecord :=
  r_set_cancelFunc (Some (S (e_fresh s))) (r_set_state StateDispatching
    (r_set_dispatchEpoch (e_dispatchEpoch s + 1)
      (r_set_permit (Some (mkPermit (e_fresh s) pool (ws_ID (r_spec r)) (e_dispatchEpoch s + 1))) r))).

Lemma send_free pool i a s :
  slot_free s pool i ->
  send_assignment pool i a s =
  set_slot pool i (fun x => mkSlot (sl_running x) (sl_idleSince x) (sl_cancel x) (Some (Some a))) s.
Proof. intros (x & Hx & _ & Hm). unfold send_assignment. rewrite Hx. simpl. by rewrite Hm. Qed.

Lemma set_slot_twice pool i f g s :
  e_slots (set_slot pool i g (set_slot pool i f s)) = e_slots (set_slot pool i (fun x => g (f x)) s).
Proof.
  unfold set_slot. simpl. apply map_eq. intros p. destruct (decide (p = pool)) as [->|Hp].
  - rewrite !lookup_alter_eq. destruct (e_slots s !! pool) as [l|]; [|done]. simpl. f_equal.
    apply list_eq. intros j. destruct (decide (j = i)) as [->|Hj].
    + rewrite !list_lookup_alter_eq. by destruct (l !! i).
    + by rewrite !list_lookup_alter_ne.
  - by rewrite !lookup_alter_ne.
Qed.

(** What the assignment makes of the engine. *)
Lemma assign_shape pool i rest spec id r s :
  slot_free s pool i ->
  let s' := assign pool i rest spec id r s in
  let a := mkAssignment spec (mkPermit (e_fresh s) pool (ws_ID (r_spec r)) (e_dispatchEpoch s + 1))
    (S (e_fresh s)) in
  e_registry s' = <[id := granted pool r s]> (e_registry s) /\
  e_dispatchEpoch s' = e_dispatchEpoch s + 1 /\ e_commitSeq s' = e_commitSeq s /\
  e_fresh s' = S (S (e_fresh s)) /\ e_adm s' = e_adm s /\
  e_resultSlotsHeld s' = e_resultSlotsHeld s /\ e_activeTasks s' = e_activeTasks s /\
  e_retainedBytes s' = e_retainedBytes s /\ e_commitPending s' = e_commitPending s /\
  e_resourceUsed s' = reserve_all (ws_Resources (r_spec r)) (e_resourceUsed s) /\
  e_terminalOrder s' = e_terminalOrder s /\
  e_resourceCapacity s' = e_resourceCapacity s /\ e_resultCapacity s' = e_resultCapacity s /\
  (lifecycle_ok s -> lifecycle_ok s') /\ e_faults s' = e_faults s /\
  e_idleSlots s' = e_idleSlots (set_idle pool rest s) /\
  e_slots s' = e_slots (set_slot pool i
    (fun x => mkSlot (sl_running x) 0 (sl_cancel x) (Some (Some a))) (set_idle pool rest s)).
Proof.
  intros Hf. unfold assign, alloc. cbn zeta iota beta.
  match goal with |- context [send_assignment pool i ?x ?st] =>
    assert (Hs : send_assignment pool i x st = set_slot pool i
      (fun y => mkSlot (sl_running y) (sl_idleSince y) (sl_cancel y) (Some (Some x))) st) end.
  { apply send_free. destruct Hf as (x & Hx & Hr & Hm).
    exists (mkSlot (sl_running x) 0 (sl_cancel x) (sl_mailbox x)). split; [|done].
    change (pool_slots (set_slot pool i (fun x => mkSlot (sl_running x) 0 (sl_cancel x) (sl_mailbox x)) s)
      pool !! i = Some (mkSlot (sl_running x) 0 (sl_cancel x) (sl_mailbox x))).
    by rewrite pool_slots_set, decide_True, list_lookup_alter_eq, Hx. }
  rewrite Hs. clear Hs.
  assert (Hsl := set_slot_twice pool i (fun x => mkSlot (sl_running x) 0 (sl_cancel x) (sl_mailbox x))
    (fun y => mkSlot (sl_running y) (sl_idleSince y) (sl_cancel y) (Some (Some (mkAssignment spec
      (mkPermit (e_fresh s) pool (ws_ID (r_spec r)) (e_dispatchEpoch s + 1)) (S (e_fresh s))))))
    (set_idle pool rest s)).
  destruct (r_cancelRequested _); simpl; split_and_all; try done; intros [L1 L2 L3]; by split.
Qed.

(** ** Dispatch *)

(** A controller that may have moved its cursors. *)
Lemma good_adm X busy s a :
  good (flight X) busy s -> a_ok a -> a_index a = a_index (e_adm s) -> a_same_slots (e_adm s) a ->
  good (flight X) busy (e_set_adm a s).
Proof.
  intros Hg Hok Hi Hs. apply (good_same _ _ _ s _ Hg); [done|]. destruct Hg as (H & _).
  by apply (engine_ok_adm (flight X)); rewrite ?Hi.
Qed.

(** A step that only writes the worker tables, faults apart. *)
Lemma workers_ok_tables busy s s' :
  workers_ok busy s -> e_slots s' = e_slots s -> e_idleSlots s' = e_idleSlots s -> workers_ok busy s'.
Proof.
  intros [W1 W2 W3] E1 E2. unfold slot_free, idle_slots, pool_slots in *.
  split; unfold slot_free, idle_slots, pool_slots; rewrite ?E1, ?E2; done.
Qed.

(** The selected task goes to the worker of the first idle slot. *)
Lemma dispatch_one X busy pool i rest n t ok e a s r :
  good (flight X) busy s -> all_flying X s -> idle_slots s pool = i :: rest ->
  a_select t ok pool (e_adm s) = Selected e a -> e_registry s !! qe_ID e = Some r ->
  (forall spec, ok spec = true -> resourcesAvailable (e_resourceUsed s) (e_resourceCapacity s) spec = true) ->
  r_state r = StateQueued -> r_spec r = qe_Spec e ->
  let s' := assign pool i rest (qe_Spec e) (qe_ID e) r (e_set_adm a (e_set_ticks n s)) in
  good (flight X) busy s' /\ keeps_flying s s'.
Proof.
  intros (H & HW & HF) HX Hidle Hsel Hr Hfit Hq Hspec s'.
  destruct (wk_idle _ _ HW pool i) as [Hfree Hnb]; [rewrite Hidle; left|].
  set (s0 := e_set_adm a (e_set_ticks n s)).
  pose proof (assign_shape pool i rest (qe_Spec e) (qe_ID e) r s0 Hfree) as HS. cbn zeta in HS.
  change (assign pool i rest (qe_Spec e) (qe_ID e) r s0) with s' in HS. clearbody s'.
  destruct HS as (E1 & E2 & E3 & E4 & E5 & E6 & E7 & E8 & E9 & E10 & E11 & E11' & E11'' & E12 & E13 & E14 & E15).
  pose proof (a_select_law t ok pool (e_adm s) (ao_ok _ _ (eo_admission _ _ H))) as HL.
  rewrite Hsel in HL. destruct HL as (A1 & A2 & A3 & Hav & _ & A4 & A5 & _ & A6 & A7 & A8).
  set (id := qe_ID e) in *.
  pose proof (eo_records _ _ H id r Hr) as [K1 K2 K3 K4 K5 K6 K7 K8 K9 K10].
  assert (Hf : flying r = false) by (unfold flying; by rewrite Hq).
  assert (Hp : pending r = false) by (unfold pending; by rewrite Hq).
  assert (Hlive : live (flight X) r = true) by (apply live_of_not_terminal; by rewrite Hq).
  assert (Hinf : inflight (flight X) r = false) by (unfold inflight; by rewrite Hf).
  assert (HnX : id ∉ X). { intros Hid. destruct (HX id Hid) as (x & Hx & Hxf). congruence. }
  set (r' := granted pool r s0) in *.
  assert (Hlive' : live (flight X) r' = true) by done.
  assert (Hinf' : inflight (flight X) r' = true).
  { unfold inflight. simpl. apply bool_decide_eq_true_2.
    change (rec_id r ∉ X). by rewrite K1. }
  pose proof (eo_accounts _ _ H) as Hacc.
  split.
  2: { intros j x Hx Hxf. rewrite E1, lookup_insert_ne; [done|]. intros <-. congruence. }
  split.
  2: { split; [|by rewrite E13]. eapply workers_ok_tables; [apply (assign_workers busy pool i rest); done|..].
       - by rewrite E15.
       - by rewrite E14. }
  eapply (engine_ok_rec (flight X) (flight X) s s' id r r' H Hr E1);
    rewrite ?E2, ?E3, ?E4, ?E5, ?E6, ?E7, ?E8, ?E9, ?E10, ?E11, ?E11', ?E11'', ?Hlive, ?Hlive', ?Hinf, ?Hinf'; try done.
  - simpl. lia.
  - simpl. lia.
  - simpl. constructor; simpl; try done.
    + left. set_solver.
    + by rewrite K3, Hlive.
    + intros _. by apply K5.
    + rewrite <- K7, Hp. done.
    + intros _. exists (mkPermit (e_fresh s) pool (ws_ID (r_spec r)) (e_dispatchEpoch s + 1)).
      simpl. rewrite Hspec. split_and_all; try done; lia.
  - simpl. rewrite A4. intros j x Hx. apply lookup_delete_Some in Hx as [Hj Hx]. split; [done|congruence].
  - simpl. rewrite A4. intros j Hj. by rewrite lookup_delete_ne by congruence.
  - simpl. lia.
  - simpl. lia.
  - simpl. lia.
  - rewrite Hp. simpl. lia.
  - simpl. intros k. rewrite reserve_all_zget. unfold amount, demand. lia.
  - simpl. apply reserve_all_pos; [intros q Hq'; by apply K6|apply Hacc].
  - simpl. intros o. rewrite A6. unfold qe_owner. rewrite <- Hspec.
    destruct (decide (o = ws_QuotaOwner (r_spec r))) as [->|Ho].
    + rewrite !bool_decide_eq_true_2 by done. simpl. lia.
    + rewrite !bool_decide_eq_false_2 by congruence. simpl. lia.
  - simpl. intros key j. rewrite A8.
    assert (Hno : forall k, a_locks (e_adm s) !! k <> Some id).
    { intros k Hk. apply (ac_locks _ _ Hacc) in Hk as (_ & x & Hx & Hi & _). congruence. }
    rewrite <- Hspec in *. case_decide as Hk.
    + split.
      * intros [[<- <-]|[Hne Hl]]%lookup_insert_Some; [by right|]. left. split; [|done]. intros ->; by destruct (Hno key).
      * intros [[Hj Hl]|(-> & _ & _ & <-)]; [|by rewrite lookup_insert_eq].
        rewrite lookup_insert_ne; [done|]. intros <-. rewrite A7 in Hl by done. done.
    + split; [|naive_solver]. intros Hl. left. split; [|done]. intros ->. by destruct (Hno key).
  - apply (eo_order _ _ H).
  - intros j. split; [|intros [[_ ?]|[_ ?]]; done]. intros Hj. left. split; [|done].
    intros ->. apply (or_elems _ _ (eo_order _ _ H)) in Hj as (x & Hx & Hlx). congruence.
  - simpl. intros k. rewrite reserve_all_zget. apply Hfit in Hav. rewrite <- Hspec in Hav.
    apply resourcesAvailable_fits; [done|apply K6|apply Hacc].
  - pose proof (ac_credits _ _ Hacc). simpl. lia.
  - apply E12. destruct (eo_lifecycle _ _ H). by split.
Qed.

(** The worker of the slot [i] reported: it is idle again. *)
Lemma mark_idle_workers busy pool i t n s :
  workers_ok busy s -> (pool, i) ∈ busy ->
  let s1 := e_set_ticks n (set_slot pool i (fun x => mkSlot (sl_running x) t (sl_cancel x) (sl_mailbox x)) s) in
  workers_ok (busy ∖ {[(pool, i)]}) (set_idle pool (idle_slots s pool ++ [i]) s1) /\ i ∉ idle_slots s pool.
Proof.
  intros [W1 W2 W3] Hb s1.
  assert (Hni : i ∉ idle_slots s pool) by (intros Hi; by destruct (W2 pool i Hi)).
  assert (Hfree : forall p j, slot_free s p j -> slot_free s1 p j).
  { intros p j (x & Hx & Hr & Hm). unfold s1.
    change (slot_free (set_slot pool i (fun x => mkSlot (sl_running x) t (sl_cancel x) (sl_mailbox x)) s) p j).
    destruct (decide ((p, j) = (pool, i))) as [[= -> ->]|Hn].
    - exists (mkSlot (sl_running x) t (sl_cancel x) (sl_mailbox x)).
      by rewrite pool_slots_set, decide_True, list_lookup_alter_eq, Hx by done.
    - apply slot_free_set; [done|]. by exists x. }
  split; [|done]. split.
  - intros p. rewrite idle_slots_set. destruct (decide (p = pool)) as [->|]; [|apply W1].
    apply NoDup_app. split_and_all; [apply W1| |apply NoDup_singleton].
    intros j Hj ->%list_elem_of_singleton. done.
  - intros p j. rewrite idle_slots_set. destruct (decide (p = pool)) as [->|Hp].
    + intros [Hj| ->%list_elem_of_singleton]%elem_of_app.
      * destruct (W2 pool j Hj). split; [by apply Hfree|set_solver].
      * split; [by apply Hfree, W3|set_solver].
    + intros Hj. destruct (W2 p j Hj). split; [by apply Hfree|set_solver].
  - intros p j [Hj _]%elem_of_difference. by apply Hfree, W3.
Qed.

Lemma dispatch_loop_ok X busy pool fuel : forall s,
  good (flight X) busy s -> all_flying X s ->
  let s' := dispatch_loop clock fuel pool s in good (flight X) busy s' /\ keeps_flying s s'.
Proof.
  induction fuel as [|fuel IH]; intros s Hg HX; cbn [dispatch_loop]; [done|].
  destruct (idle_slots s pool) as [|i rest] eqn:Hidle; [done|]. unfold tick. cbn beta iota zeta.
  pose proof Hg as (H & _ & _).
  pose proof (a_select_law (clock (e_ticks s)) (resourcesAvailable (e_resourceUsed s) (e_resourceCapacity s))
    pool (e_adm s) (ao_ok _ _ (eo_admission _ _ H))) as HL.
  change (e_resourceUsed (e_set_ticks (S (e_ticks s)) s)) with (e_resourceUsed s).
  change (e_resourceCapacity (e_set_ticks (S (e_ticks s)) s)) with (e_resourceCapacity s).
  change (e_adm (e_set_ticks (S (e_ticks s)) s)) with (e_adm s).
  destruct (a_select (clock (e_ticks s)) (resourcesAvailable (e_resourceUsed s) (e_resourceCapacity s))
    pool (e_adm s)) as [e a|a|] eqn:Hsel; [|split; [|by intros ? ?]|destruct HL].
  - change (e_registry (e_set_adm a (e_set_ticks (S (e_ticks s)) s))) with (e_registry s).
    destruct HL as (_ & Hidx & _).
    destruct (ao_index _ _ (eo_admission _ _ H) _ _ Hidx) as [(r & Hr & Hq & Hspec) _].
    rewrite Hr, decide_True by done.
    destruct (dispatch_one X busy pool i rest (S (e_ticks s)) _ _ e a s r Hg HX Hidle Hsel Hr (fun _ Hok => Hok) Hq Hspec)
      as [G1 K1].
    destruct (IH _ G1) as [G2 K2]; [by eapply all_flying_keeps|]. split; [done|by etrans].
  - apply (good_adm X busy (e_set_ticks (S (e_ticks s)) s) a); [by apply good_tick|apply HL..].
Qed.

Lemma grow_good X busy pool s :
  good (flight X) busy s -> good (flight X) busy (grow clock pool s) /\ keeps_flying s (grow clock pool s).
Proof.
  intros Hg. destruct (grow_ok busy pool s) as [G1 G2]; [apply Hg|].
  split; [by apply (only_workers_good _ _ s)|]. by apply keeps_flying_eq, only_workers_registry.
Qed.

Lemma tryDispatch_ok X busy pool s :
  good (flight X) busy s -> all_flying X s ->
  let s' := tryDispatch clock pool s in good (flight X) busy s' /\ keeps_flying s s'.
Proof.
  intros Hg HX. unfold tryDispatch. destruct (negb _); [done|].
  unfold now, tick. cbn beta iota zeta. set (s0 := e_set_ticks (S (e_ticks s)) s).
  destruct (sweepExpired_ok X pool (clock (e_ticks s) 0) busy s0) as [G1 K1]; [by apply good_tick|].
  set (s1 := sweepExpired _ _ s0) in *.
  assert (K1' : keeps_flying s s1) by exact K1. clearbody s1.
  destruct (grow_good X busy pool s1 G1) as [G2 K2]. set (s2 := grow clock pool s1) in *. clearbody s2.
  destruct (dispatch_loop_ok X busy pool (S (Z.to_nat (a_stats pool (e_adm s2)).1)) s2 G2) as [G3 K3].
  { apply (all_flying_keeps X s1); [|done]. by apply (all_flying_keeps X s). }
  set (s3 := dispatch_loop _ _ _ s2) in *. clearbody s3.
  destruct (grow_good X busy pool s3 G3) as [G4 K4]. split; [done|].
  etrans; [exact K1'|]. etrans; [exact K2|]. by etrans; [exact K3|].
Qed.

Lemma dispatch_all_ok X busy s :
  good (flight X) busy s -> all_flying X s ->
  let s' := dispatch_all clock pool_order s in good (flight X) busy s' /\ keeps_flying s s'.
Proof.
  intros Hg HX. unfold dispatch_all, range_pools, tick. cbn beta iota zeta.
  generalize (pool_order (e_ticks s) (map fst (map_to_list (e_configPools (e_set_ticks (S (e_ticks s)) s))))).
  intros pools. set (s0 := e_set_ticks (S (e_ticks s)) s).
  assert (H0 : good (flight X) busy s0) by by apply good_tick.
  assert (HX0 : all_flying X s0) by done. assert (K0 : keeps_flying s s0) by by apply keeps_flying_eq. clearbody s0.
  revert s0 H0 HX0 K0. induction pools as [|p pools IH]; intros s0 H0 HX0 K0; simpl; [done|].
  destruct (tryDispatch_ok X busy p s0 H0 HX0) as [G1 K1].
  apply IH; [done|by eapply all_flying_keeps|by etrans].
Qed.

Lemma markWorkerIdle_ok busy pool i s :
  good quiet busy s -> (pool, i) ∈ busy ->
  good quiet (busy ∖ {[(pool, i)]}) (markWorkerIdle clock pool_order pool i s).
Proof.
  intros Hg Hb. unfold markWorkerIdle. pose proof Hg as (H & HW & HF).
  destruct (wk_busy _ _ HW pool i Hb) as (x & Hx & Hr & Hm). rewrite Hx, Hr. cbn [negb].
  unfold now, tick. cbn beta iota zeta.
  destruct (mark_idle_workers busy pool i (clock (e_ticks s) 0) (S (e_ticks s)) s HW Hb) as [HW' Hni].
  set (s1 := set_slot pool i _ _).
  change (idle_slots s1 pool) with (idle_slots s pool). rewrite decide_False by done.
  set (s2 := set_idle pool _ s1).
  assert (Hg2 : good (flight ∅) (busy ∖ {[(pool, i)]}) s2).
  { split; [|split; [exact HW'|done]].
    apply (engine_ok_frame quiet s); try done. by destruct (eo_lifecycle _ _ H). }
  clearbody s2. destruct (retireExcess_good ∅ _ pool s2 Hg2) as [G1 _].
  apply (dispatch_all_ok ∅); [done|]. intros j Hj. by apply elem_of_empty in Hj.
Qed.

End Dispatch.
