(* ===== verification/EngineHandlers.v ===== *)
(** * The handlers of the coordinator keep the invariant

    Completion, the commit protocol, cancellation, shutdown, live
    configuration and admission of Engine.v, each from a [good] state to a
    [good] state. *)

From S2P Require Import Prelude.
From S2P Require Import Execution.
From S2P Require Import Tasks.
From S2P Require Import AdmissionTypes.
From S2P Require Import EngineAccounting.
From S2P Require Import EngineConfig.
From S2P Require Import EngineState.
From S2P Require Import Engine.
From S2P Require Import EngineInvariant.
From S2P Require Import EngineSteps.
From S2P Require Import EngineDispatch.

Section Handlers.
Context {A L : Type} {AO : AdmissionOps A} {LO : DeliveryOps L} {AL : AdmissionLaws A}.
#[local] Abbreviation engine := (engine A L).
Implicit Types (s : engine) (ph : phase) (r : taskRecord) (busy : gset (PoolID * nat)).

(** Nothing the invariant reads of a record has changed. *)
Record same_record r r' : Prop := {
  sr_spec : r_spec r' = r_spec r;
  sr_done : r_done r' = r_done r;
  sr_retained : r_retainedBytes r' = r_retainedBytes r;
  sr_callback : r_callbackReserved r' = r_callbackReserved r;
  sr_durability : r_durability r' = r_durability r;
  sr_seq : r_commitSeq r' = r_commitSeq r;
  sr_permit : r_permit r' = r_permit r;
  sr_epoch : r_dispatchEpoch r' = r_dispatchEpoch r;
  sr_state : r_state r' = r_state r \/ (flying r = true /\ flying r' = true)
}.

(** ** Lemmas *)

#[global] Instance same_record_refl : Reflexive same_record.
Proof. intros r. split; try done. by left. Qed.

Lemma same_record_flying r r' : same_record r r' -> flying r' = flying r.
Proof. intros H. destruct (sr_state _ _ H) as [E|[-> ->]]; [|done]. unfold flying. by rewrite E. Qed.

Lemma same_record_pending r r' : same_record r r' -> pending r' = pending r.
Proof.
  intros H. destruct (sr_state _ _ H) as [E|[H1 H2]]; [unfold pending; by rewrite E|].
  by rewrite !flying_not_pending.
Qed.

Lemma same_record_terminal r r' : same_record r r' -> terminal_state (r_state r') = terminal_state (r_state r).
Proof. intros H. destruct (sr_state _ _ H) as [->|[H1 H2]]; [done|]. by rewrite !flying_not_terminal. Qed.

Lemma same_record_queued r r' : same_record r r' -> r_state r' = StateQueued <-> r_state r = StateQueued.
Proof.
  intros H. destruct (sr_state _ _ H) as [->|[H1 H2]]; [done|].
  split; intros E; [by apply flying_not_queued in H2|by apply flying_not_queued in H1].
Qed.

Lemma same_record_live ph r r' : same_record r r' -> live ph r' = live ph r.
Proof.
  intros H. unfold live, rec_id. by rewrite (sr_spec _ _ H), (same_record_terminal _ _ H).
Qed.

Lemma same_record_inflight ph r r' : same_record r r' -> inflight ph r' = inflight ph r.
Proof.
  intros H. unfold inflight, rec_id. by rewrite (sr_spec _ _ H), (same_record_flying _ _ H).
Qed.

Lemma same_record_ok ph epoch seq fresh id r r' :
  same_record r r' -> record_ok ph epoch seq fresh id r -> record_ok ph epoch seq fresh id r'.
Proof.
  intros H [K1 K2 K3 K4 K5 K6 K7 K8 K9 K10].
  pose proof (same_record_live ph r r' H) as Hl. pose proof (same_record_pending r r' H) as Hp.
  pose proof (same_record_flying r r' H) as Hf. pose proof (same_record_terminal r r' H) as Ht.
  destruct H as [E1 E2 E3 E4 E5 E6 E7 E8 Hs].
  split; unfold rec_id; rewrite ?Hl, ?Hp, ?Hf, ?Ht, ?E1, ?E2, ?E3, ?E4, ?E5, ?E6, ?E7, ?E8; try done.
  destruct Hs as [->|[_ Hs]]; [done|]. left. unfold flying in Hs. apply bool_decide_eq_true in Hs.
  set_solver.
Qed.

(** Writing such a record keeps the invariant. *)
Lemma touch_ok ph s s' id r r' :
  engine_ok ph s -> e_registry s !! id = Some r -> same_record r r' ->
  stored s s' id r' -> e_retainedBytes s' = e_retainedBytes s ->
  e_commitPending s' = e_commitPending s -> engine_ok ph s'.
Proof.
  intros H Hr Hsame [[W1 W2 W3 W4 W5 W6 _] C1 C2 C3 C4 C5 D1 D2 D3 D4] E1 E2.
  pose proof (eo_records _ _ H id r Hr) as Hrec.
  pose proof (same_record_live ph r r' Hsame) as Hl. pose proof (same_record_pending r r' Hsame) as Hp.
  pose proof (same_record_inflight ph r r' Hsame) as Hi.
  pose proof (eo_admission _ _ H) as [Ha1 Ha2 Ha3]. pose proof (eo_accounts _ _ H) as Hacc.
  eapply (engine_ok_rec ph ph s s' id r r' H Hr W1);
    rewrite ?W2, ?W3, ?W4, ?W5, ?W6, ?C1, ?C2, ?C3, ?C4, ?C5, ?E1, ?E2, ?Hl, ?Hp, ?Hi, ?(sr_spec _ _ Hsame),
      ?(sr_retained _ _ Hsame); try done; try (intros; lia).
  - by apply (same_record_ok _ _ _ _ _ r).
  - intros j e He. split; [done|]. intros ->. split; [|done].
    destruct (Ha2 id e He) as [(x & Hx & Hq & _) _]. apply (same_record_queued _ _ Hsame). congruence.
  - intros Hq Hn. apply (same_record_queued _ _ Hsame) in Hq. by apply (Ha3 id r).
  - apply Hacc.
  - intros key j. split.
    + intros Hk. destruct (decide (j = id)) as [->|]; [|by left]. right.
      apply (ac_locks _ _ Hacc) in Hk as (Hk & x & Hx & ? & ?). replace x with r in * by congruence. done.
    + intros [[_ ?]|(-> & Hk & ? & ?)]; [done|]. apply (ac_locks _ _ Hacc). split; [done|]. by exists r.
  - apply (eo_order _ _ H).
  - intros j. destruct (decide (j = id)) as [->|]; [|naive_solver]. split.
    + intros Hj. right. split; [done|]. apply (or_elems _ _ (eo_order _ _ H)) in Hj as (x & Hx & ?). congruence.
    + intros [[? _]|[_ ?]]; [done|]. apply (or_elems _ _ (eo_order _ _ H)). eauto.
  - apply Hacc.
  - pose proof (ac_credits _ _ Hacc). lia.
  - apply (lifecycle_same s); try done. apply (eo_lifecycle _ _ H).
Qed.

Lemma stored_set_rec s id r : stored s (set_rec id r s) id r.
Proof. by split. Qed.

Lemma stored_trans s s1 s2 id r1 r2 : stored s s1 id r1 -> stored s1 s2 id r2 -> stored s s2 id r2.
Proof.
  intros [[W1 W2 W3 W4 W6 W7 W5] C1 C2 C3 C4 C5 D1 D2 D3 D4] [[V1 V2 V3 V4 V6 V7 V5] F1 F2 F3 F4 F5 G1 G2 G3 G4].
  split; [split|..]; try congruence.
  - by rewrite V1, W1, insert_insert_eq.
  - by etrans.
Qed.

Lemma stored_pending v s s' id r : stored s s' id r -> stored s (e_set_commitPending v s') id r.
Proof. intros [[W1 W2 W3 W4 W6 W7 W5] C1 C2 C3 C4 C5 D1 D2 D3 D4]. by split. Qed.

Lemma index_queued_none ph s id r :
  engine_ok ph s -> e_registry s !! id = Some r -> flying r = true -> a_index (e_adm s) !! id = None.
Proof. intros H Hr Hf. apply (index_queued ph _ _ r); [done..|by apply flying_not_queued]. Qed.

(** ** Completion *)

Definition releasing (id : TaskID) ph : phase :=
  mkPhase ({[id]} ∪ ph_released ph) (ph_settling ph) (ph_dequeued ph).

(** Giving back the resources and the admission slot of a task. *)
Lemma release_ok ph s s' id r r' :
  engine_ok ph s -> e_registry s !! id = Some r -> inflight ph r = true -> same_record r r' ->
  e_registry s' = <[id := r']> (e_registry s) ->
  e_adm s' = a_terminal (r_spec r) (e_adm s) ->
  e_resourceUsed s' = release_all (ws_Resources (r_spec r)) (e_resourceUsed s) ->
  e_dispatchEpoch s' = e_dispatchEpoch s -> e_commitSeq s' = e_commitSeq s -> e_fresh s' = e_fresh s ->
  e_resultSlotsHeld s' = e_resultSlotsHeld s -> e_activeTasks s' = e_activeTasks s ->
  e_retainedBytes s' = e_retainedBytes s -> e_commitPending s' = e_commitPending s ->
  e_terminalOrder s' = e_terminalOrder s -> e_resourceCapacity s' = e_resourceCapacity s ->
  e_resultCapacity s' = e_resultCapacity s -> lifecycle_ok s' ->
  engine_ok (releasing id ph) s'.
Proof.
  intros H Hr Hin Hsame W1 C1 C4 W2 W3 W4 C2 C3 E1 E2 C5 D1 D2 Hlc.
  pose proof (eo_records _ _ H id r Hr) as Hrec. pose proof (rk_id _ _ _ _ _ _ Hrec) as Hid.
  pose proof (same_record_pending r r' Hsame) as Hp.
  pose proof (eo_admission _ _ H) as [Ha1 Ha2 Ha3]. pose proof (eo_accounts _ _ H) as Hacc.
  assert (Hl : live (releasing id ph) r' = live ph r) by (by rewrite (same_record_live _ _ _ Hsame)).
  assert (Hi : inflight (releasing id ph) r' = false).
  { rewrite (same_record_inflight _ _ _ Hsame). unfold inflight. rewrite Hid. simpl.
    rewrite bool_decide_eq_false_2; [apply andb_false_r|set_solver]. }
  assert (Hf : flying r = true) by (unfold inflight in Hin; by apply andb_true_iff in Hin as [? _]).
  pose proof (a_terminal_law (r_spec r) (e_adm s) Ha1) as (T1 & T2 & T3 & _ & T5 & T6).
  assert (Hused : forall n, demand n (ws_Resources (r_spec r)) <= zget n (e_resourceUsed s)).
  { intros n. rewrite (ac_used _ _ Hacc).
    pose proof (msum_lookup_le (fun x => if inflight ph x then amount n (r_spec x) else 0)
      (e_registry s) id r) as Hk. simpl in Hk. rewrite Hin in Hk. apply Hk; [|done]. intros j x Hx.
    destruct (inflight ph x); [|done]. apply demand_nonneg. intros q Hq.
    by apply (rk_resources _ _ _ _ _ _ (eo_records _ _ H j x Hx)). }
  assert (Hrec_pos : forall q, q ∈ ws_Resources (r_spec r) -> 0 < rr_Amount q).
  { intros q Hq. by apply (rk_resources _ _ _ _ _ _ Hrec). }
  assert (Hone : 1 <= a_active (e_adm s) (ws_QuotaOwner (r_spec r))).
  { rewrite (ac_owners _ _ Hacc).
    pose proof (msum_lookup_le (fun x => ind (inflight ph x && bool_decide (ws_QuotaOwner (r_spec x) =
      ws_QuotaOwner (r_spec r)))) (e_registry s) id r (fun _ _ _ => ind_nonneg _) Hr) as Hk.
    simpl in Hk. rewrite Hin, bool_decide_eq_true_2 in Hk by done. exact Hk. }
  eapply (engine_ok_rec ph (releasing id ph) s s' id r r' H Hr W1);
    rewrite ?W2, ?W3, ?W4, ?W5, ?W6, ?C1, ?C2, ?C3, ?C4, ?C5, ?E1, ?E2, ?D1, ?D2, ?Hl, ?Hp, ?Hi, ?Hin, ?T2,
      ?(sr_spec _ _ Hsame), ?(sr_retained _ _ Hsame); try done; try (intros; lia).
  - intros j Hj. simpl. set_solver.
  - apply (same_record_ok _ _ _ _ _ r); [done|]. destruct Hrec. by split.
  - intros j e He. split; [done|]. intros ->.
    destruct (Ha2 id e He) as [(x & Hx & Hq & _) _]. apply flying_not_queued in Hf. congruence.
  - intros Hq. apply (same_record_queued _ _ Hsame) in Hq. by apply flying_not_queued in Hf.
  - intros n. rewrite release_all_spec; [unfold demand, amount; lia|apply Hrec_pos|exact Hused].
  - apply release_all_pos, Hacc.
  - intros o. assert (Hpos : 0 <= a_active (e_adm s) o).
    { rewrite (ac_owners _ _ Hacc). apply msum_nonneg. intros; apply ind_nonneg. }
    rewrite T5 by done. destruct (decide (o = ws_QuotaOwner (r_spec r))) as [->|Ho].
    + rewrite !bool_decide_eq_true_2 by done. simpl. lia.
    + rewrite !bool_decide_eq_false_2 by congruence. simpl. lia.
  - intros key j. rewrite T6. change (ws_ID (r_spec r)) with (rec_id r). rewrite Hid.
    assert (Hlock : forall k, a_locks (e_adm s) !! k = Some id -> k = ws_OrderingKey (r_spec r)).
    { intros k Hk. apply (ac_locks _ _ Hacc) in Hk as (_ & x & Hx & _ & Hk). congruence. }
    split.
    + intros Hk. left. case_decide as Hd.
      * apply lookup_delete_Some in Hk as [Hne Hk]. split; [|done]. intros ->. by apply Hlock in Hk.
      * split; [|done]. intros ->. apply Hd. rewrite <- (Hlock key Hk). split; [|done].
        by apply (ac_locks _ _ Hacc) in Hk as (? & _).
    + intros [[Hj Hk]|(_ & _ & ? & _)]; [|done]. case_decide as Hd; [|done].
      rewrite lookup_delete_ne; [done|]. intros <-. destruct Hd as [_ Hd]. congruence.
  - apply (eo_order _ _ H).
  - intros j. destruct (decide (j = id)) as [->|]; [|naive_solver].
    rewrite (live_of_not_terminal ph r) by by apply flying_not_terminal.
    split; [|naive_solver]. intros (x & Hx & Hlx)%(or_elems _ _ (eo_order _ _ H)).
    rewrite Hr in Hx. injection Hx as <-. rewrite live_of_not_terminal in Hlx; [done|].
    by apply flying_not_terminal.
  - intros n. rewrite release_all_spec by done. pose proof (ac_capacity _ _ Hacc n).
    pose proof (demand_nonneg n _ Hrec_pos). lia.
  - pose proof (ac_credits _ _ Hacc). lia.
Qed.

(** ** The commit protocol *)

Lemma pending_state r : pending r = true <-> r_state r = StateCommitPending.
Proof. unfold pending. apply bool_decide_eq_true. Qed.

Lemma pending_facts ph s id r :
  engine_ok ph s -> e_registry s !! id = Some r -> pending r = true ->
  terminal_state (r_state r) = false /\ a_index (e_adm s) !! id = None /\ flying r = false /\
  inflight ph r = false.
Proof.
  intros H Hr Hp%pending_state. assert (Hf : flying r = false) by (unfold flying; by rewrite Hp).
  split_and_all; [by rewrite Hp| |done|unfold inflight; by rewrite Hf].
  apply (index_queued ph _ _ r); [done..|congruence].
Qed.

(** The end of a pending commit: the counter and the record, in one step. *)
Lemma finish_pending busy q s s' id r r' :
  good quiet busy s -> e_registry s !! id = Some r -> pending r = true ->
  terminal_state (r_state r') = true -> r_spec r' = r_spec r -> r_done r' = r_done r ->
  r_callbackReserved r' = r_callbackReserved r -> r_durability r' <> durPending ->
  r_commitSeq r' = r_commitSeq r -> r_retainedBytes r <= r_retainedBytes r' ->
  let s1 := e_set_commitPending (e_commitPending s - 1) (releaseCommitWaiter q s) in
  stored s1 s' id r' -> e_commitPending s' = e_commitPending s1 ->
  e_retainedBytes s' = e_retainedBytes s - r_retainedBytes r + r_retainedBytes r' ->
  good quiet busy (settleTerminal id s') /\ closes id s (settleTerminal id s').
Proof.
  intros Hg Hr Hp Ht B1 B2 B3 B4 B5 B6 s1 Hst E1 E2. pose proof Hg as (H & _ & _).
  destruct (pending_facts _ _ _ _ H Hr Hp) as (P1 & P2 & P3 & P4).
  pose proof (rk_retained _ _ _ _ _ _ (eo_records _ _ H id r Hr)) as Hpos.
  edestruct (finish_ok quiet quiet busy s s' id r r') as (F1 & _ & _ & F4); try done.
  - simpl. lia.
  - destruct Hst as [[W1 W2 W3 W4 W6 W7 W5] C1 C2 C3 C4 C5 D1 D2 D3 D4]. by split.
  - rewrite E1, Hp. simpl. lia.
Qed.

Lemma settle_uncertain_ok busy q s id r res :
  good quiet busy s -> e_registry s !! id = Some r -> pending r = true ->
  let s1 := e_set_commitPending (e_commitPending s - 1) (releaseCommitWaiter q s) in
  good quiet busy (settle_uncertain id r res s1) /\ closes id s (settle_uncertain id r res s1).
Proof.
  intros Hg Hr Hp s1. unfold settle_uncertain.
  destruct (0 <? _) eqn:Hd; bool_to_prop;
    (eapply (finish_pending busy q s _ id r); [done|done|done|..|by split| |]);
    try done; simpl in *; lia.
Qed.

Lemma applyCommitAck_ok busy s id seq err :
  good quiet busy s ->
  good quiet busy (applyCommitAck id seq err s) /\
  (applyCommitAck id seq err s = s \/ closes id s (applyCommitAck id seq err s)).
Proof.
  intros Hg. unfold applyCommitAck. destruct (e_registry s !! id) as [r|] eqn:Hr; [|by split; [|left]].
  destruct (_ || _) eqn:Hgu; [by split; [|left]|].
  match goal with |- ?P /\ (_ \/ ?Q) => assert (H0 : P /\ Q); [|by destruct H0; split; [|right]] end. bool_to_prop.
  assert (Hp : pending r = true) by (apply pending_state; by apply dec_stable).
  destruct err as [e|].
  - exact (settle_uncertain_ok busy seq s id r _ Hg Hr Hp).
  - eapply (finish_pending busy seq s _ id r); [done|done|done|..|apply stored_set_rec| |];
      unfold with_error_message; simpl; try case_match; try done; simpl; try lia.
    all: unfold terminalStateFor; destruct (r_execOutcome r); done.
Qed.

Lemma abandonPending_ok busy s id reason :
  good quiet busy s ->
  (forall r, e_registry s !! id = Some r -> pending r = true -> closes id s (abandonPending id reason s)) /\
  good quiet busy (abandonPending id reason s).
Proof.
  intros Hg. unfold abandonPending. destruct (e_registry s !! id) as [r|] eqn:Hr; [|done].
  case_decide as Hs; [|split; [|done]; by intros ? [= ->] ?%pending_state].
  match goal with |- (_ -> _ -> _ -> ?Q) /\ ?P => assert (H0 : P /\ Q); [|by destruct H0] end.
  exact (settle_uncertain_ok busy (r_commitSeq r) s id r _ Hg Hr (proj2 (pending_state r) Hs)).
Qed.

Variable pump : option pump_kind.
Variable answer : nat -> bool.

(** The environment and the hand-over to the pump are not part of the invariant. *)
Lemma good_handover busy s n w c :
  good quiet busy s -> good quiet busy (e_set_commits c (e_set_commitWaiters w (e_set_ticks n s))).
Proof.
  intros Hg. apply (good_same quiet quiet busy s); [done|done|]. destruct Hg as (H & _).
  by apply (engine_ok_frame quiet s); [..|destruct (eo_lifecycle _ _ H)].
Qed.

Lemma good_waiters busy s w : good quiet busy s -> good quiet busy (e_set_commitWaiters w s).
Proof.
  intros Hg. apply (good_same quiet quiet busy s); [done|done|]. destruct Hg as (H & _).
  by apply (engine_ok_frame quiet s); [..|destruct (eo_lifecycle _ _ H)].
Qed.

Lemma add_commit_ok busy r path s : good quiet busy s -> good quiet busy (add_commit r path s).
Proof. intros Hg. exact (good_handover busy s (e_ticks s) (e_commitWaiters s) _ Hg). Qed.

Lemma direct_commit_ok busy r s : good quiet busy s -> good quiet busy (direct_commit answer r s).
Proof.
  intros Hg. unfold direct_commit, ask, tick. cbn beta iota zeta.
  assert (H0 := good_tick _ busy s (S (e_ticks s)) Hg).
  destruct (answer (e_ticks s)); [by apply add_commit_ok|by apply applyCommitAck_ok].
Qed.

Lemma pump_commit_ok busy r s : good quiet busy s -> good quiet busy (pump_commit answer r s).
Proof.
  intros Hg. unfold pump_commit, ask, tick. cbn beta iota zeta.
  assert (H0 := good_tick _ busy s (S (e_ticks s)) Hg).
  destruct (answer (e_ticks s)); [|by apply direct_commit_ok].
  match goal with |- good _ _ (if ?c then add_commit _ _ ?st else _) => assert (H1 : good quiet busy st) end.
  { exact (good_handover busy s (S (S (e_ticks s))) _ (e_commits s) Hg). }
  destruct (answer _); [by apply add_commit_ok|by apply applyCommitAck_ok].
Qed.

(** The commit of the released record [id] starts. *)
Lemma pend_ok s s' id r r' :
  engine_ok (flight {[id]}) s -> e_registry s !! id = Some r -> flying r = true ->
  r_state r' = StateCommitPending -> r_durability r' = durPending -> r_spec r' = r_spec r ->
  is_Some (ws_Commit (r_spec r)) -> r_done r' = r_done r ->
  r_callbackReserved r' = r_callbackReserved r ->
  r_commitSeq r' = r_commitSeq r -> 0 <= r_retainedBytes r' ->
  stored s s' id r' ->
  e_retainedBytes s' = e_retainedBytes s - r_retainedBytes r + r_retainedBytes r' ->
  e_commitPending s' = e_commitPending s + 1 -> engine_ok quiet s'.
Proof.
  intros H Hr Hf B1 B2 B3 Hc B4 B5 B6 B7 [[W1 W2 W3 W4 W5 W6 _] C1 C2 C3 C4 C5 D1 D2 D3 D4] E1 E2.
  pose proof (eo_records _ _ H id r Hr) as Hrec. pose proof (rk_id _ _ _ _ _ _ Hrec) as Hid.
  assert (Hl : live (flight {[id]}) r = true) by (apply live_of_not_terminal; by apply flying_not_terminal).
  assert (Hl' : live quiet r' = true) by (apply live_of_not_terminal; by rewrite B1).
  assert (Hi : inflight (flight {[id]}) r = false).
  { unfold inflight. rewrite Hid, bool_decide_eq_false_2; [apply andb_false_r|set_solver]. }
  assert (Hf' : flying r' = false) by (unfold flying; by rewrite B1).
  assert (Hi' : inflight quiet r' = false) by (unfold inflight; by rewrite Hf').
  assert (Hp' : pending r' = true) by by apply pending_state.
  pose proof (flying_not_pending r Hf) as Hp.
  pose proof (eo_admission _ _ H) as [Ha1 Ha2 Ha3]. pose proof (eo_accounts _ _ H) as Hacc.
  eapply (engine_ok_rec (flight {[id]}) quiet s s' id r r' H Hr W1);
    rewrite ?W2, ?W3, ?W4, ?W5, ?W6, ?C1, ?C2, ?C3, ?C4, ?C5, ?E1, ?E2, ?Hl, ?Hl', ?Hp, ?Hp', ?Hi, ?Hi';
    try done; try (intros; simpl; lia).
  - intros j Hj. simpl. set_solver.
  - destruct Hrec as [K1 K2 K3 K4 K5 K6 K7 K8 K9 K10].
    split; rewrite ?B2, ?B3, ?B4, ?B5, ?B6, ?Hp', ?Hf', ?Hl'; try done.
    + unfold rec_id. by rewrite B3.
    + left. rewrite B1. set_solver.
    + by rewrite K3, Hl.
    + intros _. by apply K5.
  - intros j e He. split; [done|]. intros ->.
    destruct (Ha2 id e He) as [(x & Hx & Hq & _) _]. apply flying_not_queued in Hf. congruence.
  - rewrite B1. done.
  - apply Hacc.
  - intros key j. split; [|naive_solver]. intros Hk. left. split; [|done]. intros ->.
    apply (ac_locks _ _ Hacc) in Hk as (_ & x & Hx & ? & _). congruence.
  - apply (eo_order _ _ H).
  - intros j. destruct (decide (j = id)) as [->|]; [|naive_solver].
    split; [|naive_solver]. intros (x & Hx & Hlx)%(or_elems _ _ (eo_order _ _ H)). congruence.
  - apply Hacc.
  - pose proof (ac_credits _ _ Hacc). lia.
  - apply (lifecycle_same s); try done. apply (eo_lifecycle _ _ H).
Qed.

Lemma with_error_same r :
  exists m, with_error_message r = r_set_errorMsg m r.
Proof.
  unfold with_error_message. case_match; [by eexists|]. exists (r_errorMsg r). by destruct r.
Qed.

Lemma terminalStateFor_terminal o : terminal_state (terminalStateFor o) = true.
Proof. by destruct o. Qed.

(** Handing the commit out keeps the invariant. *)
Lemma hand_over_ok busy r s :
  good quiet busy s ->
  good quiet busy
    match pump with
    | None => direct_commit answer r s
    | Some PumpAck => let '(ok, s) := ask answer s in if ok then add_commit r ViaAckPump s else pump_commit answer r s
    | Some _ => pump_commit answer r s
    end.
Proof.
  intros Hg. destruct pump as [[]|]; [|by apply pump_commit_ok..|by apply direct_commit_ok].
  unfold ask, tick. cbn beta iota zeta. assert (H0 := good_tick _ busy s (S (e_ticks s)) Hg).
  destruct (answer (e_ticks s)); [by apply add_commit_ok|by apply pump_commit_ok].
Qed.

(** No worker holds the task. *)
Definition landed (id : TaskID) s : Prop := forall r, e_registry s !! id = Some r -> flying r = false.

Lemma closes_landed j id s s' : closes j s s' -> landed id s -> landed id s'.
Proof.
  intros [C1 C2 _] H r Hr. destruct (decide (id = j)) as [->|Hj].
  - by apply terminal_not_flying, C2.
  - by apply H, (C1 id r Hj).
Qed.

Lemma applyCommitAck_landed busy id j seq err s :
  good quiet busy s -> landed id s -> landed id (applyCommitAck j seq err s).
Proof.
  intros Hg H. destruct (applyCommitAck_ok busy s j seq err Hg) as [_ [->|Hc]]; [done|].
  by apply (closes_landed j _ s).
Qed.

Lemma direct_commit_landed busy id r s :
  good quiet busy s -> landed id s -> landed id (direct_commit answer r s).
Proof.
  intros Hg H. unfold direct_commit, ask, tick. cbn beta iota zeta.
  destruct (answer _); [done|]. by apply (applyCommitAck_landed busy); [apply good_tick|].
Qed.

Lemma pump_commit_landed busy id r s :
  good quiet busy s -> landed id s -> landed id (pump_commit answer r s).
Proof.
  intros Hg H. unfold pump_commit, ask, tick. cbn beta iota zeta.
  destruct (answer _); [|by apply (direct_commit_landed busy); [apply good_tick|]].
  destruct (answer _); [done|]. apply (applyCommitAck_landed busy); [|done].
  by apply good_tick, good_waiters, good_tick.
Qed.

Lemma hand_over_landed busy id r s :
  good quiet busy s -> landed id s ->
  landed id
    match pump with
    | None => direct_commit answer r s
    | Some PumpAck => let '(ok, s) := ask answer s in if ok then add_commit r ViaAckPump s else pump_commit answer r s
    | Some _ => pump_commit answer r s
    end.
Proof.
  intros Hg H. destruct pump as [[]|];
    [|by apply (pump_commit_landed busy)..|by apply (direct_commit_landed busy)].
  unfold ask, tick. cbn beta iota zeta.
  destruct (answer _); [done|by apply (pump_commit_landed busy); [apply good_tick|]].
Qed.

Lemma finish_completion_ok busy s id r :
  good (flight {[id]}) busy s -> e_registry s !! id = Some r -> flying r = true ->
  good quiet busy (finish_completion pump answer id (r_spec r) s) /\
  landed id (finish_completion pump answer id (r_spec r) s).
Proof.
  intros Hg Hr Hf. pose proof Hg as (H & _ & _). unfold finish_completion. rewrite Hr.
  set (r1 := r_set_errorMsg _ r).
  destruct (store_result_shape id r1 (r_result r1) s) as (b & d & Hd & _ & Hst & Eb & Ep).
  set (r2 := r_set_retainedBytes (r_retainedBytes r1 + d) (r_set_result b r1)) in *.
  change (r_result r1) with (r_result r) in *.
  set (s1 := store_result id r1 (r_result r) s) in *. clearbody s1.
  rewrite (rw_registry _ _ _ _ (st_rewritten _ _ _ _ Hst)), lookup_insert_eq.
  pose proof (rk_retained _ _ _ _ _ _ (eo_records _ _ H id r Hr)) as Hpos.
  pose proof (rk_id _ _ _ _ _ _ (eo_records _ _ H id r Hr)) as Hid.
  destruct (negb _) eqn:Hdur; bool_to_prop.
  - set (r3 := r_set_state _ r2). destruct (with_error_same r3) as [m Hm]. rewrite Hm.
    edestruct (finish_ok (flight {[id]}) quiet busy s (set_rec id (r_set_errorMsg m r3) s1) id r
      (r_set_errorMsg m r3)) as (F1 & _ & _ & F4); try done.
    + by apply flying_not_terminal.
    + by apply (index_queued_none (flight {[id]}) _ _ r).
    + unfold inflight. rewrite Hid, bool_decide_eq_false_2; [apply andb_false_r|set_solver].
    + intros j Hj. simpl. set_solver.
    + apply terminalStateFor_terminal.
    + simpl. destruct (eo_records _ _ H id r Hr) as [K1 K2 K3 K4 K5 K6 K7 K8 K9 K10].
      intros E%K7. rewrite flying_not_pending in E; done.
    + simpl. lia.
    + eapply stored_trans; [exact Hst|apply stored_set_rec].
    + simpl. rewrite Eb. lia.
    + simpl. rewrite Ep, flying_not_pending by done. simpl. lia.
    + split; [exact F1|]. intros x Hx. by apply terminal_not_flying, (cl_over _ _ _ F4).
  - set (r3 := r_set_pendingResult _ _). set (s2 := set_rec id r3 s1).
    unfold beginCommit. change (e_registry s2) with (<[id := r3]> (e_registry s1)).
    rewrite lookup_insert_eq. set (s3 := e_set_commitPending _ _).
    assert (Hg3 : good quiet busy s3); [|split; [by apply hand_over_ok|apply (hand_over_landed busy); [done|]]].
    2: { intros x Hx. unfold s3, s2 in Hx. simpl in Hx. rewrite lookup_insert_eq in Hx. by injection Hx as <-. }
    apply (good_same (flight {[id]}) quiet busy s); [done| |].
    + destruct Hst as [[_ _ _ _ _ _ W] _ _ _ _ _ _ _ _ _]. exact W.
    + eapply (pend_ok s _ id r); [exact H|exact Hr|exact Hf|..|exact (stored_pending _ _ _ _ _
        (stored_trans _ _ _ _ _ _ (stored_trans _ _ _ _ _ _ Hst (stored_set_rec s1 id r3))
          (stored_set_rec s2 id _)))| |].
      all: try done.
      * by apply bool_decide_eq_true in Hdur.
      * simpl. lia.
      * simpl. rewrite Eb. lia.
      * simpl. by rewrite Ep.
Qed.

Lemma cancel_ctx_eq r s : exists X, cancel_ctx r s = e_set_cancelledCtxs X s.
Proof.
  unfold cancel_ctx. destruct (r_cancelFunc r); [by eexists|]. exists (e_cancelledCtxs s). by destruct s.
Qed.

Lemma releasing_quiet id : releasing id quiet = flight {[id]}.
Proof. unfold releasing, flight, quiet. simpl. f_equal. set_solver. Qed.

Lemma flying_inflight r : flying r = true -> inflight quiet r = true.
Proof. intros H. unfold inflight. rewrite H. by apply bool_decide_eq_true_2, not_elem_of_empty. Qed.

Lemma all_flying_one id s r : e_registry s !! id = Some r -> flying r = true -> all_flying {[id]} s.
Proof. intros Hr Hf j ->%elem_of_singleton. by exists r. Qed.

(** What a completion makes of the record before the freed capacity is handed
    out. *)
Definition completed_record (res : TaskResult) r : taskRecord :=
  let r1 := r_set_finishedAt (tr_FinishedAt res) (r_set_result res r) in
  let r2 := if r_cancelRequested r1 then r_set_result (late_cancelled (r_cancelReason r1) res) r1 else r1 in
  if is_zero (r_startedAt r2) then r_set_startedAt (tr_StartedAt res) r2 else r2.

Lemma completed_same res r : same_record r (completed_record res r).
Proof.
  unfold completed_record. cbn zeta. destruct (r_cancelRequested _), (is_zero _); by split; try done; left.
Qed.

Variable clock : nat -> nat -> time.
Variable pool_order : nat -> list PoolID -> list PoolID.
Variable id_order : nat -> list TaskID -> list TaskID.
Variable resolver : option (string -> option govalue -> option closure * option goerror).

Lemma applyWorkerCompleted_ok busy res grant s :
  good quiet busy s ->
  let s' := applyWorkerCompleted clock pool_order pump answer res grant s in
  good quiet busy s' /\ (s' = s \/ landed (tr_TaskID res) s').
Proof.
  intros Hg. pose proof Hg as (H & HW & HF). unfold applyWorkerCompleted.
  set (id := tr_TaskID res). destruct (e_registry s !! id) as [r|] eqn:Hr; [|by split; [|left]].
  destruct (negb (bool_decide _)) eqn:Hf; [by split; [|left]|]. apply negb_false_iff in Hf.
  change (flying r = true) in Hf. destruct (negb (owns_grant _ _)); [by split; [|left]|].
  set (r1 := if r_cancelRequested _ then _ else _).
  set (r2 := if is_zero _ then _ else _).
  change r2 with (completed_record res r). pose proof (completed_same res r) as Hsame.
  assert (Hspec : r_spec r1 = r_spec r) by (unfold r1; by destruct (r_cancelRequested _)).
  rewrite Hspec. destruct (cancel_ctx_eq r1 (e_set_adm (a_terminal (r_spec r)
    (e_adm (releaseResources (r_spec r) s))) (releaseResources (r_spec r) s))) as [C ->].
  clearbody r1 r2. set (r' := completed_record res r) in *. clearbody r'.
  set (s2 := set_rec id r' _).
  assert (Hg2 : good (flight {[id]}) busy s2).
  { apply (good_same quiet _ busy s); [done|done|]. rewrite <- releasing_quiet.
    apply (release_ok quiet s s2 id r r'); try done; [by apply flying_inflight|].
    by destruct (eo_lifecycle _ _ H). }
  assert (Hr2 : e_registry s2 !! id = Some r') by apply lookup_insert_eq.
  assert (Hf2 : flying r' = true) by by rewrite (same_record_flying _ _ Hsame).
  clearbody s2.
  destruct (dispatch_all_ok clock pool_order {[id]} busy s2 Hg2) as [G3 K3];
    [by apply (all_flying_one id s2 r')|].
  rewrite <- (sr_spec _ _ Hsame).
  destruct (finish_completion_ok busy _ id r' G3 (K3 id r' Hr2 Hf2) Hf2) as [F1 F2].
  split; [exact F1|right; exact F2].
Qed.

Lemma applyWorkerStarted_ok busy id grant t s :
  good quiet busy s -> good quiet busy (applyWorkerStarted id grant t s).
Proof.
  intros Hg. unfold applyWorkerStarted. destruct (e_registry s !! id) as [r|] eqn:Hr; [|done].
  case_decide as Hd; [|done]. destruct (owns_grant _ _); [|done].
  apply (good_same quiet quiet busy s); [done|done|].
  eapply (touch_ok quiet s _ id r); [apply Hg|done| |apply stored_set_rec|done|done].
  split; try done. right. split; [|done]. unfold flying. by rewrite Hd.
Qed.

(** ** Cancellation *)

Lemma flying_states r : flying r = true -> r_state r = StateDispatching \/ r_state r = StateRunning.
Proof. unfold flying. rewrite bool_decide_eq_true. set_solver. Qed.

(** A queued task is cancelled on the spot. *)
Lemma applyCancel_queued busy id reason s r :
  good quiet busy s -> e_registry s !! id = Some r -> r_state r = StateQueued ->
  good quiet busy (applyCancel clock id reason s).2 /\ closes id s (applyCancel clock id reason s).2.
Proof.
  intros Hg Hr Hq. pose proof Hg as (H & _ & _). unfold applyCancel. rewrite Hr.
  pose proof (eo_records _ _ H id r Hr) as [K1 K2 K3 K4 K5 K6 K7 K8 K9 K10].
  - rewrite Hq. pose proof (a_remove_law id (e_adm s) (ao_ok _ _ (eo_admission _ _ H))) as HL.
    destruct (a_remove id (e_adm s)) as [w a]. destruct HL as (_ & A1 & A2 & A3).
    unfold now, tick. cbn beta iota zeta. set (s0 := e_set_ticks _ _).
    assert (Hg0 : good (mkPhase ∅ ∅ {[id]}) busy s0).
    { apply (good_tick _ busy (e_set_adm a s)). apply (good_same quiet _ busy s); [done|done|].
      apply (engine_ok_adm quiet); try done; simpl.
      - intros j e. rewrite A2. by intros [_ ?]%lookup_delete_Some.
      - intros j Hj Hs. rewrite A2, lookup_delete_ne; [done|]. set_solver. }
    set (rec := r_set_finishedAt _ _). set (res := zero_failure_result _ _ _ _ _ _ _ _).
    destruct (store_result_shape id rec res s0) as (b & d & Hd & _ & Hst & Eb & Ep).
    assert (Hf : flying r = false) by (unfold flying; by rewrite Hq).
    assert (Hp : pending r = false) by (unfold pending; by rewrite Hq).
    edestruct (finish_ok (mkPhase ∅ ∅ {[id]}) quiet busy s0 (store_result id rec res s0) id r)
      as (F1 & _ & _ & F4);
      [exact Hg0|exact Hr| | | | | |..|exact Hst| | |]; try done.
    + by rewrite Hq.
    + simpl. by rewrite A2, lookup_delete_eq.
    + unfold inflight. by rewrite Hf.
    + intros j Hj. simpl. set_solver.
    + simpl. intros E%K7. congruence.
    + simpl. lia.
    + rewrite Eb. simpl. lia.
    + rewrite Ep, Hp. simpl. lia.
    + split; [exact F1|]. destruct F4 as [F4 F5 F6]. by split.
Qed.

Lemma applyCancel_ok busy id reason s :
  good quiet busy s -> good quiet busy (applyCancel clock id reason s).2.
Proof.
  intros Hg. pose proof Hg as (H & _ & _).
  destruct (e_registry s !! id) as [r|] eqn:Hr; [|by unfold applyCancel; rewrite Hr].
  pose proof (rk_state _ _ _ _ _ _ (eo_records _ _ H id r Hr)) as K2.
  destruct (decide (r_state r = StateQueued)) as [Hq|Hq].
  - by apply (applyCancel_queued busy id reason s r).
  - unfold applyCancel. rewrite Hr. destruct (flying r) eqn:Hf.
    + assert (E : exists C r', (applyCancel clock id reason s).2 = e_set_cancelledCtxs C (set_rec id r' s) /\
        same_record r r').
      { unfold applyCancel. rewrite Hr.
        set (rec := r_set_cancelReason reason (r_set_cancelRequested true r)).
        destruct (cancel_ctx_eq rec (set_rec id rec s)) as [C E]. exists C, rec.
        split; [|split; try done; by left]. rewrite <- E.
        by destruct (flying_states r Hf) as [-> | ->]. }
      destruct E as (C & r' & E & Hsame). unfold applyCancel in E. rewrite Hr in E. rewrite E.
      apply (good_same quiet quiet busy s); [done|done|].
      eapply (touch_ok quiet s _ id r r'); [done|done|done|by split|done|done].
    + destruct K2 as [Hin|Ht]; [|by destruct (r_state r)].
      unfold flying in Hf. apply bool_decide_eq_false in Hf.
      assert (Hs : r_state r = StateCommitPending) by set_solver. by rewrite Hs.
Qed.

Lemma good_frame busy s s' :
  good quiet busy s -> same_workers s s' ->
  e_registry s' = e_registry s -> e_adm s' = e_adm s -> e_dispatchEpoch s' = e_dispatchEpoch s ->
  e_commitSeq s' = e_commitSeq s -> e_fresh s' = e_fresh s ->
  e_resultSlotsHeld s' = e_resultSlotsHeld s -> e_activeTasks s' = e_activeTasks s ->
  e_retainedBytes s' = e_retainedBytes s -> e_commitPending s' = e_commitPending s ->
  e_resourceUsed s' = e_resourceUsed s -> e_terminalOrder s' = e_terminalOrder s ->
  e_resourceCapacity s' = e_resourceCapacity s -> e_resultCapacity s' = e_resultCapacity s ->
  lifecycle_ok s' -> good quiet busy s'.
Proof.
  intros Hg Hs. intros. apply (good_same quiet quiet busy s); [done|done|].
  apply (engine_ok_frame quiet s); try done. apply Hg.
Qed.

Lemma trim_tombstones_eq fuel : forall s,
  exists m l, trim_tombstones fuel s = e_set_cancelledScopes m (e_set_cancelledScopeOrder l s).
Proof.
  induction fuel as [|fuel IH]; intros s; cbn [trim_tombstones].
  - exists (e_cancelledScopes s), (e_cancelledScopeOrder s). by destruct s.
  - destruct (e_cancelledScopeOrder s) as [|oldest rest] eqn:E.
    { exists (e_cancelledScopes s), []. rewrite <- E. by destruct s. }
    destruct (_ && _).
    + destruct (IH (e_set_cancelledScopes (delete oldest (e_cancelledScopes s))
        (e_set_cancelledScopeOrder rest s))) as (m & l & ->). by exists m, l.
    + exists (e_cancelledScopes s), (oldest :: rest). rewrite <- E. by destruct s.
Qed.

Lemma cancel_one_ok busy scope reason id n s :
  good quiet busy s -> good quiet busy (cancel_one clock scope reason (n, s) id).2.
Proof.
  intros Hg. unfold cancel_one. destruct (e_registry s !! id) as [r|]; [|done].
  destruct (negb _); [done|]. destruct (_ || _); [done|].
  pose proof (applyCancel_ok busy id reason s Hg) as H1.
  by destruct (applyCancel clock id reason s) as [[receipt err] s1].
Qed.

Lemma applyCancelScope_ok busy scope reason s :
  good quiet busy s -> good quiet busy (applyCancelScope clock id_order scope reason s).2.
Proof.
  intros Hg. unfold applyCancelScope.
  set (s1 := if decide _ then s else _). set (s2 := e_set_cancelledScopes _ s1).
  assert (E : exists m l, s2 = e_set_cancelledScopes m (e_set_cancelledScopeOrder l s)).
  { unfold s2, s1. case_decide; [|by eexists _, _].
    exists (<[scope:=reason]> (e_cancelledScopes s)), (e_cancelledScopeOrder s). by destruct s. }
  destruct E as (m & l & ->). clear s1.
  match goal with |- context [trim_tombstones ?f ?st] =>
    destruct (trim_tombstones_eq f st) as (m' & l' & ->) end.
  unfold range_ids, tick. cbn beta iota zeta.
  match goal with |- good _ _ (fold_left _ ?l (0, ?st)).2 => generalize l as ids; intros ids;
    assert (H0 : good quiet busy st) end.
  { apply (good_frame busy s); try done. destruct Hg as (H & _). by destruct (eo_lifecycle _ _ H). }
  revert H0. generalize 0. generalize (e_set_ticks
    (S (e_ticks (e_set_cancelledScopes m' (e_set_cancelledScopeOrder l'
      (e_set_cancelledScopes m (e_set_cancelledScopeOrder l s))))))
    (e_set_cancelledScopes m' (e_set_cancelledScopeOrder l'
      (e_set_cancelledScopes m (e_set_cancelledScopeOrder l s))))).
  induction ids as [|id ids IH]; intros s0 n H0; cbn [fold_left]; [done|].
  pose proof (cancel_one_ok busy scope reason id n s0 H0) as H1.
  destruct (cancel_one clock scope reason (n, s0) id) as [n1 s1]. by apply IH.
Qed.

(** ** Shutdown *)

Lemma forceCancelInFlight_ok busy id s :
  good quiet busy s ->
  (forall r, e_registry s !! id = Some r -> flying r = true -> closes id s (forceCancelInFlight clock id s)) /\
  good quiet busy (forceCancelInFlight clock id s).
Proof.
  intros Hg. pose proof Hg as (H & _ & _). unfold forceCancelInFlight.
  destruct (e_registry s !! id) as [r|] eqn:Hr; [|done].
  destruct (negb (bool_decide _)) eqn:Hf.
  { split; [|done]. intros x [= <-] Hx. unfold flying in Hx. by rewrite Hx in Hf. }
  match goal with |- (_ -> _ -> _ -> ?Q) /\ ?P => assert (H0 : P /\ Q); [|by destruct H0] end.
  apply negb_false_iff in Hf. change (flying r = true) in Hf.
  set (r1 := r_set_cancelReason _ _). destruct (cancel_ctx_eq r1 s) as [C ->].
  set (s1 := match r_permit r1 with None => _ | Some p => _ end).
  assert (E : exists P, s1 = e_set_releasedPermits P (e_set_cancelledCtxs C s)).
  { unfold s1. destruct (r_permit r1); [by eexists|]. exists (e_releasedPermits s). by destruct s. }
  destruct E as [P ->]. unfold now, tick. cbn beta iota zeta.
  match goal with |- context [r_set_finishedAt ?t ?x] => set (r2 := r_set_finishedAt t x) end.
  match goal with |- context [boundResult _ _ ?x] => set (res := x) end.
  destruct (boundResult _ _ res) as [bounded delta].
  match goal with |- good _ _ (settleTerminal _ (store_result _ ?x _ ?st)) /\ _ => set (r3 := x); set (s2 := st) end.
  set (s2' := set_rec id r s2).
  assert (Hg2 : good (flight {[id]}) busy s2').
  { apply (good_same quiet _ busy s); [done|done|]. rewrite <- releasing_quiet.
    apply (release_ok quiet s s2' id r r); try done; [by apply flying_inflight|].
    by destruct (eo_lifecycle _ _ H). }
  assert (Hr2 : e_registry s2' !! id = Some r) by apply lookup_insert_eq.
  destruct (store_result_shape id r3 res s2) as (b & d & Hd & _ & Hst & Eb & Ep).
  pose proof Hg2 as (H2 & _ & _).
  destruct (eo_records _ _ H2 id r Hr2) as [K1 K2 K3 K4 K5 K6 K7 K8 K9 K10].
  assert (Hst' : stored s2' (store_result id r3 res s2) id
    (r_set_retainedBytes (r_retainedBytes r3 + d) (r_set_result b r3))).
  { destruct Hst as [[W1 W2 W3 W4 W6 W7 W5] C1 C2 C3 C4 C5 D1 D2 D3 D4]. split; [split|..]; try done.
    rewrite W1. unfold s2'. simpl. by rewrite insert_insert_eq. }
  change (e_retainedBytes s2) with (e_retainedBytes s2') in Eb.
  change (e_commitPending s2) with (e_commitPending s2') in Ep.
  assert (Hreg : e_registry s2' = <[id := r]> (e_registry s)) by done. assert (Hqs : e_quiesced s2' = e_quiesced s) by done.
  clearbody s2'. clear Hst.
  edestruct (finish_ok (flight {[id]}) quiet busy s2' (store_result id r3 res s2) id r) as (F1 & _ & _ & F4);
    [exact Hg2|exact Hr2| | | | | |..|exact Hst'| | |]; try done.
  - by apply flying_not_terminal.
  - by apply (index_queued_none (flight {[id]}) _ _ r).
  - unfold inflight. rewrite K1, bool_decide_eq_false_2; [apply andb_false_r|set_solver].
  - intros j Hj. simpl. set_solver.
  - simpl. by case_match.
  - simpl. intros E%K7. by rewrite flying_not_pending in E.
  - simpl. lia.
  - rewrite Eb. simpl. lia.
  - rewrite Ep, flying_not_pending by done. simpl. lia.
  - split; [exact F1|]. destruct F4 as [F4 F5 F6]. split; [|done|congruence]. intros j x Hj Hx.
    apply (F4 j x Hj) in Hx. by rewrite Hreg, lookup_insert_ne in Hx.
Qed.

Lemma finalize_one_ok busy id s :
  good quiet busy s -> good quiet busy (finalize_one clock s id).
Proof.
  intros Hg. unfold finalize_one. destruct (e_registry s !! id) as [r|]; [|done].
  destruct (r_state r); try done;
    [by apply applyCancel_ok|by apply forceCancelInFlight_ok..|by apply abandonPending_ok].
Qed.

Lemma finalize_one_closes busy id s :
  good quiet busy s -> closes id s (finalize_one clock s id).
Proof.
  intros Hg. pose proof Hg as (H & _ & _). unfold finalize_one.
  destruct (e_registry s !! id) as [r|] eqn:Hr; [|split; try done; by rewrite Hr].
  destruct (rk_state _ _ _ _ _ _ (eo_records _ _ H id r Hr)) as [K|K].
  - assert (Hs : r_state r = StateQueued \/ flying r = true \/ pending r = true).
    { unfold flying, pending. rewrite !bool_decide_eq_true. set_solver. }
    destruct Hs as [Hs|[Hs|Hs]].
    + rewrite Hs. by apply (applyCancel_queued busy id CauseShutdown s r).
    + destruct (forceCancelInFlight_ok busy id s Hg) as [F _].
      destruct (flying_states r Hs) as [-> | ->]; by apply (F r).
    + destruct (abandonPending_ok busy s id "shutdown" Hg) as [F _]. pose proof (F r Hr Hs) as F'.
      apply pending_state in Hs. by rewrite Hs.
  - assert (Hskip : closes id s s) by (split; try done; rewrite Hr; by intros x [= <-]).
    by destruct (r_state r).
Qed.

Lemma checkDrained_good busy s : good quiet busy s -> good quiet busy (checkDrained s).
Proof.
  intros Hg. apply (good_same quiet quiet busy s); [done|apply checkDrained_frame|].
  apply checkDrained_ok, Hg.
Qed.

Lemma quiesced_good busy s :
  good quiet busy s -> good quiet busy (e_set_quiesced true (e_set_accepting false s)).
Proof.
  intros Hg. apply (good_frame busy s); try done. destruct Hg as (H & _).
  destruct (eo_lifecycle _ _ H) as [L1 L2 L3]. split; try done. intros Hd. split; [done|by apply L2].
Qed.

Lemma applyQuiesce_ok busy s : good quiet busy s -> good quiet busy (applyQuiesce s).
Proof. intros Hg. by apply checkDrained_good, quiesced_good. Qed.

Lemma finalize_all_ok busy ids : forall s,
  good quiet busy s -> good quiet busy (fold_left (finalize_one clock) ids s).
Proof. induction ids as [|id ids IH]; intros s Hg; simpl; [done|]. by apply IH, finalize_one_ok. Qed.

(** After the loop every identifier it went over is settled. *)
Lemma finalize_all_closes busy ids : forall s,
  good quiet busy s ->
  let s' := fold_left (finalize_one clock) ids s in
  (forall j x, e_registry s' !! j = Some x ->
     terminal_state (r_state x) = true \/ (j ∉ ids /\ e_registry s !! j = Some x)) /\
  e_quiesced s' = e_quiesced s.
Proof.
  induction ids as [|id ids IH]; intros s Hg; cbn [fold_left].
  { split; [|done]. intros j x Hx. right. split; [set_solver|done]. }
  pose proof (finalize_one_closes busy id s Hg) as [F1 F2 F3].
  destruct (IH _ (finalize_one_ok busy id s Hg)) as [I1 I2].
  split; [|congruence]. intros j x Hx. destruct (I1 j x Hx) as [|[Hj Hx']]; [by left|].
  destruct (decide (j = id)) as [->|Hne]; [left; by apply F2|]. right. split; [set_solver|by apply F1].
Qed.

Lemma all_over_idle s :
  engine_ok quiet s -> (forall j x, e_registry s !! j = Some x -> terminal_state (r_state x) = true) ->
  e_activeTasks s = 0.
Proof.
  intros H Ht. rewrite (ac_active _ _ (eo_accounts _ _ H)).
  apply msum_zero. intros j x Hx. unfold live. rewrite (Ht j x Hx). simpl.
  rewrite bool_decide_eq_false_2; [done|]. apply not_elem_of_empty.
Qed.

Lemma applyStopFinalize_ok busy s :
  good quiet busy s -> good quiet busy (applyStopFinalize clock id_order s).
Proof.
  intros Hg. unfold applyStopFinalize, range_ids, tick. cbn beta iota zeta.
  by apply checkDrained_good, finalize_all_ok, (good_tick quiet), quiesced_good.
Qed.

Lemma applyStopFinalize_drains busy s :
  good quiet busy s ->
  (forall n ids, ids ⊆ id_order n ids) ->
  let s' := applyStopFinalize clock id_order s in
  (forall j x, e_registry s' !! j = Some x -> terminal_state (r_state x) = true) /\
  e_activeTasks s' = 0 /\ e_quiesced s' = true /\ e_accepting s' = false /\ e_drained s' = true /\
  e_drainDone s' = true.
Proof.
  intros Hg Hord s'. pose proof (applyStopFinalize_ok busy s Hg) as (H' & _).
  fold s' in H'. revert H'. unfold s', applyStopFinalize, range_ids, tick. cbn beta iota zeta.
  set (s0 := e_set_ticks _ _). set (ids := id_order _ _).
  assert (H0 : good quiet busy s0) by by apply (good_tick quiet), quiesced_good.
  pose proof (finalize_all_closes busy ids s0 H0) as [F1 F2]. cbn zeta in F1, F2.
  pose proof (finalize_all_ok busy ids s0 H0) as (H1 & _).
  assert (Hids : forall j x, e_registry s0 !! j = Some x -> j ∈ ids).
  { intros j x Hx. apply Hord. apply list_elem_of_fmap. exists (j, x). split; [done|].
    by apply elem_of_map_to_list. }
  set (s1 := fold_left (finalize_one clock) ids s0) in *. clearbody s1 ids.
  assert (Hover : forall j x, e_registry s1 !! j = Some x -> terminal_state (r_state x) = true).
  { intros j x Hx. destruct (F1 j x Hx) as [|[Hj Hx']]; [done|]. by apply Hids in Hx'. }
  pose proof (all_over_idle s1 H1 Hover) as Hact. change (e_quiesced s0) with true in F2.
  intros [_ _ _ _ [L1 L2 L3]]. revert L1 L2 L3. rewrite checkDrained_registry.
  unfold checkDrained. rewrite F2, Hact. simpl.
  destruct (e_drained s1) eqn:Hd; simpl; rewrite ?F2, ?Hact, ?Hd; intros L1 L2 L3; split_and_all; auto.
Qed.

(** ** Live configuration *)

Lemma no_released s : all_flying ∅ s.
Proof. intros id Hid. by apply elem_of_empty in Hid. Qed.

Lemma good_set_adm busy s a :
  good quiet busy s -> a_ok a -> a_index a = a_index (e_adm s) -> a_same_slots (e_adm s) a ->
  good quiet busy (e_set_adm a s).
Proof. apply (good_adm ∅). Qed.

(** The pool tables of the configuration are not part of the invariant. *)
Lemma good_tables busy s c p m t :
  good quiet busy s ->
  good quiet busy (e_set_poolIdleTimeouts t (e_set_poolMinWorkers m
    (e_set_poolConcurrencies p (e_set_configPools c s)))).
Proof.
  intros (H & HW & HF). split; [|split; [|done]].
  - apply (engine_ok_frame quiet s); try done. by destruct (eo_lifecycle _ _ H).
  - by apply (workers_ok_tables busy s).
Qed.

Lemma applyPoolConfig_ok busy pool cfg s :
  good quiet busy s -> good quiet busy (applyPoolConfig clock pool_order pool cfg s).2.
Proof.
  intros Hg. pose proof Hg as (H & _ & _). unfold applyPoolConfig.
  destruct (_ =? 0); [done|]. destruct (_ || _); [done|].
  destruct (_ <? 0); [done|]. destruct (_ <? 0); [done|]. destruct (_ <? 0); [done|].
  set (cfg1 := pe_set_MinConcurrency _ cfg).
  set (cfg2 := if pe_IdleTimeout cfg1 =? 0 then _ else _). clearbody cfg2. clear cfg1.
  set (pc := mkPoolConfig _ _).
  pose proof (a_set_pool_config_law pool pc (e_adm s) (ao_ok _ _ (eo_admission _ _ H))) as (A1 & A2 & A3).
  destruct (a_set_pool_config pool pc (e_adm s)) as [a [err|]]; [done|]. simpl in A1, A2, A3.
  set (s1 := e_set_poolIdleTimeouts _ _).
  assert (Hg1 : good quiet busy s1) by by apply good_tables, good_set_adm.
  clearbody s1. destruct (retireExcess_good ∅ busy pool s1 Hg1) as [Hg2 _].
  set (s2 := retireExcessWorkers pool s1) in *. clearbody s2.
  unfold now, tick. cbn beta iota zeta.
  assert (Hg3 := good_tick _ busy s2 (S (e_ticks s2)) Hg2).
  set (s3 := e_set_ticks _ s2) in *. clearbody s3.
  destruct (sweepIdleWorkers_ok pool_order busy (clock (e_ticks s2) 0) s3) as [O4 W4]; [apply Hg3|].
  pose proof (only_workers_good _ _ _ _ Hg3 O4 W4) as Hg4.
  set (s4 := sweepIdleWorkers _ _ s3) in *. clearbody s4.
  destruct (refill_workers_ok clock busy pool (pe_MinConcurrency cfg2)
    (S (length (pool_slots s4 pool))) s4 W4) as [O5 W5].
  exact (only_workers_good _ _ _ _ Hg4 O5 W5).
Qed.

Lemma good_capacity busy name capacity s :
  good quiet busy s -> zget name (e_resourceUsed s) <= capacity ->
  good quiet busy (e_set_resourceCapacity (<[name := capacity]> (e_resourceCapacity s)) s).
Proof.
  intros Hg Hle. apply (good_same quiet quiet busy s); [done|done|].
  destruct Hg as ([H1 [H2 H3 H4] [G1 G2 G3 G4 G5 G6 G7 G8 G9 G10] Ho Hl] & _).
  split; [done|by split|split; try done|by destruct Ho|by destruct Hl].
  intros n. simpl. destruct (decide (n = name)) as [->|Hn].
  - by rewrite zget_insert.
  - by rewrite zget_insert_ne.
Qed.

Lemma applyResourceCapacity_ok busy name capacity s :
  good quiet busy s -> good quiet busy (applyResourceCapacity clock pool_order name capacity s).2.
Proof.
  intros Hg. unfold applyResourceCapacity. destruct (_ || _); [done|].
  destruct (_ <? _) eqn:Hlt; [done|]. bool_to_prop.
  cbn [snd]. apply (dispatch_all_ok clock pool_order ∅); [|apply no_released].
  by apply good_capacity.
Qed.

Lemma set_owner_limits_ok busy owner limits s :
  good quiet busy s -> good quiet busy (e_set_adm (a_set_owner_limits owner limits (e_adm s)) s).
Proof.
  intros Hg. pose proof Hg as (H & _ & _).
  pose proof (a_set_owner_limits_law owner limits (e_adm s) (ao_ok _ _ (eo_admission _ _ H)))
    as (A1 & A2 & A3 & A4 & A5).
  destruct H as [H1 [H2 H3 H4] [G1 G2 G3 G4 G5 G6 G7 G8 G9 G10] [O1 O2] Hl].
  apply (good_same quiet quiet busy s); [done|done|]. split; [done| | |done|by destruct Hl].
  - split; simpl; rewrite ?A2; done.
  - split; simpl; try done.
    + intros o. by rewrite A4.
    + intros key id. by rewrite A5.
Qed.

Lemma sweep_pools_ok busy t s :
  good quiet busy s -> good quiet busy (sweep_pools pool_order t s).
Proof.
  intros Hg. unfold sweep_pools, range_pools, tick. cbn beta iota zeta.
  match goal with |- good _ _ (fold_left _ ?l ?st) => generalize l as pools; intros pools;
    assert (H0 : good quiet busy st) by by apply good_tick end.
  revert H0. generalize (e_set_ticks (S (e_ticks s)) s).
  induction pools as [|p pools IH]; intros s0 H0; simpl; [done|].
  apply IH. by apply (sweepExpired_ok ∅).
Qed.

(** ** Submission *)

(** What the checks of [admitSubmit] leave of an accepted specification. *)
Lemma admission_checks_ok ctx spec t s spec' bytes charge :
  admission_checks resolver ctx spec t s = inl (spec', bytes, charge) -> scalar_ok (ws_Input spec) ->
  spec_ok spec' /\ ws_ID spec' = ws_ID spec /\ e_registry s !! ws_ID spec' = None /\
  ws_Pool spec' ∈ a_pools (e_adm s) /\ 0 <= charge /\ e_accepting s = true /\
  (0 < e_resultCapacity s -> e_resultSlotsHeld s < e_resultCapacity s) /\
  (0 < e_maxRetainedBytes s -> e_retainedBytes s + charge <= e_maxRetainedBytes s) /\
  resource_missing s spec' = false /\ ws_Handler spec' <> None /\ scope_closed s (ws_Scope spec') = None.
Proof.
  intros E Hsc. unfold admission_checks in E. destruct (ctx_error ctx 0); [done|].
  destruct (Validate spec) as [s1 invalid] eqn:HV. destruct invalid; [done|].
  apply Validate_spec_ok in HV as (Hok & Hid & Hin). rewrite <- Hin in Hsc. rewrite <- Hid. clear Hin Hid.
  destruct (decide _) as [|Hreg] in E; [done|]. apply eq_None_not_Some in Hreg.
  set (resolved := match ws_Handler s1 with Some _ => _ | None => _ end) in E.
  assert (Hres : forall s2 : WorkSpec, resolved = inl s2 -> exists h, s2 = ws_set_Handler h s1).
  { intros s2. unfold resolved. assert (Hs : exists h, s1 = ws_set_Handler h s1).
    { exists (ws_Handler s1). by destruct s1. }
    repeat case_match; intros [= <-]; try done; by eexists. }
  clearbody resolved. destruct resolved as [x|]; [|done]. destruct (Hres x eq_refl) as [h ->]. clear Hres.
  destruct (decide _) as [|Hh] in E; [done|]. destruct (_ && _) in E; [done|].
  destruct (negb _) eqn:Hacc in E; [done|]. destruct (scope_closed _ _) eqn:Hscope in E; [done|].
  destruct (_ && _) eqn:Hcap in E; [done|].
  destruct (payloadSize _) as [n|] eqn:Hpay in E; [|done].
  destruct (resource_missing _ _) eqn:Hrm in E; [done|].
  destruct (a_can_admit _ _ _) eqn:Hadm in E; [done|].
  destruct (_ && _) eqn:Hret in E; [done|].
  destruct (freezePayload _) as [fi|]; [|done]. destruct (ctx_error ctx 1); [done|].
  injection E as <- <- <-. apply a_can_admit_law in Hadm. bool_to_prop.
  apply andb_false_iff in Hcap, Hret.
  split_and_all; try done.
  - assert (0 <= n).
    { pose proof (payload_bytes_nonneg _ Hsc) as Hn. unfold payload_bytes in Hn.
      change (ws_Input (ws_set_Handler h s1)) with (ws_Input s1) in Hpay. by rewrite Hpay in Hn. }
    assert (0 <= workSpecMetadataBytes (ws_set_Handler h s1)) by apply workSpecMetadataBytes_nonneg.
    unfold taskOverheadBytes. lia.
  - intros Hc. destruct Hcap as [Hcap|Hcap]; bool_to_prop; lia.
  - intros Hc. destruct Hret as [Hret|Hret]; bool_to_prop; [lia|done].
Qed.

(** A new queued record, with its queue entry. *)
Lemma new_record_ok s s' id r e :
  engine_ok quiet s -> e_registry s !! id = None -> e_registry s' = <[id := r]> (e_registry s) ->
  e_dispatchEpoch s' = e_dispatchEpoch s -> e_commitSeq s <= e_commitSeq s' ->
  (e_fresh s <= e_fresh s')%nat ->
  record_ok quiet (e_dispatchEpoch s') (e_commitSeq s') (e_fresh s') id r -> r_state r = StateQueued ->
  a_ok (e_adm s') -> a_index (e_adm s') = <[id := e]> (a_index (e_adm s)) ->
  a_same_slots (e_adm s) (e_adm s') -> qe_Spec e = r_spec r -> (qe_ptr e < e_fresh s')%nat ->
  e_resultSlotsHeld s' = e_resultSlotsHeld s + 1 -> e_activeTasks s' = e_activeTasks s + 1 ->
  e_retainedBytes s' = e_retainedBytes s + r_retainedBytes r ->
  e_commitPending s' = e_commitPending s -> e_resourceUsed s' = e_resourceUsed s ->
  e_terminalOrder s' = e_terminalOrder s -> e_resourceCapacity s' = e_resourceCapacity s ->
  e_resultCapacity s' = e_resultCapacity s ->
  (0 < e_resultCapacity s -> e_resultSlotsHeld s < e_resultCapacity s) ->
  lifecycle_ok s' -> engine_ok quiet s'.
Proof.
  intros [H1 [H2 H3 H4] [G1 G2 G3 G4 G5 G6 G7 G8 G9 G10] [O1 O2] _] Hn Er Ed Ec Ef Hrec Hq Ha Hi (S1 & S2 & S3 & _)
    Hsp Hptr E1 E2 E3 E4 E5 E6 E7 E8 Hcred Hl.
  assert (Hlive : live quiet r = true) by (apply live_of_not_terminal; by rewrite Hq).
  assert (Hf : flying r = false) by (unfold flying; by rewrite Hq).
  assert (Hinf : inflight quiet r = false) by (unfold inflight; by rewrite Hf).
  assert (Hp : pending r = false) by (unfold pending; by rewrite Hq).
  split; [| | | |done].
  - intros j x Hx. rewrite Er in Hx. apply lookup_insert_Some in Hx as [[<- <-]|[Hj Hx]]; [done|].
    destruct (H1 j x Hx) as [K1 K2 K3 K4 K5 K6 K7 K8 K9 K10]. split; try done; [lia|].
    intros Hxf. destruct (K10 Hxf) as (p & ? & ? & ? & ? & ? & ?). exists p. split_and_all; try done; lia.
  - split; [done| |]; rewrite Hi, Er.
    + intros j x Hx. apply lookup_insert_Some in Hx as [[<- <-]|[Hj Hx]].
      * split; [|done]. exists r. by rewrite lookup_insert_eq.
      * destruct (H3 j x Hx) as [(y & Hy & ?) ?]. split; [|lia]. exists y.
        rewrite lookup_insert_ne; done.
    + intros j x Hx Hxq Hd. apply lookup_insert_Some in Hx as [[<- <-]|[Hj Hx]].
      * by rewrite lookup_insert_eq.
      * rewrite lookup_insert_ne by done. by apply (H4 j x).
  - split; rewrite ?Er, ?E1, ?E2, ?E3, ?E4, ?E5, ?E7, ?E8, ?S3, ?msum_insert_fresh by done; try done;
      try (intros Hc; specialize (Hcred Hc); lia).
    + rewrite G1, Hlive. simpl. lia.
    + rewrite G2, Hlive. simpl. lia.
    + rewrite G3. lia.
    + rewrite G4, Hp. simpl. lia.
    + intros n. rewrite msum_insert_fresh by done. rewrite G5, Hinf. lia.
    + intros o. rewrite msum_insert_fresh by done. rewrite S2, G7, Hinf. simpl. lia.
    + intros key j. rewrite G8. split; intros (Hk & x & Hx & Hxi & Hxk); (split; [done|]); exists x.
      * rewrite lookup_insert_ne; [done|]. congruence.
      * apply lookup_insert_Some in Hx as [[<- <-]|[_ Hx]]; [congruence|done].
  - split; rewrite ?E6, ?Er; [done|]. intros j. rewrite O2. split; intros (x & Hx & Hxl); exists x.
    + rewrite lookup_insert_ne; [done|]. congruence.
    + apply lookup_insert_Some in Hx as [[<- <-]|[_ Hx]]; [congruence|done].
Qed.

Lemma publish_ok busy spec bytes charge s d :
  good quiet busy s -> spec_ok spec -> e_registry s !! ws_ID spec = None ->
  ws_Pool spec ∈ a_pools (e_adm s) -> 0 <= charge -> e_accepting s = true ->
  (0 < e_resultCapacity s -> e_resultSlotsHeld s < e_resultCapacity s) ->
  good quiet busy (publish clock spec bytes charge (bool_decide (is_Some (ws_OnComplete spec)))
    (e_set_delivery d s)).
Proof.
  intros Hg (Hcl & _ & Hres) Hn Hpool Hch Hacc Hcred. pose proof Hg as (H & HW & HF).
  unfold publish, now, tick, alloc. cbn beta iota zeta.
  match goal with |- context [mkEntry ?p spec ?t bytes] => set (e := mkEntry p spec t bytes) end.
  match goal with |- context [r_set_state StateQueued ?x] => set (r := r_set_state StateQueued x) end.
  match goal with |- context [a_enqueue e ?a] => change a with (e_adm s) end.
  destruct (a_enqueue_law e (e_adm s) (ao_ok _ _ (eo_admission _ _ H))) as (a & Ha & A1 & A2 & A3).
  { unfold a_fresh. split_and_all; try done.
    - change (qe_ID e) with (ws_ID spec).
      destruct (a_index (e_adm s) !! ws_ID spec) as [x|] eqn:Hx; [|done].
      destruct (ao_index _ _ (eo_admission _ _ H) _ _ Hx) as [(y & Hy & _) _]. congruence.
    - unfold qe_class, norm_class. simpl. case_decide as E; [|done].
      rewrite E in Hcl. exfalso. revert Hcl. unfold priority_classes. set_solver.
    - intros id x Hx E. destruct (ao_index _ _ (eo_admission _ _ H) _ _ Hx) as [_ Hp].
      simpl in E. lia. }
  rewrite Ha. apply (tryDispatch_ok clock pool_order ∅); [|apply no_released].
  match goal with |- good _ _ ?st => set (s1 := st) end.
  apply (good_same quiet quiet busy s); [done|done|].
  assert (Hr : e_registry s1 = <[ws_ID spec := r]> (e_registry s)).
  { unfold s1. simpl. by rewrite insert_insert_eq. }
  apply (new_record_ok s s1 (ws_ID spec) r e); try done; simpl; try lia.
  - constructor; try done; simpl; try lia.
    + left. set_solver.
  - destruct (eo_lifecycle _ _ H) as [L1 L2 L3]. split; simpl; try done.
    intros Hd. destruct (L2 Hd) as [Hq _]. rewrite (L1 Hq) in Hacc. done.
Qed.

Lemma admitSubmit_ok busy ctx spec cell s :
  good quiet busy s -> scalar_ok (ws_Input spec) ->
  good quiet busy (admitSubmit clock resolver ctx spec cell s).2.
Proof.
  intros Hg Hsc. unfold admitSubmit, now, tick. cbn beta iota zeta.
  assert (Hg0 := good_tick _ busy s (S (e_ticks s)) Hg). set (s0 := e_set_ticks _ s) in *.
  destruct (admission_checks resolver ctx spec _ s0) as [[[spec' bytes] charge]|err] eqn:E; [|done].
  destruct (admission_checks_ok _ _ _ _ _ _ _ E Hsc) as (Hok & _ & Hn & Hp & Hc & Hacc & Hcred & _).
  clearbody s0. clear E Hg s.
  assert (Hd : forall d, good quiet busy (e_set_delivery d s0)).
  { intros d. apply (good_frame busy s0); try done. destruct Hg0 as (H & _).
    by destruct (eo_lifecycle _ _ H). }
  set (p := match ws_OnComplete spec' with None => _ | Some _ => _ end).
  assert (Hp' : exists b d, p = (b, e_set_delivery d s0)).
  { unfold p. destruct (ws_OnComplete spec').
    - destruct (dl_reserve (e_delivery s0)) as [b d]. by eexists b, d.
    - exists true, (e_delivery s0). by destruct s0. }
  clearbody p. destruct Hp' as (b & d & ->). destruct (negb b); [apply Hd|].
  set (q := match cell with None => _ | Some _ => _ end). destruct q as [acc c']. destruct acc; cbn [snd].
  - by apply publish_ok.
  - case_match; [|apply Hd]. apply (Hd (dl_releaseReservation d)).
Qed.

(** ** Requests *)

Lemma handleRequest_ok busy req s :
  good quiet busy s ->
  (forall ctx spec cell, req = ReqSubmit ctx spec cell -> scalar_ok (ws_Input spec)) ->
  (forall res grant pool i, req = ReqWorkerCompleted res grant pool i -> (pool, i) ∈ busy) ->
  good quiet (match req with ReqWorkerCompleted _ _ pool i => busy ∖ {[(pool, i)]} | _ => busy end)
    (handleRequest clock pool_order id_order resolver pump answer req s).2.
Proof.
  intros Hg Hs Hw. destruct req; cbn [handleRequest].
  - pose proof (admitSubmit_ok busy callerCtx spec cell s Hg (Hs _ _ _ eq_refl)) as H1.
    by destruct (admitSubmit clock resolver callerCtx spec cell s) as [[r c] s1].
  - pose proof (applyCancel_ok busy id reason s Hg) as H1.
    by destruct (applyCancel clock id reason s) as [[r c] s1].
  - pose proof (applyCancelScope_ok busy scope reason s Hg) as H1.
    by destruct (applyCancelScope clock id_order scope reason s) as [n s1].
  - done.
  - done.
  - done.
  - by apply applyWorkerStarted_ok.
  - apply markWorkerIdle_ok; [by apply applyWorkerCompleted_ok|by eapply Hw].
  - by apply applyCommitAck_ok.
  - unfold now, tick. cbn beta iota zeta. by apply sweep_pools_ok, (good_tick quiet).
  - by apply applyQuiesce_ok.
  - set (q := match cell with None => _ | Some _ => _ end). destruct q as [ok c].
    destruct ok; [by apply set_owner_limits_ok|done].
  - pose proof (applyPoolConfig_ok busy pool cfg s Hg) as H1.
    by destruct (applyPoolConfig clock pool_order pool cfg s) as [err s1].
  - pose proof (applyResourceCapacity_ok busy name capacity s Hg) as H1.
    by destruct (applyResourceCapacity clock pool_order name capacity s) as [err s1].
  - by apply applyStopFinalize_ok.
Qed.

End Handlers.
