(* ===== verification/EngineSystem.v ===== *)
(** * The task engine as a system: coordinator and workers

    The coordinator of Engine.v together with its worker goroutines
    ([workerLoop] of [engine.go]): a worker takes the assignment out of the
    mailbox of its slot, and reports once to the coordinator. [busy] are the
    slots whose worker holds an assignment. The theorems are invariants of every
    reachable state, for every clock, map iteration order, handler resolver and
    commit transport. *)

From stdpp Require Import relations.
From S2P Require Import Prelude.
From S2P Require Import Execution.
From S2P Require Import Tasks.
From S2P Require Import AdmissionTypes.
From S2P Require Import EngineAccounting.
From S2P Require Import EngineConfig.
From S2P Require Import EngineState.
From S2P Require Import Engine.
From S2P Require Import EngineInvariant.
From S2P Require Import EngineSteps.
From S2P Require Import EngineDispatch.
From S2P Require Import EngineHandlers.

Section System.
Context {A L : Type} {AO : AdmissionOps A} {LO : DeliveryOps L} {AL : AdmissionLaws A}.
#[local] Abbreviation engine := (engine A L).
Variable newDelivery : Z -> Z -> L.
Variable clock : nat -> nat -> time.
Variable pool_order : nat -> list PoolID -> list PoolID.
Variable id_order : nat -> list TaskID -> list TaskID.
Variable resolver : option (string -> option govalue -> option closure * option goerror).
Variable pump : option pump_kind.
Variable answer : nat -> bool.
Variable cfg : Config.

Record system := mkSystem { sys_engine : engine; sys_busy : gset (PoolID * nat) }.

(** The requests that other goroutines send. A value has a size, and the report
    of a worker comes from a worker that took an assignment. *)
Definition sendable (req : engineRequest) (y : system) : Prop :=
  match req with
  | ReqSubmit _ spec _ => scalar_ok (ws_Input spec)
  | ReqWorkerCompleted _ _ pool slotID => (pool, slotID) ∈ sys_busy y
  | _ => True
  end.

Definition after_request (req : engineRequest) (busy : gset (PoolID * nat)) : gset (PoolID * nat) :=
  match req with ReqWorkerCompleted _ _ pool slotID => busy ∖ {[(pool, slotID)]} | _ => busy end.

Inductive system_step : system -> system -> Prop :=
  | step_request req y :
      sendable req y ->
      system_step y (mkSystem (handleRequest clock pool_order id_order resolver pump answer req (sys_engine y)).2
        (after_request req (sys_busy y)))
  | step_take pool slotID x a y :
      pool_slots (sys_engine y) pool !! slotID = Some x -> sl_running x = true ->
      sl_mailbox x = Some (Some a) ->
      system_step y (mkSystem
        (set_slot pool slotID (fun x => mkSlot (sl_running x) (sl_idleSince x) (sl_cancel x) (Some None))
          (sys_engine y))
        ({[(pool, slotID)]} ∪ sys_busy y))
  | step_sweep_timer y :
      system_step y (mkSystem
        (run_event clock pool_order id_order resolver pump answer LoopSweepTimer (sys_engine y)) (sys_busy y))
  | step_root_cancelled y :
      system_step y (mkSystem (e_set_rootLive false (sys_engine y)) (sys_busy y))
  | step_root_done y :
      e_rootLive (sys_engine y) = false ->
      system_step y (mkSystem
        (run_event clock pool_order id_order resolver pump answer LoopRootDone (sys_engine y)) (sys_busy y)).

(** The same steps as a function, to run the system. *)
Inductive system_event :=
  | SysRequest (req : engineRequest)
  | SysTake (pool : PoolID) (slotID : nat)
  | SysSweepTimer
  | SysRootCancelled
  | SysRootDone.

#[global] Instance sendable_dec req y : Decision (sendable req y).
Proof. unfold sendable, scalar_ok. destruct req; try apply _. repeat case_match; apply _. Defined.

Definition run_step (ev : system_event) (y : system) : option system :=
  let s := sys_engine y in
  match ev with
  | SysRequest req =>
      if decide (sendable req y) then
        Some (mkSystem (handleRequest clock pool_order id_order resolver pump answer req s).2
          (after_request req (sys_busy y)))
      else None
  | SysTake pool slotID =>
      match pool_slots s pool !! slotID with
      | Some (mkSlot true _ _ (Some (Some _))) =>
          Some (mkSystem
            (set_slot pool slotID (fun x => mkSlot (sl_running x) (sl_idleSince x) (sl_cancel x) (Some None)) s)
            ({[(pool, slotID)]} ∪ sys_busy y))
      | _ => None
      end
  | SysSweepTimer =>
      Some (mkSystem (run_event clock pool_order id_order resolver pump answer LoopSweepTimer s) (sys_busy y))
  | SysRootCancelled => Some (mkSystem (e_set_rootLive false s) (sys_busy y))
  | SysRootDone =>
      if e_rootLive s then None
      else Some (mkSystem (run_event clock pool_order id_order resolver pump answer LoopRootDone s) (sys_busy y))
  end.

Fixpoint run_steps (evs : list system_event) (y : system) : option system :=
  match evs with [] => Some y | ev :: evs' => run_step ev y ≫= run_steps evs' end.

(** The states after a successful [Start]. *)
Definition started (y : system) : Prop :=
  sys_busy y = ∅ /\ Start clock pool_order cfg false (NewEngine newDelivery cfg) = (None, sys_engine y).

Definition reachable (y : system) : Prop := exists y0, started y0 /\ rtc system_step y0 y.

(** The tasks of the engine that are not settled, and those that hold a worker. *)
Definition unsettled (r : taskRecord) : bool := negb (terminal_state (r_state r)).
Definition count (P : taskRecord -> bool) (s : engine) : Z := msum (fun r => ind (P r)) (e_registry s).

(** ** Lemmas *)

Lemma live_quiet r : live quiet r = unsettled r.
Proof.
  unfold live, unsettled. rewrite (bool_decide_eq_false_2 (_ ∈ ph_settling quiet)).
  - apply orb_false_r.
  - apply not_elem_of_empty.
Qed.

Lemma inflight_quiet r : inflight quiet r = flying r.
Proof. unfold inflight. rewrite bool_decide_eq_true_2; [apply andb_true_r|apply not_elem_of_empty]. Qed.

Lemma NewEngine_ok :
  ValidateConfig cfg = None -> good quiet ∅ (NewEngine newDelivery cfg).
Proof.
  intros Hcfg. unfold NewEngine.
  set (pools := (fun p => pe_set_Concurrency _ p) <$> _).
  destruct (a_new_law ((fun p => mkPoolConfig (pe_BacklogLimit p) (pe_PayloadBudget p)) <$> pools))
    as (A1 & A2 & A3 & A4 & A5).
  split; [|split; [|done]].
  - split; [done| | | |].
    + split; simpl; [done| |done]. intros id e He. by rewrite A2 in He.
    + split; simpl; rewrite ?msum_empty; try done.
      * intros key id. rewrite A5. split; [done|]. intros (_ & r & Hr & _). done.
      * intros n. change (0 <= zget n (cf_ResourceCapacities cfg)). unfold zget.
        destruct (cf_ResourceCapacities cfg !! n) as [z|] eqn:Hz; simpl; [|done].
        pose proof (ValidateConfig_capacities _ _ _ Hcfg Hz). lia.
      * lia.
    + split; simpl; [constructor|]. intros id. split; [set_solver|]. intros (r & Hr & _). done.
    + by split.
  - assert (Hidle : forall pool, idle_slots (NewEngine newDelivery cfg) pool = []).
    { intros pool. unfold idle_slots, NewEngine. simpl. rewrite lookup_fmap.
      by destruct (_ !! pool). }
    change (workers_ok ∅ (NewEngine newDelivery cfg)). split.
    + intros pool. rewrite Hidle. constructor.
    + intros pool i. rewrite Hidle. set_solver.
    + intros pool i Hi. by apply elem_of_empty in Hi.
Qed.

Lemma started_ok y : started y -> good quiet (sys_busy y) (sys_engine y).
Proof.
  intros [Hb Hs]. rewrite Hb. unfold Start in Hs. destruct (ValidateConfig cfg) eqn:Hcfg; [done|].
  pose proof (NewEngine_ok Hcfg) as Hg. unfold range_pools, tick in Hs. cbn beta iota zeta in Hs.
  set (s0 := e_set_ticks _ _) in Hs.
  assert (H0 : good quiet ∅ s0).
  { unfold s0. destruct Hg as (H & HW & HF). split; [|split; [|done]].
    - eapply (engine_ok_frame quiet); [exact H|done..|]. by split.
    - by apply (workers_ok_tables ∅ (NewEngine newDelivery cfg)). }
  clearbody s0. match type of Hs with (None, fold_left ?f ?l s0) = _ => generalize l as pools end.
  injection Hs as <-.
  match goal with |- forall _, good _ _ (fold_left ?f ?l s0) => generalize l end. intros pools _.
  revert s0 H0. induction pools as [|p pools IH]; intros s0 H0; simpl; [done|]. apply IH.
  destruct (start_workers_ok clock ∅ p (Z.to_nat (zget p (e_poolMinWorkers s0))) 0 s0) as [O W]; [apply H0|].
  by apply (only_workers_good _ _ s0).
Qed.

Lemma step_ok y y' :
  system_step y y' -> good quiet (sys_busy y) (sys_engine y) -> good quiet (sys_busy y') (sys_engine y').
Proof.
  intros Hst Hg. destruct Hst as [req y Hs|pool i x a y Hx Hr Hm|y|y|y _]; simpl.
  - assert (Hq := handleRequest_ok pump answer clock pool_order id_order resolver (sys_busy y) req (sys_engine y) Hg).
    unfold after_request. destruct req; apply Hq; try done; intros; simplify_eq; apply Hs.
  - pose proof Hg as (H & HW & HF). split; [by apply engine_ok_slot|]. split; [|done].
    assert (Hnf : ~ slot_free (sys_engine y) pool i) by (intros (z & Hz & _ & Hz'); congruence).
    set (f := fun x => _). set (s' := set_slot pool i f (sys_engine y)).
    assert (Hfree : slot_free s' pool i).
    { exists (f x). unfold s'. by rewrite pool_slots_set, decide_True, list_lookup_alter_eq, Hx. }
    assert (Hold : forall p j, slot_free (sys_engine y) p j -> slot_free s' p j).
    { intros p j Hj. apply slot_free_set; [|done]. intros [= -> ->]. done. }
    split; [apply HW| |].
    + intros p j Hj. destruct (wk_idle _ _ HW p j Hj) as [Hfj Hbj]. split; [by apply Hold|].
      apply not_elem_of_union. split; [|done]. intros [= -> ->]%elem_of_singleton. done.
    + intros p j [[= -> ->]%elem_of_singleton|Hj]%elem_of_union; [done|]. by apply Hold, (wk_busy _ _ HW).
  - unfold now, tick. cbn beta iota zeta.
    assert (H1 := sweep_pools_ok pool_order (sys_busy y)
      (clock (e_ticks (sys_engine y)) 0) _ (good_tick quiet _ _ (S (e_ticks (sys_engine y))) Hg)).
    destruct (sweepIdleWorkers_ok pool_order (sys_busy y) (clock (e_ticks (sys_engine y)) 0) _
      (proj1 (proj2 H1))) as [O W].
    exact (only_workers_good _ _ _ _ H1 O W).
  - destruct Hg as (H & HW & HF). split; [|split; [|done]].
    + eapply (engine_ok_frame quiet); [exact H|done..|]. by destruct (eo_lifecycle _ _ H).
    + by apply (workers_ok_tables (sys_busy y) (sys_engine y)).
  - by apply applyStopFinalize_ok.
Qed.

Lemma reachable_good y : reachable y -> good quiet (sys_busy y) (sys_engine y).
Proof.
  intros (y0 & H0%started_ok & Hst). induction Hst as [|y1 y2 y3 H1 _ IH]; [done|].
  by apply IH, (step_ok y1).
Qed.

Lemma run_step_sound ev y y' : run_step ev y = Some y' -> system_step y y'.
Proof.
  destruct ev as [req|pool i| | |]; cbn [run_step].
  - case_decide; intros [= <-]. by constructor.
  - destruct (pool_slots _ _ !! i) as [[[] since c [[a|]|]]|] eqn:Hx; intros [= <-].
    by eapply step_take.
  - intros [= <-]. constructor.
  - intros [= <-]. constructor.
  - destruct (e_rootLive _) eqn:Hr; intros [= <-]. by constructor.
Qed.

Lemma run_steps_sound evs : forall y y', run_steps evs y = Some y' -> rtc system_step y y'.
Proof.
  induction evs as [|ev evs IH]; intros y y' E; cbn [run_steps] in E; [by injection E as <-|].
  destruct (run_step ev y) as [y1|] eqn:E1; [|done].
  eapply rtc_l; [by apply (run_step_sound ev)|by apply IH].
Qed.

End System.
