(* ===== verification/EngineSample.v ===== *)
(** * A concrete run of the task engine

    The controller of Admission.v and the delivery lane of Delivery.v under the
    coordinator of Engine.v: a small configuration, three tasks and the state
    they reach. The witnesses of the theorems on the engine are evaluated on it. *)

From stdpp Require Import relations.
From S2P Require Import Prelude.
From S2P Require Import Execution.
From S2P Require Import Tasks.
From S2P Require Import AdmissionTypes.
From S2P Require Import DeadlineIndex.
From S2P Require Import ReadyQueue.
From S2P Require Import Admission.
From S2P Require Import AdmissionInstance.
From S2P Require Import EngineAccounting.
From S2P Require Import EngineConfig.
From S2P Require Import EngineState.
From S2P Require Import Delivery.
From S2P Require Import Engine.
From S2P Require Import EngineInvariant.
From S2P Require Import EngineSteps.
From S2P Require Import EngineDispatch.
From S2P Require Import EngineHandlers.
From S2P Require Import EngineSystem.

(** ** A concrete run, for the witnesses

    One pool with two workers, one unit of the resource [db], every commit and
    every clock reading the same; a pump that takes the commit. *)

Definition sample_config : Config :=
  mkConfig {["pool" := mkPoolEngineConfig 2 0 true second 10 (10 * mib)]}
    4 2 second 16 0 0 0 1 4 0 4 {["db" := 1]}.

Definition sample_clock (n k : nat) : time := 1000.
Definition same_order {X} (n : nat) (l : list X) : list X := l.

Definition sample_task (id owner key : string) (commit callback : option closure) : WorkSpec :=
  mkWorkSpec id (mkScope "s" 1) owner "pool" "" key 0 0 "" (Some (VString false "abc")) None
    [mkReq "db" 1] (Some 1%nat) commit callback.

Abbreviation controller := (Admission.Controller ReadyQueue.ReadyQueue DeadlineIndex.DeadlineIndex) (only parsing).

Definition sample_start : option goerror * engine controller lane :=
  Start sample_clock same_order sample_config false (NewEngine newCompletionDelivery sample_config).

Definition sample_run (evs : list system_event) : option (system (A := controller) (L := lane)) :=
  run_steps sample_clock same_order same_order None (Some PumpAck) (fun _ => true) evs
    (mkSystem sample_start.2 ∅).

(** Three tasks: [t1] runs and is durable, [t2] waits for the resource, [t3] is
    cancelled while it waits. *)
Definition sample_events : list system_event :=
  [SysRequest (ReqSubmit None (sample_task "t1" "o" "k" (Some 9%nat) (Some 5%nat)) (Some decisionPending));
   SysRequest (ReqSubmit None (sample_task "t2" "o" "k" None None) None);
   SysRequest (ReqSubmit None (sample_task "t3" "p" "" None None) None);
   SysTake "pool" 0;
   SysRequest (ReqWorkerStarted "t1" (Some (mkPermit 1 "pool" "t1" 1)) 5);
   SysRequest (ReqCancel "t3" CauseUserCancel)].

Definition sample_state : system (A := controller) (L := lane) :=
  default (mkSystem sample_start.2 ∅) (sample_run sample_events).

Abbreviation sample_reachable :=
  (reachable newCompletionDelivery sample_clock same_order same_order None (Some PumpAck)
    (fun _ => true) sample_config) (only parsing).

Lemma sample_state_reachable : sample_reachable sample_state.
Proof.
  exists (mkSystem sample_start.2 ∅). split.
  - split; [reflexivity|]. vm_compute. reflexivity.
  - apply (run_steps_sound _ _ _ _ _ _ sample_events). vm_compute. reflexivity.
Qed.

Example sample_view :
  let s := sys_engine sample_state in
  (e_activeTasks s, e_faults s, e_resourceUsed s !! "db",
   (fun r => r_state r) <$> e_registry s !! "t1", (fun r => r_state r) <$> e_registry s !! "t2",
   (fun r => r_state r) <$> e_registry s !! "t3")
  = (2, [], Some 1, Some StateRunning, Some StateQueued, Some StateCancelled).
Proof. vm_compute. reflexivity. Qed.

