(* ===== verification/SubmitProtocol.v ===== *)
(** * The decision-cell protocol between a caller and the coordinator

    Models [sendSubmitControl] and [sendOwnerLimitsControl] of
    [internal/taskengine/engine_admission.go] with [enqueueRequest] and
    [finishCoordinator] of [engine.go]. A caller hands its request over through
    the inbox and then waits for the reply, for its context or for the root
    context; the last two only let it leave when its compare-and-swap takes the
    decision cell away from the coordinator. [own_step] are the steps of the
    caller and the reply of a request that is being served, [env_step] those of
    everything else: other requests, both contexts, the end of the coordinator.

    The protocol is proved once, against the interface [CallOps]/[CallLaws] of a
    cell and a handler, and instantiated by the two kinds of request that use a
    cell. *)

From stdpp Require Import relations.
From S2P Require Import Prelude.
From S2P Require Import Execution.
From S2P Require Import Tasks.
From S2P Require Import AdmissionTypes.
From S2P Require Import DeadlineIndex.
From S2P Require Import ReadyQueue.
From S2P Require Import Admission.
From S2P Require Import AdmissionInstance.
From S2P Require Import EngineAccounting.
From S2P Require Import EngineConfig.
From S2P Require Import EngineState.
From S2P Require Import Delivery.
From S2P Require Import Engine.
From S2P Require Import EngineHandlers.
From S2P Require Import EngineSystem.
From S2P Require Import EngineSample.

(** ** The interface *)

(** Cells [C], coordinator states [S], replies [R]. [co_serve c s r c' s']: the
    coordinator serves the request in [s] when the cell holds [c]. *)
Class CallOps (C S R : Type) := {
  co_pending : C;
  co_cancel : C -> bool * C;
  co_serve : C -> S -> R -> C -> S -> Prop;
  co_applied : R -> bool;
  co_other : S -> S -> Prop;
  co_root_cancelled : S -> S;
  co_finish : S -> S
}.

Definition co_cancelled {C S R} `{CallOps C S R} : C := (co_cancel co_pending).2.

Class CallLaws (C S R : Type) `{CallOps C S R} := {
  co_cancel_pending : (co_cancel co_pending).1 = true;
  co_cancel_decided : forall c, c <> co_pending -> co_cancel c = (false, c);
  co_cancelled_decided : co_cancelled <> co_pending;
  co_serve_decides : forall s r c' s', co_serve co_pending s r c' s' -> c' <> co_pending;
  co_serve_fenced : forall s r c' s', co_serve co_cancelled s r c' s' ->
    c' = co_cancelled /\ co_applied r = false
}.

(** ** One call *)

Inductive refusal := RefusedByCtx | RefusedByRoot.
Inductive client_result (R : Type) := GotReply (r : R) | Refused (why : refusal).
Arguments GotReply {R}. Arguments Refused {R}.

(** Where the caller is: in [enqueueRequest], in the loop around the select with
    the two channels it still listens to, or returned. *)
Inductive client_pc (R : Type) :=
  | ClientEnqueue
  | ClientSelect (ctxArmed rootArmed : bool)
  | ClientDone (r : client_result R).
Arguments ClientEnqueue {R}. Arguments ClientSelect {R}. Arguments ClientDone {R}.

(** Where its request is. [Serving r]: the coordinator decided on [r] and has
    not sent it yet. *)
Inductive request_place (R : Type) := NotSent | InInbox | Serving (r : R) | Served | Dropped.
Arguments NotSent {R}. Arguments InInbox {R}. Arguments Serving {R}. Arguments Served {R}.
Arguments Dropped {R}.

(** [LoopReturned]: [runLoop] returned; [LoopCleared]: [finishCoordinator] took
    the inbox away and emptied it. *)
Inductive loop_state := LoopRunning | LoopReturned | LoopCleared.

Record call (C S R : Type) := mkCall {
  ca_state : S;
  ca_cell : C;
  ca_client : client_pc R;
  ca_place : request_place R;
  ca_reply : option R;
  ca_ctxDone : bool;
  ca_rootDone : bool;
  ca_loop : loop_state;
  ca_served : option (S * S)      (* the states around the serving, for the statements *)
}.
Arguments mkCall {C S R}. Arguments ca_state {C S R}. Arguments ca_cell {C S R}.
Arguments ca_client {C S R}. Arguments ca_place {C S R}. Arguments ca_reply {C S R}.
Arguments ca_ctxDone {C S R}. Arguments ca_rootDone {C S R}. Arguments ca_loop {C S R}.
Arguments ca_served {C S R}.

Section Call.
Context {C S R : Type} {CO : CallOps C S R} {CL : CallLaws C S R}.
#[local] Abbreviation call := (call C S R).

Definition new_call (s : S) : call :=
  mkCall s co_pending ClientEnqueue NotSent None false false LoopRunning None.

Definition set_client (pc : client_pc R) (k : call) : call :=
  mkCall (ca_state k) (ca_cell k) pc (ca_place k) (ca_reply k) (ca_ctxDone k) (ca_rootDone k)
    (ca_loop k) (ca_served k).
Definition set_place (p : request_place R) (k : call) : call :=
  mkCall (ca_state k) (ca_cell k) (ca_client k) p (ca_reply k) (ca_ctxDone k) (ca_rootDone k)
    (ca_loop k) (ca_served k).
Definition set_state (s : S) (k : call) : call :=
  mkCall s (ca_cell k) (ca_client k) (ca_place k) (ca_reply k) (ca_ctxDone k) (ca_rootDone k)
    (ca_loop k) (ca_served k).
Definition set_loop (l : loop_state) (k : call) : call :=
  mkCall (ca_state k) (ca_cell k) (ca_client k) (ca_place k) (ca_reply k) (ca_ctxDone k) (ca_rootDone k)
    l (ca_served k).
Definition set_done (ctx root : bool) (k : call) : call :=
  mkCall (ca_state k) (ca_cell k) (ca_client k) (ca_place k) (ca_reply k) ctx root
    (ca_loop k) (ca_served k).

(** [decision.decide(decisionCancelled)] when a channel of the select fires: the
    caller returns, or stops listening to that channel. *)
Definition try_cancel (why : refusal) (armed : client_pc R) (k : call) : call :=
  let '(ok, cell) := co_cancel (ca_cell k) in
  let k := mkCall (ca_state k) cell (ca_client k) (ca_place k) (ca_reply k) (ca_ctxDone k)
    (ca_rootDone k) (ca_loop k) (ca_served k) in
  set_client (if ok then ClientDone (Refused why) else armed) k.

Inductive own_step : call -> call -> Prop :=
  | own_enqueue k :
      ca_client k = ClientEnqueue -> ca_loop k <> LoopCleared ->
      own_step k (set_place InInbox (set_client (ClientSelect true true) k))
  | own_enqueue_ctx k :
      ca_client k = ClientEnqueue -> ca_ctxDone k = true ->
      own_step k (set_client (ClientDone (Refused RefusedByCtx)) k)
  | own_enqueue_root k :
      ca_client k = ClientEnqueue -> ca_rootDone k = true ->
      own_step k (set_client (ClientDone (Refused RefusedByRoot)) k)
  | own_receive k a b r :
      ca_client k = ClientSelect a b -> ca_reply k = Some r ->
      own_step k (set_client (ClientDone (GotReply r)) k)
  | own_ctx k b :
      ca_client k = ClientSelect true b -> ca_ctxDone k = true ->
      own_step k (try_cancel RefusedByCtx (ClientSelect false b) k)
  | own_root k a :
      ca_client k = ClientSelect a true -> ca_rootDone k = true ->
      own_step k (try_cancel RefusedByRoot (ClientSelect a false) k)
  | own_reply k r :
      ca_place k = Serving r ->
      own_step k (mkCall (ca_state k) (ca_cell k) (ca_client k) Served (Some r) (ca_ctxDone k)
        (ca_rootDone k) (ca_loop k) (ca_served k)).

Definition serving (k : call) : bool := match ca_place k with Serving _ => true | _ => false end.

Inductive env_step : call -> call -> Prop :=
  | env_serve k r c' s' :
      ca_loop k = LoopRunning -> ca_place k = InInbox ->
      co_serve (ca_cell k) (ca_state k) r c' s' ->
      env_step k (mkCall s' c' (ca_client k) (Serving r) (ca_reply k) (ca_ctxDone k)
        (ca_rootDone k) (ca_loop k) (Some (ca_state k, s')))
  | env_other k s' :
      serving k = false -> co_other (ca_state k) s' -> env_step k (set_state s' k)
  | env_ctx_done k : env_step k (set_done true (ca_rootDone k) k)
  | env_root_done k :
      env_step k (set_state (co_root_cancelled (ca_state k)) (set_done (ca_ctxDone k) true k))
  | env_loop_returns k :
      ca_rootDone k = true -> ca_loop k = LoopRunning -> serving k = false ->
      env_step k (set_state (co_finish (ca_state k)) (set_loop LoopReturned k))
  | env_loop_cleared k :
      ca_loop k = LoopReturned ->
      env_step k (set_loop LoopCleared
        (match ca_place k with InInbox => set_place Dropped k | _ => k end)).

Definition call_step (k k' : call) : Prop := own_step k k' \/ env_step k k'.
Definition call_reachable (s : S) (k : call) : Prop := rtc call_step (new_call s) k.

(** ** The invariant *)

(** What was decided for a request, once it was served. *)
Definition served_reply (k : call) : option R :=
  match ca_place k with Serving r => Some r | Served => ca_reply k | _ => None end.

Record call_ok (k : call) : Prop := {
  cl_unserved : served_reply k = None ->
    ca_reply k = None /\ ca_served k = None /\ (ca_cell k = co_pending \/ ca_cell k = co_cancelled);
  cl_served : forall r, served_reply k = Some r -> ca_cell k <> co_pending /\
    exists s c s', (c = co_pending \/ c = co_cancelled) /\ co_serve c s r (ca_cell k) s' /\
      ca_served k = Some (s, s');
  cl_serving : forall r, ca_place k = Serving r -> ca_reply k = None;
  cl_client : match ca_client k with
    | ClientEnqueue => ca_place k = NotSent /\ ca_cell k = co_pending
    | ClientSelect a b => served_reply k = None -> ca_cell k = co_pending /\ a = true /\ b = true
    | ClientDone (GotReply r) => served_reply k = Some r
    | ClientDone (Refused _) => ca_place k = NotSent \/
        ca_cell k = co_cancelled /\ forall r, served_reply k = Some r -> co_applied r = false
    end
}.

Lemma new_call_ok s : call_ok (new_call s).
Proof. split; simpl; [by auto|done..|done]. Qed.

(** A caller that tries to leave either takes the pending cell, or finds its
    request decided and stops listening. *)
Lemma try_cancel_cases why armed k : call_ok k ->
  (ca_cell k = co_pending /\ try_cancel why armed k =
     mkCall (ca_state k) co_cancelled (ClientDone (Refused why)) (ca_place k) (ca_reply k)
       (ca_ctxDone k) (ca_rootDone k) (ca_loop k) (ca_served k)) \/
  (ca_cell k <> co_pending /\ try_cancel why armed k = set_client armed k).
Proof.
  intros H. unfold try_cancel. assert (D : ca_cell k = co_pending \/ ca_cell k <> co_pending).
  { destruct (served_reply k) as [r|] eqn:E; [right; apply (cl_served _ H r E)|].
    destruct (cl_unserved _ H E) as (_ & _ & [?|Hc]); [by left|right]. rewrite Hc. apply co_cancelled_decided. }
  destruct D as [E|E].
  - left. split; [done|]. rewrite E. unfold co_cancelled. pose proof co_cancel_pending as Hp.
    destruct (co_cancel co_pending) as [ok c]. simpl in *. by subst ok.
  - right. split; [done|]. rewrite (co_cancel_decided _ E). unfold set_client. by destruct k.
Qed.

Lemma try_cancel_ok why armed a b k :
  call_ok k -> ca_client k = ClientSelect a b -> (exists a' b', armed = ClientSelect a' b') ->
  call_ok (try_cancel why armed k).
Proof.
  intros H Hc (a' & b' & ->). pose proof (cl_client _ H) as Hcl. rewrite Hc in Hcl.
  destruct (try_cancel_cases why (ClientSelect a' b') k H) as [[E ->]|[E ->]].
  - assert (Hn : served_reply k = None).
    { destruct (served_reply k) as [r|] eqn:Er; [|done]. by destruct (cl_served _ H r Er). }
    destruct (cl_unserved _ H Hn) as (H1 & H2 & _). unfold served_reply in Hn.
    split; unfold served_reply; cbn [ca_place ca_reply ca_served ca_cell ca_client].
    + intros _. by auto.
    + intros r. rewrite Hn. done.
    + apply (cl_serving _ H).
    + right. split; [done|]. intros r. rewrite Hn. done.
  - split; [apply H..|]. cbn [set_client ca_client]. intros Hn. by destruct (Hcl Hn).
Qed.

Lemma own_step_ok k k' : own_step k k' -> call_ok k -> call_ok k'.
Proof.
  intros Hst H. pose proof (cl_client _ H) as Hcl.
  destruct Hst as [k Hc Hl|k Hc Hx|k Hc Hx|k a b r Hc Hr|k b Hc Hx|k a Hc Hx|k r Hp]; try rewrite Hc in Hcl.
  - destruct Hcl as [Hp Hcell]. split; simpl; [|done..|done]. intros _.
    destruct (cl_unserved _ H) as (H1 & H2 & H3); [unfold served_reply; by rewrite Hp|done].
  - destruct Hcl as [Hp _]. split; [apply H..|]. by left.
  - destruct Hcl as [Hp _]. split; [apply H..|]. by left.
  - split; [apply H..|]. simpl. destruct (served_reply k) as [r'|] eqn:E.
    + change (served_reply k = Some r). unfold served_reply in *. destruct (ca_place k) eqn:Hp; try done.
      by rewrite (cl_serving _ H _ Hp) in Hr.
    + destruct (cl_unserved _ H E) as (H1 & _). congruence.
  - by eapply try_cancel_ok; eauto.
  - by eapply try_cancel_ok; eauto.
  - assert (E : served_reply k = Some r) by (unfold served_reply; by rewrite Hp).
    split; unfold served_reply; simpl; [done| |done|].
    + intros r' [= <-]. apply (cl_served _ H r E).
    + destruct (ca_client k) as [|? ?|[?|?]]; [|done| |].
      * destruct Hcl as [Hn _]. congruence.
      * congruence.
      * destruct Hcl as [Hn|[Hn Hr]]; [congruence|right]. split; [done|]. intros r' [= <-]. by apply Hr.
Qed.

(** Steps that leave the request, its cell and the caller alone. *)
Lemma call_ok_frame k k' :
  ca_cell k' = ca_cell k -> ca_client k' = ca_client k -> ca_place k' = ca_place k ->
  ca_reply k' = ca_reply k -> ca_served k' = ca_served k -> call_ok k -> call_ok k'.
Proof.
  intros E1 E2 E3 E4 E5 H. assert (E6 : served_reply k' = served_reply k) by (unfold served_reply; by rewrite E3, E4).
  split; rewrite ?E1, ?E2, ?E3, ?E4, ?E5, ?E6; apply H.
Qed.

Lemma env_step_ok k k' : env_step k k' -> call_ok k -> call_ok k'.
Proof.
  intros Hst H. destruct Hst as [k r c' s' Hl Hp Hs|k s' _ _|k|k|k _ _ _|k Hl];
    [|by apply (call_ok_frame k)..|].
  - assert (E : served_reply k = None) by (unfold served_reply; by rewrite Hp).
    destruct (cl_unserved _ H E) as (H1 & H2 & H3).
    assert (Hdec : c' <> co_pending /\ (ca_cell k = co_cancelled -> c' = co_cancelled /\ co_applied r = false)).
    { destruct H3 as [Hc|Hc]; rewrite Hc in Hs.
      - split; [by eapply co_serve_decides|]. intros Hx. rewrite Hx in Hc. by destruct co_cancelled_decided.
      - destruct (co_serve_fenced _ _ _ _ Hs) as [-> Hr]. split; [apply co_cancelled_decided|done]. }
    destruct Hdec as [Hd1 Hd2]. pose proof (cl_client _ H) as Hcl.
    split; unfold served_reply; simpl; [done| |done|].
    + intros r' [= <-]. split; [done|]. by exists (ca_state k), (ca_cell k), s'.
    + destruct (ca_client k) as [|? ?|[?|?]]; [|done| |].
      * destruct Hcl as [Hn _]. congruence.
      * unfold served_reply in Hcl. by rewrite Hp in Hcl.
      * destruct Hcl as [Hn|[Hn _]]; [congruence|right]. destruct (Hd2 Hn) as [-> Hr].
        split; [done|]. by intros r' [= <-].
  - destruct (ca_place k) as [| |r| |] eqn:Hp; try by apply (call_ok_frame k).
    assert (E : served_reply k = None) by (unfold served_reply; by rewrite Hp).
    pose proof (cl_client _ H) as Hcl. destruct (cl_unserved _ H E) as (H1 & H2 & H3).
    split; unfold served_reply; simpl; [done..|].
    destruct (ca_client k) as [|? ?|[?|?]].
    + destruct Hcl as [Hn _]. congruence.
    + intros _. by apply Hcl.
    + congruence.
    + destruct Hcl as [Hn|[Hn _]]; [congruence|by right].
Qed.

Lemma call_reachable_ok s k : call_reachable s k -> call_ok k.
Proof.
  unfold call_reachable. intros H. remember (new_call s) as k0 eqn:E.
  assert (H0 : call_ok k0) by (subst; apply new_call_ok). clear E.
  induction H as [k|k0 k1 k Hst _ IH]; [done|]. apply IH.
  destruct Hst as [Hst|Hst]; [by apply (own_step_ok k0)|by apply (env_step_ok k0)].
Qed.

(** ** Progress *)

(** The own steps that are left, at most. *)
Definition call_rank (k : call) : nat :=
  (match ca_client k with
   | ClientEnqueue => 4
   | ClientSelect a b => 1 + Nat.b2n a + Nat.b2n b
   | ClientDone _ => 0
   end + if serving k then 1 else 0)%nat.

Lemma own_step_rank k k' : call_ok k -> own_step k k' -> (call_rank k' < call_rank k)%nat.
Proof.
  intros H Hst. pose proof (cl_client _ H) as Hcl.
  destruct Hst as [k Hc _|k Hc _|k Hc _|k a b r Hc _|k b Hc _|k a Hc _|k r Hp]; unfold call_rank, serving.
  - rewrite Hc in *. destruct Hcl as [-> _]. simpl. lia.
  - simpl. rewrite Hc. lia.
  - simpl. rewrite Hc. lia.
  - simpl. rewrite Hc. lia.
  - destruct (try_cancel_cases RefusedByCtx (ClientSelect false b) k H) as [[_ ->]|[_ ->]];
      simpl; rewrite Hc; simpl; lia.
  - destruct (try_cancel_cases RefusedByRoot (ClientSelect a false) k H) as [[_ ->]|[_ ->]];
      simpl; rewrite Hc; simpl; lia.
  - rewrite Hp. simpl. lia.
Qed.

Lemma own_step_flags k k' : own_step k k' ->
  ca_ctxDone k' = ca_ctxDone k /\ ca_rootDone k' = ca_rootDone k.
Proof. intros []; try done; unfold try_cancel; by destruct (co_cancel _). Qed.

Definition returned (k : call) : Prop := exists r, ca_client k = ClientDone r.

(** A caller whose context or root context is done is never stuck. *)
Lemma call_progress k :
  call_ok k -> ca_ctxDone k = true \/ ca_rootDone k = true -> ~ returned k -> exists k', own_step k k'.
Proof.
  intros H Hd Hn. pose proof (cl_client _ H) as Hcl. destruct (ca_client k) as [|a b|r] eqn:Hc.
  - destruct Hd; [by eexists; apply own_enqueue_ctx|by eexists; apply own_enqueue_root].
  - destruct (served_reply k) as [r|] eqn:Hr.
    + unfold served_reply in Hr. destruct (ca_place k) eqn:Hp; try done; [by eexists; eapply own_reply|].
      by eexists; eapply own_receive.
    + destruct (Hcl eq_refl) as (_ & -> & ->). destruct Hd; [by eexists; eapply own_ctx|].
      by eexists; eapply own_root.
  - destruct Hn. by exists r.
Qed.

Lemma call_returns_ok k :
  call_ok k -> ca_ctxDone k = true \/ ca_rootDone k = true -> exists k', rtc own_step k k' /\ returned k'.
Proof.
  remember (call_rank k) as n eqn:En. revert k En. induction (lt_wf n) as [n _ IH]. intros k -> H Hd.
  assert (D : returned k \/ ~ returned k).
  { unfold returned. destruct (ca_client k); [right; by intros [? ?]..|left; by eexists]. }
  destruct D as [Hr|Hn]; [by exists k; split|].
  destruct (call_progress k H Hd Hn) as [k1 H1].
  destruct (own_step_flags k k1 H1) as [F1 F2]. rewrite <- F1, <- F2 in Hd.
  destruct (IH _ (own_step_rank k k1 H H1) k1 eq_refl (own_step_ok k k1 H1 H) Hd) as (k' & Hk & Hr).
  exists k'. split; [by eapply rtc_l|done].
Qed.

Lemma own_steps_bounded n : forall k k', call_ok k -> nsteps own_step n k k' -> (n <= call_rank k)%nat.
Proof.
  induction n as [|n IH]; intros k k' H Hst; [lia|]. inversion Hst as [|? ? k1 ? H1 H2]; subst.
  pose proof (own_step_rank k k1 H H1). pose proof (IH k1 k' (own_step_ok k k1 H1 H) H2). lia.
Qed.
End Call.

(** ** The two requests with a cell *)

Section Requests.
Context {A L : Type} {AO : AdmissionOps A} {LO : DeliveryOps L} {AL : AdmissionLaws A}.
Variable clock : nat -> nat -> time.
Variable pool_order : nat -> list PoolID -> list PoolID.
Variable id_order : nat -> list TaskID -> list TaskID.
Variable resolver : option (string -> option govalue -> option closure * option goerror).
Variable pump : option pump_kind.
Variable answer : nat -> bool.

#[local] Abbreviation system := (system (A := A) (L := L)).

(** The coordinator serves [req] in [y]. *)
Definition serve_request (req : engineRequest) (y : system) : engineReply * system :=
  let '(reply, s) := handleRequest clock pool_order id_order resolver pump answer req (sys_engine y) in
  (reply, mkSystem s (sys_busy y)).

Definition other_step : system -> system -> Prop :=
  system_step clock pool_order id_order resolver pump answer.
Definition root_cancelled (y : system) : system := mkSystem (e_set_rootLive false (sys_engine y)) (sys_busy y).
Definition loop_finish (y : system) : system :=
  mkSystem (run_event clock pool_order id_order resolver pump answer LoopRootDone (sys_engine y)) (sys_busy y).

Definition is_ticket (r : TaskID + goerror) : bool := match r with inl _ => true | inr _ => false end.

(** [sendSubmitControl]; whether the coordinator finds the context of the caller
    done is open, it reads it while it serves the request. *)
Definition sendSubmitControl (spec : WorkSpec) : CallOps submitDecisionState system (TaskID + goerror) := {|
  co_pending := decisionPending;
  co_cancel := decide_cell decisionCancelled;
  co_serve := fun c y r c' y' => exists callerCtx,
    serve_request (ReqSubmit (Some callerCtx) spec (Some c)) y = (ReplyTicket r (Some c'), y');
  co_applied := is_ticket;
  co_other := other_step;
  co_root_cancelled := root_cancelled;
  co_finish := loop_finish
|}.

(** [sendOwnerLimitsControl]; a reply is its error. *)
Definition sendOwnerLimitsControl (owner : OwnerID) (limits : OwnerLimits)
    : CallOps controlDecisionState system (option goerror) := {|
  co_pending := controlDecisionPending;
  co_cancel := decide_control controlDecisionCancelled;
  co_serve := fun c y r c' y' =>
    serve_request (ReqSetOwnerLimits owner limits (Some c)) y = (ReplyControl r (Some c'), y');
  co_applied := fun r => bool_decide (r = None);
  co_other := other_step;
  co_root_cancelled := root_cancelled;
  co_finish := loop_finish
|}.

(** What serving a submission does to its cell and to the engine. *)
Lemma admitSubmit_cell ctx spec c s : let '(r, cell', s') := admitSubmit clock resolver ctx spec (Some c) s in
  match r with
  | inl id => c = decisionPending /\ cell' = Some decisionAccepted /\
      (scalar_ok (ws_Input spec) -> id = ws_ID spec /\ e_registry s !! id = None /\ e_accepting s = true)
  | inr _ => cell' = Some c /\ exists n d, s' = e_set_delivery d (e_set_ticks n s)
  end.
Proof.
  unfold admitSubmit, now, tick. cbn beta iota zeta.
  destruct (admission_checks _ _ _ _ _) as [[[spec' bytes] charge]|err] eqn:E.
  2: { split; [done|]. exists (S (e_ticks s)), (e_delivery s). by destruct s. }
  assert (Hok : scalar_ok (ws_Input spec) ->
    ws_ID spec' = ws_ID spec /\ e_registry s !! ws_ID spec' = None /\ e_accepting s = true).
  { intros Hsc. destruct (admission_checks_ok _ _ _ _ _ _ _ _ E Hsc) as (_ & Hid & Hn & _ & _ & Hacc & _).
    by split_and_all. }
  set (p := match ws_OnComplete spec' with None => _ | Some _ => _ end).
  assert (Hp : exists b d, p = (b, e_set_delivery d (e_set_ticks (S (e_ticks s)) s))).
  { unfold p. destruct (ws_OnComplete spec').
    - destruct (dl_reserve _) as [b d]. by eexists b, d.
    - exists true, (e_delivery s). by destruct s. }
  clearbody p. destruct Hp as (b & d & ->). destruct b; cbn [negb]; [|by split; [|eexists _, d]].
  unfold decide_cell. destruct (decide (c = decisionPending)) as [->|Hc]; [done|].
  split; [done|]. case_match; [|by eexists _, d].
  exists (S (e_ticks s)), (dl_releaseReservation d). done.
Qed.

(** A served submission: accepted from an undecided cell, or not at all. *)
Lemma serve_submit_cases spec c y callerCtx r c' y' :
  serve_request (ReqSubmit callerCtx spec (Some c)) y = (ReplyTicket r (Some c'), y') ->
  match r with
  | inl id => c = decisionPending /\ c' = decisionAccepted /\
      (scalar_ok (ws_Input spec) ->
         id = ws_ID spec /\ e_registry (sys_engine y) !! id = None /\ e_accepting (sys_engine y) = true)
  | inr _ => c' = (decide_cell decisionRejected c).2 /\
      exists n d, y' = mkSystem (e_set_delivery d (e_set_ticks n (sys_engine y))) (sys_busy y)
  end.
Proof.
  unfold serve_request. cbn [handleRequest].
  pose proof (admitSubmit_cell callerCtx spec c (sys_engine y)) as H.
  destruct (admitSubmit _ _ _ _ _ _) as [[r0 cell] s']. intros [= <- Hc <-].
  destruct r0 as [id|e].
  - destruct H as (-> & -> & H). by injection Hc as <-.
  - destruct H as (-> & n & d & ->). injection Hc as <-. split; [done|]. by exists n, d.
Qed.

#[local] Instance sendSubmitControl_laws spec : CallLaws (H := sendSubmitControl spec) submitDecisionState system (TaskID + goerror).
Proof.
  split; simpl.
  - done.
  - intros c Hc. unfold decide_cell. by rewrite decide_False.
  - done.
  - intros y r c' y' [ctx E]. pose proof (serve_submit_cases _ _ _ _ _ _ _ E) as H.
    destruct r; [by destruct H as (_ & -> & _)|by destruct H as [-> _]].
  - intros y r c' y' [ctx E]. pose proof (serve_submit_cases _ _ _ _ _ _ _ E) as H.
    destruct r; [by destruct H as (H & _)|by destruct H as [-> _]].
Qed.

#[local] Instance sendOwnerLimitsControl_laws owner limits :
  CallLaws (H := sendOwnerLimitsControl owner limits) controlDecisionState system (option goerror).
Proof.
  split; simpl.
  - done.
  - intros c Hc. unfold decide_control. by rewrite decide_False.
  - done.
  - intros y r c' y' E. unfold serve_request in E. simpl in E. by injection E as _ <- _.
  - intros y r c' y' E. unfold serve_request in E. simpl in E. by injection E as <- <- _.
Qed.

(** The first [n] of a call's own steps bring it home. *)
Definition comes_home {C R} (CO : CallOps C system R) (k : call C system R) : Prop :=
  (exists k', rtc own_step k k' /\ returned k') /\
  forall n k', nsteps own_step n k k' -> (n <= 5)%nat.

(** ** Properties *)


(** Setting the limits of an owner is linearizable: no error means that the
    coordinator applied exactly this update, an error that it was not applied
    and never will be. *)
Theorem owner_limits_linearizable owner limits (y : system)
    (k : call controlDecisionState system (option goerror)) :
  call_reachable (CO := sendOwnerLimitsControl owner limits) y k ->
  match ca_client k with
  | ClientDone (GotReply None) => exists y1, ca_served k =
      Some (y1, mkSystem (e_set_adm (a_set_owner_limits owner limits (e_adm (sys_engine y1))) (sys_engine y1))
                  (sys_busy y1))
  | ClientDone (GotReply (Some _)) | ClientDone (Refused _) =>
      ca_served k = None \/ exists y1, ca_served k = Some (y1, y1)
  | ClientEnqueue => ca_served k = None
  | ClientSelect _ _ => True
  end.
Proof.
  intros Hk. apply call_reachable_ok in Hk.
  assert (Hun : served_reply k = None -> ca_served k = None) by apply Hk.
  assert (Hsv : forall r, served_reply k = Some r -> exists y1, ca_served k = Some (y1,
    if decide (r = None)
    then mkSystem (e_set_adm (a_set_owner_limits owner limits (e_adm (sys_engine y1))) (sys_engine y1)) (sys_busy y1)
    else y1)).
  { intros r Hr. destruct (cl_served _ Hk r Hr) as (_ & y1 & c & y2 & Hc & E & Es). exists y1. rewrite Es.
    f_equal. f_equal. simpl in E. unfold serve_request in E. cbn [handleRequest] in E. unfold decide_control in E.
    destruct (decide (c = controlDecisionPending)); cbn beta iota zeta in E; injection E as <- _ <-; [done|].
    by destruct y1. }
  pose proof (cl_client _ Hk) as Hcl. destruct (ca_client k) as [|? ?|[[e|]|why]].
  - apply Hun. unfold served_reply. by destruct Hcl as [-> _].
  - done.
  - right. by apply (Hsv (Some e)).
  - by apply (Hsv None).
  - destruct (served_reply k) as [r|] eqn:Hr; [right|by left; apply Hun].
    destruct Hcl as [Hn|[_ Hn]]; [unfold served_reply in Hr; by rewrite Hn in Hr|].
    specialize (Hn _ eq_refl). simpl in Hn. bool_to_prop.
    destruct (Hsv r eq_refl) as [y1 E]. exists y1. by rewrite decide_False in E.
Qed.

(** C10. A caller always comes home: once its context or the root context is
    done, which the timeout of [Submit] guarantees, its own steps and the reply
    of the coordinator to a request it is serving lead it back, and there are at
    most five of them, whatever the rest of the engine does. *)
Theorem submit_returns spec (y : system) (k : call submitDecisionState system (TaskID + goerror)) :
  call_reachable (CO := sendSubmitControl spec) y k ->
  ca_ctxDone k = true \/ ca_rootDone k = true -> comes_home (sendSubmitControl spec) k.
Proof.
  intros Hk Hd. apply call_reachable_ok in Hk. split; [by apply call_returns_ok|].
  intros n k' Hn. apply own_steps_bounded in Hn; [|done]. unfold call_rank in Hn.
  pose proof (cl_client _ Hk) as Hcl.
  assert (Hone : ((if serving k then 1 else 0) <= 1)%nat) by (destruct (serving k); lia).
  destruct (ca_client k) as [|a b|r]; [|destruct a, b; simpl in Hn; lia|lia].
  destruct Hcl as [Hp _]. unfold serving in Hn. rewrite Hp in Hn. lia.
Qed.
End Requests.

(** ** Witnesses *)

Abbreviation sample_submit := (sendSubmitControl (A := controller) (L := lane) sample_clock same_order
  same_order None (Some PumpAck) (fun _ => true)) (only parsing).
Abbreviation sample_limits := (sendOwnerLimitsControl (A := controller) (L := lane) sample_clock same_order
  same_order None (Some PumpAck) (fun _ => true)) (only parsing).

(** The caller hands its request over, its deadline passes and it leaves. *)
Definition sample_left {C R} (CO : CallOps C (system (A := controller) (L := lane)) R) : call C _ R :=
  try_cancel RefusedByCtx (ClientSelect false true)
    (set_done true false (set_place InInbox (set_client (ClientSelect true true) (new_call sample_state)))).

Lemma sample_left_reachable {C R} (CO : CallOps C (system (A := controller) (L := lane)) R) :
  call_reachable sample_state (sample_left CO).
Proof.
  unfold call_reachable. eapply rtc_l; [left; by apply own_enqueue|].
  eapply rtc_l; [right; apply env_ctx_done|].
  eapply rtc_l; [left; by eapply own_ctx|]. apply rtc_refl.
Qed.

(** Then the coordinator reaches the request, and its reply finds nobody. *)
Definition sample_refused (callerCtx : nat -> option goerror) (spec : WorkSpec)
    : call submitDecisionState (system (A := controller) (L := lane)) (TaskID + goerror) :=
  let k := sample_left (sample_submit spec) in
  let '(reply, y) := serve_request sample_clock same_order same_order None (Some PumpAck) (fun _ => true)
    (ReqSubmit (Some callerCtx) spec (Some (ca_cell k))) (ca_state k) in
  match reply with
  | ReplyTicket r (Some c) =>
      mkCall y c (ca_client k) (Serving r) None (ca_ctxDone k) (ca_rootDone k) (ca_loop k) (Some (ca_state k, y))
  | _ => k
  end.

Lemma sample_refused_reachable callerCtx spec :
  call_reachable (CO := sample_submit spec) sample_state (sample_refused callerCtx spec).
Proof.
  unfold sample_refused. destruct (serve_request _ _ _ _ _ _ _ _) as [reply y] eqn:E.
  destruct reply as [r [c|]| | | | | | | |]; try apply sample_left_reachable.
  unfold call_reachable. eapply rtc_r; [apply sample_left_reachable|]. right.
  by apply (env_serve (CO := sample_submit spec) (sample_left (sample_submit spec)) r c y); [..|exists callerCtx].
Qed.


Lemma owner_limits_linearizable_witness :
  let k := sample_left (sample_limits "o" DefaultOwnerLimits) in
  ca_served k = None \/ exists y1, ca_served k = Some (y1, y1).
Proof.
  exact (owner_limits_linearizable sample_clock same_order same_order None (Some PumpAck) (fun _ => true)
    "o" DefaultOwnerLimits sample_state _ (sample_left_reachable _)).
Defined.

Lemma submit_returns_witness :
  let k := sample_refused (fun _ => None) (sample_task "t4" "o" "" None None) in
  exists k', rtc (own_step (CO := sample_submit (sample_task "t4" "o" "" None None))) k k' /\ returned k'.
Proof.
  refine (proj1 (submit_returns sample_clock same_order same_order None (Some PumpAck) (fun _ => true)
    (sample_task "t4" "o" "" None None) sample_state _ (sample_refused_reachable (fun _ => None) _) _)).
  left. vm_compute. reflexivity.
Defined.
