(* ===== verification/EngineTheorems.v ===== *)
(** * Properties of the task engine

    What holds of every reachable state of the system of EngineSystem.v, and
    what single handlers of Engine.v do. The theorems hold for every
    implementation of the controller interface; the witnesses run the
    controller of Admission.v and the delivery lane of Delivery.v. *)

From stdpp Require Import relations.
From S2P Require Import Prelude.
From S2P Require Import Execution.
From S2P Require Import Tasks.
From S2P Require Import AdmissionTypes.
From S2P Require Import DeadlineIndex.
From S2P Require Import ReadyQueue.
From S2P Require Import Admission.
From S2P Require Import AdmissionInstance.
From S2P Require Import EngineAccounting.
From S2P Require Import EngineConfig.
From S2P Require Import EngineState.
From S2P Require Import Delivery.
From S2P Require Import Engine.
From S2P Require Import EngineInvariant.
From S2P Require Import EngineSteps.
From S2P Require Import EngineDispatch.
From S2P Require Import EngineHandlers.
From S2P Require Import EngineSystem.
From S2P Require Import EngineSample.

(** ** Lemmas *)

Section Evict.
Context {A L : Type}.
#[local] Abbreviation engine := (engine A L).

Lemma evict_step_cfg (s : engine) id rest r :
  let s1 := e_set_terminalOrder rest s in
  let s2 := match r with
    | Some r => if terminal_state (r_state r)
        then e_set_registry (delete id (e_registry s1)) (release_retained (r_retainedBytes r) s1) else s1
    | None => s1 end in
  e_terminalOrder s2 = rest /\ e_maxTerminalRetained s2 = e_maxTerminalRetained s /\
  e_maxRetainedBytes s2 = e_maxRetainedBytes s.
Proof. destruct r as [r|]; [|done]. simpl. by destruct (terminal_state _). Qed.

(** The eviction loop runs to its end: the condition is false or the order is
    empty, and more fuel changes nothing. *)
Lemma evict_loop should fuel : forall (s : engine), (length (e_terminalOrder s) < fuel)%nat ->
  let s' := evict_head fuel should s in
  (should s' = false \/ e_terminalOrder s' = []) /\
  (forall n, evict_head (fuel + n) should s = s') /\
  (exists k, e_terminalOrder s' = drop k (e_terminalOrder s)) /\
  e_maxTerminalRetained s' = e_maxTerminalRetained s /\ e_maxRetainedBytes s' = e_maxRetainedBytes s.
Proof.
  induction fuel as [|fuel IH]; intros s Hf; [lia|]. cbn [evict_head Nat.add].
  destruct (should s) eqn:Hs. 2: { split_and_all; auto. by exists 0%nat. }
  destruct (e_terminalOrder s) as [|id rest] eqn:Ho. { split_and_all; auto. by exists 0%nat. }
  pose proof (evict_step_cfg s id rest (e_registry (e_set_terminalOrder rest s) !! id)) as (E1 & E2 & E3).
  cbn zeta in E1, E2, E3. set (s2 := match _ with Some r => _ | None => _ end) in *. clearbody s2.
  destruct (IH s2) as (I1 & I2 & (k & I3) & I4 & I5); [rewrite E1; simpl in Hf; lia|].
  split_and_all; [done|done| |congruence|congruence]. exists (S k). by rewrite I3, E1.
Qed.

End Evict.

(** ** Invariants of the reachable states *)

Section Reachable.
Context {A L : Type} {AO : AdmissionOps A} {LO : DeliveryOps L} {AL : AdmissionLaws A}.
#[local] Abbreviation engine := (engine A L).
Variable newDelivery : Z -> Z -> L.
Variable clock : nat -> nat -> time.
Variable pool_order : nat -> list PoolID -> list PoolID.
Variable id_order : nat -> list TaskID -> list TaskID.
Variable resolver : option (string -> option govalue -> option closure * option goerror).
Variable pump : option pump_kind.
Variable answer : nat -> bool.
Variable cfg : Config.
#[local] Abbreviation reachable :=
  (reachable newDelivery clock pool_order id_order resolver pump answer cfg).
Implicit Types (y : system (A := A) (L := L)) (s : engine).

(** C1. The coordinator never stops: in no reachable state has it closed a done
    channel twice, sent on a full or missing mailbox, indexed a worker table out
    of range, dereferenced a missing record, or called the admission controller
    outside its contract. *)
Theorem coordinator_never_stops y : reachable y -> e_faults (sys_engine y) = [].
Proof. intros H%reachable_good. apply H. Qed.

(** C4. Credit and memory accounting is exact: the result credits held and the
    active tasks are the number of tasks that are not settled, the credits never
    exceed the result capacity, the retained bytes are the sum of the charges of
    the retained records, and the pending commits are the records that wait for
    one. *)
Theorem accounting_exact y :
  reachable y ->
  let s := sys_engine y in
  e_resultSlotsHeld s = count unsettled s /\ e_activeTasks s = count unsettled s /\
  (0 < e_resultCapacity s -> count unsettled s <= e_resultCapacity s) /\
  e_retainedBytes s = msum r_retainedBytes (e_registry s) /\ 0 <= e_retainedBytes s /\
  e_commitPending s = count pending s.
Proof.
  intros H%reachable_good. destruct H as (H & _). cbn zeta. remember (sys_engine y) as s eqn:E. clear E. pose proof (eo_accounts _ _ H) as Hacc.
  assert (Hcount : msum (fun r => ind (live quiet r)) (e_registry s) = count unsettled s).
  { apply msum_ext. intros id r _. by rewrite live_quiet. }
  rewrite <- Hcount. split_and_all; try apply Hacc.
  - rewrite <- (ac_slots _ _ Hacc). apply Hacc.
  - rewrite (ac_retained _ _ Hacc). apply msum_nonneg. intros id r Hr.
    apply (rk_retained _ _ _ _ _ _ (eo_records _ _ H id r Hr)).
Qed.


(** C3. Tasks with the same ordering key never run at the same time. *)
Theorem ordering_key_exclusive y id1 id2 r1 r2 :
  reachable y ->
  e_registry (sys_engine y) !! id1 = Some r1 -> e_registry (sys_engine y) !! id2 = Some r2 ->
  flying r1 = true -> flying r2 = true ->
  ws_OrderingKey (r_spec r1) = ws_OrderingKey (r_spec r2) -> ws_OrderingKey (r_spec r1) <> "" ->
  id1 = id2.
Proof.
  intros H%reachable_good H1 H2 F1 F2 Hk Hne. destruct H as (H & _).
  pose proof (ac_locks _ _ (eo_accounts _ _ H)) as Hl. rewrite <- inflight_quiet in F1, F2.
  assert (L1 : a_locks (e_adm (sys_engine y)) !! ws_OrderingKey (r_spec r1) = Some id1) by (apply Hl; eauto).
  assert (L2 : a_locks (e_adm (sys_engine y)) !! ws_OrderingKey (r_spec r1) = Some id2).
  { apply Hl. split; [done|]. exists r2. auto. }
  congruence.
Qed.

(** The engine and its admission controller agree: the controller holds
    exactly the queued tasks, with the specification of their record, and counts
    for each owner exactly its tasks that hold a worker. *)
Theorem admission_agrees y :
  reachable y ->
  let s := sys_engine y in
  (forall id spec, (exists e, a_index (e_adm s) !! id = Some e /\ qe_Spec e = spec) <->
     (exists r, e_registry s !! id = Some r /\ r_state r = StateQueued /\ r_spec r = spec)) /\
  (forall o, a_active (e_adm s) o = count (fun r => flying r && bool_decide (ws_QuotaOwner (r_spec r) = o)) s).
Proof.
  intros H%reachable_good. destruct H as (H & _). cbn zeta. remember (sys_engine y) as s eqn:E. clear E. destruct (eo_admission _ _ H) as [Ha Hi Hq].
  split.
  - intros id spec. split.
    + intros (e & He & <-). destruct (Hi id e He) as [Hr _]. exact Hr.
    + intros (r & Hr & Hs & <-). destruct (Hq id r Hr Hs) as [e He]; [apply not_elem_of_empty|].
      exists e. split; [done|]. destruct (Hi id e He) as [(r' & Hr' & _ & <-) _].
      congruence.
  - intros o. rewrite (ac_owners _ _ (eo_accounts _ _ H)). apply msum_ext. intros id r _.
    by rewrite inflight_quiet.
Qed.

(** C36. A ticket is done exactly when its task is settled, a settled task is in
    the retention order exactly once, and a task that holds a worker has the
    permit of its last dispatch. *)
Theorem records_well_formed y id r :
  reachable y -> e_registry (sys_engine y) !! id = Some r ->
  let s := sys_engine y in
  ws_ID (r_spec r) = id /\ r_done r = terminal_state (r_state r) /\
  (id ∈ e_terminalOrder s <-> terminal_state (r_state r) = true) /\ NoDup (e_terminalOrder s) /\
  (pending r = true <-> r_durability r = durPending) /\
  (flying r = true -> exists p, r_permit r = Some p /\ pm_taskID p = id /\
     pm_pool p = ws_Pool (r_spec r) /\ pm_dispatchEpoch p = r_dispatchEpoch r).
Proof.
  intros H%reachable_good Hr. destruct H as (H & _). cbn zeta. remember (sys_engine y) as s eqn:E. clear E.
  pose proof (eo_records _ _ H id r Hr) as [K1 K2 K3 K4 K5 K6 K7 K8 K9 K10].
  assert (Hlive : live quiet r = false <-> terminal_state (r_state r) = true).
  { rewrite live_quiet. unfold unsettled. by rewrite negb_false_iff. }
  split_and_all; try done.
  - rewrite K3, live_quiet. apply negb_involutive.
  - rewrite (or_elems _ _ (eo_order _ _ H)), <- Hlive. split; [|by eauto].
    intros (x & Hx & Hxl). congruence.
  - apply (eo_order _ _ H).
  - intros Hf. destruct (K10 Hf) as (p & ? & ? & ? & ? & _). by exists p.
Qed.

(** Drained means done: when the drain channel is closed the engine takes no
    task and every task it knows is settled. *)
Theorem drained_is_idle y :
  reachable y -> e_drainDone (sys_engine y) = true ->
  let s := sys_engine y in
  e_quiesced s = true /\ e_accepting s = false /\ e_activeTasks s = 0 /\
  forall id r, e_registry s !! id = Some r -> terminal_state (r_state r) = true.
Proof.
  intros H%reachable_good Hd. destruct H as (H & _). cbn zeta. remember (sys_engine y) as s eqn:E. clear E. pose proof (eo_lifecycle _ _ H) as [L1 L2 L3].
  rewrite Hd in L3. symmetry in L3. destruct (L2 L3) as [Hq Hact]. split_and_all; auto.
  intros id r Hr. destruct (terminal_state (r_state r)) eqn:Ht; [done|].
  pose proof (live_active _ _ _ _ H Hr (live_of_not_terminal _ _ Ht)). lia.
Qed.

(** C5. Shutdown settles everything: after [applyStopFinalize], whatever was
    queued, running or waiting for a commit is in a terminal state, no credit is
    held and the drain channel is closed. *)
Theorem shutdown_settles_all y :
  reachable y -> (forall n ids, ids ⊆ id_order n ids) ->
  let s' := applyStopFinalize clock id_order (sys_engine y) in
  (forall id r, e_registry s' !! id = Some r -> terminal_state (r_state r) = true) /\
  e_activeTasks s' = 0 /\ e_resultSlotsHeld s' = 0 /\ e_accepting s' = false /\ e_drainDone s' = true /\
  forall n, zget n (e_resourceUsed s') = 0.
Proof.
  intros H%reachable_good Hord s'.
  destruct (applyStopFinalize_drains clock id_order (sys_busy y) (sys_engine y) H Hord)
    as (F1 & F2 & F3 & F4 & F5 & F6).
  destruct (applyStopFinalize_ok clock id_order (sys_busy y) (sys_engine y) H) as (H' & _).
  fold s' in F1, F2, F3, F4, F5, F6, H'. pose proof (eo_accounts _ _ H') as Hacc.
  split_and_all; try done.
  - rewrite (ac_slots _ _ Hacc), <- (ac_active _ _ Hacc). exact F2.
  - intros n. rewrite (ac_used _ _ Hacc). apply msum_zero. intros id r Hr.
    unfold inflight. by rewrite terminal_not_flying by by apply (F1 id).
Qed.


(** C37. Admission is decided at one point: a rejected submission changes nothing
    but the clock and the delivery lane, and its decision cell keeps its value;
    an accepted one was undecided, is the only task of its identifier, came
    while the engine accepted tasks, its scope was open, a result credit was free
    and its charge fitted the memory budget. *)
Theorem admitSubmit_decides (ctx : option (nat -> option goerror)) (spec : WorkSpec)
    (cell : option submitDecisionState) (s : engine) :
  scalar_ok (ws_Input spec) ->
  let '(r, cell', s') := admitSubmit clock resolver ctx spec cell s in
  match r with
  | inr _ => (exists n d, s' = e_set_delivery d (e_set_ticks n s)) /\ cell' = cell
  | inl id =>
      id = ws_ID spec /\ e_registry s !! id = None /\ e_accepting s = true /\
      (cell = None \/ (cell = Some decisionPending /\ cell' = Some decisionAccepted)) /\
      (0 < e_resultCapacity s -> e_resultSlotsHeld s < e_resultCapacity s) /\
      exists spec' bytes charge,
        admission_checks resolver ctx spec (clock (e_ticks s) 0) (e_set_ticks (S (e_ticks s)) s)
          = inl (spec', bytes, charge) /\
        spec_ok spec' /\ scope_closed s (ws_Scope spec') = None /\
        (0 < e_maxRetainedBytes s -> e_retainedBytes s + charge <= e_maxRetainedBytes s)
  end.
Proof.
  intros Hsc. unfold admitSubmit, now, tick. cbn beta iota zeta.
  destruct (admission_checks _ _ _ _ _) as [[[spec' bytes] charge]|err] eqn:E.
  2: { split; [|done]. exists (S (e_ticks s)), (e_delivery s). by destruct s. }
  destruct (admission_checks_ok _ _ _ _ _ _ _ _ E Hsc) as (Hok & Hid & Hn & _ & _ & Hacc & Hcred & Hret & _ & _ & Hscope).
  set (p := match ws_OnComplete spec' with None => _ | Some _ => _ end).
  assert (Hp : exists b d, p = (b, e_set_delivery d (e_set_ticks (S (e_ticks s)) s))).
  { unfold p. destruct (ws_OnComplete spec').
    - destruct (dl_reserve _) as [b d]. by eexists b, d.
    - exists true, (e_delivery s). by destruct s. }
  clearbody p. destruct Hp as (b & d & ->). destruct b; cbn [negb].
  2: { split; [by eexists _, d|done]. }
  assert (Hyes : ws_ID spec' = ws_ID spec /\ e_registry s !! ws_ID spec' = None /\ e_accepting s = true /\
    (0 < e_resultCapacity s -> e_resultSlotsHeld s < e_resultCapacity s)) by done.
  destruct Hyes as (Y1 & Y2 & Y3 & Y4).
  destruct cell as [c|]; [unfold decide_cell; destruct (decide (c = decisionPending)) as [->|Hc]|].
  - split_and_all; try done; [by right|]. by exists spec', bytes, charge.
  - split; [|done]. case_match; [|by eexists _, d].
    exists (S (e_ticks s)), (dl_releaseReservation d). done.
  - split_and_all; try done; [by left|]. by exists spec', bytes, charge.
Qed.

(** What cancelling a task does, by its state: an unknown task is an error;
    a queued task ends at once, its receipt says cancelled, and the controller
    gives it up; the context of a task on a worker is cancelled and the request
    recorded; a settled task or one in its commit phase is left alone. *)
Theorem applyCancel_outcome y id reason :
  reachable y ->
  let s := sys_engine y in
  let '(receipt, err, s') := applyCancel clock id reason s in
  match e_registry s !! id with
  | None => err = Some ErrTaskNotFound /\ cr_Accepted receipt = false /\ s' = s
  | Some r =>
      err = None /\
      if decide (r_state r = StateQueued) then
        cr_Accepted receipt = true /\ cr_State receipt = StateCancelled /\ closes id s s'
      else if flying r then
        cr_Accepted receipt = true /\ cr_State receipt = r_state r /\
        (exists r', e_registry s' !! id = Some r' /\ r_state r' = r_state r /\
           r_cancelRequested r' = true /\ r_cancelReason r' = reason) /\
        forall c, r_cancelFunc r = Some c -> c ∈ e_cancelledCtxs s'
      else cr_Accepted receipt = false /\ cr_State receipt = r_state r /\ s' = s
  end.
Proof.
  intros Hg%reachable_good. cbn zeta. remember (sys_engine y) as s eqn:E. clear E.
  destruct (e_registry s !! id) as [r|] eqn:Hr.
  2: { unfold applyCancel. by rewrite Hr. }
  pose proof Hg as (H & _). pose proof (rk_state _ _ _ _ _ _ (eo_records _ _ H id r Hr)) as Hst.
  destruct (decide (r_state r = StateQueued)) as [Hq|Hq].
  - destruct (applyCancel_queued clock _ id reason s r Hg Hr Hq) as [_ Hc].
    assert (E : exists s', applyCancel clock id reason s =
      (mkReceipt id true StateCancelled reason, None, s')).
    { unfold applyCancel. rewrite Hr, Hq. destruct (a_remove id (e_adm s)) as [w a].
      destruct (now _ _) as [t s1]. by eexists. }
    destruct E as [s' E]. rewrite E in Hc |- *. by split_and_all.
  - destruct (flying r) eqn:Hf.
    + unfold applyCancel. rewrite Hr.
      set (rec := r_set_cancelReason reason (r_set_cancelRequested true r)).
      assert (Hs : e_registry (cancel_ctx rec (set_rec id rec s)) !! id = Some rec).
      { destruct (cancel_ctx_eq rec (set_rec id rec s)) as [C ->]. apply lookup_insert_eq. }
      assert (Hc : forall c, r_cancelFunc r = Some c ->
        c ∈ e_cancelledCtxs (cancel_ctx rec (set_rec id rec s))).
      { intros c Hc. unfold cancel_ctx. change (r_cancelFunc rec) with (r_cancelFunc r). rewrite Hc.
        simpl. set_solver. }
      destruct (flying_states r Hf) as [Hs' | Hs']; rewrite Hs'; cbn [snd];
        split_and_all; try done; exists rec; by split_and_all.
    + unfold flying in Hf. apply bool_decide_eq_false in Hf.
      assert (Hs : r_state r = StateCommitPending \/ terminal_state (r_state r) = true) by set_solver.
      unfold applyCancel. rewrite Hr.
      destruct Hs as [Hs|Hs]; [by rewrite Hs|]. by destruct (r_state r).
Qed.


(** Workers are exclusive: the idle list of a pool has no repetition, an
    idle slot has a running worker with an empty mailbox, and a slot whose
    worker executes a task is never offered for another one. *)
Theorem workers_exclusive y pool :
  reachable y ->
  let s := sys_engine y in
  NoDup (idle_slots s pool) /\
  forall i, i ∈ idle_slots s pool -> slot_free s pool i /\ (pool, i) ∉ sys_busy y.
Proof.
  intros Hg%reachable_good s. destruct Hg as (_ & HW & _). split; [apply HW|].
  intros i Hi. by apply (wk_idle _ _ HW).
Qed.

(** Retention is bounded: after an eviction round the retained settled
    records fit their limit and the retained bytes their budget, unless no
    settled record is left to give up. The loop ends by itself: one more round
    of fuel changes nothing. *)
Theorem evictTerminalRecords_within (s : engine) :
  let s' := evictTerminalRecords s in
  (0 < e_maxTerminalRetained s -> Z.of_nat (length (e_terminalOrder s')) <= e_maxTerminalRetained s) /\
  (0 < e_maxRetainedBytes s -> e_retainedBytes s' <= e_maxRetainedBytes s \/ e_terminalOrder s' = []) /\
  (exists k, e_terminalOrder s' = drop k (e_terminalOrder s)) /\
  forall n, evict_head (S (length (e_terminalOrder s)) + n) over_retention s = s'.
Proof.
  unfold evictTerminalRecords, evictTerminalHead. cbn zeta.
  destruct (evict_loop over_retention (S (length (e_terminalOrder s))) s) as (Hend & Hfuel & Hdrop & Ecfg); [lia|].
  destruct Ecfg as [E1 E2].
  set (s' := evict_head (S (length (e_terminalOrder s))) over_retention s) in *. clearbody s'.
  split_and_all; try done.
  - intros Hm. destruct Hend as [Hf|Hn]; [|rewrite Hn; simpl; lia]. unfold over_retention in Hf.
    rewrite E1 in Hf. destruct (Z.ltb_spec 0 (e_maxTerminalRetained s)); [|lia].
    destruct (Z.ltb_spec (e_maxTerminalRetained s) (Z.of_nat (length (e_terminalOrder s')))); [done|lia].
  - intros Hm. destruct Hend as [Hf|Hn]; [left|by right]. unfold over_retention in Hf.
    rewrite E2 in Hf. destruct (_ && _) in Hf; [done|].
    apply andb_false_iff in Hf as [Hf|Hf]; bool_to_prop; lia.
Qed.

End Reachable.

(** ** Witnesses *)

Lemma coordinator_never_stops_witness : e_faults (sys_engine sample_state) = [].
Proof. exact (coordinator_never_stops _ _ _ _ _ _ _ _ _ sample_state_reachable). Defined.

Lemma accounting_exact_witness :
  e_resultSlotsHeld (sys_engine sample_state) = count unsettled (sys_engine sample_state) /\
  count unsettled (sys_engine sample_state) = 2.
Proof.
  split; [|vm_compute; reflexivity].
  exact (proj1 (accounting_exact _ _ _ _ _ _ _ _ _ sample_state_reachable)).
Defined.


(** The record of a task of the sample run. *)
Definition sample_record (id : TaskID) : taskRecord :=
  match e_registry (sys_engine sample_state) !! id with
  | Some r => r
  | None => mkRecord (sample_task id "o" "" None None) StateNone None 0 zero_result false None false "" false
      0 durNone zero_result OutcomeUnset 0 0 0 0 0 ""
  end.

Lemma sample_record_t1 : e_registry (sys_engine sample_state) !! "t1" = Some (sample_record "t1").
Proof. vm_compute. reflexivity. Qed.

Lemma ordering_key_exclusive_witness :
  flying (sample_record "t1") = true /\ ws_OrderingKey (r_spec (sample_record "t1")) = "k" /\ "t1" = "t1".
Proof.
  assert (F : flying (sample_record "t1") = true) by (vm_compute; reflexivity).
  assert (K : ws_OrderingKey (r_spec (sample_record "t1")) = "k") by (vm_compute; reflexivity).
  split; [exact F|]. split; [exact K|].
  apply (ordering_key_exclusive _ _ _ _ _ _ _ _ sample_state "t1" "t1" _ _ sample_state_reachable
    sample_record_t1 sample_record_t1 F F eq_refl). rewrite K. discriminate.
Defined.

Lemma admission_agrees_witness :
  exists r, e_registry (sys_engine sample_state) !! "t2" = Some r /\ r_state r = StateQueued /\
    r_spec r = r_spec (sample_record "t2").
Proof.
  apply (proj1 (admission_agrees _ _ _ _ _ _ _ _ _ sample_state_reachable) "t2" (r_spec (sample_record "t2"))).
  exists (default (sample_entry 0 "t2") (a_index (e_adm (sys_engine sample_state)) !! "t2")).
  vm_compute. split; reflexivity.
Defined.

Lemma records_well_formed_witness :
  ws_ID (r_spec (sample_record "t1")) = "t1".
Proof.
  exact (proj1 (records_well_formed _ _ _ _ _ _ _ _ _ "t1" _ sample_state_reachable sample_record_t1)).
Defined.

(** The sample run, shut down. *)
Definition stopped_state : system (A := controller) (L := lane) :=
  default (mkSystem sample_start.2 ∅) (sample_run (sample_events ++ [SysRequest ReqStopFinalize])).

Lemma stopped_state_reachable : sample_reachable stopped_state.
Proof.
  exists (mkSystem sample_start.2 ∅). split.
  - split; [reflexivity|]. vm_compute. reflexivity.
  - apply (run_steps_sound _ _ _ _ _ _ (sample_events ++ [SysRequest ReqStopFinalize])). vm_compute. reflexivity.
Qed.

Lemma drained_is_idle_witness :
  e_drainDone (sys_engine stopped_state) = true /\ e_activeTasks (sys_engine stopped_state) = 0.
Proof.
  assert (D : e_drainDone (sys_engine stopped_state) = true) by (vm_compute; reflexivity).
  split; [exact D|].
  exact (proj1 (proj2 (proj2 (drained_is_idle _ _ _ _ _ _ _ _ _ stopped_state_reachable D)))).
Defined.

Lemma shutdown_settles_all_witness :
  e_activeTasks (applyStopFinalize sample_clock same_order (sys_engine sample_state)) = 0.
Proof.
  refine (proj1 (proj2 (shutdown_settles_all _ _ _ _ _ _ _ _ _ sample_state_reachable _))).
  intros n ids. unfold same_order. reflexivity.
Defined.


Lemma admitSubmit_decides_witness :
  let spec := sample_task "t4" "o" "" None None in
  scalar_ok (ws_Input spec) /\
  match (admitSubmit sample_clock None None spec (Some decisionCancelled) (sys_engine sample_state)).1.1 with
  | inr _ => True | inl _ => False end /\
  (let '(r, cell', s') := admitSubmit sample_clock None None spec (Some decisionCancelled)
     (sys_engine sample_state) in
   match r with inr _ => cell' = Some decisionCancelled | inl _ => True end).
Proof.
  intros spec. split; [exact I|]. split; [vm_compute; exact I|].
  pose proof (admitSubmit_decides sample_clock None None spec (Some decisionCancelled)
    (sys_engine sample_state) I) as H.
  destruct (admitSubmit _ _ _ _ _ _) as [[[id|e] c] s']; [exact I|]. exact (proj2 H).
Defined.

Lemma applyCancel_outcome_witness :
  match (applyCancel sample_clock "t2" CauseUserCancel (sys_engine sample_state)).1.2 with
  | None => True | Some _ => False end.
Proof.
  pose proof (applyCancel_outcome _ _ _ _ _ _ _ _ _ "t2" CauseUserCancel sample_state_reachable) as H.
  cbn zeta in H. destruct (applyCancel _ _ _ _) as [[receipt err] s']. cbn [fst snd].
  assert (E : e_registry (sys_engine sample_state) !! "t2" = Some (sample_record "t2"))
    by (vm_compute; reflexivity).
  rewrite E in H. destruct H as [-> _]. exact I.
Defined.


Lemma workers_exclusive_witness : NoDup (idle_slots (sys_engine sample_state) "pool").
Proof. exact (proj1 (workers_exclusive _ _ _ _ _ _ _ _ _ "pool" sample_state_reachable)). Defined.
